(* ===== verification/_CoqProject ===== *)
-Q . S2P
Prelude.v
ByteBuf.v
Types.v
GoStd.v
Policy.v
Registry.v
Pending.v
Screen.v
Store.v
Session.v
SessionInv.v
Supervisor.v
Reach.v
Lifecycle.v
Streams.v
Terminal.v
Respond.v
Activity.v
RateLimit.v
Server.v
AttachStream.v
Tenancy.v
Enroll.v
Auth.v
EnrollServer.v
Command.v
Control.v
ControlConn.v
ControlRequests.v
ControlRead.v
Framing.v
Spool.v
Capture.v
ClientLib.v
InputWriter.v
GoText.v
Config.v
Startup.v
Reporting.v
Utf8.v
Turns.v
Json.v
Batches.v
Forward.v
Regexp.v
Redact.v
Questions.v
Scan.v
TermCapture.v
Live.v
Collect.v
Latest.v
Hooks.v
RepoSetup.v
KeyRegistry.v
Adapters.v
ClaudeSettings.v
GoJson.v
CodexApp.v
CodexRelay.v
RelaySafety.v
Disk.v
Pki.v
PkiSafety.v
PkiStart.v
PkiHistory.v
CertProvider.v
OpenCode.v
Reloader.v
GitContext.v
