(* ===== verification/Prelude.v ===== *)
(** * Verification of bridgectl

    bridgectl runs a daemon that supervises interactive agent processes
    ("sessions").  Clients attach to a session over gRPC, see its terminal
    output live and replayed, and one client at a time may type into it.  A
    daemon may be enrolled with a remote service, to which it reports its
    sessions over a control connection and from which it takes commands, and it
    may record telemetry.  This library models the daemon (src/internal/bridge,
    server, auth, enrollment, config, localserver), its control connection
    (bridgecontrol), the telemetry pipeline and the client side
    (src/pkg/bridgeclient), and proves the properties their design rests on.

    THE PROGRAM AND THE FILES

    A session is a process on a pseudo terminal or on pipes.  Its output is cut
    into numbered chunks, kept in a bounded ring in memory, written to a durable
    journal, applied to a screen emulator and fanned out to a bounded channel
    per attached client.  The supervisor owns the sessions; each operation takes
    the supervisor lock to find the session and the session lock to act.  The
    gRPC service checks rate limits, claims, arguments and project before it
    calls the supervisor.

    - Prelude: this file; machine integers, bytes, times, tactics, hints.
    - ByteBuf: bytebuf.go, the output ring [ByteBuffer] and its change channel.
    - Types: errors.go, provider.go, interaction.go; session metadata, errors
      as values, the interaction state and its revision rule.
    - GoStd: what the code uses of Go's standard library: UTF-8 decoding,
      filepath.Clean, Abs and Match, fixed-width hexadecimal.
    - Policy, Registry: policy.go, registry.go and resolveProvider.
    - Pending, Screen: screen_pending.go (the tracker of incomplete escape
      sequences and UTF-8) and screen.go (when a redraw may be served).  The
      emulator (charmbracelet/x/vt) is the class [Emulator].
    - Store: session_store.go over bbolt and encoding/json, which are the class
      [Bolt] with the laws [BoltLaws].  [SessionStore] is the interface the
      supervisor uses and [JournalLaws] what it promises; the laws are proved of
      [BoltSessionStore], and clients are proved against the interface.
    - Session, SessionInv: [managedSession] of supervisor.go and every part of
      the supervisor that runs under the session lock, one function each; live
      channels are heap objects with identities, so that closing a closed
      channel and sending on one panic as in Go.  SessionInv is the invariant
      every such function preserves.
    - Supervisor: the daemon state and every operation and goroutine section of
      supervisor.go, composed from Session.
    - Reach: the step relation of a running daemon (any operation of any client
      or goroutine, in any order), reachability, and the invariant by induction
      on it.
    - Lifecycle, Streams: start, stop, restart, shutdown, idle reaping; input
      authority and output subscriptions.
    - Terminal, Respond, Activity: terminal.go, respond.go, activity.go.
    - RateLimit: server/ratelimit.go in binary64 arithmetic.
    - Server: the unary handlers of server/server.go and validate.go in a small
      state and error monad, with the texts of refusals that name a project.
    - AttachStream: the streaming handler AttachSession as a state machine.
    - Tenancy: isolation of projects, for the unary handlers and the opening of an
      attach stream.
    - Auth: auth/jwt.go, interceptors.go, peer.go; tokens (golang-jwt is the
      class [JWT] with [JWTLaws]), the verifier and the interceptors composed
      with the handlers of Server.
    - Enroll, EnrollServer: enrollment/token.go and store.go, one-time tokens
      and their file; server/enrollment.go and enroll.go, the methods that
      redeem them and register keys.
    - Command, Control, ControlConn, ControlRequests, ControlRead: bridgecontrol;
      the command ledger, the queue of notifications with its revision counters
      and back-off, the messages of a connection, remote terminals, and the
      handshake, the reading loop and reconnection.
    - Framing, Capture, Spool: telemetry; cutting terminal output into frames,
      the asynchronous sink with its accounting, the segments on disk and their
      upload.
    - ClientLib, InputWriter: pkg/bridgeclient (retries, cursors, streams,
      credentials) and the input loop of the command line.
    - GoText: more of Go's standard library: numbers, durations, host and port,
      variables in text.
    - Config: config.go, node.go, env.go; the configuration file, its defaults
      and validation.
    - Startup: localserver.go; how a daemon comes up from options and file, how
      clients find it, and the lock of local mode.
    - Reporting: reporting.go, enrollment_reload.go, telemetry/source.go; the
      observers a daemon reports to, their credentials, and how a login makes a
      running daemon take up a new configuration.
    - Utf8, Turns: the incremental UTF-8 state of telemetry/live.go and
      analysis.go, which puts recorded events together to turns.
    - Json, Batches, Forward: encoding/json and base64 as far as requests are
      printed with them; http_batches.go and the envelope of http_forwarder.go;
      the delivery of segments by grpc_forwarder.go and http_forwarder.go to the
      collector of grpc.go.
    - Regexp: Go's regular expressions, as a backtracking search with a proof
      that it finds a match exactly where one exists.
    - Redact, Questions: the expressions, the redactor and the analyzer of
      questions.go; redactor.go; where live.go may cut a frame.
    - Scan, TermCapture, Live: live.go and terminal_capture.go; the resumable
      scan for record boundaries, transcripts of full-screen programs (the
      emulator is the class [Vt]), and the collector that joins them with
      Framing and Questions.
    - Collect: what the collector of grpc.go asks of an event.
    - Latest: a channel that keeps the latest update, as several observers use it.
    - Hooks: claudehooks/hooks.go; the state machine over Claude's lifecycle
      hooks, its receiver and the helper that reports to it.
    - RepoSetup: reposetup/setup.go; the environment a repository prepares for
      its sessions, as the runner that the Supervisor calls.
    - KeyRegistry: internal/registry; the service that keeps public keys, over
      the interface [KeyStore] with its laws and two instances.
    - Adapters, ClaudeSettings: internal/provider; environment, arguments,
      health and credentials of the agents that are launched.
    - GoJson: json.Unmarshal into structs, over syntax trees.
    - CodexApp, CodexRelay, RelaySafety: internal/codexapp; the protocol of the
      Codex app server, its observer, the client that answers its requests, and
      the relay between its TUI and the server as events.
    - Disk: a directory whose operations may fail, tear a file or be the last
      one of the process, as a monad with its rules.
    - Pki, PkiSafety, PkiStart, PkiHistory: localserver/pki.go, stepca_native.go,
      bundle.go and internal/pki; the certificates of the daemon, the replacement
      of a generation, one start, and histories of starts, renewals and edits.
      The Step CA is the class [PKIWorld].
    - CertProvider: internal/certprovider; the interface of certificate
      providers with its promise [keeps] and three instances.
    - Reloader: auth/mtls.go; how listeners pick up renewed certificates.
    - GitContext: telemetry/context.go; the key of a machine and the context of a
      session.
    - OpenCode: opencode_server.go; sessions that are servers on ports of their
      own, and the stream of their events.

    How they fit together: Startup builds from a Config the registry, the policy,
    the Supervisor, the verifier of Auth and the Server that everything else is
    about.  EnrollServer adds keys to that verifier.  The Supervisor reports to
    Control (sessions that changed) and to Live, whose Questions send events
    through Capture into the Spool that Forward empties; Command and
    ControlRequests act on it for the remote side.  ClientLib talks to
    AttachStream and is verified by Auth.  A start asks RepoSetup for the
    environment in which Adapters build the command; Hooks feed the interaction
    state of a session, as does the relay of CodexRelay; KeyRegistry serves keys
    for the verifier of Auth.  Pki prepares the files that a secure daemon listens
    with, CertProvider chooses a source of certificates from the Config.

    WHAT THE THEOREMS SHOW

    - Authority.  At most one writer per session in every reachable state;
      input reaches the provider exactly from it; hand-over of the role;
      structured responses are dispatched exactly when they may be; no request
      changes a session of a project its token does not allow, and answers do not
      depend on what such sessions hold, beyond the project's name in a refusal;
      an authorisation cannot be invalidated before it is used.
    - Output.  The ring is the longest suffix of the output that fits; replay
      and live output join without gap or repeat under every interleaving; an
      attach stream, live, recovered or of the history, sends rising sequence
      numbers, skips only what was never kept, and announces a gap before it
      resumes elsewhere; the exit is announced after everything was sent; windows
      and activity windows are exact; a checkpoint is the current screen; the
      journal round-trips and pages completely.
    - Lifecycle.  A stop is final, shutdown is sound, a restart accounts for
      every session and rebuilds its ring, starts respect limits and policy.
    - Faults.  The only operation of a running daemon that can panic is
      characterised exactly; bans of the circuit breaker are earned and last
      five minutes.
    - Admission.  However a daemon is configured, what listens on TCP serves
      only tokens that a registered key signed, for this audience, unexpired and
      short-lived, and then only sessions of their project; an enrollment token
      is redeemed once, and a failed enrollment leaves no key behind, at most a torn
      file.
    - Configuration.  An accepted file meets what the components built from it
      assume, but for a rate that is not a number, and a daemon that started has limits in force and only registered
      fallbacks; a running daemon is found by its clients; in local mode there
      is one at a time.
    - Remote control.  A command is dispatched at most once across replays,
      crashes and failed writes; the revisions on the wire are contiguous; a
      remote writer lease ends; requests for another installation have no effect;
      a reload is answered truthfully, at any interleaving with the loop of the
      daemon, and sends credentials only where they belong.
    - Telemetry.  Framing does not depend on how output is chunked and
      terminates; the accounting of captured events is exact; stored records
      survive crashes, evictions are within the budget, and nothing is removed
      before it was uploaded or the collector acknowledged it, whatever messages
      are lost or late; requests carry every event whole and within the limits;
      turns hold exactly the texts of the events taken.  Output and input leave
      in records that lose no byte and, for UTF-8, do not depend on chunking;
      redaction leaves out every place where a match begins, frames are cut where no credential is split; events
      are numbered and answers correlated exactly; what is sent is accepted by
      the collector exactly when its redaction is stable, its kind is wanted and
      its context valid.
    - Agents.  The state a hook observer reports does not depend on map order or
      on how its channel is emptied, a permission request lives exactly as long
      as its call; repository setup stays inside the repository and the limits,
      and sharing a run is invisible; a child's environment carries the
      credentials it should and no others; a server is served the keys of its
      issuers, uploaded by their holders.  The Codex relay changes no frame but
      its own, and a remote answer goes to the pending request it names, once.
    - Certificates.  On a disk without faults, after any history of starts in any
      mode, renewals and edits, a start that succeeds has a matching, fresh
      certificate of the CA asked for, and an identity survives any sequence of
      renewals, whatever the provider; replacing a generation is all or nothing
      under faults (a renewal in place is not, and is shown not to be); handshakes get the
      pair that is on disk.
    - Client.  Resuming a stream loses and repeats nothing while callbacks work; the
      token attached to a call is accepted; what is typed arrives in order.

    Behaviour of the code that contradicts its documentation or its purpose is
    stated as a lemma of its own at the end of the file concerned, evaluated on a
    concrete run (a file that asks for mutual TLS and starts without it, a
    torn cursor file that sticks, a stop that removes its successor's socket, and
    so on).

    CONVENTIONS

    Operating system answers (clock, reads, writes, process liveness) are
    arguments; calls to the world are recorded in order in [trace].  A Go call
    returns an [outcome]: a value, an error or a panic.  [uint64] values are
    [Z] with [u64] written where the code's arithmetic can wrap; theorems about
    sequence numbers assume they stay below 2^64.  Fuel appears only where a
    loop consumes its input, and is the length of that input (rune decoding,
    path matching, escape stripping), so it cannot run out; a viewer reading
    windows is given one read more than there are chunks ahead of it.  Go maps are [gmap];
    an iteration over one has the order of [map_to_list] or of an argument, and no
    theorem depends on that order.  One locked section is one atomic step; code between two
    sections may be interleaved with anything.  The one exception is input: the check of the
    writer and the write to its terminal, which the code does after unlocking, are one step.

    WHAT IS NOT MODELLED

    Logging; the drawing of the screen grid; goroutine scheduling fairness;
    file opening and closing; the 5-second deadline of provider calls; fused
    multiply-add, which Go may use for the token refill on some processors.
    Third-party code (bbolt, golang-jwt, the terminal emulator, YAML, byte
    sizes, object stores) and what the standard library does with JSON, URLs,
    certificates and signatures are parameters with the laws the code relies on.
    Of certificates: enrollment through a browser, cross-signing, the bytes of
    PEM and DER.  Of the local server: the list of remotes and the copy for a
    deployment.  Of telemetry: reports and the JSONL file.  Of the provider
    adapters: processes and pseudo terminals.  Also diagnostics and the commands
    other than the input loop; most of them are glue around libraries, terminal
    output and flags. *)

From stdpp Require Export base gmap strings list sets numbers option.
From Stdlib Require Export ZArith Lia.
From Stdlib Require Strings.Byte Strings.String.

#[global] Open Scope Z_scope.

(** ** Machine integers: a [w]-bit unsigned integer is a [Z] kept in range. *)

Definition two32 : Z := 4294967296.
Definition two64 : Z := 18446744073709551616.

Definition u16 (x : Z) : Z := x mod 65536.
Definition u32 (x : Z) : Z := x mod two32.
Definition u64 (x : Z) : Z := x mod two64.

(** ** Bytes, strings, lengths *)

Abbreviation bytes := (list Byte.byte).

Definition byte_val (b : Byte.byte) : Z := Z.of_N (Byte.to_N b).

#[export] Instance byte_eq_dec : EqDecision Byte.byte := Byte.byte_eq_dec.

Definition zlen {A} (l : list A) : Z := Z.of_nat (length l).
Definition slen (s : string) : Z := Z.of_nat (String.length s).

Definition bytes_of_string (s : string) : bytes := String.list_byte_of_string s.
Definition string_of_bytes (b : bytes) : string := String.string_of_list_byte b.

#[global] Arguments zlen : simpl never.
#[global] Arguments slen : simpl never.
#[global] Arguments u16 : simpl never.
#[global] Arguments u32 : simpl never.
#[global] Arguments u64 : simpl never.
#[global] Arguments byte_val : simpl never.

(** Instants are nanoseconds counted from Go's zero [time.Time], so the zero
    value of the type is [0]; durations are nanoseconds. *)
Abbreviation Time := Z (only parsing).
Abbreviation Duration := Z (only parsing).

Definition Millisecond : Duration := 1000000.
Definition Second : Duration := 1000000000.
Definition Minute : Duration := 60000000000.

Definition Time_IsZero (t : Time) : bool := t =? 0.

(** ** Boolean equality on strings, as Go's [==]. *)
Definition str_eqb (a b : string) : bool := bool_decide (a = b).

(** ** Tactics *)

Create HintDb bridge.

Ltac split_and_all := repeat match goal with |- _ /\ _ => split end.

Ltac bool_to_prop :=
  repeat match goal with
  | H : andb _ _ = true |- _ => apply andb_true_iff in H; destruct H
  | H : orb _ _ = false |- _ => apply orb_false_iff in H; destruct H
  | H : negb _ = true |- _ => apply negb_true_iff in H
  | H : negb _ = false |- _ => apply negb_false_iff in H
  | H : (_ <? _) = true |- _ => apply Z.ltb_lt in H
  | H : (_ <? _) = false |- _ => apply Z.ltb_ge in H
  | H : (_ <=? _) = true |- _ => apply Z.leb_le in H
  | H : (_ <=? _) = false |- _ => apply Z.leb_gt in H
  | H : (_ =? _) = true |- _ => apply Z.eqb_eq in H
  | H : (_ =? _) = false |- _ => apply Z.eqb_neq in H
  | H : str_eqb _ _ = true |- _ => apply bool_decide_eq_true in H
  | H : str_eqb _ _ = false |- _ => apply bool_decide_eq_false in H
  | H : bool_decide _ = true |- _ => apply bool_decide_eq_true in H
  | H : bool_decide _ = false |- _ => apply bool_decide_eq_false in H
  end.

(** Case-split the first [match]/[if] scrutinee of the goal (resp. of [H]),
    keeping the equation. *)
Ltac case_goal :=
  match goal with
  | |- context [ match ?x with _ => _ end ] =>
      lazymatch x with context [ match _ with _ => _ end ] => fail | _ => idtac end;
      let E := fresh "E" in destruct x eqn:E
  end.

Ltac case_hyp H :=
  match type of H with
  | context [ match ?x with _ => _ end ] =>
      lazymatch x with context [ match _ with _ => _ end ] => fail | _ => idtac end;
      let E := fresh "E" in destruct x eqn:E
  end.

(** ** Lemmas on integers *)

Lemma u64_small (x : Z) : 0 <= x < two64 -> u64 x = x.
Proof. intros; unfold u64; apply Z.mod_small; assumption. Qed.

Lemma u64_range (x : Z) : 0 <= u64 x < two64.
Proof. unfold u64; apply Z.mod_pos_bound; reflexivity. Qed.

Lemma u32_range (x : Z) : 0 <= u32 x < two32.
Proof. unfold u32; apply Z.mod_pos_bound; reflexivity. Qed.

(** ** Lemmas on lists and lengths *)

Lemma zlen_nil {A} : zlen (@nil A) = 0.
Proof. reflexivity. Qed.

Lemma zlen_cons {A} (x : A) l : zlen (x :: l) = zlen l + 1.
Proof. unfold zlen; simpl length; lia. Qed.

Lemma zlen_app {A} (l k : list A) : zlen (l ++ k) = zlen l + zlen k.
Proof. unfold zlen; rewrite length_app; lia. Qed.

Lemma zlen_nonneg {A} (l : list A) : 0 <= zlen l.
Proof. unfold zlen; lia. Qed.

Lemma zlen_0_nil {A} (l : list A) : zlen l = 0 -> l = [].
Proof. unfold zlen; destruct l; [reflexivity | simpl; lia]. Qed.

#[export] Hint Rewrite @zlen_nil @zlen_cons @zlen_app : bridge.
#[export] Hint Resolve zlen_nonneg u64_range : bridge.

Lemma str_eqb_refl (a : string) : str_eqb a a = true.
Proof. apply bool_decide_eq_true; reflexivity. Qed.

Lemma str_eqb_eq (a b : string) : str_eqb a b = true <-> a = b.
Proof. apply bool_decide_eq_true. Qed.

Lemma str_eqb_neq (a b : string) : str_eqb a b = false <-> a <> b.
Proof. apply bool_decide_eq_false. Qed.
