(* ===== verification/ByteBuf.v ===== *)
(** * The PTY output ring: internal/bridge/bytebuf.go

    Output chunks (provider.go), the bounded buffer with byte-based retention
    and 64-bit sequence numbers, and its change notification.  [Log] is the
    abstract specification, the unbounded list of everything ever appended;
    the refinement theorems relate the ring to the longest suffix of that log
    that fits the budget. *)

From S2P Require Import Prelude.

(** ** Data (provider.go) *)

Inductive ChunkType :=
| ChunkTypeOutput
| ChunkTypeThinking
| ChunkTypeWriterClaimed
| ChunkTypeWriterReleased.

Record OutputChunk := MkChunk {
  Cols : Z;
  Rows : Z;
  Seq : Z;
  Timestamp : Time;
  Payload : bytes;
  Type_ : ChunkType;
}.

(** The channel [changed] is a heap object readers keep a reference to, so it
    has an identity: [chanNext] numbers the channels made so far and
    [chanClosed] holds the ones that were closed. *)
Record ByteBuffer := MkBuffer {
  capacity : Z;
  total : Z;
  nextSeq : Z;
  chunks : list OutputChunk;
  changed : option nat;
  chanNext : nat;
  chanClosed : gset nat;
}.

#[export] Instance ChunkType_eq_dec : EqDecision ChunkType.
Proof. solve_decision. Defined.

#[export] Instance OutputChunk_eq_dec : EqDecision OutputChunk.
Proof. solve_decision. Defined.

(** ** Operations *)

Definition NewByteBuffer (cap : Z) : ByteBuffer :=
  let cap := if cap <=? 0 then 8388608 else cap in
  MkBuffer cap 0 1 [] None 0%nat ∅.

(** [notifyLocked]: close the channel readers wait on, if any, and make a new
    one. *)
Definition notifyLocked (b : ByteBuffer) : ByteBuffer :=
  let closed := match changed b with
                | Some c => {[c]} ∪ chanClosed b
                | None => chanClosed b
                end in
  MkBuffer (capacity b) (total b) (nextSeq b) (chunks b)
           (Some (chanNext b)) (S (chanNext b)) closed.

(** [changes]: the channel the next append will close. *)
Definition changes (b : ByteBuffer) : nat * ByteBuffer :=
  match changed b with
  | Some c => (c, b)
  | None => (chanNext b,
             MkBuffer (capacity b) (total b) (nextSeq b) (chunks b)
                      (Some (chanNext b)) (S (chanNext b)) (chanClosed b))
  end.

(** The eviction loop shared by the two append operations:
    [for (b.total > b.capacity || len(b.chunks) > 65536) && len(b.chunks) > 0]. *)
Fixpoint evict (cap tot : Z) (cs : list OutputChunk) : Z * list OutputChunk :=
  match cs with
  | [] => (tot, [])
  | c :: rest =>
      if (cap <? tot) || (65536 <? zlen cs)
      then evict cap (tot - zlen (Payload c)) rest
      else (tot, cs)
  end.

Definition AppendSized (b : ByteBuffer) (payload : bytes) (ctype : ChunkType)
    (cols rows : Z) (now : Time) : OutputChunk * ByteBuffer :=
  let chunk := MkChunk cols rows (nextSeq b) now payload ctype in
  let b := notifyLocked b in
  let '(tot, cs) := evict (capacity b) (total b + zlen payload) (chunks b ++ [chunk]) in
  (chunk, MkBuffer (capacity b) tot (u64 (nextSeq b + 1)) cs
                   (changed b) (chanNext b) (chanClosed b)).

Definition AppendTyped (b : ByteBuffer) (payload : bytes) (ctype : ChunkType) (now : Time) :=
  AppendSized b payload ctype 0 0 now.

Definition Append (b : ByteBuffer) (payload : bytes) (now : Time) :=
  AppendTyped b payload ChunkTypeOutput now.

(** [AppendChunk]: rebuild from durable storage, keeping sequence and time. *)
Definition AppendChunk (b : ByteBuffer) (chunk : OutputChunk) : OutputChunk * ByteBuffer :=
  let b := notifyLocked b in
  let next := if nextSeq b <=? Seq chunk then u64 (Seq chunk + 1) else nextSeq b in
  let '(tot, cs) := evict (capacity b) (total b + zlen (Payload chunk)) (chunks b ++ [chunk]) in
  (chunk, MkBuffer (capacity b) tot next cs (changed b) (chanNext b) (chanClosed b)).

Definition After (b : ByteBuffer) (afterSeq : Z) : list OutputChunk :=
  List.filter (fun c => negb (Seq c <=? afterSeq)) (chunks b).

Definition OldestSeq (b : ByteBuffer) : Z :=
  match chunks b with
  | [] => 0
  | c :: _ => Seq c
  end.

Definition LastSeq (b : ByteBuffer) : Z := u64 (nextSeq b - 1).

(** ** Abstract specification: the log of everything appended *)

Definition payload_bytes (cs : list OutputChunk) : Z :=
  fold_right (fun c acc => zlen (Payload c) + acc) 0 cs.

Definition fits (cap : Z) (cs : list OutputChunk) : bool :=
  (payload_bytes cs <=? cap) && (zlen cs <=? 65536).

(** The longest suffix of the log that fits the budget. *)
Fixpoint retained (cap : Z) (log : list OutputChunk) : list OutputChunk :=
  match log with
  | [] => []
  | c :: rest => if fits cap log then log else retained cap rest
  end.

(** One appended item: payload, type, geometry and clock reading. *)
Record item := MkItem { it_payload : bytes; it_type : ChunkType; it_cols : Z; it_rows : Z; it_now : Time }.

(** The log after appending [items] to a fresh session: sequence numbers count
    from [n]. *)
Fixpoint log_of (n : Z) (items : list item) : list OutputChunk :=
  match items with
  | [] => []
  | i :: rest =>
      MkChunk (it_cols i) (it_rows i) n (it_now i) (it_payload i) (it_type i)
      :: log_of (n + 1) rest
  end.

Definition append_all (b : ByteBuffer) (items : list item) : ByteBuffer :=
  fold_left (fun b i =>
    snd (AppendSized b (it_payload i) (it_type i) (it_cols i) (it_rows i) (it_now i))) items b.

(** ** Invariant of the ring *)

Fixpoint contiguous (n : Z) (cs : list OutputChunk) : Prop :=
  match cs with
  | [] => True
  | c :: rest => Seq c = n /\ contiguous (n + 1) rest
  end.

Record buffer_wf (b : ByteBuffer) : Prop := {
  wf_capacity : 0 < capacity b;
  wf_total : total b = payload_bytes (chunks b);
  wf_fits : fits (capacity b) (chunks b) = true;
}.

(** ** Lemmas *)

Lemma payload_bytes_app l k : payload_bytes (l ++ k) = payload_bytes l + payload_bytes k.
Proof. induction l as [|c l IH]; simpl; [reflexivity | rewrite IH; lia]. Qed.

Lemma payload_bytes_nonneg l : 0 <= payload_bytes l.
Proof. induction l as [|c l IH]; simpl; [lia | pose proof (zlen_nonneg (Payload c)); lia]. Qed.

#[export] Hint Resolve payload_bytes_nonneg : bridge.

Lemma fits_spec cap cs :
  fits cap cs = true <-> payload_bytes cs <= cap /\ zlen cs <= 65536.
Proof. unfold fits; rewrite andb_true_iff, !Z.leb_le; reflexivity. Qed.

(** The loop computes the longest fitting suffix and keeps [total] exact. *)
Lemma evict_retained cap cs :
  evict cap (payload_bytes cs) cs = (payload_bytes (retained cap cs), retained cap cs).
Proof.
  induction cs as [|c cs IH]; [reflexivity|].
  simpl evict; simpl retained; unfold fits.
  change (zlen (Payload c) + payload_bytes cs) with (payload_bytes (c :: cs)).
  destruct (Z.ltb_spec cap (payload_bytes (c :: cs))) as [H|H]; simpl orb.
  - rewrite (proj2 (Z.leb_gt _ _) H); simpl andb.
    replace (payload_bytes (c :: cs) - zlen (Payload c)) with (payload_bytes cs)
      by (simpl; lia).
    exact IH.
  - rewrite (proj2 (Z.leb_le _ _) H); simpl andb.
    destruct (Z.ltb_spec 65536 (zlen (c :: cs))) as [K|K].
    + rewrite (proj2 (Z.leb_gt _ _) K).
      replace (payload_bytes (c :: cs) - zlen (Payload c)) with (payload_bytes cs)
        by (simpl; lia).
      exact IH.
    + rewrite (proj2 (Z.leb_le _ _) K); reflexivity.
Qed.

Lemma retained_fits cap cs : 0 <= cap -> fits cap (retained cap cs) = true.
Proof.
  intros Hc; induction cs as [|c cs IH].
  - apply fits_spec; unfold zlen; simpl; lia.
  - simpl; destruct (fits cap (c :: cs)) eqn:E; auto.
Qed.

Lemma retained_id cap cs : fits cap cs = true -> retained cap cs = cs.
Proof. destruct cs as [|c cs]; [reflexivity|]; intros H; simpl retained; rewrite H; reflexivity. Qed.

Lemma retained_suffix cap cs : retained cap cs `suffix_of` cs.
Proof.
  induction cs as [|c cs IH]; [reflexivity|]; simpl.
  destruct (fits cap (c :: cs)); [reflexivity | apply suffix_cons_r, IH].
Qed.

Lemma fits_suffix cap k cs : k `suffix_of` cs -> fits cap cs = true -> fits cap k = true.
Proof.
  intros [p ->]; rewrite !fits_spec, payload_bytes_app, zlen_app.
  pose proof (payload_bytes_nonneg p); pose proof (zlen_nonneg p); lia.
Qed.

(** No longer suffix fits: [retained] is maximal. *)
Lemma retained_maximal cap cs k :
  k `suffix_of` cs -> fits cap k = true -> k `suffix_of` retained cap cs.
Proof.
  induction cs as [|c cs IH]; intros Hs Hf.
  - apply suffix_nil_inv in Hs; subst; reflexivity.
  - simpl; destruct (fits cap (c :: cs)) eqn:E; [exact Hs|].
    destruct k as [|y k]; [apply suffix_nil|].
    apply suffix_cons_inv in Hs as [Hs|Hs]; [congruence | auto].
Qed.

(** Evicting incrementally is evicting from the whole log. *)
Lemma retained_app cap cs c :
  0 <= cap -> retained cap (retained cap cs ++ [c]) = retained cap (cs ++ [c]).
Proof.
  intros Hc; induction cs as [|x cs IH]; [reflexivity|].
  simpl retained at 2; destruct (fits cap (x :: cs)) eqn:E; [reflexivity|].
  rewrite IH; simpl app; simpl retained at 2.
  replace (fits cap (x :: cs ++ [c])) with false; [reflexivity|].
  symmetry; apply not_true_iff_false; intros H.
  apply not_true_iff_false in E; apply E.
  change (x :: cs ++ [c]) with ((x :: cs) ++ [c]) in H.
  rewrite fits_spec in H |- *.
  rewrite payload_bytes_app, zlen_app in H.
  pose proof (payload_bytes_nonneg [c]); pose proof (zlen_nonneg [c]); lia.
Qed.

Lemma contiguous_app n l k :
  contiguous n (l ++ k) <-> contiguous n l /\ contiguous (n + zlen l) k.
Proof.
  revert n; induction l as [|c l IH]; intros n; simpl.
  - rewrite zlen_nil, Z.add_0_r; tauto.
  - rewrite IH, zlen_cons.
    replace (n + 1 + zlen l) with (n + (zlen l + 1)) by lia; tauto.
Qed.

Lemma contiguous_seq_range n cs c :
  contiguous n cs -> c ∈ cs -> n <= Seq c < n + zlen cs.
Proof.
  revert n; induction cs as [|x cs IH]; intros n H Hin; [inversion Hin|].
  destruct H as [Hx H]; rewrite zlen_cons; pose proof (zlen_nonneg cs).
  apply elem_of_cons in Hin as [->|Hin]; [lia | specialize (IH _ H Hin); lia].
Qed.

Lemma log_of_app n l k : log_of n (l ++ k) = log_of n l ++ log_of (n + zlen l) k.
Proof.
  revert n; induction l as [|i l IH]; intros n; simpl.
  - rewrite zlen_nil, Z.add_0_r; reflexivity.
  - rewrite IH, zlen_cons; do 3 f_equal; lia.
Qed.

Lemma log_of_contiguous n items : contiguous n (log_of n items).
Proof. revert n; induction items as [|i items IH]; intros n; simpl; auto. Qed.

Lemma zlen_log_of n items : zlen (log_of n items) = zlen items.
Proof.
  revert n; induction items as [|i items IH]; intros n; simpl; [reflexivity|].
  rewrite !zlen_cons, IH; reflexivity.
Qed.

(** One append: the chunk carries the next sequence number, and the ring is
    the retained suffix of what it held plus that chunk. *)
Lemma AppendSized_spec b payload ctype cols rows now c b' :
  buffer_wf b -> AppendSized b payload ctype cols rows now = (c, b') ->
  c = MkChunk cols rows (nextSeq b) now payload ctype /\
  capacity b' = capacity b /\ nextSeq b' = u64 (nextSeq b + 1) /\
  chunks b' = retained (capacity b) (chunks b ++ [c]) /\
  total b' = payload_bytes (chunks b').
Proof.
  intros [Hc Ht Hf] H; unfold AppendSized in H; simpl in H.
  set (k := MkChunk cols rows (nextSeq b) now payload ctype) in *.
  replace (total b + zlen payload) with (payload_bytes (chunks b ++ [k])) in H
    by (rewrite payload_bytes_app, Ht; subst k; simpl; lia).
  rewrite evict_retained in H; injection H as <- <-; simpl; auto.
Qed.

Lemma AppendSized_wf b payload ctype cols rows now :
  buffer_wf b -> buffer_wf (snd (AppendSized b payload ctype cols rows now)).
Proof.
  intros Hb; destruct (AppendSized b payload ctype cols rows now) as [c b'] eqn:E.
  destruct (AppendSized_spec _ _ _ _ _ _ _ _ Hb E) as (-> & Hcap & _ & Hch & Ht).
  destruct Hb as [Hc _ _]; constructor; simpl; [congruence | exact Ht |].
  rewrite Hch, Hcap; apply retained_fits; lia.
Qed.

Lemma AppendChunk_spec b chunk c b' :
  buffer_wf b -> AppendChunk b chunk = (c, b') ->
  c = chunk /\ capacity b' = capacity b /\
  nextSeq b' = (if nextSeq b <=? Seq chunk then u64 (Seq chunk + 1) else nextSeq b) /\
  chunks b' = retained (capacity b) (chunks b ++ [chunk]) /\
  total b' = payload_bytes (chunks b').
Proof.
  intros [Hc Ht Hf] H; unfold AppendChunk in H; simpl in H.
  replace (total b + zlen (Payload chunk)) with (payload_bytes (chunks b ++ [chunk])) in H
    by (rewrite payload_bytes_app, Ht; simpl; lia).
  rewrite evict_retained in H; injection H as <- <-; simpl; auto.
Qed.

Lemma AppendChunk_wf b chunk : buffer_wf b -> buffer_wf (snd (AppendChunk b chunk)).
Proof.
  intros Hb; destruct (AppendChunk b chunk) as [c b'] eqn:E.
  destruct (AppendChunk_spec _ _ _ _ Hb E) as (-> & Hcap & _ & Hch & Ht).
  destruct Hb as [Hc _ _]; constructor; simpl; [congruence | exact Ht |].
  rewrite Hch, Hcap; apply retained_fits; lia.
Qed.

Lemma NewByteBuffer_wf cap : buffer_wf (NewByteBuffer cap).
Proof.
  unfold NewByteBuffer; destruct (Z.leb_spec cap 0);
    constructor; simpl; try lia; apply fits_spec; unfold zlen; simpl; lia.
Qed.

#[export] Hint Resolve AppendSized_wf AppendChunk_wf NewByteBuffer_wf : bridge.

Lemma append_all_snoc b items i :
  append_all b (items ++ [i]) =
  snd (AppendSized (append_all b items) (it_payload i) (it_type i) (it_cols i) (it_rows i) (it_now i)).
Proof. unfold append_all; rewrite fold_left_app; reflexivity. Qed.

Lemma append_all_wf b items : buffer_wf b -> buffer_wf (append_all b items).
Proof.
  intros Hb; induction items as [|i items IH] using rev_ind; [exact Hb|].
  rewrite append_all_snoc; auto with bridge.
Qed.

(** The simulation: a fresh ring after [items] holds the retained suffix of
    the log of [items], and its counter has not wrapped. *)
Lemma append_all_sim cap items :
  zlen items < two64 - 1 ->
  let b0 := NewByteBuffer cap in
  let b := append_all b0 items in
  buffer_wf b /\ capacity b = capacity b0 /\ nextSeq b = zlen items + 1 /\
  chunks b = retained (capacity b0) (log_of 1 items).
Proof.
  intros Hn b0 b; subst b; split; [apply append_all_wf, NewByteBuffer_wf|].
  induction items as [|i items IH] using rev_ind.
  - subst b0; unfold NewByteBuffer; destruct (cap <=? 0); split_and!; reflexivity.
  - rewrite zlen_app, zlen_cons, zlen_nil in Hn.
    destruct IH as (Hcap & Hnext & Hch); [lia|].
    pose proof (append_all_wf b0 items (NewByteBuffer_wf cap)) as Hwf.
    rewrite append_all_snoc.
    destruct (AppendSized _ _ _ _ _ _) as [c b'] eqn:E.
    destruct (AppendSized_spec _ _ _ _ _ _ _ _ Hwf E) as (-> & Hcap' & Hnext' & Hch' & _).
    simpl snd; rewrite Hnext in Hch', Hnext'.
    pose proof (zlen_nonneg items).
    rewrite Hcap', Hnext', Hch', Hcap, Hch; split_and!; [reflexivity | |].
    + rewrite u64_small, zlen_app, zlen_cons, zlen_nil; lia.
    + rewrite retained_app, log_of_app
        by (destruct (NewByteBuffer_wf cap) as [K _ _]; subst b0; lia).
      simpl log_of; do 4 f_equal; lia.
Qed.

(** Filtering by sequence commutes with dropping an older prefix. *)
Lemma filter_after_suffix n p cs s :
  contiguous n (p ++ cs) -> n + zlen p - 1 <= s ->
  List.filter (fun c => negb (Seq c <=? s)) (p ++ cs) =
  List.filter (fun c => negb (Seq c <=? s)) cs.
Proof.
  revert n; induction p as [|x p IH]; intros n Hc Hs; [reflexivity|].
  destruct Hc as [Hx Hc]; rewrite zlen_cons in Hs; pose proof (zlen_nonneg p); simpl.
  rewrite (proj2 (Z.leb_le (Seq x) s)) by lia; simpl.
  apply (IH (n + 1)); [exact Hc | lia].
Qed.

Lemma changes_current b c b' : changes b = (c, b') -> changed b' = Some c.
Proof. unfold changes; destruct (changed b) eqn:E; intros [= <- <-]; auto. Qed.

Lemma notifyLocked_closes b c : changed b = Some c -> c ∈ chanClosed (notifyLocked b).
Proof. unfold notifyLocked; intros ->; simpl; set_solver. Qed.

Lemma notifyLocked_keeps b c : c ∈ chanClosed b -> c ∈ chanClosed (notifyLocked b).
Proof. unfold notifyLocked; destruct (changed b); simpl; set_solver. Qed.

Lemma AppendSized_closed b p t cols rows now :
  chanClosed (snd (AppendSized b p t cols rows now)) = chanClosed (notifyLocked b).
Proof. unfold AppendSized; destruct (evict _ _ _); reflexivity. Qed.

Lemma append_all_closed b items c :
  c ∈ chanClosed b -> c ∈ chanClosed (append_all b items).
Proof.
  intros H; induction items as [|i items IH] using rev_ind; [exact H|].
  rewrite append_all_snoc, AppendSized_closed; apply notifyLocked_keeps, IH.
Qed.

(** Appending the chunk that [AppendSized] would build is [AppendSized]. *)
Lemma AppendChunk_AppendSized b p t cols rows now :
  AppendChunk b (MkChunk cols rows (nextSeq b) now p t) = AppendSized b p t cols rows now.
Proof.
  unfold AppendChunk, AppendSized; simpl; rewrite Z.leb_refl; reflexivity.
Qed.

Lemma After_In b s c : c ∈ After b s <-> c ∈ chunks b /\ s < Seq c.
Proof.
  unfold After; rewrite !list_elem_of_In, List.filter_In, negb_true_iff, Z.leb_gt; reflexivity.
Qed.

(** Replaying a journal through [AppendChunk] rebuilds the ring the original
    appends had produced. *)
Lemma rebuild_log (cap : Z) (items : list item) :
  zlen items < two64 - 1 ->
  fold_left (fun b c => snd (AppendChunk b c)) (log_of 1 items) (NewByteBuffer cap) =
  append_all (NewByteBuffer cap) items.
Proof.
  intros Hn; induction items as [|i items IH] using rev_ind; [reflexivity|].
  rewrite zlen_app, zlen_cons, zlen_nil in Hn.
  rewrite log_of_app, fold_left_app, IH by lia; rewrite append_all_snoc; simpl.
  destruct (append_all_sim cap items ltac:(lia)) as (_ & _ & Hnext & _).
  rewrite <- AppendChunk_AppendSized, Hnext, Z.add_comm; reflexivity.
Qed.

(** ** Properties *)

(** C20. After any sequence of fewer than 2^64-1 appends to a fresh buffer the
    ring holds exactly the longest suffix of everything appended that fits the
    byte budget and the limit of 65536 chunks; its byte count is that of the
    chunks held; the last number is the number of appends, even when nothing is
    held, and the oldest is that of the first chunk held (0 if none). *)
Theorem ring_refines_log (cap : Z) (items : list item)
    (Hn : zlen items < two64 - 1) :
  let b := append_all (NewByteBuffer cap) items in
  let log := log_of 1 items in
  chunks b `suffix_of` log /\
  payload_bytes (chunks b) <= capacity b /\ zlen (chunks b) <= 65536 /\
  (forall k, k `suffix_of` log -> payload_bytes k <= capacity b -> zlen k <= 65536 ->
     k `suffix_of` chunks b) /\
  total b = payload_bytes (chunks b) /\
  LastSeq b = zlen items /\
  OldestSeq b = (if bool_decide (chunks b = []) then 0 else zlen items + 1 - zlen (chunks b)).
Proof.
  intros b log; destruct (append_all_sim cap items Hn) as (Hwf & Hcap & Hnext & Hch).
  fold b in Hwf, Hcap, Hnext, Hch; fold log in Hch.
  pose proof (retained_suffix (capacity (NewByteBuffer cap)) log) as Hsuf; rewrite <- Hch in Hsuf.
  destruct Hwf as [Hc Ht Hf]; pose proof (proj1 (fits_spec _ _) Hf).
  pose proof (zlen_nonneg items); split_and!; try tauto.
  - intros k Hk H1 H2; rewrite Hch; apply retained_maximal; [exact Hk|].
    rewrite <- Hcap; apply fits_spec; auto.
  - unfold LastSeq; rewrite Hnext, u64_small; lia.
  - destruct Hsuf as [p Hp].
    pose proof (log_of_contiguous 1 items) as Hct; fold log in Hct.
    assert (zlen log = zlen p + zlen (chunks b)) as Hz by (rewrite Hp at 1; apply zlen_app).
    unfold log in Hz; rewrite zlen_log_of in Hz.
    rewrite Hp in Hct; apply contiguous_app in Hct as [_ Hct].
    unfold OldestSeq; destruct (chunks b) as [|x cs]; [reflexivity|].
    rewrite bool_decide_eq_false_2 by discriminate; destruct Hct as [-> _]; lia.
Qed.

Lemma ring_refines_log_witness :
  let items := [MkItem (bytes_of_string "abc") ChunkTypeOutput 80 24 10;
                MkItem (bytes_of_string "de") ChunkTypeOutput 80 24 11;
                MkItem (bytes_of_string "fg") ChunkTypeThinking 80 24 12] in
  zlen items < two64 - 1 /\
  LastSeq (append_all (NewByteBuffer 4) items) = 3 /\
  map Seq (chunks (append_all (NewByteBuffer 4) items)) = [2; 3].
Proof.
  intros items; assert (zlen items < two64 - 1) as H by (vm_compute; reflexivity).
  destruct (ring_refines_log 4 items H) as (_ & _ & _ & _ & _ & Hl & _).
  split_and!; [exact H | exact Hl | vm_compute; reflexivity].
Defined.

(** Replay completeness: when the ring is not empty and the cursor is not
    older than the chunk before the oldest retained one, [After] returns every
    chunk ever appended with a greater sequence number, in order. *)
Theorem replay_complete (cap : Z) (items : list item) (s : Z)
    (Hn : zlen items < two64 - 1)
    (Hne : chunks (append_all (NewByteBuffer cap) items) <> [])
    (Hs : OldestSeq (append_all (NewByteBuffer cap) items) - 1 <= s) :
  After (append_all (NewByteBuffer cap) items) s =
  List.filter (fun c => negb (Seq c <=? s)) (log_of 1 items).
Proof.
  destruct (append_all_sim cap items Hn) as (_ & _ & _ & Hch).
  pose proof (log_of_contiguous 1 items) as Hct.
  pose proof (retained_suffix (capacity (NewByteBuffer cap)) (log_of 1 items)) as [p Hp].
  rewrite <- Hch in Hp; unfold After; rewrite Hp in Hct |- *.
  symmetry; apply (filter_after_suffix 1); [exact Hct|].
  apply contiguous_app in Hct as [_ Hct]; unfold OldestSeq in Hs.
  destruct (chunks (append_all (NewByteBuffer cap) items)) as [|x cs]; [congruence|].
  destruct Hct as [Hx _]; lia.
Qed.

Lemma replay_complete_witness :
  let items := [MkItem (bytes_of_string "abc") ChunkTypeOutput 80 24 10;
                MkItem (bytes_of_string "de") ChunkTypeOutput 80 24 11;
                MkItem (bytes_of_string "fg") ChunkTypeThinking 80 24 12] in
  After (append_all (NewByteBuffer 4) items) 1 =
  List.filter (fun c => negb (Seq c <=? 1)) (log_of 1 items).
Proof.
  intros items; apply (replay_complete 4 items 1);
    vm_compute; [reflexivity | discriminate | discriminate].
Defined.

(** No lost wake-up: the channel a reader obtained from [changes] before
    checking the buffer is closed by the first append that follows, whatever
    is appended and however many appends come after it. *)
Theorem no_lost_wakeup (b : ByteBuffer) (i : item) (rest : list item) :
  let '(c, b') := changes b in
  c ∈ chanClosed (append_all b' (i :: rest)).
Proof.
  destruct (changes b) as [c b'] eqn:E.
  change (append_all b' (i :: rest)) with
    (append_all (snd (AppendSized b' (it_payload i) (it_type i) (it_cols i) (it_rows i) (it_now i))) rest).
  apply append_all_closed; rewrite AppendSized_closed.
  apply notifyLocked_closes, (changes_current b), E.
Qed.
