(* ===== verification/Types.v ===== *)
(** * Shared data of internal/bridge: errors.go, provider.go, interaction.go

    Error values, the outcome of a Go call (result, error or panic), session
    metadata, the provider interface, and the authoritative interaction state
    with the revision rule of [Supervisor.UpdateInteraction]. *)

From S2P Require Import Prelude.

(** ** Errors (errors.go, respond.go) *)

Inductive sentinel :=
| ErrInvalidArgument
| ErrSessionNotFound
| ErrSessionAlreadyExists
| ErrSessionNotRunning
| ErrSessionRecoveryUnavailable
| ErrSessionAlreadyAttached
| ErrClientNotAttached
| ErrClientMismatch
| ErrProviderUnavailable
| ErrRepoSetupFailed
| ErrSupervisorShuttingDown
| ErrSessionLimitReached
| ErrInputTooLarge
| ErrWriterConflict
| ErrPendingRequestMismatch
| ErrRemoteResponseUnsupported
| ErrInvalidResponse.

(** An [error]: a sentinel returned as it is, a sentinel wrapped with
    [fmt.Errorf("%w: ...")] (the detail is what the format adds), or any other
    error by its text. *)
Inductive error :=
| Sentinel (s : sentinel)
| Wrapped (s : sentinel) (detail : string)
| Other (msg : string).

#[export] Instance sentinel_eq_dec : EqDecision sentinel.
Proof. solve_decision. Defined.

#[export] Instance error_eq_dec : EqDecision error.
Proof. solve_decision. Defined.

(** [errors.Is] against a sentinel. *)
Definition errors_Is (e : error) (s : sentinel) : bool :=
  match e with
  | Sentinel t | Wrapped t _ => bool_decide (t = s)
  | Other _ => false
  end.

(** A Go call returns a value, returns an error, or panics. *)
Inductive outcome (A : Type) :=
| Ok (a : A)
| Err (e : error)
| Panic (why : string).
Arguments Ok {A} a.
Arguments Err {A} e.
Arguments Panic {A} why.

(** ** Interaction state (interaction.go) *)

Definition InteractionUnknown : string := "unknown".
Definition InteractionWorking : string := "working".
Definition InteractionWaitingForInput : string := "waiting_for_input".
Definition InteractionWaitingForApproval : string := "waiting_for_approval".
Definition InteractionIdle : string := "idle".

Definition PendingRequestInput : string := "input".
Definition PendingRequestApproval : string := "approval".

Record PendingRequest := MkPending {
  pr_ID : string;
  pr_Type : string;
  pr_Summary : string;
  pr_Kind : string;
}.

Record InteractionCapabilities := MkCaps {
  RemoteResponseSupported : bool;
  StructuredApprovalSupported : bool;
  InteractionStateSupported : bool;
  ApprovalStateSupported : bool;
  PendingSummarySupported : bool;
}.

Record InteractionEvidence := MkEvidence {
  ev_Source : string;
  ev_Capability : InteractionCapabilities;
}.

Record Interaction := MkInteraction {
  int_State : string;
  int_Revision : Z;
  int_UpdatedAt : Time;
  int_LastActivityAt : Time;
  int_Pending : option PendingRequest;
  int_Evidence : InteractionEvidence;
}.

#[export] Instance PendingRequest_eq_dec : EqDecision PendingRequest.
Proof. solve_decision. Defined.

#[export] Instance Capabilities_eq_dec : EqDecision InteractionCapabilities.
Proof. solve_decision. Defined.

#[export] Instance Evidence_eq_dec : EqDecision InteractionEvidence.
Proof. solve_decision. Defined.

#[export] Instance Interaction_eq_dec : EqDecision Interaction.
Proof. solve_decision. Defined.

Definition no_capabilities : InteractionCapabilities := MkCaps false false false false false.

Definition EffectiveState (i : Interaction) : string :=
  if str_eqb (int_State i) "" then InteractionUnknown else int_State i.

Definition samePendingIdentity (p next : option PendingRequest) : bool :=
  match p, next with
  | Some p, Some n => str_eqb (pr_ID p) (pr_ID n) && str_eqb (pr_Type p) (pr_Type n)
  | None, None => true
  | _, _ => false
  end.

(** [Interaction.changed]: the early returns of the code, in order. *)
Definition interaction_changed (i next : Interaction) : bool :=
  if negb (bool_decide (ev_Capability (int_Evidence i) = ev_Capability (int_Evidence next)))
  then true
  else if negb (str_eqb (EffectiveState i) (EffectiveState next)) then true
  else if negb (samePendingIdentity (int_Pending i) (int_Pending next)) then true
  else match int_Pending i, int_Pending next with
       | Some p, Some n => negb (str_eqb (pr_Summary p) (pr_Summary n))
       | _, _ => false
       end.

Definition set_Kind (k : string) (p : PendingRequest) : PendingRequest :=
  MkPending (pr_ID p) (pr_Type p) (pr_Summary p) k.

(** The value [UpdateInteraction] stores: what it computes between taking and
    releasing the session lock. *)
Definition nextInteraction (cur next : Interaction) (now : Time) : Interaction :=
  if interaction_changed cur next then
    MkInteraction (int_State next) (u64 (int_Revision cur + 1)) now now
                  (int_Pending next) (int_Evidence next)
  else
    let pending :=
      match int_Pending cur, int_Pending next with
      | Some c, Some incoming =>
          if negb (str_eqb (pr_Kind incoming) "") && negb (str_eqb (pr_Kind c) (pr_Kind incoming))
          then Some (set_Kind (pr_Kind incoming) c)
          else int_Pending cur
      | _, _ => int_Pending cur
      end in
    MkInteraction (int_State next) (int_Revision cur) (int_UpdatedAt cur) now
                  pending (int_Evidence next).

(** ** Sessions (provider.go) *)

Inductive SessionState :=
| SessionStateStarting
| SessionStateRunning
| SessionStateAttached
| SessionStateStopping
| SessionStateStopped
| SessionStateFailed.

#[export] Instance SessionState_eq_dec : EqDecision SessionState.
Proof. solve_decision. Defined.

Definition state_is (a b : SessionState) : bool := bool_decide (a = b).

(** [st == Stopped || st == Failed], the terminal test used throughout. *)
Definition terminal (st : SessionState) : bool :=
  state_is st SessionStateStopped || state_is st SessionStateFailed.

Record SessionConfig := MkConfig {
  cfg_ProjectID : string;
  cfg_SessionID : string;
  cfg_RepoPath : string;
  cfg_Options : gmap string string;
  cfg_Env : option (list string);  (* [None] is a nil slice *)
  cfg_Fallbacks : list string;
  cfg_InitialCols : Z;
  cfg_InitialRows : Z;
}.

Record SessionInfo := MkInfo {
  info_SessionID : string;
  info_ProjectID : string;
  info_Provider : string;
  info_RepoPath : string;
  info_State : SessionState;
  info_ProcessID : Z;
  info_CreatedAt : Time;
  info_StoppedAt : Time;
  info_Error : string;
  info_Attached : bool;
  info_AttachedClientID : string;
  info_Recovered : bool;
  info_ExitRecorded : bool;
  info_ExitCode : Z;
  info_OldestSeq : Z;
  info_LastSeq : Z;
  info_Cols : Z;
  info_Rows : Z;
  info_ActiveWriterClientID : string;
  info_ObserverCount : Z;
  info_Interaction : Interaction;
  info_Capabilities : InteractionCapabilities;
}.

Definition set_State (v : SessionState) (i : SessionInfo) : SessionInfo :=
  MkInfo (info_SessionID i) (info_ProjectID i) (info_Provider i) (info_RepoPath i) v
    (info_ProcessID i) (info_CreatedAt i) (info_StoppedAt i) (info_Error i) (info_Attached i)
    (info_AttachedClientID i) (info_Recovered i) (info_ExitRecorded i) (info_ExitCode i)
    (info_OldestSeq i) (info_LastSeq i) (info_Cols i) (info_Rows i) (info_ActiveWriterClientID
    i) (info_ObserverCount i) (info_Interaction i) (info_Capabilities i).

Definition set_ProcessID (v : Z) (i : SessionInfo) : SessionInfo :=
  MkInfo (info_SessionID i) (info_ProjectID i) (info_Provider i) (info_RepoPath i) (info_State
    i) v (info_CreatedAt i) (info_StoppedAt i) (info_Error i) (info_Attached i)
    (info_AttachedClientID i) (info_Recovered i) (info_ExitRecorded i) (info_ExitCode i)
    (info_OldestSeq i) (info_LastSeq i) (info_Cols i) (info_Rows i) (info_ActiveWriterClientID
    i) (info_ObserverCount i) (info_Interaction i) (info_Capabilities i).

Definition set_StoppedAt (v : Time) (i : SessionInfo) : SessionInfo :=
  MkInfo (info_SessionID i) (info_ProjectID i) (info_Provider i) (info_RepoPath i) (info_State
    i) (info_ProcessID i) (info_CreatedAt i) v (info_Error i) (info_Attached i)
    (info_AttachedClientID i) (info_Recovered i) (info_ExitRecorded i) (info_ExitCode i)
    (info_OldestSeq i) (info_LastSeq i) (info_Cols i) (info_Rows i) (info_ActiveWriterClientID
    i) (info_ObserverCount i) (info_Interaction i) (info_Capabilities i).

Definition set_Error (v : string) (i : SessionInfo) : SessionInfo :=
  MkInfo (info_SessionID i) (info_ProjectID i) (info_Provider i) (info_RepoPath i) (info_State
    i) (info_ProcessID i) (info_CreatedAt i) (info_StoppedAt i) v (info_Attached i)
    (info_AttachedClientID i) (info_Recovered i) (info_ExitRecorded i) (info_ExitCode i)
    (info_OldestSeq i) (info_LastSeq i) (info_Cols i) (info_Rows i) (info_ActiveWriterClientID
    i) (info_ObserverCount i) (info_Interaction i) (info_Capabilities i).

Definition set_Attached (v : bool) (i : SessionInfo) : SessionInfo :=
  MkInfo (info_SessionID i) (info_ProjectID i) (info_Provider i) (info_RepoPath i) (info_State
    i) (info_ProcessID i) (info_CreatedAt i) (info_StoppedAt i) (info_Error i) v
    (info_AttachedClientID i) (info_Recovered i) (info_ExitRecorded i) (info_ExitCode i)
    (info_OldestSeq i) (info_LastSeq i) (info_Cols i) (info_Rows i) (info_ActiveWriterClientID
    i) (info_ObserverCount i) (info_Interaction i) (info_Capabilities i).

Definition set_AttachedClientID (v : string) (i : SessionInfo) : SessionInfo :=
  MkInfo (info_SessionID i) (info_ProjectID i) (info_Provider i) (info_RepoPath i) (info_State
    i) (info_ProcessID i) (info_CreatedAt i) (info_StoppedAt i) (info_Error i) (info_Attached
    i) v (info_Recovered i) (info_ExitRecorded i) (info_ExitCode i) (info_OldestSeq i)
    (info_LastSeq i) (info_Cols i) (info_Rows i) (info_ActiveWriterClientID i)
    (info_ObserverCount i) (info_Interaction i) (info_Capabilities i).

Definition set_ExitRecorded (v : bool) (i : SessionInfo) : SessionInfo :=
  MkInfo (info_SessionID i) (info_ProjectID i) (info_Provider i) (info_RepoPath i) (info_State
    i) (info_ProcessID i) (info_CreatedAt i) (info_StoppedAt i) (info_Error i) (info_Attached
    i) (info_AttachedClientID i) (info_Recovered i) v (info_ExitCode i) (info_OldestSeq i)
    (info_LastSeq i) (info_Cols i) (info_Rows i) (info_ActiveWriterClientID i)
    (info_ObserverCount i) (info_Interaction i) (info_Capabilities i).

Definition set_ExitCode (v : Z) (i : SessionInfo) : SessionInfo :=
  MkInfo (info_SessionID i) (info_ProjectID i) (info_Provider i) (info_RepoPath i) (info_State
    i) (info_ProcessID i) (info_CreatedAt i) (info_StoppedAt i) (info_Error i) (info_Attached
    i) (info_AttachedClientID i) (info_Recovered i) (info_ExitRecorded i) v (info_OldestSeq i)
    (info_LastSeq i) (info_Cols i) (info_Rows i) (info_ActiveWriterClientID i)
    (info_ObserverCount i) (info_Interaction i) (info_Capabilities i).

Definition set_OldestSeq (v : Z) (i : SessionInfo) : SessionInfo :=
  MkInfo (info_SessionID i) (info_ProjectID i) (info_Provider i) (info_RepoPath i) (info_State
    i) (info_ProcessID i) (info_CreatedAt i) (info_StoppedAt i) (info_Error i) (info_Attached
    i) (info_AttachedClientID i) (info_Recovered i) (info_ExitRecorded i) (info_ExitCode i) v
    (info_LastSeq i) (info_Cols i) (info_Rows i) (info_ActiveWriterClientID i)
    (info_ObserverCount i) (info_Interaction i) (info_Capabilities i).

Definition set_LastSeq (v : Z) (i : SessionInfo) : SessionInfo :=
  MkInfo (info_SessionID i) (info_ProjectID i) (info_Provider i) (info_RepoPath i) (info_State
    i) (info_ProcessID i) (info_CreatedAt i) (info_StoppedAt i) (info_Error i) (info_Attached
    i) (info_AttachedClientID i) (info_Recovered i) (info_ExitRecorded i) (info_ExitCode i)
    (info_OldestSeq i) v (info_Cols i) (info_Rows i) (info_ActiveWriterClientID i)
    (info_ObserverCount i) (info_Interaction i) (info_Capabilities i).

Definition set_Cols (v : Z) (i : SessionInfo) : SessionInfo :=
  MkInfo (info_SessionID i) (info_ProjectID i) (info_Provider i) (info_RepoPath i) (info_State
    i) (info_ProcessID i) (info_CreatedAt i) (info_StoppedAt i) (info_Error i) (info_Attached
    i) (info_AttachedClientID i) (info_Recovered i) (info_ExitRecorded i) (info_ExitCode i)
    (info_OldestSeq i) (info_LastSeq i) v (info_Rows i) (info_ActiveWriterClientID i)
    (info_ObserverCount i) (info_Interaction i) (info_Capabilities i).

Definition set_Rows (v : Z) (i : SessionInfo) : SessionInfo :=
  MkInfo (info_SessionID i) (info_ProjectID i) (info_Provider i) (info_RepoPath i) (info_State
    i) (info_ProcessID i) (info_CreatedAt i) (info_StoppedAt i) (info_Error i) (info_Attached
    i) (info_AttachedClientID i) (info_Recovered i) (info_ExitRecorded i) (info_ExitCode i)
    (info_OldestSeq i) (info_LastSeq i) (info_Cols i) v (info_ActiveWriterClientID i)
    (info_ObserverCount i) (info_Interaction i) (info_Capabilities i).

Definition set_ActiveWriterClientID (v : string) (i : SessionInfo) : SessionInfo :=
  MkInfo (info_SessionID i) (info_ProjectID i) (info_Provider i) (info_RepoPath i) (info_State
    i) (info_ProcessID i) (info_CreatedAt i) (info_StoppedAt i) (info_Error i) (info_Attached
    i) (info_AttachedClientID i) (info_Recovered i) (info_ExitRecorded i) (info_ExitCode i)
    (info_OldestSeq i) (info_LastSeq i) (info_Cols i) (info_Rows i) v (info_ObserverCount i)
    (info_Interaction i) (info_Capabilities i).

Definition set_ObserverCount (v : Z) (i : SessionInfo) : SessionInfo :=
  MkInfo (info_SessionID i) (info_ProjectID i) (info_Provider i) (info_RepoPath i) (info_State
    i) (info_ProcessID i) (info_CreatedAt i) (info_StoppedAt i) (info_Error i) (info_Attached
    i) (info_AttachedClientID i) (info_Recovered i) (info_ExitRecorded i) (info_ExitCode i)
    (info_OldestSeq i) (info_LastSeq i) (info_Cols i) (info_Rows i) (info_ActiveWriterClientID
    i) v (info_Interaction i) (info_Capabilities i).

Definition set_Interaction (v : Interaction) (i : SessionInfo) : SessionInfo :=
  MkInfo (info_SessionID i) (info_ProjectID i) (info_Provider i) (info_RepoPath i) (info_State
    i) (info_ProcessID i) (info_CreatedAt i) (info_StoppedAt i) (info_Error i) (info_Attached
    i) (info_AttachedClientID i) (info_Recovered i) (info_ExitRecorded i) (info_ExitCode i)
    (info_OldestSeq i) (info_LastSeq i) (info_Cols i) (info_Rows i) (info_ActiveWriterClientID
    i) (info_ObserverCount i) v (info_Capabilities i).

(** ** The provider interface (provider.go and the optional interfaces)

    What the supervisor sees of a provider adapter.  Health checks and
    dispatches answer [None] for a nil error; an optional interface the adapter
    does not implement is [None]. *)
Record Provider := MkProvider {
  prov_ID : string;
  prov_StopGrace : Duration;
  prov_Health : option string;
  prov_HealthWithEnv : option (list string -> option string);
  prov_BuildCommand : SessionConfig -> option error;
  prov_IsStreamJSON : option bool;
  prov_IsStripANSI : option bool;
  prov_InteractionCapabilities : option InteractionCapabilities;
  prov_RespondToInput : option (string -> string -> string -> option error);
  prov_DecideApproval : option (string -> string -> string -> option error);
  prov_SendInstruction : option (string -> string -> option error);
}.

Definition interactionCapabilitiesFor (p : Provider) : InteractionCapabilities :=
  match prov_InteractionCapabilities p with
  | Some c => c
  | None => no_capabilities
  end.

(** ** The revision rule as a specification

    What a consumer can see of an interaction report: capability, effective
    state, and the identity and summary of the pending request (its kind is
    local metadata). *)
Definition visible (i : Interaction)
  : InteractionCapabilities * string * option (string * string * string) :=
  (ev_Capability (int_Evidence i), EffectiveState i,
   (fun p => (pr_ID p, pr_Type p, pr_Summary p)) <$> int_Pending i).

(** Number of visible changes along a sequence of reports. *)
Fixpoint visible_changes (cur : Interaction) (reports : list Interaction) : Z :=
  match reports with
  | [] => 0
  | r :: rest => (if bool_decide (visible cur = visible r) then 0 else 1) + visible_changes r rest
  end.

(** The stored value after a sequence of (report, clock) updates. *)
Definition store_reports (cur : Interaction) (rs : list (Interaction * Time)) : Interaction :=
  fold_left (fun c r => nextInteraction c (fst r) (snd r)) rs cur.

Lemma interaction_changed_visible i next :
  interaction_changed i next = negb (bool_decide (visible i = visible next)).
Proof.
  unfold interaction_changed, visible, str_eqb, samePendingIdentity.
  destruct (int_Pending i) as [[a b c d]|], (int_Pending next) as [[a' b' c' d']|]; simpl;
    unfold str_eqb; repeat case_bool_decide; simpl in *; simplify_eq; try reflexivity;
    exfalso; congruence.
Qed.

Lemma nextInteraction_visible cur next now :
  visible (nextInteraction cur next now) = visible next.
Proof.
  unfold nextInteraction; destruct (interaction_changed cur next) eqn:E; [reflexivity|].
  rewrite interaction_changed_visible in E; bool_to_prop.
  unfold visible, EffectiveState in *; simpl.
  destruct (int_Pending cur) as [c|], (int_Pending next) as [n|]; simpl in *; try congruence.
  destruct (negb _ && negb _); simpl; congruence.
Qed.

Lemma nextInteraction_revision cur next now :
  int_Revision (nextInteraction cur next now) =
  if bool_decide (visible cur = visible next) then int_Revision cur
  else u64 (int_Revision cur + 1).
Proof.
  unfold nextInteraction; rewrite interaction_changed_visible.
  case_bool_decide; reflexivity.
Qed.

Lemma visible_changes_proper cur cur' rs :
  visible cur = visible cur' -> visible_changes cur rs = visible_changes cur' rs.
Proof. destruct rs; simpl; [reflexivity | intros ->; reflexivity]. Qed.

Lemma visible_changes_nonneg cur rs : 0 <= visible_changes cur rs.
Proof.
  revert cur; induction rs as [|r rs IH]; intros cur; simpl; [lia|].
  specialize (IH r); case_bool_decide; lia.
Qed.

(** ** Properties *)

(** Revision rule of [UpdateInteraction]: over any sequence of reports the
    stored revision grows by exactly the number of visible changes (capability,
    effective state, or pending identity or summary), as long as the counter
    does not reach 2^64; repeating a report never bumps it. *)
Theorem revision_counts_visible_changes (cur : Interaction) (rs : list (Interaction * Time))
    (H0 : 0 <= int_Revision cur)
    (Hmax : int_Revision cur + visible_changes cur (map fst rs) < two64) :
  int_Revision (store_reports cur rs) = int_Revision cur + visible_changes cur (map fst rs).
Proof.
  revert cur H0 Hmax; induction rs as [|[r t] rs IH]; intros cur H0 Hmax; simpl in *; [lia|].
  pose proof (visible_changes_nonneg r (map fst rs)) as Hnn.
  change (store_reports cur ((r, t) :: rs)) with (store_reports (nextInteraction cur r t) rs).
  pose proof (nextInteraction_revision cur r t) as Hrev.
  pose proof (visible_changes_proper _ _ (map fst rs) (nextInteraction_visible cur r t)) as Hv.
  rewrite IH; rewrite ?Hv, ?Hrev; case_bool_decide; rewrite ?u64_small; lia.
Qed.

Lemma revision_counts_visible_changes_witness :
  let ev := MkEvidence "claude-stream-json" no_capabilities in
  let mk st p := MkInteraction st 0 0 0 p ev in
  let rs := [(mk "working" None, 5); (mk "working" None, 6);
             (mk "waiting_for_input" (Some (MkPending "q1" "input" "" "")), 7);
             (mk "waiting_for_input" (Some (MkPending "q1" "input" "" "question")), 8)] in
  int_Revision (store_reports (mk "" None) rs) = 2.
Proof.
  intros ev mk rs; etransitivity; [apply (revision_counts_visible_changes (mk "" None) rs)|];
    vm_compute; (reflexivity || discriminate).
Defined.

(** Meaning of the timestamps: [LastActivityAt] is refreshed by every
    report; [UpdatedAt] moves only together with the revision; and what a
    consumer sees after the update is exactly what was reported, while a
    report that changes nothing visible keeps the known kind of the pending
    request unless the report classifies it. *)
Theorem update_timestamps_and_view (cur next : Interaction) (now : Time) :
  let stored := nextInteraction cur next now in
  visible stored = visible next /\
  int_LastActivityAt stored = now /\
  int_UpdatedAt stored =
    (if bool_decide (visible cur = visible next) then int_UpdatedAt cur else now) /\
  (visible cur = visible next ->
   pr_Kind <$> int_Pending stored =
     (fun p => match int_Pending next with
               | Some n => if bool_decide (pr_Kind n = ""%string) then pr_Kind p else pr_Kind n
               | None => pr_Kind p
               end) <$> int_Pending cur).
Proof.
  intros stored; split_and!.
  - apply nextInteraction_visible.
  - unfold stored, nextInteraction; destruct (interaction_changed cur next); reflexivity.
  - unfold stored, nextInteraction; rewrite interaction_changed_visible; case_bool_decide; reflexivity.
  - intros Hv; unfold stored, nextInteraction; rewrite interaction_changed_visible, bool_decide_eq_true_2 by exact Hv.
    simpl; destruct (int_Pending cur) as [c|], (int_Pending next) as [n|]; simpl; try reflexivity.
    unfold str_eqb; repeat case_bool_decide; simpl; congruence.
Qed.
