(* ===== verification/GoStd.v ===== *)
(** * The parts of Go's standard library the modelled code calls

    Strings as byte sequences ([strings.HasPrefix], [TrimRight],
    [TrimSuffix]), UTF-8 ([utf8.DecodeRuneInString], [utf8.ValidString]),
    [unicode.IsSpace], [fmt]'s [%016x], and the Unix versions of
    [filepath.Clean], [filepath.Abs] and [filepath.Match] (path separator
    ['/'] = 47).  A string is processed as the list of its byte values. *)

From S2P Require Import Prelude.

(** ** Strings as byte values *)

Definition chars (s : string) : list Z := map byte_val (bytes_of_string s).

Fixpoint has_prefix (p s : list Z) : bool :=
  match p, s with
  | [], _ => true
  | a :: p, b :: s => (a =? b) && has_prefix p s
  | _ :: _, [] => false
  end.

(** [strings.TrimRight(s, cutset)]. *)
Definition trim_right (cut : list Z) (s : list Z) : list Z :=
  reverse ((fix go (l : list Z) := match l with
            | c :: l' => if existsb (Z.eqb c) cut then go l' else l
            | [] => []
            end) (reverse s)).

(** [strings.TrimSuffix(s, suf)]. *)
Definition trim_suffix (suf s : list Z) : list Z :=
  if has_prefix (reverse suf) (reverse s)
  then take (length s - length suf)%nat s else s.

(** ** UTF-8 *)

Definition RuneError : Z := 65533.

Definition in_range (lo hi c : Z) : bool := (lo <=? c) && (c <=? hi).
(** ASCII letters and digits. *)
Definition alnum (c : Z) : bool := in_range 97 122 c || in_range 65 90 c || in_range 48 57 c.

Definition cont (c : Z) : bool := in_range 128 191 c.

(** [utf8.DecodeRuneInString]: the rune and its width; ([RuneError], 1) on an
    invalid encoding, ([RuneError], 0) on the empty string. *)
Definition DecodeRune (s : list Z) : Z * nat :=
  match s with
  | [] => (RuneError, 0%nat)
  | c0 :: s1 =>
      if c0 <? 128 then (c0, 1%nat)
      else if in_range 194 223 c0 then
        match s1 with
        | c1 :: _ => if cont c1 then ((c0 - 192) * 64 + (c1 - 128), 2%nat) else (RuneError, 1%nat)
        | _ => (RuneError, 1%nat)
        end
      else if in_range 224 239 c0 then
        match s1 with
        | c1 :: c2 :: _ =>
            let lo := if c0 =? 224 then 160 else 128 in
            let hi := if c0 =? 237 then 159 else 191 in
            if in_range lo hi c1 && cont c2
            then ((c0 - 224) * 4096 + (c1 - 128) * 64 + (c2 - 128), 3%nat)
            else (RuneError, 1%nat)
        | _ => (RuneError, 1%nat)
        end
      else if in_range 240 244 c0 then
        match s1 with
        | c1 :: c2 :: c3 :: _ =>
            let lo := if c0 =? 240 then 144 else 128 in
            let hi := if c0 =? 244 then 143 else 191 in
            if in_range lo hi c1 && cont c2 && cont c3
            then ((c0 - 240) * 262144 + (c1 - 128) * 4096 + (c2 - 128) * 64 + (c3 - 128), 4%nat)
            else (RuneError, 1%nat)
        | _ => (RuneError, 1%nat)
        end
      else (RuneError, 1%nat)
  end.

(** The (rune, width) pairs [for _, r := range s] visits; every step consumes
    at least one byte, so the length of the string is enough fuel. *)
Fixpoint runes_fuel (n : nat) (s : list Z) : list (Z * nat) :=
  match n, s with
  | S n, _ :: _ => let '(r, w) := DecodeRune s in (r, w) :: runes_fuel n (drop w s)
  | _, _ => []
  end.

Definition runes (s : list Z) : list (Z * nat) := runes_fuel (length s) s.

Definition ValidString (s : list Z) : bool :=
  forallb (fun rw => negb ((fst rw =? RuneError) && bool_decide (snd rw = 1%nat))) (runes s).

(** [unicode.IsSpace]. *)
Definition IsSpace (r : Z) : bool :=
  in_range 9 13 r || (r =? 32) || (r =? 133) || (r =? 160) || (r =? 5760) ||
  in_range 8192 8202 r || (r =? 8232) || (r =? 8233) || (r =? 8239) || (r =? 8287) || (r =? 12288).

(** [strings.TrimSpace(s) == ""]: nothing but white space. *)
Definition blank (s : list Z) : bool := forallb (fun rw => IsSpace (fst rw)) (runes s).

(** [strings.TrimSpace]: the runes at both ends that are white space are dropped. *)
Fixpoint drop_space (rs : list (Z * nat)) : list (Z * nat) :=
  match rs with
  | rw :: rs' => if IsSpace (fst rw) then drop_space rs' else rs
  | [] => []
  end.

Definition width (rs : list (Z * nat)) : nat := list_sum (map snd rs).

Definition TrimSpace (s : list Z) : list Z :=
  let rs := runes s in
  let left := drop_space rs in
  let kept := drop_space (rev left) in
  take (width kept) (drop (width rs - width left) s).

(** ** [fmt.Sprintf("%016x", n)] for a 64-bit [n] *)

Definition hex_digit (d : Z) : Z := if d <? 10 then 48 + d else 87 + d.

Fixpoint hex_digits (n : nat) (x : Z) : list Z :=
  match n with
  | O => []
  | S n => hex_digit (x / 16 ^ Z.of_nat n mod 16) :: hex_digits n x
  end.

Definition hex16 (x : Z) : list Z := hex_digits 16 x.

(** ** Paths *)

Definition SEP : Z := 47.

(** Split at every separator: [n] separators give [n + 1] components. *)
Fixpoint split_path (s : list Z) : list (list Z) :=
  match s with
  | [] => [[]]
  | c :: s =>
      match split_path s with
      | [] => [[c]]  (* not reached: the result is never empty *)
      | w :: ws => if c =? SEP then [] :: w :: ws else (c :: w) :: ws
      end
  end.

Fixpoint join_path (ws : list (list Z)) : list Z :=
  match ws with
  | [] => []
  | [w] => w
  | w :: ws => w ++ SEP :: join_path ws
  end.

Definition DOT : list Z := [46].
Definition DOTDOT : list Z := [46; 46].

(** One component of [filepath.Clean]; [st] is the output so far, last
    component first. *)
Definition clean_step (rooted : bool) (st : list (list Z)) (w : list Z) : list (list Z) :=
  if bool_decide (w = []) || bool_decide (w = DOT) then st
  else if bool_decide (w = DOTDOT) then
    match st with
    | [] => if rooted then [] else [DOTDOT]
    | top :: rest => if bool_decide (top = DOTDOT) then DOTDOT :: st else rest
    end
  else w :: st.

Definition Clean (s : list Z) : list Z :=
  match s with
  | [] => DOT
  | c :: _ =>
      let rooted := c =? SEP in
      let out := reverse (fold_left (clean_step rooted) (split_path s) []) in
      if rooted then SEP :: join_path out
      else match out with [] => DOT | _ => join_path out end
  end.

(** [filepath.Abs] on Unix; [wd] is the answer of [os.Getwd]. *)
Definition Abs (wd : option (list Z)) (s : list Z) : option (list Z) :=
  match s with
  | 47 :: _ => Some (Clean s)
  | _ => match wd with
         | None => None
         | Some wd => Some (Clean (match s with [] => wd | _ => wd ++ SEP :: s end))
         end
  end.

(** ** [filepath.Match]; [None] is [ErrBadPattern] *)

(** [scanChunk] after the leading stars: the chunk up to the next star outside
    a character class, and the rest. *)
Fixpoint scan_body (inrange : bool) (p : list Z) : list Z * list Z :=
  match p with
  | [] => ([], [])
  | 92 :: q =>
      match q with
      | [] => ([92], [])
      | c :: q' => let '(a, b) := scan_body inrange q' in (92 :: c :: a, b)
      end
  | c :: q =>
      if (c =? 42) && negb inrange then ([], p)
      else
        let inrange := if c =? 91 then true else if c =? 93 then false else inrange in
        let '(a, b) := scan_body inrange q in (c :: a, b)
  end.

Fixpoint skip_stars (p : list Z) : bool * list Z :=
  match p with
  | 42 :: q => (true, snd (skip_stars q))
  | _ => (false, p)
  end.

Definition scanChunk (p : list Z) : bool * list Z * list Z :=
  let '(star, p) := skip_stars p in
  let '(chunk, rest) := scan_body false p in
  (star, chunk, rest).

(** [getEsc]: a possibly escaped character inside a class. *)
Definition getEsc (chunk : list Z) : option (Z * list Z) :=
  match chunk with
  | [] => None
  | c :: q =>
      if (c =? 45) || (c =? 93) then None
      else
        let body := if c =? 92 then q else chunk in
        match body with
        | [] => None
        | _ =>
            let '(r, n) := DecodeRune body in
            if (r =? RuneError) && bool_decide (n = 1%nat) then None
            else match drop n body with
                 | [] => None
                 | nchunk => Some (r, nchunk)
                 end
        end
  end.

(** The range loop of a character class; every round consumes a byte. *)
Fixpoint match_class (fuel : nat) (r : Z) (chunk : list Z) (nrange : nat) (m : bool)
    : option (bool * list Z) :=
  match fuel with
  | O => None
  | S fuel =>
      match chunk with
      | 93 :: q =>
          if bool_decide (nrange = 0%nat) then None else Some (m, q)
      | _ =>
          match getEsc chunk with
          | None => None
          | Some (lo, chunk) =>
              match chunk with
              | 45 :: q =>
                  match getEsc q with
                  | None => None
                  | Some (hi, chunk) => match_class fuel r chunk (S nrange) (m || in_range lo hi r)
                  end
              | _ => match_class fuel r chunk (S nrange) (m || in_range lo lo r)
              end
          end
      end
  end.

(** [matchChunk]: [Some (Some rest)] on a match, [Some None] on a mismatch. *)
Fixpoint matchChunk (fuel : nat) (chunk s : list Z) (failed : bool) : option (option (list Z)) :=
  match fuel with
  | O => None
  | S fuel =>
      match chunk with
      | [] => Some (if failed then None else Some s)
      | c :: q =>
          let failed := failed || bool_decide (s = []) in
          if c =? 91 then
            let '(r, n) := DecodeRune s in
            let r := if failed then 0 else r in
            let s' := if failed then s else drop n s in
            let '(negated, q) := match q with 94 :: q' => (true, q') | _ => (false, q) end in
            match match_class (S (length q)) r q 0 false with
            | None => None
            | Some (m, q) => matchChunk fuel q s' (failed || Bool.eqb m negated)
            end
          else if c =? 63 then
            if failed then matchChunk fuel q s true
            else let '(_, n) := DecodeRune s in
                 matchChunk fuel q (drop n s) (bool_decide (hd 0 s = SEP))
          else
            let lit := if c =? 92 then q else chunk in
            match lit with
            | [] => None
            | l :: q =>
                if failed then matchChunk fuel q s true
                else matchChunk fuel q (tail s) (negb (l =? hd 0 s))
            end
      end
  end.

Definition match_chunk (chunk s : list Z) : option (option (list Z)) :=
  matchChunk (S (length chunk)) chunk s false.

(** The skipping loop of a starred chunk: the suffix after the first match,
    [Some None] when there is none. *)
Fixpoint star_loop (chunk rest name : list Z) : option (option (list Z)) :=
  match name with
  | [] => Some None
  | c :: name' =>
      if c =? SEP then Some None
      else match match_chunk chunk name' with
           | None => None
           | Some (Some t) =>
               if bool_decide (rest = []) && negb (bool_decide (t = []))
               then star_loop chunk rest name' else Some (Some t)
           | Some None => star_loop chunk rest name'
           end
  end.

(** Syntax check of the remaining pattern before answering false. *)
Fixpoint check_rest (fuel : nat) (p : list Z) : option bool :=
  match fuel, p with
  | S fuel, _ :: _ =>
      let '(_, chunk, rest) := scanChunk p in
      match match_chunk chunk [] with
      | None => None
      | Some _ => check_rest fuel rest
      end
  | _, _ => Some false
  end.

Fixpoint match_loop (fuel : nat) (p name : list Z) : option bool :=
  match p with
  | [] => Some (bool_decide (name = []))
  | _ =>
      match fuel with
      | O => None
      | S fuel =>
          let '(star, chunk, rest) := scanChunk p in
          if star && bool_decide (chunk = []) then Some (negb (existsb (Z.eqb SEP) name))
          else match match_chunk chunk name with
               | None => None
               | Some r =>
                   let direct := match r with
                                 | Some t => if bool_decide (t = []) || negb (bool_decide (rest = []))
                                             then Some t else None
                                 | None => None
                                 end in
                   match direct with
                   | Some t => match_loop fuel rest t
                   | None =>
                       match (if star then star_loop chunk rest name else Some None) with
                       | None => None
                       | Some (Some t) => match_loop fuel rest t
                       | Some None => check_rest fuel rest
                       end
                   end
               end
      end
  end.

(** Every chunk consumes at least one pattern byte. *)
Definition Match (pattern name : list Z) : option bool :=
  match_loop (S (length pattern)) pattern name.

(** ** Vocabulary of the path lemmas *)

(** A pattern with no glob or escape character. *)
Definition literal (p : list Z) : bool :=
  forallb (fun c => negb ((c =? 42) || (c =? 63) || (c =? 91) || (c =? 92))) p.

Definition sep_free (w : list Z) : Prop := SEP ∉ w.

(** A component of a cleaned rooted path. *)
Definition component (w : list Z) : Prop :=
  sep_free w /\ w <> [] /\ w <> DOT /\ w <> DOTDOT.

(** ** Sanity of the models on concrete inputs *)

Example Clean_examples :
  Clean (chars "/a/b/../c/./d//") = chars "/a/c/d" /\
  Clean (chars "/../x") = chars "/x" /\ Clean (chars "a/../..") = chars ".." /\
  Clean (chars "/") = chars "/".
Proof. vm_compute; auto. Qed.

Example Match_examples :
  Match (chars "/home/*/r[a-c]?") (chars "/home/me/rb1") = Some true /\
  Match (chars "/home/*") (chars "/home/me/x") = Some false /\
  Match (chars "/h[") (chars "/hx") = None /\
  Match (chars "*a*b") (chars "xaybzab") = Some true /\
  Match (chars "a\*b") (chars "a*b") = Some true.
Proof. vm_compute; auto. Qed.

(** ** Lemmas *)

Lemma has_prefix_spec p s : has_prefix p s = true <-> exists t, s = p ++ t.
Proof.
  revert s; induction p as [|a p IH]; intros s; simpl.
  - split; [exists s; reflexivity | reflexivity].
  - destruct s as [|b s].
    + split; [discriminate | intros [t Ht]; discriminate].
    + rewrite andb_true_iff, Z.eqb_eq, IH; split.
      * intros [-> [t ->]]; exists t; reflexivity.
      * intros [t Ht]; injection Ht as -> ->; split; [reflexivity | exists t; reflexivity].
Qed.

Lemma has_prefix_app p s : has_prefix p (p ++ s) = true.
Proof. apply has_prefix_spec; exists s; reflexivity. Qed.

(** *** Literal patterns *)

Lemma scan_body_literal b p : literal p = true -> scan_body b p = (p, []).
Proof.
  revert b; induction p as [|c p IH]; intros b H; [reflexivity|].
  unfold literal in H; simpl in H; apply andb_true_iff in H as [Hc H].
  rewrite negb_true_iff, !orb_false_iff, !Z.eqb_neq in Hc; destruct Hc as [[[H1 H2] H3] H4].
  simpl; rewrite (proj2 (Z.eqb_neq c 42) H1), (proj2 (Z.eqb_neq c 91) H3).
  simpl; rewrite IH by exact H.
  destruct c as [|q|q]; try reflexivity; repeat (destruct q as [q|q|]; try reflexivity); congruence.
Qed.

Lemma skip_stars_literal p : literal p = true -> skip_stars p = (false, p).
Proof.
  destruct p as [|c p]; [reflexivity|]; unfold literal; simpl; intros H.
  apply andb_true_iff in H as [Hc _].
  destruct c as [|q|q]; try reflexivity; repeat (destruct q as [q|q|]; try reflexivity); discriminate.
Qed.

Lemma matchChunk_failed_literal p s fuel :
  literal p = true -> (length p < fuel)%nat -> matchChunk fuel p s true = Some None.
Proof.
  revert fuel; induction p as [|c p IH]; intros [|fuel] H Hf; simpl in Hf; try lia; [reflexivity|].
  unfold literal in H; simpl in H; apply andb_true_iff in H as [Hc H].
  rewrite negb_true_iff, !orb_false_iff in Hc; destruct Hc as [[[H1 H2] H3] H4].
  simpl; rewrite H3, H2, H4; simpl; apply IH; [exact H | lia].
Qed.

Lemma matchChunk_literal p s fuel :
  literal p = true -> (length p < fuel)%nat ->
  matchChunk fuel p s false = Some (if has_prefix p s then Some (drop (length p) s) else None).
Proof.
  revert s fuel; induction p as [|c p IH]; intros s [|fuel] H Hf; simpl in Hf; try lia; [reflexivity|].
  unfold literal in H; simpl in H; apply andb_true_iff in H as [Hc H].
  rewrite negb_true_iff, !orb_false_iff in Hc; destruct Hc as [[[H1 H2] H3] H4].
  simpl; rewrite H3, H2, H4.
  destruct s as [|x s]; simpl.
  - apply matchChunk_failed_literal; [exact H | lia].
  - destruct (c =? x); simpl; [apply IH | apply matchChunk_failed_literal]; (exact H || lia).
Qed.

(** A chunk that is the whole pattern and has no star. *)
Lemma match_loop_last fuel p name :
  p <> [] -> scanChunk p = (false, p, []) ->
  match_loop (S fuel) p name =
  match match_chunk p name with
  | None => None
  | Some (Some []) => Some true
  | Some _ => Some false
  end.
Proof.
  intros Hne Hs; destruct p as [|c p]; [congruence|].
  cbn [match_loop]; rewrite Hs; cbn [andb].
  destruct (match_chunk (c :: p) name) as [[[|x t]|]|]; try reflexivity; destruct fuel; reflexivity.
Qed.

(** A literal pattern matches exactly itself. *)
Lemma Match_literal p name :
  literal p = true -> Match p name = Some (bool_decide (p = name)).
Proof.
  intros H; unfold Match; destruct (decide (p = [])) as [->|Hne].
  - simpl; f_equal; apply bool_decide_ext; split; congruence.
  - rewrite match_loop_last; [|exact Hne|
      unfold scanChunk; rewrite skip_stars_literal, scan_body_literal by exact H; reflexivity].
    unfold match_chunk; rewrite matchChunk_literal by (exact H || lia).
    destruct (has_prefix p name) eqn:E.
    + apply has_prefix_spec in E as [t ->]; rewrite drop_app_length.
      destruct t as [|x t].
      * rewrite app_nil_r, bool_decide_eq_true_2 by reflexivity; reflexivity.
      * rewrite bool_decide_eq_false_2; [reflexivity|].
        intros K; apply (f_equal length) in K; rewrite length_app in K; simpl in K; lia.
    + rewrite bool_decide_eq_false_2; [reflexivity|].
      intros <-; rewrite <- (app_nil_r p) in E at 2; rewrite has_prefix_app in E; discriminate.
Qed.

Lemma trim_right_id cut s :
  forallb (fun c => negb (existsb (Z.eqb c) cut)) s = true -> trim_right cut s = s.
Proof.
  intros H; unfold trim_right.
  destruct s as [|x s] using rev_ind; [reflexivity|].
  rewrite forallb_app in H; simpl in H; apply andb_true_iff in H as [_ H].
  rewrite andb_true_r, negb_true_iff in H.
  rewrite reverse_snoc, H, reverse_cons, reverse_involutive; reflexivity.
Qed.

(** *** Components *)

Lemma sep_free_prefix d w x y :
  sep_free d -> sep_free w ->
  has_prefix (d ++ SEP :: x) (w ++ SEP :: y) = bool_decide (d = w) && has_prefix x y.
Proof.
  unfold sep_free; revert w; induction d as [|a d IH]; intros w Hd Hw.
  - destruct w as [|b w]; [reflexivity|].
    cbn [app has_prefix]; rewrite (proj2 (Z.eqb_neq SEP b)) by set_solver; reflexivity.
  - destruct w as [|b w]; cbn [app has_prefix].
    + rewrite (proj2 (Z.eqb_neq a SEP)) by set_solver; reflexivity.
    + rewrite IH by set_solver.
      destruct (Z.eqb_spec a b) as [->|Hab]; simpl; repeat case_bool_decide; simpl; congruence.
Qed.

Lemma sep_free_no_prefix d w x : sep_free w -> has_prefix (d ++ SEP :: x) w = false.
Proof.
  intros Hw; apply not_true_iff_false; intros H; apply has_prefix_spec in H as [t ->].
  apply Hw; set_solver.
Qed.

(** Byte-wise "below this directory" is the component-wise order. *)
Lemma below_components ds ws :
  ds <> [] -> Forall sep_free ds -> Forall sep_free ws ->
  has_prefix (join_path ds ++ [SEP]) (join_path ws) = true <->
  ds `prefix_of` ws /\ ds <> ws.
Proof.
  revert ws; induction ds as [|d ds IH]; intros ws Hne Hd Hw; [congruence|].
  inversion Hd as [|? ? Hd1 Hds]; subst.
  destruct ws as [|w ws].
  { simpl; split; [destruct ds; destruct d; discriminate|].
    intros [Hp _]; apply prefix_nil_inv in Hp; discriminate. }
  inversion Hw as [|? ? Hw1 Hws]; subst.
  assert (d :: ds `prefix_of` w :: ws /\ d :: ds <> w :: ws <->
          d = w /\ ds `prefix_of` ws /\ ds <> ws) as ->.
  { split.
    - intros [Hp Hn]; pose proof (prefix_cons_inv_1 _ _ _ _ Hp); pose proof (prefix_cons_inv_2 _ _ _ _ Hp).
      subst; split_and!; [reflexivity | assumption | congruence].
    - intros (-> & Hp & Hn); split; [apply prefix_cons, Hp | congruence]. }
  destruct ds as [|d2 ds].
  - destruct ws as [|w2 ws]; simpl join_path.
    + rewrite sep_free_no_prefix by exact Hw1; split; [discriminate | tauto].
    + rewrite sep_free_prefix by assumption; simpl has_prefix; rewrite andb_true_r, bool_decide_eq_true.
      split; [intros ->; split_and!; [reflexivity | apply prefix_nil | discriminate] | tauto].
  - destruct ws as [|w2 ws].
    + simpl join_path; rewrite <- app_assoc, <- app_comm_cons.
      rewrite sep_free_no_prefix by exact Hw1; split; [discriminate|].
      intros (_ & Hp & _); apply prefix_nil_inv in Hp; discriminate.
    + change (join_path (d :: d2 :: ds)) with (d ++ SEP :: join_path (d2 :: ds)).
      change (join_path (w :: w2 :: ws)) with (w ++ SEP :: join_path (w2 :: ws)).
      rewrite <- app_assoc, <- app_comm_cons.
      rewrite sep_free_prefix by assumption; rewrite andb_true_iff, bool_decide_eq_true.
      rewrite IH by (assumption || discriminate); tauto.
Qed.

Lemma split_path_sep_free s : Forall sep_free (split_path s).
Proof.
  assert (sep_free []) as Hnil by (unfold sep_free; set_solver).
  induction s as [|c s IH]; [constructor; [exact Hnil | constructor]|].
  cbn [split_path]; destruct (split_path s) as [|w ws] eqn:E.
  - destruct s as [|d s]; simpl in E; [|destruct (split_path s); [|destruct (d =? SEP)]]; discriminate.
  - inversion IH as [|? ? Hw Hws]; subst.
    destruct (Z.eqb_spec c SEP) as [->|Hc]; constructor; auto; unfold sep_free in *; set_solver.
Qed.

Lemma clean_step_component st w :
  Forall component st -> sep_free w -> Forall component (clean_step true st w).
Proof.
  intros Hst Hw; unfold clean_step.
  repeat case_bool_decide; simpl; try exact Hst; try (constructor; [|exact Hst]; split_and!; assumption).
  destruct st as [|top rest]; [constructor|]; inversion Hst as [|? ? Ht Hr]; subst.
  case_bool_decide as K; [destruct Ht as (_ & _ & _ & Ht); congruence | exact Hr].
Qed.

(** A cleaned rooted path is a list of proper components: no empty component,
    no ["."], no [".."]. *)
Lemma Clean_rooted s :
  exists ws, Clean (SEP :: s) = SEP :: join_path ws /\ Forall component ws.
Proof.
  exists (reverse (fold_left (clean_step true) (split_path (SEP :: s)) [])); split; [reflexivity|].
  apply Forall_reverse.
  pose proof (split_path_sep_free (SEP :: s)) as H.
  assert (Forall component []) as Hst by constructor; revert Hst.
  generalize (@nil (list Z)); induction H as [|w ws Hw _ IH]; intros st Hst; [exact Hst|].
  simpl; apply IH, clean_step_component; assumption.
Qed.

Lemma join_path_inj ws vs :
  Forall component ws -> Forall component vs -> join_path ws = join_path vs -> ws = vs.
Proof.
  revert vs; induction ws as [|w ws IH]; intros vs Hw Hv H.
  - destruct vs as [|v vs]; [reflexivity|]; inversion Hv as [|? ? [_ [Hn _]] _]; subst.
    destruct vs, v; simpl in H; congruence.
  - destruct vs as [|v vs].
    + inversion Hw as [|? ? [_ [Hn _]] _]; subst; destruct ws, w; simpl in H; congruence.
    + inversion Hw as [|? ? Hw1 Hws]; inversion Hv as [|? ? Hv1 Hvs]; subst.
      destruct Hw1 as [Hw1 _], Hv1 as [Hv1 _].
      destruct ws as [|w2 ws], vs as [|v2 vs].
      * simpl in H; congruence.
      * exfalso; apply Hw1; cbn [join_path] in H; rewrite H; set_solver.
      * exfalso; apply Hv1; cbn [join_path] in H; rewrite <- H; set_solver.
      * change (w ++ SEP :: join_path (w2 :: ws) = v ++ SEP :: join_path (v2 :: vs)) in H.
        pose proof (has_prefix_app (w ++ SEP :: join_path (w2 :: ws)) []) as K.
        rewrite app_nil_r in K; rewrite H in K at 2.
        rewrite sep_free_prefix in K by assumption; apply andb_true_iff in K as [K _].
        apply bool_decide_eq_true in K; subst v; apply app_inv_head in H; injection H as H.
        f_equal; apply IH; assumption.
Qed.

Lemma chars_app a b : chars (a +:+ b) = chars a ++ chars b.
Proof.
  assert (K : String.list_ascii_of_string (a +:+ b) = String.list_ascii_of_string a ++ String.list_ascii_of_string b).
  { induction a as [|c a IH]; [reflexivity|].
    change (String c a +:+ b) with (String c (a +:+ b)); cbn; f_equal; exact IH. }
  unfold chars, bytes_of_string, String.list_byte_of_string; rewrite <- !map_app, K; reflexivity.
Qed.
