(* ===== verification/Policy.v ===== *)
(** * Runtime limits and guards: internal/bridge/policy.go

    Session limits, input size, and the repository path allow-list.  The
    working directory [filepath.Abs] may read is an argument ([None]: the
    lookup failed). *)

From stdpp Require Import pretty.
From S2P Require Import Prelude Types GoStd.

Record Policy := MkPolicy {
  MaxPerProject : Z;
  MaxGlobal : Z;
  MaxInputBytes : Z;
  AllowedPaths : list string;
}.

Definition DefaultPolicy : Policy := MkPolicy 5 20 65536 [].

(** One iteration of the pattern loop: does this pattern admit [abs]? *)
Definition pattern_allows (pattern : string) (abs : list Z) : bool :=
  match Match (chars pattern) abs with
  | None => false
  | Some true => true
  | Some false =>
      let dir := trim_suffix [SEP] (trim_right [42; 63] (chars pattern)) in
      negb (bool_decide (dir = [])) &&
      (bool_decide (abs = dir) || has_prefix (dir ++ [SEP]) abs)
  end.

Definition ValidateRepoPath (p : Policy) (wd : option (list Z)) (repoPath : string) : option error :=
  match AllowedPaths p with
  | [] => None
  | pats =>
      match Abs wd (chars repoPath) with
      | None => Some (Wrapped ErrInvalidArgument "resolve path")
      | Some abs =>
          if existsb (fun pat => pattern_allows pat abs) pats then None
          else Some (Wrapped ErrInvalidArgument "repo_path is not under any allowed path")
      end
  end.

Definition ValidateInput (p : Policy) (text : string) : option error :=
  if (0 <? MaxInputBytes p) && (MaxInputBytes p <? slen text)
  then Some (Wrapped ErrInputTooLarge "input size exceeds max bytes") else None.

Definition ValidateInputBytes (p : Policy) (data : bytes) : option error :=
  if (0 <? MaxInputBytes p) && (MaxInputBytes p <? zlen data)
  then Some (Wrapped ErrInputTooLarge "input size exceeds max bytes") else None.

(** ["%s limit (%d/%d)"]. *)
Definition of_limit (what : string) (count max : Z) : string :=
  what +:+ " limit (" +:+ pretty count +:+ "/" +:+ pretty max +:+ ")".

Definition CheckSessionLimits (p : Policy) (projectCount globalCount : Z) : option error :=
  if (0 <? MaxPerProject p) && (MaxPerProject p <=? projectCount)
  then Some (Wrapped ErrSessionLimitReached (of_limit "project" projectCount (MaxPerProject p)))
  else if (0 <? MaxGlobal p) && (MaxGlobal p <=? globalCount)
  then Some (Wrapped ErrSessionLimitReached (of_limit "global" globalCount (MaxGlobal p)))
  else None.

(** ** Lemmas *)

Lemma CheckSessionLimits_None p pc gc :
  CheckSessionLimits p pc gc = None <->
  (0 < MaxPerProject p -> pc < MaxPerProject p) /\ (0 < MaxGlobal p -> gc < MaxGlobal p).
Proof.
  unfold CheckSessionLimits.
  destruct (Z.ltb_spec 0 (MaxPerProject p)), (Z.leb_spec (MaxPerProject p) pc),
    (Z.ltb_spec 0 (MaxGlobal p)), (Z.leb_spec (MaxGlobal p) gc); simpl;
    split; intros; try discriminate; try reflexivity; try lia.
Qed.

Lemma ValidateInputBytes_None p data :
  ValidateInputBytes p data = None <-> (0 < MaxInputBytes p -> zlen data <= MaxInputBytes p).
Proof.
  unfold ValidateInputBytes.
  destruct (Z.ltb_spec 0 (MaxInputBytes p)), (Z.ltb_spec (MaxInputBytes p) (zlen data)); simpl;
    split; intros; try discriminate; try reflexivity; try lia.
Qed.

Lemma literal_trim p : literal p = true -> trim_right [42; 63] p = p.
Proof.
  intros H; apply trim_right_id; unfold literal in H; rewrite forallb_forall in H |- *.
  intros c Hc; specialize (H c Hc); cbn [existsb].
  destruct (c =? 42), (c =? 63); try discriminate H; reflexivity.
Qed.

(** A path made of proper components does not end in a separator. *)
Lemma trim_suffix_dir ds :
  ds <> [] -> Forall component ds -> trim_suffix [SEP] (SEP :: join_path ds) = SEP :: join_path ds.
Proof.
  intros Hne Hd; unfold trim_suffix.
  destruct (has_prefix (reverse [SEP]) (reverse (SEP :: join_path ds))) eqn:E; [exfalso|reflexivity].
  apply has_prefix_spec in E as [t E]; apply (f_equal reverse) in E.
  rewrite reverse_involutive, reverse_app, reverse_involutive in E.
  destruct ds as [|d ds _] using rev_ind; [congruence|].
  apply Forall_app in Hd as [_ Hd]; inversion Hd as [|? ? [Hs [Hn _]] _]; subst.
  assert (exists x, SEP :: join_path (ds ++ [d]) = x ++ d) as [x Hx].
  { clear; induction ds as [|e ds [x IH]]; simpl app; [exists [SEP]; reflexivity|].
    destruct (ds ++ [d]) as [|f fs] eqn:F; [destruct ds; discriminate|].
    exists (SEP :: e ++ x); change (join_path (e :: f :: fs)) with (e ++ SEP :: join_path (f :: fs)).
    rewrite IH; simpl; rewrite app_assoc; reflexivity. }
  destruct d as [|c d _] using rev_ind; [congruence|].
  rewrite Hx, app_assoc in E; apply app_inj_tail in E as [_ ->].
  apply Hs; set_solver.
Qed.

(** A literal directory entry admits exactly the directory and what is below
    it, component by component. *)
Lemma pattern_allows_dir pattern ds ws :
  literal (chars pattern) = true -> chars pattern = SEP :: join_path ds -> ds <> [] ->
  Forall component ds -> Forall component ws ->
  pattern_allows pattern (SEP :: join_path ws) = true <-> ds `prefix_of` ws.
Proof.
  intros Hl Hp Hne Hd Hw; unfold pattern_allows; rewrite Match_literal by exact Hl.
  rewrite literal_trim by exact Hl; rewrite Hp, trim_suffix_dir by assumption.
  assert (Forall sep_free ds /\ Forall sep_free ws) as [Hds Hws]
    by (split; eapply Forall_impl; try eassumption; intros ? [? _]; assumption).
  case_bool_decide as E.
  - injection E as E; apply join_path_inj in E; [subst|assumption..]; split; auto.
  - rewrite bool_decide_eq_false_2 by discriminate; cbn [negb andb].
    rewrite bool_decide_eq_false_2 by congruence; cbn [orb].
    change (has_prefix ((SEP :: join_path ds) ++ [SEP]) (SEP :: join_path ws))
      with ((SEP =? SEP) && has_prefix (join_path ds ++ [SEP]) (join_path ws)).
    rewrite Z.eqb_refl; cbn [andb]; rewrite below_components by assumption.
    split; [tauto | intros H; split; [exact H | congruence]].
Qed.

(** ** Properties *)

(** Path confinement: with an allow-list of literal directories (each a
    rooted path of proper components), a rooted [repo_path] is accepted exactly
    when, after [".."], ["."] and empty components are resolved, its component
    list starts with the components of one of the directories.  A sibling that
    merely shares a name prefix, or a ["../"] escape, is refused. *)
Theorem repo_path_confined (p : Policy) (wd : option (list Z)) (s : string) (tl : list Z)
    (dirs : list (list (list Z)))
    (Hs : chars s = SEP :: tl)
    (Hne : AllowedPaths p <> [])
    (Hdirs : Forall2 (fun pat ds => literal (chars pat) = true /\
               chars pat = SEP :: join_path ds /\ ds <> [] /\ Forall component ds)
             (AllowedPaths p) dirs) :
  exists ws, Clean (chars s) = SEP :: join_path ws /\ Forall component ws /\
    (ValidateRepoPath p wd s = None <-> Exists (fun ds => ds `prefix_of` ws) dirs).
Proof.
  destruct (Clean_rooted tl) as (ws & Hc & Hws); exists ws; rewrite Hs; split_and!; [exact Hc | exact Hws |].
  unfold ValidateRepoPath; destruct (AllowedPaths p) as [|pat0 pats0] eqn:Ep; [congruence|].
  rewrite Hs; change (Abs wd (SEP :: tl)) with (Some (Clean (SEP :: tl))); rewrite Hc.
  assert (existsb (fun pat => pattern_allows pat (SEP :: join_path ws)) (pat0 :: pats0) = true <->
          Exists (fun ds => ds `prefix_of` ws) dirs) as H.
  { clear - Hdirs Hws; induction Hdirs as [|pat ds pats dirs (Hl & Hp & Hn & Hd) _ IH].
    - split; [discriminate | intros H; inversion H].
    - cbn [existsb]; rewrite orb_true_iff, Exists_cons, <- IH.
      rewrite (pattern_allows_dir pat ds ws) by assumption; reflexivity. }
  rewrite <- H; destruct (existsb _ _); split; congruence.
Qed.

Lemma repo_path_confined_witness :
  let p := MkPolicy 5 20 65536 ["/home/mark"] in
  ValidateRepoPath p None "/home/mark/x/../repo" = None /\
  exists ws, Clean (chars "/home/mark-other") = SEP :: join_path ws /\ Forall component ws /\
    (ValidateRepoPath p None "/home/mark-other" = None <->
     Exists (fun ds => ds `prefix_of` ws) [[chars "home"; chars "mark"]]).
Proof.
  intros p; split; [vm_compute; reflexivity|].
  apply (repo_path_confined p None "/home/mark-other" (chars "home/mark-other")
           [[chars "home"; chars "mark"]]); [vm_compute; reflexivity | discriminate |].
  repeat constructor; try (vm_compute; reflexivity); try discriminate;
    unfold sep_free; vm_compute; intros H; repeat (inversion H as [|? ? ? H']; subst; clear H; rename H' into H).
Defined.
