(* ===== verification/Registry.v ===== *)
(** * Provider registry and selection: internal/bridge/registry.go and
    [Supervisor.resolveProvider]

    The registry maps provider IDs to adapters.  Selection walks the requested
    provider and its fallbacks and takes the first one that is registered and
    healthy. *)

From S2P Require Import Prelude Types.

Abbreviation Registry := (gmap string Provider).

Definition NewRegistry : Registry := ∅.

Definition Register (r : Registry) (p : Provider) : Registry * option error :=
  match r !! prov_ID p with
  | Some _ => (r, Some (Other "provider already registered"))
  | None => (<[prov_ID p := p]> r, None)
  end.

Definition Get (r : Registry) (id : string) : outcome Provider :=
  match r !! id with
  | Some p => Ok p
  | None => Err (Wrapped ErrProviderUnavailable id)
  end.

(** [List] and [HealthAll] range over a Go map: the order is unspecified, so
    only the set of results is meaningful. *)
Definition List_ids (r : Registry) : list string := map fst (map_to_list r).

Definition HealthAll (r : Registry) : gmap string (option string) := prov_Health <$> r.

(** The health test of one candidate: [HealthWithEnv] when the adapter has it
    and the environment is not nil. *)
Definition candidate_health (p : Provider) (env : option (list string)) : option string :=
  match prov_HealthWithEnv p, env with
  | Some h, Some e => h e
  | _, _ => prov_Health p
  end.

Fixpoint try_candidates (r : Registry) (env : option (list string)) (ids : list string)
    (lastErr : option error) : outcome Provider :=
  match ids with
  | [] => match lastErr with
          | Some e => Err e
          | None => Panic "resolveProvider returned no provider and no error"
          end
  | id :: rest =>
      match Get r id with
      | Ok p =>
          match candidate_health p env with
          | None => Ok p
          | Some h => try_candidates r env rest (Some (Wrapped ErrProviderUnavailable h))
          end
      | Err e => try_candidates r env rest (Some e)
      | Panic w => Panic w
      end
  end.

Definition resolveProvider (r : Registry) (primary : string) (fallbacks : list string)
    (env : option (list string)) : outcome Provider :=
  try_candidates r env (primary :: fallbacks) None.

(** ** Specification: the candidate is usable *)

Definition usable (r : Registry) (env : option (list string)) (id : string) (p : Provider) : Prop :=
  r !! id = Some p /\ candidate_health p env = None.

Definition unusable (r : Registry) (env : option (list string)) (id : string) : Prop :=
  forall p, r !! id = Some p -> candidate_health p env <> None.

(** Every adapter is stored under its own ID. *)
Definition registry_wf (r : Registry) : Prop := map_Forall (fun id p => prov_ID p = id) r.

(** ** Lemmas *)

Lemma Register_wf r p : registry_wf r -> registry_wf (fst (Register r p)).
Proof.
  intros H; unfold Register; destruct (r !! prov_ID p); simpl; [exact H|].
  apply map_Forall_insert_2; [reflexivity | exact H].
Qed.

Lemma try_candidates_spec r env ids lastErr :
  match try_candidates r env ids lastErr with
  | Ok p => exists pre id post, ids = pre ++ id :: post /\
              Forall (unusable r env) pre /\ usable r env id p
  | Err e => Forall (unusable r env) ids /\ (ids = [] /\ lastErr = Some e \/
               errors_Is e ErrProviderUnavailable = true)
  | Panic _ => ids = [] /\ lastErr = None
  end.
Proof.
  revert lastErr; induction ids as [|id ids IH]; intros lastErr; simpl.
  - destruct lastErr; auto.
  - unfold Get; destruct (r !! id) as [p|] eqn:Eg.
    + destruct (candidate_health p env) as [h|] eqn:Eh.
      * assert (unusable r env id) as Hu by (intros q Hq; rewrite Eg in Hq; congruence).
        specialize (IH (Some (Wrapped ErrProviderUnavailable h))).
        destruct (try_candidates r env ids _) as [q|e|w].
        -- destruct IH as (pre & i & post & -> & Hpre & Hq); exists (id :: pre), i, post; auto.
        -- destruct IH as [Hall He]; split; [auto|]; right.
           destruct He as [[_ [= <-]]|He]; [reflexivity | exact He].
        -- destruct IH; discriminate.
      * exists [], id, ids; repeat split; auto.
    + assert (unusable r env id) as Hu by (intros q Hq; congruence).
      specialize (IH (Some (Wrapped ErrProviderUnavailable id))).
      destruct (try_candidates r env ids _) as [q|e|w].
      * destruct IH as (pre & i & post & -> & Hpre & Hq); exists (id :: pre), i, post; auto.
      * destruct IH as [Hall He]; split; [auto|]; right.
        destruct He as [[_ [= <-]]|He]; [reflexivity | exact He].
      * destruct IH; discriminate.
Qed.

(** ** Properties *)

(** Provider selection: the provider returned is the first of the
    requested one and its fallbacks, in order, that is registered and healthy
    (all fallbacks are tried, however many); when there is none the result is
    an error that [errors.Is] reports as [ErrProviderUnavailable]; the call
    never yields neither. *)
Theorem resolve_first_usable (r : Registry) (primary : string) (fallbacks : list string)
    (env : option (list string)) :
  match resolveProvider r primary fallbacks env with
  | Ok p => exists pre id post, primary :: fallbacks = pre ++ id :: post /\
              Forall (unusable r env) pre /\ usable r env id p
  | Err e => Forall (unusable r env) (primary :: fallbacks) /\
             errors_Is e ErrProviderUnavailable = true
  | Panic _ => False
  end.
Proof.
  unfold resolveProvider; pose proof (try_candidates_spec r env (primary :: fallbacks) None) as H.
  destruct (try_candidates _ _ _ _); [exact H | | destruct H; discriminate].
  destruct H as [H [[? _]|He]]; [discriminate | auto].
Qed.
