(* ===== verification/Pending.v ===== *)
(** * Incomplete trailing input: internal/bridge/screen_pending.go

    The byte-level tracker of an escape sequence or UTF-8 character that a
    chunk boundary left unfinished.  The theorems show that the loop
    terminates, that chunk boundaries do not matter, and that replaying the
    kept prefix brings a fresh tracker to the same parser state. *)

From S2P Require Import Prelude.

Definition maxPendingInput : Z := 4096.

Inductive pendingState :=
| pendGround
| pendEsc
| pendEscInter
| pendCSI
| pendOSC
| pendString
| pendStringEsc
| pendUTF8.

#[export] Instance pendingState_eq_dec : EqDecision pendingState.
Proof. solve_decision. Defined.

(** [buf] holds byte values. *)
Record pendingInput := MkPendingInput {
  pi_state : pendingState;
  utf8Left : Z;
  buf : list Z;
  overflow : bool;
  executed : bool;
}.

Definition pending_zero : pendingInput := MkPendingInput pendGround 0 [] false false.

Definition start (p : pendingInput) (c : Z) (st : pendingState) : pendingInput :=
  MkPendingInput st (utf8Left p) [c] false false.

Definition ground (p : pendingInput) : pendingInput :=
  MkPendingInput pendGround (utf8Left p) [] false false.

Definition set_pstate (st : pendingState) (p : pendingInput) : pendingInput :=
  MkPendingInput st (utf8Left p) (buf p) (overflow p) (executed p).

Definition set_utf8Left (n : Z) (p : pendingInput) : pendingInput :=
  MkPendingInput (pi_state p) n (buf p) (overflow p) (executed p).

(** The two [if] statements at the top of the loop body: keep the byte, and
    note a control executed inside an unfinished sequence. *)
Definition keep_byte (p : pendingInput) (c : Z) : pendingInput :=
  let p :=
    match pi_state p with
    | pendGround => p
    | _ => if zlen (buf p) <? maxPendingInput
           then MkPendingInput (pi_state p) (utf8Left p) (buf p ++ [c]) (overflow p) (executed p)
           else MkPendingInput (pi_state p) (utf8Left p) (buf p) true (executed p)
    end in
  if (c <? 32) && negb (c =? 27) && negb (c =? 24) && negb (c =? 26) &&
     match pi_state p with pendEsc | pendEscInter | pendCSI => true | _ => false end
  then MkPendingInput (pi_state p) (utf8Left p) (buf p) (overflow p) true
  else p.

(** The [switch]; the boolean asks for the byte to be processed again
    ([i--]). *)
Definition feed_switch (p : pendingInput) (c : Z) : pendingInput * bool :=
  match pi_state p with
  | pendGround =>
      if c =? 27 then (start p c pendEsc, false)
      else if (194 <=? c) && (c <=? 244) then
        let n := if 240 <=? c then 3 else if 224 <=? c then 2 else 1 in
        (set_utf8Left n (start p c pendUTF8), false)
      else (p, false)
  | pendUTF8 =>
      if negb (Z.land c 192 =? 128) then (ground p, true)
      else
        let p := set_utf8Left (utf8Left p - 1) p in
        if utf8Left p =? 0 then (ground p, false) else (p, false)
  | pendEsc =>
      if c =? 91 then (set_pstate pendCSI p, false)
      else if c =? 93 then (set_pstate pendOSC p, false)
      else if (c =? 80) || (c =? 88) || (c =? 94) || (c =? 95) then (set_pstate pendString p, false)
      else if c =? 27 then (start p c pendEsc, false)
      else if (32 <=? c) && (c <=? 47) then (set_pstate pendEscInter p, false)
      else if (c =? 24) || (c =? 26) || (48 <=? c) then (ground p, false)
      else (p, false)
  | pendEscInter =>
      if c =? 27 then (start p c pendEsc, false)
      else if (48 <=? c) || (c =? 24) || (c =? 26) then (ground p, false)
      else (p, false)
  | pendCSI =>
      if c =? 27 then (start p c pendEsc, false)
      else if ((64 <=? c) && (c <=? 126)) || (c =? 24) || (c =? 26) then (ground p, false)
      else (p, false)
  | pendOSC =>
      if (c =? 7) || (c =? 24) || (c =? 26) then (ground p, false)
      else if c =? 27 then (set_pstate pendStringEsc p, false)
      else (p, false)
  | pendString =>
      if (c =? 24) || (c =? 26) then (ground p, false)
      else if c =? 27 then (set_pstate pendStringEsc p, false)
      else (p, false)
  | pendStringEsc =>
      if c =? 92 then (ground p, false)
      else (start p 27 pendEsc, true)
  end.

Definition feed_step (p : pendingInput) (c : Z) : pendingInput * bool :=
  feed_switch (keep_byte p c) c.

(** The loop of [feed]; [n] bounds the iterations, the list is what is left. *)
Fixpoint feed_loop (n : nat) (p : pendingInput) (data : list Z) : pendingInput * list Z :=
  match n, data with
  | S n, c :: rest =>
      let '(p, again) := feed_step p c in
      feed_loop n p (if again then data else rest)
  | _, _ => (p, data)
  end.

(** A byte is processed at most twice, so twice the length is enough. *)
Definition feed (p : pendingInput) (data : list Z) : pendingInput :=
  fst (feed_loop (2 * length data) p data).

(** [prefix]: the incomplete trailing input, [None] when it was too long to
    keep or holds an executed control. *)
Definition prefix_ (p : pendingInput) : option (list Z) :=
  match pi_state p with
  | pendGround => Some []
  | _ => if overflow p || executed p then None else Some (buf p)
  end.

(** ** Specification: one byte at a time *)

Definition feed_byte (p : pendingInput) (c : Z) : pendingInput :=
  let '(q, again) := feed_step p c in
  if again then fst (feed_step q c) else q.

(** Same parser state: [utf8Left] only counts inside a UTF-8 character. *)
Definition same_state (p q : pendingInput) : Prop :=
  pi_state p = pi_state q /\ buf p = buf q /\ overflow p = overflow q /\
  executed p = executed q /\ (pi_state p = pendUTF8 -> utf8Left p = utf8Left q).

Record pending_wf (p : pendingInput) : Prop := {
  wf_len : zlen (buf p) <= maxPendingInput;
  wf_ground : pi_state p = pendGround -> buf p = [] /\ overflow p = false /\ executed p = false;
  wf_replay : overflow p = false -> same_state (fold_left feed_byte (buf p) pending_zero) p;
}.

(** ** Lemmas *)

#[export] Instance same_state_equiv : Equivalence same_state.
Proof.
  split.
  - intros p; unfold same_state; tauto.
  - intros p q (H1 & H2 & H3 & H4 & H5); unfold same_state; split_and!; try congruence.
    intros K; symmetry; apply H5; congruence.
  - intros p q r (H1 & H2 & H3 & H4 & H5) (K1 & K2 & K3 & K4 & K5); unfold same_state.
    split_and!; try congruence; intros E; rewrite H5, K5 by congruence; reflexivity.
Qed.

(** Split every test on the byte in the goal. *)
Ltac split_byte :=
  repeat (match goal with
  | |- context [if ?b then _ else _] =>
      lazymatch b with context [match _ with _ => _ end] => fail | _ => destruct b eqn:? end
  end; simpl).

Lemma keep_byte_state p c : pi_state (keep_byte p c) = pi_state p.
Proof. destruct p as [st u b o e]; unfold keep_byte; destruct st; simpl; split_byte; reflexivity. Qed.

(** A byte is never asked for a third time. *)
Lemma feed_step_again p c q :
  feed_step p c = (q, true) -> snd (feed_step q c) = false.
Proof.
  unfold feed_step at 1; intros H.
  assert (pi_state q = pendGround \/ pi_state q = pendEsc) as Hq.
  { unfold feed_switch in H; destruct (pi_state (keep_byte p c)); simpl in H;
      repeat case_hyp H; simplify_eq; simpl; auto. }
  unfold feed_step, feed_switch; rewrite keep_byte_state.
  destruct Hq as [-> | ->]; split_byte; reflexivity.
Qed.

Lemma feed_loop_S n p c rest :
  feed_loop (S n) p (c :: rest) =
  let '(q, again) := feed_step p c in feed_loop n q (if again then c :: rest else rest).
Proof. reflexivity. Qed.

Lemma feed_loop_bytes data : forall n p,
  (2 * length data <= n)%nat -> feed_loop n p data = (fold_left feed_byte data p, []).
Proof.
  induction data as [|c data IH]; intros n p Hn; [destruct n; reflexivity|].
  destruct n as [|[|n]]; simpl in Hn; try lia.
  rewrite feed_loop_S; cbn [fold_left]; unfold feed_byte at 2.
  destruct (feed_step p c) as [q again] eqn:E; destruct again.
  - pose proof (feed_step_again _ _ _ E) as K; rewrite feed_loop_S.
    destruct (feed_step q c) as [r a2]; simpl in K; subst a2; apply IH; lia.
  - apply IH; lia.
Qed.

Lemma feed_fold p data : feed p data = fold_left feed_byte data p.
Proof. unfold feed; rewrite feed_loop_bytes by lia; reflexivity. Qed.

(** Each byte either extends the kept prefix, restarts it at this byte, or
    ends the sequence. *)
Lemma keep_byte_proper p q c :
  same_state p q -> same_state (keep_byte p c) (keep_byte q c).
Proof.
  destruct p as [st u b o e], q as [st' u' b' o' e'].
  intros (H1 & H2 & H3 & H4 & H5); simpl in *; subst.
  unfold keep_byte; destruct st'; simpl; split_byte; unfold same_state; simpl; split_and!; auto; intros; congruence.
Qed.

Lemma feed_switch_proper p q c :
  same_state p q ->
  same_state (fst (feed_switch p c)) (fst (feed_switch q c)) /\ snd (feed_switch p c) = snd (feed_switch q c).
Proof.
  destruct p as [st u b o e], q as [st' u' b' o' e'].
  intros (H1 & H2 & H3 & H4 & H5); simpl in *; subst.
  destruct st'; unfold feed_switch; simpl; rewrite ?H5 by reflexivity;
    split_byte; unfold same_state; simpl; split_and!; auto; intros; congruence.
Qed.

Lemma feed_step_proper p q c :
  same_state p q ->
  same_state (fst (feed_step p c)) (fst (feed_step q c)) /\ snd (feed_step p c) = snd (feed_step q c).
Proof. intros H; apply feed_switch_proper, keep_byte_proper, H. Qed.

#[export] Instance feed_byte_proper : Proper (same_state ==> eq ==> same_state) feed_byte.
Proof.
  intros p q H c ? <-; unfold feed_byte.
  destruct (feed_step_proper p q c H) as [H1 H2].
  destruct (feed_step p c) as [p' a], (feed_step q c) as [q' a']; simpl in *; subst a'.
  destruct a; [apply feed_step_proper, H1 | exact H1].
Qed.

Lemma ground_wf p : pending_wf (ground p).
Proof.
  split; simpl; [rewrite zlen_nil; unfold maxPendingInput; lia | auto |].
  intros _; unfold same_state; simpl; split_and!; auto; discriminate.
Qed.

Lemma start_wf p c st :
  st <> pendGround -> same_state (feed_byte pending_zero c) (start p c st) -> pending_wf (start p c st).
Proof.
  intros Hst H; split; simpl; [rewrite zlen_cons, zlen_nil; unfold maxPendingInput; lia | congruence |].
  intros _; exact H.
Qed.

Lemma start_esc_wf p : pending_wf (start p 27 pendEsc).
Proof.
  apply start_wf; [discriminate|]; unfold same_state; vm_compute; split_and!; auto; discriminate.
Qed.

(** A step that goes on with the same sequence: the kept prefix grows by the
    byte unless it overflowed. *)
Lemma extend_wf p c q :
  pending_wf p -> pi_state p <> pendGround -> pi_state q <> pendGround ->
  feed_step p c = (q, false) ->
  buf q = buf (keep_byte p c) -> overflow q = overflow (keep_byte p c) -> pending_wf q.
Proof.
  intros [Hl _ Hr] Hp Hq Hs Hb Ho.
  assert (buf (keep_byte p c) = buf p /\ overflow (keep_byte p c) = true \/
          zlen (buf p) < maxPendingInput /\ buf (keep_byte p c) = buf p ++ [c] /\
          overflow (keep_byte p c) = overflow p) as HK.
  { destruct p as [st u b o e]; unfold keep_byte; simpl in *.
    destruct st; try congruence; simpl; split_byte; bool_to_prop; auto. }
  split; [| congruence |].
  - rewrite Hb; destruct HK as [[-> _]|(Hlt & -> & _)]; [exact Hl|].
    rewrite zlen_app, zlen_cons, zlen_nil; unfold maxPendingInput in *; lia.
  - intros Hq0; destruct HK as [[_ HK]|(_ & HK & HO)]; [congruence|].
    rewrite Hb, HK, fold_left_app; cbn [fold_left].
    rewrite Hr by congruence; unfold feed_byte; rewrite Hs; reflexivity.
Qed.

Lemma feed_step_wf p c q again :
  pending_wf p -> feed_step p c = (q, again) -> pending_wf q.
Proof.
  intros Hp Hs; destruct (decide (pi_state q = pendGround)) as [Hg|Hg].
  - assert (q = ground q \/ pi_state p = pendGround /\ q = p) as [->|[_ ->]]; [|apply ground_wf | exact Hp].
    destruct p as [st u b o e]; revert Hs; unfold feed_step, feed_switch; rewrite keep_byte_state.
    unfold keep_byte; destruct st; simpl; rewrite ?andb_false_r; split_byte;
      intros [= <- <-]; simpl in *; auto; discriminate.
  - destruct (decide (pi_state p = pendGround)) as [Hpg|Hpg].
    + destruct p as [st u b o e]; simpl in Hpg; subst st; revert Hs.
      unfold feed_step, keep_byte, feed_switch; simpl; rewrite andb_false_r; simpl.
      destruct (Z.eqb_spec c 27) as [->|Hc]; [intros [= <- <-]; apply start_esc_wf|].
      destruct ((194 <=? c) && (c <=? 244)) eqn:Hu; intros [= <- <-]; [|simpl in Hg; congruence].
      split; simpl; [rewrite zlen_cons, zlen_nil; unfold maxPendingInput; lia | congruence |].
      intros _; unfold feed_byte, feed_step, keep_byte, feed_switch; simpl; rewrite andb_false_r; simpl.
      rewrite (proj2 (Z.eqb_neq c 27) Hc), Hu; simpl; unfold same_state; simpl; auto.
    + pose proof (fun H1 H2 H3 => extend_wf p c q Hp Hpg Hg H1 H2 H3) as Hext.
      pose proof Hs as Hs'; unfold feed_step, feed_switch in Hs'; rewrite keep_byte_state in Hs'.
      destruct (pi_state p); try congruence; repeat case_hyp Hs'; simplify_eq;
        try (apply Hext; auto; fail); simpl in Hg; try congruence;
        bool_to_prop; subst; apply start_esc_wf.
Qed.

Lemma feed_byte_wf p c : pending_wf p -> pending_wf (feed_byte p c).
Proof.
  intros Hp; unfold feed_byte; destruct (feed_step p c) as [q again] eqn:E.
  pose proof (feed_step_wf _ _ _ _ Hp E) as Hq; destruct again; [|exact Hq].
  destruct (feed_step q c) as [r a] eqn:E'; exact (feed_step_wf _ _ _ _ Hq E').
Qed.

Lemma pending_zero_wf : pending_wf pending_zero.
Proof. exact (ground_wf pending_zero). Qed.

Lemma feed_wf data p : pending_wf p -> pending_wf (feed p data).
Proof.
  rewrite feed_fold; revert p; induction data as [|c data IH]; intros p Hp; [exact Hp|].
  apply IH, feed_byte_wf, Hp.
Qed.

#[export] Hint Resolve feed_wf pending_zero_wf : bridge.

#[export] Instance feed_proper : Proper (same_state ==> eq ==> same_state) feed.
Proof.
  intros p q H data ? <-; rewrite !feed_fold; revert p q H.
  induction data as [|c data IH]; intros p q H; [exact H|].
  cbn [fold_left]; apply IH; rewrite H; reflexivity.
Qed.

Lemma feed_app (p : pendingInput) (a b : list Z) : feed p (a ++ b) = feed (feed p a) b.
Proof. rewrite !feed_fold; apply fold_left_app. Qed.

(** ** Properties *)

(** Termination: the loop of [feed], which steps back on a byte that ends
    one sequence and belongs to the next, consumes the whole chunk within two
    iterations per byte from any tracker state. *)
Theorem feed_terminates (p : pendingInput) (data : list Z) :
  snd (feed_loop (2 * length data) p data) = [].
Proof. rewrite feed_loop_bytes by lia; reflexivity. Qed.

(** Chunk boundaries do not matter: feeding a stream in two chunks, split
    anywhere (inside an escape sequence or a character too), leaves the tracker
    exactly as feeding it in one. *)
Theorem feed_chunking (p : pendingInput) (a b : list Z) :
  feed p (a ++ b) = feed (feed p a) b.
Proof. apply feed_app. Qed.

(** The checkpoint prefix resumes the parser: whatever output [data] a
    session produced, if [prefix] returns bytes then feeding just those bytes
    to a fresh tracker reaches the same parser state, and every continuation
    keeps the two in the same state; the prefix never exceeds 4096 bytes. *)
Theorem prefix_resumes (data more : list Z) (pre : list Z)
    (H : prefix_ (feed pending_zero data) = Some pre) :
  zlen pre <= maxPendingInput /\
  same_state (feed (feed pending_zero pre) more) (feed (feed pending_zero data) more).
Proof.
  pose proof (feed_wf data pending_zero pending_zero_wf) as [Hl Hg Hr].
  assert (pre = buf (feed pending_zero data) /\ overflow (feed pending_zero data) = false) as [-> Ho].
  { unfold prefix_ in H; destruct (pi_state (feed pending_zero data)) eqn:E;
      try (destruct (overflow _ || executed _) eqn:K; [discriminate|];
           apply orb_false_iff in K; injection H; intuition congruence).
    injection H as <-; destruct (Hg eq_refl) as (-> & -> & _); auto. }
  split; [exact Hl|].
  specialize (Hr Ho); rewrite <- feed_fold in Hr; rewrite Hr; reflexivity.
Qed.

Lemma prefix_resumes_witness :
  let data := [104; 105; 27; 91; 51; 49] in  (* "hi" ESC [ 3 1 *)
  prefix_ (feed pending_zero data) = Some [27; 91; 51; 49] /\
  same_state (feed (feed pending_zero [27; 91; 51; 49]) [109; 226; 130])
             (feed (feed pending_zero data) [109; 226; 130]).
Proof.
  intros data; assert (prefix_ (feed pending_zero data) = Some [27; 91; 51; 49]) as H
    by (vm_compute; reflexivity).
  split; [exact H | apply (prefix_resumes data [109; 226; 130] _ H)].
Defined.
