(* ===== verification/Screen.v ===== *)
(** * The live screen of a PTY session: internal/bridge/screen.go

    The terminal emulator (charmbracelet/x/vt) and the drawing of its grid are
    parameters, gathered in the class [Emulator]; the model is what the code
    itself decides: when the emulator is created, resized, fed, disabled,
    frozen, and when a checkpoint may be served for a sequence number. *)

From S2P Require Import Prelude ByteBuf Pending.

(** The emulator as the code uses it.  [emu_new] is [vt.NewEmulator] with the
    reply pipe closed, the scrollback set and the mode callbacks installed
    ([None]: the input pipe is not a [*io.PipeWriter]); the callbacks record
    modes inside the emulator value; [emu_render] is what [render] draws for
    an emulator and a pending prefix ([None]: it declines). *)
Class Emulator := {
  Emu : Type;
  emu_new : Z -> Z -> option Emu;
  emu_width : Emu -> Z;
  emu_height : Emu -> Z;
  emu_resize : Emu -> Z -> Z -> Emu;
  emu_write : Emu -> bytes -> Emu;
  emu_draw : Emu -> option bytes;
}.

Definition maxTerminalCheckpointBytes : Z := 65536.
Definition maxScreenCols : Z := 500.
Definition maxScreenRows : Z := 300.

Definition byte_of_val (z : Z) : Byte.byte :=
  match Byte.of_N (Z.to_N z) with Some b => b | None => Byte.x00 end.

Section LiveScreen.
Context `{E : Emulator}.

(** [final] (a [sync.Once]) is the flag [finalized]. *)
Record liveScreen := MkScreen {
  emu : option Emu;
  scr_seq : Z;
  disabled : bool;
  pending : pendingInput;
  frozen : option bytes;
  closed : bool;
  finalized : bool;
}.

Definition newLiveScreen : liveScreen :=
  MkScreen None 0 false pending_zero None false false.

Definition disable (l : liveScreen) : liveScreen :=
  MkScreen None (scr_seq l) true (pending l) (frozen l) (closed l) (finalized l).

Definition set_emu (e : Emu) (l : liveScreen) : liveScreen :=
  MkScreen (Some e) (scr_seq l) (disabled l) (pending l) (frozen l) (closed l) (finalized l).

Definition ensure (l : liveScreen) (cols rows : Z) : liveScreen * bool :=
  if disabled l || closed l then (l, false)
  else if (cols =? 0) || (rows =? 0) || (maxScreenCols <? cols) || (maxScreenRows <? rows)
  then (disable l, false)
  else match emu l with
       | None =>
           match emu_new cols rows with
           | None => (MkScreen (emu l) (scr_seq l) true (pending l) (frozen l) (closed l) (finalized l), false)
           | Some e => (set_emu e l, true)
           end
       | Some e =>
           if negb (emu_width e =? cols) || negb (emu_height e =? rows)
           then (set_emu (emu_resize e cols rows) l, true)
           else (l, true)
       end.

Definition apply_chunk (l : liveScreen) (chunk : OutputChunk) : liveScreen :=
  let '(l, ok) := ensure l (Cols chunk) (Rows chunk) in
  if negb ok then l
  else if negb (Seq chunk =? u64 (scr_seq l + 1)) then disable l
  else
    match emu l with
    | None => l  (* not reached: [ensure] returned true *)
    | Some e =>
        let wrote := negb (bool_decide (Payload chunk = [])) in
        MkScreen (Some (if wrote then emu_write e (Payload chunk) else e)) (Seq chunk) (disabled l)
          (if wrote then feed (pending l) (map byte_val (Payload chunk)) else pending l)
          (frozen l) (closed l) (finalized l)
    end.

(** [render]: the drawn state followed by the incomplete trailing input. *)
Definition render (e : Emu) (p : pendingInput) : option bytes :=
  match prefix_ p with
  | None => None
  | Some pre => match emu_draw e with
                | None => None
                | Some b => Some (b ++ map byte_of_val pre)
                end
  end.

Definition freeze (l : liveScreen) : liveScreen :=
  if closed l then l
  else MkScreen (emu l) (scr_seq l) (disabled l) (pending l) (frozen l) true (finalized l).

Definition finalize (l : liveScreen) : liveScreen :=
  if finalized l then l
  else
    let frozen' := if disabled l then frozen l
                   else match emu l with Some e => render e (pending l) | None => frozen l end in
    MkScreen None (scr_seq l) (disabled l) (pending l) frozen' (closed l) true.

(** [checkpoint] also finalizes a closed screen; it returns the updated one. *)
Definition checkpoint (l : liveScreen) (seq : Z) : option bytes * liveScreen :=
  if disabled l || (seq =? 0) || negb (scr_seq l =? seq) then (None, l)
  else
    let '(data, l) :=
      if closed l then let l := finalize l in (frozen l, l)
      else (match emu l with Some e => render e (pending l) | None => None end, l) in
    match data with
    | None => (None, l)
    | Some d => if (zlen d =? 0) || (maxTerminalCheckpointBytes <? zlen d) then (None, l) else (Some d, l)
    end.

(** ** Specification: the screen a viewer has after a chunk sequence *)

(** Geometry the code is willing to emulate. *)
Definition drawable (c : OutputChunk) : Prop :=
  0 < Cols c <= maxScreenCols /\ 0 < Rows c <= maxScreenRows.

(** The emulator an uninterrupted viewer would hold: created at the first
    geometry, resized and written chunk by chunk. *)
Definition view_step (e : option Emu) (c : OutputChunk) : option Emu :=
  match (match e with
         | None => emu_new (Cols c) (Rows c)
         | Some e => Some (if negb (emu_width e =? Cols c) || negb (emu_height e =? Rows c)
                           then emu_resize e (Cols c) (Rows c) else e)
         end) with
  | None => None
  | Some e => Some (if bool_decide (Payload c = []) then e else emu_write e (Payload c))
  end.

Definition view (cs : list OutputChunk) : option Emu := fold_left view_step cs None.

Definition stream (cs : list OutputChunk) : list Z :=
  concat (map (fun c => map byte_val (Payload c)) cs).

Definition apply_all (cs : list OutputChunk) (l : liveScreen) : liveScreen :=
  fold_left apply_chunk cs l.

(** The screen is in step with the chunk history [cs]. *)
Definition in_step (l : liveScreen) (cs : list OutputChunk) : Prop :=
  contiguous 1 cs /\ scr_seq l = zlen cs /\ emu l = view cs /\
  pending l = feed pending_zero (stream cs) /\ (cs <> [] -> emu l <> None).

(** ** Lemmas *)

Lemma contiguous_snoc n cs c : contiguous n (cs ++ [c]) <-> contiguous n cs /\ Seq c = n + zlen cs.
Proof. rewrite contiguous_app; simpl; tauto. Qed.

Lemma stream_snoc cs c : stream (cs ++ [c]) = stream cs ++ map byte_val (Payload c).
Proof. unfold stream; rewrite map_app, concat_app; simpl; rewrite app_nil_r; reflexivity. Qed.

Lemma view_snoc cs c : view (cs ++ [c]) = view_step (view cs) c.
Proof. unfold view; rewrite fold_left_app; reflexivity. Qed.

Lemma apply_disabled l c : disabled l = true -> apply_chunk l c = l.
Proof. unfold apply_chunk, ensure; intros ->; reflexivity. Qed.

Lemma apply_closed l c : closed l = true -> apply_chunk l c = l.
Proof. unfold apply_chunk, ensure; intros ->; rewrite orb_true_r; reflexivity. Qed.

(** Flags only [freeze] and [finalize] change. *)
Lemma apply_flags l c :
  closed (apply_chunk l c) = closed l /\ finalized (apply_chunk l c) = finalized l /\
  frozen (apply_chunk l c) = frozen l.
Proof.
  unfold apply_chunk, ensure, disable, set_emu.
  repeat (case_goal; simpl in *; simplify_eq); auto.
Qed.

(** [ensure] succeeds exactly on drawable geometry with an emulator. *)
Lemma ensure_spec l cols rows :
  disabled l = false -> closed l = false ->
  match ensure l cols rows with
  | (l', true) =>
      (0 <> cols /\ cols <= maxScreenCols) /\ (0 <> rows /\ rows <= maxScreenRows) /\
      disabled l' = false /\ scr_seq l' = scr_seq l /\ pending l' = pending l /\
      closed l' = false /\
      emu l' = (match emu l with
                | None => emu_new cols rows
                | Some e => Some (if negb (emu_width e =? cols) || negb (emu_height e =? rows)
                                  then emu_resize e cols rows else e)
                end) /\ emu l' <> None
  | (l', false) => disabled l' = true
  end.
Proof.
  intros Hd Hc; unfold ensure; rewrite Hd, Hc; simpl.
  destruct ((cols =? 0) || (rows =? 0) || (maxScreenCols <? cols) || (maxScreenRows <? rows)) eqn:G;
    [reflexivity|].
  rewrite !orb_false_iff, !Z.eqb_neq, !Z.ltb_ge in G.
  destruct (emu l) as [e|] eqn:Ee.
  - destruct (negb _ || negb _); simpl; rewrite ?Ee; split_and!; auto; lia || discriminate.
  - destruct (emu_new cols rows) as [e|]; simpl; [|reflexivity].
    split_and!; auto; lia || discriminate.
Qed.

Definition tracked (cs : list OutputChunk) (l : liveScreen) : Prop :=
  closed l = false /\ finalized l = false /\ frozen l = None /\
  (disabled l = true \/ disabled l = false /\ in_step l cs).

Lemma tracked_step cs l c :
  zlen cs + 1 < two64 -> tracked cs l -> tracked (cs ++ [c]) (apply_chunk l c).
Proof.
  intros Hlen (Hc & Hf & Hz & H); destruct (apply_flags l c) as (Hc' & Hf' & Hz').
  split_and!; [congruence..|].
  destruct H as [Hd|[Hd (Hct & Hseq & Hemu & Hpend & Hne)]]; [left; rewrite apply_disabled; exact Hd|].
  pose proof (ensure_spec l (Cols c) (Rows c) Hd Hc) as He; unfold apply_chunk.
  destruct (ensure l (Cols c) (Rows c)) as [l' [|]]; [|left; exact He]; simpl.
  destruct He as (_ & _ & Hd' & Hs' & Hp' & _ & He & Hn).
  pose proof (zlen_nonneg cs); rewrite Hs', Hseq, u64_small by lia.
  destruct (Z.eqb_spec (Seq c) (zlen cs + 1)) as [Hsc|Hsc]; [right|left; reflexivity]; simpl.
  destruct (emu l') as [e|] eqn:Ee; [|congruence]; simpl in He; simpl.
  split; [exact Hd'|]; split_and!; simpl.
  - apply contiguous_snoc; split; [exact Hct | lia].
  - rewrite zlen_app, zlen_cons, zlen_nil; lia.
  - rewrite view_snoc, <- Hemu; unfold view_step.
    destruct (match emu l with Some _ => _ | None => _ end) as [e'|]; [|discriminate].
    injection He as <-; case_bool_decide; reflexivity.
  - rewrite stream_snoc, feed_app, Hp', <- Hpend.
    case_bool_decide as Hb; [rewrite Hb|]; reflexivity.
  - discriminate.
Qed.

Lemma tracked_all cs : zlen cs < two64 -> tracked cs (apply_all cs newLiveScreen).
Proof.
  induction cs as [|c cs IH] using rev_ind; intros Hlen.
  - split_and!; auto; right; split; [reflexivity|]; repeat split; congruence.
  - rewrite zlen_app, zlen_cons, zlen_nil in Hlen.
    unfold apply_all; rewrite fold_left_app; apply tracked_step, IH; lia.
Qed.

Lemma freeze_checkpoint l s :
  closed l = false -> finalized l = false -> frozen l = None ->
  fst (checkpoint (freeze l) s) = fst (checkpoint l s).
Proof.
  intros Hc Hf Hz; unfold checkpoint, freeze; rewrite Hc; simpl.
  destruct (disabled l || (s =? 0) || negb (scr_seq l =? s)) eqn:G; [reflexivity|].
  rewrite !orb_false_iff in G; destruct G as [[Hd _] _].
  unfold finalize; simpl; rewrite Hf; simpl; rewrite Hd, Hz.
  destruct (emu l) as [e|]; simpl; [|reflexivity].
  destruct (render e (pending l)); [destruct (_ || _)|]; reflexivity.
Qed.
End LiveScreen.

(** ** Properties *)

(** A checkpoint is the current screen: whatever chunks were applied, and
    whether or not the session output has ended since, bytes are only served
    for sequence [s] when exactly the chunks 1..s were applied without a gap,
    and they are the drawing of the emulator an uninterrupted viewer holds
    after those chunks, followed by the input it has left incomplete; they are
    never empty and never exceed the wire limit. *)
Theorem checkpoint_is_current_screen `{E : Emulator} (cs : list OutputChunk) (ended : bool)
    (s : Z) (d : bytes)
    (Hlen : zlen cs < two64)
    (H : let l := apply_all cs newLiveScreen in
         fst (checkpoint (if ended then freeze l else l) s) = Some d) :
  contiguous 1 cs /\ s = zlen cs /\ 0 < zlen d <= maxTerminalCheckpointBytes /\
  exists e pre drawn, view cs = Some e /\
    prefix_ (feed pending_zero (stream cs)) = Some pre /\
    emu_draw e = Some drawn /\ d = drawn ++ map byte_of_val pre.
Proof.
  cbv zeta in H; destruct (tracked_all cs Hlen) as (Hc & Hf & Hz & Hst).
  set (l := apply_all cs newLiveScreen) in *.
  assert (fst (checkpoint l s) = Some d) as H'
    by (destruct ended; [rewrite freeze_checkpoint in H by assumption|]; exact H).
  clear H; unfold checkpoint in H'; rewrite Hc in H'.
  destruct (disabled l || (s =? 0) || negb (scr_seq l =? s)) eqn:G; [discriminate|].
  rewrite !orb_false_iff, negb_false_iff, Z.eqb_eq in G; destruct G as [[Hd _] Hs].
  destruct Hst as [Hst|[_ (Hct & Hseq & Hemu & Hpend & _)]]; [congruence|].
  destruct (emu l) as [e|]; [|discriminate]; unfold render in H'; rewrite Hpend in H'.
  destruct (prefix_ (feed pending_zero (stream cs))) as [pre|]; [|discriminate].
  destruct (emu_draw e) as [drawn|] eqn:Ed; [|discriminate].
  destruct ((zlen (drawn ++ map byte_of_val pre) =? 0) || _) eqn:K; [discriminate|].
  rewrite orb_false_iff, Z.eqb_neq, Z.ltb_ge in K; injection H' as <-.
  pose proof (zlen_nonneg (drawn ++ map byte_of_val pre)).
  split_and!; try lia; [exact Hct | exists e, pre, drawn; auto].
Qed.

(** A small emulator: it remembers its size and everything written. *)
#[local] Instance echo_emulator : Emulator := {|
  Emu := (Z * Z * bytes)%type;
  emu_new w h := Some (w, h, []);
  emu_width e := e.1.1;
  emu_height e := e.1.2;
  emu_resize e w h := (w, h, e.2);
  emu_write e b := (e.1, e.2 ++ b);
  emu_draw e := Some e.2;
|}.

Lemma checkpoint_is_current_screen_witness :
  let cs := [MkChunk 80 24 1 0 (bytes_of_string "ab") ChunkTypeOutput;
             MkChunk 90 24 2 0 (bytes_of_string "c") ChunkTypeOutput] in
  contiguous 1 cs /\ 2 = zlen cs /\
  0 < zlen (bytes_of_string "abc") <= maxTerminalCheckpointBytes /\
  exists e pre drawn, view cs = Some e /\
    prefix_ (feed pending_zero (stream cs)) = Some pre /\
    emu_draw e = Some drawn /\ bytes_of_string "abc" = drawn ++ map byte_of_val pre.
Proof.
  intros cs; apply (checkpoint_is_current_screen cs true 2 (bytes_of_string "abc"));
    vm_compute; reflexivity.
Defined.
