(* ===== verification/Store.v ===== *)
(** * Durable sessions and output journal: internal/bridge/session_store.go

    [SessionStore] is the interface the supervisor calls, [JournalLaws] what
    it promises.  The implementation sits on bbolt and encoding/json: the
    class [Bolt] holds the key/value operations the code uses with the
    documented facts about them (a bucket is a map iterated in byte order of
    its keys), and the encoding of a chunk is a codec whose decoder inverts it. *)

From S2P Require Import Prelude Types ByteBuf GoStd.

(** ** The interface *)

(** Every operation returns what the Go method returns; a nil error is
    [None].  [store_page] is [Some] when the store implements
    [ChunkPageStore]. *)
Class SessionStore := {
  St : Type;
  store_Save : St -> SessionInfo -> St * option error;
  store_LoadAll : St -> list SessionInfo * option error;
  store_SaveChunk : St -> string -> OutputChunk -> St * option error;
  store_LoadChunks : St -> string -> list OutputChunk * option error;
  store_page : option (St -> string -> Z -> Z -> list OutputChunk * option error);
}.

(** ** bbolt and encoding/json *)

Abbreviation key := (list Z).

(** Byte order, as [bytes.Compare]. *)
Fixpoint key_lt (a b : key) : bool :=
  match a, b with
  | _, [] => false
  | [], _ :: _ => true
  | x :: a, y :: b => (x <? y) || ((x =? y) && key_lt a b)
  end.

(** Insert or replace in a list sorted by key. *)
Fixpoint put_sorted {V} (k : key) (v : V) (l : list (key * V)) : list (key * V) :=
  match l with
  | [] => [(k, v)]
  | (k', v') :: r =>
      if key_lt k k' then (k, v) :: l
      else if bool_decide (k = k') then (k, v) :: r
      else (k', v') :: put_sorted k v r
  end.

Inductive bucket := sessionsBucket | chunksBucket.

(** The database operations the code uses.  [bolt_put] is a [Put] inside a
    read-write transaction ([Some e]: the transaction failed and nothing
    changed); [bolt_scan] is the bucket's contents in cursor order. *)
Class Bolt := {
  DB : Type;
  Val : Type;
  bolt_put : DB -> bucket -> key -> Val -> DB * option error;
  bolt_scan : DB -> bucket -> list (key * Val);
  marshalInfo : SessionInfo -> option Val;
  unmarshalInfo : Val -> option SessionInfo;
  marshalChunk : OutputChunk -> option Val;
  unmarshalChunk : Val -> option OutputChunk;
}.

(** Keys in strictly ascending byte order. *)
Fixpoint keys_sorted {V} (l : list (key * V)) : Prop :=
  match l with
  | [] => True
  | (k, _) :: r => Forall (fun e => key_lt k (fst e) = true) r /\ keys_sorted r
  end.

(** Documented behaviour relied upon. *)
Class BoltLaws `{B : Bolt} : Prop := {
  bolt_scan_sorted : forall db b, keys_sorted (bolt_scan db b);
  bolt_put_ok : forall db b k v db', bolt_put db b k v = (db', None) ->
    bolt_scan db' b = put_sorted k v (bolt_scan db b) /\
    (forall b', b' <> b -> bolt_scan db' b' = bolt_scan db b');
  bolt_put_err : forall db b k v db' e, bolt_put db b k v = (db', Some e) -> db' = db;
  chunk_roundtrip : forall c v, marshalChunk c = Some v -> unmarshalChunk v = Some c;
}.

Section BoltSessionStore.
Context `{B : Bolt}.

(** [fmt.Sprintf("%s/%016x", sessionID, seq)]. *)
Definition chunkKey (sessionID : string) (seq : Z) : key :=
  chars sessionID ++ SEP :: hex16 seq.

Definition chunk_prefix (sessionID : string) : key := chars sessionID ++ [SEP].

Definition Save (db : DB) (info : SessionInfo) : DB * option error :=
  match marshalInfo info with
  | None => (db, Some (Other "marshal session"))
  | Some v => bolt_put db sessionsBucket (chars (info_SessionID info)) v
  end.

Definition SaveChunk (db : DB) (sessionID : string) (chunk : OutputChunk) : DB * option error :=
  match marshalChunk chunk with
  | None => (db, Some (Other "marshal chunk"))
  | Some v => bolt_put db chunksBucket (chunkKey sessionID (Seq chunk)) v
  end.

(** [c.Seek(k)]: the cursor positioned at the first key not below [k]. *)
Fixpoint seek (k : key) (l : list (key * Val)) : list (key * Val) :=
  match l with
  | [] => []
  | (k', v) :: r => if key_lt k' k then seek k r else l
  end.

(** The loop of [LoadChunks] from the cursor on. *)
Fixpoint load_loop (prefix : key) (l : list (key * Val)) (acc : list OutputChunk)
    : list OutputChunk * option error :=
  match l with
  | [] => (acc, None)
  | (k, v) :: r =>
      if has_prefix prefix k then
        match unmarshalChunk v with
        | None => (acc, Some (Other "unmarshal chunk"))
        | Some c => load_loop prefix r (acc ++ [c])
        end
      else (acc, None)
  end.

Definition LoadChunks (db : DB) (sessionID : string) : list OutputChunk * option error :=
  let prefix := chunk_prefix sessionID in
  load_loop prefix (seek prefix (bolt_scan db chunksBucket)) [].

(** The loop of [LoadChunkPage] from the cursor on. *)
Fixpoint page_loop (prefix : key) (maxBytes : Z) (l : list (key * Val))
    (acc : list OutputChunk) (tot : Z) : list OutputChunk * option error :=
  match l with
  | [] => (acc, None)
  | (k, v) :: r =>
      if has_prefix prefix k then
        match unmarshalChunk v with
        | None => (acc, Some (Other "unmarshal chunk"))
        | Some c =>
            if (zlen acc =? 1024) || (maxBytes <? tot + zlen (Payload c)) then
              match acc with
              | [] => (acc, Some (Other "terminal chunk exceeds replay window"))
              | _ => (acc, None)
              end
            else page_loop prefix maxBytes r (acc ++ [c]) (tot + zlen (Payload c))
        end
      else (acc, None)
  end.

Definition LoadChunkPage (db : DB) (sessionID : string) (after maxBytes : Z)
    : list OutputChunk * option error :=
  if after =? two64 - 1 then ([], None)
  else page_loop (chunk_prefix sessionID) maxBytes
         (seek (chunkKey sessionID (u64 (after + 1))) (bolt_scan db chunksBucket)) [] 0.

Fixpoint load_all_loop (l : list (key * Val)) (acc : list SessionInfo)
    : list SessionInfo * option error :=
  match l with
  | [] => (acc, None)
  | (_, v) :: r =>
      match unmarshalInfo v with
      | None => (acc, Some (Other "unmarshal session"))
      | Some i => load_all_loop r (acc ++ [i])
      end
  end.

Definition LoadAll (db : DB) : list SessionInfo * option error :=
  load_all_loop (bolt_scan db sessionsBucket) [].
End BoltSessionStore.

#[export] Instance BoltSessionStore `{B : Bolt} : SessionStore := {|
  St := DB;
  store_Save := Save;
  store_LoadAll := LoadAll;
  store_SaveChunk := SaveChunk;
  store_LoadChunks := LoadChunks;
  store_page := Some LoadChunkPage;
|}.

(** ** What the journal promises *)

(** Insert by sequence number, replacing an equal one. *)
Fixpoint journal_insert (c : OutputChunk) (l : list OutputChunk) : list OutputChunk :=
  match l with
  | [] => [c]
  | d :: r => if Seq c <? Seq d then c :: l
              else if Seq c =? Seq d then c :: r
              else d :: journal_insert c r
  end.

Definition seq_ok (c : OutputChunk) : Prop := 0 <= Seq c < two64.

(** A session identifier that cannot alias another one's keys (UUIDs have no
    separator). *)
Definition plain_id (id : string) : Prop := sep_free (chars id).

(** Bounded page: the longest prefix of the chunks after the cursor that has at
    most [n] chunks and fits [budget]. *)
Fixpoint page_of (n : nat) (budget : Z) (l : list OutputChunk) : list OutputChunk :=
  match n, l with
  | S n, c :: r => if budget <? zlen (Payload c) then []
                   else c :: page_of n (budget - zlen (Payload c)) r
  | _, _ => []
  end.

(** What a page request answers: at most 1024 chunks beyond the cursor within
    the byte budget, and an error only when the first of them alone exceeds it. *)
Definition page_spec (l : list OutputChunk) (after maxBytes : Z) : list OutputChunk * option error :=
  match List.filter (fun c => after <? Seq c) l with
  | [] => ([], None)
  | c :: r => if maxBytes <? zlen (Payload c)
              then ([], Some (Other "terminal chunk exceeds replay window"))
              else (page_of 1024 maxBytes (c :: r), None)
  end.

#[export] Instance plain_id_dec (id : string) : Decision (plain_id id) := decide (SEP ∉ chars id).
#[export] Instance seq_ok_dec (c : OutputChunk) : Decision (seq_ok c) := decide (0 <= Seq c < two64).

(** [journal st id l]: the store holds exactly the chunks [l] for session [id],
    in ascending sequence order. *)
Class JournalLaws `{S : SessionStore} := {
  journal : St -> string -> list OutputChunk -> Prop;
  journal_load : forall st id l, plain_id id -> journal st id l ->
    store_LoadChunks st id = (l, None);
  journal_save : forall st id c l st', plain_id id -> seq_ok c -> journal st id l ->
    store_SaveChunk st id c = (st', None) -> journal st' id (journal_insert c l);
  journal_save_other : forall st id id' c l st' e, plain_id id -> plain_id id' -> id <> id' ->
    journal st id' l -> store_SaveChunk st id c = (st', e) -> journal st' id' l;
  journal_save_err : forall st id c l st' e, journal st id l ->
    store_SaveChunk st id c = (st', Some e) -> journal st' id l;
  journal_page : forall st id l after maxBytes page, plain_id id -> journal st id l ->
    0 <= after < two64 -> store_page = Some page ->
    page st id after maxBytes = page_spec l after maxBytes;
}.

(** The entries of one session: its keys and decoded values. *)
Definition entries `{B : Bolt} (db : DB) (id : string) : list (key * Val) :=
  List.filter (fun e => has_prefix (chunk_prefix id) (fst e)) (bolt_scan db chunksBucket).

Definition bolt_journal `{B : Bolt} (db : DB) (id : string) (l : list OutputChunk) : Prop :=
  map (fun e => (fst e, unmarshalChunk (snd e))) (entries db id) =
  map (fun c => (chunkKey id (Seq c), Some c)) l /\ Forall seq_ok l.

(** ** Lemmas: byte order *)

Lemma key_lt_irrefl a : key_lt a a = false.
Proof. induction a as [|x a IH]; simpl; [reflexivity|]; rewrite Z.ltb_irrefl, Z.eqb_refl, IH; reflexivity. Qed.

Lemma key_lt_trans a b c : key_lt a b = true -> key_lt b c = true -> key_lt a c = true.
Proof.
  revert b c; induction a as [|x a IH]; intros [|y b] [|z c]; simpl; try discriminate; auto.
  rewrite !orb_true_iff, !andb_true_iff, !Z.ltb_lt, !Z.eqb_eq.
  intros [H1|[-> H1]] [H2|[-> H2]]; try (left; lia); right; split; [reflexivity | eauto].
Qed.

Lemma key_lt_prefix p k : has_prefix p k = true -> key_lt k p = false.
Proof.
  revert k; induction p as [|x p IH]; intros [|y k]; simpl; try reflexivity; try discriminate.
  intros H; apply andb_true_iff in H as [H1 H2]; apply Z.eqb_eq in H1 as ->.
  rewrite Z.ltb_irrefl, Z.eqb_refl, IH by exact H2; reflexivity.
Qed.

(** Past the keys with a prefix, no larger key has it. *)
Lemma key_past_prefix p k k' :
  key_lt k p = false -> has_prefix p k = false -> key_lt k k' = true -> has_prefix p k' = false.
Proof.
  revert k k'; induction p as [|x p IH]; intros [|y k] [|z k']; simpl; try discriminate; auto.
  rewrite orb_false_iff, Z.ltb_ge, orb_true_iff, !andb_true_iff, Z.ltb_lt, Z.eqb_eq.
  intros [H1 H2] H3 H4; destruct (Z.eqb_spec x z) as [->|]; [|reflexivity]; simpl.
  destruct H4 as [H4|[-> H4]]; [lia|].
  rewrite Z.eqb_refl in H2, H3; simpl in H2, H3; eauto.
Qed.

Lemma key_lt_app p a b : key_lt (p ++ a) (p ++ b) = key_lt a b.
Proof. induction p as [|x p IH]; simpl; [reflexivity|]; rewrite Z.ltb_irrefl, Z.eqb_refl, IH; reflexivity. Qed.

(** *** Fixed-width hexadecimal keeps the order *)

Lemma hex_digit_lt a b : 0 <= a < 16 -> 0 <= b < 16 -> (hex_digit a <? hex_digit b) = (a <? b).
Proof.
  intros Ha Hb; unfold hex_digit.
  destruct (Z.ltb_spec a 10), (Z.ltb_spec b 10), (Z.ltb_spec a b); lia.
Qed.

Lemma hex_digit_eq a b : 0 <= a < 16 -> 0 <= b < 16 -> (hex_digit a =? hex_digit b) = (a =? b).
Proof.
  intros Ha Hb; unfold hex_digit.
  destruct (Z.ltb_spec a 10), (Z.ltb_spec b 10), (Z.eqb_spec a b); lia.
Qed.

Lemma hex_digits_mod n x : hex_digits n x = hex_digits n (x mod 16 ^ Z.of_nat n).
Proof.
  assert (forall m k, (m <= k)%nat -> hex_digits m x = hex_digits m (x mod 16 ^ Z.of_nat k)) as H.
  { induction m as [|m IH]; intros k Hk; [reflexivity|]; cbn [hex_digits].
    rewrite (IH k) by lia; do 2 f_equal.
    replace (16 ^ Z.of_nat k) with (16 ^ Z.of_nat m * 16 ^ (Z.of_nat k - Z.of_nat m))
      by (rewrite <- Z.pow_add_r by lia; f_equal; lia).
    rewrite Z.rem_mul_r, Z.mul_comm, Z.div_add by lia.
    rewrite (Z.div_small (x mod _)), Z.add_0_l by (apply Z.mod_pos_bound; lia).
    replace (16 ^ (Z.of_nat k - Z.of_nat m)) with (16 * 16 ^ (Z.of_nat k - Z.of_nat m - 1))
      by (rewrite <- Z.pow_succ_r by lia; f_equal; lia).
    rewrite Z.rem_mul_r, Z.mul_comm, Z.mod_add, Z.mod_mod by lia; reflexivity. }
  apply (H n n); lia.
Qed.

Lemma hex_digits_lt n x y :
  0 <= x < 16 ^ Z.of_nat n -> 0 <= y < 16 ^ Z.of_nat n ->
  key_lt (hex_digits n x) (hex_digits n y) = (x <? y).
Proof.
  revert x y; induction n as [|n IH]; intros x y Hx Hy.
  - simpl in *; symmetry; apply Z.ltb_ge; lia.
  - rewrite Nat2Z.inj_succ, Z.pow_succ_r in Hx, Hy by lia.
    cbn [hex_digits key_lt]; set (w := 16 ^ Z.of_nat n) in *.
    assert (0 < w) by (unfold w; lia).
    pose proof (Z.div_mod x w ltac:(lia)); pose proof (Z.div_mod y w ltac:(lia)).
    pose proof (Z.mod_pos_bound x w ltac:(lia)); pose proof (Z.mod_pos_bound y w ltac:(lia)).
    assert (0 <= x / w < 16) by (split; [apply Z.div_pos; lia | apply Z.div_lt_upper_bound; lia]).
    assert (0 <= y / w < 16) by (split; [apply Z.div_pos; lia | apply Z.div_lt_upper_bound; lia]).
    rewrite !(Z.mod_small (_ / w)) by lia.
    rewrite hex_digit_lt, hex_digit_eq by lia.
    rewrite (hex_digits_mod n x), (hex_digits_mod n y), IH by (fold w; lia); fold w.
    destruct (Z.ltb_spec (x / w) (y / w)), (Z.eqb_spec (x / w) (y / w)),
      (Z.ltb_spec (x mod w) (y mod w)), (Z.ltb_spec x y); simpl; try reflexivity; nia.
Qed.

Lemma hex16_lt x y : 0 <= x < two64 -> 0 <= y < two64 -> key_lt (hex16 x) (hex16 y) = (x <? y).
Proof. intros Hx Hy; apply hex_digits_lt; assumption. Qed.

Lemma chunkKey_lt id a b :
  0 <= a < two64 -> 0 <= b < two64 -> key_lt (chunkKey id a) (chunkKey id b) = (a <? b).
Proof.
  intros Ha Hb; unfold chunkKey; rewrite key_lt_app; simpl; apply hex16_lt; assumption.
Qed.

Lemma chunkKey_inj id a b :
  0 <= a < two64 -> 0 <= b < two64 -> chunkKey id a = chunkKey id b -> a = b.
Proof.
  intros Ha Hb H; pose proof (chunkKey_lt id a b Ha Hb) as H1; pose proof (chunkKey_lt id b a Hb Ha) as H2.
  rewrite H, key_lt_irrefl in H1; rewrite H, key_lt_irrefl in H2.
  symmetry in H1, H2; rewrite Z.ltb_ge in H1, H2; lia.
Qed.

(** Keys of different sessions are apart when the identifiers have no
    separator. *)
Lemma chunk_prefix_own id seq : has_prefix (chunk_prefix id) (chunkKey id seq) = true.
Proof.
  apply has_prefix_spec; exists (hex16 seq); unfold chunk_prefix, chunkKey.
  rewrite <- app_assoc; reflexivity.
Qed.

Lemma chars_inj a b : chars a = chars b -> a = b.
Proof.
  unfold chars, bytes_of_string; intros H.
  apply (f_equal (map (fun z => Byte.of_N (Z.to_N z)))) in H; rewrite !map_map in H.
  assert (forall b, Byte.of_N (Z.to_N (byte_val b)) = Some b) as Hb.
  { intros x; unfold byte_val; rewrite N2Z.id; apply Byte.of_to_N. }
  assert (forall l, map (fun x => Byte.of_N (Z.to_N (byte_val x))) l = map Some l) as Hm
    by (induction l as [|x l IH]; simpl; [reflexivity | rewrite Hb, IH; reflexivity]).
  rewrite !Hm in H.
  assert (String.list_byte_of_string a = String.list_byte_of_string b) as K.
  { revert H; generalize (String.list_byte_of_string a), (String.list_byte_of_string b).
    induction l as [|x l IH]; intros [|y k]; simpl; congruence || (intros [= -> E]; f_equal; auto). }
  rewrite <- (String.string_of_list_byte_of_string a), K; apply String.string_of_list_byte_of_string.
Qed.

Lemma chunk_prefix_other id id' seq :
  plain_id id -> plain_id id' -> id <> id' -> has_prefix (chunk_prefix id') (chunkKey id seq) = false.
Proof.
  intros H H' Hne; unfold chunk_prefix, chunkKey; rewrite sep_free_prefix by assumption.
  rewrite bool_decide_eq_false_2; [reflexivity|]; intros K; apply chars_inj in K; congruence.
Qed.

(** ** Lemmas: sorted buckets *)

Lemma put_sorted_front {V} k (v : V) l :
  Forall (fun e => key_lt k (fst e) = true) l -> put_sorted k v l = (k, v) :: l.
Proof. destruct l as [|[k' v'] l]; [reflexivity|]; intros H; inversion H as [|? ? Hk _]; simpl in *; subst; rewrite Hk; reflexivity. Qed.

Lemma Forall_filter_keep {A} (f : A -> bool) (P : A -> Prop) l : Forall P l -> Forall P (List.filter f l).
Proof. induction 1 as [|x l Hx _ IH]; simpl; [constructor|]; destruct (f x); auto. Qed.

(** Filtering by a test on the key commutes with a put. *)
Lemma filter_put_sorted {V} (f : key -> bool) k (v : V) l :
  keys_sorted l ->
  List.filter (fun e => f (fst e)) (put_sorted k v l) =
  if f k then put_sorted k v (List.filter (fun e => f (fst e)) l)
  else List.filter (fun e => f (fst e)) l.
Proof.
  induction l as [|[k' v'] l IH]; intros Hs; [simpl; destruct (f k); reflexivity|].
  destruct Hs as [Hall Hs]; cbn [put_sorted]; destruct (key_lt k k') eqn:Elt.
  - change (List.filter (fun e => f (fst e)) ((k, v) :: (k', v') :: l)) with
      (if f k then (k, v) :: List.filter (fun e => f (fst e)) ((k', v') :: l)
       else List.filter (fun e => f (fst e)) ((k', v') :: l)).
    destruct (f k); [|reflexivity].
    rewrite put_sorted_front; [reflexivity|]; apply Forall_filter_keep.
    constructor; [exact Elt|]; revert Hall; apply List.Forall_impl.
    intros e He; exact (key_lt_trans _ _ _ Elt He).
  - case_bool_decide as Eq.
    + subst k'; simpl; destruct (f k) eqn:Ef; [|reflexivity].
      cbn [put_sorted]; rewrite key_lt_irrefl, bool_decide_eq_true_2 by reflexivity; reflexivity.
    + simpl; rewrite IH by exact Hs; destruct (f k') eqn:Ef'; [|reflexivity].
      destruct (f k); [|reflexivity]; cbn [put_sorted].
      rewrite Elt, bool_decide_eq_false_2 by exact Eq; reflexivity.
Qed.

(** The run of keys with a prefix, from the cursor on. *)
Fixpoint prefix_run {V} (p : key) (l : list (key * V)) : list (key * V) :=
  match l with
  | (k, v) :: r => if has_prefix p k then (k, v) :: prefix_run p r else []
  | [] => []
  end.

Lemma keys_sorted_filter {V} (f : key * V -> bool) l : keys_sorted l -> keys_sorted (List.filter f l).
Proof.
  induction l as [|[k v] l IH]; intros Hs; [exact I|]; destruct Hs as [Hall Hs]; simpl.
  destruct (f (k, v)); [split; [apply Forall_filter_keep, Hall|]|]; auto.
Qed.

Lemma filter_none {A} (f : A -> bool) l : Forall (fun x => f x = false) l -> List.filter f l = [].
Proof. induction 1 as [|x l Hx _ IH]; simpl; [reflexivity|]; rewrite Hx; exact IH. Qed.

Lemma filter_all {A} (f : A -> bool) l : Forall (fun x => f x = true) l -> List.filter f l = l.
Proof. induction 1 as [|x l Hx _ IH]; simpl; [reflexivity|]; rewrite Hx, IH; reflexivity. Qed.

Lemma seek_filter `{B : Bolt} k (l : list (key * Val)) :
  keys_sorted l -> seek k l = List.filter (fun e => negb (key_lt (fst e) k)) l.
Proof.
  induction l as [|[k' v'] l IH]; intros Hs; [reflexivity|]; destruct Hs as [Hall Hs].
  cbn [seek List.filter fst]; destruct (key_lt k' k) eqn:Elt; simpl; [auto|].
  f_equal; symmetry; apply filter_all; revert Hall; apply List.Forall_impl; intros e He.
  apply negb_true_iff, not_true_iff_false; intros K.
  rewrite (key_lt_trans _ _ _ He K) in Elt; discriminate.
Qed.

Lemma run_filter {V} p (l : list (key * V)) :
  keys_sorted l -> Forall (fun e => key_lt (fst e) p = false) l ->
  prefix_run p l = List.filter (fun e => has_prefix p (fst e)) l.
Proof.
  induction l as [|[k v] l IH]; intros Hs Hp; [reflexivity|]; destruct Hs as [Hall Hs].
  inversion Hp as [|? ? Hk Hp']; subst; cbn [prefix_run List.filter fst].
  destruct (has_prefix p k) eqn:E; [f_equal; auto|].
  symmetry; apply filter_none; revert Hall; apply List.Forall_impl; intros e He.
  exact (key_past_prefix p k _ Hk E He).
Qed.

(** In a sorted bucket, seeking a key with prefix [p] and following the run of
    [p] visits exactly the entries with that prefix that are not below it. *)
Lemma seek_run `{B : Bolt} p k (l : list (key * Val)) :
  keys_sorted l -> has_prefix p k = true ->
  prefix_run p (seek k l) =
  List.filter (fun e => negb (key_lt (fst e) k)) (List.filter (fun e => has_prefix p (fst e)) l).
Proof.
  intros Hs Hp; rewrite seek_filter by exact Hs.
  rewrite run_filter.
  - clear; induction l as [|e l IH]; [reflexivity|]; simpl.
    destruct (negb (key_lt (fst e) k)) eqn:E1, (has_prefix p (fst e)) eqn:E2; simpl;
      rewrite ?E1, ?E2; congruence.
  - apply keys_sorted_filter, Hs.
  - apply Forall_forall; intros e He; apply List.filter_In in He as [_ He].
    apply not_true_iff_false; intros K; apply negb_true_iff in He.
    destruct (key_lt (fst e) k) eqn:E; [discriminate|].
    apply has_prefix_spec in Hp as [t ->].
    assert (key_lt p (p ++ t) = true \/ t = []) as [H| -> ].
    { rewrite <- (app_nil_r p) at 1; rewrite key_lt_app; destruct t; auto. }
    + rewrite (key_lt_trans _ _ _ K H) in E; discriminate.
    + rewrite app_nil_r, K in E; discriminate.
Qed.

Lemma load_loop_run `{B : Bolt} p l acc :
  load_loop p l acc = load_loop p (prefix_run p l) acc.
Proof.
  revert acc; induction l as [|[k v] l IH]; intros acc; [reflexivity|]; cbn [load_loop prefix_run].
  destruct (has_prefix p k) eqn:E; [|reflexivity]; cbn [load_loop]; rewrite E.
  destruct (unmarshalChunk v); auto.
Qed.

Lemma load_loop_decoded `{B : Bolt} p l acc (f : OutputChunk -> key) cs :
  map (fun e => (fst e, unmarshalChunk (snd e))) l = map (fun c => (f c, Some c)) cs ->
  (forall c, has_prefix p (f c) = true) -> load_loop p l acc = (acc ++ cs, None).
Proof.
  intros H Hf; revert acc cs H; induction l as [|[k v] l IH]; intros acc [|c cs] H; try discriminate.
  - simpl; rewrite app_nil_r; reflexivity.
  - simpl in H; injection H as -> Hv H; cbn [load_loop]; rewrite Hf, Hv.
    rewrite (IH (acc ++ [c]) cs H), <- app_assoc; reflexivity.
Qed.

(** A put of a fresh or existing chunk is a journal insert. *)
Lemma put_sorted_journal `{B : Bolt} id c v l E :
  seq_ok c -> unmarshalChunk v = Some c -> Forall seq_ok l ->
  map (fun e => (fst e, unmarshalChunk (snd e))) E = map (fun d => (chunkKey id (Seq d), Some d)) l ->
  map (fun e => (fst e, unmarshalChunk (snd e))) (put_sorted (chunkKey id (Seq c)) v E) =
  map (fun d => (chunkKey id (Seq d), Some d)) (journal_insert c l).
Proof.
  intros Hc Hv; revert E; induction l as [|d l IH]; intros E Hl HE.
  - destruct E; [|discriminate]; simpl; rewrite Hv; reflexivity.
  - destruct E as [|[k w] E]; [discriminate|]; inversion Hl as [|? ? Hd Hl']; subst.
    pose proof HE as HE0; simpl in HE; injection HE as -> Hw HE; cbn [put_sorted journal_insert].
    rewrite chunkKey_lt by assumption.
    destruct (Z.ltb_spec (Seq c) (Seq d)) as [Hlt|Hge].
    + change (map (fun e => (fst e, unmarshalChunk (snd e))) ((chunkKey id (Seq c), v) :: (chunkKey id (Seq d), w) :: E))
        with ((chunkKey id (Seq c), unmarshalChunk v)
              :: map (fun e => (fst e, unmarshalChunk (snd e))) ((chunkKey id (Seq d), w) :: E)).
      rewrite HE0, Hv; reflexivity.
    + destruct (Z.eqb_spec (Seq c) (Seq d)) as [Heq|Hne].
      * rewrite Heq, bool_decide_eq_true_2 by reflexivity; simpl; rewrite Hv, HE, Heq; reflexivity.
      * rewrite bool_decide_eq_false_2
          by (intros K; apply chunkKey_inj in K; [congruence | assumption..]).
        simpl; rewrite Hw, IH by assumption; reflexivity.
Qed.

Lemma journal_insert_ok c l : seq_ok c -> Forall seq_ok l -> Forall seq_ok (journal_insert c l).
Proof.
  intros Hc; induction l as [|d l IH]; intros Hl; simpl; [repeat constructor; apply Hc|].
  inversion Hl as [|? ? Hd Hl']; subst.
  destruct (Seq c <? Seq d); [|destruct (Seq c =? Seq d)]; repeat constructor; auto; apply Hd || apply Hc.
Qed.

(** *** The page loop *)

Lemma page_of_cons n b c r :
  page_of (S n) b (c :: r) =
  if b <? zlen (Payload c) then [] else c :: page_of n (b - zlen (Payload c)) r.
Proof. reflexivity. Qed.

Lemma page_loop_run `{B : Bolt} p m l acc tot :
  page_loop p m l acc tot = page_loop p m (prefix_run p l) acc tot.
Proof.
  revert acc tot; induction l as [|[k v] l IH]; intros acc tot; [reflexivity|]; cbn [page_loop prefix_run].
  destruct (has_prefix p k) eqn:E; [|reflexivity]; cbn [page_loop]; rewrite E.
  destruct (unmarshalChunk v); [|reflexivity]; rewrite IH; reflexivity.
Qed.

(** Once one chunk is taken the loop takes [page_of] of the rest. *)
Lemma page_loop_decoded `{B : Bolt} p m l acc tot (f : OutputChunk -> key) cs n :
  map (fun e => (fst e, unmarshalChunk (snd e))) l = map (fun c => (f c, Some c)) cs ->
  (forall c, has_prefix p (f c) = true) -> acc <> [] -> zlen acc + Z.of_nat n = 1024 ->
  page_loop p m l acc tot = (acc ++ page_of n (m - tot) cs, None).
Proof.
  intros H Hf; revert acc tot cs n H.
  induction l as [|[k v] l IH]; intros acc tot [|c cs] n H Hacc Hn; try discriminate.
  - destruct n; simpl; rewrite app_nil_r; reflexivity.
  - simpl in H; injection H as -> Hv H; cbn [page_loop]; rewrite Hf, Hv.
    destruct n as [|n].
    + replace (zlen acc =? 1024) with true by (symmetry; apply Z.eqb_eq; lia); simpl.
      rewrite app_nil_r; destruct acc; [congruence | reflexivity].
    + replace (zlen acc =? 1024) with false by (symmetry; apply Z.eqb_neq; lia); cbn [orb page_of].
      replace (m <? tot + zlen (Payload c)) with (m - tot <? zlen (Payload c))
        by (destruct (Z.ltb_spec (m - tot) (zlen (Payload c))), (Z.ltb_spec m (tot + zlen (Payload c))); lia).
      destruct (m - tot <? zlen (Payload c)).
      * rewrite app_nil_r; destruct acc; [congruence | reflexivity].
      * rewrite (IH (acc ++ [c]) (tot + zlen (Payload c)) cs n H), <- app_assoc;
          [do 3 f_equal; f_equal; lia | destruct acc; discriminate | autorewrite with bridge; lia].
Qed.

(** Entries not below the key of [after + 1] are those of the later chunks. *)
Lemma entries_after `{B : Bolt} id E l after :
  map (fun e => (fst e, unmarshalChunk (snd e))) E = map (fun d => (chunkKey id (Seq d), Some d)) l ->
  Forall seq_ok l -> 0 <= after < two64 - 1 ->
  map (fun e => (fst e, unmarshalChunk (snd e)))
      (List.filter (fun e => negb (key_lt (fst e) (chunkKey id (after + 1)))) E) =
  map (fun d => (chunkKey id (Seq d), Some d)) (List.filter (fun c => after <? Seq c) l).
Proof.
  intros H Hl Ha; revert E H; induction Hl as [|d l Hd Hl IH]; intros [|[k v] E] H; try discriminate; [reflexivity|].
  simpl in H; injection H as -> Hv H; cbn [List.filter fst].
  rewrite chunkKey_lt by (assumption || lia).
  replace (negb (Seq d <? after + 1)) with (after <? Seq d)
    by (destruct (Z.ltb_spec (Seq d) (after + 1)), (Z.ltb_spec after (Seq d)); simpl; lia).
  destruct (after <? Seq d); [simpl; rewrite Hv; f_equal|]; auto.
Qed.

Section Laws.
Context `{BL : BoltLaws}.

Lemma bolt_journal_page db id l after maxBytes :
  bolt_journal db id l -> 0 <= after < two64 ->
  LoadChunkPage db id after maxBytes = page_spec l after maxBytes.
Proof.
  intros [HE Hl] Ha; unfold LoadChunkPage, page_spec; destruct (Z.eqb_spec after (two64 - 1)) as [->|Hne].
  { rewrite filter_none; [reflexivity|]; revert Hl; apply List.Forall_impl; intros c [_ Hc].
    apply Z.ltb_ge; lia. }
  rewrite u64_small, page_loop_run, seek_run by (apply bolt_scan_sorted || apply chunk_prefix_own || lia).
  pose proof (entries_after id _ l after HE Hl ltac:(lia)) as H; fold (entries db id).
  revert H; generalize (List.filter (fun c => after <? Seq c) l) as cs.
  generalize (List.filter (fun e => negb (key_lt (fst e) (chunkKey id (after + 1)))) (entries db id)) as E.
  intros [|[k v] E] [|c cs] H; try discriminate; [reflexivity|].
  simpl in H; injection H as -> Hv H; cbn [page_loop]; rewrite chunk_prefix_own, Hv.
  rewrite Z.add_0_l; change (zlen [] =? 1024) with false; cbn [orb].
  destruct (maxBytes <? zlen (Payload c)) eqn:Eb; [reflexivity|].
  rewrite (page_loop_decoded _ _ _ _ _ (fun d => chunkKey id (Seq d)) cs 1023 H);
    [|intros; apply chunk_prefix_own | discriminate | reflexivity].
  rewrite (page_of_cons 1023), Eb; reflexivity.
Qed.

Lemma bolt_journal_save db id c l db' :
  seq_ok c -> bolt_journal db id l -> SaveChunk db id c = (db', None) ->
  bolt_journal db' id (journal_insert c l).
Proof.
  intros Hc [HE Hl] Hs; unfold SaveChunk in Hs.
  destruct (marshalChunk c) as [v|] eqn:Ev; [|discriminate].
  apply bolt_put_ok in Hs as [Hs _]; split; [|apply journal_insert_ok; assumption].
  unfold entries; rewrite Hs, (filter_put_sorted (has_prefix (chunk_prefix id))) by apply bolt_scan_sorted.
  rewrite chunk_prefix_own; apply put_sorted_journal; auto using chunk_roundtrip.
Qed.

Lemma bolt_journal_save_other db id id' c l db' e :
  plain_id id -> plain_id id' -> id <> id' -> bolt_journal db id' l ->
  SaveChunk db id c = (db', e) -> bolt_journal db' id' l.
Proof.
  intros Hid Hid' Hne [HE Hl] Hs; unfold SaveChunk in Hs.
  destruct (marshalChunk c) as [v|] eqn:Ev; [|injection Hs as <- _; split; assumption].
  destruct e as [e|]; [apply bolt_put_err in Hs as ->; split; assumption|].
  apply bolt_put_ok in Hs as [Hs _]; split; [|assumption].
  unfold entries; rewrite Hs, (filter_put_sorted (has_prefix (chunk_prefix id'))) by apply bolt_scan_sorted.
  rewrite chunk_prefix_other by assumption; exact HE.
Qed.

Lemma bolt_journal_save_err db id c l db' e :
  bolt_journal db id l -> SaveChunk db id c = (db', Some e) -> bolt_journal db' id l.
Proof.
  intros H Hs; unfold SaveChunk in Hs; destruct (marshalChunk c).
  - apply bolt_put_err in Hs as ->; exact H.
  - injection Hs as <- _; exact H.
Qed.

Lemma bolt_journal_load db id l : bolt_journal db id l -> LoadChunks db id = (l, None).
Proof.
  intros [HE _]; unfold LoadChunks; rewrite load_loop_run, seek_run;
    [|apply bolt_scan_sorted | apply has_prefix_spec; exists []; rewrite app_nil_r; reflexivity].
  fold (entries db id).
  assert (Hall : List.filter (fun e => negb (key_lt (fst e) (chunk_prefix id))) (entries db id) = entries db id).
  { apply filter_all, Forall_forall; intros e He; apply List.filter_In in He as [_ He].
    rewrite key_lt_prefix by exact He; reflexivity. }
  rewrite Hall, (load_loop_decoded _ _ _ (fun c => chunkKey id (Seq c)) l HE); [reflexivity|].
  intros c; apply chunk_prefix_own.
Qed.

Lemma bolt_store_page db id l after maxBytes page :
  plain_id id -> bolt_journal db id l -> 0 <= after < two64 ->
  @store_page BoltSessionStore = Some page -> page db id after maxBytes = page_spec l after maxBytes.
Proof. intros _ Hj Ha [= <-]; apply bolt_journal_page; assumption. Qed.
End Laws.

#[export] Instance BoltJournalLaws `{BL : BoltLaws} : JournalLaws := {
  journal := bolt_journal;
  journal_load db id l _ := bolt_journal_load db id l;
  journal_save db id c l db' _ := bolt_journal_save db id c l db';
  journal_save_other := bolt_journal_save_other;
  journal_save_err := bolt_journal_save_err;
  journal_page := bolt_store_page;
}.

(** ** Histories of saves, against the interface *)

Section Client.
Context `{S : SessionStore}.

(** A run of [SaveChunk] calls on any sessions; the calls that succeeded are
    collected in order. *)
Fixpoint save_all (st : St) (ops : list (string * OutputChunk)) : St * list (string * OutputChunk) :=
  match ops with
  | [] => (st, [])
  | (id, c) :: r =>
      let '(st1, e) := store_SaveChunk st id c in
      let '(st2, done) := save_all st1 r in
      (st2, match e with None => (id, c) :: done | Some _ => done end)
  end.

(** The chunks of one session among the operations of a run. *)
Definition of_session (id : string) (ops : list (string * OutputChunk)) : list OutputChunk :=
  map snd (List.filter (fun o => str_eqb (fst o) id) ops).

Definition ops_ok (ops : list (string * OutputChunk)) : Prop :=
  Forall (fun o => plain_id (fst o) /\ seq_ok (snd o)) ops.

(** Page after page from [after] on, each starting at the last sequence number
    of the one before, as a client of bounded replay reads a session. *)
Fixpoint page_walk (page : St -> string -> Z -> Z -> list OutputChunk * option error)
    (fuel : nat) (st : St) (id : string) (after maxBytes : Z) : list OutputChunk * option error :=
  match fuel with
  | O => ([], None)
  | Datatypes.S fuel =>
      match page st id after maxBytes with
      | (l, Some e) => (l, Some e)
      | ([], None) => ([], None)
      | (l, None) =>
          let '(r, e) := page_walk page fuel st id (List.last (map Seq l) after) maxBytes in (l ++ r, e)
      end
  end.

Context `{L : @JournalLaws S}.

Lemma save_all_journal ops st st' done id l :
  plain_id id -> ops_ok ops -> journal st id l -> save_all st ops = (st', done) ->
  journal st' id (fold_left (fun acc c => journal_insert c acc) (of_session id done) l).
Proof.
  intros Hid Hops; revert st st' done l; induction Hops as [|[i c] ops [Hi Hc] Hops IH];
    intros st st' done l Hj Hs; [injection Hs as <- <-; exact Hj|].
  cbn [save_all] in Hs; destruct (store_SaveChunk st i c) as [st1 e] eqn:E.
  destruct (save_all st1 ops) as [st2 done'] eqn:E2; injection Hs as <- <-; simpl in Hi, Hc.
  destruct (str_eqb i id) eqn:Ei.
  - apply str_eqb_eq in Ei as ->; destruct e as [e|].
    + exact (IH _ _ _ _ (journal_save_err _ _ _ _ _ _ Hj E) E2).
    + unfold of_session; simpl; rewrite str_eqb_refl; simpl.
      exact (IH _ _ _ _ (journal_save _ _ _ _ _ Hid Hc Hj E) E2).
  - assert (of_session id (match e with Some _ => done' | None => (i, c) :: done' end) = of_session id done') as ->.
    { unfold of_session; destruct e; [reflexivity|]; simpl; rewrite Ei; reflexivity. }
    apply str_eqb_neq in Ei.
    exact (IH _ _ _ _ (journal_save_other _ _ _ _ _ _ _ Hi Hid Ei Hj E) E2).
Qed.
End Client.

(** *** Ascending journals *)

Fixpoint ascending (lo : Z) (l : list OutputChunk) : Prop :=
  match l with [] => True | c :: r => lo < Seq c /\ ascending (Seq c) r end.

Lemma journal_insert_last c l lo :
  ascending lo (l ++ [c]) -> journal_insert c l = l ++ [c].
Proof.
  revert lo; induction l as [|d l IH]; intros lo H; [reflexivity|].
  destruct H as [Hd H]; cbn [journal_insert app].
  assert (Seq d < Seq c) as Hlt.
  { clear IH Hd; revert d H; induction l as [|e l IH]; intros d [H1 H2]; [exact H1|].
    specialize (IH e H2); lia. }
  rewrite (proj2 (Z.ltb_ge _ _)), (proj2 (Z.eqb_neq _ _)) by lia.
  f_equal; eauto.
Qed.

Lemma ascending_app_l lo a b : ascending lo (a ++ b) -> ascending lo a.
Proof. revert lo; induction a as [|c a IH]; intros lo H; [exact I|]; destruct H; split; eauto. Qed.

Lemma inserts_ascending cs l lo :
  ascending lo (l ++ cs) -> fold_left (fun acc c => journal_insert c acc) cs l = l ++ cs.
Proof.
  revert l; induction cs as [|c cs IH]; intros l H; simpl; [rewrite app_nil_r; reflexivity|].
  replace (l ++ c :: cs) with ((l ++ [c]) ++ cs) in * by (rewrite <- app_assoc; reflexivity).
  rewrite (journal_insert_last c l lo) by (eapply ascending_app_l; exact H); auto.
Qed.

(** *** Pages *)

Lemma page_of_prefix n b l : exists r, l = page_of n b l ++ r.
Proof.
  revert b l; induction n as [|n IH]; intros b [|c l]; try (eexists; reflexivity).
  rewrite page_of_cons; destruct (b <? zlen (Payload c)); [eexists; reflexivity|].
  destruct (IH (b - zlen (Payload c)) l) as [r Hr]; exists r; simpl; congruence.
Qed.

Lemma page_of_bounds n b l :
  0 <= b -> zlen (page_of n b l) <= Z.of_nat n /\ payload_bytes (page_of n b l) <= b.
Proof.
  revert b l; induction n as [|n IH]; intros b [|c l] Hb; try (cbn; unfold zlen; simpl; lia).
  rewrite page_of_cons; destruct (b <? zlen (Payload c)) eqn:E; bool_to_prop; [unfold zlen; simpl; lia|].
  destruct (IH (b - zlen (Payload c)) l) as [H1 H2]; [lia|].
  rewrite zlen_cons; simpl; lia.
Qed.

Lemma ascending_above lo c l : ascending lo l -> In c l -> lo < Seq c.
Proof.
  revert lo; induction l as [|d l IH]; intros lo H Hin; [destruct Hin|].
  destruct H as [Hd H], Hin as [<-|Hin]; [exact Hd|]; specialize (IH _ H Hin); lia.
Qed.

Lemma last_cons {A} (x : A) l d : List.last (x :: l) d = List.last l x.
Proof. revert x d; induction l as [|y l IH]; intros x d; [reflexivity|]. change (List.last (y :: l) d = List.last (y :: l) x); rewrite !IH; reflexivity. Qed.

Lemma last_seq_ge lo l : ascending lo l -> lo <= List.last (map Seq l) lo.
Proof.
  revert lo; induction l as [|c l IH]; intros lo H; [simpl; lia|]; destruct H as [Hc H].
  change (map Seq (c :: l)) with (Seq c :: map Seq l); rewrite last_cons.
  specialize (IH _ H); lia.
Qed.

Lemma last_seq_ok lo l : 0 <= lo < two64 -> Forall seq_ok l -> 0 <= List.last (map Seq l) lo < two64.
Proof.
  intros Hlo Hl; revert lo Hlo; induction Hl as [|c l Hc Hl IH]; intros lo Hlo; [exact Hlo|].
  change (map Seq (c :: l)) with (Seq c :: map Seq l); rewrite last_cons; auto.
Qed.

(** After the last chunk of a prefix come exactly the chunks of the rest. *)
Lemma filter_after_prefix a b lo :
  ascending lo (a ++ b) ->
  List.filter (fun c => List.last (map Seq a) lo <? Seq c) (a ++ b) = b.
Proof.
  revert lo; induction a as [|c a IH]; intros lo H.
  - simpl in *; apply filter_all, Forall_forall; intros d Hd; apply Z.ltb_lt.
    eapply ascending_above; eassumption.
  - destruct H as [Hc H]; change (map Seq (c :: a)) with (Seq c :: map Seq a); rewrite last_cons.
    cbn [List.filter app]; rewrite (proj2 (Z.ltb_ge _ _)); [apply IH, H|].
    eapply last_seq_ge, ascending_app_l, H.
Qed.

Lemma ascending_weaken lo lo' l : lo' <= lo -> ascending lo l -> ascending lo' l.
Proof. destruct l as [|c l]; [auto|]; intros Hle [H1 H2]; split; [lia | exact H2]. Qed.

Lemma ascending_filter lo after l :
  ascending lo l -> ascending after (List.filter (fun c => after <? Seq c) l).
Proof.
  revert lo; induction l as [|c l IH]; intros lo H; [exact I|]; destruct H as [Hc H]; simpl.
  destruct (after <? Seq c) eqn:E; bool_to_prop; [|eauto]; split; [exact E|].
  rewrite filter_all; [exact H|]; apply Forall_forall; intros d Hd; apply Z.ltb_lt.
  pose proof (ascending_above _ _ _ H Hd); lia.
Qed.

Lemma filter_filter_after a b l : a <= b ->
  List.filter (fun c => b <? Seq c) (List.filter (fun c => a <? Seq c) l) =
  List.filter (fun c => b <? Seq c) l.
Proof.
  intros Hab; induction l as [|c l IH]; [reflexivity|]; cbn [List.filter].
  destruct (a <? Seq c) eqn:Ea, (b <? Seq c) eqn:Eb; cbn [List.filter]; rewrite ?Eb; bool_to_prop;
    first [congruence | lia].
Qed.

Section Walk.
Context `{L : JournalLaws}.
Variables (page : St -> string -> Z -> Z -> list OutputChunk * option error)
  (st : St) (id : string) (l : list OutputChunk) (maxBytes lo : Z).
Hypothesis Hpage : store_page = Some page.
Hypothesis Hid : plain_id id.
Hypothesis Hj : journal st id l.
Hypothesis Hseq : Forall seq_ok l.
Hypothesis Hasc : ascending lo l.
Hypothesis Hfit : Forall (fun c => zlen (Payload c) <= maxBytes) l.

Lemma page_walk_all fuel after :
  0 <= after < two64 -> (length (List.filter (fun c => (after <? Seq c)%Z) l) < fuel)%nat ->
  page_walk page fuel st id after maxBytes = (List.filter (fun c => after <? Seq c) l, None).
Proof.
  revert after; induction fuel as [|fuel IH]; intros after Ha Hf; [lia|]; cbn [page_walk].
  rewrite (journal_page _ _ l) by assumption; unfold page_spec.
  pose proof (ascending_filter lo after l Hasc) as Hr.
  pose proof (Forall_filter_keep (fun c => after <? Seq c) _ _ Hfit) as Hfit'.
  pose proof (Forall_filter_keep (fun c => after <? Seq c) _ _ Hseq) as Hseq'.
  pose proof (fun b => filter_filter_after after b l) as Hff.
  destruct (List.filter (fun c => after <? Seq c) l) as [|c r]; [reflexivity|].
  inversion Hfit' as [|? ? Hc _]; subst.
  assert (Eb : (maxBytes <? zlen (Payload c)) = false) by (apply Z.ltb_ge, Hc); rewrite Eb.
  destruct (page_of_prefix 1024 maxBytes (c :: r)) as [q Hq].
  assert (exists p, page_of 1024 maxBytes (c :: r) = c :: p) as [p Hp]
    by (rewrite (page_of_cons 1023), Eb; eexists; reflexivity).
  rewrite Hp in Hq |- *; rewrite Hq in Hr, Hff, Hseq', Hf; rewrite Hq.
  set (a' := List.last (map Seq (c :: p)) after).
  assert (after <= a') by (eapply last_seq_ge, ascending_app_l, Hr).
  assert (Hnext : List.filter (fun d => a' <? Seq d) l = q)
    by (rewrite <- Hff by lia; apply filter_after_prefix, Hr).
  rewrite IH, Hnext; [reflexivity | |].
  - apply last_seq_ok; [exact Ha | apply Forall_app in Hseq'; apply Hseq'].
  - rewrite Hnext; rewrite length_app in Hf; simpl in Hf; lia.
Qed.
End Walk.

(** ** A concrete database: the log of its puts *)

Definition log_scan (db : list (bucket * key * (SessionInfo + OutputChunk))) (b : bucket)
    : list (key * (SessionInfo + OutputChunk)) :=
  fold_right (fun o acc => match o with
    | (sessionsBucket, k, v) => match b with sessionsBucket => put_sorted k v acc | _ => acc end
    | (chunksBucket, k, v) => match b with chunksBucket => put_sorted k v acc | _ => acc end
    end) [] db.

#[local] Instance log_bolt : Bolt := {|
  DB := list (bucket * key * (SessionInfo + OutputChunk));
  Val := SessionInfo + OutputChunk;
  bolt_put db b k v := match k with [] => (db, Some (Other "key required")) | _ => ((b, k, v) :: db, None) end;
  bolt_scan := log_scan;
  marshalInfo i := Some (inl i);
  unmarshalInfo v := match v with inl i => Some i | inr _ => None end;
  marshalChunk c := Some (inr c);
  unmarshalChunk v := match v with inr c => Some c | inl _ => None end;
|}.

Lemma key_total a b : key_lt a b = false -> a <> b -> key_lt b a = true.
Proof.
  revert b; induction a as [|x a IH]; intros [|y b]; simpl; try congruence.
  rewrite orb_false_iff, andb_false_iff, Z.ltb_ge, Z.eqb_neq; intros [H1 H2] Hne.
  destruct (Z.ltb_spec y x); [reflexivity|]; assert (y = x) as -> by lia; rewrite Z.eqb_refl; simpl.
  destruct H2 as [H2|H2]; [lia|]; apply IH; congruence.
Qed.

Lemma put_sorted_above {V} k0 k (v : V) l :
  key_lt k0 k = true -> Forall (fun e => key_lt k0 (fst e) = true) l ->
  Forall (fun e => key_lt k0 (fst e) = true) (put_sorted k v l).
Proof.
  intros Hk Hl; induction Hl as [|[k' v'] l He Hl IH]; cbn [put_sorted]; [auto|].
  destruct (key_lt k k'); [auto|]; case_bool_decide; auto.
Qed.

Lemma put_sorted_sorted {V} k (v : V) l : keys_sorted l -> keys_sorted (put_sorted k v l).
Proof.
  induction l as [|[k' v'] l IH]; intros Hs; [cbn; auto|]; pose proof Hs as [Hall Hs']; cbn [put_sorted].
  destruct (key_lt k k') eqn:E.
  - split; [|exact Hs]; constructor; [exact E|]; revert Hall; apply List.Forall_impl.
    intros e He; exact (key_lt_trans _ _ _ E He).
  - case_bool_decide as Ek; [subst; split; assumption|].
    split; [apply put_sorted_above; [apply key_total|]|]; auto.
Qed.

#[local] Instance log_bolt_laws : BoltLaws (B := log_bolt).
Proof.
  split.
  - intros db b; cbn [bolt_scan log_bolt]; induction db as [|[[[] k] v] db IH]; [exact I | destruct b..];
      cbn [log_scan fold_right]; auto using put_sorted_sorted.
  - intros db b [|x k] v db' H; [discriminate|]; injection H as <-.
    cbn [bolt_scan log_bolt log_scan fold_right]; destruct b; split; try reflexivity; intros [] Hne; (reflexivity || congruence).
  - intros db b [|x k] v db' e H; [injection H as <- _; reflexivity | discriminate].
  - intros c v [= <-]; reflexivity.
Qed.

(** ** Theorems *)

(** Journal round trip: after any interleaving of chunk saves on any
    sessions (some of which fail), loading a session returns the inserts of its
    successful saves in ascending sequence order (a repeated sequence number
    overwrites), and exactly the saved list when it was ascending; saves of
    other sessions and failed saves leave no trace. *)
Theorem journal_roundtrip `{BL : BoltLaws} (db db' : DB) (ops done : list (string * OutputChunk)) (id : string) :
  entries db id = [] -> plain_id id -> ops_ok ops -> save_all db ops = (db', done) ->
  LoadChunks db' id =
    (fold_left (fun acc c => journal_insert c acc) (of_session id done) [], None) /\
  (ascending (-1) (of_session id done) -> LoadChunks db' id = (of_session id done, None)).
Proof.
  intros He Hid Hops Hs.
  assert (Hj : journal db id []) by (split; [rewrite He; reflexivity | constructor]).
  pose proof (save_all_journal ops db db' done id [] Hid Hops Hj Hs) as H.
  apply journal_load in H; [|exact Hid]; split; [exact H|].
  intros Ha; rewrite (inserts_ascending _ [] (-1)) in H by exact Ha; exact H.
Qed.

Definition sample_chunk (n : Z) (s : string) : OutputChunk :=
  MkChunk 0 0 n 0 (bytes_of_string s) ChunkTypeOutput.

Definition sample_ops : list (string * OutputChunk) :=
  [("a"%string, sample_chunk 1 "x"); ("b"%string, sample_chunk 1 "z"); ("a"%string, sample_chunk 2 "yy")].

#[local] Instance ops_ok_dec ops : Decision (ops_ok ops) := _ : Decision (Forall _ ops).

Lemma sample_ops_ok : ops_ok sample_ops.
Proof.
  apply (bool_decide_unpack _); vm_compute; exact I.
Qed.

Lemma journal_roundtrip_witness :
  LoadChunks (B := log_bolt) (fst (save_all (S := @BoltSessionStore log_bolt) [] sample_ops)) "a" =
  ([sample_chunk 1 "x"; sample_chunk 2 "yy"], None).
Proof.
  apply (journal_roundtrip (B := log_bolt) [] _ sample_ops sample_ops "a").
  - reflexivity.
  - apply (bool_decide_unpack _); vm_compute; exact I.
  - exact sample_ops_ok.
  - vm_compute; reflexivity.
  - vm_compute; intuition discriminate.
Defined.

(** C27. For a journal whose entries of a session decode to chunks with rising
    numbers, each under the key of its number, and an identifier without a slash:
    a page holds at most 1024 chunks and the given number of payload bytes and is
    a prefix of what lies beyond the cursor; and reading page after page, each
    from the last number of the one before, returns every chunk beyond the cursor
    in order and once, provided every chunk fits a page. *)
Theorem paged_replay_complete `{BL : BoltLaws} (db : DB) (id : string) (l : list OutputChunk) (after maxBytes : Z) :
  plain_id id -> bolt_journal db id l -> ascending (-1) l -> 0 <= after < two64 -> 0 <= maxBytes ->
  (let page := fst (LoadChunkPage db id after maxBytes) in
   zlen page <= 1024 /\ payload_bytes page <= maxBytes /\
   exists r, List.filter (fun c => after <? Seq c) l = page ++ r) /\
  (Forall (fun c => zlen (Payload c) <= maxBytes) l ->
   page_walk (S := BoltSessionStore) LoadChunkPage (S (length l)) db id after maxBytes =
   (List.filter (fun c => after <? Seq c) l, None)).
Proof.
  intros Hid Hj Hasc Ha Hm; split.
  - rewrite (bolt_journal_page db id l after maxBytes Hj Ha); unfold page_spec.
    destruct (List.filter (fun c => after <? Seq c) l) as [|c r] eqn:E;
      [unfold zlen; simpl; split_and_all; [lia..|exists []; reflexivity]|].
    destruct (maxBytes <? zlen (Payload c)); cbn [fst].
    + unfold zlen; simpl; split_and_all; [lia..|exists (c :: r); reflexivity].
    + destruct (page_of_bounds 1024 maxBytes (c :: r) Hm); split_and_all; [assumption..|].
      apply page_of_prefix.
  - intros Hfit.
    assert (length (List.filter (fun c => (after <? Seq c)%Z) l) <= length l)%nat
      by (clear; induction l as [|c l IH]; simpl; [lia|]; destruct (after <? Seq c)%Z; simpl; lia).
    destruct Hj as [HE Hl].
    apply (page_walk_all (L := BoltJournalLaws) LoadChunkPage db id l maxBytes (-1));
      first [assumption | reflexivity | (split; assumption) | lia].
Qed.

Lemma paged_replay_complete_witness :
  page_walk (S := @BoltSessionStore log_bolt) LoadChunkPage 3
    (fst (save_all (S := @BoltSessionStore log_bolt) [] sample_ops)) "a" 0 2 =
  ([sample_chunk 1 "x"; sample_chunk 2 "yy"], None).
Proof.
  refine (proj2 (paged_replay_complete (B := log_bolt)
    (fst (save_all (S := @BoltSessionStore log_bolt) [] sample_ops)) "a"
    [sample_chunk 1 "x"; sample_chunk 2 "yy"] 0 2 _ _ _ _ _) _).
  - apply (bool_decide_unpack _); vm_compute; exact I.
  - split; [vm_compute; reflexivity|]; apply (bool_decide_unpack _); vm_compute; exact I.
  - vm_compute; intuition discriminate.
  - unfold two64; lia.
  - lia.
  - repeat constructor; vm_compute; discriminate.
Defined.
