(* ===== verification/Session.v ===== *)
(** * One supervised session: internal/bridge/supervisor.go, [managedSession]

    The state of a session and the parts of the supervisor's methods that run
    while the session lock [ms.mu] is held: each is one atomic function on the
    session.  Live channels are shared between the supervisor and the
    goroutines that drain them, so they have identities and live in a heap
    ([ms_chans]); closing a closed channel and sending on one panic, as in Go. *)

From S2P Require Import Prelude Types ByteBuf Screen Store.

(** ** Channels *)

Record chan := MkChan {
  ch_cap : Z;
  ch_queue : list OutputChunk;
  ch_closed : bool;
}.

Abbreviation heap := (gmap nat chan).

Definition chan_close (h : heap) (c : nat) : outcome heap :=
  match h !! c with
  | None => Panic "close of nil channel"
  | Some ch =>
      if ch_closed ch then Panic "close of closed channel"
      else Ok (<[c := MkChan (ch_cap ch) (ch_queue ch) true]> h)
  end.

(** A non-blocking send: [select { case ch <- v: default: }]. *)
Definition chan_send (h : heap) (c : nat) (v : OutputChunk) : outcome heap :=
  match h !! c with
  | None => Ok h  (* a nil channel is never ready *)
  | Some ch =>
      if ch_closed ch then Panic "send on closed channel"
      else if zlen (ch_queue ch) <? ch_cap ch
      then Ok (<[c := MkChan (ch_cap ch) (ch_queue ch ++ [v]) false]> h)
      else Ok h
  end.

(** A receive that does not block: a value, or [None] for a closed and drained
    channel; an open empty channel has nothing to receive ([Err]). *)
Definition chan_recv (h : heap) (c : nat) : outcome (option OutputChunk * heap) :=
  match h !! c with
  | None => Err (Other "blocks")
  | Some ch =>
      match ch_queue ch with
      | v :: r => Ok (Some v, <[c := MkChan (ch_cap ch) r (ch_closed ch)]> h)
      | [] => if ch_closed ch then Ok (None, h) else Err (Other "blocks")
      end
  end.

Fixpoint close_all (h : heap) (cs : list nat) : outcome heap :=
  match cs with
  | [] => Ok h
  | c :: r => match chan_close h c with
              | Ok h => close_all h r
              | Err e => Err e
              | Panic w => Panic w
              end
  end.

Fixpoint send_all (h : heap) (cs : list nat) (v : OutputChunk) : outcome heap :=
  match cs with
  | [] => Ok h
  | c :: r => match chan_send h c v with
              | Ok h => send_all h r v
              | Err e => Err e
              | Panic w => Panic w
              end
  end.

(** ** Roles and attach results *)

Inductive AttachRole := AttachRoleWriter | AttachRoleObserver.

#[export] Instance AttachRole_eq_dec : EqDecision AttachRole.
Proof. solve_decision. Defined.

Record observerEntry := MkEntry { oe_ch : nat; oe_role : AttachRole }.

(** The live channel of an attach: one of the session's, or a fresh channel
    closed before it is handed out. *)
Inductive live := LiveChan (c : nat) | LiveClosed.

Record AttachState := MkAttach {
  as_ClientID : string;
  as_Role : AttachRole;
  as_Replay : list OutputChunk;
  as_Live : live;
  as_ReplayGap : bool;
  as_OldestSeq : Z;
  as_LastSeq : Z;
  as_Checkpoint : option bytes;
  as_ExitRecorded : bool;
  as_ExitCode : Z;
  as_Cols : Z;
  as_Rows : Z;
}.

(** [oldest > 0 && afterSeq > 0 && afterSeq < oldest-1] *)
Definition replay_gap (oldest afterSeq : Z) : bool :=
  (0 <? oldest) && (0 <? afterSeq) && (afterSeq <? u64 (oldest - 1)).

(** ** The session *)

Section Session.
Context `{E : Emulator} `{S : SessionStore}.

Record managedSession := MkSession {
  ms_info : SessionInfo;
  ms_startConfig : SessionConfig;
  ms_provider : option Provider; (* None: recovered session *)
  ms_cmd : option Z; (* pid of [cmd.Process]; None: no command *)
  ms_ptmx : bool; (* non-nil *)
  ms_stdin : bool; (* non-nil *)
  ms_streamJSON : bool;
  ms_buf : ByteBuffer;
  ms_stopGrace : Duration;
  ms_lastActivity : Time;
  ms_forceStop : bool;
  ms_recovered : bool;
  ms_readerDone : option bool; (* None: nil channel; [Some c]: closed or not *)
  ms_stripANSI : bool;
  ms_observers : gmap string observerEntry;
  ms_liveClosed : bool;
  ms_screen : option liveScreen; (* None: nil *)
  ms_chans : gmap nat chan; (* the live channels made so far *)
  ms_nextChan : nat;
}.

Definition with_info (v : SessionInfo) (x : managedSession) : managedSession :=
  MkSession
    v (ms_startConfig x) (ms_provider x) (ms_cmd x) (ms_ptmx x) (ms_stdin x)
    (ms_streamJSON x) (ms_buf x) (ms_stopGrace x) (ms_lastActivity x) (ms_forceStop x)
    (ms_recovered x) (ms_readerDone x) (ms_stripANSI x) (ms_observers x) (ms_liveClosed
    x) (ms_screen x) (ms_chans x) (ms_nextChan x).

Definition with_buf (v : ByteBuffer) (x : managedSession) : managedSession :=
  MkSession
    (ms_info x) (ms_startConfig x) (ms_provider x) (ms_cmd x) (ms_ptmx x) (ms_stdin x)
    (ms_streamJSON x) v (ms_stopGrace x) (ms_lastActivity x) (ms_forceStop x)
    (ms_recovered x) (ms_readerDone x) (ms_stripANSI x) (ms_observers x) (ms_liveClosed
    x) (ms_screen x) (ms_chans x) (ms_nextChan x).

Definition with_lastActivity (v : Time) (x : managedSession) : managedSession :=
  MkSession
    (ms_info x) (ms_startConfig x) (ms_provider x) (ms_cmd x) (ms_ptmx x) (ms_stdin x)
    (ms_streamJSON x) (ms_buf x) (ms_stopGrace x) v (ms_forceStop x) (ms_recovered x)
    (ms_readerDone x) (ms_stripANSI x) (ms_observers x) (ms_liveClosed x) (ms_screen x)
    (ms_chans x) (ms_nextChan x).

Definition with_forceStop (v : bool) (x : managedSession) : managedSession :=
  MkSession
    (ms_info x) (ms_startConfig x) (ms_provider x) (ms_cmd x) (ms_ptmx x) (ms_stdin x)
    (ms_streamJSON x) (ms_buf x) (ms_stopGrace x) (ms_lastActivity x) v (ms_recovered x)
    (ms_readerDone x) (ms_stripANSI x) (ms_observers x) (ms_liveClosed x) (ms_screen x)
    (ms_chans x) (ms_nextChan x).

Definition with_readerDone (v : option bool) (x : managedSession) : managedSession :=
  MkSession
    (ms_info x) (ms_startConfig x) (ms_provider x) (ms_cmd x) (ms_ptmx x) (ms_stdin x)
    (ms_streamJSON x) (ms_buf x) (ms_stopGrace x) (ms_lastActivity x) (ms_forceStop x)
    (ms_recovered x) v (ms_stripANSI x) (ms_observers x) (ms_liveClosed x) (ms_screen x)
    (ms_chans x) (ms_nextChan x).

Definition with_observers (v : gmap string observerEntry) (x : managedSession) : managedSession :=
  MkSession
    (ms_info x) (ms_startConfig x) (ms_provider x) (ms_cmd x) (ms_ptmx x) (ms_stdin x)
    (ms_streamJSON x) (ms_buf x) (ms_stopGrace x) (ms_lastActivity x) (ms_forceStop x)
    (ms_recovered x) (ms_readerDone x) (ms_stripANSI x) v (ms_liveClosed x) (ms_screen
    x) (ms_chans x) (ms_nextChan x).

Definition with_liveClosed (v : bool) (x : managedSession) : managedSession :=
  MkSession
    (ms_info x) (ms_startConfig x) (ms_provider x) (ms_cmd x) (ms_ptmx x) (ms_stdin x)
    (ms_streamJSON x) (ms_buf x) (ms_stopGrace x) (ms_lastActivity x) (ms_forceStop x)
    (ms_recovered x) (ms_readerDone x) (ms_stripANSI x) (ms_observers x) v (ms_screen x)
    (ms_chans x) (ms_nextChan x).

Definition with_screen (v : option liveScreen) (x : managedSession) : managedSession :=
  MkSession
    (ms_info x) (ms_startConfig x) (ms_provider x) (ms_cmd x) (ms_ptmx x) (ms_stdin x)
    (ms_streamJSON x) (ms_buf x) (ms_stopGrace x) (ms_lastActivity x) (ms_forceStop x)
    (ms_recovered x) (ms_readerDone x) (ms_stripANSI x) (ms_observers x) (ms_liveClosed
    x) v (ms_chans x) (ms_nextChan x).

Definition with_chans (v : gmap nat chan) (x : managedSession) : managedSession :=
  MkSession
    (ms_info x) (ms_startConfig x) (ms_provider x) (ms_cmd x) (ms_ptmx x) (ms_stdin x)
    (ms_streamJSON x) (ms_buf x) (ms_stopGrace x) (ms_lastActivity x) (ms_forceStop x)
    (ms_recovered x) (ms_readerDone x) (ms_stripANSI x) (ms_observers x) (ms_liveClosed
    x) (ms_screen x) v (ms_nextChan x).

Definition with_nextChan (v : nat) (x : managedSession) : managedSession :=
  MkSession
    (ms_info x) (ms_startConfig x) (ms_provider x) (ms_cmd x) (ms_ptmx x) (ms_stdin x)
    (ms_streamJSON x) (ms_buf x) (ms_stopGrace x) (ms_lastActivity x) (ms_forceStop x)
    (ms_recovered x) (ms_readerDone x) (ms_stripANSI x) (ms_observers x) (ms_liveClosed
    x) (ms_screen x) (ms_chans x) v.

(** [ms.info] updated in place. *)
Definition on_info (f : SessionInfo -> SessionInfo) (ms : managedSession) : managedSession :=
  with_info (f (ms_info ms)) ms.

Definition snapshotInfo (ms : managedSession) : SessionInfo :=
  set_LastSeq (LastSeq (ms_buf ms)) (set_OldestSeq (OldestSeq (ms_buf ms)) (ms_info ms)).

(** The channels and the roles of the observers map, in its iteration order. *)
Definition observer_chans (ms : managedSession) : list nat :=
  map (fun e => oe_ch (snd e)) (map_to_list (ms_observers ms)).

Definition countObservers (ms : managedSession) : Z :=
  zlen (List.filter (fun e => bool_decide (oe_role (snd e) = AttachRoleObserver))
                    (map_to_list (ms_observers ms))).

(** ** Persistence: best effort, errors are logged only *)

Definition persistSession (st : option St) (info : SessionInfo) : option St :=
  match st with
  | None => None
  | Some st => Some (fst (store_Save st info))
  end.

Definition persistChunk (st : option St) (sessionID : string) (chunk : OutputChunk) : option St :=
  match st with
  | None => None
  | Some st => Some (fst (store_SaveChunk st sessionID chunk))
  end.

(** ** Output *)

Definition appendChunkLocked (st : option St) (ms : managedSession) (displayPayload : bytes)
    (ctype : ChunkType) (now : Time) : outcome (option St * managedSession) :=
  if ms_liveClosed ms then Ok (st, ms)
  else
    let '(chunk, buf) := AppendSized (ms_buf ms) displayPayload ctype
                           (info_Cols (ms_info ms)) (info_Rows (ms_info ms)) now in
    let ms := with_buf buf ms in
    let ms := match ms_screen ms, ctype with
              | Some l, ChunkTypeOutput => with_screen (Some (apply_chunk l chunk)) ms
              | _, _ => ms
              end in
    let st := persistChunk st (info_SessionID (ms_info ms)) chunk in
    let ms := on_info (fun i => set_LastSeq (LastSeq buf) (set_OldestSeq (OldestSeq buf) i)) ms in
    let ms := with_lastActivity now ms in
    match send_all (ms_chans ms) (observer_chans ms) chunk with
    | Ok h => Ok (st, with_chans h ms)
    | Err e => Err e
    | Panic w => Panic w
    end.

(** The locked part of [fanoutControlEvent]. *)
Definition fanoutControlEvent (ms : managedSession) (ctype : ChunkType) (payload : bytes)
    : outcome managedSession :=
  let chunk := MkChunk 0 0 0 0 payload ctype in
  if ms_liveClosed ms then Ok ms
  else match send_all (ms_chans ms) (observer_chans ms) chunk with
       | Ok h => Ok (with_chans h ms)
       | Err e => Err e
       | Panic w => Panic w
       end.

Definition closeLive (ms : managedSession) : outcome managedSession :=
  let ms := with_liveClosed true ms in
  let ms := with_screen (option_map freeze (ms_screen ms)) ms in
  match close_all (ms_chans ms) (observer_chans ms) with
  | Ok h => Ok (with_chans h ms)
  | Err e => Err e
  | Panic w => Panic w
  end.

Definition signalReaderDone (ms : managedSession) : outcome managedSession :=
  match ms_readerDone ms with
  | None => Ok ms
  | Some true => Panic "close of closed channel"
  | Some false => Ok (with_readerDone (Some true) ms)
  end.

(** ** Attachment *)

(** A session recovered after a restart is served from its rebuilt ring. *)
Definition attach_recovered (ms : managedSession) (clientID : string) (afterSeq : Z) : AttachState :=
  let oldest := OldestSeq (ms_buf ms) in
  MkAttach clientID AttachRoleObserver (After (ms_buf ms) afterSeq) LiveClosed
    (replay_gap oldest afterSeq) oldest (LastSeq (ms_buf ms)) None
    (info_ExitRecorded (ms_info ms)) (info_ExitCode (ms_info ms))
    (info_Cols (ms_info ms)) (info_Rows (ms_info ms)).

(** Close and evict a stale channel of the same client. *)
Definition evict_stale (ms : managedSession) (clientID : string) : outcome managedSession :=
  match ms_observers ms !! clientID with
  | None => Ok ms
  | Some e => match chan_close (ms_chans ms) (oe_ch e) with
              | Ok h => Ok (with_observers (delete clientID (ms_observers ms)) (with_chans h ms))
              | Err e => Err e
              | Panic w => Panic w
              end
  end.

(** Build the live channel and register it, unless the output has ended. *)
Definition make_live (ms : managedSession) (clientID : string) (role : AttachRole)
    : live * managedSession :=
  if ms_liveClosed ms then (LiveClosed, ms)
  else
    let c := ms_nextChan ms in
    (LiveChan c,
     with_observers (<[clientID := MkEntry c role]> (ms_observers ms))
       (with_nextChan (Datatypes.S c) (with_chans (<[c := MkChan 128 [] false]> (ms_chans ms)) ms))).

Definition take_writer (clientID : string) (i : SessionInfo) : SessionInfo :=
  set_AttachedClientID clientID (set_Attached true (set_ActiveWriterClientID clientID i)).

Definition clear_writer (i : SessionInfo) : SessionInfo :=
  set_AttachedClientID "" (set_Attached false (set_ActiveWriterClientID "" i)).

(** The locked part of [Attach] on a session of this daemon.  The list is what
    is sent to the control observer. *)
Definition attach_locked (ms : managedSession) (clientID : string) (afterSeq : Z)
    (role : AttachRole) (now : Time)
    : outcome (AttachState * managedSession * list SessionInfo) :=
  if ms_recovered ms then Ok (attach_recovered ms clientID afterSeq, ms, [])
  else if bool_decide (role = AttachRoleWriter) && negb (str_eqb (info_ActiveWriterClientID (ms_info ms)) "")
  then Err (Sentinel ErrWriterConflict)
  else
    match evict_stale ms clientID with
    | Err e => Err e
    | Panic w => Panic w
    | Ok ms =>
        let '(liveCh, ms) := make_live ms clientID role in
        let '(ms, notes) :=
          match role with
          | AttachRoleWriter =>
              let ms := on_info (fun i => set_State SessionStateAttached (take_writer clientID i)) ms in
              (ms, [ms_info ms])
          | AttachRoleObserver => (ms, [])
          end in
        let ms := on_info (set_ObserverCount (countObservers ms)) ms in
        let ms := with_lastActivity now ms in
        let oldest := OldestSeq (ms_buf ms) in
        let last := LastSeq (ms_buf ms) in
        let '(cp, ms) := match ms_screen ms with
                         | None => (None, ms)
                         | Some l => let '(d, l) := checkpoint l last in (d, with_screen (Some l) ms)
                         end in
        Ok (MkAttach clientID role (After (ms_buf ms) afterSeq) liveCh (replay_gap oldest afterSeq)
              oldest last cp (info_ExitRecorded (ms_info ms)) (info_ExitCode (ms_info ms))
              (info_Cols (ms_info ms)) (info_Rows (ms_info ms)), ms, notes)
    end.

(** The locked part of [Detach]: whether the client was the writer. *)
Definition detach_locked (ms : managedSession) (clientID : string)
    : outcome (bool * managedSession * list SessionInfo) :=
  if ms_recovered ms then Ok (false, ms, [])
  else match ms_observers ms !! clientID with
  | None => Err (Sentinel ErrClientMismatch)
  | Some _ =>
      let ms := with_observers (delete clientID (ms_observers ms)) ms in
      let wasWriter := str_eqb (info_ActiveWriterClientID (ms_info ms)) clientID in
      let ms := if wasWriter then on_info clear_writer ms else ms in
      let ms := on_info (set_ObserverCount (countObservers ms)) ms in
      if (zlen (map_to_list (ms_observers ms)) =? 0) && state_is (info_State (ms_info ms)) SessionStateAttached
      then let ms := on_info (set_State SessionStateRunning) ms in
           Ok (wasWriter, ms, [ms_info ms])
      else Ok (wasWriter, ms, [])
  end.

(** Downgrade or promote an entry in place. *)
Definition set_role (r : AttachRole) (clientID : string) (ms : managedSession) : managedSession :=
  match ms_observers ms !! clientID with
  | None => ms
  | Some e => with_observers (<[clientID := MkEntry (oe_ch e) r]> (ms_observers ms)) ms
  end.

(** The locked part of [ClaimWriter]: the writer evicted, if any. *)
Definition claim_locked (ms : managedSession) (clientID : string) (force : bool)
    : outcome (string * managedSession) :=
  if ms_recovered ms then Err (Sentinel ErrSessionRecoveryUnavailable)
  else
    let prevWriter := info_ActiveWriterClientID (ms_info ms) in
    if str_eqb prevWriter clientID then Ok (""%string, ms)
    else if negb (str_eqb prevWriter "") && negb force then Err (Sentinel ErrWriterConflict)
    else match ms_observers ms !! clientID with
    | None => Err (Wrapped ErrClientNotAttached clientID)
    | Some _ =>
        let ms := set_role AttachRoleObserver prevWriter ms in
        let ms := set_role AttachRoleWriter clientID ms in
        let ms := on_info (take_writer clientID) ms in
        let ms := if state_is (info_State (ms_info ms)) SessionStateRunning
                  then on_info (set_State SessionStateAttached) ms else ms in
        Ok (prevWriter, on_info (set_ObserverCount (countObservers ms)) ms)
    end.

(** The locked part of [ReleaseWriter]. *)
Definition release_locked (ms : managedSession) (clientID : string) : outcome managedSession :=
  if ms_recovered ms then Ok ms
  else if negb (str_eqb (info_ActiveWriterClientID (ms_info ms)) clientID)
  then Err (Sentinel ErrClientMismatch)
  else
    let ms := set_role AttachRoleObserver clientID ms in
    let ms := on_info clear_writer ms in
    let ms := on_info (set_ObserverCount (countObservers ms)) ms in
    if (zlen (map_to_list (ms_observers ms)) =? 0) && state_is (info_State (ms_info ms)) SessionStateAttached
    then Ok (on_info (set_State SessionStateRunning) ms)
    else Ok ms.

(** ** Input *)

(** The guards of [WriteInput] under the session lock. *)
Definition input_guard (ms : managedSession) (clientID : string) : option error :=
  if ms_recovered ms then Some (Sentinel ErrSessionRecoveryUnavailable)
  else if negb (state_is (info_State (ms_info ms)) SessionStateRunning)
          && negb (state_is (info_State (ms_info ms)) SessionStateAttached)
  then Some (Sentinel ErrSessionNotRunning)
  else if str_eqb (info_ActiveWriterClientID (ms_info ms)) "" then Some (Sentinel ErrClientNotAttached)
  else if negb (str_eqb (info_ActiveWriterClientID (ms_info ms)) clientID)
  then Some (Sentinel ErrClientMismatch)
  else None.

(** The locked part of [Resize].  [setsize] is the answer of [pty.Setsize]. *)
Definition resize_locked (st : option St) (ms : managedSession) (clientID : string) (cols rows : Z)
    (setsize : option error) (now : Time) : outcome (option St * managedSession) :=
  if ms_recovered ms then Err (Sentinel ErrSessionRecoveryUnavailable)
  else if str_eqb (info_ActiveWriterClientID (ms_info ms)) "" then Err (Sentinel ErrClientNotAttached)
  else if negb (str_eqb (info_ActiveWriterClientID (ms_info ms)) clientID)
  then Err (Sentinel ErrClientMismatch)
  else
    let resized := with_lastActivity now (on_info (fun i => set_Rows rows (set_Cols cols i)) ms) in
    if ms_streamJSON ms then Ok (st, resized)
    else match setsize with
         | Some e => Err e
         | None => appendChunkLocked st resized [] ChunkTypeOutput now
         end.

(** ** The end of a session *)

(** How [cmd.Wait] ended: cleanly, with an exit status, or otherwise. *)
Inductive wait_result := WaitOK | WaitExit (code : Z) (text : string) | WaitError (text : string).

Definition exit_code (w : wait_result) : Z :=
  match w with WaitOK => 0 | WaitExit c _ => c | WaitError _ => -1 end.

Definition wait_error (w : wait_result) : option string :=
  match w with WaitOK => None | WaitExit _ t => Some t | WaitError t => Some t end.

(** The locked part of [waitLoop]. *)
Definition wait_locked (ms : managedSession) (w : wait_result) (now : Time) : managedSession :=
  let stopping := state_is (info_State (ms_info ms)) SessionStateStopping in
  let ms := on_info (fun i => set_ProcessID 0 (set_ExitCode (exit_code w)
              (set_ExitRecorded true (set_StoppedAt now i)))) ms in
  match wait_error w with
  | Some t =>
      if negb (ms_forceStop ms) && negb stopping then
        let ms := on_info (set_State SessionStateFailed) ms in
        if str_eqb (info_Error (ms_info ms)) "" then on_info (set_Error t) ms else ms
      else on_info (set_State SessionStateStopped) ms
  | None => on_info (set_State SessionStateStopped) ms
  end.

(** The locked part of [Stop]; [None] when the session already ended. *)
Definition stop_locked (ms : managedSession) (force : bool) : option managedSession :=
  if terminal (info_State (ms_info ms)) then None
  else Some (with_forceStop force (on_info (set_State SessionStateStopping) ms)).

(** The locked section with which [Stop] of a recovered session ends. *)
Definition recovered_stopped (ms : managedSession) (now : Time) : managedSession :=
  on_info (fun i => set_ProcessID 0 (set_StoppedAt now (set_State SessionStateStopped i))) ms.

(** The last locked section of [monitorRecoveredProcess]. *)
Definition monitor_locked (ms : managedSession) (now : Time) : managedSession :=
  if terminal (info_State (ms_info ms)) then ms
  else on_info (fun i => set_ProcessID 0 (set_StoppedAt now (set_State SessionStateStopped i))) ms.

(** The locked part of the error path of [readLoop]: whether the session was
    stopping, and the session with the error recorded. *)
Definition read_error_locked (ms : managedSession) (text : string) : bool * managedSession :=
  let stopping := state_is (info_State (ms_info ms)) SessionStateStopping in
  (stopping,
   if str_eqb (info_Error (ms_info ms)) "" && negb (info_ExitRecorded (ms_info ms)) && negb stopping
   then on_info (set_Error text) ms else ms).
End Session.
