(* ===== verification/SessionInv.v ===== *)
(** * Invariant of a session

    What holds of a session between critical sections, and that every locked
    operation of [Session] preserves it: at most one entry has the writer role
    and it is the active writer, the observer count is exact, the attachment
    fields agree, and the live channels are open exactly until the output ends. *)

From S2P Require Import Prelude Types ByteBuf Screen Store Session.

Section Inv.
Context `{E : Emulator} `{S : SessionStore}.

Implicit Types ms : managedSession.

Definition active (ms : managedSession) : string := info_ActiveWriterClientID (ms_info ms).

Record session_inv (ms : managedSession) : Prop := {
  inv_roles : forall c e, ms_observers ms !! c = Some e -> oe_role e = AttachRoleWriter -> c = active ms;
  inv_count : info_ObserverCount (ms_info ms) = countObservers ms;
  inv_attached : info_Attached (ms_info ms) = negb (str_eqb (active ms) "");
  inv_attached_id : info_AttachedClientID (ms_info ms) = active ms;
  inv_member : ms_liveClosed ms = false -> active ms <> ""%string -> is_Some (ms_observers ms !! active ms);
  inv_named : ms_observers ms !! ""%string = None;
  inv_chan : forall c e, ms_observers ms !! c = Some e ->
    exists ch, ms_chans ms !! oe_ch e = Some ch /\ ch_closed ch = ms_liveClosed ms;
  inv_inj : forall c c' e e', ms_observers ms !! c = Some e -> ms_observers ms !! c' = Some e' ->
    oe_ch e = oe_ch e' -> c = c';
  inv_fresh : forall n ch, ms_chans ms !! n = Some ch ->
    (n < ms_nextChan ms)%nat /\ ch_cap ch = 128 /\ zlen (ch_queue ch) <= 128;
  inv_recovered : ms_recovered ms = true -> ms_observers ms = ∅ /\ active ms = ""%string;
  inv_reader : ms_readerDone ms = Some true -> ms_liveClosed ms = true;
  inv_cmd : ms_recovered ms = false -> is_Some (ms_cmd ms);
}.

(** The parts of a session the invariant reads. *)
Definition shape (ms : managedSession) :=
  (ms_observers ms, ms_chans ms, ms_nextChan ms, ms_liveClosed ms, ms_recovered ms,
   ms_readerDone ms, ms_cmd ms,
   (active ms, info_ObserverCount (ms_info ms), info_Attached (ms_info ms),
    info_AttachedClientID (ms_info ms))).

Lemma inv_shape ms ms' : shape ms' = shape ms -> session_inv ms -> session_inv ms'.
Proof.
  unfold shape; intros H I; injection H as Ho Hc Hn Hl Hr Hd Hp Ha Hk Ht Hi.
  assert (countObservers ms' = countObservers ms) as Hcount by (unfold countObservers; rewrite Ho; reflexivity).
  destruct I; split; rewrite ?Ho, ?Hc, ?Hn, ?Hl, ?Hr, ?Hd, ?Hp, ?Ha, ?Hk, ?Ht, ?Hi, ?Hcount; auto.
Qed.

(** ** Channels *)

Definition opened (h : heap) (c : nat) : Prop := exists ch, h !! c = Some ch /\ ch_closed ch = false.

Lemma close_all_ok h cs :
  NoDup cs -> Forall (opened h) cs ->
  exists h', close_all h cs = Ok h' /\
    forall n, h' !! n = if bool_decide (n ∈ cs)
                        then (fun ch => MkChan (ch_cap ch) (ch_queue ch) true) <$> h !! n else h !! n.
Proof.
  intros Hnd; revert h; induction Hnd as [|c cs Hc Hnd IH]; intros h Ho.
  - exists h; split; [reflexivity|]; intros n; rewrite bool_decide_eq_false_2 by set_solver; reflexivity.
  - inversion Ho as [|? ? (ch & Hch & Hop) Ho']; subst; cbn [close_all]; unfold chan_close; rewrite Hch, Hop.
    destruct (IH (<[c := MkChan (ch_cap ch) (ch_queue ch) true]> h)) as (h' & -> & Hh').
    { apply Forall_forall; intros d Hd; rewrite Forall_forall in Ho'.
      destruct (Ho' d Hd) as (chd & Hchd & Hopd); exists chd; split; [|exact Hopd].
      rewrite lookup_insert_ne by (intros ->; apply Hc, list_elem_of_In, Hd); exact Hchd. }
    exists h'; split; [reflexivity|]; intros n; rewrite Hh'.
    destruct (decide (n = c)) as [->|Hne].
    + rewrite bool_decide_eq_false_2 by exact Hc; rewrite lookup_insert, bool_decide_eq_true_2, Hch by set_solver.
      destruct (decide (c = c)); [reflexivity | congruence].
    + rewrite lookup_insert_ne by congruence.
      destruct (decide (n ∈ cs)); [rewrite !bool_decide_eq_true_2 by set_solver | rewrite !bool_decide_eq_false_2 by set_solver];
        reflexivity.
Qed.

(** What a non-blocking send does to one open channel. *)
Definition push (v : OutputChunk) (ch : chan) : chan :=
  if zlen (ch_queue ch) <? ch_cap ch then MkChan (ch_cap ch) (ch_queue ch ++ [v]) (ch_closed ch) else ch.

Lemma send_all_ok h cs v :
  NoDup cs -> Forall (opened h) cs ->
  exists h', send_all h cs v = Ok h' /\
    forall n, h' !! n = if bool_decide (n ∈ cs) then push v <$> h !! n else h !! n.
Proof.
  intros Hnd; revert h; induction Hnd as [|c cs Hc Hnd IH]; intros h Ho.
  - exists h; split; [reflexivity|]; intros n; rewrite bool_decide_eq_false_2 by set_solver; reflexivity.
  - inversion Ho as [|? ? (ch & Hch & Hop) Ho']; subst.
    assert (chan_send h c v = Ok (<[c := push v ch]> h)) as Hs.
    { unfold chan_send, push; rewrite Hch, Hop; destruct (_ <? _); [reflexivity|].
      rewrite insert_id by exact Hch; reflexivity. }
    cbn [send_all]; rewrite Hs.
    destruct (IH (<[c := push v ch]> h)) as (h' & -> & Hh').
    { apply Forall_forall; intros d Hd; rewrite Forall_forall in Ho'.
      destruct (Ho' d Hd) as (chd & Hchd & Hopd); exists chd; split; [|exact Hopd].
      rewrite lookup_insert_ne by (intros ->; apply Hc, list_elem_of_In, Hd); exact Hchd. }
    exists h'; split; [reflexivity|]; intros n; rewrite Hh'.
    destruct (decide (n = c)) as [->|Hne].
    + rewrite bool_decide_eq_false_2 by exact Hc; rewrite lookup_insert, bool_decide_eq_true_2, Hch by set_solver.
      destruct (decide (c = c)); [reflexivity | congruence].
    + rewrite lookup_insert_ne by congruence.
      destruct (decide (n ∈ cs)); [rewrite !bool_decide_eq_true_2 by set_solver | rewrite !bool_decide_eq_false_2 by set_solver];
        reflexivity.
Qed.

Lemma push_ok v ch : ch_cap ch = 128 -> zlen (ch_queue ch) <= 128 ->
  ch_cap (push v ch) = 128 /\ zlen (ch_queue (push v ch)) <= 128 /\ ch_closed (push v ch) = ch_closed ch.
Proof.
  intros Hc Hq; unfold push; destruct (Z.ltb_spec (zlen (ch_queue ch)) (ch_cap ch)); simpl;
    [autorewrite with bridge|]; repeat split; lia.
Qed.

(** ** The observers of a session *)

Lemma observer_chan_elem ms n :
  n ∈ observer_chans ms <-> exists c e, ms_observers ms !! c = Some e /\ oe_ch e = n.
Proof.
  unfold observer_chans; rewrite list_elem_of_fmap; split.
  - intros ([c e] & -> & Hin); exists c, e; split; [apply elem_of_map_to_list, Hin | reflexivity].
  - intros (c & e & Hc & <-); exists (c, e); split; [reflexivity | apply elem_of_map_to_list, Hc].
Qed.

Lemma observer_chans_NoDup ms : session_inv ms -> NoDup (observer_chans ms).
Proof.
  intros I; unfold observer_chans; apply NoDup_fmap_2_strong; [|apply NoDup_map_to_list].
  intros [c e] [c' e'] H H' Heq; apply elem_of_map_to_list in H, H'; simpl in *.
  pose proof (inv_inj _ I c c' e e' H H' Heq) as ->; congruence.
Qed.

Lemma observer_chans_open ms :
  session_inv ms -> ms_liveClosed ms = false -> Forall (opened (ms_chans ms)) (observer_chans ms).
Proof.
  intros I Hl; apply Forall_forall; intros n Hn; apply list_elem_of_In, observer_chan_elem in Hn as (c & e & Hc & <-).
  destruct (inv_chan _ I c e Hc) as (ch & Hch & Hcl); exists ch; split; congruence.
Qed.

(** ** Preservation *)

(** Queues may change as long as capacities, bounds and closedness stay. *)
Lemma inv_with_chans ms h :
  session_inv ms ->
  (forall n, match ms_chans ms !! n, h !! n with
             | Some ch, Some ch' => ch_closed ch' = ch_closed ch /\ ch_cap ch' = 128 /\ zlen (ch_queue ch') <= 128
             | None, None => True
             | _, _ => False
             end) ->
  session_inv (with_chans h ms).
Proof.
  intros I Hh; destruct I; split; try assumption; simpl.
  - intros c e Hc; destruct (inv_chan0 c e Hc) as (ch & Hch & Hcl); specialize (Hh (oe_ch e)).
    rewrite Hch in Hh; destruct (h !! oe_ch e) as [ch'|]; [|contradiction].
    exists ch'; split; [reflexivity | destruct Hh; congruence].
  - intros n ch' Hn; specialize (Hh n); rewrite Hn in Hh.
    destruct (ms_chans ms !! n) as [ch|] eqn:En; [|contradiction].
    destruct (inv_fresh0 n ch En); tauto.
Qed.

Lemma inv_send ms v :
  session_inv ms -> ms_liveClosed ms = false ->
  exists h, send_all (ms_chans ms) (observer_chans ms) v = Ok h /\ session_inv (with_chans h ms) /\
    forall n, h !! n = if bool_decide (n ∈ observer_chans ms) then push v <$> ms_chans ms !! n else ms_chans ms !! n.
Proof.
  intros I Hl.
  destruct (send_all_ok (ms_chans ms) (observer_chans ms) v (observer_chans_NoDup ms I) (observer_chans_open ms I Hl))
    as (h & -> & Hh); exists h; split_and!; [reflexivity| |exact Hh].
  apply inv_with_chans; [exact I|]; intros n; rewrite Hh.
  destruct (ms_chans ms !! n) as [ch|] eqn:En; [|case_bool_decide; exact Logic.I].
  destruct (inv_fresh _ I n ch En) as (_ & Hc & Hq); case_bool_decide; simpl; [|auto].
  destruct (push_ok v ch Hc Hq) as (? & ? & ?); auto.
Qed.

Lemma append_inv st ms payload ctype now :
  session_inv ms ->
  exists st' ms', appendChunkLocked st ms payload ctype now = Ok (st', ms') /\ session_inv ms'.
Proof.
  intros I; unfold appendChunkLocked; destruct (ms_liveClosed ms) eqn:El; [eauto|].
  destruct (AppendSized _ _ _ _ _ _) as [chunk buf].
  set (ms1 := with_lastActivity now _).
  assert (shape ms1 = shape ms) as Hsh by (subst ms1; simpl; destruct (ms_screen ms), ctype; reflexivity).
  assert (session_inv ms1) as I1 by (exact (inv_shape _ _ Hsh I)).
  assert (ms_liveClosed ms1 = false) as El1 by (unfold shape in Hsh; injection Hsh; congruence).
  destruct (inv_send ms1 chunk I1 El1) as (h & -> & I2 & _); eauto.
Qed.

Lemma fanout_inv ms ctype payload :
  session_inv ms -> exists ms', fanoutControlEvent ms ctype payload = Ok ms' /\ session_inv ms'.
Proof.
  intros I; unfold fanoutControlEvent; destruct (ms_liveClosed ms) eqn:El; [eauto|].
  destruct (inv_send ms (MkChunk 0 0 0 0 payload ctype) I El) as (h & -> & I2 & _); eauto.
Qed.

(** The output ends once: the channels are open before, closed after. *)
Lemma closeLive_inv ms :
  session_inv ms -> ms_liveClosed ms = false ->
  exists ms', closeLive ms = Ok ms' /\ session_inv ms'.
Proof.
  intros I Hl; unfold closeLive.
  change (observer_chans (with_screen _ (with_liveClosed true ms))) with (observer_chans ms).
  change (ms_chans (with_screen _ (with_liveClosed true ms))) with (ms_chans ms).
  destruct (close_all_ok (ms_chans ms) (observer_chans ms) (observer_chans_NoDup ms I) (observer_chans_open ms I Hl))
    as (h & -> & Hh); eexists; split; [reflexivity|].
  destruct I; split; simpl; try assumption; try reflexivity; [discriminate | |].
  - intros c e Hc; destruct (inv_chan0 c e Hc) as (ch & Hch & _); rewrite Hh, bool_decide_eq_true_2, Hch
      by (apply observer_chan_elem; eauto); eexists; split; reflexivity.
  - intros n ch; rewrite Hh; case_bool_decide.
    + destruct (ms_chans ms !! n) as [ch0|] eqn:En; [|discriminate]; simpl; intros [= <-].
      exact (inv_fresh0 n ch0 En).
    + apply inv_fresh0.
Qed.

Lemma signalReaderDone_inv ms :
  session_inv ms -> ms_liveClosed ms = true -> ms_readerDone ms <> Some true ->
  exists ms', signalReaderDone ms = Ok ms' /\ session_inv ms'.
Proof.
  intros I Hl Hd; unfold signalReaderDone; destruct (ms_readerDone ms) as [[|]|] eqn:Er; [congruence| |eauto].
  eexists; split; [reflexivity|]; destruct I; split; auto.
Qed.

(** A stale entry of the same client is closed and removed; this is the only
    panic: its channel was already closed because the output has ended. *)
Lemma evict_stale_spec ms c :
  session_inv ms ->
  match evict_stale ms c with
  | Ok ms' => (ms_observers ms !! c = None \/ ms_liveClosed ms = false) /\
      ms_observers ms' = delete c (ms_observers ms) /\ ms_liveClosed ms' = ms_liveClosed ms /\
      ms_info ms' = ms_info ms /\ ms_nextChan ms' = ms_nextChan ms /\ ms_recovered ms' = ms_recovered ms /\
      ms_readerDone ms' = ms_readerDone ms /\ ms_cmd ms' = ms_cmd ms /\ ms_buf ms' = ms_buf ms /\
      (forall n ch, ms_chans ms' !! n = Some ch -> (n < ms_nextChan ms)%nat /\ ch_cap ch = 128 /\ zlen (ch_queue ch) <= 128) /\
      (forall d e, d <> c -> ms_observers ms !! d = Some e -> ms_chans ms' !! oe_ch e = ms_chans ms !! oe_ch e)
  | Err _ => False
  | Panic _ => is_Some (ms_observers ms !! c) /\ ms_liveClosed ms = true
  end.
Proof.
  intros I; unfold evict_stale; destruct (ms_observers ms !! c) as [e|] eqn:Ec.
  - destruct (inv_chan _ I c e Ec) as (ch & Hch & Hcl); unfold chan_close; rewrite Hch, Hcl.
    destruct (ms_liveClosed ms) eqn:El; [eauto|]; simpl; split_and!; auto.
    + intros n ch'; rewrite lookup_insert; case_decide as Hn; [subst n; intros [= <-]; apply (inv_fresh _ I _ ch Hch)|].
      apply (inv_fresh _ I).
    + intros d e' Hd He'; apply lookup_insert_ne; intros Heq.
      apply Hd, (inv_inj _ I d c e' e He' Ec); congruence.
  - split_and!; auto; [rewrite delete_id by exact Ec; reflexivity | apply (inv_fresh _ I)].
Qed.

(** Registering a live channel for a client none is registered for. *)
Definition attached_obs (ms : managedSession) (c : string) (role : AttachRole) : gmap string observerEntry :=
  if ms_liveClosed ms then delete c (ms_observers ms)
  else <[c := MkEntry (ms_nextChan ms) role]> (delete c (ms_observers ms)).

Lemma attached_obs_lookup ms c role d e :
  attached_obs ms c role !! d = Some e ->
  (d = c /\ e = MkEntry (ms_nextChan ms) role /\ ms_liveClosed ms = false) \/
  (d <> c /\ ms_observers ms !! d = Some e).
Proof.
  unfold attached_obs; destruct (ms_liveClosed ms).
  - rewrite lookup_delete; case_decide; [discriminate|]; right; split; congruence.
  - rewrite lookup_insert; case_decide as Hd; [intros [= <-]; left; auto|].
    rewrite lookup_delete_ne by exact Hd; right; split; congruence.
Qed.

(** The invariant after an attach, from what the attach leaves behind. *)
Lemma inv_after_attach ms ms' c role :
  session_inv ms -> c <> ""%string -> ms_recovered ms = false ->
  (role = AttachRoleWriter -> active ms = ""%string) ->
  ms_observers ms' = attached_obs ms c role -> ms_liveClosed ms' = ms_liveClosed ms ->
  ms_recovered ms' = false -> ms_readerDone ms' = ms_readerDone ms -> ms_cmd ms' = ms_cmd ms ->
  active ms' = (if bool_decide (role = AttachRoleWriter) then c else active ms) ->
  info_ObserverCount (ms_info ms') = countObservers ms' ->
  info_Attached (ms_info ms') = (if bool_decide (role = AttachRoleWriter) then true else info_Attached (ms_info ms)) ->
  info_AttachedClientID (ms_info ms') = (if bool_decide (role = AttachRoleWriter) then c else info_AttachedClientID (ms_info ms)) ->
  (forall n ch, ms_chans ms' !! n = Some ch -> (n < ms_nextChan ms')%nat /\ ch_cap ch = 128 /\ zlen (ch_queue ch) <= 128) ->
  (forall d e, d <> c -> ms_observers ms !! d = Some e -> ms_chans ms' !! oe_ch e = ms_chans ms !! oe_ch e) ->
  (ms_liveClosed ms = false -> ms_chans ms' !! ms_nextChan ms = Some (MkChan 128 [] false)) ->
  session_inv ms'.
Proof.
  intros I Hc Hrec Hw Hobs Hlive Hrec' Hrd Hcmd Hact Hcnt Hatt Hatid Hfresh Hother Hnew.
  assert (Hold : forall d e, d <> c -> ms_observers ms !! d = Some e -> oe_ch e <> ms_nextChan ms).
  { intros d e _ He Heq; destruct (inv_chan _ I d e He) as (ch & Hch & _).
    apply (inv_fresh _ I) in Hch; lia. }
  split; rewrite ?Hlive, ?Hrec', ?Hrd, ?Hcmd; auto.
  - intros d e Hd He; rewrite Hobs in Hd; rewrite Hact; apply attached_obs_lookup in Hd as [(-> & -> & _)|[Hne Hd]].
    + simpl in He; rewrite bool_decide_eq_true_2 by exact He; reflexivity.
    + pose proof (inv_roles _ I d e Hd He) as ->; case_bool_decide as Hr; [|reflexivity].
      specialize (Hw Hr); rewrite Hw in Hd; rewrite (inv_named _ I) in Hd; discriminate.
  - rewrite Hatt, Hact; case_bool_decide; [|apply (inv_attached _ I)].
    symmetry; apply negb_true_iff, str_eqb_neq, Hc.
  - rewrite Hatid, Hact; case_bool_decide; [reflexivity | apply (inv_attached_id _ I)].
  - intros Hl Ha; rewrite Hobs, Hact in *; unfold attached_obs; rewrite Hl.
    case_bool_decide as Hr; [rewrite lookup_insert_eq; eauto|].
    destruct (decide (c = active ms)) as [->|Hd]; [rewrite lookup_insert_eq; eauto|].
    rewrite lookup_insert_ne, lookup_delete_ne by exact Hd; apply (inv_member _ I); assumption.
  - rewrite Hobs; destruct (attached_obs ms c role !! ""%string) as [e|] eqn:Ee; [|reflexivity].
    apply attached_obs_lookup in Ee as [(Heq & _)|[_ Ee]]; [congruence|]; rewrite (inv_named _ I) in Ee; discriminate.
  - intros d e Hd; rewrite Hobs in Hd; apply attached_obs_lookup in Hd as [(-> & -> & Hl)|[Hne Hd]].
    + rewrite Hl; simpl; rewrite (Hnew Hl); eexists; split; reflexivity.
    + rewrite (Hother d e Hne Hd); exact (inv_chan _ I d e Hd).
  - intros d d' e e' Hd Hd' Heq; rewrite Hobs in Hd, Hd'.
    apply attached_obs_lookup in Hd as [(-> & -> & _)|[Hne Hd]];
      apply attached_obs_lookup in Hd' as [(-> & -> & _)|[Hne' Hd']]; simpl in *; auto.
    + exfalso; eapply Hold; [exact Hne' | exact Hd' | congruence].
    + exfalso; eapply Hold; [exact Hne | exact Hd | congruence].
    + exact (inv_inj _ I d d' e e' Hd Hd' Heq).
  - discriminate.
  - apply (inv_reader _ I).
  - intros _; apply (inv_cmd _ I Hrec).
Qed.

Definition attach_refused (ms : managedSession) (role : AttachRole) : Prop :=
  ms_recovered ms = false /\ role = AttachRoleWriter /\ active ms <> ""%string.

(** The state in which re-attaching a client crashes. *)
Definition attach_panics (ms : managedSession) (c : string) (role : AttachRole) : Prop :=
  ms_recovered ms = false /\ ~ (role = AttachRoleWriter /\ active ms <> ""%string) /\
  is_Some (ms_observers ms !! c) /\ ms_liveClosed ms = true.

Lemma attach_inv ms c after role now :
  session_inv ms -> c <> ""%string ->
  match attach_locked ms c after role now with
  | Ok (_, ms', _) => session_inv ms' /\ ~ attach_refused ms role
  | Err e => e = Sentinel ErrWriterConflict /\ attach_refused ms role
  | Panic _ => attach_panics ms c role
  end.
Proof.
  intros I Hc; unfold attach_locked, attach_refused, attach_panics; fold (active ms).
  destruct (ms_recovered ms) eqn:Er; [split; [exact I | intros [? _]; congruence]|].
  destruct (bool_decide (role = AttachRoleWriter) && negb (str_eqb (active ms) "")) eqn:Eg;
    [bool_to_prop; auto|].
  assert (Hw : ~ (role = AttachRoleWriter /\ active ms <> ""%string)).
  { intros [-> Ha]; apply str_eqb_neq in Ha; rewrite Ha in Eg; discriminate. }
  pose proof (evict_stale_spec ms c I) as Hev; destruct (evict_stale ms c) as [ms1|e|w]; [|contradiction|tauto].
  destruct Hev as (_ & Hobs & Hlive & Hinfo & Hnext & Hrec & Hrd & Hcmd & Hbuf & Hfresh & Hother).
  destruct (make_live ms1 c role) as [lv ms2] eqn:Em.
  assert (H2 : ms_observers ms2 = attached_obs ms c role /\ ms_liveClosed ms2 = ms_liveClosed ms /\
    ms_recovered ms2 = false /\ ms_readerDone ms2 = ms_readerDone ms /\ ms_cmd ms2 = ms_cmd ms /\
    ms_info ms2 = ms_info ms /\
    (forall n ch, ms_chans ms2 !! n = Some ch -> (n < ms_nextChan ms2)%nat /\ ch_cap ch = 128 /\ zlen (ch_queue ch) <= 128) /\
    (forall d e, d <> c -> ms_observers ms !! d = Some e -> ms_chans ms2 !! oe_ch e = ms_chans ms !! oe_ch e) /\
    (ms_liveClosed ms = false -> ms_chans ms2 !! ms_nextChan ms = Some (MkChan 128 [] false))).
  { unfold make_live, attached_obs in *; rewrite Hlive in Em; destruct (ms_liveClosed ms); injection Em as <- <-; simpl.
    - rewrite Hnext; split_and!; congruence || auto.
    - rewrite Hobs, Hnext; split_and!; try congruence; auto.
      + intros n ch; destruct (decide (ms_nextChan ms = n)) as [<-|Hn].
        * rewrite lookup_insert_eq; intros [= <-]; simpl; unfold zlen; simpl; lia.
        * rewrite lookup_insert_ne by exact Hn; intros Hin; apply Hfresh in Hin; lia.
      + intros d e Hd He; rewrite lookup_insert_ne; [apply (Hother d); assumption|]; intros Heq.
        destruct (inv_chan _ I d e He) as (ch & Hch & _); apply (inv_fresh _ I) in Hch; lia.
      + intros _; apply lookup_insert_eq. }
  destruct H2 as (Ho2 & Hl2 & Hr2 & Hd2 & Hp2 & Hi2 & Hf2 & Hot2 & Hn2).
  assert (Hin : forall ms3, shape ms3 = shape (on_info (set_ObserverCount (countObservers ms2))
      (if bool_decide (role = AttachRoleWriter) then on_info (take_writer c) ms2 else ms2)) -> session_inv ms3).
  { intros ms3 Hsh; apply (inv_shape _ _ Hsh), (inv_after_attach ms _ c role); auto;
      try (case_bool_decide; simpl; try reflexivity; unfold active; congruence || assumption || fail).
    - intros Hr; destruct (decide (active ms = ""%string)); [assumption | tauto].
    - destruct role; unfold active; simpl; congruence. }
  destruct role; simpl; (destruct (ms_screen _) as [scr|]; [destruct (checkpoint scr _) as [d l]|]);
    (split; [apply Hin; reflexivity | tauto]).
Qed.

(** Removing an entry, and the writer slot with it. *)
Lemma detach_inv ms c :
  session_inv ms ->
  match detach_locked ms c with
  | Ok (_, ms', _) => session_inv ms'
  | Err e => e = Sentinel ErrClientMismatch /\ ms_observers ms !! c = None
  | Panic _ => False
  end.
Proof.
  intros I; unfold detach_locked; destruct (ms_recovered ms) eqn:Er; [exact I|].
  destruct (ms_observers ms !! c) as [e|] eqn:Ec; [|auto].
  set (ms1 := if str_eqb _ _ then _ else _).
  assert (session_inv (on_info (set_ObserverCount (countObservers ms1)) ms1)) as I1.
  { assert (Hd : forall d e', delete c (ms_observers ms) !! d = Some e' -> d <> c /\ ms_observers ms !! d = Some e').
    { intros d e' H; apply lookup_delete_Some in H as [H1 H2]; split; congruence. }
    assert (Ho : ms_observers ms1 = delete c (ms_observers ms)) by (subst ms1; destruct (str_eqb _ _); reflexivity).
    destruct I; subst ms1; unfold active in *; simpl in *.
    destruct (str_eqb (info_ActiveWriterClientID (ms_info ms)) c) eqn:Ew; bool_to_prop;
      split; unfold active in *; simpl in *; auto; try congruence;
      try (intros d d' e1 e2 H1 H2; apply Hd in H1 as [_ H1]; apply Hd in H2 as [_ H2]; eauto; fail);
      try (intros d e1 H1; apply Hd in H1 as [H0 H1]; eauto; fail);
      try (destruct (delete c (ms_observers ms) !! ""%string) eqn:En; [apply Hd in En as [_ En]; congruence | reflexivity]).
    - intros d e1 H1 Hr; apply Hd in H1 as [H0 H1]; apply inv_roles0 in H1; congruence.
    - intros Hl Ha; rewrite lookup_delete_ne by congruence; auto. }
  destruct (_ && _); exact I1 || (eapply inv_shape; [|exact I1]; reflexivity).
Qed.

Lemma set_role_obs r c ms d :
  ms_observers (set_role r c ms) !! d =
  if decide (c = d) then (fun e => MkEntry (oe_ch e) r) <$> ms_observers ms !! d else ms_observers ms !! d.
Proof.
  unfold set_role; destruct (ms_observers ms !! c) as [e|] eqn:Ec; simpl; [rewrite lookup_insert|];
    destruct (decide (c = d)) as [<-|]; rewrite ?Ec; reflexivity.
Qed.

Lemma set_role_rest r c ms :
  ms_info (set_role r c ms) = ms_info ms /\ ms_chans (set_role r c ms) = ms_chans ms /\
  ms_nextChan (set_role r c ms) = ms_nextChan ms /\ ms_liveClosed (set_role r c ms) = ms_liveClosed ms /\
  ms_recovered (set_role r c ms) = ms_recovered ms /\ ms_readerDone (set_role r c ms) = ms_readerDone ms /\
  ms_cmd (set_role r c ms) = ms_cmd ms /\ ms_buf (set_role r c ms) = ms_buf ms.
Proof. unfold set_role; destruct (ms_observers ms !! c); repeat split; reflexivity. Qed.

(** Changing roles keeps the channels. *)
Definition same_entries (ms ms' : managedSession) : Prop :=
  forall c, oe_ch <$> ms_observers ms' !! c = oe_ch <$> ms_observers ms !! c.

Lemma set_role_entries r c ms : same_entries ms (set_role r c ms).
Proof. intros d; rewrite set_role_obs; destruct (decide (c = d)) as [<-|]; [destruct (ms_observers ms !! c)|]; reflexivity. Qed.

Lemma inv_new_roles ms ms' a att :
  session_inv ms -> same_entries ms ms' -> ms_chans ms' = ms_chans ms -> ms_nextChan ms' = ms_nextChan ms ->
  ms_liveClosed ms' = ms_liveClosed ms -> ms_recovered ms = false -> ms_recovered ms' = false ->
  ms_readerDone ms' = ms_readerDone ms -> ms_cmd ms' = ms_cmd ms ->
  active ms' = a -> info_Attached (ms_info ms') = att -> att = negb (str_eqb a "") ->
  info_AttachedClientID (ms_info ms') = a -> info_ObserverCount (ms_info ms') = countObservers ms' ->
  (a <> ""%string -> is_Some (ms_observers ms !! a)) ->
  (forall c e, ms_observers ms' !! c = Some e -> oe_role e = AttachRoleWriter -> c = a) ->
  session_inv ms'.
Proof.
  intros I He Hch Hn Hl Hr Hr' Hrd Hcmd Ha Hat Hatt Hid Hcnt Hm Hroles.
  assert (Hback : forall c e, ms_observers ms' !! c = Some e -> exists e0, ms_observers ms !! c = Some e0 /\ oe_ch e0 = oe_ch e).
  { intros c e Hc; specialize (He c); rewrite Hc in He; destruct (ms_observers ms !! c) as [e0|]; [|discriminate].
    injection He as ->; eauto. }
  destruct I; split; rewrite ?Ha, ?Hch, ?Hn, ?Hl, ?Hr', ?Hrd, ?Hcmd; auto; try congruence.
  - intros _ Hne; specialize (He a); destruct (Hm Hne) as [e Hea]; rewrite Hea in He.
    destruct (ms_observers ms' !! a); [eauto | discriminate].
  - specialize (He ""%string); rewrite inv_named0 in He; destruct (ms_observers ms' !! ""%string); [discriminate | reflexivity].
  - intros c e Hc; destruct (Hback c e Hc) as (e0 & Hc0 & <-); eauto.
  - intros c c' e e' Hc Hc' Heq; destruct (Hback c e Hc) as (e0 & Hc0 & H0), (Hback c' e' Hc') as (e1 & Hc1 & H1).
    apply (inv_inj0 c c' e0 e1 Hc0 Hc1); congruence.
Qed.

Lemma claim_inv ms c force :
  session_inv ms -> c <> ""%string ->
  match claim_locked ms c force with
  | Ok (prev, ms') => session_inv ms' /\ active ms' = c /\
      (prev <> ""%string -> force = true /\ prev = active ms)
  | Err e => (ms_recovered ms = true \/ active ms <> c) /\ e <> Sentinel ErrSessionNotFound
  | Panic _ => False
  end.
Proof.
  intros I Hc; unfold claim_locked; fold (active ms); destruct (ms_recovered ms) eqn:Er; [split; [auto | discriminate]|].
  destruct (str_eqb (active ms) c) eqn:Ea; bool_to_prop; [split_and!; auto; congruence|].
  destruct (negb (str_eqb (active ms) "") && negb force) eqn:Ef; [split; [auto | discriminate]|].
  destruct (ms_observers ms !! c) as [e|] eqn:Ec; [|split; [auto | discriminate]].
  set (ms1 := set_role AttachRoleWriter c (set_role AttachRoleObserver (active ms) ms)).
  assert (Hrest : ms_info ms1 = ms_info ms /\ ms_chans ms1 = ms_chans ms /\ ms_nextChan ms1 = ms_nextChan ms /\
    ms_liveClosed ms1 = ms_liveClosed ms /\ ms_recovered ms1 = ms_recovered ms /\
    ms_readerDone ms1 = ms_readerDone ms /\ ms_cmd ms1 = ms_cmd ms /\ ms_buf ms1 = ms_buf ms).
  { destruct (set_role_rest AttachRoleWriter c (set_role AttachRoleObserver (active ms) ms)) as (? & ? & ? & ? & ? & ? & ? & ?).
    destruct (set_role_rest AttachRoleObserver (active ms) ms) as (? & ? & ? & ? & ? & ? & ? & ?).
    unfold ms1; split_and!; congruence. }
  destruct Hrest as (Hi & Hch & Hn & Hl & Hr & Hrd & Hcmd & _).
  assert (Hent : same_entries ms ms1).
  { intros d; unfold ms1; rewrite (set_role_entries _ _ _ d); apply set_role_entries. }
  assert (Hroles : forall d e', ms_observers ms1 !! d = Some e' -> oe_role e' = AttachRoleWriter -> d = c).
  { intros d e'; unfold ms1; rewrite !set_role_obs; destruct (decide (c = d)) as [->|Hcd]; [auto|].
    destruct (decide (active ms = d)) as [<-|Had].
    - destruct (ms_observers ms !! active ms); simpl; [intros [= <-]; discriminate | discriminate].
    - intros Hd Hw; pose proof (inv_roles _ I d e' Hd Hw); congruence. }
  assert (Hk : forall ms2, shape ms2 = shape (on_info (fun i => set_ObserverCount (countObservers ms1) (take_writer c i)) ms1) ->
     session_inv ms2 /\ active ms2 = c).
  { intros ms2 Hsh; split; [|unfold shape, active in *; injection Hsh; simpl; congruence].
    apply (inv_shape _ _ Hsh), (inv_new_roles ms _ c true); auto; try (simpl; congruence || reflexivity).
    - symmetry; apply negb_true_iff, str_eqb_neq, Hc. }
  cbv zeta; fold ms1; split; [|split].
  - apply Hk; destruct (state_is _ _); reflexivity.
  - apply Hk; destruct (state_is _ _); reflexivity.
  - intros Hp; apply str_eqb_neq in Hp; rewrite Hp in Ef; destruct force; [auto | discriminate].
Qed.

Lemma release_inv ms c :
  session_inv ms ->
  match release_locked ms c with
  | Ok ms' => session_inv ms' /\ (ms_recovered ms = false -> active ms' = ""%string)
  | Err e => e = Sentinel ErrClientMismatch /\ active ms <> c
  | Panic _ => False
  end.
Proof.
  intros I; unfold release_locked; fold (active ms); destruct (ms_recovered ms) eqn:Er; [split; [exact I | discriminate]|].
  destruct (str_eqb (active ms) c) eqn:Ea; bool_to_prop; simpl; [|auto].
  set (ms1 := set_role AttachRoleObserver c ms).
  destruct (set_role_rest AttachRoleObserver c ms) as (Hi & Hch & Hn & Hl & Hr & Hrd & Hcmd & _); fold ms1 in Hi, Hch, Hn, Hl, Hr, Hrd, Hcmd.
  assert (Hroles : forall d e', ms_observers ms1 !! d = Some e' -> oe_role e' = AttachRoleWriter -> d = ""%string).
  { intros d e'; unfold ms1; rewrite set_role_obs; destruct (decide (c = d)) as [->|Hcd].
    - destruct (ms_observers ms !! d); simpl; [intros [= <-]; discriminate | discriminate].
    - intros Hd Hw; pose proof (inv_roles _ I d e' Hd Hw); congruence. }
  assert (Hk : forall ms2, shape ms2 = shape (on_info (fun i => set_ObserverCount (countObservers ms1) (clear_writer i)) ms1) ->
     session_inv ms2 /\ (false = false -> active ms2 = ""%string)).
  { intros ms2 Hsh; split; [|intros _; unfold shape, active in *; injection Hsh; simpl; congruence].
    apply (inv_shape _ _ Hsh), (inv_new_roles ms _ "" false); auto; try (simpl; congruence || reflexivity).
    - apply set_role_entries. }
  cbv zeta; destruct (_ && _); apply Hk; reflexivity.
Qed.

(** ** Operations that touch none of the parts above *)

Lemma wait_shape ms w now : shape (wait_locked ms w now) = shape ms.
Proof.
  unfold wait_locked; destruct (wait_error w); [destruct (_ && _); [destruct (str_eqb _ _)|]|]; reflexivity.
Qed.

Lemma stop_shape ms force ms' : stop_locked ms force = Some ms' -> shape ms' = shape ms.
Proof. unfold stop_locked; destruct (terminal _); [discriminate|]; intros [= <-]; reflexivity. Qed.

Lemma monitor_shape ms now : shape (monitor_locked ms now) = shape ms.
Proof. unfold monitor_locked; destruct (terminal _); reflexivity. Qed.

Lemma read_error_shape ms t : shape (snd (read_error_locked ms t)) = shape ms.
Proof. unfold read_error_locked; simpl; destruct (_ && _); reflexivity. Qed.

Lemma resize_inv st ms c cols rows setsize now :
  session_inv ms ->
  match resize_locked st ms c cols rows setsize now with
  | Ok (_, ms') => session_inv ms' /\ active ms = c /\ c <> ""%string
  | Err _ => True
  | Panic _ => False
  end.
Proof.
  intros I; unfold resize_locked; fold (active ms); destruct (ms_recovered ms); [exact Logic.I|].
  destruct (str_eqb (active ms) "") eqn:E0; [exact Logic.I|].
  destruct (str_eqb (active ms) c) eqn:E1; [|exact Logic.I]; bool_to_prop; simpl.
  set (ms1 := with_lastActivity now _); assert (session_inv ms1) as I1 by (apply (inv_shape ms); [reflexivity | exact I]).
  destruct (ms_streamJSON ms); [split_and!; auto; congruence|].
  destruct setsize; [exact Logic.I|].
  destruct (append_inv st ms1 [] ChunkTypeOutput now I1) as (st' & ms' & -> & I2); split_and!; auto; congruence.
Qed.

Lemma recv_inv ms n v h :
  session_inv ms -> chan_recv (ms_chans ms) n = Ok (v, h) -> session_inv (with_chans h ms).
Proof.
  intros I; unfold chan_recv; destruct (ms_chans ms !! n) as [ch|] eqn:En; [|discriminate].
  destruct (inv_fresh _ I n ch En) as (_ & Hcap & Hq).
  destruct (ch_queue ch) as [|x r] eqn:Eq; [destruct (ch_closed ch); [|discriminate]|]; intros [= <- <-];
    apply inv_with_chans; auto; intros m.
  - destruct (ms_chans ms !! m) as [ch'|] eqn:Em; [|exact Logic.I].
    destruct (inv_fresh _ I m ch' Em) as (_ & ? & ?); auto.
  - destruct (decide (n = m)) as [<-|Hne].
    + rewrite lookup_insert_eq, En; simpl; rewrite zlen_cons in Hq; split_and!; auto; lia.
    + rewrite lookup_insert_ne by exact Hne; destruct (ms_chans ms !! m) as [ch'|] eqn:Em; [|exact Logic.I].
      destruct (inv_fresh _ I m ch' Em) as (_ & ? & ?); auto.
Qed.
End Inv.
