(* ===== verification/Supervisor.v ===== *)
(** * The session supervisor: internal/bridge/supervisor.go

    The daemon state and every operation on it, composed from the locked
    sections of [Session].  What the code asks of the operating system (clock,
    process liveness, results of reads and writes, of starting a process) are
    arguments; what it does to the world (control and telemetry notifications,
    signals, writes to the provider) is recorded in order in [trace]. *)

From S2P Require Import Prelude Types ByteBuf GoStd Policy Registry Screen Store Session.

(** ** Calls to the world *)

(** The session identity telemetry receives. *)
Record tsession := MkTSession {
  t_SessionID : string;
  t_ProjectID : string;
  t_Provider : string;
  t_RepoPath : string;
  t_Cols : Z;
  t_Rows : Z;
}.

Inductive event :=
| EvControl (info : SessionInfo)
| EvTelemetryStarted (t : tsession)
| EvTelemetryChunk (t : tsession) (thinking : bool) (payload : bytes)
| EvTelemetryInput (t : tsession) (payload : bytes)
| EvTelemetryEnded (t : tsession)
| EvTelemetryClosed
| EvControlClosed
| EvWrite (sessionID : string) (data : bytes)
| EvSetsize (sessionID : string) (cols rows : Z)
| EvCloseStdin (sessionID : string)
| EvClosePTY (sessionID : string)
| EvCancel (sessionID : string)
| EvKill (pid : Z)
| EvTerminate (pid : Z)
| EvGoStop (sessionID : string)
| EvGoReader (sessionID : string)
| EvGoWaiter (sessionID : string)
| EvGoMonitor (sessionID : string).

(** ** ANSI stripping: the regular expression
    [\x1b(?:\[[0-9;?=<>]*[a-zA-Z~]|[@-Z\x5c-_])] replaced by nothing *)

Definition csi_param (z : Z) : bool :=
  ((48 <=? z) && (z <=? 57)) || (z =? 59) || (z =? 63) || (z =? 61) || (z =? 60) || (z =? 62).

Definition csi_final (z : Z) : bool :=
  ((97 <=? z) && (z <=? 122)) || ((65 <=? z) && (z <=? 90)) || (z =? 126).

Definition esc_final (z : Z) : bool :=
  ((64 <=? z) && (z <=? 90)) || ((92 <=? z) && (z <=? 95)).

(** After [ESC \[]: the rest when a complete sequence is there. *)
Fixpoint csi_rest (l : bytes) : option bytes :=
  match l with
  | [] => None
  | b :: r => if csi_param (byte_val b) then csi_rest r
              else if csi_final (byte_val b) then Some r else None
  end.

(** What follows an escape sequence that starts at the head of the list. *)
Definition escape_at (l : bytes) : option bytes :=
  match l with
  | e :: b :: r =>
      if byte_val e =? 27 then
        if byte_val b =? 91 then csi_rest r
        else if esc_final (byte_val b) then Some r else None
      else None
  | _ => None
  end.

Fixpoint strip_loop (fuel : nat) (l : bytes) : bytes :=
  match fuel, l with
  | O, _ => l
  | _, [] => []
  | S n, b :: r => match escape_at l with
                   | Some rest => strip_loop n rest
                   | None => b :: strip_loop n r
                   end
  end.

(** [ansiEscape.ReplaceAll(payload, nil)]; every step consumes a byte. *)
Definition stripEscapes (l : bytes) : bytes := strip_loop (length l) l.

(** ** The supervisor *)

Section Supervisor.
Context `{E : Emulator} `{S : SessionStore}.

Record Supervisor := MkSupervisor {
  registry : Registry;
  policy : Policy;
  bufSize : Z;
  idleTimeout : Duration;
  cleanupInterval : Duration;
  sessions : gmap string managedSession;
  done : bool; (* closed *)
  shuttingDown : bool;
  store : option St;
  repoSetup : option (string -> option (list string) -> option (list string) + string); (* [Prepare]; inr: its error text *)
  history : gmap string SessionInfo;
  telemetry : bool; (* an observer is configured *)
  telemetryClosed : bool; (* the [sync.Once] has run *)
  control : bool; (* an observer is configured *)
  controlClosed : bool; (* the [sync.Once] has run *)
  trace : list event; (* calls made to the world, oldest first *)
}.

Definition put_sessions (v : gmap string managedSession) (x : Supervisor) : Supervisor :=
  MkSupervisor
    (registry x) (policy x) (bufSize x) (idleTimeout x) (cleanupInterval x) v (done x)
    (shuttingDown x) (store x) (repoSetup x) (history x) (telemetry x) (telemetryClosed
    x) (control x) (controlClosed x) (trace x).

Definition put_done (v : bool) (x : Supervisor) : Supervisor :=
  MkSupervisor
    (registry x) (policy x) (bufSize x) (idleTimeout x) (cleanupInterval x) (sessions x)
    v (shuttingDown x) (store x) (repoSetup x) (history x) (telemetry x)
    (telemetryClosed x) (control x) (controlClosed x) (trace x).

Definition put_shuttingDown (v : bool) (x : Supervisor) : Supervisor :=
  MkSupervisor
    (registry x) (policy x) (bufSize x) (idleTimeout x) (cleanupInterval x) (sessions x)
    (done x) v (store x) (repoSetup x) (history x) (telemetry x) (telemetryClosed x)
    (control x) (controlClosed x) (trace x).

Definition put_store (v : option St) (x : Supervisor) : Supervisor :=
  MkSupervisor
    (registry x) (policy x) (bufSize x) (idleTimeout x) (cleanupInterval x) (sessions x)
    (done x) (shuttingDown x) v (repoSetup x) (history x) (telemetry x) (telemetryClosed
    x) (control x) (controlClosed x) (trace x).

Definition put_history (v : gmap string SessionInfo) (x : Supervisor) : Supervisor :=
  MkSupervisor
    (registry x) (policy x) (bufSize x) (idleTimeout x) (cleanupInterval x) (sessions x)
    (done x) (shuttingDown x) (store x) (repoSetup x) v (telemetry x) (telemetryClosed
    x) (control x) (controlClosed x) (trace x).

Definition put_telemetryClosed (v : bool) (x : Supervisor) : Supervisor :=
  MkSupervisor
    (registry x) (policy x) (bufSize x) (idleTimeout x) (cleanupInterval x) (sessions x)
    (done x) (shuttingDown x) (store x) (repoSetup x) (history x) (telemetry x) v
    (control x) (controlClosed x) (trace x).

Definition put_controlClosed (v : bool) (x : Supervisor) : Supervisor :=
  MkSupervisor
    (registry x) (policy x) (bufSize x) (idleTimeout x) (cleanupInterval x) (sessions x)
    (done x) (shuttingDown x) (store x) (repoSetup x) (history x) (telemetry x)
    (telemetryClosed x) (control x) v (trace x).

Definition put_trace (v : list event) (x : Supervisor) : Supervisor :=
  MkSupervisor
    (registry x) (policy x) (bufSize x) (idleTimeout x) (cleanupInterval x) (sessions x)
    (done x) (shuttingDown x) (store x) (repoSetup x) (history x) (telemetry x)
    (telemetryClosed x) (control x) (controlClosed x) v.

Definition emit (evs : list event) (s : Supervisor) : Supervisor := put_trace (trace s ++ evs) s.

Definition put_session (id : string) (ms : managedSession) (s : Supervisor) : Supervisor :=
  put_sessions (<[id := ms]> (sessions s)) s.

Definition notifyControl (infos : list SessionInfo) (s : Supervisor) : Supervisor :=
  if control s then emit (map EvControl infos) s else s.

Definition persist (info : SessionInfo) (s : Supervisor) : Supervisor :=
  put_store (persistSession (store s) info) s.

Definition telemetrySessionLocked (ms : managedSession) : tsession :=
  let i := ms_info ms in
  MkTSession (info_SessionID i) (info_ProjectID i) (info_Provider i) (info_RepoPath i)
    (if ms_streamJSON ms then 0 else info_Cols i) (if ms_streamJSON ms then 0 else info_Rows i).

(** [s.sessions[sessionID]] and the error every operation answers when it is
    absent. *)
Definition not_found {A} (id : string) : outcome A := Err (Wrapped ErrSessionNotFound id).

Definition NewSupervisor (r : Registry) (p : Policy) (outputBufSize : Z) (idle : Duration)
    (st : option St) (setup : option (string -> option (list string) -> option (list string) + string))
    (tel ctl : bool) : Supervisor :=
  MkSupervisor r p (if outputBufSize <=? 0 then 8388608 else outputBufSize) idle (30 * Second)
    ∅ false false st setup ∅ tel false ctl false [].

(** ** Startup: persisted sessions *)

Definition zero_interaction : Interaction :=
  MkInteraction "" 0 0 0 None (MkEvidence "" no_capabilities).

Definition zero_config : SessionConfig := MkConfig "" "" "" ∅ None [] 0 0.

(** The session rebuilt for a process that survived the restart. *)
Definition recovered_session (s : Supervisor) (info : SessionInfo) (now : Time) : managedSession :=
  let buf0 := NewByteBuffer (bufSize s) in
  let buf := match store s with
             | Some st =>
                 match store_LoadChunks st (info_SessionID info) with
                 | (chunks, None) => fold_left (fun b c => snd (AppendChunk b c)) chunks buf0
                 | (_, Some _) => buf0
                 end
             | None => buf0
             end in
  MkSession
    (MkInfo (info_SessionID info) (info_ProjectID info) (info_Provider info) "" SessionStateRunning
       (info_ProcessID info) (info_CreatedAt info) 0
       "recovered after daemon restart; live attach/input unavailable" false "" true
       (info_ExitRecorded info) (info_ExitCode info) (OldestSeq buf) (LastSeq buf)
       (info_Cols info) (info_Rows info) "" 0 zero_interaction no_capabilities)
    zero_config None None false false false buf (500 * Millisecond) now false true None false
    ∅ false None ∅ 0%nat.

Definition recoverProcess (s : Supervisor) (info : SessionInfo) (alive : Z -> bool) (now : Time)
    : Supervisor * bool :=
  if (info_ProcessID info <=? 0) || negb (alive (info_ProcessID info)) then (s, false)
  else
    let ms := recovered_session s info now in
    let s := put_session (info_SessionID info) ms s in
    let s := persist (snapshotInfo ms) s in
    (emit [EvGoMonitor (info_SessionID info)] s, true).

(** A session whose process did not survive. *)
Definition orphaned (info : SessionInfo) (now : Time) : SessionInfo :=
  let info := set_State SessionStateFailed info in
  let info := if str_eqb (info_Error info) "" then set_Error "orphaned by daemon restart" info else info in
  if Time_IsZero (info_StoppedAt info) then set_StoppedAt now info else info.

Fixpoint load_infos (s : Supervisor) (infos : list SessionInfo) (alive : Z -> bool) (now : Time)
    : Supervisor :=
  match infos with
  | [] => s
  | info :: rest =>
      let s :=
        if negb (terminal (info_State info)) then
          match recoverProcess s info alive now with
          | (s, true) => s
          | (s, false) =>
              let info := orphaned info now in
              let s := persist info s in
              put_history (<[info_SessionID info := info]> (history s)) s
          end
        else put_history (<[info_SessionID info := info]> (history s)) s in
      load_infos s rest alive now
  end.

Definition LoadHistory (s : Supervisor) (alive : Z -> bool) (now : Time) : Supervisor * option error :=
  match store s with
  | None => (s, None)
  | Some st =>
      match store_LoadAll st with
      | (_, Some e) => (s, Some e)
      | (infos, None) => (load_infos s infos alive now, None)
      end
  end.

(** The last section of the monitor, taken once the process is gone. *)
Definition monitor_gone (s : Supervisor) (id : string) (now : Time) : Supervisor :=
  match sessions s !! id with
  | None => s
  | Some ms => let ms := monitor_locked ms now in persist (snapshotInfo ms) (put_session id ms s)
  end.

(** One tick of [monitorRecoveredProcess]; [true]: the goroutine returns. *)
Definition monitorRecoveredProcess (s : Supervisor) (id : string) (alive : Z -> bool) (now : Time)
    : Supervisor * bool :=
  if done s then (s, true)
  else match sessions s !! id with
  | None => (s, true)
  | Some ms =>
      if terminal (info_State (ms_info ms)) then (s, true)
      else if alive (info_ProcessID (ms_info ms)) then (s, false)
      else (monitor_gone s id now, true)
  end.

Definition attachHistory (s : Supervisor) (id clientID : string) (afterSeq : Z) : outcome AttachState :=
  match store s with
  | None => Err (Sentinel ErrSessionNotFound)
  | Some st =>
      match history s !! id with
      | None => Err (Sentinel ErrSessionNotFound)
      | Some info =>
          match store_LoadChunks st id with
          | (_, Some e) => Err (Other "load chunks")
          | (chunks, None) =>
              let replay := List.filter (fun c => afterSeq <? Seq c) chunks in
              let oldest := match chunks with [] => 0 | c :: _ => Seq c end in
              let last := List.last (map Seq chunks) 0 in
              Ok (MkAttach clientID AttachRoleWriter replay LiveClosed (replay_gap oldest afterSeq)
                    oldest last None (info_ExitRecorded info) (info_ExitCode info)
                    (info_Cols info) (info_Rows info))
          end
      end
  end.

(** ** Output from the provider *)

(** Replace a session after a locked section that also wrote to the store. *)
Definition commit (s : Supervisor) (id : string) (r : outcome (option St * managedSession))
    : Supervisor * outcome unit :=
  match r with
  | Ok (st, ms) => (put_session id ms (put_store st s), Ok tt)
  | Err e => (s, Err e)
  | Panic w => (s, Panic w)
  end.

Definition appendChunk (s : Supervisor) (id : string) (payload : bytes) (ctype : ChunkType) (now : Time)
    : Supervisor * outcome unit :=
  match sessions s !! id with
  | None => (s, not_found id)
  | Some ms =>
      let s := if telemetry s then
                 match ctype with
                 | ChunkTypeOutput => emit [EvTelemetryChunk (telemetrySessionLocked ms) false payload] s
                 | ChunkTypeThinking => emit [EvTelemetryChunk (telemetrySessionLocked ms) true payload] s
                 | _ => s
                 end
               else s in
      let display := if bool_decide (ctype = ChunkTypeOutput) && ms_stripANSI ms
                     then stripEscapes payload else payload in
      commit s id (appendChunkLocked (store s) ms display ctype now)
  end.

(** How a read ends: [io.EOF] or another error. *)
Inductive read_error := ReadEOF | ReadFailed (text : string).

(** One iteration of [readLoop] after [ptmx.Read] returned [data] and [err];
    [true]: the loop returns (its deferred [closeLive] and [signalReaderDone]
    are the two operations below). *)
Definition readLoop (s : Supervisor) (id : string) (data : bytes) (err : option read_error) (now : Time)
    : Supervisor * outcome bool :=
  let '(s, r) := if 0 <? zlen data then appendChunk s id data ChunkTypeOutput now else (s, Ok tt) in
  match r with
  | Err e => (s, Err e)
  | Panic w => (s, Panic w)
  | Ok _ =>
      match err with
      | None => (s, Ok false)
      | Some ReadEOF => (s, Ok true)
      | Some (ReadFailed text) =>
          match sessions s !! id with
          | None => (s, not_found id)
          | Some ms =>
              let '(stopping, ms) := read_error_locked ms text in
              let s := put_session id ms s in
              if stopping then (s, Ok true) else (emit [EvGoStop id] s, Ok true)
          end
      end
  end.

Definition reader_closeLive (s : Supervisor) (id : string) : Supervisor * outcome unit :=
  match sessions s !! id with
  | None => (s, not_found id)
  | Some ms => match closeLive ms with
               | Ok ms => (put_session id ms s, Ok tt)
               | Err e => (s, Err e)
               | Panic w => (s, Panic w)
               end
  end.

Definition reader_done (s : Supervisor) (id : string) : Supervisor * outcome unit :=
  match sessions s !! id with
  | None => (s, not_found id)
  | Some ms => match signalReaderDone ms with
               | Ok ms => (put_session id ms s, Ok tt)
               | Err e => (s, Err e)
               | Panic w => (s, Panic w)
               end
  end.

(** ** Interaction reports *)

Definition UpdateInteraction (s : Supervisor) (id : string) (next : Interaction) (now : Time)
    : Supervisor * option error :=
  if str_eqb (ev_Source (int_Evidence next)) "" then
    (s, Some (Other "bridge: UpdateInteraction requires a non-empty evidence source"))
  else match sessions s !! id with
  | None => (s, Some (Wrapped ErrSessionNotFound id))
  | Some ms =>
      let ms := on_info (fun i => set_Interaction (nextInteraction (info_Interaction i) next now) i) ms in
      (notifyControl [ms_info ms] (put_session id ms s), None)
  end.

Definition observeStreamJSONInteraction (s : Supervisor) (id : string) (eventType : string) (now : Time)
    : Supervisor :=
  match sessions s !! id with
  | None => s
  | Some ms =>
      let caps := info_Capabilities (ms_info ms) in
      if negb (InteractionStateSupported caps) then s
      else
        let report st := fst (UpdateInteraction s (info_SessionID (ms_info ms))
          (MkInteraction st 0 0 0 None
             (MkEvidence (info_Provider (ms_info ms) ++ "-stream-json")%string caps)) now) in
        if str_eqb eventType "message_start" then report InteractionWorking
        else if str_eqb eventType "message_stop" then report InteractionIdle
        else s
  end.

(** [claudeStreamEvent]: the type and the delta (type, text, thinking). *)
Record claudeStreamEvent := MkStreamEvent {
  ev_Type : string;
  ev_Delta : option (string * string * string);
}.

(** One iteration of [readLoopStreamJSON] after [ReadBytes] returned [line]
    and [err]; [unmarshal] is [json.Unmarshal] into the event.  [true]: the
    loop returns. *)
Definition readLoopStreamJSON (unmarshal : bytes -> option claudeStreamEvent) (s : Supervisor)
    (id : string) (line : bytes) (err : option read_error) (now : Time) : Supervisor * outcome bool :=
  match err, line with
  | Some ReadEOF, [] => (s, Ok true)
  | _, _ =>
    let zs := trim_suffix [13] (trim_suffix [10] (map byte_val line)) in
    let line := take (length zs) line in
    match line with
    | [] => (s, Ok (match err with Some _ => true | None => false end))
    | _ =>
      match unmarshal line with
      | None =>
          let '(s, r) := appendChunk s id line ChunkTypeOutput now in
          (s, match r with Ok _ => Ok false | Err e => Err e | Panic w => Panic w end)
      | Some ev =>
          let '(s, r) :=
            match ev_Delta ev with
            | Some (dtype, text, thinking) =>
                if negb (str_eqb (ev_Type ev) "content_block_delta") then (s, Ok tt)
                else if str_eqb dtype "thinking_delta" then
                  if str_eqb thinking "" then (s, Ok tt)
                  else appendChunk s id (bytes_of_string thinking) ChunkTypeThinking now
                else if str_eqb dtype "text_delta" then
                  if str_eqb text "" then (s, Ok tt)
                  else appendChunk s id (bytes_of_string text) ChunkTypeOutput now
                else (s, Ok tt)
            | None => (s, Ok tt)
            end in
          match r with
          | Err e => (s, Err e)
          | Panic w => (s, Panic w)
          | Ok _ =>
              let s := observeStreamJSONInteraction s id (ev_Type ev) now in
              match err with
              | None => (s, Ok false)
              | Some ReadEOF => (s, Ok true)
              | Some (ReadFailed text) =>
                  (match sessions s !! id with
                   | None => s
                   | Some ms =>
                       if str_eqb (info_Error (ms_info ms)) "" && negb (info_ExitRecorded (ms_info ms))
                       then put_session id (on_info (set_Error text) ms) s else s
                   end, Ok true)
              end
          end
      end
    end
  end.

(** ** Writer notifications *)

Definition fanout (s : Supervisor) (id : string) (ctype : ChunkType) (payload : bytes)
    : Supervisor * outcome unit :=
  match sessions s !! id with
  | None => (s, Ok tt)
  | Some ms => match fanoutControlEvent ms ctype payload with
               | Ok ms => (put_session id ms s, Ok tt)
               | Err e => (s, Err e)
               | Panic w => (s, Panic w)
               end
  end.

Definition NotifyWriterClaimed (s : Supervisor) (id claimant : string) : Supervisor * outcome unit :=
  fanout s id ChunkTypeWriterClaimed (bytes_of_string claimant).

Definition NotifyWriterReleased (s : Supervisor) (id releasing : string) : Supervisor * outcome unit :=
  fanout s id ChunkTypeWriterReleased (bytes_of_string releasing).

(** ** The end of a process *)

(** [waitLoop] from the point where [cmd.Wait] and the reader are done. *)
Definition waitLoop (s : Supervisor) (id : string) (w : wait_result) (now : Time) : Supervisor :=
  match sessions s !! id with
  | None => s
  | Some ms =>
      let ms := wait_locked ms w now in
      let s := put_session id ms s in
      let s := emit [EvCancel id] s in
      let s := if telemetry s then emit [EvTelemetryEnded (telemetrySessionLocked ms)] s else s in
      let s := notifyControl [ms_info ms] s in
      persist (snapshotInfo ms) s
  end.

(** [Stop] up to its return; the goroutines it leaves behind are the two
    operations that follow. *)
Definition Stop (s : Supervisor) (id : string) (force : bool) : Supervisor * outcome unit :=
  match sessions s !! id with
  | None => (s, not_found id)
  | Some ms =>
      match stop_locked ms force with
      | None => (s, Ok tt)
      | Some ms =>
          let s := notifyControl [ms_info ms] (put_session id ms s) in
          if ms_recovered ms then
            let pid := info_ProcessID (ms_info ms) in
            (emit [if force then EvKill pid else EvTerminate pid] s, Ok tt)
          else
            match ms_cmd ms with
            | None => (s, Panic "nil pointer dereference")
            | Some pid =>
                let s := if ms_stdin ms then emit [EvCloseStdin id] s else s in
                (emit [if force then EvKill pid else EvTerminate pid] s, Ok tt)
            end
      end
  end.

(** The goroutine of a graceful [Stop] when the grace period is over. *)
Definition stop_grace_over (s : Supervisor) (id : string) : Supervisor :=
  match sessions s !! id with
  | None => s
  | Some ms =>
      match ms_cmd ms with
      | None => s
      | Some pid =>
          if state_is (info_State (ms_info ms)) SessionStateStopping && (0 <? pid)
          then emit [EvKill pid] s else s
      end
  end.

(** The goroutine of [Stop] on a recovered session: [polls] are the answers of
    [processAlive] before the deadline, [alive_after] the one after it. *)
Fixpoint stop_recovered_wait (s : Supervisor) (id : string) (pid : Z) (force : bool)
    (polls : list bool) (alive_after : bool) (now : Time) : Supervisor :=
  let finish s :=
    match sessions s !! id with
    | None => s
    | Some ms => let ms := recovered_stopped ms now in
                 notifyControl [ms_info ms] (persist (snapshotInfo ms) (put_session id ms s))
    end in
  match polls with
  | true :: rest => stop_recovered_wait s id pid force rest alive_after now
  | false :: _ => finish s
  | [] => finish (if negb force && (0 <? pid) && alive_after then emit [EvKill pid] s else s)
  end.

Definition idle_session (s : Supervisor) (now : Time) (ms : managedSession) : bool :=
  state_is (info_State (ms_info ms)) SessionStateRunning &&
  (zlen (map_to_list (ms_observers ms)) =? 0) &&
  (idleTimeout s <? now - ms_lastActivity ms).

Definition stop_each (force : bool) (ids : list string) (s : Supervisor) : Supervisor :=
  fold_left (fun s id => fst (Stop s id force)) ids s.

Definition reapIdleSessions (s : Supervisor) (now : Time) : Supervisor :=
  if idleTimeout s <=? 0 then s
  else stop_each false (map fst (List.filter (fun e => idle_session s now (snd e))
                                             (map_to_list (sessions s)))) s.

(** ** Client operations *)

(** [io] is the answer of the write to the PTY or to stdin.  The code writes after it has
    released the session lock; here the check of the writer and the write are one step. *)
Definition WriteInput (s : Supervisor) (id clientID : string) (data : bytes)
    (io : Z * option error) (now : Time) : Supervisor * outcome Z :=
  match ValidateInputBytes (policy s) data with
  | Some e => (s, Err e)
  | None =>
      match sessions s !! id with
      | None => (s, not_found id)
      | Some ms =>
          match input_guard ms clientID with
          | Some e => (s, Err e)
          | None =>
              let s := put_session id (with_lastActivity now ms) s in
              let s := if telemetry s then emit [EvTelemetryInput (telemetrySessionLocked ms) data] s else s in
              let s := emit [EvWrite id data] s in
              (s, match io with (n, None) => Ok n | (_, Some e) => Err e end)
          end
      end
  end.

Definition Resize (s : Supervisor) (id clientID : string) (cols rows : Z)
    (setsize : option error) (now : Time) : Supervisor * outcome unit :=
  match sessions s !! id with
  | None => (s, not_found id)
  | Some ms =>
      let asked := negb (ms_recovered ms) && negb (str_eqb (info_ActiveWriterClientID (ms_info ms)) "")
                   && str_eqb (info_ActiveWriterClientID (ms_info ms)) clientID && negb (ms_streamJSON ms) in
      commit (if asked then emit [EvSetsize id (u16 cols) (u16 rows)] s else s) id
             (resize_locked (store s) ms clientID cols rows setsize now)
  end.

Definition Attach (s : Supervisor) (id clientID : string) (afterSeq : Z) (role : AttachRole) (now : Time)
    : Supervisor * outcome AttachState :=
  match sessions s !! id with
  | None =>
      match attachHistory s id clientID afterSeq with
      | Err e => if bool_decide (e = Sentinel ErrSessionNotFound) then (s, not_found id) else (s, Err e)
      | r => (s, r)
      end
  | Some ms =>
      match attach_locked ms clientID afterSeq role now with
      | Ok (a, ms, notes) => (notifyControl notes (put_session id ms s), Ok a)
      | Err e => (s, Err e)
      | Panic w => (s, Panic w)
      end
  end.

Definition Detach (s : Supervisor) (id clientID : string) : Supervisor * outcome bool :=
  match sessions s !! id with
  | None => (s, match history s !! id with Some _ => Ok false | None => not_found id end)
  | Some ms =>
      match detach_locked ms clientID with
      | Ok (w, ms, notes) => (notifyControl notes (put_session id ms s), Ok w)
      | Err e => (s, Err e)
      | Panic w => (s, Panic w)
      end
  end.

(** The result is [PreviousWriterClientID]. *)
Definition ClaimWriter (s : Supervisor) (id clientID : string) (force : bool) : Supervisor * outcome string :=
  match sessions s !! id with
  | None => (s, not_found id)
  | Some ms =>
      match claim_locked ms clientID force with
      | Ok (prev, ms) => (put_session id ms s, Ok prev)
      | Err e => (s, Err e)
      | Panic w => (s, Panic w)
      end
  end.

Definition ReleaseWriter (s : Supervisor) (id clientID : string) : Supervisor * outcome unit :=
  match sessions s !! id with
  | None => (s, not_found id)
  | Some ms =>
      match release_locked ms clientID with
      | Ok ms => (put_session id ms s, Ok tt)
      | Err e => (s, Err e)
      | Panic w => (s, Panic w)
      end
  end.

(** A client drains its live channel. *)
Definition receive (s : Supervisor) (id : string) (c : nat) : Supervisor * outcome (option OutputChunk) :=
  match sessions s !! id with
  | None => (s, Err (Other "blocks"))
  | Some ms => match chan_recv (ms_chans ms) c with
               | Ok (v, h) => (put_session id (with_chans h ms) s, Ok v)
               | Err e => (s, Err e)
               | Panic w => (s, Panic w)
               end
  end.

(** ** Queries *)

Definition GetSession (s : Supervisor) (id : string) : outcome SessionInfo :=
  match sessions s !! id with
  | Some ms => Ok (snapshotInfo ms)
  | None => match history s !! id with
            | Some info => Ok info
            | None => not_found id
            end
  end.

Definition in_project (projectID : string) (info : SessionInfo) : bool :=
  negb (negb (str_eqb projectID "") && negb (str_eqb (info_ProjectID info) projectID)).

(** Live sessions, then those only in history; the order inside each part is
    that of a Go map. *)
Definition ListSessions (s : Supervisor) (projectID : string) : list SessionInfo :=
  List.filter (in_project projectID) (map (fun e => snapshotInfo (snd e)) (map_to_list (sessions s))) ++
  List.filter (in_project projectID)
    (map snd (List.filter (fun e => negb (bool_decide (is_Some (sessions s !! fst e))))
                          (map_to_list (history s)))).

Definition nonTerminalSessionIDs (s : Supervisor) : list string :=
  map fst (List.filter (fun e => negb (terminal (info_State (snapshotInfo (snd e)))))
                       (map_to_list (sessions s))).

(** ** Shutdown *)

Definition closeTelemetry (s : Supervisor) : Supervisor :=
  if telemetry s && negb (telemetryClosed s)
  then put_telemetryClosed true (emit [EvTelemetryClosed] s) else s.

Definition closeControl (s : Supervisor) : Supervisor :=
  if control s && negb (controlClosed s)
  then put_controlClosed true (emit [EvControlClosed] s) else s.

(** [close(s.done)] under [closeOnce], then refuse new sessions. *)
Definition begin_shutdown (s : Supervisor) : Supervisor := put_shuttingDown true (put_done true s).

(** [waitForAllSessions] sees the supervisor at each tick; the context expires
    after the given ticks ([None]: every session ended in time). *)
Fixpoint waitForAllSessions (ticks : list Supervisor) : option error :=
  match ticks with
  | [] => Some (Other "context deadline exceeded")
  | s :: rest => match nonTerminalSessionIDs s with
                 | [] => None
                 | _ => waitForAllSessions rest
                 end
  end.

(** [Shutdown]: [run] is what the rest of the daemon does while it waits, the
    states seen at the ticks before the deadline, the last being the state it
    goes on with. *)
Definition Shutdown (run run' : Supervisor -> list Supervisor) (s : Supervisor)
    : Supervisor * option error :=
  let s := begin_shutdown s in
  let s := stop_each false (nonTerminalSessionIDs s) s in
  let ticks := run s in
  let s := List.last ticks s in
  match waitForAllSessions ticks with
  | None => (closeControl (closeTelemetry s), None)
  | Some e =>
      let s := stop_each true (nonTerminalSessionIDs s) s in
      let s := List.last (run' s) s in
      (closeControl (closeTelemetry s), Some e)
  end.

Definition Close (run : Supervisor -> list Supervisor) (s : Supervisor) : Supervisor :=
  let s := begin_shutdown s in
  let s := stop_each true (map fst (map_to_list (sessions s))) s in
  let s := List.last (run s) s in
  closeControl (closeTelemetry s).

(** ** Start *)

Definition counts_as_active (st : SessionState) : bool :=
  state_is st SessionStateRunning || state_is st SessionStateStarting || state_is st SessionStateAttached.

Definition globalCount (s : Supervisor) : Z :=
  zlen (List.filter (fun e => counts_as_active (info_State (ms_info (snd e)))) (map_to_list (sessions s))).

Definition projectCount (s : Supervisor) (projectID : string) : Z :=
  zlen (List.filter (fun e => counts_as_active (info_State (ms_info (snd e)))
                              && str_eqb (info_ProjectID (ms_info (snd e))) projectID)
                    (map_to_list (sessions s))).

(** Argument checks and the first critical section; [None]: go on. *)
Definition start_check (s : Supervisor) (wd : option (list Z)) (cfg : SessionConfig) : option error :=
  if str_eqb (cfg_SessionID cfg) "" then Some (Wrapped ErrInvalidArgument "session_id is required")
  else if str_eqb (cfg_ProjectID cfg) "" then Some (Wrapped ErrInvalidArgument "project_id is required")
  else if str_eqb (cfg_RepoPath cfg) "" then Some (Wrapped ErrInvalidArgument "repo_path is required")
  else match ValidateRepoPath (policy s) wd (cfg_RepoPath cfg) with
  | Some e => Some e
  | None =>
      if shuttingDown s then Some (Sentinel ErrSupervisorShuttingDown)
      else match sessions s !! cfg_SessionID cfg with
      | Some _ => Some (Wrapped ErrSessionAlreadyExists (cfg_SessionID cfg))
      | None => CheckSessionLimits (policy s) (projectCount s (cfg_ProjectID cfg)) (globalCount s)
      end
  end.

Definition set_Env (v : option (list string)) (c : SessionConfig) : SessionConfig :=
  MkConfig (cfg_ProjectID c) (cfg_SessionID c) (cfg_RepoPath c) (cfg_Options c) v (cfg_Fallbacks c)
    (cfg_InitialCols c) (cfg_InitialRows c).

Definition set_Geometry (cols rows : Z) (c : SessionConfig) : SessionConfig :=
  MkConfig (cfg_ProjectID c) (cfg_SessionID c) (cfg_RepoPath c) (cfg_Options c) (cfg_Env c)
    (cfg_Fallbacks c) cols rows.

(** [strings.TrimPrefix(msg, ErrRepoSetupFailed.Error()+": ")]. *)
Definition trimSetupError (msg : string) : string :=
  let p := "repo setup failed: "%string in
  if String.prefix p msg then String.substring (String.length p) (String.length msg - String.length p) msg
  else msg.

(** Between the critical sections: repository setup, provider selection and
    default geometry. *)
Definition start_prepare (s : Supervisor) (cfg : SessionConfig) : outcome (SessionConfig * Provider) :=
  let prepared := match repoSetup s with
                  | None => Ok cfg
                  | Some prepare =>
                      match prepare (cfg_RepoPath cfg) (cfg_Env cfg) with
                      | inl env => Ok (set_Env env cfg)
                      | inr text => Err (Wrapped ErrRepoSetupFailed (trimSetupError text))
                      end
                  end in
  match prepared with
  | Err e => Err e
  | Panic w => Panic w
  | Ok cfg =>
      match resolveProvider (registry s) (default ""%string (cfg_Options cfg !! "provider"%string))
              (cfg_Fallbacks cfg) (cfg_Env cfg) with
      | Err e => Err e
      | Panic w => Panic w
      | Ok provider =>
          let cols := if cfg_InitialCols cfg =? 0 then 120 else cfg_InitialCols cfg in
          let rows := if cfg_InitialRows cfg =? 0 then 40 else cfg_InitialRows cfg in
          Ok (set_Geometry cols rows cfg, provider)
      end
  end.

Definition flag (o : option bool) : bool := match o with Some b => b | None => false end.

Definition new_session (s : Supervisor) (cfg : SessionConfig) (provider : Provider) (pid : Z) (now : Time)
    : managedSession :=
  let useStreamJSON := flag (prov_IsStreamJSON provider) in
  let caps := interactionCapabilitiesFor provider in
  MkSession
    (MkInfo (cfg_SessionID cfg) (cfg_ProjectID cfg) (prov_ID provider) (cfg_RepoPath cfg)
       SessionStateRunning pid now 0 "" false "" false false 0 0 0
       (cfg_InitialCols cfg) (cfg_InitialRows cfg) "" 0
       (MkInteraction InteractionUnknown 0 now now None (MkEvidence "" caps)) caps)
    cfg (Some provider) (Some pid) (negb useStreamJSON) useStreamJSON useStreamJSON
    (NewByteBuffer (bufSize s)) (prov_StopGrace provider) now false false (Some false)
    (flag (prov_IsStripANSI provider)) ∅ false
    (if useStreamJSON then None else Some newLiveScreen) ∅ 0%nat.

(** What the operating system answers when the process is started. *)
Inductive spawn_result :=
| Spawned (pid : Z)
| StdinPipeFailed (text : string)
| StdoutPipeFailed (text : string)
| StartFailed (text : string).

(** The second critical section and what follows it. *)
Definition start_register (s : Supervisor) (cfg : SessionConfig) (provider : Provider) (pid : Z) (now : Time)
    : Supervisor * outcome SessionInfo :=
  let id := cfg_SessionID cfg in
  let ms := new_session s cfg provider pid now in
  let close_end := if ms_streamJSON ms then EvCloseStdin id else EvClosePTY id in
  if shuttingDown s then (emit [EvCancel id; close_end] s, Err (Sentinel ErrSupervisorShuttingDown))
  else match sessions s !! id with
  | Some _ => (emit [EvCancel id; close_end] s, Err (Wrapped ErrSessionAlreadyExists id))
  | None =>
      let s := put_session id ms s in
      let s := if telemetry s then emit [EvTelemetryStarted (telemetrySessionLocked ms)] s else s in
      let s := notifyControl [snapshotInfo ms] s in
      let s := emit [EvGoReader id; EvGoWaiter id] s in
      let info := snapshotInfo ms in
      (persist info s, Ok info)
  end.

Definition start_spawn (s : Supervisor) (cfg : SessionConfig) (provider : Provider) (r : spawn_result)
    (now : Time) : Supervisor * outcome SessionInfo :=
  let id := cfg_SessionID cfg in
  if flag (prov_IsStreamJSON provider) then
    match r with
    | StdinPipeFailed t => (emit [EvCancel id] s, Err (Other t))
    | StdoutPipeFailed t => (emit [EvCancel id; EvCloseStdin id] s, Err (Other t))
    | StartFailed t => (emit [EvCancel id; EvCloseStdin id] s, Err (Other t))
    | Spawned pid => start_register s cfg provider pid now
    end
  else
    match r with
    | Spawned pid => start_register s cfg provider pid now
    | StdinPipeFailed t | StdoutPipeFailed t | StartFailed t => (emit [EvCancel id] s, Err (Other t))
    end.

(** [Start] when no other operation runs between its critical sections. *)
Definition Start (s : Supervisor) (wd : option (list Z)) (cfg : SessionConfig) (r : spawn_result)
    (now : Time) : Supervisor * outcome SessionInfo :=
  match start_check s wd cfg with
  | Some e => (s, Err e)
  | None =>
      match start_prepare s cfg with
      | Err e => (s, Err e)
      | Panic w => (s, Panic w)
      | Ok (cfg, provider) =>
          match prov_BuildCommand provider cfg with
          | Some e => (emit [EvCancel (cfg_SessionID cfg)] s, Err e)
          | None => start_spawn s cfg provider r now
          end
      end
  end.
End Supervisor.
