(* ===== verification/Reach.v ===== *)
(** * Interleavings of the supervisor's operations

    Every critical section of the daemon is an operation [op]; [exec] runs it.
    An execution of the daemon is a sequence of enabled operations in any
    order: clients calling in parallel, the reader and waiter goroutines of
    each session, monitors and timers.  The theorems hold of every state such
    a sequence can reach. *)

From S2P Require Import Prelude Types ByteBuf GoStd Policy Registry Screen Store Session SessionInv Supervisor.

Section Reach.
Context `{E : Emulator} `{S : SessionStore}.

Inductive op :=
| OpAttach (id c : string) (after : Z) (role : AttachRole) (now : Time)
| OpDetach (id c : string)
| OpClaim (id c : string) (force : bool)
| OpRelease (id c : string)
| OpInput (id c : string) (data : bytes) (io : Z * option error) (now : Time)
| OpResize (id c : string) (cols rows : Z) (setsize : option error) (now : Time)
| OpOutput (id : string) (payload : bytes) (ctype : ChunkType) (now : Time)
| OpRead (id : string) (data : bytes) (err : option read_error) (now : Time)
| OpCloseLive (id : string)
| OpReaderDone (id : string)
| OpWait (id : string) (w : wait_result) (now : Time)
| OpStop (id : string) (force : bool)
| OpGraceOver (id : string)
| OpRecoveredStop (id : string) (pid : Z) (force : bool) (polls : list bool) (alive : bool) (now : Time)
| OpMonitorGone (id : string) (now : Time)
| OpInteraction (id : string) (next : Interaction) (now : Time)
| OpNotifyClaimed (id c : string)
| OpNotifyReleased (id c : string)
| OpReceive (id : string) (c : nat)
| OpRegister (cfg : SessionConfig) (p : Provider) (pid : Z) (now : Time)
| OpBeginShutdown.

Definition void {A} (r : Supervisor * outcome A) : Supervisor * outcome unit :=
  (fst r, match snd r with Ok _ => Ok tt | Err e => Err e | Panic w => Panic w end).

Definition exec (s : Supervisor) (o : op) : Supervisor * outcome unit :=
  match o with
  | OpAttach id c after role now => void (Attach s id c after role now)
  | OpDetach id c => void (Detach s id c)
  | OpClaim id c force => void (ClaimWriter s id c force)
  | OpRelease id c => void (ReleaseWriter s id c)
  | OpInput id c data io now => void (WriteInput s id c data io now)
  | OpResize id c cols rows setsize now => Resize s id c cols rows setsize now
  | OpOutput id payload ctype now => appendChunk s id payload ctype now
  | OpRead id data err now => void (readLoop s id data err now)
  | OpCloseLive id => reader_closeLive s id
  | OpReaderDone id => reader_done s id
  | OpWait id w now => (waitLoop s id w now, Ok tt)
  | OpStop id force => Stop s id force
  | OpGraceOver id => (stop_grace_over s id, Ok tt)
  | OpRecoveredStop id pid force polls alive now =>
      (stop_recovered_wait s id pid force polls alive now, Ok tt)
  | OpMonitorGone id now => (monitor_gone s id now, Ok tt)
  | OpInteraction id next now => (fst (UpdateInteraction s id next now), Ok tt)
  | OpNotifyClaimed id c => NotifyWriterClaimed s id c
  | OpNotifyReleased id c => NotifyWriterReleased s id c
  | OpReceive id c => void (receive s id c)
  | OpRegister cfg p pid now => void (start_register s cfg p pid now)
  | OpBeginShutdown => (begin_shutdown s, Ok tt)
  end.

Definition session_is (P : managedSession -> Prop) (s : Supervisor) (id : string) : Prop :=
  exists ms, sessions s !! id = Some ms /\ P ms.

(** When an operation can run.  Clients have an identifier (the server makes
    one up when the request has none).  A session's reader runs its deferred
    [closeLive] once and signals once after it; the waiter goes on after that
    signal. *)
Definition enabled (s : Supervisor) (o : op) : Prop :=
  match o with
  | OpAttach _ c _ _ _ | OpClaim _ c _ => c <> ""%string
  | OpCloseLive id => session_is (fun ms => ms_liveClosed ms = false) s id
  | OpReaderDone id => session_is (fun ms => ms_liveClosed ms = true /\ ms_readerDone ms = Some false) s id
  | OpWait id _ _ => session_is (fun ms => ms_readerDone ms = Some true) s id
  | _ => True
  end.

(** One step of an execution; a panic ends the daemon. *)
Inductive step (s s' : Supervisor) : Prop :=
| step_op (o : op) (r : outcome unit) :
    enabled s o -> exec s o = (s', r) -> (forall w, r <> Panic w) -> step s s'.

Inductive reachable (s0 : Supervisor) : Supervisor -> Prop :=
| reach_refl : reachable s0 s0
| reach_step s s' : reachable s0 s -> step s s' -> reachable s0 s'.

Definition sup_inv (s : Supervisor) : Prop := map_Forall (fun _ ms => session_inv ms) (sessions s).

(** ** Sessions after a change *)

Lemma sup_inv_put s id ms : sup_inv s -> session_inv ms -> sup_inv (put_session id ms s).
Proof. intros H I; apply map_Forall_insert_2; assumption. Qed.

Lemma sup_inv_same s s' : sessions s' = sessions s -> sup_inv s -> sup_inv s'.
Proof. unfold sup_inv; intros ->; auto. Qed.

Lemma sessions_notify infos s : sessions (notifyControl infos s) = sessions s.
Proof. unfold notifyControl; destruct (control s); reflexivity. Qed.

Lemma sup_inv_notify infos s : sup_inv s -> sup_inv (notifyControl infos s).
Proof. apply sup_inv_same, sessions_notify. Qed.

Lemma sup_inv_emit evs s : sup_inv s -> sup_inv (emit evs s).
Proof. auto. Qed.

Lemma sup_inv_persist info s : sup_inv s -> sup_inv (persist info s).
Proof. auto. Qed.

Lemma sup_inv_get s id ms : sup_inv s -> sessions s !! id = Some ms -> session_inv ms.
Proof. intros H Hs; exact (H id ms Hs). Qed.

Lemma new_session_inv s cfg p pid now : session_inv (new_session s cfg p pid now).
Proof.
  split; simpl; intros;
    repeat match goal with H : ∅ !! _ = Some _ |- _ => rewrite lookup_empty in H; discriminate end;
    unfold active in *; simpl in *; try discriminate; try congruence; eauto.
Qed.

Lemma recovered_session_inv s info now : session_inv (recovered_session s info now).
Proof.
  split; simpl; intros;
    repeat match goal with H : ∅ !! _ = Some _ |- _ => rewrite lookup_empty in H; discriminate end;
    unfold active in *; simpl in *; try discriminate; try congruence; eauto.
Qed.

(** An operation keeps the invariant and does not panic. *)
Definition fine {A} (r : Supervisor * outcome A) : Prop :=
  sup_inv (fst r) /\ forall w, snd r <> Panic w.

Lemma fine_void {A} (r : Supervisor * outcome A) : fine r -> fine (void r).
Proof. intros [H1 H2]; split; [exact H1|]; destruct r as [s [a|e|w]]; simpl in *; try discriminate; destruct (H2 w eq_refl). Qed.

Lemma fine_ok {A} s (a : A) : sup_inv s -> fine (s, Ok a).
Proof. split; [assumption | discriminate]. Qed.

Lemma fine_err {A} s e : sup_inv s -> fine (A := A) (s, Err e).
Proof. split; [assumption | discriminate]. Qed.

Hint Resolve fine_ok fine_err sup_inv_put sup_inv_notify sup_inv_emit sup_inv_persist sup_inv_get : core.

Lemma commit_fine s id r :
  sup_inv s ->
  match r with Ok (_, ms) => session_inv ms | Err _ => True | Panic _ => False end ->
  fine (commit s id r).
Proof.
  intros H Hr; destruct r as [[st ms]|e|w]; simpl; [|auto|contradiction].
  apply fine_ok, sup_inv_put; [exact H | exact Hr].
Qed.

Lemma appendChunk_fine s id payload ctype now : sup_inv s -> fine (appendChunk s id payload ctype now).
Proof.
  intros H; unfold appendChunk, not_found; destruct (sessions s !! id) as [ms|] eqn:Es; [|auto].
  apply commit_fine; [destruct (telemetry s), ctype; auto|].
  match goal with |- match appendChunkLocked ?st ?m ?p ?c ?n with _ => _ end =>
    destruct (append_inv st m p c n ltac:(eauto)) as (st' & ms' & -> & I) end; exact I.
Qed.

Lemma readLoop_fine s id data err now : sup_inv s -> fine (readLoop s id data err now).
Proof.
  intros H; unfold readLoop.
  assert (fine (if 0 <? zlen data then appendChunk s id data ChunkTypeOutput now else (s, Ok tt))) as [H1 H2]
    by (destruct (0 <? zlen data); [apply appendChunk_fine, H | auto]).
  destruct (if 0 <? zlen data then _ else _) as [s1 [u|e|w]]; cbn [fst snd] in *; [|auto|destruct (H2 w eq_refl)].
  destruct err as [[|text]|]; [auto | | auto]; destruct (sessions s1 !! id) as [ms|] eqn:Es; [|unfold not_found; auto].
  pose proof (read_error_shape ms text) as Hsh; destruct (read_error_locked ms text) as [stopping ms'].
  assert (sup_inv (put_session id ms' s1)) by (apply sup_inv_put; [exact H1 | eapply inv_shape; eauto]).
  destruct stopping; apply fine_ok; auto.
Qed.

Lemma closeLive_fine s id :
  sup_inv s -> session_is (fun ms => ms_liveClosed ms = false) s id -> fine (reader_closeLive s id).
Proof.
  intros H (ms & Hs & Hl); unfold reader_closeLive; rewrite Hs.
  destruct (closeLive_inv ms ltac:(eauto) Hl) as (ms' & -> & I); auto.
Qed.

Lemma reader_done_fine s id :
  sup_inv s -> session_is (fun ms => ms_liveClosed ms = true /\ ms_readerDone ms = Some false) s id ->
  fine (reader_done s id).
Proof.
  intros H (ms & Hs & Hl & Hd); unfold reader_done; rewrite Hs.
  destruct (signalReaderDone_inv ms ltac:(eauto) Hl ltac:(congruence)) as (ms' & -> & I); auto.
Qed.

Lemma fanout_fine s id ctype payload : sup_inv s -> fine (fanout s id ctype payload).
Proof.
  intros H; unfold fanout; destruct (sessions s !! id) as [ms|] eqn:Es; [|auto].
  destruct (fanout_inv ms ctype payload ltac:(eauto)) as (ms' & -> & I); auto.
Qed.

Lemma waitLoop_inv s id w now : sup_inv s -> sup_inv (waitLoop s id w now).
Proof.
  intros H; unfold waitLoop; destruct (sessions s !! id) as [ms|] eqn:Es; [|exact H].
  assert (session_inv (wait_locked ms w now)) by (eapply inv_shape; [apply wait_shape | eauto]).
  apply sup_inv_persist, sup_inv_notify.
  match goal with |- sup_inv (if ?b then _ else _) => destruct b end; auto.
Qed.

Lemma Stop_fine s id force : sup_inv s -> fine (Stop s id force).
Proof.
  intros H; unfold Stop, not_found; destruct (sessions s !! id) as [ms|] eqn:Es; [|auto].
  destruct (stop_locked ms force) as [ms'|] eqn:Ek; [|auto].
  assert (session_inv ms') as I by (eapply inv_shape; [eapply stop_shape, Ek | eauto]).
  assert (sup_inv (notifyControl [ms_info ms'] (put_session id ms' s))) as H' by auto.
  destruct (ms_recovered ms') eqn:Er; [apply fine_ok; exact H'|].
  destruct (inv_cmd _ I Er) as [pid ->]; destruct (ms_stdin ms'); apply fine_ok; exact H'.
Qed.

Lemma stop_recovered_inv s id pid force polls alive now :
  sup_inv s -> sup_inv (stop_recovered_wait s id pid force polls alive now).
Proof.
  intros H.
  assert (forall s', sup_inv s' -> sup_inv (match sessions s' !! id with
    | None => s'
    | Some ms => let ms := recovered_stopped ms now in
                 notifyControl [ms_info ms] (persist (snapshotInfo ms) (put_session id ms s')) end)) as Hf.
  { intros s' H'; destruct (sessions s' !! id) as [ms|] eqn:Es; [|exact H'].
    apply sup_inv_notify, sup_inv_persist, sup_inv_put; [exact H'|].
    eapply inv_shape; [|eapply sup_inv_get; eauto]; reflexivity. }
  induction polls as [|[|] polls IH]; simpl; auto.
  apply Hf; destruct (negb force && (0 <? pid) && alive); auto.
Qed.

Lemma attachHistory_no_panic s id c after w : attachHistory s id c after <> Panic w.
Proof.
  unfold attachHistory; destruct (store s) as [st|]; [|discriminate].
  destruct (history s !! id); [|discriminate].
  destruct (store_LoadChunks st id) as [cs [e|]]; discriminate.
Qed.

Lemma Attach_spec s id c after role now :
  sup_inv s -> c <> ""%string ->
  sup_inv (fst (Attach s id c after role now)) /\
  forall w, snd (Attach s id c after role now) = Panic w -> session_is (fun ms => attach_panics ms c role) s id.
Proof.
  intros H Hc; unfold Attach; destruct (sessions s !! id) as [ms|] eqn:Es.
  - pose proof (attach_inv ms c after role now ltac:(eauto) Hc) as Ha.
    destruct (attach_locked ms c after role now) as [[[a ms'] notes]|e|w]; simpl.
    + split; [|discriminate]; apply sup_inv_notify, sup_inv_put; tauto.
    + split; [exact H | discriminate].
    + split; [exact H|]; intros _ _; exists ms; auto.
  - pose proof (attachHistory_no_panic s id c after) as Hn.
    destruct (attachHistory s id c after) as [a|e|w]; simpl.
    + split; [exact H | discriminate].
    + destruct (bool_decide _); (split; [exact H | discriminate]).
    + destruct (Hn w eq_refl).
Qed.

Lemma Detach_fine s id c : sup_inv s -> fine (Detach s id c).
Proof.
  intros H; unfold Detach, not_found; destruct (sessions s !! id) as [ms|] eqn:Es.
  - pose proof (detach_inv ms c ltac:(eauto)) as Hd.
    destruct (detach_locked ms c) as [[[w ms'] notes]|e|w]; [apply fine_ok; auto | auto | contradiction].
  - destruct (history s !! id); auto.
Qed.

Lemma Claim_fine s id c force : sup_inv s -> c <> ""%string -> fine (ClaimWriter s id c force).
Proof.
  intros H Hc; unfold ClaimWriter, not_found; destruct (sessions s !! id) as [ms|] eqn:Es; [|auto].
  pose proof (claim_inv ms c force ltac:(eauto) Hc) as Hd.
  destruct (claim_locked ms c force) as [[prev ms']|e|w]; [apply fine_ok, sup_inv_put; tauto | auto | contradiction].
Qed.

Lemma Release_fine s id c : sup_inv s -> fine (ReleaseWriter s id c).
Proof.
  intros H; unfold ReleaseWriter, not_found; destruct (sessions s !! id) as [ms|] eqn:Es; [|auto].
  pose proof (release_inv ms c ltac:(eauto)) as Hd.
  destruct (release_locked ms c) as [ms'|e|w]; [apply fine_ok, sup_inv_put; tauto | auto | contradiction].
Qed.

Lemma WriteInput_fine s id c data io now : sup_inv s -> fine (WriteInput s id c data io now).
Proof.
  intros H; unfold WriteInput, not_found; destruct (ValidateInputBytes _ _); [auto|].
  destruct (sessions s !! id) as [ms|] eqn:Es; [|auto]; destruct (input_guard ms c); [auto|].
  assert (sup_inv (put_session id (with_lastActivity now ms) s)) as H'
    by (apply sup_inv_put; [exact H | apply (inv_shape ms); [reflexivity | eauto]]).
  destruct io as [n [e|]], (telemetry _); first [apply fine_ok; exact H' | apply fine_err; exact H'].
Qed.

Lemma Resize_fine s id c cols rows setsize now : sup_inv s -> fine (Resize s id c cols rows setsize now).
Proof.
  intros H; unfold Resize, not_found; destruct (sessions s !! id) as [ms|] eqn:Es; [|auto].
  apply commit_fine; [destruct (_ && _); exact H|].
  pose proof (resize_inv (store s) ms c cols rows setsize now ltac:(eauto)) as Hr.
  destruct (resize_locked _ _ _ _ _ _ _) as [[st ms']|e|w]; tauto.
Qed.

Lemma receive_fine s id n : sup_inv s -> fine (receive s id n).
Proof.
  intros H; unfold receive; destruct (sessions s !! id) as [ms|] eqn:Es; [|auto].
  destruct (chan_recv (ms_chans ms) n) as [[v h]|e|w] eqn:Er; [|auto|].
  - apply fine_ok, sup_inv_put; [exact H | eapply recv_inv; eauto].
  - exfalso; unfold chan_recv in Er; destruct (ms_chans ms !! n) as [ch|]; [|discriminate].
    destruct (ch_queue ch); [destruct (ch_closed ch)|]; discriminate.
Qed.

Lemma register_fine s cfg p pid now : sup_inv s -> fine (start_register s cfg p pid now).
Proof.
  intros H; unfold start_register; destruct (shuttingDown s); [auto|].
  destruct (sessions s !! cfg_SessionID cfg); [auto|]; apply fine_ok.
  apply sup_inv_persist, sup_inv_emit, sup_inv_notify.
  match goal with |- sup_inv (if ?b then _ else _) => destruct b end;
    [apply sup_inv_emit|]; apply sup_inv_put; auto using new_session_inv.
Qed.

Lemma interaction_inv s id next now : sup_inv s -> sup_inv (fst (UpdateInteraction s id next now)).
Proof.
  intros H; unfold UpdateInteraction; destruct (str_eqb _ _); [exact H|].
  destruct (sessions s !! id) as [ms|] eqn:Es; [|exact H]; apply sup_inv_notify, sup_inv_put; [exact H|].
  apply (inv_shape ms); [reflexivity | eauto].
Qed.

Lemma monitor_inv s id now : sup_inv s -> sup_inv (monitor_gone s id now).
Proof.
  intros H; unfold monitor_gone; destruct (sessions s !! id) as [ms|] eqn:Es; [|exact H].
  apply sup_inv_persist, sup_inv_put; [exact H | eapply inv_shape; [apply monitor_shape | eauto]].
Qed.

Lemma grace_inv s id : sup_inv s -> sup_inv (stop_grace_over s id).
Proof.
  intros H; unfold stop_grace_over; destruct (sessions s !! id) as [ms|]; [|exact H].
  destruct (ms_cmd ms); [destruct (_ && _)|]; auto.
Qed.

(** Every enabled operation keeps the invariant, and the only panic is the
    re-attach of a client whose channel the end of output already closed. *)
Lemma exec_spec s o :
  sup_inv s -> enabled s o ->
  sup_inv (fst (exec s o)) /\
  forall w, snd (exec s o) = Panic w ->
    exists id c after role now, o = OpAttach id c after role now /\
      session_is (fun ms => attach_panics ms c role) s id.
Proof.
  intros H He.
  assert (Hfine : forall r : Supervisor * outcome unit, fine r ->
    sup_inv (fst r) /\ forall w, snd r = Panic w ->
    exists id c after role now, o = OpAttach id c after role now /\
      session_is (fun ms => attach_panics ms c role) s id)
    by (intros r [H1 H2]; split; [exact H1 | intros w Hw; destruct (H2 w Hw)]).
  destruct o; cbn [exec enabled] in *;
    try (apply Hfine; first
      [ apply fine_void; auto using Detach_fine, Claim_fine, Release_fine, WriteInput_fine, readLoop_fine,
          receive_fine, register_fine; fail
      | auto using Resize_fine, appendChunk_fine, closeLive_fine, reader_done_fine, Stop_fine, fanout_fine; fail
      | apply fine_ok; auto using waitLoop_inv, stop_recovered_inv, interaction_inv, monitor_inv, grace_inv ]; fail).
  - destruct (Attach_spec s id c after role now H He) as [H1 H2]; split; [exact H1|]; simpl.
    intros w Hw; exists id, c, after, role, now; split; [reflexivity|].
    destruct (snd (Attach s id c after role now)) as [a|e|w'] eqn:Ea; [discriminate..|]; eauto.
  - apply Hfine, fanout_fine, H.
  - apply Hfine, fanout_fine, H.
Qed.

Lemma step_inv s s' : sup_inv s -> step s s' -> sup_inv s'.
Proof. intros H [o r He Hx _]; pose proof (proj1 (exec_spec s o H He)) as H'; rewrite Hx in H'; exact H'. Qed.

Lemma reachable_inv s0 s : sup_inv s0 -> reachable s0 s -> sup_inv s.
Proof. intros H0; induction 1 as [|s s' _ IH Hs]; [exact H0 | exact (step_inv s s' IH Hs)]. Qed.

Lemma Attach_panics s id c after role now :
  sup_inv s -> session_is (fun ms => attach_panics ms c role) s id ->
  exists w, snd (Attach s id c after role now) = Panic w.
Proof.
  intros H (ms & Hs & Hr & Hg & [e He] & Hl); unfold Attach; rewrite Hs.
  unfold attach_locked; rewrite Hr; fold (active ms).
  destruct (bool_decide (role = AttachRoleWriter) && negb (str_eqb (active ms) "")) eqn:Eg;
    [bool_to_prop; tauto|].
  pose proof (evict_stale_spec ms c ltac:(eauto)) as Hev.
  destruct (evict_stale ms c) as [ms1|e'|w]; [|contradiction|simpl; eauto].
  destruct Hev as [[Hev|Hev] _]; congruence.
Qed.

(** ** Starting states *)

(** A daemon that has just started: built, then its history loaded (with any
    answers about which processes survived). *)
Definition booted (s : Supervisor) : Prop :=
  exists r p size idle st setup tel ctl alive now,
    s = fst (LoadHistory (NewSupervisor r p size idle st setup tel ctl) alive now).

Lemma load_infos_inv infos s alive now : sup_inv s -> sup_inv (load_infos s infos alive now).
Proof.
  revert s; induction infos as [|info infos IH]; intros s H; cbn [load_infos]; [exact H|]; apply IH.
  destruct (negb _); [|exact H]; unfold recoverProcess.
  destruct (_ || _); [exact H|]; simpl.
  apply sup_inv_emit, sup_inv_persist, sup_inv_put; auto using recovered_session_inv.
Qed.

Lemma booted_inv s : booted s -> sup_inv s.
Proof.
  intros (r & p & size & idle & st & setup & tel & ctl & alive & now & ->); unfold LoadHistory.
  assert (sup_inv (NewSupervisor r p size idle st setup tel ctl)) as H by apply map_Forall_empty.
  destruct (store _) as [st'|]; [|exact H]; destruct (store_LoadAll st') as [infos [e|]]; [exact H|].
  apply load_infos_inv, H.
Qed.

Lemma reachable_trans s0 s1 s2 : reachable s0 s1 -> reachable s1 s2 -> reachable s0 s2.
Proof. intros H; induction 1 as [|s s' _ IH Hs]; [exact H | eapply reach_step; eassumption]. Qed.

(** Running a list of operations, as far as they do not panic. *)
Fixpoint exec_all (s : Supervisor) (os : list op) : Supervisor :=
  match os with [] => s | o :: r => exec_all (fst (exec s o)) r end.

Fixpoint runs (s : Supervisor) (os : list op) : Prop :=
  match os with
  | [] => True
  | o :: r => enabled s o /\ (match snd (exec s o) with Panic _ => False | _ => True end) /\
              runs (fst (exec s o)) r
  end.

Definition enabledb (s : Supervisor) (o : op) : bool :=
  match o with
  | OpAttach _ c _ _ _ | OpClaim _ c _ => negb (str_eqb c "")
  | OpCloseLive id => match sessions s !! id with Some ms => negb (ms_liveClosed ms) | None => false end
  | OpReaderDone id => match sessions s !! id with
                       | Some ms => ms_liveClosed ms && bool_decide (ms_readerDone ms = Some false)
                       | None => false
                       end
  | OpWait id _ _ => match sessions s !! id with
                     | Some ms => bool_decide (ms_readerDone ms = Some true)
                     | None => false
                     end
  | _ => true
  end.

Fixpoint runsb (s : Supervisor) (os : list op) : bool :=
  match os with
  | [] => true
  | o :: r => enabledb s o && (match snd (exec s o) with Panic _ => false | _ => true end) &&
              runsb (fst (exec s o)) r
  end.

Lemma enabledb_ok s o : enabledb s o = true -> enabled s o.
Proof.
  destruct o; simpl; auto; try (intros H; bool_to_prop; assumption);
    unfold session_is; (destruct (sessions s !! id) as [ms|]; [|discriminate]); intros H; bool_to_prop; eauto.
Qed.

Lemma runsb_ok os s : runsb s os = true -> runs s os.
Proof.
  revert s; induction os as [|o os IH]; intros s H; [exact I|]; cbn [runsb] in H; bool_to_prop.
  split; [apply enabledb_ok; assumption|]; split; [|apply IH; assumption].
  destruct (snd (exec s o)); [exact I | exact I | discriminate].
Qed.

Lemma runs_reachable os s : runs s os -> reachable s (exec_all s os).
Proof.
  revert s; induction os as [|o os IH]; intros s H; [constructor|]; destruct H as (He & Hp & H).
  apply (reachable_trans _ (fst (exec s o))); [|apply IH, H].
  eapply reach_step; [constructor|]; apply (step_op s _ o (snd (exec s o)) He); [apply surjective_pairing|].
  intros w Hw; rewrite Hw in Hp; exact Hp.
Qed.
End Reach.

(** ** Theorems *)

(** C1. Single writer, under every interleaving: in any state a running daemon
    can reach, at most one attached client of a session has the writer role and
    it is the one the session names as active writer; the active writer is
    attached as long as output is live; the published attachment fields and the
    observer count agree with the attached clients. *)
Theorem single_writer `{E : Emulator} `{S : SessionStore} (s0 s : Supervisor) (id : string) (ms : managedSession) :
  booted s0 -> reachable s0 s -> sessions s !! id = Some ms ->
  (forall c c' e e', ms_observers ms !! c = Some e -> oe_role e = AttachRoleWriter ->
     ms_observers ms !! c' = Some e' -> oe_role e' = AttachRoleWriter -> c = c' /\ c = active ms) /\
  (ms_liveClosed ms = false -> active ms <> ""%string -> is_Some (ms_observers ms !! active ms)) /\
  info_Attached (ms_info ms) = negb (str_eqb (active ms) "") /\
  info_AttachedClientID (ms_info ms) = active ms /\
  info_ObserverCount (ms_info ms) = countObservers ms.
Proof.
  intros H0 Hr Hs; pose proof (reachable_inv _ _ (booted_inv _ H0) Hr id ms Hs) as I.
  split_and!; try apply I.
  - intros c c' e e' Hc He Hc' He'.
    rewrite (inv_roles _ I c' e' Hc' He'); split; apply (inv_roles _ I c e Hc He).
Qed.

(** C6. The only crash: in any state a running daemon can reach, no operation
    panics (no send on a closed channel, no double close, no nil dereference)
    except one: attaching a client whose previous attachment is still
    registered after the session's output has ended. *)
Theorem panic_exactly_stale_reattach `{E : Emulator} `{S : SessionStore} (s0 s : Supervisor) (o : op) :
  booted s0 -> reachable s0 s -> enabled s o ->
  (exists w, snd (exec s o) = Panic w) <->
  exists id c after role now, o = OpAttach id c after role now /\
    session_is (fun ms => attach_panics ms c role) s id.
Proof.
  intros H0 Hr He; pose proof (reachable_inv _ _ (booted_inv _ H0) Hr) as H; split.
  - intros [w Hw]; exact (proj2 (exec_spec s o H He) w Hw).
  - intros (id & c & after & role & now & -> & Hp); destruct (Attach_panics s id c after role now H Hp) as [w Hw].
    exists w; simpl; rewrite Hw; reflexivity.
Qed.

(** ** A concrete daemon *)

Definition sample_provider : Provider :=
  MkProvider "echo" Second None None (fun _ => None) None None None None None None.

Definition sample_cfg (id : string) : SessionConfig :=
  MkConfig "proj" id "/repo" {["provider"%string := "echo"%string]} None [] 80 24.

Definition sample_policy : Policy := MkPolicy 2 20 4 [].

Section Sample.
#[local] Existing Instance echo_emulator.
#[local] Existing Instance log_bolt.

Definition sample_boot : Supervisor :=
  fst (LoadHistory (S := BoltSessionStore)
    (NewSupervisor {["echo"%string := sample_provider]} sample_policy 1024 0 (Some []) None true true)
    (fun _ => false) 5).

Lemma sample_booted : booted (S := BoltSessionStore) sample_boot.
Proof. unfold booted; do 10 eexists; reflexivity. Qed.

(** A session with a writer [a] and an observer [b]; some output; then the
    reader ends. *)
Definition sample_ops1 : list op :=
  [OpRegister (sample_cfg "s1") sample_provider 7 10;
   OpAttach "s1" "a" 0 AttachRoleWriter 11; OpAttach "s1" "b" 0 AttachRoleObserver 12;
   OpRead "s1" (bytes_of_string "hi") None 13].

Definition sample_ops2 : list op := sample_ops1 ++ [OpRead "s1" [] (Some ReadEOF) 14; OpCloseLive "s1"].

Definition sample_state (os : list op) : Supervisor (S := BoltSessionStore) := exec_all sample_boot os.

Lemma sample_runs1 : runs sample_boot sample_ops1.
Proof. apply runsb_ok; vm_compute; reflexivity. Qed.

Lemma sample_runs2 : runs sample_boot sample_ops2.
Proof. apply runsb_ok; vm_compute; reflexivity. Qed.

Lemma single_writer_witness :
  exists ms, sessions (sample_state sample_ops1) !! "s1"%string = Some ms /\
    active ms = "a"%string /\ is_Some (ms_observers ms !! active ms) /\
    info_ObserverCount (ms_info ms) = countObservers ms.
Proof.
  destruct (sessions (sample_state sample_ops1) !! "s1"%string) as [ms|] eqn:Es; [|vm_compute in Es; discriminate].
  pose proof (single_writer sample_boot (sample_state sample_ops1) "s1" ms sample_booted
                (runs_reachable _ _ sample_runs1) Es) as (_ & Hm & _ & _ & Hc).
  exists ms; split; [reflexivity|].
  assert (active ms = "a"%string /\ ms_liveClosed ms = false) as [Ha Hl]
    by (vm_compute in Es; injection Es as <-; split; reflexivity).
  split; [exact Ha | split; [apply Hm; [exact Hl | rewrite Ha; discriminate] | exact Hc]].
Defined.

(** Reachable: the writer [a] comes back as an observer after the output has
    ended and before its first attachment was cleaned up. *)
Lemma panic_exactly_stale_reattach_witness :
  exists w, snd (exec (sample_state sample_ops2) (OpAttach "s1" "a" 0 AttachRoleObserver 20)) = Panic w.
Proof.
  apply (panic_exactly_stale_reattach sample_boot (sample_state sample_ops2)
           (OpAttach "s1" "a" 0 AttachRoleObserver 20) sample_booted (runs_reachable _ _ sample_runs2)).
  - discriminate.
  - do 5 eexists; split; [reflexivity|].
    destruct (sessions (sample_state sample_ops2) !! "s1"%string) as [ms|] eqn:Es; [|vm_compute in Es; discriminate].
    exists ms; split; [exact Es|].
    vm_compute in Es; injection Es as <-; split_and!; [reflexivity | intros [K _]; discriminate | eexists; vm_compute; reflexivity | reflexivity].
Defined.
End Sample.
