(* ===== verification/Lifecycle.v ===== *)
(** * Session lifecycle: start limits, stop, exit, shutdown, recovery

    Theorems about the supervisor's operations on the life of a session:
    limits at start, what a stop guarantees along any later execution, what a
    restart makes of persisted sessions, what the idle reaper and the shutdown
    touch, and that queries are complete. *)

From S2P Require Import Prelude Types ByteBuf GoStd Policy Registry Screen Store Session SessionInv Supervisor Reach.

Section Lifecycle.
Context `{E : Emulator} `{S : SessionStore}.

Definition state_of (ms : managedSession) : SessionState := info_State (ms_info ms).

(** The state of a session of the supervisor. *)
Definition session_state (s : Supervisor) (id : string) : option SessionState :=
  state_of <$> sessions s !! id.

(** ** How each operation moves the state *)

(** An operation that is not a writer attaching to this session. *)
Definition no_writer_attach (id : string) (o : op) : Prop :=
  match o with
  | OpAttach id' _ _ AttachRoleWriter _ => id' <> id
  | _ => True
  end.

(** The moves an operation can make, writer attaches apart. *)
Definition moves (st st' : SessionState) : Prop :=
  st' = st \/
  (st = SessionStateAttached /\ st' = SessionStateRunning) \/
  (st = SessionStateRunning /\ st' = SessionStateAttached) \/
  (terminal st = false /\ st' = SessionStateStopping) \/
  terminal st' = true.

Lemma moves_refl st : moves st st.
Proof. left; reflexivity. Qed.

Lemma append_state st ms p c now st' ms' :
  appendChunkLocked st ms p c now = Ok (st', ms') -> state_of ms' = state_of ms.
Proof.
  unfold appendChunkLocked; destruct (ms_liveClosed ms); [intros [= <- <-]; reflexivity|].
  destruct (AppendSized _ _ _ _ _ _) as [chunk buf].
  destruct (send_all _ _ _); intros [= <- <-]; simpl; destruct (ms_screen ms), c; reflexivity.
Qed.

Lemma resize_state st ms c cols rows z now st' ms' :
  resize_locked st ms c cols rows z now = Ok (st', ms') -> state_of ms' = state_of ms.
Proof.
  unfold resize_locked; destruct (ms_recovered ms); [discriminate|].
  destruct (str_eqb _ ""); [discriminate|]; destruct (negb _); [discriminate|].
  destruct (ms_streamJSON ms); [intros [= <- <-]; reflexivity|].
  destruct z; [discriminate|]; intros H; apply append_state in H; exact H.
Qed.

Lemma fanout_state ms c p ms' : fanoutControlEvent ms c p = Ok ms' -> state_of ms' = state_of ms.
Proof.
  unfold fanoutControlEvent; destruct (ms_liveClosed ms); [intros [= <-]; reflexivity|].
  destruct (send_all _ _ _); intros [= <-]; reflexivity.
Qed.

Lemma evict_state ms c ms' : evict_stale ms c = Ok ms' -> ms_info ms' = ms_info ms.
Proof.
  unfold evict_stale; destruct (ms_observers ms !! c); [|intros [= <-]; reflexivity].
  destruct (chan_close _ _); intros [= <-]; reflexivity.
Qed.

Lemma attach_observer_state ms c after now a ms' notes :
  attach_locked ms c after AttachRoleObserver now = Ok (a, ms', notes) -> state_of ms' = state_of ms.
Proof.
  unfold attach_locked; destruct (ms_recovered ms); [intros [= <- <- <-]; reflexivity|]; simpl.
  destruct (evict_stale ms c) as [ms1|e|w] eqn:Ee; [|discriminate..].
  destruct (make_live ms1 c AttachRoleObserver) as [lv ms2] eqn:Em.
  assert (ms_info ms2 = ms_info ms) as Hi.
  { apply evict_state in Ee; unfold make_live in Em; destruct (ms_liveClosed ms1); injection Em as <- <-; exact Ee. }
  simpl; destruct (ms_screen ms2) as [scr|]; [destruct (checkpoint scr _)|]; intros [= <- <- <-];
    unfold state_of; simpl; rewrite Hi; reflexivity.
Qed.

Lemma detach_moves ms c w ms' notes :
  detach_locked ms c = Ok (w, ms', notes) -> moves (state_of ms) (state_of ms').
Proof.
  unfold detach_locked; destruct (ms_recovered ms); [intros [= <- <- <-]; apply moves_refl|].
  destruct (ms_observers ms !! c); [|discriminate].
  set (ms1 := on_info _ (if str_eqb _ _ then _ else _)).
  assert (state_of ms1 = state_of ms) as H1 by (subst ms1; simpl; destruct (str_eqb _ _); reflexivity).
  fold (state_of ms1); destruct (_ && _) eqn:Eb; intros [= <- <- <-]; [|left; exact H1].
  apply andb_true_iff in Eb as [_ Eb]; unfold state_is in Eb; bool_to_prop; right; left; split; [rewrite <- H1; exact Eb | reflexivity].
Qed.

Lemma claim_moves ms c force p ms' :
  claim_locked ms c force = Ok (p, ms') -> moves (state_of ms) (state_of ms').
Proof.
  unfold claim_locked; destruct (ms_recovered ms); [discriminate|].
  destruct (str_eqb _ c); [intros [= <- <-]; apply moves_refl|].
  destruct (_ && _); [discriminate|]; destruct (ms_observers ms !! c); [|discriminate].
  set (ms1 := on_info (take_writer c) _).
  assert (state_of ms1 = state_of ms) as H1.
  { subst ms1; unfold state_of; simpl.
    rewrite (proj1 (set_role_rest _ _ _)), (proj1 (set_role_rest _ _ _)); reflexivity. }
  intros [= <- <-]; fold (state_of ms1); unfold state_is; case_bool_decide as Hs.
  - right; right; left; split; [rewrite <- H1; exact Hs | reflexivity].
  - left; exact H1.
Qed.

Lemma release_moves ms c ms' : release_locked ms c = Ok ms' -> moves (state_of ms) (state_of ms').
Proof.
  unfold release_locked; destruct (ms_recovered ms); [intros [= <-]; apply moves_refl|].
  destruct (negb _); [discriminate|].
  set (ms1 := on_info _ (on_info clear_writer _)).
  assert (state_of ms1 = state_of ms) as H1
    by (subst ms1; unfold state_of; simpl; rewrite (proj1 (set_role_rest _ _ _)); reflexivity).
  fold (state_of ms1); destruct (_ && _) eqn:Eb; intros [= <-]; [|left; exact H1].
  apply andb_true_iff in Eb as [_ Eb]; unfold state_is in Eb; bool_to_prop; right; left; split; [rewrite <- H1; exact Eb | reflexivity].
Qed.

Lemma wait_terminal ms w now : terminal (state_of (wait_locked ms w now)) = true.
Proof.
  unfold wait_locked; destruct (wait_error w); [destruct (_ && _); [destruct (str_eqb _ _)|]|]; reflexivity.
Qed.

Lemma stop_moves ms force ms' : stop_locked ms force = Some ms' ->
  terminal (state_of ms) = false /\ state_of ms' = SessionStateStopping.
Proof. unfold stop_locked, state_of; destruct (terminal _); [discriminate|]; intros [= <-]; auto. Qed.

Lemma monitor_moves ms now : moves (state_of ms) (state_of (monitor_locked ms now)).
Proof. unfold monitor_locked; fold (state_of ms); destruct (terminal (state_of ms)); [left | right; right; right; right]; reflexivity. Qed.

(** ** The supervisor's operations *)

Lemma state_put s id ms : session_state (put_session id ms s) id = Some (state_of ms).
Proof. unfold session_state; simpl; rewrite lookup_insert_eq; reflexivity. Qed.

Lemma state_put_ne s id id' ms : id <> id' -> session_state (put_session id ms s) id' = session_state s id'.
Proof. intros H; unfold session_state; simpl; rewrite lookup_insert_ne by exact H; reflexivity. Qed.

Lemma state_same s s' id : sessions s' = sessions s -> session_state s' id = session_state s id.
Proof. unfold session_state; intros ->; reflexivity. Qed.

(** Replacing a session by one whose state moved. *)
Lemma put_moves s s' i ms ms' id st :
  sessions s !! i = Some ms -> sessions s' = <[i := ms']> (sessions s) ->
  moves (state_of ms) (state_of ms') -> session_state s id = Some st ->
  exists st', session_state s' id = Some st' /\ moves st st'.
Proof.
  intros Hi Hs' Hm Hst; unfold session_state in *; rewrite Hs'.
  destruct (decide (i = id)) as [->|Hne].
  - rewrite lookup_insert_eq; rewrite Hi in Hst; injection Hst as <-; eexists; split; [reflexivity | exact Hm].
  - rewrite lookup_insert_ne by exact Hne; eexists; split; [exact Hst | apply moves_refl].
Qed.

Lemma same_moves s s' id st :
  sessions s' = sessions s -> session_state s id = Some st ->
  exists st', session_state s' id = Some st' /\ moves st st'.
Proof. intros H Hst; rewrite (state_same _ _ _ H); eauto using moves_refl. Qed.

Lemma sessions_commit s id st ms : sessions (put_session id ms (put_store st s)) = <[id := ms]> (sessions s).
Proof. reflexivity. Qed.

Lemma appendChunk_moves s i p c now id st :
  session_state s id = Some st ->
  exists st', session_state (fst (appendChunk s i p c now)) id = Some st' /\ moves st st'.
Proof.
  intros Hst; unfold appendChunk; destruct (sessions s !! i) as [ms|] eqn:Ei; [|eauto using moves_refl].
  set (s1 := if telemetry s then _ else _).
  assert (sessions s1 = sessions s) as Hs1 by (subst s1; destruct (telemetry s), c; reflexivity).
  destruct (appendChunkLocked _ _ _ _ _) as [[st' ms']|e|w] eqn:Ea; simpl;
    [|apply (same_moves s); assumption..].
  apply (put_moves s _ i ms ms'); auto; [simpl; rewrite Hs1; reflexivity|].
  left; eapply append_state, Ea.
Qed.

Lemma readLoop_moves s i d err now id st :
  session_state s id = Some st ->
  exists st', session_state (fst (readLoop s i d err now)) id = Some st' /\ moves st st'.
Proof.
  intros Hst; unfold readLoop.
  assert (exists st', session_state (fst (if 0 <? zlen d then appendChunk s i d ChunkTypeOutput now else (s, Ok tt))) id
     = Some st' /\ moves st st') as (st1 & Hst1 & Hm1)
    by (destruct (0 <? zlen d); [apply appendChunk_moves, Hst | eauto using moves_refl]).
  destruct (if 0 <? zlen d then _ else _) as [s1 [u|e|w]]; cbn [fst] in *; eauto.
  destruct err as [[|text]|]; eauto; destruct (sessions s1 !! i) as [ms|] eqn:Ei; eauto.
  destruct (read_error_locked ms text) as [b ms'] eqn:Er.
  assert (state_of ms' = state_of ms) as Hs
    by (unfold read_error_locked in Er; injection Er as <- <-; destruct (_ && _); reflexivity).
  exists st1; split; [|exact Hm1].
  assert (session_state (put_session i ms' s1) id = Some st1) as Hp.
  { destruct (decide (i = id)) as [->|Hne]; [|rewrite state_put_ne by exact Hne; exact Hst1].
    rewrite state_put, Hs; unfold session_state in Hst1; rewrite Ei in Hst1; exact Hst1. }
  destruct b; exact Hp.
Qed.

Ltac unchanged := apply (same_moves _ _ _ _ eq_refl); assumption.
Ltac one_session ms i := destruct (sessions _ !! i) as [ms|] eqn:?Ei; [|unchanged].

Lemma Attach_moves s i c after role now id st :
  no_writer_attach id (OpAttach i c after role now) -> session_state s id = Some st ->
  exists st', session_state (fst (Attach s i c after role now)) id = Some st' /\ moves st st'.
Proof.
  intros Hw Hst; unfold Attach; destruct (sessions s !! i) as [ms|] eqn:Ei.
  - destruct (attach_locked ms c after role now) as [[[a ms'] notes]|e|w] eqn:Ea; [|unchanged..]; simpl.
    assert (sessions (notifyControl notes (put_session i ms' s)) = <[i := ms']> (sessions s)) as Hs
      by (rewrite sessions_notify; reflexivity).
    destruct role; simpl in Hw.
    + exists st; split; [|apply moves_refl]; unfold session_state; rewrite Hs, lookup_insert_ne by exact Hw; exact Hst.
    + apply (put_moves s _ i ms ms'); auto; left; eapply attach_observer_state, Ea.
  - destruct (attachHistory s i c after) as [a|e|w]; [|destruct (bool_decide _)|]; unchanged.
Qed.

Lemma waitLoop_sessions s i w now ms :
  sessions s !! i = Some ms -> sessions (waitLoop s i w now) = <[i := wait_locked ms w now]> (sessions s).
Proof.
  intros Hi; unfold waitLoop; rewrite Hi; unfold persist; simpl; rewrite sessions_notify; simpl.
  destruct (telemetry s); reflexivity.
Qed.

Lemma Stop_sessions s i force ms ms' :
  sessions s !! i = Some ms -> stop_locked ms force = Some ms' ->
  sessions (fst (Stop s i force)) = <[i := ms']> (sessions s).
Proof.
  intros Hi Hk; unfold Stop; rewrite Hi, Hk.
  destruct (ms_recovered ms'); simpl; [rewrite sessions_notify; reflexivity|].
  destruct (ms_cmd ms'); simpl; [destruct (ms_stdin ms')|]; simpl; rewrite sessions_notify; reflexivity.
Qed.

Lemma Stop_moves s i force id st :
  session_state s id = Some st ->
  exists st', session_state (fst (Stop s i force)) id = Some st' /\ moves st st'.
Proof.
  intros Hst; destruct (sessions s !! i) as [ms|] eqn:Ei; [|unfold Stop; rewrite Ei; unchanged].
  destruct (stop_locked ms force) as [ms'|] eqn:Ek; [|unfold Stop; rewrite Ei, Ek; unchanged].
  destruct (stop_moves _ _ _ Ek) as [Ht Hs].
  apply (put_moves s _ i ms ms'); auto; [eapply Stop_sessions; eauto|]; right; right; right; left; auto.
Qed.

Lemma stop_recovered_moves s i pid force polls alive now id st :
  session_state s id = Some st ->
  exists st', session_state (stop_recovered_wait s i pid force polls alive now) id = Some st' /\ moves st st'.
Proof.
  intros Hst.
  assert (Hf : forall s', sessions s' = sessions s -> exists st', session_state (match sessions s' !! i with
      | None => s'
      | Some ms => let ms := recovered_stopped ms now in
                   notifyControl [ms_info ms] (persist (snapshotInfo ms) (put_session i ms s')) end) id = Some st' /\ moves st st').
  { intros s' Hs'; destruct (sessions s' !! i) as [ms|] eqn:Ei; [|apply (same_moves s); assumption].
    apply (put_moves s _ i ms (recovered_stopped ms now)); auto; [congruence| |right; right; right; right; reflexivity].
    rewrite sessions_notify; simpl; rewrite Hs'; reflexivity. }
  induction polls as [|[|] polls IH]; cbn [stop_recovered_wait]; auto.
  apply Hf; destruct (negb force && (0 <? pid) && alive); reflexivity.
Qed.

Lemma register_moves s cfg p pid now id st :
  session_state s id = Some st ->
  exists st', session_state (fst (start_register s cfg p pid now)) id = Some st' /\ moves st st'.
Proof.
  intros Hst; unfold start_register; destruct (shuttingDown s); [unchanged|].
  destruct (sessions s !! cfg_SessionID cfg) eqn:Ei; [unchanged|]; cbn [fst].
  exists st; split; [|apply moves_refl]; unfold session_state in *.
  assert (cfg_SessionID cfg <> id) as Hne by (intros Heq; rewrite <- Heq, Ei in Hst; discriminate).
  unfold persist; simpl; rewrite sessions_notify.
  destruct (telemetry _); simpl; rewrite lookup_insert_ne by exact Hne; exact Hst.
Qed.

(** Every operation but a writer attaching to the session moves its state only
    along [moves]. *)
Lemma exec_moves s o id st :
  no_writer_attach id o -> session_state s id = Some st ->
  exists st', session_state (fst (exec s o)) id = Some st' /\ moves st st'.
Proof.
  intros Hw Hst; destruct o; cbn [exec void fst] in *; auto using Attach_moves, appendChunk_moves,
    readLoop_moves, Stop_moves, stop_recovered_moves, register_moves.
  - unfold Detach; destruct (sessions s !! id0) as [ms|] eqn:Ei; [|unchanged].
    destruct (detach_locked ms c) as [[[w ms'] notes]|e|w] eqn:Ed; [|unchanged..]; simpl.
    apply (put_moves s _ id0 ms ms'); auto; [rewrite sessions_notify; reflexivity | eapply detach_moves, Ed].
  - unfold ClaimWriter; destruct (sessions s !! id0) as [ms|] eqn:Ei; [|unchanged].
    destruct (claim_locked ms c force) as [[p ms']|e|w] eqn:Ed; [|unchanged..]; simpl.
    apply (put_moves s _ id0 ms ms'); auto; eapply claim_moves, Ed.
  - unfold ReleaseWriter; destruct (sessions s !! id0) as [ms|] eqn:Ei; [|unchanged].
    destruct (release_locked ms c) as [ms'|e|w] eqn:Ed; [|unchanged..]; simpl.
    apply (put_moves s _ id0 ms ms'); auto; eapply release_moves, Ed.
  - unfold WriteInput; destruct (ValidateInputBytes _ _); [unchanged|].
    destruct (sessions s !! id0) as [ms|] eqn:Ei; [|unchanged]; destruct (input_guard ms c); [unchanged|]; simpl.
    apply (put_moves s _ id0 ms (with_lastActivity now ms)); auto; [|left; reflexivity].
    destruct io as [n [e|]], (telemetry s); reflexivity.
  - unfold Resize; destruct (sessions s !! id0) as [ms|] eqn:Ei; [|unchanged].
    set (s1 := if _ && _ then _ else s); assert (sessions s1 = sessions s) as Hs1 by (subst s1; destruct (_ && _); reflexivity).
    destruct (resize_locked _ _ _ _ _ _ _) as [[st' ms']|e|w] eqn:Ed; simpl; [|apply (same_moves s); assumption..].
    apply (put_moves s _ id0 ms ms'); auto; [simpl; rewrite Hs1; reflexivity | left; eapply resize_state, Ed].
  - unfold reader_closeLive; destruct (sessions s !! id0) as [ms|] eqn:Ei; [|unchanged].
    destruct (closeLive ms) as [ms'|e|w] eqn:Ed; [|unchanged..]; simpl.
    apply (put_moves s _ id0 ms ms'); auto; left; unfold closeLive in Ed; destruct (close_all _ _); inversion Ed; reflexivity.
  - unfold reader_done; destruct (sessions s !! id0) as [ms|] eqn:Ei; [|unchanged].
    destruct (signalReaderDone ms) as [ms'|e|w] eqn:Ed; [|unchanged..]; simpl.
    apply (put_moves s _ id0 ms ms'); auto; left; unfold signalReaderDone in Ed; destruct (ms_readerDone ms) as [[|]|]; inversion Ed; reflexivity.
  - destruct (sessions s !! id0) as [ms|] eqn:Ei; [|unfold waitLoop; rewrite Ei; unchanged].
    apply (put_moves s _ id0 ms (wait_locked ms w now)); auto using waitLoop_sessions.
    right; right; right; right; apply wait_terminal.
  - unfold stop_grace_over; destruct (sessions s !! id0) as [ms|]; [|unchanged].
    destruct (ms_cmd ms); [destruct (_ && _)|]; unchanged.
  - unfold monitor_gone; destruct (sessions s !! id0) as [ms|] eqn:Ei; [|unchanged].
    apply (put_moves s _ id0 ms (monitor_locked ms now)); auto using monitor_moves.
  - unfold UpdateInteraction; destruct (str_eqb _ _); [unchanged|].
    destruct (sessions s !! id0) as [ms|] eqn:Ei; [|unchanged]; simpl.
    eapply (put_moves s _ id0 ms); [exact Ei | rewrite sessions_notify; reflexivity | left; reflexivity | exact Hst].
  - unfold NotifyWriterClaimed, fanout; destruct (sessions s !! id0) as [ms|] eqn:Ei; [|unchanged].
    destruct (fanoutControlEvent ms _ _) as [ms'|e|w] eqn:Ed; [|unchanged..]; simpl.
    apply (put_moves s _ id0 ms ms'); auto; left; eapply fanout_state, Ed.
  - unfold NotifyWriterReleased, fanout; destruct (sessions s !! id0) as [ms|] eqn:Ei; [|unchanged].
    destruct (fanoutControlEvent ms _ _) as [ms'|e|w] eqn:Ed; [|unchanged..]; simpl.
    apply (put_moves s _ id0 ms ms'); auto; left; eapply fanout_state, Ed.
  - unfold receive; destruct (sessions s !! id0) as [ms|] eqn:Ei; [|unchanged].
    destruct (chan_recv _ _) as [[v h]|e|w] eqn:Ed; [|unchanged..]; simpl.
    eapply (put_moves s _ id0 ms); [exact Ei | reflexivity | left; reflexivity | exact Hst].
  - apply (same_moves s); [reflexivity | exact Hst].
Qed.

(** ** Stopping *)

Definition winding_down (st : SessionState) : Prop := st = SessionStateStopping \/ terminal st = true.

Lemma moves_winding_down st st' : moves st st' -> winding_down st -> winding_down st'.
Proof.
  unfold winding_down; intros [->|[[-> ->]|[[-> ->]|[[H ->]|H]]]] [Hs|Hs]; subst; auto; discriminate.
Qed.

Lemma exec_all_winding_down os s id st :
  Forall (no_writer_attach id) os -> session_state s id = Some st -> winding_down st ->
  exists st', session_state (exec_all s os) id = Some st' /\ winding_down st'.
Proof.
  intros Hos; revert s st; induction Hos as [|o os Ho Hos IH]; intros s st Hst Hw; [eauto|].
  destruct (exec_moves s o id st Ho Hst) as (st1 & Hst1 & Hm); cbn [exec_all].
  exact (IH _ _ Hst1 (moves_winding_down _ _ Hm Hw)).
Qed.

Lemma wait_stopping ms w now :
  state_of ms = SessionStateStopping -> state_of (wait_locked ms w now) = SessionStateStopped.
Proof.
  unfold wait_locked, state_of; intros ->; simpl; rewrite andb_false_r; destruct (wait_error w); reflexivity.
Qed.

Lemma stop_each_lookup force ids s k :
  NoDup ids ->
  sessions (stop_each force ids s) !! k =
  if bool_decide (k ∈ ids)
  then (fun ms => match stop_locked ms force with Some ms' => ms' | None => ms end) <$> sessions s !! k
  else sessions s !! k.
Proof.
  intros Hnd; revert s; induction Hnd as [|i ids Hi Hnd IH]; intros s;
    [rewrite bool_decide_eq_false_2 by set_solver; reflexivity|].
  unfold stop_each in *; cbn [fold_left]; rewrite IH.
  assert (sessions (fst (Stop s i force)) !! k = if bool_decide (k = i)
    then (fun ms => match stop_locked ms force with Some ms' => ms' | None => ms end) <$> sessions s !! k
    else sessions s !! k) as Hs.
  { destruct (sessions s !! i) as [ms|] eqn:Ei.
    - destruct (stop_locked ms force) as [ms'|] eqn:Ek.
      + rewrite (Stop_sessions s i force ms ms' Ei Ek); destruct (decide (k = i)) as [->|Hne].
        * rewrite lookup_insert_eq, bool_decide_eq_true_2, Ei by reflexivity; simpl; rewrite Ek; reflexivity.
        * rewrite lookup_insert_ne, bool_decide_eq_false_2 by congruence; reflexivity.
      + unfold Stop; rewrite Ei, Ek; simpl; destruct (bool_decide (k = i)) eqn:Eb; bool_to_prop; [|reflexivity].
        subst k; rewrite Ei; simpl; rewrite Ek; reflexivity.
    - unfold Stop; rewrite Ei; simpl; destruct (bool_decide (k = i)) eqn:Eb; bool_to_prop; [|reflexivity].
      subst k; rewrite Ei; reflexivity. }
  rewrite Hs; destruct (decide (k = i)) as [->|Hne].
  - rewrite bool_decide_eq_false_2 by exact Hi; rewrite !bool_decide_eq_true_2 by set_solver; reflexivity.
  - rewrite (bool_decide_eq_false_2 (k = i)) by exact Hne.
    destruct (decide (k ∈ ids)); [rewrite !bool_decide_eq_true_2 by set_solver | rewrite !bool_decide_eq_false_2 by set_solver];
      reflexivity.
Qed.

Lemma NoDup_session_ids (f : string * managedSession -> bool) (m : gmap string managedSession) :
  NoDup (map fst (List.filter f (map_to_list m))).
Proof.
  pose proof (NoDup_fst_map_to_list m) as H; revert H; generalize (map_to_list m).
  induction l as [|[k x] l IH]; intros H; [apply NoDup_nil_2|].
  simpl in H |- *; apply list.NoDup_cons in H as [Hk H].
  destruct (f (k, x)); simpl; [|auto]; apply NoDup_cons_2; [|auto].
  intros Hin; apply Hk; apply list_elem_of_fmap in Hin as ([k' x'] & -> & Hin); simpl in *.
  apply list_elem_of_In, List.filter_In in Hin as [Hin _].
  apply list_elem_of_fmap; exists (k', x'); split; [reflexivity | apply list_elem_of_In, Hin].
Qed.

Lemma elem_session_ids (f : string * managedSession -> bool) (m : gmap string managedSession) id :
  id ∈ map fst (List.filter f (map_to_list m)) <-> exists ms, m !! id = Some ms /\ f (id, ms) = true.
Proof.
  split.
  - intros Hin; apply list_elem_of_fmap in Hin as ([k x] & -> & Hin); apply list_elem_of_In, List.filter_In in Hin as [Hin Hf].
    exists x; split; [apply elem_of_map_to_list, list_elem_of_In, Hin | exact Hf].
  - intros (ms & Hm & Hf); apply list_elem_of_fmap; exists (id, ms); split; [reflexivity|].
    apply list_elem_of_In, List.filter_In; split; [apply list_elem_of_In, elem_of_map_to_list, Hm | exact Hf].
Qed.

(** ** Counting sessions *)

Definition count_sessions (f : string * managedSession -> bool) (m : gmap string managedSession) : Z :=
  zlen (List.filter f (map_to_list m)).

Lemma filter_permutation {A} (f : A -> bool) l k : l ≡ₚ k -> List.filter f l ≡ₚ List.filter f k.
Proof.
  induction 1 as [|x l k _ IH|x y l|l k m _ IH1 _ IH2]; simpl; auto.
  - destruct (f x); auto.
  - destruct (f x), (f y); auto; constructor.
  - etransitivity; eassumption.
Qed.

Lemma count_insert f m id ms :
  m !! id = None -> count_sessions f (<[id := ms]> m) = count_sessions f m + (if f (id, ms) then 1 else 0).
Proof.
  intros Hm; unfold count_sessions, zlen.
  rewrite (Permutation_length (filter_permutation f _ _ (map_to_list_insert m id ms Hm))); simpl.
  destruct (f (id, ms)); simpl; lia.
Qed.
End Lifecycle.

(** ** Loading persisted sessions *)

Section Boot.
Context `{E : Emulator} `{S : SessionStore}.

(** The session's process survived the restart. *)
Definition survives (alive : Z -> bool) (info : SessionInfo) : bool :=
  negb (terminal (info_State info)) && (0 <? info_ProcessID info) && alive (info_ProcessID info).

Definition boot_one (s : Supervisor) (info : SessionInfo) (alive : Z -> bool) (now : Time) : Supervisor :=
  load_infos s [info] alive now.

Lemma load_infos_cons s info infos alive now :
  load_infos s (info :: infos) alive now = load_infos (boot_one s info alive now) infos alive now.
Proof. reflexivity. Qed.

Lemma orphaned_id info now : info_SessionID (orphaned info now) = info_SessionID info.
Proof. unfold orphaned; simpl; destruct (str_eqb _ _); simpl; destruct (Time_IsZero _); reflexivity. Qed.

Lemma orphaned_failed info now : info_State (orphaned info now) = SessionStateFailed.
Proof. unfold orphaned; simpl; destruct (str_eqb _ _); simpl; destruct (Time_IsZero _); reflexivity. Qed.

Lemma boot_one_spec s info alive now :
  if survives alive info
  then sessions (boot_one s info alive now) = <[info_SessionID info := recovered_session s info now]> (sessions s) /\
       history (boot_one s info alive now) = history s
  else sessions (boot_one s info alive now) = sessions s /\
       history (boot_one s info alive now) =
         <[info_SessionID info := if terminal (info_State info) then info else orphaned info now]> (history s).
Proof.
  unfold boot_one, survives; cbn [load_infos]; destruct (terminal (info_State info)); simpl; [auto|].
  unfold recoverProcess; rewrite Z.leb_antisym.
  destruct (0 <? info_ProcessID info) eqn:Ep, (alive (info_ProcessID info)) eqn:Ea; simpl;
    rewrite ?orphaned_id; auto.
Qed.

Lemma load_infos_other infos s alive now id :
  id ∉ map info_SessionID infos ->
  sessions (load_infos s infos alive now) !! id = sessions s !! id /\
  history (load_infos s infos alive now) !! id = history s !! id.
Proof.
  revert s; induction infos as [|info infos IH]; intros s Hid; [auto|].
  rewrite load_infos_cons; cbn [map] in Hid; apply not_elem_of_cons in Hid as [Hne Hid].
  destruct (IH (boot_one s info alive now) Hid) as [-> ->].
  pose proof (boot_one_spec s info alive now) as Hb.
  destruct (survives alive info); destruct Hb as [-> ->]; rewrite ?lookup_insert_ne by congruence; auto.
Qed.

Definition accounted (s : Supervisor) (alive : Z -> bool) (now : Time) (info : SessionInfo) : Prop :=
  if survives alive info then
    history s !! info_SessionID info = None /\
    exists ms, sessions s !! info_SessionID info = Some ms /\ ms_recovered ms = true /\
      state_of ms = SessionStateRunning /\ info_ProcessID (ms_info ms) = info_ProcessID info
  else
    sessions s !! info_SessionID info = None /\
    exists h, history s !! info_SessionID info = Some h /\ terminal (info_State h) = true /\
      h = if terminal (info_State info) then info else orphaned info now.

Lemma load_infos_accounted infos s alive now :
  NoDup (map info_SessionID infos) -> 
  Forall (fun i => sessions s !! info_SessionID i = None /\ history s !! info_SessionID i = None) infos ->
  Forall (accounted (load_infos s infos alive now) alive now) infos.
Proof.
  revert s; induction infos as [|info infos IH]; intros s Hnd Hfree; [constructor|].
  cbn [map] in Hnd; apply list.NoDup_cons in Hnd as [Hi Hnd]; inversion Hfree as [|? ? [Hs Hh] Hfree']; subst.
  rewrite load_infos_cons; pose proof (boot_one_spec s info alive now) as Hb; constructor.
  - unfold accounted; destruct (load_infos_other infos (boot_one s info alive now) alive now _ Hi) as [-> ->].
    destruct (survives alive info); destruct Hb as [-> ->].
    + split; [exact Hh|]; rewrite lookup_insert_eq; eexists; split; [reflexivity|]; auto.
    + split; [exact Hs|]; rewrite lookup_insert_eq; eexists; split; [reflexivity|]; split; [|reflexivity].
      destruct (terminal (info_State info)) eqn:Et; [exact Et | rewrite orphaned_failed; reflexivity].
  - apply IH; [exact Hnd|]; revert Hfree' Hi; clear -Hb; intros Hfree Hi.
    apply Forall_forall; intros i Hin; rewrite Forall_forall in Hfree; destruct (Hfree i Hin) as [H1 H2].
    assert (info_SessionID info <> info_SessionID i) as Hne.
    { intros Heq; apply Hi; rewrite Heq; apply list_elem_of_fmap; exists i; split; [reflexivity | apply list_elem_of_In, Hin]. }
    destruct (survives alive info); destruct Hb as [-> ->]; rewrite ?lookup_insert_ne by exact Hne; auto.
Qed.
End Boot.

(** ** Theorems *)

(** C8. A stop is final: once a session is stopped (by force or not), then
    whatever operations follow in whatever order, short of a writer attaching
    to it, it is stopping or has ended; when its process exits, with whatever
    status, it counts as stopped and not as failed; and if it is still stopping
    when the grace period is over, its process group is killed. *)
Theorem stop_is_final `{E : Emulator} `{S : SessionStore} (s : Supervisor) (id : string) (force : bool) (os : list op) :
  session_is (fun ms => terminal (state_of ms) = false) s id ->
  Forall (no_writer_attach id) os ->
  let s1 := exec_all (fst (Stop s id force)) os in
  exists ms, sessions s1 !! id = Some ms /\ winding_down (state_of ms) /\
    (state_of ms = SessionStateStopping ->
     (forall w now, session_state (waitLoop s1 id w now) id = Some SessionStateStopped) /\
     (forall pid, ms_cmd ms = Some pid -> 0 < pid -> trace (stop_grace_over s1 id) = trace s1 ++ [EvKill pid])).
Proof.
  intros (ms & Hs & Ht) Hos s1.
  assert (exists st, session_state (fst (Stop s id force)) id = Some st /\ winding_down st) as (st & Hst & Hw).
  { destruct (stop_locked ms force) as [ms'|] eqn:Ek; [|unfold stop_locked in Ek; unfold state_of in Ht; rewrite Ht in Ek; discriminate].
    exists SessionStateStopping; split; [|left; reflexivity].
    unfold session_state; rewrite (Stop_sessions s id force ms ms' Hs Ek), lookup_insert_eq; simpl.
    f_equal; apply (stop_moves _ _ _ Ek). }
  destruct (exec_all_winding_down os _ id st Hos Hst Hw) as (st1 & Hst1 & Hw1); fold s1 in Hst1.
  unfold session_state in Hst1; destruct (sessions s1 !! id) as [ms1|] eqn:E1; [|discriminate].
  injection Hst1 as <-; exists ms1; split_and!; [reflexivity | exact Hw1 |]; intros Hstop; split.
  - intros w now; unfold session_state; rewrite (waitLoop_sessions s1 id w now ms1 E1), lookup_insert_eq; simpl.
    f_equal; apply wait_stopping, Hstop.
  - intros pid Hpid Hpos; unfold stop_grace_over; rewrite E1, Hpid; fold (state_of ms1); rewrite Hstop.
    rewrite (proj2 (Z.ltb_lt _ _)) by exact Hpos; reflexivity.
Qed.

(** Limits at start: a start that succeeds (without another one in between)
    was asked for a new identifier, on an allowed path, while not shutting
    down, adds exactly one running session under that identifier, and leaves
    the project and the daemon within their session limits; a start that fails
    leaves the sessions and the store as they were. *)
Theorem start_within_limits `{E : Emulator} `{S : SessionStore} (s s' : Supervisor) (wd : option (list Z))
    (cfg : SessionConfig) (r : spawn_result) (now : Time) (res : outcome SessionInfo) :
  Start s wd cfg r now = (s', res) ->
  match res with
  | Ok info =>
      info_SessionID info = cfg_SessionID cfg /\ info_State info = SessionStateRunning /\
      sessions s !! cfg_SessionID cfg = None /\ shuttingDown s = false /\
      ValidateRepoPath (policy s) wd (cfg_RepoPath cfg) = None /\
      (exists ms, sessions s' = <[cfg_SessionID cfg := ms]> (sessions s) /\ snapshotInfo ms = info) /\
      (0 < MaxPerProject (policy s) -> projectCount s' (cfg_ProjectID cfg) <= MaxPerProject (policy s)) /\
      (0 < MaxGlobal (policy s) -> globalCount s' <= MaxGlobal (policy s))
  | _ => sessions s' = sessions s /\ store s' = store s
  end.
Proof.
  unfold Start; intros H; destruct (start_check s wd cfg) as [e|] eqn:Ec; [injection H as <- <-; auto|].
  destruct (start_prepare s cfg) as [[cfg' p]|e|w] eqn:Ep; [|injection H as <- <-; auto..].
  assert (cfg_SessionID cfg' = cfg_SessionID cfg /\ cfg_ProjectID cfg' = cfg_ProjectID cfg) as [Hid Hpr].
  { revert Ep; clear; unfold start_prepare; destruct (repoSetup s) as [f|]; [destruct (f _ _)|];
      (try discriminate); destruct (resolveProvider _ _ _ _); try discriminate; intros [= <- <-]; auto. }
  destruct (prov_BuildCommand p cfg') as [e|]; [injection H as <- <-; auto|].
  assert (start_register s cfg' p (match r with Spawned pid => pid | _ => 0 end) now = (s', res) \/
          (exists e, res = Err e) /\ sessions s' = sessions s /\ store s' = store s) as [Hr|(( e & ->) & Hs & Hst)].
  { revert H; clear; unfold start_spawn; destruct (flag _), r; intros H;
      first [left; exact H | right; injection H as <- <-; eauto]. }
  2: { auto. }
  clear H; unfold start_check in Ec.
  destruct (str_eqb (cfg_SessionID cfg) ""), (str_eqb (cfg_ProjectID cfg) ""), (str_eqb (cfg_RepoPath cfg) ""); try discriminate.
  destruct (ValidateRepoPath (policy s) wd (cfg_RepoPath cfg)) eqn:Ev; [discriminate|].
  destruct (shuttingDown s) eqn:Esd; [discriminate|]; destruct (sessions s !! cfg_SessionID cfg) eqn:Es; [discriminate|].
  apply CheckSessionLimits_None in Ec as [Hp Hg].
  unfold start_register in Hr; rewrite Esd, Hid, Es in Hr; injection Hr as Hs' <-.
  set (ms := new_session s cfg' p _ now) in *.
  assert (sessions s' = <[cfg_SessionID cfg := ms]> (sessions s)) as Hsess.
  { rewrite <- Hs'; unfold persist; simpl; rewrite sessions_notify; destruct (telemetry s); reflexivity. }
  split_and!; auto; [exists ms; auto | |].
  - intros H0; specialize (Hp H0); unfold projectCount in *; rewrite Hsess.
    fold (count_sessions (fun e => counts_as_active (info_State (ms_info (snd e))) && str_eqb (info_ProjectID (ms_info (snd e))) (cfg_ProjectID cfg)) (<[cfg_SessionID cfg := ms]> (sessions s))).
    rewrite count_insert by exact Es; unfold count_sessions; destruct (_ && _); lia.
  - intros H0; specialize (Hg H0); unfold globalCount in *; rewrite Hsess.
    fold (count_sessions (fun e => counts_as_active (info_State (ms_info (snd e)))) (<[cfg_SessionID cfg := ms]> (sessions s))).
    rewrite count_insert by exact Es; unfold count_sessions; destruct (counts_as_active _); lia.
Qed.

(** The idle reaper stops exactly the idle sessions: with reaping enabled, a
    running session without any attached client whose last activity is older
    than the timeout becomes stopping; every other session, in particular one
    that is only being watched, is left exactly as it was. *)
Theorem reap_exactly_idle `{E : Emulator} `{S : SessionStore} (s : Supervisor) (now : Time) (id : string) :
  sessions (reapIdleSessions s now) !! id =
  (fun ms => if (0 <? idleTimeout s) && state_is (info_State (ms_info ms)) SessionStateRunning &&
                bool_decide (ms_observers ms = ∅) && (idleTimeout s <? now - ms_lastActivity ms)
             then with_forceStop false (on_info (set_State SessionStateStopping) ms) else ms)
  <$> sessions s !! id.
Proof.
  unfold reapIdleSessions; rewrite Z.leb_antisym; destruct (0 <? idleTimeout s); simpl;
    [|destruct (sessions s !! id); reflexivity].
  rewrite stop_each_lookup by apply NoDup_session_ids.
  destruct (sessions s !! id) as [ms|] eqn:Es; [|destruct (bool_decide _); reflexivity]; simpl.
  assert (idle_session s now ms = state_is (info_State (ms_info ms)) SessionStateRunning &&
    bool_decide (ms_observers ms = ∅) && (idleTimeout s <? now - ms_lastActivity ms)) as Hidle.
  { unfold idle_session; f_equal; f_equal; destruct (Z.eqb_spec (zlen (map_to_list (ms_observers ms))) 0) as [Hz|Hz].
    - symmetry; apply bool_decide_eq_true_2, map_to_list_empty_iff, zlen_0_nil, Hz.
    - symmetry; apply bool_decide_eq_false_2; intros Hn; apply Hz; rewrite Hn, map_to_list_empty; reflexivity. }
  rewrite <- Hidle; destruct (idle_session s now ms) eqn:Ei.
  - rewrite bool_decide_eq_true_2 by (apply elem_session_ids; eauto).
    apply andb_true_iff in Ei as [Ei _]; apply andb_true_iff in Ei as [Ei _]; unfold state_is in Ei; bool_to_prop.
    unfold stop_locked; rewrite Ei; reflexivity.
  - rewrite bool_decide_eq_false_2; [reflexivity|]; intros Hin; apply elem_session_ids in Hin as (ms' & Hms' & Hf).
    rewrite Es in Hms'; injection Hms' as <-; simpl in Hf; congruence.
Qed.

Lemma wait_all_ended `{E : Emulator} `{S : SessionStore} ticks :
  waitForAllSessions ticks = None ->
  exists t, In t ticks /\ forall id ms, sessions t !! id = Some ms -> terminal (state_of ms) = true.
Proof.
  induction ticks as [|t ticks IH]; [discriminate|]; cbn [waitForAllSessions].
  destruct (nonTerminalSessionIDs t) as [|i l] eqn:En.
  - intros _; exists t; split; [left; reflexivity|]; intros id ms Hs.
    destruct (terminal (state_of ms)) eqn:Et; [reflexivity|].
    assert (id ∈ nonTerminalSessionIDs t) as Hin
      by (apply elem_session_ids; exists ms; split; [exact Hs | simpl; fold (state_of ms); rewrite Et; reflexivity]).
    rewrite En in Hin; apply elem_of_nil in Hin; contradiction.
  - intros H; destruct (IH H) as (t' & Hin & Ht); exists t'; split; [right; exact Hin | exact Ht].
Qed.

(** Shutdown: its first phase turns every session that has not ended into a
    stopping one and touches no other; from then on no start can succeed; and
    it reports success only after it has seen a moment at which every session
    had ended. *)
Theorem shutdown_sound `{E : Emulator} `{S : SessionStore} (s : Supervisor) (run run' : Supervisor -> list Supervisor) :
  let s1 := stop_each false (nonTerminalSessionIDs (begin_shutdown s)) (begin_shutdown s) in
  (forall id, sessions s1 !! id =
     (fun ms => if terminal (state_of ms) then ms
                else with_forceStop false (on_info (set_State SessionStateStopping) ms)) <$> sessions s !! id) /\
  (forall s2 wd cfg r now info, shuttingDown s2 = true -> snd (Start s2 wd cfg r now) <> Ok info) /\
  (snd (Shutdown run run' s) = None ->
   exists t, In t (run s1) /\ forall id ms, sessions t !! id = Some ms -> terminal (state_of ms) = true).
Proof.
  intros s1; split_and!.
  - intros id; unfold s1; rewrite stop_each_lookup by apply NoDup_session_ids; simpl.
    destruct (sessions s !! id) as [ms|] eqn:Es; simpl; [|destruct (bool_decide _); reflexivity].
    unfold stop_locked; fold (state_of ms); destruct (terminal (state_of ms)) eqn:Et;
      [destruct (bool_decide _); reflexivity|].
    rewrite bool_decide_eq_true_2; [reflexivity|]; apply elem_session_ids; exists ms; split; [exact Es|].
    simpl; fold (state_of ms); rewrite Et; reflexivity.
  - intros s2 wd cfg r now info Hsd; destruct (Start s2 wd cfg r now) as [s' res] eqn:Est; simpl.
    intros ->; unfold Start, start_check in Est; rewrite Hsd in Est.
    destruct (str_eqb (cfg_SessionID cfg) ""), (str_eqb (cfg_ProjectID cfg) ""), (str_eqb (cfg_RepoPath cfg) "");
      try discriminate; destruct (ValidateRepoPath _ _ _); discriminate.
  - unfold Shutdown; fold s1; destruct (waitForAllSessions (run s1)) eqn:Ew; [discriminate|].
    intros _; apply wait_all_ended, Ew.
Qed.

(** A restart accounts for every persisted session: one whose process is
    still alive becomes a running recovered session, one that had ended is kept
    in the history as it was, and any other is put in the history as failed. *)
Theorem restart_accounts_for_all `{E : Emulator} `{S : SessionStore} (s : Supervisor) (st : St)
    (infos : list SessionInfo) (alive : Z -> bool) (now : Time) :
  store s = Some st -> sessions s = ∅ -> history s = ∅ ->
  store_LoadAll st = (infos, None) -> NoDup (map info_SessionID infos) ->
  snd (LoadHistory s alive now) = None /\
  Forall (accounted (fst (LoadHistory s alive now)) alive now) infos.
Proof.
  intros Hst Hs Hh Hl Hnd; unfold LoadHistory; rewrite Hst, Hl; split; [reflexivity|].
  apply load_infos_accounted; [exact Hnd|]; apply Forall_forall; intros i _; rewrite Hs, Hh, !lookup_empty; auto.
Qed.

(** Queries agree: without a project filter, a session is listed with some
    metadata exactly when asking for it by identifier returns that metadata;
    a session both live and in the history is reported once, as live. *)
Theorem list_is_all_gets `{E : Emulator} `{S : SessionStore} (s : Supervisor) (info : SessionInfo) :
  In info (ListSessions s "") <-> exists id, GetSession s id = Ok info.
Proof.
  unfold ListSessions, GetSession, not_found.
  assert (forall l, List.filter (in_project "") l = l) as Hf by (intros l; apply filter_all, Forall_true; reflexivity).
  rewrite !Hf, in_app_iff, !in_map_iff; split.
  - intros [([k ms] & <- & Hin)|([k i] & <- & Hin)].
    + exists k; apply list_elem_of_In, elem_of_map_to_list in Hin; simpl; rewrite Hin; reflexivity.
    + apply List.filter_In in Hin as [Hin Hl]; simpl in Hl; bool_to_prop.
      apply list_elem_of_In, elem_of_map_to_list in Hin; exists k.
      destruct (sessions s !! k); [destruct Hl; eauto|]; rewrite Hin; reflexivity.
  - intros (k & Hk); destruct (sessions s !! k) as [ms|] eqn:Es.
    + injection Hk as <-; left; exists (k, ms); split; [reflexivity | apply list_elem_of_In, elem_of_map_to_list, Es].
    + destruct (history s !! k) as [i|] eqn:Eh; [|discriminate]; injection Hk as <-; right; exists (k, i).
      split; [reflexivity|]; apply List.filter_In; split; [apply list_elem_of_In, elem_of_map_to_list, Eh|].
      simpl; rewrite Es; reflexivity.
Qed.

(** ** The theorems on a concrete daemon *)

Section Sample.
#[local] Existing Instance echo_emulator.
#[local] Existing Instance log_bolt.

Definition running : Supervisor (S := BoltSessionStore) :=
  sample_state [OpRegister (sample_cfg "s1") sample_provider 7 10].

Lemma stop_is_final_witness :
  exists ms, sessions (exec_all (fst (Stop running "s1" false)) [OpAttach "s1" "b" 0 AttachRoleObserver 20]) !! "s1"%string
    = Some ms /\ winding_down (state_of ms).
Proof.
  destruct (stop_is_final running "s1" false [OpAttach "s1" "b" 0 AttachRoleObserver 20]) as (ms & H1 & H2 & _).
  - destruct (sessions running !! "s1"%string) as [ms|] eqn:Es; [|vm_compute in Es; discriminate].
    exists ms; split; [exact Es | vm_compute in Es; injection Es as <-; reflexivity].
  - repeat constructor.
  - exists ms; split; assumption.
Defined.

Lemma start_within_limits_witness :
  globalCount (fst (Start sample_boot None (sample_cfg "s1") (Spawned 7) 10)) <= MaxGlobal sample_policy.
Proof.
  assert (match snd (Start sample_boot None (sample_cfg "s1") (Spawned 7) 10) with Ok _ => true | _ => false end = true)
    as Hok by (vm_compute; reflexivity).
  destruct (Start sample_boot None (sample_cfg "s1") (Spawned 7) 10) as [s' res] eqn:Est; cbn [snd fst] in *.
  pose proof (start_within_limits _ _ _ _ _ _ _ Est) as H; destruct res as [info|e|w]; [|discriminate Hok..].
  destruct H as (_ & _ & _ & _ & _ & _ & _ & Hg).
  assert (policy sample_boot = sample_policy) as Hp by (vm_compute; reflexivity).
  rewrite Hp in Hg; apply Hg; reflexivity.
Defined.

Definition sample_info (id : string) (pid : Z) : SessionInfo :=
  MkInfo id "proj" "echo" "/repo" SessionStateRunning pid 1 0 "" false "" false false 0 0 0 80 24 "" 0
    zero_interaction no_capabilities.

Definition sample_saved : list SessionInfo := [sample_info "x" 3; sample_info "y" 4].

Lemma restart_accounts_for_all_witness :
  let st := fold_left (fun st i => fst (store_Save (SessionStore := BoltSessionStore) st i)) sample_saved [] in
  let s := NewSupervisor (S := BoltSessionStore) ∅ sample_policy 1024 0 (Some st) None false false in
  Forall (accounted (fst (LoadHistory s (fun pid => pid =? 3) 50)) (fun pid => pid =? 3) 50) sample_saved.
Proof.
  intros st s.
  apply (restart_accounts_for_all s st sample_saved (fun pid => pid =? 3) 50).
  - reflexivity.
  - reflexivity.
  - reflexivity.
  - vm_compute; reflexivity.
  - apply (bool_decide_unpack _); vm_compute; exact I.
Defined.

(** ** What the code does against its intent *)

(** A writer attaching during the grace period of a stop cancels it: the state
    returns to attached, the timer no longer kills the process, and an exit by
    the signal is then recorded as a failure. *)
Lemma writer_attach_cancels_stop :
  let s := exec_all running [OpStop "s1" false; OpAttach "s1" "a" 0 AttachRoleWriter 20] in
  trace (stop_grace_over s "s1") = trace s /\
  session_state (waitLoop s "s1" (WaitExit (-1) "signal: terminated") 30) "s1" = Some SessionStateFailed.
Proof. vm_compute; split; reflexivity. Qed.

(** A writer attaching to a session that has ended makes it attached again, and
    nothing can undo it: the writer cannot detach, another cannot take over
    without force, and the session never counts as ended. *)
Lemma writer_attach_revives_ended_session :
  let s := exec_all running [OpCloseLive "s1"; OpReaderDone "s1"; OpWait "s1" WaitOK 30;
                             OpAttach "s1" "a" 0 AttachRoleWriter 40] in
  session_state s "s1" = Some SessionStateAttached /\
  snd (Detach s "s1" "a") = Err (Sentinel ErrClientMismatch) /\
  snd (Attach s "s1" "b" 0 AttachRoleWriter 41) = Err (Sentinel ErrWriterConflict) /\
  nonTerminalSessionIDs s = ["s1"%string].
Proof. vm_compute; repeat split; reflexivity. Qed.

(** Two starts that both pass the limit check before either registers exceed
    the limit. *)
Lemma concurrent_starts_exceed_limit :
  let s := sample_state [OpRegister (sample_cfg "s1") sample_provider 7 10] in
  let s2 := exec_all s [OpRegister (sample_cfg "s2") sample_provider 8 10;
                        OpRegister (sample_cfg "s3") sample_provider 9 10] in
  start_check s None (sample_cfg "s2") = None /\ start_check s None (sample_cfg "s3") = None /\
  MaxPerProject (policy s2) < projectCount s2 "proj".
Proof. vm_compute; repeat split; reflexivity. Qed.
End Sample.
