(* ===== verification/Streams.v ===== *)
(** * Input authority and output streams

    Who may type into a session and how the right moves between clients, and
    what a client receives: the replay it gets when it attaches joins its live
    channel without a gap or a repeat, whatever the other clients of the
    session do meanwhile; and the ring a restarted daemon rebuilds. *)

From S2P Require Import Prelude Types ByteBuf GoStd Policy Registry Screen Store Session SessionInv Supervisor Reach.

(** ** A client's subscription *)

Section Streams.
Context `{E : Emulator} `{S : SessionStore}.

(** Operations on one session while client [c] is attached: output, control
    events and resizes, other clients coming and going, the writer role moving,
    and [c] draining its channel. *)
Inductive sop :=
| SAppend (payload : bytes) (ctype : ChunkType) (now : Time)
| SControl (ctype : ChunkType) (payload : bytes)
| SResize (by_client : string) (cols rows : Z) (now : Time)
| SAttach (other : string) (after : Z) (role : AttachRole) (now : Time)
| SDetach (other : string)
| SClaim (by_client : string) (force : bool)
| SRelease (by_client : string)
| SReceive.

(** The session and the store, what the client has received so far, the chunks
    appended since it attached, and whether its channel was ever full when
    something was sent. *)
Record sub := MkSub {
  sub_store : option St;
  sub_ms : managedSession;
  sub_received : list OutputChunk;
  sub_appended : list OutputChunk;
  sub_dropped : bool;
}.

Definition queue_of (ms : managedSession) (n : nat) : list OutputChunk :=
  match ms_chans ms !! n with Some ch => ch_queue ch | None => [] end.

Definition full (ms : managedSession) (n : nat) : bool := 128 <=? zlen (queue_of ms n).

(** The chunk an append of this session creates. *)
Definition next_chunk (ms : managedSession) (payload : bytes) (ctype : ChunkType) (now : Time) : OutputChunk :=
  fst (AppendSized (ms_buf ms) payload ctype (info_Cols (ms_info ms)) (info_Rows (ms_info ms)) now).

Definition do_append (n : nat) (x : sub) (ms : managedSession) (payload : bytes) (ctype : ChunkType) (now : Time) : sub :=
  if ms_liveClosed ms then MkSub (sub_store x) ms (sub_received x) (sub_appended x) (sub_dropped x)
  else match appendChunkLocked (sub_store x) ms payload ctype now with
       | Ok (st, ms') => MkSub st ms' (sub_received x) (sub_appended x ++ [next_chunk ms payload ctype now])
                               (sub_dropped x || full ms n)
       | _ => x
       end.

Definition set_session (x : sub) (ms : managedSession) : sub :=
  MkSub (sub_store x) ms (sub_received x) (sub_appended x) (sub_dropped x).

(** One operation; a refused one changes nothing. *)
Definition sexec (c : string) (n : nat) (x : sub) (o : sop) : sub :=
  let ms := sub_ms x in
  match o with
  | SAppend p t now => do_append n x ms p t now
  | SControl t p => match fanoutControlEvent ms t p with
                    | Ok ms' => MkSub (sub_store x) ms' (sub_received x) (sub_appended x)
                                      (sub_dropped x || (negb (ms_liveClosed ms) && full ms n))
                    | _ => x
                    end
  | SResize b cols rows now =>
      match resize_locked (sub_store x) ms b cols rows None now with
      | Ok _ =>
          let resized := with_lastActivity now (on_info (fun i => set_Rows rows (set_Cols cols i)) ms) in
          if ms_streamJSON ms then set_session x resized else do_append n x resized [] ChunkTypeOutput now
      | _ => x
      end
  | SAttach d after role now => match attach_locked ms d after role now with
                                | Ok (_, ms', _) => set_session x ms'
                                | _ => x
                                end
  | SDetach d => match detach_locked ms d with Ok (_, ms', _) => set_session x ms' | _ => x end
  | SClaim d force => match claim_locked ms d force with Ok (_, ms') => set_session x ms' | _ => x end
  | SRelease d => match release_locked ms d with Ok ms' => set_session x ms' | _ => x end
  | SReceive => match chan_recv (ms_chans ms) n with
                | Ok (Some v, h) => MkSub (sub_store x) (with_chans h ms) (sub_received x ++ [v])
                                          (sub_appended x) (sub_dropped x)
                | _ => x
                end
  end.

Definition srun (c : string) (n : nat) (x : sub) (os : list sop) : sub := fold_left (sexec c n) os x.

(** The operations of the other clients do not use this client's identifier,
    and identifiers are not empty. *)
Definition others_ok (c : string) (o : sop) : Prop :=
  match o with
  | SAttach d _ _ _ => d <> c /\ d <> ""%string
  | SDetach d => d <> c
  | SClaim d _ => d <> ""%string
  | SAppend _ t _ => t = ChunkTypeOutput \/ t = ChunkTypeThinking
  | SControl t _ => t = ChunkTypeWriterClaimed \/ t = ChunkTypeWriterReleased
  | _ => True
  end.

(** Terminal output, without the control events. *)
Definition is_output (c : OutputChunk) : bool :=
  match Type_ c with ChunkTypeOutput | ChunkTypeThinking => true | _ => false end.

Definition outputs (l : list OutputChunk) : list OutputChunk := List.filter is_output l.

(** [sublist l k]: [l] is [k] with some elements left out. *)
Fixpoint sublist_of (l k : list OutputChunk) : Prop :=
  match k with
  | [] => l = []
  | y :: k' => sublist_of l k' \/ exists l', l = y :: l' /\ sublist_of l' k'
  end.

(** ** The subscription invariant *)

Record sub_inv (c : string) (n : nat) (base : Z) (x : sub) : Prop := {
  si_session : session_inv (sub_ms x);
  si_entry : exists e, ms_observers (sub_ms x) !! c = Some e /\ oe_ch e = n;
  si_seq : contiguous (base + 1) (sub_appended x);
  si_next : nextSeq (ms_buf (sub_ms x)) = base + 1 + zlen (sub_appended x);
  si_sub : sublist_of (outputs (sub_received x ++ queue_of (sub_ms x) n)) (sub_appended x);
  si_all : sub_dropped x = false -> outputs (sub_received x ++ queue_of (sub_ms x) n) = sub_appended x;
}.

Lemma outputs_app l k : outputs (l ++ k) = outputs l ++ outputs k.
Proof. apply List.filter_app. Qed.

Lemma sublist_refl l : sublist_of l l.
Proof. induction l as [|x l IH]; simpl; [reflexivity | right; eauto]. Qed.

Lemma sublist_nil k : sublist_of [] k.
Proof. induction k as [|y k IH]; simpl; auto. Qed.

Lemma sublist_snoc_r l k y : sublist_of l k -> sublist_of l (k ++ [y]).
Proof.
  revert l; induction k as [|z k IH]; intros l; simpl.
  - intros ->; left; reflexivity.
  - intros [H|(l' & -> & H)]; [left | right]; eauto.
Qed.

Lemma sublist_snoc l k y : sublist_of l k -> sublist_of (l ++ [y]) (k ++ [y]).
Proof.
  revert l; induction k as [|z k IH]; intros l; simpl.
  - intros ->; right; exists []; split; reflexivity.
  - intros [H|(l' & -> & H)]; [left; apply IH, H | right; exists (l' ++ [y]); split; [reflexivity | apply IH, H]].
Qed.

(** *** What other clients' operations leave alone *)

Lemma attach_frame ms d after role now a ms' notes c e :
  session_inv ms -> d <> c -> d <> ""%string -> ms_observers ms !! c = Some e ->
  attach_locked ms d after role now = Ok (a, ms', notes) ->
  ms_observers ms' !! c = Some e /\ ms_chans ms' !! oe_ch e = ms_chans ms !! oe_ch e /\ ms_buf ms' = ms_buf ms.
Proof.
  intros I Hdc Hd He; unfold attach_locked; destruct (ms_recovered ms); [intros [= <- <- <-]; auto|].
  destruct (_ && _); [discriminate|].
  pose proof (evict_stale_spec ms d I) as Hev; destruct (evict_stale ms d) as [ms1|x|w]; [|discriminate..].
  destruct Hev as (_ & Hobs & Hlive & _ & Hnext & _ & _ & _ & Hbuf & _ & Hother).
  specialize (Hother c e (not_eq_sym Hdc) He).
  destruct (make_live ms1 d role) as [lv ms2] eqn:Em.
  assert (ms_observers ms2 !! c = Some e /\ ms_chans ms2 !! oe_ch e = ms_chans ms !! oe_ch e /\ ms_buf ms2 = ms_buf ms) as H2.
  { unfold make_live in Em; destruct (ms_liveClosed ms1); injection Em as <- <-; simpl.
    - rewrite Hobs, lookup_delete_ne by exact Hdc; auto.
    - rewrite Hobs, lookup_insert_ne, lookup_delete_ne by exact Hdc; split_and!; auto.
      rewrite lookup_insert_ne; [exact Hother|]; intros Heq; destruct (inv_chan _ I c e He) as (ch & Hch & _).
      apply (inv_fresh _ I) in Hch; lia. }
  destruct role; simpl; (destruct (ms_screen ms2) as [scr|]; [destruct (checkpoint scr _)|]);
    intros [= <- <- <-]; exact H2.
Qed.

Lemma detach_frame ms d w ms' notes c e :
  d <> c -> ms_observers ms !! c = Some e -> detach_locked ms d = Ok (w, ms', notes) ->
  ms_observers ms' !! c = Some e /\ ms_chans ms' = ms_chans ms /\ ms_buf ms' = ms_buf ms.
Proof.
  intros Hdc He; unfold detach_locked; destruct (ms_recovered ms); [intros [= <- <- <-]; auto|].
  destruct (ms_observers ms !! d); [|discriminate].
  set (ms1 := on_info _ (if str_eqb _ _ then _ else _)).
  assert (ms_observers ms1 !! c = Some e /\ ms_chans ms1 = ms_chans ms /\ ms_buf ms1 = ms_buf ms) as H1.
  { subst ms1; simpl; destruct (str_eqb _ _); simpl; rewrite lookup_delete_ne by exact Hdc; auto. }
  destruct (_ && _); intros [= <- <- <-]; exact H1.
Qed.

(** Entries keep their channel, whatever role they are given. *)
Definition keeps (ms ms' : managedSession) : Prop :=
  same_entries ms ms' /\ ms_chans ms' = ms_chans ms /\ ms_buf ms' = ms_buf ms.

Lemma set_role_keeps r c ms : keeps ms (set_role r c ms).
Proof. destruct (set_role_rest r c ms) as (_ & ? & _ & _ & _ & _ & _ & ?); split; [apply set_role_entries | auto]. Qed.

Lemma keeps_trans a b c : keeps a b -> keeps b c -> keeps a c.
Proof. intros (H1 & H2 & H3) (K1 & K2 & K3); split; [intros d; rewrite (K1 d); apply H1 | split; congruence]. Qed.

Lemma keeps_on_info f ms : keeps ms (on_info f ms).
Proof. repeat split. Qed.

Lemma claim_frame ms d force p ms' : claim_locked ms d force = Ok (p, ms') -> keeps ms ms'.
Proof.
  unfold claim_locked; destruct (ms_recovered ms); [discriminate|].
  destruct (str_eqb _ d); [intros [= <- <-]; repeat split|].
  destruct (_ && _); [discriminate|]; destruct (ms_observers ms !! d); [|discriminate].
  intros [= <- <-]; eapply keeps_trans; [|apply keeps_on_info].
  destruct (state_is _ _); [eapply keeps_trans; [|apply keeps_on_info]|];
    (eapply keeps_trans; [|apply keeps_on_info]); eapply keeps_trans; apply set_role_keeps.
Qed.

Lemma release_frame ms d ms' : release_locked ms d = Ok ms' -> keeps ms ms'.
Proof.
  unfold release_locked; destruct (ms_recovered ms); [intros [= <-]; repeat split|].
  destruct (negb _); [discriminate|]; destruct (_ && _); intros [= <-];
    [do 3 (eapply keeps_trans; [|apply keeps_on_info]) | do 2 (eapply keeps_trans; [|apply keeps_on_info])];
    apply set_role_keeps.
Qed.

(** *** Output *)

Lemma AppendSized_chunk b p t cols rows now :
  fst (AppendSized b p t cols rows now) = MkChunk cols rows (nextSeq b) now p t /\
  nextSeq (snd (AppendSized b p t cols rows now)) = u64 (nextSeq b + 1).
Proof. unfold AppendSized; simpl; destruct (evict _ _ _); split; reflexivity. Qed.

(** An append numbers the chunk, keeps the entries and pushes the chunk to
    every attached client's channel. *)
Lemma append_frame st ms p t now :
  session_inv ms -> ms_liveClosed ms = false ->
  exists st' ms', appendChunkLocked st ms p t now = Ok (st', ms') /\ session_inv ms' /\
    ms_observers ms' = ms_observers ms /\
    ms_buf ms' = snd (AppendSized (ms_buf ms) p t (info_Cols (ms_info ms)) (info_Rows (ms_info ms)) now) /\
    forall c e, ms_observers ms !! c = Some e ->
      ms_chans ms' !! oe_ch e = push (next_chunk ms p t now) <$> ms_chans ms !! oe_ch e.
Proof.
  intros I El; unfold appendChunkLocked, next_chunk; rewrite El.
  destruct (AppendSized _ _ _ _ _ _) as [chunk buf]; set (ms1 := with_lastActivity now _).
  assert (shape ms1 = shape ms /\ ms_buf ms1 = buf /\ ms_observers ms1 = ms_observers ms /\
          ms_chans ms1 = ms_chans ms /\ ms_liveClosed ms1 = ms_liveClosed ms) as (Hsh & Hb & Ho & Hc & Hl)
    by (subst ms1; simpl; destruct (ms_screen ms), t; auto).
  pose proof (inv_shape _ _ Hsh I) as I1.
  destruct (inv_send ms1 chunk I1 ltac:(congruence)) as (h & -> & I2 & Hh).
  do 2 eexists; split; [reflexivity|]; split_and!; auto; intros c e He; simpl; rewrite Hh, Hc.
  rewrite bool_decide_eq_true_2; [reflexivity|]; apply observer_chan_elem; exists c, e; rewrite Ho; auto.
Qed.

Lemma push_queue ms n ch v :
  session_inv ms -> ms_chans ms !! n = Some ch ->
  ch_queue (push v ch) = if full ms n then queue_of ms n else queue_of ms n ++ [v].
Proof.
  intros I Hn; destruct (inv_fresh _ I n ch Hn) as (_ & Hc & Hq); unfold push, full, queue_of; rewrite Hn, Hc.
  rewrite Z.leb_antisym; destruct (zlen (ch_queue ch) <? 128); reflexivity.
Qed.

Lemma queue_lookup ms n ch : ms_chans ms !! n = Some ch -> queue_of ms n = ch_queue ch.
Proof. unfold queue_of; intros ->; reflexivity. Qed.

(** *** Preservation *)

(** An operation that leaves the client's channel and the ring alone. *)
Lemma sub_inv_frame c n base x ms' :
  sub_inv c n base x -> session_inv ms' ->
  (exists e, ms_observers ms' !! c = Some e /\ oe_ch e = n) ->
  ms_chans ms' !! n = ms_chans (sub_ms x) !! n -> ms_buf ms' = ms_buf (sub_ms x) ->
  sub_inv c n base (set_session x ms').
Proof.
  intros [I Hent Hq Hn Hs Ha] I' He Hc Hb; split; simpl; auto; rewrite ?Hb; auto;
    unfold queue_of in *; rewrite Hc; assumption.
Qed.

Lemma sub_inv_append c n base x ms p t now :
  sub_inv c n base x -> keeps (sub_ms x) ms -> session_inv ms -> t = ChunkTypeOutput \/ t = ChunkTypeThinking ->
  base + 1 + zlen (sub_appended x) + 1 < two64 -> 0 <= base ->
  sub_inv c n base (do_append n x ms p t now).
Proof.
  intros [I (e & He & Hen) Hq Hn Hs Ha] (Hk & Hc & Hb) I' Ht Hlt H0.
  specialize (Hk c); rewrite He in Hk; destruct (ms_observers ms !! c) as [e'|] eqn:He'; [|discriminate].
  injection Hk as Hk; rewrite Hen in Hk.
  assert (Hqs : queue_of ms n = queue_of (sub_ms x) n) by (unfold queue_of; rewrite Hc; reflexivity).
  unfold do_append; destruct (ms_liveClosed ms) eqn:El.
  { split; simpl; auto; [eauto | rewrite Hb; exact Hn | rewrite Hqs; exact Hs | rewrite Hqs; exact Ha]. }
  destruct (append_frame (sub_store x) ms p t now I' El) as (st' & ms' & -> & I2 & Ho & Hbuf & Hch).
  specialize (Hch c e' He'); rewrite Hk in Hch.
  destruct (inv_chan _ I' c e' He') as (ch & Hchn & _); rewrite Hk in Hchn; rewrite Hchn in Hch; simpl in Hch.
  pose proof (AppendSized_chunk (ms_buf ms) p t (info_Cols (ms_info ms)) (info_Rows (ms_info ms)) now) as [Hck Hnx].
  assert (Hout : is_output (next_chunk ms p t now) = true) by (unfold next_chunk; rewrite Hck; destruct Ht; subst; reflexivity).
  assert (Hseq : Seq (next_chunk ms p t now) = base + 1 + zlen (sub_appended x))
    by (unfold next_chunk; rewrite Hck, Hb; exact Hn).
  assert (Hqn : queue_of ms' n = if full ms n then queue_of (sub_ms x) n else queue_of (sub_ms x) n ++ [next_chunk ms p t now])
    by (rewrite (queue_lookup _ _ _ Hch), (push_queue ms n ch _ I' Hchn), Hqs; reflexivity).
  pose proof (zlen_nonneg (sub_appended x)).
  split; simpl; auto.
  - exists e'; rewrite Ho; auto.
  - apply contiguous_snoc; auto.
  - rewrite Hbuf, Hnx, Hb, Hn, u64_small, zlen_app, zlen_cons, zlen_nil by lia; lia.
  - rewrite Hqn; destruct (full ms n); [apply sublist_snoc_r, Hs|].
    rewrite app_assoc, outputs_app; unfold outputs at 2; simpl; rewrite Hout; apply sublist_snoc, Hs.
  - rewrite Hqn; destruct (full ms n); [rewrite orb_true_r; discriminate|]; rewrite orb_false_r; intros Hd.
    rewrite app_assoc, outputs_app, (Ha Hd); unfold outputs; simpl; rewrite Hout; reflexivity.
Qed.

Lemma sub_inv_control c n base x t p ms' :
  sub_inv c n base x -> t = ChunkTypeWriterClaimed \/ t = ChunkTypeWriterReleased ->
  fanoutControlEvent (sub_ms x) t p = Ok ms' ->
  sub_inv c n base (MkSub (sub_store x) ms' (sub_received x) (sub_appended x)
                          (sub_dropped x || (negb (ms_liveClosed (sub_ms x)) && full (sub_ms x) n))).
Proof.
  intros [I (e & He & Hen) Hq Hn Hs Ha] Ht; unfold fanoutControlEvent.
  destruct (ms_liveClosed (sub_ms x)) eqn:El; simpl.
  { intros [= <-]; split; simpl; eauto; intros Hd; rewrite orb_false_r in Hd; auto. }
  set (v := MkChunk 0 0 0 0 p t); destruct (inv_send (sub_ms x) v I El) as (h & -> & I2 & Hh); intros [= <-].
  destruct (inv_chan _ I c e He) as (ch & Hch & _); rewrite Hen in Hch.
  assert (Hv : outputs [v] = []) by (unfold outputs, v; destruct Ht; subst; reflexivity).
  assert (Hqn : outputs (queue_of (with_chans h (sub_ms x)) n) = outputs (queue_of (sub_ms x) n)).
  { specialize (Hh n); rewrite bool_decide_eq_true_2, Hch in Hh by (apply observer_chan_elem; eauto); simpl in Hh.
    rewrite (queue_lookup (with_chans h (sub_ms x)) n _ Hh), (push_queue _ _ _ v I Hch).
    destruct (full _ _); [reflexivity|]; rewrite outputs_app, Hv, app_nil_r; reflexivity. }
  split; simpl; eauto.
  - rewrite outputs_app, Hqn, <- outputs_app; exact Hs.
  - intros Hd; apply orb_false_iff in Hd as [Hd _]; rewrite outputs_app, Hqn, <- outputs_app; auto.
Qed.

Lemma sub_inv_receive c n base x v h :
  sub_inv c n base x -> chan_recv (ms_chans (sub_ms x)) n = Ok (Some v, h) ->
  sub_inv c n base (MkSub (sub_store x) (with_chans h (sub_ms x)) (sub_received x ++ [v]) (sub_appended x) (sub_dropped x)).
Proof.
  intros [I He Hq Hn Hs Ha] Hr; pose proof (recv_inv _ _ _ _ I Hr) as I2; unfold chan_recv in Hr.
  destruct (ms_chans (sub_ms x) !! n) as [ch|] eqn:Ech; [|discriminate].
  destruct (ch_queue ch) as [|v' r] eqn:Eq; [destruct (ch_closed ch); discriminate|]; injection Hr as <- <-.
  assert ((sub_received x ++ [v']) ++ queue_of (with_chans (<[n := MkChan (ch_cap ch) r (ch_closed ch)]> (ms_chans (sub_ms x))) (sub_ms x)) n
          = sub_received x ++ queue_of (sub_ms x) n) as Heq.
  { unfold queue_of at 1; simpl; rewrite lookup_insert_eq, (queue_lookup _ _ _ Ech), Eq, <- app_assoc; reflexivity. }
  split; simpl; auto; rewrite Heq; auto.
Qed.

Lemma do_append_appended n x ms p t now :
  zlen (sub_appended (do_append n x ms p t now)) <= zlen (sub_appended x) + 1.
Proof.
  unfold do_append; destruct (ms_liveClosed ms); simpl; [lia|].
  destruct (appendChunkLocked _ _ _ _ _) as [[st ms']|e|w]; simpl; autorewrite with bridge; lia.
Qed.

Lemma sexec_appended c n x o : zlen (sub_appended (sexec c n x o)) <= zlen (sub_appended x) + 1.
Proof.
  destruct o; cbn [sexec]; try (repeat (case_goal; simpl); try lia; fail).
  - apply do_append_appended.
  - destruct (resize_locked _ _ _ _ _ _ _); try lia.
    destruct (ms_streamJSON _); [simpl; lia | apply do_append_appended].
Qed.

Lemma sexec_inv c n base x o :
  sub_inv c n base x -> others_ok c o -> base + 1 + zlen (sub_appended x) + 1 < two64 -> 0 <= base ->
  sub_inv c n base (sexec c n x o).
Proof.
  intros H Ho Hlt H0; pose proof H as [I (e & He & Hen) _ _ _ _].
  destruct o as [p t now|t p|d cols rows now|d after role now|d|d force|d|]; cbn [sexec others_ok] in *.
  - apply sub_inv_append; auto; repeat split.
  - destruct (fanoutControlEvent _ _ _) as [ms'|x'|w] eqn:Ef; auto; apply (sub_inv_control c n base x t p ms'); auto.
  - destruct (resize_locked _ _ _ _ _ _ _) as [[st ms']|x'|w]; auto.
    set (ms1 := with_lastActivity now _); assert (session_inv ms1) as I1 by (apply (inv_shape (sub_ms x)); [reflexivity | exact I]).
    destruct (ms_streamJSON _); [apply sub_inv_frame; auto; exists e; auto|].
    apply sub_inv_append; auto; repeat split.
  - destruct Ho as [Hd Hd0]; pose proof (attach_inv _ d after role now I Hd0) as Ha.
    destruct (attach_locked _ _ _ _ _) as [[[a ms'] notes]|x'|w] eqn:Ea; auto; destruct Ha as [Ia _].
    destruct (attach_frame _ _ _ _ _ _ _ _ c e I Hd Hd0 He Ea) as (H1 & H2 & H3).
    apply sub_inv_frame; auto; [exists e; auto | rewrite <- Hen; exact H2].
  - pose proof (detach_inv _ d I) as Ha; destruct (detach_locked _ _) as [[[w ms'] notes]|x'|w] eqn:Ed; auto.
    destruct (detach_frame _ _ _ _ _ c e Ho He Ed) as (H1 & H2 & H3).
    apply sub_inv_frame; auto; [exists e; auto | rewrite H2; reflexivity].
  - pose proof (claim_inv _ d force I Ho) as Ha; destruct (claim_locked _ _ _) as [[p ms']|x'|w] eqn:Ed; auto.
    destruct (claim_frame _ _ _ _ _ Ed) as (H1 & H2 & H3); specialize (H1 c); rewrite He in H1.
    destruct (ms_observers ms' !! c) as [e'|] eqn:He'; [|discriminate]; injection H1 as H1.
    apply sub_inv_frame; auto; [apply Ha | exists e'; split; congruence | rewrite H2; reflexivity].
  - pose proof (release_inv _ d I) as Ha; destruct (release_locked _ _) as [ms'|x'|w] eqn:Ed; auto.
    destruct (release_frame _ _ _ Ed) as (H1 & H2 & H3); specialize (H1 c); rewrite He in H1.
    destruct (ms_observers ms' !! c) as [e'|] eqn:He'; [|discriminate]; injection H1 as H1.
    apply sub_inv_frame; auto; [apply Ha | exists e'; split; congruence | rewrite H2; reflexivity].
  - destruct (chan_recv _ _) as [[[v|] h]|x'|w] eqn:Er; auto; apply sub_inv_receive; auto.
Qed.

Lemma srun_inv c n base os x :
  sub_inv c n base x -> Forall (others_ok c) os -> base + 1 + zlen (sub_appended x) + zlen os < two64 -> 0 <= base ->
  sub_inv c n base (srun c n x os).
Proof.
  intros H Hos; revert x H; induction Hos as [|o os Ho Hos IH]; intros x H Hlt H0; [exact H|].
  rewrite zlen_cons in Hlt; pose proof (zlen_nonneg os); pose proof (sexec_appended c n x o).
  apply IH; [apply sexec_inv; auto; lia | lia | exact H0].
Qed.

(** ** Replay *)

(** The ring holds consecutive chunks up to the last sequence number. *)
Definition ring_ok (b : ByteBuffer) : Prop :=
  exists k, 1 <= k /\ contiguous k (chunks b) /\ nextSeq b = k + zlen (chunks b).

Lemma filter_contiguous k cs s :
  contiguous k cs ->
  contiguous (Z.max k (s + 1)) (List.filter (fun c => negb (Seq c <=? s)) cs) /\
  (s < k + zlen cs -> Z.max k (s + 1) + zlen (List.filter (fun c => negb (Seq c <=? s)) cs) = k + zlen cs).
Proof.
  revert k; induction cs as [|c cs IH]; intros k H; [split; [exact I | unfold zlen; simpl; lia]|].
  destruct H as [Hk H]; destruct (IH (k + 1) H) as [IH1 IH2]; cbn [List.filter]; rewrite Hk, zlen_cons in *.
  destruct (Z.leb_spec k s); simpl.
  - replace (Z.max k (s + 1)) with (Z.max (k + 1) (s + 1)) by lia; split; [exact IH1 | intros; rewrite IH2; lia].
  - replace (Z.max (k + 1) (s + 1)) with (k + 1) in * by lia; replace (Z.max k (s + 1)) with k by lia.
    split; [split; assumption | intros; rewrite zlen_cons; specialize (IH2 ltac:(lia)); lia].
Qed.

(** Attaching as the code does it, seen by the client. *)
Lemma attach_result ms c after role now a ms' notes n :
  session_inv ms -> c <> ""%string -> attach_locked ms c after role now = Ok (a, ms', notes) ->
  as_Live a = LiveChan n ->
  session_inv ms' /\ ms_buf ms' = ms_buf ms /\ ms_liveClosed ms' = false /\
  as_Replay a = After (ms_buf ms) after /\ as_LastSeq a = LastSeq (ms_buf ms) /\
  (exists e, ms_observers ms' !! c = Some e /\ oe_ch e = n) /\ queue_of ms' n = [].
Proof.
  intros I Hc Ha Hl; pose proof (attach_inv ms c after role now I Hc) as Hi; rewrite Ha in Hi; destruct Hi as [Hi _].
  split; [exact Hi|]; revert Ha; unfold attach_locked; destruct (ms_recovered ms); [intros [= <- <- <-]; discriminate|].
  destruct (_ && _); [discriminate|].
  pose proof (evict_stale_spec ms c I) as Hev; destruct (evict_stale ms c) as [ms1|x|w]; [|discriminate..].
  destruct Hev as (_ & _ & _ & _ & _ & _ & _ & _ & Hbuf & _ & _).
  destruct (make_live ms1 c role) as [lv ms2] eqn:Em; unfold make_live in Em.
  assert (lv = LiveChan n -> ms_buf ms2 = ms_buf ms /\ ms_liveClosed ms2 = false /\
    ms_observers ms2 !! c = Some (MkEntry n role) /\ queue_of ms2 n = []) as H2.
  { intros ->; destruct (ms_liveClosed ms1) eqn:El; [discriminate|]; injection Em as <- <-; simpl.
    unfold queue_of; simpl; rewrite !lookup_insert_eq; auto. }
  assert (forall ms3, ms_buf ms3 = ms_buf ms2 -> ms_liveClosed ms3 = ms_liveClosed ms2 ->
    ms_observers ms3 = ms_observers ms2 -> ms_chans ms3 = ms_chans ms2 -> lv = LiveChan n ->
    ms_buf ms3 = ms_buf ms /\ ms_liveClosed ms3 = false /\ After (ms_buf ms3) after = After (ms_buf ms) after /\
    LastSeq (ms_buf ms3) = LastSeq (ms_buf ms) /\
    (exists e, ms_observers ms3 !! c = Some e /\ oe_ch e = n) /\ queue_of ms3 n = []) as H3.
  { intros ms3 Hb Hlc Hob Hch Hlv; destruct (H2 Hlv) as (K1 & K2 & K3 & K4); unfold queue_of in *.
    rewrite Hb, Hlc, Hob, Hch, K1; split_and!; auto; eauto. }
  destruct role; simpl; (destruct (ms_screen ms2) as [scr|]; [destruct (checkpoint scr _)|]);
    intros [= <- <- <-]; simpl in Hl; apply H3; auto.
Qed.

(** ** Output, its journal, and a restart *)

Definition out := (bytes * ChunkType * Time)%type.

(** A session appending output, as its reader does. *)
Fixpoint append_run (st : option St) (ms : managedSession) (l : list out) : option St * managedSession :=
  match l with
  | [] => (st, ms)
  | (p, t, now) :: r => match appendChunkLocked st ms p t now with
                        | Ok (st, ms) => append_run st ms r
                        | _ => (st, ms)
                        end
  end.

(** The items the ring sees, with the session's geometry. *)
Definition items_of (ms : managedSession) (l : list out) : list item :=
  map (fun o => MkItem (fst (fst o)) (snd (fst o)) (info_Cols (ms_info ms)) (info_Rows (ms_info ms)) (snd o)) l.

Definition saves_ok : Prop := forall st id c, snd (store_SaveChunk st id c) = None.

Lemma append_parts st ms p t now st' ms' :
  ms_liveClosed ms = false -> appendChunkLocked st ms p t now = Ok (st', ms') ->
  st' = persistChunk st (info_SessionID (ms_info ms)) (next_chunk ms p t now) /\
  ms_buf ms' = snd (AppendSized (ms_buf ms) p t (info_Cols (ms_info ms)) (info_Rows (ms_info ms)) now) /\
  ms_liveClosed ms' = false /\ info_SessionID (ms_info ms') = info_SessionID (ms_info ms) /\
  info_Cols (ms_info ms') = info_Cols (ms_info ms) /\ info_Rows (ms_info ms') = info_Rows (ms_info ms).
Proof.
  intros El; unfold appendChunkLocked, next_chunk; rewrite El.
  destruct (AppendSized _ _ _ _ _ _) as [chunk buf]; set (ms1 := with_lastActivity now _).
  destruct (send_all _ _ _) as [h|e|w]; [|discriminate..]; intros [= <- <-].
  subst ms1; simpl; destruct (ms_screen ms), t; simpl; auto 10.
Qed.

Context `{L : @JournalLaws S}.

Lemma append_run_journal cap l st ms before st' ms' :
  session_inv ms -> ms_liveClosed ms = false -> plain_id (info_SessionID (ms_info ms)) -> saves_ok ->
  journal st (info_SessionID (ms_info ms)) (log_of 1 before) ->
  ms_buf ms = append_all (NewByteBuffer cap) before -> zlen before + zlen l < two64 - 2 ->
  append_run (Some st) ms l = (st', ms') ->
  exists st1, st' = Some st1 /\ journal st1 (info_SessionID (ms_info ms)) (log_of 1 (before ++ items_of ms l)) /\
    ms_buf ms' = append_all (NewByteBuffer cap) (before ++ items_of ms l).
Proof.
  intros I El Hid Hok; revert st ms before I El Hid; induction l as [|[[p t] now] l IH];
    intros st ms before I El Hid Hj Hb Hlen Hrun.
  - injection Hrun as <- <-; simpl; rewrite app_nil_r; eauto.
  - cbn [append_run] in Hrun; rewrite zlen_cons in Hlen; pose proof (zlen_nonneg before); pose proof (zlen_nonneg l).
    destruct (append_inv (Some st) ms p t now I) as (st1 & ms1 & Ha & I1); rewrite Ha in Hrun.
    destruct (append_parts _ _ _ _ _ _ _ El Ha) as (Hst & Hbuf & El1 & Hid1 & Hc1 & Hr1).
    destruct (append_all_sim cap before ltac:(lia)) as (_ & _ & Hnext & _).
    set (i := MkItem p t (info_Cols (ms_info ms)) (info_Rows (ms_info ms)) now).
    assert (Hck : next_chunk ms p t now = MkChunk (it_cols i) (it_rows i) (1 + zlen before) (it_now i) (it_payload i) (it_type i)).
    { unfold next_chunk; rewrite (proj1 (AppendSized_chunk _ _ _ _ _ _)), Hb, Hnext, Z.add_comm; reflexivity. }
    assert (Hlog : log_of 1 (before ++ [i]) = log_of 1 before ++ [next_chunk ms p t now])
      by (rewrite log_of_app, Hck; reflexivity).
    destruct (store_SaveChunk st (info_SessionID (ms_info ms)) (next_chunk ms p t now)) as [st2 err] eqn:Es.
    pose proof (Hok st (info_SessionID (ms_info ms)) (next_chunk ms p t now)) as Herr; rewrite Es in Herr; simpl in Herr; subst err.
    assert (Hj2 : journal st2 (info_SessionID (ms_info ms1)) (log_of 1 (before ++ [i]))).
    { rewrite Hid1, Hlog, <- (journal_insert_last (next_chunk ms p t now) (log_of 1 before) 0).
      - apply (journal_save st); auto; rewrite Hck; unfold seq_ok; simpl; unfold two64 in *; lia.
      - rewrite <- Hlog; generalize (before ++ [i]); clear.
        assert (forall n l, ascending n (log_of (n + 1) l)) as H by (intros n l; revert n; induction l as [|x l IH]; intros n; simpl; [exact Logic.I | split; [lia | apply IH]]).
        intros l; apply (H 0). }
    unfold persistChunk in Hst; rewrite Es in Hst; simpl in Hst; subst st1.
    destruct (IH st2 ms1 (before ++ [i]) I1 El1 ltac:(rewrite Hid1; exact Hid) Hj2) as (st3 & Hst3 & Hj3 & Hb3).
    + rewrite Hbuf, Hb, append_all_snoc; reflexivity.
    + rewrite zlen_app, zlen_cons, zlen_nil; lia.
    + exact Hrun.
    + assert (items_of ms1 l = items_of ms l) as Hi by (unfold items_of; rewrite Hc1, Hr1; reflexivity).
      exists st3; rewrite Hi, <- app_assoc, ?Hid1 in *; simpl in *; auto.
Qed.
End Streams.

(** ** Theorems *)

(** C2. Replay joins live: a client that attaches gets the retained chunks after
    its cursor, and from then on, whatever output, resizes, attaches, detaches
    and writer changes follow and whenever it drains its channel, what it
    received and what is queued for it are the chunks appended since, in order
    and without repeats; when its channel never filled up none is missing: the
    replay and the live output together are consecutive sequence numbers from
    the cursor (or, past it, from the oldest retained chunk; or from the next
    one when the ring is empty) to the newest chunk. *)
Theorem replay_joins_live `{E : Emulator} `{S : SessionStore} (st : option St) (ms ms' : managedSession) (c : string)
    (after : Z) (role : AttachRole) (now : Time) (a : AttachState) (notes : list SessionInfo) (n : nat) (os : list sop) :
  session_inv ms -> c <> ""%string -> ring_ok (ms_buf ms) ->
  attach_locked ms c after role now = Ok (a, ms', notes) -> as_Live a = LiveChan n ->
  Forall (others_ok c) os -> nextSeq (ms_buf ms) + zlen os < two64 -> 0 <= after < nextSeq (ms_buf ms) ->
  let x := srun c n (MkSub st ms' [] [] false) os in
  let got := outputs (sub_received x ++ queue_of (sub_ms x) n) in
  sublist_of got (sub_appended x) /\ contiguous (nextSeq (ms_buf ms)) (sub_appended x) /\
  (sub_dropped x = false ->
   exists first, (first = after + 1 \/
       after < first /\ (first = OldestSeq (ms_buf ms) \/ chunks (ms_buf ms) = [] /\ first = nextSeq (ms_buf ms))) /\
     contiguous first (as_Replay a ++ got) /\
     first + zlen (as_Replay a ++ got) = nextSeq (ms_buf (sub_ms x))).
Proof.
  intros I Hc (k & Hk & Hct & Hnext) Ha Hl Hos Hlt Haft x got.
  destruct (attach_result ms c after role now a ms' notes n I Hc Ha Hl) as (I' & Hb & Hlive & Hrep & _ & He & Hq).
  pose proof (zlen_nonneg (chunks (ms_buf ms))).
  assert (sub_inv c n (nextSeq (ms_buf ms) - 1) (MkSub st ms' [] [] false)) as H0.
  { split; simpl; [exact I' | exact He | exact Logic.I | rewrite Hb, zlen_nil; lia | rewrite Hq; reflexivity | intros _; rewrite Hq; reflexivity]. }
  destruct (srun_inv c n (nextSeq (ms_buf ms) - 1) os _ H0 Hos) as [_ _ Hseq Hnx Hsub Hall]; [simpl; rewrite zlen_nil; lia | lia |].
  fold x in Hseq, Hnx, Hsub, Hall; fold got in Hsub, Hall; replace (nextSeq (ms_buf ms) - 1 + 1) with (nextSeq (ms_buf ms)) in * by lia.
  split_and!; auto; intros Hd; rewrite (Hall Hd), Hrep, Hnx.
  destruct (filter_contiguous k (chunks (ms_buf ms)) after Hct) as [Hf1 Hf2]; specialize (Hf2 ltac:(lia)).
  fold (After (ms_buf ms) after) in Hf1, Hf2; exists (Z.max k (after + 1)); split_and!.
  - destruct (Z.max_spec k (after + 1)) as [[_ ->]|[Hle ->]]; [left; reflexivity|].
    unfold OldestSeq; destruct (chunks (ms_buf ms)) as [|c0 cs]; [rewrite zlen_nil in Hnext|].
    + right; split; [lia | right; split; [reflexivity | lia]].
    + destruct Hct as [Hc0 _]; right; split; lia.
  - apply contiguous_app; split; [exact Hf1|]; rewrite Hf2, <- Hnext; exact Hseq.
  - rewrite zlen_app; lia.
Qed.

(** C3. Input authority: input reaches the provider exactly when its size is
    within the policy, the session is a live (not recovered) running or
    attached one, and the caller is its active writer; then it is written
    unchanged (after the telemetry observer has seen it) and only the activity
    clock of the session changes.  Otherwise nothing changes and the error says
    which of the conditions, in that order, failed first. *)
Theorem input_only_from_writer `{E : Emulator} `{S : SessionStore} (s : Supervisor) (id c : string) (data : bytes)
    (io : Z * option error) (now : Time) :
  let r := WriteInput s id c data io now in
  let too_large := 0 < MaxInputBytes (policy s) < zlen data in
  (too_large /\ r = (s, Err (Wrapped ErrInputTooLarge "input size exceeds max bytes"))) \/
  (~ too_large /\ sessions s !! id = None /\ r = (s, Err (Wrapped ErrSessionNotFound id))) \/
  (~ too_large /\ exists ms, sessions s !! id = Some ms /\
     let live := ms_recovered ms = false in
     let ready := info_State (ms_info ms) = SessionStateRunning \/ info_State (ms_info ms) = SessionStateAttached in
     (ms_recovered ms = true /\ r = (s, Err (Sentinel ErrSessionRecoveryUnavailable))) \/
     (live /\ ~ ready /\ r = (s, Err (Sentinel ErrSessionNotRunning))) \/
     (live /\ ready /\ active ms = ""%string /\ r = (s, Err (Sentinel ErrClientNotAttached))) \/
     (live /\ ready /\ active ms <> ""%string /\ active ms <> c /\ r = (s, Err (Sentinel ErrClientMismatch))) \/
     (live /\ ready /\ active ms <> ""%string /\ active ms = c /\
      sessions (fst r) = <[id := with_lastActivity now ms]> (sessions s) /\
      trace (fst r) = trace s ++ (if telemetry s then [EvTelemetryInput (telemetrySessionLocked ms) data] else []) ++ [EvWrite id data] /\
      snd r = match io with (n, None) => Ok n | (_, Some e) => Err e end)).
Proof.
  cbv zeta; unfold WriteInput, ValidateInputBytes, not_found.
  destruct ((0 <? MaxInputBytes (policy s)) && (MaxInputBytes (policy s) <? zlen data)) eqn:Eb;
    [left; bool_to_prop; split; [lia | reflexivity]|right].
  assert (~ (0 < MaxInputBytes (policy s) < zlen data)) as Hsz
    by (apply andb_false_iff in Eb; rewrite !Z.ltb_ge in Eb; lia).
  destruct (sessions s !! id) as [ms|] eqn:Es; [right | left; auto]; split; [exact Hsz|]; exists ms; split; [reflexivity|].
  unfold input_guard; fold (active ms); destruct (ms_recovered ms); [left; auto | right]; unfold state_is.
  destruct (negb (bool_decide (info_State (ms_info ms) = SessionStateRunning)) &&
            negb (bool_decide (info_State (ms_info ms) = SessionStateAttached))) eqn:Est.
  { left; bool_to_prop; tauto. }
  assert (info_State (ms_info ms) = SessionStateRunning \/ info_State (ms_info ms) = SessionStateAttached) as Hst
    by (apply andb_false_iff in Est; rewrite !negb_false_iff, !bool_decide_eq_true in Est; exact Est).
  right; destruct (str_eqb (active ms) "") eqn:E0; bool_to_prop; [left; auto | right].
  destruct (str_eqb (active ms) c) eqn:E1; bool_to_prop; simpl; [right | left; auto].
  split_and!; auto; [destruct io as [n [e|]], (telemetry s); reflexivity |].
  destruct (telemetry s); simpl; rewrite <- ?app_assoc; reflexivity.
Qed.

(** C10. Handing over the writer role: a successful claim makes the claimant the
    only client whose input is accepted; an existing writer is displaced only
    by force, is named in the answer, keeps its channel as an observer, and has
    its input refused from then on; a claim without force never displaces. *)
Theorem writer_handover `{E : Emulator} `{S : SessionStore} (s s' : Supervisor) (id c prev : string) (force : bool) (ms : managedSession) :
  sessions s !! id = Some ms -> session_inv ms -> c <> ""%string ->
  ClaimWriter s id c force = (s', Ok prev) -> active ms <> c ->
  prev = active ms /\ (prev <> ""%string -> force = true) /\
  exists ms', sessions s' = <[id := ms']> (sessions s) /\ active ms' = c /\ same_entries ms ms' /\
    ms_chans ms' = ms_chans ms /\
    (forall d e, ms_observers ms' !! d = Some e -> (oe_role e = AttachRoleWriter <-> d = c)) /\
    (forall d, input_guard ms' d = None -> d = c) /\
    (info_State (ms_info ms) = SessionStateRunning \/ info_State (ms_info ms) = SessionStateAttached ->
     input_guard ms' c = None /\ info_State (ms_info ms') = SessionStateAttached).
Proof.
  intros Hs I Hc Hcl Hne; unfold ClaimWriter in Hcl; rewrite Hs in Hcl.
  pose proof (claim_inv ms c force I Hc) as Hi; destruct (claim_locked ms c force) as [[p ms']|e|w] eqn:Ek; [|discriminate..].
  injection Hcl as <- <-; destruct Hi as (I' & Ha & Hf); destruct (claim_frame _ _ _ _ _ Ek) as (Hent & Hch & _).
  unfold claim_locked in Ek; fold (active ms) in Ek; destruct (ms_recovered ms) eqn:Er; [discriminate|].
  rewrite (proj2 (str_eqb_neq _ _) Hne) in Ek; destruct (_ && _); [discriminate|].
  destruct (ms_observers ms !! c) as [e0|] eqn:Ec; [|discriminate].
  set (ms1 := set_role AttachRoleWriter c (set_role AttachRoleObserver (active ms) ms)) in *.
  assert (Hi1 : ms_info ms1 = ms_info ms) by (unfold ms1; rewrite !(proj1 (set_role_rest _ _ _)); reflexivity).
  assert (Hr1 : ms_recovered ms1 = ms_recovered ms).
  { unfold ms1; destruct (set_role_rest AttachRoleWriter c (set_role AttachRoleObserver (active ms) ms)) as (_ & _ & _ & _ & -> & _).
    apply set_role_rest. }
  assert (Ho1 : ms_observers ms1 !! c = Some (MkEntry (oe_ch e0) AttachRoleWriter)).
  { unfold ms1; rewrite !set_role_obs; destruct (decide (c = c)); [|congruence].
    destruct (decide (active ms = c)); [congruence|]; rewrite Ec; reflexivity. }
  assert (Hms' : ms_observers ms' = ms_observers ms1 /\ ms_recovered ms' = ms_recovered ms1 /\
    info_State (ms_info ms') = if state_is (info_State (ms_info ms)) SessionStateRunning then SessionStateAttached else info_State (ms_info ms)).
  { injection Ek as _ <-; simpl; rewrite Hi1; clear.
    destruct (state_is (info_State (ms_info ms)) SessionStateRunning); unfold ms1; simpl;
      rewrite ?(proj1 (set_role_rest _ _ _)); auto. }
  destruct Hms' as (Hob & Hrc & Hst).
  split_and!; [injection Ek; congruence | apply Hf | exists ms'; split_and!; auto].
  - intros d e Hd; split; [intros Hw; rewrite <- Ha; apply (inv_roles _ I' d e Hd Hw)|].
    intros ->; rewrite Hob, Ho1 in Hd; injection Hd as <-; reflexivity.
  - intros d; unfold input_guard; fold (active ms'); rewrite Ha; destruct (ms_recovered ms'); [discriminate|].
    destruct (_ && _); [discriminate|]; destruct (str_eqb c ""); [discriminate|].
    destruct (str_eqb c d) eqn:Ed; [bool_to_prop; auto | discriminate].
  - intros Hrun; unfold input_guard; fold (active ms'); rewrite Ha, Hrc, Hr1, Er, str_eqb_refl, (proj2 (str_eqb_neq c "") Hc), Hst.
    destruct Hrun as [-> | ->]; auto.
Qed.

(** C9. For a session with an identifier without a slash whose journal was empty
    when it started, that has appended fewer than 2^64-2 chunks of output, without
    a resize in between and with every save accepted by the store: a restarted
    daemon on the same store with the same buffer size rebuilds from the journal
    exactly the ring the session had, its retained chunks, accounting and next
    sequence number. *)
Theorem restart_rebuilds_ring `{E : Emulator} `{L : JournalLaws} (s s2 : Supervisor) (cfg : SessionConfig) (p : Provider)
    (pid now now2 : Z) (st : St) (l : list out) (st' : option St) (ms' : managedSession) (info : SessionInfo) :
  plain_id (cfg_SessionID cfg) -> saves_ok -> journal st (cfg_SessionID cfg) [] -> zlen l < two64 - 2 ->
  append_run (Some st) (new_session s cfg p pid now) l = (st', ms') ->
  store s2 = st' -> bufSize s2 = bufSize s -> info_SessionID info = cfg_SessionID cfg ->
  ms_buf (recovered_session s2 info now2) = ms_buf ms'.
Proof.
  intros Hid Hok Hj Hlen Hrun Hst Hsz Hinfo.
  destruct (append_run_journal (bufSize s) l st (new_session s cfg p pid now) [] st' ms') as (st1 & -> & Hj1 & Hb1);
    first [assumption | reflexivity | apply new_session_inv | rewrite zlen_nil; lia | idtac].
  unfold recovered_session; simpl; rewrite Hst, Hinfo, (journal_load st1 _ _ Hid Hj1), Hb1, Hsz.
  apply rebuild_log; assert (zlen (items_of (new_session s cfg p pid now) l) = zlen l) as Hz
    by (unfold items_of, zlen; rewrite length_map; reflexivity).
  cbn [app]; rewrite Hz; lia.
Qed.

(** ** The theorems on a concrete session *)

Section Sample.
#[local] Existing Instance echo_emulator.
#[local] Existing Instance log_bolt.
#[local] Existing Instance log_bolt_laws.

Definition sample_ms : managedSession (E := echo_emulator) :=
  new_session (S := BoltSessionStore) sample_boot (sample_cfg "s1") sample_provider 7 10.

Definition empty_store : option (@St BoltSessionStore) := Some [].

Definition sample_sops : list sop :=
  [SAppend (bytes_of_string "ab") ChunkTypeOutput 12; SAttach "b" 0 AttachRoleObserver 13;
   SReceive; SResize "a" 100 30 14; SClaim "b" true; SControl ChunkTypeWriterClaimed (bytes_of_string "b");
   SAppend (bytes_of_string "c") ChunkTypeThinking 15].

Lemma sample_sops_ok : Forall (others_ok "a") sample_sops.
Proof. repeat constructor; discriminate. Qed.

Lemma replay_joins_live_witness :
  exists a ms' notes, attach_locked sample_ms "a" 0 AttachRoleWriter 11 = Ok (a, ms', notes) /\
    let x := srun (S := BoltSessionStore) "a" 0 (MkSub empty_store ms' [] [] false) sample_sops in
    sub_dropped x = false /\ zlen (sub_appended x) = 3 /\
    exists first, contiguous first (as_Replay a ++ outputs (sub_received x ++ queue_of (sub_ms x) 0)).
Proof.
  destruct (attach_locked sample_ms "a" 0 AttachRoleWriter 11) as [[[a ms'] notes]|e|w] eqn:Ea;
    [|vm_compute in Ea; discriminate..].
  exists a, ms', notes; split; [reflexivity|]; intros x.
  assert (sub_dropped x = false /\ zlen (sub_appended x) = 3) as [Hd Hz]
    by (unfold x; vm_compute in Ea; injection Ea as <- <- <-; vm_compute; split; reflexivity).
  split; [exact Hd | split; [exact Hz|]].
  destruct (replay_joins_live (S := BoltSessionStore) empty_store sample_ms ms' "a" 0 AttachRoleWriter 11 a notes 0%nat sample_sops)
    as (_ & _ & H).
  - apply new_session_inv.
  - discriminate.
  - exists 1; vm_compute; repeat split; discriminate.
  - exact Ea.
  - vm_compute in Ea; injection Ea as <- <- <-; reflexivity.
  - exact sample_sops_ok.
  - vm_compute; reflexivity.
  - vm_compute; split; [discriminate | reflexivity].
  - destruct (H Hd) as (first & _ & Hc & _); exists first; exact Hc.
Defined.

Lemma writer_handover_witness :
  exists ms', sessions (fst (ClaimWriter (sample_state sample_ops1) "s1" "b" true)) =
      <[ "s1"%string := ms' ]> (sessions (sample_state sample_ops1)) /\ active ms' = "b"%string.
Proof.
  destruct (sessions (sample_state sample_ops1) !! "s1"%string) as [ms|] eqn:Es; [|vm_compute in Es; discriminate].
  assert (snd (ClaimWriter (sample_state sample_ops1) "s1" "b" true) = Ok "a"%string) as Hok by (vm_compute; reflexivity).
  destruct (ClaimWriter (sample_state sample_ops1) "s1" "b" true) as [s' r] eqn:Ec; cbn [fst snd] in *; subst r.
  destruct (writer_handover (sample_state sample_ops1) s' "s1" "b" "a" true ms Es) as (_ & _ & ms' & Hs & Ha & _).
  - exact (reachable_inv _ _ (booted_inv _ sample_booted) (runs_reachable _ _ sample_runs1) "s1"%string ms Es).
  - discriminate.
  - exact Ec.
  - vm_compute in Es; injection Es as <-; discriminate.
  - exists ms'; split; assumption.
Defined.

Lemma log_saves_ok : saves_ok (S := BoltSessionStore).
Proof. intros db id c; simpl; unfold SaveChunk; simpl; destruct (chunkKey id (Seq c)) eqn:Ek; [|reflexivity]. unfold chunkKey in Ek; destruct (chars id); discriminate. Qed.

Lemma restart_rebuilds_ring_witness :
  let r := append_run (S := BoltSessionStore) (Some []) sample_ms
             [(bytes_of_string "ab", ChunkTypeOutput, 12); (bytes_of_string "c", ChunkTypeThinking, 13)] in
  ms_buf (recovered_session (NewSupervisor (S := BoltSessionStore) ∅ sample_policy 1024 0 (fst r) None false false)
            (ms_info sample_ms) 50) = ms_buf (snd r).
Proof.
  intros r.
  apply (restart_rebuilds_ring (L := BoltJournalLaws) sample_boot _ (sample_cfg "s1") sample_provider 7 10 50 []
           [(bytes_of_string "ab", ChunkTypeOutput, 12); (bytes_of_string "c", ChunkTypeThinking, 13)] (fst r) (snd r)).
  - apply (bool_decide_unpack _); vm_compute; exact I.
  - exact log_saves_ok.
  - split; [reflexivity | constructor].
  - vm_compute; reflexivity.
  - apply surjective_pairing.
  - reflexivity.
  - vm_compute; reflexivity.
  - reflexivity.
Defined.
End Sample.
