(* ===== verification/Terminal.v ===== *)
(** * Terminal windows: internal/bridge/terminal.go

    Bounded reads of a session's output without attaching to it.  A viewer
    passes the last sequence number it has and gets the bytes that follow, from
    the memory ring or, when the ring no longer has them, from the durable
    journal; when neither has them it gets a gap and a redraw of the current
    screen. *)

From S2P Require Import Prelude Types ByteBuf GoStd Policy Registry Screen Store Session SessionInv Supervisor Reach Streams.

Record TerminalWindow := MkWindow {
  w_More : bool;
  w_Data : bytes;
  w_FirstSequence : Z;
  w_NextSequence : Z;
  w_Gap : bool;
  w_Ended : bool;
  w_Writer : bool;
  w_Cols : Z;
  w_Rows : Z;
}.

(** The wire limit of one window. *)
Definition windowBytes : Z := 65536.

(** How the chunk loop ends: with the window built so far, or because the first
    chunk alone exceeds the limit. *)
Inductive window_result := Built (w : TerminalWindow) | TooBig.

Fixpoint window_loop (cs : list OutputChunk) (after : Z) (first : bool) (w : TerminalWindow) : window_result :=
  match cs with
  | [] => Built w
  | chunk :: rest =>
      if Seq chunk <=? after then window_loop rest after first w
      else if negb first && negb (Seq chunk =? u64 (w_NextSequence w + 1)) then Built w
      else
        let sized := (0 <? Cols chunk) && (0 <? Rows chunk) in
        if sized && negb first && (negb (w_Cols w =? Cols chunk) || negb (w_Rows w =? Rows chunk)) then Built w
        else
          let cols := if sized then Cols chunk else w_Cols w in
          let rows := if sized then Rows chunk else w_Rows w in
          if windowBytes <? zlen (w_Data w) + zlen (Payload chunk) then
            if first then TooBig
            else Built (MkWindow (w_More w) (w_Data w) (w_FirstSequence w) (w_NextSequence w) (w_Gap w)
                                 (w_Ended w) (w_Writer w) cols rows)
          else
            window_loop rest after false
              (MkWindow (w_More w) (w_Data w ++ Payload chunk) (if first then Seq chunk else w_FirstSequence w)
                        (Seq chunk) (w_Gap w) (w_Ended w) (w_Writer w) cols rows)
  end.

Section Terminal.
Context `{E : Emulator} `{S : SessionStore}.

(** A session known only from the history: no output in memory, ended. *)
Definition history_session (info : SessionInfo) : managedSession :=
  MkSession info zero_config None None false false false (NewByteBuffer 1) 0 0 false false None false
    ∅ true None ∅ 0%nat.

(** [ms.screen.checkpoint(last)]: the data (nil when there is none) and the
    session with its screen as the call leaves it. *)
Definition screen_checkpoint (ms : managedSession) (last : Z) : option bytes * managedSession :=
  match ms_screen ms with
  | None => (None, ms)
  | Some l => let '(d, l) := checkpoint l last in (d, with_screen (Some l) ms)
  end.

Definition newest (ms : managedSession) : Z :=
  Z.max (Z.max (List.last (map Seq (chunks (ms_buf ms))) 0) (info_LastSeq (ms_info ms)))
        (u64 (nextSeq (ms_buf ms) - 1)).

(** The chunks to serve from and the oldest sequence number among them. *)
Definition window_source (st : option St) (ms : managedSession) (id : string) (after last : Z)
    : outcome (list OutputChunk * Z) :=
  let oldest := OldestSeq (ms_buf ms) in
  let cs := chunks (ms_buf ms) in
  if (after <? last) && ((oldest =? 0) || (u64 (after + 1) <? oldest)) then
    match st, store_page with
    | Some st, Some page =>
        match page st id after windowBytes with
        | (_, Some e) => Err e
        | (c :: r, None) => Ok (c :: r, Seq c)
        | ([], None) => Ok (cs, oldest)
        end
    | _, _ => Ok (cs, oldest)
    end
  else Ok (cs, oldest).

(** The locked part of [TerminalWindow]. *)
Definition terminal_window (st : option St) (ms : managedSession) (id clientID : string) (after : Z)
    : managedSession * outcome TerminalWindow :=
  if ms_streamJSON ms then (ms, Err (Sentinel ErrSessionRecoveryUnavailable))
  else
    let i := ms_info ms in
    let last := newest ms in
    let writer := str_eqb (info_ActiveWriterClientID i) clientID && negb (str_eqb clientID "") in
    match window_source st ms id after last with
    | Err e => (ms, Err e)
    | Panic w => (ms, Panic w)
    | Ok (cs, oldest) =>
        let checkpointGap :=
          match screen_checkpoint ms last with
          | (None, ms) => (ms, Err (Sentinel ErrSessionRecoveryUnavailable))
          | (Some d, ms) => (ms, Ok (MkWindow false d oldest last true (ms_liveClosed ms) writer
                                              (info_Cols i) (info_Rows i)))
          end in
        if (zlen cs =? 0) && (after <? last) then checkpointGap
        else if (u64 (after + 1) <? oldest) || (last <? after) then
          let '(d, ms) := screen_checkpoint ms last in
          (ms, Ok (MkWindow false (default [] d) oldest last true (ms_liveClosed ms) writer
                            (info_Cols i) (info_Rows i)))
        else
          match window_loop cs after true
                  (MkWindow false [] 0 after false false writer (info_Cols i) (info_Rows i)) with
          | TooBig => checkpointGap
          | Built w =>
              (ms, Ok (MkWindow (w_NextSequence w <? last) (w_Data w) (w_FirstSequence w) (w_NextSequence w)
                                (w_Gap w) (ms_liveClosed ms && (w_NextSequence w =? last)) (w_Writer w)
                                (w_Cols w) (w_Rows w)))
          end
    end.

Definition ReadWindow (s : Supervisor) (id clientID : string) (after : Z) : Supervisor * outcome TerminalWindow :=
  match sessions s !! id with
  | Some ms => let '(ms, r) := terminal_window (store s) ms id clientID after in (put_session id ms s, r)
  | None =>
      match history s !! id with
      | None => (s, Err (Sentinel ErrSessionNotFound))
      | Some info => (s, snd (terminal_window (store s) (history_session info) id clientID after))
      end
  end.

(** The page size of attach transports; [None]: the store cannot page. *)
Definition StoredReplayPage (s : Supervisor) (id : string) (after : Z) : option (list OutputChunk * option error) :=
  match store s, store_page with
  | Some st, Some page => Some (page st id after windowBytes)
  | _, _ => None
  end.

(** What ends the wait of [WaitTerminalWindow]. *)
Inductive wake := WakeChanged | WakeTimer | WakeDone (e : error).

(** [WaitTerminalWindow]: [wait] is what the daemon does between the two reads
    and what ends the wait. *)
Definition WaitTerminalWindow (s : Supervisor) (id clientID : string) (after : Z)
    (wait : Supervisor -> Supervisor * wake) : Supervisor * outcome TerminalWindow :=
  match sessions s !! id with
  | None => ReadWindow s id clientID after
  | Some ms =>
      let s := put_session id (with_buf (snd (changes (ms_buf ms))) ms) s in
      let '(s, r) := ReadWindow s id clientID after in
      match r with
      | Ok w =>
          if negb (w_NextSequence w =? after) || (0 <? zlen (w_Data w)) || w_Gap w || w_Ended w then (s, r)
          else match wait s with
               | (s, WakeDone e) => (s, Err e)
               | (s, _) => ReadWindow s id clientID after
               end
      | _ => (s, r)
      end
  end.

(** ** A viewer reading on from a cursor until it has caught up *)

Fixpoint view_from (fuel : nat) (s : Supervisor) (id clientID : string) (after : Z) : bytes * Z * bool :=
  match fuel with
  | O => ([], after, false)
  | Datatypes.S fuel =>
      match ReadWindow s id clientID after with
      | (s, Ok w) => if w_More w
                     then let '(d, n, e) := view_from fuel s id clientID (w_NextSequence w) in (w_Data w ++ d, n, e)
                     else (w_Data w, w_NextSequence w, w_Ended w)
      | _ => ([], after, false)
      end
  end.
End Terminal.

(** ** The chunk loop *)

Definition payloads (cs : list OutputChunk) : bytes := concat (map Payload cs).

Lemma payloads_app a b : payloads (a ++ b) = payloads a ++ payloads b.
Proof. unfold payloads; rewrite map_app, concat_app; reflexivity. Qed.

(** What a window built from [w] has added: a run of consecutive chunks. *)
Lemma window_loop_more cs after w w' :
  after < w_NextSequence w -> w_NextSequence w + zlen cs < two64 - 1 -> 0 <= w_NextSequence w ->
  window_loop cs after false w = Built w' ->
  exists run, (forall c, In c run -> In c cs) /\ contiguous (w_NextSequence w + 1) run /\
    w_NextSequence w' = w_NextSequence w + zlen run /\ w_Data w' = w_Data w ++ payloads run /\
    w_FirstSequence w' = w_FirstSequence w /\ w_Gap w' = w_Gap w /\ w_Writer w' = w_Writer w /\
    (zlen (w_Data w) <= windowBytes -> zlen (w_Data w') <= windowBytes).
Proof.
  revert w; induction cs as [|c cs IH]; intros w Ha Hb Hn H; [injection H as <-|].
  - exists []; rewrite zlen_nil, app_nil_r; split_and!; auto; simpl; (tauto || lia).
  - cbn [window_loop] in H; rewrite zlen_cons in Hb; pose proof (zlen_nonneg cs).
    assert (Hstop : forall w0, w_NextSequence w0 = w_NextSequence w -> w_Data w0 = w_Data w -> w_FirstSequence w0 = w_FirstSequence w ->
      w_Gap w0 = w_Gap w -> w_Writer w0 = w_Writer w ->
      exists run, (forall x, In x run -> In x (c :: cs)) /\ contiguous (w_NextSequence w + 1) run /\
      w_NextSequence w0 = w_NextSequence w + zlen run /\ w_Data w0 = w_Data w ++ payloads run /\
      w_FirstSequence w0 = w_FirstSequence w /\ w_Gap w0 = w_Gap w /\ w_Writer w0 = w_Writer w /\
      (zlen (w_Data w) <= windowBytes -> zlen (w_Data w0) <= windowBytes)).
    { intros w0 H1 H2 H3 H4 H5; exists []; rewrite zlen_nil, app_nil_r, H1, H2; split_and!; auto; simpl; (tauto || lia). }
    destruct (Z.leb_spec (Seq c) after).
    { destruct (IH w Ha ltac:(lia) Hn H) as (run & Hin & Hrest); exists run; split; [simpl; auto | exact Hrest]. }
    simpl in H; destruct (Seq c =? u64 (w_NextSequence w + 1)) eqn:Es; simpl in H; [|injection H as <-; auto].
    rewrite u64_small in Es by lia; bool_to_prop.
    destruct (_ && _ && _); [injection H as <-; auto|].
    destruct (windowBytes <? zlen (w_Data w) + zlen (Payload c)) eqn:Eb; [injection H as <-; auto|]; bool_to_prop.
    apply IH in H; simpl in *; [|lia..].
    destruct H as (run & Hin & Hct & Hnx & Hd & Hf & Hg & Hw & Hsz); exists (c :: run); rewrite zlen_cons.
    split_and!; auto; try lia.
    + intros x [->|Hx]; auto.
    + split; [exact Es | rewrite <- Es; exact Hct].
    + rewrite Hd, <- app_assoc; reflexivity.
    + intros _; apply Hsz; rewrite zlen_app; lia.
Qed.

(** The same from the start of a window. *)
Lemma window_loop_first cs after w w' :
  w_Data w = [] -> w_NextSequence w = after -> Forall (fun c => 0 <= Seq c /\ Seq c + zlen cs < two64 - 1) cs ->
  window_loop cs after true w = Built w' ->
  (w' = w /\ Forall (fun c => Seq c <= after) cs) \/
  exists run, run <> [] /\ (forall c, In c run -> In c cs) /\ contiguous (w_FirstSequence w') run /\
    after < w_FirstSequence w' /\ w_NextSequence w' + 1 = w_FirstSequence w' + zlen run /\
    w_Data w' = payloads run /\ w_Gap w' = w_Gap w /\ w_Writer w' = w_Writer w /\ zlen (w_Data w') <= windowBytes.
Proof.
  intros Hd Hn; revert w Hd Hn; induction cs as [|c cs IH]; intros w Hd Hn Hall H; [left; injection H as <-; auto|].
  inversion Hall as [|? ? [Hc0 Hc] Hall']; subst; cbn [window_loop] in H; rewrite zlen_cons in Hc.
  pose proof (zlen_nonneg cs); destruct (Z.leb_spec (Seq c) (w_NextSequence w)) as [Hle|Hlt].
  - destruct (IH w Hd eq_refl) as [[-> Hs]|(run & Hr)]; [|exact H|left; auto|].
    + revert Hall'; apply List.Forall_impl; intros x; rewrite zlen_cons; lia.
    + right; exists run; destruct Hr as (H1 & H2 & Hr); split_and!; try apply Hr; simpl; auto.
  - cbn [negb andb] in H; rewrite andb_false_r in H; simpl in H.
    rewrite Hd in H; destruct (windowBytes <? zlen [] + zlen (Payload c)) eqn:Eb; [discriminate H|]; bool_to_prop.
    apply window_loop_more in H; simpl in *; [|lia..].
    destruct H as (run & Hin & Hct & Hnx & Hdt & Hf & Hg & Hw & Hsz); right; exists (c :: run); rewrite zlen_cons, Hf.
    split_and!; first [discriminate | lia | assumption | intros x [->|Hx]; [left; reflexivity | right; auto]
      | split; [reflexivity | exact Hct] | idtac].
    apply Hsz; rewrite zlen_nil in Eb; lia.
Qed.

(** On consecutive chunks the window is a prefix of what follows the cursor. *)
Lemma window_loop_prefix cs w after :
  contiguous (w_NextSequence w + 1) cs -> after <= w_NextSequence w -> 0 <= w_NextSequence w ->
  w_NextSequence w + zlen cs < two64 - 1 ->
  exists w' run rest, window_loop cs after false w = Built w' /\ cs = run ++ rest /\
    w_NextSequence w' = w_NextSequence w + zlen run /\ w_Data w' = w_Data w ++ payloads run /\ w_Gap w' = w_Gap w.
Proof.
  revert w; induction cs as [|c cs IH]; intros w Hct Ha H0 Hb.
  - exists w, [], []; split_and!; auto; [rewrite zlen_nil; lia | unfold payloads; simpl; rewrite app_nil_r; reflexivity].
  - destruct Hct as [Hc Hct]; rewrite zlen_cons in Hb; pose proof (zlen_nonneg cs); cbn [window_loop].
    assert (Hstop : forall w0, w_NextSequence w0 = w_NextSequence w -> w_Data w0 = w_Data w -> w_Gap w0 = w_Gap w ->
      exists w' run rest, Built w0 = Built w' /\ c :: cs = run ++ rest /\
      w_NextSequence w' = w_NextSequence w + zlen run /\ w_Data w' = w_Data w ++ payloads run /\ w_Gap w' = w_Gap w).
    { intros w0 H1 H2 H3; exists w0, [], (c :: cs); split_and!; auto; [rewrite zlen_nil; lia|].
      unfold payloads; simpl; rewrite app_nil_r; exact H2. }
    rewrite (proj2 (Z.leb_gt _ _)) by lia; rewrite u64_small by lia; rewrite Hc, Z.eqb_refl; simpl.
    destruct (_ && _ && _); [apply Hstop; reflexivity|].
    destruct (windowBytes <? _); [apply Hstop; reflexivity|].
    edestruct IH as (w' & run & rest & Hw & -> & Hn & Hd & Hg); [| | | |exists w', (c :: run), rest; split; [exact Hw|]];
      simpl in *; rewrite ?zlen_cons; try lia; [exact Hct|].
    split_and!; auto; [lia | rewrite Hd, <- app_assoc; reflexivity].
Qed.

Lemma window_loop_skip k cs after w :
  contiguous k cs -> window_loop cs after true w = window_loop (List.filter (fun c => negb (Seq c <=? after)) cs) after true w.
Proof.
  revert k; induction cs as [|c cs IH]; intros k H; [reflexivity|]; destruct H as [Hk H].
  cbn [window_loop List.filter]; destruct (Seq c <=? after) eqn:Ec; cbn [negb]; [eauto|].
  cbn [window_loop]; rewrite Ec; cbn [negb].
  assert (List.filter (fun c => negb (Seq c <=? after)) cs = cs) as ->; [|reflexivity].
  apply filter_all, Forall_forall; intros d Hd; bool_to_prop; apply negb_true_iff, Z.leb_gt.
  apply list_elem_of_In in Hd; pose proof (contiguous_seq_range (k + 1) cs d H Hd); lia.
Qed.

(** ** Reads *)

Section Reads.
Context `{E : Emulator} `{S : SessionStore}.

Lemma checkpoint_bound l q d : fst (checkpoint l q) = Some d -> zlen d <= windowBytes.
Proof.
  unfold checkpoint; destruct (_ || _); [discriminate|].
  destruct (if closed l then _ else _) as [[b|] l']; [|discriminate].
  destruct ((zlen b =? 0) || (maxTerminalCheckpointBytes <? zlen b)) eqn:K; [discriminate|]; intros [= <-].
  bool_to_prop; unfold maxTerminalCheckpointBytes, windowBytes in *; lia.
Qed.

Lemma screen_checkpoint_bound ms q : zlen (default [] (fst (screen_checkpoint ms q))) <= windowBytes.
Proof.
  unfold screen_checkpoint; destruct (ms_screen ms) as [l|]; [|vm_compute; discriminate].
  destruct (checkpoint l q) as [[d|] l'] eqn:K; simpl; [|vm_compute; discriminate].
  apply (checkpoint_bound l q d); rewrite K; reflexivity.
Qed.

Lemma screen_checkpoint_live ms q : ms_liveClosed (snd (screen_checkpoint ms q)) = ms_liveClosed ms.
Proof. unfold screen_checkpoint; destruct (ms_screen ms) as [l|]; [destruct (checkpoint l q)|]; reflexivity. Qed.

(** A ring with consecutive chunks from which nothing the viewer needs is gone. *)
Record readable (ms : managedSession) (after : Z) : Prop := {
  rd_pty : ms_streamJSON ms = false;
  rd_ring : ring_ok (ms_buf ms);
  rd_last : info_LastSeq (ms_info ms) <= nextSeq (ms_buf ms) - 1;
  rd_width : nextSeq (ms_buf ms) < two64 - 2;
  rd_after : 0 <= after < nextSeq (ms_buf ms);
  rd_kept : chunks (ms_buf ms) <> [] /\ OldestSeq (ms_buf ms) <= after + 1 \/ after = nextSeq (ms_buf ms) - 1;
}.

Lemma contiguous_last k cs d : contiguous k cs -> cs <> [] -> List.last (map Seq cs) d = k + zlen cs - 1.
Proof.
  revert k d; induction cs as [|c cs IH]; intros k d H Hne; [congruence|]; destruct H as [Hc H].
  change (map Seq (c :: cs)) with (Seq c :: map Seq cs); rewrite last_cons, zlen_cons.
  destruct cs as [|c' cs]; [simpl; rewrite zlen_nil; lia|]; rewrite (IH (k + 1)) by (auto; discriminate).
  lia.
Qed.

Lemma newest_ring ms after : readable ms after -> newest ms = nextSeq (ms_buf ms) - 1.
Proof.
  intros [_ (k & Hk & Hct & Hn) Hl Hw _ _]; unfold newest; pose proof (zlen_nonneg (chunks (ms_buf ms))).
  rewrite u64_small by lia.
  destruct (chunks (ms_buf ms)) as [|c cs] eqn:Ec; [simpl; rewrite zlen_nil in *; lia|].
  rewrite (contiguous_last k) by (auto; discriminate); lia.
Qed.

(** Nothing needed is missing: the memory ring is read and there is no gap. *)
Lemma no_gap ms after k :
  let cs := chunks (ms_buf ms) in
  readable ms after -> 1 <= k -> contiguous k cs -> nextSeq (ms_buf ms) = k + zlen cs ->
  (cs <> [] -> OldestSeq (ms_buf ms) = k /\ (after + 1 < k -> False)) /\
  (after <? nextSeq (ms_buf ms) - 1) && ((OldestSeq (ms_buf ms) =? 0) || (after + 1 <? OldestSeq (ms_buf ms))) = false /\
  (zlen cs =? 0) && (after <? nextSeq (ms_buf ms) - 1) = false /\
  (after + 1 <? OldestSeq (ms_buf ms)) || (nextSeq (ms_buf ms) - 1 <? after) = false.
Proof.
  intros cs [_ _ _ _ Ha Hkept] Hk Hct Hn; pose proof (zlen_nonneg cs).
  assert (Hold : cs <> [] -> OldestSeq (ms_buf ms) = k).
  { unfold OldestSeq; fold cs; destruct cs as [|x r]; [congruence|]; destruct Hct as [-> _]; auto. }
  split_and!.
  - intros Hne; split; [auto|]; rewrite <- (Hold Hne); destruct Hkept as [[_ Ho]|He]; [lia|].
    rewrite (Hold Hne); lia.
  - destruct Hkept as [[Hne Ho]|He]; [|rewrite (proj2 (Z.ltb_ge after _)) by lia; reflexivity].
    rewrite (Hold Hne) in *; rewrite andb_false_iff, orb_false_iff; right; split; [apply Z.eqb_neq | apply Z.ltb_ge]; lia.
  - apply andb_false_iff; destruct Hkept as [[Hne _]|He]; [left | right; apply Z.ltb_ge; lia].
    apply Z.eqb_neq; intros K; apply Hne, zlen_0_nil, K.
  - apply orb_false_iff; split; apply Z.ltb_ge; [|lia].
    destruct Hkept as [[_ Ho]|He]; [exact Ho|]; destruct (decide (cs = [])) as [Hnil|Hne]; [|rewrite (Hold Hne); lia].
    unfold OldestSeq; fold cs; rewrite Hnil; lia.
Qed.

(** One read in such a ring: a prefix of what follows the cursor, not empty
    unless nothing does. *)
Lemma read_prefix st ms id c after :
  readable ms after -> Forall (fun x => zlen (Payload x) <= windowBytes) (chunks (ms_buf ms)) ->
  exists w run rest, terminal_window st ms id c after = (ms, Ok w) /\
    After (ms_buf ms) after = run ++ rest /\ (run = [] -> rest = []) /\
    w_Data w = payloads run /\ w_NextSequence w = after + zlen run /\ w_Gap w = false /\
    w_More w = negb (bool_decide (rest = [])) /\ w_Ended w = ms_liveClosed ms && bool_decide (rest = []).
Proof.
  intros R Hsz; pose proof (newest_ring ms after R) as Hnew; pose proof R as [Hj (k & Hk & Hct & Hn) Hl Hw Ha _].
  unfold terminal_window; rewrite Hj, Hnew; unfold window_source.
  set (last := nextSeq (ms_buf ms) - 1) in *; set (cs := chunks (ms_buf ms)) in *.
  pose proof (zlen_nonneg cs); rewrite (u64_small (after + 1)) by lia.
  destruct (no_gap ms after k R Hk Hct Hn) as (Hold & Hsrc & Hz & Hg); fold last cs in Hold, Hsrc, Hz, Hg; rewrite Hsrc, Hz.
  rewrite Hg, (window_loop_skip k) by exact Hct.
  destruct (filter_contiguous k cs after Hct) as [Hf1 Hf2].
  change (List.filter (fun c => negb (Seq c <=? after)) cs) with (After (ms_buf ms) after) in *.
  specialize (Hf2 ltac:(lia)).
  assert (Hsz' : Forall (fun x => zlen (Payload x) <= windowBytes) (After (ms_buf ms) after))
    by (apply Forall_filter_keep, Hsz).
  destruct (After (ms_buf ms) after) as [|x r] eqn:Eaf.
  - cbn [window_loop]; rewrite zlen_nil in Hf2; eexists _, [], []; split; [reflexivity|]; simpl.
    replace (after =? last) with true by (symmetry; apply Z.eqb_eq; lia).
    rewrite zlen_nil, Z.add_0_r; split_and!; auto; apply Z.ltb_ge; lia.
  - destruct Hf1 as [Hx Hr]; rewrite zlen_cons in Hf2; inversion Hsz' as [|? ? Hxs _]; subst; pose proof (zlen_nonneg r).
    assert (Hmax : Z.max k (after + 1) = after + 1).
    { assert (cs <> []) as Hne by (intros K; unfold After in Eaf; fold cs in Eaf; rewrite K in Eaf; discriminate).
      destruct (Hold Hne) as [_ K]; lia. }
    rewrite Hmax in *; cbn [window_loop]; rewrite (proj2 (Z.leb_gt _ _)) by lia; cbn [negb andb]; rewrite andb_false_r; simpl.
    rewrite (proj2 (Z.ltb_ge windowBytes _)) by (rewrite zlen_nil; lia).
    edestruct (window_loop_prefix r) as (w & run & rest & -> & Hrr & Hnx & Hd & Hgap);
      [| | | |eexists _, (x :: run), rest; split; [reflexivity|]]; simpl in *; try lia; [rewrite Hx; exact Hr|].
    subst r; rewrite zlen_app in Hf2; rewrite Hnx, Hd, Hgap, Hx, zlen_cons; split_and!; auto; try discriminate; try lia.
    + destruct (bool_decide_reflect (rest = [])) as [->|Hne]; [rewrite zlen_nil in Hf2; apply Z.ltb_ge; lia|].
      apply Z.ltb_lt; destruct rest; [congruence|]; rewrite zlen_cons in Hf2; pose proof (zlen_nonneg rest); lia.
    + f_equal; destruct (bool_decide_reflect (rest = [])) as [->|Hne]; [rewrite zlen_nil in Hf2; apply Z.eqb_eq; lia|].
      apply Z.eqb_neq; destruct rest; [congruence|]; rewrite zlen_cons in Hf2; pose proof (zlen_nonneg rest); lia.
Qed.

Lemma filter_run a run rest :
  contiguous a (run ++ rest) ->
  List.filter (fun c => negb (Seq c <=? a + zlen run - 1)) (run ++ rest) = rest.
Proof.
  revert a; induction run as [|c run IH]; intros a H.
  - rewrite zlen_nil; apply filter_all, Forall_forall; intros d Hd; apply list_elem_of_In in Hd.
    pose proof (contiguous_seq_range a rest d H Hd); apply negb_true_iff, Z.leb_gt; lia.
  - destruct H as [Hc H]; cbn [app List.filter]; rewrite zlen_cons; pose proof (zlen_nonneg run).
    rewrite (proj2 (Z.leb_le _ _)) by lia; cbn [negb].
    rewrite <- (IH (a + 1) H) at 2; replace (a + (zlen run + 1) - 1) with (a + 1 + zlen run - 1) by lia; reflexivity.
Qed.

(** Reading on from where a window ended. *)
Lemma After_next ms after run rest :
  readable ms after -> After (ms_buf ms) after = run ++ rest ->
  After (ms_buf ms) (after + zlen run) = rest /\ (rest <> [] -> readable ms (after + zlen run)) /\
  (rest = [] -> after + zlen run = nextSeq (ms_buf ms) - 1).
Proof.
  intros R Haf; pose proof R as [Hj (k & Hk & Hct & Hn) Hl Hw Ha Hkept].
  destruct (filter_contiguous k (chunks (ms_buf ms)) after Hct) as [Hf1 Hf2]; specialize (Hf2 ltac:(lia)).
  fold (After (ms_buf ms) after) in Hf1, Hf2; rewrite Haf in Hf1, Hf2; rewrite zlen_app in Hf2.
  pose proof (zlen_nonneg run); pose proof (zlen_nonneg rest); pose proof (zlen_nonneg (chunks (ms_buf ms))).
  assert (Hnext : After (ms_buf ms) (after + zlen run) = List.filter (fun c => negb (Seq c <=? after + zlen run)) (run ++ rest)).
  { rewrite <- Haf; unfold After; clear -H; induction (chunks (ms_buf ms)) as [|c cs IH]; [reflexivity|]; cbn [List.filter].
    destruct (Z.leb_spec (Seq c) after); cbn [negb List.filter];
      [rewrite (proj2 (Z.leb_le _ _)) by lia; exact IH|].
    destruct (negb (Seq c <=? after + zlen run)); congruence. }
  destruct (no_gap ms after k R Hk Hct Hn) as (Hold & _).
  destruct (decide (chunks (ms_buf ms) = [])) as [Hnil|Hne].
  - rewrite Hnext, <- Haf; unfold After in *; rewrite Hnil in *; simpl in *.
    destruct run, rest; try discriminate; rewrite zlen_nil in *; split_and!; auto; [congruence|]; intros _.
    destruct Hkept as [[K _]|K]; [congruence | lia].
  - destruct (Hold Hne) as [Ho Hmx]; assert (Z.max k (after + 1) = after + 1) as Hm by lia; rewrite Hm in Hf1, Hf2.
    split_and!.
    + rewrite Hnext; replace (after + zlen run) with (after + 1 + zlen run - 1) by lia; apply filter_run, Hf1.
    + intros Hr; split; auto; [exists k; auto | | left; split; [exact Hne | lia]].
      destruct rest; [congruence|]; rewrite zlen_cons in *; pose proof (zlen_nonneg rest); lia.
    + intros ->; rewrite zlen_nil in Hf2; lia.
Qed.
End Reads.

(** ** Theorems *)

(** A viewer catches up: reading window after window, each from the last
    sequence number of the one before, a viewer whose cursor is not behind the
    memory ring gets exactly the bytes of every chunk after its cursor, in
    order, in at most one read per chunk, ends at the newest sequence number,
    and is told the output has ended exactly when it has; no read attaches or
    changes the session. *)
Theorem viewer_catches_up `{E : Emulator} `{S : SessionStore} (s : Supervisor) (id c : string) (ms : managedSession) (after : Z) :
  sessions s !! id = Some ms -> readable ms after ->
  Forall (fun x => zlen (Payload x) <= windowBytes) (chunks (ms_buf ms)) ->
  view_from (Datatypes.S (length (After (ms_buf ms) after))) s id c after =
    (payloads (After (ms_buf ms) after), nextSeq (ms_buf ms) - 1, ms_liveClosed ms) /\
  sessions (fst (ReadWindow s id c after)) = sessions s.
Proof.
  intros Hs R Hsz; split.
  - assert (forall fuel s after, sessions s !! id = Some ms -> readable ms after ->
      (length (After (ms_buf ms) after) < fuel)%nat ->
      view_from fuel s id c after = (payloads (After (ms_buf ms) after), nextSeq (ms_buf ms) - 1, ms_liveClosed ms)) as H;
      [|apply H; auto].
    clear s after Hs R; induction fuel as [|fuel IH]; intros s after Hs R Hf; [lia|]; cbn [view_from].
    unfold ReadWindow; rewrite Hs.
    destruct (read_prefix (store s) ms id c after R Hsz) as (w & run & rest & -> & Haf & Hrun & Hd & Hn & _ & Hm & He).
    destruct (After_next ms after run rest R Haf) as (Hnext & Hr1 & Hr2).
    rewrite Hm, Haf, payloads_app, Hd, Hn, He; destruct (bool_decide_reflect (rest = [])) as [->|Hne]; simpl.
    + unfold payloads at 3; simpl; rewrite app_nil_r, andb_true_r, (Hr2 eq_refl); reflexivity.
    + rewrite IH, Hnext; [reflexivity | simpl; apply lookup_insert_eq | auto |].
      rewrite Hnext; rewrite Haf, length_app in Hf; destruct run; [destruct (Hne (Hrun eq_refl))|simpl in Hf; lia].
  - unfold ReadWindow; rewrite Hs.
    destruct (read_prefix (store s) ms id c after R Hsz) as (w & run & rest & -> & _); simpl; apply insert_id, Hs.
Qed.

(** What a window can contain, in any state: never more than the wire limit;
    either a gap, which moves the cursor to the newest sequence number and
    carries a redraw of the current screen or nothing (never raw output from
    the middle), or the bytes of a run of consecutively numbered chunks newer
    than the cursor, all taken from the memory ring or the journal page, with
    the cursor moved to the last of them; it is empty only when there is nothing
    newer there. *)
Theorem window_sound `{E : Emulator} `{S : SessionStore} (st : option St) (ms ms' : managedSession) (id c : string)
    (after old : Z) (w : TerminalWindow) (src : list OutputChunk) :
  terminal_window st ms id c after = (ms', Ok w) ->
  window_source st ms id after (newest ms) = Ok (src, old) ->
  Forall (fun x => 0 <= Seq x /\ Seq x + zlen src < two64 - 1) src ->
  zlen (w_Data w) <= windowBytes /\
  w_Writer w = str_eqb (active ms) c && negb (str_eqb c "") /\
  (w_Gap w = true /\ w_NextSequence w = newest ms /\ w_Data w = default [] (fst (screen_checkpoint ms (newest ms))) \/
   w_Gap w = false /\ w_Data w = [] /\ w_NextSequence w = after /\ Forall (fun x => Seq x <= after) src \/
   w_Gap w = false /\ exists run, run <> [] /\ (forall x, In x run -> In x src) /\
     contiguous (w_FirstSequence w) run /\ after < w_FirstSequence w /\
     w_NextSequence w + 1 = w_FirstSequence w + zlen run /\ w_Data w = payloads run).
Proof.
  unfold terminal_window; destruct (ms_streamJSON ms); [discriminate|]; intros H Hsrc Hb; rewrite Hsrc in H.
  pose proof (screen_checkpoint_bound ms (newest ms)) as Hcp; fold (active ms) in H.
  assert (Hgap : forall r, r = match screen_checkpoint ms (newest ms) with
      | (None, m) => (m, Err (Sentinel ErrSessionRecoveryUnavailable))
      | (Some d, m) => (m, Ok (MkWindow false d old (newest ms) true (ms_liveClosed m)
          (str_eqb (active ms) c && negb (str_eqb c "")) (info_Cols (ms_info ms)) (info_Rows (ms_info ms)))) end ->
    r = (ms', Ok w) -> zlen (w_Data w) <= windowBytes /\ w_Writer w = str_eqb (active ms) c && negb (str_eqb c "") /\
    w_Gap w = true /\ w_NextSequence w = newest ms /\ w_Data w = default [] (fst (screen_checkpoint ms (newest ms)))).
  { intros r ->; revert Hcp; destruct (screen_checkpoint ms (newest ms)) as [[d|] m]; intros Hcp Hr; [|discriminate].
    injection Hr as <- <-; split_and!; simpl in *; auto. }
  destruct (_ && (after <? newest ms)); [destruct (Hgap _ eq_refl H) as (? & ? & ?); auto|].
  destruct (_ || _).
  { clear Hgap; revert H Hcp; destruct (screen_checkpoint ms (newest ms)) as [d m]; intros H Hcp; injection H as <- <-.
    split_and!; simpl in *; auto. }
  destruct (window_loop src after true _) as [w0|] eqn:Ew; [|destruct (Hgap _ eq_refl H) as (? & ? & ?); auto].
  injection H as <- <-; apply window_loop_first in Ew; [|reflexivity|reflexivity|exact Hb]; simpl in *.
  destruct Ew as [[-> Hs]|(run & Hne & Hin & Hct & Hf & Hn & Hd & Hg & Hw & Hz)]; simpl in *.
  - split_and!; [vm_compute; discriminate | reflexivity | right; left; auto].
  - split_and!; [exact Hz | exact Hw | right; right; split; [exact Hg | exists run; auto 10]].
Qed.

Section Sample.
#[local] Existing Instance echo_emulator.
#[local] Existing Instance log_bolt.

(** The sample session after three chunks. *)
Definition sample_reading : Supervisor (S := BoltSessionStore) :=
  sample_state (sample_ops1 ++ [OpRead "s1" (bytes_of_string "there") None 14; OpResize "s1" "a" 100 30 None 15]).

Lemma sample_reading_ms : exists ms, sessions sample_reading !! "s1"%string = Some ms /\ readable ms 1 /\
  Forall (fun x => zlen (Payload x) <= windowBytes) (chunks (ms_buf ms)).
Proof.
  destruct (sessions sample_reading !! "s1"%string) as [ms|] eqn:Es; [|vm_compute in Es; discriminate].
  exists ms; split; [reflexivity|]; vm_compute in Es; injection Es as <-; split.
  - split; try (vm_compute; repeat split; (reflexivity || discriminate)).
    + exists 1; vm_compute; repeat split; discriminate.
    + left; split; vm_compute; discriminate.
  - repeat constructor; vm_compute; discriminate.
Qed.

Lemma viewer_catches_up_witness :
  exists ms, view_from (Datatypes.S (length (After (ms_buf ms) 1))) sample_reading "s1" "v" 1 =
    (payloads (After (ms_buf ms) 1), nextSeq (ms_buf ms) - 1, ms_liveClosed ms).
Proof.
  destruct sample_reading_ms as (ms & Hs & Hr & Hz); exists ms.
  apply (viewer_catches_up sample_reading "s1" "v" ms 1); assumption.
Defined.

Lemma window_sound_witness :
  exists w, snd (ReadWindow sample_reading "s1" "a" 0) = Ok w /\ zlen (w_Data w) <= windowBytes.
Proof.
  destruct (sessions sample_reading !! "s1"%string) as [ms|] eqn:Es; [|vm_compute in Es; discriminate].
  unfold ReadWindow; rewrite Es.
  destruct (terminal_window (store sample_reading) ms "s1" "a" 0) as [ms' r] eqn:Ew; simpl.
  destruct (window_source (store sample_reading) ms "s1" 0 (newest ms)) as [[src old]|e|x] eqn:Esrc;
    [|vm_compute in Es; injection Es as <-; vm_compute in Esrc; discriminate..].
  destruct r as [w|e|x]; [|vm_compute in Es; injection Es as <-; vm_compute in Ew; discriminate..].
  exists w; split; [reflexivity|].
  apply (window_sound (store sample_reading) ms ms' "s1" "a" 0 old w src Ew Esrc).
  vm_compute in Es; injection Es as <-; vm_compute in Esrc; injection Esrc as <- <-.
  repeat constructor; vm_compute; (reflexivity || discriminate).
Defined.
End Sample.
