(* ===== verification/Respond.v ===== *)
(** * Structured responses: internal/bridge/respond.go and the instruction
    path of activity.go

    Answering a provider's pending question or approval, or sending it a new
    instruction, through the provider's own structured interface.  The whole
    operation runs under the session lock and only while no client holds the
    writer slot. *)

From S2P Require Import Prelude Types ByteBuf GoStd Screen Store Session SessionInv Supervisor.

Definition MaxResponseBytes : Z := 16384.

(** A control character other than newline and tab. *)
Definition control_rune (r : Z) : bool :=
  ((r <? 32) && negb (r =? 10) && negb (r =? 9)) || (r =? 127).

Definition ValidateResponse (text : string) : option error :=
  if (MaxResponseBytes <? slen text) || negb (ValidString (chars text)) || blank (chars text)
  then Some (Sentinel ErrInvalidResponse)
  else if existsb control_rune (map fst (runes (chars text))) then Some (Sentinel ErrInvalidResponse)
  else None.

(** How an operation ends: refused before the provider is called, or with the
    provider's answer ([None]: accepted). *)
Inductive dispatch := Refused (e : error) | Dispatched (answer : option error).

Section Respond.
Context `{E : Emulator} `{S : SessionStore}.

(** The checks shared by the operations that borrow the writer slot. *)
Definition slot_free (ms : managedSession) : option error :=
  if ms_recovered ms then Some (Sentinel ErrSessionRecoveryUnavailable)
  else if negb (state_is (info_State (ms_info ms)) SessionStateRunning)
          && negb (state_is (info_State (ms_info ms)) SessionStateAttached)
  then Some (Sentinel ErrSessionNotRunning)
  else if negb (str_eqb (info_ActiveWriterClientID (ms_info ms)) "") then Some (Sentinel ErrWriterConflict)
  else None.

(** The pending request is the one the caller answers. *)
Definition pending_matches (i : Interaction) (pendingID state kind : string) : bool :=
  negb (str_eqb pendingID "") && str_eqb (int_State i) state &&
  match int_Pending i with
  | None => false
  | Some p => str_eqb (pr_Type p) kind && str_eqb (pr_ID p) pendingID
  end.

Definition pendingOperation (s : Supervisor) (id pendingID text : string) (approval : bool) : dispatch :=
  match ValidateResponse text with
  | Some e => Refused e
  | None =>
      match sessions s !! id with
      | None => Refused (Sentinel ErrSessionNotFound)
      | Some ms =>
          match slot_free ms with
          | Some e => Refused e
          | None =>
              let i := info_Interaction (ms_info ms) in
              let '(state, kind) := if approval then (InteractionWaitingForApproval, PendingRequestApproval)
                                    else (InteractionWaitingForInput, PendingRequestInput) in
              if negb (pending_matches i pendingID state kind) then Refused (Sentinel ErrPendingRequestMismatch)
              else if approval then
                match ms_provider ms with
                | None => Refused (Sentinel ErrRemoteResponseUnsupported)
                | Some p =>
                    match prov_DecideApproval p with
                    | None => Refused (Sentinel ErrRemoteResponseUnsupported)
                    | Some decide_approval =>
                        if negb (StructuredApprovalSupported (ev_Capability (int_Evidence i)))
                        then Refused (Sentinel ErrRemoteResponseUnsupported)
                        else Dispatched (decide_approval id pendingID text)
                    end
                end
              else
                match ms_provider ms with
                | None => Refused (Sentinel ErrRemoteResponseUnsupported)
                | Some p =>
                    match prov_RespondToInput p with
                    | None => Refused (Sentinel ErrRemoteResponseUnsupported)
                    | Some respond => Dispatched (respond id pendingID text)
                    end
                end
          end
      end
  end.

Definition DecideApproval (s : Supervisor) (id pendingID decision : string) : dispatch :=
  if negb (str_eqb decision "accept") && negb (str_eqb decision "cancel")
  then Refused (Sentinel ErrInvalidResponse)
  else pendingOperation s id pendingID decision true.

Definition RespondToInput (s : Supervisor) (id pendingID text : string) : dispatch :=
  pendingOperation s id pendingID text false.

Definition SendInstruction (s : Supervisor) (id text : string) : dispatch :=
  match ValidateResponse text with
  | Some e => Refused e
  | None =>
      match sessions s !! id with
      | None => Refused (Sentinel ErrSessionNotFound)
      | Some ms =>
          match slot_free ms with
          | Some e => Refused e
          | None =>
              match ms_provider ms with
              | None => Refused (Sentinel ErrRemoteResponseUnsupported)
              | Some p => match prov_SendInstruction p with
                          | None => Refused (Sentinel ErrRemoteResponseUnsupported)
                          | Some send => Dispatched (send id text)
                          end
              end
          end
      end
  end.

(** ** Specification *)

(** A text that may be sent to a provider. *)
Definition sendable (text : string) : Prop :=
  slen text <= MaxResponseBytes /\ ValidString (chars text) = true /\ blank (chars text) = false /\
  Forall (fun r => (32 <= r \/ r = 10 \/ r = 9) /\ r <> 127) (map fst (runes (chars text))).

(** A session no client is typing into. *)
Definition unattended (ms : managedSession) : Prop :=
  ms_recovered ms = false /\ active ms = ""%string /\
  (info_State (ms_info ms) = SessionStateRunning \/ info_State (ms_info ms) = SessionStateAttached).

Lemma ValidateResponse_None text : ValidateResponse text = None <-> sendable text.
Proof.
  unfold ValidateResponse, sendable; split.
  - destruct (_ || _ || _) eqn:Eb; [discriminate|]; rewrite !orb_false_iff, negb_false_iff, Z.ltb_ge in Eb.
    destruct (existsb _ _) eqn:Ex; [discriminate|]; intros _; split_and!; try tauto.
    apply Forall_forall; intros r Hr.
    assert (control_rune r = false) as Hc.
    { destruct (control_rune r) eqn:Ec; [|reflexivity]; rewrite <- Ex; symmetry; apply existsb_exists; eauto. }
    unfold control_rune in Hc; bool_to_prop; split; [|assumption].
    rewrite andb_false_iff, andb_false_iff, !negb_false_iff, Z.ltb_ge, !Z.eqb_eq in *; tauto.
  - intros (H1 & H2 & H3 & H4); rewrite (proj2 (Z.ltb_ge _ _)), H2, H3 by exact H1; simpl.
    assert (existsb control_rune (map fst (runes (chars text))) = false) as ->; [|reflexivity].
    apply not_true_iff_false; intros K; apply existsb_exists in K as (r & Hr & Hc).
    rewrite Forall_forall in H4; destruct (H4 r Hr) as [Ha Hb]; unfold control_rune in Hc.
    rewrite orb_true_iff, !andb_true_iff, !negb_true_iff, Z.ltb_lt, !Z.eqb_neq, Z.eqb_eq in Hc; lia.
Qed.

Lemma slot_free_None ms : slot_free ms = None <-> unattended ms.
Proof.
  unfold slot_free, unattended, state_is; fold (active ms); destruct (ms_recovered ms); [split; [discriminate | intros []; discriminate]|].
  repeat case_bool_decide; simpl; destruct (str_eqb (active ms) "") eqn:Ea; bool_to_prop; simpl;
    split; try discriminate; intros; try tauto; try (destruct H1 as (_ & _ & [K|K]); congruence).
Qed.

(** The conditions under which the provider is asked. *)
Definition answerable (s : Supervisor) (id pendingID text : string) (approval : bool) (ask : option error) : Prop :=
  sendable text /\ exists ms p pr, sessions s !! id = Some ms /\ unattended ms /\ ms_provider ms = Some p /\
    pendingID <> ""%string /\ int_Pending (info_Interaction (ms_info ms)) = Some pr /\ pr_ID pr = pendingID /\
    if approval then
      int_State (info_Interaction (ms_info ms)) = InteractionWaitingForApproval /\ pr_Type pr = PendingRequestApproval /\
      StructuredApprovalSupported (ev_Capability (int_Evidence (info_Interaction (ms_info ms)))) = true /\
      exists f, prov_DecideApproval p = Some f /\ ask = f id pendingID text
    else
      int_State (info_Interaction (ms_info ms)) = InteractionWaitingForInput /\ pr_Type pr = PendingRequestInput /\
      exists f, prov_RespondToInput p = Some f /\ ask = f id pendingID text.

Lemma pending_matches_spec i pid st kd :
  pending_matches i pid st kd = true <->
  pid <> ""%string /\ int_State i = st /\ exists p, int_Pending i = Some p /\ pr_Type p = kd /\ pr_ID p = pid.
Proof.
  unfold pending_matches; rewrite !andb_true_iff, negb_true_iff, str_eqb_neq, str_eqb_eq.
  destruct (int_Pending i) as [p|]; [rewrite andb_true_iff, !str_eqb_eq|]; split.
  - intros [[H1 H2] [H3 H4]]; eauto 10.
  - intros (H1 & H2 & p' & [= ->] & H3 & H4); auto.
  - intros [_ K]; discriminate.
  - intros (_ & _ & p & K & _); discriminate.
Qed.

Lemma pendingOperation_spec s id pid text approval ask :
  pendingOperation s id pid text approval = Dispatched ask <-> answerable s id pid text approval ask.
Proof.
  unfold pendingOperation, answerable; rewrite <- ValidateResponse_None.
  destruct (ValidateResponse text); [split; [discriminate | intros [K _]; discriminate]|].
  destruct (sessions s !! id) as [ms|] eqn:Es;
    [|split; [discriminate | intros (_ & ms & p & pr & K & _); discriminate]].
  pose proof (slot_free_None ms) as Hf; destruct (slot_free ms).
  { split; [discriminate|]; intros (_ & ms' & p & pr & [= <-] & K & _); apply Hf in K; discriminate. }
  destruct Hf as [Hf _]; specialize (Hf eq_refl).
  pose proof (pending_matches_spec (info_Interaction (ms_info ms)) pid) as Hm; split.
  - intros H; split; [reflexivity|]; destruct approval; simpl in H;
      (match type of H with context [pending_matches ?i ?q ?a ?b] => specialize (Hm a b); destruct (pending_matches i q a b) end;
       [|discriminate]); destruct Hm as [Hm _]; destruct (Hm eq_refl) as (H1 & H2 & pr & H3 & H4 & H5); simpl in H;
      (destruct (ms_provider ms) as [p|] eqn:Ep; [|discriminate]).
    + destruct (prov_DecideApproval p) as [f|] eqn:Ef; [|discriminate].
      destruct (StructuredApprovalSupported _) eqn:Ec; [|discriminate]; injection H as <-; eauto 20.
    + destruct (prov_RespondToInput p) as [f|] eqn:Ef; [|discriminate]; injection H as <-; eauto 20.
  - intros (_ & ms' & p & pr & [= <-] & _ & Hp & H1 & H3 & H5 & H6); rewrite Hp; destruct approval; simpl.
    + destruct H6 as (H2 & H4 & Hc & f & -> & ->).
      rewrite (proj2 (Hm InteractionWaitingForApproval PendingRequestApproval)) by eauto 10; simpl; rewrite Hc; reflexivity.
    + destruct H6 as (H2 & H4 & f & -> & ->).
      rewrite (proj2 (Hm InteractionWaitingForInput PendingRequestInput)) by eauto 10; reflexivity.
Qed.
End Respond.

(** ** Theorems *)

(** A structured response reaches the provider exactly when it may: the text
    is non-blank valid UTF-8 of at most 16384 bytes without control characters,
    the session is a live one nobody is typing into, the caller names the
    request that is pending right now and of the right kind, and the provider
    supports it (for an approval, its evidence too, and the decision is accept
    or cancel); the provider then gets exactly that session, request and text. *)
Theorem response_dispatched_iff `{E : Emulator} `{S : SessionStore} (s : Supervisor) (id pid text : string) (ask : option error) :
  (RespondToInput s id pid text = Dispatched ask <-> answerable s id pid text false ask) /\
  (DecideApproval s id pid text = Dispatched ask <->
   (text = "accept"%string \/ text = "cancel"%string) /\ answerable s id pid text true ask).
Proof.
  split; [apply pendingOperation_spec|]; unfold DecideApproval.
  destruct (str_eqb text "accept") eqn:Ea; bool_to_prop; simpl; [rewrite pendingOperation_spec; tauto|].
  destruct (str_eqb text "cancel") eqn:Ec; bool_to_prop; simpl; [rewrite pendingOperation_spec; tauto|].
  split; [discriminate | tauto].
Qed.
