(* ===== verification/Activity.v ===== *)
(** * Provider activity: internal/bridge/activity.go

    A bounded buffer of allow-listed provider events with sequence numbers, and
    windows on it.  The sizes of the JSON encodings the code measures are the
    two functions of the class [ActivityJSON]. *)

From S2P Require Import Prelude Types GoStd Store.

Record Activity := MkActivity {
  act_Sequence : Z;
  act_At : Time;
  act_Kind : string;
  act_Summary : string;
}.

Record ActivityWindow := MkActivityWindow {
  aw_Events : list Activity;
  aw_NextSequence : Z;
  aw_Gap : bool;
  aw_InstructionSupported : bool;
}.

(** [len(json.Marshal(v))] of an event list and of a window. *)
Class ActivityJSON := {
  json_events : list Activity -> Z;
  json_window : ActivityWindow -> Z;
}.

Record ActivityBuffer := MkActivityBuffer {
  ab_events : list Activity;
  ab_sequence : Z;
}.

Definition empty_activity : ActivityBuffer := MkActivityBuffer [] 0.

Section Activity.
Context `{J : ActivityJSON}.

(** The loop of [trim] on the event list. *)
Fixpoint trim_events (now : Time) (es : list Activity) : list Activity :=
  match es with
  | [] => []
  | e :: rest =>
      if (zlen es <=? 128) && (json_events es <=? 32768) && (now - act_At e <=? 15 * Minute) then es
      else trim_events now rest
  end.

Definition trim (b : ActivityBuffer) (now : Time) : ActivityBuffer :=
  MkActivityBuffer (trim_events now (ab_events b)) (ab_sequence b).

Definition acceptable (kind summary : string) : bool :=
  negb ((32 <? slen kind) || (512 <? slen summary) || negb (ValidString (chars summary))).

Definition AppendActivity (b : ActivityBuffer) (kind summary : string) (now : Time) : ActivityBuffer :=
  if negb (acceptable kind summary) then b
  else
    let q := u64 (ab_sequence b + 1) in
    trim (MkActivityBuffer (ab_events b ++ [MkActivity q now kind summary]) q) now.

(** The loop of [Window] over the events. *)
Fixpoint window_events (maxEvents maxBytes : Z) (after : Z) (es : list Activity) (w : ActivityWindow) : ActivityWindow :=
  match es with
  | [] => w
  | e :: rest =>
      if act_Sequence e <=? after then window_events maxEvents maxBytes after rest w
      else
        let w' := MkActivityWindow (aw_Events w ++ [e]) (act_Sequence e) (aw_Gap w) (aw_InstructionSupported w) in
        if maxBytes <? json_window w' then w
        else if maxEvents <=? zlen (aw_Events w') then w'
        else window_events maxEvents maxBytes after rest w'
  end.

Definition Window (b : ActivityBuffer) (after maxEvents maxBytes : Z) (now : Time) : ActivityBuffer * ActivityWindow :=
  let b := trim b now in
  let maxEvents := if (maxEvents <=? 0) || (128 <? maxEvents) then 128 else maxEvents in
  let maxBytes := if (maxBytes <? 1024) || (32768 <? maxBytes) then 32768 else maxBytes in
  let oldest := match ab_events b with [] => u64 (ab_sequence b + 1) | e :: _ => act_Sequence e end in
  let gap := (after <? u64 (oldest - 1)) || (ab_sequence b <? after) in
  let after := if gap then u64 (oldest - 1) else after in
  (b, window_events maxEvents maxBytes after (ab_events b) (MkActivityWindow [] after gap false)).

(** ** Specification *)

(** Consecutive sequence numbers. *)
Fixpoint numbered (n : Z) (es : list Activity) : Prop :=
  match es with [] => True | e :: r => act_Sequence e = n /\ numbered (n + 1) r end.

(** One operation of the provider or of a reader. *)
Inductive activity_op :=
| ActAppend (kind summary : string) (now : Time)
| ActWindow (after maxEvents maxBytes : Z) (now : Time).

Definition activity_exec (b : ActivityBuffer) (o : activity_op) : ActivityBuffer :=
  match o with
  | ActAppend k m now => AppendActivity b k m now
  | ActWindow after n m now => fst (Window b after n m now)
  end.

Definition activity_run (os : list activity_op) : ActivityBuffer := fold_left activity_exec os empty_activity.

(** The events are the newest ones, consecutively numbered. *)
Definition activity_inv (n : Z) (b : ActivityBuffer) : Prop :=
  0 <= ab_sequence b <= n /\ zlen (ab_events b) <= ab_sequence b /\ zlen (ab_events b) <= 128 /\
  numbered (ab_sequence b - zlen (ab_events b) + 1) (ab_events b).

(** ** Lemmas *)

Lemma numbered_app n l k : numbered n (l ++ k) <-> numbered n l /\ numbered (n + zlen l) k.
Proof.
  revert n; induction l as [|e l IH]; intros n; simpl; [rewrite zlen_nil, Z.add_0_r; tauto|].
  rewrite IH, zlen_cons; replace (n + 1 + zlen l) with (n + (zlen l + 1)) by lia; tauto.
Qed.

Lemma trim_suffix_of now es : exists d, es = d ++ trim_events now es.
Proof.
  induction es as [|e es [d Hd]]; [exists []; reflexivity|]; cbn [trim_events].
  destruct (_ && _ && _); [exists []; reflexivity | exists (e :: d); simpl; congruence].
Qed.

Lemma trim_bounds now es : zlen (trim_events now es) <= 128 /\
  (trim_events now es <> [] -> json_events (trim_events now es) <= 32768) /\
  match trim_events now es with [] => True | e :: _ => now - act_At e <= 15 * Minute end.
Proof.
  induction es as [|e es IH]; cbn [trim_events]; [unfold zlen; simpl; split_and!; auto; try lia; congruence|].
  destruct (_ && _ && _) eqn:Eb; [bool_to_prop; auto | exact IH].
Qed.

Lemma trim_inv n b now : 0 <= n -> ab_sequence b <= n -> 0 <= ab_sequence b -> zlen (ab_events b) <= ab_sequence b ->
  numbered (ab_sequence b - zlen (ab_events b) + 1) (ab_events b) -> activity_inv n (trim b now).
Proof.
  intros Hn Hs H0 Hl Hnum; unfold activity_inv, trim; simpl.
  destruct (trim_suffix_of now (ab_events b)) as [d Hd]; destruct (trim_bounds now (ab_events b)) as [H1 _].
  pose proof (zlen_nonneg d); rewrite Hd in Hl, Hnum; rewrite zlen_app in Hl, Hnum.
  apply numbered_app in Hnum as [_ Hnum]; split_and!; auto; try lia.
  replace (ab_sequence b - zlen (trim_events now (ab_events b)) + 1)
    with (ab_sequence b - (zlen d + zlen (trim_events now (ab_events b))) + 1 + zlen d) by lia; exact Hnum.
Qed.

Lemma activity_exec_inv n b o : 0 <= n -> n + 1 < two64 -> activity_inv n b -> activity_inv (n + 1) (activity_exec b o).
Proof.
  intros Hn0 Hn (H1 & H2 & H3 & H4); destruct o as [k m now|after x y now]; simpl.
  - unfold AppendActivity; destruct (negb _); [unfold activity_inv; split_and!; auto; lia|].
    rewrite u64_small by lia; pose proof (zlen_nonneg (ab_events b)).
    apply trim_inv; simpl; rewrite ?zlen_app, ?zlen_cons, ?zlen_nil; try lia.
    apply numbered_app; simpl; split; [|split; [lia | exact I]].
    replace (ab_sequence b + 1 - (zlen (ab_events b) + (0 + 1)) + 1) with (ab_sequence b - zlen (ab_events b) + 1) by lia; exact H4.
  - apply trim_inv; auto; lia.
Qed.

Lemma activity_run_inv os : zlen os + 1 < two64 -> activity_inv (zlen os) (activity_run os).
Proof.
  induction os as [|o os IH] using rev_ind; intros H; [unfold activity_inv, zlen; simpl; split_and!; (lia || exact I)|].
  rewrite zlen_app, zlen_cons, zlen_nil in *; pose proof (zlen_nonneg os); unfold activity_run; rewrite fold_left_app; simpl.
  replace (zlen os + (0 + 1)) with (zlen os + 1) by lia; apply activity_exec_inv; [lia..|]; apply IH; lia.
Qed.

(** The window loop on consecutive events takes a bounded prefix. *)
Lemma window_events_prefix n m a es w :
  numbered (aw_NextSequence w + 1) es -> a <= aw_NextSequence w -> zlen (aw_Events w) < n ->
  exists run rest, es = run ++ rest /\ window_events n m a es w =
    MkActivityWindow (aw_Events w ++ run) (aw_NextSequence w + zlen run) (aw_Gap w) (aw_InstructionSupported w) /\
    zlen (aw_Events w ++ run) <= n /\
    (rest = [] \/ zlen (aw_Events w ++ run) = n \/
     exists e r, rest = e :: r /\ m < json_window (MkActivityWindow (aw_Events w ++ run ++ [e]) (act_Sequence e) (aw_Gap w) (aw_InstructionSupported w))).
Proof.
  revert w; induction es as [|e es IH]; intros w Hn Ha Hlt.
  - exists [], []; split_and!; auto; rewrite ?app_nil_r, ?zlen_nil, ?Z.add_0_r; destruct w; simpl in *; (reflexivity || lia).
  - destruct Hn as [He Hn]; cbn [window_events]; rewrite (proj2 (Z.leb_gt _ _)) by lia.
    set (w' := MkActivityWindow _ _ _ _); destruct (m <? json_window w') eqn:Em.
    + exists [], (e :: es); bool_to_prop; split_and!; auto; [| |right; right; exists e, es; auto];
        rewrite ?app_nil_r, ?zlen_nil, ?Z.add_0_r; destruct w; simpl in *; (reflexivity || lia).
    + assert (Hlen : zlen (aw_Events w') = zlen (aw_Events w) + 1) by (unfold w'; simpl; autorewrite with bridge; lia).
      destruct (n <=? zlen (aw_Events w')) eqn:Ek; bool_to_prop.
      * exists [e], es; rewrite zlen_cons, zlen_nil; unfold w' in *; simpl in *; split_and!; auto; [f_equal; lia | lia | right; left; lia].
      * destruct (IH w') as (run & rest & -> & Hw & Hb & Hr); [unfold w'; simpl; rewrite He; exact Hn | unfold w'; simpl; lia | exact Ek|].
        exists (e :: run), rest; rewrite zlen_cons; unfold w' in *; simpl in *; rewrite <- !app_assoc in *; simpl in *.
        split_and!; auto; [rewrite Hw; f_equal; lia|].
        destruct Hr as [Hr|[Hr|(e' & r & Hr & Hj)]]; auto; right; right; exists e', r; rewrite <- app_assoc in Hj; auto.
Qed.

Lemma window_events_skip n m a k pre post w :
  numbered k pre -> k + zlen pre <= a + 1 -> window_events n m a (pre ++ post) w = window_events n m a post w.
Proof.
  revert k; induction pre as [|e pre IH]; intros k Hn Hk; [reflexivity|]; destruct Hn as [He Hn].
  rewrite zlen_cons in Hk; pose proof (zlen_nonneg pre); cbn [app window_events]; rewrite (proj2 (Z.leb_le _ _)) by lia.
  apply (IH (k + 1) Hn); lia.
Qed.

(** Consecutive events split at any number inside their range. *)
Lemma numbered_split k es a :
  numbered k es -> k - 1 <= a <= k + zlen es - 1 ->
  exists pre post, es = pre ++ post /\ zlen pre = a - k + 1 /\ numbered (a + 1) post.
Proof.
  revert k; induction es as [|e es IH]; intros k Hn Ha; [exists [], []; rewrite zlen_nil in *; split_and!; auto; lia|].
  rewrite zlen_cons in Ha; destruct Hn as [He Hn]; destruct (Z.eq_dec a (k - 1)) as [->|Hne].
  - exists [], (e :: es); rewrite zlen_nil; split_and!; auto; [lia|]; split; [lia | replace (k - 1 + 1 + 1) with (k + 1) by lia; exact Hn].
  - destruct (IH (k + 1) Hn ltac:(lia)) as (pre & post & -> & Hl & Hp); exists (e :: pre), post; rewrite zlen_cons.
    split_and!; auto; lia.
Qed.

(** Events newer than a sequence number. *)
Definition newer (a : Z) (es : list Activity) : list Activity := List.filter (fun e => a <? act_Sequence e) es.

Lemma newer_split k pre post :
  numbered k (pre ++ post) -> newer (k + zlen pre - 1) (pre ++ post) = post.
Proof.
  revert k; induction pre as [|e pre IH]; intros k Hn; unfold newer in *.
  - apply filter_all; rewrite zlen_nil; simpl in Hn; revert k Hn; induction post as [|e post IHp]; intros k Hn; constructor.
    + destruct Hn; apply Z.ltb_lt; lia.
    + destruct Hn as [_ Hn]; specialize (IHp (k + 1) Hn); revert IHp; apply List.Forall_impl; intros x; rewrite !Z.ltb_lt; lia.
  - destruct Hn as [He Hn]; rewrite zlen_cons; pose proof (zlen_nonneg pre); cbn [app List.filter].
    rewrite (proj2 (Z.ltb_ge _ _)) by lia; replace (k + (zlen pre + 1) - 1) with (k + 1 + zlen pre - 1) by lia; apply IH, Hn.
Qed.
End Activity.

(** ** Theorems *)

(** An activity window: after any appends and reads, the buffer holds the
    newest events, consecutively numbered, at most 128 of them and none older
    than 15 minutes; a window reports a gap exactly when the cursor is older
    than what is retained or ahead of everything, and then restarts at the
    oldest retained event; otherwise, and then too, it returns a prefix of the
    events newer than the cursor, consecutively numbered from it, moves the
    cursor to the last of them, and leaves events out only for a limit. *)
Theorem activity_window_exact `{J : ActivityJSON} (os : list activity_op) (after maxEvents maxBytes now : Z) :
  zlen os + 2 < two64 -> 0 <= after < two64 ->
  let '(b, w) := Window (activity_run os) after maxEvents maxBytes now in
  let oldest := ab_sequence b - zlen (ab_events b) + 1 in
  let cursor := if aw_Gap w then oldest - 1 else after in
  numbered oldest (ab_events b) /\ zlen (ab_events b) <= 128 /\
  (forall e r, ab_events b = e :: r -> now - act_At e <= 15 * Minute) /\
  (aw_Gap w = true <-> after < oldest - 1 \/ ab_sequence b < after) /\
  exists rest, newer cursor (ab_events b) = aw_Events w ++ rest /\ numbered (cursor + 1) (aw_Events w) /\
    aw_NextSequence w = cursor + zlen (aw_Events w) /\ zlen (aw_Events w) <= 128 /\
    (rest = [] \/ 0 < maxEvents /\ zlen (aw_Events w) = maxEvents \/ zlen (aw_Events w) = 128 \/
     exists e r, rest = e :: r /\ 1024 <= json_window (MkActivityWindow (aw_Events w ++ [e]) (act_Sequence e) (aw_Gap w) false)).
Proof.
  intros Hos Hafter; pose proof (activity_run_inv os ltac:(lia)) as (H1 & H2 & H3 & H4).
  unfold Window; set (b := trim (activity_run os) now).
  destruct (trim_inv (zlen os) (activity_run os) now) as (K1 & K2 & K3 & K4);
    [apply zlen_nonneg | lia | lia | exact H2 | exact H4 | fold b in K1, K2, K3, K4].
  set (oldest := ab_sequence b - zlen (ab_events b) + 1) in *; pose proof (zlen_nonneg (ab_events b)).
  assert (Hold : match ab_events b with [] => u64 (ab_sequence b + 1) | e :: _ => act_Sequence e end = oldest).
  { unfold oldest in *; destruct (ab_events b); [rewrite zlen_nil, u64_small; lia | destruct K4 as [-> _]; reflexivity]. }
  rewrite Hold, u64_small by lia.
  set (gap := (after <? oldest - 1) || (ab_sequence b <? after)).
  set (cur := if gap then oldest - 1 else after).
  set (n := if (maxEvents <=? 0) || (128 <? maxEvents) then 128 else maxEvents).
  set (m := if (maxBytes <? 1024) || (32768 <? maxBytes) then 32768 else maxBytes).
  assert (Hgap : gap = true <-> after < oldest - 1 \/ ab_sequence b < after) by (unfold gap; rewrite orb_true_iff, !Z.ltb_lt; tauto).
  assert (Hcur : oldest - 1 <= cur <= ab_sequence b).
  { unfold cur; destruct gap eqn:Eg; [unfold oldest; lia|]; unfold gap in Eg; bool_to_prop; lia. }
  assert (Hn : 0 < n <= 128 /\ (n = 128 \/ n = maxEvents)).
  { unfold n; destruct ((maxEvents <=? 0) || (128 <? maxEvents)) eqn:Eb; [lia|]; bool_to_prop; lia. }
  assert (Hm : 1024 <= m) by (unfold m; destruct ((maxBytes <? 1024) || _) eqn:Eb; [lia|]; bool_to_prop; lia).
  destruct (numbered_split oldest (ab_events b) cur K4 ltac:(unfold oldest in *; lia)) as (pre & post & Hes & Hpre & Hpost).
  assert (Hnew : newer cur (ab_events b) = post).
  { rewrite Hes in K4 |- *; replace cur with (oldest + zlen pre - 1) by lia; apply newer_split, K4. }
  assert (Hpn : numbered oldest pre) by (rewrite Hes in K4; apply numbered_app in K4; tauto).
  set (w0 := MkActivityWindow [] cur gap false).
  assert (Hskip : window_events n m cur (ab_events b) w0 = window_events n m cur post w0)
    by (rewrite Hes; apply (window_events_skip n m cur oldest); [exact Hpn | lia]).
  rewrite Hskip.
  destruct (window_events_prefix n m cur post w0 Hpost (Z.le_refl _) ltac:(simpl; rewrite zlen_nil; lia))
    as (run & rest & Hp & -> & Hb & Hr); simpl in *.
  split; [exact K4|]; split; [exact K3|]; split; [|split; [exact Hgap|]].
  - intros e r He; destruct (trim_bounds now (ab_events (activity_run os))) as (_ & _ & T).
    assert (trim_events now (ab_events (activity_run os)) = e :: r) as K by exact He; rewrite K in T; exact T.
  - fold cur; exists rest; rewrite Hnew, Hp in *; apply numbered_app in Hpost as [Hpost _]; split_and!; auto; [lia|].
    destruct Hr as [Hr|[Hr|(e & r & Hr & Hj)]]; [left; exact Hr| |right; right; right; exists e, r; split; [exact Hr | lia]].
    destruct Hn as [Hn0 [Hn|Hn]]; [right; right; left; lia | right; left; lia].
Qed.

(** Sizes for a concrete run: the lengths of the texts. *)
Definition text_size : ActivityJSON := {|
  json_events es := fold_right (fun e n => slen (act_Summary e) + n) 2 es;
  json_window w := fold_right (fun e n => slen (act_Summary e) + n) 2 (aw_Events w);
|}.

Lemma activity_window_exact_witness :
  aw_NextSequence (snd (Window (J := text_size)
    (activity_run (J := text_size) [ActAppend "tool" "one" 5; ActAppend "tool" "two" 6; ActAppend "tool" "three" 7]) 1 0 0 8)) = 3.
Proof.
  pose proof (activity_window_exact (J := text_size)
    [ActAppend "tool" "one" 5; ActAppend "tool" "two" 6; ActAppend "tool" "three" 7] 1 0 0 8
    ltac:(vm_compute; reflexivity) ltac:(unfold two64; lia)) as H.
  destruct (Window _ _ _ _ _) as [b w] eqn:Ew; simpl.
  destruct H as (_ & _ & _ & _ & rest & _ & _ & Hn & _); rewrite Hn; clear Hn.
  vm_compute in Ew; injection Ew as <- <-; vm_compute; reflexivity.
Defined.
