(* ===== verification/RateLimit.v ===== *)
(** * Rate limits and the circuit breaker: internal/server/ratelimit.go

    A token bucket per key with a circuit breaker, and the keyed limiter that
    holds the buckets.  Tokens and rates are [float64]: the IEEE 754 binary64
    operations are those of the Standard Library's [SpecFloat]. *)

From Stdlib Require Floats.SpecFloat.
From S2P Require Import Prelude.

(** ** binary64 *)

Abbreviation float64 := SpecFloat.spec_float.

Definition f_of_int (z : Z) : float64 := SpecFloat.binary_normalize 53 1024 z 0 false.
Definition f_add : float64 -> float64 -> float64 := SpecFloat.SFadd 53 1024.
Definition f_sub : float64 -> float64 -> float64 := SpecFloat.SFsub 53 1024.
Definition f_mul : float64 -> float64 -> float64 := SpecFloat.SFmul 53 1024.
Definition f_div : float64 -> float64 -> float64 := SpecFloat.SFdiv 53 1024.
Definition f_lt : float64 -> float64 -> bool := SpecFloat.SFltb.
Definition f_le : float64 -> float64 -> bool := SpecFloat.SFleb.
Definition f_zero : float64 := f_of_int 0.
Definition f_one : float64 := f_of_int 1.

(** [Duration.Seconds] *)
Definition Seconds (d : Duration) : float64 :=
  f_add (f_of_int (Z.quot d Second)) (f_div (f_of_int (Z.rem d Second)) (f_of_int 1000000000)).

#[export] Instance float64_eq_dec : EqDecision float64.
Proof. solve_decision. Defined.

(** ** Token bucket *)

Definition circuitBreakerThreshold : Z := 100.
Definition circuitBreakerBanDuration : Duration := 5 * Minute.
Definition Hour : Duration := 60 * Minute.

Record tokenBucket := MkBucket {
  tb_rate : float64;
  tb_burst : float64;
  tb_tokens : float64;
  tb_last : Time;
  tb_lastSeen : Time;
  tb_consecutiveViolations : Z;
  tb_bannedUntil : Time;
}.

Definition newTokenBucket (rate : float64) (burst : Z) (now : Time) : tokenBucket :=
  MkBucket rate (f_of_int burst) (f_of_int burst) now now 0 0.

(** Add what the elapsed time earns, up to the burst. *)
Definition refill (b : tokenBucket) (now : Time) : float64 * Time :=
  let elapsed := Seconds (now - tb_last b) in
  if f_lt f_zero elapsed then
    let tokens := f_add (tb_tokens b) (f_mul elapsed (tb_rate b)) in
    (if f_lt (tb_burst b) tokens then tb_burst b else tokens, now)
  else (tb_tokens b, tb_last b).

Definition bucket_allow (b : tokenBucket) (now : Time) : bool * tokenBucket :=
  if now <? tb_bannedUntil b
  then (false, MkBucket (tb_rate b) (tb_burst b) (tb_tokens b) (tb_last b) now
                        (tb_consecutiveViolations b) (tb_bannedUntil b))
  else
    let '(tokens, last) := refill b now in
    if f_lt tokens f_one then
      let v := tb_consecutiveViolations b + 1 in
      if circuitBreakerThreshold <=? v
      then (false, MkBucket (tb_rate b) (tb_burst b) tokens last now 0 (now + circuitBreakerBanDuration))
      else (false, MkBucket (tb_rate b) (tb_burst b) tokens last now v (tb_bannedUntil b))
    else (true, MkBucket (tb_rate b) (tb_burst b) (f_sub tokens f_one) last now 0 (tb_bannedUntil b)).

Definition isBanned (b : tokenBucket) (now : Time) : bool := now <? tb_bannedUntil b.

(** ** Keyed limiter *)

Record keyedLimiter := MkLimiter {
  kl_rate : float64;
  kl_burst : Z;
  kl_buckets : gmap string tokenBucket;
  kl_ttl : Duration;
}.

Definition newKeyedLimiter (rate : float64) (burst : Z) : keyedLimiter := MkLimiter rate burst ∅ Hour.

Definition cleanupLocked (ttl : Duration) (now : Time) (bs : gmap string tokenBucket) : gmap string tokenBucket :=
  filter (fun kb => ~ ttl < now - tb_lastSeen (snd kb)) bs.

(** A limiter without a positive rate and burst lets everything through. *)
Definition unlimited (l : keyedLimiter) : bool := f_le (kl_rate l) f_zero || (kl_burst l <=? 0).

Definition limiter_allow (l : keyedLimiter) (key : string) (now : Time) : bool * keyedLimiter :=
  if unlimited l then (true, l)
  else
    let b := match kl_buckets l !! key with
             | Some b => b
             | None => newTokenBucket (kl_rate l) (kl_burst l) now
             end in
    let '(allowed, b) := bucket_allow b now in
    (allowed, MkLimiter (kl_rate l) (kl_burst l)
                (cleanupLocked (kl_ttl l) now (<[key := b]> (kl_buckets l))) (kl_ttl l)).

Definition limiter_banned (l : keyedLimiter) (key : string) (now : Time) : bool :=
  match kl_buckets l !! key with
  | None => false
  | Some b => isBanned b now
  end.

(** ** Runs *)

(** The answers to requests, each a key and a time, with the final limiter. *)
Fixpoint limit_run (l : keyedLimiter) (reqs : list (string * Time)) : list (string * Time * bool) * keyedLimiter :=
  match reqs with
  | [] => ([], l)
  | (k, t) :: rest =>
      let '(a, l) := limiter_allow l k t in
      let '(log, l) := limit_run l rest in
      ((k, t, a) :: log, l)
  end.

(** The times and answers of one key. *)
Definition of_key (k : string) (log : list (string * Time * bool)) : list (Time * bool) :=
  map (fun e => (snd (fst e), snd e)) (List.filter (fun e => str_eqb (fst (fst e)) k) log).

(** Where a ban comes from: a hundred refusals in a row, then refusals only
    until the ban is over. *)
Definition earned (h : list (Time * bool)) (until : Time) : Prop :=
  exists pre run t post, h = pre ++ run ++ post /\ zlen run = circuitBreakerThreshold /\
    Forall (fun e => snd e = false) run /\ List.last run (0, true) = (t, false) /\
    until = t + circuitBreakerBanDuration /\ Forall (fun e => fst e < until -> snd e = false) post.

Record bucket_inv (h : list (Time * bool)) (b : tokenBucket) : Prop := {
  bi_streak : exists pre run, h = pre ++ run /\ zlen run = tb_consecutiveViolations b /\
                Forall (fun e => snd e = false) run;
  bi_range : 0 <= tb_consecutiveViolations b < circuitBreakerThreshold;
  bi_ban : tb_bannedUntil b = 0 \/ earned h (tb_bannedUntil b);
}.

(** ** One bucket *)

Lemma earned_extend h until t a :
  earned h until -> (t < until -> a = false) -> earned (h ++ [(t, a)]) until.
Proof.
  intros (pre & run & t0 & post & -> & Hn & Hf & Hl & Hu & Hp) Ha.
  exists pre, run, t0, (post ++ [(t, a)]); rewrite <- !app_assoc; split_and!; auto.
  apply Forall_app; auto.
Qed.

Lemma new_bucket_inv h rate burst now : bucket_inv h (newTokenBucket rate burst now).
Proof.
  split; simpl; [|unfold circuitBreakerThreshold; lia | left; reflexivity].
  exists h, []; rewrite app_nil_r; auto.
Qed.

(** The last refusals, one more refusal later. *)
Lemma streak_slide (h : list (Time * bool)) n e :
  (exists pre run, h = pre ++ run /\ zlen run = n /\ Forall (fun e => snd e = false) run) -> snd e = false ->
  exists pre run, h ++ [e] = pre ++ run /\ zlen run = n /\ Forall (fun e => snd e = false) run.
Proof.
  intros (pre & [|x run] & -> & Hn & Hf) He.
  - exists (pre ++ [e]), []; rewrite !app_nil_r; auto.
  - inversion Hf; subst; exists (pre ++ [x]), (run ++ [e]); rewrite <- !app_assoc; simpl; split_and!; auto.
    + autorewrite with bridge; lia.
    + apply Forall_app; auto.
Qed.

Lemma bucket_allow_step h b now a b' :
  bucket_inv h b -> bucket_allow b now = (a, b') -> bucket_inv (h ++ [(now, a)]) b'.
Proof.
  intros [Hs Hr Hb] H; unfold bucket_allow in H.
  assert (Hext : forall x, (now < tb_bannedUntil b -> x = false) ->
    tb_bannedUntil b = 0 \/ earned (h ++ [(now, x)]) (tb_bannedUntil b)).
  { intros x Hx; destruct Hb as [Hb|Hb]; [left | right; apply earned_extend]; auto. }
  destruct (Z.ltb_spec now (tb_bannedUntil b)).
  { injection H as <- <-; split; simpl; auto; apply streak_slide; auto. }
  destruct (refill b now) as [tokens last]; destruct (f_lt tokens f_one).
  - destruct Hs as (pre & run & -> & Hn & Hf).
    assert (Hf' : Forall (fun e => snd e = false) (run ++ [(now, false)])) by (apply Forall_app; auto).
    destruct (Z.leb_spec circuitBreakerThreshold (tb_consecutiveViolations b + 1)); injection H as <- <-; split; simpl.
    + exists ((pre ++ run) ++ [(now, false)]), []; rewrite app_nil_r; auto.
    + unfold circuitBreakerThreshold; lia.
    + right; exists pre, (run ++ [(now, false)]), now, []; rewrite app_nil_r, <- app_assoc, last_last.
      split_and!; auto; autorewrite with bridge; lia.
    + exists pre, (run ++ [(now, false)]); rewrite <- app_assoc; split_and!; auto; autorewrite with bridge; lia.
    + lia.
    + auto.
  - injection H as <- <-; split; simpl.
    + exists (h ++ [(now, true)]), []; rewrite app_nil_r; auto.
    + unfold circuitBreakerThreshold; lia.
    + apply Hext; lia.
Qed.

(** ** The limiter *)

Definition limiter_inv (log : list (string * Time * bool)) (l : keyedLimiter) : Prop :=
  map_Forall (fun k b => bucket_inv (of_key k log) b) (kl_buckets l).

Lemma of_key_app k a b : of_key k (a ++ b) = of_key k a ++ of_key k b.
Proof. unfold of_key; rewrite List.filter_app, map_app; reflexivity. Qed.

Lemma of_key_one k k' t a : of_key k [(k', t, a)] = if str_eqb k' k then [(t, a)] else [].
Proof. unfold of_key; simpl; destruct (str_eqb k' k); reflexivity. Qed.

(** Buckets after a request: the asked one has answered, the others are as they
    were or gone. *)
Lemma limiter_allow_buckets l k t a l' :
  unlimited l = false -> limiter_allow l k t = (a, l') ->
  exists b', bucket_allow (default (newTokenBucket (kl_rate l) (kl_burst l) t) (kl_buckets l !! k)) t = (a, b') /\
    kl_rate l' = kl_rate l /\ kl_burst l' = kl_burst l /\ kl_ttl l' = kl_ttl l /\
    forall j b, kl_buckets l' !! j = Some b <->
      (if decide (j = k) then b = b' else kl_buckets l !! j = Some b) /\ t - tb_lastSeen b <= kl_ttl l.
Proof.
  intros Hu H; unfold limiter_allow in H; rewrite Hu in H.
  replace (match kl_buckets l !! k with Some b => b | None => _ end)
    with (default (newTokenBucket (kl_rate l) (kl_burst l) t) (kl_buckets l !! k)) in H by (destruct (kl_buckets l !! k); reflexivity).
  destruct (bucket_allow _ t) as [x b'] eqn:Ex; injection H as <- <-; exists b'; split_and!; auto; simpl.
  intros j b; unfold cleanupLocked; rewrite map_lookup_filter_Some; simpl.
  destruct (decide (j = k)) as [->|]; [rewrite lookup_insert_eq | rewrite lookup_insert_ne by auto]; split;
    (intros [K1 K2]; split; [congruence | lia]).
Qed.

Lemma limiter_allow_unlimited l k t : unlimited l = true -> limiter_allow l k t = (true, l).
Proof. unfold limiter_allow; intros ->; reflexivity. Qed.

Lemma limiter_allow_inv log l k t a l' :
  limiter_inv log l -> limiter_allow l k t = (a, l') -> unlimited l = false -> limiter_inv (log ++ [(k, t, a)]) l'.
Proof.
  intros Hi H Hu; destruct (limiter_allow_buckets l k t a l' Hu H) as (b' & Hb & _ & _ & _ & Hl).
  intros j b Hj; apply Hl in Hj as [Hj _]; rewrite of_key_app, of_key_one.
  destruct (decide (j = k)) as [->|Hne].
  - subst b; rewrite str_eqb_refl; eapply bucket_allow_step; [|exact Hb].
    destruct (kl_buckets l !! k) as [b|] eqn:Ek; simpl; [apply Hi, Ek | apply new_bucket_inv].
  - rewrite (proj2 (str_eqb_neq _ _)), app_nil_r by auto; apply Hi, Hj.
Qed.

Lemma limiter_allow_same l k t a l' :
  limiter_allow l k t = (a, l') -> unlimited l' = unlimited l.
Proof.
  intros H; destruct (unlimited l) eqn:Eu.
  - rewrite limiter_allow_unlimited in H by exact Eu; injection H as <- <-; exact Eu.
  - destruct (limiter_allow_buckets l k t a l' Eu H) as (_ & _ & E1 & E2 & _); unfold unlimited in *; rewrite E1, E2; exact Eu.
Qed.

Lemma limit_run_inv reqs l log0 log l' :
  (unlimited l = false -> limiter_inv log0 l) -> limit_run l reqs = (log, l') ->
  unlimited l' = unlimited l /\ (unlimited l = false -> limiter_inv (log0 ++ log) l').
Proof.
  revert l log0 log l'; induction reqs as [|[k t] reqs IH]; intros l log0 log l' Hi H; simpl in H.
  - injection H as <- <-; rewrite app_nil_r; auto.
  - destruct (limiter_allow l k t) as [a l1] eqn:Ea; destruct (limit_run l1 reqs) as [log1 l2] eqn:Er.
    injection H as <- <-; pose proof (limiter_allow_same _ _ _ _ _ Ea) as Hs.
    destruct (IH l1 (log0 ++ [(k, t, a)]) log1 l2) as [H1 H2]; [|exact Er|].
    + intros Hu; eapply limiter_allow_inv; eauto; congruence.
    + rewrite <- app_assoc in H2; simpl in H2; split; [congruence|]; rewrite <- Hs; exact H2.
Qed.

(** An unlimited limiter never keeps a bucket. *)
Lemma limit_run_unlimited reqs l : unlimited l = true -> snd (limit_run l reqs) = l.
Proof.
  intros Hu; induction reqs as [|[k t] reqs IH]; [reflexivity|]; simpl.
  rewrite (limiter_allow_unlimited l k t Hu); destruct (limit_run l reqs); exact IH.
Qed.

(** *** While a ban lasts *)

(** Key [k] is banned until [u] and was seen within the ban. *)
Definition serving (l : keyedLimiter) (k : string) (u : Time) : Prop :=
  unlimited l = false /\ kl_ttl l = Hour /\
  exists b, kl_buckets l !! k = Some b /\ tb_bannedUntil b = u /\ u - circuitBreakerBanDuration <= tb_lastSeen b.

Lemma serving_step l k u j t a l' :
  serving l k u -> u - circuitBreakerBanDuration <= t < u -> limiter_allow l j t = (a, l') ->
  serving l' k u /\ (j = k -> a = false).
Proof.
  intros (Hu & Ht & b & Hb & Hbu & Hseen) Hr H; pose proof (limiter_allow_same _ _ _ _ _ H) as Hs.
  assert (Hh : circuitBreakerBanDuration <= Hour) by (vm_compute; discriminate).
  destruct (limiter_allow_buckets l j t a l' Hu H) as (b' & Hb' & _ & _ & Httl & Hl).
  destruct (decide (k = j)) as [<-|Hne].
  - rewrite Hb in Hb'; simpl in Hb'; unfold bucket_allow in Hb'; rewrite (proj2 (Z.ltb_lt _ _)) in Hb' by lia.
    injection Hb' as <- <-; split; [|reflexivity]; split_and!; [congruence | congruence|].
    eexists; split; [apply Hl; rewrite decide_True by reflexivity; split; [reflexivity | simpl; lia] | simpl; lia].
  - split; [|congruence]; split_and!; [congruence | congruence|].
    exists b; split; [apply Hl; rewrite decide_False by congruence; split; [exact Hb | lia] | lia].
Qed.

Lemma serving_run reqs l k u log l' :
  serving l k u -> Forall (fun r => u - circuitBreakerBanDuration <= snd r < u) reqs -> limit_run l reqs = (log, l') ->
  serving l' k u /\ Forall (fun e => snd e = false) (of_key k log).
Proof.
  revert l log l'; induction reqs as [|[j t] reqs IH]; intros l log l' Hs Hall H; simpl in H.
  - injection H as <- <-; split; [exact Hs | constructor].
  - inversion Hall; subst; destruct (limiter_allow l j t) as [a l1] eqn:Ea; destruct (limit_run l1 reqs) as [log1 l2] eqn:Er.
    injection H as <- <-; destruct (serving_step l k u j t a l1 Hs) as [Hs1 Ha]; auto.
    destruct (IH l1 log1 l2 Hs1) as [H1' H2']; auto; split; [exact H1'|].
    change ((j, t, a) :: log1) with ([(j, t, a)] ++ log1); rewrite of_key_app, of_key_one.
    destruct (str_eqb j k) eqn:Ej; bool_to_prop; [|exact H2']; constructor; [apply Ha, Ej | exact H2'].
Qed.

(** A request that gets its key banned. *)
Lemma ban_starts l k t a l' :
  limiter_banned l k t = false -> limiter_allow l k t = (a, l') -> limiter_banned l' k t = true ->
  0 <= t -> kl_ttl l = Hour -> a = false /\ serving l' k (t + circuitBreakerBanDuration).
Proof.
  intros Hn H Hb H0 Ht; destruct (unlimited l) eqn:Eu.
  { rewrite limiter_allow_unlimited in H by exact Eu; injection H as <- <-; congruence. }
  pose proof (limiter_allow_same _ _ _ _ _ H) as Hs.
  destruct (limiter_allow_buckets l k t a l' Eu H) as (b' & Hb' & _ & _ & Httl & Hl).
  unfold limiter_banned, isBanned in *; destruct (kl_buckets l' !! k) as [b|] eqn:Ek; [|discriminate].
  pose proof (proj1 (Hl k b) Ek) as [Hk _]; rewrite decide_True in Hk by reflexivity; subst b'; bool_to_prop.
  set (b0 := default _ _) in Hb'; assert (Hb0 : tb_bannedUntil b0 <= t).
  { subst b0; destruct (kl_buckets l !! k); simpl; [bool_to_prop; exact Hn | exact H0]. }
  unfold bucket_allow in Hb'; rewrite (proj2 (Z.ltb_ge _ _)) in Hb' by exact Hb0.
  destruct (refill b0 t) as [tokens last]; destruct (f_lt tokens f_one); [|injection Hb' as <- <-; simpl in Hb; lia].
  destruct (_ <=? _); injection Hb' as <- <-; simpl in Hb; [|lia].
  split; [reflexivity|]; split_and!; [congruence | congruence|].
  eexists; split; [exact Ek | simpl; lia].
Qed.

Lemma serving_banned l k u t : serving l k u -> limiter_banned l k t = (t <? u).
Proof. intros (_ & _ & b & Hb & <- & _); unfold limiter_banned, isBanned; rewrite Hb; reflexivity. Qed.

(** *** One instant *)

(** Counting down in binary64 is exact for the bursts checked here. *)
Definition countdown_ok (n : nat) : bool :=
  forallb (fun i => let z := Z.of_nat i in
             negb (f_lt (f_of_int (z + 1)) f_one) &&
             bool_decide (f_sub (f_of_int (z + 1)) f_one = f_of_int z)) (seq 0 n).

Lemma countdown_4096 : countdown_ok 4096 = true.
Proof. vm_compute; reflexivity. Qed.

Lemma countdown_gen n z : countdown_ok n = true -> 0 <= z < Z.of_nat n ->
  f_lt (f_of_int (z + 1)) f_one = false /\ f_sub (f_of_int (z + 1)) f_one = f_of_int z.
Proof.
  unfold countdown_ok; rewrite forallb_forall; intros H Hz.
  specialize (H (Z.to_nat z)); rewrite in_seq, Z2Nat.id in H by lia.
  destruct (andb_prop _ _ (H ltac:(lia))) as [H1 H2]; bool_to_prop; auto.
Qed.

Lemma countdown z : 0 <= z < 4096 ->
  f_lt (f_of_int (z + 1)) f_one = false /\ f_sub (f_of_int (z + 1)) f_one = f_of_int z.
Proof. exact (countdown_gen 4096 z countdown_4096). Qed.

(** A bucket with [n] tokens at the instant it was last filled, and an empty
    one (banned or not). *)
Definition holding (b : tokenBucket) (now : Time) (n : Z) : Prop :=
  tb_last b = now /\ tb_lastSeen b = now /\ tb_bannedUntil b <= now /\ tb_tokens b = f_of_int n.

Definition spent (b : tokenBucket) (now : Time) : Prop :=
  tb_lastSeen b = now /\ (now < tb_bannedUntil b \/ holding b now 0).

Lemma refill_same b now : tb_last b = now -> refill b now = (tb_tokens b, now).
Proof. intros <-; unfold refill; rewrite Z.sub_diag; reflexivity. Qed.

Lemma holding_step b now n :
  holding b now (n + 1) -> 0 <= n < 4096 -> exists b', bucket_allow b now = (true, b') /\ holding b' now n.
Proof.
  intros (H1 & H2 & H3 & H4) Hn; destruct (countdown n Hn) as [Hlt Hs]; unfold bucket_allow.
  rewrite (proj2 (Z.ltb_ge _ _)) by exact H3; rewrite refill_same by exact H1; rewrite H4, Hlt, Hs.
  eexists; split; [reflexivity | repeat split; exact H3].
Qed.

Lemma spent_step b now : spent b now -> exists b', bucket_allow b now = (false, b') /\ spent b' now.
Proof.
  intros [Hseen [Hb|(H1 & H2 & H3 & H4)]]; unfold bucket_allow.
  - rewrite (proj2 (Z.ltb_lt _ _)) by exact Hb; eexists; split; [reflexivity | split; [reflexivity | left; exact Hb]].
  - rewrite (proj2 (Z.ltb_ge _ _)) by exact H3; rewrite refill_same by exact H1; rewrite H4.
    replace (f_lt (f_of_int 0) f_one) with true by reflexivity.
    destruct (_ <=? _); eexists; (split; [reflexivity | split; [reflexivity|]]); simpl.
    + left; unfold circuitBreakerBanDuration, Minute; lia.
    + right; repeat split; simpl; auto.
Qed.

(** Requests of one key at one instant, on a bucket known to hold [m] tokens. *)
Lemma limiter_instant l k t b a b' :
  unlimited l = false -> kl_ttl l = Hour -> default (newTokenBucket (kl_rate l) (kl_burst l) t) (kl_buckets l !! k) = b ->
  bucket_allow b t = (a, b') -> tb_lastSeen b' = t ->
  exists l', limiter_allow l k t = (a, l') /\ unlimited l' = false /\ kl_ttl l' = Hour /\ kl_buckets l' !! k = Some b'.
Proof.
  intros Hu Ht <- Hb Hs; destruct (limiter_allow l k t) as [x l'] eqn:El.
  destruct (limiter_allow_buckets l k t x l' Hu El) as (b2 & Hb2 & _ & _ & Httl & Hl).
  rewrite Hb in Hb2; injection Hb2 as <- <-; exists l'; split; [reflexivity|].
  rewrite (limiter_allow_same _ _ _ _ _ El), Httl; split_and!; auto.
  apply Hl; rewrite decide_True by reflexivity; split; [reflexivity|]; rewrite Hs, Ht, Z.sub_diag; vm_compute; discriminate.
Qed.

Lemma instant_spent n l k t b :
  unlimited l = false -> kl_ttl l = Hour -> kl_buckets l !! k = Some b -> spent b t ->
  map snd (fst (limit_run l (repeat (k, t) n))) = repeat false n.
Proof.
  revert l b; induction n as [|n IH]; intros l b Hu Ht Hb Hs; [reflexivity|].
  destruct (spent_step b t Hs) as (b' & Ha & Hs').
  destruct (limiter_instant l k t b false b' Hu Ht) as (l' & El & Hu' & Ht' & Hb'); [rewrite Hb; reflexivity | exact Ha | apply Hs'|].
  cbn [repeat limit_run]; rewrite El; specialize (IH l' b' Hu' Ht' Hb' Hs').
  destruct (limit_run l' (repeat (k, t) n)); simpl in *; rewrite IH; reflexivity.
Qed.

Lemma instant_holding n m l k t b :
  unlimited l = false -> kl_ttl l = Hour ->
  default (newTokenBucket (kl_rate l) (kl_burst l) t) (kl_buckets l !! k) = b -> holding b t (Z.of_nat m) ->
  (m <= 4096)%nat -> (m = O -> kl_buckets l !! k = Some b) ->
  map snd (fst (limit_run l (repeat (k, t) n))) = repeat true (Nat.min n m) ++ repeat false (n - m).
Proof.
  revert m l b; induction n as [|n IH]; intros m l b Hu Ht Hb Hh Hm H0; [reflexivity|].
  destruct m as [|m].
  - rewrite Nat.min_0_r, Nat.sub_0_r; apply (instant_spent _ l k t b); auto; split; [apply Hh | right; exact Hh].
  - rewrite Nat2Z.inj_succ in Hh; destruct (holding_step b t (Z.of_nat m) Hh) as (b' & Ha & Hh'); [lia|].
    destruct (limiter_instant l k t b true b' Hu Ht Hb Ha) as (l' & El & Hu' & Ht' & Hb'); [apply Hh'|].
    cbn [repeat limit_run]; rewrite El.
    assert (IH' := IH m l' b' Hu' Ht' ltac:(rewrite Hb'; reflexivity) Hh' ltac:(lia) (fun _ => Hb')).
    destruct (limit_run l' (repeat (k, t) n)); simpl in *; rewrite IH'; reflexivity.
Qed.

(** A rate that is not a number passes the check for a limiter that limits, and
    the first refill turns the tokens into no number either: from then on every
    request is allowed. *)
Lemma nan_rate_unlimited :
  let l := newKeyedLimiter SpecFloat.S754_nan 1 in
  unlimited l = false /\
  map snd (fst (limit_run l (("g"%string, 0) :: ("g"%string, 0) :: repeat ("g"%string, 1) 50))) = true :: false :: repeat true 50.
Proof. vm_compute; split; reflexivity. Qed.

(** ** Theorems *)

(** The circuit breaker never strikes without cause: whenever a key is
    banned, its history of requests contains a hundred refusals in a row, the
    last of them less than five minutes ago, and since then, while the ban
    lasted, refusals only.  Requests of other keys do not count. *)
Theorem ban_is_earned (rate : float64) (burst : Z) (reqs : list (string * Time)) (k : string) (now : Time) :
  0 <= now ->
  let '(log, l) := limit_run (newKeyedLimiter rate burst) reqs in
  limiter_banned l k now = true -> exists until, now < until /\ earned (of_key k log) until.
Proof.
  intros H0; destruct (limit_run (newKeyedLimiter rate burst) reqs) as [log l] eqn:Er; intros Hb.
  destruct (limit_run_inv reqs _ [] log l (fun _ => map_Forall_empty _) Er) as [_ Hi].
  unfold limiter_banned, isBanned in Hb; destruct (kl_buckets l !! k) as [b|] eqn:Ek; [|discriminate]; bool_to_prop.
  destruct (unlimited (newKeyedLimiter rate burst)) eqn:Eu.
  - pose proof (limit_run_unlimited reqs _ Eu) as K; rewrite Er in K; simpl in K; subst l; discriminate Ek.
  - destruct (Hi eq_refl k b Ek) as [_ _ [Hz|He]]; [lia | eauto].
Qed.

(** A ban lasts exactly five minutes from the refusal that caused it: that
    request is refused, and whatever requests of any keys follow within the
    ban, every one of the banned key is refused, the ban is neither prolonged
    nor lifted (the clean-up of idle buckets included), and it is over five
    minutes after it began. *)
Theorem ban_lasts (l l1 : keyedLimiter) (k : string) (t now : Time) (a : bool) (reqs : list (string * Time)) :
  kl_ttl l = Hour -> 0 <= t -> limiter_banned l k t = false ->
  limiter_allow l k t = (a, l1) -> limiter_banned l1 k t = true ->
  Forall (fun r => t <= snd r < t + circuitBreakerBanDuration) reqs ->
  a = false /\ Forall (fun e => snd e = false) (of_key k (fst (limit_run l1 reqs))) /\
  limiter_banned (snd (limit_run l1 reqs)) k now = (now <? t + circuitBreakerBanDuration).
Proof.
  intros Ht H0 Hn Ha Hb Hr; destruct (ban_starts l k t a l1 Hn Ha Hb H0 Ht) as [-> Hs]; split; [reflexivity|].
  destruct (limit_run l1 reqs) as [log l2] eqn:Er.
  destruct (serving_run reqs l1 k (t + circuitBreakerBanDuration) log l2 Hs) as [Hs2 Hf]; [|exact Er|].
  - revert Hr; apply List.Forall_impl; intros r; lia.
  - split; [exact Hf | apply serving_banned, Hs2].
Qed.

(** The burst is exact: of [n] simultaneous requests of a key not seen
    before, the first [burst] are accepted and all others refused, for every
    burst up to 4096 (counting tokens down in binary64 loses nothing). *)
Theorem burst_exact (l : keyedLimiter) (k : string) (t : Time) (n : nat) :
  unlimited l = false -> kl_ttl l = Hour -> kl_burst l <= 4096 -> kl_buckets l !! k = None -> 0 <= t ->
  map snd (fst (limit_run l (repeat (k, t) n))) =
  repeat true (Nat.min n (Z.to_nat (kl_burst l))) ++ repeat false (n - Z.to_nat (kl_burst l)).
Proof.
  intros Hu Ht Hb Hk H0; assert (0 < kl_burst l) as Hpos.
  { unfold unlimited in Hu; bool_to_prop; assumption. }
  apply (instant_holding n _ l k t _ Hu Ht eq_refl); rewrite ?Hk; simpl; [|lia|lia].
  repeat split; [exact H0|]; simpl; rewrite Z2Nat.id by lia; reflexivity.
Qed.

(** ** A concrete limiter: two tokens, one per second *)

Definition sample_limiter : keyedLimiter := newKeyedLimiter f_one 2.

Definition hammering (n : nat) : list (string * Time) := repeat ("s1"%string, Second) n.

Lemma ban_is_earned_witness :
  exists until, 2 * Second < until /\ earned (of_key "s1" (fst (limit_run sample_limiter (hammering 102)))) until.
Proof.
  pose proof (ban_is_earned f_one 2 (hammering 102) "s1" (2 * Second)) as H.
  change (newKeyedLimiter f_one 2) with sample_limiter in H.
  destruct (limit_run sample_limiter (hammering 102)) as [log l] eqn:Er.
  apply H; [vm_compute; discriminate|].
  change l with (snd (log, l)); rewrite <- Er; vm_compute; reflexivity.
Defined.

Lemma ban_lasts_witness :
  let l := snd (limit_run sample_limiter (hammering 101)) in
  let l1 := snd (limiter_allow l "s1" Second) in
  limiter_banned (snd (limit_run l1 (hammering 3))) "s1" (5 * Minute) = true.
Proof.
  intros l l1; destruct (ban_lasts l l1 "s1" Second (5 * Minute) false (hammering 3)) as (_ & _ & H).
  - vm_compute; reflexivity.
  - vm_compute; discriminate.
  - vm_compute; reflexivity.
  - rewrite (surjective_pairing (limiter_allow l "s1" Second)); fold l1; f_equal; vm_compute; reflexivity.
  - vm_compute; reflexivity.
  - repeat constructor; vm_compute; (discriminate || reflexivity).
  - rewrite H; reflexivity.
Defined.

Lemma burst_exact_witness :
  map snd (fst (limit_run sample_limiter (hammering 4))) = [true; true; false; false].
Proof. apply (burst_exact sample_limiter "s1" Second 4); vm_compute; (reflexivity || discriminate). Defined.
