(* ===== verification/Server.v ===== *)
(** * The gRPC service: internal/server/server.go, validate.go, interaction.go

    Each unary handler: rate limits, claims, argument checks, authorisation, the
    supervisor calls and the answer.  A handler is a computation in a small
    monad over the server state that can stop with a gRPC status or panic.  The
    streaming handler is in AttachStream.

    The message of a status holds what is formatted into it when that depends on
    the state of the daemon (the project of a session, the error of a call);
    values that repeat the request or the operating system's answer are left
    out.  Logging is not modelled. *)

From S2P Require Import Prelude Types ByteBuf GoStd Policy Registry Screen Store Session Supervisor RateLimit.

(** ** Status codes *)

Inductive code :=
| InvalidArgument | NotFound | AlreadyExists | ResourceExhausted | PermissionDenied
| Unavailable | FailedPrecondition | Internal | Unauthenticated.

#[export] Instance code_eq_dec : EqDecision code.
Proof. solve_decision. Defined.

Record status := MkStatus { st_code : code; st_message : string }.

(** ["%q"], for texts without control characters: the quote and the backslash are
    escaped (runes outside ASCII that Go does not print are not). *)
Fixpoint escaped (s : string) : string :=
  match s with
  | EmptyString => EmptyString
  | String c s => if (Ascii.nat_of_ascii c =? 34)%nat || (Ascii.nat_of_ascii c =? 92)%nat
                  then String (Ascii.ascii_of_nat 92) (String c (escaped s)) else String c (escaped s)
  end.

Definition Quoted (s : string) : string :=
  let dq := String (Ascii.ascii_of_nat 34) EmptyString in dq +:+ escaped s +:+ dq.

(** The text of an error: [errors.New] of errors.go, and what wrapping adds. *)
Definition sentinel_text (s : sentinel) : string :=
  match s with
  | ErrInvalidArgument => "invalid argument"
  | ErrSessionNotFound => "session not found"
  | ErrSessionAlreadyExists => "session already exists"
  | ErrSessionNotRunning => "session not running"
  | ErrSessionRecoveryUnavailable => "session recovered without live transport"
  | ErrSessionAlreadyAttached => "session already has an attached client"
  | ErrClientNotAttached => "client is not attached"
  | ErrClientMismatch => "client does not own attached session"
  | ErrProviderUnavailable => "provider unavailable"
  | ErrRepoSetupFailed => "repo setup failed"
  | ErrSupervisorShuttingDown => "supervisor shutting down"
  | ErrSessionLimitReached => "session limit reached"
  | ErrInputTooLarge => "input too large"
  | ErrWriterConflict => "session already has an active writer"
  | ErrPendingRequestMismatch => "pending input request is no longer current"
  | ErrRemoteResponseUnsupported => "provider does not support remote response"
  | ErrInvalidResponse =>
      "response must be valid nonempty UTF-8 text of at most 16384 bytes without control characters"
  end.

Definition error_text (e : error) : string :=
  match e with
  | Sentinel s => sentinel_text s
  | Wrapped s detail => sentinel_text s +:+ ": " +:+ detail
  | Other msg => msg
  end.

(** The [switch] of [mapBridgeError], its cases in order; the message is
    ["%s: %v"] of the operation and the error. *)
Definition mapBridgeError (err : error) (op : string) : status :=
  let op := (op +:+ ": " +:+ error_text err)%string in
  let err_is s := errors_Is err s in
  if err_is ErrInvalidArgument || err_is ErrSessionNotRunning then MkStatus InvalidArgument op
  else if err_is ErrSessionNotFound then MkStatus NotFound op
  else if err_is ErrSessionAlreadyExists || err_is ErrWriterConflict then MkStatus AlreadyExists op
  else if err_is ErrSessionAlreadyAttached || err_is ErrInputTooLarge then MkStatus ResourceExhausted op
  else if err_is ErrClientNotAttached || err_is ErrClientMismatch then MkStatus PermissionDenied op
  else if err_is ErrProviderUnavailable || err_is ErrSessionRecoveryUnavailable || err_is ErrSupervisorShuttingDown
  then MkStatus Unavailable op
  else if err_is ErrRepoSetupFailed then MkStatus FailedPrecondition op
  else if err_is ErrSessionLimitReached then MkStatus ResourceExhausted op
  else MkStatus Internal op.

(** ** Field validation (validate.go) *)

Definition maxProjectIDLen : Z := 128.
Definition maxSessionIDLen : Z := 64.
Definition maxRepoPathLen : Z := 4096.
Definition maxProviderLen : Z := 64.

(** [uuid.Parse] of github.com/google/uuid: whether the text is accepted. *)
Class UUID := { uuid_Parse : string -> bool }.

(** It accepts the forms xxxxxxxx-xxxx-xxxx-xxxx-xxxxxxxxxxxx, the same after
    [urn:uuid:] or in braces, and 32 hexadecimal digits: none has a slash. *)
Class UUIDLaws `{U : UUID} : Prop := {
  uuid_no_slash s : uuid_Parse s = true -> sep_free (chars s);
}.

Definition bad_rune (allowWhitespaceControl : bool) (r : Z) : bool :=
  ((r =? 127) || (r <? 32)) &&
  negb (allowWhitespaceControl && ((r =? 10) || (r =? 13) || (r =? 9))).

Definition validateStringField (name value : string) (maxLen : Z) (allowWhitespaceControl : bool) : option status :=
  if str_eqb value "" then Some (MkStatus InvalidArgument (name +:+ " is required"))
  else if negb (ValidString (chars value)) then Some (MkStatus InvalidArgument (name +:+ " must be valid UTF-8"))
  else if maxLen <? slen value then Some (MkStatus InvalidArgument (name +:+ " exceeds max length"))
  else if existsb (bad_rune allowWhitespaceControl) (map fst (runes (chars value)))
  then Some (MkStatus InvalidArgument (name +:+ " contains invalid control characters"))
  else None.

Definition validateOptionalStringField (name value : string) (maxLen : Z) (allowWhitespaceControl : bool) : option status :=
  if str_eqb value "" then None else validateStringField name value maxLen allowWhitespaceControl.

Definition validateUUIDField `{U : UUID} (name value : string) : option status :=
  match validateStringField name value maxSessionIDLen false with
  | Some st => Some st
  | None => if negb (uuid_Parse value) then Some (MkStatus InvalidArgument (name +:+ " must be a valid UUID")) else None
  end.

Definition validateByteField (name : string) (value : bytes) (maxLen : Z) : option status :=
  if zlen value =? 0 then Some (MkStatus InvalidArgument (name +:+ " is required"))
  else if maxLen <? zlen value then Some (MkStatus InvalidArgument (name +:+ " exceeds max length"))
  else None.

(** ** Messages *)

Definition i32 (x : Z) : Z := (x + 2147483648) mod two32 - 2147483648.

Inductive SessionStatus :=
| STATUS_UNSPECIFIED | STATUS_STARTING | STATUS_RUNNING | STATUS_ATTACHED
| STATUS_STOPPING | STATUS_STOPPED | STATUS_FAILED.

Definition mapState (s : SessionState) : SessionStatus :=
  match s with
  | SessionStateStarting => STATUS_STARTING
  | SessionStateRunning => STATUS_RUNNING
  | SessionStateAttached => STATUS_ATTACHED
  | SessionStateStopping => STATUS_STOPPING
  | SessionStateStopped => STATUS_STOPPED
  | SessionStateFailed => STATUS_FAILED
  end.

Record SessionInteraction := MkSessionInteraction {
  si_State : string;
  si_Revision : Z;
  si_Source : string;
  si_Capability : InteractionCapabilities;
  si_UpdatedAt : option Time;
  si_LastActivityAt : option Time;
  si_PendingRequest : option PendingRequest;
}.

Definition time_opt (t : Time) : option Time := if Time_IsZero t then None else Some t.

Definition interactionToProto (i : Interaction) : SessionInteraction :=
  MkSessionInteraction (EffectiveState i) (int_Revision i) (ev_Source (int_Evidence i))
    (ev_Capability (int_Evidence i)) (time_opt (int_UpdatedAt i)) (time_opt (int_LastActivityAt i))
    (int_Pending i).

Record GetSessionResponse := MkGetResponse {
  gr_SessionId : string;
  gr_ProjectId : string;
  gr_Provider : string;
  gr_RepoPath : string;
  gr_Status : SessionStatus;
  gr_CreatedAt : Time;
  gr_StoppedAt : option Time;
  gr_Error : string;
  gr_Attached : bool;
  gr_AttachedClientId : string;
  gr_ExitRecorded : bool;
  gr_ExitCode : Z;
  gr_OldestSeq : Z;
  gr_LastSeq : Z;
  gr_Cols : Z;
  gr_Rows : Z;
  gr_ActiveWriterClientId : string;
  gr_ObserverCount : Z;
  gr_Interaction : SessionInteraction;
}.

Definition sessionInfoToProto (info : SessionInfo) : GetSessionResponse :=
  MkGetResponse (info_SessionID info) (info_ProjectID info) (info_Provider info) (info_RepoPath info)
    (mapState (info_State info)) (info_CreatedAt info) (time_opt (info_StoppedAt info)) (info_Error info)
    (info_Attached info) (info_AttachedClientID info) (info_ExitRecorded info) (i32 (info_ExitCode info))
    (info_OldestSeq info) (info_LastSeq info) (info_Cols info) (info_Rows info)
    (info_ActiveWriterClientID info) (i32 (info_ObserverCount info)) (interactionToProto (info_Interaction info)).

Record StartSessionRequest := MkStartRequest {
  sr_ProjectId : string;
  sr_SessionId : string;
  sr_RepoPath : string;
  sr_Provider : string;
  sr_AgentOpts : gmap string string;
  sr_InitialCols : Z;
  sr_InitialRows : Z;
}.

(** Requests of the unary methods that act on sessions. *)
Inductive request :=
| ReqStart (r : StartSessionRequest)
| ReqStop (session : string) (force : bool)
| ReqGet (session : string)
| ReqList (project : string)
| ReqWrite (session client : string) (data : bytes)
| ReqResize (session client : string) (cols rows : Z)
| ReqClaim (session client : string) (force : bool)
| ReqRelease (session client : string).

Inductive response :=
| RespStart (session : string) (st : SessionStatus) (created : Time)
| RespStop (st : SessionStatus)
| RespGet (r : GetSessionResponse)
| RespList (rs : list GetSessionResponse)
| RespWrite (accepted : bool) (written : Z)
| RespResize (applied : bool)
| RespClaim (claimed : bool) (previous : string)
| RespRelease (released : bool).

(** The verified claims of a token: its subject and its project. *)
Record BridgeClaims := MkClaims { Subject : string; ProjectID : string }.

(** ** The server *)

Section Server.
Context `{E : Emulator} `{S : SessionStore} `{U : UUID}.

Record BridgeServer := MkServer {
  supervisor : Supervisor;
  srv_registry : Registry;
  globalRL : keyedLimiter;
  startRL : keyedLimiter;
  writeRL : keyedLimiter;
  serverInstanceID : string;
  providerFallbacks : gmap string (list string);
  version : string;
  goroutines : list string; (* sessions a goroutine was started for, to force their stop *)
}.

Definition with_supervisor (v : Supervisor) (s : BridgeServer) : BridgeServer :=
  MkServer v (srv_registry s) (globalRL s) (startRL s) (writeRL s) (serverInstanceID s)
    (providerFallbacks s) (version s) (goroutines s).

Record RateLimitConfig := MkRateLimits {
  GlobalRPS : float64;
  GlobalBurst : Z;
  StartSessionPerClientRPS : float64;
  StartSessionPerClientBurst : Z;
  SendInputPerSessionRPS : float64;
  SendInputPerSessionBurst : Z;
}.

(** [New]; the fields of enrollment, diagnostics and token verification are not
    modelled. *)
Definition NewServer (sup : Supervisor) (reg : Registry) (rl : RateLimitConfig) (instance : string)
    (fallbacks : gmap string (list string)) (vers : string) : BridgeServer :=
  MkServer sup reg (newKeyedLimiter (GlobalRPS rl) (GlobalBurst rl))
    (newKeyedLimiter (StartSessionPerClientRPS rl) (StartSessionPerClientBurst rl))
    (newKeyedLimiter (SendInputPerSessionRPS rl) (SendInputPerSessionBurst rl)) instance fallbacks vers [].

(** *** Handlers *)

(** How a handler ends. *)
Inductive reply (A : Type) :=
| Reply (a : A)
| Fail (st : status)
| Crash (why : string).
#[global] Arguments Reply {A} a.
#[global] Arguments Fail {A} st.
#[global] Arguments Crash {A} why.

Definition handler (A : Type) : Type := BridgeServer -> BridgeServer * reply A.

Definition ret {A} (a : A) : handler A := fun s => (s, Reply a).
Definition fail {A} (st : status) : handler A := fun s => (s, Fail st).

Definition bind {A B} (m : handler A) (k : A -> handler B) : handler B := fun s =>
  match m s with
  | (s, Reply a) => k a s
  | (s, Fail st) => (s, Fail st)
  | (s, Crash w) => (s, Crash w)
  end.

Notation "x <- m ;; k" := (bind m (fun x => k)) (at level 100, m at next level, right associativity).
Notation "m ;;; k" := (bind m (fun _ => k)) (at level 100, right associativity).

(** A check that passes when it finds no status. *)
Definition check (o : option status) : handler unit := fun s =>
  match o with None => (s, Reply tt) | Some st => (s, Fail st) end.

(** A call of the supervisor whose error is mapped for operation [op]. *)
Definition call {A} (op : string) (f : Supervisor -> Supervisor * outcome A) : handler A := fun s =>
  let '(sup, r) := f (supervisor s) in
  (with_supervisor sup s,
   match r with Ok a => Reply a | Err e => Fail (mapBridgeError e op) | Panic w => Crash w end).

Definition global_limit (now : Time) : handler unit := fun s =>
  let '(ok, l) := limiter_allow (globalRL s) "global" now in
  (MkServer (supervisor s) (srv_registry s) l (startRL s) (writeRL s) (serverInstanceID s)
     (providerFallbacks s) (version s) (goroutines s),
   if ok then Reply tt else Fail (MkStatus ResourceExhausted "global RPC rate limit exceeded")).

Definition start_limit (client : string) (now : Time) : handler unit := fun s =>
  let '(ok, l) := limiter_allow (startRL s) client now in
  (MkServer (supervisor s) (srv_registry s) (globalRL s) l (writeRL s) (serverInstanceID s)
     (providerFallbacks s) (version s) (goroutines s),
   if ok then Reply tt else Fail (MkStatus ResourceExhausted "start session rate limit exceeded for client")).

(** The write limit with its circuit breaker: a banned session is stopped by
    force, in a goroutine. *)
Definition write_limit (session : string) (now now' : Time) : handler unit := fun s =>
  let '(ok, l) := limiter_allow (writeRL s) session now in
  let tripped := negb ok && limiter_banned l session now' in
  (MkServer (supervisor s) (srv_registry s) (globalRL s) (startRL s) l (serverInstanceID s)
     (providerFallbacks s) (version s) (goroutines s ++ if tripped then [session] else []),
   if ok then Reply tt
   else if tripped then Fail (MkStatus Unavailable "write input circuit breaker: session terminated due to sustained rate limit violations")
   else Fail (MkStatus ResourceExhausted "write input rate limit exceeded for session")).

Definition mustClaims (ctx : option BridgeClaims) : handler BridgeClaims :=
  match ctx with
  | Some c => ret c
  | None => fail (MkStatus Unauthenticated "missing claims")
  end.

(** ["token project_id %q does not match request %q"]. *)
Definition project_mismatch (mine other : string) : string :=
  "token project_id " +:+ Quoted mine +:+ " does not match request " +:+ Quoted other.

Definition authorizeProject (claims : BridgeClaims) (projectID : string) : option status :=
  if negb (str_eqb (ProjectID claims) "") && negb (str_eqb (ProjectID claims) projectID)
  then Some (MkStatus PermissionDenied (project_mismatch (ProjectID claims) projectID))
  else None.

Definition authorizeSession (claims : BridgeClaims) (sessionID : string) : handler unit :=
  info <- call "authorize session" (fun sup => (sup, GetSession sup sessionID)) ;;
  check (authorizeProject claims (info_ProjectID info)).

(** [checkDirReadWrite]: [stat] is the error of [os.Stat] or whether the path is
    a directory, [temp] the error of [os.CreateTemp]. *)
Definition checkDirReadWrite (stat : string + bool) (temp : option string) : option string :=
  match stat with
  | inl e => Some e
  | inr false => Some "not a directory"%string
  | inr true => match temp with Some e => Some ("not writable: " +:+ e) | None => None end
  end.

(** What the operating system answers while a session is started. *)
Record start_answers := MkStartAnswers {
  an_stat : string + bool;
  an_temp : option string;
  an_wd : option (list Z);
  an_spawn : spawn_result;
}.

Definition rate_client (claims : BridgeClaims) : string :=
  if str_eqb (Subject claims) "" then ProjectID claims else Subject claims.

Definition start_config (s : BridgeServer) (req : StartSessionRequest) : SessionConfig :=
  MkConfig (sr_ProjectId req) (sr_SessionId req) (sr_RepoPath req)
    (sr_AgentOpts req ∪ {["provider"%string := sr_Provider req]}) None
    (default [] (providerFallbacks s !! sr_Provider req)) (sr_InitialCols req) (sr_InitialRows req).

Definition StartSession (ctx : option BridgeClaims) (req : StartSessionRequest) (now : Time) (an : start_answers)
    : handler response :=
  global_limit now ;;;
  claims <- mustClaims ctx ;;
  check (validateStringField "project_id" (sr_ProjectId req) maxProjectIDLen false) ;;;
  check (validateUUIDField "session_id" (sr_SessionId req)) ;;;
  check (validateStringField "repo_path" (sr_RepoPath req) maxRepoPathLen false) ;;;
  check (validateStringField "provider" (sr_Provider req) maxProviderLen false) ;;;
  check (authorizeProject claims (sr_ProjectId req)) ;;;
  start_limit (rate_client claims) now ;;;
  check (option_map (fun _ => MkStatus PermissionDenied "repo_path") (checkDirReadWrite (an_stat an) (an_temp an))) ;;;
  info <- (fun s => call "start session" (fun sup => Start sup (an_wd an) (start_config s req) (an_spawn an) now) s) ;;
  ret (RespStart (info_SessionID info) (mapState (info_State info)) (info_CreatedAt info)).

(** The opening every other unary handler shares. *)
Definition enter (ctx : option BridgeClaims) (now : Time) : handler BridgeClaims :=
  global_limit now ;;; mustClaims ctx.

Definition StopSession (ctx : option BridgeClaims) (session : string) (force : bool) (now : Time) : handler response :=
  claims <- enter ctx now ;;
  check (validateUUIDField "session_id" session) ;;;
  authorizeSession claims session ;;;
  call "stop session" (fun sup => Stop sup session force) ;;;
  ret (RespStop STATUS_STOPPING).

Definition GetSession_ (ctx : option BridgeClaims) (session : string) (now : Time) : handler response :=
  claims <- enter ctx now ;;
  check (validateUUIDField "session_id" session) ;;;
  authorizeSession claims session ;;;
  info <- call "get session" (fun sup => (sup, GetSession sup session)) ;;
  ret (RespGet (sessionInfoToProto info)).

(** The project whose sessions are listed: the token's, when it has one. *)
Definition list_project (claims : BridgeClaims) (requested : string) : handler string :=
  if str_eqb (ProjectID claims) "" then ret requested
  else if negb (str_eqb requested "") && negb (str_eqb requested (ProjectID claims))
  then fail (MkStatus PermissionDenied (project_mismatch (ProjectID claims) requested))
  else ret (ProjectID claims).

Definition ListSessions_ (ctx : option BridgeClaims) (requested : string) (now : Time) : handler response :=
  claims <- enter ctx now ;;
  projectID <- list_project claims requested ;;
  fun s => (s, Reply (RespList (map sessionInfoToProto (ListSessions (supervisor s) projectID)))).

(** [now'] is the time at which the breaker is consulted, [io] the answer of the
    write to the provider. *)
Definition WriteInput_ (ctx : option BridgeClaims) (session client : string) (data : bytes)
    (now now' : Time) (io : Z * option error) : handler response :=
  claims <- enter ctx now ;;
  check (validateUUIDField "session_id" session) ;;;
  check (validateStringField "client_id" client maxSessionIDLen false) ;;;
  check (validateByteField "data" data 1048576) ;;;
  authorizeSession claims session ;;;
  write_limit session now now' ;;;
  n <- call "write input" (fun sup => WriteInput sup session client data io now) ;;
  ret (RespWrite true (u32 n)).

Definition ResizeSession (ctx : option BridgeClaims) (session client : string) (cols rows : Z)
    (now : Time) (setsize : option error) : handler response :=
  claims <- enter ctx now ;;
  check (validateUUIDField "session_id" session) ;;;
  check (validateStringField "client_id" client maxSessionIDLen false) ;;;
  check (if (cols =? 0) || (rows =? 0) then Some (MkStatus InvalidArgument "cols and rows must be > 0") else None) ;;;
  authorizeSession claims session ;;;
  call "resize session" (fun sup => Resize sup session client cols rows setsize now) ;;;
  ret (RespResize true).

(** The supervisor call of a notification: its panic is the handler's. *)
Definition notify (f : Supervisor -> Supervisor * outcome unit) : handler unit := call "notify" f.

Definition ClaimWriter_ (ctx : option BridgeClaims) (session client : string) (force : bool) (now : Time)
    : handler response :=
  claims <- enter ctx now ;;
  check (validateUUIDField "session_id" session) ;;;
  authorizeSession claims session ;;;
  check (if str_eqb client "" then Some (MkStatus InvalidArgument "client_id is required") else None) ;;;
  previous <- call "claim writer" (fun sup => ClaimWriter sup session client force) ;;
  (if str_eqb previous "" then ret tt else notify (fun sup => NotifyWriterReleased sup session previous)) ;;;
  notify (fun sup => NotifyWriterClaimed sup session client) ;;;
  ret (RespClaim true previous).

Definition ReleaseWriter_ (ctx : option BridgeClaims) (session client : string) (now : Time) : handler response :=
  claims <- enter ctx now ;;
  check (validateUUIDField "session_id" session) ;;;
  authorizeSession claims session ;;;
  check (if str_eqb client "" then Some (MkStatus InvalidArgument "client_id is required") else None) ;;;
  call "release writer" (fun sup => ReleaseWriter sup session client) ;;;
  notify (fun sup => NotifyWriterReleased sup session client) ;;;
  ret (RespRelease true).

(** *** Health and providers: open to every client *)

Record ProviderHealth := MkHealth { ph_Provider : string; ph_Available : bool; ph_Error : string }.

Record HealthResponse := MkHealthResponse {
  hr_Status : string;
  hr_Providers : list ProviderHealth;
  hr_ServerInstanceId : string;
  hr_ServerVersion : string;
}.

Definition Health (s : BridgeServer) : HealthResponse :=
  MkHealthResponse "serving"
    (map (fun e => MkHealth (fst e) (bool_decide (snd e = None)) (default ""%string (snd e)))
         (map_to_list (HealthAll (srv_registry s))))
    (serverInstanceID s) (version s).

Record ProviderInfo := MkProviderInfo { pi_Provider : string; pi_Available : bool; pi_Binary : string; pi_Version : string }.

(** [vers] is what the adapters answer to [Version] (empty on error). *)
Definition ListProviders (vers : Provider -> string) (s : BridgeServer) : list ProviderInfo :=
  let results := HealthAll (srv_registry s) in
  map (fun id =>
         let available := bool_decide (default None (results !! id) = None) in
         MkProviderInfo id available ""
           (match Get (srv_registry s) id with
            | Ok p => if available then vers p else ""%string
            | _ => ""%string
            end))
      (List_ids (srv_registry s)).

(** *** Dispatch *)

(** What the world answers while a request is served. *)
Record world := MkWorld {
  wo_now : Time;
  wo_later : Time;
  wo_start : start_answers;
  wo_io : Z * option error;
  wo_setsize : option error;
}.

Definition serve (ctx : option BridgeClaims) (w : world) (req : request) : handler response :=
  match req with
  | ReqStart r => StartSession ctx r (wo_now w) (wo_start w)
  | ReqStop id force => StopSession ctx id force (wo_now w)
  | ReqGet id => GetSession_ ctx id (wo_now w)
  | ReqList p => ListSessions_ ctx p (wo_now w)
  | ReqWrite id c data => WriteInput_ ctx id c data (wo_now w) (wo_later w) (wo_io w)
  | ReqResize id c cols rows => ResizeSession ctx id c cols rows (wo_now w) (wo_setsize w)
  | ReqClaim id c force => ClaimWriter_ ctx id c force (wo_now w)
  | ReqRelease id c => ReleaseWriter_ ctx id c (wo_now w)
  end.
End Server.
