(* ===== verification/AttachStream.v ===== *)
(** * The attach stream: [BridgeServer.AttachSession]

    The streaming handler of internal/server/server.go.  After the supervisor
    has attached the client it replays what the client missed (from the journal
    for what the ring no longer has, then from the ring), then forwards live
    output, repairing from the journal what its bounded channel dropped, and
    ends with the exit of the process; a deferred call detaches the client.

    The handler runs concurrently with the rest of the daemon, so it is a state
    machine: one step is what it does between two looks at the supervisor, and
    anything may happen to the supervisor between two steps. *)

From S2P Require Import Prelude Types ByteBuf GoStd Policy Registry Screen Store Session SessionInv Supervisor Reach Streams Terminal RateLimit Server.

(** ** Events *)

Inductive AttachEventType :=
| EVENT_OUTPUT | EVENT_THINKING | EVENT_WRITER_CLAIMED | EVENT_WRITER_RELEASED
| EVENT_ATTACHED | EVENT_REPLAY_GAP | EVENT_SESSION_EXIT.

#[export] Instance AttachEventType_eq_dec : EqDecision AttachEventType.
Proof. solve_decision. Defined.

Record AttachSessionEvent := MkEvent {
  ae_Type : AttachEventType;
  ae_Seq : Z;
  ae_Timestamp : Time;
  ae_SessionId : string;
  ae_Payload : bytes;
  ae_Replay : bool;
  ae_OldestSeq : Z;
  ae_LastSeq : Z;
  ae_ExitRecorded : bool;
  ae_ExitCode : Z;
  ae_Cols : Z;
  ae_Rows : Z;
  ae_ThinkingText : string;
  ae_WriterClientId : string;
}.

Definition chunkToProto (sessionID : string) (chunk : OutputChunk) (replay : bool) : AttachSessionEvent :=
  let ev t payload thinking writer :=
    MkEvent t (Seq chunk) (Timestamp chunk) sessionID payload replay 0 0 false 0 (Cols chunk) (Rows chunk) thinking writer in
  match Type_ chunk with
  | ChunkTypeThinking => ev EVENT_THINKING [] (string_of_bytes (Payload chunk)) ""%string
  | ChunkTypeWriterClaimed => ev EVENT_WRITER_CLAIMED [] ""%string (string_of_bytes (Payload chunk))
  | ChunkTypeWriterReleased => ev EVENT_WRITER_RELEASED [] ""%string (string_of_bytes (Payload chunk))
  | ChunkTypeOutput => ev EVENT_OUTPUT (Payload chunk) ""%string ""%string
  end.

Definition attached_event (id : string) (st : AttachState) : AttachSessionEvent :=
  MkEvent EVENT_ATTACHED 0 0 id [] false (as_OldestSeq st) (as_LastSeq st) (as_ExitRecorded st) (i32 (as_ExitCode st))
    (as_Cols st) (as_Rows st) "" "".

Definition gap_event (id : string) (st : AttachState) : AttachSessionEvent :=
  MkEvent EVENT_REPLAY_GAP 0 0 id [] false (as_OldestSeq st) (as_LastSeq st) false 0 0 0 "" "".

Definition exit_event (id : string) (recorded : bool) (code : Z) : AttachSessionEvent :=
  MkEvent EVENT_SESSION_EXIT 0 0 id [] false 0 0 recorded code 0 0 "" "".

(** The current screen sent in place of the output that cannot be replayed. *)
Definition checkpoint_chunk (st : AttachState) (data : bytes) (now : Time) : OutputChunk :=
  MkChunk (as_Cols st) (as_Rows st) (as_LastSeq st) now data ChunkTypeOutput.

(** ** The stream *)

(** How the handler's body returns: nil, a status, or the error of a send. *)
Inductive returned := RetNil | RetStatus (st : status) | RetSendError.

(** What follows a repair: forwarding the live chunk, or the end. *)
Inductive after_repair := ThenForward (chunk : OutputChunk) | ThenExit.

Inductive phase :=
| PhPrefix (* about to load a page of the prefix evicted from memory *)
| PhLive (* at the select on the live channel *)
| PhRepair (target : Z) (next : after_repair) (* in sendMissingThrough *)
| PhClosed (* the live channel is closed and drained *)
| PhExit (* polling for the recorded exit *)
| PhReturn (r : returned) (* the body has returned, the deferred detach is due *)
| PhDone (r : returned)
| PhCrashed (why : string).

Record stream := MkStream {
  sm_session : string;
  sm_client : string;
  sm_afterSeq : Z;
  sm_state : AttachState;
  sm_lastSeq : Z;
  sm_sent : list AttachSessionEvent;
  sm_phase : phase;
}.

Definition to_phase (p : phase) (x : stream) : stream :=
  MkStream (sm_session x) (sm_client x) (sm_afterSeq x) (sm_state x) (sm_lastSeq x) (sm_sent x) p.

Definition to_seq (n : Z) (x : stream) : stream :=
  MkStream (sm_session x) (sm_client x) (sm_afterSeq x) (sm_state x) n (sm_sent x) (sm_phase x).

Section Stream.
Context `{E : Emulator} `{S : SessionStore} `{U : UUID}.

(** [send_ok n]: the transport accepts the event sent after [n] others. *)
Context (send_ok : nat -> bool).

(** [stream.Send]; [None]: it failed. *)
Definition send (ev : AttachSessionEvent) (x : stream) : option stream :=
  if send_ok (length (sm_sent x))
  then Some (MkStream (sm_session x) (sm_client x) (sm_afterSeq x) (sm_state x) (sm_lastSeq x) (sm_sent x ++ [ev]) (sm_phase x))
  else None.

(** A failed send ends the body; its cursor is not read again. *)
Definition broken (x : stream) : stream := to_phase (PhReturn RetSendError) x.

(** Send the chunks of a page while they continue the sequence and [within]
    holds: [inl] when a send failed. *)
Fixpoint send_page (within : Z -> bool) (page : list OutputChunk) (x : stream) : stream + stream :=
  match page with
  | [] => inr x
  | chunk :: rest =>
      if negb (within (Seq chunk)) || negb (Seq chunk =? u64 (sm_lastSeq x + 1)) then inr x
      else match send (chunkToProto (sm_session x) chunk true) x with
           | None => inl (broken x)
           | Some x => send_page within rest (to_seq (Seq chunk) x)
           end
  end.

(** The replay loop: chunks at or before the cursor are skipped. *)
Fixpoint send_replay (cs : list OutputChunk) (x : stream) : stream :=
  match cs with
  | [] => to_phase PhLive x
  | chunk :: rest =>
      if Seq chunk <=? sm_lastSeq x then send_replay rest x
      else match send (chunkToProto (sm_session x) chunk true) x with
           | None => broken x
           | Some x => send_replay rest (to_seq (Seq chunk) x)
           end
  end.

(** The first sequence number the memory ring can replay. *)
Definition replayBefore (x : stream) : Z :=
  let st := sm_state x in
  if (zlen (as_Replay st) =? 0) && (sm_afterSeq x <? as_LastSeq st) then u64 (as_LastSeq st + 1) else as_OldestSeq st.

(** From the end of the durable prefix to the live loop. *)
Definition send_tail (x : stream) (now : Time) : stream :=
  let st := sm_state x in
  if (u64 (sm_lastSeq x + 1) <? replayBefore x) || (as_LastSeq st <? sm_afterSeq x) then
    match send (gap_event (sm_session x) st) x with
    | None => broken x
    | Some x =>
        match as_Checkpoint st with
        | Some (b :: data) =>
            match send (chunkToProto (sm_session x) (checkpoint_chunk st (b :: data) now) true) x with
            | None => broken x
            | Some x => send_replay (as_Replay st) (to_seq (as_LastSeq st) x)
            end
        | _ => send_replay (as_Replay st) x
        end
    end
  else send_replay (as_Replay st) x.

Definition page_of_store (s : Supervisor) (id : string) (after : Z) : list OutputChunk * option error :=
  match StoredReplayPage s id after with Some r => r | None => ([], None) end.

Definition fail_with (msg : string) (x : stream) : stream := to_phase (PhReturn (RetStatus (MkStatus Unavailable msg))) x.

Definition step_prefix (s : Supervisor) (x : stream) (now : Time) : stream :=
  if u64 (sm_lastSeq x + 1) <? replayBefore x then
    match page_of_store s (sm_session x) (sm_lastSeq x) with
    | (_, Some _) => fail_with "saved terminal output unavailable" x
    | (page, None) =>
        match send_page (fun q => q <? replayBefore x) page x with
        | inl x => x
        | inr x' => if sm_lastSeq x' =? sm_lastSeq x then send_tail x' now else x'
        end
    end
  else send_tail x now.

(** One iteration of [sendMissingThrough], or what follows it. *)
Definition step_repair (s : Supervisor) (x : stream) (target : Z) (next : after_repair) : stream :=
  if sm_lastSeq x <? target then
    let lost := fail_with "saved terminal output unavailable during live replay" x in
    match page_of_store s (sm_session x) (sm_lastSeq x) with
    | (_, Some _) => lost
    | ([], None) => lost
    | (c :: page, None) =>
        if negb (Seq c =? u64 (sm_lastSeq x + 1)) then lost
        else match send_page (fun q => q <=? target) (c :: page) x with
             | inl x => x
             | inr x' => if sm_lastSeq x' =? sm_lastSeq x then fail_with "saved terminal output has a sequence gap" x' else x'
             end
    end
  else
    match next with
    | ThenExit => to_phase PhExit x
    | ThenForward chunk =>
        match send (chunkToProto (sm_session x) chunk false) (to_seq (Seq chunk) x) with
        | None => broken x
        | Some x => to_phase PhLive x
        end
    end.

Definition is_control (chunk : OutputChunk) : bool :=
  match Type_ chunk with ChunkTypeWriterClaimed | ChunkTypeWriterReleased => true | _ => false end.

(** A value received from the live channel. *)
Definition forward (chunk : OutputChunk) (x : stream) : stream :=
  if is_control chunk then
    match send (chunkToProto (sm_session x) chunk false) x with None => broken x | Some x => x end
  else if Seq chunk <=? sm_lastSeq x then x
  else if u64 (sm_lastSeq x + 1) <? Seq chunk then to_phase (PhRepair (u64 (Seq chunk - 1)) (ThenForward chunk)) x
  else match send (chunkToProto (sm_session x) chunk false) (to_seq (Seq chunk) x) with
       | None => broken x
       | Some x => x
       end.

(** The select: [over] when the context is done; an empty open channel blocks. *)
Definition step_live (over : bool) (s : Supervisor) (x : stream) : Supervisor * stream :=
  if over then (s, to_phase (PhReturn RetNil) x)
  else match as_Live (sm_state x) with
       | LiveClosed => (s, to_phase PhClosed x)
       | LiveChan c =>
           match receive s (sm_session x) c with
           | (s, Ok (Some chunk)) => (s, forward chunk x)
           | (s, Ok None) => (s, to_phase PhClosed x)
           | (s, _) => (s, x)
           end
       end.

Definition step_closed (s : Supervisor) (x : stream) : stream :=
  match GetSession s (sm_session x) with
  | Ok info => if sm_lastSeq x <? info_LastSeq info then to_phase (PhRepair (info_LastSeq info) ThenExit) x
               else to_phase PhExit x
  | _ => to_phase PhExit x
  end.

(** The exit poll: [over] when its two seconds have passed.  A failed send of
    the exit event is only logged. *)
Definition step_exit (over : bool) (s : Supervisor) (x : stream) : stream :=
  let finish ev := to_phase (PhReturn RetNil) (default x (send ev x)) in
  if over then finish (exit_event (sm_session x) false 0)
  else match GetSession s (sm_session x) with
       | Ok info => if info_ExitRecorded info
                    then finish (exit_event (sm_session x) true (i32 (info_ExitCode info)))
                    else x
       | _ => x
       end.

(** The deferred detach. *)
Definition step_return (s : Supervisor) (x : stream) (r : returned) : Supervisor * stream :=
  let '(s, d) := Detach s (sm_session x) (sm_client x) in
  match d with
  | Ok true =>
      match NotifyWriterReleased s (sm_session x) (sm_client x) with
      | (s, Panic w) => (s, to_phase (PhCrashed w) x)
      | (s, _) => (s, to_phase (PhDone r) x)
      end
  | Panic w => (s, to_phase (PhCrashed w) x)
  | _ => (s, to_phase (PhDone r) x)
  end.

Definition attach_step (over : bool) (now : Time) (s : Supervisor) (x : stream) : Supervisor * stream :=
  match sm_phase x with
  | PhPrefix => (s, step_prefix s x now)
  | PhLive => step_live over s x
  | PhRepair target next => (s, step_repair s x target next)
  | PhClosed => (s, step_closed s x)
  | PhExit => (s, step_exit over s x)
  | PhReturn r => step_return s x r
  | PhDone _ | PhCrashed _ => (s, x)
  end.

(** The opening of the handler, up to the attachment. *)
Definition attach_open (ctx : option BridgeClaims) (session client : string) (after : Z) (observer : bool)
    (generated : string) (now : Time) : handler (string * AttachState) :=
  bind (enter ctx now) (fun claims =>
  bind (check (validateUUIDField "session_id" session)) (fun _ =>
  bind (check (validateOptionalStringField "client_id" client maxSessionIDLen false)) (fun _ =>
  bind (authorizeSession claims session) (fun _ =>
  let clientID := if str_eqb client "" then generated else client in
  let role := if observer then AttachRoleObserver else AttachRoleWriter in
  bind (call "attach session" (fun sup => Attach sup session clientID after role now)) (fun st =>
  ret (clientID, st)))))).

(** The stream once attached: the first event, then the prefix. *)
Definition attach_begin (session client : string) (after : Z) (st : AttachState) : stream :=
  let x := MkStream session client after st after [] PhPrefix in
  match send (attached_event session st) x with None => broken x | Some x => x end.
End Stream.

(** ** Specification *)

(** Terminal data, as opposed to control events. *)
Definition is_data (e : AttachSessionEvent) : bool :=
  match ae_Type e with EVENT_OUTPUT | EVENT_THINKING => true | _ => false end.

Definition data (es : list AttachSessionEvent) : list AttachSessionEvent := List.filter is_data es.

Definition is_gap (e : AttachSessionEvent) : bool := bool_decide (ae_Type e = EVENT_REPLAY_GAP).
Definition is_exit (e : AttachSessionEvent) : bool := bool_decide (ae_Type e = EVENT_SESSION_EXIT).

Fixpoint consecutive (n : Z) (es : list AttachSessionEvent) : Prop :=
  match es with [] => True | e :: r => ae_Seq e = n /\ consecutive (n + 1) r end.

(** Numbers from [n] on, rising, leaving out only numbers that [skip] admits. *)
Fixpoint run_from (skip : Z -> Prop) (n : Z) (es : list AttachSessionEvent) : Prop :=
  match es with
  | [] => True
  | e :: r => n <= ae_Seq e /\ (forall q, n <= q < ae_Seq e -> skip q) /\ run_from skip (ae_Seq e + 1) r
  end.

(** The number after the last one. *)
Fixpoint run_end (n : Z) (es : list AttachSessionEvent) : Z :=
  match es with [] => n | e :: r => run_end (ae_Seq e + 1) r end.

(** Kept output: rising sequence numbers from [n] on. *)
Fixpoint rising (n : Z) (cs : list OutputChunk) : Prop :=
  match cs with [] => True | c :: r => n <= Seq c /\ rising (Seq c + 1) r end.

(** The attachment as the supervisor makes it from the chunks [cs] it keeps (the
    ring of a session, or the journal of an ended one). *)
Definition attach_ok (after : Z) (st : AttachState) : Prop :=
  exists cs, rising 1 cs /\ Forall (fun c => Seq c <= as_LastSeq st) cs /\ 0 <= as_LastSeq st < two64 - 1 /\
    as_OldestSeq st = (match cs with [] => 0 | c :: _ => Seq c end) /\
    (cs <> [] -> Exists (fun c => Seq c = as_LastSeq st) cs) /\
    as_Replay st = List.filter (fun c => negb (Seq c <=? after)) cs.

(** A number after the cursor, between the chunks that are kept, with which none
    is kept. *)
Definition missing (after : Z) (st : AttachState) (q : Z) : Prop :=
  after < q /\ as_OldestSeq st <= q /\ Exists (fun c => q < Seq c) (as_Replay st) /\ Forall (fun c => Seq c <> q) (as_Replay st).

Definition redraws (st : AttachState) : Prop := exists b d, as_Checkpoint st = Some (b :: d).

(** Where the data goes on after a gap event, [n] being the next number before
    it: there, at the first chunk kept, or at the screen of the current number. *)
Definition resumes (after n : Z) (st : AttachState) (q : Z) : Prop :=
  q = n \/
  q = as_OldestSeq st /\ as_Replay st <> [] /\ n < q \/
  q = as_LastSeq st /\ redraws st /\ (n <= q \/ n = after + 1 /\ q < after).

(** The order of what was sent up to cursor [last]: rising numbers from the
    client's cursor on; or the same up to a gap event, and rising numbers from
    where the data resumes. *)
Definition in_order (skip : Z -> Prop) (after : Z) (st : AttachState) (sent : list AttachSessionEvent) (last : Z) : Prop :=
  existsb is_gap sent = false /\ run_from skip (after + 1) (data sent) /\ last + 1 = run_end (after + 1) (data sent) \/
  exists a g b q, sent = a ++ g :: b /\ is_gap g = true /\ existsb is_gap a = false /\ existsb is_gap b = false /\
    run_from skip (after + 1) (data a) /\ resumes after (run_end (after + 1) (data a)) st q /\
    run_from skip q (data b) /\ last + 1 = run_end q (data b).

Lemma data_app a b : data (a ++ b) = data a ++ data b.
Proof. apply List.filter_app. Qed.

Lemma run_end_app n a b : run_end n (a ++ b) = run_end (run_end n a) b.
Proof. revert n; induction a; intros; simpl; auto. Qed.

Lemma run_from_app skip n a b : run_from skip n (a ++ b) <-> run_from skip n a /\ run_from skip (run_end n a) b.
Proof. revert n; induction a as [|e a IH]; intros n; simpl; [tauto | rewrite IH; tauto]. Qed.

Lemma run_end_le skip n es : run_from skip n es -> n <= run_end n es /\ (run_end n es = n -> es = []).
Proof.
  revert n; induction es as [|e es IH]; intros n; simpl; [auto using Z.le_refl|]; intros (H1 & _ & H).
  destruct (IH _ H); split; [lia | intros; lia].
Qed.

Lemma run_from_impl (p1 p2 : Z -> Prop) n es :
  (forall q, n <= q -> p1 q -> p2 q) -> run_from p1 n es -> run_from p2 n es.
Proof.
  revert n; induction es as [|e es IH]; intros n H; simpl; [auto|]; intros (H1 & H2 & H3).
  split_and!; auto; [intros q Hq; apply H; [lia | apply H2; lia] | apply IH; [intros; apply H; [lia | assumption] | exact H3]].
Qed.

Lemma consecutive_app n a b : consecutive n (a ++ b) <-> consecutive n a /\ consecutive (n + zlen a) b.
Proof.
  revert n; induction a as [|e a IH]; intros n; simpl; [rewrite zlen_nil, Z.add_0_r; tauto|].
  rewrite IH, zlen_cons; replace (n + 1 + zlen a) with (n + (zlen a + 1)) by lia; tauto.
Qed.

(** Leaving nothing out is counting on. *)
Lemma run_from_consecutive n es :
  run_from (fun _ => False) n es -> consecutive n es /\ run_end n es = n + zlen es.
Proof.
  revert n; induction es as [|e es IH]; intros n; simpl; [rewrite zlen_nil; split; [auto | lia]|]; intros (H1 & H2 & H3).
  assert (ae_Seq e = n) as He by (destruct (Z.eq_dec (ae_Seq e) n); [assumption | destruct (H2 n); lia]).
  rewrite He in *; destruct (IH _ H3); rewrite zlen_cons; split_and!; auto; lia.
Qed.

Lemma in_order_data skip after st sent last e :
  in_order skip after st sent last -> is_data e = true -> is_gap e = false -> last < ae_Seq e ->
  (forall q, last < q < ae_Seq e -> skip q) -> in_order skip after st (sent ++ [e]) (ae_Seq e).
Proof.
  assert (Hone : is_data e = true -> data [e] = [e]) by (unfold data; simpl; intros ->; reflexivity).
  intros [(Hg & Hc & Hl)|(a & g & b & q & -> & H1 & H2 & H3 & H4 & H5 & H6 & H7)] He Hge Hs Hk.
  - left; rewrite existsb_app, data_app, Hone by exact He; simpl.
    rewrite Hg, Hge, run_from_app, run_end_app, <- Hl; simpl; split_and!; auto; [lia | intros; apply Hk; lia].
  - right; exists a, g, (b ++ [e]), q; rewrite <- app_assoc, existsb_app, data_app, Hone by exact He; simpl.
    rewrite Hge, H3, run_from_app, run_end_app, <- H7; simpl; split_and!; auto; [lia | intros; apply Hk; lia].
Qed.

Lemma in_order_other skip after st sent last e :
  in_order skip after st sent last -> is_data e = false -> is_gap e = false -> in_order skip after st (sent ++ [e]) last.
Proof.
  assert (Hone : is_data e = false -> data [e] = []) by (unfold data; simpl; intros ->; reflexivity).
  intros [(Hg & Hc & Hl)|(a & g & b & q & -> & H1 & H2 & H3 & H4 & H5 & H6 & H7)] He Hge.
  - left; rewrite existsb_app, data_app, Hone by exact He; simpl; rewrite Hg, Hge, app_nil_r; auto.
  - right; exists a, g, (b ++ [e]), q; rewrite <- app_assoc, existsb_app, data_app, Hone by exact He; simpl.
    rewrite Hge, H3, app_nil_r; split_and!; auto.
Qed.

(** A gap event opens the second part, wherever it is to start. *)
Lemma in_order_gap skip after st sent last g q :
  existsb is_gap sent = false -> in_order skip after st sent last -> is_gap g = true ->
  (last + 1 = run_end (after + 1) (data sent) -> resumes after (last + 1) st q) -> in_order skip after st (sent ++ [g]) (q - 1).
Proof.
  intros Hn [(_ & Hc & Hl)|(a & g' & b & ? & -> & H1 & _)] Hg Hq.
  - right; exists sent, g, [], q; rewrite <- Hl; split_and!; simpl; auto; lia.
  - rewrite existsb_app in Hn; simpl in Hn; rewrite H1, orb_true_r in Hn; discriminate.
Qed.

Lemma in_order_impl (p1 p2 : Z -> Prop) after st sent last :
  (forall q, p1 q -> p2 q) -> in_order p1 after st sent last -> in_order p2 after st sent last.
Proof.
  intros Hp [(Hg & Hc & Hl)|(a & g & b & q & -> & H1 & H2 & H3 & H4 & H5 & H6 & H7)].
  - left; split_and!; auto; eapply run_from_impl; [|exact Hc]; auto.
  - right; exists a, g, b, q; split_and!; auto; (eapply run_from_impl; [|eassumption]); auto.
Qed.

Section Correctness.
Context `{E : Emulator} `{S : SessionStore}.
Context (send_ok : nat -> bool).

(** The chunks the session produced, and the last sequence number it reports
    once its output has ended. *)
Context (produced : OutputChunk -> Prop) (final : Z).

(** What the handler relies on in the supervisor it sees at a step: saved pages
    and the live channel carry chunks of this session, numbered below the end
    of the 64-bit range; and a session whose live channel was found closed
    reports its last sequence number. *)
Record sees (x : stream) (s : Supervisor) : Prop := {
  sees_page : forall page, page_of_store s (sm_session x) (sm_lastSeq x) = (page, None) -> Forall produced page;
  sees_live : forall c s' chunk, as_Live (sm_state x) = LiveChan c -> receive s (sm_session x) c = (s', Ok (Some chunk)) ->
    is_output chunk = true -> produced chunk;
  sees_final : sm_phase x = PhClosed -> exists info, GetSession s (sm_session x) = Ok info /\ info_LastSeq info = final;
}.

(** A run of the stream, the daemon doing anything between its steps. *)
Inductive streaming (x0 : stream) : stream -> Prop :=
| streaming_start : streaming x0 x0
| streaming_step x over now s :
    streaming x0 x -> sees x s -> streaming x0 (snd (attach_step send_ok over now s x)).

Hypothesis produced_ok : forall c, produced c -> is_output c = true /\ 0 <= Seq c < two64 - 1.

(** An event the client may get: a chunk of the session as it was produced, the
    redraw at a gap, or no terminal data at all. *)
Definition genuine (id : string) (st : AttachState) (e : AttachSessionEvent) : Prop :=
  is_data e = true ->
  (exists c r, produced c /\ e = chunkToProto id c r) \/
  (exists d now, as_Checkpoint st = Some d /\ e = chunkToProto id (checkpoint_chunk st d now) true).

Definition phase_inv (after : Z) (x : stream) : Prop :=
  match sm_phase x with
  | PhPrefix => existsb is_gap (sm_sent x) = false /\ existsb is_exit (sm_sent x) = false /\
      (sm_lastSeq x = after \/ after < sm_lastSeq x < replayBefore x)
  | PhRepair t (ThenForward c) => produced c /\ Seq c = t + 1 /\ sm_lastSeq x <= t
  | PhRepair t ThenExit => t = final
  | PhExit => final <= sm_lastSeq x
  | _ => True
  end.

Record sent_ok (after : Z) (st : AttachState) (x : stream) : Prop := {
  ok_same : sm_afterSeq x = after /\ sm_state x = st;
  ok_range : 0 <= sm_lastSeq x < two64 - 1;
  ok_order : in_order (missing after st) after st (sm_sent x) (sm_lastSeq x);
  ok_genuine : Forall (genuine (sm_session x) st) (sm_sent x);
  ok_exit : existsb is_exit (sm_sent x) = true -> final <= sm_lastSeq x;
}.

Definition stream_inv (after : Z) (st : AttachState) (x : stream) : Prop := sent_ok after st x /\ phase_inv after x.

Lemma chunk_event id c r :
  is_output c = true -> is_data (chunkToProto id c r) = true /\ is_gap (chunkToProto id c r) = false /\
  is_exit (chunkToProto id c r) = false /\ ae_Seq (chunkToProto id c r) = Seq c.
Proof. unfold is_output, chunkToProto; destruct (Type_ c); intros; try discriminate; auto. Qed.

Lemma control_event id c r :
  is_control c = true -> is_data (chunkToProto id c r) = false /\ is_gap (chunkToProto id c r) = false /\
  is_exit (chunkToProto id c r) = false.
Proof. unfold is_control, chunkToProto; destruct (Type_ c); intros; try discriminate; auto. Qed.

Lemma is_control_output c : is_control c = negb (is_output c).
Proof. unfold is_control, is_output; destruct (Type_ c); reflexivity. Qed.

(** The stream after one more event. *)
Definition after_send (x : stream) (n : Z) (e : AttachSessionEvent) (p : phase) : stream :=
  MkStream (sm_session x) (sm_client x) (sm_afterSeq x) (sm_state x) n (sm_sent x ++ [e]) p.

Lemma sent_ok_phase after st x p : sent_ok after st x -> sent_ok after st (to_phase p x).
Proof. intros [H1 H2 H3 H4 H5]; split; assumption. Qed.

Lemma sent_ok_chunk after st x c r p :
  sent_ok after st x -> produced c -> sm_lastSeq x < Seq c -> (forall q, sm_lastSeq x < q < Seq c -> missing after st q) ->
  sent_ok after st (after_send x (Seq c) (chunkToProto (sm_session x) c r) p).
Proof.
  intros [H1 H2 H3 H4 H5] Hp Hs Hk; destruct (produced_ok c Hp) as [Ho Hr].
  destruct (chunk_event (sm_session x) c r Ho) as (E1 & E2 & E3 & E4); split; simpl; auto.
  - rewrite <- E4; apply (in_order_data _ _ _ _ (sm_lastSeq x)); rewrite ?E4; auto.
  - apply Forall_app; split; [exact H4|]; constructor; [|constructor]; intros _; left; eauto.
  - rewrite existsb_app; simpl; rewrite E3, !orb_false_r; intros K; specialize (H5 K); lia.
Qed.

(** The chunk that is due. *)
Lemma sent_ok_next after st x c r p :
  sent_ok after st x -> produced c -> Seq c = sm_lastSeq x + 1 ->
  sent_ok after st (after_send x (Seq c) (chunkToProto (sm_session x) c r) p).
Proof. intros Hx Hp Hs; apply sent_ok_chunk; auto; intros; lia. Qed.

Lemma sent_ok_other after st x e p :
  sent_ok after st x -> is_data e = false -> is_gap e = false -> (is_exit e = true -> final <= sm_lastSeq x) ->
  sent_ok after st (after_send x (sm_lastSeq x) e p).
Proof.
  intros [H1 H2 H3 H4 H5] E1 E2 E3; split; simpl; auto.
  - apply in_order_other; auto.
  - apply Forall_app; split; [exact H4|]; constructor; [|constructor]; unfold genuine; congruence.
  - rewrite existsb_app; simpl; rewrite orb_false_r, orb_true_iff; intros [K|K]; auto.
Qed.

(** *** Pages and replay *)

Lemma send_page_ok within page x after st :
  sent_ok after st x -> Forall produced page ->
  match send_page send_ok within page x with
  | inl x' => sent_ok after st x' /\ sm_phase x' = PhReturn RetSendError
  | inr x' => sent_ok after st x' /\ sm_phase x' = sm_phase x /\
      (x' = x \/ sm_lastSeq x < sm_lastSeq x' /\ within (sm_lastSeq x') = true) /\ sm_session x' = sm_session x /\
      existsb is_gap (sm_sent x') = existsb is_gap (sm_sent x) /\ existsb is_exit (sm_sent x') = existsb is_exit (sm_sent x)
  end.
Proof.
  revert x; induction page as [|c page IH]; intros x Hx Hp; cbn [send_page]; [auto 10|].
  inversion Hp as [|? ? Hc Hp']; subst; destruct (produced_ok c Hc) as [Ho Hr].
  pose proof (ok_range _ _ _ Hx) as Hrx.
  destruct (within (Seq c)) eqn:Ew; [|simpl; auto 10].
  rewrite u64_small by lia; destruct (Seq c =? sm_lastSeq x + 1) eqn:Es; simpl; [|auto 10]; bool_to_prop.
  unfold send; destruct (send_ok _); [|split; [apply sent_ok_phase, Hx | reflexivity]].
  assert (K := IH (after_send x (Seq c) (chunkToProto (sm_session x) c true) (sm_phase x))
                 (sent_ok_next _ _ _ _ _ _ Hx Hc Es) Hp').
  unfold to_seq; cbn [sm_session sm_client sm_afterSeq sm_state sm_sent sm_phase]; unfold after_send in K.
  destruct (chunk_event (sm_session x) c true Ho) as (_ & E2 & E3 & _).
  destruct (send_page _ _ _ _) as [y|y]; [exact K|]; destruct K as (K1 & K2 & K3 & K4 & K5 & K6); simpl in *.
  rewrite existsb_app in K5, K6; simpl in K5, K6; rewrite E2 in K5; rewrite E3 in K6; rewrite !orb_false_r in *.
  split_and!; auto; right; destruct K3 as [->|[K3 K3']]; simpl; [split; [lia | exact Ew] | split; [lia | exact K3']].
Qed.

Definition settled (x : stream) : Prop := sm_phase x = PhLive \/ exists r, sm_phase x = PhReturn r.

Definition good (after : Z) (st : AttachState) (x : stream) : Prop := sent_ok after st x /\ settled x.

Lemma settled_phase after x : settled x -> phase_inv after x.
Proof. unfold phase_inv; intros [->|[r ->]]; exact I. Qed.

Lemma rising_weaken m n cs : m <= n -> rising n cs -> rising m cs.
Proof. destruct cs; simpl; intros; [auto | destruct H0; split; [lia | assumption]]. Qed.

Lemma rising_ge n cs : rising n cs -> Forall (fun c => n <= Seq c) cs.
Proof.
  revert n; induction cs as [|c cs IH]; intros n; simpl; [constructor|]; intros [H1 H2]; constructor; [exact H1|].
  eapply Forall_impl; [|apply IH, H2]; simpl; intros; lia.
Qed.

Lemma rising_filter n a cs : rising n cs -> rising (Z.max n (a + 1)) (List.filter (fun c => negb (Seq c <=? a)) cs).
Proof.
  revert n; induction cs as [|c cs IH]; intros n; simpl; [auto|]; intros [H1 H2]; specialize (IH _ H2).
  destruct (Z.leb_spec (Seq c) a); simpl; [|split; [lia|]]; eapply rising_weaken; try exact IH; lia.
Qed.

(** The rest [cs] of the replay, from a cursor that has passed what comes before
    it and stands within the kept output. *)
Lemma send_replay_ok pre cs x after st :
  sent_ok after st x -> Forall produced cs -> as_Replay st = pre ++ cs -> Forall (fun c => Seq c <= sm_lastSeq x) pre ->
  (exists n, rising n cs) -> (cs <> [] -> as_OldestSeq st <= sm_lastSeq x + 1 /\ after <= sm_lastSeq x) ->
  good after st (send_replay send_ok cs x).
Proof.
  revert pre x; induction cs as [|c cs IH]; intros pre x Hx Hp Hst Hpre [n Hasc] Hj; cbn [send_replay].
  - split; [apply sent_ok_phase, Hx | left; reflexivity].
  - inversion Hp as [|? ? Hc Hp']; subst; destruct Hasc as [_ Hasc].
    assert (Hst' : as_Replay st = (pre ++ [c]) ++ cs) by (rewrite <- app_assoc; exact Hst).
    specialize (Hj ltac:(discriminate)).
    destruct (Z.leb_spec (Seq c) (sm_lastSeq x)).
    { apply (IH (pre ++ [c])); eauto; apply Forall_app; split; [exact Hpre | repeat constructor; assumption]. }
    unfold send; destruct (send_ok _); [|split; [apply sent_ok_phase, Hx | right; eexists; reflexivity]].
    apply (IH (pre ++ [c])); eauto; [| |simpl; lia].
    + apply (sent_ok_chunk _ _ x c true (sm_phase x)); auto; intros q Hq; split; [lia|]; split; [lia|].
      rewrite Hst; split; [apply Exists_app; right; constructor; lia|]; apply Forall_app; split; [|constructor; [lia|]].
      * eapply Forall_impl; [|exact Hpre]; simpl; intros; lia.
      * eapply Forall_impl; [|apply rising_ge, Hasc]; simpl; intros; lia.
    + simpl; apply Forall_app; split; [|repeat constructor; lia].
      eapply Forall_impl; [|exact Hpre]; simpl; intros; lia.
Qed.

(** *** From the prefix to the live loop *)

(** A gap event, and the data event [e] that may follow it at once. *)
Lemma sent_ok_gap after st x p :
  sent_ok after st x -> existsb is_gap (sm_sent x) = false ->
  sent_ok after st (after_send x (sm_lastSeq x) (gap_event (sm_session x) st) p).
Proof.
  intros [H1 H2 H3 H4 H5] Hg; split; simpl; auto.
  - replace (sm_lastSeq x) with (sm_lastSeq x + 1 - 1) by lia; apply (in_order_gap _ _ _ _ (sm_lastSeq x)); auto.
    intros _; left; reflexivity.
  - apply Forall_app; split; [exact H4|]; constructor; [discriminate | constructor].
  - rewrite existsb_app; simpl; rewrite !orb_false_r; exact H5.
Qed.

Lemma sent_ok_gap_data after st x e p :
  sent_ok after st x -> existsb is_gap (sm_sent x) = false -> existsb is_exit (sm_sent x) = false ->
  is_data e = true -> is_gap e = false -> is_exit e = false -> genuine (sm_session x) st e -> 0 <= ae_Seq e < two64 - 1 ->
  resumes after (sm_lastSeq x + 1) st (ae_Seq e) ->
  sent_ok after st (after_send (after_send x (sm_lastSeq x) (gap_event (sm_session x) st) p) (ae_Seq e) e p).
Proof.
  intros [H1 H2 H3 H4 H5] Hg Hx E1 E2 E3 Hge Hr Hq; split; simpl; auto.
  - apply (in_order_data _ _ _ _ (ae_Seq e - 1)); auto; try lia.
    apply (in_order_gap _ _ _ _ (sm_lastSeq x)); auto.
  - rewrite !Forall_app; split_and!; [exact H4 | constructor; [discriminate | constructor] | constructor; [exact Hge | constructor]].
  - rewrite !existsb_app; simpl; rewrite Hx, E3; discriminate.
Qed.

(** What an attachment says about the kept output. *)
Record kept (after : Z) (st : AttachState) : Prop := {
  kept_rising : rising (after + 1) (as_Replay st);
  kept_le : Forall (fun c => Seq c <= as_LastSeq st) (as_Replay st);
  kept_last : 0 <= as_LastSeq st < two64 - 1;
  kept_head : after < as_OldestSeq st -> exists r c, as_Replay st = c :: r /\ Seq c = as_OldestSeq st;
  kept_some : as_Replay st <> [] -> after < as_LastSeq st;
  kept_none : as_Replay st = [] -> after < as_LastSeq st -> as_OldestSeq st = 0;
  kept_oldest : as_OldestSeq st <= as_LastSeq st;
}.

Lemma attach_ok_kept after st : attach_ok after st -> 0 <= after -> kept after st.
Proof.
  intros (cs & Ha & Hle & HL & Ho & Hex & Hr) H0.
  assert (Hf := rising_filter 1 after cs Ha); rewrite Z.max_r, <- Hr in Hf by lia.
  assert (Hin : Forall (fun c => Seq c <= as_LastSeq st) (as_Replay st)).
  { rewrite Hr, Forall_forall in *; intros c Hc; apply filter_In in Hc as [Hc _]; apply Hle, Hc. }
  split; auto; try lia.
  - intros Hlt; destruct cs as [|c cs]; [lia|]; destruct Ha as [_ Ha].
    exists cs, c; split; [|auto]; rewrite Hr; apply filter_all; constructor; [bool_to_prop; lia|].
    eapply Forall_impl; [|apply rising_ge, Ha]; simpl; intros d Hd; rewrite negb_true_iff, Z.leb_gt; lia.
  - destruct (as_Replay st); [congruence|]; destruct Hf; inversion Hin; subst; intros; lia.
  - intros He Hlt; destruct cs as [|c cs]; [exact Ho|]; exfalso.
    specialize (Hex ltac:(discriminate)); apply Exists_exists in Hex as (d & Hd & Hs).
    assert (In d (as_Replay st)) as K; [|rewrite He in K; destruct K].
    rewrite Hr; apply filter_In; split; [exact Hd | rewrite negb_true_iff, Z.leb_gt; lia].
  - destruct cs as [|c cs]; [lia|]; inversion Hle; subst; lia.
Qed.

(** The prefix invariant in terms of the attachment. *)
Lemma replayBefore_eq after st x :
  kept after st -> sm_afterSeq x = after /\ sm_state x = st ->
  replayBefore x = if bool_decide (as_Replay st = []) && (after <? as_LastSeq st) then as_LastSeq st + 1 else as_OldestSeq st.
Proof.
  intros Hk [H1 H2]; pose proof (kept_last _ _ Hk).
  unfold replayBefore; rewrite H1, H2, u64_small by lia; destruct (as_Replay st); reflexivity.
Qed.

Lemma cursor_before_gap after st x :
  kept after st -> sent_ok after st x -> existsb is_gap (sm_sent x) = false ->
  sm_lastSeq x = after \/ after < sm_lastSeq x < replayBefore x ->
  (sm_lastSeq x + 1 <? replayBefore x) || (as_LastSeq st <? after) = true ->
  sm_lastSeq x < as_LastSeq st \/ sm_lastSeq x = after /\ as_LastSeq st < after.
Proof.
  intros Hk Hx Hg Hpos Hgap; pose proof (kept_last _ _ Hk) as HL; pose proof (kept_oldest _ _ Hk) as Ho.
  rewrite (replayBefore_eq after st x Hk (ok_same _ _ _ Hx)) in *.
  apply orb_prop in Hgap; rewrite !Z.ltb_lt in Hgap.
  destruct Hgap as [Hgap|Hgap]; [left; destruct (bool_decide _ && _); lia|].
  rewrite (proj2 (Z.ltb_ge after (as_LastSeq st))), andb_false_r in Hpos by lia; right; lia.
Qed.

Lemma replay_after_gap after st x :
  sent_ok after st x -> existsb is_gap (sm_sent x) = false -> existsb is_exit (sm_sent x) = false ->
  Forall produced (as_Replay st) -> kept after st ->
  (as_Replay st <> [] -> after < as_OldestSeq st /\ sm_lastSeq x + 1 < as_OldestSeq st) ->
  let x1 := after_send x (sm_lastSeq x) (gap_event (sm_session x) st) (sm_phase x) in
  good after st (send_replay send_ok (as_Replay st) x1).
Proof.
  intros Hx Hg He Hp Hk Hj x1; pose proof (sent_ok_gap after st x (sm_phase x) Hx Hg) as Hx1; fold x1 in Hx1.
  destruct (as_Replay st) as [|c r] eqn:Er; [split; [apply sent_ok_phase, Hx1 | left; reflexivity]|].
  inversion Hp as [|? ? Hc Hp']; subst; specialize (Hj ltac:(discriminate)).
  destruct (kept_head _ _ Hk (proj1 Hj)) as (r' & c' & Eq & Hs); rewrite Er in Eq; injection Eq as <- <-.
  pose proof (kept_rising _ _ Hk) as Ha; rewrite Er in Ha; destruct Ha as [_ Ha].
  destruct (produced_ok c Hc) as [Ho Hr]; cbn [send_replay].
  rewrite (proj2 (Z.leb_gt _ _)) by (simpl; lia).
  unfold send; destruct (send_ok _); [|split; [apply sent_ok_phase, Hx1 | right; eexists; reflexivity]].
  destruct (chunk_event (sm_session x) c true Ho) as (E1 & E2 & E3 & E4).
  apply (send_replay_ok [c] r); eauto; [|repeat constructor; simpl; lia | simpl; lia].
  pose proof (sent_ok_gap_data after st x (chunkToProto (sm_session x) c true) (sm_phase x)) as K; rewrite E4 in K.
  apply K; auto; [intros _; left; eauto | right; left; split_and!; [lia | congruence | lia]].
Qed.

Lemma send_tail_ok after st x now :
  attach_ok after st -> 0 <= after -> Forall produced (as_Replay st) -> sent_ok after st x ->
  existsb is_gap (sm_sent x) = false -> existsb is_exit (sm_sent x) = false ->
  sm_lastSeq x = after \/ after < sm_lastSeq x < replayBefore x ->
  good after st (send_tail send_ok x now).
Proof.
  intros Hok Ha Hrp Hx Hg He Hpos; pose proof (attach_ok_kept after st Hok Ha) as Hk.
  pose proof (ok_range _ _ _ Hx) as Hrg; destruct (ok_same _ _ _ Hx) as [Haf Hst].
  pose proof (replayBefore_eq after st x Hk (ok_same _ _ _ Hx)) as Hrb.
  assert (Hnil : as_Replay st <> [] -> replayBefore x = as_OldestSeq st).
  { intros Hn; rewrite Hrb, bool_decide_eq_false_2 by exact Hn; reflexivity. }
  pose proof (kept_last _ _ Hk); unfold send_tail; rewrite Hst, Haf, (u64_small (_ + 1)) by lia.
  destruct ((sm_lastSeq x + 1 <? replayBefore x) || (as_LastSeq st <? after)) eqn:Egap.
  - assert (Hcur := cursor_before_gap after st x Hk Hx Hg Hpos Egap).
    pose proof (sent_ok_gap after st x (sm_phase x) Hx Hg) as Hx1.
    unfold send at 1; destruct (send_ok (length (sm_sent x))); [|split; [apply sent_ok_phase, Hx | right; eexists; reflexivity]].
    assert (Hlow : as_Replay st <> [] -> after < as_OldestSeq st /\ sm_lastSeq x + 1 < as_OldestSeq st).
    { intros Hn; specialize (Hnil Hn); pose proof (kept_some _ _ Hk Hn); rewrite Hnil in *.
      apply orb_prop in Egap; rewrite !Z.ltb_lt in Egap; lia. }
    assert (Hplain := replay_after_gap after st x Hx Hg He Hrp Hk Hlow).
    destruct (as_Checkpoint st) as [[|b d]|] eqn:Ec; [exact Hplain | | exact Hplain].
    unfold send at 1; cbn [sm_sent]; destruct (send_ok _); [|split; [apply sent_ok_phase, Hx1 | right; eexists; reflexivity]].
    pose proof (kept_oldest _ _ Hk).
    apply (send_replay_ok [] (as_Replay st)); eauto using kept_rising; [|intros Hn; pose proof (kept_some _ _ Hk Hn); simpl; lia].
    apply (sent_ok_gap_data after st x (chunkToProto (sm_session x) (checkpoint_chunk st (b :: d) now) true) (sm_phase x)); auto.
    + intros _; right; eauto.
    + right; right; simpl; split; [reflexivity|]; split; [unfold redraws; eauto | lia].
  - apply orb_false_iff in Egap as [E1 E2]; bool_to_prop.
    apply (send_replay_ok [] (as_Replay st)); eauto using kept_rising; intros Hn; specialize (Hnil Hn); lia.
Qed.

(** *** Steps *)

Lemma good_inv after st x : good after st x -> stream_inv after st x.
Proof. intros [H1 H2]; split; [exact H1 | apply settled_phase, H2]. Qed.

Lemma inv_return after st x r : sent_ok after st x -> stream_inv after st (to_phase (PhReturn r) x).
Proof. intros H; split; [apply sent_ok_phase, H | exact I]. Qed.

Lemma step_prefix_inv after st x s now :
  0 <= after -> attach_ok after st -> Forall produced (as_Replay st) ->
  stream_inv after st x -> sm_phase x = PhPrefix -> sees x s -> stream_inv after st (step_prefix send_ok s x now).
Proof.
  intros Ha Hok Hrp [Hx Hp] Hph [Hpage _ _]; unfold phase_inv in Hp; rewrite Hph in Hp; destruct Hp as (Hg & He & Hpos).
  assert (Htail := send_tail_ok after st x now Hok Ha Hrp Hx Hg He Hpos); pose proof (attach_ok_kept after st Hok Ha) as Hk.
  unfold step_prefix; destruct (_ <? _); [|apply good_inv, Htail].
  destruct (page_of_store s (sm_session x) (sm_lastSeq x)) as [page [e|]]; [apply inv_return, Hx|].
  pose proof (send_page_ok (fun q => q <? replayBefore x) page x after st Hx (Hpage _ eq_refl)) as K.
  destruct (send_page _ _ _ _) as [y|y]; [destruct K as [K1 K2]; split; [exact K1 | unfold phase_inv; rewrite K2; exact I]|].
  destruct K as (K1 & K2 & K3 & _ & K5 & K6); destruct K3 as [->|[K3 K4]]; [rewrite Z.eqb_refl; apply good_inv, Htail|].
  rewrite (proj2 (Z.eqb_neq _ _)) by lia; split; [exact K1|]; unfold phase_inv; rewrite K2, Hph, K5, K6.
  split_and!; auto; right; bool_to_prop.
  rewrite (replayBefore_eq after st x Hk (ok_same _ _ _ Hx)) in *; rewrite (replayBefore_eq after st y Hk (ok_same _ _ _ K1)); lia.
Qed.

Lemma forward_inv after st x chunk :
  stream_inv after st x -> sm_phase x = PhLive -> (is_output chunk = true -> produced chunk) ->
  stream_inv after st (forward send_ok chunk x).
Proof.
  intros [Hx _] Hph Hc; unfold forward; rewrite is_control_output; pose proof (ok_range _ _ _ Hx) as Hr.
  assert (Hlive : forall y, sent_ok after st y -> sm_phase y = PhLive -> stream_inv after st y)
    by (intros y Hy Hpy; split; [exact Hy | unfold phase_inv; rewrite Hpy; exact I]).
  destruct (is_output chunk) eqn:Eo; simpl.
  - specialize (Hc eq_refl); destruct (produced_ok chunk Hc) as [_ Hs].
    destruct (Z.leb_spec (Seq chunk) (sm_lastSeq x)); [apply Hlive; assumption|].
    rewrite u64_small by lia; destruct (Z.ltb_spec (sm_lastSeq x + 1) (Seq chunk)).
    + split; [apply sent_ok_phase, Hx|]; unfold phase_inv; simpl; rewrite u64_small by lia; split_and!; auto; lia.
    + unfold send; destruct (send_ok _); simpl.
      * apply Hlive; [apply (sent_ok_next after st x chunk false (sm_phase x)); auto; lia | exact Hph].
      * apply inv_return, Hx.
  - destruct (control_event (sm_session x) chunk false) as (E1 & E2 & E3); [rewrite is_control_output, Eo; reflexivity|].
    unfold send; destruct (send_ok _); simpl; [|apply inv_return, Hx].
    apply Hlive; [apply (sent_ok_other after st x _ (sm_phase x)); auto; congruence | exact Hph].
Qed.

Lemma step_repair_inv after st x s t next :
  stream_inv after st x -> sm_phase x = PhRepair t next -> sees x s -> stream_inv after st (step_repair send_ok s x t next).
Proof.
  intros [Hx Hp] Hph [Hpage _ _]; unfold phase_inv in Hp; rewrite Hph in Hp; unfold step_repair.
  destruct (Z.ltb_spec (sm_lastSeq x) t) as [Hlt|Hge].
  - destruct (page_of_store s (sm_session x) (sm_lastSeq x)) as [[|c page] [e|]] eqn:Epg; try (apply inv_return, Hx).
    destruct (negb _); [apply inv_return, Hx|].
    pose proof (send_page_ok (fun q => q <=? t) (c :: page) x after st Hx (Hpage _ eq_refl)) as K.
    destruct (send_page _ _ _ _) as [y|y]; [destruct K as [K1 K2]; split; [exact K1 | unfold phase_inv; rewrite K2; exact I]|].
    destruct K as (K1 & K2 & K3 & _); destruct K3 as [->|[K3 K4]]; [rewrite Z.eqb_refl; apply inv_return, K1|].
    rewrite (proj2 (Z.eqb_neq _ _)) by lia; split; [exact K1|]; unfold phase_inv; rewrite K2, Hph.
    destruct next; [split_and!; try apply Hp; bool_to_prop; assumption | exact Hp].
  - destruct next as [chunk|]; [|split; [apply sent_ok_phase, Hx | unfold phase_inv; simpl; lia]].
    destruct Hp as (Hc & Hs & Hle); unfold send; destruct (send_ok _); [|apply inv_return, Hx].
    split; [|exact I]; apply (sent_ok_next after st x chunk false PhLive); auto; lia.
Qed.

Lemma step_exit_inv after st x s over :
  stream_inv after st x -> sm_phase x = PhExit -> stream_inv after st (step_exit send_ok over s x).
Proof.
  intros [Hx Hp] Hph; assert (Hp' := Hp); unfold phase_inv in Hp'; rewrite Hph in Hp'.
  assert (Hfin : forall rec code, stream_inv after st (to_phase (PhReturn RetNil) (default x (send send_ok (exit_event (sm_session x) rec code) x)))).
  { intros rec code; unfold send; destruct (send_ok _); simpl; [|apply inv_return, Hx].
    apply inv_return, (sent_ok_other after st x (exit_event (sm_session x) rec code) (sm_phase x)); auto. }
  unfold step_exit; destruct over; [apply Hfin|].
  destruct (GetSession s (sm_session x)) as [info|e|w]; [|split; assumption..].
  destruct (info_ExitRecorded info); [apply Hfin | split; assumption].
Qed.

Lemma attach_step_inv after st x over now s :
  0 <= after -> attach_ok after st -> Forall produced (as_Replay st) ->
  stream_inv after st x -> sees x s -> stream_inv after st (snd (attach_step send_ok over now s x)).
Proof.
  intros Ha Hok Hrp Hi Hs; unfold attach_step; destruct (sm_phase x) eqn:Hph; cbn [snd].
  - apply step_prefix_inv; assumption.
  - unfold step_live; destruct over; [apply inv_return, Hi|]; destruct (as_Live (sm_state x)) as [c|] eqn:El.
    + destruct (receive s (sm_session x) c) as [s' [[chunk|]|e|w]] eqn:Er; simpl; [|split; [apply sent_ok_phase, Hi | exact I]|exact Hi..].
      apply forward_inv; auto; intros Ho; eapply sees_live; eauto.
    + split; [apply sent_ok_phase, Hi | exact I].
  - apply step_repair_inv; assumption.
  - destruct Hi as [Hx _]; destruct (sees_final _ _ Hs Hph) as (info & Hg & Hf); unfold step_closed; rewrite Hg, Hf.
    destruct (Z.ltb_spec (sm_lastSeq x) final); split; try apply sent_ok_phase, Hx; unfold phase_inv; simpl; lia.
  - apply step_exit_inv; assumption.
  - destruct Hi as [Hx _]; unfold step_return; destruct (Detach s _ _) as [s1 [[|]|e|w]];
      [destruct (NotifyWriterReleased s1 _ _) as [s2 [u|e|w]]|..]; split; try apply sent_ok_phase, Hx; exact I.
  - exact Hi.
  - exact Hi.
Qed.

Lemma attach_begin_inv session client after st :
  0 <= after < two64 - 1 -> stream_inv after st (attach_begin send_ok session client after st).
Proof.
  intros Ha; set (x0 := MkStream session client after st after [] PhPrefix).
  assert (Hx : sent_ok after st x0).
  { split; simpl; auto; [left; simpl; auto | discriminate]. }
  unfold attach_begin; fold x0; unfold send; destruct (send_ok _); [|apply inv_return, Hx].
  split; [apply (sent_ok_other after st x0 (attached_event session st) PhPrefix); auto; discriminate|].
  unfold phase_inv; simpl; auto.
Qed.

Lemma streaming_inv session client after st x :
  0 <= after < two64 - 1 -> attach_ok after st -> Forall produced (as_Replay st) ->
  streaming (attach_begin send_ok session client after st) x -> stream_inv after st x.
Proof.
  intros Ha Hok Hrp; induction 1 as [|x over now s _ IH Hs]; [apply attach_begin_inv, Ha|].
  apply attach_step_inv; auto; lia.
Qed.

(** Saved pages always move a repair forward: it ends. *)
Lemma repair_progress s x t next :
  sm_phase x = PhRepair t next -> sm_phase (step_repair send_ok s x t next) = PhRepair t next ->
  stream_inv (sm_afterSeq x) (sm_state x) x -> sees x s ->
  sm_lastSeq x < sm_lastSeq (step_repair send_ok s x t next) <= t.
Proof.
  intros Hph H [Hx _] [Hpage _ _]; revert H; unfold step_repair.
  destruct (Z.ltb_spec (sm_lastSeq x) t) as [Hlt|Hge].
  - destruct (page_of_store s (sm_session x) (sm_lastSeq x)) as [[|c page] [e|]] eqn:Epg; try discriminate.
    destruct (negb _); [discriminate|].
    pose proof (send_page_ok (fun q => q <=? t) (c :: page) x _ _ Hx (Hpage _ eq_refl)) as K.
    destruct (send_page _ _ _ _) as [y|y]; [destruct K as [_ K]; rewrite K; discriminate|].
    destruct K as (_ & _ & [->|[K3 K4]] & _); [rewrite Z.eqb_refl; discriminate|].
    rewrite (proj2 (Z.eqb_neq _ _)) by lia; bool_to_prop; lia.
  - destruct next as [chunk|]; [|discriminate]; unfold send; destruct (send_ok _); discriminate.
Qed.
End Correctness.

(** ** The attachment the supervisor makes *)

Lemma evict_stale_buf `{E : Emulator} `{S : SessionStore} (ms ms' : managedSession) c : evict_stale ms c = Ok ms' -> ms_buf ms' = ms_buf ms.
Proof.
  unfold evict_stale; destruct (ms_observers ms !! c); [|intros [= <-]; reflexivity].
  destruct (chan_close _ _); [intros [= <-]; reflexivity | discriminate..].
Qed.

Lemma attach_locked_replay `{E : Emulator} `{S : SessionStore} (ms ms' : managedSession) c after role now st notes :
  attach_locked ms c after role now = Ok (st, ms', notes) ->
  as_Replay st = After (ms_buf ms) after /\ as_OldestSeq st = OldestSeq (ms_buf ms) /\ as_LastSeq st = LastSeq (ms_buf ms).
Proof.
  unfold attach_locked; destruct (ms_recovered ms); [intros [= <- _ _]; auto|]; destruct (_ && _); [discriminate|].
  destruct (evict_stale ms c) as [ms1| |] eqn:Ev; [|discriminate..]; apply evict_stale_buf in Ev; rewrite <- Ev.
  unfold make_live; destruct (ms_liveClosed ms1), role; simpl; (destruct (ms_screen ms1) as [l|]; [destruct (checkpoint l _)|]);
    intros [= <- _ _]; auto.
Qed.

(** A ring that numbers its chunks in rising order up to its last number. *)
Definition ring_numbered (b : ByteBuffer) : Prop :=
  rising 1 (chunks b) /\ 1 <= nextSeq b < two64 /\ Forall (fun c => Seq c < nextSeq b) (chunks b) /\
  (chunks b <> [] -> Exists (fun c => Seq c = nextSeq b - 1) (chunks b)).

(** The output kept of a session: its ring, or the journal of an ended one. *)
Definition kept_output `{E : Emulator} `{S : SessionStore} (s : Supervisor) (id : string) : list OutputChunk :=
  match sessions s !! id with
  | Some ms => chunks (ms_buf ms)
  | None => match store s with Some st => fst (store_LoadChunks st id) | None => [] end
  end.

Definition numbered `{E : Emulator} `{S : SessionStore} (s : Supervisor) (id : string) : Prop :=
  match sessions s !! id with Some ms => ring_numbered (ms_buf ms) | None => rising 1 (kept_output s id) end.

Lemma contiguous_rising n k cs : n <= k -> contiguous k cs -> rising n cs.
Proof.
  revert n k; induction cs as [|c cs IH]; intros n k Hn; [auto|]; intros [Hk H].
  split; [lia | apply (IH _ (k + 1)); [lia | exact H]].
Qed.

Lemma ring_ok_numbered b : ring_ok b -> nextSeq b < two64 -> ring_numbered b.
Proof.
  intros (k & Hk & Hc & Hn) Hb; pose proof (zlen_nonneg (chunks b)).
  split; [|split; [lia|]; split].
  - exact (contiguous_rising 1 k _ Hk Hc).
  - apply Forall_forall; intros c Hin; apply list_elem_of_In, (contiguous_seq_range _ _ _ Hc) in Hin; lia.
  - rewrite Hn; clear -Hc; revert k Hc; induction (chunks b) as [|c cs IH]; intros k Hc Hne; [congruence|].
    destruct Hc as [Hs Hc]; destruct cs as [|d cs]; [constructor; rewrite zlen_cons, zlen_nil; lia|].
    apply Exists_cons_tl; specialize (IH _ Hc ltac:(discriminate)); rewrite zlen_cons.
    eapply Exists_impl; [|exact IH]; simpl; intros; lia.
Qed.

Lemma last_exists (cs : list OutputChunk) : cs <> [] -> Exists (fun c => Seq c = List.last (map Seq cs) 0) cs.
Proof.
  induction cs as [|c cs IH]; [congruence|]; intros _; destruct cs as [|d cs]; [constructor; reflexivity|].
  apply Exists_cons_tl, IH; discriminate.
Qed.

Lemma rising_last n cs : rising n cs -> Forall (fun c => Seq c <= List.last (map Seq cs) 0) cs.
Proof.
  revert n; induction cs as [|c cs IH]; intros n; [constructor|]; intros [_ H]; destruct cs as [|d cs]; [repeat constructor; simpl; lia|].
  specialize (IH _ H); constructor; [|exact IH]; destruct H as [Hd _]; inversion IH; subst.
  cbn [map List.last] in *; lia.
Qed.

(** Every attachment the supervisor grants: to a live session, to one recovered
    after a restart, or to the journal of an ended one. *)
Lemma Attach_kept `{E : Emulator} `{S : SessionStore} s id c after role now s' st :
  numbered s id -> Forall (fun c => 0 <= Seq c < two64 - 1) (kept_output s id) -> Attach s id c after role now = (s', Ok st) ->
  attach_ok after st /\ as_Replay st = List.filter (fun c => negb (Seq c <=? after)) (kept_output s id) /\
  as_OldestSeq st = (match kept_output s id with [] => 0 | c :: _ => Seq c end).
Proof.
  unfold numbered, kept_output, Attach; destruct (sessions s !! id) as [ms|] eqn:Es.
  - intros (H1 & H2 & H3 & H4) _; destruct (attach_locked ms c after role now) as [[[a ms'] notes]|e|w] eqn:Ea; [|discriminate..].
    intros [= _ <-]; apply attach_locked_replay in Ea as (Hr & Ho & Hl); unfold LastSeq in Hl; rewrite u64_small in Hl by lia.
    split; [|split; [exact Hr | rewrite Ho; reflexivity]].
    exists (chunks (ms_buf ms)); rewrite Hl; split_and!; auto; try lia.
    eapply Forall_impl; [|exact H3]; simpl; intros; lia.
  - unfold attachHistory; destruct (store s) as [db|]; [|case_bool_decide; discriminate].
    destruct (history s !! id) as [info|]; [|case_bool_decide; discriminate].
    destruct (store_LoadChunks db id) as [cs [e|]]; [case_bool_decide; discriminate|]; simpl.
    intros H1 H2 [= _ <-]; cbn [as_Replay as_OldestSeq].
    assert (Hf : List.filter (fun c => after <? Seq c) cs = List.filter (fun c => negb (Seq c <=? after)) cs)
      by (apply List.filter_ext; intros d; rewrite Z.leb_antisym, negb_involutive; reflexivity).
    split; [|auto]; exists cs; cbn [as_LastSeq as_OldestSeq as_Replay]; split_and!; auto using last_exists.
    + apply (rising_last 1), H1.
    + destruct cs as [|d cs]; [vm_compute; discriminate|].
      destruct (proj1 (Exists_exists _ _) (last_exists (d :: cs) ltac:(discriminate))) as (e & He & <-).
      rewrite Forall_forall in H2; apply H2, He.
    + destruct cs as [|d cs]; [reflexivity|].
      destruct (proj1 (Exists_exists _ _) (last_exists (d :: cs) ltac:(discriminate))) as (e & He & <-).
      rewrite Forall_forall in H2; apply H2, He.
Qed.

(** Output kept without a hole misses no number. *)
Lemma contiguous_misses `{E : Emulator} `{S : SessionStore} k s id after st q :
  contiguous k (kept_output s id) -> as_Replay st = List.filter (fun c => negb (Seq c <=? after)) (kept_output s id) ->
  as_OldestSeq st = (match kept_output s id with [] => 0 | c :: _ => Seq c end) -> ~ missing after st q.
Proof.
  intros Hc Hr Ho (H1 & H2 & H3 & H4); rewrite Hr in *; clear Hr; apply Exists_exists in H3 as (d & Hd & Hlt).
  apply filter_In in Hd as [Hd _].
  assert (k <= q) by (destruct (kept_output s id) as [|c cs]; [destruct Hd | destruct Hc as [<- _]; lia]).
  assert (exists c, In c (kept_output s id) /\ Seq c = q) as (c & Hin & Hs).
  { clear H4 Ho H2; revert k Hc H; induction (kept_output s id) as [|c cs IH]; [destruct Hd|]; intros k [Hk Hc] Hle.
    destruct (Z.eq_dec k q) as [->|Hne]; [exists c; split; [left; reflexivity | exact Hk]|].
    destruct Hd as [->|Hd]; [lia|]; destruct (IH Hd (k + 1) Hc ltac:(lia)) as (e & He & Hs); exists e; split; [right|]; assumption. }
  rewrite Forall_forall in H4; apply (H4 c); [|exact Hs].
  apply filter_In; split; [exact Hin | rewrite negb_true_iff, Z.leb_gt; lia].
Qed.

Lemma filter_Forall {A} (P : A -> Prop) (f : A -> bool) l : Forall P l -> Forall P (List.filter f l).
Proof. rewrite !Forall_forall; intros H a Ha; apply filter_In in Ha; apply H, Ha. Qed.

(** The stream of an attachment the supervisor granted. *)
Section Granted.
Context `{E : Emulator} `{S : SessionStore}.
Context (send_ok : nat -> bool) (produced : OutputChunk -> Prop) (final : Z).
Context (produced_ok : forall c, produced c -> is_output c = true /\ 0 <= Seq c < two64 - 1).
Context (s0 s1 : Supervisor) (session client : string) (after : Z) (role : AttachRole) (now : Time) (st : AttachState) (x : stream).
Context (Hafter : 0 <= after < two64 - 1) (Hnum : numbered s0 session) (Hprod : Forall produced (kept_output s0 session)).
Context (Hattach : Attach s0 session client after role now = (s1, Ok st)).
Context (Hrun : streaming send_ok produced final (attach_begin send_ok session client after st) x).

Lemma granted_kept :
  attach_ok after st /\ as_Replay st = List.filter (fun c => negb (Seq c <=? after)) (kept_output s0 session) /\
  as_OldestSeq st = (match kept_output s0 session with [] => 0 | c :: _ => Seq c end).
Proof.
  eapply Attach_kept; eauto; eapply Forall_impl; [|exact Hprod]; intros c Hc; apply produced_ok, Hc.
Qed.

Lemma granted_sent : sent_ok produced final after st x.
Proof.
  destruct granted_kept as (Hok & Hr & _).
  apply (streaming_inv send_ok produced final produced_ok session client after st x Hafter Hok); [|exact Hrun].
  rewrite Hr; apply filter_Forall, Hprod.
Qed.

(** What is left out when the kept output has no hole: nothing. *)
Lemma granted_no_hole k :
  contiguous k (kept_output s0 session) -> in_order (fun _ => False) after st (sm_sent x) (sm_lastSeq x).
Proof.
  intros Hc; destruct granted_kept as (_ & Hr & Ho).
  eapply in_order_impl; [|apply (ok_order _ _ _ _ _ granted_sent)]; intros q Hq; exact (contiguous_misses _ _ _ _ _ _ Hc Hr Ho Hq).
Qed.
End Granted.

(** ** Theorems *)

(** C4. For every attachment the supervisor grants (to a live session, to one
    recovered after a restart, or to the journal of an ended one), with a cursor
    below the largest 64-bit number, whatever the rest of the daemon does while
    the stream runs and wherever the transport fails: the terminal data sent has
    rising sequence numbers from the client's cursor on; it leaves out only
    numbers with which no chunk is kept between chunks that are kept (a hole in
    the journal of a recovered or ended session, which the code passes over
    without a gap event), so none when the output kept at the attachment is
    numbered without a hole; at most one gap event is sent, and the data goes on
    after it at the next number, at the first chunk kept, or at the redraw of the
    current screen, the only case in which numbers may go back (for a cursor ahead
    of the session). Every data event is a chunk of the session or the redraw. It
    is assumed that what is kept is numbered in rising order up to the last number
    of the session, and that journal pages and the live channel carry only chunks
    of the session. *)
Theorem stream_in_order `{E : Emulator} `{S : SessionStore} (send_ok : nat -> bool) (produced : OutputChunk -> Prop) (final : Z)
    (s0 s1 : Supervisor) (session client : string) (after : Z) (role : AttachRole) (now : Time) (st : AttachState) (x : stream) :
  (forall c, produced c -> is_output c = true /\ 0 <= Seq c < two64 - 1) ->
  0 <= after < two64 - 1 -> numbered s0 session -> Forall produced (kept_output s0 session) ->
  Attach s0 session client after role now = (s1, Ok st) ->
  streaming send_ok produced final (attach_begin send_ok session client after st) x ->
  in_order (missing after st) after st (sm_sent x) (sm_lastSeq x) /\
  (forall k, contiguous k (kept_output s0 session) -> in_order (fun _ => False) after st (sm_sent x) (sm_lastSeq x)) /\
  Forall (genuine produced (sm_session x) st) (sm_sent x).
Proof.
  intros Hp Ha Hn Hk Hat Hrun; split_and!.
  - eapply ok_order, granted_sent; eauto.
  - intros k; eapply granted_no_hole; eauto.
  - eapply ok_genuine, granted_sent; eauto.
Qed.

(** C7. When an attach stream has sent the exit event, for a session whose output
    kept at the attachment is numbered without a hole and which reports its last
    number once its live channel is closed: without a gap event it has sent every
    number from the client's cursor to that last number, also what its bounded
    channel had dropped; with a gap event it has sent every number from the
    client's cursor up to the event, and every number from where the data resumes
    to the last: the first chunk kept, the redraw of the current screen, or the
    number that was due. The last case is also that of a client whose cursor is
    ahead of the session when no screen is known: it is then sent only what is
    numbered after its cursor. Assumptions as for the order of the stream. *)
Theorem exit_after_everything `{E : Emulator} `{S : SessionStore} (send_ok : nat -> bool) (produced : OutputChunk -> Prop) (final : Z)
    (s0 s1 : Supervisor) (session client : string) (after : Z) (role : AttachRole) (now : Time) (st : AttachState) (x : stream) (k : Z) :
  (forall c, produced c -> is_output c = true /\ 0 <= Seq c < two64 - 1) ->
  0 <= after < two64 - 1 -> numbered s0 session -> Forall produced (kept_output s0 session) -> contiguous k (kept_output s0 session) ->
  Attach s0 session client after role now = (s1, Ok st) ->
  streaming send_ok produced final (attach_begin send_ok session client after st) x ->
  existsb is_exit (sm_sent x) = true ->
  if existsb is_gap (sm_sent x)
  then exists a g b q, sm_sent x = a ++ g :: b /\ is_gap g = true /\ consecutive (after + 1) (data a) /\
         consecutive q (data b) /\ final <= q + zlen (data b) - 1 /\ resumes after (after + 1 + zlen (data a)) st q
  else consecutive (after + 1) (data (sm_sent x)) /\ final <= after + zlen (data (sm_sent x)).
Proof.
  intros Hp Ha Hn Hk Hc Hat Hrun Hex.
  assert (Hf : final <= sm_lastSeq x) by (eapply ok_exit; [eapply granted_sent; eauto | exact Hex]).
  assert (Ho : in_order (fun _ => False) after st (sm_sent x) (sm_lastSeq x)) by (eapply granted_no_hole; eauto).
  destruct Ho as [(-> & Hr & Hl)|(a & g & b & q & -> & H1 & H2 & H3 & H4 & H5 & H6 & H7)].
  - apply run_from_consecutive in Hr as [Hr He]; split; [exact Hr | lia].
  - rewrite existsb_app; simpl; rewrite H1, orb_true_r; simpl.
    apply run_from_consecutive in H4 as [H4 He4]; apply run_from_consecutive in H6 as [H6 He6]; rewrite He4 in H5.
    exists a, g, b, q; split_and!; auto; lia.
Qed.

(** ** A concrete stream *)

Section Sample.
#[local] Existing Instance echo_emulator.
#[local] Existing Instance log_bolt.

Definition sample_produced (c : OutputChunk) : Prop := is_output c = true /\ 0 <= Seq c < two64 - 1.

(** The daemon when client [v] attaches, and after the provider wrote once more
    and its output ended. *)
Definition before_v : Supervisor (S := BoltSessionStore) := sample_state sample_ops1.
Definition attached_v : Supervisor (S := BoltSessionStore) := fst (Attach before_v "s1" "v" 0 AttachRoleObserver 20).
Definition ended_v : Supervisor (S := BoltSessionStore) :=
  exec_all attached_v [OpRead "s1" (bytes_of_string "bye") (Some ReadEOF) 21; OpCloseLive "s1"].
Definition drained_v : Supervisor (S := BoltSessionStore) := fst (receive ended_v "s1" 2).

Definition all_sent (n : nat) : bool := true.

(** The states the stream sees, one per step: replay, the live chunk, the closed
    channel, the session, the exit poll (which times out). *)
Definition sample_steps : list (bool * Supervisor (S := BoltSessionStore)) :=
  [(false, ended_v); (false, ended_v); (false, drained_v); (false, drained_v); (true, drained_v)].

Definition stream_fold (steps : list (bool * Supervisor (S := BoltSessionStore))) (x : stream) : stream :=
  fold_left (fun x os => snd (attach_step all_sent (fst os) 30 (snd os) x)) steps x.

Definition sample_producedb (c : OutputChunk) : bool := is_output c && (0 <=? Seq c) && (Seq c <? two64 - 1).

(** An executable test of [sees] for the sample. *)
Definition seesb (final : Z) (x : stream) (s : Supervisor (S := BoltSessionStore)) : bool :=
  match page_of_store s (sm_session x) (sm_lastSeq x) with (page, None) => forallb sample_producedb page | _ => true end &&
  match as_Live (sm_state x) with
  | LiveChan c => match snd (receive s (sm_session x) c) with Ok (Some chunk) => sample_producedb chunk | _ => true end
  | LiveClosed => true
  end &&
  match GetSession s (sm_session x) with Ok info => info_LastSeq info =? final | _ => false end.

Fixpoint sees_allb (final : Z) (steps : list (bool * Supervisor (S := BoltSessionStore))) (x : stream) : bool :=
  match steps with
  | [] => true
  | (over, s) :: r => seesb final x s && sees_allb final r (snd (attach_step all_sent over 30 s x))
  end.

Lemma sample_producedb_ok c : sample_producedb c = true -> sample_produced c.
Proof. unfold sample_producedb, sample_produced; intros H; bool_to_prop; auto. Qed.

Lemma seesb_ok final x s : seesb final x s = true -> sees sample_produced final x s.
Proof.
  unfold seesb; intros H; bool_to_prop; split.
  - intros page K; rewrite K in H; rewrite forallb_forall in H; apply Forall_forall; intros c Hc; apply sample_producedb_ok, H, Hc.
  - intros c s' chunk Hl K _; rewrite Hl, K in H1; apply sample_producedb_ok, H1.
  - intros _; destruct (GetSession s (sm_session x)) as [info| |]; [|discriminate..]; bool_to_prop; eauto.
Qed.

Lemma sees_allb_ok final steps x0 x :
  streaming all_sent sample_produced final x0 x -> sees_allb final steps x = true ->
  streaming all_sent sample_produced final x0 (stream_fold steps x).
Proof.
  revert x; induction steps as [|[over s] steps IH]; intros x Hx H; [exact Hx|]; simpl in H; bool_to_prop.
  apply IH; [|assumption]; apply streaming_step; [exact Hx | apply seesb_ok; assumption].
Qed.

Definition session_v : option managedSession := sessions before_v !! "s1"%string.

(** The attachment of the sample and the run of its stream. *)
Lemma sample_attach : exists s1 st,
  Attach before_v "s1" "v" 0 AttachRoleObserver 20 = (s1, Ok st) /\ numbered before_v "s1" /\
  contiguous 1 (kept_output before_v "s1") /\ Forall sample_produced (kept_output before_v "s1") /\
  streaming all_sent sample_produced 2 (attach_begin all_sent "s1" "v" 0 st)
    (stream_fold sample_steps (attach_begin all_sent "s1" "v" 0 st)) /\
  map (fun e => (ae_Type e, ae_Seq e)) (sm_sent (stream_fold sample_steps (attach_begin all_sent "s1" "v" 0 st))) =
    [(EVENT_ATTACHED, 0); (EVENT_OUTPUT, 1); (EVENT_OUTPUT, 2); (EVENT_SESSION_EXIT, 0)] /\
  existsb is_exit (sm_sent (stream_fold sample_steps (attach_begin all_sent "s1" "v" 0 st))) = true.
Proof.
  destruct session_v as [ms|] eqn:Es; [|vm_compute in Es; discriminate].
  destruct (attach_locked ms "v" 0 AttachRoleObserver 20) as [[[st ms'] notes]|e|w] eqn:Ea;
    [|vm_compute in Es; injection Es as <-; vm_compute in Ea; discriminate..].
  exists (notifyControl notes (put_session "s1" ms' before_v)), st.
  unfold numbered, kept_output, Attach; unfold session_v in Es; rewrite Es, Ea; split; [reflexivity|].
  vm_compute in Es; injection Es as <-; vm_compute in Ea; injection Ea as <- _ _.
  split_and!.
  - split; [vm_compute; repeat split; discriminate|]; split; [split; vm_compute; [discriminate | reflexivity]|].
    split; [repeat constructor|]; intros _; constructor; reflexivity.
  - vm_compute; repeat split.
  - repeat constructor; vm_compute; (reflexivity || discriminate).
  - apply sees_allb_ok; [constructor | vm_compute; reflexivity].
  - vm_compute; reflexivity.
  - vm_compute; reflexivity.
Qed.

Lemma sample_produced_ok c : sample_produced c -> is_output c = true /\ 0 <= Seq c < two64 - 1.
Proof. exact (fun H => H). Qed.

Lemma stream_in_order_witness :
  exists st x, in_order (fun _ => False) 0 st (sm_sent x) (sm_lastSeq x) /\ Forall (genuine sample_produced (sm_session x) st) (sm_sent x) /\
    map (fun e => (ae_Type e, ae_Seq e)) (sm_sent x) =
    [(EVENT_ATTACHED, 0); (EVENT_OUTPUT, 1); (EVENT_OUTPUT, 2); (EVENT_SESSION_EXIT, 0)].
Proof.
  destruct sample_attach as (s1 & st & Ha & Hn & Hc & Hp & Hs & Hm & _).
  exists st, (stream_fold sample_steps (attach_begin all_sent "s1" "v" 0 st)).
  destruct (stream_in_order all_sent sample_produced 2 before_v s1 "s1" "v" 0 AttachRoleObserver 20 st _
    sample_produced_ok ltac:(vm_compute; split; [discriminate | reflexivity]) Hn Hp Ha Hs) as (_ & H1 & H2).
  split_and!; [exact (H1 1 Hc) | exact H2 | exact Hm].
Defined.

Lemma exit_after_everything_witness :
  exists x, existsb is_exit (sm_sent x) = true /\
  if existsb is_gap (sm_sent x) then False else consecutive 1 (data (sm_sent x)) /\ 2 <= zlen (data (sm_sent x)).
Proof.
  destruct sample_attach as (s1 & st & Ha & Hn & Hc & Hp & Hs & Hm & Hx).
  exists (stream_fold sample_steps (attach_begin all_sent "s1" "v" 0 st)); split; [exact Hx|].
  pose proof (exit_after_everything all_sent sample_produced 2 before_v s1 "s1" "v" 0 AttachRoleObserver 20 st _ 1
    sample_produced_ok ltac:(vm_compute; split; [discriminate | reflexivity]) Hn Hp Hc Ha Hs Hx) as K.
  destruct (existsb is_gap _) eqn:Eg; [|exact K].
  apply (f_equal (map fst)) in Hm; apply existsb_exists in Eg as (e & He & Hg); unfold is_gap in Hg; bool_to_prop.
  assert (In (ae_Type e) (map fst (map (fun e => (ae_Type e, ae_Seq e)) (sm_sent (stream_fold sample_steps (attach_begin all_sent "s1" "v" 0 st))))))
    as Hin by (rewrite map_map; apply in_map, He).
  rewrite Hm, Hg in Hin; simpl in Hin; destruct Hin as [|[|[|[|[]]]]]; discriminate.
Defined.

(** A session of an earlier run whose journal lacks chunk 2: its stream goes from
    1 to 3 and to the end, and no gap event says so. *)
Definition holed_session : SessionInfo :=
  set_State SessionStateStopped (ms_info (new_session before_v (sample_cfg "s0") sample_provider 7 10)).

Definition holed_history : Supervisor (S := BoltSessionStore) :=
  put_history {["s0"%string := holed_session]} (put_store
    (Some [(chunksBucket, chunkKey "s0" 3, inr (sample_chunk 3 "c")); (chunksBucket, chunkKey "s0" 1, inr (sample_chunk 1 "a"))]) before_v).

Lemma hole_without_gap :
  match snd (Attach holed_history "s0" "v" 0 AttachRoleObserver 20) with
  | Ok st => map (fun e => (ae_Type e, ae_Seq e)) (sm_sent (stream_fold
               [(false, holed_history); (false, holed_history); (false, holed_history); (true, holed_history)] (attach_begin all_sent "s0" "v" 0 st))) =
             [(EVENT_ATTACHED, 0); (EVENT_OUTPUT, 1); (EVENT_OUTPUT, 3); (EVENT_SESSION_EXIT, 0)]
  | _ => False
  end.
Proof. vm_compute; reflexivity. Qed.

(** A client that attaches again while its first stream is still open: the
    supervisor closes the channel of the first stream, which takes this for the
    end of the session, announces an exit and then detaches the client, so that
    the second stream no longer gets any output although the session runs. *)
Definition run_alone (overs : list bool) (sx : Supervisor (S := BoltSessionStore) * stream) : Supervisor * stream :=
  fold_left (fun sx over => attach_step all_sent over 30 (fst sx) (snd sx)) overs sx.

Definition reattached_v : Supervisor (S := BoltSessionStore) := fst (Attach attached_v "s1" "v" 1 AttachRoleObserver 22).

Definition first_stream : option stream :=
  match snd (Attach before_v "s1" "v" 0 AttachRoleObserver 20) with
  | Ok st => Some (attach_begin all_sent "s1" "v" 0 st)
  | _ => None
  end.

Lemma stale_stream_detaches_successor :
  match first_stream with
  | None => False
  | Some x0 =>
      let '(s1, x1) := run_alone [false] (attached_v, x0) in
      let '(s2, x2) := run_alone [false; false; true; false] (reattached_v, x1) in
      let s3 := exec_all s2 [OpRead "s1" (bytes_of_string "more") None 40] in
      sm_phase x1 = PhLive /\ sm_phase x2 = PhDone RetNil /\ existsb is_exit (sm_sent x2) = true /\
      match sessions s3 !! "s1"%string with
      | None => False
      | Some ms => terminal (info_State (ms_info ms)) = false /\ ms_liveClosed ms = false /\
                   ms_observers ms !! "v"%string = None /\
                   ch_closed <$> ms_chans ms !! 3%nat = Some false /\ queue_of ms 3 = []
      end
  end.
Proof. vm_compute; repeat split; reflexivity. Qed.
End Sample.
