(* ===== verification/Tenancy.v ===== *)
(** * Tenant isolation

    A token may be bound to a project.  The theorems of this file say that the
    handlers of Server confine such a token to the sessions of its project, and
    that the authorisation a handler has obtained cannot be invalidated by what
    other goroutines do before it acts. *)

From S2P Require Import Prelude Types ByteBuf GoStd Policy Registry Screen Store Session SessionInv Supervisor Reach Streams Terminal RateLimit Server AttachStream.

(** ** The project of a session never changes *)

Section Project.
Context `{E : Emulator} `{S : SessionStore}.

Definition proj (ms : managedSession) : string := info_ProjectID (ms_info ms).

Lemma proj_set_role r c ms : proj (set_role r c ms) = proj ms.
Proof. unfold set_role; destruct (ms_observers ms !! c); reflexivity. Qed.

Lemma proj_evict ms c ms' : evict_stale ms c = Ok ms' -> proj ms' = proj ms.
Proof.
  unfold evict_stale; destruct (ms_observers ms !! c); [|intros [= <-]; reflexivity].
  destruct (chan_close _ _); [intros [= <-]; reflexivity | discriminate..].
Qed.

Lemma proj_attach ms c after role now a ms' notes :
  attach_locked ms c after role now = Ok (a, ms', notes) -> proj ms' = proj ms.
Proof.
  unfold attach_locked; destruct (ms_recovered ms); [intros [= _ <- _]; reflexivity|]; destruct (_ && _); [discriminate|].
  destruct (evict_stale ms c) as [ms1| |] eqn:Ev; [|discriminate..]; apply proj_evict in Ev; rewrite <- Ev.
  unfold make_live; destruct (ms_liveClosed ms1), role; simpl; (destruct (ms_screen ms1) as [l|]; [destruct (checkpoint l _)|]);
    intros [= _ <- _]; reflexivity.
Qed.

Lemma proj_detach ms c w ms' notes : detach_locked ms c = Ok (w, ms', notes) -> proj ms' = proj ms.
Proof.
  unfold detach_locked; destruct (ms_recovered ms); [intros [= _ <- _]; reflexivity|].
  destruct (ms_observers ms !! c); [|discriminate]; destruct (str_eqb _ c); destruct (_ && _); intros [= _ <- _]; reflexivity.
Qed.

Lemma proj_claim ms c force p ms' : claim_locked ms c force = Ok (p, ms') -> proj ms' = proj ms.
Proof.
  unfold claim_locked; destruct (ms_recovered ms); [discriminate|]; destruct (str_eqb _ c); [intros [= _ <-]; reflexivity|].
  destruct (_ && _); [discriminate|]; destruct (ms_observers ms !! c); [|discriminate].
  set (m1 := set_role AttachRoleWriter _ _); assert (Hm : proj m1 = proj ms) by (subst m1; rewrite !proj_set_role; reflexivity).
  destruct (state_is _ _); intros [= _ <-]; exact Hm.
Qed.

Lemma proj_release ms c ms' : release_locked ms c = Ok ms' -> proj ms' = proj ms.
Proof.
  unfold release_locked; destruct (ms_recovered ms); [intros [= <-]; reflexivity|]; destruct (negb _); [discriminate|].
  destruct (_ && _); intros [= <-]; exact (proj_set_role AttachRoleObserver c ms).
Qed.

Lemma proj_append st ms p t now st' ms' : appendChunkLocked st ms p t now = Ok (st', ms') -> proj ms' = proj ms.
Proof.
  unfold appendChunkLocked; destruct (ms_liveClosed ms); [intros [= _ <-]; reflexivity|].
  destruct (AppendSized _ _ _ _ _ _) as [ch buf]; destruct (send_all _ _ _); [|discriminate..].
  intros [= _ <-]; unfold proj; simpl; destruct (ms_screen ms), t; reflexivity.
Qed.

Lemma proj_resize st ms c cols rows ss now st' ms' :
  resize_locked st ms c cols rows ss now = Ok (st', ms') -> proj ms' = proj ms.
Proof.
  unfold resize_locked; destruct (ms_recovered ms); [discriminate|]; destruct (str_eqb _ ""); [discriminate|].
  destruct (negb _); [discriminate|]; destruct (ms_streamJSON ms); [intros [= _ <-]; reflexivity|].
  destruct ss; [discriminate|]; intros H; apply proj_append in H; exact H.
Qed.

Lemma proj_wait ms w now : proj (wait_locked ms w now) = proj ms.
Proof.
  unfold wait_locked; destruct (wait_error w); [|reflexivity]; destruct (_ && _); [|reflexivity].
  destruct (str_eqb _ ""); reflexivity.
Qed.

Lemma proj_stop ms force ms' : stop_locked ms force = Some ms' -> proj ms' = proj ms.
Proof. unfold stop_locked; destruct (terminal _); [discriminate | intros [= <-]; reflexivity]. Qed.

(** [s'] differs from [s] at most in session [id], whose project is the same,
    and in what it recorded. *)
Definition frame (id : string) (s s' : Supervisor) : Prop :=
  (forall j, j <> id -> sessions s' !! j = sessions s !! j) /\ history s' = history s /\
  (sessions s' !! id = sessions s !! id \/
   exists ms ms', sessions s !! id = Some ms /\ sessions s' !! id = Some ms' /\ proj ms' = proj ms).

Lemma frame_refl id s s' : sessions s' = sessions s -> history s' = history s -> frame id s s'.
Proof. intros H1 H2; unfold frame; rewrite H1, H2; auto. Qed.

Lemma frame_put id s s' ms ms' :
  sessions s !! id = Some ms -> proj ms' = proj ms -> sessions s' = <[id := ms']> (sessions s) -> history s' = history s ->
  frame id s s'.
Proof.
  intros Hs Hp H1 H2; unfold frame; rewrite H1, H2, lookup_insert_eq; split_and!; auto.
  - intros j Hj; apply lookup_insert_ne; auto.
  - right; eauto.
Qed.

Lemma frame_trans id s1 s2 s3 : frame id s1 s2 -> frame id s2 s3 -> frame id s1 s3.
Proof.
  intros (A1 & A2 & A3) (B1 & B2 & B3); split_and!; [intros j Hj; rewrite B1, A1 by exact Hj; reflexivity | congruence|].
  destruct B3 as [->|(ms & ms' & Hs & Hs' & Hp)], A3 as [<-|(m & m' & Hm & Hm' & Hq)]; eauto.
  - right; exists m, m'; auto.
  - right; exists ms, ms'; auto.
  - right; exists m, ms'; split_and!; congruence.
Qed.

Lemma history_notify infos s : history (notifyControl infos s) = history s.
Proof. unfold notifyControl; destruct (control s); reflexivity. Qed.

(** Close a goal [frame id s s'] for a state whose change is visible. *)
Ltac expose := unfold persist; cbn [fst sessions history put_store emit put_trace]; rewrite ?sessions_notify, ?history_notify;
  cbn [sessions history put_store emit put_trace]; try reflexivity.

Ltac frame_tac :=
  cbn [fst];
  first [ apply frame_refl; solve [expose]
        | eapply frame_put; [eassumption | | solve [expose] | solve [expose]];
          first [reflexivity | eauto using proj_attach, proj_detach, proj_claim, proj_release, proj_stop, proj_wait ] ].

Lemma commit_frame s s0 id ms r :
  sessions s = sessions s0 -> history s = history s0 -> sessions s0 !! id = Some ms ->
  (forall st ms', r = Ok (st, ms') -> proj ms' = proj ms) -> frame id s0 (fst (commit s id r)).
Proof.
  intros H1 H2 Hs Hp; destruct r as [[st ms']|e|w]; simpl; [|apply frame_refl; auto..].
  eapply frame_put; [exact Hs | eapply Hp; reflexivity | simpl; rewrite H1; reflexivity | exact H2].
Qed.

Lemma Stop_frame s id force : frame id s (fst (Stop s id force)).
Proof.
  unfold Stop, not_found; destruct (sessions s !! id) as [ms|] eqn:Es; [|frame_tac].
  destruct (stop_locked ms force) as [ms'|] eqn:Ek; [|frame_tac]; apply proj_stop in Ek.
  assert (frame id s (notifyControl [ms_info ms'] (put_session id ms' s))) by frame_tac.
  destruct (ms_recovered ms'); [assumption|]; destruct (ms_cmd ms'); [destruct (ms_stdin ms')|]; assumption.
Qed.

Lemma WriteInput_frame s id c data io now : frame id s (fst (WriteInput s id c data io now)).
Proof.
  unfold WriteInput, not_found; destruct (ValidateInputBytes _ _); [frame_tac|].
  destruct (sessions s !! id) as [ms|] eqn:Es; [|frame_tac]; destruct (input_guard ms c); [frame_tac|].
  assert (frame id s (put_session id (with_lastActivity now ms) s)) by frame_tac.
  destruct (telemetry _); assumption.
Qed.

Lemma Resize_frame s id c cols rows ss now : frame id s (fst (Resize s id c cols rows ss now)).
Proof.
  unfold Resize, not_found; destruct (sessions s !! id) as [ms|] eqn:Es; [|frame_tac].
  apply (commit_frame _ _ _ ms); [destruct (_ && _); reflexivity.. | exact Es | intros; eapply proj_resize; eassumption].
Qed.

Lemma Claim_frame s id c force : frame id s (fst (ClaimWriter s id c force)).
Proof.
  unfold ClaimWriter, not_found; destruct (sessions s !! id) as [ms|] eqn:Es; [|frame_tac].
  destruct (claim_locked ms c force) as [[p ms']| |] eqn:Ec; frame_tac.
Qed.

Lemma Release_frame s id c : frame id s (fst (ReleaseWriter s id c)).
Proof.
  unfold ReleaseWriter, not_found; destruct (sessions s !! id) as [ms|] eqn:Es; [|frame_tac].
  destruct (release_locked ms c) as [ms'| |] eqn:Ec; frame_tac.
Qed.

Lemma fanout_frame s id t p : frame id s (fst (fanout s id t p)).
Proof.
  unfold fanout; destruct (sessions s !! id) as [ms|] eqn:Es; [|frame_tac].
  unfold fanoutControlEvent; destruct (ms_liveClosed ms); [frame_tac|]; destruct (send_all _ _ _); frame_tac.
Qed.

Lemma Attach_frame s id c after role now : frame id s (fst (Attach s id c after role now)).
Proof.
  unfold Attach, not_found; destruct (sessions s !! id) as [ms|] eqn:Es.
  - destruct (attach_locked ms c after role now) as [[[a ms'] notes]| |] eqn:Ea; frame_tac.
  - destruct (attachHistory s id c after); [|destruct (bool_decide _)|]; frame_tac.
Qed.

Lemma Detach_frame s id c : frame id s (fst (Detach s id c)).
Proof.
  unfold Detach; destruct (sessions s !! id) as [ms|] eqn:Es; [|frame_tac].
  destruct (detach_locked ms c) as [[[w ms'] notes]| |] eqn:Ea; frame_tac.
Qed.

Lemma append_frame_ s id p t now : frame id s (fst (appendChunk s id p t now)).
Proof.
  unfold appendChunk, not_found; destruct (sessions s !! id) as [ms|] eqn:Es; [|frame_tac].
  apply (commit_frame _ _ _ ms); [destruct (telemetry s), t; reflexivity.. | exact Es | intros; eapply proj_append; eassumption].
Qed.

Lemma readLoop_frame s id data err now : frame id s (fst (readLoop s id data err now)).
Proof.
  unfold readLoop.
  assert (H : frame id s (fst (if 0 <? zlen data then appendChunk s id data ChunkTypeOutput now else (s, Ok tt))))
    by (destruct (0 <? zlen data); [apply append_frame_ | frame_tac]).
  destruct (if 0 <? zlen data then _ else _) as [s1 [u|e|w]]; cbn [fst snd] in *; [|exact H..].
  destruct err as [[|text]|]; [exact H | | exact H]; destruct (sessions s1 !! id) as [ms|] eqn:Es; [|exact H].
  unfold read_error_locked; eapply frame_trans; [exact H|].
  destruct (state_is _ _), (str_eqb _ ""); simpl; try destruct (negb _); frame_tac.
Qed.

Lemma closeLive_frame s id : frame id s (fst (reader_closeLive s id)).
Proof.
  unfold reader_closeLive, not_found, closeLive; destruct (sessions s !! id) as [ms|] eqn:Es; [|frame_tac].
  destruct (close_all _ _); frame_tac.
Qed.

Lemma reader_done_frame s id : frame id s (fst (reader_done s id)).
Proof.
  unfold reader_done, not_found, signalReaderDone; destruct (sessions s !! id) as [ms|] eqn:Es; [|frame_tac].
  destruct (ms_readerDone ms) as [[|]|]; frame_tac.
Qed.

Lemma wait_frame s id w now : frame id s (waitLoop s id w now).
Proof.
  unfold waitLoop; destruct (sessions s !! id) as [ms|] eqn:Es; [|frame_tac].
  destruct (telemetry _); frame_tac.
Qed.

Lemma recovered_stop_frame s id pid force polls alive now :
  frame id s (stop_recovered_wait s id pid force polls alive now).
Proof.
  revert s; induction polls as [|[|] polls IH]; intros s; [| apply IH |]; simpl.
  - eapply (frame_trans _ _ (if negb force && (0 <? pid) && alive then emit [EvKill pid] s else s)); [destruct (_ && _); frame_tac|].
    match goal with |- frame _ ?x _ => generalize x; intros s1 end; destruct (sessions s1 !! id) as [ms|] eqn:Es; frame_tac.
  - destruct (sessions s !! id) as [ms|] eqn:Es; frame_tac.
Qed.

Lemma monitor_frame s id now : frame id s (monitor_gone s id now).
Proof.
  unfold monitor_gone, monitor_locked; destruct (sessions s !! id) as [ms|] eqn:Es; [|frame_tac].
  destruct (terminal _); frame_tac.
Qed.

Lemma grace_frame s id : frame id s (stop_grace_over s id).
Proof.
  unfold stop_grace_over; destruct (sessions s !! id) as [ms|]; [|frame_tac].
  destruct (ms_cmd ms); [destruct (_ && _)|]; frame_tac.
Qed.

Lemma interaction_frame s id next now : frame id s (fst (UpdateInteraction s id next now)).
Proof.
  unfold UpdateInteraction; destruct (str_eqb _ _); [frame_tac|]; destruct (sessions s !! id) as [ms|] eqn:Es; frame_tac.
Qed.

Lemma receive_frame s id n : frame id s (fst (receive s id n)).
Proof.
  unfold receive; destruct (sessions s !! id) as [ms|] eqn:Es; [|frame_tac].
  destruct (chan_recv _ n) as [[v h]| |]; frame_tac.
Qed.

(** Sessions stay, with their project. *)
Definition keeps_project (s s' : Supervisor) : Prop :=
  forall id ms, sessions s !! id = Some ms -> exists ms', sessions s' !! id = Some ms' /\ proj ms' = proj ms.

Lemma frame_keeps id s s' : frame id s s' -> keeps_project s s'.
Proof.
  intros (H1 & _ & H3) j ms Hj; destruct (decide (j = id)) as [->|Hne]; [|exists ms; rewrite H1 by exact Hne; auto].
  destruct H3 as [->|(m & m' & Hm & Hm' & Hp)]; [eauto|]; exists m'; split; congruence.
Qed.

Lemma exec_keeps_project s o : keeps_project s (fst (exec s o)).
Proof.
  destruct o; cbn [exec void fst];
    try (eapply frame_keeps; solve [eauto using Attach_frame, Detach_frame, Claim_frame, Release_frame, WriteInput_frame, Resize_frame,
      append_frame_, readLoop_frame, closeLive_frame, reader_done_frame, wait_frame, Stop_frame, grace_frame,
      recovered_stop_frame, monitor_frame, interaction_frame, fanout_frame, receive_frame]).
  - unfold start_register; intros id ms Hs; destruct (shuttingDown s); [exists ms; auto|].
    destruct (sessions s !! cfg_SessionID cfg) as [m|] eqn:Ec; [exists ms; auto|].
    exists ms; split; [|reflexivity]; simpl; rewrite sessions_notify.
    destruct (telemetry _); simpl; rewrite lookup_insert_ne; auto; congruence.
  - intros id ms Hs; exists ms; auto.
Qed.

Lemma reachable_keeps_project s s' : reachable s s' -> keeps_project s s'.
Proof.
  induction 1 as [|s1 s2 _ IH [o r He Hx _]]; [intros id ms Hs; eauto|]; intros id ms Hs.
  destruct (IH id ms Hs) as (ms1 & Hs1 & Hp1); destruct (exec_keeps_project s1 o id ms1 Hs1) as (ms2 & Hs2 & Hp2).
  rewrite Hx in Hs2; exists ms2; split; [exact Hs2 | congruence].
Qed.
End Project.

(** ** Handlers *)

Section Handlers.
Context `{E : Emulator} `{S : SessionStore} `{U : UUID}.

(** A token without a project may act on every project. *)
Definition allowed (claims : BridgeClaims) (project : string) : Prop :=
  ProjectID claims = ""%string \/ ProjectID claims = project.

(** The session a request is about. *)
Definition target (req : request) : option string :=
  match req with
  | ReqStart r => Some (sr_SessionId r)
  | ReqStop id _ | ReqGet id | ReqWrite id _ _ | ReqResize id _ _ _ | ReqClaim id _ _ | ReqRelease id _ => Some id
  | ReqList _ => None
  end.

Definition permitted (claims : BridgeClaims) (sup : Supervisor) (req : request) : Prop :=
  match req with
  | ReqStart r => allowed claims (sr_ProjectId r)
  | ReqList _ => True
  | ReqStop id _ | ReqGet id | ReqWrite id _ _ | ReqResize id _ _ _ | ReqClaim id _ _ | ReqRelease id _ =>
      exists info, GetSession sup id = Ok info /\ allowed claims (info_ProjectID info)
  end.

(** The projects whose metadata an answer carries. *)
Definition projects_in (resp : response) : list string :=
  match resp with RespGet r => [gr_ProjectId r] | RespList rs => map gr_ProjectId rs | _ => [] end.

Lemma authorizeProject_None claims p : authorizeProject claims p = None <-> allowed claims p.
Proof.
  unfold authorizeProject, allowed; destruct (str_eqb (ProjectID claims) "") eqn:E1; bool_to_prop; simpl; [tauto|].
  destruct (str_eqb (ProjectID claims) p) eqn:E2; bool_to_prop; simpl; split; [tauto | tauto | discriminate | tauto].
Qed.

(** *** Handlers that leave the supervisor and the goroutines alone *)

Definition quiet {A} (m : handler A) : Prop :=
  forall s, supervisor (fst (m s)) = supervisor s /\ goroutines (fst (m s)) = goroutines s.

Lemma quiet_ret {A} (a : A) : quiet (ret a).
Proof. split; reflexivity. Qed.

Lemma quiet_fail {A} st : quiet (A := A) (fail st).
Proof. split; reflexivity. Qed.

Lemma quiet_check o : quiet (check o).
Proof. destruct o; split; reflexivity. Qed.

Lemma quiet_bind {A B} (m : handler A) (k : A -> handler B) : quiet m -> (forall a, quiet (k a)) -> quiet (bind m k).
Proof.
  intros Hm Hk s; unfold bind; specialize (Hm s); destruct (m s) as [s1 [a|st|w]]; simpl in *; auto.
  destruct (Hk a s1); split; etransitivity; try apply Hm; assumption.
Qed.

Lemma quiet_global now : quiet (global_limit now).
Proof. intros s; unfold global_limit; destruct (limiter_allow _ _ _); split; reflexivity. Qed.

Lemma quiet_start_limit c now : quiet (start_limit c now).
Proof. intros s; unfold start_limit; destruct (limiter_allow _ _ _); split; reflexivity. Qed.

Lemma quiet_mustClaims ctx : quiet (mustClaims ctx).
Proof. destruct ctx; [apply quiet_ret | apply quiet_fail]. Qed.

Lemma quiet_enter ctx now : quiet (enter ctx now).
Proof. apply quiet_bind; [apply quiet_global | intros; apply quiet_mustClaims]. Qed.

Lemma quiet_query {A} op (f : Supervisor -> outcome A) : quiet (call op (fun sup => (sup, f sup))).
Proof. split; reflexivity. Qed.

Lemma quiet_authorize claims id : quiet (authorizeSession claims id).
Proof. apply quiet_bind; [apply quiet_query | intros; apply quiet_check]. Qed.

Lemma quiet_list_project claims p : quiet (list_project claims p).
Proof. unfold list_project; destruct (str_eqb _ _); [apply quiet_ret|]; destruct (_ && _); [apply quiet_fail | apply quiet_ret]. Qed.

(** Either the handler ends in the first part, or the rest runs on the same
    supervisor. *)
Lemma bind_quiet {A B} (m : handler A) (k : A -> handler B) s s' r :
  quiet m -> bind m k s = (s', r) ->
  (supervisor s' = supervisor s /\ goroutines s' = goroutines s /\ forall b, r <> Reply b) \/
  exists a s1, m s = (s1, Reply a) /\ supervisor s1 = supervisor s /\ goroutines s1 = goroutines s /\ k a s1 = (s', r).
Proof.
  intros Hm H; unfold bind in H; specialize (Hm s); destruct (m s) as [s1 [a|st|w]] eqn:Em; simpl in Hm.
  - right; exists a, s1; tauto.
  - left; injection H as <- <-; split_and!; try apply Hm; discriminate.
  - left; injection H as <- <-; split_and!; try apply Hm; discriminate.
Qed.

Lemma enter_reply ctx now s s1 claims : enter ctx now s = (s1, Reply claims) -> ctx = Some claims.
Proof.
  unfold enter, bind; destruct (global_limit now s) as [s0 [u|st|w]]; [|discriminate..].
  destruct ctx; [intros [= _ <-]; reflexivity | discriminate].
Qed.

Lemma check_reply o s s1 u : check o s = (s1, Reply u) -> o = None.
Proof. destruct o; [discriminate | reflexivity]. Qed.

Lemma authorize_reply claims id s s1 u :
  authorizeSession claims id s = (s1, Reply u) ->
  exists info, GetSession (supervisor s) id = Ok info /\ allowed claims (info_ProjectID info).
Proof.
  unfold authorizeSession, bind, call; destruct (GetSession (supervisor s) id) as [info|e|w]; [|discriminate..].
  intros H; apply check_reply in H; exists info; rewrite <- authorizeProject_None; auto.
Qed.

Lemma list_project_reply claims p s s1 q : list_project claims p s = (s1, Reply q) -> ProjectID claims = ""%string \/ q = ProjectID claims.
Proof.
  unfold list_project; destruct (str_eqb (ProjectID claims) "") eqn:E1; bool_to_prop; [auto|].
  destruct (_ && _); [discriminate | intros [= _ <-]; auto].
Qed.

(** *** Handlers that act on one session *)

Definition others (id : string) (s s' : Supervisor) : Prop :=
  (forall j, j <> id -> sessions s' !! j = sessions s !! j) /\ history s' = history s.

Definition acts {A} (id : string) (m : handler A) : Prop :=
  forall s, others id (supervisor s) (supervisor (fst (m s))) /\
    (goroutines (fst (m s)) = goroutines s \/ goroutines (fst (m s)) = goroutines s ++ [id]).

(** Acting without starting a goroutine. *)
Definition acts_inline {A} (id : string) (m : handler A) : Prop :=
  forall s, others id (supervisor s) (supervisor (fst (m s))) /\ goroutines (fst (m s)) = goroutines s.

Lemma frame_others id s s' : frame id s s' -> others id s s'.
Proof. intros (H1 & H2 & _); split; assumption. Qed.

Lemma others_trans id s1 s2 s3 : others id s1 s2 -> others id s2 s3 -> others id s1 s3.
Proof. intros [A1 A2] [B1 B2]; split; [intros j Hj; rewrite B1, A1 by exact Hj; reflexivity | congruence]. Qed.

Lemma quiet_acts {A} id (m : handler A) : quiet m -> acts_inline id m.
Proof. intros H s; destruct (H s) as [H1 H2]; unfold others; rewrite H1; auto. Qed.

Lemma acts_call {A} id op (f : Supervisor -> Supervisor * outcome A) :
  (forall sup, frame id sup (fst (f sup))) -> acts_inline id (call op f).
Proof.
  intros H s; unfold call; specialize (H (supervisor s)); destruct (f (supervisor s)); simpl in *.
  split; [apply frame_others, H | reflexivity].
Qed.

Lemma acts_bind {A B} id (m : handler A) (k : A -> handler B) :
  acts_inline id m -> (forall a, acts_inline id (k a)) -> acts_inline id (bind m k).
Proof.
  intros Hm Hk s; unfold bind; specialize (Hm s); destruct (m s) as [s1 [a|st|w]]; simpl in *; auto.
  destruct (Hk a s1) as [H1 H2]; destruct Hm as [H3 H4]; split; [eapply others_trans; eassumption | congruence].
Qed.

Lemma acts_write_limit {B} id now now' (k : unit -> handler B) :
  (forall u, acts_inline id (k u)) -> acts id (bind (write_limit id now now') k).
Proof.
  intros Hk s; unfold bind, write_limit; destruct (limiter_allow (writeRL s) id now) as [[|] l]; simpl.
  - destruct (Hk tt (MkServer (supervisor s) (srv_registry s) (globalRL s) (startRL s) l (serverInstanceID s)
      (providerFallbacks s) (version s) (goroutines s ++ []))) as [H1 H2]; simpl in *; rewrite app_nil_r in *; auto.
  - unfold others; destruct (limiter_banned l id now'); simpl; rewrite ?app_nil_r; auto.
Qed.

Lemma acts_inline_acts {A} id (m : handler A) : acts_inline id m -> acts id m.
Proof. intros H s; destruct (H s); auto. Qed.

(** Answers without session metadata. *)
Definition silent (m : handler response) : Prop := forall s s' resp, m s = (s', Reply resp) -> projects_in resp = [].

Lemma silent_bind {A} (m : handler A) (k : A -> handler response) : (forall a, silent (k a)) -> silent (bind m k).
Proof.
  intros Hk s s' resp; unfold bind; destruct (m s) as [s1 [a|st|w]]; [apply Hk | discriminate..].
Qed.

Lemma silent_ret resp : projects_in resp = [] -> silent (ret resp).
Proof. intros H s s' resp' [= _ <-]; exact H. Qed.

(** *** Confinement *)

Definition confined (ctx : option BridgeClaims) (req : request) (s s' : BridgeServer) (r : reply response) : Prop :=
  (supervisor s' = supervisor s /\ goroutines s' = goroutines s \/
   exists claims id, ctx = Some claims /\ target req = Some id /\ permitted claims (supervisor s) req /\
     others id (supervisor s) (supervisor s') /\
     (goroutines s' = goroutines s \/ goroutines s' = goroutines s ++ [id])) /\
  (forall resp, r = Reply resp -> exists claims, ctx = Some claims /\ permitted claims (supervisor s) req /\
     Forall (allowed claims) (projects_in resp)).

Lemma confined_stop ctx req s s' r :
  supervisor s' = supervisor s -> goroutines s' = goroutines s -> (forall b, r <> Reply b) -> confined ctx req s s' r.
Proof. intros H1 H2 H3; split; [left; auto | intros resp K; destruct (H3 resp K)]. Qed.

(** The last part of a handler, once the request is known to be permitted. *)
Lemma confined_act ctx req claims id (m : handler response) s s1 s' r :
  ctx = Some claims -> target req = Some id -> permitted claims (supervisor s) req -> acts id m -> silent m ->
  supervisor s1 = supervisor s -> goroutines s1 = goroutines s -> m s1 = (s', r) -> confined ctx req s s' r.
Proof.
  intros Hc Ht Hp Ha Hs H1 H2 Hm; specialize (Ha s1); rewrite Hm, H1, H2 in Ha; simpl in Ha; destruct Ha as [Ha Hg].
  split; [right; exists claims, id; auto 10|].
  intros resp ->; exists claims; split_and!; auto; rewrite (Hs _ _ _ Hm); constructor.
Qed.
End Handlers.

#[export] Hint Resolve quiet_ret quiet_fail quiet_check quiet_global quiet_start_limit quiet_mustClaims quiet_enter
  quiet_query quiet_authorize quiet_list_project : bridge.

(** Peel the first part off a handler that was run: it ends there, without
    having touched anything, or the rest runs on a server with the same
    supervisor and goroutines. *)
Ltac peel H :=
  let Hq := fresh "Hq" in let Hs := fresh "Hs" in let Hg := fresh "Hg" in
  apply bind_quiet in H; [|solve [auto with bridge]];
  destruct H as [(Hs & Hg & Hq)|(?a & ?s & ?Hm & Hs & Hg & H)];
  [apply confined_stop; [congruence | congruence | exact Hq]|].

(** The remaining part acts on one session. *)
Ltac act_tac :=
  first [ apply acts_write_limit; intros; act_tac | apply acts_inline_acts; act_tac
        | apply acts_bind; [act_tac | intros; act_tac]
        | apply quiet_acts; solve [auto with bridge]
        | apply acts_call; intros; first [apply Stop_frame | apply WriteInput_frame | apply Resize_frame | apply Claim_frame | apply Release_frame | apply fanout_frame]
        | match goal with |- context [if ?b then _ else _] => destruct b; act_tac end ].

Ltac silent_tac := repeat (apply silent_bind; intros); apply silent_ret; reflexivity.

Section Isolation.
Context `{E : Emulator} `{S : SessionStore} `{U : UUID}.

(** What the opening and the authorisation of a handler have established. *)
Lemma permitted_after ctx now claims id s0 s1 s2 s3 u :
  enter ctx now s0 = (s1, Reply claims) -> authorizeSession claims id s2 = (s3, Reply u) -> supervisor s2 = supervisor s0 ->
  ctx = Some claims /\ exists info, GetSession (supervisor s0) id = Ok info /\ allowed claims (info_ProjectID info).
Proof.
  intros He Ha Hs; split; [eapply enter_reply; exact He|].
  apply authorize_reply in Ha; rewrite Hs in Ha; exact Ha.
Qed.

(** A handler whose checks are over: its claims are known and allow it. *)
Ltac permitted_tac Hc Hp :=
  match goal with
  | He : enter _ _ _ = (_, Reply ?c), Ha : authorizeSession ?c _ _ = (_, Reply _) |- _ =>
      destruct (permitted_after _ _ _ _ _ _ _ _ _ He Ha ltac:(congruence)) as [Hc Hp]
  end.

Ltac acting H :=
  let Hc := fresh "Hc" in let Hp := fresh "Hp" in
  permitted_tac Hc Hp;
  eapply confined_act; [exact Hc | reflexivity | exact Hp | | | | | exact H]; [act_tac | silent_tac | congruence | congruence].

Lemma StopSession_confined ctx id force now s s' r :
  StopSession ctx id force now s = (s', r) -> confined ctx (ReqStop id force) s s' r.
Proof. intros H; unfold StopSession in H; do 3 peel H; acting H. Qed.

Lemma WriteInput_confined ctx id c data now now' io s s' r :
  WriteInput_ ctx id c data now now' io s = (s', r) -> confined ctx (ReqWrite id c data) s s' r.
Proof. intros H; unfold WriteInput_ in H; do 5 peel H; acting H. Qed.

Lemma Resize_confined ctx id c cols rows now ss s s' r :
  ResizeSession ctx id c cols rows now ss s = (s', r) -> confined ctx (ReqResize id c cols rows) s s' r.
Proof. intros H; unfold ResizeSession in H; do 5 peel H; acting H. Qed.

Lemma ClaimWriter_confined ctx id c force now s s' r :
  ClaimWriter_ ctx id c force now s = (s', r) -> confined ctx (ReqClaim id c force) s s' r.
Proof. intros H; unfold ClaimWriter_ in H; do 4 peel H; acting H. Qed.

Lemma ReleaseWriter_confined ctx id c now s s' r :
  ReleaseWriter_ ctx id c now s = (s', r) -> confined ctx (ReqRelease id c) s s' r.
Proof. intros H; unfold ReleaseWriter_ in H; do 4 peel H; acting H. Qed.

Lemma GetSession_confined ctx id now s s' r :
  GetSession_ ctx id now s = (s', r) -> confined ctx (ReqGet id) s s' r.
Proof.
  intros H; unfold GetSession_ in H; do 3 peel H; permitted_tac Hc Hp; peel H; injection H as <- <-.
  split; [left; split; congruence|]; intros resp [= <-]; exists a; split_and!; auto.
  destruct Hp as (info & Hi & Ha).
  match goal with K : call _ _ ?x = _ |- _ => unfold call in K; replace (supervisor x) with (supervisor s) in K by congruence;
    rewrite Hi in K; injection K as <- <- end.
  constructor; [exact Ha | constructor].
Qed.

Lemma ListSessions_confined ctx p now s s' r :
  ListSessions_ ctx p now s = (s', r) -> confined ctx (ReqList p) s s' r.
Proof.
  intros H; unfold ListSessions_ in H; do 2 peel H; injection H as <- <-.
  split; [left; split; congruence|]; intros resp [= <-]; exists a; split_and!; [eapply enter_reply; eassumption | exact I|].
  simpl; apply Forall_forall; intros q Hq; rewrite map_map, in_map_iff in Hq; destruct Hq as (info & <- & Hi).
  match goal with K : list_project _ _ _ = _ |- _ => apply list_project_reply in K; destruct K as [K|K]; [left; exact K|] end.
  unfold ListSessions in Hi; rewrite in_app_iff, !filter_In in Hi; unfold in_project in Hi; unfold allowed; simpl; subst.
  destruct (str_eqb (ProjectID a) "") eqn:Ea; bool_to_prop; [auto|]; simpl in Hi.
  right; destruct Hi as [[_ Hi]|[_ Hi]]; bool_to_prop; congruence.
Qed.

(** Starting a session leaves every other one alone. *)
Lemma Start_others sup wd cfg r now : others (cfg_SessionID cfg) sup (fst (Start sup wd cfg r now)).
Proof.
  unfold Start; destruct (start_check sup wd cfg); [split; auto|].
  destruct (start_prepare sup cfg) as [[cfg' p]|e|w] eqn:Ep; [|split; auto..].
  assert (Hid : cfg_SessionID cfg' = cfg_SessionID cfg).
  { unfold start_prepare in Ep.
    destruct (match repoSetup sup with None => _ | Some _ => _ end) as [c0|e|w] eqn:E0; [|discriminate..].
    destruct (resolveProvider _ _ _ _); [|discriminate..]; injection Ep as <- _; simpl.
    destruct (repoSetup sup) as [prep|]; [destruct (prep _ _)|]; inversion E0; reflexivity. }
  rewrite <- Hid; clear Ep Hid.
  destruct (prov_BuildCommand p cfg'); [split; auto|].
  assert (Hreg : forall pid, others (cfg_SessionID cfg') sup (fst (start_register sup cfg' p pid now))).
  { intros pid; unfold start_register; destruct (shuttingDown sup); [split; auto|].
    destruct (sessions sup !! cfg_SessionID cfg'); [split; auto|]; simpl; unfold others, persist; simpl.
    rewrite sessions_notify, history_notify; destruct (telemetry _); simpl; split; auto;
      intros j Hj; apply lookup_insert_ne; auto. }
  unfold start_spawn; destruct (flag _), r; solve [apply Hreg | split; auto].
Qed.

Lemma StartSession_confined ctx req now an s s' r :
  StartSession ctx req now an s = (s', r) -> confined ctx (ReqStart req) s s' r.
Proof.
  intros H; unfold StartSession in H; do 9 peel H.
  assert (Hc : ctx = Some a0) by (destruct ctx; [|discriminate]; match goal with K : mustClaims _ _ = _ |- _ => injection K as _ -> end; reflexivity).
  match goal with K : check (authorizeProject _ _) _ = _ |- _ => apply check_reply in K; apply authorizeProject_None in K; rename K into Hp end.
  eapply confined_act; [exact Hc | reflexivity | exact Hp | | | | | exact H]; [|silent_tac | congruence | congruence].
  apply acts_inline_acts, acts_bind; [|intros; apply quiet_acts; auto with bridge].
  intros x; unfold call; pose proof (Start_others (supervisor x) (an_wd an) (start_config x req) (an_spawn an) now) as K.
  destruct (Start _ _ _ _ _); split; [exact K | reflexivity].
Qed.

Lemma serve_confined ctx w req s s' r : serve ctx w req s = (s', r) -> confined ctx req s s' r.
Proof.
  destruct req; simpl; eauto using StartSession_confined, StopSession_confined, GetSession_confined,
    ListSessions_confined, WriteInput_confined, Resize_confined, ClaimWriter_confined, ReleaseWriter_confined.
Qed.
End Isolation.

(** ** What an answer tells *)

(** A token bound to project [p] is confined also in what it can learn.  What it
    can see of a session of another project is that project and whether the
    session counts towards the limits; of a session of its own, everything. *)
Section Seen.
Context `{E : Emulator} `{S : SessionStore}.
Context (p : string).

Definition seen_session (ms : managedSession) : managedSession + (string * bool) :=
  if str_eqb (proj ms) p then inl ms else inr (proj ms, counts_as_active (info_State (ms_info ms))).

Definition seen_info (info : SessionInfo) : SessionInfo + string :=
  if str_eqb (info_ProjectID info) p then inl info else inr (info_ProjectID info).

(** The saved output a token of [p] may ask for. *)
Definition journals_agree (s1 s2 : Supervisor) : Prop :=
  match store s1, store s2 with
  | None, None => True
  | Some a, Some b => forall id info, history s1 !! id = Some info -> info_ProjectID info = p ->
      store_LoadChunks a id = store_LoadChunks b id
  | _, _ => False
  end.

(** Two daemons that differ only in what a token of [p] must not see: the contents
    of sessions and journals of other projects, and what was recorded. *)
Record alike (s1 s2 : Supervisor) : Prop := {
  al_sessions : seen_session <$> sessions s1 = seen_session <$> sessions s2;
  al_history : seen_info <$> history s1 = seen_info <$> history s2;
  al_journals : journals_agree s1 s2;
  al_policy : policy s1 = policy s2;
  al_registry : registry s1 = registry s2;
  al_setup : repoSetup s1 = repoSetup s2;
  al_size : bufSize s1 = bufSize s2;
  al_down : shuttingDown s1 = shuttingDown s2;
}.

Lemma seen_session_eq a b : seen_session a = seen_session b -> proj a = proj b /\ (proj a = p -> a = b).
Proof.
  unfold seen_session; destruct (str_eqb (proj a) p) eqn:Ea, (str_eqb (proj b) p) eqn:Eb; intros [= H]; subst; auto.
  split; [assumption|]; intros K; rewrite K, str_eqb_refl in Ea; discriminate.
Qed.

Lemma seen_info_eq a b : seen_info a = seen_info b -> info_ProjectID a = info_ProjectID b /\ (info_ProjectID a = p -> a = b).
Proof.
  unfold seen_info; destruct (str_eqb (info_ProjectID a) p) eqn:Ea, (str_eqb (info_ProjectID b) p) eqn:Eb; intros [= H]; subst; auto.
  split; [assumption|]; intros K; rewrite K, str_eqb_refl in Ea; discriminate.
Qed.

Lemma fmap_lookup_eq {A B} (f : A -> B) (m1 m2 : gmap string A) id :
  f <$> m1 = f <$> m2 -> match m1 !! id, m2 !! id with Some a, Some b => f a = f b | None, None => True | _, _ => False end.
Proof.
  intros H; apply (f_equal (fun m => m !! id)) in H; rewrite !lookup_fmap in H.
  destruct (m1 !! id), (m2 !! id); simpl in H; try discriminate; [injection H; auto | exact I].
Qed.

(** Asking for a session finds the same project in both, and the same session if
    it is one of [p]. *)
Lemma alike_get s1 s2 id :
  alike s1 s2 ->
  match GetSession s1 id, GetSession s2 id with
  | Ok a, Ok b => info_ProjectID a = info_ProjectID b
  | r1, r2 => r1 = r2
  end.
Proof.
  intros H; pose proof (fmap_lookup_eq _ _ _ id (al_sessions _ _ H)); pose proof (fmap_lookup_eq _ _ _ id (al_history _ _ H)).
  unfold GetSession; destruct (sessions s1 !! id), (sessions s2 !! id); try tauto; [apply seen_session_eq; assumption|].
  destruct (history s1 !! id), (history s2 !! id); try tauto; [apply seen_info_eq; assumption | reflexivity].
Qed.

Definition own (id : string) (s : Supervisor) : Prop := exists info, GetSession s id = Ok info /\ info_ProjectID info = p.

(** The two agree on what an operation on session [id] reads. *)
Definition matched (id : string) (s1 s2 : Supervisor) : Prop := sessions s1 !! id = sessions s2 !! id /\ policy s1 = policy s2.

Lemma alike_own s1 s2 id :
  alike s1 s2 -> own id s1 ->
  matched id s1 s2 /\ GetSession s1 id = GetSession s2 id /\ (sessions s1 !! id = None -> history s1 !! id = history s2 !! id).
Proof.
  intros H (info & Hi & Hp); pose proof (fmap_lookup_eq _ _ _ id (al_sessions _ _ H)) as H1; pose proof (fmap_lookup_eq _ _ _ id (al_history _ _ H)) as H2.
  unfold matched, GetSession in *; destruct (sessions s1 !! id) as [a|], (sessions s2 !! id) as [b|]; try tauto.
  - apply seen_session_eq in H1 as [_ H1]; injection Hi as <-; rewrite (H1 Hp); split_and!; [reflexivity | apply H | reflexivity | discriminate].
  - destruct (history s1 !! id), (history s2 !! id); try tauto; [|discriminate]; injection Hi as <-.
    apply seen_info_eq in H2 as [_ H2]; rewrite (H2 Hp); split_and!; auto; apply H.
Qed.

(** *** Lists and limits *)

Lemma alike_lists {A B} (see : A -> B) (m1 m2 : gmap string A) :
  see <$> m1 = see <$> m2 -> Forall2 (fun a b => fst a = fst b /\ see (snd a) = see (snd b)) (map_to_list m1) (map_to_list m2).
Proof.
  intros H; apply (f_equal map_to_list) in H; rewrite !map_to_list_fmap in H.
  revert H; generalize (map_to_list m1) (map_to_list m2); intros l1; induction l1 as [|[k a] l1 IH]; intros [|[k' b] l2] H; try discriminate; [constructor|].
  injection H as H1 H2 H3; constructor; auto.
Qed.

Lemma in_project_own info : p <> ""%string -> in_project p info = true -> info_ProjectID info = p.
Proof. intros Hp; unfold in_project; rewrite (proj2 (str_eqb_neq _ _)) by exact Hp; simpl; intros H; bool_to_prop; exact H. Qed.

Lemma alike_list s1 s2 : alike s1 s2 -> p <> ""%string -> ListSessions s1 p = ListSessions s2 p.
Proof.
  intros H Hp; unfold ListSessions; f_equal.
  - induction (alike_lists _ _ _ (al_sessions _ _ H)) as [|[k a] [k' b] l1 l2 [Hk Hs] _ IH]; [reflexivity|]; simpl in *.
    apply seen_session_eq in Hs as [Hs Hown].
    assert (Hin : in_project p (snapshotInfo b) = in_project p (snapshotInfo a)) by (unfold in_project; change (info_ProjectID (snapshotInfo ?x)) with (proj x); rewrite Hs; reflexivity).
    rewrite Hin, IH; destruct (in_project p (snapshotInfo a)) eqn:Ei; [|reflexivity].
    rewrite (Hown (in_project_own _ Hp Ei)); reflexivity.
  - induction (alike_lists _ _ _ (al_history _ _ H)) as [|[k a] [k' b] l1 l2 [Hk Hs] _ IH]; [reflexivity|]; simpl in *; subst k'.
    apply seen_info_eq in Hs as [Hs Hown]; pose proof (fmap_lookup_eq _ _ _ k (al_sessions _ _ H)) as Hl.
    assert (Hd : bool_decide (is_Some (sessions s1 !! k)) = bool_decide (is_Some (sessions s2 !! k))).
    { apply bool_decide_ext; destruct (sessions s1 !! k), (sessions s2 !! k); try tauto; split; intros [? ?]; (discriminate || eauto). }
    rewrite Hd; clear Hd; destruct (bool_decide (is_Some (sessions s2 !! k))); simpl; [exact IH|].
    assert (Hin : in_project p b = in_project p a) by (unfold in_project; rewrite Hs; reflexivity).
    rewrite Hin, IH; destruct (in_project p a) eqn:Ei; [|reflexivity]; rewrite (Hown (in_project_own _ Hp Ei)); reflexivity.
Qed.

Lemma seen_active a b :
  seen_session a = seen_session b -> counts_as_active (info_State (ms_info a)) = counts_as_active (info_State (ms_info b)).
Proof. unfold seen_session; destruct (str_eqb (proj a) p), (str_eqb (proj b) p); intros [= H]; subst; auto. Qed.

Lemma alike_global s1 s2 : alike s1 s2 -> globalCount s1 = globalCount s2.
Proof.
  intros H; unfold globalCount, zlen; f_equal.
  induction (alike_lists _ _ _ (al_sessions _ _ H)) as [|[k a] [k' b] l1 l2 [Hk Hs] _ IH]; [reflexivity|]; simpl in *.
  rewrite (seen_active _ _ Hs); destruct (counts_as_active _); simpl; congruence.
Qed.

Lemma alike_count s1 s2 q : alike s1 s2 -> projectCount s1 q = projectCount s2 q.
Proof.
  intros H; unfold projectCount, zlen; f_equal.
  induction (alike_lists _ _ _ (al_sessions _ _ H)) as [|[k a] [k' b] l1 l2 [Hk Hs] _ IH]; [reflexivity|]; simpl in *.
  rewrite (seen_active _ _ Hs); apply seen_session_eq in Hs as [Hs _].
  unfold proj in Hs; rewrite Hs; destruct (_ && _); simpl; congruence.
Qed.

(** *** Operations *)

(** An operation that reads no more than its session. *)
Definition local {A} (id : string) (f : Supervisor -> Supervisor * outcome A) : Prop :=
  forall s1 s2, matched id s1 s2 -> snd (f s1) = snd (f s2) /\ matched id (fst (f s1)) (fst (f s2)).

Lemma policy_notify infos (s : Supervisor) : policy (notifyControl infos s) = policy s.
Proof. unfold notifyControl; destruct (control s); reflexivity. Qed.

Lemma policy_if (b : bool) ev (s : Supervisor) : policy (if b then emit ev s else s) = policy s.
Proof. destruct b; reflexivity. Qed.

Lemma sessions_if (b : bool) ev (s : Supervisor) : sessions (if b then emit ev s else s) = sessions s.
Proof. destruct b; reflexivity. Qed.

Lemma matched_put id ms a1 a2 (s1 s2 : Supervisor) :
  sessions a1 = sessions (put_session id ms s1) -> sessions a2 = sessions (put_session id ms s2) ->
  policy a1 = policy s1 -> policy a2 = policy s2 -> matched id s1 s2 -> matched id a1 a2.
Proof. intros H1 H2 H3 H4 [_ H]; unfold matched; rewrite H1, H2, H3, H4; simpl; rewrite !lookup_insert_eq; auto. Qed.

Ltac put_tac H :=
  split; [reflexivity | eapply matched_put; [| | | |exact H];
    repeat first [rewrite sessions_notify | rewrite policy_notify | rewrite policy_if | rewrite sessions_if | reflexivity | progress simpl]].

Lemma Stop_local id force : local id (fun s => Stop s id force).
Proof.
  intros s1 s2 H; pose proof H as [Hs Hpol]; unfold Stop; rewrite Hs; destruct (sessions s2 !! id) as [ms|]; [|split; [reflexivity | exact H]].
  destruct (stop_locked ms force) as [ms'|]; [|split; [reflexivity | exact H]].
  destruct (ms_recovered ms'); [put_tac H|]; destruct (ms_cmd ms'); [|put_tac H]; destruct (ms_stdin ms'); put_tac H.
Qed.

Lemma WriteInput_local id c data io now : local id (fun s => WriteInput s id c data io now).
Proof.
  intros s1 s2 H; pose proof H as [Hs Hpol]; unfold WriteInput; rewrite Hpol, Hs; destruct (ValidateInputBytes _ _); [split; [reflexivity | exact H]|].
  destruct (sessions s2 !! id) as [ms|]; [|split; [reflexivity | exact H]].
  destruct (input_guard ms c); [split; [reflexivity | exact H]|]; simpl; put_tac H.
Qed.

Lemma append_any_store st1 st2 ms b t now :
  match appendChunkLocked st1 ms b t now, appendChunkLocked st2 ms b t now with
  | Ok (_, m1), Ok (_, m2) => m1 = m2
  | Err e1, Err e2 => e1 = e2
  | Panic w1, Panic w2 => w1 = w2
  | _, _ => False
  end.
Proof.
  unfold appendChunkLocked; destruct (ms_liveClosed ms); [reflexivity|]; destruct (AppendSized _ _ _ _ _ _).
  destruct (send_all _ _ _); reflexivity.
Qed.

Lemma resize_any_store st1 st2 ms c cols rows ss now :
  match resize_locked st1 ms c cols rows ss now, resize_locked st2 ms c cols rows ss now with
  | Ok (_, m1), Ok (_, m2) => m1 = m2
  | Err e1, Err e2 => e1 = e2
  | Panic w1, Panic w2 => w1 = w2
  | _, _ => False
  end.
Proof.
  unfold resize_locked; destruct (ms_recovered ms); [reflexivity|]; destruct (str_eqb _ ""); [reflexivity|].
  destruct (negb _); [reflexivity|]; destruct (ms_streamJSON ms); [reflexivity|]; destruct ss; [reflexivity | apply append_any_store].
Qed.

Lemma Resize_local id c cols rows ss now : local id (fun s => Resize s id c cols rows ss now).
Proof.
  intros s1 s2 H; pose proof H as [Hs Hpol]; unfold Resize; rewrite Hs; destruct (sessions s2 !! id) as [ms|]; [|split; [reflexivity | exact H]].
  set (asked := _ && _ && _ && _); pose proof (resize_any_store (store s1) (store s2) ms c cols rows ss now) as K; unfold commit.
  destruct (resize_locked (store s1) _ _ _ _ _ _) as [[? m1]|e1|w1], (resize_locked (store s2) _ _ _ _ _ _) as [[? m2]|e2|w2]; try tauto; subst.
  - put_tac H; destruct asked; reflexivity.
  - split; [reflexivity | destruct asked; exact H].
  - split; [reflexivity | destruct asked; exact H].
Qed.

Lemma Claim_local id c force : local id (fun s => ClaimWriter s id c force).
Proof.
  intros s1 s2 H; pose proof H as [Hs Hpol]; unfold ClaimWriter; rewrite Hs; destruct (sessions s2 !! id) as [ms|]; [|split; [reflexivity | exact H]].
  destruct (claim_locked ms c force) as [[? ?]|e|w]; [put_tac H | split; [reflexivity | exact H]..].
Qed.

Lemma Release_local id c : local id (fun s => ReleaseWriter s id c).
Proof.
  intros s1 s2 H; pose proof H as [Hs Hpol]; unfold ReleaseWriter; rewrite Hs; destruct (sessions s2 !! id) as [ms|]; [|split; [reflexivity | exact H]].
  destruct (release_locked ms c) as [?|e|w]; [put_tac H | split; [reflexivity | exact H]..].
Qed.

Lemma fanout_local id t b : local id (fun s => fanout s id t b).
Proof.
  intros s1 s2 H; pose proof H as [Hs Hpol]; unfold fanout; rewrite Hs; destruct (sessions s2 !! id) as [ms|]; [|split; [reflexivity | exact H]].
  destruct (fanoutControlEvent ms t b) as [?|e|w]; [put_tac H | split; [reflexivity | exact H]..].
Qed.

Lemma Attach_seen s1 s2 id c after role now :
  alike s1 s2 -> own id s1 -> snd (Attach s1 id c after role now) = snd (Attach s2 id c after role now).
Proof.
  intros H Ho; destruct (alike_own _ _ _ H Ho) as ([Hs _] & _ & Hh); unfold Attach; rewrite <- Hs.
  destruct (sessions s1 !! id) as [ms|] eqn:Es; [destruct (attach_locked _ _ _ _ _) as [[[? ?] ?]|e|w]; reflexivity|].
  assert (attachHistory s1 id c after = attachHistory s2 id c after) as ->.
  { unfold attachHistory; pose proof (al_journals _ _ H) as J; unfold journals_agree in J; rewrite <- (Hh eq_refl).
    destruct Ho as (info & Hi & Hp); unfold GetSession in Hi; rewrite Es in Hi.
    destruct (store s1), (store s2); try tauto; destruct (history s1 !! id) as [i|] eqn:Eh; [|discriminate].
    injection Hi as ->; rewrite (J id info Eh Hp); reflexivity. }
  destruct (attachHistory s2 id c after) as [a|e|w]; [| destruct (bool_decide _) |]; reflexivity.
Qed.

Lemma Start_seen s1 s2 wd cfg r now :
  alike s1 s2 -> snd (Start s1 wd cfg r now) = snd (Start s2 wd cfg r now).
Proof.
  intros H; unfold Start.
  assert (start_check s1 wd cfg = start_check s2 wd cfg) as ->.
  { unfold start_check; rewrite (al_policy _ _ H), (al_down _ _ H), (alike_count _ _ _ H), (alike_global _ _ H).
    pose proof (fmap_lookup_eq _ _ _ (cfg_SessionID cfg) (al_sessions _ _ H)) as K.
    destruct (sessions s1 !! cfg_SessionID cfg), (sessions s2 !! cfg_SessionID cfg); try tauto; reflexivity. }
  destruct (start_check s2 wd cfg); [reflexivity|].
  assert (start_prepare s1 cfg = start_prepare s2 cfg) as -> by (unfold start_prepare; rewrite (al_setup _ _ H), (al_registry _ _ H); reflexivity).
  destruct (start_prepare s2 cfg) as [[cfg' pr]|e|w]; [|reflexivity..]; destruct (prov_BuildCommand pr cfg'); [reflexivity|].
  assert (Hreg : forall pid, snd (start_register s1 cfg' pr pid now) = snd (start_register s2 cfg' pr pid now)).
  { intros pid; unfold start_register, new_session; rewrite (al_down _ _ H), (al_size _ _ H).
    pose proof (fmap_lookup_eq _ _ _ (cfg_SessionID cfg') (al_sessions _ _ H)) as K.
    destruct (shuttingDown s2); [reflexivity|].
    destruct (sessions s1 !! cfg_SessionID cfg'), (sessions s2 !! cfg_SessionID cfg'); try tauto; reflexivity. }
  unfold start_spawn; destruct (flag _), r; solve [apply Hreg | reflexivity].
Qed.

(** *** Handlers *)

(** The same server over another supervisor. *)
Definition answers_alike {A} (m : handler A) : Prop :=
  forall s sup, alike (supervisor s) sup -> snd (m s) = snd (m (with_supervisor sup s)).

(** A part that neither reads nor changes the supervisor. *)
Definition apart {A} (m : handler A) : Prop :=
  forall s sup, supervisor (fst (m s)) = supervisor s /\ m (with_supervisor sup s) = (with_supervisor sup (fst (m s)), snd (m s)).

Lemma apart_bind {A B} (m : handler A) (k : A -> handler B) : apart m -> (forall a, answers_alike (k a)) -> answers_alike (bind m k).
Proof.
  intros Hm Hk s sup Ha; destruct (Hm s sup) as [H1 H2]; unfold bind; rewrite H2.
  destruct (m s) as [s1 [a|st|w]]; simpl in *; [|reflexivity..]; apply Hk; rewrite H1; exact Ha.
Qed.

(** The same for the parts that follow the authorisation for session [id]. *)
Definition answers_local {A} (id : string) (m : handler A) : Prop :=
  forall s sup, matched id (supervisor s) sup ->
    snd (m s) = snd (m (with_supervisor sup s)) /\
    matched id (supervisor (fst (m s))) (supervisor (fst (m (with_supervisor sup s)))) /\
    fst (m (with_supervisor sup s)) = with_supervisor (supervisor (fst (m (with_supervisor sup s)))) (fst (m s)).

Lemma local_apart {A} id (m : handler A) : apart m -> answers_local id m.
Proof. intros H s sup Hm; destruct (H s sup) as [H1 H2]; rewrite H2; simpl; rewrite H1; auto. Qed.

Lemma local_call {A} id op (f : Supervisor -> Supervisor * outcome A) : local id f -> answers_local id (call op f).
Proof.
  intros H s sup Hm; destruct (H _ _ Hm) as [H1 H2]; unfold call; cbn [supervisor with_supervisor].
  destruct (f (supervisor s)) as [a1 r1], (f sup) as [a2 r2]; simpl in *; subst; auto.
Qed.

Lemma local_bind {A B} id (m : handler A) (k : A -> handler B) :
  answers_local id m -> (forall a, answers_local id (k a)) -> answers_local id (bind m k).
Proof.
  intros Hm Hk s sup H; destruct (Hm s sup H) as (H1 & H2 & H3); unfold bind.
  destruct (m s) as [s1 r1], (m (with_supervisor sup s)) as [s2 r2]; simpl in H1, H2, H3; subst r2.
  destruct r1 as [a|st|w]; [|simpl; auto..]; rewrite H3; apply Hk, H2.
Qed.
End Seen.

#[export] Hint Resolve Stop_local WriteInput_local Resize_local Claim_local Release_local fanout_local local_call : bridge.

Section Told.
Context `{E : Emulator} `{S : SessionStore} `{U : UUID}.
Context (p : string) (bound : p <> ""%string).

Lemma apart_check o : apart (check o).
Proof. intros s sup; unfold check; destruct o; auto. Qed.

Lemma apart_ret {A} (a : A) : apart (ret a).
Proof. intros s sup; auto. Qed.

Lemma apart_global now : apart (global_limit now).
Proof. intros s sup; unfold global_limit; cbn [globalRL with_supervisor]; destruct (limiter_allow _ _ _); auto. Qed.

Lemma apart_start_limit c now : apart (start_limit c now).
Proof. intros s sup; unfold start_limit; cbn [startRL with_supervisor]; destruct (limiter_allow _ _ _); auto. Qed.

Lemma apart_write_limit id now now' : apart (write_limit id now now').
Proof. intros s sup; unfold write_limit; cbn [writeRL with_supervisor]; destruct (limiter_allow _ _ _); auto. Qed.

Lemma apart_claims ctx : apart (mustClaims ctx).
Proof. intros s sup; unfold mustClaims; destruct ctx; auto. Qed.

Lemma apart_seq {A B} (m : handler A) (k : A -> handler B) : apart m -> (forall a, apart (k a)) -> apart (bind m k).
Proof.
  intros Hm Hk s sup; destruct (Hm s sup) as [H1 H2]; unfold bind; rewrite H2.
  destruct (m s) as [s1 [a|st|w]]; simpl in *; auto; destruct (Hk a s1 sup) as [K1 K2]; rewrite K2; split; [congruence | reflexivity].
Qed.

Lemma apart_enter ctx now : apart (enter ctx now).
Proof. apply apart_seq; [apply apart_global | intros; apply apart_claims]. Qed.

(** The claims of a request whose handler got that far. *)
Lemma enter_alike {B} claims now (k : BridgeClaims -> handler B) :
  answers_alike p (k claims) -> answers_alike p (bind (enter (Some claims) now) k).
Proof.
  intros Hk s sup Ha; destruct (apart_enter (Some claims) now s sup) as [H1 H2]; unfold bind at 1 2; rewrite H2.
  destruct (enter (Some claims) now s) as [s1 [a|st|w]] eqn:Ee; simpl in *; [|reflexivity..].
  apply enter_reply in Ee; injection Ee as <-; apply Hk; rewrite H1; exact Ha.
Qed.

(** The refusal names the project of the session, and nothing else of it. *)
Lemma authorize_alike {B} claims id (k : unit -> handler B) :
  ProjectID claims = p ->
  (forall s sup, alike p (supervisor s) sup -> own p id (supervisor s) -> snd (k tt s) = snd (k tt (with_supervisor sup s))) ->
  answers_alike p (bind (authorizeSession claims id) k).
Proof.
  intros Hc Hk s sup Ha; pose proof (alike_get p _ _ id Ha) as Hg.
  unfold bind, authorizeSession, bind, call, check; cbn [supervisor with_supervisor].
  destruct (GetSession (supervisor s) id) as [i1|e1|w1] eqn:E1, (GetSession sup id) as [i2|e2|w2]; try discriminate; try (injection Hg as <-; reflexivity).
  rewrite <- Hg; destruct (authorizeProject claims (info_ProjectID i1)) eqn:Ea; [reflexivity|].
  apply authorizeProject_None in Ea; rewrite <- Hc in bound; destruct Ea as [Ea|Ea]; [congruence|].
  assert (Ho : own p id (supervisor s)) by (exists i1; split; [exact E1 | congruence]).
  pose proof (Hk s sup Ha Ho) as K; destruct s; exact K.
Qed.

(** Then the handler acts on that session alone. *)
Lemma authorize_local {B} claims id (k : unit -> handler B) :
  ProjectID claims = p -> answers_local id (k tt) -> answers_alike p (bind (authorizeSession claims id) k).
Proof.
  intros Hc Hk; apply authorize_alike; [exact Hc|]; intros s sup Ha Ho; apply Hk; apply (alike_own p _ _ id Ha Ho).
Qed.

Ltac local_tac :=
  intros; first
  [ apply local_apart; first [apply apart_check | apply apart_ret | apply apart_write_limit]
  | apply local_call; first [solve [auto with bridge] | apply fanout_local]
  | apply local_bind; local_tac
  | match goal with |- context [if ?b then _ else _] => destruct b; local_tac end ].

Ltac told :=
  first [ apply enter_alike; told | apply apart_bind; [apply apart_check | intros; told]
        | apply authorize_local; [assumption|]; local_tac ].

(** What a token of [p] is answered is the same in daemons that are alike for it. *)
Lemma serve_alike claims w req : ProjectID claims = p -> answers_alike p (serve (Some claims) w req).
Proof.
  intros Hc; destruct req; cbn [serve].
  - unfold StartSession; repeat (apply apart_bind; [solve [apply apart_global | apply apart_claims | apply apart_check | apply apart_start_limit] | intros]).
    intros s sup Ha; unfold bind, call; cbn [supervisor with_supervisor].
    change (start_config (with_supervisor sup s) r) with (start_config s r).
    pose proof (Start_seen p _ _ (an_wd (wo_start w)) (start_config s r) (an_spawn (wo_start w)) (wo_now w) Ha) as K.
    destruct (Start (supervisor s) _ _ _ _) as [x1 r1], (Start sup _ _ _ _) as [x2 r2]; simpl in K; subst r2; destruct r1; reflexivity.
  - unfold StopSession; told.
  - unfold GetSession_; apply enter_alike, apart_bind; [apply apart_check | intros _].
    apply authorize_alike; [exact Hc|]; intros s sup Ha Ho; destruct (alike_own p _ _ _ Ha Ho) as (_ & Hg & _).
    unfold bind, call; cbn [supervisor with_supervisor]; rewrite Hg; destruct (GetSession sup _); reflexivity.
  - unfold ListSessions_; apply enter_alike; intros s sup Ha; unfold bind, list_project; rewrite Hc.
    rewrite (proj2 (str_eqb_neq _ _)) by exact bound; destruct (_ && _); [reflexivity|]; cbn [snd ret supervisor with_supervisor].
    rewrite (alike_list p _ _ Ha bound); reflexivity.
  - unfold WriteInput_; told.
  - unfold ResizeSession; told.
  - unfold ClaimWriter_; told.
  - unfold ReleaseWriter_; told.
Qed.

Lemma attach_open_alike claims session client after observer generated now :
  ProjectID claims = p -> answers_alike p (attach_open (Some claims) session client after observer generated now).
Proof.
  intros Hc; unfold attach_open; apply enter_alike; do 2 (apply apart_bind; [apply apart_check | intros _]).
  apply authorize_alike; [exact Hc|]; intros s sup Ha Ho; unfold bind, call; cbn [supervisor with_supervisor].
  match goal with |- context [Attach (supervisor s) session ?c after ?r now] => pose proof (Attach_seen p _ _ session c after r now Ha Ho) as K end.
  destruct (Attach (supervisor s) _ _ _ _ _) as [a1 r1], (Attach sup _ _ _ _ _) as [a2 r2]; simpl in K; subst r2; destruct r1; reflexivity.
Qed.
End Told.

(** *** The opening of an attach stream *)

Definition attach_confined `{E : Emulator} `{S : SessionStore} (ctx : option BridgeClaims) (id : string) (s s' : BridgeServer)
    (r : reply (string * AttachState)) : Prop :=
  (supervisor s' = supervisor s \/
   exists claims info, ctx = Some claims /\ GetSession (supervisor s) id = Ok info /\ allowed claims (info_ProjectID info) /\
     others id (supervisor s) (supervisor s')) /\
  goroutines s' = goroutines s /\
  (forall a, r = Reply a -> exists claims info, ctx = Some claims /\ GetSession (supervisor s) id = Ok info /\ allowed claims (info_ProjectID info)).

Lemma attach_open_confined `{E : Emulator} `{S : SessionStore} `{U : UUID} ctx session client after observer generated now s s' r :
  attach_open ctx session client after observer generated now s = (s', r) -> attach_confined ctx session s s' r.
Proof.
  intros H; unfold attach_open in H.
  do 4 (apply bind_quiet in H; [|solve [auto with bridge]];
    destruct H as [(?Hs & ?Hg & ?Hq)|(?a & ?s & ?Hm & ?Hs & ?Hg & H)];
    [split; [left; congruence|]; split; [congruence | intros x ->; match goal with K : forall b, _ <> _ |- _ => destruct (K x eq_refl) end]|]).
  match goal with He : enter _ _ _ = (_, Reply ?c), Ha : authorizeSession ?c _ _ = (_, Reply _) |- _ =>
    destruct (permitted_after _ _ _ _ _ _ _ _ _ He Ha ltac:(congruence)) as [Hc (info & Hi & Hp)] end.
  unfold bind, call in H; match type of H with context [Attach ?x ?i ?c after ?ro now] => pose proof (Attach_frame x i c after ro now) as K; destruct (Attach x i c after ro now) as [sup o] end.
  assert (s' = with_supervisor sup s3) as -> by (destruct o; injection H; auto).
  simpl in *; split; [right; exists a, info; split_and!; auto; replace (supervisor s) with (supervisor s3) by congruence; apply frame_others, K|].
  split; [simpl; congruence | intros; exists a, info; auto].
Qed.

(** ** Validated fields *)

(** A text field as the service accepts it. *)
Definition field_ok (maxLen : Z) (v : string) : Prop :=
  v <> ""%string /\ ValidString (chars v) = true /\ slen v <= maxLen /\
  Forall (fun r => 32 <= r /\ r <> 127) (map fst (runes (chars v))).

Lemma validateStringField_None name v maxLen : validateStringField name v maxLen false = None <-> field_ok maxLen v.
Proof.
  unfold validateStringField, field_ok; split.
  - destruct (str_eqb v "") eqn:E1; [discriminate|]; destruct (ValidString (chars v)); [|discriminate]; simpl.
    destruct (maxLen <? slen v) eqn:E3; [discriminate|]; destruct (existsb _ _) eqn:E4; [discriminate|]; intros _; bool_to_prop.
    split_and!; auto; apply Forall_forall; intros r Hr.
    assert (bad_rune false r = false) as Hb.
    { destruct (bad_rune false r) eqn:Eb; [|reflexivity]; rewrite <- E4; symmetry; apply existsb_exists; eauto. }
    unfold bad_rune in Hb; rewrite andb_true_r in Hb; bool_to_prop; auto.
  - intros (H1 & H2 & H3 & H4); rewrite (proj2 (str_eqb_neq _ _)), H2, (proj2 (Z.ltb_ge _ _)) by assumption; simpl.
    assert (existsb (bad_rune false) (map fst (runes (chars v))) = false) as ->; [|reflexivity].
    apply not_true_iff_false; intros K; apply existsb_exists in K as (r & Hr & Hb).
    rewrite Forall_forall in H4; destruct (H4 r Hr); unfold bad_rune in Hb.
    rewrite andb_true_r, orb_true_iff, Z.eqb_eq, Z.ltb_lt in Hb; lia.
Qed.

Lemma validateUUIDField_None `{UL : UUIDLaws} name v :
  validateUUIDField name v = None -> field_ok maxSessionIDLen v /\ plain_id v.
Proof.
  unfold validateUUIDField; destruct (validateStringField name v maxSessionIDLen false) eqn:Ev; [discriminate|].
  destruct (uuid_Parse v) eqn:Eu; [|discriminate]; intros _; split; [eapply validateStringField_None, Ev | apply uuid_no_slash, Eu].
Qed.

Lemma bind_reply `{E : Emulator} `{S : SessionStore} {A B} (m : handler A) (k : A -> handler B) s s' b :
  bind m k s = (s', Reply b) -> exists a s1, m s = (s1, Reply a) /\ k a s1 = (s', Reply b).
Proof. unfold bind; destruct (m s) as [s1 [a|st|w]]; [eauto | discriminate..]. Qed.

(** ** Theorems *)

(** C5. For the eight unary session requests (start, stop, get, list, write,
    resize, claim and release) and for the opening of an attach stream (diagnose
    is not modelled): serving changes no session unless the request carries claims
    whose project is that of the session now under the identifier (for a start,
    the project asked for) or empty, and then changes at most that session, and
    only that one may be stopped by the write breaker; session metadata in an
    answer is only of projects the claims allow. For claims with a project, the
    answer, statuses and their texts included, is the same in any two daemons that
    differ only in the contents of sessions of other projects and of their saved
    output: what it can tell of such a session is that its identifier is taken,
    the name of its project (the refusal quotes it, see findings) and whether it
    counts towards the limits. Claims without a project are not confined. *)
Theorem tenant_isolation `{E : Emulator} `{S : SessionStore} `{U : UUID} (ctx : option BridgeClaims) (w : world)
    (req : request) (session client : string) (after : Z) (observer : bool) (generated : string) (s : BridgeServer) :
  let '(s', r) := serve ctx w req s in
  let '(sa, ra) := attach_open ctx session client after observer generated (wo_now w) s in
  ((supervisor s' = supervisor s /\ goroutines s' = goroutines s \/
    exists claims id, ctx = Some claims /\ target req = Some id /\ permitted claims (supervisor s) req /\
      (forall j, j <> id -> sessions (supervisor s') !! j = sessions (supervisor s) !! j) /\
      history (supervisor s') = history (supervisor s) /\
      (goroutines s' = goroutines s \/ goroutines s' = goroutines s ++ [id])) /\
   (forall resp, r = Reply resp -> exists claims, ctx = Some claims /\ permitted claims (supervisor s) req /\
      Forall (allowed claims) (projects_in resp))) /\
  attach_confined ctx session s sa ra /\
  (forall claims sup, ctx = Some claims -> ProjectID claims <> ""%string -> alike (ProjectID claims) (supervisor s) sup ->
     snd (serve ctx w req (with_supervisor sup s)) = r /\
     snd (attach_open ctx session client after observer generated (wo_now w) (with_supervisor sup s)) = ra).
Proof.
  destruct (serve ctx w req s) as [s' r] eqn:Es; destruct (attach_open ctx session client after observer generated (wo_now w) s) as [sa ra] eqn:Ea.
  split; [|split; [eapply attach_open_confined, Ea|]].
  - destruct (serve_confined ctx w req s s' r Es) as [[K1|(claims & id & H1 & H2 & H3 & [H4 H5] & H6)] K2]; split; auto; right; exists claims, id; auto 10.
  - intros claims sup -> Hp Hal; split.
    + rewrite <- (serve_alike (ProjectID claims) Hp claims w req eq_refl s sup Hal), Es; reflexivity.
    + rewrite <- (attach_open_alike (ProjectID claims) Hp claims session client after observer generated (wo_now w) eq_refl s sup Hal), Ea; reflexivity.
Qed.

(** An authorisation stays valid: the project of a session of the running
    daemon is fixed for the daemon's lifetime, under every interleaving of
    operations, so a handler that was authorised for a session still is when it
    acts, whatever other goroutines did in between. *)
Theorem authorization_stable `{E : Emulator} `{S : SessionStore} (s s' : Supervisor) (id : string) (ms : managedSession)
    (claims : BridgeClaims) :
  reachable s s' -> sessions s !! id = Some ms -> allowed claims (info_ProjectID (ms_info ms)) ->
  exists info, GetSession s' id = Ok info /\ info_ProjectID info = info_ProjectID (ms_info ms) /\
    authorizeProject claims (info_ProjectID info) = None.
Proof.
  intros Hr Hs Ha; destruct (reachable_keeps_project s s' Hr id ms Hs) as (ms' & Hs' & Hp).
  exists (snapshotInfo ms'); unfold GetSession; rewrite Hs'; split_and!; [reflexivity | exact Hp|].
  apply authorizeProject_None; change (allowed claims (proj ms')); rewrite Hp; exact Ha.
Qed.

(** What a started session is called: a start that succeeds had a session
    identifier, project, path and provider that are non-empty valid UTF-8 within
    their length limits and without control characters, and the identifier is a
    UUID; in particular it contains no slash, so the journal keys of different
    sessions never overlap. *)
Theorem started_fields `{E : Emulator} `{S : SessionStore} `{UL : UUIDLaws} (ctx : option BridgeClaims) (req : StartSessionRequest)
    (now : Time) (an : start_answers) (s s' : BridgeServer) (resp : response) :
  StartSession ctx req now an s = (s', Reply resp) ->
  field_ok maxSessionIDLen (sr_SessionId req) /\ plain_id (sr_SessionId req) /\ field_ok maxProjectIDLen (sr_ProjectId req) /\
  field_ok maxRepoPathLen (sr_RepoPath req) /\ field_ok maxProviderLen (sr_Provider req) /\
  checkDirReadWrite (an_stat an) (an_temp an) = None.
Proof.
  intros H; unfold StartSession in H.
  apply bind_reply in H as (u1 & s1 & _ & H); apply bind_reply in H as (claims & s2 & _ & H).
  apply bind_reply in H as (u3 & s3 & K1 & H); apply bind_reply in H as (u4 & s4 & K2 & H).
  apply bind_reply in H as (u5 & s5 & K3 & H); apply bind_reply in H as (u6 & s6 & K4 & H).
  apply bind_reply in H as (u7 & s7 & _ & H); apply bind_reply in H as (u8 & s8 & _ & H).
  apply bind_reply in H as (u9 & s9 & K5 & _); apply check_reply in K1, K2, K3, K4, K5.
  destruct (validateUUIDField_None _ _ K2) as [Hf Hp]; split_and!; auto; try (eapply validateStringField_None; eassumption).
  destruct (checkDirReadWrite _ _); [discriminate K5 | reflexivity].
Qed.

Section Sample.
#[local] Existing Instance echo_emulator.
#[local] Existing Instance log_bolt.

(** A token of project [proj] keeps its access while the session is used. *)
Lemma authorization_stable_witness :
  exists info, GetSession (sample_state sample_ops2) "s1" = Ok info /\ info_ProjectID info = "proj"%string /\
    authorizeProject (MkClaims "u" "proj") (info_ProjectID info) = None.
Proof.
  destruct (sessions (sample_state sample_ops1) !! "s1"%string) as [ms|] eqn:Es; [|vm_compute in Es; discriminate].
  assert (Hp : info_ProjectID (ms_info ms) = "proj"%string) by (vm_compute in Es; injection Es as <-; reflexivity).
  destruct (authorization_stable (sample_state sample_ops1) (sample_state sample_ops2) "s1" ms (MkClaims "u" "proj"))
    as (info & Hi & Hq & Hz).
  - apply (runs_reachable [OpRead "s1" [] (Some ReadEOF) 14; OpCloseLive "s1"] (sample_state sample_ops1)).
    apply runsb_ok; vm_compute; reflexivity.
  - exact Es.
  - right; symmetry; exact Hp.
  - exists info; split_and!; [exact Hi | congruence | exact Hz].
Defined.

(** The refusal of a request about a session of another project names that
    project. *)
Lemma refusal_names_project :
  authorizeProject (MkClaims "dev" "mine") "their project" =
  Some (MkStatus PermissionDenied ("token project_id " +:+ Quoted "mine" +:+ " does not match request " +:+ Quoted "their project")).
Proof. reflexivity. Qed.

(** The project of an identifier is only fixed while the daemon has the session:
    a start may reuse the identifier of a session that is only in the history,
    for another project, and the journal of the old one is then read as part of
    the new one. *)
Definition old_info : SessionInfo :=
  set_State SessionStateStopped (ms_info (new_session sample_boot (sample_cfg "s9") sample_provider 3 1)).

Definition other_cfg : SessionConfig :=
  MkConfig "other" "s9" "/repo" {["provider"%string := "echo"%string]} None [] 80 24.

Definition reused : Supervisor (S := BoltSessionStore) :=
  let s0 := NewSupervisor (S := BoltSessionStore) (<["echo"%string := sample_provider]> ∅) sample_policy 4 0 (Some []) None false false in
  let s1 := put_history {["s9"%string := old_info]} s0 in
  let st := fst (store_SaveChunk (SessionStore := BoltSessionStore) [] "s9" (sample_chunk 1 "old one")) in
  let s2 := put_store (Some (fst (store_SaveChunk (SessionStore := BoltSessionStore) st "s9" (sample_chunk 2 "secret")))) s1 in
  exec_all s2 [OpRegister other_cfg sample_provider 8 10; OpRead "s9" (bytes_of_string "hello") None 11].

Lemma history_id_reused :
  match GetSession reused "s9" with Ok info => info_ProjectID info = "other"%string | _ => False end /\
  match snd (ReadWindow reused "s9" "c" 0) with
  | Ok w => string_of_bytes (w_Data w) = "hellosecret"%string
  | _ => False
  end.
Proof. vm_compute; split; reflexivity. Qed.

(** *** A start through the service *)

(** The dashed form of a UUID. *)
Definition uuid_char (z : Z) : bool := in_range 48 57 z || in_range 97 102 z || in_range 65 70 z || (z =? 45).

#[local] Instance dashed_uuid : UUID := {| uuid_Parse s := (slen s =? 36) && forallb uuid_char (chars s) |}.

#[local] Instance dashed_uuid_laws : UUIDLaws.
Proof.
  split; intros s H; cbn [uuid_Parse dashed_uuid] in H; bool_to_prop; intros K; rewrite forallb_forall in H0.
  apply list_elem_of_In, H0 in K; vm_compute in K; discriminate.
Qed.

Definition sample_server : BridgeServer (S := BoltSessionStore) :=
  NewServer sample_boot {["echo"%string := sample_provider]} (MkRateLimits f_one 2 f_one 2 f_one 2) "i" ∅ "v1".

Definition sample_start : StartSessionRequest :=
  MkStartRequest "proj" "123e4567-e89b-12d3-a456-426614174000" "/repo" "echo" ∅ 80 24.

Definition sample_answers : start_answers := MkStartAnswers (inr true) None (Some (chars "/")) (Spawned 7).

Lemma started_fields_witness :
  plain_id (sr_SessionId sample_start) /\ slen (sr_SessionId sample_start) <= maxSessionIDLen.
Proof.
  destruct (StartSession (Some (MkClaims "u" "proj")) sample_start 10 sample_answers sample_server) as [s' r] eqn:Er.
  assert (Hr : match r with Reply _ => true | _ => false end = true).
  { change r with (snd (s', r)); rewrite <- Er; vm_compute; reflexivity. }
  destruct r as [resp|st|w]; [|discriminate..].
  destruct (started_fields (Some (MkClaims "u" "proj")) sample_start 10 sample_answers sample_server s' resp Er) as ((_ & _ & H & _) & Hp & _).
  split; assumption.
Defined.
End Sample.
