(* ===== verification/Enroll.v ===== *)
(** * One-time enrollment tokens: internal/enrollment/token.go, store.go

    A token, the store that keeps the tokens of a process in a map and in a JSON
    file, and the life of the store across failed writes, crashes and restarts.

    The file is modelled by its JSON value: a list of tokens or [null].  The
    file is replaced by a rename, so a reader sees the old value or the new one.
    [Validate] and [ValidateAndConsume] return a pointer to the stored token of
    which the callers only read the identity, so a copy stands for it. *)

From S2P Require Import Prelude GoStd.

(** ** Tokens (token.go) *)

Definition TokenPrefix : string := "brg_enroll_".
Definition DefaultTokenExpiry : Duration := 15 * Minute.
Definition tokenRandomBytes : nat := 24.

Record Token := MkToken {
  Value : string;
  Identity : string;
  ExpiresAt : Time;
  Used : bool;
  CreatedAt : Time;
  CreatedBy : string;
  ServerURL : string;
  CAFingerprint : string;
}.

#[export] Instance token_eq_dec : EqDecision Token.
Proof. solve_decision. Defined.

Definition put_used (b : bool) (t : Token) : Token :=
  MkToken (Value t) (Identity t) (ExpiresAt t) b (CreatedAt t) (CreatedBy t) (ServerURL t) (CAFingerprint t).

(** [hex.EncodeToString]. *)
Definition hex_char (d : Z) : Ascii.ascii := Ascii.ascii_of_nat (Z.to_nat (hex_digit d)).

Fixpoint EncodeToString (raw : bytes) : string :=
  match raw with
  | [] => ""
  | b :: raw => String (hex_char (byte_val b / 16)) (String (hex_char (byte_val b mod 16)) (EncodeToString raw))
  end.

(** [Generate]; [raw] is what [rand.Read] filled the buffer with, or its error. *)
Definition Generate (identity : string) (expiry : Duration) (serverURL caFingerprint : string)
    (raw : string + bytes) (now : Time) : string + Token :=
  if str_eqb identity "" then inl "enrollment: identity is required"%string
  else
    let expiry := if expiry <=? 0 then DefaultTokenExpiry else expiry in
    match raw with
    | inl err => inl ("enrollment: generate random: " +:+ err)
    | inr raw => inr (MkToken (TokenPrefix +:+ EncodeToString raw) identity (now + expiry) false now "" serverURL caFingerprint)
    end.

Definition IsExpired (t : Token) (now : Time) : bool := ExpiresAt t <? now.

Definition IsValid (t : Token) (now : Time) : bool := negb (Used t) && negb (IsExpired t now).

Definition MarkUsed (t : Token) (now : Time) : string + Token :=
  if Used t then inl "enrollment: token already used"%string
  else if IsExpired t now then inl "enrollment: token expired at"%string
  else inr (put_used true t).

(** [Redacted]; [None] is the nil token. *)
Definition Redacted (t : option Token) : string :=
  match t with
  | None => "[no token]"
  | Some t =>
      if str_eqb (Value t) "" then "[no token]"
      else
        let prefixLen := String.length TokenPrefix in
        if (String.length (Value t) <=? prefixLen)%nat then Value t +:+ "***"
        else
          let showLen := (prefixLen + 8)%nat in
          let showLen := if (String.length (Value t) <? showLen)%nat then String.length (Value t) else showLen in
          String.substring 0 showLen (Value t) +:+ "***"
  end.

(** ** The store (store.go) *)

Abbreviation Tokens := (gmap string Token).

(** The file as [NewStore] finds it. *)
Inductive token_file :=
| NoFile
| Unreadable (err : string)
| Malformed
| Content (ts : list (option Token)).

(** Result of a call: a value, an error, or the process is gone (a panic, or it
    was killed while writing the file). *)
Inductive called (A : Type) :=
| Done (a : A)
| Failed (err : string)
| Gone.
#[global] Arguments Done {A} a.
#[global] Arguments Failed {A} err.
#[global] Arguments Gone {A}.

(** [for _, t := range tokens { s.tokens[t.Value] = t }]; a [null] entry is a
    nil pointer whose field is read. *)
Fixpoint load_tokens (m : Tokens) (ts : list (option Token)) : option Tokens :=
  match ts with
  | [] => Some m
  | None :: _ => None
  | Some t :: ts => load_tokens (<[Value t := t]> m) ts
  end.

Definition NewStore (mkdir : option string) (f : token_file) : called Tokens :=
  match mkdir with
  | Some err => Failed ("enrollment store: mkdir: " +:+ err)
  | None =>
      match f with
      | Unreadable err => Failed ("enrollment store: read: " +:+ err)
      | NoFile => Done ∅
      | Malformed => Failed "enrollment store: parse"
      | Content ts => match load_tokens ∅ ts with Some m => Done m | None => Gone end
      end
  end.

(** How writing the file ends: the rename succeeds, a step before or the rename
    itself fails, or the process is killed before or after the rename. *)
Inductive write_end :=
| Renamed
| WriteFails (stage : string)
| KilledBefore
| KilledAfter.

(** The JSON value written for a map; a Go map is ranged over in any order, this
    is one of them, and [load_any_order] shows the order does not matter. *)
Definition file_of (m : Tokens) : list (option Token) := map Some (map snd (map_to_list m)).

Definition flush (f : token_file) (m : Tokens) (w : write_end) : token_file * called unit :=
  match w with
  | Renamed => (Content (file_of m), Done tt)
  | WriteFails stage => (f, Failed ("enrollment store: " +:+ stage))
  | KilledBefore => (f, Gone)
  | KilledAfter => (Content (file_of m), Gone)
  end.

(** File and map of the running process. *)
Record Store := MkStore { file : token_file; tokens : Tokens }.

Definition Put (s : Store) (token : Token) (w : write_end) : Store * called unit :=
  let m := <[Value token := token]> (tokens s) in
  let '(f, r) := flush (file s) m w in (MkStore f m, r).

Definition Get (s : Store) (value : string) : option Token := tokens s !! value.

Definition Validate (s : Store) (value : string) (now : Time) : string + Token :=
  match tokens s !! value with
  | None => inl "enrollment: unknown token"%string
  | Some tok =>
      if Used tok then inl "enrollment: token already used"%string
      else if IsExpired tok now then inl "enrollment: token expired"%string
      else inr tok
  end.

Definition ValidateAndConsume (s : Store) (value : string) (now : Time) (w : write_end) : Store * called Token :=
  match Validate s value now with
  | inl err => (s, Failed err)
  | inr tok =>
      let m := <[value := put_used true tok]> (tokens s) in
      match flush (file s) m w with
      | (f, Done _) => (MkStore f m, Done (put_used true tok))
      | (f, Failed err) =>
          (MkStore f (<[value := put_used false (put_used true tok)]> m), Failed ("enrollment: persist token: " +:+ err))
      | (f, Gone) => (MkStore f m, Gone)
      end
  end.

Definition store_MarkUsed (s : Store) (value : string) (now : Time) (w : write_end) : Store * called unit :=
  match tokens s !! value with
  | None => (s, Failed "enrollment: unknown token")
  | Some tok =>
      match MarkUsed tok now with
      | inl err => (s, Failed err)
      | inr tok =>
          let m := <[value := tok]> (tokens s) in
          let '(f, r) := flush (file s) m w in (MkStore f m, r)
      end
  end.

Definition List_ (s : Store) : list Token := map snd (map_to_list (tokens s)).

(** ** Loading and writing *)

(** A map whose entries are filed under their own value. *)
Definition keyed (m : Tokens) : Prop := forall k t, m !! k = Some t -> Value t = k.

Lemma keyed_insert m t : keyed m -> keyed (<[Value t := t]> m).
Proof.
  intros H k u; destruct (decide (Value t = k)) as [<-|Hk].
  - rewrite lookup_insert_eq; congruence.
  - rewrite lookup_insert_ne by assumption; apply H.
Qed.

Lemma keyed_update m k t : keyed m -> Value t = k -> keyed (<[k := t]> m).
Proof. intros H <-; apply keyed_insert, H. Qed.

Lemma load_tokens_app m ts us :
  load_tokens m (ts ++ us) = match load_tokens m ts with Some m => load_tokens m us | None => None end.
Proof. revert m; induction ts as [|[t|] ts IH]; intros m; simpl; auto. Qed.

Lemma load_tokens_keyed m ts m' : keyed m -> load_tokens m ts = Some m' -> keyed m'.
Proof.
  revert m; induction ts as [|[t|] ts IH]; intros m H E; simplify_eq/=; auto.
  eapply IH, E; apply keyed_insert, H.
Qed.

(** What is loaded for a value is the last entry of the file with it. *)
Lemma load_tokens_lookup ts m m' k :
  load_tokens m ts = Some m' ->
  (exists t, Some t ∈ ts /\ Value t = k /\ m' !! k = Some t) \/ m' !! k = m !! k.
Proof.
  revert m; induction ts as [|[t|] ts IH]; intros m E; simplify_eq/=; auto.
  destruct (IH _ E) as [(u & Hu & Hk & Hm)|Hm].
  - left; exists u; split; [right; exact Hu | auto].
  - destruct (decide (Value t = k)) as [<-|Hk].
    + left; exists t; rewrite Hm, lookup_insert_eq; split; [left | auto].
    + right; rewrite Hm; apply lookup_insert_ne, Hk.
Qed.

(** The order in which the map is written is irrelevant. *)
Lemma load_any_order (ts : list Token) (m : Tokens) :
  keyed m -> ts ≡ₚ map snd (map_to_list m) -> load_tokens ∅ (map Some ts) = Some m.
Proof.
  intros Hm Hp.
  assert (K : forall l m0, load_tokens m0 (map Some l) = Some (foldl (fun m t => <[Value t := t]> m) m0 l)).
  { induction l as [|t l IH]; intros m0; simpl; auto. }
  rewrite K; f_equal.
  assert (L : forall l (m0 : Tokens), foldl (fun m t => <[Value t := t]> m) m0 l =
    (list_to_map (map (fun t => (Value t, t)) (rev l)) : Tokens) ∪ m0).
  { induction l as [|t l IH]; intros m0; simpl; [symmetry; apply (left_id_L ∅ (∪))|].
    rewrite IH, map_app, list_to_map_app, <- assoc_L by apply _; simpl.
    rewrite insert_empty, insert_union_singleton_l; reflexivity. }
  rewrite L, right_id_L by apply _.
  assert (P : map (fun t => (Value t, t)) (rev ts) ≡ₚ map_to_list m).
  { transitivity (map (fun t => (Value t, t)) (map snd (map_to_list m))).
    - rewrite <- Hp; apply Permutation_map; symmetry; apply Permutation_rev.
    - rewrite map_map; apply reflexive_eq.
      rewrite <- (map_id (map_to_list m)) at 2; apply map_ext_in; intros [k t] Hi; simpl.
      rewrite (Hm k t); [reflexivity|]; apply elem_of_map_to_list, list_elem_of_In, Hi. }
  rewrite (list_to_map_proper _ (map_to_list m)); [apply list_to_map_to_list | | exact P].
  rewrite P; apply NoDup_fst_map_to_list.
Qed.

Lemma load_file_of m : keyed m -> load_tokens ∅ (file_of m) = Some m.
Proof. intros H; apply load_any_order; auto. Qed.

(** ** The life of a store *)

(** The machine: the file, the store of the running process if there is one, and
    the record of successful consumptions. *)
Record node := MkNode { nd_file : token_file; nd_proc : option Tokens; nd_log : list (string * Time) }.

Inductive event :=
| EvStart
| EvKill
| EvPut (token : Token) (w : write_end)
| EvConsume (value : string) (now : Time) (w : write_end)
| EvMarkUsed (value : string) (now : Time) (w : write_end).

Definition keep {A} (r : called A) (s : Store) (log : list (string * Time)) : node :=
  MkNode (file s) (match r with Gone => None | _ => Some (tokens s) end) log.

Definition node_step (n : node) (ev : event) : node :=
  match ev, nd_proc n with
  | EvStart, None =>
      MkNode (nd_file n) (match NewStore None (nd_file n) with Done m => Some m | _ => None end) (nd_log n)
  | EvKill, _ => MkNode (nd_file n) None (nd_log n)
  | EvPut token w, Some m => let '(s, r) := Put (MkStore (nd_file n) m) token w in keep r s (nd_log n)
  | EvConsume value now w, Some m =>
      let '(s, r) := ValidateAndConsume (MkStore (nd_file n) m) value now w in
      keep r s (nd_log n ++ match r with Done _ => [(value, now)] | _ => [] end)
  | EvMarkUsed value now w, Some m =>
      let '(s, r) := store_MarkUsed (MkStore (nd_file n) m) value now w in keep r s (nd_log n)
  | _, _ => n
  end.

Definition node_run (f : token_file) (evs : list event) : node := foldl node_step (MkNode f None []) evs.

(** Tokens the file holds at the beginning, and the tokens put. *)
Definition entries (f : token_file) : list Token := match f with Content ts => omap id ts | _ => [] end.
Definition puts (evs : list event) : list Token := omap (fun ev => match ev with EvPut t _ => Some t | _ => None end) evs.

(** A stored token is one of the originals, perhaps marked as used. *)
Definition derived (src : list Token) (t : Token) : Prop :=
  exists t0, t0 ∈ src /\ (t = t0 \/ t = put_used true t0).

Definition spent (m : Tokens) (v : string) : Prop := exists t, m !! v = Some t /\ Used t = true.

Definition granted (src : list Token) (g : string * Time) : Prop :=
  exists t, t ∈ src /\ Value t = g.1 /\ Used t = false /\ g.2 <= ExpiresAt t.

Definition tokens_ok (src : list Token) (log : list (string * Time)) (m : Tokens) : Prop :=
  keyed m /\ (forall k t, m !! k = Some t -> derived src t) /\ (forall v, v ∈ log.*1 -> spent m v).

Definition file_ok (src : list Token) (log : list (string * Time)) (f : token_file) : Prop :=
  (forall m, NewStore None f = Done m -> tokens_ok src log m) /\
  (log <> [] -> exists m, NewStore None f = Done m).

Record node_inv (src : list Token) (n : node) : Prop := {
  ni_proc : forall m, nd_proc n = Some m -> tokens_ok src (nd_log n) m;
  ni_file : file_ok src (nd_log n) (nd_file n);
  ni_once : NoDup (nd_log n).*1;
  ni_granted : Forall (granted src) (nd_log n);
}.

Lemma derived_mono src src' t : src ⊆ src' -> derived src t -> derived src' t.
Proof. intros H (t0 & H0 & Ht); exists t0; auto. Qed.

Lemma derived_used src t : derived src t -> derived src (put_used true t).
Proof. intros (t0 & H0 & [->| ->]); exists t0; auto. Qed.

Lemma tokens_ok_mono src src' log m : src ⊆ src' -> tokens_ok src log m -> tokens_ok src' log m.
Proof. intros H (K & D & L); split; [exact K | split; [|exact L]]; eauto using derived_mono. Qed.

Lemma file_ok_flush src log f m w :
  tokens_ok src log m -> file_ok src log f -> file_ok src log (flush f m w).1.
Proof.
  intros Hm Hf; destruct w; simpl; auto; split; simpl; rewrite load_file_of by apply Hm; intros; simplify_eq; eauto.
Qed.

Lemma node_inv_mono src src' n : src ⊆ src' -> node_inv src n -> node_inv src' n.
Proof.
  intros H [I1 [I2 I2'] I3 I4]; split; auto.
  - intros m Hm; eapply tokens_ok_mono; eauto.
  - split; [intros m Hm; eapply tokens_ok_mono; eauto | exact I2'].
  - eapply Forall_impl; [|exact I4]; intros g (t & Ht & K); exists t; auto.
Qed.

(** A process step that keeps the log: the memory is [m], the file is as before
    or the memory was written to it. *)
Lemma node_inv_keep {A} src n m w (r : called A) :
  node_inv src n -> tokens_ok src (nd_log n) m ->
  node_inv src (keep r (MkStore (flush (nd_file n) m w).1 m) (nd_log n)).
Proof.
  intros [I1 I2 I3 I4] Hm; split; simpl; auto.
  - intros m' E; destruct r; simplify_eq; exact Hm.
  - apply file_ok_flush; assumption.
Qed.

Lemma tokens_ok_mark src log m v t :
  tokens_ok src log m -> m !! v = Some t -> tokens_ok src log (<[v := put_used true t]> m).
Proof.
  intros (K & D & L) Hv; split; [|split].
  - apply keyed_update; [exact K|]; apply (K _ _ Hv).
  - intros k u; destruct (decide (v = k)) as [<-|Hk].
    + rewrite lookup_insert_eq; intros [= <-]; eauto using derived_used.
    + rewrite lookup_insert_ne by assumption; apply D.
  - intros k Hk; destruct (decide (v = k)) as [<-|Hn]; [exists (put_used true t); rewrite lookup_insert_eq; auto|].
    destruct (L k Hk) as (u & Hu & Hs); exists u; rewrite lookup_insert_ne; auto.
Qed.

Lemma tokens_ok_put src log m t :
  tokens_ok src log m -> t ∈ src -> Value t ∉ log.*1 -> tokens_ok src log (<[Value t := t]> m).
Proof.
  intros (K & D & L) Ht Hf; split; [apply keyed_insert, K | split].
  - intros k u; destruct (decide (Value t = k)) as [<-|Hk].
    + rewrite lookup_insert_eq; intros [= <-]; exists t; auto.
    + rewrite lookup_insert_ne by assumption; apply D.
  - intros k Hk; destruct (L k Hk) as (u & Hu & Hs); exists u; rewrite lookup_insert_ne; auto; congruence.
Qed.

Lemma Validate_ok s v now tok :
  Validate s v now = inr tok <-> tokens s !! v = Some tok /\ Used tok = false /\ now <= ExpiresAt tok.
Proof.
  unfold Validate, IsExpired; destruct (tokens s !! v) as [t|];
    [|split; [discriminate | intros (? & _); discriminate]].
  destruct (Used t) eqn:Eu; [split; [discriminate | intros (? & ? & _); congruence]|].
  destruct (ExpiresAt t <? now) eqn:Ee; bool_to_prop;
    split; intros; destruct_and?; simplify_eq; try lia; auto.
Qed.

Lemma unused_original t : Used t = false -> put_used false (put_used true t) = t.
Proof. destruct t; simpl; intros ->; reflexivity. Qed.

(** The four ways a consumption ends. *)
Lemma consume_cases s v now w :
  (exists err, Validate s v now = inl err /\ ValidateAndConsume s v now w = (s, Failed err)) \/
  (exists tok m, Validate s v now = inr tok /\ m = <[v := put_used true tok]> (tokens s) /\
     ((w = Renamed /\ ValidateAndConsume s v now w = (MkStore (Content (file_of m)) m, Done (put_used true tok))) \/
      (exists st, w = WriteFails st /\ exists err, ValidateAndConsume s v now w = (s, Failed err)) \/
      ((w = KilledBefore \/ w = KilledAfter) /\ ValidateAndConsume s v now w = (MkStore (flush (file s) m w).1 m, Gone)))).
Proof.
  unfold ValidateAndConsume; destruct (Validate s v now) as [err|tok] eqn:E; [left; eauto|right].
  eexists tok, _; split; [reflexivity | split; [reflexivity|]].
  apply Validate_ok in E as (Hv & Hu & _).
  destruct w; simpl; auto; right; left; eexists; split; eauto; eexists.
  rewrite unused_original, insert_insert_eq, insert_id by assumption; destruct s; reflexivity.
Qed.

Lemma consume_inv src n m v now w :
  node_inv src n -> nd_proc n = Some m -> node_inv src (node_step n (EvConsume v now w)).
Proof.
  intros I Hp; simpl; rewrite Hp; pose proof (ni_proc _ _ I m Hp) as Hm.
  destruct (consume_cases (MkStore (nd_file n) m) v now w) as [(err & _ & ->)|(tok & m' & Hv & -> & H)]; simpl.
  - rewrite app_nil_r; apply (node_inv_keep src n m KilledBefore (Failed err) I Hm).
  - apply Validate_ok in Hv as (Hv & Hu & Hx); simpl in *.
    pose proof (tokens_ok_mark _ _ _ _ _ Hm Hv) as Hm'.
    destruct H as [[-> ->]|[(st & -> & err & ->)|[Hk ->]]]; rewrite ?app_nil_r.
    + assert (Hf : v ∉ (nd_log n).*1).
      { intros Hi; destruct Hm as (_ & _ & L); destruct (L v Hi) as (u & ? & ?); simplify_eq; congruence. }
      assert (Hg : tokens_ok src (nd_log n ++ [(v, now)]) (<[v := put_used true tok]> m)).
      { destruct Hm' as (K & D & L); split; [exact K | split; [exact D|]].
        intros k; rewrite fmap_app; intros [Hk|Hk]%elem_of_app; [auto|].
        apply list_elem_of_singleton in Hk as ->; eexists; rewrite lookup_insert_eq; split; reflexivity. }
      destruct I as [I1 I2 I3 I4]; split; simpl.
      * intros ? [= <-]; exact Hg.
      * split; simpl; rewrite load_file_of by apply Hg; [intros ? [= <-]; exact Hg | eauto].
      * rewrite fmap_app; apply list.NoDup_app; split; [exact I3|]; split; [|apply NoDup_singleton].
        intros x Hx' ->%list_elem_of_singleton; contradiction.
      * apply Forall_app; split; [exact I4|]; constructor; [|constructor].
        destruct Hm as (K & D & _); destruct (D _ _ Hv) as (t0 & H0 & [->| ->]); [|simpl in Hu; congruence].
        exists t0; simpl; eauto using K.
    + apply (node_inv_keep src n m KilledBefore (Failed err) I Hm).
    + apply (node_inv_keep src n _ w Gone I Hm').
Qed.

Lemma mark_inv src n m v now w :
  node_inv src n -> nd_proc n = Some m -> node_inv src (node_step n (EvMarkUsed v now w)).
Proof.
  intros I Hp; simpl; rewrite Hp; pose proof (ni_proc _ _ I m Hp) as Hm.
  unfold store_MarkUsed, MarkUsed; cbn [tokens file].
  destruct (m !! v) as [t|] eqn:Ev; [destruct (Used t); [|destruct (IsExpired t now)]|];
    try apply (node_inv_keep src n m KilledBefore (Failed _) I Hm).
  destruct (flush (nd_file n) (<[v := put_used true t]> m) w) as [f r] eqn:Ef.
  change f with (fst (f, r)); rewrite <- Ef; apply node_inv_keep; auto using tokens_ok_mark.
Qed.

Lemma node_step_inv src n ev :
  (forall t w, ev = EvPut t w -> t ∈ src /\ Value t ∉ (nd_log n).*1) -> node_inv src n -> node_inv src (node_step n ev).
Proof.
  intros Hput I; destruct (nd_proc n) as [m|] eqn:Hp; destruct ev as [| |t w|v now w|v now w];
    try (eapply consume_inv; eassumption); try (eapply mark_inv; eassumption); simpl; rewrite ?Hp; try exact I.
  - destruct I; split; simpl; auto; discriminate.
  - destruct (Hput t w eq_refl) as [Ht Hf].
    destruct (flush (nd_file n) (<[Value t := t]> m) w) as [f r] eqn:Ef.
    unfold Put; cbn [tokens file]; rewrite Ef.
    change f with (fst (f, r)); rewrite <- Ef; apply node_inv_keep; [exact I|].
    apply tokens_ok_put; auto; apply (ni_proc _ _ I m Hp).
  - destruct I as [I1 [I2 I2'] I3 I4]; split; simpl in *; auto; [|split; auto].
    intros m Hm; apply I2; destruct (nd_file n) as [| | |ts]; simpl in *; try discriminate; [congruence|].
    destruct (load_tokens ∅ ts); congruence.
  - destruct I; split; simpl; auto; discriminate.
Qed.

(** Every put brings a value that is neither in the file at the beginning nor was
    put before; [Generate] draws it at random. *)
Fixpoint fresh_puts (known : list string) (evs : list event) : bool :=
  match evs with
  | [] => true
  | EvPut t _ :: evs => bool_decide (Value t ∉ known) && fresh_puts (Value t :: known) evs
  | _ :: evs => fresh_puts known evs
  end.

Lemma node_run_inv evs src n :
  fresh_puts (map Value src) evs = true -> node_inv src n ->
  exists src', src' ≡ₚ src ++ puts evs /\ node_inv src' (foldl node_step n evs).
Proof.
  revert src n; induction evs as [|ev evs IH]; intros src n Hf I.
  - exists src; rewrite app_nil_r; auto.
  - assert (Hno : forall t w, ev = EvPut t w -> Value t ∉ (nd_log n).*1).
    { intros t w -> Hi; simpl in Hf; bool_to_prop; apply H; clear H.
      apply list_elem_of_fmap in Hi as ([v d] & -> & Hg).
      pose proof (ni_granted _ _ I) as G; rewrite Forall_forall in G; apply list_elem_of_In, G in Hg.
      destruct Hg as (u & Hu & Hv & _); simpl in *; rewrite <- Hv; apply list_elem_of_fmap; eauto. }
    destruct (match ev with EvPut t _ => Some t | _ => None end) as [t|] eqn:Et.
    + destruct ev; simplify_eq; simpl in Hf; bool_to_prop.
      destruct (IH (t :: src) (node_step n (EvPut t w))) as (src' & Hp & I'); [assumption| |].
      * apply node_step_inv; [intros ? ? [= <- <-]; split; [left | eapply Hno; reflexivity]|].
        eapply node_inv_mono; [|exact I]; set_solver.
      * exists src'; split; [|exact I']; rewrite Hp; simpl; apply Permutation_middle.
    + destruct (IH src (node_step n ev)) as (src' & Hp & I'); [destruct ev; simpl in *; congruence| |].
      * apply node_step_inv; [|exact I]; intros t w ->; discriminate.
      * exists src'; split; [|exact I']; rewrite Hp; destruct ev; simplify_eq; reflexivity.
Qed.

Lemma entries_elem f t : t ∈ entries f <-> exists ts, f = Content ts /\ Some t ∈ ts.
Proof.
  destruct f as [| | |ts]; simpl; try (rewrite elem_of_nil; naive_solver).
  rewrite list_elem_of_omap; naive_solver.
Qed.

Lemma initial_inv f : node_inv (entries f) (MkNode f None []).
Proof.
  split; simpl; [discriminate | | apply NoDup_nil_2 | constructor].
  split; [|congruence]; intros m Hm; split; [|split; [|intros v Hv; apply elem_of_nil in Hv; contradiction]].
  - destruct f as [| | |ts]; simpl in Hm; try discriminate; [simplify_eq; intros k t Hk; rewrite lookup_empty in Hk; discriminate|].
    destruct (load_tokens ∅ ts) eqn:E; simplify_eq; eapply load_tokens_keyed, E.
    intros k t Hk; rewrite lookup_empty in Hk; discriminate.
  - intros k t Hk; destruct f as [| | |ts]; simpl in Hm; try discriminate;
      [simplify_eq; rewrite lookup_empty in Hk; discriminate|].
    destruct (load_tokens ∅ ts) as [m'|] eqn:E; simplify_eq.
    destruct (load_tokens_lookup _ _ _ k E) as [(u & Hu & _ & Hm)|Hm]; rewrite Hk in Hm;
      [simplify_eq|rewrite lookup_empty in Hm; discriminate].
    exists u; split; [apply entries_elem; eauto | auto].
Qed.

(** C12. A token is redeemed at most once, and never after its expiry, whatever the
    daemon goes through: any sequence of starts, kills, puts, consumptions and
    marks, with every write of the file succeeding, failing, or cut short before
    or after the rename.  Each redeemed value belongs to a token that was in the
    file or was put, that was unused then, and the redemption was no later than
    its expiry. *)
Theorem token_redeemed_once (f : token_file) (evs : list event) :
  fresh_puts (map Value (entries f)) evs = true ->
  let log := nd_log (node_run f evs) in
  NoDup log.*1 /\
  Forall (fun g => exists t, t ∈ entries f ++ puts evs /\ Value t = g.1 /\ Used t = false /\ g.2 <= ExpiresAt t) log.
Proof.
  intros Hf log; destruct (node_run_inv evs _ _ Hf (initial_inv f)) as (src & Hp & I).
  split; [apply (ni_once _ _ I)|].
  eapply Forall_impl; [|apply (ni_granted _ _ I)]; intros g (t & Ht & K); exists t; split; [|exact K].
  rewrite <- Hp; exact Ht.
Qed.

(** What a redemption does, on every branch: it succeeds exactly when the token
    is known, unused, not past its expiry and the file could be replaced; then
    file and memory both have it used.  When it fails, memory and file are as
    they were, so a failed write leaves the token usable. *)
Theorem consume_exact (s : Store) (v : string) (now : Time) (w : write_end) :
  keyed (tokens s) ->
  match ValidateAndConsume s v now w with
  | (s', Done tok) =>
      exists t, tokens s !! v = Some t /\ Used t = false /\ now <= ExpiresAt t /\ tok = put_used true t /\
        NewStore None (file s') = Done (tokens s') /\ tokens s' = <[v := tok]> (tokens s)
  | (s', Failed _) =>
      s' = s /\ ((exists st, w = WriteFails st) \/
        forall t, tokens s !! v = Some t -> Used t = true \/ ExpiresAt t < now)
  | (s', Gone) => w = KilledBefore \/ w = KilledAfter
  end.
Proof.
  intros K; destruct (consume_cases s v now w) as [(err & Hv & ->)|(tok & m & Hv & -> & H)].
  - split; [reflexivity|right]; intros t Ht.
    unfold Validate, IsExpired in Hv; rewrite Ht in Hv; destruct (Used t); [auto|].
    destruct (ExpiresAt t <? now) eqn:E; [bool_to_prop; auto | discriminate].
  - apply Validate_ok in Hv as (Hv & Hu & Hx); destruct H as [[-> ->]|[(st & -> & err & ->)|[Hk ->]]]; eauto.
    exists tok; split_and!; auto; simpl; rewrite load_file_of; [reflexivity|].
    apply keyed_update; [exact K|]; apply (K _ _ Hv).
Qed.

(** What a log may show of a generated token: the prefix and four of its random bytes. *)
Lemma redacted_generated identity expiry url ca raw now t :
  Generate identity expiry url ca (inr raw) now = inr t -> (4 <= length raw)%nat ->
  Redacted (Some t) = TokenPrefix +:+ EncodeToString (take 4 raw) +:+ "***".
Proof.
  unfold Generate; case_match; intros E Hl; simplify_eq.
  destruct raw as [|a [|b [|c [|d raw]]]]; simpl in Hl; try lia.
  unfold Redacted; rewrite (proj2 (str_eqb_neq _ _)) by discriminate; simpl.
  destruct (EncodeToString raw); reflexivity.
Qed.

(** A token is valid from its creation to its expiry, fifteen minutes unless
    another lifetime is given. *)
Lemma generated_valid identity expiry url ca raw now t later :
  Generate identity expiry url ca raw now = inr t ->
  IsValid t later = (later <=? now + (if expiry <=? 0 then DefaultTokenExpiry else expiry)).
Proof.
  unfold Generate; repeat case_match; intros; simplify_eq/=; unfold IsValid, IsExpired; simpl;
    rewrite Z.ltb_antisym, negb_involutive; reflexivity.
Qed.

(** ** Concrete runs *)

Definition sample_token : Token := MkToken "brg_enroll_00" "ci" (10 * Minute) false 0 "" "" "".
Definition second_token : Token := MkToken "brg_enroll_01" "ci" (10 * Minute) false 0 "" "" "".

Lemma token_redeemed_once_witness :
  let evs := [EvStart; EvConsume "brg_enroll_00" Minute (WriteFails "rename"); EvConsume "brg_enroll_00" Minute Renamed;
              EvKill; EvStart; EvConsume "brg_enroll_00" (2 * Minute) Renamed; EvPut second_token KilledBefore] in
  NoDup (nd_log (node_run (Content [Some sample_token]) evs)).*1 /\
  nd_log (node_run (Content [Some sample_token]) evs) = [("brg_enroll_00"%string, Minute)].
Proof.
  intros evs; split; [|reflexivity].
  refine (proj1 (token_redeemed_once (Content [Some sample_token]) evs _)); reflexivity.
Defined.

Lemma consume_exact_witness :
  exists s, ValidateAndConsume (MkStore NoFile {["brg_enroll_00"%string := sample_token]}) "brg_enroll_00" Minute Renamed
    = (s, Done (put_used true sample_token)) /\ NewStore None (file s) = Done (tokens s).
Proof.
  eexists; split; [reflexivity|].
  pose proof (consume_exact (MkStore NoFile {["brg_enroll_00"%string := sample_token]}) "brg_enroll_00" Minute Renamed) as H.
  destruct H as (t & _ & _ & _ & _ & H & _); [|exact H].
  intros k t; cbn [tokens]; intros Hk; apply lookup_singleton_Some in Hk as [<- <-]; reflexivity.
Defined.

(** Two processes: the command that creates a token opens the store on its own and
    writes the whole map it loaded.  A redemption of the daemon between its load
    and its write is undone in the file, and after a restart of the daemon the
    token is redeemed a second time. *)
Lemma second_process_undoes_redemption :
  let f0 := Content [Some sample_token] in
  let '(cli, daemon) := (NewStore None f0, NewStore None f0) in
  exists mc md d1 c1 md2 d2,
    cli = Done mc /\ daemon = Done md /\
    ValidateAndConsume (MkStore f0 md) "brg_enroll_00" Minute Renamed = (d1, Done (put_used true sample_token)) /\
    Put (MkStore (file d1) mc) second_token Renamed = (c1, Done tt) /\
    NewStore None (file c1) = Done md2 /\
    ValidateAndConsume (MkStore (file c1) md2) "brg_enroll_00" (2 * Minute) Renamed = (d2, Done (put_used true sample_token)).
Proof. repeat eexists; vm_compute; reflexivity. Qed.
