(* ===== verification/Auth.v ===== *)
(** * Authentication: internal/auth/jwt.go, interceptors.go, peer.go

    Minting and verification of tokens over golang-jwt, and the interceptors that
    stand between a connection and the handlers of Server.

    The token library is the class [JWT], what its documentation promises is
    [JWTLaws]; texts are lists of character codes. *)

From S2P Require Import Prelude Types ByteBuf GoStd Policy Registry Screen Store Session Supervisor RateLimit Server Tenancy.

(** ** Claims and the token library *)

(** [BridgeClaims] with the registered claims the code reads. *)
Record TokenClaims := MkTokenClaims {
  tc_ProjectID : string;
  tc_Issuer : string;
  tc_Subject : string;
  tc_Audience : list string;
  tc_IssuedAt : option Time;
  tc_ExpiresAt : option Time;
}.

(** What the handlers read of the claims. *)
Definition handler_claims (c : TokenClaims) : BridgeClaims := MkClaims (tc_Subject c) (tc_ProjectID c).

(** [ParseWithClaims methods audience now keyfunc token] is a parser built with
    the options WithValidMethods and WithAudience; [SignedString method key claims]
    signs; [Signed method key token claims] says that the token carries these
    claims under a valid signature of this method for this public key. *)
Class JWT := {
  PublicKey : Type;
  PrivateKey : Type;
  pub : PrivateKey -> PublicKey;
  NewNumericDate : Time -> Time;
  ParseWithClaims : list string -> string -> Time -> (TokenClaims -> string + PublicKey) -> list Z -> string + TokenClaims;
  SignedString : string -> PrivateKey -> TokenClaims -> string + list Z;
  Signed : string -> PublicKey -> list Z -> TokenClaims -> Prop;
}.

(** A parsed token is signed with an accepted method under the key the callback
    chose for its claims, names the audience, and is not past its expiry if it
    has one; a signed token with such claims is parsed.  A numeric date is the
    time truncated to seconds. *)
Class JWTLaws `{J : JWT} : Prop := {
  date_truncates t : NewNumericDate t = t - t mod Second;
  parse_sound ms aud now kf tok c : ParseWithClaims ms aud now kf tok = inr c ->
    exists m key, m ∈ ms /\ kf c = inr key /\ Signed m key tok c /\ aud ∈ tc_Audience c /\
      (forall e, tc_ExpiresAt c = Some e -> now < e);
  parse_complete ms aud now kf tok c m k : SignedString m k c = inr tok -> m ∈ ms -> kf c = inr (pub k) ->
    aud ∈ tc_Audience c -> (forall e, tc_ExpiresAt c = Some e -> now < e) ->
    (forall i, tc_IssuedAt c = Some i -> i <= now) -> ParseWithClaims ms aud now kf tok = inr c;
}.

Section Tokens.
Context `{J : JWT}.

(** ** Minting and verification (jwt.go) *)

Record JWTIssuer := MkIssuer {
  ji_Issuer : string;
  ji_Audience : string;
  ji_Key : PrivateKey;
  ji_TTL : Duration;
}.

Definition mint_claims (j : JWTIssuer) (sub projectID : string) (now : Time) : TokenClaims :=
  MkTokenClaims projectID (ji_Issuer j) sub [ji_Audience j] (Some (NewNumericDate now)) (Some (NewNumericDate (now + ji_TTL j))).

Definition Mint (j : JWTIssuer) (sub projectID : string) (now : Time) : string + list Z :=
  SignedString "EdDSA" (ji_Key j) (mint_claims j sub projectID now).

Record JWTVerifier := MkVerifier {
  Audience : string;
  MaxTTL : Duration;
  Keys : gmap string PublicKey;
}.

(** The callback that finds the key of the issuer a token names. *)
Definition issuer_key (v : JWTVerifier) (c : TokenClaims) : string + PublicKey :=
  if str_eqb (tc_Issuer c) "" then inl "missing issuer"%string
  else match Keys v !! tc_Issuer c with
       | None => inl "unknown issuer"%string
       | Some key => inr key
       end.

Definition Verify (v : JWTVerifier) (tokenString : list Z) (now : Time) : string + TokenClaims :=
  match ParseWithClaims ["EdDSA"%string] (Audience v) now (issuer_key v) tokenString with
  | inl err => inl ("verify jwt: " +:+ err)
  | inr claims =>
      if 0 <? MaxTTL v then
        match tc_IssuedAt claims, tc_ExpiresAt claims with
        | None, _ => inl "missing iat claim"%string
        | _, None => inl "missing exp claim"%string
        | Some iat, Some exp => if MaxTTL v <? exp - iat then inl "token TTL exceeds max"%string else inr claims
        end
      else inr claims
  end.

Definition AddKey (v : JWTVerifier) (issuer : string) (pubKey : PublicKey) : JWTVerifier :=
  MkVerifier (Audience v) (MaxTTL v) (<[issuer := pubKey]> (Keys v)).

Definition HasKey (v : JWTVerifier) (issuer : string) : bool := bool_decide (is_Some (Keys v !! issuer)).

(** ** Interceptors (interceptors.go, peer.go) *)

(** The authentication information of a connection's peer: the common names of
    its certificates when it is a TLS connection. *)
Inductive AuthInfo := TLSInfo (names : list string) | OtherAuth.

(** What the code reads of a context: the authorization values of the incoming
    metadata, the peer, the claims an interceptor stored. *)
Record Context := MkContext {
  ctx_metadata : option (list string);
  ctx_peer : option AuthInfo;
  ctx_claims : option BridgeClaims;
}.

Definition ContextWithClaims (ctx : Context) (claims : BridgeClaims) : Context :=
  MkContext (ctx_metadata ctx) (ctx_peer ctx) (Some claims).

Definition ClaimsFromContext (ctx : Context) : option BridgeClaims := ctx_claims ctx.

Definition CallerCommonName (ctx : Context) : string :=
  match ctx_peer ctx with
  | Some (TLSInfo (cn :: _)) => cn
  | _ => ""
  end.

(** ASCII lower case; [strings.EqualFold] against "bearer", whose letters fold
    with nothing outside ASCII. *)
Definition lower (c : Z) : Z := if in_range 65 90 c then c + 32 else c.
Definition EqualFold_ascii (s t : list Z) : bool := bool_decide (map lower s = map lower t).

(** [strings.SplitN(s, " ", 2)]: the text before and after the first space. *)
Fixpoint cut_space (s : list Z) : option (list Z * list Z) :=
  match s with
  | [] => None
  | 32 :: s => Some ([], s)
  | c :: s => match cut_space s with Some (a, b) => Some (c :: a, b) | None => None end
  end.

Definition parseBearerToken (authz : list Z) : string + list Z :=
  match cut_space authz with
  | None => inl "expected Bearer <token>"%string
  | Some (scheme, rest) =>
      if EqualFold_ascii scheme (chars "bearer") then inr (TrimSpace rest) else inl "expected Bearer <token>"%string
  end.

Definition extractAndVerify (ctx : Context) (v : JWTVerifier) (now : Time) : status + TokenClaims :=
  match ctx_metadata ctx with
  | None => inl (MkStatus Unauthenticated "missing metadata")
  | Some [] => inl (MkStatus Unauthenticated "missing authorization header")
  | Some (val :: _) =>
      match parseBearerToken (chars val) with
      | inl err => inl (MkStatus Unauthenticated err)
      | inr token =>
          match Verify v token now with
          | inl err => inl (MkStatus Unauthenticated "invalid token")
          | inr claims => inr claims
          end
      end
  end.

Definition exempt (method : string) : bool :=
  str_eqb method "/bridge.v1.BridgeService/Health" ||
  str_eqb method "/bridge.v1.BridgeService/RegisterJWTKey" ||
  str_eqb method "/bridge.v1.BridgeService/EnrollClient".

Section Interceptors.
Context `{E : Emulator} `{S : SessionStore} `{U : UUID}.

Definition UnaryJWTInterceptor {A} (v : JWTVerifier) (ctx : Context) (now : Time) (method : string)
    (h : Context -> handler A) : handler A :=
  if exempt method then h ctx
  else match extractAndVerify ctx v now with
       | inl st => fail st
       | inr claims => h (ContextWithClaims ctx (handler_claims claims))
       end.

Definition StreamJWTInterceptor {A} (v : JWTVerifier) (ctx : Context) (now : Time) (h : Context -> handler A) : handler A :=
  match extractAndVerify ctx v now with
  | inl st => fail st
  | inr claims => h (ContextWithClaims ctx (handler_claims claims))
  end.

Definition UnaryPassthroughInterceptor {A} (ctx : Context) (h : Context -> handler A) : handler A :=
  h (ContextWithClaims ctx (MkClaims "" "")).

Definition StreamPassthroughInterceptor {A} (ctx : Context) (h : Context -> handler A) : handler A :=
  h (ContextWithClaims ctx (MkClaims "" "")).

(** The full method name under which a request is dispatched. *)
Definition method_of (req : request) : string :=
  "/bridge.v1.BridgeService/" +:+
  match req with
  | ReqStart _ => "StartSession" | ReqStop _ _ => "StopSession" | ReqGet _ => "GetSession" | ReqList _ => "ListSessions"
  | ReqWrite _ _ _ => "WriteInput" | ReqResize _ _ _ _ => "ResizeSession"
  | ReqClaim _ _ _ => "ClaimWriter" | ReqRelease _ _ => "ReleaseWriter"
  end.

(** A unary call of a daemon that runs with token authentication. *)
Definition serve_authenticated (v : JWTVerifier) (ctx : Context) (w : world) (req : request) : handler response :=
  UnaryJWTInterceptor v ctx (wo_now w) (method_of req) (fun ctx => serve (ClaimsFromContext ctx) w req).
End Interceptors.

(** ** What verification means *)

(** A token that a registered issuer signed for this audience, still valid, and
    with a bounded lifetime when a bound is configured. *)
Record vouched (v : JWTVerifier) (now : Time) (tok : list Z) (c : TokenClaims) : Prop := {
  vo_signed : exists key, Keys v !! tc_Issuer c = Some key /\ Signed "EdDSA" key tok c;
  vo_issuer : tc_Issuer c <> ""%string;
  vo_audience : Audience v ∈ tc_Audience c;
  vo_fresh : forall e, tc_ExpiresAt c = Some e -> now < e;
  vo_ttl : 0 < MaxTTL v -> exists i e, tc_IssuedAt c = Some i /\ tc_ExpiresAt c = Some e /\ e - i <= MaxTTL v;
}.

Lemma issuer_key_ok v c key : issuer_key v c = inr key <-> tc_Issuer c <> ""%string /\ Keys v !! tc_Issuer c = Some key.
Proof.
  unfold issuer_key; destruct (str_eqb (tc_Issuer c) "") eqn:E; bool_to_prop; [naive_solver|].
  destruct (Keys v !! tc_Issuer c); naive_solver.
Qed.

Context `{JL : !JWTLaws}.

Lemma Verify_vouched v tok now c : Verify v tok now = inr c -> vouched v now tok c.
Proof.
  unfold Verify; destruct (ParseWithClaims _ _ _ _ _) as [err|c'] eqn:Ep; [discriminate|].
  apply parse_sound in Ep as (m & key & Hm & Hk & Hs & Ha & Hx).
  apply list_elem_of_singleton in Hm as ->; apply issuer_key_ok in Hk as [Hi Hk].
  destruct (0 <? MaxTTL v) eqn:Et; bool_to_prop; intros H.
  - destruct (tc_IssuedAt c') as [i|] eqn:Ei, (tc_ExpiresAt c') as [e|] eqn:Ee; try discriminate.
    destruct (MaxTTL v <? e - i) eqn:Er; [discriminate|]; bool_to_prop; injection H as <-.
    split; eauto; intros e0 He0; apply Hx; congruence.
  - injection H as <-; split; eauto; lia.
Qed.

Lemma extract_vouched ctx v now c :
  extractAndVerify ctx v now = inr c ->
  exists val rest tok, ctx_metadata ctx = Some (val :: rest) /\ parseBearerToken (chars val) = inr tok /\ vouched v now tok c.
Proof.
  unfold extractAndVerify; destruct (ctx_metadata ctx) as [[|val rest]|]; try discriminate.
  destruct (parseBearerToken (chars val)) as [|tok] eqn:Ep; [discriminate|].
  destruct (Verify v tok now) eqn:Ev; [discriminate|]; intros [= ->].
  exists val, rest, tok; auto using Verify_vouched.
Qed.
End Tokens.

Lemma method_not_exempt (req : request) : exempt (method_of req) = false.
Proof. destruct req; reflexivity. Qed.

(** ** Theorems *)

(** C11. Behind the interceptor, one of the eight unary session requests is either
    refused with an answer that does not depend on the sessions of the daemon and
    changes none, or it carries a bearer token that the key registered for its
    issuer verifies with EdDSA, for this audience, not past its expiry and with a
    lifetime within the maximum. Then every session but the one it names stays as
    it is; that one changes, and an answer is given, only if the token's project
    is that of the session, or the token has no project (such a token may use
    every project); only sessions of allowed projects are reported; and for a
    token with a project the answer, texts of refusals included, is the same in
    any two daemons that differ only in the contents of sessions of other
    projects: it tells of them no more than that the identifier is taken, the
    project's name and whether they count towards the limits. *)
Theorem authenticated_isolation `{JL : JWTLaws} `{E : Emulator} `{S : SessionStore} `{U : UUID}
    (v : JWTVerifier) (ctx : Context) (w : world) (req : request) (s s' : BridgeServer) (r : reply response) :
  serve_authenticated v ctx w req s = (s', r) ->
  (supervisor s' = supervisor s /\ goroutines s' = goroutines s /\ (forall resp, r <> Reply resp) /\
   (forall sup, snd (serve_authenticated v ctx w req (with_supervisor sup s)) = r)) \/
  exists val rest tok c, ctx_metadata ctx = Some (val :: rest) /\ parseBearerToken (chars val) = inr tok /\
    vouched v (wo_now w) tok c /\
    (forall j, target req <> Some j -> sessions (supervisor s') !! j = sessions (supervisor s) !! j) /\
    (sessions (supervisor s') <> sessions (supervisor s) -> permitted (handler_claims c) (supervisor s) req) /\
    (forall resp, r = Reply resp -> permitted (handler_claims c) (supervisor s) req /\
       Forall (allowed (handler_claims c)) (projects_in resp)) /\
    (ProjectID (handler_claims c) <> ""%string -> forall sup, alike (ProjectID (handler_claims c)) (supervisor s) sup ->
       snd (serve_authenticated v ctx w req (with_supervisor sup s)) = r).
Proof.
  unfold serve_authenticated, UnaryJWTInterceptor; rewrite method_not_exempt.
  destruct (extractAndVerify ctx v (wo_now w)) as [st|c] eqn:Ex.
  - intros [= <- <-]; left; split_and!; auto; discriminate.
  - simpl; intros Es; pose proof (f_equal snd Es) as Hr; apply serve_confined in Es; right.
    apply extract_vouched in Ex as (val & rest & tok & Hm & Hp & Hv).
    exists val, rest, tok, c; split; [exact Hm|]; split; [exact Hp|]; split; [exact Hv|].
    destruct Es as [H1 H2]; split; [|split; [|split]].
    + intros j Hj; destruct H1 as [[-> _]|(claims & id & _ & Ht & _ & [Ho _] & _)]; [reflexivity|].
      apply Ho; congruence.
    + intros Hne; destruct H1 as [[Hs _]|(claims & id & [= <-] & _ & Hperm & _)]; [congruence | exact Hperm].
    + intros resp Hr'; destruct (H2 resp Hr') as (claims & [= <-] & K); exact K.
    + intros Hb sup Hal; rewrite <- (serve_alike _ Hb (handler_claims c) w req eq_refl s sup Hal); exact Hr.
Qed.

(** Minting and verifying fit together: a token minted by an issuer whose public
    key is registered under its name, with the audience of the verifier and a
    lifetime of whole seconds within the maximum, is accepted until it expires,
    and yields the subject and project it was minted for. *)
Theorem mint_verify `{JL : JWTLaws} (j : JWTIssuer) (v : JWTVerifier) (sub project : string) (now later : Time) (tok : list Z) :
  Mint j sub project now = inr tok ->
  ji_Issuer j <> ""%string -> Keys v !! ji_Issuer j = Some (pub (ji_Key j)) -> ji_Audience j = Audience v ->
  ji_TTL j mod Second = 0 -> ji_TTL j <= MaxTTL v ->
  now <= later < now - now mod Second + ji_TTL j ->
  exists c, Verify v tok later = inr c /\ handler_claims c = MkClaims sub project /\ tc_Issuer c = ji_Issuer j.
Proof.
  intros Hm Hi Hk Ha Hs Ht Hl; pose proof (Z.mod_pos_bound now Second eq_refl) as Hb.
  assert (He : NewNumericDate (now + ji_TTL j) = now - now mod Second + ji_TTL j).
  { rewrite date_truncates, <- (Z.add_mod_idemp_r now) by discriminate; rewrite Hs, Z.add_0_r; lia. }
  exists (mint_claims j sub project now); split; [|split; reflexivity]; unfold Verify.
  rewrite (parse_complete _ _ _ _ _ (mint_claims j sub project now) "EdDSA" (ji_Key j) Hm).
  - simpl; rewrite He, date_truncates; case_match; [|reflexivity].
    case_match; [bool_to_prop; lia | reflexivity].
  - left.
  - apply issuer_key_ok; auto.
  - rewrite <- Ha; left.
  - intros e [= <-]; rewrite He; lia.
  - intros i [= <-]; rewrite date_truncates; lia.
Qed.

(** ** Concrete runs *)

(** A library that knows one issuer key and one token. *)
Definition the_claims : TokenClaims :=
  MkTokenClaims "proj" "ci" "alice" ["bridge"%string] (Some Minute) (Some (6 * Minute)).

#[export] Instance one_token : JWT := {
  PublicKey := string;
  PrivateKey := string;
  pub k := k;
  NewNumericDate t := t - t mod Second;
  ParseWithClaims ms aud now kf tok :=
    if bool_decide (tok = chars "t1") && bool_decide ("EdDSA"%string ∈ ms) && str_eqb aud "bridge" && (now <? 6 * Minute) &&
       match kf the_claims with inr key => str_eqb key "k1" | inl _ => false end
    then inr the_claims else inl "token is invalid"%string;
  SignedString m k c :=
    if str_eqb m "EdDSA" && str_eqb k "k1" && bool_decide (tc_Audience c = ["bridge"%string]) &&
       bool_decide ((tc_ProjectID c, tc_Issuer c, tc_Subject c) = ("proj", "ci", "alice")%string) &&
       bool_decide ((tc_IssuedAt c, tc_ExpiresAt c) = (Some Minute, Some (6 * Minute)))
    then inr (chars "t1") else inl "no such token"%string;
  Signed m key tok c := m = "EdDSA"%string /\ key = "k1"%string /\ tok = chars "t1" /\ c = the_claims;
}.

#[export] Instance one_token_laws : JWTLaws.
Proof.
  split; [reflexivity | |].
  - intros ms aud now kf tok c; cbn [ParseWithClaims one_token].
    destruct (_ && _) eqn:E; [|discriminate]; intros [= <-]; bool_to_prop.
    destruct (kf the_claims) as [|key] eqn:Ek; [discriminate|]; bool_to_prop; subst.
    exists "EdDSA"%string, "k1"%string; split_and!; auto; [repeat split | left | intros e [= <-]; assumption].
  - intros ms aud now kf tok c m k; cbn [ParseWithClaims SignedString one_token pub].
    destruct (_ && _) eqn:E; [|discriminate]; intros [= <-] Hm Hk Ha Hx Hi; bool_to_prop.
    assert (c = the_claims) as -> by (destruct c; simpl in *; unfold the_claims; congruence).
    rewrite !bool_decide_true by congruence.
    assert (aud = "bridge"%string) as -> by (apply list_elem_of_singleton in Ha; exact Ha).
    specialize (Hx _ eq_refl); rewrite Hk, (proj2 (Z.ltb_lt _ _) Hx); subst; reflexivity.
Qed.

Definition sample_verifier : JWTVerifier := MkVerifier "bridge" (10 * Minute) {["ci"%string := "k1"%string]}.
Definition sample_issuer : JWTIssuer := MkIssuer "ci" "bridge" "k1"%string (5 * Minute).

Lemma mint_verify_witness :
  exists c, Verify sample_verifier (chars "t1") (2 * Minute) = inr c /\ handler_claims c = MkClaims "alice" "proj".
Proof.
  destruct (mint_verify sample_issuer sample_verifier "alice" "proj" Minute (2 * Minute) (chars "t1")) as (c & H & K & _);
    [vm_compute; reflexivity | discriminate | reflexivity | reflexivity | reflexivity | cbv; discriminate | split; reflexivity + discriminate |].
  exists c; split; assumption.
Defined.

(** A lifetime that is not a whole number of seconds can exceed a maximum equal to
    it, because both dates are truncated on their own. *)
Lemma fraction_exceeds_maximum :
  let ttl := 90 * Millisecond * 10 in
  NewNumericDate (Second - Millisecond + ttl) - NewNumericDate (Second - Millisecond) = Second /\ ttl < Second.
Proof. split; reflexivity. Qed.

Definition sample_context : Context := MkContext (Some ["BEARER t1 "%string]) None None.

Section Sample.
#[local] Existing Instance echo_emulator.
#[local] Existing Instance log_bolt.
#[local] Existing Instance dashed_uuid.

Definition sample_world : world := MkWorld (2 * Minute) (2 * Minute) sample_answers (0, None) None.

Lemma authenticated_isolation_witness :
  let s' := fst (serve_authenticated sample_verifier sample_context sample_world (ReqStart sample_start) sample_server) in
  zlen (map_to_list (sessions (supervisor s'))) = 1 /\
  (forall j, j <> sr_SessionId sample_start -> sessions (supervisor s') !! j = sessions (supervisor sample_server) !! j).
Proof.
  destruct (serve_authenticated sample_verifier sample_context sample_world (ReqStart sample_start) sample_server) as [s' r] eqn:Es.
  cbn [fst]; assert (N : zlen (map_to_list (sessions (supervisor s'))) = 1).
  { change s' with (fst (s', r)); rewrite <- Es; vm_compute; reflexivity. }
  split; [exact N|]; intros j Hj.
  destruct (authenticated_isolation sample_verifier sample_context sample_world (ReqStart sample_start) sample_server s' r Es)
    as [(K & _)|(val & rest & tok & c & _ & _ & _ & H & _)].
  - rewrite K; reflexivity.
  - apply H; intros K; injection K as K; apply Hj; symmetry; exact K.
Defined.
End Sample.
