(* ===== verification/EnrollServer.v ===== *)
(** * Enrollment methods: internal/server/enrollment.go, enroll.go

    [EnrollClient] redeems a one-time token of Enroll for a certificate and
    registers the client's token key with the verifier of Auth;
    [RegisterJWTKey] registers the key of a caller known by its certificate.

    Certificates are the class [X509]; reading the CA, random numbers and the
    writes of files are answers of the world.  The files of registered keys are
    kept as a map from path to key. *)

From S2P Require Import Prelude Types ByteBuf GoStd Policy Registry Screen Store Session Supervisor RateLimit Server Tenancy.
From S2P Require Import Enroll Auth.

(** ** Names and paths *)

(** [safeIssuerRe]: an ASCII letter or digit, then letters, digits, dots,
    underscores and hyphens. *)
Definition safeIssuer (s : list Z) : bool :=
  match s with
  | [] => false
  | c :: s => alnum c && forallb (fun c => alnum c || (c =? 46) || (c =? 95) || (c =? 45)) s
  end.

(** [filepath.Join] of two elements, and [filepath.Base]. *)
Definition Join (a b : list Z) : list Z :=
  match a, b with
  | [], [] => []
  | [], _ => Clean b
  | _, [] => Clean a
  | _, _ => Clean (a ++ SEP :: b)
  end.

Definition Base (s : list Z) : list Z :=
  match s with
  | [] => DOT
  | _ => match trim_right [SEP] s with
         | [] => [SEP]
         | s => List.last (split_path s) []
         end
  end.

(** ** Certificates *)

(** A certificate request and a certificate as far as the code looks at them. *)
Record CertificateRequest (Key : Type) := MkCSR {
  csr_Subject : string;     (* its common name *)
  csr_DNSNames : list string;
  csr_IPAddresses : list string;
  csr_PublicKey : Key;
}.
#[global] Arguments MkCSR {Key}.
#[global] Arguments csr_Subject {Key}.
#[global] Arguments csr_DNSNames {Key}.
#[global] Arguments csr_IPAddresses {Key}.
#[global] Arguments csr_PublicKey {Key}.

Inductive ExtKeyUsage := ExtKeyUsageClientAuth | ExtKeyUsageServerAuth.
Inductive KeyUsage := KeyUsageDigitalSignature | KeyUsageCertSign.

Record template := MkTemplate {
  tm_SerialNumber : Z;
  tm_Subject : string;
  tm_DNSNames : list string;
  tm_IPAddresses : list string;
  tm_NotBefore : Time;
  tm_NotAfter : Time;
  tm_ExtKeyUsage : list ExtKeyUsage;
  tm_KeyUsage : KeyUsage;
}.

Class X509 `{J : JWT} := {
  CertKey : Type;
  CA : Type;
  ParseCertificateRequest : bytes -> string + CertificateRequest CertKey;
  CheckSignature : CertificateRequest CertKey -> option string;
  (* the key, or [None] for a key of another kind than Ed25519 *)
  ParsePKIXPublicKey : bytes -> string + option PublicKey;
  CreateCertificate : template -> CA -> CertKey -> string + bytes;
  EncodeToMemory : bytes -> bytes;
  (* the expiry of the first certificate of a PEM text *)
  parsePEMCert : bytes -> string + Time;
}.

Section EnrollServer.
Context `{E : Emulator} `{S : SessionStore} `{U : UUID} `{X : X509}.

(** A key file: a key, or what a write that failed after the file was opened (and
    emptied) has left of it, which no start loads. *)
Inductive issuer_file := KeyFile (k : PublicKey) | TornKey.

(** The server with the fields of enrollment. *)
Record EnrollmentServer := MkEnrollment {
  es_server : BridgeServer;
  enrollStore : option Store;
  jwtVerifier : option JWTVerifier;
  certsDir : string;
  key_files : gmap (list Z) issuer_file;
}.

Definition ehandler (A : Type) : Type := EnrollmentServer -> EnrollmentServer * reply A.

Definition eret {A} (a : A) : ehandler A := fun s => (s, Reply a).
Definition efail {A} (c : code) (msg : string) : ehandler A := fun s => (s, Fail (MkStatus c msg)).

Definition ebind {A B} (m : ehandler A) (k : A -> ehandler B) : ehandler B := fun s =>
  match m s with
  | (s, Reply a) => k a s
  | (s, Fail st) => (s, Fail st)
  | (s, Crash w) => (s, Crash w)
  end.

Notation "x <- m ;; k" := (ebind m (fun x => k)) (at level 100, m at next level, right associativity).
Notation "m ;;; k" := (ebind m (fun _ => k)) (at level 100, right associativity).

(** Refuse unless [b]; pass on the right value of a sum; read the state. *)
Definition need (b : bool) (c : code) (msg : string) : ehandler unit := if b then eret tt else efail c msg.
Definition right_or {A} (v : string + A) (c : code) (msg : string) : ehandler A :=
  match v with inl _ => efail c msg | inr a => eret a end.
Definition ask {A} (f : EnrollmentServer -> A) : ehandler A := fun s => (s, Reply (f s)).

Definition enroll_limit (now : Time) : ehandler unit := fun s =>
  let '(sv, r) := global_limit now (es_server s) in
  (MkEnrollment sv (enrollStore s) (jwtVerifier s) (certsDir s) (key_files s), r).

(** ** Answers of the world *)

(** How [writePEM] ends: done, the file not opened, or the encoding cut short. *)
Inductive key_write := KeyWritten | KeyNotOpened (err : string) | KeyCut (err : string).

Record enroll_answers := MkEnrollAnswers {
  ea_now : Time;
  ea_flush : write_end;
  ea_loadCA : string + CA;
  ea_serial : string + Z;
  ea_bundle : string + bytes;
  ea_cacert : string + bytes;
  ea_mkdir : option string;
  ea_write_key : key_write;
}.

Record EnrollClientRequest := MkEnrollRequest { en_Token : string; en_Csr : bytes; en_JwtPublicKey : bytes }.

Record EnrollClientResponse := MkEnrollResponse {
  er_Certificate : bytes;
  er_CaBundle : bytes;
  er_Issuer : string;
  er_Identity : string;
  er_Expires : option Time;
}.

Definition Day : Duration := 24 * 60 * Minute.

Definition client_template (csr : CertificateRequest CertKey) (serial : Z) (now : Time) : template :=
  MkTemplate serial (csr_Subject csr) (csr_DNSNames csr) (csr_IPAddresses csr) now (now + 90 * Day)
    [ExtKeyUsageClientAuth] KeyUsageDigitalSignature.

Definition issueFromCSR (dir : string) (csr : CertificateRequest CertKey) (an : enroll_answers) : string + bytes :=
  if str_eqb dir "" then inl "certs directory not configured"%string
  else match ea_loadCA an with
       | inl err => inl ("load CA: " +:+ err)
       | inr ca =>
           match ea_serial an with
           | inl err => inl ("generate serial: " +:+ err)
           | inr serial =>
               match CreateCertificate (client_template csr serial (ea_now an)) ca (csr_PublicKey csr) with
               | inl err => inl ("sign CSR: " +:+ err)
               | inr certDER => inr (EncodeToMemory certDER)
               end
           end
       end.

Definition loadCABundle (an : enroll_answers) : string + bytes :=
  match ea_bundle an with inr data => inr data | inl _ => ea_cacert an end.

(** The call of [ValidateAndConsume] and the answer to its error. *)
Definition redeem (token : string) (an : enroll_answers) : ehandler Token := fun s =>
  match enrollStore s with
  | None => (s, Fail (MkStatus FailedPrecondition "enrollment not configured on this server"))
  | Some st =>
      let '(st, r) := ValidateAndConsume st token (ea_now an) (ea_flush an) in
      (MkEnrollment (es_server s) (Some st) (jwtVerifier s) (certsDir s) (key_files s),
       match r with
       | Done tok => Reply tok
       | Failed _ => Fail (MkStatus PermissionDenied "invalid or expired enrollment token")
       | Gone => Crash "killed"
       end)
  end.

Definition pub_path (dir name : string) : list Z :=
  Join (Join (chars dir) (chars "jwt-clients")) (chars (name +:+ ".pub")).

(** Write the key file in place when a directory is configured, then add the key. *)
Definition store_key (path : string -> list Z) (issuer : string) (edKey : PublicKey) (an : enroll_answers) : ehandler unit := fun s =>
  match jwtVerifier s with
  | None => (s, Reply tt)
  | Some v =>
      let files v files := MkEnrollment (es_server s) (enrollStore s) (Some v) (certsDir s) files in
      let added := AddKey v issuer edKey in
      if str_eqb (certsDir s) "" then (files added (key_files s), Reply tt)
      else match ea_mkdir an, ea_write_key an with
           | Some _, _ => (s, Fail (MkStatus Internal "create jwt-clients dir"))
           | None, KeyNotOpened _ => (s, Fail (MkStatus Internal "write JWT public key"))
           | None, KeyCut _ => (files v (<[path (certsDir s) := TornKey]> (key_files s)), Fail (MkStatus Internal "write JWT public key"))
           | None, KeyWritten => (files added (<[path (certsDir s) := KeyFile edKey]> (key_files s)), Reply tt)
           end
  end.

(** *** EnrollClient *)

(** Up to the redemption of the token, and the checks of the request after it. *)
Definition enroll_redeem (req : EnrollClientRequest) (an : enroll_answers) : ehandler Token :=
  enroll_limit (ea_now an) ;;;
  st <- ask enrollStore ;;
  need (match st with None => false | Some _ => true end) FailedPrecondition "enrollment not configured on this server" ;;;
  need (negb (str_eqb (en_Token req) "")) InvalidArgument "enrollment token is required" ;;;
  need (negb (zlen (en_Csr req) =? 0)) InvalidArgument "CSR is required" ;;;
  need (negb (zlen (en_JwtPublicKey req) =? 0)) InvalidArgument "JWT public key is required" ;;;
  redeem (en_Token req) an.

Definition enroll_request (req : EnrollClientRequest) (tok : Token) : ehandler (CertificateRequest CertKey * PublicKey) :=
  csr <- right_or (ParseCertificateRequest (en_Csr req)) InvalidArgument "invalid CSR" ;;
  need (match CheckSignature csr with None => true | Some _ => false end) InvalidArgument "CSR signature verification failed" ;;;
  need (str_eqb (csr_Subject csr) (Identity tok)) InvalidArgument "CSR CN does not match enrollment identity" ;;;
  raw <- right_or (ParsePKIXPublicKey (en_JwtPublicKey req)) InvalidArgument "invalid JWT public key" ;;
  match raw with
  | None => efail InvalidArgument "JWT public key must be Ed25519"
  | Some edKey => eret (csr, edKey)
  end.

(** The checks of the issuer name before its key is added. *)
Definition enroll_issuer (issuer : string) : ehandler unit :=
  v <- ask jwtVerifier ;;
  match v with
  | None => eret tt
  | Some v =>
      need (safeIssuer (chars issuer)) InvalidArgument "enrollment identity is not a valid issuer name" ;;;
      need (negb (str_eqb issuer "local" || str_eqb issuer "e2e")) InvalidArgument "enrollment identity conflicts with a reserved issuer" ;;;
      need (negb (HasKey v issuer)) AlreadyExists "issuer is already registered"
  end.

Definition enroll_path (issuer dir : string) : list Z :=
  Join (Join (chars dir) (chars "jwt-clients")) (Base (chars issuer) ++ chars ".pub").

Definition EnrollClient (req : EnrollClientRequest) (an : enroll_answers) : ehandler EnrollClientResponse :=
  tok <- enroll_redeem req an ;;
  keys <- enroll_request req tok ;;
  let '(csr, edKey) := keys in
  dir <- ask certsDir ;;
  certPEM <- right_or (issueFromCSR dir csr an) Internal "issue certificate" ;;
  caBundlePEM <- right_or (loadCABundle an) Internal "load CA bundle" ;;
  enroll_issuer (Identity tok) ;;;
  store_key (enroll_path (Identity tok)) (Identity tok) edKey an ;;;
  eret (MkEnrollResponse certPEM caBundlePEM (Identity tok) (Identity tok)
    (match parsePEMCert certPEM with inr t => Some t | inl _ => None end)).

(** *** RegisterJWTKey *)

Record RegisterJWTKeyRequest := MkRegister { rk_Issuer : string; rk_PublicKey : bytes }.

Definition RegisterJWTKey (ctx : Context) (req : RegisterJWTKeyRequest) (an : enroll_answers) : ehandler string :=
  enroll_limit (ea_now an) ;;;
  let cn := CallerCommonName ctx in
  need (negb (str_eqb cn "")) Unauthenticated "valid mTLS client certificate required for enrollment" ;;;
  let issuer := if str_eqb (rk_Issuer req) "" then cn else rk_Issuer req in
  need (safeIssuer (chars issuer)) InvalidArgument "issuer must be alphanumeric with hyphens, underscores, or dots" ;;;
  need (str_eqb issuer cn) PermissionDenied "issuer does not match client certificate CN" ;;;
  need (negb (zlen (rk_PublicKey req) =? 0)) InvalidArgument "public_key is required" ;;;
  raw <- right_or (ParsePKIXPublicKey (rk_PublicKey req)) InvalidArgument "invalid public key" ;;
  match raw with
  | None => efail InvalidArgument "public key must be Ed25519"
  | Some edKey =>
      v <- ask jwtVerifier ;;
      need (match v with None => false | Some _ => true end) FailedPrecondition "JWT enrollment not available in local mode" ;;;
      store_key (fun dir => pub_path dir issuer) issuer edKey an ;;;
      eret issuer
  end.
End EnrollServer.

(** ** Inversion of handlers *)

Section Inversion.
Context `{E : Emulator} `{S : SessionStore} `{U : UUID} `{X : X509}.

Lemma ebind_Reply {A B} (m : ehandler A) (k : A -> ehandler B) s s' b :
  ebind m k s = (s', Reply b) -> exists a s1, m s = (s1, Reply a) /\ k a s1 = (s', Reply b).
Proof. unfold ebind; destruct (m s) as [s1 [a|st|w]]; intros H; try discriminate; eauto. Qed.

Lemma need_Reply b c msg s s' u : need b c msg s = (s', Reply u) -> b = true /\ s' = s.
Proof. unfold need; destruct b; [intros [= <-] | discriminate]; auto. Qed.

Lemma right_or_Reply {A} (v : string + A) c msg s s' a : right_or v c msg s = (s', Reply a) -> v = inr a /\ s' = s.
Proof. unfold right_or; destruct v; [discriminate | intros [= <- <-]; auto]. Qed.

Lemma ask_Reply {A} (f : EnrollmentServer -> A) s s' a : ask f s = (s', Reply a) -> a = f s /\ s' = s.
Proof. intros [= <- <-]; auto. Qed.

End Inversion.

Ltac estep H :=
  let a := fresh "a" in let s := fresh "s" in let K := fresh "K" in
  apply ebind_Reply in H as (a & s & K & H);
  first [ apply need_Reply in K as [K ->] | apply right_or_Reply in K as [K ->] | apply ask_Reply in K as [-> ->] | idtac ].

Section Facts.
Context `{E : Emulator} `{S : SessionStore} `{U : UUID} `{X : X509}.

(** A handler that leaves keys, key files and tokens alone. *)
Definition same_keys (s s' : EnrollmentServer) : Prop :=
  jwtVerifier s' = jwtVerifier s /\ key_files s' = key_files s /\ certsDir s' = certsDir s.

Definition steady {A} (m : ehandler A) : Prop :=
  forall s, same_keys s (fst (m s)) /\ enrollStore (fst (m s)) = enrollStore s.

Lemma steady_bind {A B} (m : ehandler A) (k : A -> ehandler B) : steady m -> (forall a, steady (k a)) -> steady (ebind m k).
Proof.
  intros Hm Hk s; unfold ebind; destruct (Hm s) as [K1 K2]; destruct (m s) as [s1 [a|st|w]]; simpl in *; auto.
  destruct (Hk a s1) as [K3 K4]; unfold same_keys in *; split; intuition congruence.
Qed.

Lemma steady_eret {A} (a : A) : steady (eret a).
Proof. intros s; repeat split. Qed.

Lemma steady_efail {A} c msg : steady (A := A) (efail c msg).
Proof. intros s; repeat split. Qed.

Lemma steady_ask {A} (f : EnrollmentServer -> A) : steady (ask f).
Proof. intros s; repeat split. Qed.

Lemma steady_need b c msg : steady (need b c msg).
Proof. unfold need; destruct b; [apply steady_eret | apply steady_efail]. Qed.

Lemma steady_right_or {A} (v : string + A) c msg : steady (right_or v c msg).
Proof. unfold right_or; destruct v; [apply steady_efail | apply steady_eret]. Qed.

Lemma steady_limit now : steady (enroll_limit now).
Proof. intros s; unfold enroll_limit; destruct (global_limit now (es_server s)); repeat split. Qed.

Ltac steady_tac :=
  repeat first
    [ apply steady_bind; [|intros] | apply steady_limit | apply steady_need | apply steady_right_or | apply steady_ask
    | apply steady_eret | apply steady_efail | progress case_match ].

Lemma steady_request req tok : steady (enroll_request req tok).
Proof. unfold enroll_request; steady_tac. Qed.

Lemma steady_issuer issuer : steady (enroll_issuer issuer).
Proof. unfold enroll_issuer; steady_tac. Qed.

(** What a refused call may have done: nothing to the verifier, and to the files at
    most that one of [paths] was torn. *)
Definition contained (paths : list Z -> Prop) (s s' : EnrollmentServer) : Prop :=
  jwtVerifier s' = jwtVerifier s /\
  (key_files s' = key_files s \/ exists p, paths p /\ key_files s' = <[p := TornKey]> (key_files s)).

Lemma same_contained paths s s' : same_keys s s' -> contained paths s s'.
Proof. intros (H1 & H2 & _); split; auto. Qed.

Lemma contained_after (p1 p2 : list Z -> Prop) s s1 s' :
  same_keys s s1 -> (forall p, p1 p -> p2 p) -> contained p1 s1 s' -> contained p2 s s'.
Proof.
  intros (H1 & H2 & H3) Hp [K1 K2]; split; [congruence|]; rewrite <- H2; destruct K2 as [?|(p & ? & ?)]; eauto.
Qed.

(** A refusal comes from the first part, or from the rest after it. *)
Lemma ebind_refused {A B} (m : ehandler A) (k : A -> ehandler B) s s' r :
  ebind m k s = (s', r) -> (forall b, r <> Reply b) ->
  (exists a s1, m s = (s1, Reply a) /\ k a s1 = (s', r)) \/ fst (m s) = s' /\ forall a, snd (m s) <> Reply a.
Proof. unfold ebind; destruct (m s) as [s1 [a|st|w]]; intros H _; [left; eauto | right; injection H; split; (auto || discriminate)..]. Qed.

Lemma store_key_refused path issuer edKey an s s' r :
  store_key path issuer edKey an s = (s', r) -> (forall u, r <> Reply u) ->
  (exists v, jwtVerifier s = Some v) /\ contained (eq (path (certsDir s))) s s'.
Proof.
  unfold store_key; destruct (jwtVerifier s) as [v|] eqn:Ev; [|intros [= _ <-] H; destruct (H tt eq_refl)].
  unfold contained; rewrite Ev; destruct (str_eqb (certsDir s) ""); [intros [= _ <-] H; destruct (H tt eq_refl)|].
  destruct (ea_mkdir an); [intros [= <- _] _; eauto 10|]; destruct (ea_write_key an); intros [= <- <-] H; eauto 10.
  destruct (H tt eq_refl).
Qed.

Lemma keys_redeem token an s : same_keys s (fst (redeem token an s)).
Proof.
  unfold redeem; destruct (enrollStore s) as [st|]; [|repeat split].
  destruct (ValidateAndConsume _ _ _ _); repeat split.
Qed.

Lemma keys_bind {A B} (m : ehandler A) (k : A -> ehandler B) :
  (forall s, same_keys s (fst (m s))) -> (forall a s, same_keys s (fst (k a s))) -> forall s, same_keys s (fst (ebind m k s)).
Proof.
  intros Hm Hk s; specialize (Hm s); unfold ebind; destruct (m s) as [s1 [a|st|w]]; simpl in *; auto.
  specialize (Hk a s1); unfold same_keys in *; intuition congruence.
Qed.

Lemma keys_steady {A} (m : ehandler A) : steady m -> forall s, same_keys s (fst (m s)).
Proof. intros H s; apply (H s). Qed.

Lemma keys_enroll_redeem req an s : same_keys s (fst (enroll_redeem req an s)).
Proof.
  unfold enroll_redeem; revert s; do 6 (apply keys_bind; [apply keys_steady; steady_tac | intros ?]).
  apply keys_redeem.
Qed.

(** ** What a successful call has established *)

Lemma limit_Reply now s s' u : enroll_limit now s = (s', Reply u) -> same_keys s s' /\ enrollStore s' = enrollStore s.
Proof. intros H; pose proof (steady_limit now s) as K; rewrite H in K; exact K. Qed.

Lemma redeem_Reply token an s s' tok :
  redeem token an s = (s', Reply tok) ->
  same_keys s s' /\ exists st st', enrollStore s = Some st /\ enrollStore s' = Some st' /\
    ValidateAndConsume st token (ea_now an) (ea_flush an) = (st', Done tok).
Proof.
  intros H; pose proof (keys_redeem token an s) as K; rewrite H in K; split; [exact K|].
  unfold redeem in H; destruct (enrollStore s) as [st|]; [|discriminate].
  destruct (ValidateAndConsume st token _ _) as [st' [t|e|]] eqn:Ev; try discriminate.
  injection H as <- <-; eauto.
Qed.

Lemma enroll_redeem_Reply req an s s' tok :
  enroll_redeem req an s = (s', Reply tok) ->
  same_keys s s' /\ exists st st', enrollStore s = Some st /\ enrollStore s' = Some st' /\
    ValidateAndConsume st (en_Token req) (ea_now an) (ea_flush an) = (st', Done tok).
Proof.
  unfold enroll_redeem; intros H; estep H; apply limit_Reply in K as [K1 K2]; do 5 estep H.
  apply redeem_Reply in H as [K7 H]; split; [|rewrite <- K2; exact H].
  unfold same_keys in *; intuition congruence.
Qed.

Lemma enroll_request_Reply req tok s s' csr edKey :
  enroll_request req tok s = (s', Reply (csr, edKey)) ->
  s' = s /\ ParseCertificateRequest (en_Csr req) = inr csr /\ CheckSignature csr = None /\
  csr_Subject csr = Identity tok /\ ParsePKIXPublicKey (en_JwtPublicKey req) = inr (Some edKey).
Proof.
  unfold enroll_request; intros H; do 4 estep H.
  destruct (CheckSignature _) eqn:Ec; [discriminate|]; bool_to_prop.
  match type of H with context [match ?x with _ => _ end] => destruct x; [|discriminate] end.
  injection H as <- <- <-; auto.
Qed.

Lemma issueFromCSR_ok dir csr an cert :
  issueFromCSR dir csr an = inr cert ->
  exists ca serial der, ea_loadCA an = inr ca /\
    CreateCertificate (client_template csr serial (ea_now an)) ca (csr_PublicKey csr) = inr der /\ cert = EncodeToMemory der.
Proof.
  unfold issueFromCSR; repeat (case_match; try discriminate); intros [= <-]; eauto 10.
Qed.

(** An issuer whose key enrollment may add: a plain name, not reserved, not yet
    registered. *)
Definition admissible (v : JWTVerifier) (issuer : string) : Prop :=
  safeIssuer (chars issuer) = true /\ issuer <> "local"%string /\ issuer <> "e2e"%string /\ Keys v !! issuer = None.

Lemma enroll_issuer_Reply issuer s s' u :
  enroll_issuer issuer s = (s', Reply u) -> s' = s /\ forall v, jwtVerifier s = Some v -> admissible v issuer.
Proof.
  unfold enroll_issuer; intros H; estep H; destruct (jwtVerifier s) as [v|]; [|injection H as <-; split; [auto | discriminate]].
  do 2 estep H; apply need_Reply in H as [H ->]; split; [reflexivity|]; intros v' [= <-].
  bool_to_prop; split_and!; auto.
  unfold HasKey in H; bool_to_prop; apply eq_None_not_Some, H.
Qed.

Lemma store_key_Reply path issuer edKey an s s' u :
  store_key path issuer edKey an s = (s', Reply u) ->
  enrollStore s' = enrollStore s /\ jwtVerifier s' = option_map (fun v => AddKey v issuer edKey) (jwtVerifier s) /\
  (key_files s' = key_files s \/ key_files s' = <[path (certsDir s) := KeyFile edKey]> (key_files s)).
Proof.
  unfold store_key; destruct (jwtVerifier s) as [v|] eqn:Ev; [|intros [= <-]; rewrite Ev; auto].
  destruct (str_eqb (certsDir s) ""); [intros [= <-]; auto|].
  destruct (ea_mkdir an); [discriminate|]; destruct (ea_write_key an); [intros [= <-]; auto | discriminate..].
Qed.

(** The file an enrollment may leave torn: that of the identity of its token, which
    has no key in the verifier. *)
Definition enroll_paths (req : EnrollClientRequest) (s : EnrollmentServer) (p : list Z) : Prop :=
  exists st tok v, enrollStore s = Some st /\ tokens st !! en_Token req = Some tok /\ jwtVerifier s = Some v /\
    admissible v (Identity tok) /\ p = enroll_path (Identity tok) (certsDir s).

Lemma EnrollClient_refused req an s s' r :
  EnrollClient req an s = (s', r) -> (forall a, r <> Reply a) -> contained (enroll_paths req s) s s'.
Proof.
  unfold EnrollClient; intros H Hr.
  apply ebind_refused in H as [(tok & s1 & Kr & H)|[<- _]]; [|apply same_contained, keys_enroll_redeem | exact Hr].
  apply enroll_redeem_Reply in Kr as (K1 & st & st' & H1 & _ & H3).
  apply ebind_refused in H as [([csr edKey] & s2 & Kq & H)|[<- _]]; [|eapply (contained_after (fun _ => False)); [exact K1 | tauto | apply same_contained, keys_steady, steady_request] | exact Hr].
  apply enroll_request_Reply in Kq as (-> & _).
  assert (Hout : forall A (m : ehandler A), steady m -> contained (enroll_paths req s) s (fst (m s1))).
  { intros A m Hm; eapply (contained_after (fun _ => False)); [exact K1 | tauto | apply same_contained, keys_steady, Hm]. }
  apply ebind_refused in H as [(dir & s2 & Ka & H)|[<- _]]; [|apply Hout, steady_ask | exact Hr]; apply ask_Reply in Ka as [-> ->].
  do 2 (apply ebind_refused in H as [(?a & ?s & ?K & H)|[<- _]]; [|apply Hout, steady_right_or | exact Hr];
        match goal with K : right_or _ _ _ _ = _ |- _ => apply right_or_Reply in K as [_ ->] end).
  apply ebind_refused in H as [([] & s2 & Ki & H)|[<- _]]; [|apply Hout, steady_issuer | exact Hr].
  apply enroll_issuer_Reply in Ki as [-> Hi].
  apply ebind_refused in H as [(u & s2 & _ & H)|[<- Hn]]; [injection H as _ <-; destruct (Hr _ eq_refl) | | exact Hr].
  destruct (store_key (enroll_path (Identity tok)) (Identity tok) edKey an s1) as [s2 r2] eqn:Es; simpl in *.
  apply store_key_refused in Es as [[v Hv] Hc]; [|exact Hn]; eapply contained_after; [exact K1 | | exact Hc].
  intros p <-; destruct K1 as (Kv & _ & Kd).
  destruct (consume_cases st (en_Token req) (ea_now an) (ea_flush an)) as [(err & _ & K1)|(tok' & m & Hval & _ & K1)]; [congruence|].
  apply Validate_ok in Hval as (Hval & _); destruct K1 as [[_ K1]|[(x & _ & err & K1)|[_ K1]]]; rewrite K1 in H3; try discriminate.
  injection H3 as _ <-; exists st, tok', v; rewrite <- Kv, <- Kd; split_and!; auto.
Qed.

Lemma RegisterJWTKey_refused ctx req an s s' r :
  RegisterJWTKey ctx req an s = (s', r) -> (forall a, r <> Reply a) -> contained (eq (pub_path (certsDir s) (CallerCommonName ctx))) s s'.
Proof.
  unfold RegisterJWTKey; intros H Hr.
  apply ebind_refused in H as [([] & s1 & Kl & H)|[<- _]]; [|apply same_contained, keys_steady, steady_limit | exact Hr].
  apply limit_Reply in Kl as [K1 _].
  assert (Hout : forall A (m : ehandler A), steady m -> contained (eq (pub_path (certsDir s) (CallerCommonName ctx))) s (fst (m s1))).
  { intros A m Hm; eapply (contained_after (fun _ => False)); [exact K1 | tauto | apply same_contained, keys_steady, Hm]. }
  apply ebind_refused in H as [([] & s2 & Ka & H)|[<- _]]; [|apply Hout, steady_need | exact Hr]; apply need_Reply in Ka as [_ ->].
  apply ebind_refused in H as [([] & s2 & Ka & H)|[<- _]]; [|apply Hout, steady_need | exact Hr]; apply need_Reply in Ka as [_ ->].
  apply ebind_refused in H as [([] & s2 & Kn & H)|[<- _]]; [|apply Hout, steady_need | exact Hr]; apply need_Reply in Kn as [Kn ->].
  apply ebind_refused in H as [([] & s2 & Ka & H)|[<- _]]; [|apply Hout, steady_need | exact Hr]; apply need_Reply in Ka as [_ ->].
  apply ebind_refused in H as [(raw & s2 & Ka & H)|[<- _]]; [|apply Hout, steady_right_or | exact Hr]; apply right_or_Reply in Ka as [_ ->].
  destruct raw as [edKey|]; [|injection H as <- _; apply (Hout string (efail InvalidArgument "")), steady_efail].
  apply ebind_refused in H as [(v & s2 & Ka & H)|[<- _]]; [|apply Hout, steady_ask | exact Hr]; apply ask_Reply in Ka as [_ ->].
  apply ebind_refused in H as [([] & s2 & Ka & H)|[<- _]]; [|apply Hout, steady_need | exact Hr]; apply need_Reply in Ka as [_ ->].
  apply ebind_refused in H as [(u & s2 & _ & H)|[<- Hn]]; [injection H as _ <-; destruct (Hr _ eq_refl) | | exact Hr].
  bool_to_prop; rewrite Kn in *.
  destruct (store_key _ _ edKey an s1) as [s2 r2] eqn:Es; simpl in *.
  apply store_key_refused in Es as [_ Hc]; [|exact Hn]; eapply contained_after; [exact K1 | | exact Hc].
  intros p <-; destruct K1 as (_ & _ & ->); reflexivity.
Qed.
End Facts.

(** ** Key files *)

Lemma alnum_range c : alnum c = true -> 48 <= c /\ c <> SEP.
Proof. unfold alnum, in_range, SEP; intros H; repeat (apply orb_true_iff in H as [H|H]); bool_to_prop; lia. Qed.

Lemma safe_sep_free s : safeIssuer s = true -> sep_free s.
Proof.
  destruct s as [|c s]; simpl; [discriminate|]; intros H; bool_to_prop.
  apply alnum_range in H as [_ Hc]; rewrite forallb_forall in H0; intros [K|K]%elem_of_cons; [congruence|].
  apply list_elem_of_In, H0 in K; vm_compute in K; discriminate.
Qed.

(** Splitting a path that ends in a component without separator. *)
Lemma split_path_snoc s w : sep_free w -> split_path (s ++ SEP :: w) = split_path s ++ [w].
Proof.
  intros Hw; induction s as [|c s IH].
  - assert (K : forall w, sep_free w -> split_path w = [w]).
    { clear; induction w as [|c w IH]; intros Hw; [reflexivity|]; cbn [split_path].
      rewrite IH by (unfold sep_free in *; set_solver).
      destruct (Z.eqb_spec c SEP) as [->|]; [unfold sep_free in Hw; set_solver | reflexivity]. }
    simpl; rewrite (K w Hw); reflexivity.
  - cbn [split_path app]; rewrite IH.
    destruct (split_path s) as [|u us] eqn:Eu; simpl; [|destruct (c =? SEP); reflexivity].
    destruct s as [|d s]; simpl in Eu; [|destruct (split_path s); [|destruct (d =? SEP)]]; discriminate.
Qed.

Lemma split_path_plain w : sep_free w -> split_path w = [w].
Proof. intros H; pose proof (split_path_snoc [] w H) as K; simpl in K; destruct (split_path w); simplify_eq; reflexivity. Qed.

(** Joining a component to a rooted directory appends it to the cleaned directory. *)
Definition under (dir : list Z) (ws : list (list Z)) : Prop :=
  exists d, dir = SEP :: d /\ reverse (fold_left (clean_step true) (split_path dir) []) = ws.

Lemma Join_under dir ws w :
  under dir ws -> component w -> Join dir w = SEP :: join_path (ws ++ [w]).
Proof.
  intros (d & -> & Hw) (Hs & Hn & Hd & Hdd); destruct w as [|c w]; [congruence|].
  cbn [Join]; change ((SEP :: d) ++ SEP :: c :: w) with (SEP :: (d ++ SEP :: c :: w)).
  unfold Clean; cbn [Z.eqb SEP Pos.eqb]; f_equal.
  change (SEP :: d ++ SEP :: c :: w) with ((SEP :: d) ++ SEP :: c :: w).
  rewrite split_path_snoc, fold_left_app by exact Hs; cbn [fold_left]; unfold clean_step at 1.
  rewrite !bool_decide_false by congruence; cbn [orb]; rewrite reverse_cons, Hw; reflexivity.
Qed.

Lemma split_join vs : Forall component vs -> vs <> [] -> split_path (SEP :: join_path vs) = [] :: vs.
Proof.
  intros Hv Hn; assert (K : split_path (join_path vs) = vs).
  { induction vs as [|v vs IH] using rev_ind; [congruence|].
    apply Forall_app in Hv as [Hv Hl]; inversion Hl as [|? ? [Hs _] _]; subst.
    destruct vs as [|u us]; [apply split_path_plain, Hs|].
    assert (J : join_path ((u :: us) ++ [v]) = join_path (u :: us) ++ SEP :: v).
    { clear; revert u; induction us as [|x us IH]; intros u; [reflexivity|].
      change (join_path ((u :: x :: us) ++ [v])) with (u ++ SEP :: join_path ((x :: us) ++ [v])).
      rewrite IH; change (join_path (u :: x :: us)) with (u ++ SEP :: join_path (x :: us)).
      rewrite <- app_assoc; reflexivity. }
    rewrite J, split_path_snoc by exact Hs; rewrite IH; auto. }
  cbn [split_path]; rewrite K; destruct vs; [congruence | reflexivity].
Qed.

Lemma push_components vs st : Forall component vs -> fold_left (clean_step true) vs st = reverse vs ++ st.
Proof.
  intros H; revert st; induction H as [|v vs (_ & Hn & Hd & Hdd) _ IH]; intros st; [reflexivity|].
  cbn [fold_left]; unfold clean_step at 2; rewrite !bool_decide_false by assumption; cbn [orb].
  rewrite IH, reverse_cons, <- app_assoc; reflexivity.
Qed.

Lemma under_components vs : Forall component vs -> vs <> [] -> under (SEP :: join_path vs) vs.
Proof.
  intros H Hn; exists (join_path vs); split; [reflexivity|].
  rewrite split_join by assumption; cbn [fold_left]; unfold clean_step at 2; cbn.
  rewrite push_components, app_nil_r by assumption; apply reverse_involutive.
Qed.

Lemma pub_component issuer : safeIssuer (chars issuer) = true -> component (chars (issuer +:+ ".pub")).
Proof.
  intros H; rewrite chars_app; pose proof (safe_sep_free _ H) as Hs; split; [|split; [|split]].
  - intros [K|K]%elem_of_app; [exact (Hs K) | vm_compute in K].
    repeat (apply elem_of_cons in K as [K|K]; [discriminate|]); apply elem_of_nil in K; exact K.
  - intros K; apply (f_equal length) in K; rewrite length_app in K; cbn in K; lia.
  - intros K; apply (f_equal length) in K; rewrite length_app in K; cbn in K; lia.
  - intros K; apply (f_equal length) in K; rewrite length_app in K; cbn in K; lia.
Qed.

Lemma Base_free s : sep_free s -> s <> [] -> Base s = s.
Proof.
  intros Hs Hne; destruct s as [|c s]; [congruence|].
  assert (Ht : forallb (fun c => negb (existsb (Z.eqb c) [SEP])) (c :: s) = true).
  { apply forallb_forall; intros d Hd%list_elem_of_In; cbn [existsb]; rewrite orb_false_r.
    apply negb_true_iff, Z.eqb_neq; intros ->; exact (Hs Hd). }
  unfold Base; rewrite (trim_right_id _ _ Ht).
  rewrite split_path_plain by exact Hs; reflexivity.
Qed.

Lemma Base_plain s : safeIssuer s = true -> Base s = s.
Proof. intros H; apply Base_free; [apply safe_sep_free, H|intros ->; discriminate]. Qed.

(** ** Theorems *)

(** C13. A refused enrollment, wherever it fails (the rate limit, the token, the
    request, the CA, the issuer name, the directory or the write of the key file),
    leaves the keys of the verifier as they were, and the key files too, except
    that a write cut short may leave a torn file for the identity of the token,
    which is an admissible issuer name without a key. A successful one redeemed an
    unused, unexpired token that is used from then on; the request was signed by
    the key it names, for the identity of the token; the certificate is for that
    key and identity, for client authentication, for ninety days; and, when the
    daemon verifies tokens, the token key was added under that identity, which is
    a plain name, not reserved, and had no key before. One call at a time:
    overlapping calls are in the findings. *)
Theorem enrollment_sound `{E : Emulator} `{S : SessionStore} `{X : X509} (req : EnrollClientRequest)
    (an : enroll_answers) (s s' : EnrollmentServer) (r : reply EnrollClientResponse) :
  EnrollClient req an s = (s', r) ->
  match r with
  | Reply resp =>
      exists st st' tok csr edKey ca serial der,
        enrollStore s = Some st /\ enrollStore s' = Some st' /\
        tokens st !! en_Token req = Some tok /\ Used tok = false /\ ea_now an <= ExpiresAt tok /\
        tokens st' = <[en_Token req := put_used true tok]> (tokens st) /\
        ParseCertificateRequest (en_Csr req) = inr csr /\ CheckSignature csr = None /\ csr_Subject csr = Identity tok /\
        CreateCertificate (client_template csr serial (ea_now an)) ca (csr_PublicKey csr) = inr der /\
        er_Certificate resp = EncodeToMemory der /\ er_Identity resp = Identity tok /\
        ParsePKIXPublicKey (en_JwtPublicKey req) = inr (Some edKey) /\
        jwtVerifier s' = option_map (fun v => AddKey v (Identity tok) edKey) (jwtVerifier s) /\
        (forall v, jwtVerifier s = Some v -> admissible v (Identity tok))
  | _ => contained (enroll_paths req s) s s'
  end.
Proof.
  intros H; destruct r as [resp|st|w]; [|eapply EnrollClient_refused; [exact H | discriminate]..].
  unfold EnrollClient in H; estep H; apply enroll_redeem_Reply in K as ((Kv & Kf & Kd) & st & st' & H1 & H2 & H3).
  estep H; match type of H with (let '(_, _) := ?p in _) _ = _ => destruct p as [csr edKey] end.
  apply enroll_request_Reply in K as (-> & Hc & Hg & Hs & Hp).
  do 3 estep H; apply issueFromCSR_ok in K as (ca & serial & der & Hca & Hcr & ->).
  estep H; match goal with K : enroll_issuer _ _ = _ |- _ => apply enroll_issuer_Reply in K as [-> Hi] end.
  estep H; match goal with K : store_key _ _ _ _ _ = _ |- _ => apply store_key_Reply in K as (Ke & Kj & _) end; injection H as <- <-.
  destruct (consume_cases st (en_Token req) (ea_now an) (ea_flush an)) as [(err & _ & K1)|(tok & m & Hv & -> & K1)];
    [congruence|]; apply Validate_ok in Hv as (Hv & Hu & Hx).
  destruct K1 as [[_ K1]|[(x & _ & err & K1)|[_ K1]]]; rewrite K1 in H3; try discriminate; injection H3 as <- <-.
  exists st, (MkStore (Content (file_of (<[en_Token req := put_used true tok]> (tokens st)))) (<[en_Token req := put_used true tok]> (tokens st))), tok, csr, edKey, ca, serial, der.
  simpl in *; rewrite Kv in *; split_and!; auto; congruence.
Qed.

(** A caller known by its certificate registers a key for its own common name
    only: a successful registration adds the key under that name, which is a
    plain name, and leaves the keys of every other issuer alone; a refused one
    leaves the verifier as it is, but may tear the file of that name. *)
Theorem register_own_key `{E : Emulator} `{S : SessionStore} `{X : X509} (ctx : Context) (req : RegisterJWTKeyRequest)
    (an : enroll_answers) (s s' : EnrollmentServer) (r : reply string) :
  RegisterJWTKey ctx req an s = (s', r) ->
  match r with
  | Reply issuer =>
      issuer = CallerCommonName ctx /\ issuer <> ""%string /\ safeIssuer (chars issuer) = true /\
      exists v edKey, jwtVerifier s = Some v /\ jwtVerifier s' = Some (AddKey v issuer edKey) /\
        ParsePKIXPublicKey (rk_PublicKey req) = inr (Some edKey) /\
        (forall other, other <> issuer -> Keys (AddKey v issuer edKey) !! other = Keys v !! other) /\
        (forall p, key_files s' !! p <> key_files s !! p -> p = pub_path (certsDir s) issuer)
  | _ => contained (eq (pub_path (certsDir s) (CallerCommonName ctx))) s s'
  end.
Proof.
  intros H; destruct r as [issuer|st|w]; [|eapply RegisterJWTKey_refused; [exact H | discriminate]..].
  unfold RegisterJWTKey in H; estep H; apply limit_Reply in K as ((Kv & Kf & Kd) & _); do 5 estep H.
  destruct a4 as [edKey|]; [|discriminate]; do 2 estep H; estep H; match goal with K : store_key _ _ _ _ _ = _ |- _ => apply store_key_Reply in K as (_ & Kj & Kp) end.
  injection H as <- <-; bool_to_prop; rewrite K1 in *.
  rewrite Kv in *; destruct (jwtVerifier s) as [v|]; [|discriminate].
  split_and!; auto; exists v, edKey; split_and!; auto.
  - intros other Ho; simpl; apply lookup_insert_ne; congruence.
  - intros p Hp; destruct Kp as [Kp|Kp]; rewrite Kp, ?Kf in Hp; [congruence|].
    destruct (decide (p = pub_path (certsDir s0) (CallerCommonName ctx))) as [->|Hn]; [congruence|].
    rewrite lookup_insert_ne in Hp by congruence; congruence.
Qed.

(** The file of a registered key is in the directory of client keys and nowhere
    else: for a plain issuer name both methods use the same path, the cleaned
    certificate directory followed by jwt-clients and the name with its suffix,
    so different issuers have different files. *)
Theorem key_file_confined (dir issuer : string) (d : list Z) :
  chars dir = SEP :: d -> safeIssuer (chars issuer) = true ->
  exists ws, Clean (chars dir) = SEP :: join_path ws /\ Forall component ws /\
    enroll_path issuer dir = SEP :: join_path (ws ++ [chars "jwt-clients"; chars issuer ++ chars ".pub"]) /\
    pub_path dir issuer = enroll_path issuer dir.
Proof.
  intros Hd Hs; set (ws := reverse (fold_left (clean_step true) (split_path (chars dir)) [])).
  assert (Hw : Forall component ws).
  { apply Forall_reverse; pose proof (split_path_sep_free (chars dir)) as H.
    assert (Forall component []) as Hst by constructor; revert Hst.
    generalize (@nil (list Z)); induction H as [|w us Hw _ IH]; intros st Hst; [exact Hst|].
    simpl; apply IH, clean_step_component; assumption. }
  assert (Hj : component (chars "jwt-clients")).
  { split; [|repeat split; discriminate]; intros K; vm_compute in K.
    repeat (apply elem_of_cons in K as [K|K]; [discriminate|]); apply elem_of_nil in K; exact K. }
  assert (Hp : pub_path dir issuer = SEP :: join_path (ws ++ [chars "jwt-clients"; chars issuer ++ chars ".pub"])).
  { unfold pub_path; rewrite (Join_under (chars dir) ws) by (auto; exists d; auto).
    rewrite (Join_under _ (ws ++ [chars "jwt-clients"])); [| |apply pub_component, Hs].
    - rewrite chars_app, <- app_assoc; reflexivity.
    - apply under_components; [apply Forall_app; auto | destruct ws; discriminate]. }
  exists ws; split_and!; auto.
  - unfold ws; rewrite Hd; reflexivity.
  - unfold enroll_path; rewrite Base_plain, <- Hp, <- chars_app by exact Hs; reflexivity.
  - unfold enroll_path; rewrite Base_plain, <- chars_app by exact Hs; reflexivity.
Qed.

(** ** Concrete runs *)

Section Sample.
#[local] Existing Instance echo_emulator.
#[local] Existing Instance log_bolt.

(** Requests carry the name and the key as their bytes. *)
#[local] Instance toy_x509 : X509 := {
  CertKey := string;
  CA := string;
  ParseCertificateRequest b := inr (MkCSR "ci" [] [] (string_of_bytes b));
  CheckSignature _ := None;
  ParsePKIXPublicKey b := inr (Some (string_of_bytes b));
  CreateCertificate t ca key := inr (bytes_of_string (tm_Subject t +:+ "/" +:+ key));
  EncodeToMemory b := b;
  parsePEMCert b := inr 0;
}.

Definition toy_answers : enroll_answers :=
  MkEnrollAnswers Minute Renamed (inr "ca"%string) (inr 1) (inr []) (inr []) None KeyWritten.

Definition toy_enrollment (keys : gmap string string) : EnrollmentServer (S := BoltSessionStore) :=
  MkEnrollment sample_server
    (Some (MkStore NoFile {["brg_enroll_00" := sample_token; "brg_enroll_01" := second_token]}%string))
    (Some (MkVerifier "bridge" 0 keys)) "/certs" ∅.

Definition toy_request (token key : string) : EnrollClientRequest :=
  MkEnrollRequest token (bytes_of_string "csr") (bytes_of_string key).

Lemma enrollment_sound_witness :
  let '(s', r) := EnrollClient (toy_request "brg_enroll_00" "k1") toy_answers (toy_enrollment ∅) in
  jwtVerifier s' = Some (MkVerifier "bridge" 0 {["ci" := "k1"]}%string) /\
  exists st tok, enrollStore s' = Some st /\ tokens st !! "brg_enroll_00"%string = Some tok /\ Used tok = true.
Proof.
  destruct (EnrollClient (toy_request "brg_enroll_00" "k1") toy_answers (toy_enrollment ∅)) as [s' r] eqn:Er.
  pose proof (enrollment_sound _ _ _ _ _ Er) as H.
  assert (Hr : match r with Reply _ => true | _ => false end = true).
  { change r with (snd (s', r)); rewrite <- Er; vm_compute; reflexivity. }
  destruct r as [resp|st|w]; [|discriminate..].
  destruct H as (st & st' & tok & csr & edKey & ca & serial & der & H1 & H2 & H3 & H4 & H5 & H6 & _ & _ & H7 & _ & _ & _ & Hk & Hj & _).
  injection Hk as <-; simpl in H1; injection H1 as <-; vm_compute in H3; injection H3 as <-.
  split; [rewrite Hj; reflexivity|]; exists st', (put_used true sample_token); split; [exact H2|].
  rewrite H6; split; [apply lookup_insert_eq | reflexivity].
Defined.

Definition toy_peer : Context := MkContext None (Some (TLSInfo ["ci"%string])) None.

Lemma register_own_key_witness :
  let '(s', r) := RegisterJWTKey toy_peer (MkRegister "" (bytes_of_string "k2")) toy_answers (toy_enrollment {["ci" := "k1"; "ops" := "k0"]}%string) in
  r = Reply "ci"%string /\ exists v, jwtVerifier s' = Some v /\ Keys v !! "ops"%string = Some "k0"%string.
Proof.
  destruct (RegisterJWTKey toy_peer (MkRegister "" (bytes_of_string "k2")) toy_answers (toy_enrollment {["ci" := "k1"; "ops" := "k0"]}%string)) as [s' r] eqn:Er.
  pose proof (register_own_key _ _ _ _ _ _ Er) as H.
  assert (Hr : r = Reply "ci"%string) by (change r with (snd (s', r)); rewrite <- Er; vm_compute; reflexivity).
  split; [exact Hr|]; subst r; destruct H as (_ & _ & _ & v & edKey & Hv & Hj & _ & Ho & _).
  injection Hv as <-; exists (AddKey (MkVerifier "bridge" 0 {["ci" := "k1"; "ops" := "k0"]}%string) "ci" edKey); split; [exact Hj|].
  rewrite Ho by discriminate; reflexivity.
Defined.

Lemma key_file_confined_witness :
  exists ws, enroll_path "ci.example" "/var/../etc/certs" = SEP :: join_path (ws ++ [chars "jwt-clients"; chars "ci.example" ++ chars ".pub"])
    /\ ws = [chars "etc"; chars "certs"].
Proof.
  destruct (key_file_confined "/var/../etc/certs" "ci.example" (chars "var/../etc/certs")) as (ws & Hc & Hw & Hp & _); [reflexivity..|].
  exists ws; split; [exact Hp|]; apply join_path_inj; [exact Hw | | injection Hc as Hc; symmetry; exact Hc].
  assert (K : forall w, bool_decide (SEP ∉ w) = true -> w <> [] -> w <> DOT -> w <> DOTDOT -> component w).
  { intros w H; bool_to_prop; repeat split; assumption. }
  constructor; [apply K; vm_compute; congruence|]; constructor; [apply K; vm_compute; congruence | constructor].
Defined.

(** A registration that replaces a key and whose write is cut short: the daemon
    still verifies with the old key, the file that the next start reads holds
    none. *)
Definition cut_answers : enroll_answers :=
  MkEnrollAnswers Minute Renamed (inr "ca"%string) (inr 1) (inr []) (inr []) None (KeyCut "no space left on device").

Definition registered : EnrollmentServer (S := BoltSessionStore) :=
  fst (RegisterJWTKey toy_peer (MkRegister "" (bytes_of_string "k1")) toy_answers (toy_enrollment ∅)).

Definition cut_short : EnrollmentServer (S := BoltSessionStore) * reply string :=
  RegisterJWTKey toy_peer (MkRegister "" (bytes_of_string "k2")) cut_answers registered.

Lemma cut_registration_loses_key :
  key_files registered !! pub_path "/certs" "ci" = Some (KeyFile "k1"%string) /\
  snd cut_short = Fail (MkStatus Internal "write JWT public key") /\
  option_map Keys (jwtVerifier (fst cut_short)) = Some {["ci" := "k1"]}%string /\
  key_files (fst cut_short) !! pub_path "/certs" "ci" = Some TornKey.
Proof. repeat split; vm_compute; reflexivity. Qed.

(** Two enrollments for one identity that overlap: both find the issuer without a
    key before either adds one, and the second replaces the key of the first. *)
Lemma overlapping_enrollments_replace_key :
  let s0 := toy_enrollment ∅ in
  let path := enroll_path "ci" in
  exists s1 s2,
    enroll_issuer "ci" s0 = (s0, Reply tt) /\
    EnrollClient (toy_request "brg_enroll_01" "k2") toy_answers s0 = (s1, Reply (MkEnrollResponse (bytes_of_string "ci/csr") [] "ci" "ci" (Some 0))) /\
    option_map Keys (jwtVerifier s1) = Some {["ci" := "k2"]}%string /\
    store_key path "ci" "k1"%string toy_answers s1 = (s2, Reply tt) /\
    option_map Keys (jwtVerifier s2) = Some {["ci" := "k1"]}%string.
Proof. eexists _, _; repeat split; vm_compute; reflexivity. Qed.
End Sample.
