(* ===== verification/Command.v ===== *)
(** * Remote commands: internal/bridgecontrol/command.go

    A command of the control plane is checked, claimed in a ledger on disk,
    dispatched to the supervisor, and its result recorded.  [executeCommand] is
    serialised by [commandMu], so a run is a sequence of executions; the process
    can be killed at any point of one, and the ledger is what survives.

    The dispatch functions are the ones internal/localserver/reporting.go
    installs, over the operations of Respond. *)

From S2P Require Import Prelude Types ByteBuf GoStd Policy Registry Screen Store Session Supervisor Reach Respond.

Record Command := MkCommand {
  cmd_ID : string;
  cmd_OrganizationID : string;
  cmd_InstallationID : string;
  cmd_SessionID : string;
  cmd_UserID : string;
  cmd_Action : string;
  cmd_PendingRequestID : string;
  cmd_ExpiresAt : Time;
  cmd_Text : string;
  cmd_Decision : string;
}.

Record CommandResult := MkResult { cr_ID : string; cr_Status : string; cr_Code : string }.

Record commandRecord := MkRecord { rec_Fingerprint : string; rec_Result : CommandResult }.

Definition validCommandPayload (cmd : Command) : bool :=
  let text_ok := match ValidateResponse (cmd_Text cmd) with None => true | Some _ => false end in
  if str_eqb (cmd_Action cmd) "instruct" then
    str_eqb (cmd_PendingRequestID cmd) "" && str_eqb (cmd_Decision cmd) "" && text_ok
  else if str_eqb (cmd_Action cmd) "respond" then str_eqb (cmd_Decision cmd) "" && text_ok
  else str_eqb (cmd_Action cmd) "approve" && str_eqb (cmd_Text cmd) "" &&
       (str_eqb (cmd_Decision cmd) "accept" || str_eqb (cmd_Decision cmd) "cancel").

(** ** The ledger *)

(** A file of the ledger directory: a record, or text that is none. *)
Inductive ledger_file := Recorded (r : commandRecord) | Garbled.

(** The directory: the file of each command identifier, the temporary files left
    behind, and how many other entries there are. *)
Record ledger := MkLedger {
  lg_files : gmap string ledger_file;
  lg_tmps : gset string;
  lg_others : Z;
}.

Definition entries (l : ledger) : Z := zlen (map_to_list (lg_files l)) + zlen (elements (lg_tmps l)) + lg_others l.

(** How far a write gets: no file, a file whose text is whole or not, or all the
    way including the sync of the directory. *)
Inductive written := NotCreated | Created (whole : bool) | Synced.

(** [writeCommandRecord] with [claim] set: the file must not exist yet. *)
Definition write_claim (l : ledger) (id : string) (r : commandRecord) (w : written) : ledger * bool :=
  match lg_files l !! id, w with
  | Some _, _ | None, NotCreated => (l, false)
  | None, Created whole => (MkLedger (<[id := if whole then Recorded r else Garbled]> (lg_files l)) (lg_tmps l) (lg_others l), false)
  | None, Synced => (MkLedger (<[id := Recorded r]> (lg_files l)) (lg_tmps l) (lg_others l), true)
  end.

(** How far the second write gets: nothing, a temporary file that stays, or the
    rename over the claim. *)
Inductive replaced := NoTemp | TempLeft | RenamedOver.

(** [writeCommandRecord] without [claim]: a temporary file, which must not exist
    either, renamed over the claim.  Its error is ignored by the caller. *)
Definition write_result (l : ledger) (id : string) (r : commandRecord) (w : replaced) : ledger :=
  if decide (id ∈ lg_tmps l) then l
  else match w with
       | NoTemp => l
       | TempLeft => MkLedger (lg_files l) ({[id]} ∪ lg_tmps l) (lg_others l)
       | RenamedOver => MkLedger (<[id := Recorded r]> (lg_files l)) (lg_tmps l) (lg_others l)
       end.

(** ** Execution *)

Section Command.
Context `{E : Emulator} `{S : SessionStore}.

(** [uuid.Parse] followed by [String]: the canonical form of an identifier. *)
Context (uuid_String : string -> option string).

(** HMAC-SHA256 under the credential of the JSON text of a command, in hexadecimal. *)
Context (hmac_hex : string -> Command -> string).

(** Configuration and identity of the client.  A [false] is a nil function. *)
Record CommandConfig := MkCommandConfig {
  cc_CommandPath : string;
  cc_Credential : string;
  cc_organizationID : string;
  cc_installationID : string;
  cc_InstructionFunc : bool;
  cc_RespondFunc : bool;
  cc_ApprovalFunc : bool;
}.

(** Where the process is killed, if it is: before the claim is written to the end,
    after it and before the provider is called, while or after it is called. *)
Inductive killed := Survives | KilledInClaim | KilledBeforeDispatch | KilledAfterDispatch.

(** What the world does during one execution.  [cw_read]: an error of reading the
    ledger file other than that it does not exist. *)
Record command_world := MkCommandWorld {
  cw_read : bool;
  cw_now1 : Time;
  cw_now2 : Time;
  cw_mkdir : bool;
  cw_readdir : bool;
  cw_claim : written;
  cw_supervisor : option Supervisor;
  cw_result : replaced;
  cw_killed : killed;
}.

(** The functions of reporting.go. *)
Definition dispatch_func (action : string) (sup : option Supervisor) (sessionID pendingID value : string) : dispatch :=
  match sup with
  | None => Refused (Sentinel ErrSessionNotFound)
  | Some sup =>
      if str_eqb action "instruct" then SendInstruction sup sessionID value
      else if str_eqb action "approve" then DecideApproval sup sessionID pendingID value
      else RespondToInput sup sessionID pendingID value
  end.

Definition dispatch_error (d : dispatch) : option error :=
  match d with Refused e => Some e | Dispatched a => a end.

Definition rejected (id code : string) : CommandResult := MkResult id "rejected" code.
Definition unknown (id : string) : CommandResult := MkResult id "unknown" "delivery_unknown".

(** The [switch] on the error of the dispatch. *)
Definition command_result (id : string) (err : option error) : CommandResult :=
  match err with
  | None => MkResult id "accepted" ""
  | Some e =>
      if errors_Is e ErrWriterConflict then rejected id "writer_conflict"
      else if errors_Is e ErrPendingRequestMismatch then rejected id "pending_request_mismatch"
      else if errors_Is e ErrSessionNotFound || errors_Is e ErrSessionNotRunning || errors_Is e ErrSessionRecoveryUnavailable
      then rejected id "session_unavailable"
      else if errors_Is e ErrRemoteResponseUnsupported then rejected id "unsupported"
      else unknown id
  end.

(** The condition under which a command is malformed. *)
Definition malformed (cmd : Command) : bool :=
  match uuid_String (cmd_ID cmd) with None => true | Some s => negb (str_eqb s (cmd_ID cmd)) end ||
  str_eqb (cmd_UserID cmd) "" || (256 <? slen (cmd_UserID cmd)) ||
  str_eqb (cmd_SessionID cmd) "" || (256 <? slen (cmd_SessionID cmd)) ||
  (negb (str_eqb (cmd_Action cmd) "instruct") && str_eqb (cmd_PendingRequestID cmd) "") ||
  (256 <? slen (cmd_PendingRequestID cmd)) || negb (validCommandPayload cmd).

Definition has_dispatch (cfg : CommandConfig) (action : string) : bool :=
  if str_eqb action "approve" then cc_ApprovalFunc cfg
  else if str_eqb action "instruct" then cc_InstructionFunc cfg
  else cc_RespondFunc cfg.

Definition command_value (cmd : Command) : string :=
  if str_eqb (cmd_Action cmd) "approve" then cmd_Decision cmd else cmd_Text cmd.

(** What one execution does: the answer (none when the process is killed) and
    what the provider was asked and said, if it was asked. *)
Record execution := MkExecution {
  ex_answer : option CommandResult;
  ex_dispatch : option dispatch;
}.

Definition answer (r : CommandResult) : execution := MkExecution (Some r) None.

(** From the claim on. *)
Definition claimAndDispatch (cfg : CommandConfig) (l : ledger) (cmd : Command) (fingerprint : string) (w : command_world)
    : ledger * execution :=
  let id := cmd_ID cmd in
  let record := MkRecord fingerprint (unknown id) in
  let '(l, ok) := write_claim l id record (cw_claim w) in
  match cw_killed w with
  | KilledInClaim => (l, MkExecution None None)
  | k =>
      if negb ok then (l, answer (rejected id "ledger_unavailable"))
      else match k with
           | KilledBeforeDispatch => (l, MkExecution None None)
           | _ =>
               let d := dispatch_func (cmd_Action cmd) (cw_supervisor w) (cmd_SessionID cmd) (cmd_PendingRequestID cmd) (command_value cmd) in
               let result := command_result id (dispatch_error d) in
               match k with
               | KilledAfterDispatch =>
                   (* killed while the result is written, or before *)
                   (write_result l id (MkRecord fingerprint result) (cw_result w), MkExecution None (Some d))
               | _ => (write_result l id (MkRecord fingerprint result) (cw_result w), MkExecution (Some result) (Some d))
               end
           end
  end.

Definition executeCommand (cfg : CommandConfig) (l : ledger) (cmd : Command) (w : command_world) : ledger * execution :=
  let id := cmd_ID cmd in
  if malformed cmd then (l, answer (rejected id "invalid_command"))
  else if negb (str_eqb (cmd_OrganizationID cmd) (cc_organizationID cfg)) ||
          negb (str_eqb (cmd_InstallationID cmd) (cc_installationID cfg))
  then (l, answer (rejected id "wrong_installation"))
  else if negb (has_dispatch cfg (cmd_Action cmd)) || str_eqb (cc_CommandPath cfg) ""
  then (l, answer (rejected id "unsupported"))
  else
    let fingerprint := hmac_hex (cc_Credential cfg) cmd in
    if cw_read w then (l, answer (rejected id "ledger_unavailable"))
    else match lg_files l !! id with
         | Some Garbled => (l, answer (rejected id "ledger_unavailable"))
         | Some (Recorded previous) =>
             if negb (str_eqb (rec_Fingerprint previous) fingerprint) then (l, answer (rejected id "idempotency_conflict"))
             else (l, answer (rec_Result previous))
         | None =>
             if (cmd_ExpiresAt cmd <? cw_now1 w) || (cw_now2 w + 30 * Second <? cmd_ExpiresAt cmd)
             then (l, answer (rejected id "expired"))
             else if cw_mkdir w then (l, answer (rejected id "ledger_unavailable"))
             else if cw_readdir w || (10000 <=? entries l) then (l, answer (rejected id "ledger_full"))
             else claimAndDispatch cfg l cmd fingerprint w
         end.

(** ** Runs *)

(** One execution of a run: the command, what happened during it, and its effect. *)
Record happened := MkHappened { hp_cmd : Command; hp_exec : execution }.

(** A run over commands in the order in which they are executed, by this process
    and by the ones that follow it on the same directory. *)
Fixpoint command_run (cfg : CommandConfig) (l : ledger) (cmds : list (Command * command_world)) : ledger * list happened :=
  match cmds with
  | [] => (l, [])
  | (cmd, w) :: cmds =>
      let '(l, x) := executeCommand cfg l cmd w in
      let '(l, h) := command_run cfg l cmds in
      (l, MkHappened cmd x :: h)
  end.

(** The dispatches of a run with the identifier they were for. *)
Definition dispatches (h : list happened) : list (string * dispatch) :=
  omap (fun x => match ex_dispatch (hp_exec x) with Some d => Some (cmd_ID (hp_cmd x), d) | None => None end) h.

(** ** Facts about one execution *)

Definition recorded_ok (log : list (string * dispatch)) (id : string) (r : commandRecord) : Prop :=
  rec_Result r = unknown id \/ exists d, (id, d) ∈ log /\ rec_Result r = command_result id (dispatch_error d).

(** Every dispatched identifier has its file, and every recorded result other
    than an unknown delivery is what a dispatch of that identifier gave. *)
Record ledger_inv (log : list (string * dispatch)) (l : ledger) : Prop := {
  li_claimed : forall id, id ∈ log.*1 -> is_Some (lg_files l !! id);
  li_recorded : forall id r, lg_files l !! id = Some (Recorded r) -> recorded_ok log id r;
  li_once : NoDup log.*1;
}.

Lemma recorded_ok_app log log' id r : recorded_ok log id r -> recorded_ok (log ++ log') id r.
Proof. intros [H|(d & Hd & H)]; [left | right; exists d]; auto; split; [apply elem_of_app|]; auto. Qed.

(** The three ways an execution ends: it stops before the claim; it stops in or
    right after the claim; it dispatches. *)
Inductive exec_case (cfg : CommandConfig) (l : ledger) (cmd : Command) (w : command_world) : ledger * execution -> Prop :=
| ExecRefused code :
    exec_case cfg l cmd w (l, answer (rejected (cmd_ID cmd) code))
| ExecReplayed r :
    lg_files l !! cmd_ID cmd = Some (Recorded r) -> rec_Fingerprint r = hmac_hex (cc_Credential cfg) cmd ->
    exec_case cfg l cmd w (l, answer (rec_Result r))
| ExecClaimOnly l' x f :
    lg_files l !! cmd_ID cmd = None -> ex_dispatch x = None ->
    (ex_answer x = None \/ ex_answer x = Some (rejected (cmd_ID cmd) "ledger_unavailable")) ->
    (f = Garbled \/ f = Recorded (MkRecord (hmac_hex (cc_Credential cfg) cmd) (unknown (cmd_ID cmd)))) ->
    (l' = l \/ l' = MkLedger (<[cmd_ID cmd := f]> (lg_files l)) (lg_tmps l) (lg_others l)) ->
    exec_case cfg l cmd w (l', x)
| ExecDispatched d l' a r :
    lg_files l !! cmd_ID cmd = None ->
    d = dispatch_func (cmd_Action cmd) (cw_supervisor w) (cmd_SessionID cmd) (cmd_PendingRequestID cmd) (command_value cmd) ->
    (a = None \/ a = Some (command_result (cmd_ID cmd) (dispatch_error d))) ->
    (r = unknown (cmd_ID cmd) \/ r = command_result (cmd_ID cmd) (dispatch_error d)) ->
    lg_files l' = <[cmd_ID cmd := Recorded (MkRecord (hmac_hex (cc_Credential cfg) cmd) r)]> (lg_files l) ->
    exec_case cfg l cmd w (l', MkExecution a (Some d)).

Lemma write_result_files l id r w :
  lg_files (write_result l id r w) = lg_files l \/ lg_files (write_result l id r w) = <[id := Recorded r]> (lg_files l).
Proof. unfold write_result; destruct (decide _); [auto|]; destruct w; auto. Qed.

Lemma claim_case cfg l cmd w :
  lg_files l !! cmd_ID cmd = None ->
  exec_case cfg l cmd w (claimAndDispatch cfg l cmd (hmac_hex (cc_Credential cfg) cmd) w).
Proof.
  intros Hn; unfold claimAndDispatch, write_claim; rewrite Hn.
  set (claim := Recorded (MkRecord (hmac_hex (cc_Credential cfg) cmd) (unknown (cmd_ID cmd)))).
  destruct (cw_claim w) as [|whole|].
  - destruct (cw_killed w); apply (ExecClaimOnly _ _ _ _ _ _ Garbled); simpl; auto.
  - destruct (cw_killed w), whole; simpl;
      first [ apply (ExecClaimOnly _ _ _ _ _ _ claim); solve [simpl; auto]
            | apply (ExecClaimOnly _ _ _ _ _ _ Garbled); solve [simpl; auto] ].
  - set (l1 := MkLedger _ (lg_tmps l) (lg_others l)).
    assert (K : forall d a, d = dispatch_func (cmd_Action cmd) (cw_supervisor w) (cmd_SessionID cmd) (cmd_PendingRequestID cmd) (command_value cmd) ->
      (a = None \/ a = Some (command_result (cmd_ID cmd) (dispatch_error d))) ->
      exec_case cfg l cmd w (write_result l1 (cmd_ID cmd) (MkRecord (hmac_hex (cc_Credential cfg) cmd)
        (command_result (cmd_ID cmd) (dispatch_error d))) (cw_result w), MkExecution a (Some d))).
    { intros d a Hd Ha; match goal with |- exec_case _ _ _ _ (write_result l1 ?i ?r ?x, _) =>
        destruct (write_result_files l1 i r x) as [Hf|Hf] end; (eapply ExecDispatched; [eassumption..| |rewrite Hf]).
      - left; reflexivity.
      - reflexivity.
      - right; reflexivity.
      - apply insert_insert_eq. }
    destruct (cw_killed w); simpl; try (apply K; auto; fail); apply (ExecClaimOnly _ _ _ _ _ _ claim); simpl; auto.
Qed.

Lemma executeCommand_case cfg l cmd w : exec_case cfg l cmd w (executeCommand cfg l cmd w).
Proof.
  unfold executeCommand; repeat (case_match; try apply ExecRefused); bool_to_prop.
  - apply ExecReplayed; assumption.
  - apply claim_case; assumption.
Qed.

Lemma execute_inv cfg l cmd w log :
  ledger_inv log l ->
  let '(l', x) := executeCommand cfg l cmd w in
  ledger_inv (log ++ dispatches [MkHappened cmd x]) l'.
Proof.
  intros I; destruct (executeCommand_case cfg l cmd w); unfold dispatches; simpl; rewrite ?app_nil_r; try exact I.
  - destruct x as [a [d|]]; [discriminate|]; rewrite ?app_nil_r; destruct H3 as [->| ->]; [exact I|].
    destruct I as [I1 I2 I3]; split; simpl; auto.
    + intros id Hid; destruct (decide (id = cmd_ID cmd)) as [->|Hn]; [rewrite lookup_insert_eq; eauto|].
      rewrite lookup_insert_ne by congruence; auto.
    + intros id r; destruct (decide (id = cmd_ID cmd)) as [->|Hn].
      * rewrite lookup_insert_eq; intros [= ->]; destruct H2 as [?|H2]; [discriminate|]; injection H2 as ->; left; reflexivity.
      * rewrite lookup_insert_ne by congruence; auto.
  - destruct I as [I1 I2 I3]; split.
    + intros id; rewrite H3, fmap_app; intros [Hid|Hid]%elem_of_app.
      * destruct (decide (id = cmd_ID cmd)) as [->|Hn]; [rewrite lookup_insert_eq; eauto|].
        rewrite lookup_insert_ne by congruence; auto.
      * apply list_elem_of_singleton in Hid as ->; simpl; rewrite lookup_insert_eq; eauto.
    + intros id rc; rewrite H3; destruct (decide (id = cmd_ID cmd)) as [->|Hn].
      * rewrite lookup_insert_eq; intros [= <-]; unfold recorded_ok; simpl.
        destruct H2 as [->| ->]; [auto | right; exists d; split; [apply elem_of_app; right; left | reflexivity]].
      * rewrite lookup_insert_ne by congruence; intros Hr; apply recorded_ok_app; auto.
    + rewrite fmap_app; apply list.NoDup_app; split; [exact I3|]; split; [|apply NoDup_singleton].
      intros id Hid ->%list_elem_of_singleton; destruct (I1 _ Hid) as [f Hf]; simpl in Hf; congruence.
Qed.

Lemma dispatches_app a b : dispatches (a ++ b) = dispatches a ++ dispatches b.
Proof. apply omap_app. Qed.

Lemma command_run_inv cfg cmds l log :
  ledger_inv log l -> let '(l', h) := command_run cfg l cmds in ledger_inv (log ++ dispatches h) l'.
Proof.
  revert l log; induction cmds as [|[cmd w] cmds IH]; intros l log I; simpl; [rewrite app_nil_r; exact I|].
  pose proof (execute_inv cfg l cmd w log I) as I1; destruct (executeCommand cfg l cmd w) as [l1 x].
  specialize (IH _ _ I1); destruct (command_run cfg l1 cmds) as [l2 h].
  rewrite <- app_assoc, <- dispatches_app in IH; exact IH.
Qed.

Lemma empty_inv l : lg_files l = ∅ -> ledger_inv [] l.
Proof.
  intros H; split.
  - intros id Hid; apply elem_of_nil in Hid; contradiction.
  - intros id r; rewrite H, lookup_empty; discriminate.
  - apply NoDup_nil_2.
Qed.

(** What an answer says about the provider. *)
Definition told (log : list (string * dispatch)) (cmd : Command) (r : CommandResult) : Prop :=
  r = unknown (cmd_ID cmd) \/ cr_Status r = "rejected"%string \/
  exists d, (cmd_ID cmd, d) ∈ log /\ r = command_result (cmd_ID cmd) (dispatch_error d).

Lemma answer_told cfg l cmd w log r :
  ledger_inv log l ->
  let '(l', x) := executeCommand cfg l cmd w in
  ex_answer x = Some r -> told (log ++ dispatches [MkHappened cmd x]) cmd r.
Proof.
  intros I; destruct (executeCommand_case cfg l cmd w); unfold dispatches; simpl; rewrite ?app_nil_r.
  - intros [= <-]; right; left; reflexivity.
  - intros [= <-]; destruct (li_recorded _ _ I _ _ H) as [K|(d & Hd & K)]; [left | right; right; exists d]; auto.
  - intros Ha; destruct H1 as [H1|H1]; rewrite Ha in H1; [discriminate|]; injection H1 as ->; right; left; reflexivity.
  - intros Ha; destruct H1 as [H1|H1]; rewrite Ha in H1; [discriminate|]; injection H1 as ->.
    right; right; exists d; split; [apply elem_of_app; right; left | reflexivity].
Qed.

Lemma told_app log log' cmd r : told log cmd r -> told (log ++ log') cmd r.
Proof.
  intros [H|[H|(d & Hd & H)]]; [left; exact H | right; left; exact H | right; right; exists d; split; [apply elem_of_app; auto | exact H]].
Qed.

Lemma run_told cfg cmds l log :
  ledger_inv log l -> let '(_, h) := command_run cfg l cmds in
  Forall (fun x => forall r, ex_answer (hp_exec x) = Some r -> told (log ++ dispatches h) (hp_cmd x) r) h.
Proof.
  revert l log; induction cmds as [|[cmd w] cmds IH]; intros l log I; simpl; [constructor|].
  pose proof (execute_inv cfg l cmd w log I) as I1.
  pose proof (fun r => answer_told cfg l cmd w log r I) as A1.
  destruct (executeCommand cfg l cmd w) as [l1 x].
  specialize (IH _ _ I1); destruct (command_run cfg l1 cmds) as [l2 h].
  change (MkHappened cmd x :: h) with ([MkHappened cmd x] ++ h); rewrite dispatches_app, app_assoc.
  constructor; [|exact IH]; intros r Hr; apply told_app, A1, Hr.
Qed.
End Command.

(** ** Theorems *)

(** C14. A remote command reaches the session at most once, and what is answered
    about it is true.  Take any sequence of executions on one ledger directory,
    with repeated and conflicting commands, failing reads and writes, and the
    process killed anywhere, restarted and continued.  No command identifier is
    dispatched twice.  Every answer other than a rejection or "unknown" is the
    outcome of the one dispatch of that identifier; in particular "accepted"
    means that the provider was called for it, once, and took it. *)
Theorem command_at_most_once `{E : Emulator} `{S : SessionStore} (uuid_String : string -> option string)
    (hmac_hex : string -> Command -> string) (cfg : CommandConfig) (l : ledger) (cmds : list (Command * command_world)) :
  lg_files l = ∅ ->
  let h := (command_run uuid_String hmac_hex cfg l cmds).2 in
  NoDup (dispatches h).*1 /\
  Forall (fun x => forall r, ex_answer (hp_exec x) = Some r ->
    r = unknown (cmd_ID (hp_cmd x)) \/ cr_Status r = "rejected"%string \/
    exists d, (cmd_ID (hp_cmd x), d) ∈ dispatches h /\ d = Dispatched None /\ r = MkResult (cmd_ID (hp_cmd x)) "accepted" "") h.
Proof.
  intros Hl h; pose proof (command_run_inv uuid_String hmac_hex cfg cmds l [] (empty_inv l Hl)) as I.
  pose proof (run_told uuid_String hmac_hex cfg cmds l [] (empty_inv l Hl)) as T.
  subst h; destruct (command_run uuid_String hmac_hex cfg l cmds) as [l' h]; simpl in *.
  split; [apply (li_once _ _ I)|].
  eapply Forall_impl; [|exact T]; intros x Hx r Hr; destruct (Hx r Hr) as [H|[H|(d & Hd & H)]]; auto.
  destruct d as [e|[e|]]; simpl in H; [| |right; right; exists (Dispatched None); auto];
    subst r; unfold rejected; repeat case_match; auto.
Qed.

(** Repeating a command is harmless and answers the same: once an execution has
    answered and its result was recorded, every later execution of the same
    command, at any time, answers that result, dispatches nothing and leaves the
    ledger alone; a different command under the same identifier is refused. *)
Theorem command_replay_stable `{E : Emulator} `{S : SessionStore} (uuid_String : string -> option string)
    (hmac_hex : string -> Command -> string) (cfg : CommandConfig) (l l' : ledger) (cmd : Command) (w w' : command_world)
    (r : CommandResult) (d : dispatch) :
  executeCommand uuid_String hmac_hex cfg l cmd w = (l', MkExecution (Some r) (Some d)) ->
  cw_result w = RenamedOver -> cmd_ID cmd ∉ lg_tmps l -> cw_read w' = false ->
  executeCommand uuid_String hmac_hex cfg l' cmd w' = (l', answer r) /\
  forall other, cmd_ID other = cmd_ID cmd -> hmac_hex (cc_Credential cfg) other <> hmac_hex (cc_Credential cfg) cmd ->
    exists code, executeCommand uuid_String hmac_hex cfg l' other w' = (l', answer (rejected (cmd_ID other) code)).
Proof.
  intros H Hw Ht Hr'.
  assert (K : lg_files l' !! cmd_ID cmd = Some (Recorded (MkRecord (hmac_hex (cc_Credential cfg) cmd) r)) /\
    malformed uuid_String cmd = false /\
    negb (str_eqb (cmd_OrganizationID cmd) (cc_organizationID cfg)) || negb (str_eqb (cmd_InstallationID cmd) (cc_installationID cfg)) = false /\
    negb (has_dispatch cfg (cmd_Action cmd)) || str_eqb (cc_CommandPath cfg) "" = false).
  { unfold executeCommand in H; repeat (case_match; try discriminate); split_and!; auto.
    unfold claimAndDispatch, write_claim in H; rewrite H4 in H.
    destruct (cw_claim w); [destruct (cw_killed w); discriminate | destruct (cw_killed w), whole; discriminate|].
    rewrite Hw in H; unfold write_result in H; cbn [lg_tmps lg_files lg_others] in H; rewrite decide_False in H by exact Ht.
    destruct (cw_killed w); try discriminate; injection H as <- <- _; apply lookup_insert_eq. }
  destruct K as (Kf & K1 & K2 & K3); split.
  - unfold executeCommand; rewrite K1, K2, K3, Hr', Kf; simpl; rewrite str_eqb_refl; reflexivity.
  - intros other Hid Hf; unfold executeCommand; rewrite Hr', Hid, Kf; simpl.
    assert (Ne : str_eqb (hmac_hex (cc_Credential cfg) cmd) (hmac_hex (cc_Credential cfg) other) = false)
      by (apply str_eqb_neq; congruence).
    rewrite Ne; repeat case_match; eauto; discriminate.
Qed.

(** The ledger never shrinks and holds at most one entry more than the limit and
    one temporary file for it. *)
Lemma ledger_bounded `{E : Emulator} `{S : SessionStore} uuid_String hmac_hex cfg l cmd w :
  (executeCommand uuid_String hmac_hex cfg l cmd w).1 = l \/ entries l < 10000.
Proof.
  unfold executeCommand; repeat (case_match; try (left; reflexivity)); right; bool_to_prop; lia.
Qed.

(** ** Concrete runs *)

Section Sample.
#[local] Existing Instance echo_emulator.
#[local] Existing Instance log_bolt.

Definition taking_provider : Provider :=
  MkProvider "echo" Second None None (fun _ => None) None None None None None (Some (fun _ _ => None)).

Definition command_state : Supervisor (S := BoltSessionStore) :=
  sample_state [OpRegister (sample_cfg "s1") taking_provider 7 10].

Definition sample_command (text : string) : Command :=
  MkCommand "123e4567-e89b-12d3-a456-426614174000" "org" "inst" "s1" "u1" "instruct" "" (20 * Second) text "".

Definition sample_config : CommandConfig := MkCommandConfig "/state/commands" "secret" "org" "inst" true true true.

Definition toy_hmac (key : string) (cmd : Command) : string := key +:+ cmd_Text cmd.

Definition calm (now : Time) (k : killed) : command_world (S := BoltSessionStore) :=
  MkCommandWorld false now now false false Synced (Some command_state) RenamedOver k.

Definition empty_ledger : ledger := MkLedger ∅ ∅ 0.

(** Killed after the dispatch, then repeated twice: one dispatch, and the answers
    say that it was taken. *)
Lemma command_at_most_once_witness :
  let cmds := [(sample_command "go", calm Second KilledAfterDispatch); (sample_command "go", calm (2 * Second) Survives);
               (sample_command "stop", calm (3 * Second) Survives)] in
  let h := (command_run Some toy_hmac sample_config empty_ledger cmds).2 in
  NoDup (dispatches h).*1 /\ map (fun x => option_map cr_Code (ex_answer (hp_exec x))) h = [None; Some ""; Some "idempotency_conflict"]%string.
Proof.
  intros cmds h; split; [|vm_compute; reflexivity].
  exact (proj1 (command_at_most_once Some toy_hmac sample_config empty_ledger cmds eq_refl)).
Defined.

Lemma command_replay_stable_witness :
  let l' := (executeCommand Some toy_hmac sample_config empty_ledger (sample_command "go") (calm Second Survives)).1 in
  executeCommand Some toy_hmac sample_config l' (sample_command "go") (calm (900 * Second) Survives)
  = (l', answer (MkResult "123e4567-e89b-12d3-a456-426614174000" "accepted" "")).
Proof.
  refine (proj1 (command_replay_stable Some toy_hmac sample_config empty_ledger _ (sample_command "go") (calm Second Survives)
    (calm (900 * Second) Survives) _ (Dispatched None) _ _ _ _)); try reflexivity.
  apply not_elem_of_empty.
Defined.
End Sample.
