(* ===== verification/Control.v ===== *)
(** * Control client state: internal/bridgecontrol/backoff.go, revision.go, client.go, observer.go, protocol.go, status.go

    Reconnect delays, the durable revision counters, and the bounded queue of
    session notifications with its eviction.  The connection that drains the
    queue is in ControlConn. *)

From S2P Require Import Prelude Types.

(** ** Back-off (backoff.go) *)

Definition backoffBase : Duration := Second.
Definition backoffMax : Duration := 60 * Second.
Definition backoffMin : Duration := 250 * Millisecond.

Definition i64 (x : Z) : Z := (x + 9223372036854775808) mod two64 - 9223372036854775808.

(** [backoffDelay]; [int63n n] is the number the generator draws below [n]. *)
Definition backoffDelay (attempt : Z) (int63n : Z -> Z) : Duration :=
  let attempt := if attempt <? 1 then 1 else attempt in
  let shift := attempt - 1 in
  let shift := if 6 <? shift then 6 else shift in
  let exp := i64 (backoffBase * Z.shiftl 1 shift) in
  let exp := if backoffMax <? exp then backoffMax else exp in
  let d := int63n (exp + 1) in
  if d <? backoffMin then backoffMin else d.

(** ** Sessions as the control plane sees them (observer.go, protocol.go) *)

Definition StatusStarting : string := "starting".
Definition StatusRunning : string := "running".
Definition StatusAttached : string := "attached".
Definition StatusStopping : string := "stopping".
Definition StatusStopped : string := "stopped".
Definition StatusFailed : string := "failed".

Record SessionSnapshot := MkSnapshot {
  sn_SessionID : string;
  sn_Provider : string;
  sn_ProjectID : string;
  sn_Status : string;
  sn_CreatedAt : Time;
  sn_Interaction : Interaction;
}.

Definition sessionStatus (state : SessionState) : string :=
  match state with
  | SessionStateStarting => StatusStarting
  | SessionStateRunning => StatusRunning
  | SessionStateAttached => StatusAttached
  | SessionStateStopping => StatusStopping
  | SessionStateStopped => StatusStopped
  | SessionStateFailed => StatusFailed
  end.

Definition toSnapshot (info : SessionInfo) : SessionSnapshot :=
  MkSnapshot (info_SessionID info) (info_Provider info) (info_ProjectID info) (sessionStatus (info_State info))
    (info_CreatedAt info) (info_Interaction info).

Definition ActiveSnapshots (infos : list SessionInfo) : list SessionSnapshot :=
  omap (fun info =>
    match info_State info with
    | SessionStateStopped | SessionStateFailed => None
    | _ => Some (toSnapshot info)
    end) infos.

Definition terminal_status (st : string) : bool := str_eqb st StatusStopped || str_eqb st StatusFailed.

(** ** Revision counters (revision.go) *)

(** The persisted file: absent or unreadable, not a map of numbers (or null), or a
    map. *)
Inductive revision_file := NoRevisions | BadRevisions | Revisions (m : gmap string Z).

Record RevisionStore := MkRevisions {
  rs_path : string;
  rs_rev : gmap string Z;
  rs_file : revision_file;
}.

Definition NewRevisionStore (path : string) (f : revision_file) : RevisionStore :=
  MkRevisions path
    (if str_eqb path "" then ∅ else match f with Revisions m => m | NoRevisions | BadRevisions => ∅ end) f.

(** [persistLocked]; [ok]: the temporary file was written and renamed. *)
Definition persistLocked (rs : RevisionStore) (ok : bool) : RevisionStore :=
  if str_eqb (rs_path rs) "" then rs
  else if ok then MkRevisions (rs_path rs) (rs_rev rs) (Revisions (rs_rev rs)) else rs.

Definition Current (rs : RevisionStore) (sessionID : string) : Z := default 0 (rs_rev rs !! sessionID).

Definition Next (rs : RevisionStore) (sessionID : string) (ok : bool) : RevisionStore * Z :=
  let next := i64 (Current rs sessionID + 1) in
  (persistLocked (MkRevisions (rs_path rs) (<[sessionID := next]> (rs_rev rs)) (rs_file rs)) ok, next).

Definition Forget (rs : RevisionStore) (sessionID : string) (ok : bool) : RevisionStore :=
  match rs_rev rs !! sessionID with
  | None => rs
  | Some _ => persistLocked (MkRevisions (rs_path rs) (delete sessionID (rs_rev rs)) (rs_file rs)) ok
  end.

(** ** The queue of notifications (client.go) *)

Definition eventQueueSize : Z := 64.

(** An element of the linked list: its address and the identifier it holds. *)
Abbreviation element := (nat * string)%type.

Record queuedNotification := MkQueued {
  qn_position : nat;
  qn_info : SessionSnapshot;
  qn_enqueuedAt : Time;
}.

(** The fields of [Client] under [mu] and the two channels of capacity one.
    [q_alloc] is the address of the next list element. *)
Record Queue := MkQueue {
  pending : gmap string queuedNotification;
  pendingOrder : list element;
  q_alloc : nat;
  dirty : bool;
  reconcileCh : bool;
}.

Definition newQueue : Queue := MkQueue ∅ [] 0 false false.

(** [list.Remove] of the element at an address. *)
Definition list_Remove (pos : nat) (l : list element) : list element :=
  List.filter (fun e => negb (fst e =? pos)%nat) l.

Definition MoveToBack (pos : nat) (l : list element) : list element :=
  list_Remove pos l ++ List.filter (fun e => (fst e =? pos)%nat) l.

Definition scheduleReconcile (q : Queue) : Queue :=
  MkQueue (pending q) (pendingOrder q) (q_alloc q) (dirty q) true.

(** The eviction of the oldest entry.  The list is not empty when the map is
    full ([queue_wf]); an empty list would be a nil element whose value is read. *)
Definition evict_oldest (q : Queue) : option Queue :=
  match pendingOrder q with
  | [] => None
  | (pos, oldestID) :: _ =>
      Some (scheduleReconcile (MkQueue (delete oldestID (pending q)) (list_Remove pos (pendingOrder q)) (q_alloc q) (dirty q) (reconcileCh q)))
  end.

(** [Notify]; [None] is the panic of reading a nil list element. *)
Definition Notify (q : Queue) (info : SessionSnapshot) (now : Time) : option Queue :=
  let id := sn_SessionID info in
  let previous := pending q !! id in
  let full := match previous with None => eventQueueSize <=? zlen (map_to_list (pending q)) | Some _ => false end in
  match (if full then evict_oldest q else Some q) with
  | None => None
  | Some q =>
      let '(position, order, alloc) :=
        match previous with
        | Some p => (qn_position p, MoveToBack (qn_position p) (pendingOrder q), q_alloc q)
        | None => (q_alloc q, pendingOrder q ++ [(q_alloc q, id)], Datatypes.S (q_alloc q))
        end in
      Some (MkQueue (<[id := MkQueued position info now]> (pending q)) order alloc true (reconcileCh q))
  end.

(** [drainAllPending]: the entries in any order; this is one. *)
Definition drainAllPending (q : Queue) : Queue * list queuedNotification :=
  (MkQueue ∅ [] (q_alloc q) (dirty q) (reconcileCh q), map snd (map_to_list (pending q))).

(** ** Well-formed queues *)

(** The list holds each pending identifier once, at the address its entry has. *)
Record queue_wf (q : Queue) : Prop := {
  qw_order : forall pos id, (pos, id) ∈ pendingOrder q <-> exists n, pending q !! id = Some n /\ qn_position n = pos;
  qw_nodup : NoDup (pendingOrder q).*1;
  qw_alloc : forall pos id, (pos, id) ∈ pendingOrder q -> (pos < q_alloc q)%nat;
  qw_keyed : forall id n, pending q !! id = Some n -> sn_SessionID (qn_info n) = id;
  qw_bound : zlen (map_to_list (pending q)) <= eventQueueSize;
}.

Lemma newQueue_wf : queue_wf newQueue.
Proof.
  split; simpl; try (intros *; rewrite ?elem_of_nil, ?lookup_empty; naive_solver); [apply NoDup_nil_2|].
  rewrite map_to_list_empty; unfold zlen, eventQueueSize; simpl; lia.
Qed.

Lemma in_Remove pos l e : e ∈ list_Remove pos l <-> e ∈ l /\ fst e <> pos.
Proof.
  unfold list_Remove; rewrite !list_elem_of_In, filter_In, negb_true_iff, Nat.eqb_neq; reflexivity.
Qed.

Lemma in_MoveToBack pos l e : e ∈ MoveToBack pos l <-> e ∈ l.
Proof.
  unfold MoveToBack; rewrite elem_of_app, in_Remove, !list_elem_of_In, filter_In, Nat.eqb_eq.
  destruct (Nat.eq_dec (fst e) pos); naive_solver.
Qed.

Lemma Remove_nodup pos (l : list element) : NoDup l.*1 -> NoDup (list_Remove pos l).*1.
Proof.
  induction l as [|[p i] l IH]; [auto|]; cbn; intros [H1 H2]%list.NoDup_cons.
  destruct (p =? pos)%nat; cbn; [apply IH, H2|]; apply list.NoDup_cons; split; [|apply IH, H2].
  intros K; apply H1; apply list_elem_of_fmap in K as (e & -> & He); apply in_Remove in He as [He _].
  apply list_elem_of_fmap; eauto.
Qed.

(** Elements of a well-formed queue are determined by their identifier too. *)
Lemma wf_same_id q p1 p2 id :
  queue_wf q -> (p1, id) ∈ pendingOrder q -> (p2, id) ∈ pendingOrder q -> p1 = p2.
Proof. intros W H1 H2; apply (qw_order q W) in H1 as (n & ? & ?), H2 as (m & ? & ?); congruence. Qed.

Lemma wf_same_pos q p i j :
  queue_wf q -> (p, i) ∈ pendingOrder q -> (p, j) ∈ pendingOrder q -> i = j.
Proof.
  intros W; generalize (qw_nodup q W); generalize (pendingOrder q) as l; clear.
  induction l as [|[x y] l IH]; intros Hn H1 H2; [apply elem_of_nil in H1; contradiction|].
  cbn in Hn; apply list.NoDup_cons in Hn as [Hx Hn].
  assert (K : forall k, (x, k) ∈ l -> False).
  { intros k Hk; apply Hx, list_elem_of_fmap; exists (x, k); auto. }
  apply elem_of_cons in H1 as [H1|H1]; apply elem_of_cons in H2 as [H2|H2]; simplify_eq; auto; exfalso; eauto.
Qed.

Lemma wf_ids_nodup q : queue_wf q -> NoDup (pendingOrder q).*2.
Proof.
  intros W; assert (K : forall l, (forall p i, (p, i) ∈ l -> (p, i) ∈ pendingOrder q) -> NoDup l.*1 -> NoDup l.*2).
  { induction l as [|[p i] l IH]; intros Hs Hn; [apply NoDup_nil_2|]; cbn in *; apply list.NoDup_cons in Hn as [Hp Hn].
    apply list.NoDup_cons; split; [|apply IH; [intros; apply Hs; right; assumption | exact Hn]].
    intros Hi; apply list_elem_of_fmap in Hi as ([p' i'] & -> & Hi); simpl in *.
    assert (p = p') as -> by (eapply wf_same_id; [exact W | apply Hs; left | apply Hs; right; exact Hi]).
    apply Hp, list_elem_of_fmap; exists (p', i'); auto. }
  apply K; [auto | apply (qw_nodup q W)].
Qed.

(** As many elements as entries. *)
Lemma wf_length q : queue_wf q -> zlen (pendingOrder q) = zlen (map_to_list (pending q)).
Proof.
  intros W; unfold zlen; f_equal.
  rewrite <- (length_map snd (pendingOrder q)), <- (length_map fst (map_to_list (pending q))).
  apply Permutation_length, NoDup_Permutation; [apply wf_ids_nodup, W | apply NoDup_fst_map_to_list|].
  intros id; rewrite !list_elem_of_fmap; split.
  - intros ([p i] & -> & Hi); apply (qw_order q W) in Hi as (n & Hn & _); exists (i, n); split; [reflexivity|].
    apply elem_of_map_to_list, Hn.
  - intros ([i n] & -> & Hi); apply elem_of_map_to_list in Hi; exists (qn_position n, i); split; [reflexivity|].
    apply (qw_order q W); eauto.
Qed.

Lemma size_delete (m : gmap string queuedNotification) id n :
  m !! id = Some n -> zlen (map_to_list m) = zlen (map_to_list (delete id m)) + 1.
Proof.
  intros H; unfold zlen; rewrite <- (map_to_list_delete m id n H); simpl length; lia.
Qed.

Lemma size_insert (m : gmap string queuedNotification) id n :
  zlen (map_to_list (<[id := n]> m)) = zlen (map_to_list m) + match m !! id with None => 1 | Some _ => 0 end.
Proof.
  destruct (m !! id) as [n'|] eqn:E.
  - rewrite (size_delete _ id n) by apply lookup_insert_eq; rewrite delete_insert_eq, (size_delete m id n' E); lia.
  - unfold zlen; rewrite map_to_list_insert by exact E; simpl length; lia.
Qed.

Lemma remove_wf q pos id n d r :
  queue_wf q -> pending q !! id = Some n -> qn_position n = pos ->
  queue_wf (MkQueue (delete id (pending q)) (list_Remove pos (pendingOrder q)) (q_alloc q) d r).
Proof.
  intros W Hn Hp; destruct W as [W1 W2 W3 W4 W5]; split; simpl.
  - intros p i; rewrite in_Remove, W1; simpl; destruct (decide (i = id)) as [->|Hi].
    + rewrite lookup_delete_eq; split; [intros [(m & Hm & Hq) Hne]; congruence | intros (m & Hm & _); discriminate].
    + rewrite lookup_delete_ne by congruence; split; [naive_solver|]; intros (m & Hm & Hq); split; [eauto|].
      intros K; apply Hi; eapply (wf_same_pos q pos); [split; assumption| |]; apply W1; eauto; exists m; split; [exact Hm | congruence].
  - apply Remove_nodup, W2.
  - intros p i [H _]%in_Remove; eauto.
  - intros i m Hm; apply lookup_delete_Some in Hm as [_ Hm]; eauto.
  - rewrite (size_delete _ _ _ Hn) in W5; lia.
Qed.

Lemma push_wf q info now d r :
  queue_wf q -> pending q !! sn_SessionID info = None -> zlen (map_to_list (pending q)) < eventQueueSize ->
  queue_wf (MkQueue (<[sn_SessionID info := MkQueued (q_alloc q) info now]> (pending q))
    (pendingOrder q ++ [(q_alloc q, sn_SessionID info)]) (Datatypes.S (q_alloc q)) d r).
Proof.
  intros [W1 W2 W3 W4 W5] Hn Hb; split; simpl.
  - intros p i; rewrite elem_of_app, list_elem_of_singleton, W1; destruct (decide (i = sn_SessionID info)) as [->|Hi].
    + rewrite lookup_insert_eq, Hn; split; [|intros (m & [= <-] & <-); auto].
      intros [(m & Hm & _)|K]; [discriminate|]; injection K as ->; eauto.
    + rewrite lookup_insert_ne by congruence; split; [intros [H|K]; [exact H | congruence] | auto].
  - rewrite fmap_app; apply list.NoDup_app; split; [exact W2|]; split; [|apply NoDup_singleton].
    intros x Hx ->%list_elem_of_singleton; apply list_elem_of_fmap in Hx as ([p i] & Hp & Hx); simpl in Hp; subst p.
    apply W3 in Hx; lia.
  - intros p i [H|H]%elem_of_app; [apply W3 in H; lia|]; apply list_elem_of_singleton in H; simplify_eq; lia.
  - intros i m; destruct (decide (i = sn_SessionID info)) as [->|Hi].
    + rewrite lookup_insert_eq; intros [= <-]; reflexivity.
    + rewrite lookup_insert_ne by congruence; eauto.
  - rewrite size_insert, Hn; lia.
Qed.

Lemma MoveToBack_nodup pos (l : list element) : NoDup l.*1 -> NoDup (MoveToBack pos l).*1.
Proof.
  intros H; unfold MoveToBack; rewrite fmap_app; apply list.NoDup_app; split; [apply Remove_nodup, H|]; split.
  - intros x Hx Hy; apply list_elem_of_fmap in Hx as (e & -> & He), Hy as (f & Hf & Hy).
    apply in_Remove in He as [_ He]; apply list_elem_of_In, filter_In in Hy as [_ Hy]; apply Nat.eqb_eq in Hy; congruence.
  - clear -H; induction l as [|[p i] l IH]; cbn in *; [apply NoDup_nil_2|]; apply list.NoDup_cons in H as [H1 H2].
    destruct (p =? pos)%nat; cbn; [|apply IH, H2]; apply list.NoDup_cons; split; [|apply IH, H2].
    intros K; apply H1; apply list_elem_of_fmap in K as (e & -> & He); apply list_elem_of_In, filter_In in He as [He _].
    apply list_elem_of_fmap; exists e; split; [reflexivity | apply list_elem_of_In, He].
Qed.

Lemma move_wf q info n now d r :
  queue_wf q -> pending q !! sn_SessionID info = Some n ->
  queue_wf (MkQueue (<[sn_SessionID info := MkQueued (qn_position n) info now]> (pending q))
    (MoveToBack (qn_position n) (pendingOrder q)) (q_alloc q) d r).
Proof.
  intros [W1 W2 W3 W4 W5] Hn; split; simpl.
  - intros p i; rewrite in_MoveToBack, W1; destruct (decide (i = sn_SessionID info)) as [->|Hi].
    + rewrite lookup_insert_eq, Hn; split; intros (m & [= <-] & <-); eauto.
    + rewrite lookup_insert_ne by congruence; reflexivity.
  - apply MoveToBack_nodup, W2.
  - intros p i H%in_MoveToBack; eauto.
  - intros i m; destruct (decide (i = sn_SessionID info)) as [->|Hi].
    + rewrite lookup_insert_eq; intros [= <-]; reflexivity.
    + rewrite lookup_insert_ne by congruence; eauto.
  - rewrite size_insert, Hn; lia.
Qed.

(** *** Notify against a recency list *)

(** The queue as a list of notifications, the oldest first. *)
Definition view_of (m : gmap string queuedNotification) (order : list element) : list SessionSnapshot :=
  omap (fun e => match m !! snd e with Some n => Some (qn_info n) | None => None end) order.

Definition queue_view (q : Queue) : list SessionSnapshot := view_of (pending q) (pendingOrder q).

Definition other (id : string) (s : SessionSnapshot) : bool := negb (str_eqb (sn_SessionID s) id).

(** Removing the element of an identifier from the list is removing its
    notification from the view. *)
Lemma view_remove q id n (m : gmap string queuedNotification) :
  queue_wf q -> pending q !! id = Some n -> (forall i, i <> id -> m !! i = pending q !! i) ->
  view_of m (list_Remove (qn_position n) (pendingOrder q)) = List.filter (other id) (queue_view q).
Proof.
  intros W Hn Hm; unfold queue_view, view_of.
  assert (K : forall e, e ∈ pendingOrder q -> (fst e =? qn_position n)%nat = str_eqb (snd e) id /\
            exists x, pending q !! snd e = Some x /\ sn_SessionID (qn_info x) = snd e).
  { intros [p i] He; pose proof He as He'; apply (qw_order q W) in He' as (x & Hx & Hp); split; [|exists x; split; [exact Hx | apply (qw_keyed q W _ _ Hx)]].
    simpl; destruct (Nat.eqb_spec p (qn_position n)) as [Hq|Hq], (str_eqb i id) eqn:Ei; bool_to_prop; auto.
    - exfalso; apply Ei; eapply (wf_same_pos q p); [exact W | exact He|]; apply (qw_order q W); exists n; auto.
    - subst i; congruence. }
  revert K; generalize (pendingOrder q) as l; induction l as [|e l IH]; intros K; [reflexivity|].
  destruct (K e) as [K1 (x & Hx & Hi)]; [left|]; cbn; rewrite K1; rewrite Hx; cbn [List.filter]; unfold other at 1; rewrite Hi.
  destruct (str_eqb (snd e) id) eqn:Es; cbn [negb].
  - apply IH; intros e' He'; apply K; right; exact He'.
  - bool_to_prop; cbn; rewrite Hm, Hx by congruence; cbn [qn_info]; f_equal.
    apply IH; intros e' He'; apply K; right; exact He'.
Qed.

Lemma view_ids q : queue_wf q -> map sn_SessionID (queue_view q) = (pendingOrder q).*2.
Proof.
  intros W; unfold queue_view, view_of.
  assert (K : forall e, e ∈ pendingOrder q -> exists x, pending q !! snd e = Some x /\ sn_SessionID (qn_info x) = snd e).
  { intros [p i] He; apply (qw_order q W) in He as (x & Hx & _); exists x; split; [exact Hx | apply (qw_keyed q W _ _ Hx)]. }
  revert K; generalize (pendingOrder q) as l; induction l as [|e l IH]; intros K; [reflexivity|].
  destruct (K e) as (x & Hx & Hi); [left|]; cbn; rewrite Hx; cbn; f_equal; [exact Hi|].
  apply IH; intros e' He'; apply K; right; exact He'.
Qed.

Lemma other_all id (l : list SessionSnapshot) : id ∉ map sn_SessionID l -> List.filter (other id) l = l.
Proof.
  induction l as [|x l IH]; intros H; [reflexivity|]; cbn in *; apply not_elem_of_cons in H as [H1 H2].
  unfold other at 1; rewrite (proj2 (str_eqb_neq _ _)) by congruence; cbn; f_equal; apply IH, H2.
Qed.

Lemma other_head x (l : list SessionSnapshot) :
  NoDup (map sn_SessionID (x :: l)) -> List.filter (other (sn_SessionID x)) (x :: l) = l.
Proof.
  cbn; intros [H1 H2]%list.NoDup_cons; unfold other at 1; rewrite str_eqb_refl; cbn; apply other_all, H1.
Qed.

Lemma filter_one (l : list element) p i :
  NoDup l.*1 -> (p, i) ∈ l -> List.filter (fun e => (fst e =? p)%nat) l = [(p, i)].
Proof.
  induction l as [|[x y] l IH]; intros Hn Hi; [apply elem_of_nil in Hi; contradiction|]; cbn in *.
  apply list.NoDup_cons in Hn as [Hx Hn]; apply elem_of_cons in Hi as [Hi|Hi].
  - injection Hi as <- <-; rewrite Nat.eqb_refl; f_equal.
    assert (K : forall e, e ∈ l -> fst e <> p).
    { intros e He Hp; apply Hx, list_elem_of_fmap; exists e; auto. }
    clear -K; induction l as [|e l IH]; [reflexivity|]; cbn.
    destruct (Nat.eqb_spec (fst e) p) as [K1|_]; [destruct (K e); [left | exact K1]|].
    apply IH; intros x Hx; apply K; right; exact Hx.
  - destruct (Nat.eqb_spec x p) as [->|Hp]; [|apply IH; assumption].
    exfalso; apply Hx, list_elem_of_fmap; exists (p, i); auto.
Qed.

(** The abstract queue: a notification goes to the end and replaces an earlier one
    of its session; a new session in a full queue pushes out the oldest and
    asks for a snapshot. *)
Definition notify_spec (l : list SessionSnapshot) (reconcile : bool) (info : SessionSnapshot) : list SessionSnapshot * bool :=
  let id := sn_SessionID info in
  let full := bool_decide (id ∉ map sn_SessionID l) && (eventQueueSize <=? zlen l) in
  (List.filter (other id) (if full then tail l else l) ++ [info], reconcile || full).

Lemma view_length q : queue_wf q -> zlen (queue_view q) = zlen (map_to_list (pending q)).
Proof.
  intros W; rewrite <- (wf_length q W); unfold zlen.
  rewrite <- (length_map sn_SessionID), (view_ids q W), length_map; reflexivity.
Qed.

Lemma view_mem q id : queue_wf q -> id ∈ map sn_SessionID (queue_view q) <-> is_Some (pending q !! id).
Proof.
  intros W; rewrite (view_ids q W), list_elem_of_fmap; split.
  - intros ([p i] & -> & H); apply (qw_order q W) in H as (n & H & _); eauto.
  - intros [n Hn]; exists (qn_position n, id); split; [reflexivity|]; apply (qw_order q W); eauto.
Qed.

(** The view after a notification, given the view of the rest of the list. *)
Lemma queue_view_snoc m order pos id n :
  m !! id = Some n -> view_of m (order ++ [(pos, id)]) = view_of m order ++ [qn_info n].
Proof. intros H; unfold view_of; rewrite omap_app; cbn; rewrite H; reflexivity. Qed.

Lemma view_other m m' order (id : string) :
  (forall i, i <> id -> m !! i = m' !! i) -> (forall p, (p, id) ∉ order) -> view_of m order = view_of m' order.
Proof.
  intros Hm; unfold view_of; induction order as [|[p i] l IH]; intros Hn; [reflexivity|]; cbn.
  rewrite Hm; [rewrite IH; [reflexivity|]; intros x Hx; apply (Hn x); right; exact Hx|].
  intros ->; apply (Hn p); left.
Qed.

(** A known session moves to the end. *)
Lemma notify_known q info n now :
  queue_wf q -> pending q !! sn_SessionID info = Some n ->
  let m := <[sn_SessionID info := MkQueued (qn_position n) info now]> (pending q) in
  view_of m (MoveToBack (qn_position n) (pendingOrder q)) = List.filter (other (sn_SessionID info)) (queue_view q) ++ [info].
Proof.
  intros W Hn m; unfold MoveToBack.
  rewrite (filter_one _ (qn_position n) (sn_SessionID info)); [|apply (qw_nodup q W) | apply (qw_order q W); eauto].
  erewrite queue_view_snoc by apply lookup_insert_eq; f_equal.
  apply view_remove; [exact W | exact Hn|]; intros i Hi; apply lookup_insert_ne; congruence.
Qed.

(** A new session is added at the end. *)
Lemma notify_new q info now :
  queue_wf q -> pending q !! sn_SessionID info = None ->
  let m := <[sn_SessionID info := MkQueued (q_alloc q) info now]> (pending q) in
  view_of m (pendingOrder q ++ [(q_alloc q, sn_SessionID info)]) = List.filter (other (sn_SessionID info)) (queue_view q) ++ [info].
Proof.
  intros W Hn m; erewrite queue_view_snoc by apply lookup_insert_eq; f_equal.
  rewrite other_all; [|rewrite (view_mem q _ W), Hn; intros [? ?]; discriminate].
  apply (view_other _ _ _ (sn_SessionID info)); [intros i Hi; apply lookup_insert_ne; congruence|].
  intros p Hp; apply (qw_order q W) in Hp as (x & Hx & _); congruence.
Qed.

Lemma evict_refines q q' :
  queue_wf q -> evict_oldest q = Some q' ->
  queue_wf q' /\ queue_view q' = tail (queue_view q) /\ reconcileCh q' = true /\
  zlen (map_to_list (pending q')) < zlen (map_to_list (pending q)) /\
  (forall id, pending q !! id = None -> pending q' !! id = None).
Proof.
  unfold evict_oldest; intros W; destruct (pendingOrder q) as [|[pos id] rest] eqn:Eo; [discriminate|].
  rewrite <- Eo; intros H; apply (inj Some) in H; subst q'.
  assert (Hin : (pos, id) ∈ pendingOrder q) by (rewrite Eo; left).
  apply (qw_order q W) in Hin as (n & Hn & Hp); rewrite <- Hp; split_and!.
  - apply (remove_wf q _ id n _ _ W Hn eq_refl).
  - unfold queue_view at 1; cbn [pending pendingOrder scheduleReconcile].
    rewrite (view_remove q id n) by (auto; intros i Hi; apply lookup_delete_ne; congruence).
    pose proof (wf_ids_nodup q W) as Hd; rewrite <- (view_ids q W) in Hd.
    pose proof (view_ids q W) as Hv; rewrite Eo in Hv; destruct (queue_view q) as [|x l]; [discriminate|].
    cbn in Hv; injection Hv as Hx _; rewrite <- Hx; apply other_head, Hd.
  - reflexivity.
  - cbn; rewrite (size_delete _ _ _ Hn); lia.
  - intros i Hi; cbn; apply lookup_delete_None; auto.
Qed.

Lemma Notify_refines q info now :
  queue_wf q ->
  exists q', Notify q info now = Some q' /\ queue_wf q' /\ dirty q' = true /\
    (queue_view q', reconcileCh q') = notify_spec (queue_view q) (reconcileCh q) info.
Proof.
  intros W; unfold Notify, notify_spec.
  destruct (pending q !! sn_SessionID info) as [n|] eqn:Hn.
  - rewrite bool_decide_false by (intros K; apply K, (view_mem q _ W); eauto).
    eexists; split; [reflexivity|]; split_and!; [apply move_wf; assumption | reflexivity|].
    cbn [reconcileCh andb]; rewrite orb_false_r; f_equal; apply notify_known; assumption.
  - rewrite bool_decide_true by (rewrite (view_mem q _ W), Hn; intros [? ?]; discriminate).
    rewrite (view_length q W); destruct (eventQueueSize <=? zlen (map_to_list (pending q))) eqn:Ef; bool_to_prop.
    + assert (exists q1, evict_oldest q = Some q1) as [q1 E1].
      { unfold evict_oldest; destruct (pendingOrder q) as [|[p i] r] eqn:Eo; [|eauto].
        pose proof (wf_length q W) as K; rewrite Eo in K; unfold eventQueueSize in Ef; rewrite zlen_nil in K; lia. }
      rewrite E1; apply evict_refines in E1 as (W1 & Hv & Hr & Hl & Hk); [|exact W].
      pose proof (qw_bound q W); eexists; split; [reflexivity|]; split_and!; [apply push_wf; auto; lia | reflexivity|].
      cbn [reconcileCh andb]; rewrite Hr, orb_true_r; f_equal; rewrite <- Hv; apply notify_new; auto.
    + eexists; split; [reflexivity|]; split_and!; [apply push_wf; auto | reflexivity|].
      cbn [reconcileCh andb]; rewrite orb_false_r; f_equal; apply notify_new; assumption.
Qed.

(** *** A run of notifications *)

(** Of every session its last notification, in the order of these. *)
Fixpoint recent (l : list SessionSnapshot) : list SessionSnapshot :=
  match l with
  | [] => []
  | x :: l => if bool_decide (sn_SessionID x ∈ map sn_SessionID l) then recent l else x :: recent l
  end.

Definition lastn {A} (n : nat) (l : list A) : list A := drop (length l - n) l.

Fixpoint notify_all (q : Queue) (infos : list (SessionSnapshot * Time)) : option Queue :=
  match infos with
  | [] => Some q
  | (info, now) :: infos => match Notify q info now with Some q => notify_all q infos | None => None end
  end.

Lemma recent_ids l id : id ∈ map sn_SessionID (recent l) <-> id ∈ map sn_SessionID l.
Proof.
  induction l as [|x l IH]; [reflexivity|]; cbn; case_bool_decide as H; cbn; rewrite ?elem_of_cons, IH; [|reflexivity].
  split; [auto | intros [->|K]; auto].
Qed.

Lemma recent_nodup l : NoDup (map sn_SessionID (recent l)).
Proof.
  induction l as [|x l IH]; [apply NoDup_nil_2|]; cbn; case_bool_decide as H; [exact IH|]; cbn.
  apply list.NoDup_cons; split; [rewrite recent_ids; exact H | exact IH].
Qed.

Lemma recent_snoc l x : recent (l ++ [x]) = List.filter (other (sn_SessionID x)) (recent l) ++ [x].
Proof.
  induction l as [|y l IH]; [cbn; rewrite bool_decide_false; [reflexivity | apply not_elem_of_nil]|].
  cbn [app recent]; rewrite IH, map_app; cbn [map].
  destruct (decide (sn_SessionID y = sn_SessionID x)) as [E|E].
  - rewrite bool_decide_true by (apply elem_of_app; right; rewrite E; left).
    case_bool_decide as H; [reflexivity|]; cbn [List.filter]; unfold other at 2; rewrite (proj2 (str_eqb_eq _ _) E); reflexivity.
  - case_bool_decide as H; case_bool_decide as K; [reflexivity | | |].
    + exfalso; apply elem_of_app in H as [H|H%list_elem_of_singleton]; congruence || contradiction.
    + exfalso; apply H, elem_of_app; auto.
    + cbn [List.filter]; unfold other at 2; rewrite (proj2 (str_eqb_neq _ _) E); reflexivity.
Qed.

Lemma lastn_split {A} n (l : list A) : exists a, l = a ++ lastn n l /\ (a = [] \/ length (lastn n l) = n).
Proof.
  exists (take (length l - n) l); unfold lastn; rewrite take_drop; split; [reflexivity|].
  destruct (Nat.le_gt_cases (length l) n) as [H|H].
  - left; replace (length l - n)%nat with 0%nat by lia; reflexivity.
  - right; rewrite length_drop; lia.
Qed.

Lemma lastn_app {A} n (a b : list A) : length b = n -> lastn n (a ++ b) = b.
Proof. intros H; unfold lastn; rewrite length_app; apply drop_app_length'; lia. Qed.

Lemma lastn_all {A} n (l : list A) : (length l <= n)%nat -> lastn n l = l.
Proof. intros H; unfold lastn; replace (length l - n)%nat with 0%nat by lia; reflexivity. Qed.

Lemma filter_other_length id (l : list SessionSnapshot) :
  NoDup (map sn_SessionID l) -> id ∈ map sn_SessionID l -> S (length (List.filter (other id) l)) = length l.
Proof.
  induction l as [|x l IH]; cbn; intros Hn Hi; [apply elem_of_nil in Hi; contradiction|].
  apply list.NoDup_cons in Hn as [Hx Hn]; unfold other at 1; destruct (str_eqb (sn_SessionID x) id) eqn:E; bool_to_prop; cbn.
  - subst id; rewrite other_all by exact Hx; reflexivity.
  - f_equal; apply IH; [exact Hn|]; apply elem_of_cons in Hi as [Hi|Hi]; [congruence | exact Hi].
Qed.

Abbreviation queue_cap := (Z.to_nat eventQueueSize).

Lemma spec_step (l : list SessionSnapshot) x :
  let L := recent l in
  notify_spec (lastn queue_cap L) (eventQueueSize <? zlen L) x
  = (lastn queue_cap (recent (l ++ [x])), eventQueueSize <? zlen (recent (l ++ [x]))).
Proof.
  intros L; rewrite recent_snoc; fold L; pose proof (recent_nodup l) as Hn; fold L in Hn.
  destruct (lastn_split queue_cap L) as (a & HL & Ha); set (V := lastn queue_cap L) in *.
  assert (Hlen : (length V <= queue_cap)%nat) by (unfold V, lastn; rewrite length_drop; lia).
  rewrite HL, map_app in Hn; apply list.NoDup_app in Hn as (Hna & Hd & HnV).
  assert (Hcap : Z.of_nat queue_cap = eventQueueSize) by reflexivity.
  unfold notify_spec; destruct (decide (sn_SessionID x ∈ map sn_SessionID V)) as [Hi|Hi].
  - rewrite bool_decide_false by (intros K; exact (K Hi)); cbn [andb]; rewrite orb_false_r.
    assert (Hf : List.filter (other (sn_SessionID x)) L = a ++ List.filter (other (sn_SessionID x)) V).
    { rewrite HL at 1; rewrite List.filter_app, other_all; [reflexivity|]; intros K; exact (Hd _ K Hi). }
    pose proof (filter_other_length _ V HnV Hi) as Hv; rewrite Hf; f_equal.
    + destruct Ha as [->|Ha]; [rewrite lastn_all; [reflexivity|]; rewrite !length_app; cbn; lia|].
      rewrite <- app_assoc, lastn_app; [reflexivity|]; rewrite length_app; cbn; lia.
    + rewrite HL at 1; f_equal; unfold zlen; rewrite !length_app; cbn; lia.
  - rewrite bool_decide_true by exact Hi; cbn [andb].
    assert (HV : List.filter (other (sn_SessionID x)) V = V) by (apply other_all, Hi).
    destruct (eventQueueSize <=? zlen V) eqn:Ef; bool_to_prop; unfold zlen in Ef.
    + rewrite orb_true_r; f_equal.
      * rewrite HL, List.filter_app, HV; destruct V as [|v V']; [cbn in Ef; unfold eventQueueSize in Ef; lia|].
        cbn [tail app]; rewrite other_all by (intros K; apply Hi; right; exact K).
        change ((List.filter (other (sn_SessionID x)) a ++ v :: V') ++ [x]) with ((List.filter (other (sn_SessionID x)) a ++ ([v] ++ V')) ++ [x]).
        rewrite app_assoc, <- (app_assoc _ V' [x]), lastn_app; [reflexivity|].
        rewrite length_app; cbn in *; lia.
      * symmetry; apply Z.ltb_lt; rewrite HL, List.filter_app, HV; unfold zlen; rewrite !length_app; cbn; lia.
    + destruct Ha as [->|Ha]; [|exfalso; lia]; cbn in HL; rewrite orb_false_r, HV, HL, HV; f_equal.
      * rewrite lastn_all; [reflexivity|]; rewrite length_app; cbn; lia.
      * unfold zlen; rewrite length_app; cbn [length].
        rewrite (proj2 (Z.ltb_ge _ _)), (proj2 (Z.ltb_ge _ _)) by lia; reflexivity.
Qed.

Lemma notify_all_app q a b : notify_all q (a ++ b) = match notify_all q a with Some q => notify_all q b | None => None end.
Proof. revert q; induction a as [|[x t] a IH]; intros q; [reflexivity|]; cbn; destruct (Notify q x t); auto. Qed.

(** ** Theorems *)

(** Notifications are coalesced and bounded, and none is lost silently.  After any
    sequence of notifications nothing has panicked; the queue holds, for each
    of the last sixty-four distinct sessions, its latest notification, in the
    order in which they came; and a fresh snapshot has been requested exactly
    when more sessions than that were notified, so whatever was evicted is
    reported by the snapshot. *)
Theorem notifications_coalesce (infos : list (SessionSnapshot * Time)) :
  exists q, notify_all newQueue infos = Some q /\ queue_wf q /\
    queue_view q = lastn 64 (recent infos.*1) /\
    reconcileCh q = (eventQueueSize <? zlen (recent infos.*1)).
Proof.
  induction infos as [|[x t] infos IH] using rev_ind.
  - exists newQueue; split_and!; [reflexivity | apply newQueue_wf | reflexivity..].
  - destruct IH as (q & Hq & W & Hv & Hr); rewrite notify_all_app, Hq.
    destruct (Notify_refines q x t W) as (q' & Hq' & W' & _ & Hs); exists q'; cbn; rewrite Hq'.
    split; [reflexivity|]; split; [exact W'|].
    rewrite Hv, Hr in Hs; change 64%nat with queue_cap in Hs; rewrite spec_step in Hs.
    rewrite fmap_app; injection Hs as Hs1 Hs2; split; [exact Hs1 | exact Hs2].
Qed.

(** The reconnect delay is never below a quarter of a second and never above a
    minute, whatever the attempt number, and never above one second doubled for
    each attempt after the first; no intermediate value overflows. *)
Theorem backoff_bounded (attempt : Z) (int63n : Z -> Z) :
  (forall n, 0 < n -> 0 <= int63n n < n) ->
  let d := backoffDelay attempt int63n in
  250 * Millisecond <= d <= 60 * Second /\ (1 <= attempt -> d <= Second * 2 ^ (attempt - 1)).
Proof.
  intros Hr; unfold backoffDelay.
  set (a := if attempt <? 1 then 1 else attempt).
  assert (Ha : 1 <= a /\ (1 <= attempt -> a = attempt)) by (unfold a; destruct (attempt <? 1) eqn:E; bool_to_prop; lia).
  set (sh := if 6 <? a - 1 then 6 else a - 1).
  assert (Hs : 0 <= sh <= 6 /\ sh <= a - 1) by (unfold sh; destruct (6 <? a - 1) eqn:E; bool_to_prop; lia).
  assert (He : i64 (backoffBase * Z.shiftl 1 sh) = Second * 2 ^ sh).
  { rewrite Z.shiftl_1_l; unfold i64, backoffBase, two64, Second.
    assert (2 ^ 0 <= 2 ^ sh <= 2 ^ 6) by (split; apply Z.pow_le_mono_r; lia).
    rewrite Z.mod_small; lia. }
  rewrite He; clear He.
  assert (H2 : 1 <= 2 ^ sh) by (pose proof (Z.pow_pos_nonneg 2 sh ltac:(lia) ltac:(lia)); lia).
  assert (H3 : 1 <= attempt -> 2 ^ sh <= 2 ^ (attempt - 1)) by (intros K; apply Z.pow_le_mono_r; lia).
  set (exp := if backoffMax <? Second * 2 ^ sh then backoffMax else Second * 2 ^ sh).
  assert (Hx : Second <= exp <= backoffMax /\ exp <= Second * 2 ^ sh).
  { unfold exp, backoffMax, Second in *; case_match; bool_to_prop; lia. }
  pose proof (Hr (exp + 1)) as Hd; unfold backoffMax, backoffMin, Millisecond in *; unfold Second in *.
  clearbody exp; revert H2 H3 Hx; generalize (2 ^ sh) (2 ^ (attempt - 1)); intros P Q H2 H3 Hx; specialize (Hd ltac:(lia)).
  case_match; bool_to_prop; (split; [lia|]); intros K; specialize (H3 K); lia.
Qed.

Lemma backoff_bounded_witness : backoffDelay 3 (fun n => n - 1) = 4 * Second /\ backoffDelay 3 (fun n => n - 1) <= 60 * Second.
Proof.
  split; [reflexivity|]; refine (proj2 (proj1 (backoff_bounded 3 (fun n => n - 1) _))); intros n Hn; cbn beta; lia.
Defined.
