(* ===== verification/ControlConn.v ===== *)
(** * The control connection: internal/bridgecontrol/client.go, status.go

    What the goroutine of the client does on one connection: the snapshot after
    the handshake, the loop that drains the queue of Control, heartbeats and
    reconciliation, with the revision numbers it puts on the wire; and the
    connection states it reports.

    A connection is a sequence of steps chosen by the [select] of [serve], with
    notifications of the supervisor between them.  Writing a message either
    succeeds or ends the connection. *)

From S2P Require Import Prelude Types Control.

(** ** Messages (protocol.go) *)

Definition maxSnapshotSessions : nat := 500.
Definition maxBridgectlVersion : nat := 64.

Record interactionPayload := MkInteractionPayload {
  ip_State : string;
  ip_Revision : Z;
  ip_UpdatedAt : Time;
  ip_LastActivityAt : Time;
  ip_Pending : option (string * string * string);
  ip_Source : string;
  ip_Capability : InteractionCapabilities;
}.

Record sessionPayload := MkPayload {
  sp_SessionID : string;
  sp_Provider : string;
  sp_ProjectID : string;
  sp_Status : string;
  sp_Revision : Z;
  sp_OccurredAt : Time;
  sp_Interaction : option interactionPayload;
}.

Inductive event_type := SessionStarted | SessionUpdated | SessionStopped.

Inductive wire :=
| Hello (version : string) (capabilities : list (string * bool))
| Heartbeat
| SessionSnapshots (sessions : list sessionPayload)
| SessionEvent (t : event_type) (p : sessionPayload).

(** ** Status file (status.go) *)

Inductive State := StateNotProvisioned | StateConnecting | StateConnected | StateDisconnected | StateAuthRejected | StateUnavailable.

Record Status := MkStatus {
  st_State : State;
  st_InstallationID : string;
  st_LastError : string;
  st_UpdatedAt : Time;
  st_LastConnectedAt : Time;
}.

(** ** The client *)

Record Client := MkClient {
  queue : Queue;
  revisions : RevisionStore;
  interactions : RevisionStore;
  lastSentLocalRev : gmap string Z;
  organizationID : string;
  installationID : string;
  lastConnectedAt : Time;
  status_file : option Status; (* what reading the status file gives *)
  cfg_StatusPath : string;
  cfg_InstallationID : string;
  cfg_BridgectlVersion : string;
}.

Definition put_queue (q : Queue) (c : Client) : Client :=
  MkClient q (revisions c) (interactions c) (lastSentLocalRev c) (organizationID c) (installationID c)
    (lastConnectedAt c) (status_file c) (cfg_StatusPath c) (cfg_InstallationID c) (cfg_BridgectlVersion c).

Definition put_revisions (rs : RevisionStore) (c : Client) : Client :=
  MkClient (queue c) rs (interactions c) (lastSentLocalRev c) (organizationID c) (installationID c)
    (lastConnectedAt c) (status_file c) (cfg_StatusPath c) (cfg_InstallationID c) (cfg_BridgectlVersion c).

Definition put_interactions (rs : RevisionStore) (sent : gmap string Z) (c : Client) : Client :=
  MkClient (queue c) (revisions c) rs sent (organizationID c) (installationID c)
    (lastConnectedAt c) (status_file c) (cfg_StatusPath c) (cfg_InstallationID c) (cfg_BridgectlVersion c).

Definition put_identity (org inst : string) (c : Client) : Client :=
  MkClient (queue c) (revisions c) (interactions c) (lastSentLocalRev c) org inst
    (lastConnectedAt c) (status_file c) (cfg_StatusPath c) (cfg_InstallationID c) (cfg_BridgectlVersion c).

Definition put_status (t : Time) (f : option Status) (c : Client) : Client :=
  MkClient (queue c) (revisions c) (interactions c) (lastSentLocalRev c) (organizationID c) (installationID c)
    t f (cfg_StatusPath c) (cfg_InstallationID c) (cfg_BridgectlVersion c).

Definition InteractionRevisionPath (base : string) : string :=
  if str_eqb base "" then "" else base +:+ ".interaction".

(** [New], with the revision files it finds. *)
Definition NewClient (statusPath revisionPath installation version : string) (rev inter : revision_file) (status : option Status) : Client :=
  MkClient newQueue (NewRevisionStore revisionPath rev) (NewRevisionStore (InteractionRevisionPath revisionPath) inter)
    ∅ "" "" 0 status statusPath installation version.

(** [setStatus]; [written]: the file could be replaced. *)
Definition setStatus (c : Client) (state : State) (lastErr : string) (now : Time) (written : bool) : Client :=
  if str_eqb (cfg_StatusPath c) "" then c
  else
    let inst := if str_eqb (installationID c) "" then cfg_InstallationID c else installationID c in
    let last := match state with
                | StateConnected => now
                | _ => if Time_IsZero (lastConnectedAt c)
                       then match status_file c with Some prev => st_LastConnectedAt prev | None => lastConnectedAt c end
                       else lastConnectedAt c
                end in
    let st := MkStatus state inst lastErr now last in
    put_status last (if written then Some st else status_file c) c.

(** [strings.Contains]. *)
Fixpoint Contains (s sub : string) : bool :=
  String.prefix sub s || match s with String _ s' => Contains s' sub | EmptyString => false end.

(** [classifyStatus] on the lower-case text of the error, [None] for nil. *)
Definition classifyStatus (msg : option string) : State :=
  match msg with
  | None => StateDisconnected
  | Some msg =>
      if Contains msg "401" || Contains msg "invalid control credential" || Contains msg "credential no longer valid"
      then StateAuthRejected
      else if Contains msg "503" || Contains msg "too many connections" then StateUnavailable
      else StateDisconnected
  end.

(** ** Sending *)

(** Which writes of the revision files succeed while a session is reported. *)
Record disk := MkDisk { dk_rev : bool; dk_int : bool; dk_forget_rev : bool; dk_forget_int : bool }.

(** [toInteractionPayload]. *)
Definition toInteractionPayload (c : Client) (sessionID : string) (current : Interaction) (force : bool) (now : Time) (ok : bool)
    : Client * option interactionPayload :=
  let localRev := i64 (int_Revision current) in
  let changed := match lastSentLocalRev c !! sessionID with None => true | Some last => negb (last =? localRev) end in
  if negb force && negb changed then (c, None)
  else
    let sent := <[sessionID := localRev]> (lastSentLocalRev c) in
    let '(rs, wireRev) :=
      if (Current (interactions c) sessionID <=? 0) || changed
      then Next (interactions c) sessionID ok
      else (interactions c, Current (interactions c) sessionID) in
    let updatedAt := if Time_IsZero (int_UpdatedAt current) then now else int_UpdatedAt current in
    let lastActivityAt := if Time_IsZero (int_LastActivityAt current) then updatedAt else int_LastActivityAt current in
    (put_interactions rs sent c,
     Some (MkInteractionPayload (EffectiveState current) wireRev updatedAt lastActivityAt
       (match int_Pending current with Some p => Some (pr_ID p, pr_Type p, pr_Summary p) | None => None end)
       (ev_Source (int_Evidence current)) (ev_Capability (int_Evidence current)))).

Definition forgetInteraction (c : Client) (sessionID : string) (ok : bool) : Client :=
  put_interactions (Forget (interactions c) sessionID ok) (delete sessionID (lastSentLocalRev c)) c.

Definition forget_session (c : Client) (sessionID : string) (dk : disk) : Client :=
  forgetInteraction (put_revisions (Forget (revisions c) sessionID (dk_forget_rev dk)) c) sessionID (dk_forget_int dk).

(** [sendEvent]; [sent]: the message was written. *)
Definition sendEvent (c : Client) (info : SessionSnapshot) (now : Time) (dk : disk) (sent : bool) : Client * list wire * bool :=
  let id := sn_SessionID info in
  let existed := 0 <? Current (revisions c) id in
  let '(rs, rev) := Next (revisions c) id (dk_rev dk) in
  let t := if negb existed then SessionStarted
           else if terminal_status (sn_Status info) then SessionStopped else SessionUpdated in
  let '(c, inter) := toInteractionPayload (put_revisions rs c) id (sn_Interaction info) false now (dk_int dk) in
  let payload := MkPayload id (sn_Provider info) (sn_ProjectID info) (sn_Status info) rev now inter in
  if negb sent then (c, [], false)
  else (match t with SessionStopped => forget_session c id dk | _ => c end, [SessionEvent t payload], true).

(** One row of a snapshot. *)
Definition snapshot_row (c : Client) (s : SessionSnapshot) (now : Time) (dk : disk) : Client * sessionPayload :=
  let id := sn_SessionID s in
  let '(rs, rev) := if Current (revisions c) id <=? 0 then Next (revisions c) id (dk_rev dk)
                    else (revisions c, Current (revisions c) id) in
  let occurred := if Time_IsZero (sn_CreatedAt s) then now else sn_CreatedAt s in
  let '(c, inter) := toInteractionPayload (put_revisions rs c) id (sn_Interaction s) true now (dk_int dk) in
  (c, MkPayload id (sn_Provider s) (sn_ProjectID s) (sn_Status s) rev occurred inter).

Fixpoint snapshot_rows (c : Client) (snaps : list SessionSnapshot) (now : Time) (dk : string -> disk) : Client * list sessionPayload :=
  match snaps with
  | [] => (c, [])
  | s :: snaps =>
      let '(c, p) := snapshot_row c s now (dk (sn_SessionID s)) in
      let '(c, ps) := snapshot_rows c snaps now dk in (c, p :: ps)
  end.

Definition sendSnapshot (c : Client) (snaps : list SessionSnapshot) (now : Time) (dk : string -> disk) (sent : bool)
    : Client * list wire * bool :=
  let '(c, rows) := snapshot_rows c (take maxSnapshotSessions snaps) now dk in
  (c, if sent then [SessionSnapshots rows] else [], sent).

(** [drainStalePending]: the loop over the map, whose iterations are independent. *)
Definition stale (cutoff : Time) (n : queuedNotification) : bool := qn_enqueuedAt n <? cutoff.

Definition drain_one (dk : string -> disk) (cutoff : Time) (c : Client) (kn : string * queuedNotification) : Client :=
  let '(id, item) := kn in
  if negb (stale cutoff item) then c
  else
    let c := if terminal_status (sn_Status (qn_info item)) then forget_session c id (dk id) else c in
    let q := queue c in
    put_queue (MkQueue (delete id (pending q)) (list_Remove (qn_position item) (pendingOrder q)) (q_alloc q) (dirty q) (reconcileCh q)) c.

Definition drainStalePending (c : Client) (cutoff : Time) (dk : string -> disk) : Client :=
  foldl (drain_one dk cutoff) c (map_to_list (pending (queue c))).

(** The world during a snapshot: the instant before the sessions are read, the
    sessions, the time of the message, the disk, and whether it was written. *)
Record snapshot_world := MkSnapshotWorld {
  sw_cutoff : Time;
  sw_snaps : list SessionSnapshot;
  sw_now : Time;
  sw_disk : string -> disk;
  sw_sent : bool;
}.

Definition sendAuthoritativeSnapshot (c : Client) (w : snapshot_world) : Client * list wire * bool :=
  let '(c, ws, ok) := sendSnapshot c (sw_snaps w) (sw_now w) (sw_disk w) (sw_sent w) in
  if negb ok then (c, ws, false) else (drainStalePending c (sw_cutoff w) (sw_disk w), ws, true).

(** Send the drained notifications until a write fails; [sent] says which fails. *)
Fixpoint send_events (c : Client) (items : list queuedNotification) (now : Time) (dk : string -> disk) (sent : string -> bool)
    : Client * list wire * bool :=
  match items with
  | [] => (c, [], true)
  | item :: items =>
      let id := sn_SessionID (qn_info item) in
      let '(c, ws, ok) := sendEvent c (qn_info item) now (dk id) (sent id) in
      if negb ok then (c, ws, false)
      else let '(c, ws', ok) := send_events c items now dk sent in (c, ws ++ ws', ok)
  end.

Definition sendHello (c : Client) (caps : list (string * bool)) : wire :=
  let v := if str_eqb (cfg_BridgectlVersion c) "" then "dev"%string else cfg_BridgectlVersion c in
  Hello (if (maxBridgectlVersion <? String.length v)%nat then String.substring 0 maxBridgectlVersion v else v) caps.

(** ** The loop *)

(** What happens next on a connection: a notification of the supervisor, or a case
    of the [select] of [serve].  [SvClose] is the local shutdown, with the flush
    cut short after [budget] messages by its deadline. *)
Inductive serve_event :=
| SvNotify (info : SessionSnapshot) (now : Time)
| SvServerError (reconcileRequired : bool)
| SvDirty (now : Time) (dk : string -> disk) (sent : string -> bool)
| SvReconcile (w : snapshot_world)
| SvTick (now : Time) (sent written : bool)
| SvReadError
| SvClose (budget : nat) (now : Time) (dk : string -> disk) (sent : string -> bool).

Inductive verdict := Serving | Lost | ClosedLocally | Panicked.

Definition flushPendingEvents (c : Client) (budget : nat) (now : Time) (dk : string -> disk) (sent : string -> bool) : Client * list wire :=
  let '(q, items) := drainAllPending (queue c) in
  let '(c, ws, _) := send_events (put_queue q c) (take budget items) now dk sent in (c, ws).

Definition serve_step (c : Client) (ev : serve_event) : Client * list wire * verdict :=
  let q := queue c in
  match ev with
  | SvNotify info now =>
      match Notify q info now with Some q => (put_queue q c, [], Serving) | None => (c, [], Panicked) end
  | SvServerError r => (if r then put_queue (scheduleReconcile q) c else c, [], Serving)
  | SvDirty now dk sent =>
      if negb (dirty q) then (c, [], Serving)
      else
        let '(q, items) := drainAllPending (MkQueue (pending q) (pendingOrder q) (q_alloc q) false (reconcileCh q)) in
        let '(c, ws, ok) := send_events (put_queue q c) items now dk sent in
        (c, ws, if ok then Serving else Lost)
  | SvReconcile w =>
      if negb (reconcileCh q) then (c, [], Serving)
      else
        let '(c, ws, ok) := sendAuthoritativeSnapshot (put_queue (MkQueue (pending q) (pendingOrder q) (q_alloc q) (dirty q) false) c) w in
        (c, ws, if ok then Serving else Lost)
  | SvTick now sent written =>
      if sent then (setStatus c StateConnected "" now written, [Heartbeat], Serving) else (c, [], Lost)
  | SvReadError => (c, [], Lost)
  | SvClose budget now dk sent => let '(c, ws) := flushPendingEvents c budget now dk sent in (c, ws, ClosedLocally)
  end.

Fixpoint serve (c : Client) (evs : list serve_event) : Client * list wire * verdict :=
  match evs with
  | [] => (c, [], Serving)
  | ev :: evs =>
      match serve_step c ev with
      | (c, ws, Serving) => let '(c, ws', v) := serve c evs in (c, ws ++ ws', v)
      | (c, ws, v) => (c, ws, v)
      end
  end.

(** [connectAndServe] from the acknowledgement of the handshake on. *)
Definition connected (c : Client) (org inst : string) (now : Time) (written : bool) (w : snapshot_world) (evs : list serve_event)
    : Client * list wire * verdict :=
  let c := setStatus (put_identity org inst c) StateConnected "" now written in
  let '(c, ws, ok) := sendAuthoritativeSnapshot c w in
  if negb ok then (c, ws, Lost)
  else let '(c, ws', v) := serve c evs in (c, ws ++ ws', v).

(** ** What the other side accepts *)

(** The control plane's rule for revisions, as the documentation of the counters
    states it: [session_started] carries 1, every later event the revision it
    has plus one, and a snapshot repeats the revision of a session it knows.
    The state is the revision known for each session on this connection; a
    session that is not in a snapshot is unknown after it. *)
Definition known_or (st : gmap string Z) (id : string) (r : Z) : bool :=
  match st !! id with None => true | Some r' => r' =? r end.

Definition follow (st : gmap string Z) (m : wire) : option (gmap string Z) :=
  match m with
  | Hello _ _ | Heartbeat => Some st
  | SessionSnapshots ps =>
      if forallb (fun p => known_or st (sp_SessionID p) (sp_Revision p)) ps
      then Some (list_to_map (map (fun p => (sp_SessionID p, sp_Revision p)) ps)) else None
  | SessionEvent SessionStarted p =>
      if (sp_Revision p =? 1) && match st !! sp_SessionID p with None => true | Some _ => false end
      then Some (<[sp_SessionID p := 1]> st) else None
  | SessionEvent SessionUpdated p =>
      if known_or st (sp_SessionID p) (sp_Revision p - 1) then Some (<[sp_SessionID p := sp_Revision p]> st) else None
  | SessionEvent SessionStopped p =>
      if known_or st (sp_SessionID p) (sp_Revision p - 1) then Some (delete (sp_SessionID p) st) else None
  end.

Fixpoint follow_all (st : gmap string Z) (ws : list wire) : option (gmap string Z) :=
  match ws with
  | [] => Some st
  | m :: ws => match follow st m with Some st => follow_all st ws | None => None end
  end.

Lemma follow_all_app st a b :
  follow_all st (a ++ b) = match follow_all st a with Some st => follow_all st b | None => None end.
Proof. revert st; induction a as [|m a IH]; intros st; [reflexivity|]; cbn; destruct (follow st m); auto. Qed.

(** ** Counters *)

Definition maxInt64 : Z := 9223372036854775807.

Definition positive (rs : RevisionStore) : Prop := forall s r, rs_rev rs !! s = Some r -> 0 < r.

Lemma persist_rev rs ok : rs_rev (persistLocked rs ok) = rs_rev rs.
Proof. unfold persistLocked; repeat case_match; reflexivity. Qed.

Lemma Next_spec rs id ok rs' rev :
  Next rs id ok = (rs', rev) -> rev = i64 (Current rs id + 1) /\ rs_rev rs' = <[id := rev]> (rs_rev rs).
Proof. unfold Next; intros [= <- <-]; rewrite persist_rev; auto. Qed.

Lemma Forget_rev rs id ok : rs_rev (Forget rs id ok) = delete id (rs_rev rs).
Proof.
  unfold Forget; destruct (rs_rev rs !! id) eqn:E; [apply persist_rev|].
  symmetry; apply delete_id, E.
Qed.

Lemma Current_Some rs id r : rs_rev rs !! id = Some r -> Current rs id = r.
Proof. unfold Current; intros ->; reflexivity. Qed.

Lemma Current_None rs id : rs_rev rs !! id = None -> Current rs id = 0.
Proof. unfold Current; intros ->; reflexivity. Qed.

Lemma Current_positive rs id : positive rs -> (Current rs id <=? 0) = match rs_rev rs !! id with None => true | Some _ => false end.
Proof.
  intros P; unfold Current; destruct (rs_rev rs !! id) as [r|] eqn:E; [apply Z.leb_gt, (P _ _ E) | reflexivity].
Qed.

Lemma i64_small x : -9223372036854775808 <= x <= maxInt64 -> i64 x = x.
Proof. unfold i64, maxInt64, two64; intros H; rewrite Z.mod_small; lia. Qed.

Lemma Current_bound rs id : positive rs -> 0 <= Current rs id.
Proof. intros P; unfold Current; destruct (rs_rev rs !! id) eqn:E; cbn; [apply P in E; lia | lia]. Qed.

Lemma positive_insert rs rs' id r : positive rs -> 0 < r -> rs_rev rs' = <[id := r]> (rs_rev rs) -> positive rs'.
Proof.
  intros P Hr E s x; rewrite E; destruct (decide (s = id)) as [->|Hs].
  - rewrite lookup_insert_eq; congruence.
  - rewrite lookup_insert_ne by congruence; apply P.
Qed.

Lemma positive_delete rs rs' id : positive rs -> rs_rev rs' = delete id (rs_rev rs) -> positive rs'.
Proof. intros P E s r; rewrite E; intros K; apply lookup_delete_Some in K as [_ K]; eauto. Qed.

(** Describing the interaction touches neither the queue nor the session counters. *)
Lemma payload_frame c id cur force now ok :
  revisions (toInteractionPayload c id cur force now ok).1 = revisions c /\
  queue (toInteractionPayload c id cur force now ok).1 = queue c.
Proof.
  unfold toInteractionPayload; case_match; [auto|].
  match goal with |- context [let '(_, _) := ?x in _] => destruct x end; auto.
Qed.

Lemma forget_revisions c id dk : rs_rev (revisions (forget_session c id dk)) = delete id (rs_rev (revisions c)).
Proof. unfold forget_session, forgetInteraction; cbn; apply Forget_rev. Qed.

Lemma forget_queue c id dk : queue (forget_session c id dk) = queue c.
Proof. reflexivity. Qed.

(** ** The counters and the acceptor agree *)

Record agree (c : Client) (st : gmap string Z) : Prop := {
  ag_positive : positive (revisions c);
  ag_known : forall s r, st !! s = Some r -> rs_rev (revisions c) !! s = Some r;
}.

Lemma event_follows c st info now dk sent :
  agree c st -> Current (revisions c) (sn_SessionID info) < maxInt64 ->
  let '(c', ws, ok) := sendEvent c info now dk sent in
  queue c' = queue c /\ positive (revisions c') /\
  (forall j, j <> sn_SessionID info -> rs_rev (revisions c') !! j = rs_rev (revisions c) !! j) /\
  exists st', follow_all st ws = Some st' /\ (ok = true -> agree c' st').
Proof.
  intros [P A] Hb; unfold sendEvent; set (id := sn_SessionID info) in *.
  destruct (Next (revisions c) id (dk_rev dk)) as [rs rev] eqn:En; apply Next_spec in En as [-> Er].
  pose proof (Current_bound _ id P) as Hc; rewrite i64_small in * by (unfold maxInt64 in *; lia).
  destruct (toInteractionPayload (put_revisions rs c) id (sn_Interaction info) false now (dk_int dk)) as [c1 inter] eqn:Et.
  pose proof (payload_frame (put_revisions rs c) id (sn_Interaction info) false now (dk_int dk)) as [Hr Hq]; rewrite Et in Hr, Hq; cbn in Hr, Hq.
  assert (P1 : positive (revisions c1)) by (rewrite Hr; eapply positive_insert; [exact P| |exact Er]; lia).
  assert (F1 : forall j, j <> id -> rs_rev (revisions c1) !! j = rs_rev (revisions c) !! j)
    by (intros j Hj; rewrite Hr, Er; apply lookup_insert_ne; congruence).
  assert (N1 : rs_rev (revisions c1) !! id = Some (Current (revisions c) id + 1)) by (rewrite Hr, Er; apply lookup_insert_eq).
  assert (K : known_or st id (Current (revisions c) id) = true).
  { unfold known_or; destruct (st !! id) as [r|] eqn:Es; [|reflexivity]; apply Z.eqb_eq.
    symmetry; apply Current_Some, A, Es. }
  assert (Ai : agree c1 (<[id := Current (revisions c) id + 1]> st)).
  { split; [exact P1|]; intros s r; destruct (decide (s = id)) as [->|Hs].
    - rewrite lookup_insert_eq, N1; congruence.
    - rewrite lookup_insert_ne by congruence; rewrite F1 by exact Hs; apply A. }
  destruct sent; cbn [negb]; [|split_and!; auto; exists st; split; [reflexivity | discriminate]].
  destruct (0 <? Current (revisions c) id) eqn:Ex; cbn [negb]; bool_to_prop.
  - destruct (terminal_status (sn_Status info)); (split_and!; [auto|auto|auto|]).
    + eapply positive_delete; [exact P1 | apply forget_revisions].
    + intros j Hj; rewrite forget_revisions, lookup_delete_ne by congruence; auto.
    + exists (delete id st); cbn; rewrite Z.add_simpl_r, K; split; [reflexivity|]; intros _; split.
      * eapply positive_delete; [exact P1 | apply forget_revisions].
      * intros s r Hs; apply lookup_delete_Some in Hs as [Hne Hs]; rewrite forget_revisions, lookup_delete_ne by exact Hne.
        rewrite F1 by congruence; auto.
    + exists (<[id := Current (revisions c) id + 1]> st); cbn; rewrite Z.add_simpl_r, K; auto.
  - assert (Z0 : Current (revisions c) id = 0) by lia; rewrite Z0 in Ai |- *.
    split_and!; auto; exists (<[id := 1]> st); cbn; destruct (st !! id) as [r|] eqn:Es; [|auto].
    apply A in Es; pose proof (P _ _ Es); apply Current_Some in Es; lia.
Qed.

(** Sending several notifications of different sessions. *)
Lemma events_follow items c st now dk sent :
  agree c st -> NoDup (map (fun n => sn_SessionID (qn_info n)) items) ->
  (forall n, n ∈ items -> Current (revisions c) (sn_SessionID (qn_info n)) < maxInt64) ->
  let '(c', ws, ok) := send_events c items now dk sent in
  queue c' = queue c /\ positive (revisions c') /\
  exists st', follow_all st ws = Some st' /\ (ok = true -> agree c' st').
Proof.
  revert c st; induction items as [|n items IH]; intros c st A Hn Hb; cbn [send_events].
  { split; [reflexivity|]; split; [apply A|]; exists st; auto. }
  cbn in Hn; apply list.NoDup_cons in Hn as [Hx Hn].
  pose proof (event_follows c st (qn_info n) now (dk (sn_SessionID (qn_info n))) (sent (sn_SessionID (qn_info n))) A (Hb n (list_elem_of_here n items))) as H.
  destruct (sendEvent _ _ _ _ _) as [[c1 ws] ok]; destruct H as (Hq & P1 & Hf & st1 & Hs & Ha).
  destruct ok; cbn [negb]; [|split; [exact Hq|]; split; [exact P1|]; exists st1; split; [exact Hs | discriminate]].
  specialize (IH c1 st1 (Ha eq_refl) Hn).
  assert (Hb1 : forall m, m ∈ items -> Current (revisions c1) (sn_SessionID (qn_info m)) < maxInt64).
  { intros m Hm; unfold Current; rewrite Hf; [apply Hb; right; exact Hm|].
    intros E; apply Hx; rewrite <- E; apply list_elem_of_fmap; eauto. }
  specialize (IH Hb1); destruct (send_events c1 items now dk sent) as [[c2 ws2] ok2]; destruct IH as (Hq2 & P2 & st2 & Hs2 & Ha2).
  split; [congruence|]; split; [exact P2|]; exists st2; rewrite follow_all_app, Hs; auto.
Qed.

(** A snapshot row repeats a known revision or starts at one. *)
Lemma row_agrees c s now dk :
  positive (revisions c) ->
  let '(c', p) := snapshot_row c s now dk in
  queue c' = queue c /\ positive (revisions c') /\ sp_SessionID p = sn_SessionID s /\
  rs_rev (revisions c') !! sp_SessionID p = Some (sp_Revision p) /\
  (forall j r, rs_rev (revisions c) !! j = Some r -> rs_rev (revisions c') !! j = Some r).
Proof.
  intros P; unfold snapshot_row; rewrite (Current_positive _ _ P); set (id := sn_SessionID s).
  assert (K : exists rs rev, (if match rs_rev (revisions c) !! id with Some _ => false | None => true end
      then Next (revisions c) id (dk_rev dk) else (revisions c, Current (revisions c) id)) = (rs, rev) /\
    positive rs /\ rs_rev rs !! id = Some rev /\ (forall j r, rs_rev (revisions c) !! j = Some r -> rs_rev rs !! j = Some r)).
  { destruct (rs_rev (revisions c) !! id) as [r|] eqn:E.
    - do 2 eexists; split; [reflexivity|]; rewrite (Current_Some _ _ _ E); auto.
    - destruct (Next (revisions c) id (dk_rev dk)) as [rs rev] eqn:En; apply Next_spec in En as [-> Er].
      rewrite (Current_None _ _ E) in *; change (i64 (0 + 1)) with 1 in *; exists rs, 1; split; [reflexivity|]; split_and!.
      + eapply positive_insert; [exact P| |exact Er]; lia.
      + rewrite Er; apply lookup_insert_eq.
      + intros j r Hj; rewrite Er, lookup_insert_ne; [exact Hj | congruence]. }
  destruct K as (rs & rev & -> & P1 & N1 & M1).
  pose proof (payload_frame (put_revisions rs c) id (sn_Interaction s) true now (dk_int dk)) as [Hr Hq].
  destruct (toInteractionPayload _ _ _ _ _ _) as [c1 inter]; cbn in Hr, Hq; cbn; rewrite Hr, Hq; auto.
Qed.

Lemma rows_agree snaps c now dk :
  positive (revisions c) ->
  let '(c', ps) := snapshot_rows c snaps now dk in
  queue c' = queue c /\ positive (revisions c') /\ map sp_SessionID ps = map sn_SessionID snaps /\
  (forall p, p ∈ ps -> rs_rev (revisions c') !! sp_SessionID p = Some (sp_Revision p)) /\
  (forall j r, rs_rev (revisions c) !! j = Some r -> rs_rev (revisions c') !! j = Some r).
Proof.
  revert c; induction snaps as [|s snaps IH]; intros c P; cbn [snapshot_rows].
  { split_and!; auto; intros p Hp; apply elem_of_nil in Hp; contradiction. }
  pose proof (row_agrees c s now (dk (sn_SessionID s)) P) as H.
  destruct (snapshot_row c s now (dk (sn_SessionID s))) as [c1 p]; destruct H as (Hq & P1 & Hi & Hp & Hm).
  specialize (IH c1 P1); destruct (snapshot_rows c1 snaps now dk) as [c2 ps]; destruct IH as (Hq2 & P2 & Hi2 & Hp2 & Hm2).
  split_and!; [congruence | exact P2 | cbn; congruence | | auto].
  intros x [->|Hx]%elem_of_cons; auto.
Qed.

(** Draining stale entries. *)

Definition kept (cutoff : Time) (q : Queue) (q' : Queue) : Prop :=
  queue_wf q' /\ dirty q' = dirty q /\ reconcileCh q' = reconcileCh q.

Lemma drain_ok dk cutoff kns c :
  queue_wf (queue c) -> positive (revisions c) -> NoDup kns.*1 ->
  (forall id n, (id, n) ∈ kns -> pending (queue c) !! id = Some n) ->
  let c' := foldl (drain_one dk cutoff) c kns in
  queue_wf (queue c') /\ positive (revisions c') /\
  (forall id, (forall n, (id, n) ∈ kns -> stale cutoff n && terminal_status (sn_Status (qn_info n)) = false) ->
     rs_rev (revisions c') !! id = rs_rev (revisions c) !! id).
Proof.
  revert c; induction kns as [|[id n] kns IH]; intros c W P Hn Hin; [cbn; auto|].
  cbn in Hn; apply list.NoDup_cons in Hn as [Hx Hn]; cbn [foldl].
  assert (Hp : pending (queue c) !! id = Some n) by (apply Hin; left).
  assert (K : queue_wf (queue (drain_one dk cutoff c (id, n))) /\ positive (revisions (drain_one dk cutoff c (id, n))) /\
    (forall i, i <> id -> pending (queue (drain_one dk cutoff c (id, n))) !! i = pending (queue c) !! i) /\
    (forall i, (i = id -> stale cutoff n && terminal_status (sn_Status (qn_info n)) = false) ->
       rs_rev (revisions (drain_one dk cutoff c (id, n))) !! i = rs_rev (revisions c) !! i)).
  { unfold drain_one; destruct (stale cutoff n) eqn:Es; cbn [negb]; [|auto].
    destruct (terminal_status (sn_Status (qn_info n))) eqn:Et; cbn [queue revisions put_queue pending].
    - split_and!.
      + apply (remove_wf _ _ id n); auto.
      + eapply positive_delete; [exact P | apply forget_revisions].
      + intros i Hi; apply lookup_delete_ne; congruence.
      + intros i Hi; rewrite forget_revisions; apply lookup_delete_ne; intros ->; specialize (Hi eq_refl); discriminate.
    - split_and!; auto; [apply (remove_wf _ _ id n); auto|]; intros i Hi; apply lookup_delete_ne; congruence. }
  destruct K as (W1 & P1 & F1 & R1); destruct (IH (drain_one dk cutoff c (id, n)) W1 P1 Hn) as (W2 & P2 & R2).
  - intros i m Hm; rewrite F1; [apply Hin; right; exact Hm|]; intros ->; apply Hx, list_elem_of_fmap; exists (id, m); auto.
  - split_and!; auto; intros i Hi; rewrite R2; [apply R1|].
    + intros ->; apply Hi; left.
    + intros m Hm; apply Hi; right; exact Hm.
Qed.

(** ** Conditions on the surroundings *)

(** No counter has reached the largest number. *)
Definition sane (c : Client) : bool :=
  forallb (fun kv : string * Z => snd kv <? maxInt64) (map_to_list (rs_rev (revisions c))).

(** A session notified as ended before the snapshot was taken is not in it. *)
Definition consistent (c : Client) (w : snapshot_world) : bool :=
  forallb (fun kn : string * queuedNotification =>
    negb (stale (sw_cutoff w) (snd kn) && terminal_status (sn_Status (qn_info (snd kn)))) ||
    bool_decide (fst kn ∉ map sn_SessionID (take maxSnapshotSessions (sw_snaps w)))) (map_to_list (pending (queue c))).

Definition calm_step (c : Client) (ev : serve_event) : bool :=
  sane c && match ev with SvReconcile w => consistent c w | _ => true end.

Fixpoint calm (c : Client) (evs : list serve_event) : bool :=
  match evs with
  | [] => true
  | ev :: evs => calm_step c ev && match serve_step c ev with (c', _, Serving) => calm c' evs | _ => true end
  end.

Lemma sane_spec c id : sane c = true -> Current (revisions c) id < maxInt64.
Proof.
  intros H; unfold Current; destruct (rs_rev (revisions c) !! id) as [r|] eqn:E; cbn; [|reflexivity].
  apply elem_of_map_to_list, list_elem_of_In in E.
  unfold sane in H; rewrite forallb_forall in H; apply H in E; bool_to_prop; exact E.
Qed.

Lemma snapshot_follows c st w :
  agree c st -> queue_wf (queue c) -> consistent c w = true ->
  let '(c', ws, ok) := sendAuthoritativeSnapshot c w in
  queue_wf (queue c') /\ positive (revisions c') /\
  exists st', follow_all st ws = Some st' /\ (ok = true -> agree c' st').
Proof.
  intros [P A] W Hc; unfold sendAuthoritativeSnapshot, sendSnapshot.
  pose proof (rows_agree (take maxSnapshotSessions (sw_snaps w)) c (sw_now w) (sw_disk w) P) as H.
  destruct (snapshot_rows _ _ _ _) as [c1 ps]; destruct H as (Hq & P1 & Hi & Hp & Hm).
  destruct (sw_sent w); cbn [negb]; [|rewrite Hq; split; [exact W|]; split; [exact P1|]; exists st; split; [reflexivity | discriminate]].
  assert (Hf : forallb (fun p => known_or st (sp_SessionID p) (sp_Revision p)) ps = true).
  { apply forallb_forall; intros p Hin%list_elem_of_In; unfold known_or; destruct (st !! sp_SessionID p) as [r|] eqn:Es; [|reflexivity].
    apply A, Hm in Es; rewrite Hp in Es by exact Hin; apply Z.eqb_eq; congruence. }
  unfold drainStalePending; rewrite <- Hq in W.
  destruct (drain_ok (sw_disk w) (sw_cutoff w) (map_to_list (pending (queue c1))) c1 W P1) as (W2 & P2 & R2).
  { apply NoDup_fst_map_to_list. }
  { intros id n; rewrite elem_of_map_to_list; auto. }
  split; [exact W2|]; split; [exact P2|]; eexists; cbn; rewrite Hf; split; [reflexivity|]; intros _; split; [exact P2|]; intros s r Hs.
  apply elem_of_list_to_map_2, list_elem_of_fmap in Hs as (p & E & Hin); injection E as -> ->.
  rewrite R2; [auto|]; intros n Hn; rewrite Hq in Hn; unfold consistent in Hc; rewrite forallb_forall in Hc.
  apply list_elem_of_In, Hc in Hn; cbn [fst snd] in Hn; apply orb_true_iff in Hn as [Hn|Hn]; [apply negb_true_iff; exact Hn|].
  bool_to_prop; exfalso; apply Hn; rewrite <- Hi; apply list_elem_of_fmap; eauto.
Qed.

Lemma drained_ids q : queue_wf q -> NoDup (map (fun n => sn_SessionID (qn_info n)) (map snd (map_to_list (pending q)))).
Proof.
  intros W; rewrite map_map.
  replace (map (fun x => sn_SessionID (qn_info (snd x))) (map_to_list (pending q))) with (map_to_list (pending q)).*1.
  - apply NoDup_fst_map_to_list.
  - apply map_ext_in; intros [id n] Hin%list_elem_of_In; apply elem_of_map_to_list in Hin; symmetry; apply (qw_keyed q W _ _ Hin).
Qed.

Lemma empty_queue_wf q d r : queue_wf (MkQueue ∅ [] (q_alloc q) d r).
Proof.
  split; cbn; try (intros *; rewrite ?elem_of_nil, ?lookup_empty; naive_solver); [apply NoDup_nil_2|].
  rewrite map_to_list_empty; unfold zlen, eventQueueSize; cbn; lia.
Qed.

Lemma flags_wf q d r : queue_wf q -> queue_wf (MkQueue (pending q) (pendingOrder q) (q_alloc q) d r).
Proof. intros [W1 W2 W3 W4 W5]; split; auto. Qed.

Lemma agree_frame c c' st : revisions c' = revisions c -> agree c st -> agree c' st.
Proof. intros E [P A]; split; rewrite E; assumption. Qed.

Lemma step_follows c st ev :
  agree c st -> queue_wf (queue c) -> calm_step c ev = true ->
  let '(c', ws, v) := serve_step c ev in
  v <> Panicked /\ queue_wf (queue c') /\ positive (revisions c') /\
  exists st', follow_all st ws = Some st' /\ (v = Serving -> agree c' st').
Proof.
  intros A W Hc; pose proof (ag_positive c st A) as P; unfold calm_step in Hc; apply andb_true_iff in Hc as [Hs Hc].
  destruct ev as [info now|r|now dk sent|w|now sent written| |budget now dk sent]; cbn [serve_step].
  - destruct (Notify_refines (queue c) info now W) as (q & -> & W' & _).
    split; [discriminate|]; split; [exact W'|]; split; [exact P|]; exists st; split; [reflexivity|]; intros _; apply (agree_frame c); auto.
  - split_and!; [discriminate | destruct r; [apply flags_wf|]; exact W | destruct r; exact P|].
    exists st; split; [reflexivity|]; intros _; eapply agree_frame; [|exact A]; destruct r; reflexivity.
  - destruct (dirty (queue c)); cbn [negb]; [|split_and!; [discriminate | exact W | exact P|]; exists st; auto].
    cbn [drainAllPending pending pendingOrder q_alloc dirty reconcileCh].
    pose proof (events_follow (map snd (map_to_list (pending (queue c)))) (put_queue (MkQueue ∅ [] (q_alloc (queue c)) false (reconcileCh (queue c))) c) st now dk sent) as H.
    destruct (send_events _ _ _ _ _) as [[c' ws] ok]; destruct H as (Hq & P' & st' & Hf & Ha).
    { apply (agree_frame c); [reflexivity | exact A]. }
    { apply drained_ids, W. }
    { intros n _; apply sane_spec, Hs. }
    split_and!; [destruct ok; discriminate | rewrite Hq; apply empty_queue_wf | exact P'|].
    exists st'; split; [exact Hf|]; destruct ok; [auto | discriminate].
  - destruct (reconcileCh (queue c)); cbn [negb]; [|split_and!; [discriminate | exact W | exact P|]; exists st; auto].
    pose proof (snapshot_follows (put_queue (MkQueue (pending (queue c)) (pendingOrder (queue c)) (q_alloc (queue c)) (dirty (queue c)) false) c) st w) as H.
    destruct (sendAuthoritativeSnapshot _ _) as [[c' ws] ok]; destruct H as (W' & P' & st' & Hf & Ha).
    { apply (agree_frame c); [reflexivity | exact A]. }
    { apply flags_wf, W. }
    { exact Hc. }
    split_and!; [destruct ok; discriminate | exact W' | exact P'|]; exists st'; split; [exact Hf|]; destruct ok; [auto | discriminate].
  - assert (K : queue (setStatus c StateConnected "" now written) = queue c /\ revisions (setStatus c StateConnected "" now written) = revisions c)
      by (unfold setStatus; case_match; auto).
    destruct K as [Kq Kr]; destruct sent; rewrite ?Kq, ?Kr; (split_and!; [discriminate | exact W | exact P|]); exists st; split; try reflexivity.
    + intros _; apply (agree_frame c); [exact Kr | exact A].
    + discriminate.
  - split_and!; [discriminate | exact W | exact P|]; exists st; split; [reflexivity | discriminate].
  - unfold flushPendingEvents, drainAllPending.
    pose proof (events_follow (take budget (map snd (map_to_list (pending (queue c))))) (put_queue (MkQueue ∅ [] (q_alloc (queue c)) (dirty (queue c)) (reconcileCh (queue c))) c) st now dk sent) as H.
    destruct (send_events _ _ _ _ _) as [[c' ws] ok]; destruct H as (Hq & P' & st' & Hf & Ha).
    { apply (agree_frame c); [reflexivity | exact A]. }
    { pose proof (drained_ids (queue c) W) as Hn; rewrite <- (take_drop budget (map snd (map_to_list (pending (queue c))))), map_app in Hn.
      apply list.NoDup_app in Hn as [Hn _]; exact Hn. }
    { intros n _; apply sane_spec, Hs. }
    split_and!; [discriminate | rewrite Hq; apply empty_queue_wf | exact P'|]; exists st'; split; [exact Hf | discriminate].
Qed.

Lemma serve_follows evs c st :
  agree c st -> queue_wf (queue c) -> calm c evs = true ->
  let '(c', ws, v) := serve c evs in
  v <> Panicked /\ queue_wf (queue c') /\ positive (revisions c') /\ exists st', follow_all st ws = Some st'.
Proof.
  revert c st; induction evs as [|ev evs IH]; intros c st A W Hc; cbn [serve].
  { split_and!; [discriminate | exact W | apply A | exists st; reflexivity]. }
  cbn [calm] in Hc; apply andb_true_iff in Hc as [Hs Hc].
  pose proof (step_follows c st ev A W Hs) as H; destruct (serve_step c ev) as [[c1 ws] v]; destruct H as (Hv & W1 & P1 & st1 & Hf & Ha).
  destruct v; try (split_and!; eauto; fail).
  specialize (IH c1 st1 (Ha eq_refl) W1 Hc); destruct (serve c1 evs) as [[c2 ws2] v2]; destruct IH as (Hv2 & W2 & P2 & st2 & Hf2).
  split_and!; auto; exists st2; rewrite follow_all_app, Hf; exact Hf2.
Qed.

(** ** The life of a client *)

(** Notifications while there is no connection, and connections. *)
Inductive phase :=
| Offline (info : SessionSnapshot) (now : Time)
| Connection (org inst : string) (now : Time) (written : bool) (w : snapshot_world) (evs : list serve_event).

Definition greeted (c : Client) (org inst : string) (now : Time) (written : bool) : Client :=
  setStatus (put_identity org inst c) StateConnected "" now written.

Definition phase_step (c : Client) (ph : phase) : Client * list wire * verdict :=
  match ph with
  | Offline info now => match Notify (queue c) info now with Some q => (put_queue q c, [], Lost) | None => (c, [], Panicked) end
  | Connection org inst now written w evs => connected c org inst now written w evs
  end.

Definition calm_phase (c : Client) (ph : phase) : bool :=
  match ph with
  | Offline _ _ => true
  | Connection org inst now written w evs =>
      let c := greeted c org inst now written in
      consistent c w && match sendAuthoritativeSnapshot c w with (c, _, true) => calm c evs | _ => true end
  end.

(** The messages of each phase, in order. *)
Fixpoint life (c : Client) (phs : list phase) : list (list wire * verdict) :=
  match phs with
  | [] => []
  | ph :: phs => let '(c, ws, v) := phase_step c ph in (ws, v) :: life c phs
  end.

Fixpoint calm_life (c : Client) (phs : list phase) : bool :=
  match phs with
  | [] => true
  | ph :: phs => calm_phase c ph && (let '(c, _, _) := phase_step c ph in calm_life c phs)
  end.

Lemma greeted_frame c org inst now written :
  queue (greeted c org inst now written) = queue c /\ revisions (greeted c org inst now written) = revisions c.
Proof. unfold greeted, setStatus; case_match; auto. Qed.

Lemma phase_follows c ph :
  queue_wf (queue c) -> positive (revisions c) -> calm_phase c ph = true ->
  let '(c', ws, v) := phase_step c ph in
  v <> Panicked /\ queue_wf (queue c') /\ positive (revisions c') /\ is_Some (follow_all ∅ ws).
Proof.
  intros W P Hc; destruct ph as [info now|org inst now written w evs]; cbn [phase_step].
  - destruct (Notify_refines (queue c) info now W) as (q & -> & W' & _).
    split; [discriminate|]; split; [exact W'|]; split; [exact P | eexists; reflexivity].
  - unfold connected; fold (greeted c org inst now written); cbn [calm_phase] in Hc; apply andb_true_iff in Hc as [H1 H2].
    destruct (greeted_frame c org inst now written) as [Kq Kr].
    pose proof (snapshot_follows (greeted c org inst now written) ∅ w) as H.
    destruct (sendAuthoritativeSnapshot _ w) as [[c1 ws] ok]; destruct H as (W1 & P1 & st1 & Hf & Ha).
    { split; [rewrite Kr; exact P | intros s r; rewrite lookup_empty; discriminate]. }
    { rewrite Kq; exact W. }
    { exact H1. }
    destruct ok; cbn [negb]; [|split; [discriminate|]; rewrite Hf; eauto].
    pose proof (serve_follows evs c1 st1 (Ha eq_refl) W1 H2) as K; destruct (serve c1 evs) as [[c2 ws2] v]; destruct K as (Hv & W2 & P2 & st2 & Hf2).
    split_and!; auto; rewrite follow_all_app, Hf, Hf2; eauto.
Qed.

(** ** Theorems *)

(** C15. Revisions on the wire never have a gap.  Over the life of a client, with any
    sequence of connections, lost writes, reconnects, notifications between and
    during them, evictions, reconciliations, and failing writes of the counters,
    the messages of every connection obey the control plane's rule: the first
    event of a new session carries revision 1, every later one the previous plus
    one, and a snapshot never changes the revision of a session already known.
    Nothing panics.  (Assumed of the surroundings: no counter reaches the largest
    64-bit number, and a session notified as ended is not listed as active by a
    later snapshot.) *)
Theorem wire_revisions_contiguous (c : Client) (phs : list phase) :
  queue_wf (queue c) -> positive (revisions c) -> calm_life c phs = true ->
  Forall (fun wv => wv.2 <> Panicked /\ is_Some (follow_all ∅ wv.1)) (life c phs).
Proof.
  revert c; induction phs as [|ph phs IH]; intros c W P Hc; cbn [life]; [constructor|].
  cbn [calm_life] in Hc; apply andb_true_iff in Hc as [Hp Hc].
  pose proof (phase_follows c ph W P Hp) as H; destruct (phase_step c ph) as [[c1 ws] v]; destruct H as (Hv & W1 & P1 & Hf).
  constructor; [split; assumption | apply IH; assumption].
Qed.

(** ** Concrete runs *)

Definition fresh_client : Client := NewClient "" "/state/rev.json" "inst" "1.0" NoRevisions NoRevisions None.

Definition reported (id st : string) : SessionSnapshot :=
  MkSnapshot id "echo" "proj" st Second (MkInteraction "unknown" 0 0 0 None (MkEvidence "" no_capabilities)).

Definition good_disk : string -> disk := fun _ => MkDisk true true true true.

Definition sample_snapshot (snaps : list SessionSnapshot) (now : Time) : snapshot_world :=
  MkSnapshotWorld now snaps now good_disk true.

(** A session is in the snapshot, changes twice, another starts; the connection is
    lost while sending; on the next one the first session stops. *)
Definition sample_life : list phase :=
  [Offline (reported "s1" StatusStarting) 1;
   Connection "org" "inst" 2 true (sample_snapshot [reported "s1" StatusRunning] 5)
     [SvNotify (reported "s1" StatusAttached) 6; SvDirty 7 good_disk (fun _ => true);
      SvNotify (reported "s2" StatusRunning) 8; SvDirty 9 good_disk (fun _ => true);
      SvNotify (reported "s1" StatusRunning) 10; SvDirty 11 good_disk (fun _ => false)];
   Connection "org" "inst" 20 true (sample_snapshot [reported "s1" StatusRunning; reported "s2" StatusRunning] 21)
     [SvNotify (reported "s1" StatusStopped) 22; SvDirty 23 good_disk (fun _ => true)]].

Definition wire_brief (m : wire) : list (string * Z) :=
  match m with
  | SessionSnapshots ps => map (fun p => (sp_SessionID p, sp_Revision p)) ps
  | SessionEvent _ p => [(sp_SessionID p, sp_Revision p)]
  | _ => []
  end.

Lemma wire_revisions_contiguous_witness :
  Forall (fun wv => wv.2 <> Panicked /\ is_Some (follow_all ∅ wv.1)) (life fresh_client sample_life) /\
  map (fun wv : list wire * verdict => map wire_brief wv.1) (life fresh_client sample_life)
  = [[]; [[("s1", 1)]; [("s1", 2)]; [("s2", 1)]]; [[("s1", 3); ("s2", 1)]; [("s1", 4)]]]%string.
Proof.
  split; [|vm_compute; reflexivity].
  apply wire_revisions_contiguous; [apply newQueue_wf | intros s r H; change (rs_rev (revisions fresh_client)) with (∅ : gmap string Z) in H; rewrite lookup_empty in H; discriminate | vm_compute; reflexivity].
Defined.

(** A session that ends before its first notification is sent: the two states are
    coalesced, the control plane is told that a session started with status
    stopped, no end is ever sent, and the counter stays although the next
    snapshot does not list the session. *)
Lemma short_session_reported_as_started :
  let '(c, ws, _) := serve fresh_client
    [SvNotify (reported "s1" StatusRunning) 1; SvNotify (reported "s1" StatusStopped) 2; SvDirty 3 good_disk (fun _ => true);
     SvServerError true; SvReconcile (sample_snapshot [] 4)] in
  (exists inter, ws = [SessionEvent SessionStarted (MkPayload "s1" "echo" "proj" StatusStopped 1 3 inter); SessionSnapshots []]) /\
  Current (revisions c) "s1" = 1.
Proof. vm_compute; split; [eexists|]; reflexivity. Qed.

(** The notifications behind one whose write fails were taken out of the queue:
    they are not sent, and the counter of an ended session among them stays. *)
Lemma lost_behind_failed_write :
  let start := [SvNotify (reported "s1" StatusRunning) 1; SvNotify (reported "s2" StatusRunning) 1; SvDirty 2 good_disk (fun _ => true)] in
  let '(c, _, v) := serve fresh_client (start ++
    [SvNotify (reported "s1" StatusStopped) 3; SvNotify (reported "s2" StatusStopped) 3; SvDirty 4 good_disk (fun _ => false)]) in
  v = Lost /\ pending (queue c) = ∅ /\
  let '(c, ws, _) := connected c "org" "inst" 5 true (sample_snapshot [] 6) [] in
  ws = [SessionSnapshots []] /\ 0 < Current (revisions c) "s1" /\ 0 < Current (revisions c) "s2".
Proof. vm_compute; repeat split. Qed.
