(* ===== verification/ControlRequests.v ===== *)
(** * Requests of the control plane: internal/bridgecontrol/terminal.go, activity.go, diagnostic.go

    The remote terminal: viewers read windows, one of them may take the writer
    slot of a session under a lease that a timer ends; requests for activity
    and diagnostics.  Everything is addressed to one organisation and one
    installation.

    The terminal manager is under one mutex, so a run is a sequence of requests,
    timers and the end of the connection, each with the supervisor state it
    finds and leaves.  The goroutine that discards the live output of a lease
    is part of the attachment and not modelled. *)

From S2P Require Import Prelude Types ByteBuf GoStd Policy Registry Screen Store Session SessionInv Supervisor Reach Streams Terminal Activity.

(** ** Requests *)

Record TerminalRequest := MkTerminalRequest {
  tr_Stream : bool;
  tr_ID : string;
  tr_OrganizationID : string;
  tr_InstallationID : string;
  tr_SessionID : string;
  tr_ClientID : string;
  tr_Action : string;
  tr_KeepWriter : bool;
  tr_AfterSequence : Z;
  tr_Data : bytes;
  tr_Cols : Z;
  tr_Rows : Z;
  tr_ExpiresAt : Time;
}.

Record TerminalResult := MkTerminalResult { tl_ID : string; tl_Window : option TerminalWindow; tl_Code : string }.

(** A lease: its address, the session and client, when it expires, and when its
    timer fires ([None]: the timer was stopped). *)
Record terminalLease := MkLease {
  ls_addr : nat;
  ls_session : string;
  ls_client : string;
  ls_expires : Time;
  ls_timer : option Time;
}.

Record terminalManager := MkManager {
  leases : gmap string terminalLease;
  streams : gset string;
  tm_alloc : nat;
}.

Definition newManager : terminalManager := MkManager ∅ ∅ 0.

(** The time to live that [readLoop] gives a lease, and the limits. *)
Definition lease_ttl : Duration := 15 * Second.
Definition max_leases : Z := 64.
Definition max_streams : Z := 32.

Definition nul : string := String (Ascii.ascii_of_nat 0) "".

Definition lease_key (session client : string) : string := session +:+ nul +:+ client.

(** The times a request reads the clock, and what the operating system answers. *)
Record terminal_world := MkTerminalWorld {
  tw_now1 : Time;
  tw_now2 : Time;
  tw_now3 : Time;
  tw_io : Z * option error;
  tw_setsize : option error;
}.

Section Terminal.
Context `{E : Emulator} `{S : SessionStore}.

(** [release]; a panic of the supervisor's fan-out goes through. *)
Definition release (m : terminalManager) (s : Supervisor) (key : string) : terminalManager * Supervisor * outcome unit :=
  match leases m !! key with
  | None => (m, s, Ok tt)
  | Some l =>
      let m' := MkManager (delete key (leases m)) (streams m) (tm_alloc m) in
      match Detach s (ls_session l) (ls_client l) with
      | (s, Ok true) =>
          match NotifyWriterReleased s (ls_session l) (ls_client l) with
          | (s, Panic w) => (m, s, Panic w)
          | (s, _) => (m', s, Ok tt)
          end
      | (s, Panic w) => (m, s, Panic w)
      | (s, _) => (m', s, Ok tt)
      end
  end.

(** [close]: every stream is cancelled and every lease released. *)
Fixpoint release_all (m : terminalManager) (s : Supervisor) (keys : list string) : terminalManager * Supervisor * outcome unit :=
  match keys with
  | [] => (m, s, Ok tt)
  | key :: keys =>
      match release m s key with
      | (m, s, Ok _) => release_all m s keys
      | r => r
      end
  end.

Definition close (m : terminalManager) (s : Supervisor) : terminalManager * Supervisor * outcome unit :=
  release_all m s (map fst (map_to_list (leases m))).

(** The timer of the lease at address [addr] under [key] fires. *)
Definition timer_fires (m : terminalManager) (s : Supervisor) (key : string) (addr : nat) (now : Time)
    : terminalManager * Supervisor * outcome unit :=
  match leases m !! key with
  | None => (m, s, Ok tt)
  | Some l =>
      if negb (ls_addr l =? addr)%nat then (m, s, Ok tt)
      else if now <? ls_expires l
      then (MkManager (<[key := MkLease (ls_addr l) (ls_session l) (ls_client l) (ls_expires l) (Some (ls_expires l))]> (leases m))
              (streams m) (tm_alloc m), s, Ok tt)
      else release m s key
  end.

Definition invalid_terminal (r : TerminalRequest) (w : terminal_world) : bool :=
  str_eqb (tr_ID r) "" || (128 <? slen (tr_ID r)) || str_eqb (tr_SessionID r) "" || (256 <? slen (tr_SessionID r)) ||
  (slen (tr_ClientID r) <? 1) || (128 <? slen (tr_ClientID r)) || (16384 <? zlen (tr_Data r)) ||
  (tr_ExpiresAt r <? tw_now1 w) || (tw_now2 w + 30 * Second <? tr_ExpiresAt r).

(** How the [switch] on the action ends: it answers a code, or goes on to read the
    window, with the error of the supervisor if there was one. *)
Inductive acted := Answered (code : string) | Proceed (err : option error).

Definition err_of {A} (r : outcome A) : outcome acted :=
  match r with Ok _ => Ok (Proceed None) | Err e => Ok (Proceed (Some e)) | Panic w => Panic w end.

Definition attach_action (m : terminalManager) (s : Supervisor) (r : TerminalRequest) (w : terminal_world)
    : terminalManager * Supervisor * outcome acted :=
  let key := lease_key (tr_SessionID r) (tr_ClientID r) in
  match leases m !! key with
  | Some _ => (m, s, Ok (Proceed None))
  | None =>
      if max_leases <=? zlen (map_to_list (leases m)) then (m, s, Ok (Answered "busy"))
      else match Attach s (tr_SessionID r) (tr_ClientID r) (tr_AfterSequence r) AttachRoleWriter (tw_now3 w) with
           | (s, Panic p) => (m, s, Panic p)
           | (s, Err e) => (m, s, Ok (Proceed (Some e)))
           | (s, Ok state) =>
               if negb (bool_decide (as_Role state = AttachRoleWriter)) || as_ExitRecorded state
               then let '(s, d) := Detach s (tr_SessionID r) (tr_ClientID r) in
                    (m, s, match d with Panic p => Panic p | _ => Ok (Answered "session_ended") end)
               else
                 let l := MkLease (tm_alloc m) (tr_SessionID r) (tr_ClientID r) (tw_now3 w + lease_ttl) (Some (tw_now3 w + lease_ttl)) in
                 let m := MkManager (<[key := l]> (leases m)) (streams m) (Datatypes.S (tm_alloc m)) in
                 let '(s, n) := NotifyWriterClaimed s (tr_SessionID r) (tr_ClientID r) in
                 (m, s, match n with Panic p => Panic p | _ => Ok (Proceed None) end)
           end
  end.

Definition action (m : terminalManager) (s : Supervisor) (r : TerminalRequest) (w : terminal_world)
    : terminalManager * Supervisor * outcome acted :=
  let key := lease_key (tr_SessionID r) (tr_ClientID r) in
  let attached := match leases m !! key with Some _ => true | None => false end in
  if str_eqb (tr_Action r) "watch" then
    match leases m !! key with
    | None => (m, s, Ok (Proceed None))
    | Some l =>
        if tr_KeepWriter r
        then (MkManager (<[key := MkLease (ls_addr l) (ls_session l) (ls_client l) (tw_now3 w + lease_ttl) (Some (tw_now3 w + lease_ttl))]> (leases m))
                (streams m) (tm_alloc m), s, Ok (Proceed None))
        else let '(m, s, o) := release m s key in (m, s, err_of o)
    end
  else if str_eqb (tr_Action r) "attach" then attach_action m s r w
  else if str_eqb (tr_Action r) "detach" then let '(m, s, o) := release m s key in (m, s, err_of o)
  else if str_eqb (tr_Action r) "input" then
    if negb attached then (m, s, Ok (Answered "not_attached"))
    else let '(s, o) := WriteInput s (tr_SessionID r) (tr_ClientID r) (tr_Data r) (tw_io w) (tw_now3 w) in (m, s, err_of o)
  else if str_eqb (tr_Action r) "resize" then
    if negb attached then (m, s, Ok (Answered "not_attached"))
    else if (tr_Cols r <? 2) || (500 <? tr_Cols r) || (tr_Rows r <? 1) || (300 <? tr_Rows r) then (m, s, Ok (Answered "invalid_request"))
    else let '(s, o) := Resize s (tr_SessionID r) (tr_ClientID r) (tr_Cols r) (tr_Rows r) (tw_setsize w) (tw_now3 w) in (m, s, err_of o)
  else (m, s, Ok (Answered "invalid_request")).

Definition failed (r : TerminalRequest) (code : string) : TerminalResult := MkTerminalResult (tr_ID r) None code.

(** The window at the end of [handle]. *)
Definition read_result (m : terminalManager) (s : Supervisor) (r : TerminalRequest) : terminalManager * Supervisor * outcome TerminalResult :=
  let key := lease_key (tr_SessionID r) (tr_ClientID r) in
  match ReadWindow s (tr_SessionID r) (tr_ClientID r) (tr_AfterSequence r) with
  | (s, Panic p) => (m, s, Panic p)
  | (s, Err e) =>
      (m, s, Ok (failed r (if errors_Is e ErrSessionRecoveryUnavailable then "recovery_unavailable" else "unavailable")))
  | (s, Ok win) =>
      let result := MkTerminalResult (tr_ID r) (Some win) "" in
      if negb (w_Writer win) && match leases m !! key with Some _ => true | None => false end
      then let '(m, s, o) := release m s key in (m, s, match o with Panic p => Panic p | _ => Ok result end)
      else (m, s, Ok result)
  end.

(** [handle]; [sup] is what [m.supervisor] gives: [None] when the function or its
    result is nil. *)
Definition handle (m : terminalManager) (sup : option Supervisor) (r : TerminalRequest) (w : terminal_world)
    : terminalManager * option Supervisor * outcome TerminalResult :=
  if invalid_terminal r w then (m, sup, Ok (failed r "invalid_request"))
  else match sup with
       | None => (m, None, Ok (failed r "unsupported"))
       | Some s =>
           match action m s r w with
           | (m, s, Panic p) => (m, Some s, Panic p)
           | (m, s, Err e) => (m, Some s, Err e)
           | (m, s, Ok (Answered code)) => (m, Some s, Ok (failed r code))
           | (m, s, Ok (Proceed (Some e))) =>
               (m, Some s, Ok (failed r (if errors_Is e ErrWriterConflict then "writer_conflict" else "unavailable")))
           | (m, s, Ok (Proceed None)) => let '(m, s, o) := read_result m s r in (m, Some s, o)
           end
       end.

(** *** Streams *)

(** The admission of [startStream]: the stream registers or is refused. *)
Definition startStream (m : terminalManager) (r : TerminalRequest) : terminalManager * option TerminalResult :=
  if bool_decide (tr_ID r ∈ streams m) || (max_streams <=? zlen (elements (streams m))) ||
     negb (str_eqb (tr_Action r) "watch") || tr_KeepWriter r
  then (m, Some (failed r "invalid_request"))
  else (MkManager (leases m) ({[tr_ID r]} ∪ streams m) (tm_alloc m), None).

(** The goroutine of a stream ends. *)
Definition endStream (m : terminalManager) (id : string) : terminalManager :=
  MkManager (leases m) (streams m ∖ {[id]}) (tm_alloc m).

(** The loop of a stream after its first window: each iteration waits and reads
    from the last sequence sent.  [waits] is what the daemon does while the
    stream waits, [sends] whether the result could be written; the stream ends
    when it runs out of them. *)
Fixpoint stream_loop (s : Supervisor) (r : TerminalRequest) (after : Z)
    (waits : list ((Supervisor -> Supervisor * wake) * bool)) : Supervisor * list TerminalResult :=
  match waits with
  | [] => (s, [])
  | (wait, sent) :: waits =>
      match WaitTerminalWindow s (tr_SessionID r) (tr_ClientID r) after wait with
      | (s, Ok win) =>
          if negb sent then (s, [])
          else if w_Ended win then (s, [MkTerminalResult (tr_ID r) (Some win) ""])
          else let '(s, rs) := stream_loop s r (w_NextSequence win) waits in (s, MkTerminalResult (tr_ID r) (Some win) "" :: rs)
      | (s, Err e) =>
          (s, if errors_Is e ErrSessionRecoveryUnavailable then [failed r "recovery_unavailable"] else [])
      | (s, Panic _) => (s, [])
      end
  end.
End Terminal.

(** ** Activity (activity.go) *)

Record ObservationRequest := MkObservation {
  ob_ID : string;
  ob_OrganizationID : string;
  ob_InstallationID : string;
  ob_SessionID : string;
  ob_AfterSequence : Z;
  ob_MaxEvents : Z;
  ob_MaxBytes : Z;
}.

Record ObservationResult := MkObservationResult { or_ID : string; or_Window : option ActivityWindow; or_Code : string }.

Definition unaddressed (id org inst session org' inst' : string) : bool :=
  str_eqb id "" || (128 <? slen id) || str_eqb session "" || (256 <? slen session) ||
  negb (str_eqb org org') || negb (str_eqb inst inst').

(** [observe]; [f] is [ObserveFunc], [None] when it is nil. *)
Definition observe (org inst : string) (f : option (string -> Z -> Z -> Z -> outcome ActivityWindow)) (r : ObservationRequest) : ObservationResult :=
  if unaddressed (ob_ID r) (ob_OrganizationID r) (ob_InstallationID r) (ob_SessionID r) org inst
  then MkObservationResult (ob_ID r) None "invalid_request"
  else match f with
       | None => MkObservationResult (ob_ID r) None "unsupported"
       | Some f =>
           match f (ob_SessionID r) (ob_AfterSequence r) (ob_MaxEvents r) (ob_MaxBytes r) with
           | Ok w => MkObservationResult (ob_ID r) (Some w) ""
           | _ => MkObservationResult (ob_ID r) None "unsupported"
           end
       end.

(** ** Diagnostics (diagnostic.go) *)

Definition maxDiagnosticBytes : Z := 16 * 1024.

Record DiagnosticRequest := MkDiagnostic { dg_ID : string; dg_OrganizationID : string; dg_InstallationID : string; dg_SessionID : string }.

Record DiagnosticResult := MkDiagnosticResult { dr_ID : string; dr_Report : option bytes; dr_Code : string }.

(** [diagnose]; [valid] is [json.Valid]. *)
Definition diagnose (org inst : string) (f : option (string -> error + bytes)) (valid : bytes -> bool) (r : DiagnosticRequest) : DiagnosticResult :=
  let result := MkDiagnosticResult (dg_ID r) None in
  if unaddressed (dg_ID r) (dg_OrganizationID r) (dg_InstallationID r) (dg_SessionID r) org inst then result "invalid_request"
  else match f with
       | None => result "unsupported"
       | Some f =>
           match f (dg_SessionID r) with
           | inl e => result (if errors_Is e ErrSessionNotFound then "not_found" else "unavailable")
           | inr report =>
               if (zlen report =? 0) || (maxDiagnosticBytes <? zlen report) || negb (valid report) then result "unavailable"
               else MkDiagnosticResult (dg_ID r) (Some report) ""
           end
       end.

(** ** Leases *)

Section Leases.
Context `{E : Emulator} `{S : SessionStore}.

(** At most sixty-four leases, each under the key of its session and client, with
    an address of its own and its timer set for the moment it expires. *)
Record manager_inv (m : terminalManager) : Prop := {
  mi_bound : zlen (map_to_list (leases m)) <= max_leases;
  mi_key : forall key l, leases m !! key = Some l -> key = lease_key (ls_session l) (ls_client l);
  mi_armed : forall key l, leases m !! key = Some l -> ls_timer l = Some (ls_expires l);
  mi_addr : forall key l, leases m !! key = Some l -> (ls_addr l < tm_alloc m)%nat;
}.

(** The client is not attached to the session. *)
Definition detached (s : Supervisor) (id client : string) : Prop :=
  forall ms, sessions s !! id = Some ms -> ms_recovered ms = false -> ms_observers ms !! client = None.

(** One step leaves no new attachment behind. *)
Definition keeps_detached (s s' : Supervisor) : Prop :=
  forall id client, detached s id client -> detached s' id client.

Lemma keeps_refl s s' : sessions s' = sessions s -> keeps_detached s s'.
Proof. intros E1 id c H ms; rewrite E1; apply H. Qed.

Lemma keeps_detached_trans s1 s2 s3 : keeps_detached s1 s2 -> keeps_detached s2 s3 -> keeps_detached s1 s3.
Proof. intros H1 H2 id c H; auto. Qed.

Lemma keeps_put s s' id ms ms' :
  sessions s !! id = Some ms -> sessions s' = <[id := ms']> (sessions s) ->
  (ms_recovered ms' = false -> ms_recovered ms = false) ->
  (forall c, ms_observers ms !! c = None -> ms_observers ms' !! c = None) -> keeps_detached s s'.
Proof.
  intros Hs E1 Hr Ho i c H x; rewrite E1; destruct (decide (i = id)) as [->|Hi].
  - rewrite lookup_insert_eq; intros [= <-] Hx; apply Ho, (H ms Hs), Hr, Hx.
  - rewrite lookup_insert_ne by congruence; apply H.
Qed.

Lemma detach_locked_gone ms c w ms' notes :
  detach_locked ms c = Ok (w, ms', notes) ->
  ms_recovered ms' = ms_recovered ms /\ (ms_recovered ms = false -> ms_observers ms' = delete c (ms_observers ms)) /\
  (ms_recovered ms = true -> ms' = ms).
Proof.
  unfold detach_locked; destruct (ms_recovered ms) eqn:Er; [intros [= _ <- _]; split_and!; auto; discriminate|].
  destruct (ms_observers ms !! c); [|discriminate].
  destruct (str_eqb _ c); destruct (_ && _); intros [= _ <- _]; split_and!; auto; discriminate.
Qed.

Lemma Detach_detached s id c s' r :
  Detach s id c = (s', r) -> (forall p, r <> Panic p) -> detached s' id c /\ keeps_detached s s'.
Proof.
  unfold Detach; destruct (sessions s !! id) as [ms|] eqn:Es.
  - destruct (detach_locked ms c) as [[[w ms'] notes]|e|p] eqn:Ed; intros [= <- <-] Hp; [| |destruct (Hp p); reflexivity].
    + apply detach_locked_gone in Ed as (Hr & Ho & Hk).
      assert (Hs : sessions (notifyControl notes (put_session id ms' s)) = <[id := ms']> (sessions s)) by apply sessions_notify.
      split.
      * intros x; rewrite Hs, lookup_insert_eq; intros [= <-] Hx; rewrite Hr in Hx; rewrite Ho by exact Hx; apply lookup_delete_eq.
      * apply (keeps_put _ _ id ms ms'); [exact Es | exact Hs | congruence|].
        intros c' Hc; destruct (ms_recovered ms); [rewrite Hk by reflexivity; exact Hc | rewrite Ho by reflexivity; apply lookup_delete_None; auto].
    + split; [|apply keeps_refl; reflexivity]; intros x Hx Hrx; rewrite Es in Hx; injection Hx as <-.
      unfold detach_locked in Ed; rewrite Hrx in Ed; destruct (ms_observers ms !! c) as [en|] eqn:Eo; [|reflexivity].
      exfalso; repeat (case_match; try discriminate).
  - intros [= <- _] _; split; [intros ms; congruence | apply keeps_refl; reflexivity].
Qed.

Lemma fanout_keeps s id t p s' r : fanout s id t p = (s', r) -> keeps_detached s s'.
Proof.
  unfold fanout; destruct (sessions s !! id) as [ms|] eqn:Es; [|intros [= <- _]; apply keeps_refl; reflexivity].
  unfold fanoutControlEvent; destruct (ms_liveClosed ms).
  - intros [= <- _]; apply (keeps_put _ _ id ms ms); auto.
  - destruct (send_all _ _ _) as [h|e|w]; intros [= <- _]; [|apply keeps_refl; reflexivity..].
    apply (keeps_put _ _ id ms (with_chans h ms)); auto.
Qed.

(** A release without panic takes the lease away and detaches its client. *)
Lemma release_ok m s key m' s' u :
  release m s key = (m', s', Ok u) ->
  leases m' = delete key (leases m) /\ streams m' = streams m /\ tm_alloc m' = tm_alloc m /\ keeps_detached s s' /\
  (forall l, leases m !! key = Some l -> detached s' (ls_session l) (ls_client l)).
Proof.
  unfold release; destruct (leases m !! key) as [l|] eqn:El.
  2:{ intros [= <- <- _]; rewrite delete_id by exact El; split_and!; auto; [apply keeps_refl; reflexivity | congruence]. }
  destruct (Detach s (ls_session l) (ls_client l)) as [s1 r1] eqn:Ed; pose proof (Detach_detached _ _ _ _ _ Ed) as D.
  destruct r1 as [[|]|e|p]; [| | |discriminate].
  - destruct (NotifyWriterReleased s1 (ls_session l) (ls_client l)) as [s2 r2] eqn:En.
    destruct D as [D1 D2]; [discriminate|]; apply fanout_keeps in En.
    destruct r2; intros [= <- <- _]; (split_and!; auto; [eapply keeps_detached_trans; eassumption | intros x [= <-]; apply En, D1]).
  - destruct D as [D1 D2]; [discriminate|]; intros [= <- <- _]; split_and!; auto; intros x [= <-]; exact D1.
  - destruct D as [D1 D2]; [discriminate|]; intros [= <- <- _]; split_and!; auto; intros x [= <-]; exact D1.
Qed.

Lemma size_lease_delete (m : gmap string terminalLease) key : zlen (map_to_list (delete key m)) <= zlen (map_to_list m).
Proof.
  destruct (m !! key) as [l|] eqn:El; [|rewrite delete_id by exact El; lia].
  unfold zlen; rewrite <- (map_to_list_delete m key l El); simpl length; lia.
Qed.

Lemma inv_delete m key st a : manager_inv m -> (tm_alloc m <= a)%nat -> manager_inv (MkManager (delete key (leases m)) st a).
Proof.
  intros [I1 I2 I3 I4] Ha; split; cbn.
  - pose proof (size_lease_delete (leases m) key); lia.
  - intros k l Hk; apply lookup_delete_Some in Hk as [_ Hk]; eauto.
  - intros k l Hk; apply lookup_delete_Some in Hk as [_ Hk]; eauto.
  - intros k l Hk; apply lookup_delete_Some in Hk as [_ Hk]; apply I4 in Hk; lia.
Qed.

Lemma lease_release_inv m s key m' s' u : manager_inv m -> release m s key = (m', s', Ok u) -> manager_inv m'.
Proof.
  intros I H; apply release_ok in H as (El & Est & Ea & _); destruct m'; cbn in *; subst; apply inv_delete; auto.
Qed.

(** Renewing or granting a lease. *)
Lemma inv_insert m key l a :
  manager_inv m -> key = lease_key (ls_session l) (ls_client l) -> ls_timer l = Some (ls_expires l) ->
  (ls_addr l < a)%nat -> (tm_alloc m <= a)%nat ->
  (is_Some (leases m !! key) \/ zlen (map_to_list (leases m)) < max_leases) ->
  manager_inv (MkManager (<[key := l]> (leases m)) (streams m) a).
Proof.
  intros [I1 I2 I3 I4] Hk Ht Hl Ha Hb.
  assert (K : forall k x, <[key := l]> (leases m) !! k = Some x -> k = key /\ x = l \/ leases m !! k = Some x).
  { intros k x; destruct (decide (k = key)) as [->|Hn]; [rewrite lookup_insert_eq; intros [= <-]; auto|].
    rewrite lookup_insert_ne by congruence; auto. }
  split; cbn.
  - destruct (leases m !! key) as [x|] eqn:Ex.
    + unfold zlen in *; rewrite <- (map_to_list_delete (<[key := l]> (leases m)) key l) by apply lookup_insert_eq.
      rewrite delete_insert_eq; rewrite <- (map_to_list_delete (leases m) key x Ex) in I1; cbn in *; lia.
    + destruct Hb as [[? ?]|Hb]; [discriminate|]; unfold zlen in *; rewrite map_to_list_insert by exact Ex; cbn; lia.
  - intros k x Hx; apply K in Hx as [[-> ->]|Hx]; eauto.
  - intros k x Hx; apply K in Hx as [[-> ->]|Hx]; eauto.
  - intros k x Hx; apply K in Hx as [[-> ->]|Hx]; [exact Hl | apply I4 in Hx; lia].
Qed.
End Leases.

Section LeaseRuns.
Context `{E : Emulator} `{S : SessionStore}.

(** On a daemon state that can occur, a release always goes through. *)
Lemma release_total m s key :
  sup_inv s -> exists m' s', release m s key = (m', s', Ok tt) /\ sup_inv s'.
Proof.
  intros I; unfold release; destruct (leases m !! key) as [l|]; [|eauto].
  pose proof (Detach_fine s (ls_session l) (ls_client l) I) as [F1 F2].
  destruct (Detach s (ls_session l) (ls_client l)) as [s1 [[|]|e|p]]; cbn in *; eauto; [|destruct (F2 p eq_refl)].
  pose proof (fanout_fine s1 (ls_session l) ChunkTypeWriterReleased (bytes_of_string (ls_client l)) F1) as [G1 G2].
  unfold NotifyWriterReleased; destruct (fanout s1 _ _ _) as [s2 [u|e|p]]; cbn in *; eauto; destruct (G2 p eq_refl).
Qed.

Lemma release_streams m s key m' s' o : release m s key = (m', s', o) -> streams m' = streams m.
Proof. unfold release; repeat case_match; intros [= <- _ _]; reflexivity. Qed.

Lemma action_streams m s r w m' s' o : action m s r w = (m', s', o) -> streams m' = streams m.
Proof.
  unfold action, attach_action; repeat case_match; intros [= <- _ _]; try reflexivity; eapply release_streams; eassumption.
Qed.

Lemma handle_streams m sup r w m' sup' o : handle m sup r w = (m', sup', o) -> streams m' = streams m.
Proof.
  unfold handle; destruct (invalid_terminal r w); [intros [= <- _ _]; reflexivity|].
  destruct sup as [s|]; [|intros [= <- _ _]; reflexivity].
  destruct (action m s r w) as [[m1 s1] a] eqn:Ea; apply action_streams in Ea.
  destruct a as [[code|[e|]]|e|p]; try (intros [= <- _ _]; exact Ea).
  unfold read_result; destruct (ReadWindow s1 _ _ _) as [s2 [win|e|p]]; try (intros [= <- _ _]; exact Ea).
  destruct (_ && _); [|intros [= <- _ _]; exact Ea].
  destruct (release m1 s2 _) as [[m2 s3] o1] eqn:Er; apply release_streams in Er; intros [= <- _ _]; congruence.
Qed.

Lemma remote_attach_inv m s r w m' s' a : manager_inv m -> attach_action m s r w = (m', s', Ok a) -> manager_inv m'.
Proof.
  intros I; unfold attach_action; destruct (leases m !! _) eqn:El; [intros [= <- _ _]; exact I|].
  destruct (max_leases <=? zlen (map_to_list (leases m))) eqn:Eb; [intros [= <- _ _]; exact I|]; bool_to_prop.
  destruct (Attach s _ _ _ _ _) as [s1 [state|e|p]]; [|intros [= <- _ _]; exact I | discriminate].
  destruct (_ || as_ExitRecorded state).
  - destruct (Detach s1 _ _) as [s2 [b|e|p]]; intros [= <- _ _]; exact I.
  - destruct (NotifyWriterClaimed s1 _ _) as [s2 [b|e|p]]; intros [= <- _ _]; (apply inv_insert; cbn; auto; lia).
Qed.

Lemma action_inv m s r w m' s' a : manager_inv m -> action m s r w = (m', s', Ok a) -> manager_inv m'.
Proof.
  intros I; unfold action.
  destruct (str_eqb (tr_Action r) "watch").
  { destruct (leases m !! _) as [l|] eqn:El; [|intros [= <- _ _]; exact I].
    destruct (tr_KeepWriter r).
    - intros [= <- _ _]; apply inv_insert; cbn; eauto; [apply (mi_key m I _ _ El) | apply (mi_addr m I _ _ El)].
    - destruct (release m s _) as [[m1 s1] [u|e|p]] eqn:Er; cbn; intros [= <- _ _]; [eapply lease_release_inv; eassumption|].
      unfold release in Er; repeat (case_match; try discriminate). }
  destruct (str_eqb (tr_Action r) "attach"); [apply remote_attach_inv, I|].
  destruct (str_eqb (tr_Action r) "detach").
  { destruct (release m s _) as [[m1 s1] [u|e|p]] eqn:Er; cbn; intros [= <- _ _]; [eapply lease_release_inv; eassumption|].
    unfold release in Er; repeat (case_match; try discriminate). }
  destruct (str_eqb (tr_Action r) "input").
  { destruct (leases m !! _); cbn [negb]; [destruct (WriteInput s _ _ _ _ _) as [s1 o]|]; intros [= <- _ _]; exact I. }
  destruct (str_eqb (tr_Action r) "resize"); [|intros [= <- _ _]; exact I].
  destruct (leases m !! _); cbn [negb]; [|intros [= <- _ _]; exact I].
  destruct (_ || (300 <? tr_Rows r)); [intros [= <- _ _]; exact I|].
  destruct (Resize s _ _ _ _ _ _) as [s1 o]; intros [= <- _ _]; exact I.
Qed.

Lemma handle_inv m sup r w m' sup' res : manager_inv m -> handle m sup r w = (m', sup', Ok res) -> manager_inv m'.
Proof.
  intros I; unfold handle; destruct (invalid_terminal r w); [intros [= <- _ _]; exact I|].
  destruct sup as [s|]; [|intros [= <- _ _]; exact I].
  destruct (action m s r w) as [[m1 s1] [a|e|p]] eqn:Ea; try discriminate; apply action_inv in Ea; [|exact I].
  destruct a as [code|[e|]]; [intros [= <- _ _]; exact Ea | intros [= <- _ _]; exact Ea|].
  unfold read_result; destruct (ReadWindow s1 _ _ _) as [s2 [win|e|p]]; try discriminate; [|intros [= <- _ _]; exact Ea].
  destruct (_ && _); [|intros [= <- _ _]; exact Ea].
  destruct (release m1 s2 _) as [[m2 s3] [u|e|p]] eqn:Er; intros [= <- _ _]; [eapply lease_release_inv; eassumption|].
  unfold release in Er; repeat (case_match; try discriminate).
Qed.

(** *** What a request does to the leases *)

Definition request_key (r : TerminalRequest) : string := lease_key (tr_SessionID r) (tr_ClientID r).

Definition renewed (w : terminal_world) (l : terminalLease) : terminalLease :=
  MkLease (ls_addr l) (ls_session l) (ls_client l) (tw_now3 w + lease_ttl) (Some (tw_now3 w + lease_ttl)).

(** From [before] to [after], on a daemon left in state [s']: a lease that is gone
    has its client detached; one that stays is the same, or renewed by a watch
    that keeps the writer; a new one was asked for and expires in time. *)
Definition lease_change (r : TerminalRequest) (w : terminal_world) (before after : option terminalLease) (s' : Supervisor) : Prop :=
  match before, after with
  | Some l, None => detached s' (ls_session l) (ls_client l)
  | Some l, Some l' => l' = l \/ tr_Action r = "watch"%string /\ tr_KeepWriter r = true /\ l' = renewed w l
  | None, Some l' => tr_Action r = "attach"%string /\ ls_session l' = tr_SessionID r /\ ls_client l' = tr_ClientID r /\ ls_expires l' = tw_now3 w + lease_ttl
  | None, None => True
  end.

(** A request that gives its lease up. *)
Definition gives_up (r : TerminalRequest) : bool :=
  str_eqb (tr_Action r) "detach" || (str_eqb (tr_Action r) "watch" && negb (tr_KeepWriter r)).

Lemma lease_change_same r w o s' : lease_change r w o o s'.
Proof. unfold lease_change; destruct o; auto. Qed.

Lemma release_change r w m s m' s' u :
  release m s (request_key r) = (m', s', Ok u) ->
  lease_change r w (leases m !! request_key r) (leases m' !! request_key r) s' /\ leases m' !! request_key r = None /\
  (forall key, key <> request_key r -> leases m' !! key = leases m !! key).
Proof.
  intros H; apply release_ok in H as (El & _ & _ & _ & D); rewrite El, lookup_delete_eq; split_and!; auto.
  - unfold lease_change; destruct (leases m !! request_key r) as [l|]; auto.
  - intros key Hk; apply lookup_delete_ne; congruence.
Qed.

Lemma err_of_Ok {A} (o : outcome A) a : err_of o = Ok a -> (exists x, o = Ok x) \/ exists e, o = Err e.
Proof. destruct o; simpl; intros; (discriminate || eauto). Qed.

Lemma release_Ok m s key m' s' o a : release m s key = (m', s', o) -> err_of o = Ok a -> exists u, release m s key = (m', s', Ok u).
Proof.
  intros H Ho; destruct o as [u|e|p]; [eauto | | discriminate].
  unfold release in H; repeat (case_match; try discriminate).
Qed.

Lemma action_change m s r w m' s' a :
  action m s r w = (m', s', Ok a) ->
  lease_change r w (leases m !! request_key r) (leases m' !! request_key r) s' /\
  (forall key, key <> request_key r -> leases m' !! key = leases m !! key) /\
  (gives_up r = true -> leases m' !! request_key r = None).
Proof.
  unfold action, gives_up; fold (request_key r).
  destruct (str_eqb (tr_Action r) "watch") eqn:Ew.
  { assert (str_eqb (tr_Action r) "detach" = false) as -> by (bool_to_prop; rewrite Ew; reflexivity); simpl.
    destruct (leases m !! request_key r) as [l|] eqn:El; [|intros [= <- _ _]; rewrite El; simpl; auto].
    destruct (tr_KeepWriter r) eqn:Ek.
    - intros [= <- _ _]; simpl; rewrite lookup_insert_eq; split_and!; [right; bool_to_prop; auto | | discriminate].
      intros key Hk; apply lookup_insert_ne; congruence.
    - destruct (release m s (request_key r)) as [[m1 s1] o] eqn:Er; intros [= <- <- Ha].
      destruct (release_Ok _ _ _ _ _ _ _ Er Ha) as [u Eu]; apply (release_change r w) in Eu as (K1 & K2 & K3); rewrite El in K1; auto. }
  destruct (str_eqb (tr_Action r) "attach") eqn:Ea.
  { assert (str_eqb (tr_Action r) "detach" = false) as -> by (bool_to_prop; rewrite Ea; reflexivity); simpl.
    unfold attach_action; fold (request_key r); destruct (leases m !! request_key r) eqn:El; [intros [= <- _ _]; rewrite El; split_and!; auto; [apply lease_change_same | discriminate]|].
    assert (Hno : forall s0, lease_change r w None (leases m !! request_key r) s0) by (intros; rewrite El; exact I).
    destruct (_ <=? _); [intros [= <- _ _]; split_and!; auto; discriminate|].
    destruct (Attach s _ _ _ _ _) as [s1 [state|e|p]]; [|intros [= <- _ _]; split_and!; auto; discriminate | discriminate].
    destruct (_ || as_ExitRecorded state).
    - destruct (Detach s1 _ _) as [s2 [b|e|p]]; intros [= <- _ _]; split_and!; auto; discriminate.
    - destruct (NotifyWriterClaimed s1 _ _) as [s2 [b|e|p]]; intros [= <- _ _]; simpl; rewrite lookup_insert_eq;
        (split; [bool_to_prop; simpl; auto | split; [intros key Hk; apply lookup_insert_ne; congruence | discriminate]]). }
  simpl; destruct (str_eqb (tr_Action r) "detach").
  { destruct (release m s (request_key r)) as [[m1 s1] o] eqn:Er; intros [= <- <- Ha].
    destruct (release_Ok _ _ _ _ _ _ _ Er Ha) as [u Eu]; apply (release_change r w) in Eu as (K1 & K2 & K3); auto. }
  simpl; intros H; assert (leases m' = leases m) as ->; [|split_and!; auto; [apply lease_change_same | discriminate]].
  revert H; destruct (str_eqb (tr_Action r) "input").
  { destruct (negb _); [intros [= <- _ _]; reflexivity|]; destruct (WriteInput s _ _ _ _ _); intros [= <- _ _]; reflexivity. }
  destruct (str_eqb (tr_Action r) "resize"); [|intros [= <- _ _]; reflexivity].
  destruct (negb _); [intros [= <- _ _]; reflexivity|]; destruct (_ || (300 <? tr_Rows r)); [intros [= <- _ _]; reflexivity|].
  destruct (Resize s _ _ _ _ _ _); intros [= <- _ _]; reflexivity.
Qed.

Lemma terminal_window_observers st ms id c after :
  ms_observers (fst (terminal_window st ms id c after)) = ms_observers ms /\
  ms_recovered (fst (terminal_window st ms id c after)) = ms_recovered ms.
Proof.
  assert (K : forall last, ms_observers (snd (screen_checkpoint ms last)) = ms_observers ms /\ ms_recovered (snd (screen_checkpoint ms last)) = ms_recovered ms).
  { intros last; unfold screen_checkpoint; destruct (ms_screen ms); [destruct (checkpoint _ _)|]; auto. }
  unfold terminal_window; destruct (ms_streamJSON ms); [auto|]; destruct (window_source _ _ _ _ _) as [[cs oldest]|e|p]; [|auto..].
  specialize (K (newest ms)); destruct (screen_checkpoint ms (newest ms)) as [[d|] ms']; repeat case_match; simpl in *; auto.
Qed.

Lemma ReadWindow_keeps s id c after s' o : ReadWindow s id c after = (s', o) -> keeps_detached s s'.
Proof.
  unfold ReadWindow; destruct (sessions s !! id) as [ms|] eqn:Es.
  - pose proof (terminal_window_observers (store s) ms id c after) as [H1 H2].
    destruct (terminal_window (store s) ms id c after) as [ms' r]; intros [= <- _]; simpl in *.
    apply (keeps_put _ _ id ms ms'); auto; [congruence | intros d; rewrite H1; auto].
  - destruct (history s !! id); intros [= <- _]; apply keeps_refl; reflexivity.
Qed.

Lemma lease_change_keeps r w o1 o2 s s' : keeps_detached s s' -> lease_change r w o1 o2 s -> lease_change r w o1 o2 s'.
Proof. intros K; unfold lease_change; destruct o1, o2; auto. Qed.

Lemma read_change m s r m' s' res :
  read_result m s r = (m', s', Ok res) ->
  keeps_detached s s' /\ (forall key, key <> request_key r -> leases m' !! key = leases m !! key) /\
  (leases m' !! request_key r = leases m !! request_key r \/
   leases m' !! request_key r = None /\ forall l, leases m !! request_key r = Some l -> detached s' (ls_session l) (ls_client l)) /\
  (forall win, tl_Window res = Some win -> w_Writer win = false -> leases m' !! request_key r = None).
Proof.
  unfold read_result; fold (request_key r); destruct (ReadWindow s _ _ _) as [s1 [win|e|p]] eqn:Er; [| |discriminate];
    pose proof (ReadWindow_keeps _ _ _ _ _ _ Er) as K.
  - destruct (negb (w_Writer win) && _) eqn:Eg.
    + destruct (release m s1 (request_key r)) as [[m1 s2] o] eqn:El; intros [= <- <- Ho].
      destruct (release_Ok _ _ _ _ _ _ (Proceed None) El) as [u Eu]; [destruct o; try discriminate; [reflexivity|]; unfold release in El; repeat (case_match; try discriminate)|].
      pose proof (release_ok _ _ _ _ _ _ Eu) as (Hd & _ & _ & K2 & D); rewrite Hd, lookup_delete_eq.
      split_and!; [eapply keeps_detached_trans; eassumption | intros key Hk; apply lookup_delete_ne; congruence | auto | auto].
    + intros [= <- <- <-]; split_and!; auto; simpl; intros w [= <-] Hw; rewrite Hw in Eg; simpl in Eg.
      destruct (leases m !! request_key r); [discriminate | reflexivity].
  - intros [= <- <- <-]; split_and!; auto; destruct (errors_Is _ _); simpl; discriminate.
Qed.

(** The whole request. *)
Lemma handle_change m s r w m' sup' res :
  handle m (Some s) r w = (m', sup', Ok res) ->
  exists s', sup' = Some s' /\
    (forall key, if bool_decide (key = request_key r)
       then lease_change r w (leases m !! key) (leases m' !! key) s' else leases m' !! key = leases m !! key) /\
    (invalid_terminal r w = false -> gives_up r = true -> leases m' !! request_key r = None) /\
    (forall win, tl_Window res = Some win -> w_Writer win = false -> leases m' !! request_key r = None).
Proof.
  assert (Hkey : forall m1 (s1 : Supervisor), lease_change r w (leases m !! request_key r) (leases m1 !! request_key r) s1 ->
    (forall key, key <> request_key r -> leases m1 !! key = leases m !! key) ->
    forall key, if bool_decide (key = request_key r) then lease_change r w (leases m !! key) (leases m1 !! key) s1 else leases m1 !! key = leases m !! key).
  { intros m1 s1 H1 H2 key; case_bool_decide as Hk; [subst; exact H1 | exact (H2 key Hk)]. }
  unfold handle; destruct (invalid_terminal r w) eqn:Ei.
  { intros [= <- <- <-]; exists s; split_and!; auto; [apply Hkey; [apply lease_change_same | auto] | discriminate | discriminate]. }
  destruct (action m s r w) as [[m1 s1] [a|e|p]] eqn:Ea; [|discriminate..]; apply action_change in Ea as (K1 & K2 & K3).
  destruct a as [code|[e|]]; 
    try (intros [= <- <- <-]; exists s1; split_and!; [reflexivity | apply Hkey; assumption | auto | simpl; discriminate]).
  destruct (read_result m1 s1 r) as [[m2 s2] o] eqn:Er; intros [= <- <- ->]; apply read_change in Er as (R1 & R2 & R3 & R4).
  exists s2; split_and!; auto.
  - apply Hkey; [|intros key Hk; rewrite R2, K2 by exact Hk; reflexivity].
    destruct R3 as [->|[-> R3]]; [eapply lease_change_keeps; eassumption|].
    unfold lease_change in *; destruct (leases m !! request_key r) as [l|]; [|exact I].
    destruct (leases m1 !! request_key r) as [l1|]; [|apply R1, K1].
    destruct K1 as [->|(_ & _ & ->)]; [apply R3; reflexivity | apply (R3 _ eq_refl)].
  - intros _ Hg; specialize (K3 Hg); destruct R3 as [->|[-> _]]; auto.
Qed.

Lemma release_all_ok keys m s :
  sup_inv s -> NoDup keys ->
  exists m' s', release_all m s keys = (m', s', Ok tt) /\ sup_inv s' /\ keeps_detached s s' /\
    (forall key, key ∈ keys -> leases m' !! key = None) /\
    (forall key, key ∉ keys -> leases m' !! key = leases m !! key) /\
    (forall key l, key ∈ keys -> leases m !! key = Some l -> detached s' (ls_session l) (ls_client l)).
Proof.
  revert m s; induction keys as [|key keys IH]; intros m s I Hn; cbn [release_all].
  { exists m, s; split_and!; auto; [apply keeps_refl; reflexivity|..]; intros ? ?; intros; exfalso; eapply not_elem_of_nil; eassumption. }
  apply list.NoDup_cons in Hn as [Hk Hn]; destruct (release_total m s key I) as (m1 & s1 & Er & I1); rewrite Er.
  apply release_ok in Er as (El & _ & _ & K1 & D1).
  destruct (IH m1 s1 I1 Hn) as (m2 & s2 & -> & I2 & K2 & N2 & F2 & D2).
  exists m2, s2; split_and!; auto.
  - eapply keeps_detached_trans; eassumption.
  - intros k [->|Hin]%elem_of_cons; [|auto]; rewrite F2 by exact Hk; rewrite El; apply lookup_delete_eq.
  - intros k [Hne Hnin]%not_elem_of_cons; rewrite F2 by exact Hnin; rewrite El; apply lookup_delete_ne; congruence.
  - intros k l [->|Hin]%elem_of_cons Hl; [apply K2, D1, Hl|]; apply (D2 k l Hin); rewrite El, lookup_delete_ne; [exact Hl | congruence].
Qed.
End LeaseRuns.

(** ** Theorems *)

(** One event of a connection: a request, a timer, the start or end of a stream. *)
Inductive manager_event `{E : Emulator} `{S : SessionStore} :=
| MeRequest (sup : option Supervisor) (r : TerminalRequest) (w : terminal_world)
| MeTimer (s : Supervisor) (key : string) (addr : nat) (now : Time)
| MeStream (r : TerminalRequest)
| MeStreamEnd (id : string).

(** [None]: the handler panicked. *)
Definition manager_step `{E : Emulator} `{S : SessionStore} (m : terminalManager) (ev : manager_event) : option terminalManager :=
  match ev with
  | MeRequest sup r w => match handle m sup r w with (m, _, Ok _) => Some m | _ => None end
  | MeTimer s key addr now => match timer_fires m s key addr now with (m, _, Ok _) => Some m | _ => None end
  | MeStream r => Some (fst (startStream m r))
  | MeStreamEnd id => Some (endStream m id)
  end.

Fixpoint manager_run `{E : Emulator} `{S : SessionStore} (m : terminalManager) (evs : list manager_event) : option terminalManager :=
  match evs with
  | [] => Some m
  | ev :: evs => match manager_step m ev with Some m => manager_run m evs | None => None end
  end.

Lemma streams_step `{E : Emulator} `{S : SessionStore} m ev m' :
  manager_inv m /\ zlen (elements (streams m)) <= max_streams -> manager_step m ev = Some m' ->
  manager_inv m' /\ zlen (elements (streams m')) <= max_streams.
Proof.
  intros [I B].
  destruct ev as [sup r w|s key addr now|r|id]; cbn [manager_step].
  - destruct (handle m sup r w) as [[m1 s1] [res|e|p]] eqn:Eh; try discriminate; intros [= <-].
    split; [eapply handle_inv; eassumption|].
    rewrite (handle_streams _ _ _ _ _ _ _ Eh); exact B.
  - unfold timer_fires; destruct (leases m !! key) as [l|] eqn:El; [|intros [= <-]; auto].
    destruct (negb _); [intros [= <-]; auto|]; destruct (now <? ls_expires l).
    + intros [= <-]; split; [|exact B]; apply inv_insert; cbn; eauto; [apply (mi_key m I _ _ El) | apply (mi_addr m I _ _ El)].
    + destruct (release m s key) as [[m1 s1] [u|e|p]] eqn:Er; try discriminate; intros [= <-].
      split; [eapply lease_release_inv; eassumption|]; rewrite (release_streams _ _ _ _ _ _ Er); exact B.
  - intros [= <-]; unfold startStream.
    destruct (_ || _) eqn:Eg; [auto|]; bool_to_prop; cbn; split; [destruct I as [I1 I2 I3 I4]; split; assumption|].
    unfold zlen in *; rewrite elements_union_singleton by assumption; cbn; lia.
  - intros [= <-]; cbn; split; [destruct I as [I1 I2 I3 I4]; split; assumption|].
    pose proof (subseteq_size (streams m ∖ {[id]}) (streams m) ltac:(set_solver)) as Hz; unfold zlen, base.size, set_size in *; cbn in Hz; lia.
Qed.

(** C16. Along any sequence of requests, timers and streams of a connection that
    does not panic there are at most sixty-four leases and thirty-two streams, and
    the timer of every lease is set for the moment it expires. When that timer
    fires on a daemon state that satisfies the session invariant, before the
    expiry because the lease was renewed, it is set again and nothing else
    changes; otherwise the lease is gone and its client detached. When the
    connection ends every lease is gone and every client detached. A request
    touches only the lease of its session and client: a detach, or a watch that
    does not keep the writer, and a window that says the client is no longer the
    writer, end it; whenever a request ends a lease the client is detached; a
    lease that stays is as it was or renewed for fifteen seconds by a watch that
    keeps the writer; a new one comes only from an attach and lasts fifteen
    seconds. Detached means not among the observers of a session that is in memory
    and not recovered. *)
Theorem remote_lease_ends `{E : Emulator} `{S : SessionStore} (evs : list manager_event) (m : terminalManager) :
  manager_run newManager evs = Some m ->
  zlen (map_to_list (leases m)) <= 64 /\ zlen (elements (streams m)) <= 32 /\
  (forall key l, leases m !! key = Some l -> ls_timer l = Some (ls_expires l) /\
     forall s now, sup_inv s ->
       exists m' s', timer_fires m s key (ls_addr l) now = (m', s', Ok tt) /\
         (now < ls_expires l -> s' = s /\ leases m' = leases m) /\
         (ls_expires l <= now -> leases m' = delete key (leases m) /\ detached s' (ls_session l) (ls_client l))) /\
  (forall s, sup_inv s -> exists m' s', close m s = (m', s', Ok tt) /\ leases m' = ∅ /\
     forall key l, leases m !! key = Some l -> detached s' (ls_session l) (ls_client l)) /\
  (forall s r w m' sup' res, handle m (Some s) r w = (m', sup', Ok res) ->
     exists s', sup' = Some s' /\
       (forall key, if bool_decide (key = request_key r)
          then lease_change r w (leases m !! key) (leases m' !! key) s' else leases m' !! key = leases m !! key) /\
       (invalid_terminal r w = false -> gives_up r = true -> leases m' !! request_key r = None) /\
       (forall win, tl_Window res = Some win -> w_Writer win = false -> leases m' !! request_key r = None)).
Proof.
  intros Hr; assert (K : manager_inv m /\ zlen (elements (streams m)) <= max_streams).
  { assert (K0 : manager_inv newManager /\ zlen (elements (streams newManager)) <= max_streams).
    { split; [split; cbn; try (intros k l; rewrite lookup_empty; discriminate)|]; vm_compute; discriminate. }
    revert Hr K0; generalize newManager as m0; induction evs as [|ev evs IH]; intros m0 Hr K0; cbn in Hr; [congruence|].
    destruct (manager_step m0 ev) as [m1|] eqn:Es; [|discriminate]; eapply IH; [exact Hr | eapply streams_step; eassumption]. }
  destruct K as [I B]; split; [apply (mi_bound m I)|]; split; [exact B|]; split; [|split; [|intros s r w m' sup' res; apply handle_change]].
  - intros key l Hl; split; [apply (mi_armed m I _ _ Hl)|]; intros s now Hs; unfold timer_fires; rewrite Hl, Nat.eqb_refl; cbn [negb].
    destruct (now <? ls_expires l) eqn:Ex; bool_to_prop.
    + do 2 eexists; split; [reflexivity|]; split; [|lia]; intros _; split; [reflexivity|]; cbn.
      rewrite <- (mi_armed m I _ _ Hl); apply insert_id; destruct l; exact Hl.
    + destruct (release_total m s key Hs) as (m' & s' & Er & _); rewrite Er; exists m', s'; split; [reflexivity|]; split; [lia|].
      intros _; apply release_ok in Er as (El & _ & _ & _ & D); split; [exact El | apply D, Hl].
  - intros s Hs; unfold close; destruct (release_all_ok (map fst (map_to_list (leases m))) m s Hs) as (m' & s' & Er & _ & _ & N & F & D).
    { apply NoDup_fst_map_to_list. }
    assert (Hin : forall key l, leases m !! key = Some l -> key ∈ map fst (map_to_list (leases m))).
    { intros key l Hl; apply list_elem_of_fmap; exists (key, l); split; [reflexivity | apply elem_of_map_to_list, Hl]. }
    exists m', s'; split; [exact Er|]; split; [|intros key l Hl; eapply D; eauto].
    apply map_eq; intros key; rewrite lookup_empty; destruct (decide (key ∈ map fst (map_to_list (leases m)))) as [Hk|Hk]; [auto|].
    rewrite F by exact Hk; destruct (leases m !! key) eqn:El; [exfalso; eauto | reflexivity].
Qed.

(** Requests for another installation are answered without looking at any
    session, errors of the session layer appear only as fixed codes, and what is
    sent is bounded: a diagnostic report is non-empty valid JSON of at most
    sixteen kilobytes of the session asked for. *)
Theorem requests_addressed (org inst : string) (f : option (string -> error + bytes)) (valid : bytes -> bool) (r : DiagnosticRequest) :
  let res := diagnose org inst f valid r in
  dr_ID res = dg_ID r /\
  match dr_Report res with
  | Some report =>
      dg_OrganizationID r = org /\ dg_InstallationID r = inst /\ dr_Code res = ""%string /\
      0 < zlen report <= maxDiagnosticBytes /\ valid report = true /\ (exists g, f = Some g /\ g (dg_SessionID r) = inr report)
  | None => dr_Code res ∈ ["invalid_request"; "unsupported"; "not_found"; "unavailable"]%string
  end.
Proof.
  unfold diagnose, unaddressed; destruct (_ || negb (str_eqb (dg_InstallationID r) inst)) eqn:Eu; cbn; [split; [reflexivity | left]|].
  destruct f as [f|]; cbn; [|split; [reflexivity | right; left]].
  destruct (f (dg_SessionID r)) as [e|report] eqn:Ef; cbn.
  - split; [reflexivity|]; destruct (errors_Is e ErrSessionNotFound); [right; right; left | right; right; right; left].
  - destruct (_ || negb (valid report)) eqn:Ev; cbn; [split; [reflexivity | right; right; right; left]|].
    bool_to_prop; pose proof (zlen_nonneg report); split_and!; eauto; lia.
Qed.

(** ** Concrete runs *)

Section Sample.
#[local] Existing Instance echo_emulator.
#[local] Existing Instance log_bolt.

Definition terminal_request (act : string) : TerminalRequest :=
  MkTerminalRequest false "r1" "org" "inst" "s1" "web" act false 0 [] 0 0 (20 * Second).

Definition terminal_calm (now : Time) : terminal_world := MkTerminalWorld now now now (0, None) None.

Definition open_state : Supervisor (S := BoltSessionStore) :=
  sample_state [OpRegister (sample_cfg "s1") sample_provider 7 10].

Definition attached_manager : option terminalManager :=
  manager_run (S := BoltSessionStore) newManager [MeRequest (Some open_state) (terminal_request "attach") (terminal_calm Second)].

Lemma remote_lease_ends_witness :
  exists m, attached_manager = Some m /\ zlen (map_to_list (leases m)) = 1 /\
    exists m' s', close m open_state = (m', s', Ok tt) /\ leases m' = ∅.
Proof.
  destruct attached_manager as [m|] eqn:Em; [|vm_compute in Em; discriminate].
  exists m; split; [reflexivity|]; split.
  { assert (K : option_map (fun m => zlen (map_to_list (leases m))) attached_manager = Some 1) by (vm_compute; reflexivity).
    rewrite Em in K; injection K as K; exact K. }
  destruct (remote_lease_ends _ m Em) as (_ & _ & _ & H & _).
  destruct (H open_state) as (m' & s' & Hc & He & _); [|exists m', s'; auto].
  apply (reachable_inv sample_boot); [apply booted_inv, sample_booted|].
  apply runs_reachable, runsb_ok; vm_compute; reflexivity.
Defined.

(** A remote attach to a session that has ended: the answer is that the session
    has ended, but the writer slot stays with the remote client, which no
    detach can give back, and the session counts as attached again. *)
Lemma remote_attach_wedges_ended_session :
  let ended := sample_state [OpRegister (sample_cfg "s1") sample_provider 7 10; OpRead "s1" [] (Some ReadEOF) 11; OpCloseLive "s1";
                             OpReaderDone "s1"; OpWait "s1" WaitOK 12] in
  let '(_, sup, res) := handle newManager (Some ended) (terminal_request "attach") (terminal_calm Second) in
  match res with Ok x => tl_Code x | _ => ""%string end = "session_ended"%string /\
  match sup with
  | Some s => match sessions s !! "s1"%string with
              | Some ms => info_State (ms_info ms) = SessionStateAttached /\ info_ActiveWriterClientID (ms_info ms) = "web"%string
              | None => False
              end
  | None => False
  end.
Proof. vm_compute; auto. Qed.
End Sample.
