(* ===== verification/ControlRead.v ===== *)
(** * Control client: the connection and its reading loop

    The rest of internal/bridgecontrol/client.go: the handshake, [readLoop], which
    serves the requests of the control plane, and [run], which connects again.  The
    requests go to Command and ControlRequests; decoding of JSON is an argument, so a
    message arrives decoded, as far as it can be decoded. *)

From S2P Require Import Prelude Types ByteBuf GoStd Policy Registry Screen Store Session SessionInv Supervisor Reach Streams Terminal Activity Command Control ControlConn ControlRequests.

Local Open Scope string_scope.

Definition ProtocolVersion : Z := 1.

(** ** The handshake *)

Record helloAckPayload := MkHelloAck { ha_InstallationID : string; ha_OrganizationID : string; ha_DisplayName : string; ha_HeartbeatIntervalSeconds : Z; ha_ProtocolVersion : Z }.

(** The first message of the server, by type; [None]: the payload does not decode. *)
Inductive first_message :=
| FirstError (code message : string)
| FirstAck (p : option helloAckPayload)
| FirstOther (type : string).

Inductive first_read := FirstReadFailed (e : string) | FirstNotJSON | FirstEnvelope (version : Z) (m : first_message).

Definition readHelloAck (r : first_read) : string + helloAckPayload :=
  match r with
  | FirstReadFailed e => inl ("read hello_ack: " +:+ e)
  | FirstNotJSON => inl "malformed hello_ack"
  | FirstEnvelope v m =>
      if negb (v =? ProtocolVersion)%Z then inl "unsupported protocol_version in server envelope"
      else match m with
           | FirstError code msg => inl ("bridge rejected hello: " +:+ code +:+ ": " +:+ msg)
           | FirstOther _ => inl "unexpected message before hello_ack"
           | FirstAck None => inl "malformed hello_ack payload"
           | FirstAck (Some ack) =>
               if negb (ha_ProtocolVersion ack =? ProtocolVersion)%Z then inl "unsupported protocol_version in hello_ack payload" else inr ack
           end
  end.

Definition defaultHeartbeatEvery : Z := 20.

(** What one connection meets: the answer to the dial, whether the hello could be
    sent, the first message, the snapshot and what happens while it is served. *)
Record connection := MkConnection {
  cn_dial : option string; cn_hello : bool; cn_ack : first_read; cn_now : Time; cn_written : bool;
  cn_snapshot : snapshot_world; cn_events : list serve_event }.

(** [connectAndServe]: [None] is a graceful local shutdown. *)
Definition connectAndServe (c : Client) (caps : list (string * bool)) (k : connection) : Client * list wire * option string :=
  match cn_dial k with
  | Some e => (c, [], Some ("dial control endpoint: " +:+ e))
  | None =>
      if negb (cn_hello k) then (c, [], Some "write hello")
      else
        let hello := sendHello c caps in
        match readHelloAck (cn_ack k) with
        | inl e => (c, [hello], Some e)
        | inr ack =>
            let '(c, ws, v) := connected c (ha_OrganizationID ack) (ha_InstallationID ack) (cn_now k) (cn_written k) (cn_snapshot k) (cn_events k) in
            (c, hello :: ws, match v with ClosedLocally => None | _ => Some "connection lost" end)
        end
  end.

(** [run]: one iteration per connection; a delay after each that failed.  [draws] is
    the generator. *)
Fixpoint run (c : Client) (caps : list (string * bool)) (attempt : Z) (draws : Z -> Z -> Z) (ks : list connection)
    : Client * list (list wire) * list Duration :=
  match ks with
  | [] => (c, [], [])
  | k :: ks =>
      let c := setStatus c StateConnecting "" (cn_now k) (cn_written k) in
      let '(c, ws, e) := connectAndServe c caps k in
      match e with
      | None => (setStatus c StateDisconnected "" (cn_now k) (cn_written k), [ws], [])
      | Some e =>
          let attempt := (attempt + 1)%Z in
          let c := setStatus c (classifyStatus (Some e)) e (cn_now k) (cn_written k) in
          let '(c, wss, ds) := run c caps attempt draws ks in
          (c, ws :: wss, backoffDelay attempt (draws attempt) :: ds)
      end
  end.

(** ** The reading loop *)

(** A decoded message; [None]: its payload does not decode. *)
Inductive server_message :=
| MCancel (id : option string)
| MTerminal (r : option TerminalRequest)
| MObserve (r : option ObservationRequest)
| MDiagnose (r : option DiagnosticRequest)
| MCommand (c : option Command)
| MError (code : string) (reconcileRequired : bool)
| MAck
| MOther (type : string).

Inductive incoming := ReadError | NotJSONMessage | Envelope (version : Z) (m : server_message).

Inductive response :=
| RTerminal (r : TerminalResult)
| RActivity (r : ObservationResult)
| RDiagnostic (r : DiagnosticResult)
| RCommand (r : CommandResult).

Section ReadLoop.
Context `{E : Emulator} `{S : SessionStore}.
Context (uuid_String : string -> option string) (hmac_hex : string -> Command -> string).

(** What the loop works on.  [rl_streams] are the streams asked to end. *)
Record reading := MkReading {
  rl_manager : terminalManager; rl_sup : option Supervisor; rl_ledger : ledger; rl_queue : Queue; rl_cancelled : list string }.

Definition put_manager (m : terminalManager) (s : option Supervisor) (x : reading) : reading :=
  MkReading m s (rl_ledger x) (rl_queue x) (rl_cancelled x).
Definition put_ledger (l : ledger) (x : reading) : reading := MkReading (rl_manager x) (rl_sup x) l (rl_queue x) (rl_cancelled x).

(** The world of one message: whether the reply could be written, and the answers
    that the handlers read. *)
Record message_world := MkMessageWorld {
  mw_sent : bool; mw_terminal : terminal_world; mw_command : command_world;
  mw_observe : option (string -> Z -> Z -> Z -> outcome ActivityWindow);
  mw_diagnose : option (string -> error + bytes); mw_valid : bytes -> bool }.

Inductive read_end := Reading | StoppedWith (e : string) | StoppedSilently | Crashed (why : string).

(** Reply and go on, or stop when the write fails. *)
Definition respond (w : message_world) (r : response) (x : reading) : reading * list response * read_end :=
  if mw_sent w then (x, [r], Reading) else (x, [], StoppedSilently).

Definition command_of (x : reading) (w : command_world) : command_world :=
  MkCommandWorld (cw_read w) (cw_now1 w) (cw_now2 w) (cw_mkdir w) (cw_readdir w) (cw_claim w) (rl_sup x) (cw_result w) (cw_killed w).

Definition addressed (cfg : CommandConfig) (org inst : string) : bool :=
  str_eqb org (cc_organizationID cfg) && str_eqb inst (cc_installationID cfg).

Definition on_terminal (cfg : CommandConfig) (x : reading) (r : TerminalRequest) (w : message_world) : reading * list response * read_end :=
  if addressed cfg (tr_OrganizationID r) (tr_InstallationID r) then
    if tr_Stream r then
      match startStream (rl_manager x) r with
      | (m, Some refusal) => (put_manager m (rl_sup x) x, if mw_sent w then [RTerminal refusal] else [], Reading)
      | (m, None) => (put_manager m (rl_sup x) x, [], Reading)
      end
    else match handle (rl_manager x) (rl_sup x) r (mw_terminal w) with
         | (m, s, Ok result) => respond w (RTerminal result) (put_manager m s x)
         | (m, s, Err _) => (put_manager m s x, [], Crashed "unreachable")
         | (m, s, Panic p) => (put_manager m s x, [], Crashed p)
         end
  else respond w (RTerminal (MkTerminalResult (tr_ID r) None "invalid_request")) x.

(** One turn of the loop. *)
Definition read_step (cfg : CommandConfig) (x : reading) (i : incoming) (w : message_world) : reading * list response * read_end :=
  match i with
  | ReadError => (x, [], StoppedWith "read")
  | NotJSONMessage => (x, [], StoppedWith "malformed server message")
  | Envelope v m =>
      if negb (v =? ProtocolVersion)%Z then (x, [], StoppedWith "unsupported protocol_version in server message")
      else match m with
           | MCancel (Some id) =>
               (MkReading (rl_manager x) (rl_sup x) (rl_ledger x) (rl_queue x)
                  (if bool_decide (id ∈ streams (rl_manager x)) then id :: rl_cancelled x else rl_cancelled x), [], Reading)
           | MTerminal (Some r) => on_terminal cfg x r w
           | MObserve (Some r) => respond w (RActivity (observe (cc_organizationID cfg) (cc_installationID cfg) (mw_observe w) r)) x
           | MDiagnose (Some r) =>
               respond w (RDiagnostic (diagnose (cc_organizationID cfg) (cc_installationID cfg) (mw_diagnose w) (mw_valid w) r)) x
           | MCommand (Some c) =>
               let '(l, ex) := executeCommand uuid_String hmac_hex cfg (rl_ledger x) c (command_of x (mw_command w)) in
               match ex_answer ex with
               | Some result => respond w (RCommand result) (put_ledger l x)
               | None => (put_ledger l x, [], Crashed "killed")
               end
           | MError code reconcile =>
               (if reconcile || str_eqb code "revision_gap"
                then MkReading (rl_manager x) (rl_sup x) (rl_ledger x) (scheduleReconcile (rl_queue x)) (rl_cancelled x) else x, [], Reading)
           | _ => (x, [], Reading)
           end
  end.

(** The loop, with what the rest of the daemon does to the supervisor between two
    messages. *)
Fixpoint read_loop (cfg : CommandConfig) (x : reading) (l : list ((option Supervisor -> option Supervisor) * incoming * message_world))
    : reading * list response * read_end :=
  match l with
  | [] => (x, [], Reading)
  | (daemon, i, w) :: l =>
      match read_step cfg (put_manager (rl_manager x) (daemon (rl_sup x)) x) i w with
      | (x, rs, Reading) => let '(x, rs', e) := read_loop cfg x l in (x, app rs rs', e)
      | r => r
      end
  end.

(** [readLoop] returns: the deferred close of the terminals. *)
Definition leave_loop (x : reading) : terminalManager * option Supervisor * outcome unit :=
  match rl_sup x with
  | None => (rl_manager x, None, Ok tt)
  | Some s => let '(m, s, o) := close (rl_manager x) s in (m, Some s, o)
  end.

(** ** Requests for someone else *)

(** Whom a request names, if the message carries one. *)
Definition names (m : server_message) : option (string * string) :=
  match m with
  | MTerminal (Some r) => Some (tr_OrganizationID r, tr_InstallationID r)
  | MObserve (Some r) => Some (ob_OrganizationID r, ob_InstallationID r)
  | MDiagnose (Some r) => Some (dg_OrganizationID r, dg_InstallationID r)
  | MCommand (Some c) => Some (cmd_OrganizationID c, cmd_InstallationID c)
  | _ => None
  end.

Definition code_of (r : response) : string :=
  match r with RTerminal r => tl_Code r | RActivity r => or_Code r | RDiagnostic r => dr_Code r | RCommand r => cr_Code r end.

(** Nothing of a session or another daemon in it. *)
Definition empty_response (r : response) : Prop :=
  match r with
  | RTerminal r => tl_Window r = None
  | RActivity r => or_Window r = None
  | RDiagnostic r => dr_Report r = None
  | RCommand r => cr_Status r = "rejected"
  end.

Lemma unaddressed_foreign id org inst session org' inst' :
  (org, inst) <> (org', inst') -> unaddressed id org inst session org' inst' = true.
Proof.
  intros Hn; unfold unaddressed, str_eqb; destruct (decide (org = org')) as [->|Ho].
  - rewrite (bool_decide_eq_false_2 (inst = inst')) by congruence; cbn; apply orb_true_r.
  - rewrite (bool_decide_eq_false_2 (org = org')) by exact Ho; cbn; rewrite orb_true_r; reflexivity.
Qed.

Lemma addressed_foreign cfg org inst : (org, inst) <> (cc_organizationID cfg, cc_installationID cfg) -> addressed cfg org inst = false.
Proof.
  intros Hn; unfold addressed, str_eqb; destruct (decide (org = cc_organizationID cfg)) as [->|Ho].
  - rewrite (bool_decide_eq_false_2 (inst = _)) by congruence; apply andb_false_r.
  - rewrite (bool_decide_eq_false_2 (org = _)) by exact Ho; reflexivity.
Qed.

Lemma foreign_command cfg l c w : (cmd_OrganizationID c, cmd_InstallationID c) <> (cc_organizationID cfg, cc_installationID cfg) ->
  exists code, executeCommand uuid_String hmac_hex cfg l c w = (l, answer (rejected (cmd_ID c) code)) /\ code ∈ ["invalid_command"; "wrong_installation"].
Proof.
  intros Hn; unfold executeCommand; destruct (malformed _ c); [exists "invalid_command"; split; [reflexivity|set_solver]|].
  apply addressed_foreign in Hn; unfold addressed in Hn; apply andb_false_iff in Hn.
  assert (negb (str_eqb (cmd_OrganizationID c) (cc_organizationID cfg)) || negb (str_eqb (cmd_InstallationID c) (cc_installationID cfg)) = true) as ->
    by (destruct Hn as [-> | ->]; [reflexivity|apply orb_true_r]).
  exists "wrong_installation"; split; [reflexivity|set_solver].
Qed.

Lemma respond_inv w r x x' rs e : respond w r x = (x', rs, e) -> x' = x /\ (rs = [] \/ rs = [r]).
Proof. unfold respond; destruct (mw_sent w); intros [= <- <- _]; auto. Qed.

Lemma foreign_step cfg x m w who : names m = Some who -> who <> (cc_organizationID cfg, cc_installationID cfg) ->
  exists r, read_step cfg x (Envelope ProtocolVersion m) w = respond w r x /\ empty_response r /\
    code_of r ∈ ["invalid_request"; "invalid_command"; "wrong_installation"].
Proof.
  intros Hw Hne; destruct m as [| [r|] | [r|] | [r|] | [c|] | | |]; try discriminate; injection Hw as <-; cbn [read_step].
  - unfold on_terminal; rewrite addressed_foreign by exact Hne; eexists; split; [reflexivity|]; cbn; split; [reflexivity|set_solver].
  - unfold observe; rewrite unaddressed_foreign by exact Hne; eexists; split; [reflexivity|]; cbn; split; [reflexivity|set_solver].
  - unfold diagnose; rewrite unaddressed_foreign by exact Hne; eexists; split; [reflexivity|]; cbn; split; [reflexivity|set_solver].
  - destruct (foreign_command cfg (rl_ledger x) c (command_of x (mw_command w)) Hne) as (code & -> & Hc); cbn [ex_answer answer].
    exists (RCommand (rejected (cmd_ID c) code)); split; [destruct x; reflexivity|]; cbn; split; [reflexivity|set_solver].
Qed.

Lemma leave_ends x s : rl_sup x = Some s -> sup_inv s -> exists m' s', leave_loop x = (m', Some s', Ok tt) /\ leases m' = ∅ /\
  forall key l, leases (rl_manager x) !! key = Some l -> detached s' (ls_session l) (ls_client l).
Proof.
  intros Hs Hi; unfold leave_loop, close; rewrite Hs; set (keys := map fst (map_to_list (leases (rl_manager x)))).
  assert (forall key, key ∈ keys <-> is_Some (leases (rl_manager x) !! key)) as Hk.
  { intros key; unfold keys; rewrite list_elem_of_fmap; split.
    - intros ([k l] & -> & Hin); apply elem_of_map_to_list in Hin; eauto.
    - intros [l Hl]; exists (key, l); split; [reflexivity|apply elem_of_map_to_list, Hl]. }
  destruct (release_all_ok keys (rl_manager x) s Hi (NoDup_fst_map_to_list _)) as (m' & s' & -> & _ & _ & Hin & Hout & Hd).
  exists m', s'; split; [reflexivity|]; split.
  - apply map_eq; intros key; rewrite lookup_empty; destruct (leases (rl_manager x) !! key) eqn:E0.
    + apply Hin, Hk; eauto.
    + rewrite Hout; [exact E0|]; rewrite Hk, E0; intros [? ?]; discriminate.
  - intros key l Hl; eapply Hd; [apply Hk; eauto|exact Hl].
Qed.

(** Requests for another organisation or installation, messages of another protocol
    version and messages that do not decode have no effect: sessions, leases, streams
    and the command ledger stay as they are, the provider is not called, and an answer
    reveals nothing but that the request was refused.  However the loop ends, its
    leases end with it: their clients are detached from their sessions. *)
Theorem foreign_requests_harmless (cfg : CommandConfig) (x x' : reading) (v : Z) (m : server_message) (w : message_world)
    (rs : list response) (e : read_end) (Hstep : read_step cfg x (Envelope v m) w = (x', rs, e)) :
  (v <> ProtocolVersion \/ (exists who, names m = Some who /\ who <> (cc_organizationID cfg, cc_installationID cfg)) ->
   (rl_manager x', rl_sup x', rl_ledger x') = (rl_manager x, rl_sup x, rl_ledger x) /\
   Forall (fun r => empty_response r /\ code_of r ∈ ["invalid_request"; "invalid_command"; "wrong_installation"]) rs) /\
  (forall s, rl_sup x' = Some s -> sup_inv s -> exists m' s', leave_loop x' = (m', Some s', Ok tt) /\ leases m' = ∅ /\
     forall key l, leases (rl_manager x') !! key = Some l -> detached s' (ls_session l) (ls_client l)).
Proof.
  split; [|intros s Hs Hi; eapply leave_ends; eassumption].
  intros [Hv|(who & Hw & Hne)].
  - cbn in Hstep; rewrite (proj2 (Z.eqb_neq _ _) Hv) in Hstep; injection Hstep as <- <- _; split; [reflexivity|apply List.Forall_nil].
  - destruct (Z.eq_dec v ProtocolVersion) as [->|Hv].
    + destruct (foreign_step cfg x m w who Hw Hne) as (r & Hr & He & Hc); rewrite Hr in Hstep.
      apply respond_inv in Hstep as [-> Hrs]; split; [reflexivity|]; destruct Hrs as [-> | ->]; [apply List.Forall_nil|].
      apply List.Forall_cons; [split; assumption|apply List.Forall_nil].
    + cbn in Hstep; rewrite (proj2 (Z.eqb_neq _ _) Hv) in Hstep; injection Hstep as <- <- _; split; [reflexivity|apply List.Forall_nil].
Qed.
End ReadLoop.

(** ** Connecting again *)

(** While connections fail, the daemon waits before each new one between a quarter of
    a second and a minute, at most doubling from a second on, and stops waiting only
    when it is shut down: there is one delay per connection that was lost, and at most
    the last connection was not. *)
Theorem reconnects (c : Client) (caps : list (string * bool)) (attempt : Z) (draws : Z -> Z -> Z) (ks : list connection)
    (Hd : forall a n, (0 < n)%Z -> (0 <= draws a n < n)%Z) (Ha : (0 <= attempt)%Z) :
  let '(_, wss, delays) := run c caps attempt draws ks in
  Forall (fun d => (250 * Millisecond <= d <= 60 * Second)%Z) delays /\
  (length delays <= length wss <= length ks)%nat /\ (length wss <= Datatypes.S (length delays))%nat /\
  (length wss < length ks -> length delays < length wss)%nat /\
  (forall i d, delays !! i = Some d -> (d <= Second * 2 ^ (attempt + Z.of_nat i))%Z).
Proof.
  revert c attempt Ha; induction ks as [|k ks IH]; intros c attempt Ha; cbn [run].
  { split_and!; cbn; try lia; [apply List.Forall_nil|intros i d Hi; rewrite lookup_nil in Hi; discriminate]. }
  destruct (connectAndServe _ caps k) as [[c1 ws] [e|]]; cbn [length].
  - specialize (IH (setStatus c1 (classifyStatus (Some e)) e (cn_now k) (cn_written k)) (attempt + 1)%Z ltac:(lia)).
    destruct (run _ caps (attempt + 1) draws ks) as [[c2 wss] ds]; destruct IH as (I1 & I2 & I3 & I4 & I5).
    destruct (backoff_bounded (attempt + 1) (draws (attempt + 1)%Z) ltac:(intros; apply Hd; assumption)) as [B1 B2]; specialize (B2 ltac:(lia)).
    split_and!; cbn [length]; try lia; [constructor; assumption|].
    intros [|i] d Hi; cbn in Hi.
    + injection Hi as <-; replace (attempt + Z.of_nat 0)%Z with (attempt + 1 - 1)%Z by lia; exact B2.
    + apply I5 in Hi; replace (attempt + Z.of_nat (Datatypes.S i))%Z with (attempt + 1 + Z.of_nat i)%Z by lia; exact Hi.
  - split_and!; cbn [length]; try lia; [apply List.Forall_nil|intros i d Hi; rewrite lookup_nil in Hi; discriminate].
Qed.

(** ** Concrete runs *)

Section Sample.
#[local] Existing Instance echo_emulator.
#[local] Existing Instance log_bolt.

Definition refused : connection := MkConnection (Some "HTTP 503") false (FirstReadFailed "") 1 true (sample_snapshot [] 1) [].

(** A connection that is accepted and serves for a day before it is lost. *)
Definition long_lived : connection :=
  MkConnection None true (FirstEnvelope 1 (FirstAck (Some (MkHelloAck "inst" "org" "build box" 20 1)))) 1 true (sample_snapshot [] 1) [SvTick (1440 * Minute) true true; SvReadError].

Lemma reconnects_witness :
  (run fresh_client [] 0 (fun _ n => n - 1)%Z [refused; refused; refused]).2 = [Second; 2 * Second; 4 * Second]%Z /\
  Forall (fun d => (250 * Millisecond <= d <= 60 * Second)%Z) (run fresh_client [] 0 (fun _ n => n - 1)%Z [refused; refused; refused]).2.
Proof.
  split; [vm_compute; reflexivity|].
  pose proof (reconnects fresh_client [] 0 (fun _ n => n - 1)%Z [refused; refused; refused] ltac:(intros; lia) ltac:(lia)) as Hr.
  destruct (run fresh_client [] 0 _ _) as [[c wss] ds]; exact (proj1 Hr).
Defined.

(** A connection that worked does not count: after seven connections that each served
    for a day, the next loss waits as long as after seven refusals. *)
Lemma success_does_not_reset :
  List.last (run fresh_client [] 0 (fun _ n => n - 1)%Z (repeat long_lived 7)).2 0%Z = (60 * Second)%Z.
Proof. vm_compute; reflexivity. Qed.

Definition sample_reading : reading (S := BoltSessionStore) :=
  MkReading (match attached_manager with Some m => m | None => newManager end) (Some open_state) empty_ledger newQueue [].

Definition calm_message : message_world (S := BoltSessionStore) :=
  MkMessageWorld true (terminal_calm Second) (Command.calm Second Survives) None None (fun _ => true).

(** Someone else's terminal request. *)
Definition foreign_request : TerminalRequest :=
  MkTerminalRequest false "r2" "rival" "inst" "s1" "web" "input" false 0 [Byte.x61] 0 0 (20 * Second).

Lemma foreign_requests_harmless_witness :
  exists x' rs e, read_step Some toy_hmac sample_config sample_reading (Envelope 1 (MTerminal (Some foreign_request))) calm_message = (x', rs, e) /\
    rl_sup x' = rl_sup sample_reading /\ map code_of rs = ["invalid_request"].
Proof.
  assert (map code_of (read_step Some toy_hmac sample_config sample_reading (Envelope 1 (MTerminal (Some foreign_request))) calm_message).1.2
          = ["invalid_request"]) as Hc by (vm_compute; reflexivity).
  destruct (read_step Some toy_hmac sample_config sample_reading (Envelope 1 (MTerminal (Some foreign_request))) calm_message) as [[x' rs] e] eqn:Er.
  exists x', rs, e; split; [reflexivity|].
  destruct (foreign_requests_harmless Some toy_hmac sample_config sample_reading x' 1 (MTerminal (Some foreign_request)) calm_message rs e Er) as [Hf _].
  destruct Hf as [Hs _]; [right; exists ("rival", "inst"); split; [reflexivity|discriminate]|].
  split; [exact (f_equal (fun t => snd (fst t)) Hs)|exact Hc].
Defined.
End Sample.
