(* ===== verification/Framing.v ===== *)
(** * Telemetry frames: internal/telemetry/framing.go

    Terminal text is cut into lines and questions, escape sequences skipped, over
    chunks that may end anywhere.  Texts are lists of byte values.  The loop of
    [splitFrames] runs on fuel, one unit per byte; [split_loop_fuel] shows that
    the length of the text is enough. *)

From S2P Require Import Prelude GoStd.

Definition defaultFrameBufferSize : Z := 16 * 1024.

Definition ESC : Z := 27.
Definition BEL : Z := 7.

Abbreviation text := (list Z).

(** ** ansiSequenceEnd *)

(** The loop over a control string (OSC, DCS, SOS, PM, APC): [s] is the text after
    the introducer, the result the number of bytes up to the terminator's end. *)
Fixpoint string_end (osc : bool) (s : text) : option nat :=
  match s with
  | [] => None
  | c :: s' =>
      if osc && (c =? BEL) then Some 1%nat
      else match s' with
           | d :: _ => if (c =? ESC) && (d =? 92) then Some 2%nat
                       else match string_end osc s' with Some n => Some (Datatypes.S n) | None => None end
           | [] => None
           end
  end.

(** The loop over a control sequence. *)
Fixpoint csi_end (s : text) : option nat :=
  match s with
  | [] => None
  | c :: s => if in_range 64 126 c then Some 1%nat else match csi_end s with Some n => Some (Datatypes.S n) | None => None end
  end.

Definition string_introducer (c : Z) : bool := (c =? 93) || (c =? 80) || (c =? 88) || (c =? 94) || (c =? 95).

(** [ansiSequenceEnd] on the text from the escape character on: the length of the
    sequence, [None] when it is not complete. *)
Definition ansi_len (s : text) : option nat :=
  match s with
  | _ :: c :: s =>
      if string_introducer c then match string_end (c =? 93) s with Some n => Some (2 + n)%nat | None => None end
      else if negb (c =? 91) then Some 2%nat
      else match csi_end s with Some n => Some (2 + n)%nat | None => None end
  | _ => None
  end.

Definition ansiSequenceEnd (buffer : text) (start : nat) : nat * bool :=
  match ansi_len (drop start buffer) with
  | Some n => ((start + n)%nat, true)
  | None => (length buffer, false)
  end.

(** ** splitFrames *)

Definition slice (a b : nat) (s : text) : text := take (b - a) (drop a s).

Definition boundary (questionMark : bool) (c : Z) : bool := (c =? 10) || (c =? 13) || (questionMark && (c =? 63)).

(** The loop from index [i] with the current frame starting at [start]: the frames,
    where the last incomplete one starts, and where the loop stopped. *)
Fixpoint split_loop (fuel : nat) (buffer : text) (q : bool) (start i : nat) : list text * nat * nat :=
  match fuel with
  | O => ([], start, i)
  | Datatypes.S fuel =>
      match buffer !! i with
      | None => ([], start, i)
      | Some c =>
          if c =? ESC then
            match ansiSequenceEnd buffer i with
            | (e, true) => split_loop fuel buffer q start e
            | (_, false) => ([], start, i)
            end
          else if negb (boundary q c) then split_loop fuel buffer q start (Datatypes.S i)
          else
            let e := if c =? 63 then Datatypes.S i else i in
            let frame := TrimSpace (slice start e buffer) in
            let '(frames, start', stop) := split_loop fuel buffer q (Datatypes.S i) (Datatypes.S i) in
            (match frame with [] => frames | _ => frame :: frames end, start', stop)
      end
  end.

Definition splitFrames (buffer : text) (q : bool) : list text * text :=
  let '(frames, start, _) := split_loop (length buffer) buffer q 0 0 in (frames, drop start buffer).

(** ** trimFrameBuffer *)

(** [utf8.RuneStart]: not a continuation byte. *)
Definition RuneStart (c : Z) : bool := negb (Z.land c 192 =? 128).

Fixpoint skip_continuation (s : text) : text :=
  match s with
  | c :: s' => if RuneStart c then s else skip_continuation s'
  | [] => []
  end.

Definition trimFrameBuffer (buffer : text) (maxBytes : nat) : text :=
  if (length buffer <=? maxBytes)%nat then buffer else skip_continuation (drop (length buffer - maxBytes) buffer).

(** ** The framer *)

Record Framer := MkFramer { maxBytes : nat; outputs : gmap string text; inputs : gmap string text }.

Definition NewFramer (max : Z) : Framer := MkFramer (Z.to_nat (if max <=? 0 then defaultFrameBufferSize else max)) ∅ ∅.

Definition buffered (m : gmap string text) (id : string) : text := default [] (m !! id).

Definition FeedOutput (f : Framer) (id : string) (data : text) : Framer * list text :=
  let '(frames, remainder) := splitFrames (trimFrameBuffer (buffered (outputs f) id ++ data) (maxBytes f)) true in
  (MkFramer (maxBytes f) (<[id := remainder]> (outputs f)) (inputs f), frames).

Definition FeedInput (f : Framer) (id : string) (data : text) : Framer * list text :=
  let '(frames, remainder) := splitFrames (trimFrameBuffer (buffered (inputs f) id ++ data) (maxBytes f)) false in
  (MkFramer (maxBytes f) (outputs f) (<[id := remainder]> (inputs f)), frames).

Definition FlushOutput (f : Framer) (id : string) : Framer * text :=
  (MkFramer (maxBytes f) (delete id (outputs f)) (inputs f), buffered (outputs f) id).

Definition FlushInput (f : Framer) (id : string) : Framer * text :=
  (MkFramer (maxBytes f) (outputs f) (delete id (inputs f)), buffered (inputs f) id).

Definition Reset (f : Framer) (id : string) : Framer :=
  MkFramer (maxBytes f) (delete id (outputs f)) (delete id (inputs f)).

Definition BufferedOutput (f : Framer) (id : string) : text := buffered (outputs f) id.

(** ** Escape sequences in a longer text *)

Lemma string_end_app osc s t n : string_end osc s = Some n -> string_end osc (s ++ t) = Some n.
Proof.
  revert n; induction s as [|c s IH]; intros n; [discriminate|]; cbn [string_end app].
  destruct (osc && (c =? BEL)); [auto|]; destruct s as [|d s]; [discriminate|]; cbn [app].
  destruct ((c =? ESC) && (d =? 92)); [auto|].
  destruct (string_end osc (d :: s)) as [k|]; [|discriminate]; intros [= <-].
  change (d :: s ++ t) with ((d :: s) ++ t); rewrite (IH k eq_refl); reflexivity.
Qed.

Lemma csi_end_app s t n : csi_end s = Some n -> csi_end (s ++ t) = Some n.
Proof.
  revert n; induction s as [|c s IH]; intros n; [discriminate|]; cbn; destruct (in_range 64 126 c); [auto|].
  destruct (csi_end s) as [k|]; [|discriminate]; intros [= <-]; rewrite (IH k eq_refl); reflexivity.
Qed.

Lemma ansi_len_app s t n : ansi_len s = Some n -> ansi_len (s ++ t) = Some n.
Proof.
  destruct s as [|e [|c s]]; cbn [ansi_len app]; try discriminate.
  destruct (string_introducer c).
  - destruct (string_end (c =? 93) s) as [k|] eqn:E; [|discriminate]; intros [= <-]; rewrite (string_end_app _ _ t _ E); reflexivity.
  - destruct (negb (c =? 91)); [auto|].
    destruct (csi_end s) as [k|] eqn:E; [|discriminate]; intros [= <-]; rewrite (csi_end_app _ t _ E); reflexivity.
Qed.

Lemma string_end_bound osc s n : string_end osc s = Some n -> (1 <= n <= length s)%nat.
Proof.
  revert n; induction s as [|c s IH]; intros n; [discriminate|]; cbn [string_end].
  destruct (osc && (c =? BEL)); [intros [= <-]; cbn; lia|]; destruct s as [|d s]; [discriminate|].
  destruct ((c =? ESC) && (d =? 92)); [intros [= <-]; cbn; lia|].
  destruct (string_end osc (d :: s)) as [k|]; [|discriminate]; intros [= <-]; specialize (IH k eq_refl); cbn in *; lia.
Qed.

Lemma csi_end_bound s n : csi_end s = Some n -> (1 <= n <= length s)%nat.
Proof.
  revert n; induction s as [|c s IH]; intros n; [discriminate|]; cbn; destruct (in_range 64 126 c); [intros [= <-]; lia|].
  destruct (csi_end s) as [k|]; [|discriminate]; intros [= <-]; specialize (IH k eq_refl); lia.
Qed.

Lemma ansi_len_bound s n : ansi_len s = Some n -> (2 <= n <= length s)%nat.
Proof.
  destruct s as [|e [|c s]]; cbn [ansi_len length]; try discriminate.
  destruct (string_introducer c).
  - destruct (string_end (c =? 93) s) as [k|] eqn:E; [|discriminate]; intros [= <-]; apply string_end_bound in E; lia.
  - destruct (negb (c =? 91)); [intros [= <-]; lia|].
    destruct (csi_end s) as [k|] eqn:E; [|discriminate]; intros [= <-]; apply csi_end_bound in E; lia.
Qed.

Lemma ansi_end_ok buffer i e : ansiSequenceEnd buffer i = (e, true) -> (i < e <= length buffer)%nat.
Proof.
  unfold ansiSequenceEnd; destruct (ansi_len _) as [n|] eqn:En; [|discriminate]; intros [= <-].
  apply ansi_len_bound in En; rewrite length_drop in En; lia.
Qed.

Lemma ansi_end_app a b i e :
  ansiSequenceEnd a i = (e, true) -> ansiSequenceEnd (a ++ b) i = (e, true).
Proof.
  unfold ansiSequenceEnd; destruct (ansi_len (drop i a)) as [n|] eqn:En; [|discriminate]; intros [= <-].
  assert (Hi : (i <= length a)%nat) by (apply ansi_len_bound in En; rewrite length_drop in En; lia).
  rewrite drop_app_le, (ansi_len_app _ b _ En) by exact Hi; reflexivity.
Qed.

Lemma ansi_end_drop buffer i k :
  (k <= i)%nat -> ansiSequenceEnd (drop k buffer) (i - k) =
  let '(e, ok) := ansiSequenceEnd buffer i in if ok then ((e - k)%nat, true) else ((length buffer - k)%nat, false).
Proof.
  intros H; unfold ansiSequenceEnd; rewrite drop_drop; replace (k + (i - k))%nat with i by lia.
  destruct (ansi_len (drop i buffer)); [f_equal; lia | rewrite length_drop; reflexivity].
Qed.

(** ** The loop: enough fuel, longer texts, shifted texts *)

Lemma split_loop_fuel f1 f2 buffer q start i :
  (length buffer - i <= f1)%nat -> (length buffer - i <= f2)%nat ->
  split_loop f1 buffer q start i = split_loop f2 buffer q start i.
Proof.
  revert f2 start i; induction f1 as [|f1 IH]; intros f2 start i H1 H2.
  - destruct f2 as [|f2]; [reflexivity|]; cbn [split_loop].
    rewrite (lookup_ge_None_2 buffer i) by lia; reflexivity.
  - destruct f2 as [|f2]; cbn [split_loop]; [rewrite (lookup_ge_None_2 buffer i) by lia; reflexivity|].
    destruct (buffer !! i) as [c|] eqn:Ec; [|reflexivity]; apply lookup_lt_Some in Ec.
    destruct (c =? ESC).
    + destruct (ansiSequenceEnd buffer i) as [e []] eqn:Ee; [|reflexivity]; apply ansi_end_ok in Ee; apply IH; lia.
    + destruct (negb (boundary q c)); [apply IH; lia|].
      rewrite (IH f2) by lia; reflexivity.
Qed.

(** The loop with fuel enough. *)
Definition run (buffer : text) (q : bool) (start i : nat) : list text * nat * nat := split_loop (length buffer) buffer q start i.

Definition emit_frame (frame : text) (r : list text * nat * nat) : list text * nat * nat :=
  let '(frames, start, stop) := r in (match frame with [] => frames | _ => frame :: frames end, start, stop).

Lemma run_eq buffer q start i :
  run buffer q start i =
  match buffer !! i with
  | None => ([], start, i)
  | Some c =>
      if c =? ESC then match ansiSequenceEnd buffer i with (e, true) => run buffer q start e | (_, false) => ([], start, i) end
      else if negb (boundary q c) then run buffer q start (Datatypes.S i)
      else emit_frame (TrimSpace (slice start (if c =? 63 then Datatypes.S i else i) buffer)) (run buffer q (Datatypes.S i) (Datatypes.S i))
  end.
Proof.
  unfold run; rewrite (split_loop_fuel _ (Datatypes.S (length buffer))) by lia; cbn [split_loop].
  destruct (buffer !! i) as [c|]; [|reflexivity]; destruct (c =? ESC); [reflexivity|].
  destruct (negb (boundary q c)); reflexivity.
Qed.

(** Where the loop can be: inside the text, the frame start not after it. *)
Lemma run_bounds n buffer q start i frames start' stop :
  (length buffer - i <= n)%nat -> (start <= i <= length buffer)%nat -> run buffer q start i = (frames, start', stop) ->
  (start <= start' <= stop)%nat /\ (i <= stop <= length buffer)%nat.
Proof.
  revert start i frames; induction n as [|n IH]; intros start i frames Hn Hi; rewrite run_eq.
  - rewrite (lookup_ge_None_2 buffer i) by lia; intros [= <- <- <-]; lia.
  - destruct (buffer !! i) as [c|] eqn:Ec; [|intros [= <- <- <-]; lia]; apply lookup_lt_Some in Ec.
    destruct (c =? ESC).
    + destruct (ansiSequenceEnd buffer i) as [e []] eqn:Ee; [|intros [= <- <- <-]; lia].
      apply ansi_end_ok in Ee; intros H; apply IH in H; lia.
    + destruct (negb (boundary q c)); [intros H; apply IH in H; lia|].
      destruct (run buffer q (Datatypes.S i) (Datatypes.S i)) as [[fr st] sp] eqn:Er; cbn; intros [= <- <- <-].
      apply IH in Er; lia.
Qed.

Lemma slice_app a b s e : (e <= length a)%nat -> slice s e (a ++ b) = slice s e a.
Proof.
  intros H; unfold slice; destruct (Nat.le_gt_cases s (length a)) as [Hs|Hs].
  - rewrite drop_app_le, take_app_le by (rewrite ?length_drop; lia); reflexivity.
  - replace (e - s)%nat with 0%nat by lia; reflexivity.
Qed.

(** On a longer text the loop first does what it did on the shorter one.  If going
    back to the start of the current frame makes no difference where the loop
    is, then neither where it stops on the shorter text. *)
Lemma run_extend n a b q start i frames start' stop :
  (length a - i <= n)%nat -> (start <= i <= length a)%nat -> run a q start i = (frames, start', stop) ->
  run (a ++ b) q start start = run (a ++ b) q start i ->
  (run (a ++ b) q start i = let '(fr, s2, st2) := run (a ++ b) q start' stop in (frames ++ fr, s2, st2)) /\
  run (a ++ b) q start' start' = run (a ++ b) q start' stop.
Proof.
  revert start i frames; induction n as [|n IH]; intros start i frames Hn Hi; rewrite run_eq.
  { rewrite (lookup_ge_None_2 a i) by lia; intros [= <- <- <-] Hq; split; [destruct (run (a ++ b) q start i) as [[? ?] ?]; reflexivity | exact Hq]. }
  destruct (a !! i) as [c|] eqn:Ec.
  2:{ intros [= <- <- <-] Hq; split; [destruct (run (a ++ b) q start i) as [[? ?] ?]; reflexivity | exact Hq]. }
  pose proof (lookup_lt_Some _ _ _ Ec) as Hlt.
  assert (Ec' : (a ++ b) !! i = Some c) by (rewrite lookup_app_l by exact Hlt; exact Ec).
  pose proof (run_eq (a ++ b) q start i) as Hstep; rewrite Ec' in Hstep.
  destruct (c =? ESC).
  - destruct (ansiSequenceEnd a i) as [e []] eqn:Ee.
    + rewrite (ansi_end_app _ b _ _ Ee) in Hstep; apply ansi_end_ok in Ee; intros Hr Hq; rewrite Hstep in Hq |- *.
      apply IH with (i := e) in Hr; [exact Hr | lia | lia | exact Hq].
    + clear Hstep; intros [= <- <- <-] Hq; split; [destruct (run (a ++ b) q start i) as [[? ?] ?]; reflexivity | exact Hq].
  - destruct (negb (boundary q c)).
    + intros Hr Hq; rewrite Hstep in Hq |- *; apply IH with (i := Datatypes.S i) in Hr; [exact Hr | lia | lia | exact Hq].
    + destruct (run a q (Datatypes.S i) (Datatypes.S i)) as [[fr st] sp] eqn:Er; cbn; intros [= <- <- <-] _.
      apply IH in Er as [Er Eq]; [|lia|lia|reflexivity]; split; [|exact Eq].
      rewrite Hstep, Er, slice_app by (destruct (c =? 63); lia).
      destruct (run (a ++ b) q st sp) as [[f2 s2] st2]; cbn.
      destruct (TrimSpace (slice start (if c =? 63 then Datatypes.S i else i) a)); reflexivity.
Qed.

Lemma slice_drop k s e (b : text) : (k <= s)%nat -> slice (s - k) (e - k) (drop k b) = slice s e b.
Proof. intros H; unfold slice; rewrite drop_drop; f_equal; [lia | f_equal; lia]. Qed.

(** Dropping text before the current frame shifts the indices. *)
Lemma run_drop n buffer q start i k :
  (length buffer - i <= n)%nat -> (k <= start <= i)%nat ->
  run (drop k buffer) q (start - k) (i - k) = let '(fr, s, st) := run buffer q start i in (fr, (s - k)%nat, (st - k)%nat).
Proof.
  revert start i; induction n as [|n IH]; intros start i Hn Hi; rewrite (run_eq (drop k buffer)), (run_eq buffer), lookup_drop;
    replace (k + (i - k))%nat with i by lia.
  { rewrite (lookup_ge_None_2 buffer i) by lia; reflexivity. }
  destruct (buffer !! i) as [c|] eqn:Ec; [|reflexivity]; apply lookup_lt_Some in Ec.
  destruct (c =? ESC).
  - rewrite ansi_end_drop by lia; destruct (ansiSequenceEnd buffer i) as [e []] eqn:Ee; [|reflexivity].
    apply ansi_end_ok in Ee; apply IH; lia.
  - destruct (negb (boundary q c)).
    + replace (Datatypes.S (i - k)) with (Datatypes.S i - k)%nat by lia; apply IH; lia.
    + replace (if c =? 63 then Datatypes.S (i - k) else (i - k)%nat) with ((if (c =? 63)%Z then Datatypes.S i else i) - k)%nat
        by (destruct (c =? 63); lia).
      rewrite slice_drop by lia; replace (Datatypes.S (i - k)) with (Datatypes.S i - k)%nat by lia.
      rewrite IH by lia; destruct (run buffer q (Datatypes.S i) (Datatypes.S i)) as [[fr s] st]; reflexivity.
Qed.

(** Cutting the text anywhere and carrying the remainder over gives the same frames. *)
Lemma split_app a b q :
  splitFrames (a ++ b) q =
  let '(f1, r) := splitFrames a q in let '(f2, r2) := splitFrames (r ++ b) q in (f1 ++ f2, r2).
Proof.
  unfold splitFrames; fold (run (a ++ b) q 0 0) (run a q 0 0).
  destruct (run a q 0 0) as [[f1 s1] st1] eqn:E1.
  pose proof (run_bounds _ _ _ _ _ _ _ _ (Nat.le_refl _) (conj (Nat.le_0_l 0) (Nat.le_0_l _)) E1) as [B1 B2].
  destruct (run_extend _ a b q 0 0 f1 s1 st1 (Nat.le_refl _) (conj (Nat.le_0_l 0) (Nat.le_0_l _)) E1 eq_refl) as [E2 E3].
  rewrite E2; replace (drop s1 a ++ b) with (drop s1 (a ++ b)) by (rewrite drop_app_le; [reflexivity | lia]).
  fold (run (drop s1 (a ++ b)) q 0 0).
  pose proof (run_drop _ (a ++ b) q s1 s1 s1 (Nat.le_refl _) (conj (Nat.le_refl _) (Nat.le_refl _))) as E4.
  rewrite Nat.sub_diag, E3 in E4; rewrite E4.
  destruct (run (a ++ b) q s1 st1) as [[f2 s2] st2] eqn:E5.
  assert (B3 : (s1 <= s2)%nat).
  { eapply run_bounds in E5; [|apply Nat.le_refl|]; [lia|]; rewrite length_app; lia. }
  rewrite drop_drop; replace (s1 + (s2 - s1))%nat with s2 by lia; reflexivity.
Qed.

(** ** Feeding chunks *)

Fixpoint feed_all (f : Framer) (id : string) (chunks : list text) : Framer * list text :=
  match chunks with
  | [] => (f, [])
  | d :: chunks => let '(f, a) := FeedOutput f id d in let '(f, b) := feed_all f id chunks in (f, a ++ b)
  end.

(** No buffer on the way is longer than the limit. *)
Fixpoint fits (f : Framer) (id : string) (chunks : list text) : bool :=
  match chunks with
  | [] => true
  | d :: chunks => (length (buffered (outputs f) id ++ d) <=? maxBytes f)%nat && fits (fst (FeedOutput f id d)) id chunks
  end.

Lemma skip_continuation_length s : (length (skip_continuation s) <= length s)%nat.
Proof. induction s as [|c s IH]; cbn; [lia|]; destruct (RuneStart c); cbn; lia. Qed.

Lemma trim_length buffer max : (length (trimFrameBuffer buffer max) <= max)%nat.
Proof.
  unfold trimFrameBuffer; destruct (length buffer <=? max)%nat eqn:E; [apply Nat.leb_le, E|].
  apply Nat.leb_gt in E; pose proof (skip_continuation_length (drop (length buffer - max) buffer)) as H.
  rewrite length_drop in H; lia.
Qed.

Lemma trim_suffix buffer max : exists cut, buffer = cut ++ trimFrameBuffer buffer max.
Proof.
  unfold trimFrameBuffer; destruct (length buffer <=? max)%nat; [exists []; reflexivity|].
  assert (K : forall s, exists c, s = c ++ skip_continuation s).
  { induction s as [|c s [p IH]]; [exists []; reflexivity|]; cbn; destruct (RuneStart c); [exists []; reflexivity|].
    exists (c :: p); cbn; rewrite <- IH; reflexivity. }
  destruct (K (drop (length buffer - max) buffer)) as [c Hc]; exists (take (length buffer - max) buffer ++ c).
  rewrite <- app_assoc, <- Hc, take_drop; reflexivity.
Qed.

(** ** Theorems *)

Lemma split_remainder a q : let '(_, r) := splitFrames a q in splitFrames r q = ([], r).
Proof.
  pose proof (split_app a [] q) as H; destruct (splitFrames a q) as [fr r] eqn:Es; rewrite !app_nil_r, Es in H.
  destruct (splitFrames r q) as [f2 r2]; injection H as H1 H2; subst r2; f_equal.
  apply (f_equal length) in H1; rewrite length_app in H1; destruct f2; [reflexivity | cbn in H1; lia].
Qed.

Lemma feed_all_split chunks f id :
  fits f id chunks = true -> splitFrames (BufferedOutput f id) true = ([], BufferedOutput f id) ->
  let '(f', frames) := feed_all f id chunks in
  (frames, BufferedOutput f' id) = splitFrames (BufferedOutput f id ++ concat chunks) true.
Proof.
  unfold BufferedOutput; revert f; induction chunks as [|d chunks IH]; intros f Hf Hb; cbn [feed_all concat].
  { rewrite app_nil_r, Hb; reflexivity. }
  cbn [fits] in Hf; apply andb_true_iff in Hf as [Hl Hf].
  unfold FeedOutput in *; unfold trimFrameBuffer in *; rewrite Hl in *.
  pose proof (split_remainder (buffered (outputs f) id ++ d) true) as Hr.
  rewrite app_assoc, (split_app (buffered (outputs f) id ++ d)).
  destruct (splitFrames (buffered (outputs f) id ++ d) true) as [fr r]; cbn [fst] in Hf.
  assert (Hi : buffered (<[id := r]> (outputs f)) id = r) by (unfold buffered; rewrite lookup_insert_eq; reflexivity).
  specialize (IH _ Hf); cbn [outputs] in IH; rewrite Hi in IH; specialize (IH Hr).
  destruct (feed_all _ id chunks) as [f' frs]; destruct (splitFrames (r ++ concat chunks) true) as [f2 r2].
  injection IH as H1 H2; f_equal; congruence.
Qed.

(** Framing does not depend on how the terminal output is cut into chunks: for a
    session without buffered text, and as long as no buffer exceeds its limit,
    feeding the chunks one after the other gives the frames, and leaves the
    remainder, of the whole text at once, wherever the cuts fall, inside escape
    sequences and characters too. *)
Theorem framing_chunks (f : Framer) (id : string) (chunks : list text) :
  outputs f !! id = None -> fits f id chunks = true ->
  let '(f', frames) := feed_all f id chunks in
  (frames, BufferedOutput f' id) = splitFrames (concat chunks) true.
Proof.
  intros Hn Hf; assert (Hb : BufferedOutput f id = []) by (unfold BufferedOutput, buffered; rewrite Hn; reflexivity).
  pose proof (feed_all_split chunks f id Hf) as H; rewrite Hb in H; apply H; reflexivity.
Qed.

(** The buffer of a session is bounded and always the end of what was received:
    after any chunk the text kept is at most the limit, it is a suffix of the
    text before with the chunk appended, and what is cut off when the limit is
    exceeded ends before a character, not inside one, unless nothing is left. *)
Theorem frame_buffer_bounded (f : Framer) (id : string) (data : text) :
  let '(f', _) := FeedOutput f id data in
  (length (BufferedOutput f' id) <= maxBytes f)%nat /\
  (exists cut, BufferedOutput f id ++ data = cut ++ BufferedOutput f' id) /\
  let whole := BufferedOutput f id ++ data in
  let kept := trimFrameBuffer whole (maxBytes f) in
  (maxBytes f < length whole)%nat -> kept = [] \/ exists c rest, kept = c :: rest /\ RuneStart c = true.
Proof.
  unfold FeedOutput, BufferedOutput.
  destruct (splitFrames _ true) as [fr r] eqn:Es; cbn [outputs].
  assert (Hr : buffered (<[id := r]> (outputs f)) id = r) by (unfold buffered; rewrite lookup_insert_eq; reflexivity).
  rewrite Hr; unfold splitFrames in Es.
  destruct (split_loop _ _ _ _ _) as [[fr' s] st]; injection Es as <- <-; split_and!.
  - rewrite length_drop; pose proof (trim_length (buffered (outputs f) id ++ data) (maxBytes f)); lia.
  - destruct (trim_suffix (buffered (outputs f) id ++ data) (maxBytes f)) as [cut Hc].
    exists (cut ++ take s (trimFrameBuffer (buffered (outputs f) id ++ data) (maxBytes f))).
    rewrite <- app_assoc, take_drop; exact Hc.
  - intros Hlt; unfold trimFrameBuffer; rewrite (proj2 (Nat.leb_gt _ _) Hlt).
    generalize (drop (length (buffered (outputs f) id ++ data) - maxBytes f) (buffered (outputs f) id ++ data)) as x.
    induction x as [|c x IH]; cbn; [left; reflexivity|]; destruct (RuneStart c) eqn:Ec; [right; eauto | exact IH].
Qed.

(** C40. The scan terminates: every step moves forward, so fuel for one step per byte
    is enough; with more fuel the result is the same, and the loop has stopped at
    the end of the text or at an escape sequence that is not complete. *)
Theorem framing_terminates (buffer : text) (q : bool) (fuel : nat) :
  (length buffer <= fuel)%nat ->
  let '(frames, start, stop) := split_loop fuel buffer q 0 0 in
  split_loop (length buffer) buffer q 0 0 = (frames, start, stop) /\ (start <= stop)%nat /\
  (stop = length buffer \/ buffer !! stop = Some ESC /\ ansi_len (drop stop buffer) = None).
Proof.
  intros Hl; rewrite (split_loop_fuel fuel (length buffer)) by lia.
  destruct (split_loop (length buffer) buffer q 0 0) as [[fr s] st] eqn:Er; split; [reflexivity|]; fold (run buffer q 0 0) in Er.
  pose proof (run_bounds _ _ _ _ _ _ _ _ (Nat.le_refl _) (conj (Nat.le_0_l 0) (Nat.le_0_l _)) Er) as [B1 B2]; split; [lia|].
  assert (K : forall n start i fr s st, (length buffer - i <= n)%nat -> (i <= length buffer)%nat -> run buffer q start i = (fr, s, st) ->
    st = length buffer \/ buffer !! st = Some ESC /\ ansi_len (drop st buffer) = None).
  { clear; induction n as [|n IH]; intros start i fr s st Hn Hi; rewrite run_eq.
    - rewrite (lookup_ge_None_2 buffer i) by lia; intros [= <- <- <-]; lia.
    - destruct (buffer !! i) as [c|] eqn:Ec; [|intros [= <- <- <-]; apply lookup_ge_None_1 in Ec; lia].
      pose proof (lookup_lt_Some _ _ _ Ec) as Hlt; destruct (c =? ESC) eqn:Ee; bool_to_prop.
      + destruct (ansiSequenceEnd buffer i) as [e []] eqn:Ea; [apply ansi_end_ok in Ea; intros H; apply IH in H; auto; lia|].
        intros [= <- <- <-]; right; split; [congruence|]; unfold ansiSequenceEnd in Ea; destruct (ansi_len _); [discriminate | reflexivity].
      + destruct (negb (boundary q c)); [intros H; apply IH in H; auto; lia|].
        destruct (run buffer q (Datatypes.S i) (Datatypes.S i)) as [[f2 s2] st2] eqn:E2; cbn; intros [= <- <- <-].
        apply IH in E2; auto; lia. }
  apply (K (length buffer) 0%nat 0%nat fr s st); lia || exact Er.
Qed.

(** ** Concrete runs *)

Definition coloured : text := chars "Continue" ++ [27; 91; 51; 49; 109] ++ chars " now? yes" ++ [10] ++ chars "rest".

Lemma framing_chunks_witness :
  let '(f', frames) := feed_all (NewFramer 64) "s1" [take 10 coloured; take 12 (drop 10 coloured); drop 22 coloured] in
  (frames, BufferedOutput f' "s1") = splitFrames coloured true /\ BufferedOutput f' "s1" = chars "rest".
Proof.
  pose proof (framing_chunks (NewFramer 64) "s1" [take 10 coloured; take 12 (drop 10 coloured); drop 22 coloured] eq_refl eq_refl) as H.
  destruct (feed_all _ _ _) as [f' frames] eqn:Ef; split; [exact H|].
  change f' with (fst (f', frames)); rewrite <- Ef; vm_compute; reflexivity.
Defined.

Lemma framing_terminates_witness :
  let '(frames, start, stop) := split_loop 40 coloured true 0 0 in (start <= stop)%nat /\ frames = [chars "Continue" ++ [27; 91; 51; 49; 109] ++ chars " now?"; chars "yes"].
Proof.
  assert (Hl : (length coloured <= 40)%nat) by (cbn; lia).
  pose proof (framing_terminates coloured true 40 Hl) as H.
  destruct (split_loop 40 coloured true 0 0) as [[frames start] stop] eqn:Es; destruct H as (_ & H & _); split; [exact H|].
  change frames with (fst (fst (frames, start, stop))); rewrite <- Es; vm_compute; reflexivity.
Defined.
