(* ===== verification/Spool.v ===== *)
(** * Telemetry spool: internal/telemetry/spool.go, uploader.go

    Records are appended to an active file, which is sealed into an immutable
    segment when it is full; segments are listed in the order of their
    identifiers, uploaded, removed, and evicted from the oldest on when the disk
    budget is exceeded.  The state is the directory: the active file and the
    segments in the order [pendingLocked] sorts them into, with what was evicted
    and removed so far.  Identifiers are lists of byte values.

    A file operation succeeds or fails as the world says; the process can die in
    the middle of a write, and [NewSegmentSpool] then repairs the directory. *)

From S2P Require Import Prelude Types ByteBuf GoStd Store.

Abbreviation seg_id := (list Z).
Abbreviation segment := (seg_id * bytes)%type.

Definition newline : Byte.byte := Byte.x0a.

(** [segmentIDPattern]. *)
Definition validSegmentID (id : seg_id) : bool :=
  match id with
  | [] => false
  | c :: rest => alnum c && forallb (fun c => alnum c || (c =? 46) || (c =? 95) || (c =? 45)) rest && (zlen rest <=? 127)
  end.

Record SegmentSpool := MkSpool {
  maxSegmentBytes : Z;
  maxDiskBytes : Z;
  sp_active : option bytes;
  sp_segments : list segment;
  sp_evicted : list segment; (* passed to [onEvict], in order *)
  sp_removed : list segment; (* removed on request *)
}.

Definition put_files (a : option bytes) (segs ev rm : list segment) (s : SegmentSpool) : SegmentSpool :=
  MkSpool (maxSegmentBytes s) (maxDiskBytes s) a segs ev rm.

Definition seg_sizes (l : list segment) : Z := foldr (fun x n => zlen (snd x) + n) 0 l.
Definition active_size (s : SegmentSpool) : Z := match sp_active s with Some d => zlen d | None => 0 end.
Definition total_bytes (s : SegmentSpool) : Z := seg_sizes (sp_segments s) + active_size s.

(** How far file operations get.  [fw_rm id]: the removal of a segment works;
    [fw_rm []]: that of the active file. *)
Record fs_world := MkFs {
  fw_stat : bool;
  fw_open : bool;
  fw_write : option nat; (* [None]: all written; [Some k]: an error after [k] bytes *)
  fw_sync : bool;
  fw_rename : bool;
  fw_dirsync : bool;
  fw_list : bool;
  fw_rm : seg_id -> bool;
  fw_id : seg_id;        (* the identifier formatted for a sealed segment *)
}.

(** The eviction loop of [enforceLimitLocked]: evicted, left, and whether no
    removal failed. *)
Fixpoint evict (max total : Z) (rm : seg_id -> bool) (l : list segment) : list segment * list segment * bool :=
  match l with
  | [] => ([], [], true)
  | (id, d) :: l' =>
      if max <? total then
        if rm id then let '(ev, rest, ok) := evict max (total - zlen d) rm l' in ((id, d) :: ev, rest, ok)
        else ([], l, false)
      else ([], l, true)
  end.

Definition enforceLimitLocked (s : SegmentSpool) (w : fs_world) : SegmentSpool * bool :=
  if negb (fw_list w) || negb (fw_stat w) then (s, false)
  else
    let '(ev, rest, ok) := evict (maxDiskBytes s) (total_bytes s) (fw_rm w) (sp_segments s) in
    (put_files (sp_active s) rest (sp_evicted s ++ ev) (sp_removed s) s, ok && fw_dirsync w).

(** [sealLocked]: the new segment, if there was something to seal, and whether it
    returned without error. *)
Definition sealLocked (s : SegmentSpool) (w : fs_world) : SegmentSpool * bool :=
  match sp_active s with
  | None => (s, true)
  | Some d =>
      if negb (fw_stat w) then (s, false)
      else if zlen d =? 0 then
        if fw_rm w [] then (put_files None (sp_segments s) (sp_evicted s) (sp_removed s) s, true) else (s, false)
      else if negb (fw_rename w) then (s, false)
      else
        let s := put_files None (put_sorted (fw_id w) d (sp_segments s)) (sp_evicted s) (sp_removed s) s in
        if negb (fw_dirsync w) then (s, false) else enforceLimitLocked s w
  end.

(** How an append ends. *)
Inductive appended := Appended | TooLarge | AppendFailed.

Definition active_or_empty (s : SegmentSpool) : bytes := default [] (sp_active s).

(** [Append]; the second world is for the seal before the write. *)
Definition Append (s : SegmentSpool) (data : bytes) (w ws : fs_world) : SegmentSpool * appended :=
  if zlen data =? 0 then (s, Appended)
  else if maxSegmentBytes s <? zlen data then (s, TooLarge)
  else if negb (fw_stat w) then (s, AppendFailed)
  else
    let '(s, ok) := if (0 <? active_size s) && (maxSegmentBytes s <? active_size s + zlen data) then sealLocked s ws else (s, true) in
    if negb ok then (s, AppendFailed)
    else if negb (fw_open w) then (s, AppendFailed)
    else
      let n := match fw_write w with None => length data | Some k => Nat.min k (length data) end in
      let s := put_files (Some (active_or_empty s ++ take n data)) (sp_segments s) (sp_evicted s) (sp_removed s) s in
      match fw_write w with
      | Some _ => (s, AppendFailed)
      | None =>
          if negb (fw_sync w) then (s, AppendFailed)
          else let '(s, ok) := enforceLimitLocked s w in (s, if ok then Appended else AppendFailed)
      end.

(** [repairActiveLocked]: cut the text after the last newline. *)
Fixpoint last_newline (d : bytes) : option nat :=
  match d with
  | [] => None
  | c :: d' => match last_newline d' with
               | Some n => Some (Datatypes.S n)
               | None => if bool_decide (c = newline) then Some 0%nat else None
               end
  end.

Definition repairActiveLocked (s : SegmentSpool) : SegmentSpool :=
  match sp_active s with
  | None => s
  | Some d =>
      put_files (match last_newline d with None => None | Some n => Some (take (Datatypes.S n) d) end)
        (sp_segments s) (sp_evicted s) (sp_removed s) s
  end.

(** [NewSegmentSpool] on an existing directory, all file operations working but
    those of the world; [None]: an error.  Staging files are deleted and not
    part of the state. *)
Definition NewSegmentSpool (s : SegmentSpool) (w : fs_world) : option SegmentSpool :=
  if (maxSegmentBytes s <? 1) || (maxDiskBytes s <? maxSegmentBytes s) then None
  else
    let '(s, ok) := if 0 <? active_size s then sealLocked (repairActiveLocked s) w else (s, true) in
    if negb ok then None
    else let '(s, ok) := enforceLimitLocked s w in if ok then Some s else None.

Definition find_segment (id : seg_id) (l : list segment) : option bytes :=
  match List.find (fun x => bool_decide (fst x = id)) l with Some (_, d) => Some d | None => None end.

Inductive accepted := Stored | Duplicate | InvalidID | Oversized | Conflict | AcceptFailed.

Definition Accept (s : SegmentSpool) (id : seg_id) (data : bytes) (w : fs_world) : SegmentSpool * accepted :=
  if negb (validSegmentID id) then (s, InvalidID)
  else if maxSegmentBytes s <? zlen data then (s, Oversized)
  else match find_segment id (sp_segments s) with
       | Some existing => (s, if bool_decide (existing = data) then Duplicate else Conflict)
       | None =>
           if negb (fw_open w && fw_sync w && fw_rename w) || match fw_write w with None => false | Some _ => true end
           then (s, AcceptFailed)
           else
             let s := put_files (sp_active s) (put_sorted id data (sp_segments s)) (sp_evicted s) (sp_removed s) s in
             if negb (fw_dirsync w) then (s, AcceptFailed)
             else let '(s, ok) := enforceLimitLocked s w in (s, if ok then Stored else AcceptFailed)
       end.

Definition Pending (s : SegmentSpool) : list (seg_id * Z) := map (fun x => (fst x, zlen (snd x))) (sp_segments s).

Definition Read (s : SegmentSpool) (id : seg_id) : option bytes :=
  if validSegmentID id then find_segment id (sp_segments s) else None.

Definition Remove (s : SegmentSpool) (id : seg_id) (w : fs_world) : SegmentSpool * bool :=
  if negb (validSegmentID id) then (s, false)
  else if negb (fw_rm w id) then (s, false)
  else
    let '(gone, rest) := List.partition (fun x => bool_decide (fst x = id)) (sp_segments s) in
    (put_files (sp_active s) rest (sp_evicted s) (sp_removed s ++ gone) s, fw_dirsync w).

(** ** Uploading (uploader.go) *)

(** [UploadPending] over the segments listed before; [put] says whether the object
    store takes a segment, [w] the file world; the result is what was uploaded. *)
Fixpoint upload (s : SegmentSpool) (listed : list (seg_id * Z)) (put : seg_id -> bool) (w : fs_world)
    : SegmentSpool * list segment * bool :=
  match listed with
  | [] => (s, [], true)
  | (id, _) :: listed =>
      match Read s id with
      | None => (s, [], false)
      | Some data =>
          if negb (put id) then (s, [], false)
          else match Remove s id w with
               | (s, false) => (s, [(id, data)], false)
               | (s, true) => let '(s, up, ok) := upload s listed put w in (s, (id, data) :: up, ok)
               end
      end
  end.

Definition UploadPending (s : SegmentSpool) (put : seg_id -> bool) (w : fs_world) : SegmentSpool * list segment * bool :=
  if negb (fw_list w) then (s, [], false) else upload s (Pending s) put w.

(** ** Lines *)

(** The complete lines of a text. *)
Fixpoint lines_from (cur : bytes) (d : bytes) : list bytes :=
  match d with
  | [] => []
  | c :: d => if bool_decide (c = newline) then (cur ++ [c]) :: lines_from [] d else lines_from (cur ++ [c]) d
  end.

Definition lines (d : bytes) : list bytes := lines_from [] d.

(** One record: text without newline, then a newline. *)
Definition is_line (d : bytes) : bool :=
  match rev d with
  | [] => false
  | c :: r => bool_decide (c = newline) && forallb (fun x => negb (bool_decide (x = newline))) r
  end.

Definition seg_lines (l : list segment) : list bytes := concat (map (fun x => lines (snd x)) l).

#[global] Arguments lines : simpl never.
#[global] Arguments seg_lines : simpl never.

(** Every line that is in the directory, was evicted, or was removed. *)
Definition all_lines (s : SegmentSpool) : list bytes :=
  seg_lines (sp_evicted s) ++ seg_lines (sp_removed s) ++ seg_lines (sp_segments s) ++ lines (active_or_empty s).

(** The text after the last newline. *)
Fixpoint rest_from (cur : bytes) (d : bytes) : bytes :=
  match d with
  | [] => cur
  | c :: d => if bool_decide (c = newline) then rest_from [] d else rest_from (cur ++ [c]) d
  end.

Definition whole (d : bytes) : Prop := rest_from [] d = [].

Lemma lines_from_app cur a b : lines_from cur (a ++ b) = lines_from cur a ++ lines_from (rest_from cur a) b.
Proof.
  revert cur; induction a as [|c a IH]; intros cur; [reflexivity|]; cbn; destruct (bool_decide (c = newline)); cbn; rewrite IH; reflexivity.
Qed.

Lemma rest_from_app cur a b : rest_from cur (a ++ b) = rest_from (rest_from cur a) b.
Proof. revert cur; induction a as [|c a IH]; intros cur; [reflexivity|]; cbn; destruct (bool_decide (c = newline)); apply IH. Qed.

Lemma lines_app a b : whole a -> lines (a ++ b) = lines a ++ lines b.
Proof. intros H; unfold lines; rewrite lines_from_app, H; reflexivity. Qed.

Lemma whole_app a b : whole a -> whole b -> whole (a ++ b).
Proof. unfold whole; intros Ha Hb; rewrite rest_from_app, Ha; exact Hb. Qed.

(** Text without a newline. *)
Definition plain (d : bytes) : Prop := Forall (fun c => c <> newline) d.

Lemma plain_from cur d : plain d -> lines_from cur d = [] /\ rest_from cur d = cur ++ d.
Proof.
  intros H; revert cur; induction H as [|c d Hc _ IH]; intros cur; cbn; [rewrite app_nil_r; auto|].
  rewrite bool_decide_false by exact Hc; destruct (IH (cur ++ [c])) as [-> ->]; rewrite <- app_assoc; auto.
Qed.

Lemma is_line_spec d : is_line d = true -> exists r, d = r ++ [newline] /\ plain r.
Proof.
  unfold is_line; destruct (rev d) as [|c r] eqn:E; [discriminate|]; intros H; apply andb_true_iff in H as [Hc Hr].
  apply bool_decide_eq_true in Hc; subst c; exists (rev r); split.
  - rewrite <- (rev_involutive d), E; reflexivity.
  - apply Forall_rev, Forall_forall; intros x Hx; rewrite forallb_forall in Hr; apply Hr in Hx.
    apply negb_true_iff, bool_decide_eq_false in Hx; exact Hx.
Qed.

Lemma line_lines d : is_line d = true -> lines d = [d] /\ whole d.
Proof.
  intros H; apply is_line_spec in H as (r & -> & Hr); unfold lines, whole.
  destruct (plain_from [] r Hr) as [H1 H2]; rewrite lines_from_app, rest_from_app, H1, H2; cbn.
  rewrite bool_decide_true by reflexivity; auto.
Qed.

Lemma line_cut d k : is_line d = true -> (k < length d)%nat -> plain (take k d).
Proof.
  intros H Hk; apply is_line_spec in H as (r & -> & Hr); rewrite length_app in Hk; cbn in Hk.
  rewrite take_app_le by lia; apply Forall_take, Hr.
Qed.

(** Repair keeps the complete lines and nothing else. *)
Lemma last_newline_spec d :
  match last_newline d with
  | None => plain d
  | Some n => exists a b, d = a ++ [newline] ++ b /\ length a = n /\ plain b
  end.
Proof.
  induction d as [|c d IH]; cbn; [constructor|]; destruct (last_newline d) as [n|].
  - destruct IH as (a & b & -> & <- & Hb); exists (c :: a), b; auto.
  - case_bool_decide as E; [subst c; exists [], d; auto | constructor; assumption].
Qed.

Lemma repair_lines d :
  let d' := match last_newline d with None => [] | Some n => take (Datatypes.S n) d end in lines d' = lines d /\ whole d'.
Proof.
  pose proof (last_newline_spec d) as H; destruct (last_newline d) as [n|]; cbn zeta.
  - destruct H as (a & b & -> & <- & Hb).
    assert (Ht : take (Datatypes.S (length a)) (a ++ [newline] ++ b) = a ++ [newline]).
    { rewrite app_assoc; apply take_app_length'; rewrite length_app; cbn; lia. }
    rewrite Ht; assert (W : whole (a ++ [newline])) by (unfold whole; rewrite rest_from_app; cbn; rewrite bool_decide_true by reflexivity; reflexivity).
    split; [|exact W]; rewrite app_assoc, (lines_app _ b W).
    unfold lines at 3; rewrite (proj1 (plain_from [] b Hb)), app_nil_r; reflexivity.
  - split; [symmetry; apply (plain_from [] d H) | reflexivity].
Qed.

(** ** Segments *)

Lemma evict_split max total rm l ev rest ok : evict max total rm l = (ev, rest, ok) -> l = ev ++ rest.
Proof.
  revert total ev rest ok; induction l as [|[id d] l IH]; intros total ev rest ok; cbn; [intros [= <- <- _]; reflexivity|].
  destruct (max <? total); [|intros [= <- <- _]; reflexivity]; destruct (rm id); [|intros [= <- <- _]; reflexivity].
  destruct (evict max (total - zlen d) rm l) as [[ev' rest'] ok'] eqn:Ee; intros [= <- <- _]; cbn; f_equal; eapply IH, Ee.
Qed.

Lemma seg_lines_app a b : seg_lines (a ++ b) = seg_lines a ++ seg_lines b.
Proof. unfold seg_lines; rewrite map_app, concat_app; reflexivity. Qed.

Lemma seg_lines_perm a b : a ≡ₚ b -> seg_lines a ≡ₚ seg_lines b.
Proof.
  intros H; unfold seg_lines; induction H as [|x a b _ IH|x y a|a b c _ IH1 _ IH2]; cbn; auto.
  - rewrite IH; reflexivity.
  - rewrite !app_assoc, (Permutation_app_comm (lines (snd y))); reflexivity.
  - etransitivity; eassumption.
Qed.

Lemma put_sorted_perm id (d : bytes) l : id ∉ map fst l -> put_sorted id d l ≡ₚ (id, d) :: l.
Proof.
  induction l as [|[k v] l IH]; intros Hn; cbn [put_sorted]; [reflexivity|]; cbn in Hn; apply not_elem_of_cons in Hn as [H1 H2].
  destruct (key_lt id k); [reflexivity|]; rewrite bool_decide_false by exact H1.
  rewrite IH by exact H2; apply Permutation_swap.
Qed.

Lemma partition_perm (f : segment -> bool) l a b : List.partition f l = (a, b) -> l ≡ₚ a ++ b.
Proof.
  revert a b; induction l as [|x l IH]; intros a b; cbn; [intros [= <- <-]; reflexivity|].
  destruct (List.partition f l) as [a' b'] eqn:E; destruct (f x); intros [= <- <-]; cbn; rewrite (IH a' b' eq_refl); [reflexivity|].
  apply Permutation_middle.
Qed.

(** ** What each operation does to the lines *)

Lemma enforce_lines s w : all_lines (enforceLimitLocked s w).1 ≡ₚ all_lines s /\
  sp_active (enforceLimitLocked s w).1 = sp_active s.
Proof.
  unfold enforceLimitLocked; destruct (_ || _); [auto|].
  destruct (evict _ _ _ _) as [[ev rest] ok] eqn:E; cbn; split; [|reflexivity].
  apply evict_split in E; unfold all_lines, active_or_empty; cbn; rewrite E, !seg_lines_app, <- !app_assoc.
  apply Permutation_app_head; rewrite !app_assoc; apply Permutation_app_tail, Permutation_app_tail, Permutation_app_comm.
Qed.

Lemma seal_lines s w :
  fw_id w ∉ map fst (sp_segments s) ->
  all_lines (sealLocked s w).1 ≡ₚ all_lines s /\
  (sp_active (sealLocked s w).1 = sp_active s \/ sp_active (sealLocked s w).1 = None).
Proof.
  intros Hn; unfold sealLocked; destruct (sp_active s) as [d|] eqn:Ea; [|cbn; rewrite ?Ea; auto].
  destruct (negb (fw_stat w)); [cbn; rewrite ?Ea; auto|].
  destruct (zlen d =? 0) eqn:Ez.
  { destruct (fw_rm w []); [|cbn; rewrite ?Ea; auto]; apply Z.eqb_eq, zlen_0_nil in Ez; subst d; split; [|auto]; unfold all_lines, active_or_empty; cbn; rewrite Ea; reflexivity. }
  destruct (negb (fw_rename w)); [cbn; rewrite ?Ea; auto|].
  set (s1 := put_files None _ _ _ s).
  assert (K : all_lines s1 ≡ₚ all_lines s).
  { unfold all_lines, active_or_empty; cbn; rewrite Ea; cbn; rewrite app_nil_r.
    do 2 apply Permutation_app_head; rewrite (seg_lines_perm _ _ (put_sorted_perm _ d _ Hn)); apply (Permutation_app_comm (lines d)). }
  destruct (negb (fw_dirsync w)); [split; [exact K | right; reflexivity]|].
  destruct (enforce_lines s1 w) as [K1 K2]; split; [rewrite K1; exact K | right; rewrite K2; reflexivity].
Qed.

Lemma remove_lines s id w : all_lines (Remove s id w).1 ≡ₚ all_lines s /\ sp_active (Remove s id w).1 = sp_active s.
Proof.
  unfold Remove; destruct (negb _); [auto|]; destruct (negb _); [auto|].
  destruct (List.partition _ _) as [gone rest] eqn:E; cbn; split; [|reflexivity].
  apply partition_perm in E; unfold all_lines, active_or_empty; cbn.
  rewrite (seg_lines_perm _ _ E), !seg_lines_app, <- !app_assoc; reflexivity.
Qed.

(** The active file keeps complete lines only. *)
Definition clean (s : SegmentSpool) : Prop := whole (active_or_empty s).

Lemma clean_same s s' : sp_active s' = sp_active s -> clean s -> clean s'.
Proof. unfold clean, active_or_empty; intros ->; auto. Qed.

Lemma clean_none s : sp_active s = None -> clean s.
Proof. unfold clean, active_or_empty; intros ->; reflexivity. Qed.

Lemma append_lines s data w ws :
  clean s -> is_line data = true -> fw_id ws ∉ map fst (sp_segments s) -> (fw_write w = None \/ fw_write w = Some 0%nat) ->
  exists wrote, all_lines (Append s data w ws).1 ≡ₚ all_lines s ++ wrote /\ clean (Append s data w ws).1 /\
    (wrote = [] \/ wrote = [data]) /\ ((Append s data w ws).2 = Appended -> wrote = [data]).
Proof.
  intros C Hl Hn Hw; destruct (line_lines data Hl) as [Hd1 Hd2]; unfold Append.
  assert (Stay : forall x r, all_lines x ≡ₚ all_lines s -> clean x -> r <> Appended ->
    exists wrote, all_lines (x, r).1 ≡ₚ all_lines s ++ wrote /\ clean (x, r).1 /\ (wrote = [] \/ wrote = [data]) /\ ((x, r).2 = Appended -> wrote = [data])).
  { intros x r H1 H2 H3; exists []; rewrite app_nil_r; cbn; split_and!; auto; congruence. }
  destruct (zlen data =? 0) eqn:Ez; [apply Z.eqb_eq, zlen_0_nil in Ez; subst data; discriminate|].
  destruct (maxSegmentBytes s <? zlen data); [apply Stay; auto; discriminate|].
  destruct (negb (fw_stat w)); [apply Stay; auto; discriminate|].
  match goal with |- context [let '(_, _) := (if ?c then sealLocked s ws else (s, true)) in _] => destruct (if c then sealLocked s ws else (s, true)) as [s1 ok1] eqn:E1;
    assert (K : all_lines s1 ≡ₚ all_lines s /\ clean s1) end.
  { destruct (_ && _) in E1; [|injection E1 as <- _; auto].
    destruct (seal_lines s ws Hn) as [K1 K2]; rewrite E1 in K1, K2; split; [exact K1|].
    destruct K2 as [K2|K2]; [apply (clean_same s); auto | apply clean_none, K2]. }
  destruct K as [K1 K2]; destruct ok1; cbn [negb]; [|apply Stay; auto; discriminate].
  destruct (negb (fw_open w)); [apply Stay; auto; discriminate|].
  set (n := match fw_write w with None => length data | Some k => Nat.min k (length data) end).
  set (s2 := put_files (Some (active_or_empty s1 ++ take n data)) _ _ _ s1).
  destruct Hw as [Hw|Hw]; rewrite Hw.
  - assert (Hn2 : take n data = data) by (unfold n; rewrite Hw; apply take_ge; lia).
    assert (L2 : all_lines s2 ≡ₚ all_lines s ++ [data]).
    { rewrite <- K1; unfold all_lines, s2; cbn; rewrite Hn2, lines_app, Hd1 by exact K2; rewrite <- !app_assoc; reflexivity. }
    assert (C2 : clean s2) by (unfold clean, s2; cbn; rewrite Hn2; apply whole_app; assumption).
    assert (Go : forall x r, all_lines x ≡ₚ all_lines s2 -> clean x ->
      exists wrote, all_lines (x, r).1 ≡ₚ all_lines s ++ wrote /\ clean (x, r).1 /\ (wrote = [] \/ wrote = [data]) /\ ((x, r).2 = Appended -> wrote = [data])).
    { intros x r H1 H2; exists [data]; cbn; rewrite H1, L2; split_and!; auto. }
    destruct (negb (fw_sync w)); [apply Go; auto|].
    destruct (enforceLimitLocked s2 w) as [s3 ok3] eqn:E3; destruct (enforce_lines s2 w) as [K3 K4]; rewrite E3 in K3, K4.
    apply Go; [exact K3 | apply (clean_same s2); auto].
  - assert (Hn2 : take n data = []) by (unfold n; rewrite Hw; reflexivity).
    apply Stay; [|unfold clean, s2; cbn; rewrite Hn2, app_nil_r; exact K2 | discriminate].
    rewrite <- K1; unfold all_lines, s2; cbn; rewrite Hn2, app_nil_r; reflexivity.
Qed.

Lemma accept_lines s id data w :
  id ∉ map fst (sp_segments s) \/ find_segment id (sp_segments s) <> None ->
  exists wrote, all_lines (Accept s id data w).1 ≡ₚ all_lines s ++ wrote /\ sp_active (Accept s id data w).1 = sp_active s /\
    (wrote = [] \/ wrote = lines data) /\ ((Accept s id data w).2 = Stored -> wrote = lines data).
Proof.
  intros Hid; unfold Accept.
  assert (Stay : forall r, r <> Stored -> exists wrote, all_lines (s, r).1 ≡ₚ all_lines s ++ wrote /\ sp_active (s, r).1 = sp_active s /\
    (wrote = [] \/ wrote = lines data) /\ ((s, r).2 = Stored -> wrote = lines data)).
  { intros r Hr; exists []; rewrite app_nil_r; cbn; split_and!; auto; congruence. }
  destruct (negb (validSegmentID id)); [apply Stay; discriminate|].
  destruct (maxSegmentBytes s <? zlen data); [apply Stay; discriminate|].
  destruct (find_segment id (sp_segments s)) as [ex|] eqn:Ef; [apply Stay; case_bool_decide; discriminate|].
  destruct Hid as [Hid|Hid]; [|congruence].
  destruct (_ || _); [apply Stay; discriminate|].
  set (s1 := put_files _ _ _ _ s).
  assert (L1 : all_lines s1 ≡ₚ all_lines s ++ lines data).
  { unfold all_lines, active_or_empty, s1; cbn; rewrite (seg_lines_perm _ _ (put_sorted_perm _ data _ Hid)).
    change (seg_lines ((id, data) :: sp_segments s)) with (lines data ++ seg_lines (sp_segments s)).
    rewrite <- !app_assoc; do 2 apply Permutation_app_head; rewrite (Permutation_app_comm (lines data)), <- app_assoc; reflexivity. }
  assert (Go : forall x r, all_lines x ≡ₚ all_lines s1 -> sp_active x = sp_active s ->
    exists wrote, all_lines (x, r).1 ≡ₚ all_lines s ++ wrote /\ sp_active (x, r).1 = sp_active s /\
    (wrote = [] \/ wrote = lines data) /\ ((x, r).2 = Stored -> wrote = lines data)).
  { intros x r H1 H2; exists (lines data); cbn; rewrite H1, L1; split_and!; auto. }
  destruct (negb (fw_dirsync w)); [apply Go; auto|].
  destruct (enforceLimitLocked s1 w) as [s2 ok] eqn:E; destruct (enforce_lines s1 w) as [K1 K2]; rewrite E in K1, K2.
  cbn in K1, K2; apply Go; [exact K1 | exact K2].
Qed.

(** A directory left by a crash: [k] bytes of a record were appended to it. *)
Definition torn (s : SegmentSpool) (data : bytes) (k : nat) : SegmentSpool :=
  put_files (Some (active_or_empty s ++ take k data)) (sp_segments s) (sp_evicted s) (sp_removed s) s.

Lemma torn_lines s data k : clean s -> is_line data = true -> (k < length data)%nat -> all_lines (torn s data k) = all_lines s.
Proof.
  intros C Hl Hk; unfold all_lines, torn, active_or_empty at 1; cbn; rewrite lines_app by exact C.
  unfold lines at 2; rewrite (proj1 (plain_from [] _ (line_cut data k Hl Hk))), app_nil_r; reflexivity.
Qed.

Lemma restart_lines s w s' :
  fw_id w ∉ map fst (sp_segments s) -> NewSegmentSpool s w = Some s' -> all_lines s' ≡ₚ all_lines s /\ clean s'.
Proof.
  intros Hn; unfold NewSegmentSpool; destruct (_ || _); [discriminate|].
  assert (R : all_lines (repairActiveLocked s) ≡ₚ all_lines s /\ clean (repairActiveLocked s)).
  { unfold repairActiveLocked; destruct (sp_active s) as [d|] eqn:Ea; [|split; [reflexivity | apply clean_none, Ea]].
    destruct (repair_lines d) as [H1 H2]; unfold all_lines, clean, active_or_empty; cbn; rewrite Ea; cbn.
    destruct (last_newline d); cbn in *; rewrite H1; auto. }
  destruct R as [R1 R2].
  match goal with |- context [let '(_, _) := (if ?c then sealLocked ?x w else (s, true)) in _] =>
    destruct (if c then sealLocked x w else (s, true)) as [s1 ok1] eqn:E1; assert (K : all_lines s1 ≡ₚ all_lines s /\ clean s1) end.
  { destruct (0 <? active_size s) eqn:Es.
    - destruct (seal_lines (repairActiveLocked s) w) as [K1 K2].
      { unfold repairActiveLocked; destruct (sp_active s); exact Hn. }
      rewrite E1 in K1, K2; split; [rewrite K1; exact R1|].
      destruct K2 as [K2|K2]; [apply (clean_same (repairActiveLocked s)); auto | apply clean_none, K2].
    - injection E1 as <- _; split; [reflexivity|]; unfold clean, active_or_empty, active_size in *.
      destruct (sp_active s) as [d|]; [|reflexivity]; bool_to_prop; assert (zlen d = 0) as Hz by (pose proof (zlen_nonneg d); lia).
      apply zlen_0_nil in Hz; subst d; reflexivity. }
  destruct K as [K1 K2]; destruct ok1; [|discriminate]; cbn [negb].
  destruct (enforce_lines s1 w) as [K3 K4]; destruct (enforceLimitLocked s1 w) as [s2 ok2]; destruct ok2; [|discriminate].
  intros [= <-]; cbn in *; split; [rewrite K3; exact K1 | apply (clean_same s1); auto].
Qed.

(** ** Runs *)

(** [SpCrash data k ws w]: the process dies after [k] bytes of a record, and the
    next one opens the directory. *)
Inductive spool_event :=
| SpAppend (data : bytes) (w ws : fs_world)
| SpSeal (w : fs_world)
| SpAccept (id : seg_id) (data : bytes) (w : fs_world)
| SpRemove (id : seg_id) (w : fs_world)
| SpRestart (w : fs_world)
| SpCrash (data : bytes) (k : nat) (w : fs_world).

(** The state after an event, the lines reported as stored, and whether the spool
    could be opened. *)
Definition spool_step (s : SegmentSpool) (ev : spool_event) : option (SegmentSpool * list bytes) :=
  match ev with
  | SpAppend data w ws => let '(s, r) := Append s data w ws in Some (s, match r with Appended => [data] | _ => [] end)
  | SpSeal w => Some ((sealLocked s w).1, [])
  | SpAccept id data w => let '(s, r) := Accept s id data w in Some (s, match r with Stored => lines data | _ => [] end)
  | SpRemove id w => Some ((Remove s id w).1, [])
  | SpRestart w => match NewSegmentSpool s w with Some s => Some (s, []) | None => None end
  | SpCrash data k w => match NewSegmentSpool (torn s data k) w with Some s => Some (s, []) | None => None end
  end.

(** Records are single lines, a failed write writes nothing, sealed segments get
    new identifiers, and a crash is in a write that [Append] would start. *)
Definition fresh_id (w : fs_world) (s : SegmentSpool) : bool := bool_decide (fw_id w ∉ map fst (sp_segments s)).

Definition spool_calm (s : SegmentSpool) (ev : spool_event) : bool :=
  match ev with
  | SpAppend data w ws => is_line data && fresh_id ws s && match fw_write w with None | Some O => true | _ => false end
  | SpSeal w | SpRestart w => fresh_id w s
  | SpAccept _ _ _ | SpRemove _ _ => true
  | SpCrash data k w =>
      is_line data && (k <? length data)%nat && fresh_id w s && (active_size s + zlen data <=? maxSegmentBytes s)
  end.

Fixpoint spool_run (s : SegmentSpool) (evs : list spool_event) : option (SegmentSpool * list bytes) :=
  match evs with
  | [] => Some (s, [])
  | ev :: evs =>
      match spool_step s ev with
      | None => None
      | Some (s, a) => match spool_run s evs with Some (s, b) => Some (s, a ++ b) | None => None end
      end
  end.

Fixpoint spool_calm_run (s : SegmentSpool) (evs : list spool_event) : bool :=
  match evs with
  | [] => true
  | ev :: evs => spool_calm s ev && match spool_step s ev with Some (s, _) => spool_calm_run s evs | None => true end
  end.

(** The lines a caller asked to have stored. *)
Definition offered (ev : spool_event) : list bytes :=
  match ev with SpAppend data _ _ => [data] | SpAccept _ data _ => lines data | _ => [] end.

Lemma find_segment_None id l : find_segment id l = None -> id ∉ map fst l.
Proof.
  unfold find_segment; destruct (List.find _ l) as [[k d]|] eqn:E; [discriminate|]; intros _ Hin.
  apply list_elem_of_fmap in Hin as ([k d] & -> & Hin); apply list_elem_of_In in Hin.
  apply (find_none _ _ E) in Hin; cbn in Hin; apply bool_decide_eq_false in Hin; congruence.
Qed.

Lemma step_lines s ev s' told :
  clean s -> spool_calm s ev = true -> spool_step s ev = Some (s', told) ->
  clean s' /\ exists wrote, all_lines s' ≡ₚ all_lines s ++ wrote /\ told ⊆+ wrote /\ wrote ⊆+ offered ev.
Proof.
  intros C Hc; destruct ev as [data w ws|w|id data w|id w|w|data k w]; cbn [spool_step spool_calm] in *.
  - apply andb_true_iff in Hc as [Hc Hw]; apply andb_true_iff in Hc as [Hl Hf]; apply bool_decide_eq_true in Hf.
    assert (Hw' : fw_write w = None \/ fw_write w = Some 0%nat) by (destruct (fw_write w) as [[|k]|]; auto; discriminate).
    destruct (append_lines s data w ws C Hl Hf Hw') as (wrote & H1 & H2 & H3 & H4).
    destruct (Append s data w ws) as [s1 r]; intros [= <- <-]; split; [exact H2|]; exists wrote; split; [exact H1|]; split; [|destruct H3 as [->| ->]; auto using submseteq_nil_l].
    destruct r; [rewrite H4 by reflexivity; reflexivity | apply submseteq_nil_l..].
  - apply bool_decide_eq_true in Hc; intros [= <- <-]; destruct (seal_lines s w Hc) as [K1 K2]; split.
    + destruct K2 as [K2|K2]; [apply (clean_same s); auto | apply clean_none, K2].
    + exists []; rewrite app_nil_r; split_and!; [exact K1 | reflexivity..].
  - destruct (accept_lines s id data w) as (wrote & H1 & H2 & H3 & H4).
    { destruct (find_segment id (sp_segments s)) eqn:Ef; [right; congruence | left; apply find_segment_None, Ef]. }
    destruct (Accept s id data w) as [s1 r]; intros [= <- <-]; split; [apply (clean_same s); auto|]; exists wrote; split; [exact H1|]; split; [|destruct H3 as [->| ->]; auto using submseteq_nil_l].
    destruct r; [rewrite H4 by reflexivity; reflexivity | apply submseteq_nil_l..].
  - intros [= <- <-]; destruct (remove_lines s id w) as [K1 K2]; split; [apply (clean_same s); auto|].
    exists []; rewrite app_nil_r; split_and!; [exact K1 | reflexivity..].
  - apply bool_decide_eq_true in Hc; destruct (NewSegmentSpool s w) as [s1|] eqn:E; [|discriminate]; intros [= <- <-].
    apply restart_lines in E as [K1 K2]; [|exact Hc]; split; [exact K2|]; exists []; rewrite app_nil_r; auto.
  - apply andb_true_iff in Hc as [Hc _]; apply andb_true_iff in Hc as [Hc Hf]; apply andb_true_iff in Hc as [Hl Hk].
    apply bool_decide_eq_true in Hf; apply Nat.ltb_lt in Hk.
    destruct (NewSegmentSpool (torn s data k) w) as [s1|] eqn:E; [|discriminate]; intros [= <- <-].
    apply restart_lines in E as [K1 K2]; [|exact Hf]; rewrite (torn_lines s data k C Hl Hk) in K1.
    split; [exact K2|]; exists []; rewrite app_nil_r; auto.
Qed.

Lemma run_lines s evs s' told :
  clean s -> spool_calm_run s evs = true -> spool_run s evs = Some (s', told) ->
  clean s' /\ exists wrote, all_lines s' ≡ₚ all_lines s ++ wrote /\ told ⊆+ wrote /\ wrote ⊆+ concat (map offered evs).
Proof.
  revert s told; induction evs as [|ev evs IH]; intros s told C; cbn [spool_calm_run spool_run].
  - intros _ [= <- <-]; split; [exact C|]; exists []; rewrite app_nil_r; auto.
  - intros Hc; apply andb_true_iff in Hc as [Hc Hr]; destruct (spool_step s ev) as [[s1 a]|] eqn:E; [|discriminate].
    destruct (step_lines s ev s1 a C Hc E) as (C1 & w1 & P1 & T1 & F1); destruct (spool_run s1 evs) as [[s2 b]|] eqn:E2; [|discriminate].
    intros [= <- <-]; destruct (IH s1 b C1 Hr E2) as (C2 & w2 & P2 & T2 & F2); split; [exact C2|]; exists (w1 ++ w2).
    rewrite P2, P1, app_assoc; cbn; split_and!; [reflexivity | apply submseteq_app; assumption..].
Qed.

(** ** Sizes *)

Lemma put_sorted_forall {V} (P : key * V -> Prop) k v l : P (k, v) -> Forall P l -> Forall P (put_sorted k v l).
Proof.
  intros Hk H; induction H as [|[k' v'] l H1 H2 IH]; cbn; [auto|]; destruct (key_lt k k'); [auto|]; case_bool_decide; auto.
Qed.

Lemma keys_sorted_app {V} (a b : list (key * V)) : keys_sorted (a ++ b) -> keys_sorted b.
Proof. induction a as [|[k v] a IH]; cbn; [auto | intros [_ H]; auto]. Qed.

Lemma seg_sizes_cons x l : seg_sizes (x :: l) = zlen (snd x) + seg_sizes l.
Proof. reflexivity. Qed.

#[local] Arguments seg_sizes : simpl never.

Lemma seg_sizes_app a b : seg_sizes (a ++ b) = seg_sizes a + seg_sizes b.
Proof. induction a as [|x a IH]; [reflexivity|]; cbn [app]; rewrite !seg_sizes_cons; lia. Qed.

Lemma seg_sizes_nonneg l : 0 <= seg_sizes l.
Proof. induction l as [|x l IH]; [reflexivity|]; rewrite seg_sizes_cons; pose proof (zlen_nonneg (snd x)); lia. Qed.

(** The limits, the order of the segments, and the sizes of the files. *)
Record spool_ok (s : SegmentSpool) : Prop := {
  so_limits : 1 <= maxSegmentBytes s <= maxDiskBytes s;
  so_sorted : keys_sorted (sp_segments s);
  so_active : active_size s <= maxSegmentBytes s;
  so_sizes : Forall (fun x => zlen (snd x) <= maxSegmentBytes s) (sp_segments s);
}.

(** [s'] has the same limits as [s]. *)
Definition same_limits (s s' : SegmentSpool) : Prop := maxSegmentBytes s' = maxSegmentBytes s /\ maxDiskBytes s' = maxDiskBytes s.

(** What [evict] does: it stops as soon as the total fits. *)
Lemma evict_spec max total rm l ev rest ok :
  evict max total rm l = (ev, rest, ok) ->
  (ok = true -> rest = [] \/ total - seg_sizes ev <= max) /\
  (forall pre x, ev = pre ++ [x] -> max < total - seg_sizes pre).
Proof.
  revert total ev rest ok; induction l as [|[id d] l IH]; intros total ev rest ok; cbn [evict].
  { intros [= <- <- <-]; split; [auto | intros [|? ?] ? [=]]. }
  destruct (Z.ltb_spec max total) as [Hm|Hm]; [|intros [= <- <- <-]; split; [unfold seg_sizes; cbn; lia | intros [|? ?] ? [=]]].
  destruct (rm id); [|intros [= <- <- <-]; split; [discriminate | intros [|? ?] ? [=]]].
  destruct (evict max (total - zlen d) rm l) as [[ev' rest'] ok'] eqn:Ee; intros [= <- <- <-].
  destruct (IH _ _ _ _ Ee) as [H1 H2]; split.
  - intros Hok; destruct (H1 Hok) as [->|H]; [auto | right; rewrite seg_sizes_cons; cbn; lia].
  - intros [|y pre] x E; [unfold seg_sizes; cbn; lia|]; injection E as <- E; specialize (H2 _ _ E); rewrite seg_sizes_cons; cbn in *; lia.
Qed.

(** One call's evictions: the oldest segments, none of them needlessly. *)
Definition evicted_oldest (s s' : SegmentSpool) (ev : list segment) : Prop :=
  sp_evicted s' = sp_evicted s ++ ev /\ (forall pre x, ev = pre ++ [x] -> maxDiskBytes s < total_bytes s' + zlen (snd x)).

Lemma enforce_ok s w s' ok :
  spool_ok s -> enforceLimitLocked s w = (s', ok) ->
  spool_ok s' /\ same_limits s s' /\ sp_active s' = sp_active s /\ (ok = true -> total_bytes s' <= maxDiskBytes s) /\
  exists ev, evicted_oldest s s' ev /\ sp_segments s = ev ++ sp_segments s'.
Proof.
  intros [Hl Hs Ha Hf]; unfold enforceLimitLocked; destruct (_ || _).
  { intros [= <- <-]; split_and!; [constructor; auto | split; reflexivity | reflexivity | discriminate|].
    exists []; split; [split; [rewrite app_nil_r; reflexivity | intros [|? ?] ? [=]] | reflexivity]. }
  destruct (evict _ _ _ _) as [[ev rest] ok'] eqn:E; intros [= <- <-].
  destruct (evict_spec _ _ _ _ _ _ _ E) as [H1 H2]; apply evict_split in E.
  assert (T : total_bytes s = seg_sizes ev + seg_sizes rest + active_size s) by (unfold total_bytes; rewrite E, seg_sizes_app; reflexivity).
  rewrite E in Hs, Hf; apply Forall_app in Hf as [_ Hf]; split_and!.
  - constructor; cbn; auto; apply keys_sorted_app in Hs; exact Hs.
  - split; reflexivity.
  - reflexivity.
  - intros Hok; apply andb_true_iff in Hok as [Hok _]; change (seg_sizes rest + active_size s <= maxDiskBytes s).
    destruct (H1 Hok) as [->|H]; [unfold seg_sizes; cbn; lia | lia].
  - exists ev; split; [split; [reflexivity|] | exact E].
    intros pre x Ex; specialize (H2 pre x Ex); rewrite T, Ex, seg_sizes_app, seg_sizes_cons in H2; change (seg_sizes []) with 0 in H2.
    change (maxDiskBytes s < seg_sizes rest + active_size s + zlen (snd x)); lia.
Qed.

Lemma no_eviction s s' : sp_evicted s' = sp_evicted s -> evicted_oldest s s' [].
Proof. intros E; split; [rewrite E, app_nil_r; reflexivity | intros [|? ?] ? [=]]. Qed.

Lemma no_eviction_same s : spool_ok s -> exists ev, evicted_oldest s s ev /\ keys_sorted (ev ++ sp_segments s).
Proof. intros O; exists []; split; [apply no_eviction; reflexivity | exact (so_sorted _ O)]. Qed.

Lemma seal_ok s w s' ok :
  spool_ok s -> sealLocked s w = (s', ok) ->
  spool_ok s' /\ same_limits s s' /\ (ok = true -> active_size s' = 0) /\
  exists ev, evicted_oldest s s' ev /\ keys_sorted (ev ++ sp_segments s').
Proof.
  intros O; unfold sealLocked.
  assert (Stay : forall b, (b = true -> active_size s = 0) ->
    spool_ok s /\ same_limits s s /\ (b = true -> active_size s = 0) /\ exists ev, evicted_oldest s s ev /\ keys_sorted (ev ++ sp_segments s)).
  { intros b Hb; split_and!; auto using no_eviction_same; split; reflexivity. }
  destruct (sp_active s) as [d|] eqn:Ea.
  2: { intros [= <- <-]; apply Stay; intros _; unfold active_size; rewrite Ea; reflexivity. }
  destruct (negb (fw_stat w)); [intros [= <- <-]; apply Stay; discriminate|].
  pose proof O as [Hl Hs Ha Hf]; destruct (zlen d =? 0).
  { destruct (fw_rm w []); intros [= <- <-]; [|apply Stay; discriminate]; split_and!; [constructor; cbn; auto; lia | split; reflexivity | auto|].
    exists []; split; [apply no_eviction; reflexivity | exact Hs]. }
  destruct (negb (fw_rename w)); [intros [= <- <-]; apply Stay; discriminate|]; clear Stay.
  set (s1 := put_files None _ _ _ s).
  assert (O1 : spool_ok s1).
  { constructor; cbn; auto; [apply put_sorted_sorted, Hs | lia|].
    apply put_sorted_forall; [unfold active_size in Ha; rewrite Ea in Ha; exact Ha | exact Hf]. }
  destruct (negb (fw_dirsync w)).
  { intros [= <- <-]; split_and!; [exact O1 | split; reflexivity | discriminate|].
    exists []; split; [apply no_eviction; reflexivity | exact (so_sorted _ O1)]. }
  intros E; destruct (enforce_ok s1 w s' ok O1 E) as (O2 & L2 & A2 & _ & ev & Hev & Hseg); split_and!; auto.
  - intros _; unfold active_size; rewrite A2; reflexivity.
  - exists ev; split; [exact Hev | rewrite <- Hseg; exact (so_sorted _ O1)].
Qed.

(** Evictions of two steps in a row, with a write in between. *)
Lemma evicted_compose s s1 s2 s3 ev1 ev2 :
  evicted_oldest s s1 ev1 -> same_limits s s2 -> sp_evicted s2 = sp_evicted s1 -> total_bytes s1 <= total_bytes s2 ->
  evicted_oldest s2 s3 ev2 -> total_bytes s2 = seg_sizes ev2 + total_bytes s3 -> evicted_oldest s s3 (ev1 ++ ev2).
Proof.
  intros [E1 M1] [_ L] E2 T12 [E3 M3] T23; split; [rewrite E3, E2, E1, app_assoc; reflexivity|].
  intros pre x Ex; destruct ev2 as [|y ev2' _] using rev_ind.
  - rewrite app_nil_r in Ex; specialize (M1 _ _ Ex); change (seg_sizes []) with 0 in T23; lia.
  - rewrite app_assoc in Ex; apply app_inj_tail in Ex as [_ <-]; rewrite <- L; apply (M3 ev2'); reflexivity.
Qed.

Lemma active_size_set a segs ev rm s : active_size (put_files a segs ev rm s) = match a with Some d => zlen d | None => 0 end.
Proof. reflexivity. Qed.

Lemma zlen_active s : zlen (active_or_empty s) = active_size s.
Proof. unfold active_or_empty, active_size; destruct (sp_active s); reflexivity. Qed.

Lemma zlen_take (n : nat) (d : bytes) : 0 <= zlen (take n d) <= zlen d.
Proof. unfold zlen; rewrite length_take; lia. Qed.

(** [Append] before it writes: the active file has room for the record. *)
Lemma roll_ok s (data : bytes) ws s1 ok1 :
  spool_ok s -> zlen data <= maxSegmentBytes s ->
  (if (0 <? active_size s) && (maxSegmentBytes s <? active_size s + zlen data) then sealLocked s ws else (s, true)) = (s1, ok1) ->
  spool_ok s1 /\ same_limits s s1 /\ (ok1 = true -> active_size s1 + zlen data <= maxSegmentBytes s) /\
  exists ev, evicted_oldest s s1 ev /\ keys_sorted (ev ++ sp_segments s1).
Proof.
  intros O Hm E1; destruct (_ && _) eqn:Ec in E1.
  - destruct (seal_ok s ws s1 ok1 O E1) as (O1 & L1 & A1 & Ev); split_and!; auto; intros H; rewrite (A1 H); lia.
  - injection E1 as <- <-; split_and!; auto using no_eviction_same; [split; reflexivity|]; intros _.
    apply andb_false_iff in Ec as [Ec|Ec]; bool_to_prop; lia.
Qed.

(** [Append] keeps the sizes, and if it returns without an error the directory fits. *)
Lemma append_ok s data w ws s' r :
  spool_ok s -> Append s data w ws = (s', r) ->
  spool_ok s' /\ same_limits s s' /\ (r = Appended -> data <> [] -> total_bytes s' <= maxDiskBytes s) /\
  exists ev, evicted_oldest s s' ev /\ keys_sorted (ev ++ sp_segments s').
Proof.
  intros O; unfold Append.
  assert (Stay : forall x, (x = Appended -> data = []) ->
    spool_ok s /\ same_limits s s /\ (x = Appended -> data <> [] -> total_bytes s <= maxDiskBytes s) /\
    exists ev, evicted_oldest s s ev /\ keys_sorted (ev ++ sp_segments s)).
  { intros x Hx; split_and!; auto using no_eviction_same; [split; reflexivity | intros E N; destruct N; auto]. }
  destruct (Z.eqb_spec (zlen data) 0) as [Ez|Ez].
  { intros [= <- <-]; apply Stay; intros _; apply zlen_0_nil, Ez. }
  destruct (Z.ltb_spec (maxSegmentBytes s) (zlen data)) as [Hm|Hm]; [intros [= <- <-]; apply Stay; discriminate|].
  destruct (negb (fw_stat w)); [intros [= <- <-]; apply Stay; discriminate|]; clear Stay.
  match goal with |- context [let '(_, _) := (if ?c then sealLocked s ws else (s, true)) in _] =>
    destruct (if c then sealLocked s ws else (s, true)) as [s1 ok1] eqn:E1;
    destruct (roll_ok s data ws s1 ok1 O Hm E1) as (O1 & [L1 L1'] & A1 & ev1 & Hev1 & Hs1); clear E1 end.
  destruct ok1; [|cbn; intros [= <- <-]; split_and!; [exact O1 | split; auto | discriminate | eauto]]; cbn [negb].
  destruct (negb (fw_open w)); [intros [= <- <-]; split_and!; [exact O1 | split; auto | discriminate | eauto]|].
  specialize (A1 eq_refl); set (n := match fw_write w with None => length data | Some k => Nat.min k (length data) end).
  set (s2 := put_files (Some (active_or_empty s1 ++ take n data)) _ _ _ s1).
  assert (A2 : active_size s2 = active_size s1 + zlen (take n data)).
  { unfold s2; rewrite active_size_set, zlen_app, zlen_active; reflexivity. }
  pose proof (zlen_take n data) as Hn; pose proof O1 as [Hl1 Hk1 _ Hf1].
  assert (O2 : spool_ok s2) by (constructor; auto; change (maxSegmentBytes s2) with (maxSegmentBytes s1); lia).
  assert (T2 : total_bytes s1 <= total_bytes s2) by (unfold total_bytes; rewrite A2; cbn; lia).
  assert (Hev2 : evicted_oldest s s2 ev1).
  { destruct Hev1 as [H1 H2]; split; [exact H1|]; intros pre x Ex; specialize (H2 pre x Ex); lia. }
  assert (Fail : forall x, x <> Appended -> spool_ok s2 /\ same_limits s s2 /\ (x = Appended -> data <> [] -> total_bytes s2 <= maxDiskBytes s) /\
    exists ev, evicted_oldest s s2 ev /\ keys_sorted (ev ++ sp_segments s2)).
  { intros x Hx; split_and!; [exact O2 | split; auto | congruence | exists ev1; auto]. }
  destruct (fw_write w); [intros [= <- <-]; apply Fail; discriminate|].
  destruct (negb (fw_sync w)); [intros [= <- <-]; apply Fail; discriminate|].
  destruct (enforceLimitLocked s2 w) as [s3 ok3] eqn:E3; intros [= <- <-].
  destruct (enforce_ok s2 w s3 ok3 O2 E3) as (O3 & [L3 L3'] & A3 & T3 & ev2 & Hev3 & Hs3).
  change (maxSegmentBytes s2) with (maxSegmentBytes s1) in *; change (maxDiskBytes s2) with (maxDiskBytes s1) in *.
  split_and!; [exact O3 | split; congruence | intros Hr _; rewrite <- L1'; apply T3; destruct ok3; congruence|].
  exists (ev1 ++ ev2); split.
  - apply (evicted_compose s s1 s2 s3); auto; [split; auto|].
    unfold total_bytes; rewrite Hs3, seg_sizes_app; unfold active_size; rewrite A3; lia.
  - rewrite <- app_assoc, <- Hs3; exact Hs1.
Qed.

Lemma accept_ok s id data w s' r :
  spool_ok s -> Accept s id data w = (s', r) -> spool_ok s' /\ same_limits s s'.
Proof.
  intros O; assert (Stay : spool_ok s /\ same_limits s s) by (split; [exact O | split; reflexivity]); unfold Accept.
  destruct (negb _); [intros [= <- <-]; exact Stay|].
  destruct (Z.ltb_spec (maxSegmentBytes s) (zlen data)) as [Hm|Hm]; [intros [= <- <-]; exact Stay|].
  destruct (find_segment _ _); [intros [= <- <-]; exact Stay|]; destruct (_ || _); [intros [= <- <-]; exact Stay|].
  set (s1 := put_files _ _ _ _ s).
  assert (O1 : spool_ok s1).
  { destruct O as [Hl Hs Ha Hf]; constructor; auto; [apply put_sorted_sorted, Hs | apply put_sorted_forall; auto]. }
  destruct (negb _); [intros [= <- <-]; split; [exact O1 | split; reflexivity]|].
  destruct (enforceLimitLocked s1 w) as [s2 ok] eqn:E; intros [= <- <-].
  destruct (enforce_ok s1 w s2 ok O1 E) as (O2 & L2 & _); auto.
Qed.

Lemma keys_sorted_partition (f : segment -> bool) l a b :
  keys_sorted l -> List.partition f l = (a, b) -> keys_sorted b.
Proof.
  intros Hs E; rewrite partition_as_filter in E; injection E as _ <-; apply keys_sorted_filter, Hs.
Qed.

Lemma remove_ok s id w : spool_ok s -> spool_ok (Remove s id w).1 /\ same_limits s (Remove s id w).1.
Proof.
  intros O; assert (Stay : spool_ok s /\ same_limits s s) by (split; [exact O | split; reflexivity]); unfold Remove.
  destruct (negb _); [exact Stay|]; destruct (negb _); [exact Stay|].
  destruct (List.partition _ _) as [gone rest] eqn:E; split; [|split; reflexivity]; destruct O as [Hl Hs Ha Hf].
  constructor; auto; [exact (keys_sorted_partition _ _ _ _ Hs E)|]; apply partition_perm in E.
  cbn; rewrite E in Hf; apply Forall_app in Hf as [_ Hf]; exact Hf.
Qed.

(** Opening the spool: the directory may hold an active file of any length that
    was torn by a crash. *)
Lemma restart_ok s w s' :
  spool_ok s -> NewSegmentSpool s w = Some s' -> spool_ok s' /\ same_limits s s' /\ total_bytes s' <= maxDiskBytes s.
Proof.
  intros O; unfold NewSegmentSpool; destruct (_ || _); [discriminate|].
  assert (R : spool_ok (repairActiveLocked s) /\ same_limits s (repairActiveLocked s)).
  { unfold repairActiveLocked; destruct (sp_active s) as [d|] eqn:Ea; [|split; [exact O | split; reflexivity]].
    split; [|split; reflexivity]; destruct O as [Hl Hs Ha Hf]; constructor; auto; rewrite active_size_set; cbn.
    unfold active_size in Ha; rewrite Ea in Ha; destruct (last_newline d); [|lia]; pose proof (zlen_take (Datatypes.S n) d); lia. }
  destruct R as [R1 [R2 R3]].
  match goal with |- context [let '(_, _) := ?x in _] => destruct x as [s1 ok1] eqn:E1; assert (K : spool_ok s1 /\ same_limits s s1) end.
  { destruct (0 <? active_size s); [|injection E1 as <- _; split; [exact O | split; reflexivity]].
    destruct (seal_ok _ w s1 ok1 R1 E1) as (O1 & [L1 L1'] & _); split; [exact O1 | split; congruence]. }
  destruct K as [O1 [L1 L1']]; destruct ok1; [|discriminate]; cbn [negb].
  destruct (enforceLimitLocked s1 w) as [s2 ok2] eqn:E2; destruct ok2; [|discriminate]; intros [= <-].
  destruct (enforce_ok s1 w s2 true O1 E2) as (O2 & [L2 L2'] & _ & T2 & _).
  split_and!; [exact O2 | split; congruence | rewrite <- L1'; apply T2; reflexivity].
Qed.

Lemma torn_ok s data k : spool_ok s -> active_size s + zlen data <= maxSegmentBytes s -> spool_ok (torn s data k).
Proof.
  intros [Hl Hs Ha Hf] Hd; constructor; auto; unfold torn; rewrite active_size_set, zlen_app, zlen_active; cbn.
  pose proof (zlen_take k data); lia.
Qed.

Lemma step_ok s ev s' told : spool_ok s -> spool_calm s ev = true -> spool_step s ev = Some (s', told) -> spool_ok s' /\ same_limits s s'.
Proof.
  intros O Hc; destruct ev as [data w ws|w|id data w|id w|w|data k w]; cbn [spool_step spool_calm] in *.
  - destruct (Append s data w ws) as [s1 r] eqn:E; intros [= <- _]; apply append_ok in E; tauto.
  - destruct (sealLocked s w) as [s1 ok] eqn:E; intros [= <- _]; apply seal_ok in E; tauto.
  - destruct (Accept s id data w) as [s1 r] eqn:E; intros [= <- _]; apply accept_ok in E; tauto.
  - intros [= <- _]; apply remove_ok, O.
  - destruct (NewSegmentSpool s w) as [s1|] eqn:E; [|discriminate]; intros [= <- _]; apply restart_ok in E; tauto.
  - apply andb_true_iff in Hc as [_ Hd]; apply Z.leb_le in Hd.
    destruct (NewSegmentSpool (torn s data k) w) as [s1|] eqn:E; [|discriminate]; intros [= <- _].
    apply restart_ok in E; [tauto | apply torn_ok; assumption].
Qed.

Lemma run_ok s evs s' told :
  spool_ok s -> spool_calm_run s evs = true -> spool_run s evs = Some (s', told) -> spool_ok s' /\ same_limits s s'.
Proof.
  revert s told; induction evs as [|ev evs IH]; intros s told O; cbn [spool_calm_run spool_run].
  - intros _ [= <- _]; split; [exact O | split; reflexivity].
  - intros Hc; apply andb_true_iff in Hc as [Hc Hr]; destruct (spool_step s ev) as [[s1 a]|] eqn:E; [|discriminate].
    destruct (step_ok s ev s1 a O Hc E) as (O1 & [L1 L1']); destruct (spool_run s1 evs) as [[s2 b]|] eqn:E2; [|discriminate].
    intros [= <- _]; destruct (IH s1 b O1 Hr E2) as [O2 [L2 L2']]; split; [exact O2 | split; congruence].
Qed.

(** An empty directory. *)
Definition empty_spool (seg disk : Z) : SegmentSpool := MkSpool seg disk None [] [] [].

Lemma empty_spool_ok seg disk : 1 <= seg <= disk -> spool_ok (empty_spool seg disk).
Proof. intros H; constructor; cbn; auto; lia. Qed.

(** ** Uploading *)

Lemma find_segment_head id d l : find_segment id ((id, d) :: l) = Some d.
Proof. unfold find_segment; cbn; rewrite bool_decide_true by reflexivity; reflexivity. Qed.

Lemma partition_head id (d : bytes) l :
  keys_sorted ((id, d) :: l) -> List.partition (fun x => bool_decide (fst x = id)) ((id, d) :: l) = ([(id, d)], l).
Proof.
  intros [H _]; cbn; assert (E : List.partition (fun x : segment => bool_decide (fst x = id)) l = ([], l)).
  { induction H as [|[k v] l Hk _ IH]; [reflexivity|]; cbn in *; rewrite IH, bool_decide_false; [reflexivity|].
    intros ->; rewrite key_lt_irrefl in Hk; discriminate. }
  rewrite E, bool_decide_true by reflexivity; reflexivity.
Qed.

(** The uploader goes through the segments from the oldest on: [up] were put, of
    which all but possibly the last are gone. *)
Lemma upload_prefix s put w s' up ok :
  keys_sorted (sp_segments s) -> forallb (fun x => validSegmentID (fst x)) (sp_segments s) = true ->
  upload s (Pending s) put w = (s', up, ok) ->
  exists gone, sp_segments s = gone ++ sp_segments s' /\ sp_removed s' = sp_removed s ++ gone /\
    (up = gone \/ exists x rest, up = gone ++ [x] /\ sp_segments s' = x :: rest) /\
    sp_active s' = sp_active s /\ sp_evicted s' = sp_evicted s /\ (ok = true -> up = gone /\ sp_segments s' = []).
Proof.
  unfold Pending; remember (sp_segments s) as l eqn:El; revert s up El; induction l as [|[id d] l IH]; intros s up El Hs Hv.
  { intros [= <- <- <-]; exists []; rewrite app_nil_r; split_and!; auto. }
  cbn in Hv; apply andb_true_iff in Hv as [Hv1 Hv]; cbn [map upload fst snd]; unfold Read; rewrite Hv1, <- El, find_segment_head.
  assert (Stop : forall b, b = true \/ b = false -> exists gone, (id, d) :: l = gone ++ sp_segments s /\ sp_removed s = sp_removed s ++ gone /\
    ((if b then [] else [(id, d)]) = gone \/ exists x rest, (if b then [] else [(id, d)]) = gone ++ [x] /\ sp_segments s = x :: rest) /\
    sp_active s = sp_active s /\ sp_evicted s = sp_evicted s /\ (false = true -> (if b then [] else [(id, d)]) = gone /\ sp_segments s = [])).
  { intros b _; exists []; rewrite <- El, app_nil_r; split_and!; auto; try discriminate.
    destruct b; [left; reflexivity | right; exists (id, d), l; auto]. }
  destruct (negb (put id)); [intros [= <- <- <-]; apply (Stop true); auto|].
  unfold Remove; rewrite Hv1; cbn [negb]; destruct (negb (fw_rm w id)); [intros [= <- <- <-]; apply (Stop false); auto|]; clear Stop.
  rewrite <- El, (partition_head id d l Hs); destruct Hs as [_ Hs]; set (s1 := put_files _ _ _ _ s).
  destruct (fw_dirsync w).
  - destruct (upload s1 _ put w) as [[s2 up2] ok2] eqn:E2; intros [= <- <- <-].
    destruct (IH s1 up2 eq_refl Hs Hv E2) as (gone & H1 & H2 & H3 & H4 & H5 & H6); exists ((id, d) :: gone).
    split_and!; auto; [cbn; f_equal; exact H1 | rewrite H2; cbn; rewrite <- app_assoc; reflexivity| |].
    + destruct H3 as [->|(x & rest & -> & H3)]; [left; reflexivity | right; exists x, rest; auto].
    + intros Hok; destruct (H6 Hok) as [-> ->]; auto.
  - intros [= <- <- <-]; exists [(id, d)]; split_and!; auto; discriminate.
Qed.

(** ** Theorems *)

(** C17. Start from an empty directory and run any sequence of appends of single
    lines, seals, segments accepted from elsewhere, removals, restarts, and
    crashes in the middle of a write that an append would start, in which file
    operations may fail, with two exceptions: an append whose write fails has
    written nothing (a write that fails after some bytes is in the findings: the
    next record is then appended to the torn text), and sealed segments get
    identifiers that no segment has. Then every record that was reported as stored
    is still on disk, complete and as often as it was reported, or was handed to
    the eviction callback or removed on request; and there is no line that was not
    offered. *)
Theorem spool_conserves seg disk evs s' told :
  spool_calm_run (empty_spool seg disk) evs = true ->
  spool_run (empty_spool seg disk) evs = Some (s', told) ->
  told ⊆+ all_lines s' /\ all_lines s' ⊆+ concat (map offered evs).
Proof.
  intros Hc Hr; destruct (run_lines _ _ _ _ (clean_none (empty_spool seg disk) eq_refl) Hc Hr) as (_ & wrote & P & T & F).
  rewrite P; auto.
Qed.

(** C18. Disk budget.  In the state after any such run, an append of a record that is
    reported as stored leaves at most [maxDiskBytes] in the directory, an active file
    of at most [maxSegmentBytes], and segments in the order of their names, none of
    them over [maxSegmentBytes]; what it evicted is older than everything it kept,
    and without its last eviction the budget would be exceeded. *)
Theorem spool_within_budget seg disk evs s told data w ws s' :
  1 <= seg <= disk -> data <> [] ->
  spool_calm_run (empty_spool seg disk) evs = true ->
  spool_run (empty_spool seg disk) evs = Some (s, told) -> Append s data w ws = (s', Appended) ->
  total_bytes s' <= disk /\ active_size s' <= seg /\ Forall (fun x => zlen (snd x) <= seg) (sp_segments s') /\
  exists ev, sp_evicted s' = sp_evicted s ++ ev /\ keys_sorted (ev ++ sp_segments s') /\
    forall pre x, ev = pre ++ [x] -> disk < total_bytes s' + zlen (snd x).
Proof.
  intros Hl Hd Hc Hr E; destruct (run_ok _ _ _ _ (empty_spool_ok seg disk Hl) Hc Hr) as [O [L1 L2]]; cbn in L1, L2.
  destruct (append_ok s data w ws s' Appended O E) as ([_ _ A' F'] & [L3 L4] & T & ev & [Ev1 Ev2] & Hs).
  rewrite L3, L1 in *; split_and!; [rewrite <- L2; apply T; auto | exact A' | exact F'|].
  exists ev; split_and!; auto; intros pre x Ex; rewrite <- L2; eapply Ev2, Ex.
Qed.

(** Uploading.  [UploadPending] goes through the segments from the oldest on; what
    it removed from the directory was put into the object store before, with the
    contents it had there; at most one more was put and not removed, and it is then
    the oldest one left, so that it is put again.  Without an error everything listed
    was put once and removed. *)
Theorem uploaded_before_removed s put w s' up ok :
  spool_ok s -> forallb (fun x => validSegmentID (fst x)) (sp_segments s) = true ->
  UploadPending s put w = (s', up, ok) ->
  exists gone, sp_segments s = gone ++ sp_segments s' /\ sp_removed s' = sp_removed s ++ gone /\
    (up = gone \/ exists x rest, up = gone ++ [x] /\ sp_segments s' = x :: rest) /\
    sp_active s' = sp_active s /\ sp_evicted s' = sp_evicted s /\ (ok = true -> up = sp_segments s /\ sp_segments s' = []).
Proof.
  intros O Hv; unfold UploadPending; destruct (negb (fw_list w)).
  { intros [= <- <- <-]; exists []; rewrite app_nil_r; split_and!; auto; discriminate. }
  intros E; destruct (upload_prefix s put w s' up ok (so_sorted _ O) Hv E) as (gone & H1 & H2 & H3 & H4 & H5 & H6).
  exists gone; split_and!; auto; intros Hok; destruct (H6 Hok) as [-> H7]; rewrite H1, H7, app_nil_r; auto.
Qed.

(** ** Witnesses *)

Definition fs_fine (id : seg_id) : fs_world := MkFs true true None true true true true (fun _ => true) id.

Definition rec (c : Byte.byte) : bytes := [c; c; newline].

(** Two segments' worth of records, a crash, a restart and a failing seal. *)
Definition demo : list spool_event :=
  [SpAppend (rec Byte.x61) (fs_fine []) (fs_fine [49]); SpAppend (rec Byte.x62) (fs_fine []) (fs_fine [50]);
   SpSeal (fs_fine [51]); SpCrash (rec Byte.x63) 2 (fs_fine [52]); SpAccept [48; 49] (rec Byte.x64) (fs_fine []);
   SpAppend (rec Byte.x65) (fs_fine []) (MkFs true true None true false true true (fun _ => true) [53])].

Lemma spool_conserves_witness :
  match spool_run (empty_spool 4 8) demo with
  | Some (s, told) => told ⊆+ all_lines s /\ all_lines s ⊆+ concat (map offered demo)
  | None => False
  end.
Proof.
  destruct (spool_run (empty_spool 4 8) demo) as [[s told]|] eqn:E; [|vm_compute in E; discriminate].
  apply (spool_conserves 4 8 demo s told); [vm_compute; reflexivity | exact E].
Defined.

Lemma spool_within_budget_witness :
  match spool_run (empty_spool 4 8) demo with
  | Some (s, told) =>
      match Append s (rec Byte.x66) (fs_fine []) (fs_fine [54]) with
      | (s', Appended) => total_bytes s' <= 8
      | _ => False
      end
  | None => False
  end.
Proof.
  destruct (spool_run (empty_spool 4 8) demo) as [[s told]|] eqn:E; [|vm_compute in E; discriminate].
  destruct (Append s (rec Byte.x66) (fs_fine []) (fs_fine [54])) as [s' r] eqn:Ea.
  assert (r = Appended) as ->.
  { vm_compute in E; injection E as <- <-; vm_compute in Ea; injection Ea as <- <-; reflexivity. }
  refine (proj1 (spool_within_budget 4 8 demo s told (rec Byte.x66) (fs_fine []) (fs_fine [54]) s' _ _ _ E Ea));
    [lia | discriminate | vm_compute; reflexivity].
Defined.

Definition two_segments : SegmentSpool := MkSpool 4 8 None [([49], rec Byte.x61); ([50], rec Byte.x62)] [] [].

Lemma uploaded_before_removed_witness :
  (UploadPending two_segments (fun id => bool_decide (id = [49])) (fs_fine [])).1.1 =
    MkSpool 4 8 None [([50], rec Byte.x62)] [] [([49], rec Byte.x61)] /\
  exists gone, sp_segments two_segments = gone ++ [([50], rec Byte.x62)].
Proof.
  split; [vm_compute; reflexivity|].
  destruct (uploaded_before_removed two_segments (fun id => bool_decide (id = [49])) (fs_fine [])
    (MkSpool 4 8 None [([50], rec Byte.x62)] [] [([49], rec Byte.x61)]) [([49], rec Byte.x61)] false) as (gone & H & _).
  - constructor; [cbn; lia | apply (put_sorted_sorted [49] _ [([50], _)]); cbn; auto | cbn; lia | apply Forall_cons; [vm_compute; discriminate|]; apply Forall_cons; [vm_compute; discriminate | constructor]].
  - reflexivity.
  - vm_compute; reflexivity.
  - exists gone; exact H.
Defined.

(** ** A write that fails half way *)

(** [Append] does not cut the file back when a write fails after some bytes: the
    next record is appended to the torn text, is reported as stored, and the line
    on disk is neither of the two. *)
Lemma torn_write_garbles_next :
  let bad := MkFs true true (Some 1%nat) true true true true (fun _ => true) [] in
  let '(s1, r1) := Append (empty_spool 16 32) (rec Byte.x61) bad (fs_fine [49]) in
  let '(s2, r2) := Append s1 (rec Byte.x62) (fs_fine []) (fs_fine [50]) in
  (r1, r2) = (AppendFailed, Appended) /\ all_lines s2 = [[Byte.x61; Byte.x62; Byte.x62; newline]] /\ rec Byte.x62 ∉ all_lines s2.
Proof. vm_compute; split_and!; [reflexivity..|]; intros H; apply list_elem_of_singleton in H; discriminate. Qed.
