(* ===== verification/Capture.v ===== *)
(** * Telemetry capture: internal/telemetry/async.go, completeness.go, filter.go,
    session_context_sink.go

    Events of the sessions pass a filter, which numbers them, and a bounded queue;
    one worker hands them to the sink and, for every session, a checkpoint with
    the number of events offered, dropped, failed and omitted.  Recorders and the
    worker run concurrently: a step of the model is one critical section under
    the lock of the queue, or one call of the sink by the worker.

    The text of an event (direction, stream, contents, hashes) is one value that
    no operation looks at. *)

From S2P Require Import Prelude.

Inductive EventKind :=
| EventQuestion | EventAnswer | EventSessionStarted | EventSessionContext | EventSessionEnded
| EventProviderOutput | EventUserInput | EventTelemetryCheckpoint | OtherKind (kind : string).

#[global] Instance EventKind_eq_dec : EqDecision EventKind.
Proof. solve_decision. Defined.

Record Completeness := MkCompleteness {
  AttemptedEvents : Z;
  LastSequence : Z;
  QueueDroppedEvents : Z;
  SinkFailedEvents : Z;
  OmittedEvents : Z;
  SessionStartedObserved : bool;
  SessionEndedObserved : bool;
  CaptureKinds : list EventKind;
  IncludeRedactedText : bool;
}.

(** [ev_Discovery]: the request of a context event that only the worker serves;
    [ev_Context]: its answer. *)
Record Event := MkEvent {
  ev_SchemaVersion : Z;
  ev_Timestamp : Time;
  ev_SourceID : string;
  ev_ActorID : string;
  ev_SessionID : string;
  ev_ProjectID : string;
  ev_Provider : string;
  ev_Kind : EventKind;
  ev_Sequence : Z;
  ev_OmittedReason : string;
  ev_Body : bytes;
  ev_Context : option bytes;
  ev_Discovery : option string;
  ev_Completeness : option Completeness;
}.

Definition put_Sequence (n : Z) (e : Event) : Event :=
  MkEvent (ev_SchemaVersion e) (ev_Timestamp e) (ev_SourceID e) (ev_ActorID e) (ev_SessionID e) (ev_ProjectID e)
    (ev_Provider e) (ev_Kind e) n (ev_OmittedReason e) (ev_Body e) (ev_Context e) (ev_Discovery e) (ev_Completeness e).

Definition put_Context (c : option bytes) (d : option string) (e : Event) : Event :=
  MkEvent (ev_SchemaVersion e) (ev_Timestamp e) (ev_SourceID e) (ev_ActorID e) (ev_SessionID e) (ev_ProjectID e)
    (ev_Provider e) (ev_Kind e) (ev_Sequence e) (ev_OmittedReason e) (ev_Body e) c d (ev_Completeness e).

Definition put_Completeness (now : Time) (c : Completeness) (e : Event) : Event :=
  MkEvent (ev_SchemaVersion e) now (ev_SourceID e) (ev_ActorID e) (ev_SessionID e) (ev_ProjectID e)
    (ev_Provider e) (ev_Kind e) (ev_Sequence e) (ev_OmittedReason e) (ev_Body e) (ev_Context e) (ev_Discovery e) (Some c).

Abbreviation sessionIdentity := (string * string)%type.

Definition eventKey (e : Event) : sessionIdentity := (ev_SourceID e, ev_SessionID e).

(** ** Context discovery (session_context_sink.go) *)

(** [sessionContextSink.Record] before it passes the event on. *)
Definition discover_context (discover : string -> bytes) (e : Event) : Event :=
  match ev_Discovery e with
  | None => e
  | Some request =>
      put_Context (if decide (ev_Kind e = EventSessionContext) then Some (discover request) else ev_Context e) None e
  end.

(** ** The filter (filter.go) *)

Record FilteredSink := MkFiltered { allowed : list EventKind; sequence : gmap sessionIdentity Z }.

Definition NewFilteredSink (kinds : list EventKind) : FilteredSink := MkFiltered kinds ∅.

(** What [FilteredSink.Record] calls: the queue's [Record] or [observeLifecycle]. *)
Inductive passed := Forward (e : Event) | Observe (e : Event).

Definition filter_Record (f : FilteredSink) (e : Event) : FilteredSink * passed :=
  match allowed f with
  | [] => (f, Forward e)
  | _ =>
      let key := eventKey e in
      let seqs := if decide (ev_Kind e = EventSessionStarted) then delete key (sequence f) else sequence f in
      let ended m := if decide (ev_Kind e = EventSessionEnded) then delete key m else m in
      if decide (ev_Kind e ∈ allowed f) then
        let n := u64 (default 0 (seqs !! key) + 1) in
        (MkFiltered (allowed f) (ended (<[key := n]> seqs)), Forward (put_Sequence n e))
      else (MkFiltered (allowed f) (ended seqs), Observe e)
  end.

(** ** The queue and its accounts (async.go, completeness.go) *)

Record completenessState := MkState {
  cs_event : Event;
  cs_stats : Completeness;
  cs_processed : Z;
  cs_revision : Z;
  cs_dirty : bool;
}.

(** A checkpoint on its way: session, event and the revision it was made at. *)
Record pending_mark := MkMark { pm_key : sessionIdentity; pm_event : Event; pm_stats : Completeness; pm_revision : Z }.

(** Where the worker is.  [Took e failed]: the sink has had [e]; [Select final only]:
    [flushCheckpoints] is to read the accounts; [Flush final marks errs]: marks still
    to be handed to the sink; [Sent final m marks errs]: the sink has taken [m]. *)
Inductive worker :=
| Waiting
| Took (e : Event) (failed : bool)
| Select (final only : bool)
| Flush (final : bool) (marks : list pending_mark) (errs : bool)
| Sent (final : bool) (m : pending_mark) (marks : list pending_mark) (errs : bool)
| Done (errs : bool).

Record AsyncSink := MkAsync {
  has_sink : bool;
  as_cap : Z;
  as_queue : list Event;
  as_closed : bool;
  as_dropped : Z;
  as_failures : Z;
  as_sessions : gmap sessionIdentity completenessState;
  captureKinds : list EventKind;
  includeText : bool;
  checkpointWake : bool;
  as_worker : worker;
}.

Definition put_worker (w : worker) (s : AsyncSink) : AsyncSink :=
  MkAsync (has_sink s) (as_cap s) (as_queue s) (as_closed s) (as_dropped s) (as_failures s) (as_sessions s)
    (captureKinds s) (includeText s) (checkpointWake s) w.

Definition put_queue (q : list Event) (s : AsyncSink) : AsyncSink :=
  MkAsync (has_sink s) (as_cap s) q (as_closed s) (as_dropped s) (as_failures s) (as_sessions s)
    (captureKinds s) (includeText s) (checkpointWake s) (as_worker s).

Definition put_sessions (m : gmap sessionIdentity completenessState) (s : AsyncSink) : AsyncSink :=
  MkAsync (has_sink s) (as_cap s) (as_queue s) (as_closed s) (as_dropped s) (as_failures s) m
    (captureKinds s) (includeText s) (checkpointWake s) (as_worker s).

Definition put_wake (b : bool) (s : AsyncSink) : AsyncSink :=
  MkAsync (has_sink s) (as_cap s) (as_queue s) (as_closed s) (as_dropped s) (as_failures s) (as_sessions s)
    (captureKinds s) (includeText s) b (as_worker s).

Definition put_counters (dropped failures : Z) (s : AsyncSink) : AsyncSink :=
  MkAsync (has_sink s) (as_cap s) (as_queue s) (as_closed s) dropped failures (as_sessions s)
    (captureKinds s) (includeText s) (checkpointWake s) (as_worker s).

Definition put_closed (s : AsyncSink) : AsyncSink :=
  MkAsync (has_sink s) (as_cap s) (as_queue s) true (as_dropped s) (as_failures s) (as_sessions s)
    (captureKinds s) (includeText s) (checkpointWake s) (as_worker s).

Definition NewAsyncSink (sink : bool) (queueSize : Z) (kinds : list EventKind) (text : bool) : AsyncSink :=
  MkAsync sink (if queueSize <=? 0 then 1024 else queueSize) [] false 0 0 ∅ kinds text false Waiting.

(** Events that are counted. *)
Definition counted (e : Event) : bool :=
  negb (str_eqb (ev_SessionID e) "") && bool_decide (ev_Kind e <> EventTelemetryCheckpoint).

Definition new_state (s : AsyncSink) (e : Event) : completenessState :=
  MkState (MkEvent 2 0 (ev_SourceID e) (ev_ActorID e) (ev_SessionID e) (ev_ProjectID e) (ev_Provider e)
             EventTelemetryCheckpoint 0 "" [] None None None)
    (MkCompleteness 0 0 0 0 0 false false (captureKinds s) (includeText s)) 0 0 false.

Definition put_stats (c : Completeness) (st : completenessState) : completenessState :=
  MkState (cs_event st) c (cs_processed st) (cs_revision st) (cs_dirty st).

(** [completenessLocked]; [None]: the event is not counted. *)
Definition completenessLocked (s : AsyncSink) (e : Event) : option completenessState :=
  if negb (counted e) then None
  else
    let st := default (new_state s e) (as_sessions s !! eventKey e) in
    let c := cs_stats st in
    let c := MkCompleteness (AttemptedEvents c) (LastSequence c) (QueueDroppedEvents c) (SinkFailedEvents c) (OmittedEvents c)
               (SessionStartedObserved c || bool_decide (ev_Kind e = EventSessionStarted))
               (SessionEndedObserved c || bool_decide (ev_Kind e = EventSessionEnded)) (CaptureKinds c) (IncludeRedactedText c) in
    Some (MkState (cs_event st) c (cs_processed st) (u64 (cs_revision st + 1)) true).

(** The counters [Record] advances: one more attempt, omitted or dropped or not. *)
Definition count_attempt (e : Event) (dropped : bool) (st : completenessState) : completenessState :=
  let c := cs_stats st in
  put_stats (MkCompleteness (u64 (AttemptedEvents c + 1)) (Z.max (LastSequence c) (ev_Sequence e))
    (if dropped then u64 (QueueDroppedEvents c + 1) else QueueDroppedEvents c) (SinkFailedEvents c)
    (if str_eqb (ev_OmittedReason e) "" then OmittedEvents c else u64 (OmittedEvents c + 1))
    (SessionStartedObserved c) (SessionEndedObserved c) (CaptureKinds c) (IncludeRedactedText c)) st.

Inductive record_result := Queued | ErrQueueFull | ErrSinkClosed.

Definition async_Record (s : AsyncSink) (e : Event) : AsyncSink * record_result :=
  if as_closed s then (s, ErrSinkClosed)
  else
    let full := as_cap s <=? zlen (as_queue s) in
    let s1 := match completenessLocked s e with
              | Some st => put_sessions (<[eventKey e := count_attempt e full st]> (as_sessions s)) s
              | None => s
              end in
    if full then (put_wake true (put_counters (u64 (as_dropped s1 + 1)) (as_failures s1) s1), ErrQueueFull)
    else (put_queue (as_queue s1 ++ [e]) s1, Queued).

Definition observeLifecycle (s : AsyncSink) (e : Event) : AsyncSink :=
  if negb (bool_decide (ev_Kind e = EventSessionStarted) || bool_decide (ev_Kind e = EventSessionEnded)) || as_closed s then s
  else
    put_wake true (match completenessLocked s e with
                   | Some st => put_sessions (<[eventKey e := st]> (as_sessions s)) s
                   | None => s
                   end).

Definition async_Close (s : AsyncSink) : AsyncSink := if as_closed s then s else put_closed s.

(** The worker's count after the sink had the event. *)
Definition count_processed (s : AsyncSink) (e : Event) (failed : bool) : AsyncSink :=
  let s1 := match as_sessions s !! eventKey e with
            | None => s
            | Some st =>
                let c := cs_stats st in
                let c := if failed then MkCompleteness (AttemptedEvents c) (LastSequence c) (QueueDroppedEvents c) (u64 (SinkFailedEvents c + 1))
                           (OmittedEvents c) (SessionStartedObserved c) (SessionEndedObserved c) (CaptureKinds c) (IncludeRedactedText c)
                         else c in
                put_sessions (<[eventKey e := MkState (cs_event st) c (u64 (cs_processed st + 1)) (u64 (cs_revision st + 1)) (cs_dirty st)]>
                  (as_sessions s)) s
            end in
  if failed then put_counters (as_dropped s1) (u64 (as_failures s1 + 1)) s1 else s1.

(** The accounts [flushCheckpoints] reports. *)
Definition reportable (only : bool) (st : completenessState) : bool :=
  cs_dirty st && negb (only && negb (SessionEndedObserved (cs_stats st))) &&
  (u64 (cs_processed st + QueueDroppedEvents (cs_stats st)) =? AttemptedEvents (cs_stats st)).

Definition mark_of (now : Time) (k : sessionIdentity) (st : completenessState) : pending_mark :=
  MkMark k (put_Completeness now (cs_stats st) (cs_event st)) (cs_stats st) (cs_revision st).

(** Go visits a map in any order: [order] lists its keys. *)
Definition select_marks (s : AsyncSink) (only : bool) (now : Time) (order : list sessionIdentity) : list pending_mark :=
  omap (fun k => match as_sessions s !! k with
                 | Some st => if reportable only st then Some (mark_of now k st) else None
                 | None => None
                 end) order.

(** After the sink has taken a checkpoint. *)
Definition mark_delivered (s : AsyncSink) (m : pending_mark) : AsyncSink :=
  match as_sessions s !! pm_key m with
  | Some st =>
      if cs_revision st =? pm_revision m then
        if SessionEndedObserved (cs_stats st) then put_sessions (delete (pm_key m) (as_sessions s)) s
        else put_sessions (<[pm_key m := MkState (cs_event st) (cs_stats st) (cs_processed st) (cs_revision st) false]> (as_sessions s)) s
      else s
  | None => s
  end.

(** ** Steps *)

(** What recorders and the worker do; [fails]: the sink returns an error. *)
Inductive action :=
| ARecord (e : Event)
| AObserve (e : Event)
| AClose
| ATake (fails : bool)
| ACount
| AWake
| ATick
| AEnd
| ASelect (now : Time) (order : list sessionIdentity)
| ASend (fails : bool)
| ADelivered
| AFlushed.

(** What happens at the boundaries: an event was offered to the queue and dropped or
    not; the sink had an event and failed or not; the sink had a
    checkpoint and failed or not; an account was closed. *)
Inductive trace :=
| TOffer (e : Event) (dropped : bool)
| TSink (e : Event) (failed : bool)
| TMark (k : sessionIdentity) (c : Completeness) (failed : bool)
| TForget (k : sessionIdentity).

(** One step of the worker, when it can make it. *)
Definition worker_step (s : AsyncSink) (a : action) : option (AsyncSink * list trace) :=
  match as_worker s, a with
  | Waiting, ATake fails =>
      match as_queue s with
      | e :: q =>
          let fails := fails && has_sink s in
          Some (put_worker (Took e fails) (put_queue q s), [TSink e fails])
      | [] => None
      end
  | Waiting, AWake => if checkpointWake s then Some (put_worker (Select false true) (put_wake false s), []) else None
  | Waiting, ATick => Some (put_worker (Select false false) s, [])
  | Waiting, AEnd =>
      match as_queue s with
      | [] => if as_closed s then Some (put_worker (Select true false) s, []) else None
      | _ => None
      end
  | Took e failed, ACount => Some (put_worker (Select false true) (count_processed s e failed), [])
  | Select final only, ASelect now order =>
      if decide (NoDup order /\ Forall (fun kst => fst kst ∈ order) (map_to_list (as_sessions s)))
      then Some (put_worker (Flush final (select_marks s only now order) false) s, []) else None
  | Flush final (m :: marks) errs, ASend fails =>
      if negb (has_sink s) then Some (put_worker (Flush final marks errs) s, [])
      else Some (put_worker (if fails then Flush final marks true else Sent final m marks errs) s, [TMark (pm_key m) (pm_stats m) fails])
  | Sent final m marks errs, ADelivered =>
      Some (put_worker (Flush final marks errs) (mark_delivered s m),
        if decide (is_Some (as_sessions s !! pm_key m)) then
          if decide (is_Some (as_sessions (mark_delivered s m) !! pm_key m)) then [] else [TForget (pm_key m)]
        else [])
  | Flush final [] errs, AFlushed => Some (put_worker (if final then Done errs else Waiting) s, [])
  | _, _ => None
  end.

Definition async_step (s : AsyncSink) (a : action) : option (AsyncSink * list trace) :=
  match a with
  | ARecord e =>
      let '(s, r) := async_Record s e in
      Some (s, match r with
               | ErrSinkClosed => []
               | _ => [TOffer e (match r with Queued => false | _ => true end)]
               end)
  | AObserve e => Some (observeLifecycle s e, [])
  | AClose => Some (async_Close s, [])
  | _ => worker_step s a
  end.

Fixpoint async_run (s : AsyncSink) (acts : list action) : option (AsyncSink * list trace) :=
  match acts with
  | [] => Some (s, [])
  | a :: acts =>
      match async_step s a with
      | None => None
      | Some (s, t) => match async_run s acts with Some (s, t') => Some (s, t ++ t') | None => None end
      end
  end.

(** ** Accounts *)

(** What a trace says of one session since its account was last closed: offered,
    dropped, handed to the sink, failed there. *)
Record tally := MkTally { t_offered : Z; t_dropped : Z; t_sunk : Z; t_failed : Z }.

Definition about (k : sessionIdentity) (e : Event) : bool := counted e && bool_decide (eventKey e = k).

Definition tally_step (k : sessionIdentity) (t : tally) (x : trace) : tally :=
  match x with
  | TOffer e d => if about k e then MkTally (t_offered t + 1) (t_dropped t + Z.b2z d) (t_sunk t) (t_failed t) else t
  | TSink e f => if about k e then MkTally (t_offered t) (t_dropped t) (t_sunk t + 1) (t_failed t + Z.b2z f) else t
  | TMark _ _ _ => t
  | TForget k' => if decide (k' = k) then MkTally 0 0 0 0 else t
  end.

Definition tally_of (k : sessionIdentity) (tr : list trace) : tally := foldl (tally_step k) (MkTally 0 0 0 0) tr.

(** The last checkpoint of a session that the sink has taken since then. *)
Definition taken_step (k : sessionIdentity) (o : option Completeness) (x : trace) : option Completeness :=
  match x with
  | TMark k' c false => if decide (k' = k) then Some c else o
  | TForget k' => if decide (k' = k) then None else o
  | _ => o
  end.

Definition taken (k : sessionIdentity) (tr : list trace) : option Completeness := foldl (taken_step k) None tr.

(** A checkpoint tells the whole account [t]: everything offered was dropped or has
    been handed to the sink. *)
Definition tells (c : Completeness) (t : tally) : Prop :=
  AttemptedEvents c = t_offered t /\ QueueDroppedEvents c = t_dropped t /\ SinkFailedEvents c = t_failed t /\
  t_offered t = t_dropped t + t_sunk t.

(** Nothing of the session reached the sink, and its account was not closed. *)
Definition quiet (k : sessionIdentity) (tr : list trace) : Prop :=
  Forall (fun x => match x with TSink e _ => about k e = false | TForget k' => k' <> k | _ => True end) tr.

(** A checkpoint tells the account as it was when the worker read it, and nothing of
    the session has reached the sink since. *)
Definition truthful (k : sessionIdentity) (c : Completeness) (tr : list trace) : Prop :=
  exists before since, tr = before ++ since /\ tells c (tally_of k before) /\ quiet k since.

(** ** The invariant *)

Definition queued (k : sessionIdentity) (q : list Event) : Z := zlen (List.filter (about k) q).

Definition inflight (k : sessionIdentity) (w : worker) : Z * Z :=
  match w with Took e f => if about k e then (1, Z.b2z f) else (0, 0) | _ => (0, 0) end.

Definition marks_of (w : worker) : list pending_mark :=
  match w with Flush _ ms _ => ms | Sent _ m ms _ => m :: ms | _ => [] end.

(** One account against the trace, after [n] steps. *)
Record account (n : Z) (k : sessionIdentity) (s : AsyncSink) (tr : list trace) (st : completenessState) : Prop := {
  ac_offered : AttemptedEvents (cs_stats st) = t_offered (tally_of k tr);
  ac_dropped : QueueDroppedEvents (cs_stats st) = t_dropped (tally_of k tr);
  ac_sunk : cs_processed st + fst (inflight k (as_worker s)) = t_sunk (tally_of k tr);
  ac_failed : SinkFailedEvents (cs_stats st) + snd (inflight k (as_worker s)) = t_failed (tally_of k tr);
  ac_revision : 0 <= cs_revision st <= n;
  ac_clean : cs_dirty st = false -> taken k tr = Some (cs_stats st) /\ tells (cs_stats st) (tally_of k tr);
}.

(** The books of one session. *)
Record books (n : Z) (k : sessionIdentity) (s : AsyncSink) (tr : list trace) : Prop := {
  bk_balance : t_offered (tally_of k tr) = t_dropped (tally_of k tr) + t_sunk (tally_of k tr) + queued k (as_queue s);
  bk_bounds : 0 <= t_dropped (tally_of k tr) /\ fst (inflight k (as_worker s)) <= t_sunk (tally_of k tr) /\
    snd (inflight k (as_worker s)) <= t_failed (tally_of k tr) <= t_sunk (tally_of k tr) /\ t_offered (tally_of k tr) <= n;
  bk_account : match as_sessions s !! k with
    | Some st => account n k s tr st
    | None => t_offered (tally_of k tr) = 0
    end;
}.

(** A checkpoint on its way. *)
Definition mark_ok (s : AsyncSink) (tr : list trace) (m : pending_mark) : Prop :=
  truthful (pm_key m) (pm_stats m) tr /\
  exists st, as_sessions s !! pm_key m = Some st /\ cs_dirty st = true /\ pm_revision m <= cs_revision st /\
    (cs_revision st = pm_revision m -> cs_stats st = pm_stats m /\ tells (pm_stats m) (tally_of (pm_key m) tr)).

(** The last flush. *)
Definition final_ok (s : AsyncSink) : Prop :=
  match as_worker s with
  | Select true only => as_closed s = true /\ as_queue s = [] /\ only = false
  | Flush true _ errs | Sent true _ _ errs =>
      as_closed s = true /\ as_queue s = [] /\
      (errs = false -> has_sink s = true -> forall k st, as_sessions s !! k = Some st ->
         cs_dirty st = false \/ exists m, m ∈ marks_of (as_worker s) /\ pm_key m = k /\ pm_revision m = cs_revision st)
  | Done errs => as_closed s = true /\ as_queue s = [] /\
      (errs = false -> has_sink s = true -> forall k st, as_sessions s !! k = Some st -> cs_dirty st = false)
  | _ => True
  end.

(** Every checkpoint the sink had was truthful; an account was closed only after the
    sink had taken its last state. *)
Definition history_ok (tr : list trace) : Prop :=
  (forall a k c f b, tr = a ++ TMark k c f :: b -> truthful k c a) /\
  (forall a k b, tr = a ++ TForget k :: b -> exists c, taken k a = Some c /\ tells c (tally_of k a)).

Record capture_inv (n : Z) (s : AsyncSink) (tr : list trace) : Prop := {
  ci_books : forall k, books n k s tr;
  ci_marks : Forall (mark_ok s tr) (marks_of (as_worker s));
  ci_keys : NoDup (map pm_key (marks_of (as_worker s)));
  ci_sent : match as_worker s with Sent _ m _ _ => taken (pm_key m) tr = Some (pm_stats m) | _ => True end;
  ci_final : final_ok s;
  ci_kinds : Forall (fun e => ev_Kind e <> EventTelemetryCheckpoint) (match as_worker s with Took e _ => e :: as_queue s | _ => as_queue s end);
  ci_named : forall k st, as_sessions s !! k = Some st -> k.2 <> ""%string;
  ci_history : history_ok tr;
}.

(** ** Traces *)

Lemma tally_snoc k tr x : tally_of k (tr ++ [x]) = tally_step k (tally_of k tr) x.
Proof. unfold tally_of; rewrite foldl_app; reflexivity. Qed.

Lemma taken_snoc k tr x : taken k (tr ++ [x]) = taken_step k (taken k tr) x.
Proof. unfold taken; rewrite foldl_app; reflexivity. Qed.

Lemma truthful_app k c tr t : truthful k c tr -> quiet k t -> truthful k c (tr ++ t).
Proof.
  intros (b & q & -> & T & Q) H; exists b, (q ++ t); rewrite app_assoc; split_and!; auto; apply Forall_app; auto.
Qed.

Lemma truthful_now k c tr : tells c (tally_of k tr) -> truthful k c tr.
Proof. intros T; exists tr, []; rewrite app_nil_r; split_and!; auto; constructor. Qed.

Lemma snoc_split {A} (a b : list A) x l y : l ++ [x] = a ++ y :: b -> (b = [] /\ a = l /\ y = x) \/ exists b', b = b' ++ [x] /\ l = a ++ y :: b'.
Proof.
  intros E; destruct b as [|z b _] using rev_ind.
  - left; apply app_inj_tail in E as [-> ->]; auto.
  - right; exists b; change (y :: b ++ [z]) with ((y :: b) ++ [z]) in E; rewrite app_assoc in E; apply app_inj_tail in E as [-> ->]; auto.
Qed.

Lemma history_snoc tr x :
  history_ok tr -> (forall k c f, x = TMark k c f -> truthful k c tr) ->
  (forall k, x = TForget k -> exists c, taken k tr = Some c /\ tells c (tally_of k tr)) -> history_ok (tr ++ [x]).
Proof.
  intros [H1 H2] X1 X2; split.
  - intros a k c f b E; apply snoc_split in E as [(-> & -> & E)|(b' & -> & E)]; [symmetry in E; eauto | eauto].
  - intros a k b E; apply snoc_split in E as [(-> & -> & E)|(b' & -> & E)]; [symmetry in E; eauto | eauto].
Qed.

Lemma history_app tr x :
  history_ok tr -> (match x with TMark _ _ _ | TForget _ => False | _ => True end) -> history_ok (tr ++ [x]).
Proof. intros H N; apply history_snoc; auto; intros; subst x; destruct N. Qed.

Lemma about_key e : about (eventKey e) e = counted e.
Proof. unfold about; rewrite bool_decide_true by reflexivity; apply andb_true_r. Qed.

Lemma about_other k e : eventKey e <> k \/ counted e = false -> about k e = false.
Proof. unfold about; intros [H|H]; [rewrite bool_decide_false by exact H; apply andb_false_r | rewrite H; reflexivity]. Qed.

Lemma about_true k e : about k e = true -> eventKey e = k /\ counted e = true.
Proof. unfold about; rewrite andb_true_iff, bool_decide_eq_true; tauto. Qed.

Lemma queued_snoc k q e : queued k (q ++ [e]) = queued k q + Z.b2z (about k e).
Proof. unfold queued; rewrite List.filter_app, zlen_app; cbn; destruct (about k e); reflexivity. Qed.

Lemma queued_cons k q e : queued k (e :: q) = queued k q + Z.b2z (about k e).
Proof. unfold queued; cbn; destruct (about k e); [rewrite zlen_cons; reflexivity | cbn; lia]. Qed.

Lemma queued_nonneg k q : 0 <= queued k q.
Proof. apply zlen_nonneg. Qed.

(** ** Steps that do not touch a session *)

Lemma books_frame n n' k s s' tr tr' :
  books n k s tr -> n <= n' -> tally_of k tr' = tally_of k tr -> taken k tr' = taken k tr ->
  queued k (as_queue s') = queued k (as_queue s) -> inflight k (as_worker s') = inflight k (as_worker s) ->
  as_sessions s' !! k = as_sessions s !! k -> books n' k s' tr'.
Proof.
  intros [B1 B2 B3] Hn T K Q I S; constructor; rewrite ?T, ?Q, ?I, ?S; auto; [lia|].
  destruct (as_sessions s !! k) as [st|]; [|exact B3]; destruct B3 as [A1 A2 A3 A4 A5 A6].
  constructor; rewrite ?T, ?I, ?K; auto; lia.
Qed.

Lemma mark_frame s s' tr tr' m :
  mark_ok s tr m -> quiet (pm_key m) (drop (length tr) tr') -> tr `prefix_of` tr' ->
  tally_of (pm_key m) tr' = tally_of (pm_key m) tr \/ as_sessions s' !! pm_key m <> as_sessions s !! pm_key m ->
  (as_sessions s' !! pm_key m = as_sessions s !! pm_key m \/
   exists st st', as_sessions s !! pm_key m = Some st /\ as_sessions s' !! pm_key m = Some st' /\ cs_dirty st' = true /\ cs_revision st < cs_revision st') ->
  mark_ok s' tr' m.
Proof.
  intros [T (st & S & D & R & E)] Q [t ->] HT HS; rewrite drop_app_length in Q; split; [apply truthful_app; assumption|].
  destruct HS as [HS|(st1 & st2 & E1 & E2 & D2 & R2)].
  - exists st; rewrite HS; destruct HT as [HT|HT]; [|congruence]; rewrite HT; auto.
  - rewrite S in E1; injection E1 as <-; exists st2; split_and!; auto; lia.
Qed.

(** A step that leaves sessions, queue and worker alone. *)
Lemma inv_weaken n n' s tr : n <= n' -> capture_inv n s tr -> capture_inv n' s tr.
Proof. intros Hn [B M K T F Ki N H]; constructor; auto; intros k; apply (books_frame n n' k s s tr tr); auto. Qed.

(** The worker holds neither an event nor a checkpoint. *)
Definition idle (w : worker) : bool := match w with Took _ _ | Flush _ (_ :: _) _ | Sent _ _ _ _ => false | _ => true end.

Lemma idle_facts w : idle w = true -> marks_of w = [] /\ (forall k, inflight k w = (0, 0)) /\
  (forall q, match w with Took e _ => e :: q | _ => q end = q) /\ (forall (P : pending_mark -> Prop), match w with Sent _ m _ _ => P m | _ => True end).
Proof. destruct w as [| | |? [|? ?] ?| |]; cbn; intros H; try discriminate; auto. Qed.

Lemma inv_control n s s' tr :
  capture_inv n s tr -> as_queue s' = as_queue s -> as_sessions s' = as_sessions s ->
  idle (as_worker s) = true -> idle (as_worker s') = true -> final_ok s' -> capture_inv n s' tr.
Proof.
  intros [B M K T F Ki N H] Q S I I' F'; apply idle_facts in I as (I1 & I2 & I3 & I4); apply idle_facts in I' as (J1 & J2 & J3 & J4).
  constructor; rewrite ?J1, ?J3, ?S, ?Q; auto.
  - intros k; apply (books_frame n n k s s' tr tr); auto; [lia | rewrite Q; reflexivity | rewrite I2, J2; reflexivity | rewrite S; reflexivity].
  - apply NoDup_nil_2.
  - apply (J4 (fun m => taken (pm_key m) tr = Some (pm_stats m))).
  - rewrite I3 in Ki; exact Ki.
Qed.

(** Counters of one session move, as [Record] and [observeLifecycle] move them: the
    account is open and ahead of every checkpoint made of it. *)
Lemma inv_touch n s s' tr t k st :
  capture_inv n s tr -> as_worker s' = as_worker s -> has_sink s' = has_sink s -> as_closed s = false -> as_closed s' = false ->
  as_sessions s' = <[k := st]> (as_sessions s) -> k.2 <> ""%string -> cs_dirty st = true ->
  (forall st0, as_sessions s !! k = Some st0 -> cs_revision st0 < cs_revision st) ->
  books (n + 1) k s' (tr ++ t) ->
  (forall k', k' <> k -> tally_of k' (tr ++ t) = tally_of k' tr /\ queued k' (as_queue s') = queued k' (as_queue s)) ->
  (forall k', taken k' (tr ++ t) = taken k' tr) -> (forall k', quiet k' t) -> history_ok (tr ++ t) ->
  Forall (fun e => ev_Kind e <> EventTelemetryCheckpoint) (as_queue s') ->
  capture_inv (n + 1) s' (tr ++ t).
Proof.
  intros [B M K T F Ki N H] W HS C C' S Hk D R Bk O Tk Qt H' Ki'; constructor; rewrite ?W; auto.
  - intros k'; destruct (decide (k' = k)) as [->|Hne]; [exact Bk|]; destruct (O k' Hne) as [O1 O2].
    apply (books_frame n (n + 1) k' s s' tr); auto; [lia | rewrite W; reflexivity | rewrite S, lookup_insert_ne by congruence; reflexivity].
  - revert M; apply Forall_impl; intros m Hm; pose proof Hm as [_ (st0 & S0 & _)].
    apply (mark_frame s s' tr (tr ++ t) m Hm); [rewrite drop_app_length; apply Qt | eexists; reflexivity | |].
    + destruct (decide (pm_key m = k)) as [E|E]; [|left; apply O, E].
      right; rewrite S, E, lookup_insert_eq; rewrite E in S0; rewrite S0; intros [= ->]; specialize (R _ S0); lia.
    + rewrite S; destruct (decide (pm_key m = k)) as [E|E]; [|left; apply lookup_insert_ne; congruence].
      right; exists st0, st; rewrite E, lookup_insert_eq in *; auto.
  - destruct (as_worker s); auto; rewrite Tk; exact T.
  - unfold final_ok in *; rewrite W; destruct (as_worker s) as [| |[] ?|[] ? ?|[] ? ? ?|]; auto; destruct F; congruence.
  - destruct (as_worker s); auto; inversion Ki; subst; apply Forall_cons; auto.
  - intros k' st'; rewrite S; destruct (decide (k' = k)) as [->|E]; [auto | rewrite lookup_insert_ne by congruence; apply N].
Qed.

Lemma inflight_nonneg k w : 0 <= fst (inflight k w) /\ 0 <= snd (inflight k w) <= fst (inflight k w).
Proof. destruct w as [|e [] | | | |]; cbn; try destruct (about k e); cbn; lia. Qed.

(** The account [completenessLocked] works on. *)
Lemma open_account n k s tr e :
  0 <= n -> books n k s tr ->
  let st := default (new_state s e) (as_sessions s !! k) in
  AttemptedEvents (cs_stats st) = t_offered (tally_of k tr) /\ QueueDroppedEvents (cs_stats st) = t_dropped (tally_of k tr) /\
  cs_processed st + fst (inflight k (as_worker s)) = t_sunk (tally_of k tr) /\
  SinkFailedEvents (cs_stats st) + snd (inflight k (as_worker s)) = t_failed (tally_of k tr) /\ 0 <= cs_revision st <= n.
Proof.
  intros Hn [B1 B2 B3]; cbn zeta; destruct (as_sessions s !! k) as [st|]; cbn [default].
  - destruct B3 as [A1 A2 A3 A4 A5 _]; auto.
  - pose proof (queued_nonneg k (as_queue s)); pose proof (inflight_nonneg k (as_worker s)); cbn; lia.
Qed.

Lemma locked_spec s e st' :
  completenessLocked s e = Some st' ->
  let st := default (new_state s e) (as_sessions s !! eventKey e) in
  counted e = true /\ AttemptedEvents (cs_stats st') = AttemptedEvents (cs_stats st) /\
  QueueDroppedEvents (cs_stats st') = QueueDroppedEvents (cs_stats st) /\ SinkFailedEvents (cs_stats st') = SinkFailedEvents (cs_stats st) /\
  cs_processed st' = cs_processed st /\ cs_revision st' = u64 (cs_revision st + 1) /\ cs_dirty st' = true.
Proof.
  unfold completenessLocked; destruct (counted e); [|discriminate]; cbn [negb]; intros [= <-]; cbn; split_and!; reflexivity.
Qed.

Lemma locked_none s e : completenessLocked s e = None -> counted e = false.
Proof. unfold completenessLocked; destruct (counted e); [discriminate | reflexivity]. Qed.

Lemma counted_named e : counted e = true -> (eventKey e).2 <> ""%string.
Proof. unfold counted; rewrite andb_true_iff, negb_true_iff, str_eqb_neq; cbn; tauto. Qed.

Lemma revision_ahead n s tr e st' :
  0 <= n -> n + 1 < two64 -> capture_inv n s tr -> completenessLocked s e = Some st' ->
  cs_revision st' = cs_revision (default (new_state s e) (as_sessions s !! eventKey e)) + 1 /\
  (forall st0, as_sessions s !! eventKey e = Some st0 -> cs_revision st0 < cs_revision st').
Proof.
  intros Hn H64 I E; destruct (locked_spec s e st' E) as (_ & _ & _ & _ & _ & R & _).
  destruct (open_account n _ s tr e Hn (ci_books _ _ _ I (eventKey e))) as (_ & _ & _ & _ & B); cbn zeta in *.
  rewrite R, u64_small by lia; split; [reflexivity|]; intros st0 S; rewrite S; cbn; lia.
Qed.

Lemma observe_inv n s tr e :
  0 <= n -> n + 1 < two64 -> capture_inv n s tr -> capture_inv (n + 1) (observeLifecycle s e) tr.
Proof.
  intros Hn H64 I; unfold observeLifecycle; destruct (_ || _) eqn:Ec; [apply (inv_weaken n); [lia | exact I]|].
  apply orb_false_iff in Ec as [_ C]; destruct (completenessLocked s e) as [st'|] eqn:E.
  2: { apply (inv_weaken n); [lia|]; destruct I as [B M K T F Ki N H]; constructor; auto.
       intros k; apply (books_frame n n k s _ tr tr); auto; lia. }
  destruct (revision_ahead n s tr e st' Hn H64 I E) as [R1 R2].
  destruct (locked_spec s e st' E) as (Hc & L1 & L2 & L3 & L4 & _ & L5); cbn zeta in *.
  rewrite <- (app_nil_r tr); apply (inv_touch n s _ tr [] (eventKey e) st'); cbn; auto.
  - apply counted_named, Hc.
  - rewrite app_nil_r; pose proof (ci_books _ _ _ I (eventKey e)) as Bk.
    destruct (open_account n _ s tr e Hn Bk) as (O1 & O2 & O3 & O4 & O5); destruct Bk as [B1 B2 _]; constructor; cbn; auto; [lia|].
    rewrite lookup_insert_eq; constructor; cbn; try congruence; lia.
  - intros k' _; rewrite app_nil_r; auto.
  - intros k'; rewrite app_nil_r; reflexivity.
  - intros k'; constructor.
  - rewrite app_nil_r; apply (ci_history _ _ _ I).
  - pose proof (ci_kinds _ _ _ I) as Ki; destruct (as_worker s); auto; inversion Ki; auto.
Qed.

(** The books of a session after one more attempt. *)
Lemma attempt_books n s s' tr e st' (full : bool) :
  0 <= n -> n + 1 < two64 -> capture_inv n s tr -> completenessLocked s e = Some st' ->
  as_worker s' = as_worker s -> as_queue s' = (if full then as_queue s else as_queue s ++ [e]) ->
  as_sessions s' = <[eventKey e := count_attempt e full st']> (as_sessions s) ->
  books (n + 1) (eventKey e) s' (tr ++ [TOffer e full]).
Proof.
  intros Hn H64 I E W Q S; destruct (revision_ahead n s tr e st' Hn H64 I E) as [R1 R2].
  destruct (locked_spec s e st' E) as (Hc & L1 & L2 & L3 & L4 & _ & L5); cbn zeta in *.
  pose proof (ci_books _ _ _ I (eventKey e)) as Bk; pose proof (queued_nonneg (eventKey e) (as_queue s)).
  destruct (open_account n _ s tr e Hn Bk) as (O1 & O2 & O3 & O4 & O5); destruct Bk as [B1 B2 _].
  pose proof (inflight_nonneg (eventKey e) (as_worker s)).
  assert (T : tally_of (eventKey e) (tr ++ [TOffer e full]) =
    MkTally (t_offered (tally_of (eventKey e) tr) + 1) (t_dropped (tally_of (eventKey e) tr) + Z.b2z full)
      (t_sunk (tally_of (eventKey e) tr)) (t_failed (tally_of (eventKey e) tr))).
  { rewrite tally_snoc; cbn; rewrite about_key, Hc; reflexivity. }
  assert (Qe : queued (eventKey e) (as_queue s') = queued (eventKey e) (as_queue s) + Z.b2z (negb full)).
  { rewrite Q; destruct full; [cbn; lia | rewrite queued_snoc, about_key, Hc; reflexivity]. }
  constructor; rewrite ?T, ?W; cbn [t_offered t_dropped t_sunk t_failed]; [rewrite Qe; destruct full; cbn; lia | destruct full; cbn; lia|].
  rewrite S, lookup_insert_eq; constructor; rewrite ?T, ?W; cbn [t_offered t_dropped t_sunk t_failed];
    unfold count_attempt, put_stats; cbn [cs_stats cs_processed cs_revision cs_dirty AttemptedEvents QueueDroppedEvents SinkFailedEvents];
    rewrite ?L1, ?L2, ?L3, ?L4, ?L5; try lia; try discriminate.
  - rewrite O1, u64_small by lia; reflexivity.
  - rewrite O2; destruct full; [rewrite u64_small by lia | cbn]; cbn; lia.
Qed.

Lemma record_inv n s s' tr e r :
  0 <= n -> n + 1 < two64 -> capture_inv n s tr -> ev_Kind e <> EventTelemetryCheckpoint -> async_Record s e = (s', r) ->
  capture_inv (n + 1) s' (tr ++ match r with ErrSinkClosed => [] | Queued => [TOffer e false] | ErrQueueFull => [TOffer e true] end).
Proof.
  intros Hn H64 I Hk; unfold async_Record; destruct (as_closed s) eqn:C.
  { intros [= <- <-]; rewrite app_nil_r; apply (inv_weaken n); [lia | exact I]. }
  set (full := as_cap s <=? zlen (as_queue s)).
  assert (Hh : history_ok (tr ++ [TOffer e full])) by (apply history_app; [apply (ci_history _ _ _ I) | exact Logic.I]).
  assert (Tk : forall k', taken k' (tr ++ [TOffer e full]) = taken k' tr) by (intros k'; rewrite taken_snoc; reflexivity).
  assert (Qt : forall k', quiet k' [TOffer e full]) by (intros k'; repeat constructor).
  assert (Kq : Forall (fun e => ev_Kind e <> EventTelemetryCheckpoint) (as_queue s ++ [e])).
  { apply Forall_app; split; [|repeat constructor; exact Hk].
    pose proof (ci_kinds _ _ _ I) as Ki; destruct (as_worker s); auto; inversion Ki; auto. }
  assert (Res : forall x, (if full then (put_wake true (put_counters (u64 (as_dropped x + 1)) (as_failures x) x), ErrQueueFull)
     else (put_queue (as_queue x ++ [e]) x, Queued)) = (s', r) ->
     capture_inv (n + 1) s' (tr ++ [TOffer e full]) -> capture_inv (n + 1) s' (tr ++ match r with ErrSinkClosed => [] | Queued => [TOffer e false] | ErrQueueFull => [TOffer e true] end)).
  { intros x; destruct full; intros [= _ <-]; auto. }
  intros E; apply (Res _ E); destruct (completenessLocked s e) as [st'|] eqn:El.
  - destruct (locked_spec s e st' El) as (Hc & _ & _ & _ & _ & _ & L5); destruct (revision_ahead n s tr e st' Hn H64 I El) as [_ R2].
    assert (S' : as_worker s' = as_worker s /\ has_sink s' = has_sink s /\ as_closed s' = false /\
      as_queue s' = (if full then as_queue s else as_queue s ++ [e]) /\ as_sessions s' = <[eventKey e := count_attempt e full st']> (as_sessions s)).
    { destruct full; injection E as <- _; cbn; auto. }
    destruct S' as (S1 & S2 & S3 & S4 & S5); apply (inv_touch n s s' tr [TOffer e full] (eventKey e) (count_attempt e full st')); auto.
    + apply counted_named, Hc.
    + apply (attempt_books n s s' tr e st' full); auto.
    + intros k' Hne; rewrite tally_snoc; cbn; rewrite (about_other k' e) by auto; split; [reflexivity|].
      rewrite S4; destruct full; [reflexivity | rewrite queued_snoc, (about_other k' e) by auto; cbn; lia].
    + rewrite S4; destruct full; [apply Forall_app in Kq; tauto | exact Kq].
  - apply locked_none in El; assert (T : forall k, tally_of k (tr ++ [TOffer e full]) = tally_of k tr).
    { intros k; rewrite tally_snoc; cbn; rewrite (about_other k e) by auto; reflexivity. }
    assert (S' : as_worker s' = as_worker s /\ has_sink s' = has_sink s /\ as_closed s' = false /\
      as_queue s' = (if full then as_queue s else as_queue s ++ [e]) /\ as_sessions s' = as_sessions s).
    { destruct full; injection E as <- _; cbn; auto. }
    destruct S' as (S1 & S2 & S3 & S4 & S5); destruct I as [B M K Ts F Ki N H]; constructor; rewrite ?S1, ?S5; auto.
    + intros k; apply (books_frame n (n + 1) k s s' tr); auto; [lia | | rewrite S1; reflexivity | rewrite S5; reflexivity].
      rewrite S4; destruct full; [reflexivity | rewrite queued_snoc, (about_other k e) by auto; cbn; lia].
    + revert M; apply Forall_impl; intros m Hm; apply (mark_frame s s' tr _ m Hm);
        [rewrite drop_app_length; apply Qt | eexists; reflexivity | left; apply T | left; rewrite S5; reflexivity].
    + destruct (as_worker s); auto; rewrite Tk; exact Ts.
    + unfold final_ok in *; rewrite S1; destruct (as_worker s) as [| |[] ?|[] ? ?|[] ? ? ?|]; auto; destruct F; congruence.
    + rewrite S4; destruct full, (as_worker s); auto; inversion Ki; subst; apply Forall_cons; auto.
Qed.

(** ** The worker *)

Lemma take_inv n s tr e q f :
  0 <= n -> capture_inv n s tr -> as_worker s = Waiting -> as_queue s = e :: q ->
  capture_inv (n + 1) (put_worker (Took e f) (put_queue q s)) (tr ++ [TSink e f]).
Proof.
  intros Hn [B M K Ts F Ki N H] W Q; constructor; cbn [as_worker put_worker marks_of as_queue put_queue as_sessions map]; auto using NoDup_nil_2; [| exact Logic.I | |].
  - intros k; specialize (B k); destruct B as [B1 B2 B3]; rewrite W in *; cbn [inflight fst snd] in *.
    rewrite Q, queued_cons in B1; pose proof (queued_nonneg k q).
    constructor; cbn [as_worker as_queue as_sessions put_worker put_queue inflight]; rewrite tally_snoc; cbn [tally_step];
      destruct (about k e) eqn:Ea; cbn [t_offered t_dropped t_sunk t_failed fst snd Z.b2z] in *; try (destruct f; cbn; lia).
    + destruct (as_sessions s !! k) as [st|]; [|lia]; destruct B3 as [A1 A2 A3 A4 A5 A6]; rewrite W in *; cbn [inflight fst snd] in *.
      constructor; cbn [as_worker put_worker inflight]; rewrite ?tally_snoc, ?Ea; cbn [tally_step]; rewrite ?Ea;
        cbn [t_offered t_dropped t_sunk t_failed fst snd]; try lia.
      intros D; destruct (A6 D) as [_ (_ & _ & _ & T)]; lia.
    + destruct (as_sessions s !! k) as [st|]; [|exact B3]; destruct B3 as [A1 A2 A3 A4 A5 A6]; rewrite W in *; cbn [inflight fst snd] in *.
      constructor; cbn [as_worker put_worker inflight]; rewrite ?tally_snoc, ?taken_snoc, ?Ea; cbn [tally_step taken_step]; rewrite ?Ea;
        cbn [fst snd]; auto; lia.
  - rewrite W, Q in Ki; exact Ki.
  - apply history_app; auto.
Qed.

Lemma uncounted_nothing n s tr e :
  capture_inv n s tr -> ev_Kind e <> EventTelemetryCheckpoint -> counted e = false -> as_sessions s !! eventKey e = None.
Proof.
  intros I Hk Hc; destruct (as_sessions s !! eventKey e) as [st|] eqn:E; [|reflexivity]; exfalso.
  apply (ci_named _ _ _ I _ _ E); unfold counted in Hc; rewrite bool_decide_true in Hc by exact Hk.
  rewrite andb_true_r in Hc; apply negb_false_iff, str_eqb_eq in Hc; exact Hc.
Qed.

Lemma count_inv n s tr e f :
  0 <= n -> n + 1 < two64 -> capture_inv n s tr -> as_worker s = Took e f ->
  capture_inv (n + 1) (put_worker (Select false true) (count_processed s e f)) tr.
Proof.
  intros Hn H64 I W; pose proof I as [B M K Ts F Ki N H].
  set (s' := put_worker _ _).
  assert (Q' : as_queue s' = as_queue s) by (unfold s', count_processed; destruct (as_sessions s !! eventKey e), f; reflexivity).
  assert (O' : forall k, k <> eventKey e -> as_sessions s' !! k = as_sessions s !! k).
  { intros k Hk; unfold s', count_processed; destruct (as_sessions s !! eventKey e), f; cbn; rewrite ?lookup_insert_ne by congruence; reflexivity. }
  rewrite W in Ki; inversion Ki as [|? ? Ke Ki']; subst; clear Ki; rename Ki' into Ki.
  constructor; auto; [| apply NoDup_nil_2 | exact Logic.I | exact Logic.I | cbn [as_worker s' put_worker]; rewrite Q'; exact Ki |].
  - intros k; destruct (decide (k = eventKey e /\ counted e = true)) as [[-> Hc]|Hne].
    + specialize (B (eventKey e)); destruct B as [B1 B2 B3]; rewrite W in *; cbn [inflight] in B2; rewrite about_key, Hc in B2; cbn in B2.
      pose proof (queued_nonneg (eventKey e) (as_queue s)); destruct (as_sessions s !! eventKey e) as [st|] eqn:Es; [|lia].
      destruct B3 as [A1 A2 A3 A4 A5 A6]; rewrite W in *; cbn [inflight] in *; rewrite about_key, Hc in *; cbn [fst snd] in *.
      constructor; rewrite ?Q'; cbn [inflight as_worker s' put_worker fst snd]; [lia | destruct f; cbn in *; lia|].
      unfold s', count_processed; rewrite Es; destruct f; cbn in A4, B2 |- *; rewrite lookup_insert_eq; constructor; cbn;
        rewrite ?u64_small by lia; cbn in *; try lia; intros D; destruct (A6 D) as [T1 (T2 & T3 & T4 & T5)]; [lia | split_and!; auto; split_and!; auto].
    + assert (Ea : about k e = false).
      { apply about_other; destruct (decide (eventKey e = k)) as [<-|]; [right | left; auto]; destruct (counted e); auto; destruct Hne; auto. }
      apply (books_frame n (n + 1) k s s' tr tr); auto; [lia | rewrite Q'; reflexivity | rewrite W; cbn; rewrite Ea; reflexivity|].
      destruct (decide (k = eventKey e)) as [->|]; [|auto].
      pose proof (uncounted_nothing n s tr e I Ke) as En; rewrite about_key in Ea; specialize (En Ea).
      unfold s', count_processed; rewrite En; destruct f; cbn; rewrite En; reflexivity.
  - intros k st; destruct (decide (k = eventKey e)) as [->|Hk]; [|rewrite (O' k Hk); apply N].
    unfold s', count_processed; destruct (as_sessions s !! eventKey e) as [st0|] eqn:Es; [intros _; eapply N, Es|].
    destruct f; cbn; rewrite Es; discriminate.
Qed.

Lemma select_elem s only now order m :
  m ∈ select_marks s only now order ->
  pm_key m ∈ order /\ exists st, as_sessions s !! pm_key m = Some st /\ reportable only st = true /\ pm_stats m = cs_stats st /\ pm_revision m = cs_revision st.
Proof.
  unfold select_marks; intros H; apply list_elem_of_omap in H as (k & Hk & E); destruct (as_sessions s !! k) as [st|] eqn:Es; [|discriminate].
  destruct (reportable only st) eqn:R; [|discriminate]; injection E as <-; cbn; split; [exact Hk|]; exists st; auto.
Qed.

Lemma select_nodup s only now order : NoDup order -> NoDup (map pm_key (select_marks s only now order)).
Proof.
  induction order as [|k order IH]; intros Hd; [apply NoDup_nil_2|]; inversion Hd as [|? ? Hk Hd']; subst; specialize (IH Hd').
  change (select_marks s only now (k :: order)) with
    (match (match as_sessions s !! k with Some st => if reportable only st then Some (mark_of now k st) else None | None => None end) with
     | Some m => m :: select_marks s only now order | None => select_marks s only now order end).
  destruct (as_sessions s !! k) as [st|]; [|exact IH]; destruct (reportable only st); [|exact IH].
  constructor; [|exact IH]; intros H; apply list_elem_of_fmap in H as (m & E & Hm).
  apply select_elem in Hm as [Hm _]; cbn in E; rewrite <- E in Hm; apply Hk, Hm.
Qed.

Lemma reportable_tells n k s tr only st :
  n < two64 -> books n k s tr -> as_sessions s !! k = Some st -> fst (inflight k (as_worker s)) = 0 -> snd (inflight k (as_worker s)) = 0 ->
  reportable only st = true -> tells (cs_stats st) (tally_of k tr) /\ cs_dirty st = true.
Proof.
  intros H64 [B1 B2 B3] S I1 I2; rewrite S in B3; destruct B3 as [A1 A2 A3 A4 A5 A6]; unfold reportable.
  intros R; apply andb_true_iff in R as [R E]; apply andb_true_iff in R as [D _]; split; [|exact D].
  apply Z.eqb_eq in E; pose proof (queued_nonneg k (as_queue s)); rewrite u64_small in E by lia; split_and!; lia.
Qed.

Lemma drained_reportable n k s tr st :
  n < two64 -> books n k s tr -> as_sessions s !! k = Some st -> fst (inflight k (as_worker s)) = 0 -> as_queue s = [] ->
  cs_dirty st = true -> reportable false st = true.
Proof.
  intros H64 [B1 B2 B3] S I1 Q D; rewrite S in B3; destruct B3 as [A1 A2 A3 A4 A5 A6]; unfold reportable; rewrite D; cbn.
  rewrite Q in B1; change (queued k []) with 0 in B1; apply Z.eqb_eq; rewrite u64_small by lia; lia.
Qed.

Lemma select_inv n s tr final only now order :
  n < two64 -> capture_inv n s tr -> as_worker s = Select final only -> NoDup order ->
  Forall (fun kst => fst kst ∈ order) (map_to_list (as_sessions s)) ->
  capture_inv n (put_worker (Flush final (select_marks s only now order) false) s) tr.
Proof.
  intros H64 [B M K Ts F Ki N H] W Hd Ho.
  assert (W0 : forall k, inflight k (as_worker s) = (0, 0)) by (intros k; rewrite W; reflexivity).
  constructor; cbn [as_worker put_worker marks_of as_queue as_sessions]; auto using select_nodup.
  - intros k; apply (books_frame n n k s _ tr tr); auto; try lia; rewrite W0; reflexivity.
  - apply List.Forall_forall; intros m Hm; apply list_elem_of_In, select_elem in Hm as (_ & st & S & R & E1 & E2).
    destruct (reportable_tells n (pm_key m) s tr only st H64 (B _) S) as [T D]; [rewrite W0; reflexivity..| exact R |].
    split; [rewrite E1; apply truthful_now, T|]; exists st; cbn; rewrite E1, E2; split_and!; auto; lia.
  - unfold final_ok in *; rewrite W in F; cbn; destruct final; [|exact Logic.I]; destruct F as (F1 & F2 & ->); split_and!; auto.
    intros _ _ k st S; destruct (cs_dirty st) eqn:D; [right | left; reflexivity].
    assert (R : reportable false st = true) by (eapply (drained_reportable n k s tr); eauto; rewrite W0; reflexivity).
    exists (mark_of now k st); split_and!; auto; unfold select_marks; apply list_elem_of_omap; exists k; rewrite S, R; split; [|reflexivity].
    apply elem_of_map_to_list in S; rewrite List.Forall_forall in Ho; apply list_elem_of_In in S; apply Ho in S; exact S.
  - rewrite W in Ki; exact Ki.
Qed.

Lemma skip_inv n s tr final m marks errs :
  capture_inv n s tr -> as_worker s = Flush final (m :: marks) errs -> has_sink s = false ->
  capture_inv n (put_worker (Flush final marks errs) s) tr.
Proof.
  intros [B M K Ts F Ki N H] W Hs; rewrite W in *; cbn [marks_of] in *; inversion M as [|? ? M1 M2]; inversion K as [|? ? K1 K2]; subst.
  constructor; cbn [as_worker put_worker marks_of as_queue as_sessions]; auto.
  - intros k; apply (books_frame n n k s _ tr tr); auto; try lia; rewrite W; reflexivity.
  - unfold final_ok in *; rewrite W in F; cbn; destruct final; [|exact Logic.I]; destruct F as (F1 & F2 & F3); split_and!; auto; congruence.
Qed.

Lemma send_inv n s tr final m marks errs (fails : bool) :
  capture_inv n s tr -> as_worker s = Flush final (m :: marks) errs ->
  capture_inv n (put_worker (if fails then Flush final marks true else Sent final m marks errs) s) (tr ++ [TMark (pm_key m) (pm_stats m) fails]).
Proof.
  intros [B M K Ts F Ki N H] W; rewrite W in *; cbn [marks_of] in *; inversion M as [|? ? M1 M2]; inversion K as [|? ? K1 K2]; subst.
  set (x := TMark _ _ _); set (w' := if fails then _ else _).
  assert (T : forall k, tally_of k (tr ++ [x]) = tally_of k tr) by (intros k; rewrite tally_snoc; reflexivity).
  assert (Keep : forall m0, mark_ok s tr m0 -> mark_ok (put_worker w' s) (tr ++ [x]) m0).
  { intros m0 Hm; apply (mark_frame s _ tr _ m0 Hm); [|eexists; reflexivity | left; apply T | left; reflexivity].
    rewrite drop_app_length; repeat constructor. }
  assert (I0 : forall k, inflight k w' = (0, 0)) by (intros k; unfold w'; destruct fails; reflexivity).
  destruct M1 as [Tm (stm & Sm & Dm & Rm)].
  constructor; cbn [as_worker put_worker as_queue as_sessions]; auto.
  - intros k; destruct (decide (k = pm_key m)) as [->|Hk].
    + destruct (B (pm_key m)) as [B1 B2 B3]; rewrite W in B2; rewrite Sm in B3; destruct B3 as [A1 A2 A3 A4 A5 A6]; rewrite W in A3, A4.
      constructor; cbn [as_worker put_worker as_queue as_sessions]; rewrite ?T, ?I0; auto; rewrite Sm.
      constructor; cbn [as_worker put_worker as_queue as_sessions]; rewrite ?T, ?I0; auto; congruence.
    + apply (books_frame n n k s _ tr); auto; try lia; [|cbn [as_worker put_worker]; rewrite I0, W; reflexivity].
      rewrite taken_snoc; unfold x; cbn; destruct fails; [reflexivity|]; destruct (decide (pm_key m = k)); [congruence | reflexivity].
  - unfold w'; destruct fails; cbn [marks_of]; [|constructor; [apply Keep; split; [exact Tm | eauto]|]]; revert M2; apply Forall_impl; exact Keep.
  - unfold w'; destruct fails; cbn [marks_of]; assumption.
  - unfold w'; destruct fails; [exact Logic.I|]; rewrite taken_snoc; unfold x; cbn; destruct (decide (pm_key m = pm_key m)); [reflexivity | congruence].
  - unfold final_ok in *; rewrite W in F; cbn [as_worker put_worker as_queue as_closed as_sessions has_sink]; unfold w'; destruct fails, final; cbn; auto;
      destruct F as (F1 & F2 & F3); split_and!; auto; discriminate.
  - unfold w'; destruct fails; exact Ki.
  - apply history_snoc; auto; [intros k c f [= <- <- _]; exact Tm | intros k [=]].
Qed.

(** The checkpoint is of the account as it is: the session is forgotten, or is clean. *)
Lemma delivered_current n s tr final m marks errs st :
  0 <= n -> capture_inv n s tr -> as_worker s = Sent final m marks errs -> as_sessions s !! pm_key m = Some st -> cs_revision st = pm_revision m ->
  let s' := put_worker (Flush final marks errs) (mark_delivered s m) in
  capture_inv n s' (tr ++ if SessionEndedObserved (cs_stats st) then [TForget (pm_key m)] else []).
Proof.
  intros Hn [B M K Ts F Ki N H] W S R; rewrite W in *; cbn [marks_of] in *; inversion M as [|? ? M1 M2]; inversion K as [|? ? K1 K2]; subst.
  destruct M1 as [_ (st1 & S1 & D1 & _ & E1)]; rewrite S in S1; injection S1 as <-; destruct (E1 R) as [E2 E3].
  unfold mark_delivered; rewrite S, (proj2 (Z.eqb_eq _ _) R); cbn zeta.
  set (ended := SessionEndedObserved (cs_stats st)); set (t := if ended then [TForget (pm_key m)] else []).
  set (s' := put_worker _ _).
  assert (O' : forall k, k <> pm_key m -> as_sessions s' !! k = as_sessions s !! k).
  { intros k Hk; unfold s'; destruct ended; cbn; [rewrite lookup_delete_ne by congruence | rewrite lookup_insert_ne by congruence]; reflexivity. }
  assert (P' : as_queue s' = as_queue s /\ as_worker s' = Flush final marks errs /\ has_sink s' = has_sink s /\ as_closed s' = as_closed s)
    by (unfold s'; destruct ended; auto); destruct P' as (Q' & W' & Hs' & C').
  assert (T : forall k, k <> pm_key m -> tally_of k (tr ++ t) = tally_of k tr /\ taken k (tr ++ t) = taken k tr).
  { intros k Hk; unfold t; destruct ended; [|rewrite app_nil_r; auto]; rewrite tally_snoc, taken_snoc; cbn; rewrite !decide_False by congruence; auto. }
  constructor; rewrite ?W', ?Q'; auto.
  - intros k; destruct (decide (k = pm_key m)) as [->|Hk].
    + destruct (B (pm_key m)) as [B1 B2 B3]; rewrite W in B2; rewrite S in B3; destruct B3 as [A1 A2 A3 A4 A5 A6]; rewrite W in A3, A4.
      cbn [inflight fst snd] in *; pose proof E3 as (_ & _ & _ & E4); pose proof (queued_nonneg (pm_key m) (as_queue s)).
      unfold s', t; destruct ended.
      * constructor; cbn; rewrite tally_snoc; cbn; rewrite decide_True by reflexivity; cbn; try lia; rewrite lookup_delete_eq; reflexivity.
      * rewrite app_nil_r; constructor; cbn; auto; rewrite lookup_insert_eq; constructor; cbn; auto; intros _; rewrite Ts, E2; auto.
    + destruct (T k Hk) as [T1 T2]; apply (books_frame n n k s s' tr); auto; [lia | rewrite Q'; reflexivity | rewrite W, W'; reflexivity].
  - apply List.Forall_forall; intros m0 Hm0; rewrite List.Forall_forall in M2.
    assert (Hk : pm_key m0 <> pm_key m) by (intros E; apply K1; rewrite <- E; apply list_elem_of_fmap_2, list_elem_of_In, Hm0).
    apply (mark_frame s s' tr (tr ++ t) m0 (M2 _ Hm0)); [|eexists; reflexivity | left; apply T, Hk | left; apply O', Hk].
    rewrite drop_app_length; unfold t; destruct ended; repeat constructor; congruence.
  - unfold final_ok in *; rewrite W in F; rewrite W', Q', Hs', C'; destruct final; [|exact Logic.I]; destruct F as (F1 & F2 & F3); split_and!; auto.
    intros He Hsk k stk; destruct (decide (k = pm_key m)) as [->|Hk].
    + unfold s'; destruct ended; cbn; [rewrite lookup_delete_eq; discriminate | rewrite lookup_insert_eq; intros [= <-]; left; reflexivity].
    + rewrite (O' k Hk); intros Sk; destruct (F3 He Hsk k stk Sk) as [D|(m0 & Hm0 & E)]; [left; exact D | right; exists m0; split; [|exact E]].
      cbn in Hm0; apply elem_of_cons in Hm0 as [->|Hm0]; [destruct E; congruence | exact Hm0].
  - intros k stk; destruct (decide (k = pm_key m)) as [->|Hk]; [intros _; eapply N, S | rewrite (O' k Hk); apply N].
  - unfold t; destruct ended; [|rewrite app_nil_r; exact H]; apply history_snoc; auto; [intros ? ? ? [=] | intros k [= <-]; eauto].
Qed.

Lemma delivered_late n s tr final m marks errs :
  capture_inv n s tr -> as_worker s = Sent final m marks errs ->
  (forall st, as_sessions s !! pm_key m = Some st -> cs_revision st <> pm_revision m) ->
  capture_inv n (put_worker (Flush final marks errs) s) tr.
Proof.
  intros [B M K Ts F Ki N H] W R; rewrite W in *; cbn [marks_of] in *; inversion M as [|? ? M1 M2]; inversion K as [|? ? K1 K2]; subst.
  constructor; cbn [as_worker put_worker marks_of as_queue as_sessions]; auto.
  - intros k; apply (books_frame n n k s _ tr tr); auto; try lia; rewrite W; reflexivity.
  - unfold final_ok in *; rewrite W in F; cbn; destruct final; [|exact Logic.I]; destruct F as (F1 & F2 & F3); split_and!; auto.
    intros He Hs k st S; destruct (F3 He Hs k st S) as [D|(m0 & Hm0 & <- & E)]; [left; exact D | right; exists m0; split; [|auto]].
    cbn in Hm0; apply elem_of_cons in Hm0 as [->|Hm0]; [destruct (R st S); congruence | exact Hm0].
Qed.

Lemma flushed_inv n s tr final errs :
  capture_inv n s tr -> as_worker s = Flush final [] errs -> capture_inv n (put_worker (if final then Done errs else Waiting) s) tr.
Proof.
  intros I W; apply (inv_control n s _ tr I); auto; [rewrite W; reflexivity | destruct final; reflexivity|].
  pose proof (ci_final _ _ _ I) as F; unfold final_ok in *; rewrite W in F; destruct final; cbn; auto.
  destruct F as (F1 & F2 & F3); split_and!; auto; intros He Hs k st S; destruct (F3 He Hs k st S) as [D|(m & Hm & _)]; [exact D|].
  cbn in Hm; apply elem_of_nil in Hm; destruct Hm.
Qed.

(** ** Runs *)

(** The collector offers no checkpoints of its own. *)
Definition proper_action (a : action) : bool :=
  match a with ARecord e => bool_decide (ev_Kind e <> EventTelemetryCheckpoint) | _ => true end.

Lemma worker_step_inv n s tr a s' t :
  0 <= n -> n + 1 < two64 -> capture_inv n s tr -> worker_step s a = Some (s', t) -> capture_inv (n + 1) s' (tr ++ t).
Proof.
  intros Hn H64 I; assert (Up : forall x tr', capture_inv n x tr' -> capture_inv (n + 1) x tr') by (intros; apply (inv_weaken n); auto; lia).
  pose proof (ci_final _ _ _ I) as F; unfold worker_step; destruct (as_worker s) as [|e f|final only|final [|m marks] errs|final m marks errs|errs] eqn:W;
    destruct a as [e0|e0| |fails| | | | |now order|fails| |]; try discriminate.
  - destruct (as_queue s) as [|e q] eqn:Q; [discriminate|]; intros [= <- <-]; apply (take_inv n s tr); auto.
  - destruct (checkpointWake s); [|discriminate]; intros [= <- <-]; rewrite app_nil_r; apply Up.
    apply (inv_control n s); auto; [rewrite W; reflexivity | exact Logic.I].
  - intros [= <- <-]; rewrite app_nil_r; apply Up, (inv_control n s); auto; [rewrite W; reflexivity | exact Logic.I].
  - destruct (as_queue s) eqn:Q; [|discriminate]; destruct (as_closed s) eqn:C; [|discriminate]; intros [= <- <-]; rewrite app_nil_r.
    apply Up, (inv_control n s); auto; [rewrite W; reflexivity | split_and!; auto].
  - intros [= <- <-]; rewrite app_nil_r; apply count_inv; auto.
  - destruct (decide _) as [[D1 D2]|]; [|discriminate]; intros [= <- <-]; rewrite app_nil_r; apply Up, select_inv; auto; lia.
  - intros [= <- <-]; rewrite app_nil_r; apply Up, flushed_inv; auto.
  - destruct (has_sink s) eqn:Hs; cbn [negb]; intros [= <- <-]; apply Up.
    + apply (send_inv n s tr final m marks errs fails); auto.
    + rewrite app_nil_r; eapply skip_inv; eauto.
  - destruct (as_sessions s !! pm_key m) as [st|] eqn:S.
    2: { rewrite decide_False by (intros [? ?]; congruence); unfold mark_delivered; rewrite S; intros [= <- <-]; rewrite app_nil_r.
         apply Up, (delivered_late n s tr final m); auto; congruence. }
    rewrite decide_True by eauto; destruct (decide (cs_revision st = pm_revision m)) as [R|R].
    + pose proof (delivered_current n s tr final m marks errs st Hn I W S R) as D; cbn zeta in D.
      intros [= <- <-]; apply Up; revert D; unfold mark_delivered; rewrite S, (proj2 (Z.eqb_eq _ _) R); destruct (SessionEndedObserved (cs_stats st)); cbn.
      * rewrite decide_False; [auto|]; rewrite lookup_delete_eq; intros [? ?]; discriminate.
      * rewrite decide_True; [auto|]; rewrite lookup_insert_eq; eauto.
    + unfold mark_delivered; rewrite S, (proj2 (Z.eqb_neq _ _) R), S, decide_True by eauto; intros [= <- <-]; rewrite app_nil_r.
      apply Up, (delivered_late n s tr final m); auto; rewrite S; congruence.
Qed.

Lemma close_inv n s tr : capture_inv n s tr -> capture_inv n (async_Close s) tr.
Proof.
  intros I; unfold async_Close; destruct (as_closed s) eqn:C; [exact I|]; destruct I as [B M K Ts F Ki N H]; constructor; auto.
  - intros k; apply (books_frame n n k s _ tr tr); auto; lia.
  - unfold final_ok in *; cbn; destruct (as_worker s) as [| |[] ?|[] ? ?|[] ? ? ?|]; auto; destruct F; congruence.
Qed.

Lemma async_step_inv n s tr a s' t :
  0 <= n -> n + 1 < two64 -> capture_inv n s tr -> proper_action a = true -> async_step s a = Some (s', t) -> capture_inv (n + 1) s' (tr ++ t).
Proof.
  intros Hn H64 I Hp; destruct a as [e|e| |fails| | | | |now order|fails| |]; cbn [async_step]; try (apply worker_step_inv; assumption).
  - apply bool_decide_eq_true in Hp; destruct (async_Record s e) as [s1 r] eqn:E; intros [= <- <-].
    pose proof (record_inv n s s1 tr e r Hn H64 I Hp E) as R; destruct r; exact R.
  - intros [= <- <-]; rewrite app_nil_r; apply observe_inv; assumption.
  - intros [= <- <-]; rewrite app_nil_r; apply (inv_weaken n); [lia | apply close_inv, I].
Qed.

Lemma async_run_inv n s tr acts s' t :
  0 <= n -> n + zlen acts < two64 -> capture_inv n s tr -> forallb proper_action acts = true -> async_run s acts = Some (s', t) ->
  capture_inv (n + zlen acts) s' (tr ++ t).
Proof.
  revert n s tr t; induction acts as [|a acts IH]; intros n s tr t Hn Hb I Hp; cbn [async_run forallb] in *.
  - intros [= <- <-]; rewrite app_nil_r; apply (inv_weaken n); [rewrite zlen_nil; lia | exact I].
  - rewrite zlen_cons in *; pose proof (zlen_nonneg acts); apply andb_true_iff in Hp as [Ha Hp].
    destruct (async_step s a) as [[s1 t1]|] eqn:E1; [|discriminate]; destruct (async_run s1 acts) as [[s2 t2]|] eqn:E2; [|discriminate].
    intros [= <- <-]; rewrite app_assoc; replace (n + (zlen acts + 1)) with ((n + 1) + zlen acts) by lia.
    apply (IH (n + 1) s1 (tr ++ t1) t2); auto; [lia | lia | eapply async_step_inv; eauto; lia].
Qed.

Lemma new_inv sink size kinds text : capture_inv 0 (NewAsyncSink sink size kinds text) [].
Proof.
  assert (H : history_ok []) by (split; [intros [|? ?] k c f b [=] | intros [|? ?] k b [=]]).
  constructor; cbn; auto using NoDup_nil_2; try (intros k st E; rewrite lookup_empty in E; discriminate); try exact Logic.I.
  intros k; constructor; cbn; [reflexivity | lia | rewrite lookup_empty; reflexivity].
Qed.

(** ** Order *)

(** The events the queue took and the ones the sink had, in order. *)
Definition accepted (tr : list trace) : list Event := omap (fun x => match x with TOffer e false => Some e | _ => None end) tr.
Definition delivered (tr : list trace) : list Event := omap (fun x => match x with TSink e _ => Some e | _ => None end) tr.

Lemma record_order s e s' r :
  async_Record s e = (s', r) -> as_queue s' = as_queue s ++ match r with Queued => [e] | _ => [] end /\
  (r = ErrQueueFull -> as_cap s <= zlen (as_queue s)) /\ as_cap s' = as_cap s /\
  (zlen (as_queue s) <= as_cap s -> zlen (as_queue s') <= as_cap s).
Proof.
  unfold async_Record; destruct (as_closed s); [intros [= <- <-]; rewrite app_nil_r; split_and!; auto; discriminate|].
  destruct (Z.leb_spec (as_cap s) (zlen (as_queue s))) as [L|L]; destruct (completenessLocked s e); intros [= <- <-]; cbn;
    rewrite ?app_nil_r, ?zlen_app, ?zlen_cons, ?zlen_nil; split_and!; auto; try discriminate; lia.
Qed.

Lemma worker_order s a s' t :
  worker_step s a = Some (s', t) -> as_queue s = delivered t ++ as_queue s' /\ accepted t = [] /\ as_cap s' = as_cap s.
Proof.
  unfold worker_step; destruct (as_worker s) as [|e f|final only|final [|m marks] errs|final m marks errs|errs];
    destruct a as [e0|e0| |fails| | | | |now order|fails| |]; try discriminate; try (intros [= <- <-]; auto; fail).
  - destruct (as_queue s) as [|e q]; [discriminate|]; intros [= <- <-]; auto.
  - destruct (checkpointWake s); [|discriminate]; intros [= <- <-]; auto.
  - destruct (as_queue s) eqn:Q; [|discriminate]; destruct (as_closed s); [|discriminate]; intros [= <- <-]; auto.
  - intros [= <- <-]; unfold count_processed; destruct (as_sessions s !! eventKey e), f; auto.
  - destruct (decide _); [|discriminate]; intros [= <- <-]; auto.
  - destruct (negb (has_sink s)); intros [= <- <-]; auto.
  - intros [= <- <-]; unfold mark_delivered; destruct (as_sessions s !! pm_key m) as [st|]; [destruct (_ =? _); [destruct (SessionEndedObserved _)|]|];
      repeat case_decide; auto.
Qed.

Lemma async_order s a s' t :
  async_step s a = Some (s', t) -> as_queue s ++ accepted t = delivered t ++ as_queue s' /\ as_cap s' = as_cap s /\
  (zlen (as_queue s) <= as_cap s -> zlen (as_queue s') <= as_cap s).
Proof.
  destruct a as [e|e| |fails| | | | |now order|fails| |]; cbn [async_step];
    try (intros E; apply worker_order in E as (-> & -> & Hc); rewrite app_nil_r, zlen_app; pose proof (zlen_nonneg (delivered t)); split_and!; auto; lia).
  - destruct (async_Record s e) as [s1 r] eqn:E; intros [= <- <-]; apply record_order in E as (-> & _ & Hc & Hl); rewrite zlen_app in *.
    destruct r; cbn; auto.
  - intros [= <- <-]; unfold observeLifecycle; destruct (_ || _); [rewrite app_nil_r; auto|]; destruct (completenessLocked s e); cbn; rewrite app_nil_r; auto.
  - intros [= <- <-]; unfold async_Close; destruct (as_closed s); cbn; rewrite app_nil_r; auto.
Qed.

Lemma run_order s acts s' t :
  async_run s acts = Some (s', t) -> as_queue s ++ accepted t = delivered t ++ as_queue s' /\ as_cap s' = as_cap s /\
  (zlen (as_queue s) <= as_cap s -> zlen (as_queue s') <= as_cap s).
Proof.
  revert s t; induction acts as [|a acts IH]; intros s t; cbn [async_run]; [intros [= <- <-]; rewrite app_nil_r; auto|].
  destruct (async_step s a) as [[s1 t1]|] eqn:E1; [|discriminate]; destruct (async_run s1 acts) as [[s2 t2]|] eqn:E2; [|discriminate].
  intros [= <- <-]; destruct (async_order s a s1 t1 E1) as (O1 & O2 & O3); destruct (IH s1 t2 E2) as (P1 & P2 & P3).
  unfold accepted, delivered in *; rewrite !omap_app, app_assoc, O1, <- app_assoc, P1, app_assoc, <- app_assoc; rewrite O2 in *; auto.
Qed.

(** ** Numbering *)

(** The filter on a sequence of events. *)
Fixpoint filter_run (f : FilteredSink) (es : list Event) : list passed :=
  match es with
  | [] => []
  | e :: es => let '(f, p) := filter_Record f e in p :: filter_run f es
  end.

Definition forwarded (k : sessionIdentity) (ps : list passed) : list Z :=
  omap (fun p => match p with Forward e => if bool_decide (eventKey e = k) then Some (ev_Sequence e) else None | Observe _ => None end) ps.

(** Consecutive 64-bit numbers after [n]. *)
Fixpoint counting (n : Z) (l : list Z) : Prop :=
  match l with [] => True | x :: l => x = u64 (n + 1) /\ counting x l end.

(** Between the lifecycle events of a session, the events it passes on are numbered
    consecutively, whatever other sessions do. *)
Lemma filter_numbers f es k :
  allowed f <> [] ->
  Forall (fun e => eventKey e = k -> ev_Kind e <> EventSessionStarted /\ ev_Kind e <> EventSessionEnded) es ->
  counting (default 0 (sequence f !! k)) (forwarded k (filter_run f es)).
Proof.
  revert f; induction es as [|e es IH]; intros f Hf H; cbn [filter_run]; [exact Logic.I|].
  inversion H as [|? ? He Hes]; subst; destruct (filter_Record f e) as [f' p] eqn:E.
  unfold filter_Record in E; destruct (allowed f) as [|k0 ks] eqn:Ea; [congruence|].
  destruct (decide (eventKey e = k)) as [Ek|Ek].
  - destruct (He Ek) as [N1 N2]; destruct (decide (ev_Kind e = EventSessionStarted)); [contradiction|].
    destruct (decide (ev_Kind e = EventSessionEnded)); [contradiction|]; rewrite Ek in E.
    destruct (decide (ev_Kind e ∈ k0 :: ks)); injection E as <- <-.
    + specialize (IH (MkFiltered (k0 :: ks) (<[k := u64 (default 0 (sequence f !! k) + 1)]> (sequence f)))); cbn in IH.
      rewrite lookup_insert_eq in IH; unfold forwarded in *; cbn; rewrite bool_decide_true by (unfold eventKey; cbn; exact Ek).
      cbn; split; [reflexivity | apply IH; [discriminate | exact Hes]].
    + apply (IH (MkFiltered (k0 :: ks) (sequence f))); [discriminate | exact Hes].
  - assert (S : sequence f' !! k = sequence f !! k /\ allowed f' = k0 :: ks /\ forwarded k [p] = []).
    { repeat case_decide; injection E as <- <-; cbn; rewrite ?lookup_insert_ne, ?lookup_delete_ne by congruence; split_and!; auto;
        rewrite ?bool_decide_false by (unfold eventKey in *; cbn; exact Ek); try reflexivity; rewrite ?lookup_insert_ne, ?lookup_delete_ne by congruence; reflexivity. }
    destruct S as (S1 & S2 & S3); change (p :: filter_run f' es) with ([p] ++ filter_run f' es).
    unfold forwarded in *; rewrite omap_app, S3; cbn; rewrite <- S1; apply IH; [congruence | exact Hes].
Qed.

(** ** Theorems *)

(** C21. The completeness record of a session is exact.  Whatever recorders and the
    worker do, in any interleaving, and wherever the sink fails: a checkpoint
    handed to the sink states the events of the session offered, dropped by the
    queue and failed in the sink, as they were when the worker read the account
    and all that was not dropped had been handed to the sink, and nothing of the
    session was handed to it since.  An account is closed only after the sink took
    a checkpoint of its final state.  When a closed collector has finished without
    an error, every session with events has had such a checkpoint of everything.
    (The collector offers no checkpoint events itself and takes fewer than 2^64
    steps.) *)
Theorem capture_accounts sink size kinds text acts s tr :
  forallb proper_action acts = true -> zlen acts < two64 ->
  async_run (NewAsyncSink sink size kinds text) acts = Some (s, tr) ->
  (forall a k c f b, tr = a ++ TMark k c f :: b -> truthful k c a) /\
  (forall a k b, tr = a ++ TForget k :: b -> exists c, taken k a = Some c /\ tells c (tally_of k a)) /\
  (as_worker s = Done false -> has_sink s = true -> forall k,
     t_offered (tally_of k tr) = 0 \/ exists c, taken k tr = Some c /\ tells c (tally_of k tr)).
Proof.
  intros Hp Hb Hr; destruct (async_run_inv 0 _ [] acts s tr ltac:(lia) ltac:(lia) (new_inv sink size kinds text) Hp Hr) as [B M K Ts F Ki N [H1 H2]].
  cbn [app] in *; split_and!; auto; intros W Hs k; destruct (B k) as [_ _ B3]; destruct (as_sessions s !! k) as [st|] eqn:S; [right | left; exact B3].
  unfold final_ok in F; rewrite W in F; destruct F as (_ & _ & F); destruct B3 as [_ _ _ _ _ A6]; eauto.
Qed.

(** Events reach the sink in the order in which the queue took them, none twice and
    none left out: at any time, the events taken are those handed to the sink
    followed by those in the queue, which never exceeds its capacity; an event is
    refused only when the queue is full or closed. *)
Theorem capture_in_order sink size kinds text acts s tr :
  async_run (NewAsyncSink sink size kinds text) acts = Some (s, tr) ->
  accepted tr = delivered tr ++ as_queue s /\ zlen (as_queue s) <= (if size <=? 0 then 1024 else size) /\
  forall e s' r, async_Record s e = (s', r) ->
    match r with Queued => as_queue s' = as_queue s ++ [e] | ErrQueueFull => zlen (as_queue s) = as_cap s | ErrSinkClosed => as_closed s = true end.
Proof.
  intros Hr; destruct (run_order _ _ _ _ Hr) as (O1 & O2 & O3).
  assert (L : zlen (as_queue s) <= if size <=? 0 then 1024 else size).
  { unfold NewAsyncSink in *; cbn [as_queue as_cap] in *; apply O3; rewrite zlen_nil; destruct (Z.leb_spec size 0); lia. }
  cbn in O1, O2; split_and!; [exact O1 | exact L|]; intros e s' r E.
  destruct (record_order s e s' r E) as (R1 & R2 & _); destruct r; [exact R1 | specialize (R2 eq_refl); rewrite O2 in *; lia|].
  unfold async_Record in E; destruct (as_closed s); [reflexivity|]; destruct (as_cap s <=? _); discriminate.
Qed.

(** ** Witnesses *)

Definition sample_event (kind : EventKind) : Event :=
  MkEvent 2 0 "host" "ann" "s1" "proj" "claude" kind 1 "" [] None None None.

Definition sample_key : sessionIdentity := ("host"%string, "s1"%string).

(** A queue of one: the second event is dropped, the third fails in the sink. *)
Definition sample_capture : list action :=
  [ARecord (sample_event EventSessionStarted); ARecord (sample_event EventProviderOutput);
   ATake false; ACount; ASelect 1 [sample_key]; AFlushed;
   ARecord (sample_event EventSessionEnded); AClose; ATake true; ACount; ASelect 2 [sample_key]; ASend false; ADelivered; AFlushed;
   AEnd; ASelect 3 []; AFlushed].

Lemma capture_accounts_witness :
  match async_run (NewAsyncSink true 1 [] false) sample_capture with
  | Some (s, tr) =>
      map (fun x => match x with TMark _ c _ => [AttemptedEvents c; QueueDroppedEvents c; SinkFailedEvents c] | _ => [] end) tr =
        [[]; []; []; []; []; [3; 1; 1]; []] /\
      (forall k, t_offered (tally_of k tr) = 0 \/ exists c, taken k tr = Some c /\ tells c (tally_of k tr))
  | None => False
  end.
Proof.
  destruct (async_run (NewAsyncSink true 1 [] false) sample_capture) as [[s tr]|] eqn:E; [|vm_compute in E; discriminate].
  split; [vm_compute in E; injection E as _ <-; vm_compute; reflexivity|].
  apply (capture_accounts true 1 [] false sample_capture s tr); [reflexivity | vm_compute; reflexivity | exact E | |];
    vm_compute in E; injection E as <- _; reflexivity.
Defined.

Lemma capture_in_order_witness :
  match async_run (NewAsyncSink true 1 [] false) sample_capture with
  | Some (s, tr) => accepted tr = delivered tr ++ as_queue s /\ delivered tr = [sample_event EventSessionStarted; sample_event EventSessionEnded]
  | None => False
  end.
Proof.
  destruct (async_run (NewAsyncSink true 1 [] false) sample_capture) as [[s tr]|] eqn:E; [|vm_compute in E; discriminate].
  split; [apply (capture_in_order true 1 [] false sample_capture s tr E) | vm_compute in E; injection E as _ <-; reflexivity].
Defined.
