(* ===== verification/ClientLib.v ===== *)
(** * Client library: pkg/bridgeclient

    Typed calls with retries, credentials that renew themselves, the mapping of
    status codes, and an output stream that resumes at a saved cursor.  The calls
    themselves are answered by the world; the stream receives what the attach
    stream of the daemon (AttachStream) sends. *)

From S2P Require Import Prelude Types ByteBuf GoStd Session Server Auth AttachStream Control.

(** ** Errors (errors.go) *)

(** Status codes as a client sees them: those of the daemon and of the transport. *)
Inductive grpc_code := FromServer (c : code) | DeadlineExceeded | OtherCode.

(** [Status c msg]: an error with a status; [Plain msg]: another one. *)
Inductive rpc_error := Status (c : grpc_code) (msg : string) | Plain (msg : string).

Module SDK.
Inductive error :=
| ErrSessionNotFound | ErrSessionAlreadyExists | ErrProviderUnavailable | ErrUnauthorized | ErrPermissionDenied
| ErrInputTooLarge | ErrSessionLimitReached | ErrRateLimited
| Passed (e : rpc_error).
End SDK.

Fixpoint contains (sub s : list Z) : bool :=
  has_prefix sub s || match s with [] => false | _ :: s => contains sub s end.

Definition mapError (err : rpc_error) : SDK.error :=
  match err with
  | Status (FromServer NotFound) _ => SDK.ErrSessionNotFound
  | Status (FromServer AlreadyExists) _ => SDK.ErrSessionAlreadyExists
  | Status (FromServer Unauthenticated) _ => SDK.ErrUnauthorized
  | Status (FromServer PermissionDenied) _ => SDK.ErrPermissionDenied
  | Status (FromServer ResourceExhausted) msg =>
      if contains (chars "rate limit") (map lower (chars msg)) then SDK.ErrRateLimited else SDK.ErrSessionLimitReached
  | _ => SDK.Passed err
  end.

(** ** Retries (client.go, retry.go) *)

Record RetryConfig := MkRetry { MaxAttempts : Z; InitialBackoff : Duration; MaxBackoff : Duration }.

(** The defaults [New] fills in. *)
Definition retry_defaults (r : RetryConfig) : RetryConfig :=
  MkRetry (if MaxAttempts r <=? 0 then 1 else MaxAttempts r)
    (if InitialBackoff r <=? 0 then 100 * Millisecond else InitialBackoff r)
    (if MaxBackoff r <=? 0 then 2 * Second else MaxBackoff r).

Definition shouldRetry (err : rpc_error) : bool :=
  match err with Status (FromServer Unavailable) _ | Status DeadlineExceeded _ => true | _ => false end.

Inductive invoked := Success | Failure (e : SDK.error) | ContextDone.

(** The loop of [invoke] from one attempt on: [left] attempts may still be made;
    [call n] answers the [n]th call, [cancelled n]: the context ends in the wait
    after it.  The result, the number of calls and the waits. *)
Fixpoint invoke_loop (max : Duration) (call : nat -> option rpc_error) (cancelled : nat -> bool)
    (left n : nat) (backoff : Duration) : invoked * nat * list Duration :=
  match left with
  | O => (Success, n, []) (* not reached: [left] is positive *)
  | Datatypes.S left' =>
      match call n with
      | None => (Success, Datatypes.S n, [])
      | Some err =>
          if negb (shouldRetry err) || (left' =? 0)%nat then (Failure (mapError err), Datatypes.S n, [])
          else if cancelled n then (ContextDone, Datatypes.S n, [])
          else
            let next := i64 (backoff * 2) in
            let '(r, calls, waits) := invoke_loop max call cancelled left' (Datatypes.S n) (if max <? next then max else next) in
            (r, calls, backoff :: waits)
      end
  end.

Definition invoke (cfg : RetryConfig) (call : nat -> option rpc_error) (cancelled : nat -> bool) : invoked * nat * list Duration :=
  invoke_loop (MaxBackoff cfg) call cancelled (Z.to_nat (MaxAttempts cfg)) 0 (InitialBackoff cfg).

(** ** Cursors (cursor_store.go) *)

Definition cursorKey (sessionID subscriberID : string) : string := sessionID +:+ ":" +:+ subscriberID.

Abbreviation MemoryCursorStore := (gmap string Z).

Definition memory_LoadCursor (s : MemoryCursorStore) (session subscriber : string) : Z := default 0 (s !! cursorKey session subscriber).
Definition memory_SaveCursor (s : MemoryCursorStore) (session subscriber : string) (seq : Z) : MemoryCursorStore :=
  <[cursorKey session subscriber := seq]> s.

(** The cursor file: absent, unreadable as a whole, without contents, not JSON, or a map. *)
Inductive cursor_file := NoFile | Unreadable | EmptyFile | NotJSON | Cursors (m : gmap string Z).

(** [os.WriteFile] cuts the file first: how far a save gets. *)
Inductive save_end := NoDirectory | CutShort | HalfWritten | Saved.

Definition read_cursors (f : cursor_file) : string + gmap string Z :=
  match f with
  | NoFile | EmptyFile => inr ∅
  | Unreadable => inl "load cursor file"%string
  | NotJSON => inl "parse cursor file"%string
  | Cursors m => inr m
  end.

Definition file_LoadCursor (f : cursor_file) (session subscriber : string) : string + Z :=
  match read_cursors f with
  | inl e => inl e
  | inr all => inr (default 0 (all !! cursorKey session subscriber))
  end.

Definition file_SaveCursor (f : cursor_file) (session subscriber : string) (seq : Z) (w : save_end) : cursor_file * bool :=
  match read_cursors f with
  | inl _ => (f, false)
  | inr all =>
      match w with
      | NoDirectory => (f, false)
      | CutShort => (EmptyFile, false)
      | HalfWritten => (NotJSON, false)
      | Saved => (Cursors (<[cursorKey session subscriber := seq]> all), true)
      end
  end.

(** ** Output streams (events.go) *)

Record OutputStream := MkOutput { os_session : string; os_client : string; os_afterSeq : Z }.

(** [AttachSession] with a file store; [fresh] is the generated client identifier. *)
Definition AttachSession (f : cursor_file) (session client fresh : string) (afterSeq : Z) : OutputStream :=
  let client := if str_eqb client "" then fresh else client in
  let after := if afterSeq =? 0 then
                 match file_LoadCursor f session client with
                 | inr saved => if 0 <? saved then saved else afterSeq
                 | inl _ => afterSeq
                 end
               else afterSeq in
  MkOutput session client after.

(** How the events end: the stream was closed, or it failed. *)
Inductive recv_end := EOF | StreamError.
Inductive received := RecvDone | RecvFailed | CallbackFailed.

(** The loop of [RecvAll] over the events that arrive; [callback e]: it returns nil;
    [w e]: how the save for an event ends.  The third component is what was handed
    to the callback. *)
Fixpoint recv_loop (s : OutputStream) (f : cursor_file) (evs : list AttachSessionEvent) (fin : recv_end)
    (callback : AttachSessionEvent -> bool) (w : AttachSessionEvent -> save_end)
    : OutputStream * cursor_file * list AttachSessionEvent * received :=
  match evs with
  | [] => (s, f, [], match fin with EOF => RecvDone | StreamError => RecvFailed end)
  | ev :: evs =>
      let '(s, f) := if os_afterSeq s <? ae_Seq ev
                     then (MkOutput (os_session s) (os_client s) (ae_Seq ev), (file_SaveCursor f (os_session s) (os_client s) (ae_Seq ev) (w ev)).1)
                     else (s, f) in
      if callback ev then
        let '(s, f, handed, r) := recv_loop s f evs fin callback w in (s, f, ev :: handed, r)
      else (s, f, [ev], CallbackFailed)
  end.

(** ** Credentials (auth.go) *)

Section Credentials.
Context `{J : JWT}.

Record jwtCredentials := MkCredentials {
  jc_issuer : JWTIssuer;
  jc_token : option (list Z);
  jc_expiresAt : Time;
  jc_projectID : string;
  jc_subject : string;
}.

Definition newJWTCredentials (issuer audience : string) (key : PrivateKey) (ttl : Duration) : jwtCredentials :=
  MkCredentials (MkIssuer issuer audience key (if ttl =? 0 then 5 * Minute else ttl)) None 0 "" issuer.

Definition SetProject (j : jwtCredentials) (projectID : string) : jwtCredentials :=
  if str_eqb (jc_projectID j) projectID then j
  else MkCredentials (jc_issuer j) None (jc_expiresAt j) projectID (jc_subject j).

(** [GetRequestMetadata]; the three times are those of its calls of [time.Now]. *)
Definition GetRequestMetadata (j : jwtCredentials) (now mint after : Time) : jwtCredentials * (string + list Z) :=
  let renew :=
    match Mint (jc_issuer j) (jc_subject j) (jc_projectID j) mint with
    | inl e => (j, inl e)
    | inr tok => (MkCredentials (jc_issuer j) (Some tok) (after + ji_TTL (jc_issuer j)) (jc_projectID j) (jc_subject j), inr tok)
    end in
  match jc_token j with
  | None => renew
  | Some tok => if jc_expiresAt j - 30 * Second <? now then renew else (j, inr tok)
  end.

End Credentials.

(** ** Retries *)

Lemma i64_double b : 0 <= b < 4611686018427387904 -> i64 (b * 2) = b * 2.
Proof. intros H; unfold i64, two64; rewrite Z.mod_small by lia; lia. Qed.

(** What [invoke_loop] does with [left] attempts from call [n] on. *)
Definition invoked_well (max : Duration) (call : nat -> option rpc_error) (cancelled : nat -> bool) (left n : nat) (top : Duration)
    (res : invoked * nat * list Duration) : Prop :=
  let '(r, calls, waits) := res in
  (n < calls <= n + left)%nat /\
  (forall k, (n <= k)%nat -> (k < calls - 1)%nat -> exists err, call k = Some err /\ shouldRetry err = true /\ cancelled k = false) /\
  (length waits = calls - 1 - n)%nat /\ Forall (fun w => 0 < w <= top) waits /\
  match r with
  | Success => call (calls - 1)%nat = None
  | Failure e => exists err, call (calls - 1)%nat = Some err /\ e = mapError err /\ (shouldRetry err = false \/ (calls = n + left)%nat)
  | ContextDone => cancelled (calls - 1)%nat = true /\ exists err, call (calls - 1)%nat = Some err /\ shouldRetry err = true
  end.

Lemma invoke_loop_ok max call cancelled left n backoff top :
  (0 < left)%nat -> 0 < max <= top -> 0 < backoff <= top -> top < 4611686018427387904 ->
  invoked_well max call cancelled left n top (invoke_loop max call cancelled left n backoff).
Proof.
  revert n backoff; induction left as [|left IH]; intros n backoff Hl Hm Hb Ht; [lia|]; cbn [invoke_loop].
  destruct (call n) as [err|] eqn:Ec.
  2: { cbn; replace (n - 0)%nat with n by lia; split_and!; auto; intros; lia. }
  destruct (negb (shouldRetry err) || (left =? 0)%nat) eqn:Es.
  { cbn; replace (n - 0)%nat with n by lia; split_and!; auto; try (intros; lia); exists err; split_and!; auto.
    apply orb_true_iff in Es as [Es|Es]; [left; apply negb_true_iff, Es | right; apply Nat.eqb_eq in Es; lia]. }
  apply orb_false_iff in Es as [Es El]; apply negb_false_iff in Es; apply Nat.eqb_neq in El.
  destruct (cancelled n) eqn:Ed.
  { cbn; replace (n - 0)%nat with n by lia; split_and!; auto; try (intros; lia); eauto. }
  rewrite i64_double by lia; set (b' := if _ <? _ then _ else _).
  assert (Hb' : 0 < b' <= top) by (unfold b'; destruct (Z.ltb_spec max (backoff * 2)); lia).
  specialize (IH (Datatypes.S n) b' ltac:(lia) Hm Hb' Ht); destruct (invoke_loop _ _ _ _ _ _) as [[r calls] waits].
  destruct IH as (H1 & H2 & H3 & H4 & H5); cbn; split_and!; auto; try lia.
  - intros k Hk Hk'; destruct (decide (k = n)) as [->|]; [eauto | apply H2; lia].
  - destruct r; auto; destruct H5 as (err' & E1 & E2 & [E3|E3]); exists err'; split_and!; auto; right; lia.
Qed.

(** ** Receiving *)

(** Events other than output carry no number. *)
Definition unnumbered (e : AttachSessionEvent) : bool := is_data e || (ae_Seq e =? 0).

Lemma recv_consecutive s f evs fin callback w :
  0 <= os_afterSeq s -> forallb unnumbered evs = true -> consecutive (os_afterSeq s + 1) (data evs) ->
  let '(s', f', handed, r) := recv_loop s f evs fin callback w in
  handed `prefix_of` evs /\ consecutive (os_afterSeq s + 1) (data handed) /\ os_afterSeq s' = os_afterSeq s + zlen (data handed) /\
  os_session s' = os_session s /\ os_client s' = os_client s /\ (r <> CallbackFailed -> handed = evs).
Proof.
  revert s f; induction evs as [|ev evs IH]; intros s f Hs Hu Hc; cbn [recv_loop].
  { unfold data; cbn; rewrite zlen_nil; split_and!; auto; try lia; reflexivity. }
  cbn in Hu; apply andb_true_iff in Hu as [Hu Hu'].
  set (next := if os_afterSeq s <? ae_Seq ev then _ else _).
  assert (N : exists f1, next = (MkOutput (os_session s) (os_client s) (os_afterSeq s + zlen (data [ev])), f1) /\
    consecutive (os_afterSeq s + zlen (data [ev]) + 1) (data evs) /\ consecutive (os_afterSeq s + 1) (data [ev])).
  { unfold next, unnumbered in *; unfold data in *; cbn in Hc |- *; destruct (is_data ev) eqn:Ed; cbn in *.
    - destruct Hc as [E1 E2]; change (zlen [ev]) with 1; rewrite E1, (proj2 (Z.ltb_lt _ _)) by lia.
      eexists; split; [reflexivity|]; auto.
    - apply Z.eqb_eq in Hu; rewrite Hu, (proj2 (Z.ltb_ge _ _)) by lia; change (zlen (@nil AttachSessionEvent)) with 0.
      rewrite Z.add_0_r; exists f; destruct s; auto. }
  destruct N as (f1 & -> & N1 & N2); destruct (callback ev).
  - specialize (IH (MkOutput (os_session s) (os_client s) (os_afterSeq s + zlen (data [ev]))) f1); cbn [os_afterSeq os_session os_client] in IH.
    destruct (recv_loop _ _ evs fin callback w) as [[[s' f'] handed] r]; destruct IH as (H1 & H2 & H3 & H4 & H5 & H6); auto.
    { pose proof (zlen_nonneg (data [ev])); lia. }
    change (ev :: handed) with ([ev] ++ handed); rewrite data_app, zlen_app; split_and!; auto.
    + apply prefix_cons, H1.
    + apply consecutive_app; split; [exact N2|]; replace (os_afterSeq s + 1 + zlen (data [ev])) with (os_afterSeq s + zlen (data [ev]) + 1) by lia; exact H2.
    + rewrite H3; lia.
    + intros Hr; rewrite H6; auto.
  - split_and!; auto; [exists evs; reflexivity | congruence].
Qed.

(** A callback that accepts everything is handed everything. *)
Lemma recv_accepted s f evs fin callback w :
  forallb callback evs = true -> (recv_loop s f evs fin callback w).1.2 = evs.
Proof.
  revert s f; induction evs as [|ev evs IH]; intros s f H; cbn in *; [reflexivity|]; apply andb_true_iff in H as [H H'].
  destruct (if os_afterSeq s <? ae_Seq ev then _ else _) as [s1 f1]; rewrite H; specialize (IH s1 f1 H').
  destruct (recv_loop s1 f1 evs fin callback w) as [[[s2 f2] handed] r]; cbn in *; congruence.
Qed.

(** The file holds the stream's cursor when every save works. *)
Lemma recv_saved s f evs fin callback w m :
  f = Cursors m -> default 0 (m !! cursorKey (os_session s) (os_client s)) = os_afterSeq s -> (forall e, w e = Saved) ->
  let '(s', f', handed, r) := recv_loop s f evs fin callback w in
  exists m', f' = Cursors m' /\ default 0 (m' !! cursorKey (os_session s) (os_client s)) = os_afterSeq s' /\
    forall k, k <> cursorKey (os_session s) (os_client s) -> m' !! k = m !! k.
Proof.
  revert s f m; induction evs as [|ev evs IH]; intros s f m -> Hm Hw; cbn [recv_loop]; [eauto|].
  set (next := if os_afterSeq s <? ae_Seq ev then _ else _).
  assert (N : exists s1 m1, next = (s1, Cursors m1) /\ os_session s1 = os_session s /\ os_client s1 = os_client s /\
    default 0 (m1 !! cursorKey (os_session s) (os_client s)) = os_afterSeq s1 /\ forall k, k <> cursorKey (os_session s) (os_client s) -> m1 !! k = m !! k).
  { unfold next; destruct (os_afterSeq s <? ae_Seq ev); [|exists s, m; auto]; cbn; rewrite Hw; cbn; do 2 eexists; split; [reflexivity|].
    cbn; rewrite lookup_insert_eq; split_and!; auto; intros k Hk; apply lookup_insert_ne; congruence. }
  destruct N as (s1 & m1 & -> & N1 & N2 & N3 & N4); destruct (callback ev); [|eauto].
  specialize (IH s1 (Cursors m1) m1 eq_refl); rewrite N1, N2 in IH; specialize (IH N3 Hw).
  destruct (recv_loop s1 _ evs fin callback w) as [[[s' f'] handed] r]; destruct IH as (m' & H1 & H2 & H3).
  exists m'; split_and!; auto; intros k Hk; rewrite H3, N4; auto.
Qed.

(** One connection: what the daemon sent, how much of it arrived, how it ended and
    what the callback said. *)
Record connection := MkConn {
  cn_state : AttachState;
  cn_sent : list AttachSessionEvent;
  cn_last : Z;
  cn_arrived : nat;
  cn_fin : recv_end;
  cn_callback : AttachSessionEvent -> bool;
}.

Definition arrived (c : connection) : list AttachSessionEvent := take (cn_arrived c) (cn_sent c).

(** A subscriber that attaches again whenever its stream has ended, with a cursor
    file whose writes work: everything handed to its callback, and the file. *)
Fixpoint resume (f : cursor_file) (session client : string) (conns : list connection) : list AttachSessionEvent * cursor_file :=
  match conns with
  | [] => ([], f)
  | c :: conns =>
      let '(_, f, handed, _) := recv_loop (AttachSession f session client "" 0) f (arrived c) (cn_fin c) (cn_callback c) (fun _ => Saved) in
      let '(rest, f) := resume f session client conns in (handed ++ rest, f)
  end.

(** Each time the daemon streams in order from the cursor it was asked for, as it
    does for a session numbered without holes, and without a gap event. *)
Fixpoint served (f : cursor_file) (session client : string) (conns : list connection) : Prop :=
  match conns with
  | [] => True
  | c :: conns =>
      in_order (fun _ => False) (os_afterSeq (AttachSession f session client "" 0)) (cn_state c) (cn_sent c) (cn_last c) /\
      existsb is_gap (cn_sent c) = false /\ forallb unnumbered (cn_sent c) = true /\
      served (recv_loop (AttachSession f session client "" 0) f (arrived c) (cn_fin c) (cn_callback c) (fun _ => Saved)).1.1.2
        session client conns
  end.

Lemma attach_cursor m session client :
  client <> ""%string -> 0 <= default 0 (m !! cursorKey session client) ->
  AttachSession (Cursors m) session client "" 0 = MkOutput session client (default 0 (m !! cursorKey session client)).
Proof.
  intros Hc H; unfold AttachSession, file_LoadCursor; cbn; rewrite (proj2 (str_eqb_neq client "") Hc).
  destruct (Z.ltb_spec 0 (default 0 (m !! cursorKey session client))); f_equal; lia.
Qed.

Lemma data_take n sent k : consecutive n (data sent) -> consecutive n (data (take k sent)).
Proof. intros H; pose proof (take_drop k sent) as E; rewrite <- E in H; rewrite data_app in H; apply consecutive_app in H; tauto. Qed.

Lemma in_order_plain after st sent last :
  in_order (fun _ => False) after st sent last -> existsb is_gap sent = false -> consecutive (after + 1) (data sent).
Proof.
  intros [(_ & H & _)|(a & g & b & q & -> & Hg & _)] Hn; [apply run_from_consecutive, H|]; rewrite existsb_app in Hn; cbn in Hn; rewrite Hg in Hn.
  apply orb_false_iff in Hn as [_ Hn]; discriminate.
Qed.

Lemma consecutive_in_order after st sent last :
  existsb is_gap sent = false -> consecutive (after + 1) (data sent) -> last = after + zlen (data sent) ->
  in_order (fun _ => False) after st sent last.
Proof.
  intros Hg Hc ->; left; split; [exact Hg|]; clear Hg; revert after Hc; unfold data; induction (List.filter is_data sent) as [|e es IH]; intros after Hc.
  { cbn; rewrite zlen_nil; split; [exact Logic.I | lia]. }
  destruct Hc as [He Hc]; rewrite zlen_cons; cbn [run_from run_end]; rewrite He; destruct (IH (after + 1) Hc) as [I1 I2].
  split_and!; try lia; exact I1.
Qed.

Lemma forallb_take {A} (p : A -> bool) k l : forallb p l = true -> forallb p (take k l) = true.
Proof. intros H; pose proof (take_drop k l) as E; rewrite <- E in H; rewrite forallb_app in H; apply andb_true_iff in H; tauto. Qed.

(** ** Credentials *)

Section Renewal.
Context `{JL : JWTLaws}.

(** A call of [GetRequestMetadata] reads the clock up to three times. *)
Inductive cred_event := CSet (projectID : string) | CGet (now mint after : Time).

Definition cred_step (j : jwtCredentials) (ev : cred_event) : jwtCredentials :=
  match ev with
  | CSet p => SetProject j p
  | CGet now mint after => (GetRequestMetadata j now mint after).1
  end.

(** The clock does not go back, and minting takes less than a second. *)
Fixpoint timely (t : Time) (evs : list cred_event) : bool :=
  match evs with
  | [] => true
  | CSet _ :: evs => timely t evs
  | CGet now mint after :: evs => (t <=? now) && (now <=? mint) && (mint <=? after) && (after <=? now + Second) && timely after evs
  end.

(** The token at hand was minted for the project at hand, not after [t]. *)
Definition cred_ok (t : Time) (j0 j : jwtCredentials) : Prop :=
  jc_issuer j = jc_issuer j0 /\ jc_subject j = jc_subject j0 /\
  forall tok, jc_token j = Some tok -> exists m, Mint (jc_issuer j0) (jc_subject j0) (jc_projectID j) m = inr tok /\ m <= t /\
    jc_expiresAt j <= m + Second + ji_TTL (jc_issuer j0).

Lemma cred_get t j0 j now mint after :
  cred_ok t j0 j -> t <= now -> now <= mint -> mint <= after -> after <= now + Second ->
  let '(j', r) := GetRequestMetadata j now mint after in
  cred_ok after j0 j' /\ jc_projectID j' = jc_projectID j /\
  forall tok, r = inr tok -> exists m, Mint (jc_issuer j0) (jc_subject j0) (jc_projectID j) m = inr tok /\ m <= after /\
    (now <= m \/ now + 30 * Second <= m + Second + ji_TTL (jc_issuer j0)).
Proof.
  intros (H1 & H2 & H3) T1 T2 T3 T4; unfold GetRequestMetadata.
  assert (Renew : let '(j', r) := match Mint (jc_issuer j) (jc_subject j) (jc_projectID j) mint with
      | inl e => (j, inl e)
      | inr tok => (MkCredentials (jc_issuer j) (Some tok) (after + ji_TTL (jc_issuer j)) (jc_projectID j) (jc_subject j), inr tok)
      end in
    cred_ok after j0 j' /\ jc_projectID j' = jc_projectID j /\
    forall tok, r = inr tok -> exists m, Mint (jc_issuer j0) (jc_subject j0) (jc_projectID j) m = inr tok /\ m <= after /\
      (now <= m \/ now + 30 * Second <= m + Second + ji_TTL (jc_issuer j0))).
  { rewrite H1, H2; destruct (Mint _ _ _ mint) as [e|tok] eqn:Em; split_and!; auto; try discriminate.
    - split_and!; auto; intros tok Ht; destruct (H3 tok Ht) as (m & M1 & M2 & M3); exists m; split_and!; auto; lia.
    - split_and!; cbn; auto; intros tok' [= <-]; exists mint; split_and!; auto; lia.
    - intros tok' [= <-]; exists mint; split_and!; auto; lia. }
  destruct (jc_token j) as [tok|] eqn:Et; [|exact Renew]; destruct (Z.ltb_spec (jc_expiresAt j - 30 * Second) now) as [L|L]; [exact Renew|].
  destruct (H3 tok eq_refl) as (m & M1 & M2 & M3); split_and!; auto.
  - split_and!; auto; intros tok'; rewrite Et; intros [= <-]; exists m; split_and!; auto; lia.
  - intros tok' [= <-]; exists m; split_and!; auto; [lia | right; lia].
Qed.

Lemma cred_set t j0 j p : cred_ok t j0 j -> cred_ok t j0 (SetProject j p).
Proof.
  intros (H1 & H2 & H3); unfold SetProject; destruct (str_eqb (jc_projectID j) p); [split_and!; auto|]; split_and!; cbn; auto; discriminate.
Qed.

Lemma cred_run t j0 j evs : cred_ok t j0 j -> timely t evs = true -> exists t', cred_ok t' j0 (foldl cred_step j evs) /\
  forall more, timely t (evs ++ more) = true -> timely t' more = true.
Proof.
  revert t j; induction evs as [|[p|now mint after] evs IH]; intros t j Hj Ht; cbn [foldl timely app cred_step] in *; [eauto|eauto using cred_set|].
  repeat (apply andb_true_iff in Ht as [Ht ?]); bool_to_prop.
  pose proof (cred_get t j0 j now mint after Hj ltac:(lia) ltac:(lia) ltac:(lia) ltac:(lia)) as G.
  destruct (GetRequestMetadata j now mint after) as [j' r]; destruct G as (G & _); cbn.
  destruct (IH after j' G ltac:(assumption)) as (t' & K1 & K2); exists t'; split; [exact K1|].
  intros more Hm; apply K2; repeat (apply andb_true_iff in Hm as [Hm ?]); assumption.
Qed.

End Renewal.

(** ** Theorems *)

(** C22. A subscriber with a non-empty client identifier and a cursor file whose
    writes all work attaches again each time its stream ends, wherever the
    connection broke between two events; each time the daemon streams from the
    cursor it is asked for, numbered without a hole and without a gap event, and
    every callback returns nil. Then the callback is handed exactly what arrived;
    the output events handed over, in all connections, are numbered consecutively
    from the first cursor on, none lost and none twice, and the file holds the
    number of the last one. Excluded is an event whose callback fails, or before
    whose callback the client stops: its number is saved first, so it is not
    handed over again (see findings). *)
Theorem resume_exactly_once (m : gmap string Z) (session client : string) (conns : list connection) :
  client <> ""%string -> 0 <= default 0 (m !! cursorKey session client) -> served (Cursors m) session client conns ->
  Forall (fun c => forallb (cn_callback c) (arrived c) = true) conns ->
  let '(handed, f) := resume (Cursors m) session client conns in
  handed = concat (map arrived conns) /\
  consecutive (default 0 (m !! cursorKey session client) + 1) (data handed) /\
  exists m', f = Cursors m' /\ default 0 (m' !! cursorKey session client) = default 0 (m !! cursorKey session client) + zlen (data handed).
Proof.
  revert m; induction conns as [|c conns IH]; intros m Hc Hm Hs Hf; cbn [resume served map concat] in *.
  { split_and!; [reflexivity | exact Logic.I|]; exists m; split; [reflexivity|]; unfold data, zlen; cbn; lia. }
  inversion Hf as [|? ? Hc0 Hcs]; subst.
  rewrite (attach_cursor m session client Hc Hm) in *; destruct Hs as (H1 & H2 & H3 & H4); cbn [os_afterSeq] in H1.
  set (s := MkOutput session client _) in *.
  pose proof (recv_consecutive s (Cursors m) (arrived c) (cn_fin c) (cn_callback c) (fun _ => Saved) Hm (forallb_take _ _ _ H3)
    (data_take _ _ _ (in_order_plain _ _ _ _ H1 H2))) as R1.
  pose proof (recv_saved s (Cursors m) (arrived c) (cn_fin c) (cn_callback c) (fun _ => Saved) m eq_refl eq_refl (fun _ => eq_refl)) as R2.
  pose proof (recv_accepted s (Cursors m) (arrived c) (cn_fin c) (cn_callback c) (fun _ => Saved) Hc0) as R0.
  destruct (recv_loop s (Cursors m) (arrived c) _ _ _) as [[[s' f'] handed] r]; cbn in H4, R0; subst handed; destruct R1 as (_ & R3 & R4 & _).
  destruct R2 as (m' & -> & R5 & _); cbn in R4, R5; specialize (IH m' Hc).
  pose proof (zlen_nonneg (data (arrived c))) as Hz; rewrite R5, R4 in IH; specialize (IH ltac:(lia) H4 Hcs).
  destruct (resume (Cursors m') session client conns) as [rest f2]; destruct IH as (-> & I1 & m2 & -> & I2).
  rewrite data_app, zlen_app; split_and!; [reflexivity| |].
  - apply consecutive_app; split; [exact R3|]; replace (default 0 (m !! cursorKey session client) + 1 + zlen (data (arrived c)))
      with (default 0 (m !! cursorKey session client) + zlen (data (arrived c)) + 1) by lia; exact I1.
  - exists m2; split; [reflexivity | rewrite I2; lia].
Qed.

(** Retries are bounded and honest.  A call makes at least one and at most
    [MaxAttempts] attempts, tries again only after an error that says the daemon was
    unavailable or the deadline passed, waits at most the larger of the two configured
    back-offs in between, and reports success exactly when its last attempt succeeded,
    else the error of its last attempt, mapped. *)
Theorem retries_bounded (cfg : RetryConfig) (call : nat -> option rpc_error) (cancelled : nat -> bool) :
  InitialBackoff cfg < 4611686018427387904 -> MaxBackoff cfg < 4611686018427387904 ->
  let cfg := retry_defaults cfg in
  let '(r, calls, waits) := invoke cfg call cancelled in
  1 <= Z.of_nat calls <= MaxAttempts cfg /\
  (forall k, (k < calls - 1)%nat -> exists err, call k = Some err /\ shouldRetry err = true) /\
  Forall (fun w => 0 < w <= Z.max (InitialBackoff cfg) (MaxBackoff cfg)) waits /\ (length waits < calls)%nat /\
  (r = Success <-> call (calls - 1)%nat = None) /\
  (forall e, r = Failure e -> exists err, call (calls - 1)%nat = Some err /\ e = mapError err).
Proof.
  intros Hi Hm; cbn zeta; set (c := retry_defaults cfg).
  assert (Hc : 1 <= MaxAttempts c /\ 0 < InitialBackoff c < 4611686018427387904 /\ 0 < MaxBackoff c < 4611686018427387904).
  { unfold c, retry_defaults; cbn; repeat match goal with |- context [?a <=? ?b] => destruct (Z.leb_spec a b) end; unfold Second, Millisecond; lia. }
  pose proof (invoke_loop_ok (MaxBackoff c) call cancelled (Z.to_nat (MaxAttempts c)) 0 (InitialBackoff c)
    (Z.max (InitialBackoff c) (MaxBackoff c)) ltac:(lia) ltac:(lia) ltac:(lia) ltac:(lia)) as H.
  unfold invoke; destruct (invoke_loop _ _ _ _ _ _) as [[r calls] waits]; destruct H as (H1 & H2 & H3 & H4 & H5); split_and!; auto; try lia.
  - intros k Hk; destruct (H2 k ltac:(lia) Hk) as (err & E1 & E2 & _); eauto.
  - destruct r; [tauto | |]; split; try discriminate; intros E; [destruct H5 as (err & E1 & _); congruence | destruct H5 as (_ & err & E1 & _); congruence].
  - intros e ->; destruct H5 as (err & E1 & E2 & _); eauto.
Qed.

(** The credentials never send a stale token.  With a lifetime of whole seconds, at
    least thirty, and a verifier that has the key, every token they attach to a call
    is accepted by the daemon's verifier for the next twenty-eight seconds and yields
    the subject and the project set last, however calls and changes of the project
    were interleaved before. *)
Theorem credentials_fresh `{JL : JWTLaws} (j0 : jwtCredentials) (v : JWTVerifier) (t : Time) (evs : list cred_event) (now mint after later : Time)
    (j' : jwtCredentials) (tok : list Z) :
  jc_token j0 = None -> timely t (evs ++ [CGet now mint after]) = true ->
  ji_Issuer (jc_issuer j0) <> ""%string -> Keys v !! ji_Issuer (jc_issuer j0) = Some (pub (ji_Key (jc_issuer j0))) ->
  ji_Audience (jc_issuer j0) = Audience v -> ji_TTL (jc_issuer j0) mod Second = 0 -> 30 * Second <= ji_TTL (jc_issuer j0) <= MaxTTL v ->
  GetRequestMetadata (foldl cred_step j0 evs) now mint after = (j', inr tok) -> after <= later <= now + 28 * Second ->
  exists c, Verify v tok later = inr c /\ handler_claims c = MkClaims (jc_subject j0) (jc_projectID j').
Proof.
  intros H0 Ht Hi Hk Ha Hs Hl E Hw.
  assert (O : cred_ok t j0 j0) by (split_and!; auto; congruence).
  assert (Hte : timely t evs = true).
  { clear -Ht; revert t Ht; induction evs as [|[p|a b c] evs IH]; intros t Ht; cbn in *; auto.
    repeat (apply andb_true_iff in Ht as [Ht ?]); rewrite Ht, IH by assumption; repeat (apply andb_true_iff; split; auto). }
  destruct (cred_run t j0 j0 evs O Hte) as (t' & K1 & K2); specialize (K2 _ Ht); cbn in K2.
  repeat (apply andb_true_iff in K2 as [K2 ?]); bool_to_prop.
  pose proof (cred_get t' j0 _ now mint after K1 ltac:(lia) ltac:(lia) ltac:(lia) ltac:(lia)) as G; rewrite E in G.
  destruct G as (_ & Gp & G); destruct (G tok eq_refl) as (m & M1 & M2 & M3).
  pose proof (Z.mod_pos_bound m Second eq_refl) as Hb.
  destruct (mint_verify (jc_issuer j0) v (jc_subject j0) _ m later tok M1 Hi Hk Ha Hs ltac:(lia) ltac:(unfold Second in *; lia)) as (c & C1 & C2 & _).
  exists c; rewrite Gp; auto.
Qed.

(** ** Witnesses *)

Definition out_event (n : Z) : AttachSessionEvent := MkEvent EVENT_OUTPUT n 0 "s1" [] false 0 0 false 0 0 0 "" "".

Definition sample_state : AttachState := MkAttach "me" AttachRoleObserver [] LiveClosed false 1 9 None false 0 0 0.

(** The first connection breaks after two of three events. *)
Definition sample_conns : list connection :=
  [MkConn sample_state (map out_event [1; 2; 3]) 3 2 StreamError (fun _ => true);
   MkConn sample_state (map out_event [3; 4; 5]) 5 3 EOF (fun _ => true);
   MkConn sample_state (map out_event [6]) 6 1 EOF (fun _ => true)].

Lemma resume_exactly_once_witness :
  let '(handed, f) := resume (Cursors ∅) "s1" "me" sample_conns in
  map ae_Seq handed = [1; 2; 3; 4; 5; 6] /\ consecutive 1 (data handed).
Proof.
  destruct (resume (Cursors ∅) "s1" "me" sample_conns) as [handed f] eqn:E; split.
  - vm_compute in E; injection E as <- _; reflexivity.
  - pose proof (resume_exactly_once ∅ "s1" "me" sample_conns) as R; rewrite E in R; refine (proj1 (proj2 (R _ _ _ _)));
      [discriminate | vm_compute; discriminate | | repeat constructor].
    cbn [served sample_conns]; split_and!; try exact Logic.I; try (vm_compute; reflexivity);
      (apply consecutive_in_order; [reflexivity | vm_compute; repeat split | vm_compute; reflexivity]).
Defined.

(** The cursor is saved before the callback runs: an event whose callback failed is
    not handed over again by the next attach. *)
Lemma failed_callback_skipped :
  map ae_Seq (resume (Cursors ∅) "s1" "me"
    [MkConn sample_state (map out_event [1; 2; 3]) 3 3 EOF (fun e => negb (ae_Seq e =? 2));
     MkConn sample_state (map out_event [3]) 3 1 EOF (fun _ => true)]).1 = [1; 2; 3] /\
  os_afterSeq (AttachSession (recv_loop (MkOutput "s1" "me" 0) (Cursors ∅) (map out_event [1; 2]) EOF (fun e => negb (ae_Seq e =? 2)) (fun _ => Saved)).1.1.2
    "s1" "me" "" 0) = 2.
Proof. split; vm_compute; reflexivity. Qed.

Definition busy : rpc_error := Status (FromServer Unavailable) "busy".

Lemma retries_bounded_witness :
  let '(r, calls, waits) := invoke (retry_defaults (MkRetry 3 Second (3 * Second))) (fun _ => Some busy) (fun _ => false) in
  waits = [Second; 2 * Second] /\ 1 <= Z.of_nat calls <= 3.
Proof.
  pose proof (retries_bounded (MkRetry 3 Second (3 * Second)) (fun _ => Some busy) (fun _ => false) ltac:(reflexivity) ltac:(reflexivity)) as R.
  cbn zeta in R; destruct (invoke _ _ _) as [[r calls] waits] eqn:E; split; [vm_compute in E; injection E as _ _ <-; reflexivity | apply R].
Defined.

Lemma credentials_fresh_witness :
  exists c, Verify sample_verifier (chars "t1") (Minute + 2 * Second) = inr c /\ handler_claims c = MkClaims "alice" "proj".
Proof.
  apply (credentials_fresh (MkCredentials sample_issuer None 0 "" "alice") sample_verifier 0 [CSet "other"; CSet "proj"] Minute Minute (Minute + Second)
    (Minute + 2 * Second) (MkCredentials sample_issuer (Some (chars "t1")) (6 * Minute + Second) "proj" "alice") (chars "t1"));
    try reflexivity; try discriminate; try (split; discriminate); vm_compute; reflexivity.
Defined.

(** ** Faults *)

(** A cursor file cut short in the middle of a write is never written again: every
    later save fails, which [RecvAll] ignores, and every later attach starts over. *)
Lemma torn_cursor_file_sticks session client seq w :
  file_SaveCursor NotJSON session client seq w = (NotJSON, false) /\ os_afterSeq (AttachSession NotJSON session client "x" 0) = 0.
Proof. split; [reflexivity|]; unfold AttachSession, file_LoadCursor; destruct (str_eqb client ""); reflexivity. Qed.

(** Cursors of different subscribers can share a key. *)
Lemma cursor_keys_collide : cursorKey "s:a" "b" = cursorKey "s" "a:b".
Proof. reflexivity. Qed.

(** Input that is too large for the daemon reaches the caller as a session limit, and
    an input the daemon has taken is typed again when the answer is late. *)
Lemma input_too_large_misreported :
  mapError (Status (FromServer (st_code (mapBridgeError (Sentinel ErrInputTooLarge) "write input"))) "write input") = SDK.ErrSessionLimitReached.
Proof. vm_compute; reflexivity. Qed.

Lemma late_answer_repeats_call :
  (invoke (MkRetry 2 Second Second) (fun n => match n with O => Some (Status DeadlineExceeded "late") | _ => None end) (fun _ => false)).1 = (Success, 2%nat).
Proof. reflexivity. Qed.
