(* ===== verification/InputWriter.v ===== *)
(** * Keyboard input: cmd/bridgectl/inputwriter.go

    A reader goroutine puts what it reads on a channel; the main loop collects it
    and sends batches to the daemon when enough has come, when nothing came for a
    while, at the end of the input, and at the detach key.  A step is one
    communication of either goroutine. *)

From S2P Require Import Prelude Types Policy.

Definition maxBatchSize : Z := 4096.

(** The size of the reader's buffer and the capacity of its channel. *)
Definition read_size : Z := 1024.
Definition readCh_cap : Z := 32.

Inductive writer_end := WRunning | WDetached | WEnded.

(** [iw_err]: the reader has failed, its error waits to be taken; [iw_timer]: the
    timer is set or has fired. [iw_sent]: the batches sent so far. *)
Record inputWriter := MkWriter {
  iw_key : option Byte.byte;
  iw_buf : bytes;
  iw_ch : list bytes;
  iw_err : bool;
  iw_timer : bool;
  iw_sent : list bytes;
  iw_end : writer_end;
}.

Definition newWriter (key : option Byte.byte) : inputWriter := MkWriter key [] [] false false [] WRunning.

(** [flush]: nothing is sent when nothing is buffered. *)
Definition flush (w : inputWriter) : inputWriter :=
  match iw_buf w with
  | [] => w
  | data => MkWriter (iw_key w) [] (iw_ch w) (iw_err w) (iw_timer w) (iw_sent w ++ [data]) (iw_end w)
  end.

Definition put_buf (b : bytes) (w : inputWriter) : inputWriter :=
  MkWriter (iw_key w) b (iw_ch w) (iw_err w) (iw_timer w) (iw_sent w) (iw_end w).
Definition put_ch (c : list bytes) (w : inputWriter) : inputWriter :=
  MkWriter (iw_key w) (iw_buf w) c (iw_err w) (iw_timer w) (iw_sent w) (iw_end w).
Definition put_err (w : inputWriter) : inputWriter :=
  MkWriter (iw_key w) (iw_buf w) (iw_ch w) true (iw_timer w) (iw_sent w) (iw_end w).
Definition put_timer (b : bool) (w : inputWriter) : inputWriter :=
  MkWriter (iw_key w) (iw_buf w) (iw_ch w) (iw_err w) b (iw_sent w) (iw_end w).
Definition put_end (e : writer_end) (w : inputWriter) : inputWriter :=
  MkWriter (iw_key w) (iw_buf w) (iw_ch w) (iw_err w) (iw_timer w) (iw_sent w) e.

(** [bytes.IndexByte]: the text before the key. *)
Fixpoint before_key (k : Byte.byte) (data : bytes) : option bytes :=
  match data with
  | [] => None
  | c :: data => if bool_decide (c = k) then Some [] else option_map (cons c) (before_key k data)
  end.

(** The case of the main loop that takes [data] from the channel. *)
Definition on_data (w : inputWriter) (data : bytes) : inputWriter :=
  match match iw_key w with Some k => before_key k data | None => None end with
  | Some pre => put_end WDetached (flush (put_buf (iw_buf w ++ pre) w))
  | None =>
      let w := put_buf (iw_buf w ++ data) w in
      if maxBatchSize <=? zlen (iw_buf w) then flush (put_timer false w) else put_timer true w
  end.

(** The case of a read error: take what is left on the channel and send it. *)
Definition on_error (w : inputWriter) : inputWriter :=
  put_end WEnded (flush (put_ch [] (put_buf (iw_buf w ++ concat (iw_ch w)) w))).

(** [WRead data] and [WFail]: the reader; the others: the main loop. *)
Inductive writer_event := WRead (data : bytes) | WFail | WData | WTimer | WError.

Definition writer_step (w : inputWriter) (ev : writer_event) : option inputWriter :=
  match iw_end w, ev with
  | _, WRead data =>
      if negb (iw_err w) && (zlen (iw_ch w) <? readCh_cap) && (0 <? zlen data) && (zlen data <=? read_size)
      then Some (put_ch (iw_ch w ++ [data]) w) else None
  | _, WFail => if iw_err w then None else Some (put_err w)
  | WRunning, WData => match iw_ch w with data :: ch => Some (on_data (put_ch ch w) data) | [] => None end
  | WRunning, WTimer => if iw_timer w then Some (flush (put_timer false w)) else None
  | WRunning, WError => if iw_err w then Some (on_error w) else None
  | _, _ => None
  end.

Fixpoint writer_run (w : inputWriter) (evs : list writer_event) : option inputWriter :=
  match evs with [] => Some w | ev :: evs => match writer_step w ev with Some w => writer_run w evs | None => None end end.

(** Everything the reader has read. *)
Definition typed (evs : list writer_event) : bytes := concat (omap (fun ev => match ev with WRead d => Some d | _ => None end) evs).

(** ** The invariant *)

Definition free_of (k : option Byte.byte) (d : bytes) : Prop := match k with Some k => k ∉ d | None => True end.

(** The largest batch: a full buffer short of one byte and a full channel. *)
Definition max_sent : Z := maxBatchSize - 1 + read_size * readCh_cap.

Definition sent_ok (w : inputWriter) : Prop := Forall (fun b => b <> [] /\ zlen b <= max_sent) (iw_sent w).

Record writer_inv (w : inputWriter) (all : bytes) : Prop := {
  wi_sizes : Forall (fun d => 0 < zlen d <= read_size) (iw_ch w) /\ zlen (iw_ch w) <= readCh_cap;
  wi_sent : sent_ok w;
  wi_all : match iw_end w with
    | WRunning => concat (iw_sent w) ++ iw_buf w ++ concat (iw_ch w) = all /\ zlen (iw_buf w) < maxBatchSize /\
        free_of (iw_key w) (concat (iw_sent w) ++ iw_buf w)
    | WDetached => exists k post, iw_key w = Some k /\ all = concat (iw_sent w) ++ k :: post /\ k ∉ concat (iw_sent w)
    | WEnded => concat (iw_sent w) = all /\ iw_err w = true /\ iw_ch w = []
    end;
}.

Lemma before_key_spec k d : match before_key k d with
  | Some pre => exists post, d = pre ++ k :: post /\ k ∉ pre
  | None => k ∉ d
  end.
Proof.
  induction d as [|c d IH]; cbn; [apply not_elem_of_nil|]; case_bool_decide as E; [subst c; exists d; split; [reflexivity | apply not_elem_of_nil]|].
  destruct (before_key k d) as [pre|]; cbn; [|apply not_elem_of_cons; auto].
  destruct IH as (post & -> & Hn); exists post; split; [reflexivity | apply not_elem_of_cons; auto].
Qed.

Lemma flush_spec w :
  concat (iw_sent (flush w)) = concat (iw_sent w) ++ iw_buf w /\ iw_buf (flush w) = [] /\ iw_ch (flush w) = iw_ch w /\
  iw_err (flush w) = iw_err w /\ iw_end (flush w) = iw_end w /\ iw_key (flush w) = iw_key w /\
  (sent_ok w -> zlen (iw_buf w) <= max_sent -> sent_ok (flush w)).
Proof.
  unfold flush, sent_ok; destruct (iw_buf w) as [|c b] eqn:E; [rewrite app_nil_r; auto 10|]; cbn; rewrite concat_app; cbn; rewrite app_nil_r.
  split_and!; auto; intros H1 H2; apply Forall_app; split; [exact H1 | repeat constructor; [discriminate | exact H2]].
Qed.

Lemma concat_bound (l : list bytes) : Forall (fun d => 0 < zlen d <= read_size) l -> zlen (concat l) <= read_size * zlen l.
Proof. induction 1 as [|d l Hd _ IH]; cbn [concat]; [unfold zlen; cbn; lia|]; rewrite zlen_app, zlen_cons; unfold read_size in *; lia. Qed.

Lemma on_data_inv w all data ch :
  writer_inv w all -> iw_end w = WRunning -> iw_ch w = data :: ch -> writer_inv (on_data (put_ch ch w) data) all.
Proof.
  intros [[S1 S2] S3 S4] W C; rewrite W in S4; destruct S4 as (A & B & K); rewrite C in *; cbn [concat] in A.
  inversion S1 as [|? ? Hd S1']; subst; rewrite zlen_cons in S2; unfold on_data; cbn [iw_key put_ch].
  assert (Hm : zlen (iw_buf w) + zlen data <= max_sent) by (unfold max_sent, maxBatchSize, read_size, readCh_cap in *; lia).
  pose proof (fun k => before_key_spec k data) as Bk.
  destruct (match iw_key w with Some k => before_key k data | None => None end) as [pre|] eqn:Ek.
  - destruct (iw_key w) as [k|] eqn:Eq; [|discriminate]; specialize (Bk k); rewrite Ek in Bk; destruct Bk as (post & -> & Hn).
    destruct (flush_spec (put_buf (iw_buf (put_ch ch w) ++ pre) (put_ch ch w))) as (F1 & F2 & F3 & F4 & F5 & F6 & F7); cbn in *.
    constructor; cbn; rewrite ?F1, ?F3, ?F6; auto; [split; [exact S1' | lia] | apply F7; [exact S3|]; rewrite !zlen_app in *; pose proof (zlen_nonneg (k :: post)); lia|].
    exists k, (post ++ concat ch); rewrite Eq; split_and!; auto; [rewrite <- !app_assoc; reflexivity|]; rewrite app_assoc, elem_of_app; tauto.
  - assert (Hf : free_of (iw_key w) (concat (iw_sent w) ++ iw_buf w ++ data)).
    { destruct (iw_key w) as [k|] eqn:Eq; [|exact Logic.I]; specialize (Bk k); rewrite Ek in Bk; cbn in *; rewrite app_assoc, elem_of_app; tauto. }
    cbn zeta; cbn [iw_buf put_buf put_ch]; destruct (Z.leb_spec maxBatchSize (zlen (iw_buf w ++ data))) as [L|L].
    + destruct (flush_spec (put_timer false (put_buf (iw_buf w ++ data) (put_ch ch w)))) as (F1 & F2 & F3 & F4 & F5 & F6 & F7); cbn in *.
      constructor; rewrite ?F1, ?F2, ?F3, ?F5, ?F6; cbn; rewrite ?W; [split; [exact S1' | lia] | apply F7; [exact S3 | rewrite zlen_app; lia]|].
      split_and!; [rewrite <- !app_assoc; reflexivity | reflexivity | rewrite app_nil_r; exact Hf].
    + constructor; cbn; rewrite ?W; [split; [exact S1' | lia] | exact S3|]; split_and!; [rewrite <- !app_assoc; reflexivity | exact L | exact Hf].
Qed.

Lemma writer_step_inv w all ev w' :
  writer_inv w all -> writer_step w ev = Some w' -> writer_inv w' (all ++ match ev with WRead d => d | _ => [] end).
Proof.
  intros I; assert (J := I); destruct I as [[S1 S2] S3 S4]; unfold writer_step; destruct ev as [data| | | |].
  - intros H; assert (E : negb (iw_err w) && (zlen (iw_ch w) <? readCh_cap) && (0 <? zlen data) && (zlen data <=? read_size) = true /\
      w' = put_ch (iw_ch w ++ [data]) w) by (destruct (iw_end w); destruct (_ && _); try discriminate H; injection H as <-; auto).
    destruct E as [Hc ->]; repeat (apply andb_true_iff in Hc as [Hc ?]); bool_to_prop.
    constructor; cbn; [split; [apply Forall_app; split; [exact S1 | repeat constructor; lia] | rewrite zlen_app; change (zlen [data]) with 1; lia] | exact S3|].
    rewrite concat_app; cbn; rewrite app_nil_r; destruct (iw_end w).
    + destruct S4 as (<- & S4); split; [rewrite <- !app_assoc; reflexivity | exact S4].
    + destruct S4 as (k & post & K1 & -> & K2); exists k, (post ++ data); rewrite <- app_assoc; auto.
    + destruct S4 as (_ & S4 & _); rewrite S4 in *; discriminate.
  - rewrite app_nil_r; intros H; assert (w' = put_err w) as -> by (destruct (iw_err w); destruct (iw_end w); try discriminate H; injection H as <-; reflexivity).
    constructor; cbn; auto; destruct (iw_end w); auto; tauto.
  - rewrite app_nil_r; destruct (iw_end w) eqn:W; try discriminate; destruct (iw_ch w) as [|d ch] eqn:C; [discriminate|].
    intros [= <-]; apply on_data_inv; assumption.
  - rewrite app_nil_r; destruct (iw_end w) eqn:W; try discriminate; destruct (iw_timer w); [|discriminate]; intros [= <-].
    destruct S4 as (A & B & K); destruct (flush_spec (put_timer false w)) as (F1 & F2 & F3 & F4 & F5 & F6 & F7); cbn in *.
    constructor; rewrite ?F1, ?F2, ?F3, ?F5, ?F6, ?W; cbn; [auto | apply F7; [exact S3 | unfold max_sent, maxBatchSize, read_size, readCh_cap in *; lia]|].
    split_and!; [rewrite <- app_assoc; exact A | reflexivity | rewrite app_nil_r; exact K].
  - rewrite app_nil_r; destruct (iw_end w) eqn:W; try discriminate; destruct (iw_err w) eqn:Er; [|discriminate]; intros [= <-].
    destruct S4 as (A & B & K); unfold on_error; pose proof (concat_bound _ S1) as Cb.
    destruct (flush_spec (put_ch [] (put_buf (iw_buf w ++ concat (iw_ch w)) w))) as (F1 & F2 & F3 & F4 & F5 & F6 & F7); cbn in *.
    constructor; cbn; rewrite ?F1, ?F3, ?F4; [split; [apply List.Forall_nil | vm_compute; discriminate] | apply F7; [exact S3|] | auto].
    rewrite zlen_app; unfold max_sent, maxBatchSize, read_size, readCh_cap in *; lia.
Qed.

Lemma writer_run_inv w all evs w' : writer_inv w all -> writer_run w evs = Some w' -> writer_inv w' (all ++ typed evs).
Proof.
  revert w all; induction evs as [|ev evs IH]; intros w all I; cbn [writer_run]; [intros [= <-]; unfold typed; cbn; rewrite app_nil_r; exact I|].
  destruct (writer_step w ev) as [w1|] eqn:E; [|discriminate]; intros H; apply (writer_step_inv w all) in E; [|exact I].
  specialize (IH _ _ E H); rewrite <- app_assoc in IH; unfold typed in *; cbn; destruct ev; exact IH.
Qed.

Lemma writer_step_key w ev w' : writer_step w ev = Some w' -> iw_key w' = iw_key w.
Proof.
  assert (Fk : forall x, iw_key (flush x) = iw_key x) by (intros x; apply flush_spec).
  unfold writer_step; destruct (iw_end w), ev; repeat case_match; intros E; try discriminate; injection E as <-; auto;
    unfold on_data, on_error; repeat case_match; cbn; rewrite ?Fk; reflexivity.
Qed.

Lemma writer_run_key evs w w' : writer_run w evs = Some w' -> iw_key w' = iw_key w.
Proof.
  revert w; induction evs as [|ev evs IH]; intros w; cbn; [intros [= <-]; reflexivity|].
  destruct (writer_step w ev) as [w1|] eqn:E; [|discriminate]; intros H; rewrite (IH _ H); apply (writer_step_key _ _ _ E).
Qed.

Lemma new_writer_inv key : writer_inv (newWriter key) [].
Proof. constructor; cbn; [split; [apply List.Forall_nil | vm_compute; discriminate] | apply List.Forall_nil|]; split_and!; auto; [vm_compute; reflexivity|]; destruct key; [apply not_elem_of_nil | exact Logic.I]. Qed.

(** C23. Under every interleaving of reader, timer and main loop of the attach
    command: while the writer runs, the batches handed to WriteInput, the buffer
    and the channel are together exactly what was read, in order, and neither
    batches nor buffer hold the detach key; after detaching, exactly the text
    before the first detach key was handed over; after the end of the input,
    everything that was read, provided the detach key was not among it. No batch
    is empty or larger than the default input limit of the daemon. Input that ends
    while the detach key waits in the channel is not covered: the key is then
    sent, against the comment on DetachKey (see findings). Whether the daemon
    accepts a batch is not looked at; the code ignores it too. *)
Theorem input_in_order (key : option Byte.byte) (evs : list writer_event) (w : inputWriter) :
  writer_run (newWriter key) evs = Some w ->
  Forall (fun b => 0 < zlen b <= MaxInputBytes DefaultPolicy) (iw_sent w) /\
  match iw_end w with
  | WRunning => concat (iw_sent w) ++ iw_buf w ++ concat (iw_ch w) = typed evs /\ free_of key (concat (iw_sent w) ++ iw_buf w)
  | WDetached => exists k post, key = Some k /\ typed evs = concat (iw_sent w) ++ k :: post /\ k ∉ concat (iw_sent w)
  | WEnded => free_of key (typed evs) -> concat (iw_sent w) = typed evs
  end.
Proof.
  intros H; pose proof (writer_run_key _ _ _ H) as Hk; cbn in Hk.
  destruct (writer_run_inv _ [] evs w (new_writer_inv key) H) as [_ S A]; cbn [app] in A; rewrite Hk in A; split.
  - revert S; apply Forall_impl; intros b [H1 H2]; split; [|change max_sent with 36863 in H2; change (MaxInputBytes DefaultPolicy) with 65536; lia].
    destruct b; [congruence | rewrite zlen_cons; pose proof (zlen_nonneg b0); lia].
  - destruct (iw_end w); tauto.
Qed.

Definition key_d : Byte.byte := Byte.x1d.

Lemma input_in_order_witness :
  match writer_run (newWriter (Some key_d)) [WRead [Byte.x61]; WData; WRead [Byte.x62; key_d; Byte.x63]; WTimer; WData] with
  | Some w => iw_sent w = [[Byte.x61]; [Byte.x62]] /\ Forall (fun b => 0 < zlen b <= MaxInputBytes DefaultPolicy) (iw_sent w)
  | None => False
  end.
Proof.
  destruct (writer_run (newWriter (Some key_d)) _) as [w|] eqn:E; [|vm_compute in E; discriminate].
  split; [vm_compute in E; injection E as <-; reflexivity | exact (proj1 (input_in_order (Some key_d) _ w E))].
Defined.

(** When the input ends right after the detach key was typed, the loop may see the
    end first: the key and what follows it are then sent to the session. *)
Lemma detach_key_sent_at_end :
  match writer_run (newWriter (Some key_d)) [WRead [key_d; Byte.x63]; WFail; WError] with
  | Some w => iw_sent w = [[key_d; Byte.x63]]
  | None => False
  end.
Proof. vm_compute; reflexivity. Qed.
