(* ===== verification/GoText.v ===== *)
(** * Text functions of the Go standard library

    What the configuration code uses of strings, strconv, time and os: cutting at a
    character, decimal numbers, durations and the expansion of variables.  Texts are
    lists of byte values; a 64-bit [int] is assumed. *)

From Stdlib Require Floats.SpecFloat.
From S2P Require Import Prelude GoStd RateLimit.

(** [strings.Cut] at one character. *)
Fixpoint Cut (c : Z) (s : list Z) : option (list Z * list Z) :=
  match s with
  | [] => None
  | x :: s => if x =? c then Some ([], s) else option_map (fun '(a, b) => (x :: a, b)) (Cut c s)
  end.

(** The text before the first [c], or all of it. *)
Definition before (c : Z) (s : list Z) : list Z := match Cut c s with Some (a, _) => a | None => s end.

Definition TrimPrefix (p s : list Z) : list Z := if has_prefix p s then drop (length p) s else s.

(** [strings.Contains(s, p)]. *)
Fixpoint Contains (p s : list Z) : bool :=
  has_prefix p s || match s with [] => false | _ :: s => Contains p s end.

(** The [string] of byte values. *)
Definition text (s : list Z) : string := string_of_bytes (map (fun c => default Byte.x00 (Byte.of_N (Z.to_N c))) s).

(** ** Addresses *)

Definition IndexByte (c : Z) (s : list Z) : option nat := option_map (fun '(a, _) => length a) (Cut c s).

(** The text after the last [c] and what precedes it. *)
Definition CutLast (c : Z) (s : list Z) : option (list Z * list Z) :=
  option_map (fun '(a, b) => (reverse b, reverse a)) (Cut c (reverse s)).

(** [net.SplitHostPort]; the error text is not kept. *)
Definition SplitHostPort (hostport : list Z) : option (list Z * list Z) :=
  match CutLast 58 hostport with
  | None => None
  | Some (before_colon, port) =>
      let i := length before_colon in
      match hostport with
      | 91 :: inner =>
          match IndexByte 93 hostport with
          | None => None
          | Some e =>
              if negb (e + 1 =? i)%nat then None
              else if bool_decide (91 ∈ inner) then None
              else if bool_decide (93 ∈ drop (e + 1) hostport) then None
              else Some (take (e - 1) inner, port)
          end
      | _ =>
          if bool_decide (58 ∈ before_colon) then None
          else if bool_decide (91 ∈ hostport) then None
          else if bool_decide (93 ∈ hostport) then None
          else Some (before_colon, port)
      end
  end.

(** [net.JoinHostPort]. *)
Definition JoinHostPort (host port : list Z) : list Z :=
  if bool_decide (58 ∈ host) || bool_decide (37 ∈ host) then 91 :: host ++ [93; 58] ++ port else host ++ [58] ++ port.

(** ** Numbers *)

Definition digit (c : Z) : bool := in_range 48 57 c.

Definition decimal (s : list Z) : Z := fold_left (fun v c => 10 * v + (c - 48)) s 0.

(** [strconv.Atoi]. *)
Definition Atoi (s : list Z) : option Z :=
  let '(neg, ds) := match s with 45 :: s => (true, s) | 43 :: s => (false, s) | _ => (false, s) end in
  match ds with
  | [] => None
  | _ =>
      if negb (forallb digit ds) then None
      else
        let v := decimal ds in
        if neg then if v <=? 9223372036854775808 then Some (- v) else None
        else if v <? 9223372036854775808 then Some v else None
  end.

(** [strconv.Itoa] of a number that is not negative. *)
Fixpoint digits_fuel (n : nat) (v : Z) (acc : list Z) : list Z :=
  match n with
  | O => acc
  | S n => let acc := (48 + v mod 10) :: acc in if v <? 10 then acc else digits_fuel n (v / 10) acc
  end.

Definition Itoa (v : Z) : list Z := digits_fuel 20 v [].

(** ** Durations *)

Definition two63 : Z := 9223372036854775808.

(** [leadingInt]; [None]: overflow. *)
Fixpoint leadingInt (x : Z) (s : list Z) : option (Z * list Z) :=
  match s with
  | c :: s' =>
      if digit c then
        if two63 / 10 <? x then None
        else let x := x * 10 + (c - 48) in if two63 <? x then None else leadingInt x s'
      else Some (x, s)
  | [] => Some (x, [])
  end.

(** [leadingFraction]: digits beyond the precision are dropped. *)
Fixpoint leadingFraction (x : Z) (scale : float64) (overflow : bool) (s : list Z) : Z * float64 * list Z :=
  match s with
  | c :: s' =>
      if digit c then
        if overflow then leadingFraction x scale true s'
        else if (two63 - 1) / 10 <? x then leadingFraction x scale true s'
        else let y := x * 10 + (c - 48) in
             if two63 <? y then leadingFraction x scale true s' else leadingFraction y (f_mul scale (f_of_int 10)) false s'
      else (x, scale, s)
  | [] => (x, scale, [])
  end.

Definition unitMap (u : list Z) : option Z :=
  if bool_decide (u = chars "ns") then Some 1
  else if bool_decide (u = chars "us") || bool_decide (u = [194; 181; 115]) || bool_decide (u = [206; 188; 115]) then Some 1000
  else if bool_decide (u = chars "ms") then Some Millisecond
  else if bool_decide (u = chars "s") then Some Second
  else if bool_decide (u = chars "m") then Some Minute
  else if bool_decide (u = chars "h") then Some (60 * Minute)
  else None.

(** The unit is what precedes the next digit or point. *)
Fixpoint span_unit (s : list Z) : list Z * list Z :=
  match s with
  | c :: s' => if (c =? 46) || digit c then ([], s) else let '(u, r) := span_unit s' in (c :: u, r)
  | [] => ([], [])
  end.

(** [uint64] of a float that is not negative. *)
Definition f_trunc (f : float64) : Z :=
  match f with
  | SpecFloat.S754_finite false m e => if 0 <=? e then Z.pos m * 2 ^ e else Z.pos m / 2 ^ (- e)
  | _ => 0
  end.

(** The numbers and units of a duration, summed up; the fuel is the length. *)
Fixpoint duration_loop (fuel : nat) (d : Z) (s : list Z) : option Z :=
  match fuel, s with
  | _, [] => Some d
  | O, _ => None
  | S fuel, c :: _ =>
      if negb ((c =? 46) || digit c) then None
      else match leadingInt 0 s with
           | None => None
           | Some (v, s1) =>
               let pre := negb (length s1 =? length s)%nat in
               let '(f, scale, s2, post) :=
                 match s1 with
                 | 46 :: s2 => let '(f, scale, s3) := leadingFraction 0 f_one false s2 in (f, scale, s3, negb (length s3 =? length s2)%nat)
                 | _ => (0, f_one, s1, false)
                 end in
               if negb pre && negb post then None
               else match span_unit s2 with
                    | ([], _) => None
                    | (u, s3) =>
                        match unitMap u with
                        | None => None
                        | Some unit =>
                            if two63 / unit <? v then None
                            else
                              let v := v * unit + (if 0 <? f then f_trunc (f_mul (f_of_int f) (f_div (f_of_int unit) scale)) else 0) in
                              if (0 <? f) && (two63 <? v) then None
                              else if two63 <? d + v then None else duration_loop fuel (d + v) s3
                        end
                    end
           end
  end.

(** [time.ParseDuration]. *)
Definition time_ParseDuration (s : list Z) : option Duration :=
  let '(neg, s) := match s with 45 :: s => (true, s) | 43 :: s => (false, s) | _ => (false, s) end in
  if bool_decide (s = chars "0") then Some 0
  else match s with
       | [] => None
       | _ => match duration_loop (length s) 0 s with
              | None => None
              | Some d => if neg then Some (- d) else if two63 - 1 <? d then None else Some d
              end
       end.

(** ** Variables *)

Definition isShellSpecialVar (c : Z) : bool := existsb (Z.eqb c) (chars "*#$@!?-") || digit c.
Definition isAlphaNum (c : Z) : bool := (c =? 95) || alnum c.

Fixpoint span_alnum (s : list Z) : list Z :=
  match s with c :: s => if isAlphaNum c then c :: span_alnum s else [] | [] => [] end.

(** [getShellName] on the text after the dollar: the name and how much it takes. *)
Definition getShellName (s : list Z) : list Z * nat :=
  match s with
  | 123 :: s1 =>
      match s1 with
      | c :: 125 :: _ => if isShellSpecialVar c then ([c], 3%nat)
                         else match Cut 125 s1 with
                              | Some ([], _) => ([], 2%nat)
                              | Some (name, _) => (name, (length name + 2)%nat)
                              | None => ([], 1%nat)
                              end
      | _ => match Cut 125 s1 with
             | Some ([], _) => ([], 2%nat)
             | Some (name, _) => (name, (length name + 2)%nat)
             | None => ([], 1%nat)
             end
      end
  | c :: _ => if isShellSpecialVar c then ([c], 1%nat) else (span_alnum s, length (span_alnum s))
  | [] => ([], 0%nat)
  end.

(** [os.Expand] with a mapping that also collects the names it was asked for. *)
Fixpoint Expand (fuel : nat) (mapping : list Z -> list Z) (s : list Z) : list Z * list (list Z) :=
  match fuel, s with
  | S fuel, c :: s' =>
      match s' with
      | _ :: _ =>
          if c =? 36 then
            let '(name, w) := getShellName s' in
            let '(out, names) := Expand fuel mapping (drop w s') in
            match name with
            | [] => if (0 <? w)%nat then (out, names) else (c :: out, names)
            | _ => (mapping name ++ out, name :: names)
            end
          else let '(out, names) := Expand fuel mapping s' in (c :: out, names)
      | [] => ([c], [])
      end
  | _, _ => ([], [])
  end.

(** ** Examples *)

Example ParseDuration_examples :
  time_ParseDuration (chars "2m") = Some (2 * Minute) /\ time_ParseDuration (chars "1h15m30.918s") = Some (4530918 * Millisecond) /\
  time_ParseDuration (chars "-1.5h") = Some (- 90 * Minute) /\ time_ParseDuration (chars "1") = None /\
  time_ParseDuration (chars "9223372036854775808ns") = None /\ time_ParseDuration (chars "0") = Some 0.
Proof. vm_compute; split_and!; reflexivity. Qed.

Example Expand_examples :
  Expand 40 (fun _ => chars "/h") (chars "$HOME/x") = (chars "/h/x", [chars "HOME"]) /\
  Expand 40 (fun _ => chars "/h") (chars "a${}b$$c$") = (chars "ab/hc$", [chars "$"]).
Proof. vm_compute; split; reflexivity. Qed.

Example SplitHostPort_examples :
  SplitHostPort (chars "10.0.0.1:9445") = Some (chars "10.0.0.1", chars "9445") /\
  SplitHostPort (chars "[::1]:80") = Some (chars "::1", chars "80") /\ SplitHostPort (chars ":80") = Some ([], chars "80") /\
  SplitHostPort (chars "::1") = None /\ SplitHostPort (chars "host") = None /\ SplitHostPort (chars "[a]b:1") = None.
Proof. vm_compute; split_and!; reflexivity. Qed.

(** ** Numbers and their text *)

Lemma decimal_snoc s c : decimal (s ++ [c]) = 10 * decimal s + (c - 48).
Proof. unfold decimal; rewrite fold_left_app; reflexivity. Qed.

Lemma decimal_bound s : forallb digit s = true -> 0 <= decimal s.
Proof.
  induction s as [|c s IH] using rev_ind; [cbn; lia|].
  rewrite forallb_app, decimal_snoc; cbn; unfold digit, in_range; intros H.
  apply andb_prop in H as [Hs Hc]; specialize (IH Hs); lia.
Qed.

Lemma digit_val d : 0 <= d < 10 -> digit (48 + d) = true.
Proof. unfold digit, in_range; lia. Qed.

Lemma digits_fuel_spec n : forall v acc, 0 <= v < 10 ^ Z.of_nat (S n) ->
  exists ds, digits_fuel (S n) v acc = ds ++ acc /\ decimal ds = v /\ forallb digit ds = true /\ ds <> [].
Proof.
  induction n as [|n IH]; intros v acc Hv.
  - exists [48 + v mod 10]; cbn [digits_fuel]; replace (v <? 10) with true by (change (10 ^ Z.of_nat 1) with 10 in Hv; lia).
    pose proof (Z.mod_small v 10 ltac:(change (10 ^ Z.of_nat 1) with 10 in Hv; lia)) as E; rewrite E.
    split_and!; [reflexivity|cbn; lia|cbn [forallb]; rewrite digit_val by (change (10 ^ Z.of_nat 1) with 10 in Hv; lia); reflexivity|discriminate].
  - change (digits_fuel (S (S n)) v acc) with
      (if v <? 10 then (48 + v mod 10) :: acc else digits_fuel (S n) (v / 10) ((48 + v mod 10) :: acc)).
    pose proof (Z.mod_pos_bound v 10 ltac:(lia)) as Hm; pose proof (Z.div_mod v 10 ltac:(lia)) as Hd.
    destruct (Z.ltb_spec v 10).
    + exists [48 + v mod 10]; rewrite Z.mod_small in * by lia.
      split_and!; [reflexivity|cbn; lia|cbn [forallb]; rewrite digit_val by lia; reflexivity|discriminate].
    + rewrite Nat2Z.inj_succ, Z.pow_succ_r in Hv by lia.
      destruct (IH (v / 10) ((48 + v mod 10) :: acc)) as (ds & E & D & F & N); [lia|].
      exists (ds ++ [48 + v mod 10]); rewrite E, decimal_snoc, forallb_app, F, D; cbn [forallb].
      rewrite digit_val by lia; split_and!; [rewrite <- app_assoc; reflexivity|lia|reflexivity|destruct ds; discriminate].
Qed.

Lemma Itoa_spec v : 0 <= v < 2 ^ 63 ->
  decimal (Itoa v) = v /\ forallb digit (Itoa v) = true /\ Itoa v <> [].
Proof.
  intros H; destruct (digits_fuel_spec 19 v []) as (ds & E & D); [cbn; lia|].
  unfold Itoa; rewrite E, app_nil_r; exact D.
Qed.

Lemma Atoi_digits s : forallb digit s = true -> s <> [] -> decimal s < 2 ^ 63 -> Atoi s = Some (decimal s).
Proof.
  intros F N B; destruct s as [|c s]; [congruence|].
  assert (Hc : digit c = true) by (cbn in F; apply andb_prop in F as [? _]; assumption).
  assert (48 <= c <= 57) by (unfold digit, in_range in Hc; lia).
  unfold Atoi.
  assert (c = 48 \/ c = 49 \/ c = 50 \/ c = 51 \/ c = 52 \/ c = 53 \/ c = 54 \/ c = 55 \/ c = 56 \/ c = 57) as Hcs by lia.
  assert (Hm : (match c :: s with 45 :: s0 => (true, s0) | 43 :: s0 => (false, s0) | _ => (false, c :: s) end) = (false, c :: s))
    by (destruct Hcs as [->|[->|[->|[->|[->|[->|[->|[->|[->| ->]]]]]]]]]; reflexivity).
  rewrite Hm, F; cbn [negb]; replace (decimal (c :: s) <? 9223372036854775808) with true by lia; reflexivity.
Qed.

Lemma Atoi_Itoa v : 0 <= v < 2 ^ 63 -> Atoi (Itoa v) = Some v.
Proof.
  intros H; destruct (Itoa_spec v H) as (D & F & N).
  rewrite Atoi_digits, D by (rewrite ?D; first [assumption|lia]); reflexivity.
Qed.

(** ** Text that needs no trimming *)

(** Visible ASCII. *)
Definition graphic (c : Z) : bool := in_range 33 126 c.

Lemma runes_graphic s : forallb graphic s = true -> runes s = map (fun c => (c, 1%nat)) s.
Proof.
  unfold runes; induction s as [|c s IH]; [reflexivity|]; cbn [forallb]; intros H; apply andb_prop in H as [Hc Hs].
  unfold graphic, in_range in Hc.
  cbn [length runes_fuel]; cbn [DecodeRune]; replace (c <? 128) with true by lia.
  change (drop 1 (c :: s)) with (drop 0 s); rewrite drop_0, IH by exact Hs; reflexivity.
Qed.

Lemma drop_space_graphic s : forallb graphic s = true ->
  drop_space (map (fun c => (c, 1%nat)) s) = map (fun c => (c, 1%nat)) s.
Proof.
  destruct s as [|c s]; [reflexivity|]; cbn [forallb map drop_space fst]; intros H; apply andb_prop in H as [Hc _].
  unfold graphic, in_range in Hc; unfold IsSpace, in_range.
  replace ((9 <=? c) && (c <=? 13)) with false by lia; replace (c =? 32) with false by lia; replace (c =? 133) with false by lia;
    replace (c =? 160) with false by lia; replace (c =? 5760) with false by lia; replace ((8192 <=? c) && (c <=? 8202)) with false by lia;
    replace (c =? 8232) with false by lia; replace (c =? 8233) with false by lia; replace (c =? 8239) with false by lia;
    replace (c =? 8287) with false by lia; replace (c =? 12288) with false by lia; reflexivity.
Qed.

Lemma width_ones (s : list Z) : width (map (fun c => (c, 1%nat)) s) = length s.
Proof. induction s as [|c s IH]; [reflexivity|]; exact (f_equal Datatypes.S IH). Qed.

Lemma TrimSpace_graphic s : forallb graphic s = true -> TrimSpace s = s.
Proof.
  intros H; unfold TrimSpace; rewrite runes_graphic, drop_space_graphic, <- map_rev by exact H.
  assert (forallb graphic (rev s) = true) as Hr.
  { rewrite forallb_forall in *; intros c Hc; apply H, in_rev, Hc. }
  rewrite drop_space_graphic, !width_ones, length_rev, Nat.sub_diag by exact Hr; cbn [drop]; apply firstn_all.
Qed.

Lemma digits_graphic s : forallb digit s = true -> forallb graphic s = true.
Proof. rewrite !forallb_forall; intros H c Hc; specialize (H c Hc); unfold digit, graphic, in_range in *; lia. Qed.

Lemma Cut_absent c s t : c ∉ s -> Cut c (s ++ c :: t) = Some (s, t).
Proof.
  induction s as [|x s IH]; cbn; intros H; [rewrite Z.eqb_refl; reflexivity|].
  destruct (Z.eqb_spec x c); [set_solver|]; rewrite IH by set_solver; reflexivity.
Qed.

Lemma text_chars s : text (chars s) = s.
Proof.
  unfold text, chars, string_of_bytes, bytes_of_string; rewrite map_map.
  transitivity (String.string_of_list_byte (String.list_byte_of_string s)); [|apply String.string_of_list_byte_of_string].
  f_equal; rewrite <- (map_id (String.list_byte_of_string s)) at 2; apply map_ext; intros b.
  unfold byte_val; rewrite N2Z.id, Byte.of_to_N; reflexivity.
Qed.

Lemma runes_ascii s : forallb (in_range 0 127) s = true -> runes s = map (fun c => (c, 1%nat)) s.
Proof.
  unfold runes; induction s as [|c s IH]; [reflexivity|]; cbn [forallb]; intros H; apply andb_prop in H as [Hc Hs].
  unfold in_range in Hc; cbn [length runes_fuel]; cbn [DecodeRune]; replace (c <? 128) with true by lia.
  change (drop 1 (c :: s)) with (drop 0 s); rewrite drop_0, IH by exact Hs; reflexivity.
Qed.

(** A line of visible characters, read back. *)
Lemma TrimSpace_line s : forallb graphic s = true -> TrimSpace (s ++ [10]) = s.
Proof.
  intros H; assert (forallb (in_range 0 127) (s ++ [10]) = true) as Ha.
  { rewrite forallb_app; cbn; rewrite andb_true_r; rewrite forallb_forall in *; intros c Hc; specialize (H c Hc).
    unfold graphic, in_range in *; lia. }
  unfold TrimSpace; rewrite runes_ascii by exact Ha; destruct s as [|c s]; [reflexivity|].
  assert (IsSpace c = false) as Hc.
  { pose proof (drop_space_graphic (c :: s) H) as D; cbn [map drop_space fst] in D; destruct (IsSpace c); [|reflexivity].
    apply (f_equal length) in D; exfalso; revert D; cbn [length]; generalize (map (fun c => (c, 1%nat)) s); intros l E.
    assert (forall l : list (Z * nat), (length (drop_space l) <= length l)%nat) as L
      by (clear; induction l as [|x l IH]; cbn; [lia|destruct (IsSpace _); cbn; lia]).
    specialize (L l); lia. }
  assert (drop_space (map (fun c => (c, 1%nat)) ((c :: s) ++ [10])) = map (fun c => (c, 1%nat)) ((c :: s) ++ [10])) as ->
    by (cbn [app map drop_space fst]; rewrite Hc; reflexivity).
  rewrite Nat.sub_diag, <- map_rev, rev_app_distr; cbn [rev app map drop_space fst]; change (IsSpace 10) with true; cbn iota.
  change (rev s ++ [c]) with (rev (c :: s)); rewrite drop_space_graphic, width_ones, length_rev.
  - rewrite drop_0; change (c :: s ++ [10]) with ((c :: s) ++ [10]); apply take_app_length.
  - rewrite forallb_forall in *; intros x Hx; apply H, in_rev, Hx.
Qed.

(** *** Go strings *)

Lemma prefix_append (p m : string) : String.prefix p (p +:+ m) = true.
Proof.
  induction p as [|c p IH]; [destruct m; reflexivity|]; unfold String.app in *; cbn [String.append String.prefix] in *.
  destruct (Ascii.ascii_dec c c); [exact IH|congruence].
Qed.

Lemma substring_append (p m : string) : String.substring (String.length p) (String.length (p +:+ m) - String.length p) (p +:+ m) = m.
Proof.
  unfold String.app; induction p as [|c p IH]; [|exact IH]; cbn; rewrite Nat.sub_0_r.
  induction m as [|c m IH]; [reflexivity|]; cbn; f_equal; exact IH.
Qed.

(** [bytes.Split] and [strings.Split] at a byte. *)
Fixpoint split_byte (c : Z) (s : list Z) : list (list Z) :=
  match s with
  | [] => [[]]
  | x :: s => match split_byte c s with
              | [] => [[x]]  (* not reached *)
              | w :: ws => if x =? c then [] :: w :: ws else (x :: w) :: ws
              end
  end.

Lemma split_byte_app c w t : c ∉ w -> split_byte c (w ++ c :: t) = w :: split_byte c t.
Proof.
  assert (Hne : split_byte c t <> []) by (destruct t; cbn; [|repeat case_match]; discriminate).
  induction w as [|x w IH]; intros Hw; cbn [app split_byte].
  - destruct (split_byte c t) as [|y ys]; [congruence|]; rewrite Z.eqb_refl; reflexivity.
  - rewrite IH by set_solver; rewrite (proj2 (Z.eqb_neq x c)) by set_solver; reflexivity.
Qed.

(** ** The order of strings *)

Lemma ascii_compare_N (a b : Ascii.ascii) : Ascii.compare a b = N.compare (Ascii.N_of_ascii a) (Ascii.N_of_ascii b).
Proof. reflexivity. Qed.

Lemma compare_lt_trans (a : string) : forall b c, String.compare a b = Lt -> String.compare b c = Lt -> String.compare a c = Lt.
Proof.
  induction a as [|x a IH]; intros [|y b] [|z c]; simpl; try discriminate; try reflexivity.
  rewrite !ascii_compare_N; intros H1 H2.
  destruct (N.compare_spec (Ascii.N_of_ascii x) (Ascii.N_of_ascii y)); try discriminate;
    destruct (N.compare_spec (Ascii.N_of_ascii y) (Ascii.N_of_ascii z)); try discriminate;
    destruct (N.compare_spec (Ascii.N_of_ascii x) (Ascii.N_of_ascii z)); try lia; try reflexivity; eauto.
Qed.

Definition key_le (a b : string) : Prop := String.compare a b <> Gt.

Lemma key_le_antisym a b : key_le a b -> key_le b a -> a = b.
Proof.
  unfold key_le; rewrite (String.compare_antisym a b); destruct (String.compare b a) eqn:E; simpl; intros; try done.
  symmetry; apply String.compare_eq_iff; exact E.
Qed.

Lemma key_le_trans a b c : key_le a b -> key_le b c -> key_le a c.
Proof.
  unfold key_le; intros H1 H2.
  destruct (String.compare a b) eqn:E1; [apply String.compare_eq_iff in E1; subst; done| |done].
  destruct (String.compare b c) eqn:E2; [apply String.compare_eq_iff in E2; subst; congruence| |done].
  rewrite (compare_lt_trans _ _ _ E1 E2); discriminate.
Qed.

Lemma ltb_le a b : String.ltb a b = true -> key_le a b.
Proof. unfold String.ltb, key_le; destruct (String.compare a b); congruence. Qed.

Lemma ltb_not_le a b : String.ltb a b = false -> key_le b a.
Proof.
  unfold String.ltb, key_le; rewrite (String.compare_antisym a b); destruct (String.compare b a); simpl; congruence.
Qed.

Lemma key_le_refl a : key_le a a.
Proof. unfold key_le; pose proof (String.compare_antisym a a); destruct (String.compare a a); simpl in *; congruence. Qed.

Lemma key_le_total a b : key_le a b \/ key_le b a.
Proof. unfold key_le; rewrite (String.compare_antisym a b); destruct (String.compare b a); simpl; intuition congruence. Qed.

#[export] Instance key_le_dec : RelDecision key_le.
Proof. intros a b; unfold key_le; destruct (String.compare a b); [left; discriminate|left; discriminate|right; auto]. Defined.
