(* ===== verification/Config.v ===== *)
(** * The configuration file

    [internal/config]: what a YAML file holds ([Config] and its parts), the defaults,
    the security block that legacy files imply, the expansion of the provider root and
    the validation, composed as [Load] composes them; [node.go] and [env.go].

    YAML decoding (gopkg.in/yaml.v3), the parsing of byte sizes (go-humanize) and of
    URLs are parameters.  Go ranges over a map in an unspecified order, so the order
    in which [validate] visits the providers is a parameter too. *)

From Stdlib Require Floats.SpecFloat.
From S2P Require Import Prelude Types GoStd GoText RateLimit EnrollServer.

Local Open Scope string_scope.

(** ** Data *)

Record FilesystemCertConfig := MkFilesystemCert {
  fs_CA : string; fs_Certificate : string; fs_PrivateKey : string; fs_ServerCert : string; fs_ServerKey : string }.

Record StepCACertProviderConfig := MkStepCACert {
  sp_URL : string; sp_Root : string; sp_Provisioner : string; sp_ProvisionerPasswordFile : string }.

Record CertificatesConfig := MkCertificates {
  crt_Provider : string; crt_Filesystem : FilesystemCertConfig; crt_StepCA : StepCACertProviderConfig }.

(** [TransportConfig] and [AuthorizationConfig] hold one field each. *)
Record SecurityConfig := MkSecurity {
  sec_Mode : string; sec_Certificates : CertificatesConfig; sec_Authorization : string }.

Definition TransportModeLocal := "local".
Definition TransportModeTLS := "tls".
Definition TransportModeMTLS := "mtls".

Record RepoSetupConfig := MkRepoSetup {
  rs_Enabled : option bool; rs_ConfigPath : string; rs_DefaultTimeout : string; rs_MaxTimeout : string }.

Record TelemetryConfig := MkTelemetry {
  tel_Enabled : bool; tel_SourceID : string; tel_ActorID : string; tel_SourceLabel : string;
  tel_IdentityKeyFile : string; tel_SpoolDir : string; tel_CollectorTarget : string; tel_CollectorInsecure : bool;
  tel_CollectorCA : string; tel_CollectorServerName : string; tel_CollectorURL : string;
  tel_CollectorCredentialFile : string; tel_CollectorManaged : bool; tel_Kinds : list string; tel_QueueSize : Z;
  tel_RollingWindow : string; tel_FlushInterval : string; tel_RetryInterval : string; tel_MaxSegmentBytes : Z;
  tel_MaxDiskSpace : string; tel_DeprecatedMaxSegments : bool; tel_IncludeRedactedText : bool }.

Record ControlConfig := MkControlCfg { ctl_Endpoint : string; ctl_CredentialFile : string; ctl_ManagedByBridge : bool }.

Record ServerConfig := MkServerCfg {
  srv_Listen : string; srv_SANs : list string; srv_CertValidity : string; srv_CertRenewalCheckInterval : string }.

Record StepCAClientConfig := MkStepCAClient { sc_Issuer : string; sc_KeyPath : string; sc_Required : bool }.

Record StepCAYAMLConfig := MkStepCA {
  ca_URL : string; ca_Root : string; ca_Provisioner : string; ca_ProvisionerPasswordFile : string;
  ca_Clients : list StepCAClientConfig }.

Record TLSConfig := MkTLS { tls_CABundle : string; tls_Cert : string; tls_Key : string }.

(** [au_JWTPublicKeys]: issuer and key path. *)
Record AuthConfig := MkAuth { au_JWTPublicKeys : list (string * string); au_JWTAudience : string; au_JWTMaxTTL : string }.

Record SessionsConfig := MkSessions {
  se_MaxPerProject : Z; se_MaxGlobal : Z; se_IdleTimeout : string; se_StopGracePeriod : string;
  se_EventBufferSize : Z; se_MaxSubscribersPerSession : Z; se_SubscriberTTL : string }.

Record RateLimitsConfig := MkRates {
  rt_GlobalRPS : float64; rt_GlobalBurst : Z; rt_StartSessionPerClientRPS : float64; rt_StartSessionPerClientBurst : Z;
  rt_SendInputPerSessionRPS : float64; rt_SendInputPerSessionBurst : Z }.

Record ProviderConfig := MkProviderCfg {
  pc_Binary : string; pc_Mode : string; pc_Args : list string; pc_StartupTimeout : string;
  pc_ValidateStartup : option bool; pc_StartupProbe : string; pc_RequiredEnv : list string; pc_PTY : option bool;
  pc_StreamJSON : bool; pc_StripANSI : bool; pc_PromptPattern : string; pc_Fallbacks : list string;
  pc_Transport : string; pc_Hostname : string; pc_PortRange : string }.

Record LoggingConfig := MkLogging { log_Level : string; log_Format : string; log_RedactPatterns : list string }.

(** [PersistenceConfig]'s reserved [ChunkStorageBytes] is read nowhere and left out. *)
Record Config := MkCfg {
  cf_Name : string; cf_Server : ServerConfig; cf_Security : SecurityConfig; cf_StepCA : StepCAYAMLConfig;
  cf_TLS : TLSConfig; cf_Auth : AuthConfig; cf_ProviderFallbacks : bool; cf_Sessions : SessionsConfig;
  cf_MaxSizeBytes : Z; cf_RateLimits : RateLimitsConfig; cf_DBPath : string; cf_ProviderRoot : string;
  cf_RepoSetup : RepoSetupConfig; cf_Telemetry : TelemetryConfig; cf_Control : ControlConfig;
  cf_Providers : gmap string ProviderConfig; cf_AllowedPaths : list string; cf_Logging : LoggingConfig }.

Definition with_Security (c : Config) (s : SecurityConfig) : Config :=
  MkCfg (cf_Name c) (cf_Server c) s (cf_StepCA c) (cf_TLS c) (cf_Auth c) (cf_ProviderFallbacks c) (cf_Sessions c)
    (cf_MaxSizeBytes c) (cf_RateLimits c) (cf_DBPath c) (cf_ProviderRoot c) (cf_RepoSetup c) (cf_Telemetry c)
    (cf_Control c) (cf_Providers c) (cf_AllowedPaths c) (cf_Logging c).
Definition with_ProviderRoot (c : Config) (r : string) : Config :=
  MkCfg (cf_Name c) (cf_Server c) (cf_Security c) (cf_StepCA c) (cf_TLS c) (cf_Auth c) (cf_ProviderFallbacks c)
    (cf_Sessions c) (cf_MaxSizeBytes c) (cf_RateLimits c) (cf_DBPath c) r (cf_RepoSetup c) (cf_Telemetry c)
    (cf_Control c) (cf_Providers c) (cf_AllowedPaths c) (cf_Logging c).
Definition with_Telemetry (c : Config) (t : TelemetryConfig) : Config :=
  MkCfg (cf_Name c) (cf_Server c) (cf_Security c) (cf_StepCA c) (cf_TLS c) (cf_Auth c) (cf_ProviderFallbacks c)
    (cf_Sessions c) (cf_MaxSizeBytes c) (cf_RateLimits c) (cf_DBPath c) (cf_ProviderRoot c) (cf_RepoSetup c) t
    (cf_Control c) (cf_Providers c) (cf_AllowedPaths c) (cf_Logging c).

Definition SecurityMode (s : SecurityConfig) : string := if str_eqb (sec_Mode s) "" then TransportModeLocal else sec_Mode s.
Definition IsSecurityConfigured (s : SecurityConfig) : bool := negb (str_eqb (sec_Mode s) "").
Definition repo_setup_IsEnabled (r : RepoSetupConfig) : bool := default true (rs_Enabled r).
Definition ShouldValidateStartup (p : ProviderConfig) : bool := default true (pc_ValidateStartup p).

(** ** Helpers *)

Definition ParseDuration (s : string) (fallback : Duration) : Duration :=
  if str_eqb s "" then fallback else default fallback (time_ParseDuration (chars s)).

Definition safeIssuerName (issuer : string) : bool :=
  match runes (chars issuer) with
  | [] => false
  | (r, _) :: _ =>
      forallb (fun rw => let r := fst rw in alnum r || (r =? 45)%Z || (r =? 95)%Z || (r =? 46)%Z) (runes (chars issuer)) &&
      negb ((r =? 45)%Z || (r =? 95)%Z || (r =? 46)%Z)
  end.

(** [telemetry.ValidSourceID]: the pattern [^[A-Za-z0-9][A-Za-z0-9._-]{0,127}$]. *)
Definition ValidSourceID (sourceID : string) : bool :=
  match chars sourceID with
  | [] => false
  | c :: s => alnum c && (length s <=? 127)%nat && forallb (fun c => alnum c || (c =? 46)%Z || (c =? 95)%Z || (c =? 45)%Z) s
  end.

Definition IsAbs (path : string) : bool := has_prefix [SEP] (chars path).

Definition hasParentPathComponent (path : string) : bool :=
  existsb (fun part => bool_decide (part = DOTDOT)) (split_path (Clean (chars path))).

(** [ParsePortRange]: the first port and the one after the last. *)
Definition ParsePortRange (s : list Z) : option (Z * Z) :=
  match Cut 45 s with
  | None => None
  | Some (a, b) =>
      match Atoi (TrimSpace a) with
      | None => None
      | Some start =>
          match Atoi (TrimSpace b) with
          | None => None
          | Some endInclusive =>
              let end_ := (endInclusive + 1)%Z in
              if (start <=? 0)%Z || (endInclusive <=? 0)%Z || (endInclusive <? start)%Z then None
              else if (65535 <? start)%Z || (65535 <? endInclusive)%Z then None
              else Some (start, end_)
          end
      end
  end.

(** ** Defaults *)

Definition or_text (s d : string) : string := if str_eqb s "" then d else s.
Definition or_int (n d : Z) : Z := if (n =? 0)%Z then d else n.
Definition f_is_zero (f : float64) : bool := SpecFloat.SFeqb f f_zero.
Definition or_float (f : float64) (d : Z) : float64 := if f_is_zero f then f_of_int d else f.

Definition default_kinds : list string := ["session_started"; "session_context"; "question"; "answer"; "session_ended"].
Definition all_kinds : list string :=
  ["session_started"; "session_context"; "provider_output"; "user_input"; "question"; "answer"; "session_ended"].

Definition default_Kinds (kinds : list string) : list string :=
  match kinds with
  | [] => default_kinds
  | [k] => if str_eqb k "all" then all_kinds else kinds
  | _ => kinds
  end.

Definition default_Telemetry (t : TelemetryConfig) : TelemetryConfig :=
  MkTelemetry (tel_Enabled t) (tel_SourceID t) (tel_ActorID t) (tel_SourceLabel t) (tel_IdentityKeyFile t)
    (tel_SpoolDir t) (tel_CollectorTarget t) (tel_CollectorInsecure t) (tel_CollectorCA t) (tel_CollectorServerName t)
    (tel_CollectorURL t) (tel_CollectorCredentialFile t) (tel_CollectorManaged t) (default_Kinds (tel_Kinds t))
    (or_int (tel_QueueSize t) 1024) (or_text (tel_RollingWindow t) "168h") (or_text (tel_FlushInterval t) "30s")
    (or_text (tel_RetryInterval t) "1s") (or_int (tel_MaxSegmentBytes t) 10485760) (or_text (tel_MaxDiskSpace t) "1GB")
    (tel_DeprecatedMaxSegments t) (tel_IncludeRedactedText t).

Definition applyDefaults (c : Config) : Config :=
  let srv := cf_Server c in let au := cf_Auth c in let se := cf_Sessions c in let rt := cf_RateLimits c in
  let rs := cf_RepoSetup c in let lg := cf_Logging c in
  MkCfg (cf_Name c)
    (MkServerCfg (or_text (srv_Listen srv) "0.0.0.0:9445") (srv_SANs srv) (srv_CertValidity srv) (srv_CertRenewalCheckInterval srv))
    (cf_Security c) (cf_StepCA c) (cf_TLS c)
    (MkAuth (au_JWTPublicKeys au) (or_text (au_JWTAudience au) "bridge") (or_text (au_JWTMaxTTL au) "5m"))
    (cf_ProviderFallbacks c)
    (MkSessions (or_int (se_MaxPerProject se) 5) (or_int (se_MaxGlobal se) 20) (or_text (se_IdleTimeout se) "24h")
       (or_text (se_StopGracePeriod se) "10s") (or_int (se_EventBufferSize se) 10000)
       (or_int (se_MaxSubscribersPerSession se) 10) (or_text (se_SubscriberTTL se) "30m"))
    (or_int (cf_MaxSizeBytes c) 65536)
    (MkRates (or_float (rt_GlobalRPS rt) 50) (or_int (rt_GlobalBurst rt) 100)
       (or_float (rt_StartSessionPerClientRPS rt) 1) (or_int (rt_StartSessionPerClientBurst rt) 3)
       (or_float (rt_SendInputPerSessionRPS rt) 20) (or_int (rt_SendInputPerSessionBurst rt) 50))
    (cf_DBPath c) (cf_ProviderRoot c)
    (MkRepoSetup (rs_Enabled rs) (or_text (rs_ConfigPath rs) ".bridgectl.yaml") (or_text (rs_DefaultTimeout rs) "2m")
       (or_text (rs_MaxTimeout rs) "15m"))
    (default_Telemetry (cf_Telemetry c)) (cf_Control c) (cf_Providers c) (cf_AllowedPaths c)
    (MkLogging (or_text (log_Level lg) "info") (or_text (log_Format lg) "json") (log_RedactPatterns lg)).

(** The security block of a file that has none. *)
Definition synthesizeSecurity (c : Config) : Config :=
  if IsSecurityConfigured (cf_Security c) then c
  else
    let crt := sec_Certificates (cf_Security c) in
    let listen := srv_Listen (cf_Server c) in
    let hasListen := negb (str_eqb listen "") && negb (str_eqb listen "0.0.0.0:9445") in
    let hasStepCA := negb (str_eqb (ca_URL (cf_StepCA c)) "") in
    let hasExplicitTLS := negb (str_eqb (tls_CABundle (cf_TLS c)) "") in
    if negb hasListen && negb hasStepCA && negb hasExplicitTLS then
      with_Security c (MkSecurity TransportModeLocal (MkCertificates "auto" (crt_Filesystem crt) (crt_StepCA crt)) "none")
    else
      let crt' :=
        if hasStepCA then
          MkCertificates "stepca" (crt_Filesystem crt)
            (MkStepCACert (ca_URL (cf_StepCA c)) (ca_Root (cf_StepCA c)) (ca_Provisioner (cf_StepCA c))
               (ca_ProvisionerPasswordFile (cf_StepCA c)))
        else if hasExplicitTLS then
          MkCertificates "filesystem"
            (MkFilesystemCert (tls_CABundle (cf_TLS c)) "" "" (tls_Cert (cf_TLS c)) (tls_Key (cf_TLS c))) (crt_StepCA crt)
        else MkCertificates "auto" (crt_Filesystem crt) (crt_StepCA crt) in
      with_Security c (MkSecurity TransportModeMTLS crt' "jwt").

(** ** The provider root; [getenv] answers the empty text for a variable that is unset *)

Definition provider_variable (name : list Z) : bool := bool_decide (name = chars "HOME") || bool_decide (name = chars "XDG_DATA_HOME").

Definition missing_variable (getenv : string -> string) (name : list Z) : bool :=
  negb (provider_variable name) || str_eqb (getenv (text name)) "".

Definition expandProviderRoot (getenv : string -> string) (root : string) : string + string :=
  let '(expanded, names) :=
    Expand (String.length root) (fun name => if provider_variable name then chars (getenv (text name)) else []) (chars root) in
  if existsb (missing_variable getenv) names
  then inl "config: runtime.provider_root references unset or unsupported environment variable"
  else inr (text expanded).

Definition expandRuntimeConfig (getenv : string -> string) (c : Config) : string + Config :=
  if str_eqb (cf_ProviderRoot c) "" then inr c
  else match expandProviderRoot getenv (cf_ProviderRoot c) with
       | inl e => inl e
       | inr expanded => inr (with_ProviderRoot c expanded)
       end.

(** ** Validation; [None]: accepted *)

Local Notation "'reject' b 'with' e ; k" := (if b then Some e else k) (at level 200, b at level 99, e at level 99, k at level 200).

Definition one_of (s : string) (l : list string) : bool := bool_decide (s ∈ l).

Definition validateSecurity (c : Config) : option string :=
  let s := cf_Security c in
  reject negb (one_of (SecurityMode s) [TransportModeLocal; TransportModeTLS; TransportModeMTLS]) with "security.transport.mode";
  reject negb (one_of (crt_Provider (sec_Certificates s)) ["filesystem"; "auto"; "stepca"; ""]) with "security.certificates.provider";
  reject negb (one_of (sec_Authorization s) ["jwt"; "none"; ""]) with "security.authorization.mode";
  None.

(** The loop over the kinds with the set of those seen. *)
Fixpoint validate_kinds (seen : list string) (kinds : list string) : option string :=
  match kinds with
  | [] => None
  | kind :: kinds =>
      reject negb (one_of kind all_kinds) with "telemetry.kinds contains unsupported value";
      reject one_of kind seen with "telemetry.kinds contains duplicate value";
      validate_kinds (kind :: seen) kinds
  end.

Fixpoint validate_fallbacks (providers : gmap string ProviderConfig) (name : string) (fbs : list string) : option string :=
  match fbs with
  | [] => None
  | fb :: fbs =>
      reject str_eqb fb name with "provider cannot be its own fallback";
      reject bool_decide (providers !! fb = None) with "unknown provider";
      validate_fallbacks providers name fbs
  end.

Definition is_duration (s : string) : bool := match time_ParseDuration (chars s) with Some _ => true | None => false end.
Definition positive_duration (s : string) : bool := match time_ParseDuration (chars s) with Some d => (0 <? d)%Z | None => false end.
Definition optional_duration (s : string) : bool :=
  str_eqb s "" || match time_ParseDuration (chars s) with Some d => (0 <=? d)%Z | None => false end.

Definition validate_provider (providers : gmap string ProviderConfig) (name : string) (p : ProviderConfig) : option string :=
  reject str_eqb (pc_Binary p) "" with "binary is required";
  reject negb (str_eqb (pc_Mode p) "") with "mode is no longer supported";
  reject negb (one_of (pc_Transport p) [""; "opencode_server"; "stdio"]) with "transport";
  reject negb (str_eqb (pc_PortRange p) "") && bool_decide (ParsePortRange (chars (pc_PortRange p)) = None) with "port_range";
  reject bool_decide (pc_PTY p <> None) with "pty is no longer supported";
  reject negb (one_of (pc_StartupProbe p) [""; "prompt"; "output"; "none"]) with "startup_probe";
  reject negb (str_eqb (pc_StartupTimeout p) "") && negb (is_duration (pc_StartupTimeout p)) with "startup_timeout";
  reject existsb (fun env => blank (chars env)) (pc_RequiredEnv p) with "required_env must not be empty";
  reject (2 <? length (pc_Fallbacks p))%nat with "fallbacks must have at most 2 entries";
  validate_fallbacks providers name (pc_Fallbacks p).

Fixpoint validate_providers (providers : gmap string ProviderConfig) (order : list (string * ProviderConfig)) : option string :=
  match order with
  | [] => None
  | (name, p) :: order =>
      match validate_provider providers name p with
      | Some e => Some e
      | None => validate_providers providers order
      end
  end.

(** What the code reads of a parsed URL. *)
Record URL := MkURL {
  u_Scheme : string; u_Host : string; u_User : bool; u_RawQuery : string; u_ForceQuery : bool; u_Fragment : string;
  u_Path : string }.

(** What is outside: YAML, byte sizes, URLs, and the order of a range over a map. *)
Class ConfigWorld := {
  yaml_Config : bytes -> option Config;
  yaml_IncludeText : bytes -> option (option bool);
  yaml_Listen : bytes -> option (option string);
  yaml_Logging : bytes -> option (string * string);
  humanize_ParseBytes : list Z -> option N;
  url_Parse : string -> option URL;
  range : gmap string ProviderConfig -> list (string * ProviderConfig);
  range_perm : forall m, range m ≡ₚ map_to_list m;
}.

Section Load.
Context `{ConfigWorld}.

Definition MaxInt64 : Z := 9223372036854775807.

Definition ParseByteSize (value : string) : option Z :=
  match humanize_ParseBytes (TrimSpace (chars value)) with
  | None => None
  | Some n => let bytes := Z.of_N n in if (bytes =? 0)%Z || (MaxInt64 <? bytes)%Z then None else Some bytes
  end.

Definition collector_target_ok (target : string) : bool :=
  match SplitHostPort (chars target) with
  | None => false
  | Some (host, port) => negb (blank host) && negb (blank port)
  end.

Definition collector_url_ok (url : string) : bool :=
  match url_Parse url with
  | None => false
  | Some u => str_eqb (u_Scheme u) "https" && negb (str_eqb (u_Host u) "") && negb (u_User u) && str_eqb (u_RawQuery u) "" &&
              negb (u_ForceQuery u) && str_eqb (u_Fragment u) ""
  end.

Definition validate_limits (c : Config) : option string :=
  let se := cf_Sessions c in let rt := cf_RateLimits c in
  reject str_eqb (srv_Listen (cf_Server c)) "" with "server.listen is required";
  reject (cf_MaxSizeBytes c <=? 0)%Z with "input.max_size_bytes must be > 0";
  reject (se_MaxPerProject se <? 0)%Z || (se_MaxGlobal se <? 0)%Z with "session limits must be >= 0";
  reject (se_EventBufferSize se <=? 0)%Z with "sessions.event_buffer_size must be > 0";
  reject (se_MaxSubscribersPerSession se <=? 0)%Z with "sessions.max_subscribers_per_session must be > 0";
  reject f_le (rt_GlobalRPS rt) f_zero || (rt_GlobalBurst rt <=? 0)%Z with "rate_limits.global_rps/global_burst";
  reject f_le (rt_StartSessionPerClientRPS rt) f_zero || (rt_StartSessionPerClientBurst rt <=? 0)%Z
    with "rate_limits.start_session_per_client_rps/start_session_per_client_burst";
  reject f_le (rt_SendInputPerSessionRPS rt) f_zero || (rt_SendInputPerSessionBurst rt <=? 0)%Z
    with "rate_limits.send_input_per_session_rps/send_input_per_session_burst";
  reject negb (str_eqb (cf_ProviderRoot c) "") && negb (IsAbs (cf_ProviderRoot c)) with "runtime.provider_root must be absolute";
  None.

Definition validate_repo_setup (rs : RepoSetupConfig) : option string :=
  reject str_eqb (rs_ConfigPath rs) "" with "repo_setup.config_path is required";
  reject IsAbs (rs_ConfigPath rs) with "repo_setup.config_path must be relative";
  reject hasParentPathComponent (rs_ConfigPath rs) with "repo_setup.config_path must not contain '..'";
  match time_ParseDuration (chars (rs_DefaultTimeout rs)) with
  | None => Some "repo_setup.default_timeout"
  | Some defaultSetupTimeout =>
      reject (defaultSetupTimeout <=? 0)%Z with "repo_setup.default_timeout must be > 0";
      match time_ParseDuration (chars (rs_MaxTimeout rs)) with
      | None => Some "repo_setup.max_timeout"
      | Some maxSetupTimeout =>
          reject (maxSetupTimeout <=? 0)%Z with "repo_setup.max_timeout must be > 0";
          reject (maxSetupTimeout <? defaultSetupTimeout)%Z with "repo_setup.default_timeout must not exceed repo_setup.max_timeout";
          None
      end
  end.

Definition validate_telemetry (t : TelemetryConfig) : option string :=
  reject (tel_QueueSize t <? 1)%Z with "telemetry.queue_size must be positive";
  reject negb (positive_duration (tel_RollingWindow t)) with "telemetry.rolling_window";
  match validate_kinds [] (tel_Kinds t) with
  | Some e => Some e
  | None =>
      reject negb (str_eqb (tel_CollectorTarget t) "") && negb (collector_target_ok (tel_CollectorTarget t))
        with "telemetry.collector_target must be a host:port address";
      reject negb (str_eqb (tel_CollectorURL t) "") && negb (collector_url_ok (tel_CollectorURL t))
        with "telemetry.collector_url must be an HTTPS URL";
      reject tel_CollectorInsecure t && (negb (str_eqb (tel_CollectorCA t) "") || negb (str_eqb (tel_CollectorServerName t) ""))
        with "telemetry.collector_ca and collector_server_name require TLS";
      reject negb (positive_duration (tel_FlushInterval t)) with "telemetry.flush_interval must be a positive duration";
      reject negb (positive_duration (tel_RetryInterval t)) with "telemetry.retry_interval must be a positive duration";
      reject (tel_MaxSegmentBytes t <? 1)%Z with "telemetry.max_segment_bytes must be positive";
      reject tel_DeprecatedMaxSegments t with "telemetry.max_segments has been removed; use max_disk_space";
      reject negb (str_eqb (tel_SourceID t) "") && negb (ValidSourceID (tel_SourceID t)) with "telemetry.source_id";
      reject negb (str_eqb (tel_ActorID t) "") && negb (ValidSourceID (tel_ActorID t)) with "telemetry.actor_id";
      reject negb (str_eqb (tel_SourceLabel t) "") && negb (ValidSourceID (tel_SourceLabel t)) with "telemetry.source_label";
      match ParseByteSize (tel_MaxDiskSpace t) with
      | None => Some "telemetry.max_disk_space"
      | Some maxDiskBytes =>
          reject (maxDiskBytes <? tel_MaxSegmentBytes t)%Z with "telemetry.max_disk_space must be at least telemetry.max_segment_bytes";
          None
      end
  end.

Definition validate_durations (c : Config) : option string :=
  reject negb (is_duration (au_JWTMaxTTL (cf_Auth c))) with "auth.jwt_max_ttl";
  reject negb (optional_duration (srv_CertValidity (cf_Server c))) with "server.cert_validity";
  reject negb (optional_duration (srv_CertRenewalCheckInterval (cf_Server c))) with "server.cert_renewal_check_interval";
  reject negb (forallb (fun client => safeIssuerName (sc_Issuer client)) (ca_Clients (cf_StepCA c))) with "step_ca.clients.issuer";
  reject negb (is_duration (se_IdleTimeout (cf_Sessions c))) with "sessions.idle_timeout";
  reject negb (is_duration (se_StopGracePeriod (cf_Sessions c))) with "sessions.stop_grace_period";
  reject negb (is_duration (se_SubscriberTTL (cf_Sessions c))) with "sessions.subscriber_ttl";
  None.

(** The first error of a list of checks made in this order. *)
Fixpoint first_error (l : list (option string)) : option string :=
  match l with [] => None | Some e :: _ => Some e | None :: l => first_error l end.

Definition validate (c : Config) : option string :=
  first_error [validateSecurity c; validate_limits c; validate_repo_setup (cf_RepoSetup c); validate_telemetry (cf_Telemetry c);
               validate_durations c; validate_providers (cf_Providers c) (range (cf_Providers c))].

(** ** Loading *)

Inductive file := NotExist | ReadFailed | Contents (data : bytes).

Inductive load_error := LoadNotExist | LoadReadFailed | LoadParse | LoadInvalid (e : string).

(** A session managed by Bridge needs the redacted output unless the file says
    otherwise. *)
Definition managed_capture (explicit : option bool) (t : TelemetryConfig) : TelemetryConfig :=
  MkTelemetry (tel_Enabled t) (tel_SourceID t) (tel_ActorID t) (tel_SourceLabel t) (tel_IdentityKeyFile t)
    (tel_SpoolDir t) (tel_CollectorTarget t) (tel_CollectorInsecure t) (tel_CollectorCA t) (tel_CollectorServerName t)
    (tel_CollectorURL t) (tel_CollectorCredentialFile t) (tel_CollectorManaged t)
    (match tel_Kinds t with [] => ["all"] | kinds => kinds end)
    (tel_QueueSize t) (tel_RollingWindow t) (tel_FlushInterval t) (tel_RetryInterval t) (tel_MaxSegmentBytes t)
    (tel_MaxDiskSpace t) (tel_DeprecatedMaxSegments t)
    (match explicit with None => true | Some _ => tel_IncludeRedactedText t end).

Definition finish (getenv : string -> string) (c : Config) : load_error + Config :=
  match expandRuntimeConfig getenv (synthesizeSecurity (applyDefaults c)) with
  | inl e => inl (LoadInvalid e)
  | inr c => match validate c with Some e => inl (LoadInvalid e) | None => inr c end
  end.

Definition Load (getenv : string -> string) (f : file) : load_error + Config :=
  match f with
  | NotExist => inl LoadNotExist
  | ReadFailed => inl LoadReadFailed
  | Contents data =>
      match yaml_Config data with
      | None => inl LoadParse
      | Some c =>
          if tel_CollectorManaged (cf_Telemetry c) then
            match yaml_IncludeText data with
            | None => inl LoadParse
            | Some explicit => finish getenv (with_Telemetry c (managed_capture explicit (cf_Telemetry c)))
            end
          else finish getenv c
      end
  end.

Definition HasExplicitServerListen (f : file) : load_error + bool :=
  match f with
  | NotExist => inl LoadNotExist
  | ReadFailed => inl LoadReadFailed
  | Contents data =>
      match yaml_Listen data with
      | None => inl LoadParse
      | Some None => inr false
      | Some (Some listen) => inr (negb (blank (chars listen)))
      end
  end.

Definition ExplicitLogging (f : file) : load_error + string * string :=
  match f with
  | NotExist => inl LoadNotExist
  | ReadFailed => inl LoadReadFailed
  | Contents data => match yaml_Logging data with None => inl LoadParse | Some lf => inr lf end
  end.

End Load.

Arguments NotExist : clear implicits.

(** ** Node *)

Definition parseRequiredNodeMajor (s : list Z) : option Z :=
  match TrimSpace s with
  | [] => None
  | trimmed =>
      match Atoi (TrimPrefix [118] (before 46 trimmed)) with
      | Some major => if (major <=? 0)%Z then None else Some major
      | None => None
      end
  end.

Definition parseNodeMajorVersion (s : list Z) : option Z :=
  match TrimSpace (TrimPrefix [118] (TrimSpace s)) with
  | [] => None
  | trimmed =>
      match Atoi (before 46 trimmed) with
      | Some major => if (major <=? 0)%Z then None else Some major
      | None => None
      end
  end.

Definition nodeVersionMatchesRequirement (requiredMajor actualMajor : Z) : bool := (requiredMajor <=? actualMajor)%Z.

(** [nvmrc]: what the file holds; [node]: what [node --version] prints, [None] when
    node is missing or fails. *)
Definition ValidateNodeRuntime (nvmrc : option (list Z)) (node : option (list Z)) : option string :=
  match nvmrc with
  | None => Some "read .nvmrc"
  | Some data =>
      match parseRequiredNodeMajor data with
      | None => Some ".nvmrc"
      | Some requiredMajor =>
          match node with
          | None => Some "node not found on PATH or failing"
          | Some output =>
              match parseNodeMajorVersion output with
              | None => Some "parse node version"
              | Some actualMajor =>
                  if nodeVersionMatchesRequirement requiredMajor actualMajor then None else Some "node too old"
              end
          end
      end
  end.

Definition RequiresNodeRuntime (c : Config) : bool :=
  existsb (fun '(_, p) => let base := Base (chars (pc_Binary p)) in
             bool_decide (base = chars "node") || bool_decide (base = chars "nodejs")) (map_to_list (cf_Providers c)).

(** ** The dotenv file *)

Definition MaxScanTokenSize : Z := 65536.

(** [bufio.ScanLines]: lines end at a newline; an unfinished last line counts, an
    empty one does not. *)
Fixpoint scan_lines (cur : list Z) (s : list Z) : list (list Z) :=
  match s with
  | [] => match cur with [] => [] | _ => [reverse cur] end
  | 10 :: s => reverse cur :: scan_lines [] s
  | c :: s => scan_lines (c :: cur) s
  end%Z.

Definition drop_cr (line : list Z) : list Z := trim_suffix [13%Z] line.

Definition unquote (value : list Z) : list Z :=
  match value, reverse value with
  | a :: rest, b :: _ =>
      if (2 <=? length value)%nat && (((a =? 34)%Z && (b =? 34)%Z) || ((a =? 39)%Z && (b =? 39)%Z))
      then take (length rest - 1) rest else value
  | _, _ => value
  end.

(** One line of the loop: the environment after it and an error, if any. *)
Definition dotenv_line (env : gmap string (list Z)) (raw : list Z) : gmap string (list Z) * option string :=
  let line := TrimSpace (drop_cr raw) in
  if bool_decide (line = []) || has_prefix [35%Z] line then (env, None)
  else
    let line := if has_prefix (chars "export ") line then TrimSpace (TrimPrefix (chars "export ") line) else line in
    match Cut 61 line with
    | None => (env, Some "expected KEY=VALUE")
    | Some (key, rawValue) =>
        let key := TrimSpace key in
        if bool_decide (key = []) then (env, Some "empty key")
        else if bool_decide (env !! text key <> None) then (env, None)
        else
          let value := unquote (TrimSpace rawValue) in
          if bool_decide (0%Z ∈ key) || bool_decide (0%Z ∈ value) then (env, Some "set")
          else (<[text key := value]> env, None)
    end.

Fixpoint dotenv_lines (env : gmap string (list Z)) (lines : list (list Z)) : gmap string (list Z) * option string :=
  match lines with
  | [] => (env, None)
  | raw :: lines =>
      if (MaxScanTokenSize <=? zlen raw)%Z then (env, Some "read dotenv: token too long")
      else match dotenv_line env raw with
           | (env, Some e) => (env, Some e)
           | (env, None) => dotenv_lines env lines
           end
  end.

(** [f]: [inl true] when the file does not exist, [inl false] when it cannot be
    opened. *)
Definition LoadDotEnv (env : gmap string (list Z)) (f : bool + list Z) : gmap string (list Z) * option string :=
  match f with
  | inl true => (env, None)
  | inl false => (env, Some "open dotenv file")
  | inr data => dotenv_lines env (scan_lines [] data)
  end.

Example dotenv_example :
  let (env, e) := LoadDotEnv {["A" := chars "old"]}
    (inr (List.concat [chars "# c"; [10]; chars "export B='x y'"; [13; 10]; chars "A=new"; [10]; chars "C = 1"; [10; 10]; chars "bad"]))%Z in
  env = {["A" := chars "old"; "B" := chars "x y"; "C" := chars "1"]} /\ e = Some "expected KEY=VALUE".
Proof. vm_compute; split; reflexivity. Qed.

(** Variables that are set, in the process or by an earlier line, keep their value. *)
Lemma dotenv_keeps env f env' e : LoadDotEnv env f = (env', e) -> env ⊆ env'.
Proof.
  destruct f as [[]|data]; cbn; [intros [= <- _]; reflexivity..|].
  revert env; induction (scan_lines [] data) as [|raw lines IH]; intros env; cbn; [intros [= <- _]; reflexivity|].
  destruct (_ <=? _)%Z; [intros [= <- _]; reflexivity|].
  assert (forall env1 e1, dotenv_line env raw = (env1, e1) -> env ⊆ env1) as Hline.
  { unfold dotenv_line; intros env1 e1; destruct (_ || _); [intros [= <- _]; reflexivity|].
    destruct (Cut _ _) as [[key v]|]; [|intros [= <- _]; reflexivity].
    destruct (bool_decide (TrimSpace key = _)); [intros [= <- _]; reflexivity|].
    case_bool_decide as Hn; [intros [= <- _]; reflexivity|]; destruct (_ || _); intros [= <- _]; [reflexivity|].
    apply insert_subseteq; destruct (env !! _); [contradict Hn; discriminate|reflexivity]. }
  destruct (dotenv_line env raw) as [env1 [e1|]] eqn:E; specialize (Hline _ _ eq_refl).
  - intros [= <- _]; exact Hline.
  - intros H; apply IH in H; transitivity env1; assumption.
Qed.

(** ** Paths that stay below a directory *)

Lemma split_path_cons s : exists w ws, split_path s = w :: ws.
Proof. destruct (split_path s) as [|w ws] eqn:E; [|eauto]. destruct s as [|c s]; cbn in E; repeat case_match; discriminate. Qed.

Lemma split_path_app a b : split_path (app a (SEP :: b)) = app (split_path a) (split_path b).
Proof.
  induction a as [|c a IH].
  - cbn; destruct (split_path_cons b) as (w & ws & ->); reflexivity.
  - rewrite <- app_comm_cons; cbn [split_path]; rewrite IH.
    destruct (split_path_cons a) as (w & ws & ->); rewrite <- !app_comm_cons; destruct (c =? SEP)%Z; reflexivity.
Qed.

Lemma split_path_free w : sep_free w -> split_path w = [w].
Proof.
  induction w as [|c w IH]; [reflexivity|]; intros Hw; cbn; rewrite IH by (unfold sep_free in *; set_solver).
  destruct (Z.eqb_spec c SEP) as [->|]; [unfold sep_free in Hw; set_solver|reflexivity].
Qed.

Lemma split_path_join ws : ws <> [] -> Forall sep_free ws -> split_path (join_path ws) = ws.
Proof.
  induction ws as [|w ws IH]; [congruence|]; intros _ Hf; inversion Hf as [|? ? Hw Hws]; subst.
  destruct ws as [|v ws]; [apply split_path_free, Hw|].
  change (join_path (w :: v :: ws)) with (app w (SEP :: join_path (v :: ws))).
  rewrite split_path_app, split_path_free, IH by (assumption || discriminate); reflexivity.
Qed.

(** [".."] at the bottom of a relative path stays. *)
Lemma dotdot_stays parts : forall st, DOTDOT ∈ st -> DOTDOT ∈ fold_left (clean_step false) parts st.
Proof.
  induction parts as [|w parts IH]; intros st Hst; [exact Hst|]; cbn; apply IH; unfold clean_step.
  destruct (_ || _); [exact Hst|]; case_bool_decide; [|set_solver].
  destruct st as [|top rest]; [set_solver|]; case_bool_decide; [set_solver|].
  apply elem_of_cons in Hst as [E|]; [symmetry in E; contradiction|assumption].
Qed.

Lemma clean_below parts : forall st below, DOTDOT ∉ fold_left (clean_step false) parts st ->
  fold_left (clean_step true) parts (app st below) = app (fold_left (clean_step false) parts st) below.
Proof.
  induction parts as [|w parts IH]; intros st below Hno; [reflexivity|]; cbn in *.
  rewrite <- IH by exact Hno; f_equal; unfold clean_step in *.
  destruct (bool_decide (w = []) || _); [reflexivity|]; case_bool_decide; [|reflexivity].
  destruct st as [|top rest]; [destruct Hno; apply dotdot_stays; set_solver|].
  cbn; case_bool_decide; [destruct Hno; apply dotdot_stays; set_solver|reflexivity].
Qed.

Lemma clean_free rooted parts : forall st, Forall sep_free st -> Forall sep_free parts ->
  Forall sep_free (fold_left (clean_step rooted) parts st).
Proof.
  induction parts as [|w parts IH]; intros st Hst Hp; [exact Hst|]; inversion Hp as [|? ? Hw Hps]; subst; cbn.
  apply IH; [|exact Hps]; unfold clean_step; destruct (bool_decide (w = []) || _); [exact Hst|].
  assert (sep_free DOTDOT) by (unfold sep_free; vm_compute; set_solver).
  case_bool_decide; [|constructor; assumption].
  destruct st as [|top rest]; [destruct rooted; [exact Hst|constructor; assumption]|].
  case_bool_decide; [constructor; assumption|inversion Hst; assumption].
Qed.

Lemma clean_components ds : Forall component ds -> forall st, fold_left (clean_step true) ds st = app (reverse ds) st.
Proof.
  induction 1 as [|w ds (_ & Hn & Hd & Hdd) _ IH]; intros st; [reflexivity|]; cbn [fold_left]; rewrite IH.
  unfold clean_step; rewrite !bool_decide_eq_false_2 by assumption; cbn [orb].
  rewrite reverse_cons, <- app_assoc; reflexivity.
Qed.

Lemma split_dir ds st : Forall component ds ->
  fold_left (clean_step true) (split_path (SEP :: join_path ds)) st = fold_left (clean_step true) ds st.
Proof.
  intros Hd; change (SEP :: join_path ds) with (app [] (SEP :: join_path ds)); rewrite split_path_app, fold_left_app.
  destruct ds as [|d ds]; [reflexivity|].
  rewrite split_path_join; [reflexivity|discriminate|eapply List.Forall_impl; [|exact Hd]; intros ? [? _]; assumption].
Qed.

(** A relative path without a parent component, joined to a directory, stays in it. *)
Lemma relative_below path ds : IsAbs path = false -> hasParentPathComponent path = false -> Forall component ds ->
  exists ws, Clean (app (SEP :: join_path ds) (SEP :: chars path)) = SEP :: join_path (app ds ws).
Proof.
  intros Habs Hp Hd; set (parts := split_path (chars path)).
  set (out := fold_left (clean_step false) parts []).
  assert (DOTDOT ∉ out) as Hno.
  { intros Hin; unfold hasParentPathComponent in Hp; rewrite <- not_true_iff_false in Hp; apply Hp.
    assert (Forall sep_free out) as Hfree by (apply clean_free; [constructor|apply split_path_sep_free]).
    apply existsb_exists; exists DOTDOT; split; [|apply bool_decide_eq_true; reflexivity].
    unfold IsAbs in Habs; unfold Clean; destruct (chars path) as [|c s] eqn:E; [inversion Hin|].
    cbn [has_prefix] in Habs; rewrite Z.eqb_sym in Habs; rewrite andb_true_r in Habs; rewrite Habs.
    fold parts; fold out; destruct (reverse out) as [|w ws] eqn:Er.
    - apply (f_equal reverse) in Er; rewrite reverse_involutive in Er; rewrite Er in Hin; inversion Hin.
    - rewrite <- Er, split_path_join; [apply list_elem_of_In, elem_of_reverse, Hin|rewrite Er; discriminate|apply Forall_reverse, Hfree]. }
  exists (reverse out); unfold Clean; cbn [app]; change (SEP =? SEP)%Z with true; cbn iota.
  change (SEP :: app (join_path ds) (SEP :: chars path)) with (app (SEP :: join_path ds) (SEP :: chars path)).
  rewrite split_path_app, fold_left_app, split_dir, (clean_components ds Hd), app_nil_r by exact Hd.
  fold parts; pose proof (clean_below parts [] (reverse ds) Hno) as Hb; cbn [app] in Hb; rewrite Hb; fold out.
  rewrite reverse_app, reverse_involutive; reflexivity.
Qed.

(** ** What an accepted file guarantees *)

Record provider_wf (providers : gmap string ProviderConfig) (name : string) (p : ProviderConfig) : Prop := {
  pw_binary : pc_Binary p <> "";
  pw_transport : pc_Transport p ∈ [""; "opencode_server"; "stdio"];
  pw_ports : pc_PortRange p <> "" -> exists first past, ParsePortRange (chars (pc_PortRange p)) = Some (first, past) /\
               (0 < first < past)%Z /\ (past <= 65536)%Z;
  pw_timeout : pc_StartupTimeout p <> "" -> is_duration (pc_StartupTimeout p) = true;
  pw_env : Forall (fun env => blank (chars env) = false) (pc_RequiredEnv p);
  pw_fallbacks : (length (pc_Fallbacks p) <= 2)%nat;
  pw_known : Forall (fun fb => fb <> name /\ is_Some (providers !! fb)) (pc_Fallbacks p);
}.

Record well_formed `{ConfigWorld} (c : Config) : Prop := {
  wf_mode : SecurityMode (cf_Security c) ∈ [TransportModeLocal; TransportModeTLS; TransportModeMTLS];
  wf_authorization : sec_Authorization (cf_Security c) ∈ ["jwt"; "none"; ""];
  wf_sizes : (0 < cf_MaxSizeBytes c)%Z /\ (0 < se_EventBufferSize (cf_Sessions c))%Z /\
             (0 < se_MaxSubscribersPerSession (cf_Sessions c))%Z;
  wf_limited : let rt := cf_RateLimits c in
    unlimited (newKeyedLimiter (rt_GlobalRPS rt) (rt_GlobalBurst rt)) = false /\
    unlimited (newKeyedLimiter (rt_StartSessionPerClientRPS rt) (rt_StartSessionPerClientBurst rt)) = false /\
    unlimited (newKeyedLimiter (rt_SendInputPerSessionRPS rt) (rt_SendInputPerSessionBurst rt)) = false;
  wf_root : cf_ProviderRoot c = "" \/ IsAbs (cf_ProviderRoot c) = true;
  wf_setup_path : forall ds, Forall component ds ->
    exists ws, Clean (app (SEP :: join_path ds) (SEP :: chars (rs_ConfigPath (cf_RepoSetup c)))) = SEP :: join_path (app ds ws);
  wf_setup_time : exists d m, (0 < d <= m)%Z /\
    (forall fb, ParseDuration (rs_DefaultTimeout (cf_RepoSetup c)) fb = d) /\ (forall fb, ParseDuration (rs_MaxTimeout (cf_RepoSetup c)) fb = m);
  wf_capture : (1 <= tel_QueueSize (cf_Telemetry c))%Z /\ NoDup (tel_Kinds (cf_Telemetry c)) /\
    Forall (fun k => k ∈ all_kinds) (tel_Kinds (cf_Telemetry c));
  wf_collector : let url := tel_CollectorURL (cf_Telemetry c) in url <> "" ->
    exists u, url_Parse url = Some u /\ u_Scheme u = "https" /\ u_Host u <> "" /\ u_User u = false;
  wf_spool : exists disk, ParseByteSize (tel_MaxDiskSpace (cf_Telemetry c)) = Some disk /\
    (1 <= tel_MaxSegmentBytes (cf_Telemetry c) <= disk)%Z /\ (disk <= MaxInt64)%Z;
  wf_intervals : (forall fb, 0 < ParseDuration (tel_FlushInterval (cf_Telemetry c)) fb)%Z /\
    (forall fb, 0 < ParseDuration (tel_RetryInterval (cf_Telemetry c)) fb)%Z;
  wf_issuers : Forall (fun client => safeIssuerName (sc_Issuer client) = true) (ca_Clients (cf_StepCA c));
  wf_providers : map_Forall (provider_wf (cf_Providers c)) (cf_Providers c);
}.

(** Walk through a chain of checks that all passed. *)
Ltac passes := repeat match goal with
  | H : (if ?b then Some _ else _) = None |- _ => let E := fresh "Chk" in destruct b eqn:E; [discriminate H|]
  end.

Ltac tidy := repeat match goal with
  | H : negb _ = false |- _ => apply negb_false_iff in H
  | H : _ || _ = false |- _ => apply orb_false_elim in H as [? ?]
  | H : one_of _ _ = true |- _ => unfold one_of in H; apply bool_decide_eq_true in H
  | H : one_of _ _ = false |- _ => unfold one_of in H; apply bool_decide_eq_false in H
  | H : str_eqb _ _ = false |- _ => apply bool_decide_eq_false in H
  | H : str_eqb _ _ = true |- _ => apply bool_decide_eq_true in H
  | H : (_ <=? _)%Z = false |- _ => apply Z.leb_gt in H
  | H : (_ <? _)%Z = false |- _ => apply Z.ltb_ge in H
  end.

Lemma given_unless s b : negb (str_eqb s "") && negb b = false -> s <> "" -> b = true.
Proof. unfold str_eqb; case_bool_decide; [congruence|]; cbn; destruct b; [reflexivity|discriminate]. Qed.

Lemma ParsePortRange_bounds s a b : ParsePortRange s = Some (a, b) -> (0 < a < b)%Z /\ (b <= 65536)%Z.
Proof.
  unfold ParsePortRange; destruct (Cut 45 s) as [[x y]|]; [|discriminate].
  destruct (Atoi (TrimSpace x)) as [v|]; [|discriminate]; destruct (Atoi (TrimSpace y)) as [w|]; [|discriminate].
  repeat (case_match; [discriminate|]); intros [=]; subst; tidy; lia.
Qed.

Lemma limits_accepted c : validate_limits c = None ->
  ((0 < cf_MaxSizeBytes c)%Z /\ (0 < se_EventBufferSize (cf_Sessions c))%Z /\ (0 < se_MaxSubscribersPerSession (cf_Sessions c))%Z) /\
  (let rt := cf_RateLimits c in
   unlimited (newKeyedLimiter (rt_GlobalRPS rt) (rt_GlobalBurst rt)) = false /\
   unlimited (newKeyedLimiter (rt_StartSessionPerClientRPS rt) (rt_StartSessionPerClientBurst rt)) = false /\
   unlimited (newKeyedLimiter (rt_SendInputPerSessionRPS rt) (rt_SendInputPerSessionBurst rt)) = false) /\
  (cf_ProviderRoot c = "" \/ IsAbs (cf_ProviderRoot c) = true).
Proof.
  unfold validate_limits; intros H; passes.
  unfold unlimited; cbn [newKeyedLimiter kl_rate kl_burst]; split_and!; try (assumption || (tidy; lia)).
  destruct (String.string_dec (cf_ProviderRoot c) ""); [left; assumption|right; eapply given_unless; eassumption].
Qed.

Lemma ParseDuration_ok s d fb : time_ParseDuration (chars s) = Some d -> ParseDuration s fb = d.
Proof.
  intros H; unfold ParseDuration, str_eqb; case_bool_decide; [subst; discriminate H|rewrite H; reflexivity].
Qed.

Lemma positive_parses s fb : positive_duration s = true -> (0 < ParseDuration s fb)%Z.
Proof.
  unfold positive_duration; destruct (time_ParseDuration _) as [d|] eqn:E; [|discriminate].
  intros Hd; rewrite (ParseDuration_ok _ _ _ E); lia.
Qed.

Lemma repo_setup_accepted rs : validate_repo_setup rs = None ->
  (forall ds, Forall component ds ->
    exists ws, Clean (app (SEP :: join_path ds) (SEP :: chars (rs_ConfigPath rs))) = SEP :: join_path (app ds ws)) /\
  (exists d m, (0 < d <= m)%Z /\ (forall fb, ParseDuration (rs_DefaultTimeout rs) fb = d) /\
     (forall fb, ParseDuration (rs_MaxTimeout rs) fb = m)).
Proof.
  unfold validate_repo_setup; intros H; passes; split; [intros ds Hds; apply relative_below; assumption|].
  destruct (time_ParseDuration (chars (rs_DefaultTimeout rs))) as [d|] eqn:Ed; [|discriminate]; passes.
  destruct (time_ParseDuration (chars (rs_MaxTimeout rs))) as [m|] eqn:Em; [|discriminate]; passes; tidy.
  exists d, m; split_and!; [lia..| |]; intros fb; apply ParseDuration_ok; assumption.
Qed.

Lemma kinds_accepted kinds : forall seen, validate_kinds seen kinds = None ->
  NoDup kinds /\ Forall (fun k => k ∈ all_kinds /\ k ∉ seen) kinds.
Proof.
  induction kinds as [|k kinds IH]; intros seen; cbn; [split; [apply NoDup_nil_2|apply List.Forall_nil]|].
  intros H; passes; tidy; destruct (IH _ H) as [Hnd Hall]; split.
  - constructor; [|exact Hnd]; intros Hin; rewrite List.Forall_forall in Hall; apply list_elem_of_In, Hall in Hin as [_ Hk]; set_solver.
  - constructor; [split; assumption|]; eapply List.Forall_impl; [|exact Hall]; cbn; set_solver.
Qed.

Section Accepted.
Context `{ConfigWorld}.

Lemma byte_size_bound s v : ParseByteSize s = Some v -> (v <= MaxInt64)%Z.
Proof.
  unfold ParseByteSize; destruct (humanize_ParseBytes _); [|discriminate]; destruct (_ || _) eqn:E; [discriminate|].
  intros [= <-]; tidy; assumption.
Qed.

Lemma telemetry_accepted t : validate_telemetry t = None ->
  ((1 <= tel_QueueSize t)%Z /\ NoDup (tel_Kinds t) /\ Forall (fun k => k ∈ all_kinds) (tel_Kinds t)) /\
  (tel_CollectorURL t <> "" ->
    exists u, url_Parse (tel_CollectorURL t) = Some u /\ u_Scheme u = "https" /\ u_Host u <> "" /\ u_User u = false) /\
  (exists disk, ParseByteSize (tel_MaxDiskSpace t) = Some disk /\ (1 <= tel_MaxSegmentBytes t <= disk)%Z /\ (disk <= MaxInt64)%Z) /\
  ((forall fb, 0 < ParseDuration (tel_FlushInterval t) fb)%Z /\ (forall fb, 0 < ParseDuration (tel_RetryInterval t) fb)%Z).
Proof.
  unfold validate_telemetry; intros V; passes.
  destruct (validate_kinds [] (tel_Kinds t)) eqn:K; [discriminate|]; passes.
  destruct (ParseByteSize (tel_MaxDiskSpace t)) as [disk|] eqn:B; [|discriminate]; passes.
  apply kinds_accepted in K as [Knd Kall]; split_and!; [tidy; lia|exact Knd| | | |intros fb; apply positive_parses; tidy; assumption..].
  - eapply List.Forall_impl; [|exact Kall]; intros k [? _]; assumption.
  - intros Hu; assert (collector_url_ok (tel_CollectorURL t) = true) as Hok by (eapply given_unless; eassumption).
    unfold collector_url_ok in Hok; destruct (url_Parse _) as [u|]; [|discriminate].
    repeat (apply andb_prop in Hok as [Hok ?]); exists u; split_and!; [reflexivity|eapply bool_decide_eq_true; exact Hok| |].
    + match goal with X : negb (str_eqb (u_Host u) "") = true |- _ => apply negb_true_iff in X; eapply bool_decide_eq_false; exact X end.
    + match goal with X : negb (u_User u) = true |- _ => apply negb_true_iff in X; exact X end.
  - exists disk; split_and!; [reflexivity|tidy; lia..|eapply byte_size_bound, B].
Qed.

Lemma fallbacks_accepted providers name fbs : validate_fallbacks providers name fbs = None ->
  Forall (fun fb => fb <> name /\ is_Some (providers !! fb)) fbs.
Proof.
  induction fbs as [|fb fbs IH]; cbn; intros V; [apply List.Forall_nil|]; passes; tidy; constructor; [|auto].
  split; [assumption|]; apply not_eq_None_Some; eapply bool_decide_eq_false; eassumption.
Qed.

Lemma provider_accepted providers name p : validate_provider providers name p = None -> provider_wf providers name p.
Proof.
  unfold validate_provider; intros V; passes; constructor.
  - tidy; assumption.
  - tidy; assumption.
  - intros Hp; unfold str_eqb in *; rewrite bool_decide_eq_false_2 in * by exact Hp; cbn in *.
    destruct (ParsePortRange _) as [[a b]|] eqn:E.
    + exists a, b; split; [reflexivity|]; eapply ParsePortRange_bounds, E.
    + rewrite bool_decide_eq_true_2 in * by reflexivity; discriminate.
  - intros Hne; eapply given_unless; eassumption.
  - apply List.Forall_forall; intros env Hin; destruct (blank (chars env)) eqn:Hb; [|reflexivity].
    match goal with X : existsb _ _ = false |- _ => rewrite <- not_true_iff_false, existsb_exists in X; destruct X end.
    exists env; split; [exact Hin|exact Hb].
  - match goal with X : (2 <? _)%nat = false |- _ => apply Nat.ltb_ge in X; exact X end.
  - apply fallbacks_accepted; assumption.
Qed.

Lemma providers_accepted providers order : validate_providers providers order = None ->
  Forall (fun '(name, p) => provider_wf providers name p) order.
Proof.
  induction order as [|[name p] order IH]; cbn; intros V; [apply List.Forall_nil|].
  destruct (validate_provider providers name p) eqn:E; [discriminate|]; constructor; [apply provider_accepted, E|auto].
Qed.

Lemma validate_sound c : validate c = None -> well_formed c.
Proof.
  unfold validate; cbn [first_error]; intros V.
  destruct (validateSecurity c) eqn:V1; [discriminate|]; destruct (validate_limits c) eqn:V2; [discriminate|].
  destruct (validate_repo_setup _) eqn:V3; [discriminate|]; destruct (validate_telemetry _) eqn:V4; [discriminate|].
  destruct (validate_durations c) eqn:V5; [discriminate|]; destruct (validate_providers _ _) eqn:V6; [discriminate|].
  apply limits_accepted in V2 as (L1 & L2 & L3); apply repo_setup_accepted in V3 as (R1 & R2).
  apply telemetry_accepted in V4 as (T1 & T2 & T3 & T4); apply providers_accepted in V6.
  unfold validateSecurity in V1; unfold validate_durations in V5; passes; tidy; constructor; try assumption.
  - apply List.Forall_forall; rewrite forallb_forall in *; assumption.
  - intros name p Hp; rewrite range_perm, List.Forall_forall in V6.
    apply elem_of_map_to_list, list_elem_of_In, V6 in Hp; exact Hp.
Qed.

Lemma finish_sound getenv c c' : finish getenv c = inr c' -> well_formed c'.
Proof.
  unfold finish; destruct (expandRuntimeConfig _ _) as [?|c1]; [discriminate|].
  destruct (validate c1) eqn:V; [discriminate|]; intros [= <-]; apply validate_sound, V.
Qed.

Lemma Load_finish getenv f c : Load getenv f = inr c -> exists c0, finish getenv c0 = inr c.
Proof.
  unfold Load; destruct f as [| |data]; [discriminate..|]; destruct (yaml_Config data) as [c0|]; [|discriminate].
  destruct (tel_CollectorManaged _); [destruct (yaml_IncludeText data); [|discriminate]|]; eauto.
Qed.

(** A configuration that [Load] returns meets what the components built from it
    assume: rates and bursts are not at or below zero (a rate that is not a number
    passes, and its limiter then limits nothing: RateLimit.nan_rate_unlimited),
    buffers and queues have a size, the capture kinds are known and distinct, the
    spool's budget holds at least one segment, the repository setup file lies
    inside the repository whatever the repository is and its default timeout does
    not exceed the maximum, a collector URL is HTTPS (a gRPC target may be
    plaintext), issuers are safe names, and every fallback is another configured
    provider. *)
Theorem load_well_formed (getenv : string -> string) (f : file) (c : Config) (Hl : Load getenv f = inr c) : well_formed c.
Proof. apply Load_finish in Hl as [c0 Hc]; eapply finish_sound, Hc. Qed.

End Accepted.

(** A port range survives printing and parsing: [first] to [last] inclusive. *)
Theorem port_range_roundtrip (first last : Z) (H : (0 < first <= last)%Z) (Hm : (last <= 65535)%Z) :
  ParsePortRange (app (Itoa first) (45%Z :: Itoa last)) = Some (first, last + 1)%Z.
Proof.
  destruct (Itoa_spec first) as (D1 & F1 & N1); [lia|]; destruct (Itoa_spec last) as (D2 & F2 & N2); [lia|].
  unfold ParsePortRange; rewrite Cut_absent.
  - rewrite !TrimSpace_graphic, !Atoi_Itoa by (lia || (apply digits_graphic; assumption)).
    replace (first <=? 0)%Z with false by lia; replace (last <=? 0)%Z with false by lia; replace (last <? first)%Z with false by lia.
    replace (65535 <? first)%Z with false by lia; replace (65535 <? last)%Z with false by lia; reflexivity.
  - intros Hin; rewrite forallb_forall in F1; apply list_elem_of_In, F1 in Hin; discriminate Hin.
Qed.

Lemma port_range_roundtrip_witness :
  ParsePortRange (chars "4100-4199") = Some (4100, 4200)%Z /\ ParsePortRange (app (Itoa 4100) (45%Z :: Itoa 4199)) = Some (4100, 4200)%Z.
Proof. split; [vm_compute; reflexivity|apply (port_range_roundtrip 4100 4199); lia]. Defined.

(** ** A concrete world: an empty file, and one with a fallback chain *)

Definition zero_Config : Config :=
  MkCfg "" (MkServerCfg "" [] "" "") (MkSecurity "" (MkCertificates "" (MkFilesystemCert "" "" "" "" "") (MkStepCACert "" "" "" "")) "")
    (MkStepCA "" "" "" "" []) (MkTLS "" "" "") (MkAuth [] "" "") false (MkSessions 0 0 "" "" 0 0 "") 0
    (MkRates f_zero 0 f_zero 0 f_zero 0) "" "" (MkRepoSetup None "" "" "")
    (MkTelemetry false "" "" "" "" "" "" false "" "" "" "" false [] 0 "" "" "" 0 "" false false) (MkControlCfg "" "" false) ∅ []
    (MkLogging "" "" []).

Definition sample_agent (fallbacks : list string) : ProviderConfig :=
  MkProviderCfg "/usr/bin/agent" "" [] "90s" None "prompt" ["API_KEY"] None false false "" fallbacks "opencode_server" "" "4100-4199".

Definition sample_Config : Config :=
  let c := zero_Config in
  MkCfg "ci" (MkServerCfg "10.0.0.1:9445" [] "" "") (cf_Security c) (cf_StepCA c) (cf_TLS c) (cf_Auth c) true (cf_Sessions c) 0
    (cf_RateLimits c) "" "$HOME/agents" (cf_RepoSetup c) (cf_Telemetry c) (cf_Control c)
    {["claude" := sample_agent ["codex"]; "codex" := sample_agent []]} [] (cf_Logging c).

(** A file that asks for mutual TLS and leaves the listen address to the default. *)
Definition mtls_Config : Config :=
  with_Security zero_Config (MkSecurity "mtls" (sec_Certificates (cf_Security zero_Config)) "jwt").

#[export] Instance sample_files : ConfigWorld := {|
  yaml_Config data := match data with [] => Some zero_Config | [Byte.x01] => Some mtls_Config | _ => Some sample_Config end;
  yaml_IncludeText _ := Some None;
  yaml_Listen data := match data with [] | [Byte.x01] => Some None | _ => Some (Some "10.0.0.1:9445") end;
  yaml_Logging _ := Some ("", "");
  humanize_ParseBytes s := if bool_decide (s = chars "1GB") then Some 1000000000%N else None;
  url_Parse _ := None;
  range m := map_to_list m;
  range_perm m := reflexivity _;
|}.

Definition sample_env (name : string) : string := if str_eqb name "HOME" then "/home/ci" else "".

(** The empty file and the sample are accepted; the defaults make the first local
    and the listen address the second one mutual TLS. *)
Example samples_accepted :
  (exists c, Load sample_env (Contents []) = inr c /\ sec_Mode (cf_Security c) = "local") /\
  (exists c, Load sample_env (Contents [Byte.x0a]) = inr c /\ sec_Mode (cf_Security c) = "mtls" /\ cf_ProviderRoot c = "/home/ci/agents").
Proof. split; eexists; split; vm_compute; [reflexivity..|split; reflexivity]. Qed.

Lemma load_well_formed_witness :
  exists c, Load sample_env (Contents [Byte.x0a]) = inr c /\ well_formed c /\ map_Forall (provider_wf (cf_Providers c)) (cf_Providers c).
Proof.
  eexists; split; [vm_compute; reflexivity|].
  assert (well_formed (match Load sample_env (Contents [Byte.x0a]) with inr c => c | inl _ => zero_Config end)) as W
    by (apply (load_well_formed sample_env (Contents [Byte.x0a])); vm_compute; reflexivity).
  vm_compute (match Load _ _ with inl _ => _ | inr _ => _ end) in W.
  split; [exact W|exact (wf_providers _ W)].
Defined.
