(* ===== verification/Startup.v ===== *)
(** * Starting the daemon: internal/localserver/localserver.go

    [Start] merges the configuration file into the options of the command line,
    registers the providers, builds the policy, the supervisor and the token verifier,
    decides the transport and opens the listener; [Stop] and discovery work on the
    files of the state directory.

    The machine (files, environment, key material, sockets) is the record
    [start_world].  Preparing certificates (pki.go) and the telemetry pipeline are
    answers of it; a Unix host is assumed.  The providers are built by
    internal/provider: [new_provider] stands for its constructors, which all report
    the identifier they are given. *)

From Stdlib Require Floats.SpecFloat.
From S2P Require Import Prelude Types GoStd GoText Policy Registry Screen Store Session Supervisor RateLimit Server Tenancy Auth EnrollServer Config.

Local Open Scope string_scope.

Definition bind_sum {E A B} (m : E + A) (k : A -> E + B) : E + B := match m with inl e => inl e | inr a => k a end.
Local Notation "x <- m ;; k" := (bind_sum m (fun x => k)) (at level 100, m at next level, right associativity).
Local Notation "' p <- m ;; k" := (bind_sum m (fun p => k)) (at level 100, p pattern, m at next level, right associativity).

Definition require (b : bool) (e : string) : string + unit := if b then inr tt else inl e.
Definition or_fail {A} (o : option A) (e : string) : string + A := match o with Some a => inr a | None => inl e end.

Lemma bind_inr {X A B} (m : X + A) (k : A -> X + B) b : bind_sum m k = inr b -> exists a, m = inr a /\ k a = inr b.
Proof. destruct m as [|a]; [discriminate|]; eauto. Qed.

Lemma or_fail_inr {A} (o : option A) e a : or_fail o e = inr a -> o = Some a.
Proof. destruct o; cbn; congruence. Qed.

Lemma require_inr b e u : require b e = inr u -> b = true.
Proof. destruct b; cbn; congruence. Qed.

Ltac step_inr H := apply bind_inr in H as (? & ? & H).

(** ** Modes *)

Definition ModeLocal := "local".
Definition ModeTLS := "tls".
Definition ModeMTLS := "mtls".
Definition ModeSecure := "secure".

Definition IsSecureMode (mode : string) : bool := str_eqb mode ModeSecure || str_eqb mode ModeMTLS || str_eqb mode ModeTLS.
Definition IsMutualTLS (mode : string) : bool := str_eqb mode ModeSecure || str_eqb mode ModeMTLS.

(** ** Options; [None] is a nil slice or map *)

Record Options := MkOptions {
  op_StateDir : string; op_Version : string; op_AllowedPaths : option (list string); op_SecurityMode : string;
  op_ListenAddr : string; op_ServerSANs : list string; op_ConfigPath : string; op_DBPath : string;
  op_ProviderFallbacks : option (gmap string (list string)); op_ProviderFallbacksEnabled : bool;
  op_RedactPatterns : option (list string); op_RepoSetupEnabled : option bool; op_RepoSetupConfigPath : string;
  op_RepoSetupDefaultTimeout : Duration; op_RepoSetupMaxTimeout : Duration; op_RateLimits : RateLimitConfig;
  op_EventBufferSize : Z; op_IdleTimeout : Duration; op_CABundlePath : string; op_TLSCertPath : string;
  op_TLSKeyPath : string; op_JWTPublicKeys : option (gmap string string);
  op_StepCAClients : option (list StepCAClientConfig); op_StepCAURL : string; op_StepCARootPath : string;
  op_StepCAProvisioner : string; op_StepCAProvisionerPasswordFile : string;
  op_securityConfig : option SecurityConfig; op_CertValidity : Duration; op_CertRenewalCheckInterval : Duration }.

Definition unless_set (cur new : string) : string := if str_eqb cur "" then new else cur.
Definition unless_nil {A} (cur : option (list A)) (new : list A) : option (list A) :=
  match cur, new with None, _ :: _ => Some new | _, _ => cur end.
Definition unless_zero (cur : Z) (new : Z) : Z := if (cur =? 0)%Z && (0 <? new)%Z then new else cur.
Definition unless_zero_f (cur new : float64) : float64 := if f_is_zero cur && f_lt f_zero new then new else cur.
Definition unless_zero_d (cur : Duration) (s : string) : Duration :=
  if (cur =? 0)%Z && negb (str_eqb s "") then ParseDuration s 0 else cur.

(** The file's values where an option is still at its zero value. *)
Definition merge (o : Options) (f : Config) (configHasServerListen : bool) : Options :=
  let rl := op_RateLimits o in let rt := cf_RateLimits f in let ca := cf_StepCA f in
  let tls := str_eqb (op_CABundlePath o) "" && negb (str_eqb (tls_CABundle (cf_TLS f)) "") in
  MkOptions (op_StateDir o) (op_Version o) (unless_nil (op_AllowedPaths o) (cf_AllowedPaths f)) (op_SecurityMode o)
    (if configHasServerListen then unless_set (op_ListenAddr o) (srv_Listen (cf_Server f)) else op_ListenAddr o)
    (match op_ServerSANs o with [] => srv_SANs (cf_Server f) | sans => sans end)
    (op_ConfigPath o) (unless_set (op_DBPath o) (cf_DBPath f)) (op_ProviderFallbacks o) (op_ProviderFallbacksEnabled o)
    (unless_nil (op_RedactPatterns o) (log_RedactPatterns (cf_Logging f)))
    (op_RepoSetupEnabled o) (op_RepoSetupConfigPath o) (op_RepoSetupDefaultTimeout o) (op_RepoSetupMaxTimeout o)
    (MkRateLimits (unless_zero_f (GlobalRPS rl) (rt_GlobalRPS rt)) (unless_zero (GlobalBurst rl) (rt_GlobalBurst rt))
       (unless_zero_f (StartSessionPerClientRPS rl) (rt_StartSessionPerClientRPS rt))
       (unless_zero (StartSessionPerClientBurst rl) (rt_StartSessionPerClientBurst rt))
       (unless_zero_f (SendInputPerSessionRPS rl) (rt_SendInputPerSessionRPS rt))
       (unless_zero (SendInputPerSessionBurst rl) (rt_SendInputPerSessionBurst rt)))
    (unless_zero (op_EventBufferSize o) (se_EventBufferSize (cf_Sessions f)))
    (unless_zero_d (op_IdleTimeout o) (se_IdleTimeout (cf_Sessions f)))
    (if tls then tls_CABundle (cf_TLS f) else op_CABundlePath o) (if tls then tls_Cert (cf_TLS f) else op_TLSCertPath o)
    (if tls then tls_Key (cf_TLS f) else op_TLSKeyPath o)
    (match op_JWTPublicKeys o, au_JWTPublicKeys (cf_Auth f) with
     | None, _ :: _ => Some (fold_left (fun m kp => <[fst kp := snd kp]> m) (au_JWTPublicKeys (cf_Auth f)) ∅)
     | keys, _ => keys
     end)
    (unless_nil (op_StepCAClients o) (ca_Clients ca))
    (unless_set (op_StepCAURL o) (text (trim_right [SEP] (chars (ca_URL ca))))) (unless_set (op_StepCARootPath o) (ca_Root ca))
    (unless_set (op_StepCAProvisioner o) (ca_Provisioner ca))
    (unless_set (op_StepCAProvisionerPasswordFile o) (ca_ProvisionerPasswordFile ca))
    (if IsSecurityConfigured (cf_Security f) then Some (cf_Security f) else op_securityConfig o)
    (unless_zero_d (op_CertValidity o) (srv_CertValidity (cf_Server f)))
    (unless_zero_d (op_CertRenewalCheckInterval o) (srv_CertRenewalCheckInterval (cf_Server f))).

(** The built-in defaults for what is still zero. *)
Definition builtin_defaults (o : Options) : Options :=
  let rl := op_RateLimits o in
  MkOptions (op_StateDir o) (op_Version o) (op_AllowedPaths o) (op_SecurityMode o) (op_ListenAddr o) (op_ServerSANs o)
    (op_ConfigPath o) (op_DBPath o) (op_ProviderFallbacks o) (op_ProviderFallbacksEnabled o) (op_RedactPatterns o)
    (op_RepoSetupEnabled o) (op_RepoSetupConfigPath o) (op_RepoSetupDefaultTimeout o) (op_RepoSetupMaxTimeout o)
    (MkRateLimits (or_float (GlobalRPS rl) 100) (or_int (GlobalBurst rl) 200)
       (or_float (StartSessionPerClientRPS rl) 5) (or_int (StartSessionPerClientBurst rl) 10)
       (or_float (SendInputPerSessionRPS rl) 50) (or_int (SendInputPerSessionBurst rl) 100))
    (if (op_EventBufferSize o <=? 0)%Z then 8388608%Z else op_EventBufferSize o)
    (if (op_IdleTimeout o <=? 0)%Z then (24 * Hour)%Z else op_IdleTimeout o)
    (op_CABundlePath o) (op_TLSCertPath o) (op_TLSKeyPath o) (op_JWTPublicKeys o) (op_StepCAClients o) (op_StepCAURL o)
    (op_StepCARootPath o) (op_StepCAProvisioner o) (op_StepCAProvisionerPasswordFile o) (op_securityConfig o)
    (op_CertValidity o) (op_CertRenewalCheckInterval o).

(** ** What the file and the options resolve to *)

Record setup_options := MkSetup {
  so_Enabled : bool; so_ConfigPath : string; so_DefaultTimeout : Duration; so_MaxTimeout : Duration }.

Record Resolved := MkResolved {
  re_options : Options; re_providers : gmap string ProviderConfig; re_providerRoot : string; re_fallbacks : bool;
  re_setup : setup_options; re_telemetry : TelemetryConfig; re_control : ControlConfig }.

Section Resolve.
Context `{ConfigWorld}.

(** A missing file is no error. *)
Definition read_config (getenv : string -> string) (f : file) : load_error + option (Config * bool) :=
  let listen := match HasExplicitServerListen f with inr b => inr b | inl LoadNotExist => inr false | inl e => inl e end in
  match listen with
  | inl e => inl e
  | inr has =>
      match Load getenv f with
      | inr c => inr (Some (c, has))
      | inl LoadNotExist => inr None
      | inl e => inl e
      end
  end.

Definition override_setup (o : Options) (s : setup_options) : setup_options :=
  MkSetup (default (so_Enabled s) (op_RepoSetupEnabled o))
    (if str_eqb (op_RepoSetupConfigPath o) "" then so_ConfigPath s else op_RepoSetupConfigPath o)
    (if (0 <? op_RepoSetupDefaultTimeout o)%Z then op_RepoSetupDefaultTimeout o else so_DefaultTimeout s)
    (if (0 <? op_RepoSetupMaxTimeout o)%Z then op_RepoSetupMaxTimeout o else so_MaxTimeout s).

Definition resolve_without (o : Options) : Resolved :=
  MkResolved (builtin_defaults o) ∅ "" (op_ProviderFallbacksEnabled o)
    (override_setup o (MkSetup true ".bridgectl.yaml" (2 * Minute) (15 * Minute))) (cf_Telemetry zero_Config) (cf_Control zero_Config).

Definition resolve_with (o : Options) (f : Config) (has : bool) : Resolved :=
  let rs := cf_RepoSetup f in
  MkResolved (builtin_defaults (merge o f has)) (cf_Providers f) (cf_ProviderRoot f)
    (op_ProviderFallbacksEnabled o || cf_ProviderFallbacks f)
    (override_setup o (MkSetup (repo_setup_IsEnabled rs) (rs_ConfigPath rs) (ParseDuration (rs_DefaultTimeout rs) (2 * Minute))
       (ParseDuration (rs_MaxTimeout rs) (15 * Minute)))) (cf_Telemetry f) (cf_Control f).

Definition resolve (getenv : string -> string) (files : string -> file) (o : Options) : string + Resolved :=
  if str_eqb (op_ConfigPath o) "" then inr (resolve_without o)
  else match read_config getenv (files (op_ConfigPath o)) with
       | inl _ => inl "load config"
       | inr None => inr (resolve_without o)
       | inr (Some (f, has)) => inr (resolve_with o f has)
       end.

End Resolve.

(** ** Providers *)

(** Which constructor of internal/provider builds it. *)
Inductive adapter := ClaudeHooks | CodexAppServer | Codex | Claude | Stdio | OpenCodeServer (ports : option (Z * Z)).

Definition sessionProvider (id : string) (streamJSON : bool) (transport : string) : adapter :=
  let codex := str_eqb id "codex" || str_eqb id "codex-app-server" in
  let plain := if codex then Codex else if str_eqb id "claude" || str_eqb id "claude-chat" then Claude else Stdio in
  if negb (str_eqb transport "stdio") && negb streamJSON then
    if str_eqb id "claude" then ClaudeHooks else if codex then CodexAppServer else plain
  else plain.

Section Providers.
Variable new_provider : adapter -> string -> Provider.

Definition try_register (r : Registry) (p : Provider) : Registry := fst (Register r p).

(** One configured provider; a port range that does not parse skips it. *)
Definition register_configured (r : Registry) (id : string) (pc : ProviderConfig) : Registry :=
  if str_eqb (pc_Transport pc) "opencode_server" then
    if str_eqb (pc_PortRange pc) "" then try_register r (new_provider (OpenCodeServer None) id)
    else match ParsePortRange (chars (pc_PortRange pc)) with
         | None => r
         | Some ports => try_register r (new_provider (OpenCodeServer (Some ports)) id)
         end
  else try_register r (new_provider (sessionProvider id (pc_StreamJSON pc) (pc_Transport pc)) id).

(** The built-in catalog: identifier and binary. *)
Definition knownProviders : list (string * string) :=
  [("claude", "claude"); ("codex", "codex"); ("codex-app-server", "codex"); ("opencode", "opencode"); ("gemini", "agy")].

Definition detectProviders (lookPath : string -> bool) : list (string * string) := filter (fun pd => lookPath (snd pd) = true) knownProviders.

Definition register_detected (r : Registry) (pd : string * string) : Registry :=
  match Get r (fst pd) with
  | Ok _ => r
  | _ => try_register r (new_provider (sessionProvider (fst pd) false "") (fst pd))
  end.

Definition build_registry (configured : list (string * ProviderConfig)) (lookPath : string -> bool) : Registry :=
  let r := fold_left (fun r '(id, pc) => register_configured r id pc) configured NewRegistry in
  let r := fold_left register_detected (detectProviders lookPath) r in
  try_register r (new_provider Stdio "echo").

End Providers.

(** Identifiers with a shortcut of their own: no aliases, one per binary. *)
Fixpoint known_ids (seen : list string) (pds : list (string * string)) : list string :=
  match pds with
  | [] => []
  | (id, binary) :: pds =>
      if Contains (chars "-app-server") (chars id) || one_of binary seen then known_ids seen pds else id :: known_ids (binary :: seen) pds
  end.
Definition KnownProviderIDs : list string := known_ids [] knownProviders.

(** The fallback map the server gets; [None] and the empty map act alike. *)
Definition build_fallbacks (enabled : bool) (given : option (gmap string (list string))) (providers : gmap string ProviderConfig)
    : gmap string (list string) :=
  if enabled then default ∅ given ∪ omap (fun pc => match pc_Fallbacks pc with [] => None | fbs => Some fbs end) providers
  else ∅.

(** ** The policy *)

(** [home]: [None] when the home directory cannot be found. *)
Definition EffectiveAllowedPaths (home : option string) (configured : list string) : option (list string) :=
  match home with
  | None => None
  | Some home => if str_eqb home "" then None else Some (home :: configured)
  end.

Definition start_policy (allowed : list string) : Policy := MkPolicy 10 20 65536 allowed.

(** ** Token verification *)

Section Start.
Context `{ConfigWorld} `{J : JWT} `{E : Emulator} `{S : SessionStore}.

(** [pki.LoadEd25519PublicKey] on this machine. *)
Variable load_key : string -> option PublicKey.

(** [filepath.Join] of path texts. *)
Definition path_join (a b : string) : string := text (Join (chars a) (chars b)).
Definition CertsDir (stateDir : string) : string := path_join stateDir "certs".
Definition clientKeysDir (stateDir : string) : string := path_join (CertsDir stateDir) "jwt-clients".

(** The explicit keys; any that cannot be loaded is an error. *)
Fixpoint load_extra (keys : gmap string PublicKey) (extra : list (string * string)) : string + gmap string PublicKey :=
  match extra with
  | [] => inr keys
  | (issuer, path) :: extra =>
      match load_key path with
      | None => inl "load JWT public key for issuer"
      | Some pub => load_extra (<[issuer := pub]> keys) extra
      end
  end.

(** The entries of the client key directory: name and whether it is a directory. *)
Definition load_entry (stateDir : string) (keys : gmap string PublicKey) (e : string * bool) : gmap string PublicKey :=
  let '(name, isDir) := e in
  if isDir || negb (has_prefix (reverse (chars ".pub")) (reverse (chars name))) then keys
  else match load_key (path_join (clientKeysDir stateDir) name) with
       | None => keys
       | Some pub => <[text (trim_suffix (chars ".pub") (chars name)) := pub]> keys
       end.

Fixpoint loadConfiguredJWTClients (v : JWTVerifier) (stateDir : string) (clients : list StepCAClientConfig) : string + JWTVerifier :=
  match clients with
  | [] => inr v
  | c :: clients =>
      let keyPath := if str_eqb (sc_KeyPath c) "" then path_join (clientKeysDir stateDir) (sc_Issuer c +:+ ".pub") else sc_KeyPath c in
      match load_key keyPath with
      | None => if sc_Required c then inl "load configured Step CA client JWT key" else loadConfiguredJWTClients v stateDir clients
      | Some pub => loadConfiguredJWTClients (AddKey v (sc_Issuer c) pub) stateDir clients
      end
  end.

(** The key part that [buildSecureGRPCOpts] and [buildTLSOnlyGRPCOpts] share;
    [signing]: where the locally generated public key is. *)
Definition build_verifier (signing stateDir : string) (extraKeys : option (gmap string string)) (entries : list (string * bool))
    (clients : list StepCAClientConfig) : string + JWTVerifier :=
  keys <- (if bool_decide (default ∅ extraKeys = ∅) then
             if str_eqb signing "" then inr ∅
             else match load_key signing with None => inl "load JWT public key" | Some pub => inr {["local" := pub]} end
           else load_extra ∅ (map_to_list (default ∅ extraKeys))) ;;
  loadConfiguredJWTClients (MkVerifier "bridge" (10 * Minute) (fold_left (load_entry stateDir) entries keys)) stateDir clients.

(** ** Addresses *)

Fixpoint add_sans (sans : list string) (l : list string) : list string :=
  match l with
  | [] => sans
  | s :: l => let s := text (TrimSpace (chars s)) in
              add_sans (if str_eqb s "" || one_of s sans then sans else app sans [s]) l
  end.

Definition BuildServerSANs (listenAddr : string) (extra : list string) : list string :=
  let host := match SplitHostPort (chars listenAddr) with Some (host, _) => text host | None => listenAddr end in
  let first := if one_of host [""; "0.0.0.0"; "::"] then [] else [host] in
  add_sans [] (app first (app ["server"; "127.0.0.1"; "localhost"] extra)).

Definition localDialAddr (addr : string) : string :=
  match SplitHostPort (chars addr) with
  | None => addr
  | Some (host, port) =>
      if bool_decide (host = chars "0.0.0.0") || bool_decide (host = []) then text (JoinHostPort (chars "127.0.0.1") port)
      else if bool_decide (host = chars "::") then text (JoinHostPort (chars "::1") port)
      else addr
  end.

(** ** Start *)

(** The machine: [sw_pki] prepares the certificates and answers where the public
    signing key is; [sw_bind tcp address] opens a listener and answers its address;
    [sw_lock]: the lock file is free; [sw_write]: a state file can be written. *)
Record start_world := MkStart {
  sw_getenv : string -> string;
  sw_files : string -> file;
  sw_home : option string;
  sw_mkdir : bool;
  sw_patterns : list string -> bool;
  sw_lookPath : string -> bool;
  sw_provider : adapter -> string -> Provider;
  sw_setup : setup_options -> string -> option (list string) -> option (list string) + string;
  sw_store : string -> option St;
  sw_telemetry : TelemetryConfig -> bool;
  sw_control : ControlConfig -> bool;
  sw_alive : Z -> bool;
  sw_now : Time;
  sw_instance : string;
  sw_pki : Options -> option string;
  sw_tls : string -> bool;
  sw_entries : list (string * bool);
  sw_lock : bool;
  sw_bind : bool -> string -> option string;
  sw_server_name : string;
  sw_pid : string;
  sw_write : string -> bool;
}.

(** The daemon: the address it is bound to, whether that is TCP, whether clients
    must present a certificate, the verifier behind the token interceptors ([None]:
    the passthrough interceptors), and the files it wrote. *)
Record Running := MkRunning {
  ru_mode : string;
  ru_tcp : bool;
  ru_addr : string;
  ru_client_certs : bool;
  ru_verifier : option JWTVerifier;
  ru_bridge : BridgeServer;
  ru_historyLoaded : bool;
  ru_control : bool;
  ru_renews : bool;
  ru_sans : list string;
  ru_files : list (string * string);
}.

(** The state directory: the option, the variable, or the default below home. *)
Definition StateDir (w : start_world) : string :=
  let dir := sw_getenv w "BRIDGECTL_STATE_DIR" in
  if negb (str_eqb dir "") then dir
  else
    let home := match sw_home w with
                | Some home => home
                | None => let tmp := sw_getenv w "TMPDIR" in if str_eqb tmp "" then "/tmp" else tmp
                end in
    path_join home ".config/bridgectl".

Definition effective_mode (o : Options) : option string :=
  let m := op_SecurityMode o in
  if one_of m [ModeSecure; ModeMTLS; ModeTLS] then Some m
  else if str_eqb m ModeLocal then Some ModeLocal
  else if str_eqb m "" then Some (if str_eqb (op_ListenAddr o) "" then ModeLocal else ModeSecure)
  else None.

Definition build_supervisor (w : start_world) (re : Resolved) (reg : Registry) : string + Supervisor * bool :=
  let o := re_options re in
  allowed <- or_fail (EffectiveAllowedPaths (sw_home w) (default [] (op_AllowedPaths o))) "determine session allowed paths" ;;
  store <- (if str_eqb (op_DBPath o) "" then inr None
            else match sw_store w (op_DBPath o) with None => inl "open session store" | Some st => inr (Some st) end) ;;
  _ <- require (sw_telemetry w (re_telemetry re)) "configure telemetry" ;;
  let sup := NewSupervisor reg (start_policy allowed) (op_EventBufferSize o) (op_IdleTimeout o) store
               (Some (sw_setup w (re_setup re))) true true in
  match store with
  | None => inr (sup, true)
  | Some _ => match LoadHistory sup (sw_alive w) (sw_now w) with
              | (sup, None) => inr (sup, true)
              | (sup, Some _) => inr (sup, false)
              end
  end.

(** The transport of a mode: the verifier of a secure one. *)
Definition build_transport (w : start_world) (stateDir : string) (o : Options) (mode : string) : string + option JWTVerifier :=
  if IsSecureMode mode then
    _ <- require (str_eqb (op_CABundlePath o) "" || negb (str_eqb (op_TLSCertPath o) "" || str_eqb (op_TLSKeyPath o) ""))
           "CABundlePath requires TLSCertPath and TLSKeyPath to also be set" ;;
    signing <- or_fail (sw_pki w o) "ensure PKI" ;;
    _ <- require (sw_tls w mode) "server TLS config" ;;
    v <- build_verifier signing stateDir (op_JWTPublicKeys o) (sw_entries w) (default [] (op_StepCAClients o)) ;;
    inr (Some v)
  else inr None.

(** The socket of local mode is taken under the lock. *)
Definition open_listener (w : start_world) (stateDir : string) (o : Options) (mode : string) : string + string * string :=
  if IsSecureMode mode then
    addr <- or_fail (sw_bind w true (op_ListenAddr o)) "listen tcp" ;; inr (addr, localDialAddr addr)
  else
    _ <- require (sw_lock w) "acquire lock (another server starting?)" ;;
    let sock := path_join stateDir "server.sock" in
    _ <- or_fail (sw_bind w false sock) "listen" ;; inr (sock, sock).

Fixpoint write_all (w : start_world) (l : list (string * string)) : string + unit :=
  match l with
  | [] => inr tt
  | (name, _) :: l => if sw_write w name then write_all w l else inl "write state file"
  end.

Definition state_files (w : start_world) (mode listenAddr : string) : list (string * string) :=
  app [("server.pid", sw_pid w); ("server.addr", listenAddr); ("server.mode", mode)]
      (if IsSecureMode mode then [("server.name", sw_server_name w)] else []).

Definition Start (o : Options) (w : start_world) : string + Running :=
  re <- resolve (sw_getenv w) (sw_files w) o ;;
  let o := re_options re in
  let stateDir := if str_eqb (op_StateDir o) "" then StateDir w else op_StateDir o in
  _ <- require (sw_mkdir w) "create state dir" ;;
  _ <- match default [] (op_RedactPatterns o) with [] => inr tt | ps => require (sw_patterns w ps) "compile redact patterns" end ;;
  let reg := build_registry (sw_provider w) (range (re_providers re)) (sw_lookPath w) in
  let fallbacks := build_fallbacks (re_fallbacks re) (op_ProviderFallbacks o) (re_providers re) in
  '(sup, historyLoaded) <- build_supervisor w re reg ;;
  let control := historyLoaded && sw_control w (re_control re) in
  mode <- or_fail (effective_mode o) "unknown security mode" ;;
  verifier <- build_transport w stateDir o mode ;;
  let bridge := NewServer sup reg (op_RateLimits o) (sw_instance w) fallbacks (op_Version o) in
  '(addr, dial) <- open_listener w stateDir o mode ;;
  _ <- write_all w (state_files w mode dial) ;;
  let explicit := negb (str_eqb (op_CABundlePath o) "") in
  let stepCA := negb (str_eqb (op_StepCAURL o) "") in
  inr (MkRunning mode (IsSecureMode mode) addr (IsMutualTLS mode) verifier bridge historyLoaded control
         (IsSecureMode mode && (negb explicit || stepCA)) (BuildServerSANs (op_ListenAddr o) (op_ServerSANs o))
         (state_files w mode dial)).



(** ** Where keys come from *)


Section Sources.
Context (signing stateDir : string) (extra : gmap string string) (entries : list (string * bool)) (clients : list StepCAClientConfig).





End Sources.


(** ** Inverting a successful start *)

Record started (o : Options) (w : start_world) (r : Running) (re : Resolved) (stateDir dial : string) : Prop := {
  sd_resolved : resolve (sw_getenv w) (sw_files w) o = inr re;
  sd_dir : stateDir = if str_eqb (op_StateDir (re_options re)) "" then StateDir w else op_StateDir (re_options re);
  sd_supervisor : build_supervisor w re (build_registry (sw_provider w) (range (re_providers re)) (sw_lookPath w)) =
    inr (supervisor (ru_bridge r), ru_historyLoaded r);
  sd_mode : effective_mode (re_options re) = Some (ru_mode r);
  sd_transport : build_transport w stateDir (re_options re) (ru_mode r) = inr (ru_verifier r);
  sd_listener : open_listener w stateDir (re_options re) (ru_mode r) = inr (ru_addr r, dial);
  sd_bridge : ru_bridge r = NewServer (supervisor (ru_bridge r)) (build_registry (sw_provider w) (range (re_providers re)) (sw_lookPath w))
    (op_RateLimits (re_options re)) (sw_instance w)
    (build_fallbacks (re_fallbacks re) (op_ProviderFallbacks (re_options re)) (re_providers re)) (op_Version (re_options re));
  sd_tcp : ru_tcp r = IsSecureMode (ru_mode r) /\ ru_client_certs r = IsMutualTLS (ru_mode r);
  sd_files : ru_files r = state_files w (ru_mode r) dial;
}.

Lemma Start_inv o w r : Start o w = inr r -> exists re stateDir dial, started o w r re stateDir dial.
Proof.
  unfold Start; intros Hs; step_inr Hs; rename x into re; step_inr Hs; step_inr Hs; step_inr Hs; destruct x1 as [sup h].
  step_inr Hs; step_inr Hs; step_inr Hs; destruct x3 as [addr dial]; step_inr Hs; injection Hs as <-.
  exists re, (if str_eqb (op_StateDir (re_options re)) "" then StateDir w else op_StateDir (re_options re)), dial.
  constructor; cbn; try reflexivity; try assumption; [|split; reflexivity].
  eapply or_fail_inr; eassumption.
Qed.





End Start.

(** ** Theorems *)


(** ** Effective limits *)

(** A rate is left open or positive. *)
Definition rate_given (f : float64) : Prop := f_is_zero f = true \/ f_lt f_zero f = true.
Definition count_given (n : Z) : Prop := (0 <= n)%Z.

Lemma positive_rate f : f_lt f_zero f = true -> f_le f f_zero = false.
Proof. destruct f as [[]|[]| |[] m e]; try discriminate; reflexivity. Qed.

Lemma effective_rate cur file dflt : rate_given cur -> (0 < dflt)%Z -> f_lt f_zero (f_of_int dflt) = true ->
  f_le (or_float (unless_zero_f cur file) dflt) f_zero = false.
Proof.
  intros Hc Hd Hf; apply positive_rate; unfold or_float, unless_zero_f.
  destruct (f_lt f_zero file) eqn:E.
  - destruct (f_is_zero cur) eqn:Z; cbn; [|rewrite Z; destruct Hc as [Hc|Hc]; [congruence|exact Hc]].
    destruct (f_is_zero file) eqn:Z'; [exact Hf|exact E].
  - rewrite andb_false_r; destruct (f_is_zero cur) eqn:Z; [exact Hf|destruct Hc; [congruence|assumption]].
Qed.

Lemma effective_count cur file dflt : count_given cur -> (0 < dflt)%Z -> (0 < or_int (unless_zero cur file) dflt)%Z.
Proof.
  unfold count_given, or_int, unless_zero; intros; destruct (Z.eqb_spec cur 0), (Z.ltb_spec 0 file); cbn; case_match; lia.
Qed.

Record rates_given (rl : RateLimitConfig) : Prop := {
  rg_global : rate_given (GlobalRPS rl) /\ count_given (GlobalBurst rl);
  rg_start : rate_given (StartSessionPerClientRPS rl) /\ count_given (StartSessionPerClientBurst rl);
  rg_send : rate_given (SendInputPerSessionRPS rl) /\ count_given (SendInputPerSessionBurst rl);
}.

Lemma limited rate burst : f_le rate f_zero = false -> (0 < burst)%Z -> unlimited (newKeyedLimiter rate burst) = false.
Proof. intros Hr Hb; unfold unlimited; cbn [newKeyedLimiter kl_rate kl_burst]; rewrite Hr; cbn; lia. Qed.

(** ** The registry *)

Section Registered.
Variable new_provider : adapter -> string -> Provider.
Hypothesis new_provider_ID : forall a id, prov_ID (new_provider a id) = id.

Lemma try_register_sub r p : r ⊆ try_register r p.
Proof.
  unfold try_register, Register; destruct (r !! prov_ID p) eqn:E; [reflexivity|]; apply insert_subseteq, E.
Qed.

Lemma try_register_has r a id : is_Some (try_register r (new_provider a id) !! id).
Proof.
  unfold try_register, Register; rewrite new_provider_ID.
  destruct (r !! id) eqn:E; cbn; [eauto|]; rewrite lookup_insert_eq; eauto.
Qed.

Lemma has_mono (r r' : Registry) id : r ⊆ r' -> is_Some (r !! id) -> is_Some (r' !! id).
Proof. intros Hs [p Hp]; exists p; eapply lookup_weaken; eassumption. Qed.

Lemma register_configured_sub r id pc : r ⊆ register_configured new_provider r id pc.
Proof. unfold register_configured; repeat case_match; try apply try_register_sub; reflexivity. Qed.

Lemma register_detected_sub r pd : r ⊆ register_detected new_provider r pd.
Proof. unfold register_detected; case_match; try apply try_register_sub; reflexivity. Qed.

Lemma fold_sub {A} (f : Registry -> A -> Registry) (Hf : forall r x, r ⊆ f r x) l : forall r, r ⊆ fold_left f l r.
Proof. induction l as [|x l IH]; intros r; cbn; [reflexivity|]; transitivity (f r x); [apply Hf|apply IH]. Qed.

Lemma configured_registered providers l lookPath id pc :
  Forall (fun '(id, p) => provider_wf providers id p) l -> (id, pc) ∈ l -> is_Some (build_registry new_provider l lookPath !! id).
Proof.
  intros Hwf Hin; unfold build_registry; eapply has_mono; [apply try_register_sub|].
  eapply has_mono; [apply fold_sub, register_detected_sub|].
  generalize NewRegistry; induction Hwf as [|[id0 pc0] l Hp _ IH]; intros r; [inversion Hin|]; cbn [fold_left].
  apply elem_of_cons in Hin as [[= <- <-]|Hin]; [|apply IH, Hin].
  eapply has_mono; [apply (fold_sub (fun r '(id, pc) => register_configured new_provider r id pc)); intros ? []; apply register_configured_sub|].
  unfold register_configured; destruct (str_eqb (pc_Transport pc) _); [|apply try_register_has].
  destruct (str_eqb (pc_PortRange pc) "") eqn:Ep; [apply try_register_has|].
  destruct (pw_ports _ _ _ Hp) as (a & b & -> & _); [eapply bool_decide_eq_false, Ep|apply try_register_has].
Qed.
End Registered.

(** ** What the daemon runs with *)

Section Effective.
Context `{ConfigWorld} `{J : JWT} `{E : Emulator} `{S : SessionStore}.

Lemma load_infos_config infos alive now : forall s,
  let s' := load_infos s infos alive now in
  registry s' = registry s /\ policy s' = policy s /\ bufSize s' = bufSize s /\ idleTimeout s' = idleTimeout s.
Proof.
  induction infos as [|info infos IH]; intros s; cbn; [auto|].
  match goal with |- context [load_infos ?s1 infos alive now] => destruct (IH s1) as (R & P & B & I); rewrite R, P, B, I end.
  unfold recoverProcess; repeat case_match; simplify_eq; cbn; auto.
Qed.

Lemma supervisor_config (w : start_world) re reg sup h : build_supervisor w re reg = inr (sup, h) ->
  registry sup = reg /\ (exists home, sw_home w = Some home /\ home <> "" /\
    policy sup = start_policy (home :: default [] (op_AllowedPaths (re_options re)))) /\
  bufSize sup = (if (op_EventBufferSize (re_options re) <=? 0)%Z then 8388608%Z else op_EventBufferSize (re_options re)) /\
  idleTimeout sup = op_IdleTimeout (re_options re).
Proof.
  unfold build_supervisor; intros Hb; step_inr Hb; step_inr Hb; step_inr Hb.
  match goal with X : or_fail _ _ = inr _ |- _ => apply or_fail_inr in X; unfold EffectiveAllowedPaths in X; rename X into Ha end.
  destruct (sw_home w) as [home|]; [|discriminate]; destruct (str_eqb home "") eqn:Eh; [discriminate|]; injection Ha as <-.
  apply bool_decide_eq_false in Eh.
  assert (forall st, let s0 := NewSupervisor reg (start_policy (home :: default [] (op_AllowedPaths (re_options re))))
            (op_EventBufferSize (re_options re)) (op_IdleTimeout (re_options re)) st (Some (sw_setup w (re_setup re))) true true in
          forall s1, registry s1 = registry s0 /\ policy s1 = policy s0 /\ bufSize s1 = bufSize s0 /\ idleTimeout s1 = idleTimeout s0 ->
          registry s1 = reg /\ (exists home0, Some home = Some home0 /\ home0 <> "" /\
            policy s1 = start_policy (home0 :: default [] (op_AllowedPaths (re_options re)))) /\
          bufSize s1 = (if (op_EventBufferSize (re_options re) <=? 0)%Z then 8388608%Z else op_EventBufferSize (re_options re)) /\
          idleTimeout s1 = op_IdleTimeout (re_options re)) as Hnew.
  { intros st s0 s1 (-> & -> & -> & ->); subst s0; cbn; split_and!; eauto. }
  destruct x0 as [st|].
  - unfold LoadHistory in Hb; cbn [store NewSupervisor] in Hb; destruct (store_LoadAll st) as [infos [e|]];
      injection Hb as <- _; apply (Hnew (Some st)); [auto|apply load_infos_config].
  - injection Hb as <- _; apply (Hnew None); auto.
Qed.
Lemma unless_zero_f_open cur : unless_zero_f cur f_zero = cur.
Proof. unfold unless_zero_f; rewrite andb_false_r; reflexivity. Qed.

Lemma unless_zero_open cur : unless_zero cur 0 = cur.
Proof. unfold unless_zero; rewrite andb_false_r; reflexivity. Qed.

(** The options after resolution: the file's and the built-in values where nothing
    was given; the providers are those of a file that was accepted. *)
Definition resolution (o : Options) (re : Resolved) : Prop :=
  (exists rt, op_RateLimits (re_options re) =
     let rl := op_RateLimits o in
     MkRateLimits (or_float (unless_zero_f (GlobalRPS rl) (rt_GlobalRPS rt)) 100) (or_int (unless_zero (GlobalBurst rl) (rt_GlobalBurst rt)) 200)
       (or_float (unless_zero_f (StartSessionPerClientRPS rl) (rt_StartSessionPerClientRPS rt)) 5)
       (or_int (unless_zero (StartSessionPerClientBurst rl) (rt_StartSessionPerClientBurst rt)) 10)
       (or_float (unless_zero_f (SendInputPerSessionRPS rl) (rt_SendInputPerSessionRPS rt)) 50)
       (or_int (unless_zero (SendInputPerSessionBurst rl) (rt_SendInputPerSessionBurst rt)) 100)) /\
  op_ProviderFallbacks (re_options re) = op_ProviderFallbacks o /\
  (0 < op_EventBufferSize (re_options re))%Z /\ (0 < op_IdleTimeout (re_options re))%Z /\
  map_Forall (provider_wf (re_providers re)) (re_providers re).

Lemma resolve_inv getenv files o re : resolve getenv files o = inr re -> resolution o re.
Proof.
  assert (forall o1, (0 < op_EventBufferSize (builtin_defaults o1))%Z /\ (0 < op_IdleTimeout (builtin_defaults o1))%Z) as Hpos.
  { intros o1; cbn; destruct (Z.leb_spec (op_EventBufferSize o1) 0), (Z.leb_spec (op_IdleTimeout o1) 0); split; unfold Hour, Minute, Second, Millisecond in *; lia. }
  assert (resolution o (resolve_without o)) as Hwithout.
  { split_and!; [exists (MkRates f_zero 0 f_zero 0 f_zero 0)|reflexivity|apply Hpos..|apply map_Forall_empty].
    cbn [rt_GlobalRPS rt_GlobalBurst rt_StartSessionPerClientRPS rt_StartSessionPerClientBurst rt_SendInputPerSessionRPS rt_SendInputPerSessionBurst].
    rewrite !unless_zero_f_open, !unless_zero_open; reflexivity. }
  unfold resolve; destruct (str_eqb _ _); [intros [= <-]; exact Hwithout|].
  unfold read_config; destruct (HasExplicitServerListen _) as [[]|has]; try discriminate;
    destruct (Load getenv _) as [[]|c] eqn:El; try discriminate;
    intros [= <-]; try exact Hwithout; apply Load_finish in El as [c0 El]; apply finish_sound in El;
    (split_and!; [exists (cf_RateLimits c); reflexivity|reflexivity|apply Hpos..|exact (wf_providers _ El)]).
Qed.

(** What a daemon that started runs with, when the options leave the rate limits open
    or set them to something positive and bring no fallback map of their own: every
    rate limiter limits, sessions have an output buffer and an idle timeout, only
    paths below the home directory or the configured ones are open to sessions, every
    provider of the configuration file is registered, and every fallback the server
    may try is a registered provider. *)
Theorem started_limits (load_key : string -> option PublicKey) (o : Options) (w : start_world) (r : Running)
    (Hs : Start load_key o w = inr r) (Hr : rates_given (op_RateLimits o)) (Hf : op_ProviderFallbacks o = None)
    (Hid : forall a id, prov_ID (sw_provider w a id) = id) :
  let b := ru_bridge r in
  (unlimited (globalRL b) = false /\ unlimited (startRL b) = false /\ unlimited (writeRL b) = false) /\
  (0 < bufSize (supervisor b))%Z /\ (0 < idleTimeout (supervisor b))%Z /\
  (exists home configured, sw_home w = Some home /\ AllowedPaths (policy (supervisor b)) = home :: configured) /\
  registry (supervisor b) = srv_registry b /\
  (forall re, resolve (sw_getenv w) (sw_files w) o = inr re ->
     forall id pc, re_providers re !! id = Some pc -> is_Some (srv_registry b !! id)) /\
  (forall id fbs, providerFallbacks b !! id = Some fbs -> Forall (fun fb => is_Some (srv_registry b !! fb)) fbs).
Proof.
  apply Start_inv in Hs as (re & dir & dial & D); cbn zeta.
  destruct (resolve_inv _ _ _ _ (sd_resolved _ _ _ _ _ _ _ D)) as ((rt & Hrl) & Hfb & Hbuf & Hidle & Hprov).
  destruct (supervisor_config _ _ _ _ _ (sd_supervisor _ _ _ _ _ _ _ D)) as (Sreg & (home & Hhome & _ & Hpol) & Sbuf & Sidle).
  assert (forall id pc, re_providers re !! id = Some pc -> is_Some (build_registry (sw_provider w) (range (re_providers re)) (sw_lookPath w) !! id)) as Hreg.
  { intros id pc Hp; eapply configured_registered with (providers := re_providers re); [exact Hid| |].
    - rewrite range_perm; apply List.Forall_forall; intros [i p] Hin; apply Hprov, elem_of_map_to_list, list_elem_of_In, Hin.
    - rewrite range_perm; apply elem_of_map_to_list, Hp. }
  pose proof (sd_bridge _ _ _ _ _ _ _ D) as Hb; remember (supervisor (ru_bridge r)) as sup.
  rewrite Hb; cbn [NewServer globalRL startRL writeRL supervisor srv_registry providerFallbacks]; rewrite Hrl.
  destruct Hr as [[? ?] [? ?] [? ?]]; split_and!;
    try (apply limited; [apply effective_rate|apply effective_count]; first [assumption|lia|reflexivity]).
  - rewrite Sbuf; case_match; [lia|exact Hbuf].
  - rewrite Sidle; exact Hidle.
  - exists home; eexists; split; [exact Hhome|]; rewrite Hpol; reflexivity.
  - exact Sreg.
  - intros re' Hre; rewrite (sd_resolved _ _ _ _ _ _ _ D) in Hre; injection Hre as <-; exact Hreg.
  - intros id fbs; rewrite Hfb, Hf; unfold build_fallbacks; destruct (re_fallbacks re); [|rewrite lookup_empty; discriminate].
    cbn [default]; rewrite map_empty_union, lookup_omap; intros Hl; apply bind_Some in Hl as (pc & Hp & Hl).
    pose proof (pw_known _ _ _ (Hprov _ _ Hp)) as Hk; destruct (pc_Fallbacks pc) eqn:Ef; [discriminate|]; injection Hl as <-.
    eapply List.Forall_impl; [|exact Hk]; intros fb [_ [pc' Hpc]]; eapply Hreg, Hpc.
Qed.

End Effective.

(** ** Finding a running daemon *)

(** [files]: the state directory, with [server.sock] present when a socket is there;
    [probe]: the health check of a target in a mode. *)
Definition DiscoverMode (files : gmap string string) : string :=
  match files !! "server.mode" with
  | None => ModeLocal
  | Some data =>
      let mode := text (TrimSpace (chars data)) in
      if one_of mode [ModeSecure; ModeMTLS] then ModeSecure else if str_eqb mode ModeTLS then ModeTLS else ModeLocal
  end.

Definition DiscoverServerName (files : gmap string string) : string :=
  match files !! "server.name" with
  | None => "server"
  | Some data => let name := text (TrimSpace (chars data)) in if str_eqb name "" then "server" else name
  end.

Section Discovery.
Context (stateDir : string) (probe : string -> string -> bool).

Definition discover_local (files : gmap string string) (mode : string) : string :=
  let target := "unix://" +:+ path_join stateDir "server.sock" in
  if bool_decide (is_Some (files !! "server.sock")) && probe target mode then target
  else match files !! "server.addr" with
       | None => ""
       | Some data =>
           let addr := text (TrimSpace (chars data)) in
           if str_eqb addr "" then ""
           else let addr := if has_prefix [SEP] (chars addr) then "unix://" +:+ addr else addr in
                if probe addr mode then addr else ""
       end.

Definition discoverTarget (files : gmap string string) : string :=
  let mode := DiscoverMode files in
  if IsSecureMode mode then
    match files !! "server.addr" with
    | None => ""
    | Some data => let addr := text (TrimSpace (chars data)) in if str_eqb addr "" then discover_local files mode else addr
    end
  else discover_local files mode.

Definition DiscoverTarget (files : gmap string string) : string * string :=
  let target := discoverTarget files in
  if str_eqb target "" then ("", ModeLocal)
  else let mode := DiscoverMode files in
       if probe target mode then (target, mode) else ("", ModeLocal).
End Discovery.

(** The files after a start: those it wrote over what was there, and the socket. *)
Definition published `{E : Emulator} `{J : JWT} `{S : SessionStore} (old : gmap string string) (r : Running) : gmap string string :=
  let files := fold_left (fun m nc => <[fst nc := snd nc]> m) (ru_files r) old in
  if ru_tcp r then files else <["server.sock" := ""]> files.

(** ** The lock of local mode *)

(** [d_lock]: the inode of the lock file, [d_held]: the locked inodes and who holds
    them, [d_sock]: whose socket the socket file is, [d_running]: who listens. *)
Record state_dir := MkDir { d_lock : option nat; d_next : nat; d_held : gmap nat nat; d_sock : option nat; d_running : list nat }.

Definition empty_dir : state_dir := MkDir None 0 ∅ None [].

(** [listen]: open or create the lock file, lock it, replace the socket. *)
Definition local_listen (id : nat) (d : state_dir) : state_dir * bool :=
  let '(inode, next) := match d_lock d with Some i => (i, d_next d) | None => (d_next d, Datatypes.S (d_next d)) end in
  match d_held d !! inode with
  | Some _ => (MkDir (Some inode) next (d_held d) (d_sock d) (d_running d), false)
  | None => (MkDir (Some inode) next (<[inode := id]> (d_held d)) (Some id) (id :: d_running d), true)
  end.

(** The listener is closed: its socket file and its lock go. *)
Definition local_close (id : nat) (d : state_dir) : state_dir :=
  MkDir (d_lock d) (d_next d) (filter (fun kv => kv.2 <> id) (d_held d)) None (filter (fun x => x <> id) (d_running d)).

(** The last lines of [Stop]. *)
Definition local_remove (d : state_dir) : state_dir := MkDir None (d_next d) (d_held d) None (d_running d).

Inductive dir_event := DirStart (id : nat) | DirStop (id : nat).

(** Stops of daemons that run, each taken as a whole. *)
Definition dir_step (d : state_dir) (e : dir_event) : state_dir :=
  match e with
  | DirStart id => fst (local_listen id d)
  | DirStop id => if bool_decide (id ∈ d_running d) then local_remove (local_close id d) else d
  end.

Definition dir_inv (d : state_dir) : Prop :=
  (d_running d = [] /\ d_held d = ∅) \/
  exists id i, d_running d = [id] /\ d_sock d = Some id /\ d_lock d = Some i /\ d_held d = {[i := id]}.

Lemma dir_step_inv d e : dir_inv d -> dir_inv (dir_step d e).
Proof.
  intros [(Hr & Hh)|(id & i & Hr & Hs & Hl & Hh)]; destruct e as [id'|id']; cbn; rewrite ?Hr.
  - right; unfold local_listen; rewrite Hh, Hr; destruct (d_lock d) as [i|]; rewrite lookup_empty; cbn; do 2 eexists; split_and!; reflexivity.
  - rewrite bool_decide_eq_false_2 by set_solver; left; auto.
  - unfold local_listen; rewrite Hl, Hh, lookup_singleton_eq; cbn; right; exists id, i; auto.
  - case_bool_decide as Hin; [|right; exists id, i; auto]; apply list_elem_of_singleton in Hin as ->.
    left; unfold local_close, local_remove; cbn; rewrite Hr, Hh; split.
    + cbn; rewrite decide_False by (intros K; apply K; reflexivity); reflexivity.
    + apply map_filter_singleton_False; cbn; intros K; apply K; reflexivity.
Qed.

(** In local mode, as long as a daemon that stops is not overtaken, at most one
    daemon listens, and while it does the socket file is its own and the lock is
    held: a start that comes later is refused. *)
Theorem single_local_server (es : list dir_event) :
  let d := fold_left dir_step es empty_dir in
  (length (d_running d) <= 1)%nat /\
  (forall id, id ∈ d_running d -> d_sock d = Some id /\ forall other, snd (local_listen other d) = false).
Proof.
  assert (forall d, dir_inv d -> dir_inv (fold_left dir_step es d)) as Hinv.
  { induction es as [|e es IH]; intros d Hd; [exact Hd|]; apply IH, dir_step_inv, Hd. }
  destruct (Hinv empty_dir) as [(Hr & _)|(id & i & Hr & Hs & Hl & Hh)]; [left; auto| |]; cbn zeta; rewrite Hr.
  - split; [cbn; lia|intros id Hin; inversion Hin].
  - split; [reflexivity|]; intros id' Hin; apply list_elem_of_singleton in Hin as ->; split; [exact Hs|].
    intros other; unfold local_listen; rewrite Hl, Hh, lookup_singleton_eq; reflexivity.
Qed.

(** A daemon that starts between the two halves of another's stop loses its socket
    and its lock file to the second half, and a third daemon starts beside it. *)
Lemma stop_unpublishes_successor :
  let d := local_remove (fst (local_listen 2 (local_close 1 (fst (local_listen 1 empty_dir))))) in
  d_running d = [2%nat] /\ d_sock d = None /\ d_running (fst (local_listen 3 d)) = [3; 2]%nat.
Proof. vm_compute; auto. Qed.

(** ** Discovery finds what was started *)

Lemma effective_mode_valid o mode : effective_mode o = Some mode -> mode ∈ [ModeSecure; ModeMTLS; ModeTLS; ModeLocal].
Proof.
  unfold effective_mode; destruct (one_of _ _) eqn:Em; [intros [= <-]; apply bool_decide_eq_true in Em; set_solver|].
  repeat case_match; intros [=]; subst; set_solver.
Qed.

Lemma published_files `{E : Emulator} `{J : JWT} `{S : SessionStore} (old : gmap string string) (r : Running) w dial :
  ru_files r = state_files w (ru_mode r) dial -> ru_tcp r = IsSecureMode (ru_mode r) ->
  published old r !! "server.mode" = Some (ru_mode r) /\ published old r !! "server.addr" = Some dial /\
  (ru_tcp r = false -> is_Some (published old r !! "server.sock")).
Proof.
  intros Hf Ht; unfold published; rewrite Hf, Ht; unfold state_files; destruct (IsSecureMode (ru_mode r)); cbn [app fold_left fst snd];
    split_and!; try discriminate; rewrite ?lookup_insert_eq; repeat (rewrite lookup_insert_ne by discriminate; rewrite ?lookup_insert_eq); eauto.
Qed.

Lemma resolve_stateDir `{ConfigWorld} getenv files o re : resolve getenv files o = inr re -> op_StateDir (re_options re) = op_StateDir o.
Proof.
  unfold resolve; destruct (str_eqb _ _); [intros [= <-]; reflexivity|].
  destruct (read_config _ _) as [|[[f has]|]]; [discriminate|intros [= <-]; reflexivity..].
Qed.

Lemma trimmed_graphic s : forallb graphic (chars s) = true -> text (TrimSpace (chars s)) = s.
Proof. intros Hg; rewrite TrimSpace_graphic, text_chars by exact Hg; reflexivity. Qed.

(** The client side finds a daemon that started, whatever an earlier one left in the
    state directory: it dials the address the daemon listens on, through the local
    interface when it listens on all of them, and in the daemon's mode ("secure" is
    the name the clients use for mutual TLS). *)
Theorem started_server_discovered `{ConfigWorld} `{J : JWT} `{E : Emulator} `{S : SessionStore}
    (load_key : string -> option PublicKey) (o : Options) (w : start_world) (r : Running) (old : gmap string string)
    (stateDir : string) (probe : string -> string -> bool)
    (Hs : Start load_key o w = inr r) (Hdir : op_StateDir o = stateDir) (Hne : stateDir <> "")
    (Haddr : ru_tcp r = true -> forallb graphic (chars (localDialAddr (ru_addr r))) = true /\ localDialAddr (ru_addr r) <> "")
    (Hprobe : forall target mode, target = (if ru_tcp r then localDialAddr (ru_addr r) else "unix://" +:+ ru_addr r) -> probe target mode = true) :
  DiscoverTarget stateDir probe (published old r) =
    (if ru_tcp r then localDialAddr (ru_addr r) else "unix://" +:+ ru_addr r, if ru_client_certs r then ModeSecure else ru_mode r).
Proof.
  apply Start_inv in Hs as (re & dir & dial & D); destruct (sd_tcp _ _ _ _ _ _ _ D) as [Ht Hc].
  destruct (published_files old r w dial (sd_files _ _ _ _ _ _ _ D) Ht) as (Fm & Fa & Fs).
  pose proof (effective_mode_valid _ _ (sd_mode _ _ _ _ _ _ _ D)) as Hm; rewrite !elem_of_cons, elem_of_nil in Hm.
  pose proof (sd_listener _ _ _ _ _ _ _ D) as Hl; pose proof (sd_dir _ _ _ _ _ _ _ D) as Hd.
  rewrite (resolve_stateDir _ _ _ _ (sd_resolved _ _ _ _ _ _ _ D)), Hdir in Hd.
  unfold str_eqb in Hd; rewrite bool_decide_eq_false_2 in Hd by exact Hne; subst dir.
  assert (DiscoverMode (published old r) = if IsMutualTLS (ru_mode r) then ModeSecure else ru_mode r) as Hmode.
  { unfold DiscoverMode; rewrite Fm; destruct Hm as [->|[->|[->|[->|[]]]]]; vm_compute; reflexivity. }
  assert (IsSecureMode (if IsMutualTLS (ru_mode r) then ModeSecure else ru_mode r) = ru_tcp r) as Hsec.
  { rewrite Ht; destruct Hm as [->|[->|[->|[->|[]]]]]; reflexivity. }
  unfold open_listener in Hl; rewrite <- Ht in Hl; rewrite Hc; unfold DiscoverTarget, discoverTarget; rewrite Hmode, Hsec.
  destruct (ru_tcp r).
  - step_inr Hl; injection Hl as -> <-; rewrite Fa; destruct (Haddr eq_refl) as [Hg Hn]; rewrite trimmed_graphic by exact Hg.
    unfold str_eqb; rewrite !(bool_decide_eq_false_2 (localDialAddr _ = "")) by exact Hn; rewrite Hprobe by reflexivity; reflexivity.
  - step_inr Hl; step_inr Hl; injection Hl as Hsock _; unfold discover_local; rewrite Hsock.
    rewrite bool_decide_eq_true_2 by (apply Fs; reflexivity); rewrite Hprobe by reflexivity; cbn [andb].
    unfold str_eqb; rewrite bool_decide_eq_false_2 by discriminate; rewrite Hprobe by reflexivity; reflexivity.
Qed.

(** ** Concrete starts *)

Section Sample.
#[local] Existing Instance echo_emulator.
#[local] Existing Instance log_bolt.
#[local] Existing Instance dashed_uuid.

Definition plain_provider (a : adapter) (id : string) : Provider :=
  MkProvider id (10 * Second) None None (fun _ => None) (Some false) None None None None None.

Definition sample_start_files (path : string) : file :=
  if str_eqb path "ci.yaml" then Contents [Byte.x0a] else if str_eqb path "mtls.yaml" then Contents [Byte.x01]
  else if str_eqb path "empty.yaml" then Contents [] else NotExist.

Definition sample_start_world : start_world (S := BoltSessionStore) :=
  MkStart sample_env sample_start_files (Some "/home/ci") true (fun _ => true) (fun b => str_eqb b "claude") plain_provider
    (fun _ _ _ => inl None) (fun _ => Some []) (fun _ => true) (fun _ => false) (fun _ => false) Second "i-1"
    (fun _ => Some "/s/certs/jwt-signing.pub") (fun _ => true) [("ci.pub", false); ("notes.txt", false)] true
    (fun tcp addr => Some addr) "server" "42" (fun _ => true).

Definition sample_keys (path : string) : option string :=
  if str_eqb path "/s/certs/jwt-clients/ci.pub" then Some "k1" else if str_eqb path "/s/certs/jwt-signing.pub" then Some "k0" else None.

Definition sample_options (config : string) : Options :=
  MkOptions "/s" "v1" None "" "" [] config "" None false None None "" 0 0 (MkRateLimits f_zero 0 f_zero 0 f_zero 0) 0 0 "" "" ""
    None None "" "" "" "" None 0 0.

Definition start_sample (config : string) : string + Running :=
  Start (J := one_token) sample_keys (sample_options config) sample_start_world.

(** The daemon of a file, or any other value when the file is refused. *)
Definition running (config : string) : Running :=
  match start_sample config with
  | inr r => r
  | inl _ => MkRunning "" false "" false None sample_server false false false [] []
  end.

Definition starts (config : string) : bool := match start_sample config with inr _ => true | inl _ => false end.

Lemma starts_running config : starts config = true -> start_sample config = inr (running config).
Proof. unfold starts, running; destruct (start_sample config); [discriminate|reflexivity]. Qed.


Lemma started_limits_witness :
  unlimited (globalRL (ru_bridge (running "ci.yaml"))) = false /\
  (forall id fbs, providerFallbacks (ru_bridge (running "ci.yaml")) !! id = Some fbs ->
     Forall (fun fb => is_Some (srv_registry (ru_bridge (running "ci.yaml")) !! fb)) fbs) /\
  providerFallbacks (ru_bridge (running "ci.yaml")) !! "claude" = Some ["codex"].
Proof.
  assert (start_sample "ci.yaml" = inr (running "ci.yaml")) as Hs by (apply starts_running; vm_compute; reflexivity).
  destruct (started_limits (J := one_token) sample_keys (sample_options "ci.yaml") sample_start_world (running "ci.yaml") Hs) as ((Hg & _) & _ & _ & _ & _ & _ & Hf).
  - repeat split; try (left; reflexivity); discriminate.
  - reflexivity.
  - reflexivity.
  - split; [exact Hg|]; split; [exact Hf|vm_compute; reflexivity].
Defined.

Lemma started_server_discovered_witness :
  DiscoverTarget "/s" (fun _ _ => true) (published {["server.mode" := "tls"; "server.addr" := "1.2.3.4:1"]} (running "")) = ("unix:///s/server.sock", "local").
Proof.
  assert (start_sample "" = inr (running "")) as Hs by (apply starts_running; vm_compute; reflexivity).
  rewrite (started_server_discovered (J := one_token) sample_keys (sample_options "") sample_start_world (running "")
             {["server.mode" := "tls"; "server.addr" := "1.2.3.4:1"]} "/s" (fun _ _ => true) Hs);
    [vm_compute; reflexivity|reflexivity|discriminate|vm_compute; discriminate|reflexivity].
Defined.

(** The transport mode of the file's security block decides nothing: a file that asks
    for mutual TLS and names no listen address starts a daemon without
    authentication. *)
Lemma file_mode_ignored :
  sec_Mode (cf_Security mtls_Config) = "mtls" /\ ru_mode (running "mtls.yaml") = ModeLocal /\
  match ru_verifier (running "mtls.yaml") with None => True | Some _ => False end.
Proof. split_and!; vm_compute; exact I || reflexivity. Qed.

(** The session limits of the file are not used, and a file that does not mention
    the buffer shrinks it to ten thousand bytes. *)
Lemma file_limits_ignored :
  (exists c, Load sample_env (Contents []) = inr c /\ se_MaxPerProject (cf_Sessions c) = 5%Z) /\
  MaxPerProject (policy (supervisor (ru_bridge (running "empty.yaml")))) = 10%Z /\
  bufSize (supervisor (ru_bridge (running ""))) = 8388608%Z /\ bufSize (supervisor (ru_bridge (running "empty.yaml"))) = 10000%Z.
Proof. split_and!; [eexists; split; vm_compute; reflexivity|vm_compute; reflexivity..]. Qed.

End Sample.
