(* ===== verification/Reporting.v ===== *)
(** * Reporting: internal/localserver/reporting.go, enrollment_reload.go and
    telemetry/source.go

    How a daemon builds its telemetry observer and its control client from the
    configuration, which credentials they get, how a login makes a running daemon take
    up a new configuration, and how the telemetry identity is chosen.

    JSON and the answers of the file system are arguments; the configuration is that
    of Config. *)

From S2P Require Import Prelude Types GoStd GoText Control ControlConn Capture EnrollServer Config Startup.

Local Open Scope string_scope.

(** ** Credential files *)

(** What [Lstat] and [ReadFile] answer for a path; [None] contents: unreadable.
    [fi_chmod]: its mode can be changed. *)
Record file_info := MkFile { fi_symlink : bool; fi_regular : bool; fi_perm : Z; fi_data : option bytes; fi_chmod : bool }.

(** The contents, and the file with its permissions restored. *)
Definition SecureReadFile (f : option file_info) : (string + bytes) * option file_info :=
  match f with
  | None => (inl "lstat", None)
  | Some i =>
      if fi_symlink i || negb (fi_regular i) then (inl "file is not regular", f)
      else if negb (Z.land (fi_perm i) 63 =? 0)%Z then (inl "file has insecure permissions", f)
      else match fi_data i with
           | None => (inl "read", f)
           | Some b => (inr b, Some (MkFile (fi_symlink i) (fi_regular i) (if fi_chmod i then 384 else fi_perm i)%Z (fi_data i) (fi_chmod i)))
           end
  end.

Definition urlsafe (c : Z) : bool := alnum c || (c =? 95)%Z || (c =? 45)%Z.

(** The patterns [^brc_[A-Za-z0-9_-]{43}$] and [^bri_[A-Za-z0-9_-]{43}$]. *)
Definition credential (prefix s : string) : bool :=
  has_prefix (chars prefix) (chars s) && (length (chars s) =? 47)%nat && forallb urlsafe (drop 4 (chars s)).
Definition CollectorCredentialPattern : string -> bool := credential "brc_".
Definition ControlCredentialPattern : string -> bool := credential "bri_".

(** ** Paths *)

Section Paths.
Context (getenv : string -> string) (home : option string).

Definition ExpandEnv (s : string) : string :=
  text (fst (Expand (String.length s) (fun name => chars (getenv (text name))) (chars s))).

Definition expandTelemetryPath (path : string) : string :=
  let path := ExpandEnv path in
  let path := if str_eqb path "~" || has_prefix (chars "~/") (chars path) then
                match home with
                | Some home => text (Join (chars home) (TrimPrefix (chars "~/") (chars path)))
                | None => path
                end
              else path in
  text (Clean (chars path)).

Definition TelemetrySpoolDir (path stateDir : string) : string :=
  if blank (chars path) then text (Join (Join (chars stateDir) (chars "telemetry")) (chars "segments")) else expandTelemetryPath path.
End Paths.

(** ** Building the observers *)

Inductive destination := DestLocal | DestHTTPS (url credential : string) | DestGRPC (target : string) (tls : option string).

Record TelemetryObserver := MkTelObserver {
  to_destination : destination; to_sourceID : string; to_spoolDir : string; to_maxSegmentBytes : Z; to_maxDiskBytes : Z;
  to_flush : Duration; to_retry : Duration; to_queueSize : Z; to_text : bool; to_kinds : list EventKind }.

Record ControlClient := MkControlClient { cc_endpoint : string; cc_credential : string }.

Definition kind_of (kind : string) : EventKind :=
  if str_eqb kind "question" then EventQuestion else if str_eqb kind "answer" then EventAnswer
  else if str_eqb kind "session_started" then EventSessionStarted else if str_eqb kind "session_context" then EventSessionContext
  else if str_eqb kind "session_ended" then EventSessionEnded else if str_eqb kind "provider_output" then EventProviderOutput
  else if str_eqb kind "user_input" then EventUserInput else OtherKind kind.

(** [rw_source]: what [ResolveSourceID] answers; [rw_identity]: the identity key is
    there; [rw_spool]: the spool directory can be set up; [rw_ca]: the certificate
    file, [None] unreadable, else whether it holds a certificate. *)
Record report_world := MkReport {
  rw_getenv : string -> string; rw_home : option string; rw_file : string -> option file_info;
  rw_source : string -> string + string; rw_identity : string -> bool; rw_spool : string -> bool;
  rw_ca : string -> option bool; rw_dial : string -> bool;
  rw_collector : bytes -> option string; rw_control_json : bytes -> option string }.

Section Observers.
Context `{ConfigWorld}.

Definition DefaultFlushInterval : Duration := 30 * Second.

Definition https_destination (t : TelemetryConfig) (stateDir : string) (w : report_world) : string + destination :=
  let path := if str_eqb (tel_CollectorCredentialFile t) "" then path_join stateDir "bridge-credentials.json" else tel_CollectorCredentialFile t in
  match fst (SecureReadFile (rw_file w (expandTelemetryPath (rw_getenv w) (rw_home w) path))) with
  | inl _ => inl "read telemetry collector credential"
  | inr data =>
      match rw_collector w data with
      | None => inl "invalid telemetry collector credential"
      | Some c => if CollectorCredentialPattern c then inr (DestHTTPS (tel_CollectorURL t) c) else inl "invalid telemetry collector credential"
      end
  end.

Definition grpc_destination (t : TelemetryConfig) (w : report_world) : string + destination :=
  let target := tel_CollectorTarget t in
  let tls :=
    if tel_CollectorInsecure t then inr None
    else
      let host := match SplitHostPort (chars target) with Some (host, _) => text host | None => "" end in
      let name := if str_eqb (tel_CollectorServerName t) "" then host else tel_CollectorServerName t in
      if str_eqb (tel_CollectorCA t) "" then inr (Some name)
      else match rw_ca w (expandTelemetryPath (rw_getenv w) (rw_home w) (tel_CollectorCA t)) with
           | None => inl "read telemetry collector CA"
           | Some false => inl "parse telemetry collector CA: no certificates found"
           | Some true => inr (Some name)
           end in
  match tls with
  | inl e => inl e
  | inr tls => if rw_dial w target then inr (DestGRPC target tls) else inl "configure telemetry collector"
  end.

Definition newTelemetryObserver (t : TelemetryConfig) (stateDir : string) (w : report_world) : string + option TelemetryObserver :=
  if negb (tel_Enabled t) then inr None
  else
    let expand := expandTelemetryPath (rw_getenv w) (rw_home w) in
    let spoolDir := TelemetrySpoolDir (rw_getenv w) (rw_home w) (tel_SpoolDir t) stateDir in
    let keyPath := if str_eqb (tel_IdentityKeyFile t) "" then path_join (path_join stateDir "telemetry") "identity-key"
                   else expand (tel_IdentityKeyFile t) in
    match rw_source w (tel_SourceID t) with
    | inl _ => inl "configure telemetry source identity"
    | inr sourceID =>
        if negb (rw_identity w keyPath) then inl "configure telemetry context identity"
        else match ParseByteSize (tel_MaxDiskSpace t) with
             | None => inl "configure telemetry disk budget"
             | Some maxDiskBytes =>
                 if (tel_MaxSegmentBytes t <? 1)%Z || (maxDiskBytes <? tel_MaxSegmentBytes t)%Z || negb (rw_spool w spoolDir)
                 then inl "configure telemetry spool"
                 else
                   let dest :=
                     if negb (str_eqb (tel_CollectorURL t) "") && str_eqb (tel_CollectorTarget t) "" then https_destination t stateDir w
                     else if negb (str_eqb (tel_CollectorTarget t) "") then grpc_destination t w
                     else inr DestLocal in
                   match dest with
                   | inl e => inl e
                   | inr dest =>
                       inr (Some (MkTelObserver dest sourceID spoolDir (tel_MaxSegmentBytes t) maxDiskBytes
                         (ParseDuration (tel_FlushInterval t) DefaultFlushInterval) (ParseDuration (tel_RetryInterval t) Second)
                         (tel_QueueSize t) (tel_IncludeRedactedText t) (map kind_of (tel_Kinds t))))
                   end
             end
    end.

(** [ValidateEndpoint]; [true]: accepted. *)
Definition ValidateEndpoint (raw : string) : bool :=
  match url_Parse (text (TrimSpace (chars raw))) with
  | None => false
  | Some u => str_eqb (u_Scheme u) "wss" && negb (str_eqb (u_Host u) "") && negb (u_User u) && str_eqb (u_RawQuery u) "" &&
              negb (u_ForceQuery u) && str_eqb (u_Fragment u) "" && negb (str_eqb (u_Path u) "")
  end.

Definition newControlClient (c : ControlConfig) (w : report_world) : string + option ControlClient :=
  if str_eqb (ctl_Endpoint c) "" || str_eqb (ctl_CredentialFile c) "" then inr None
  else if negb (ValidateEndpoint (ctl_Endpoint c)) then inl "invalid control endpoint"
  else match fst (SecureReadFile (rw_file w (expandTelemetryPath (rw_getenv w) (rw_home w) (ctl_CredentialFile c)))) with
       | inl _ => inl "read control credential"
       | inr data =>
           match rw_control_json w data with
           | None => inl "invalid or missing control credential"
           | Some cred => if ControlCredentialPattern cred then inr (Some (MkControlClient (ctl_Endpoint c) cred))
                          else inl "invalid or missing control credential"
           end
       end.

(** ** The observers of a running daemon *)

Record reportingObservers := MkReporting { ro_telemetry : option TelemetryObserver; ro_control : option ControlClient }.

(** [Close]: both are detached first; the answers are those of their own closing. *)
Definition reporting_Close (r : reportingObservers) (control_ok telemetry_ok : bool) : reportingObservers * bool :=
  (MkReporting None None,
   (match ro_control r with None => true | Some _ => control_ok end) && (match ro_telemetry r with None => true | Some _ => telemetry_ok end)).

(** What a reload meets: whether the session history was loaded, the sessions, how the
    old observers close, the clock, the status file and whether it can be replaced. *)
Record reload_world := MkReloadWorld {
  lw_historyLoaded : bool; lw_infos : list SessionInfo; lw_control_ok : bool; lw_telemetry_ok : bool;
  lw_now : Time; lw_status : option Status; lw_written : bool }.

(** What it leaves: the observers, the sessions announced to the new telemetry
    observer, the new observer that was closed again, the status file, whether the
    control client was started, and the error. *)
Record reloaded := MkReloaded {
  rd_observers : reportingObservers; rd_announced : list string; rd_discarded : option TelemetryObserver;
  rd_status : option Status; rd_started : bool; rd_error : option string }.

Definition previousLastConnected (st : option Status) : Time := match st with Some p => st_LastConnectedAt p | None => 0%Z end.

(** The synchronous write of the status file. *)
Definition write_status (lw : reload_world) (state : State) : option Status :=
  if lw_written lw then Some (MkStatus state "" "" (lw_now lw) (previousLastConnected (lw_status lw))) else lw_status lw.

Definition reloadEnrollment (getenv : string -> string) (files : string -> file) (w : report_world) (lw : reload_world)
    (stateDir configPath : string) (r : reportingObservers) : reloaded :=
  let fail r discarded e := MkReloaded r [] discarded (lw_status lw) false (Some e) in
  if negb (lw_historyLoaded lw) then fail r None "session history failed to load; enrollment cannot publish an incomplete snapshot"
  else if negb (IsAbs configPath) then fail r None "enrollment config path must be absolute"
  else match Load getenv (files configPath) with
       | inl _ => fail r None "load enrollment configuration"
       | inr c =>
           let '(closed, ok) := reporting_Close r (lw_control_ok lw) (lw_telemetry_ok lw) in
           if negb ok then fail closed None "close previous reporting clients"
           else match newTelemetryObserver (cf_Telemetry c) stateDir w with
                | inl e => fail closed None e
                | inr collector =>
                    match newControlClient (cf_Control c) w with
                    | inl e => fail closed collector e
                    | inr control =>
                        let announced := match collector with
                                         | None => []
                                         | Some _ => map info_SessionID (filter (fun i => terminal (info_State i) = false) (lw_infos lw))
                                         end in
                        let state := match control with Some _ => StateConnecting | None => StateNotProvisioned end in
                        MkReloaded (MkReporting collector control) announced None (write_status lw state) (bool_decide (is_Some control)) None
                    end
                end
       end.
End Observers.

(** ** What the observers get *)

Lemma credentials_disjoint s : CollectorCredentialPattern s = true -> ControlCredentialPattern s = false.
Proof.
  unfold CollectorCredentialPattern, ControlCredentialPattern, credential; intros Hc; apply andb_prop in Hc as [Hc _]; apply andb_prop in Hc as [Hc _].
  apply has_prefix_spec in Hc as [t ->]; reflexivity.
Qed.

Lemma kind_of_inj a b : a ∈ all_kinds -> b ∈ all_kinds -> kind_of a = kind_of b -> a = b.
Proof.
  unfold all_kinds; rewrite !elem_of_cons, !elem_of_nil.
  intros Ha Hb; decompose [or] Ha; decompose [or] Hb; subst; try contradiction; vm_compute; congruence.
Qed.

Lemma kinds_distinct kinds : NoDup kinds -> Forall (fun k => k ∈ all_kinds) kinds -> NoDup (map kind_of kinds).
Proof.
  induction 1 as [|k kinds Hk _ IH]; intros Hall; [apply NoDup_nil_2|]; inversion Hall as [|? ? Hin Hks]; subst; cbn.
  constructor; [|apply IH, Hks]; intros Hm; apply list_elem_of_fmap in Hm as (k' & E & Hk').
  rewrite List.Forall_forall in Hks; apply kind_of_inj in E; [subst; contradiction|exact Hin|apply Hks, list_elem_of_In, Hk'].
Qed.

Section Sound.
Context `{ConfigWorld}.

Record telemetry_sound (o : TelemetryObserver) : Prop := {
  ts_https : forall url cred, to_destination o = DestHTTPS url cred ->
    (exists u, url_Parse url = Some u /\ u_Scheme u = "https" /\ u_User u = false) /\
    CollectorCredentialPattern cred = true /\ ControlCredentialPattern cred = false;
  ts_spool : (1 <= to_maxSegmentBytes o <= to_maxDiskBytes o)%Z;
  ts_timers : (0 < to_flush o)%Z /\ (0 < to_retry o)%Z;
  ts_capture : (1 <= to_queueSize o)%Z /\ NoDup (to_kinds o);
}.

Record control_sound (c : ControlClient) : Prop := {
  cs_wss : exists u, url_Parse (text (TrimSpace (chars (cc_endpoint c)))) = Some u /\ u_Scheme u = "wss" /\ u_User u = false;
  cs_credential : ControlCredentialPattern (cc_credential c) = true /\ CollectorCredentialPattern (cc_credential c) = false;
}.

Lemma https_inv t stateDir w d : https_destination t stateDir w = inr d ->
  exists cred, d = DestHTTPS (tel_CollectorURL t) cred /\ CollectorCredentialPattern cred = true.
Proof.
  unfold https_destination; destruct (fst _) as [|data]; [discriminate|]; destruct (rw_collector w data) as [c|]; [|discriminate].
  destruct (CollectorCredentialPattern c) eqn:E; [|discriminate]; intros [= <-]; eauto.
Qed.

Lemma grpc_inv t w d : grpc_destination t w = inr d -> exists target tls, d = DestGRPC target tls.
Proof.
  unfold grpc_destination; destruct (if tel_CollectorInsecure t then _ else _); [discriminate|].
  destruct (rw_dial w _); [|discriminate]; intros [= <-]; eauto.
Qed.

Lemma telemetry_built c stateDir w o : well_formed c -> newTelemetryObserver (cf_Telemetry c) stateDir w = inr (Some o) ->
  tel_Enabled (cf_Telemetry c) = true /\ telemetry_sound o.
Proof.
  intros Wf; set (t := cf_Telemetry c); unfold newTelemetryObserver.
  destruct (tel_Enabled t) eqn:En; [|discriminate]; cbn [negb]; destruct (rw_source w _); [discriminate|].
  destruct (rw_identity w _); [|discriminate]; cbn [negb].
  destruct (wf_spool _ Wf) as (disk & Hp & Hd & _); fold t in Hp, Hd; rewrite Hp; destruct (_ || _) eqn:Es; [discriminate|]; intros Hb.
  destruct (if negb (str_eqb (tel_CollectorURL t) "") && _ then _ else _) as [|dest] eqn:Ed; [discriminate|]; injection Hb as <-.
  split; [reflexivity|]; destruct (wf_intervals _ Wf), (wf_capture _ Wf) as (Hq & Hn & Hk).
  constructor; cbn; [|exact Hd|split; auto|split; [exact Hq|apply kinds_distinct; assumption]].
  intros url cred ->; destruct (str_eqb (tel_CollectorURL t) "") eqn:Eu; cbn in Ed.
  - destruct (str_eqb (tel_CollectorTarget t) ""); cbn in Ed; [discriminate|]; apply grpc_inv in Ed as (? & ? & ?); discriminate.
  - destruct (str_eqb (tel_CollectorTarget t) ""); cbn in Ed; [|apply grpc_inv in Ed as (? & ? & ?); discriminate].
    apply https_inv in Ed as (cred' & [= -> ->] & Hc); split_and!; [|exact Hc|apply credentials_disjoint, Hc].
    destruct (wf_collector _ Wf) as (u & Hu & Hs & _ & Huser); [eapply bool_decide_eq_false, Eu|eauto].
Qed.

Lemma telemetry_there c stateDir w collector : well_formed c -> newTelemetryObserver (cf_Telemetry c) stateDir w = inr collector ->
  is_Some collector <-> tel_Enabled (cf_Telemetry c) = true.
Proof.
  intros Wf Et; destruct collector as [o|]; split; [intros _; eapply telemetry_built; eassumption|eauto|intros [? ?]; discriminate|].
  unfold newTelemetryObserver in Et; intros En; rewrite En in Et; cbn in Et; repeat (case_match; try discriminate).
Qed.

Lemma control_built c w cc : newControlClient c w = inr (Some cc) -> control_sound cc.
Proof.
  unfold newControlClient; destruct (_ || _); [discriminate|]; destruct (ValidateEndpoint (ctl_Endpoint c)) eqn:Ev; [|discriminate].
  cbn [negb]; destruct (fst _) as [|data]; [discriminate|]; destruct (rw_control_json w data) as [cred|]; [|discriminate].
  destruct (ControlCredentialPattern cred) eqn:Ec; [|discriminate]; intros [= <-]; constructor; cbn.
  - unfold ValidateEndpoint in Ev; destruct (url_Parse _) as [u|]; [|discriminate]; repeat (apply andb_prop in Ev as [Ev ?]).
    exists u; split_and!; [reflexivity|eapply bool_decide_eq_true, Ev|].
    match goal with X : negb (u_User u) = true |- _ => apply negb_true_iff in X; exact X end.
  - split; [exact Ec|]; destruct (CollectorCredentialPattern cred) eqn:Ep; [|reflexivity].
    apply credentials_disjoint in Ep; congruence.
Qed.

(** Taking up a new configuration is sound.  When it succeeds, the observers are
    those of the file, each credential goes only where it belongs: the collector's
    over HTTPS and the control credential over wss, never one in place of the other,
    the spool holds at least a segment, every live session is announced to the new
    telemetry observer, and the status file, if it could be written, no longer shows
    the state of an earlier connection but keeps its time.  When it fails, no session
    was announced, no client started, the status is untouched, a telemetry observer
    built on the way was closed again, and reporting is as it was before or off. *)
Theorem reload_sound (getenv : string -> string) (files : string -> file) (w : report_world) (lw : reload_world)
    (stateDir configPath : string) (r : reportingObservers) :
  let d := reloadEnrollment getenv files w lw stateDir configPath r in
  match rd_error d with
  | Some _ => (rd_observers d = r \/ rd_observers d = MkReporting None None) /\ rd_announced d = [] /\
      rd_started d = false /\ rd_status d = lw_status lw
  | None => lw_historyLoaded lw = true /\ rd_discarded d = None /\ exists c, Load getenv (files configPath) = inr c /\
      (forall o, ro_telemetry (rd_observers d) = Some o -> telemetry_sound o /\
         rd_announced d = map info_SessionID (filter (fun i => terminal (info_State i) = false) (lw_infos lw))) /\
      (is_Some (ro_telemetry (rd_observers d)) <-> tel_Enabled (cf_Telemetry c) = true) /\
      (forall cc, ro_control (rd_observers d) = Some cc -> control_sound cc) /\
      (rd_started d = true <-> is_Some (ro_control (rd_observers d))) /\
      (lw_written lw = true -> exists st, rd_status d = Some st /\ st_UpdatedAt st = lw_now lw /\
         st_LastConnectedAt st = previousLastConnected (lw_status lw) /\
         st_State st = (if rd_started d then StateConnecting else StateNotProvisioned))
  end.
Proof.
  unfold reloadEnrollment; destruct (lw_historyLoaded lw); cbn [negb]; [|cbn; auto].
  destruct (IsAbs configPath); cbn [negb]; [|cbn; auto].
  destruct (Load getenv (files configPath)) as [|c] eqn:El; [cbn; auto|].
  unfold reporting_Close; destruct (_ && _); cbn [negb]; [|cbn; auto].
  destruct (newTelemetryObserver _ _ _) as [|collector] eqn:Et; [cbn; auto|].
  destruct (newControlClient _ _) as [|control] eqn:Ec; [cbn; auto|].
  apply Load_finish in El as El'; destruct El' as [c0 Hc0]; apply finish_sound in Hc0.
  cbn [rd_error rd_discarded rd_observers rd_announced rd_started rd_status ro_telemetry ro_control]; split_and!; [reflexivity..|].
  exists c; split; [reflexivity|]; split_and!.
  - intros o ->; split; [eapply telemetry_built; eassumption|reflexivity].
  - eapply telemetry_there; eassumption.
  - intros cc ->; eapply control_built; eassumption.
  - apply bool_decide_eq_true.
  - intros Hw; unfold write_status; rewrite Hw; eexists; split; [reflexivity|]; cbn; split_and!; [reflexivity..|].
    destruct control; reflexivity.
Qed.
End Sound.

(** ** The handshake between a login and the running daemon *)

Record reload_msg := MkReload { rm_ID : string; rm_ConfigPath : string; rm_Error : string }.

Inductive ask_result := AskAccepted | AskRejected (e : string) | AskSuperseded | AskTimedOut.

Inductive hs_entry :=
| LAsked (id path : string)
| LApplied (id path : string) (e : option string)
| LReturned (id : string) (r : ask_result)
| LRestarted.

(** Where the daemon's loop is: waiting for its ticker, in [reloadEnrollment], or
    about to write the result. *)
Inductive loop_at := Idle | Reloading (m : reload_msg) | Acking (m : reload_msg) (e : option string).

(** The two files, the identifier the daemon's loop remembers, where it is, and what
    happened, oldest first. *)
Record handshake := MkHS {
  h_request : option reload_msg; h_result : option reload_msg; h_previous : string; h_loop : loop_at; h_log : list hs_entry }.

Definition empty_hs : handshake := MkHS None None "" Idle [].

Definition is_asked (id : string) (x : hs_entry) : bool := match x with LAsked id' _ => str_eqb id' id | _ => false end.
Definition is_returned (id : string) (x : hs_entry) : bool := match x with LReturned id' _ => str_eqb id' id | _ => false end.
Definition waiting (id : string) (log : list hs_entry) : bool := existsb (is_asked id) log && negb (existsb (is_returned id) log).

Definition note (x : hs_entry) (s : handshake) : handshake := MkHS (h_request s) (h_result s) (h_previous s) (h_loop s) (app (h_log s) [x]).

(** A tick of the daemon's loop in its three parts: reading the request, the reload,
    which ends with [e], and writing the result, which works if [acked].  Logins go
    on in between. *)
Inductive tick_part := TickRead | TickReload (e : option string) | TickAck (acked : bool).

Definition daemon_tick (x : tick_part) (s : handshake) : option handshake :=
  match h_loop s, x with
  | Idle, TickRead =>
      match h_request s with
      | None => Some s
      | Some request =>
          if str_eqb (rm_ID request) "" || str_eqb (rm_ID request) (h_previous s) then Some s
          else Some (MkHS (h_request s) (h_result s) (rm_ID request) (Reloading request) (h_log s))
      end
  | Reloading request, TickReload e =>
      if bool_decide (e = Some "") then None
      else Some (MkHS (h_request s) (h_result s) (h_previous s) (Acking request e) (app (h_log s) [LApplied (rm_ID request) (rm_ConfigPath request) e]))
  | Acking request e, TickAck acked =>
      let ack := MkReload (rm_ID request) "" (default "" e) in
      Some (MkHS (h_request s) (if acked then Some ack else h_result s) (h_previous s) Idle (h_log s))
  | _, _ => None
  end.

(** A round of the waiting login reads the result, then the request. *)
Definition poll_result (id : string) (s : handshake) : option ask_result :=
  match h_result s with
  | Some ack => if str_eqb (rm_ID ack) id then Some (if str_eqb (rm_Error ack) "" then AskAccepted else AskRejected (rm_Error ack)) else None
  | None => None
  end.
Definition poll_request (id : string) (s : handshake) : option ask_result :=
  match h_request s with Some current => if str_eqb (rm_ID current) id then None else Some AskSuperseded | None => None end.

Inductive hs_event :=
| HsAsk (id path : string)
| HsPollResult (id : string)
| HsPollRequest (id : string)
| HsExpire (id : string)
| HsTick (x : tick_part)
| HsRestart.

Definition answer (id : string) (r : option ask_result) (s : handshake) : handshake :=
  match r with None => s | Some r => note (LReturned id r) s end.

(** [None]: not possible.  Identifiers are new, errors have a text, and only a login
    that waits polls; a login may make its two reads at any moments. *)
Definition hs_step (s : handshake) (ev : hs_event) : option handshake :=
  match ev with
  | HsAsk id path =>
      if str_eqb id "" || existsb (is_asked id) (h_log s) then None
      else Some (MkHS (Some (MkReload id path "")) (h_result s) (h_previous s) (h_loop s) (app (h_log s) [LAsked id path]))
  | HsPollResult id => if waiting id (h_log s) then Some (answer id (poll_result id s) s) else None
  | HsPollRequest id => if waiting id (h_log s) then Some (answer id (poll_request id s) s) else None
  | HsExpire id => if waiting id (h_log s) then Some (note (LReturned id AskTimedOut) s) else None
  | HsTick x => daemon_tick x s
  | HsRestart =>
      Some (MkHS (h_request s) (h_result s) (match h_request s with Some m => rm_ID m | None => "" end) Idle (app (h_log s) [LRestarted]))
  end.

Fixpoint hs_run (s : handshake) (evs : list hs_event) : option handshake :=
  match evs with
  | [] => Some s
  | ev :: evs => match hs_step s ev with Some s => hs_run s evs | None => None end
  end.

(** The request was applied, with this end, after it was made. *)
Definition applied (log : list hs_entry) (id path : string) (e : option string) : Prop :=
  exists a b c, log = app a (LAsked id path :: app b (LApplied id path e :: c)).

Definition overtaken (log : list hs_entry) (id : string) : Prop :=
  exists a b path other path', log = app a (LAsked id path :: b) /\ LAsked other path' ∈ b.

(** What an entry says about those before it. *)
Definition entry_ok (before : list hs_entry) (x : hs_entry) : Prop :=
  match x with
  | LAsked id _ => existsb (is_asked id) before = false
  | LApplied id path e => LAsked id path ∈ before /\ forall path' e', LApplied id path' e' ∉ before
  | LReturned id AskAccepted => exists path, applied before id path None
  | LReturned id (AskRejected e) => exists path, applied before id path (Some e)
  | LReturned id AskSuperseded => overtaken before id
  | LReturned _ AskTimedOut | LRestarted => True
  end.

Definition log_ok (log : list hs_entry) : Prop := forall a x b, log = app a (x :: b) -> entry_ok a x.

Lemma log_ok_snoc log x : log_ok log -> entry_ok log x -> log_ok (app log [x]).
Proof.
  intros Hl Hx a y b E; destruct b as [|z b _] using rev_ind.
  - apply app_inj_tail in E as [-> ->]; exact Hx.
  - rewrite app_comm_cons, app_assoc in E; apply app_inj_tail in E as [-> ->]; eapply Hl; reflexivity.
Qed.

Definition in_loop (s : handshake) (id : string) : Prop :=
  match h_loop s with Idle => False | Reloading m | Acking m _ => rm_ID m = id end.

(** The loop came over this request before, or it was there at a start. *)
Definition seen (log : list hs_entry) (id : string) : Prop :=
  (exists path e, LApplied id path e ∈ log) \/ exists a path b, log = app a (LAsked id path :: b) /\ LRestarted ∈ b.

Record hs_inv (s : handshake) : Prop := {
  hi_log : log_ok (h_log s);
  hi_request : forall m, h_request s = Some m -> rm_ID m <> "" /\ exists a b,
    h_log s = app a (LAsked (rm_ID m) (rm_ConfigPath m) :: b) /\ (forall id path, LAsked id path ∉ b);
  hi_none : h_request s = None -> forall id path, LAsked id path ∉ h_log s;
  hi_previous : forall m path e, h_request s = Some m -> LApplied (rm_ID m) path e ∈ h_log s \/ in_loop s (rm_ID m) -> h_previous s = rm_ID m;
  hi_seen : h_previous s <> "" -> in_loop s (h_previous s) \/ seen (h_log s) (h_previous s);
  hi_loop : match h_loop s with
    | Idle => True
    | Reloading m => LAsked (rm_ID m) (rm_ConfigPath m) ∈ h_log s /\ forall path e, LApplied (rm_ID m) path e ∉ h_log s
    | Acking m e => applied (h_log s) (rm_ID m) (rm_ConfigPath m) e /\ e <> Some ""
    end;
  hi_result : forall m, h_result s = Some m ->
    exists path e, applied (h_log s) (rm_ID m) path e /\ rm_Error m = default "" e /\ e <> Some "";
}.

Lemma applied_more log x id path e : applied log id path e -> applied (app log [x]) id path e.
Proof. intros (a & b & c & ->); exists a, b, (app c [x]); rewrite <- app_assoc; cbn; rewrite <- app_assoc; reflexivity. Qed.

Lemma seen_more log x id : seen log id -> seen (app log [x]) id.
Proof.
  intros [(p & e & H)|(a & p & b & -> & H)]; [left; exists p, e; set_solver|]; right; exists a, p, (app b [x]); rewrite <- app_assoc; split; [reflexivity | set_solver].
Qed.

Lemma is_asked_in id log : existsb (is_asked id) log = true <-> exists path, LAsked id path ∈ log.
Proof.
  rewrite existsb_exists; split.
  - intros (x & Hin & Hx); destruct x as [id' path| | |]; try discriminate; apply bool_decide_eq_true in Hx; subst.
    exists path; apply list_elem_of_In, Hin.
  - intros (path & Hin); exists (LAsked id path); split; [apply list_elem_of_In, Hin|apply bool_decide_eq_true; reflexivity].
Qed.

Lemma log_member log x : log_ok log -> x ∈ log -> exists a b, log = app a (x :: b) /\ entry_ok a x.
Proof. intros Hl Hin; apply list_elem_of_split in Hin as (a & b & ->); exists a, b; split; [reflexivity|eapply Hl; reflexivity]. Qed.

(** What was applied, seen or is being applied was asked for. *)
Lemma applied_asked log id path e : log_ok log -> LApplied id path e ∈ log -> existsb (is_asked id) log = true.
Proof.
  intros Hl Hin; apply (log_member _ _ Hl) in Hin as (a & b & E & Hok); cbn in Hok; destruct Hok as [Hask _].
  apply is_asked_in; exists path; rewrite E; set_solver.
Qed.

Lemma seen_asked log id : log_ok log -> seen log id -> existsb (is_asked id) log = true.
Proof. intros Hl [(p & e & H)|(a & p & b & -> & _)]; [eapply applied_asked; eassumption | apply is_asked_in; exists p; set_solver]. Qed.

Lemma loop_asked s id : hs_inv s -> in_loop s id -> existsb (is_asked id) (h_log s) = true.
Proof.
  intros Hs; pose proof (hi_loop _ Hs) as Hb; unfold in_loop; destruct (h_loop s) as [|m|m e]; [tauto| |]; intros <-; apply is_asked_in.
  - exists (rm_ConfigPath m); apply Hb.
  - destruct Hb as [(a & b & c & ->) _]; exists (rm_ConfigPath m); set_solver.
Qed.

(** An entry that says nothing of requests. *)
Lemma note_inv s x : hs_inv s -> entry_ok (h_log s) x -> (forall id path, x <> LAsked id path) -> (forall id path e, x <> LApplied id path e) ->
  hs_inv (note x s).
Proof.
  intros [Hl Hq Hn Hp Hv Hb Hr] He Na Np; constructor; cbn.
  - apply log_ok_snoc; assumption.
  - intros m Hm; destruct (Hq m Hm) as (Hid & a & b & -> & Hb'); split; [exact Hid|]; exists a, (app b [x]).
    split; [rewrite <- app_assoc; reflexivity|]; intros i p H; apply elem_of_app in H as [H|H%list_elem_of_singleton]; [eapply Hb', H | eapply Na; eauto].
  - intros Hm i p H; apply elem_of_app in H as [H|H%list_elem_of_singleton]; [eapply Hn; eassumption | eapply Na; eauto].
  - intros m path e Hm [H|H]; apply (Hp m path e Hm); [left | right; exact H]; apply elem_of_app in H as [H|H%list_elem_of_singleton]; [exact H | destruct (Np _ _ _ (eq_sym H))].
  - intros Hne; destruct (Hv Hne) as [H|H]; [left; exact H | right; apply seen_more, H].
  - destruct (h_loop s); [exact I| |]; destruct Hb as [H1 H2]; split; auto using applied_more; [set_solver|].
    intros p e H; apply elem_of_app in H as [H|H%list_elem_of_singleton]; [eapply H2, H | destruct (Np _ _ _ (eq_sym H))].
  - intros m Hm; destruct (Hr m Hm) as (path & e & Ha & He'); exists path, e; split; [apply applied_more, Ha|exact He'].
Qed.

Lemma ask_inv s id path : hs_inv s -> id <> "" -> existsb (is_asked id) (h_log s) = false ->
  hs_inv (MkHS (Some (MkReload id path "")) (h_result s) (h_previous s) (h_loop s) (app (h_log s) [LAsked id path])).
Proof.
  intros Hs Hid Hf; assert (Hs' := Hs); destruct Hs' as [Hl Hq Hn Hp Hv Hb Hr]; constructor; cbn.
  - apply log_ok_snoc; assumption.
  - intros m [= <-]; split; [exact Hid|]; exists (h_log s), []; split; [reflexivity|set_solver].
  - discriminate.
  - intros m path' e [= <-] [Hin|Hin]; cbn in Hin; exfalso.
    + assert (LApplied id path' e ∈ h_log s) as Hin' by set_solver; rewrite (applied_asked _ _ _ _ Hl Hin') in Hf; discriminate.
    + rewrite (loop_asked _ _ Hs Hin) in Hf; discriminate.
  - intros Hne; destruct (Hv Hne) as [H|H]; [left; exact H | right; apply seen_more, H].
  - destruct (h_loop s); [exact I| |]; destruct Hb as [H1 H2]; split; auto using applied_more; [set_solver|intros p e H; apply (H2 p e); set_solver].
  - intros m Hm; destruct (Hr m Hm) as (p & e & Ha & He'); exists p, e; split; [apply applied_more, Ha|exact He'].
Qed.

Lemma restart_inv s : hs_inv s -> hs_inv (MkHS (h_request s) (h_result s) (match h_request s with Some m => rm_ID m | None => "" end) Idle (app (h_log s) [LRestarted])).
Proof.
  intros Hs; destruct (note_inv s LRestarted Hs I) as [Hl Hq Hn Hp Hv Hb Hr]; try discriminate; constructor; cbn in *; auto.
  - intros m path e Hm _; rewrite Hm; reflexivity.
  - destruct (h_request s) as [m|] eqn:Em; [|congruence]; intros _; right; right.
    destruct (hi_request _ Hs m Em) as (_ & a & b & -> & _); exists a, (rm_ConfigPath m), (app b [LRestarted]); rewrite <- app_assoc; split; [reflexivity | set_solver].
Qed.

Lemma applied_in log id path e : applied log id path e -> LApplied id path e ∈ log.
Proof. intros (a & b & c & ->); set_solver. Qed.

Lemma tick_read_inv s m : hs_inv s -> h_loop s = Idle -> h_request s = Some m -> rm_ID m <> h_previous s ->
  hs_inv (MkHS (h_request s) (h_result s) (rm_ID m) (Reloading m) (h_log s)).
Proof.
  intros [Hl Hq Hn Hp Hv Hb Hr] Hi Hm Hne; constructor; cbn; auto.
  - intros m' path e Hm' _; congruence.
  - destruct (Hq m Hm) as (_ & a & b & El & _); split; [rewrite El; set_solver|]; intros path e Hin; apply Hne; symmetry; eapply Hp; eauto.
Qed.

Lemma tick_reload_inv s m e : hs_inv s -> h_loop s = Reloading m -> e <> Some "" ->
  hs_inv (MkHS (h_request s) (h_result s) (h_previous s) (Acking m e) (app (h_log s) [LApplied (rm_ID m) (rm_ConfigPath m) e])).
Proof.
  intros [Hl Hq Hn Hp Hv Hb Hr] Hi He; rewrite Hi in Hb; destruct Hb as [Hask Hno]; constructor; cbn.
  - apply log_ok_snoc; [exact Hl | split; assumption].
  - intros m' Hm; destruct (Hq m' Hm) as (Hid & a & b & -> & Hb); split; [exact Hid|].
    exists a, (app b [LApplied (rm_ID m) (rm_ConfigPath m) e]); split; [rewrite <- app_assoc; reflexivity | set_solver].
  - intros Hm i p H; apply (Hn Hm i p); set_solver.
  - intros m' path e' Hm H; apply (Hp m' path e' Hm); unfold in_loop in *; rewrite Hi; cbn in H.
    destruct H as [H|H]; [|right; exact H]; apply elem_of_app in H as [H|H%list_elem_of_singleton]; [left; exact H | right; congruence].
  - intros Hne; destruct (Hv Hne) as [H|H]; [left; unfold in_loop in *; rewrite Hi in H; exact H | right; apply seen_more, H].
  - split; [|exact He]; apply list_elem_of_split in Hask as (a & b & ->); eexists a, b, (@nil hs_entry); rewrite <- app_assoc; reflexivity.
  - intros m' Hm; destruct (Hr m' Hm) as (p & e' & Ha & He'); exists p, e'; split; [apply applied_more, Ha|exact He'].
Qed.

Lemma tick_ack_inv s m e (acked : bool) : hs_inv s -> h_loop s = Acking m e ->
  hs_inv (MkHS (h_request s) (if acked then Some (MkReload (rm_ID m) "" (default "" e)) else h_result s) (h_previous s) Idle (h_log s)).
Proof.
  intros [Hl Hq Hn Hp Hv Hb Hr] Hi; rewrite Hi in Hb; destruct Hb as [Ha He]; constructor; cbn; auto.
  - intros m' path e' Hm [H|[]]; eapply Hp; eauto.
  - intros Hne; right; destruct (Hv Hne) as [H|H]; [|exact H]; unfold in_loop in H; rewrite Hi in H; rewrite <- H; left; eauto using applied_in.
  - intros m' Hm; destruct acked; [injection Hm as <-; cbn; eauto | auto].
Qed.

Lemma tick_inv s x s' : hs_inv s -> daemon_tick x s = Some s' -> hs_inv s'.
Proof.
  intros Hs; unfold daemon_tick; destruct (h_loop s) as [|m|m e] eqn:Hi; destruct x as [|e'|acked]; try discriminate.
  - destruct (h_request s) as [m|] eqn:Em; [|intros [= <-]; exact Hs]; destruct (_ || _) eqn:E; [intros [= <-]; exact Hs|].
    apply orb_false_elim in E as [_ Hne]; apply bool_decide_eq_false in Hne; intros [= <-]; rewrite <- Em; apply tick_read_inv; assumption.
  - case_bool_decide; [discriminate|]; intros [= <-]; apply tick_reload_inv; assumption.
  - intros [= <-]; apply tick_ack_inv; assumption.
Qed.

Lemma superseded_ok s id m : hs_inv s -> waiting id (h_log s) = true -> h_request s = Some m -> rm_ID m <> id -> overtaken (h_log s) id.
Proof.
  intros Hs Hw Hm Hne; destruct (hi_request _ Hs m Hm) as (_ & a & b & El & Hb); apply andb_prop in Hw as [Hw _].
  apply is_asked_in in Hw as [path Hin]; rewrite El in Hin; apply elem_of_app in Hin as [Hin|Hin].
  - apply list_elem_of_split in Hin as (a1 & a2 & ->); exists a1, (app a2 (LAsked (rm_ID m) (rm_ConfigPath m) :: b)), path, (rm_ID m), (rm_ConfigPath m).
    split; [rewrite El, <- app_assoc; reflexivity|set_solver].
  - apply elem_of_cons in Hin as [[= -> ->]|Hin]; [contradiction|destruct (Hb _ _ Hin)].
Qed.

Lemma poll_result_ok s id r : hs_inv s -> poll_result id s = Some r -> entry_ok (h_log s) (LReturned id r).
Proof.
  intros Hs; unfold poll_result; destruct (h_result s) as [ack|] eqn:Er; [|discriminate]; destruct (str_eqb (rm_ID ack) id) eqn:E; [|discriminate].
  apply bool_decide_eq_true in E; subst id; destruct (hi_result _ Hs ack Er) as (path & e & Ha & -> & Hne).
  intros [= <-]; destruct e as [e|]; cbn [from_option]; [|exists path; exact Ha].
  change (id e) with e; destruct (str_eqb e "") eqn:Ee; [apply bool_decide_eq_true in Ee; congruence|exists path; exact Ha].
Qed.

Lemma poll_request_ok s id r : hs_inv s -> waiting id (h_log s) = true -> poll_request id s = Some r -> entry_ok (h_log s) (LReturned id r).
Proof.
  intros Hs Hw; unfold poll_request; destruct (h_request s) as [m|] eqn:Em; [|discriminate]; destruct (str_eqb (rm_ID m) id) eqn:E; [discriminate|].
  apply bool_decide_eq_false in E; intros [= <-]; eapply superseded_ok; eassumption.
Qed.

Lemma answer_inv s id r : hs_inv s -> (forall x, r = Some x -> entry_ok (h_log s) (LReturned id x)) -> hs_inv (answer id r s).
Proof. intros Hs H; destruct r as [r|]; [apply note_inv; auto; discriminate | exact Hs]. Qed.

Lemma hs_step_inv s ev s' : hs_inv s -> hs_step s ev = Some s' -> hs_inv s'.
Proof.
  intros Hs; destruct ev as [id path|id|id|id|x|]; cbn.
  - destruct (_ || _) eqn:E; [discriminate|]; apply orb_false_elim in E as [Hid Hf]; intros [= <-].
    apply ask_inv; [exact Hs|eapply bool_decide_eq_false, Hid|exact Hf].
  - destruct (waiting id _) eqn:Hw; [|discriminate]; intros [= <-]; apply answer_inv; [exact Hs|]; intros r Hr; eapply poll_result_ok; eassumption.
  - destruct (waiting id _) eqn:Hw; [|discriminate]; intros [= <-]; apply answer_inv; [exact Hs|]; intros r Hr; eapply poll_request_ok; eassumption.
  - destruct (waiting id _); [|discriminate]; intros [= <-]; apply note_inv; try discriminate; [exact Hs|exact I].
  - apply tick_inv, Hs.
  - intros [= <-]; apply restart_inv, Hs.
Qed.

Lemma hs_run_inv evs : forall s s', hs_inv s -> hs_run s evs = Some s' -> hs_inv s'.
Proof.
  induction evs as [|ev evs IH]; intros s s' Hs; cbn; [intros [= <-]; exact Hs|].
  destruct (hs_step s ev) as [s1|] eqn:E; [|discriminate]; apply IH; eapply hs_step_inv; eassumption.
Qed.

Lemma empty_hs_inv : hs_inv empty_hs.
Proof. constructor; cbn; try discriminate; try congruence; auto; [intros [|? a] x b E; discriminate E|intros _ id path; set_solver]. Qed.

(** The last request, made since the daemon started and not yet taken up. *)
Definition pending (s : handshake) (id path : string) : Prop :=
  h_loop s = Idle /\ waiting id (h_log s) = true /\ (forall p e, LApplied id p e ∉ h_log s) /\
  exists a b, h_log s = app a (LAsked id path :: b) /\ LRestarted ∉ b /\ forall id' path', LAsked id' path' ∉ b.

(** An entry that occurs once has one place. *)
Lemma split_unique {A} (a b a' b' : list A) (P : A -> Prop) x y :
  app a (x :: b) = app a' (y :: b') -> P x -> P y -> (forall z, z ∈ b -> ~ P z) -> (forall z, z ∈ b' -> ~ P z) -> a = a' /\ x = y /\ b = b'.
Proof.
  revert a'; induction a as [|z a IH]; intros [|z' a'] E Px Py Hb Hb'; cbn in E; injection E as <- E.
  - auto.
  - exfalso; apply (Hb y); [rewrite E; set_solver | exact Py].
  - exfalso; apply (Hb' x); [rewrite <- E; set_solver | exact Px].
  - destruct (IH _ E Px Py Hb Hb') as (-> & -> & ->); auto.
Qed.

Lemma pending_request s id path : hs_inv s -> pending s id path ->
  exists m, h_request s = Some m /\ rm_ID m = id /\ rm_ConfigPath m = path /\ id <> "" /\ h_previous s <> id.
Proof.
  intros Hs (Hi & Hw & Hna & a & b & El & Hnr & Hb); destruct (h_request s) as [m|] eqn:Em.
  2: { exfalso; apply (hi_none _ Hs Em id path); rewrite El; set_solver. }
  destruct (hi_request _ Hs m Em) as (Hid & a' & b' & El' & Hb').
  set (P := fun x => exists i p, x = LAsked i p).
  destruct (split_unique a b a' b' P (LAsked id path) (LAsked (rm_ID m) (rm_ConfigPath m))) as (-> & [= -> ->] & ->);
    [congruence | unfold P; eauto | unfold P; eauto | intros z Hz (i & p & ->); eapply Hb, Hz | intros z Hz (i & p & ->); eapply Hb', Hz|].
  exists m; split_and!; auto; intros Hp; destruct (hi_seen _ Hs) as [H|[(p & e & H)|(a1 & p & b1 & El1 & H)]]; rewrite ?Hp in *; auto.
  - unfold in_loop in H; rewrite Hi in H; exact H.
  - eapply Hna, H.
  - destruct (split_unique a' b' a1 b1 (fun x => exists q, x = LAsked (rm_ID m) q) (LAsked (rm_ID m) (rm_ConfigPath m)) (LAsked (rm_ID m) p))
      as (_ & _ & ->); eauto; [congruence | intros z Hz (q & ->); eapply Hb', Hz|].
    intros z Hz (q & ->); apply list_elem_of_split in Hz as (c & d & ->); rewrite app_comm_cons, app_assoc in El1.
    pose proof (hi_log _ Hs _ _ _ El1) as O; cbn in O; rewrite existsb_app in O; cbn in O; unfold str_eqb in O.
    rewrite bool_decide_eq_true_2, orb_true_r in O by reflexivity; discriminate.
Qed.

(** C24. Whatever logins, reads, timeouts, steps of the daemon's reload loop
    (reading the request, the reload, writing the result, which may fail) and
    restarts of the daemon happen in whatever order: a login is told its
    configuration was accepted or refused only if the daemon took it up, after it
    asked, with that outcome, and superseded only if another login asked after it;
    no request is taken up twice. A request that was made since the daemon last
    started, by a login that still waits and that no login has overtaken, and that
    was not taken up yet, is taken up when the idle loop ticks, and if the result
    can be written the login is told the outcome when it next reads it. A request
    that is already there when the daemon starts is not taken up (see findings).
    *)
Theorem reload_handshake (evs : list hs_event) (s : handshake) (Hr : hs_run empty_hs evs = Some s) :
  log_ok (h_log s) /\
  forall id path e, pending s id path -> e <> Some "" ->
    exists s', hs_run s [HsTick TickRead; HsTick (TickReload e); HsTick (TickAck true); HsPollResult id] = Some s' /\
      h_log s' = app (h_log s) [LApplied id path e; LReturned id (match e with None => AskAccepted | Some e => AskRejected e end)].
Proof.
  pose proof (hs_run_inv _ _ _ empty_hs_inv Hr) as Hs; split; [apply Hs|]; intros id path e Hp He.
  destruct (pending_request _ _ _ Hs Hp) as (m & Hm & Hid & Hpath & Hne & Hprev); destruct Hp as (Hi & Hw & _).
  cbn [hs_run hs_step daemon_tick]; unfold daemon_tick at 1; rewrite Hi, Hm, Hid; unfold str_eqb at 1 2.
  rewrite !bool_decide_eq_false_2 by congruence; cbn [orb hs_run hs_step]; unfold daemon_tick at 1; cbn [h_loop].
  rewrite bool_decide_eq_false_2 by exact He; cbn [hs_run hs_step]; unfold daemon_tick at 1; cbn [h_loop hs_run hs_step h_log].
  apply andb_prop in Hw as [Hask Hret]; apply negb_true_iff in Hret; unfold waiting; rewrite !existsb_app, Hask, Hret; cbn [existsb is_asked is_returned orb andb negb].
  unfold poll_result, str_eqb; cbn [h_result rm_ID rm_Error]; rewrite Hid, (bool_decide_eq_true_2 (id = id)) by reflexivity.
  eexists; split; [reflexivity|]; cbn [answer note h_log]; rewrite Hpath, <- app_assoc; cbn [app].
  destruct e as [e|]; [|reflexivity]; cbn [from_option]; change (Datatypes.id e) with e; rewrite bool_decide_eq_false_2 by congruence; reflexivity.
Qed.

(** ** The telemetry identity *)

(** [f]: the contents of the identity file, if it exists.  [inl true]: it does not. *)
Definition readSourceID (f : option string) : bool + string :=
  match f with
  | None => inl true
  | Some data => let id := text (TrimSpace (chars data)) in if ValidSourceID id then inr id else inl false
  end.

(** [ResolveSourceID] up to the point where the file is found missing ([inr None]). *)
Definition resolve_read (configured : string) (f : option string) : string + option string :=
  let configured := text (TrimSpace (chars configured)) in
  if negb (str_eqb configured "") then
    if ValidSourceID configured then inr (Some configured) else inl "invalid source ID"
  else match readSourceID f with
       | inr id => inr (Some id)
       | inl true => inr None
       | inl false => inl "invalid persisted telemetry source ID"
       end.

(** The rest: link a complete file, or read the one that was there first. *)
Definition resolve_link (fresh : string) (f : option string) : option string * (string + string) :=
  match f with
  | None => (Some (fresh +:+ text [10%Z]), inr fresh)
  | Some _ => (f, match readSourceID f with inr id => inr id | inl _ => inl "invalid persisted telemetry source ID" end)
  end.

Inductive phase := PhRead | PhLink | PhReturned (r : string + string).

Section SourceID.
Variable configured : nat -> string.
Variable fresh : nat -> string.

(** Any number of processes start on one directory, each step by whichever goes
    next. *)
Definition source_step (st : option string * gmap nat phase) (p : nat) : option string * gmap nat phase :=
  let '(f, ph) := st in
  match default PhRead (ph !! p) with
  | PhRead => (f, <[p := match resolve_read (configured p) f with
                         | inl e => PhReturned (inl e)
                         | inr (Some id) => PhReturned (inr id)
                         | inr None => PhLink
                         end]> ph)
  | PhLink => let '(f', r) := resolve_link (fresh p) f in (f', <[p := PhReturned r]> ph)
  | PhReturned _ => st
  end.

Definition unconfigured (p : nat) : Prop := text (TrimSpace (chars (configured p))) = "".

Definition source_inv (st : option string * gmap nat phase) : Prop :=
  forall p id, unconfigured p -> st.2 !! p = Some (PhReturned (inr id)) -> readSourceID st.1 = inr id.

Hypothesis fresh_valid : forall p, ValidSourceID (fresh p) = true.

Lemma valid_graphic s : ValidSourceID s = true -> forallb graphic (chars s) = true.
Proof.
  unfold ValidSourceID; destruct (chars s) as [|c t]; [discriminate|]; intros Hv.
  apply andb_prop in Hv as [Hv Ht]; apply andb_prop in Hv as [Hc _]; cbn; apply andb_true_intro; split.
  - unfold alnum, graphic, in_range in *; lia.
  - rewrite forallb_forall in *; intros x Hx; specialize (Ht x Hx); unfold alnum, graphic, in_range in *; lia.
Qed.

Lemma fresh_read p : readSourceID (Some (fresh p +:+ text [10%Z])) = inr (fresh p).
Proof.
  unfold readSourceID; rewrite chars_app; change (chars (text [10%Z])) with [10%Z].
  rewrite TrimSpace_line, text_chars, fresh_valid by apply valid_graphic, fresh_valid; reflexivity.
Qed.

Lemma source_step_inv st p : source_inv st -> source_inv (source_step st p).
Proof.
  destruct st as [f ph]; intros Hs q id Hu; unfold source_step, source_inv in *; cbn [fst snd] in Hs.
  destruct (default PhRead (ph !! p)) eqn:Ep; [| |apply Hs, Hu].
  - cbn [fst snd]; destruct (decide (p = q)) as [->|Hne]; [|rewrite lookup_insert_ne by exact Hne; apply Hs, Hu].
    rewrite lookup_insert_eq; unfold resolve_read; rewrite Hu; cbn [str_eqb]; unfold str_eqb; rewrite bool_decide_eq_true_2 by reflexivity; cbn [negb].
    destruct (readSourceID f) as [[]|id']; intros [= <-]; reflexivity.
  - unfold resolve_link; destruct f as [data|]; cbn [fst snd].
    + destruct (decide (p = q)) as [->|Hne]; [|rewrite lookup_insert_ne by exact Hne; apply Hs, Hu].
      rewrite lookup_insert_eq; destruct (readSourceID (Some data)); intros [= <-]; reflexivity.
    + destruct (decide (p = q)) as [->|Hne].
      * rewrite lookup_insert_eq; intros [= <-]; apply fresh_read.
      * rewrite lookup_insert_ne by exact Hne; intros Hq; apply (Hs q id Hu) in Hq; discriminate Hq.
Qed.

(** Daemons that start at the same time on one directory agree on their telemetry
    identity, in whatever order their steps fall and whatever the directory held, as
    long as none is configured: all that get one get the same, and it is what the
    file holds. *)
Theorem source_id_agreed (f : option string) (order : list nat) (p q : nat) (i j : string)
    (Hp : unconfigured p) (Hq : unconfigured q) :
  let st := fold_left source_step order (f, ∅) in
  st.2 !! p = Some (PhReturned (inr i)) -> st.2 !! q = Some (PhReturned (inr j)) -> i = j /\ readSourceID st.1 = inr i.
Proof.
  assert (forall st, source_inv st -> source_inv (fold_left source_step order st)) as Hinv.
  { induction order as [|x order IH]; intros st Hs; [exact Hs|]; apply IH, source_step_inv, Hs. }
  specialize (Hinv (f, ∅) ltac:(intros ? ? _ K; cbn in K; rewrite lookup_empty in K; discriminate)).
  intros st Hi Hj; apply Hinv in Hi; [|exact Hp]; apply Hinv in Hj; [|exact Hq]; split; [congruence|exact Hi].
Qed.
End SourceID.

(** ** Concrete runs *)

Definition sample_fresh (p : nat) : string := if (p =? 1)%nat then "6f1c0e52" else "b7d4a9f0".

Lemma source_id_agreed_witness :
  let st := fold_left (source_step (fun _ => " ") sample_fresh) [1; 2; 2; 1; 3]%nat (None, ∅) in
  st.2 !! 1%nat = Some (PhReturned (inr "b7d4a9f0")) /\ st.2 !! 3%nat = Some (PhReturned (inr "b7d4a9f0")) /\
  readSourceID st.1 = inr "b7d4a9f0".
Proof.
  split; [vm_compute; reflexivity|]; split; [vm_compute; reflexivity|].
  apply (source_id_agreed (fun _ => " ") sample_fresh ltac:(intros p; unfold sample_fresh; destruct (p =? 1)%nat; reflexivity)
           None [1; 2; 2; 1; 3]%nat 1 3 "b7d4a9f0" "b7d4a9f0"); vm_compute; reflexivity.
Defined.

Definition whole_tick (e : option string) : list hs_event := [HsTick TickRead; HsTick (TickReload e); HsTick (TickAck true)].

(** A second login overtakes the first, a third comes after a restart, while a fourth
    request is still being applied when the daemon restarts. *)
Definition sample_handshake : list hs_event :=
  app [HsAsk "a" "/c1"; HsAsk "b" "/c2"; HsPollRequest "a"] (app (whole_tick None)
    [HsPollResult "b"; HsAsk "d" "/c4"; HsTick TickRead; HsRestart; HsAsk "c" "/c3"]).

Definition handshake_after (evs : list hs_event) : handshake := default empty_hs (hs_run empty_hs evs).

Lemma reload_handshake_witness :
  h_log (handshake_after sample_handshake) =
    [LAsked "a" "/c1"; LAsked "b" "/c2"; LReturned "a" AskSuperseded; LApplied "b" "/c2" None; LReturned "b" AskAccepted;
     LAsked "d" "/c4"; LRestarted; LAsked "c" "/c3"] /\
  log_ok (h_log (handshake_after sample_handshake)) /\
  exists s', hs_run (handshake_after sample_handshake) (app (whole_tick (Some "no spool")) [HsPollResult "c"]) = Some s'.
Proof.
  destruct (reload_handshake sample_handshake (handshake_after sample_handshake) ltac:(vm_compute; reflexivity)) as [Hl Hn].
  assert (E : h_log (handshake_after sample_handshake) =
    [LAsked "a" "/c1"; LAsked "b" "/c2"; LReturned "a" AskSuperseded; LApplied "b" "/c2" None; LReturned "b" AskAccepted;
     LAsked "d" "/c4"; LRestarted; LAsked "c" "/c3"]) by (vm_compute; reflexivity).
  split; [exact E|]; split; [exact Hl|].
  destruct (Hn "c" "/c3" (Some "no spool")) as (s' & Hs' & _); [|discriminate|exists s'; exact Hs'].
  split_and!; [vm_compute; reflexivity | vm_compute; reflexivity | intros p e; rewrite E; set_solver|].
  exists (take 7 (h_log (handshake_after sample_handshake))), []; rewrite E; split_and!; [reflexivity | set_solver | intros; set_solver].
Defined.

(** A login whose configuration was taken up can be told it was superseded: another
    login's answer replaces its own before it looks. *)
Lemma applied_but_superseded :
  h_log (handshake_after (app [HsAsk "a" "/c1"] (app (whole_tick None) (app [HsAsk "b" "/c2"] (app (whole_tick None) [HsPollResult "a"; HsPollRequest "a"]))))) =
    [LAsked "a" "/c1"; LApplied "a" "/c1" None; LAsked "b" "/c2"; LApplied "b" "/c2" None; LReturned "a" AskSuperseded].
Proof. vm_compute; reflexivity. Qed.

(** A request that is there when the daemon starts, also one whose login still waits,
    is never taken up: the login can only time out. *)
Lemma request_lost_at_restart :
  let s := handshake_after [HsAsk "a" "/c1"; HsRestart; HsTick TickRead] in
  h_loop s = Idle /\ h_previous s = "a" /\ waiting "a" (h_log s) = true /\ poll_result "a" s = None /\ poll_request "a" s = None /\
  daemon_tick TickRead s = Some s.
Proof. vm_compute; split_and!; reflexivity. Qed.

(** Enrollment files of a machine, and a configuration that reports to both. *)
Definition brc : string := "brc_0123456789012345678901234567890123456789012".
Definition bri : string := "bri_0123456789012345678901234567890123456789012".

Definition enrolled_Config : Config :=
  let c := zero_Config in
  MkCfg "" (cf_Server c) (cf_Security c) (cf_StepCA c) (cf_TLS c) (cf_Auth c) false (cf_Sessions c) 0 (cf_RateLimits c) "" "" (cf_RepoSetup c)
    (MkTelemetry true "" "" "" "" "" "" false "" "" "https://t.example" "" true [] 0 "" "" "" 0 "" false false)
    (MkControlCfg "wss://c.example/v1" "~/ctl.json" true) ∅ [] (cf_Logging c).

#[local] Instance enrolled_files : ConfigWorld := {|
  yaml_Config _ := Some enrolled_Config;
  yaml_IncludeText _ := Some None;
  yaml_Listen _ := Some None;
  yaml_Logging _ := Some ("", "");
  humanize_ParseBytes _ := Some 1000000000%N;
  url_Parse s := if str_eqb s "https://t.example" then Some (MkURL "https" "t.example" false "" false "" "")
                 else if str_eqb s "wss://c.example/v1" then Some (MkURL "wss" "c.example" false "" false "" "/v1") else None;
  range m := map_to_list m;
  range_perm m := reflexivity _;
|}.

Definition enrolled_world : report_world :=
  MkReport sample_env (Some "/home/ci")
    (fun path => if str_eqb path "/s/bridge-credentials.json" then Some (MkFile false true 384 (Some [Byte.x01]) true)
                 else if str_eqb path "/home/ci/ctl.json" then Some (MkFile false true 384 (Some [Byte.x02]) true) else None)
    (fun _ => inr "src-1") (fun _ => true) (fun _ => true) (fun _ => None) (fun _ => true) (fun _ => Some brc) (fun _ => Some bri).

Definition sample_reload : reloaded :=
  reloadEnrollment sample_env (fun _ => Contents []) enrolled_world
    (MkReloadWorld true [] true true 100 (Some (MkStatus StateConnected "inst" "" 90 90)) true) "/s" "/home/ci/bridge.yaml" (MkReporting None None).

(** Both observers are up, and the old connection no longer shows as connected. *)
Lemma sample_reload_status :
  rd_error sample_reload = None /\ rd_status sample_reload = Some (MkStatus StateConnecting "" "" 100 90) /\
  option_map to_destination (ro_telemetry (rd_observers sample_reload)) = Some (DestHTTPS "https://t.example" brc) /\
  ro_control (rd_observers sample_reload) = Some (MkControlClient "wss://c.example/v1" bri).
Proof. vm_compute; auto. Qed.

(** A credential file that is missing switches reporting off altogether: the working
    observers are closed before the new ones are built. *)
Lemma failed_reload_switches_off :
  let before := rd_observers sample_reload in
  let w := MkReport sample_env (Some "/home/ci") (fun _ => None) (fun _ => inr "src-1") (fun _ => true) (fun _ => true)
             (fun _ => None) (fun _ => true) (fun _ => Some brc) (fun _ => Some bri) in
  let d := reloadEnrollment sample_env (fun _ => Contents []) w (MkReloadWorld true [] true true 200 (rd_status sample_reload) true) "/s" "/home/ci/bridge.yaml" before in
  before <> MkReporting None None /\ rd_error d = Some "read telemetry collector credential" /\ rd_observers d = MkReporting None None.
Proof. vm_compute; split; [discriminate|auto]. Qed.

(** A path that is only a tilde is not the home directory. *)
Lemma bare_tilde_not_home : expandTelemetryPath sample_env (Some "/home/ci") "~" = "/home/ci/~".
Proof. vm_compute; reflexivity. Qed.
