(* ===== verification/Utf8.v ===== *)
(** * UTF-8: unicode/utf8 as the telemetry code uses it

    Lemmas on the decoder of GoStd, [utf8.FullRune], and the tracking of the end of a
    growing buffer in internal/telemetry/live.go ([utf8State], [advanceUTF8State],
    [validOrIncompleteUTF8]), which is shown to give what a check of the whole buffer
    gives. *)

From Stdlib Require Import Sorting.Sorted.
From S2P Require Import Prelude GoStd.

Abbreviation text := (list Z).

(** [utf8.FullRune]: the text begins with a complete encoding or with an error. *)
Definition FullRune (s : text) : bool :=
  match s with
  | [] => false
  | c0 :: s1 =>
      if in_range 194 223 c0 then match s1 with [] => false | _ => true end
      else if in_range 224 239 c0 then
        match s1 with
        | [] => false
        | [c1] => negb (in_range (if c0 =? 224 then 160 else 128) (if c0 =? 237 then 159 else 191) c1)
        | _ => true
        end
      else if in_range 240 244 c0 then
        match s1 with
        | [] => false
        | [c1] => negb (in_range (if c0 =? 240 then 144 else 128) (if c0 =? 244 then 143 else 191) c1)
        | [c1; c2] => negb (in_range (if c0 =? 240 then 144 else 128) (if c0 =? 244 then 143 else 191) c1) || negb (cont c2)
        | _ => true
        end
      else true
  end.

(** ** live.go *)

Record utf8State := MkUtf8 { broken : bool; tail : text }.

Definition clean : utf8State := MkUtf8 false [].

(** The loop over the last one to three bytes: the incomplete end, if it is one. *)
Fixpoint incomplete_from (suffixes : list nat) (window : text) : option text :=
  match suffixes with
  | [] => None
  | n :: suffixes =>
      if (length window <? n)%nat then None
      else
        let prefix := take (length window - n) window in
        let tail := drop (length window - n) window in
        if ValidString prefix && negb (FullRune tail) then Some tail else incomplete_from suffixes window
  end.

Definition incomplete_end (window : text) : option text := incomplete_from [1; 2; 3]%nat window.

Definition advanceUTF8State (prev : utf8State) (newData : text) : utf8State :=
  if broken prev then prev
  else
    let window := tail prev ++ newData in
    if ValidString window then clean
    else match incomplete_end window with
         | Some t => MkUtf8 false t
         | None => MkUtf8 true []
         end.

Definition validOrIncompleteUTF8 (data : text) : bool :=
  ValidString data || match incomplete_end data with Some _ => true | None => false end.

(** ** Decoding *)

Definition is_error (rw : Z * nat) : bool := (fst rw =? RuneError) && bool_decide (snd rw = 1%nat).

Lemma DecodeRune_width s : s <> [] -> (1 <= (DecodeRune s).2 <= length s)%nat.
Proof.
  destruct s as [|c0 s]; [congruence|]; intros _; unfold DecodeRune; repeat (case_match; cbn [length snd]; try lia).
Qed.

Lemma runes_fuel_enough n m s : (length s <= n)%nat -> (length s <= m)%nat -> runes_fuel n s = runes_fuel m s.
Proof.
  revert m s; induction n as [|n IH]; intros m [|c s] Hn Hm; cbn [length] in *; [destruct m; reflexivity|lia|destruct m; reflexivity|].
  destruct m as [|m]; [lia|]; cbn [runes_fuel]; pose proof (DecodeRune_width (c :: s) ltac:(discriminate)) as Hw; cbn [length] in Hw.
  destruct (DecodeRune (c :: s)) as [r w]; cbn [snd] in Hw; f_equal; apply IH; rewrite length_drop; cbn [length]; lia.
Qed.

Lemma runes_step s : s <> [] -> runes s = DecodeRune s :: runes (drop (DecodeRune s).2 s).
Proof.
  destruct s as [|c s]; [congruence|]; intros Hs; pose proof (DecodeRune_width _ Hs) as Hw; unfold runes; cbn [runes_fuel length].
  destruct (DecodeRune (c :: s)) as [r w]; cbn [snd] in *; f_equal; apply runes_fuel_enough; rewrite ?length_drop; cbn [length] in *; lia.
Qed.

Lemma Valid_step s : s <> [] -> ValidString s = negb (is_error (DecodeRune s)) && ValidString (drop (DecodeRune s).2 s).
Proof. intros Hs; unfold ValidString; rewrite runes_step by exact Hs; reflexivity. Qed.

(** A rune that is not cut off decodes the same in a longer text. *)
Lemma DecodeRune_app s t : FullRune s = true -> DecodeRune (s ++ t) = DecodeRune s.
Proof.
  destruct s as [|c0 s]; [discriminate|]; cbn [FullRune app DecodeRune].
  destruct (c0 <? 128) eqn:E0; [reflexivity|]; destruct (in_range 194 223 c0); [destruct s; [discriminate|reflexivity]|].
  destruct (in_range 224 239 c0).
  { destruct s as [|c1 [|c2 s]]; [discriminate| |reflexivity]; intros H; apply negb_true_iff in H; cbn [app].
    destruct t as [|c2 t]; [reflexivity|]; rewrite H; reflexivity. }
  destruct (in_range 240 244 c0); [|reflexivity].
  destruct s as [|c1 [|c2 [|c3 s]]]; [discriminate| | |reflexivity]; cbn [app]; intros H.
  - apply negb_true_iff in H; destruct t as [|c2 [|c3 t]]; [reflexivity..|]; rewrite H; reflexivity.
  - destruct t as [|c3 t]; [reflexivity|]; apply orb_true_iff in H as [H|H]; apply negb_true_iff in H; rewrite H; rewrite ?andb_false_r; reflexivity.
Qed.

(** An incomplete encoding decodes as an error and is at most three bytes long. *)
Lemma not_full_error s : FullRune s = false -> s <> [] -> is_error (DecodeRune s) = true /\ (1 <= length s <= 3)%nat.
Proof.
  destruct s as [|c0 s]; [congruence|]; intros H _; cbn [FullRune] in H; cbn [DecodeRune].
  destruct (in_range 194 223 c0) eqn:E1.
  { destruct s; [|discriminate]; unfold in_range in E1; replace (c0 <? 128) with false by lia; auto. }
  destruct (in_range 224 239 c0) eqn:E2.
  { unfold in_range in E2; replace (c0 <? 128) with false by lia; destruct s as [|c1 [|c2 s]]; [| |discriminate]; cbn [length]; split; auto; lia. }
  destruct (in_range 240 244 c0) eqn:E3; [|discriminate].
  unfold in_range in E3; replace (c0 <? 128) with false by lia; destruct s as [|c1 [|c2 [|c3 s]]]; [| | |discriminate]; cbn [length]; split; auto; lia.
Qed.

(** A rune that decodes without error is complete. *)
Lemma good_full s : s <> [] -> is_error (DecodeRune s) = false -> FullRune s = true.
Proof. intros Hs He; destruct (FullRune s) eqn:E; [reflexivity|]; destruct (not_full_error s E Hs); congruence. Qed.

(** Only the bytes of a rune matter to its decoding. *)
Lemma DecodeRune_take s t : s <> [] -> is_error (DecodeRune s) = false -> DecodeRune (take (DecodeRune s).2 s ++ t) = DecodeRune s.
Proof.
  destruct s as [|c0 s]; [congruence|]; intros _; cbn [DecodeRune].
  destruct (c0 <? 128) eqn:E0; [intros _; cbn; rewrite E0; reflexivity|].
  destruct (in_range 194 223 c0) eqn:E1.
  { destruct s as [|c1 s]; [discriminate|]; destruct (cont c1) eqn:Ec; [|discriminate]; intros _; cbn; rewrite E0, E1, Ec; reflexivity. }
  destruct (in_range 224 239 c0) eqn:E2.
  { destruct s as [|c1 [|c2 s]]; [discriminate..|]; destruct (_ && cont c2) eqn:Ec; [|discriminate]; intros _; cbn [snd take app DecodeRune].
    rewrite E0, E1, E2, Ec; reflexivity. }
  destruct (in_range 240 244 c0) eqn:E3; [|discriminate].
  destruct s as [|c1 [|c2 [|c3 s]]]; [discriminate..|]; destruct (_ && cont c3) eqn:Ec; [|discriminate]; intros _; cbn [snd take app DecodeRune].
  rewrite E0, E1, E2, E3, Ec; reflexivity.
Qed.

(** Induction over the runes of a valid text. *)
Lemma Valid_ind (P : text -> Prop) :
  P [] -> (forall s, s <> [] -> is_error (DecodeRune s) = false -> ValidString (drop (DecodeRune s).2 s) = true ->
             P (drop (DecodeRune s).2 s) -> P s) ->
  forall s, ValidString s = true -> P s.
Proof.
  intros H0 H1 s; remember (length s) as n eqn:En; assert (length s <= n)%nat as Hn by lia; clear En; revert s Hn.
  induction n as [|n IH]; intros [|c s] Hn Hv; [exact H0|cbn in Hn; lia|exact H0|].
  rewrite Valid_step in Hv by discriminate; apply andb_prop in Hv as [He Hv]; apply negb_true_iff in He.
  apply H1; [discriminate|exact He|exact Hv|]; apply IH; [|exact Hv].
  pose proof (DecodeRune_width (c :: s) ltac:(discriminate)); rewrite length_drop; cbn [length] in *; lia.
Qed.

Lemma Valid_app a b : ValidString a = true -> ValidString (a ++ b) = ValidString b.
Proof.
  revert a; apply (Valid_ind (fun a => ValidString (a ++ b) = ValidString b)); [reflexivity|].
  intros s Hs He _ IH; rewrite Valid_step by (destruct s; [congruence|discriminate]).
  rewrite DecodeRune_app, He by (apply good_full; assumption); cbn [negb andb].
  rewrite drop_app_le by (pose proof (DecodeRune_width s Hs); lia); exact IH.
Qed.

(** Every text is valid up to an end that is empty, incomplete, or begins with an
    error. *)
Lemma Valid_split s : exists p x, s = p ++ x /\ ValidString p = true /\ (x = [] \/ (x <> [] /\ is_error (DecodeRune x) = true)).
Proof.
  remember (length s) as n eqn:En; assert (length s <= n)%nat as Hn by lia; clear En; revert s Hn.
  induction n as [|n IH]; intros [|c s] Hn; [exists [], []; auto|cbn in Hn; lia|exists [], []; auto|].
  destruct (is_error (DecodeRune (c :: s))) eqn:He; [exists [], (c :: s); split; [reflexivity|]; split; [reflexivity|]; right; split; [discriminate|exact He]|].
  pose proof (DecodeRune_width (c :: s) ltac:(discriminate)) as Hw; set (w := (DecodeRune (c :: s)).2) in *.
  destruct (IH (drop w (c :: s))) as (p & x & E & Hp & Hx); [rewrite length_drop; cbn [length] in *; lia|].
  exists (take w (c :: s) ++ p), x; split; [rewrite <- app_assoc, <- E, take_drop; reflexivity|]; split; [|exact Hx].
  pose proof (DecodeRune_take (c :: s) p ltac:(discriminate) He) as Hd; fold w in Hd.
  rewrite Valid_step, Hd, He by (destruct w; [lia|discriminate]); fold w; cbn [negb andb].
  rewrite drop_app_ge, length_take by (rewrite length_take; lia).
  replace (w - w `min` length (c :: s))%nat with 0%nat by lia; exact Hp.
Qed.

Lemma not_valid_error x : x <> [] -> is_error (DecodeRune x) = true -> ValidString x = false.
Proof. intros Hx He; rewrite Valid_step, He by exact Hx; reflexivity. Qed.

(** ** The end of a growing buffer *)

(** What the state of a buffer should be. *)
Definition state_of (data : text) : utf8State := advanceUTF8State clean data.

(** The three possible states, by the invalid end [x] of the buffer. *)
Definition end_state (x : text) : utf8State :=
  match x with [] => clean | _ => if FullRune x then MkUtf8 true [] else MkUtf8 false x end.

Lemma incomplete_unique p x t n : ValidString p = true -> FullRune x = false -> x <> [] ->
  (n <= length (p ++ x))%nat -> ValidString (take (length (p ++ x) - n) (p ++ x)) = true ->
  FullRune (drop (length (p ++ x) - n) (p ++ x)) = false -> drop (length (p ++ x) - n) (p ++ x) = t -> t <> [] -> t = x.
Proof.
  intros Hp Hx Hne Hn Hv Hf <- Hd; set (k := (length (p ++ x) - n)%nat) in *.
  destruct (Nat.lt_trichotomy k (length p)) as [Hk|[Hk|Hk]].
  - exfalso; rewrite drop_app_le in Hf, Hd by lia.
    rewrite take_app_le in Hv by lia.
    assert (ValidString (drop k p) = true) as Hv' by (rewrite <- (Valid_app (take k p)), take_drop; assumption).
    assert (drop k p <> []) as Hnil by (intros E; apply (f_equal length) in E; rewrite length_drop in E; cbn in E; lia).
    rewrite Valid_step in Hv' by exact Hnil; apply andb_prop in Hv' as [He _]; apply negb_true_iff in He.
    destruct (not_full_error _ Hf) as [Hbad _]; [destruct (drop k p); [congruence|discriminate]|].
    rewrite DecodeRune_app in Hbad by (apply good_full; assumption); congruence.
  - rewrite Hk, drop_app_length; reflexivity.
  - exfalso; rewrite take_app_ge in Hv by lia; rewrite Valid_app in Hv by exact Hp.
    assert (take (k - length p) x <> []) as Hnil.
    { intros E; apply (f_equal length) in E; rewrite length_take in E; cbn in E; rewrite length_app in *.
      assert (drop k (p ++ x) = []) as Ed by (apply drop_ge; rewrite length_app; lia); congruence. }
    rewrite Valid_step in Hv by exact Hnil; apply andb_prop in Hv as [He _]; apply negb_true_iff in He.
    destruct (not_full_error _ Hx Hne) as [Hbad _]; rewrite <- (take_drop (k - length p) x), DecodeRune_app in Hbad by (apply good_full; assumption); congruence.
Qed.

Lemma incomplete_from_sound ns w t : incomplete_from ns w = Some t -> Forall (fun n => 1 <= n)%nat ns ->
  exists n, (1 <= n <= length w)%nat /\ ValidString (take (length w - n) w) = true /\ t = drop (length w - n) w /\ FullRune t = false /\ t <> [].
Proof.
  induction ns as [|n ns IH]; [discriminate|]; cbn [incomplete_from]; destruct (length w <? n)%nat eqn:El; [discriminate|]; apply Nat.ltb_ge in El.
  intros Ht Hns; inversion Hns as [|? ? Hn Hns']; subst.
  destruct (ValidString _ && _) eqn:E; [|apply IH; assumption]; injection Ht as <-; apply andb_prop in E as [Hv Hf]; apply negb_true_iff in Hf.
  exists n; split_and!; [lia|lia|exact Hv|reflexivity|exact Hf|].
  intros E; apply (f_equal length) in E; rewrite length_drop in E; cbn in E; lia.
Qed.

Lemma incomplete_from_complete ns p x : ValidString p = true -> FullRune x = false -> x <> [] -> length x ∈ ns ->
  StronglySorted Nat.lt ns -> Forall (fun n => 1 <= n)%nat ns -> incomplete_from ns (p ++ x) = Some x.
Proof.
  intros Hp Hx Hne Hin Hs Hpos; induction ns as [|n ns IH]; [apply elem_of_nil in Hin; contradiction|]; cbn [incomplete_from].
  inversion Hs as [|? ? Hs' Hlt]; subst; inversion Hpos as [|? ? Hn Hpos']; subst.
  assert (n <= length x)%nat as Hle.
  { apply elem_of_cons in Hin as [->|Hin]; [lia|]; rewrite List.Forall_forall in Hlt; specialize (Hlt _ (proj1 (list_elem_of_In _ _) Hin)); lia. }
  rewrite (proj2 (Nat.ltb_ge _ _)) by (rewrite length_app; lia).
  destruct (ValidString _ && _) eqn:E.
  - apply andb_prop in E as [Hv Hf]; apply negb_true_iff in Hf; f_equal.
    apply (incomplete_unique p x _ n); try assumption; [rewrite length_app; lia|reflexivity|].
    intros E; apply (f_equal length) in E; rewrite length_drop, length_app in E; cbn in E; lia.
  - apply elem_of_cons in Hin as [<-|Hin]; [|apply IH; assumption].
    rewrite length_app in E; replace (length p + length x - length x)%nat with (length p) in E by lia.
    rewrite take_app_length, drop_app_length, Hp, Hx in E; discriminate.
Qed.

Lemma incomplete_end_sound w t : incomplete_end w = Some t -> exists p, w = p ++ t /\ ValidString p = true /\ FullRune t = false /\ t <> [].
Proof.
  intros H; apply incomplete_from_sound in H as (n & Hn & Hv & -> & Hf & Hne); [|repeat constructor].
  exists (take (length w - n) w); rewrite take_drop; auto.
Qed.

Lemma incomplete_end_complete p x : ValidString p = true -> FullRune x = false -> x <> [] -> incomplete_end (p ++ x) = Some x.
Proof.
  intros Hp Hx Hne; apply incomplete_from_complete; try assumption; [|repeat constructor; lia|repeat constructor].
  destruct (not_full_error x Hx Hne) as [_ Hl]; rewrite !elem_of_cons; lia.
Qed.

Lemma FullRune_app s t : FullRune s = true -> FullRune (s ++ t) = true.
Proof.
  destruct s as [|c0 s]; [discriminate|]; cbn [FullRune app]; destruct (in_range 194 223 c0); [destruct s; [discriminate|reflexivity]|].
  destruct (in_range 224 239 c0); [destruct s as [|c1 [|c2 s]]; [discriminate|destruct t; auto|reflexivity]|].
  destruct (in_range 240 244 c0); [|reflexivity].
  destruct s as [|c1 [|c2 [|c3 s]]]; [discriminate| | |reflexivity]; intros H; destruct t as [|c2' [|c3' t]]; cbn [app]; auto; rewrite H; reflexivity.
Qed.

(** The end of a text after a valid beginning: empty, or an error or a cut-off rune. *)
Definition bad_end (x : text) : Prop := x = [] \/ (x <> [] /\ is_error (DecodeRune x) = true).

Lemma state_split p x : ValidString p = true -> bad_end x -> state_of (p ++ x) = end_state x.
Proof.
  intros Hp Hx; unfold state_of, advanceUTF8State; cbn [broken tail clean app]; rewrite Valid_app by exact Hp.
  destruct Hx as [->|[Hne He]]; [rewrite app_nil_r; reflexivity|]; rewrite not_valid_error by assumption.
  destruct (FullRune x) eqn:Hf.
  - destruct (incomplete_end (p ++ x)) as [t|] eqn:Ei; [|destruct x; [congruence|]; unfold end_state; rewrite Hf; reflexivity].
    exfalso; apply incomplete_end_sound in Ei as (q & Hq & Hvq & Hft & Hnt).
    assert (Hlen : (length q <= length p)%nat \/ (length p < length q)%nat) by lia; destruct Hlen as [Hlen|Hlen].
    + assert (t = drop (length q) p ++ x) as -> by (rewrite <- drop_app_le, Hq, drop_app_length by exact Hlen; reflexivity).
      assert (ValidString (drop (length q) p) = true) as Hvp.
      { rewrite <- (Valid_app (take (length q) p)), take_drop; [exact Hp|].
        rewrite <- (take_app_le p x), Hq, take_app_length by exact Hlen; exact Hvq. }
      destruct (drop (length q) p) as [|c d] eqn:Ed; [cbn in Hft; congruence|].
      rewrite Valid_step in Hvp by discriminate; apply andb_prop in Hvp as [Hg _]; apply negb_true_iff in Hg.
      rewrite FullRune_app in Hft by (apply good_full; [discriminate|exact Hg]); discriminate.
    + assert (q = p ++ take (length q - length p) x) as Eq.
      { rewrite <- (take_app_length q t) at 1; rewrite <- Hq, take_app_ge by lia; reflexivity. }
      rewrite Eq, Valid_app in Hvq by exact Hp.
      assert (take (length q - length p) x <> []) as Hn.
      { intros E; rewrite E, app_nil_r in Eq; subst q; lia. }
      rewrite Valid_step in Hvq by exact Hn; apply andb_prop in Hvq as [Hg _]; apply negb_true_iff in Hg.
      rewrite <- (take_drop (length q - length p) x), DecodeRune_app in He by (apply good_full; assumption); congruence.
  - rewrite incomplete_end_complete by assumption; destruct x; [congruence|]; unfold end_state; rewrite Hf; reflexivity.
Qed.

Lemma state_valid_app p w : ValidString p = true -> state_of (p ++ w) = state_of w.
Proof.
  intros Hp; destruct (Valid_split w) as (q & x & -> & Hq & Hx).
  rewrite app_assoc, state_split, state_split; auto; rewrite Valid_app; assumption.
Qed.

Lemma advance_state a b : advanceUTF8State (state_of a) b = state_of (a ++ b).
Proof.
  destruct (Valid_split a) as (p & x & -> & Hp & Hx); rewrite <- app_assoc, (state_valid_app p (x ++ b)), (state_split p x) by assumption.
  destruct Hx as [->|[Hne He]]; [reflexivity|]; destruct x as [|c x]; [congruence|]; unfold end_state; destruct (FullRune (c :: x)) eqn:Hf.
  - change ((c :: x) ++ b) with ([] ++ ((c :: x) ++ b)); rewrite state_split; [|reflexivity|].
    + unfold end_state; cbn [app]; change (c :: x ++ b) with ((c :: x) ++ b); rewrite FullRune_app by exact Hf; reflexivity.
    + right; split; [discriminate|]; rewrite DecodeRune_app; assumption.
  - reflexivity.
Qed.

(** Folding the chunks of a buffer one by one, each time looking only at up to three
    old bytes, gives the state of the whole buffer; it is clean exactly when the
    whole buffer is valid UTF-8, not broken exactly when the check of the whole buffer
    accepts it, and once broken no continuation makes it valid. *)
Theorem utf8_state_incremental (chunks : list text) :
  let st := fold_left advanceUTF8State chunks clean in
  st = state_of (concat chunks) /\
  (broken st = false /\ tail st = [] <-> ValidString (concat chunks) = true) /\
  (broken st = false <-> validOrIncompleteUTF8 (concat chunks) = true) /\
  (broken st = true -> forall more, ValidString (concat chunks ++ more) = false).
Proof.
  assert (forall a, fold_left advanceUTF8State chunks (state_of a) = state_of (a ++ concat chunks)) as Hf.
  { induction chunks as [|c chunks IH]; intros a; [cbn; rewrite app_nil_r; reflexivity|].
    cbn [fold_left concat]; rewrite advance_state, IH, <- app_assoc; reflexivity. }
  specialize (Hf []); cbn [app] in Hf; change (state_of []) with clean in Hf; cbv zeta; rewrite Hf; split; [reflexivity|].
  set (data := concat chunks); unfold validOrIncompleteUTF8.
  destruct (Valid_split data) as (p & x & Hd & Hp & Hx).
  assert (ValidString data = bool_decide (x = [])) as Hv.
  { rewrite Hd, Valid_app by exact Hp; destruct Hx as [->|[Hne He]]; [reflexivity|]; rewrite bool_decide_eq_false_2 by exact Hne.
    apply not_valid_error; assumption. }
  rewrite Hv; pose proof (state_split p x Hp Hx) as Hs; rewrite <- Hd in Hs; rewrite Hs.
  unfold state_of, advanceUTF8State in Hs; cbn [broken tail clean app] in Hs; rewrite Hv in Hs.
  destruct x as [|c x]; [cbn; split_and!; [split; auto|split; auto|discriminate]|].
  rewrite bool_decide_eq_false_2 in Hs |- * by discriminate; unfold end_state in Hs |- *; cbn [orb].
  destruct (FullRune (c :: x)) eqn:Hful; cbn [broken tail].
  - split_and!; [split; [intros [? _]|]; discriminate|destruct (incomplete_end data); [discriminate|split; discriminate]|].
    intros _ more; rewrite Hd, <- app_assoc, Valid_app by exact Hp; apply not_valid_error; [discriminate|].
    rewrite DecodeRune_app by exact Hful; destruct Hx as [?|[_ He]]; [discriminate|exact He].
  - split_and!; [split; [intros [_ ?]|]; discriminate|destruct (incomplete_end data); [tauto|discriminate Hs]|discriminate].
Qed.

Lemma valid_or_incomplete s : validOrIncompleteUTF8 s = negb (broken (state_of s)).
Proof.
  destruct (utf8_state_incremental [s]) as (H1 & _ & H & _); cbn [concat] in *; rewrite app_nil_r in *; rewrite H1 in H.
  destruct (broken (state_of s)), (validOrIncompleteUTF8 s); try reflexivity; destruct H as [Ha Hb]; discriminate (Ha eq_refl) || discriminate (Hb eq_refl).
Qed.

Lemma clean_valid s : broken (state_of s) = false -> tail (state_of s) = [] -> ValidString s = true.
Proof. destruct (utf8_state_incremental [s]) as (H1 & H & _); cbn [concat] in *; rewrite app_nil_r in *; rewrite H1 in H; intros ? ?; apply H; auto. Qed.

Lemma broken_app a b : broken (state_of (a ++ b)) = false -> broken (state_of a) = false.
Proof. rewrite <- advance_state; unfold advanceUTF8State; destruct (broken (state_of a)) eqn:E; congruence. Qed.

Lemma Valid_concat l : Forall (fun s => ValidString s = true) l -> ValidString (concat l) = true.
Proof. induction 1 as [|s l Hs _ IH]; [reflexivity|]; cbn [concat]; rewrite Valid_app; assumption. Qed.

