(* ===== verification/Turns.v ===== *)
(** * Reconstructed turns: internal/telemetry/analysis.go

    The reader of recorded telemetry joins the output and input events of a session
    into turns, in chunks of bounded size, and counts what is missing or repeated.
    Texts are lists of byte values; [int] is 64 bits wide.

    The loop of [appendEvent] runs on fuel; [append_total] shows that it ends for
    every text that is valid UTF-8, which texts decoded from JSON are. *)

From S2P Require Import Prelude GoStd Utf8 Control Framing Capture.

Definition MaxTurnTextBytes : nat := Z.to_nat (64 * 1024).

#[global] Opaque MaxTurnTextBytes.

Inductive Direction := DirectionAgent | DirectionHuman | OtherDirection (d : string).
Inductive StreamType := StreamOutput | StreamThinking | StreamInput | OtherStream (s : string).

#[global] Instance Direction_eq_dec : EqDecision Direction.
Proof. solve_decision. Defined.
#[global] Instance StreamType_eq_dec : EqDecision StreamType.
Proof. solve_decision. Defined.

(** An event with the fields that [Event] keeps together in its body. *)
Record TextEvent := MkTextEvent {
  te_event : Event; te_Direction : Direction; te_Stream : StreamType; te_Text : list Z; te_ByteCount : Z; te_Redactions : Z }.

Definition te_key (x : TextEvent) : sessionIdentity := eventKey (te_event x).

Record Turn := MkTurn {
  tn_SourceID : string; tn_SessionID : string; tn_ActorID : string; tn_Direction : Direction; tn_Stream : StreamType;
  tn_SequenceStart : Z; tn_SequenceEnd : Z; tn_StartedAt : Time; tn_EndedAt : Time;
  tn_Text : list Z; tn_ByteCount : Z; tn_Redactions : Z; tn_ChunkIndex : Z; tn_Continues : bool }.

Record DataQuality := MkQuality {
  q_Events : Z; q_Duplicates : Z; q_OutOfOrder : Z; q_MissingSequences : Z; q_LegacyEvents : Z; q_OmittedEvents : Z; q_Redactions : Z }.

Record InteractionAnalyzer := MkAnalyzer {
  lastSequence : gmap sessionIdentity Z; an_pending : gmap sessionIdentity Turn;
  starts : gmap sessionIdentity (Z * Time); quality : DataQuality }.

Definition NewInteractionAnalyzer : InteractionAnalyzer := MkAnalyzer ∅ ∅ ∅ (MkQuality 0 0 0 0 0 0 0).

Definition startTurn (x : TextEvent) (chunk : Z) : Turn :=
  let e := te_event x in
  MkTurn (ev_SourceID e) (ev_SessionID e) (ev_ActorID e) (te_Direction x) (te_Stream x) (ev_Sequence e) (ev_Sequence e)
    (ev_Timestamp e) (ev_Timestamp e) [] 0 0 chunk false.

(** The inner loop of [appendEvent]: back to the start of a rune. *)
Fixpoint cut_back (n : nat) (s : list Z) : nat :=
  match n with
  | O => O
  | Datatypes.S m => match s !! n with
                     | Some c => if Framing.RuneStart c then n else cut_back m s
                     | None => n
                     end
  end.

Definition seal (t : Turn) : Turn :=
  MkTurn (tn_SourceID t) (tn_SessionID t) (tn_ActorID t) (tn_Direction t) (tn_Stream t) (tn_SequenceStart t) (tn_SequenceEnd t)
    (tn_StartedAt t) (tn_EndedAt t) (tn_Text t) (tn_ByteCount t) (tn_Redactions t) (tn_ChunkIndex t) true.

(** The share of the byte count that belongs to the first [consumed] bytes. *)
Definition share (x : TextEvent) (consumed : nat) : Z :=
  if (consumed <? length (te_Text x))%nat
  then Z.quot (i64 (te_ByteCount x * Z.of_nat consumed)) (Z.of_nat (length (te_Text x)))
  else te_ByteCount x.

Definition extend (t : Turn) (x : TextEvent) (piece : list Z) (bytes redactions : Z) : Turn :=
  MkTurn (tn_SourceID t) (tn_SessionID t) (tn_ActorID t) (tn_Direction t) (tn_Stream t) (tn_SequenceStart t) (ev_Sequence (te_event x))
    (tn_StartedAt t) (ev_Timestamp (te_event x)) (tn_Text t ++ piece) (i64 (tn_ByteCount t + i64 bytes)) (i64 (tn_Redactions t + redactions))
    (tn_ChunkIndex t) (tn_Continues t).

(** [appendEvent] on the pending turn of the session: the chunks that were sealed, and
    the turn then pending; [None]: the loop did not end. *)
Fixpoint append_loop (fuel : nat) (t : Turn) (x : TextEvent) (remaining : list Z) (consumed : nat) (allocated : Z) : option (list Turn * Turn) :=
  match fuel with
  | O => None
  | Datatypes.S fuel =>
      let n := cut_back (Nat.min (length remaining) (MaxTurnTextBytes - length (tn_Text t))) remaining in
      if (n =? 0)%nat && negb (length remaining =? 0)%nat then
        match append_loop fuel (startTurn x (i64 (tn_ChunkIndex t + 1))) x remaining consumed allocated with
        | Some (ts, t') => Some (seal t :: ts, t')
        | None => None
        end
      else
        let consumed := (consumed + n)%nat in
        let bytes := share x consumed in
        let rest := drop n remaining in
        let t := extend t x (take n remaining) (bytes - allocated) (if (length rest =? 0)%nat then te_Redactions x else 0) in
        if (length rest =? 0)%nat then Some ([], t) else append_loop fuel t x rest consumed bytes
  end.

Definition appendEvent (t : Turn) (x : TextEvent) : option (list Turn * Turn) :=
  append_loop (2 * length (te_Text x) + 2) t x (te_Text x) 0 0.

(** ** Observe *)

Definition flush (key : sessionIdentity) (a : InteractionAnalyzer) : InteractionAnalyzer * list Turn :=
  match an_pending a !! key with
  | Some t => (MkAnalyzer (lastSequence a) (delete key (an_pending a)) (starts a) (quality a), [t])
  | None => (a, [])
  end.

Definition put_quality (q : DataQuality) (a : InteractionAnalyzer) : InteractionAnalyzer :=
  MkAnalyzer (lastSequence a) (an_pending a) (starts a) q.

(** What is counted of every event. *)
Definition count_event (x : TextEvent) (q : DataQuality) : DataQuality :=
  MkQuality (i64 (q_Events q + 1)) (q_Duplicates q) (q_OutOfOrder q) (q_MissingSequences q)
    (if ev_SchemaVersion (te_event x) =? 1 then i64 (q_LegacyEvents q + 1) else q_LegacyEvents q)
    (if str_eqb (ev_OmittedReason (te_event x)) "" then q_OmittedEvents q else i64 (q_OmittedEvents q + 1))
    (i64 (q_Redactions q + te_Redactions x)).

Definition count_duplicate (q : DataQuality) : DataQuality :=
  MkQuality (q_Events q) (i64 (q_Duplicates q + 1)) (q_OutOfOrder q) (q_MissingSequences q) (q_LegacyEvents q) (q_OmittedEvents q) (q_Redactions q).
Definition count_late (q : DataQuality) : DataQuality :=
  MkQuality (q_Events q) (q_Duplicates q) (i64 (q_OutOfOrder q + 1)) (q_MissingSequences q) (q_LegacyEvents q) (q_OmittedEvents q) (q_Redactions q).
Definition count_missing (n : Z) (q : DataQuality) : DataQuality :=
  MkQuality (q_Events q) (q_Duplicates q) (q_OutOfOrder q) (i64 (q_MissingSequences q + n)) (q_LegacyEvents q) (q_OmittedEvents q) (q_Redactions q).

Inductive verdict := VDuplicate | VLate | VTaken (a : InteractionAnalyzer) (completed : list Turn).

(** The part about a start of the session. *)
Definition observe_start (a : InteractionAnalyzer) (e : Event) : verdict :=
  let key := eventKey e in
  if decide (ev_Kind e = EventSessionStarted) then
    let restart :=
      let '(a, completed) := flush key a in
      VTaken (MkAnalyzer (delete key (lastSequence a)) (an_pending a) (<[key := (ev_Sequence e, ev_Timestamp e)]> (starts a)) (quality a)) completed in
    match starts a !! key with
    | Some (sequence, timestamp) =>
        if (sequence =? ev_Sequence e) && (timestamp =? ev_Timestamp e) then VDuplicate
        else if negb (ev_Timestamp e =? 0) && (ev_Timestamp e <? timestamp) then VLate
        else restart
    | None => restart
    end
  else VTaken a [].

(** The part about the sequence number. *)
Definition observe_sequence (a : InteractionAnalyzer) (completed : list Turn) (e : Event) : verdict :=
  let key := eventKey e in
  let last := default 0 (lastSequence a !! key) in
  let seq := ev_Sequence e in
  if (0 <? seq) && (0 <? last) then
    if seq =? last then VDuplicate
    else if seq <? last then VLate
    else if u64 (last + 1) <? seq then
      let '(a, ts) := flush key (put_quality (count_missing (i64 (u64 (seq - last - 1))) (quality a)) a) in VTaken a (completed ++ ts)
    else VTaken a completed
  else VTaken a completed.

Definition set_sequence (e : Event) (a : InteractionAnalyzer) : InteractionAnalyzer :=
  if 0 <? ev_Sequence e
  then MkAnalyzer (<[eventKey e := ev_Sequence e]> (lastSequence a)) (an_pending a) (starts a) (quality a) else a.

(** The part about the text. *)
Definition observe_text (a : InteractionAnalyzer) (completed : list Turn) (x : TextEvent) : option (InteractionAnalyzer * list Turn) :=
  let e := te_event x in
  let key := eventKey e in
  if decide (ev_Kind e = EventSessionEnded) then let '(a, ts) := flush key a in Some (a, completed ++ ts)
  else if negb (bool_decide (ev_Kind e = EventProviderOutput)) && negb (bool_decide (ev_Kind e = EventUserInput)) then Some (a, completed)
  else
    let other := match an_pending a !! key with
                 | Some t => negb (bool_decide (tn_Direction t = te_Direction x)) || negb (bool_decide (tn_Stream t = te_Stream x))
                 | None => false
                 end in
    let '(a, ts) := if other then flush key a else (a, []) in
    let t := match an_pending a !! key with Some t => t | None => startTurn x 0 end in
    match appendEvent t x with
    | Some (ts', t) => Some (MkAnalyzer (lastSequence a) (<[key := t]> (an_pending a)) (starts a) (quality a), completed ++ ts ++ ts')
    | None => None
    end.

Definition Observe (a : InteractionAnalyzer) (x : TextEvent) : option (InteractionAnalyzer * list Turn) :=
  let a := put_quality (count_event x (quality a)) a in
  match observe_start a (te_event x) with
  | VTaken a1 completed =>
      match observe_sequence a1 completed (te_event x) with
      | VTaken a2 completed => observe_text (set_sequence (te_event x) a2) completed x
      | VDuplicate => Some (put_quality (count_duplicate (quality a1)) a1, [])
      | VLate => Some (put_quality (count_late (quality a1)) a1, [])
      end
  | VDuplicate => Some (put_quality (count_duplicate (quality a)) a, [])
  | VLate => Some (put_quality (count_late (quality a)) a, [])
  end.

(** ** Finish *)

(** [Finish] takes the turns that are still pending, in the order of their keys. *)
Definition key_before (a b : sessionIdentity) : bool :=
  if str_eqb a.1 b.1 then String.ltb a.2 b.2 else String.ltb a.1 b.1.

Fixpoint insert_turn (kt : sessionIdentity * Turn) (l : list (sessionIdentity * Turn)) : list (sessionIdentity * Turn) :=
  match l with
  | [] => [kt]
  | kt' :: l' => if key_before kt.1 kt'.1 then kt :: l else kt' :: insert_turn kt l'
  end.

Definition Finish (a : InteractionAnalyzer) : InteractionAnalyzer * list Turn :=
  (MkAnalyzer (lastSequence a) ∅ (starts a) (quality a), map snd (foldr insert_turn [] (map_to_list (an_pending a)))).

(** ** Cutting at runes *)

Lemma RuneStart_byte c : in_range 0 255 c = true -> Framing.RuneStart c = negb (cont c).
Proof.
  intros Hc; assert (forallb (fun n => Bool.eqb (Framing.RuneStart (Z.of_nat n)) (negb (cont (Z.of_nat n)))) (seq 0 256) = true) as Hall by (vm_compute; reflexivity).
  rewrite forallb_forall in Hall; unfold in_range in Hc; specialize (Hall (Z.to_nat c) ltac:(apply in_seq; lia)).
  rewrite Z2Nat.id in Hall by lia; apply Bool.eqb_prop, Hall.
Qed.

(** Text as JSON decodes it. *)
Definition valid_text (s : list Z) : bool := forallb (in_range 0 255) s && ValidString s.

(** Among any four consecutive bytes one begins a rune. *)
Definition dense (s : list Z) : Prop :=
  forall i, (i + 4 <= length s)%nat -> exists j c, (i <= j < i + 4)%nat /\ s !! j = Some c /\ Framing.RuneStart c = true.

Lemma rune_head s : s <> [] -> is_error (DecodeRune s) = false -> forallb (in_range 0 255) s = true ->
  exists c, s !! 0%nat = Some c /\ Framing.RuneStart c = true /\ ((DecodeRune s).2 <= 4)%nat.
Proof.
  destruct s as [|c s]; [congruence|]; intros _ He Hb; cbn in Hb; apply andb_prop in Hb as [Hc _]; exists c; split; [reflexivity|].
  rewrite RuneStart_byte by exact Hc; unfold cont, in_range in *; unfold DecodeRune in *; split.
  - destruct (c <? 128) eqn:E0; [lia|]; destruct (in_range 194 223 c) eqn:E1; [unfold in_range in E1; lia|].
    destruct (in_range 224 239 c) eqn:E2; [unfold in_range in E2; lia|]; destruct (in_range 240 244 c) eqn:E3; [unfold in_range in E3; lia|discriminate].
  - repeat (case_match; cbn [snd]; try lia).
Qed.

Lemma valid_dense s : valid_text s = true -> dense s.
Proof.
  intros H; apply andb_prop in H as [Hb Hv]; revert s Hv Hb.
  apply (Valid_ind (fun s => forallb (in_range 0 255) s = true -> dense s)); [intros _ i Hi; cbn in Hi; lia|].
  intros s Hs He Hv IH Hb i Hi; destruct (rune_head s Hs He Hb) as (c & Hc & Hr & Hw); set (w := (DecodeRune s).2) in *.
  assert (forallb (in_range 0 255) (drop w s) = true) as Hb'.
  { rewrite <- (take_drop w s), forallb_app in Hb; apply andb_prop in Hb as [_ Hb]; exact Hb. }
  destruct i as [|i]; [exists 0%nat, c; auto with lia|]; destruct (Nat.le_gt_cases w (Datatypes.S i)) as [Hle|Hlt].
  - destruct (IH Hb' (Datatypes.S i - w)%nat) as (j & c' & Hj & Hl & Hr'); [rewrite length_drop; lia|].
    exists (w + j)%nat, c'; rewrite lookup_drop in Hl; split_and!; [lia|lia|exact Hl|exact Hr'].
  - assert (drop w s <> []) as Hn by (intros E; apply (f_equal length) in E; rewrite length_drop in E; cbn in E; lia).
    rewrite Valid_step in Hv by exact Hn; apply andb_prop in Hv as [He' _]; apply negb_true_iff in He'.
    destruct (rune_head _ Hn He' Hb') as (c' & Hc' & Hr' & _); exists w, c'; rewrite lookup_drop, Nat.add_0_r in Hc'; split_and!; [lia|lia|exact Hc'|exact Hr'].
Qed.

Lemma dense_drop n s : dense s -> dense (drop n s).
Proof.
  intros H i Hi; rewrite length_drop in Hi; destruct (Nat.le_gt_cases n (length s)) as [Hn|Hn]; [|lia].
  destruct (H (n + i)%nat) as (j & c & Hj & Hl & Hr); [lia|]; exists (j - n)%nat, c; rewrite lookup_drop.
  replace (n + (j - n))%nat with j by lia; split_and!; [lia|lia|exact Hl|exact Hr].
Qed.

Lemma cut_back_le n s : (cut_back n s <= n)%nat.
Proof. induction n as [|n IH]; cbn [cut_back]; [lia|]; destruct (s !! Datatypes.S n) as [c|]; [destruct (Framing.RuneStart c); lia|lia]. Qed.

Lemma cut_back_ge n s j c : (j <= n)%nat -> s !! j = Some c -> Framing.RuneStart c = true -> (j <= cut_back n s)%nat.
Proof.
  intros Hj Hl Hr; induction n as [|n IH]; [lia|]; cbn [cut_back]; destruct (decide (j = Datatypes.S n)) as [->|Hne]; [rewrite Hl, Hr; lia|].
  destruct (s !! Datatypes.S n) as [c'|]; [destruct (Framing.RuneStart c'); [lia|apply IH; lia]|lia].
Qed.

Lemma max_bytes : MaxTurnTextBytes = Z.to_nat 65536.
Proof. reflexivity. Qed.

(** An empty turn takes at least one byte. *)
Lemma fresh_progress s : dense s -> s <> [] -> (0 < cut_back (Nat.min (length s) MaxTurnTextBytes) s)%nat.
Proof.
  intros Hd Hs; pose proof max_bytes as Hm; assert (0 < length s)%nat by (destruct s; [congruence|cbn; lia]).
  destruct (Nat.le_gt_cases (length s) MaxTurnTextBytes) as [Hle|Hgt].
  - rewrite Nat.min_l by exact Hle; destruct (length s) as [|n] eqn:El; [lia|]; cbn [cut_back].
    rewrite (lookup_ge_None_2 s (Datatypes.S n)) by lia; lia.
  - rewrite Nat.min_r by lia; destruct (Hd (MaxTurnTextBytes - 3)%nat) as (j & c & Hj & Hl & Hr); [lia|].
    pose proof (cut_back_ge MaxTurnTextBytes s j c ltac:(lia) Hl Hr); lia.
Qed.

(** The loop ends: a sealed chunk is followed by one that takes text. *)
Lemma append_total fuel t x remaining consumed allocated : dense remaining ->
  (2 * length remaining + (if decide (tn_Text t = []) then 1 else 2) <= fuel)%nat ->
  exists ts t', append_loop fuel t x remaining consumed allocated = Some (ts, t').
Proof.
  revert t remaining consumed allocated; induction fuel as [|fuel IH]; intros t remaining consumed allocated Hd Hf; [destruct (decide _); lia|].
  cbn [append_loop]; set (n := cut_back _ remaining); pose proof (cut_back_le (Nat.min (length remaining) (MaxTurnTextBytes - length (tn_Text t))) remaining) as Hn; fold n in Hn.
  destruct (n =? 0)%nat eqn:En; cbn [andb].
  - apply Nat.eqb_eq in En; destruct (length remaining =? 0)%nat eqn:El; cbn [negb].
    + apply Nat.eqb_eq in El; rewrite length_drop, (proj2 (Nat.eqb_eq _ 0%nat)) by lia; eauto.
    + apply Nat.eqb_neq in El; destruct (decide (tn_Text t = [])) as [Et|Et].
      * exfalso; unfold n in En; rewrite Et in En; cbn [length] in En; rewrite Nat.sub_0_r in En.
        pose proof (fresh_progress remaining Hd ltac:(destruct remaining; [cbn in El; lia|discriminate])); lia.
      * destruct (IH (startTurn x (i64 (tn_ChunkIndex t + 1))) remaining consumed allocated Hd) as (ts & t' & ->);
          [rewrite decide_True by reflexivity; lia|eauto].
  - apply Nat.eqb_neq in En; destruct (length (drop n remaining) =? 0)%nat; [eauto|]; apply IH; [apply dense_drop, Hd|].
    rewrite length_drop; destruct (decide (tn_Text t = [])), (decide (tn_Text (extend t x _ _ _) = [])); lia.
Qed.

(** ** What turns hold *)

(** The text with its direction and stream, the byte count and the redactions. *)
Abbreviation tally := (list (Direction * StreamType * Z) * Z * Z)%type.

#[local] Arguments i64 : simpl never.

Definition plus (a b : tally) : tally := (a.1.1 ++ b.1.1, i64 (a.1.2 + b.1.2), i64 (a.2 + b.2)).
Definition nothing : tally := ([], 0, 0).

Definition tagged (d : Direction) (s : StreamType) (text : list Z) : list (Direction * StreamType * Z) := map (fun c => (d, s, c)) text.

Definition turn_tally (t : Turn) : tally := (tagged (tn_Direction t) (tn_Stream t) (tn_Text t), i64 (tn_ByteCount t), i64 (tn_Redactions t)).
Definition event_tally (x : TextEvent) : tally := (tagged (te_Direction x) (te_Stream x) (te_Text x), i64 (te_ByteCount x), i64 (te_Redactions x)).

Definition total (l : list tally) : tally := foldr plus nothing l.

Lemma i64_eq x y : (exists k, x = y + k * two64) -> i64 x = i64 y.
Proof.
  intros [k ->]; unfold i64; replace (y + k * two64 + 9223372036854775808) with (y + 9223372036854775808 + k * two64) by lia.
  rewrite Z.mod_add by (unfold two64; lia); reflexivity.
Qed.

Lemma i64_idem x : exists k, i64 x = x + k * two64.
Proof. unfold i64; exists (- ((x + 9223372036854775808) / two64)); pose proof (Z.div_mod (x + 9223372036854775808) two64 ltac:(unfold two64; lia)); lia. Qed.

(** Wrapping inside a wrapped sum makes no difference: the witnesses for [i64_eq] are
    the multiples by which the inner wraps differ. *)
Ltac wrap :=
  apply i64_eq;
  repeat match goal with
         | |- context [i64 ?x] => let k := fresh "k" in let E := fresh "E" in let v := fresh "v" in
                                  destruct (i64_idem x) as [k E]; set (v := i64 x) in *; clearbody v; subst v
         end.

Lemma i64_add x y : i64 (i64 x + i64 y) = i64 (x + y).
Proof. wrap; exists (k + k0); lia. Qed.

Lemma i64_i64 x : i64 (i64 x) = i64 x.
Proof. wrap; exists k; lia. Qed.

Lemma plus_assoc a b c : plus a (plus b c) = plus (plus a b) c.
Proof.
  unfold plus; cbn [fst snd]; f_equal; [f_equal; [apply app_assoc|]|]; wrap; exists (k - k0); lia.
Qed.

Definition normal (a : tally) : Prop := a.1.2 = i64 a.1.2 /\ a.2 = i64 a.2.

Lemma plus_nothing a : normal a -> plus nothing a = a.
Proof. destruct a as [[l x] y]; intros [E1 E2]; cbn in *; unfold plus, nothing; cbn [fst snd app]; rewrite !Z.add_0_l, <- E1, <- E2; reflexivity. Qed.

Lemma plus_nothing_r a : normal a -> plus a nothing = a.
Proof. destruct a as [[l x] y]; intros [E1 E2]; cbn in *; unfold plus, nothing; cbn [fst snd]; rewrite app_nil_r, !Z.add_0_r, <- E1, <- E2; reflexivity. Qed.

Lemma plus_normal a b : normal (plus a b).
Proof. split; cbn; symmetry; apply i64_i64. Qed.

Lemma turn_normal t : normal (turn_tally t).
Proof. split; cbn; symmetry; apply i64_i64. Qed.
Lemma event_normal x : normal (event_tally x).
Proof. split; cbn; symmetry; apply i64_i64. Qed.

Lemma total_normal l : normal (total l).
Proof. destruct l; [split; reflexivity|apply plus_normal]. Qed.

Lemma total_app a b : total (a ++ b) = plus (total a) (total b).
Proof.
  induction a as [|x a IH]; cbn [app total foldr]; [symmetry; apply plus_nothing, total_normal|].
  fold (total (a ++ b)) (total a); rewrite IH, plus_assoc; reflexivity.
Qed.

(** [appendEvent] adds the event to the pending turn, cut into chunks. *)
Lemma append_tally fuel t x remaining consumed allocated ts t' :
  append_loop fuel t x remaining consumed allocated = Some (ts, t') ->
  (consumed + length remaining = length (te_Text x))%nat -> tn_Direction t = te_Direction x -> tn_Stream t = te_Stream x ->
  plus (total (map turn_tally ts)) (turn_tally t') =
    plus (turn_tally t) (tagged (te_Direction x) (te_Stream x) remaining, i64 (te_ByteCount x - allocated), i64 (te_Redactions x)) /\
  tn_Direction t' = te_Direction x /\ tn_Stream t' = te_Stream x.
Proof.
  revert t remaining consumed allocated ts; induction fuel as [|fuel IH]; intros t remaining consumed allocated ts; [discriminate|].
  cbn [append_loop]; set (n := cut_back _ remaining); pose proof (cut_back_le (Nat.min (length remaining) (MaxTurnTextBytes - length (tn_Text t))) remaining) as Hn; fold n in Hn.
  intros Ha Hc Hdir Hstr; destruct ((n =? 0)%nat && _).
  - destruct (append_loop fuel _ x remaining consumed allocated) as [[ts1 t1]|] eqn:E; [|discriminate]; injection Ha as <- <-.
    destruct (IH _ _ _ _ _ E Hc eq_refl eq_refl) as [Ht Hk]; split; [|exact Hk]; cbn [map total foldr]; fold (total (map turn_tally ts1)).
    rewrite <- plus_assoc, Ht, plus_assoc; f_equal; change (turn_tally (seal t)) with (turn_tally t).
    change (turn_tally (startTurn x _)) with ([] : list (Direction * StreamType * Z), i64 0, i64 0); apply plus_nothing_r, turn_normal.
  - set (piece := take n remaining) in *; set (rest := drop n remaining) in *; assert (remaining = piece ++ rest) as Hr by (symmetry; apply take_drop).
    assert (length piece = n) as Hp by (unfold piece; rewrite length_take; lia).
    destruct (length rest =? 0)%nat eqn:El.
    + apply Nat.eqb_eq, length_zero_iff_nil in El; rewrite El, app_nil_r in Hr; injection Ha as <- <-; split; [|auto].
      assert (share x (consumed + n) = te_ByteCount x) as ->.
      { unfold share; rewrite (proj2 (Nat.ltb_ge _ _)); [reflexivity|]; rewrite Hr, Hp in Hc; lia. }
      rewrite plus_nothing by apply turn_normal; unfold turn_tally, plus, extend; cbn [fst snd tn_Direction tn_Stream tn_Text tn_ByteCount tn_Redactions].
      unfold tagged; rewrite map_app, Hdir, Hstr, Hr; f_equal; [f_equal; wrap|wrap].
      * exists (k - k1); lia.
      * exists (k - k0 - k1); lia.
    + apply IH in Ha; cbn [extend tn_Direction tn_Stream]; [|rewrite Hr, length_app in Hc; lia|assumption|assumption].
      destruct Ha as [Ht Hk]; split; [|exact Hk]; rewrite Ht; unfold turn_tally, plus, extend; cbn [fst snd tn_Direction tn_Stream tn_Text tn_ByteCount tn_Redactions].
      unfold tagged; rewrite !map_app, Hdir, Hstr, <- app_assoc, <- map_app, <- Hr; f_equal; [f_equal; wrap|wrap].
      * exists (k1 + k0 + k + k2 - k3 - k4); lia.
      * exists (k0 + k - k2); lia.
Qed.

(** Turns stay within the limit, and belong to the session of the event. *)
Definition turn_key (t : Turn) : sessionIdentity := (tn_SourceID t, tn_SessionID t).
Definition turn_ok (key : sessionIdentity) (t : Turn) : Prop := turn_key t = key /\ (length (tn_Text t) <= MaxTurnTextBytes)%nat.

Lemma append_turn_ok fuel t x remaining consumed allocated ts t' :
  append_loop fuel t x remaining consumed allocated = Some (ts, t') -> turn_ok (te_key x) t ->
  Forall (turn_ok (te_key x)) ts /\ turn_ok (te_key x) t'.
Proof.
  revert t remaining consumed allocated ts; induction fuel as [|fuel IH]; intros t remaining consumed allocated ts; [discriminate|].
  cbn [append_loop]; set (n := cut_back _ remaining); pose proof (cut_back_le (Nat.min (length remaining) (MaxTurnTextBytes - length (tn_Text t))) remaining) as Hn; fold n in Hn.
  intros Ha [Hk Hl]; destruct ((n =? 0)%nat && _).
  - destruct (append_loop fuel _ x remaining consumed allocated) as [[ts1 t1]|] eqn:E; [|discriminate]; injection Ha as <- <-.
    apply IH in E as [H1 H2]; [|split; [reflexivity|cbn; lia]]; split; [constructor; [split; assumption|assumption]|assumption].
  - assert (turn_ok (te_key x) (extend t x (take n remaining) (share x (consumed + n) - allocated)
      (if (length (drop n remaining) =? 0)%nat then te_Redactions x else 0))) as Hok.
    { split; [exact Hk|]; cbn [extend tn_Text]; rewrite length_app, length_take; lia. }
    destruct (length (drop n remaining) =? 0)%nat; [injection Ha as <- <-; split; [constructor|exact Hok]|eapply IH; eassumption].
Qed.

(** ** What the analyzer does with a sequence of events *)

Definition taken (a : InteractionAnalyzer) (x : TextEvent) : bool :=
  match observe_start (put_quality (count_event x (quality a)) a) (te_event x) with
  | VTaken a completed => match observe_sequence a completed (te_event x) with VTaken _ _ => true | _ => false end
  | _ => false
  end.

(** Events with text; the others only mark the session. *)
Definition has_text (x : TextEvent) : bool := bool_decide (ev_Kind (te_event x) = EventProviderOutput) || bool_decide (ev_Kind (te_event x) = EventUserInput).

(** All completed turns, and the events that were taken. *)
Fixpoint observe_all (a : InteractionAnalyzer) (xs : list TextEvent) : option (InteractionAnalyzer * list Turn * list TextEvent) :=
  match xs with
  | [] => Some (a, [], [])
  | x :: xs =>
      let t := taken a x in
      match Observe a x with
      | None => None
      | Some (a, ts) =>
          match observe_all a xs with
          | None => None
          | Some (a, ts', xs') => Some (a, ts ++ ts', if t then x :: xs' else xs')
          end
      end
  end.

Definition of_key (key : sessionIdentity) (ts : list Turn) : list Turn := List.filter (fun t => bool_decide (turn_key t = key)) ts.
Definition events_of (key : sessionIdentity) (xs : list TextEvent) : list TextEvent :=
  List.filter (fun x => bool_decide (te_key x = key) && has_text x) xs.

Definition pending_of (key : sessionIdentity) (a : InteractionAnalyzer) : list Turn := match an_pending a !! key with Some t => [t] | None => [] end.

Definition pending_ok (a : InteractionAnalyzer) : Prop := forall key t, an_pending a !! key = Some t -> turn_ok key t.

(** [a] gives [a'] and [ts]: nothing of any session is lost or added. *)
Definition moved (a : InteractionAnalyzer) (ts : list Turn) (a' : InteractionAnalyzer) : Prop :=
  forall key, of_key key ts ++ pending_of key a' = pending_of key a.

Lemma of_key_ok key t : turn_key t = key -> of_key key [t] = [t].
Proof. intros H; unfold of_key; cbn; rewrite bool_decide_eq_true_2 by exact H; reflexivity. Qed.
Lemma of_key_other key t : turn_key t <> key -> of_key key [t] = [].
Proof. intros H; unfold of_key; cbn; rewrite bool_decide_eq_false_2 by exact H; reflexivity. Qed.
Lemma of_turn_key_app key a b : of_key key (a ++ b) = of_key key a ++ of_key key b.
Proof. apply List.filter_app. Qed.

Lemma flush_moved key a a' ts : pending_ok a -> flush key a = (a', ts) ->
  moved a ts a' /\ pending_ok a' /\ Forall (fun t => turn_ok (turn_key t) t) ts /\ an_pending a' !! key = None /\ quality a' = quality a.
Proof.
  intros Hp; unfold flush; destruct (an_pending a !! key) as [t|] eqn:E; intros [= <- <-].
  - destruct (Hp _ _ E) as [Hk Hl]; split_and!.
    + intros k; unfold pending_of; cbn [an_pending]; destruct (decide (key = k)) as [<-|Hne].
      * rewrite lookup_delete_eq, E, of_key_ok by exact Hk; reflexivity.
      * rewrite lookup_delete_ne, of_key_other by congruence; reflexivity.
    + intros k t'; cbn; intros Ht; apply lookup_delete_Some in Ht as [_ Ht]; apply Hp, Ht.
    + repeat constructor; assumption.
    + apply lookup_delete_eq.
    + reflexivity.
  - split_and!; [intros k; reflexivity|exact Hp|constructor|exact E|reflexivity].
Qed.

Lemma moved_refl a a' : an_pending a' = an_pending a -> moved a [] a'.
Proof. intros H k; unfold pending_of; rewrite H; reflexivity. Qed.

Lemma moved_trans a ts a1 ts' a2 : moved a ts a1 -> moved a1 ts' a2 -> moved a (ts ++ ts') a2.
Proof. intros H1 H2 k; rewrite of_turn_key_app, <- app_assoc, H2; apply H1. Qed.

(** What is counted and kept when an event passes the two checks. *)
Record passed_on (a : InteractionAnalyzer) (ts : list Turn) (a' : InteractionAnalyzer) : Prop := {
  po_moved : moved a ts a';
  po_pending : pending_ok a';
  po_turns : Forall (fun t => turn_ok (turn_key t) t) ts;
  po_counts : q_Events (quality a') = q_Events (quality a) /\ q_Duplicates (quality a') = q_Duplicates (quality a) /\
              q_OutOfOrder (quality a') = q_OutOfOrder (quality a);
}.

Lemma passed_id a : pending_ok a -> passed_on a [] a.
Proof. intros Hp; split; [apply moved_refl; reflexivity|exact Hp|constructor|auto]. Qed.

Lemma start_passed a e a' ts : pending_ok a -> observe_start a e = VTaken a' ts -> passed_on a ts a'.
Proof.
  intros Hp; unfold observe_start; destruct (decide _) as [_|_]; [|intros [= <- <-]; apply passed_id, Hp].
  assert (forall a' ts, (let '(a, completed) := flush (eventKey e) a in
      VTaken (MkAnalyzer (delete (eventKey e) (lastSequence a)) (an_pending a) (<[eventKey e := (ev_Sequence e, ev_Timestamp e)]> (starts a)) (quality a)) completed)
      = VTaken a' ts -> passed_on a ts a') as Hr.
  { intros a2 ts2; destruct (flush (eventKey e) a) as [a1 ts1] eqn:Ef; apply flush_moved in Ef as (Hm & Hp' & Ht & _ & Hq); [|exact Hp].
    intros [= <- <-]; split; [exact Hm|exact Hp'|exact Ht|cbn; rewrite Hq; auto]. }
  destruct (starts a !! eventKey e) as [[sq ts0]|]; [|apply Hr].
  destruct (_ && _); [discriminate|]; destruct (_ && _); [discriminate|apply Hr].
Qed.

Lemma sequence_passed a c e a' ts : pending_ok a -> observe_sequence a c e = VTaken a' ts -> exists ts', ts = c ++ ts' /\ passed_on a ts' a'.
Proof.
  intros Hp; unfold observe_sequence.
  assert (passed_on a [] a) as Hid by apply passed_id, Hp.
  destruct (_ && _); [|intros [= <- <-]; exists []; rewrite app_nil_r; auto].
  destruct (_ =? _); [discriminate|]; destruct (_ <? default 0 _); [discriminate|].
  destruct (u64 _ <? _); [|intros [= <- <-]; exists []; rewrite app_nil_r; auto].
  set (b := put_quality _ a); destruct (flush (eventKey e) b) as [a1 ts1] eqn:Ef; apply flush_moved in Ef as (Hm & Hp' & Ht & _ & Hq); [|exact Hp].
  intros [= <- <-]; exists ts1; split; [reflexivity|]; split; [exact Hm|exact Hp'|exact Ht|rewrite Hq; auto].
Qed.

(** An event that is rejected by its sequence number did not restart its session. *)
Lemma start_kept a e a1 c : observe_start a e = VTaken a1 c -> (a1 = a /\ c = []) \/ observe_sequence a1 c e = VTaken a1 c.
Proof.
  unfold observe_start; destruct (decide _) as [_|_]; [|intros [= <- <-]; auto].
  assert (forall a1 c, (let '(a, completed) := flush (eventKey e) a in
      VTaken (MkAnalyzer (delete (eventKey e) (lastSequence a)) (an_pending a) (<[eventKey e := (ev_Sequence e, ev_Timestamp e)]> (starts a)) (quality a)) completed)
      = VTaken a1 c -> observe_sequence a1 c e = VTaken a1 c) as Hr.
  { intros a2 c2; destruct (flush (eventKey e) a); intros [= <- <-]; unfold observe_sequence; cbn [lastSequence].
    rewrite lookup_delete_eq; cbn [default]; rewrite andb_false_r; reflexivity. }
  destruct (starts a !! eventKey e) as [[sq ts0]|]; [|intros H; right; apply Hr, H].
  destruct (_ && _); [discriminate|]; destruct (_ && _); [discriminate|intros H; right; apply Hr, H].
Qed.

Definition held (key : sessionIdentity) (ts : list Turn) (a : InteractionAnalyzer) : tally := total (map turn_tally (of_key key ts ++ pending_of key a)).

Lemma held_app key ts ts' a : held key (ts ++ ts') a = plus (total (map turn_tally (of_key key ts))) (held key ts' a).
Proof. unfold held; rewrite of_turn_key_app, <- app_assoc, map_app, total_app; reflexivity. Qed.

(** What one event adds to a session. *)
Definition added (key : sessionIdentity) (x : TextEvent) : tally :=
  if bool_decide (te_key x = key) && has_text x then event_tally x else nothing.

Lemma moved_held a ts a' key : moved a ts a' -> held key ts a' = held key [] a.
Proof. intros H; unfold held; rewrite H; reflexivity. Qed.

Lemma of_key_all key ts : Forall (turn_ok key) ts -> of_key key ts = ts.
Proof. induction 1 as [|t ts [Ht _] _ IH]; [reflexivity|]; unfold of_key in *; cbn; rewrite bool_decide_eq_true_2, IH by exact Ht; reflexivity. Qed.

Lemma of_key_none key key' ts : Forall (turn_ok key) ts -> key <> key' -> of_key key' ts = [].
Proof. intros H Hne; induction H as [|t ts [Ht _] _ IH]; [reflexivity|]; unfold of_key in *; cbn; rewrite bool_decide_eq_false_2 by congruence; exact IH. Qed.

(** Text added to the pending turn of its session, whose direction and stream it has. *)
Lemma text_appended a x t : pending_ok a -> valid_text (te_Text x) = true -> turn_ok (te_key x) t ->
  tn_Direction t = te_Direction x -> tn_Stream t = te_Stream x ->
  plus (turn_tally t) nothing = held (te_key x) [] a ->
  exists ts t', appendEvent t x = Some (ts, t') /\
    (let a' := MkAnalyzer (lastSequence a) (<[te_key x := t']> (an_pending a)) (starts a) (quality a) in
     pending_ok a' /\ Forall (fun t => turn_ok (turn_key t) t) ts /\
     (forall key, te_key x <> key -> held key ts a' = held key [] a) /\
     held (te_key x) ts a' = plus (held (te_key x) [] a) (event_tally x)).
Proof.
  intros Hp Hv Hok Hd Hs Hheld; unfold appendEvent; destruct (append_total (2 * length (te_Text x) + 2) t x (te_Text x) 0 0) as (ts & t' & E);
    [apply valid_dense, Hv|destruct (decide _); lia|]; exists ts, t'; split; [exact E|].
  destruct (append_turn_ok _ _ _ _ _ _ _ _ E Hok) as [Hts Ht']; destruct (append_tally _ _ _ _ _ _ _ _ E ltac:(lia) Hd Hs) as [Htally _].
  cbv zeta; split_and!.
  - intros k t0; cbn; intros Hl; apply lookup_insert_Some in Hl as [[<- <-]|[_ Hl]]; [exact Ht'|apply Hp, Hl].
  - eapply List.Forall_impl; [|exact Hts]; intros t0 [Hk Hl]; split; [reflexivity|exact Hl].
  - intros key Hne; unfold held, pending_of; cbn [an_pending]; rewrite (of_key_none _ _ _ Hts Hne), lookup_insert_ne by exact Hne; reflexivity.
  - rewrite <- Hheld; unfold held at 1, pending_of; cbn [an_pending]; rewrite lookup_insert_eq, (of_key_all _ _ Hts), map_app, total_app; cbn [map total foldr].
    rewrite plus_nothing_r by apply turn_normal; rewrite Htally, plus_nothing_r, Z.sub_0_r by apply turn_normal; reflexivity.
Qed.

Lemma text_observed a c x : pending_ok a -> valid_text (te_Text x) = true ->
  exists a' ts, observe_text a c x = Some (a', c ++ ts) /\ pending_ok a' /\ Forall (fun t => turn_ok (turn_key t) t) ts /\ quality a' = quality a /\
    forall key, held key ts a' = plus (held key [] a) (if decide (ev_Kind (te_event x) = EventSessionEnded) then nothing else added key x).
Proof.
  intros Hp Hv; unfold observe_text, added; fold (te_key x); destruct (decide _) as [_|_].
  { destruct (flush (te_key x) a) as [a1 ts1] eqn:Ef; apply flush_moved in Ef as (Hm & Hp' & Ht & _ & Hq); [|exact Hp].
    exists a1, ts1; split_and!; auto; intros key; rewrite (moved_held _ _ _ key Hm), plus_nothing_r by apply total_normal; reflexivity. }
  assert (negb (bool_decide (ev_Kind (te_event x) = EventProviderOutput)) && negb (bool_decide (ev_Kind (te_event x) = EventUserInput)) = negb (has_text x)) as ->
    by (unfold has_text; symmetry; apply negb_orb).
  destruct (has_text x); cbn [negb].
  2:{ exists a, []; split_and!; auto; [rewrite app_nil_r; reflexivity|]; intros key; rewrite andb_false_r, plus_nothing_r by apply total_normal; reflexivity. }
  set (other := match an_pending a !! te_key x with Some t => _ | None => false end).
  destruct (if other then flush (te_key x) a else (a, [])) as [a1 ts1] eqn:Ef.
  assert (moved a ts1 a1 /\ pending_ok a1 /\ Forall (fun t => turn_ok (turn_key t) t) ts1 /\ quality a1 = quality a /\
    (forall t, an_pending a1 !! te_key x = Some t -> tn_Direction t = te_Direction x /\ tn_Stream t = te_Stream x)) as (Hm & Hp1 & Ht1 & Hq1 & Hsame).
  { destruct other eqn:Eo; unfold other in Eo.
    - apply flush_moved in Ef as (Hm & Hp' & Ht & Hn & Hq); [|exact Hp]; split_and!; auto; intros t E; congruence.
    - injection Ef as <- <-; split_and!; auto; [apply moved_refl; reflexivity|].
      intros t Et; rewrite Et in Eo; apply orb_false_elim in Eo as [E1 E2]; apply negb_false_iff, bool_decide_eq_true in E1, E2; auto. }
  set (t := match an_pending a1 !! te_key x with Some t => t | None => startTurn x 0 end).
  destruct (text_appended a1 x t Hp1 Hv) as (ts & t' & E & Hp2 & Hts & Hother & Hkey); unfold t.
  - destruct (an_pending a1 !! te_key x) as [t0|] eqn:Et; [apply Hp1, Et|split; [reflexivity|cbn; lia]].
  - destruct (an_pending a1 !! te_key x) as [t0|] eqn:Et; [eapply Hsame; reflexivity|reflexivity].
  - destruct (an_pending a1 !! te_key x) as [t0|] eqn:Et; [eapply Hsame; reflexivity|reflexivity].
  - unfold held, pending_of; destruct (an_pending a1 !! te_key x) as [t0|]; [reflexivity|].
    change (turn_tally (startTurn x 0)) with nothing; reflexivity.
  - fold t; rewrite E; eexists _, (ts1 ++ ts); split_and!; [reflexivity|exact Hp2|apply Forall_app_2; assumption|exact Hq1|].
    intros key; rewrite held_app; destruct (decide (te_key x = key)) as [<-|Hne].
    + rewrite bool_decide_eq_true_2, Hkey, plus_assoc by reflexivity; cbn [andb]; f_equal.
      rewrite <- (moved_held _ _ _ (te_key x) Hm), <- (app_nil_r ts1), held_app, app_nil_r; reflexivity.
    + rewrite bool_decide_eq_false_2, Hother by exact Hne; cbn [andb]; rewrite plus_nothing_r by apply total_normal.
      rewrite <- (moved_held _ _ _ key Hm), <- (app_nil_r ts1), held_app, app_nil_r; reflexivity.
Qed.

Definition counts (q : DataQuality) : Z * Z * Z := (q_Events q, q_Duplicates q, q_OutOfOrder q).

Lemma not_text_ended x : ev_Kind (te_event x) = EventSessionEnded -> has_text x = false.
Proof. intros E; unfold has_text; rewrite E; reflexivity. Qed.

Lemma observed a x : pending_ok a -> valid_text (te_Text x) = true ->
  exists a' ts, Observe a x = Some (a', ts) /\ pending_ok a' /\ Forall (fun t => turn_ok (turn_key t) t) ts /\
    (forall key, held key ts a' = plus (held key [] a) (if taken a x then added key x else nothing)) /\
    q_Events (quality a') = i64 (q_Events (quality a) + 1) /\
    i64 (q_Duplicates (quality a') + q_OutOfOrder (quality a')) =
      i64 (q_Duplicates (quality a) + q_OutOfOrder (quality a) + (if taken a x then 0 else 1)).
Proof.
  intros Hp Hv; unfold Observe; set (b := put_quality (count_event x (quality a)) a).
  assert (pending_ok b) as Hpb by exact Hp.
  unfold taken; fold b.
  assert (forall key, plus (held key [] a) nothing = held key [] a) as Hz by (intros key; apply plus_nothing_r, total_normal).
  destruct (observe_start b (te_event x)) as [| |a1 c] eqn:Es.
  - eexists _, []; split_and!; [reflexivity|exact Hp|constructor|intros key; rewrite Hz; reflexivity|reflexivity|]; cbn; wrap; exists k; lia.
  - eexists _, []; split_and!; [reflexivity|exact Hp|constructor|intros key; rewrite Hz; reflexivity|reflexivity|]; cbn; wrap; exists k; lia.
  - pose proof (start_kept _ _ _ _ Es) as Hkept; apply start_passed in Es as [Hm1 Hp1 Ht1 (Q1 & Q2 & Q3)]; [|exact Hpb].
    destruct (observe_sequence a1 c (te_event x)) as [| |a2 c2] eqn:Eq.
    + destruct Hkept as [[-> ->]|?]; [|discriminate].
      eexists _, []; split_and!; [reflexivity|exact Hp|constructor|intros key; rewrite Hz; reflexivity|reflexivity|]; cbn; wrap; exists k; lia.
    + destruct Hkept as [[-> ->]|?]; [|discriminate].
      eexists _, []; split_and!; [reflexivity|exact Hp|constructor|intros key; rewrite Hz; reflexivity|reflexivity|]; cbn; wrap; exists k; lia.
    + apply sequence_passed in Eq as (c1 & -> & [Hm2 Hp2 Ht2 (Q4 & Q5 & Q6)]); [|exact Hp1].
      set (d := set_sequence (te_event x) a2).
      assert (an_pending d = an_pending a2 /\ quality d = quality a2) as [Ed Qd] by (unfold d, set_sequence; destruct (0 <? _); auto).
      destruct (text_observed d (c ++ c1) x) as (a' & ts & -> & Hp' & Hts & Hq & Hh); [unfold pending_ok; rewrite Ed; exact Hp2|exact Hv|].
      exists a', ((c ++ c1) ++ ts); split_and!; [reflexivity|exact Hp'|repeat apply Forall_app_2; assumption| | |].
      * intros key; rewrite held_app, Hh, plus_assoc; f_equal.
        -- change (held key [] a) with (held key [] b).
           rewrite <- (moved_held _ _ _ key (moved_trans _ _ _ _ _ Hm1 Hm2)), <- (app_nil_r (c ++ c1)), held_app, app_nil_r.
           f_equal; unfold held, pending_of; rewrite Ed; reflexivity.
        -- destruct (decide _) as [E|_]; [|reflexivity]; unfold added; rewrite (not_text_ended _ E), andb_false_r; reflexivity.
      * rewrite Hq, Qd, Q4, Q1; reflexivity.
      * rewrite Hq, Qd, Q5, Q6, Q2, Q3; cbn; f_equal; lia.
Qed.

(** C32. A session's turns account for its events.  For any sequence of events with texts
    as JSON decodes them, the analyzer ends every append; for every session, the
    turns it completed and the one still pending hold exactly the texts of the events
    it took, byte for byte, in order, each under its own direction and stream, and
    their byte counts and redactions add up; no chunk exceeds the limit; and every
    event is counted as taken, repeated or late (all counters in 64-bit
    arithmetic). *)
Theorem turns_account (xs : list TextEvent) (Hv : forallb (fun x => valid_text (te_Text x)) xs = true) :
  exists a ts xs', observe_all NewInteractionAnalyzer xs = Some (a, ts, xs') /\ sublist xs' xs /\
    (forall key, total (map turn_tally (of_key key ts ++ pending_of key a)) = total (map event_tally (events_of key xs'))) /\
    (forall t, t ∈ ts \/ (exists key, an_pending a !! key = Some t) -> (length (tn_Text t) <= MaxTurnTextBytes)%nat) /\
    i64 (q_Events (quality a)) = i64 (zlen xs) /\
    i64 (q_Duplicates (quality a) + q_OutOfOrder (quality a) + zlen xs') = i64 (zlen xs).
Proof.
  assert (forall a, pending_ok a -> exists a' ts xs', observe_all a xs = Some (a', ts, xs') /\ sublist xs' xs /\ pending_ok a' /\
    Forall (fun t => turn_ok (turn_key t) t) ts /\
    (forall key, held key ts a' = plus (held key [] a) (total (map event_tally (events_of key xs')))) /\
    i64 (q_Events (quality a')) = i64 (q_Events (quality a) + zlen xs) /\
    i64 (q_Duplicates (quality a') + q_OutOfOrder (quality a') + zlen xs') =
      i64 (q_Duplicates (quality a) + q_OutOfOrder (quality a) + zlen xs)) as Hall.
  { induction xs as [|x xs IH]; intros a Hp; cbn [observe_all].
    { exists a, [], []; split_and!; auto; [intros key; symmetry; apply plus_nothing_r, total_normal|rewrite zlen_nil; f_equal; lia]. }
    cbn in Hv; apply andb_prop in Hv as [Hx Hv]; destruct (observed a x Hp Hx) as (a1 & ts1 & -> & Hp1 & Hts1 & Hh1 & Q1 & Q2).
    destruct (IH Hv a1 Hp1) as (a' & ts & xs' & -> & Hs & Hp' & Hts & Hh & Q3 & Q4); set (tk := taken a x) in *.
    exists a', (ts1 ++ ts), (if tk then x :: xs' else xs'); split_and!; [reflexivity| |exact Hp'|apply Forall_app_2; assumption| | |].
    - destruct tk; [constructor; exact Hs|constructor; exact Hs].
    - intros key; rewrite held_app, Hh, plus_assoc.
      assert (plus (total (map turn_tally (of_key key ts1))) (held key [] a1) = held key ts1 a1) as ->
        by (rewrite <- (app_nil_r ts1) at 2; rewrite held_app; reflexivity).
      rewrite Hh1, <- plus_assoc; f_equal; destruct tk; [|apply plus_nothing, total_normal].
      unfold added, events_of; cbn [List.filter]; destruct (bool_decide (te_key x = key) && has_text x); [reflexivity|apply plus_nothing, total_normal].
    - rewrite Q3, Q1, zlen_cons; wrap; exists k; lia.
    - transitivity (i64 (i64 (q_Duplicates (quality a1) + q_OutOfOrder (quality a1)) + zlen xs + (if tk then 1 else 0))).
      + transitivity (i64 (i64 (q_Duplicates (quality a') + q_OutOfOrder (quality a') + zlen xs') + (if tk then 1 else 0))).
        * destruct tk; rewrite ?zlen_cons; wrap; exists (- k); lia.
        * rewrite Q4; wrap; exists (k - k1); lia.
      + rewrite Q2, zlen_cons; destruct tk; wrap; exists k; lia. }
  destruct (Hall NewInteractionAnalyzer) as (a & ts & xs' & E & Hs & Hp & Hts & Hh & Q1 & Q2); [intros key t Ht; cbn in Ht; rewrite lookup_empty in Ht; discriminate|].
  exists a, ts, xs'; split_and!; [exact E|exact Hs| | |exact Q1|exact Q2].
  - intros key; specialize (Hh key); unfold held at 1 in Hh; rewrite Hh; apply plus_nothing, total_normal.
  - intros t [Ht|[key Ht]]; [|eapply Hp, Ht]; rewrite List.Forall_forall in Hts; eapply Hts, list_elem_of_In, Ht.
Qed.

(** ** Concrete runs *)

(** An event of session [s1] of one machine. *)
Definition sample_text (kind : EventKind) (seq : Z) (d : Direction) (s : StreamType) (text : list Z) (bytes : Z) : TextEvent :=
  MkTextEvent (MkEvent 2 (100 + seq) "m" "" "s1" "" "" kind seq "" [] None None None) d s text bytes 0.

(** Output, the same again, output of two bytes more, input, a gap, input. *)
Definition sample_events : list TextEvent :=
  [sample_text EventProviderOutput 1 DirectionAgent StreamOutput [104; 105] 2; sample_text EventProviderOutput 1 DirectionAgent StreamOutput [104; 105] 2;
   sample_text EventProviderOutput 2 DirectionAgent StreamOutput [195; 169] 9; sample_text EventUserInput 3 DirectionHuman StreamInput [121] 1;
   sample_text EventUserInput 6 DirectionHuman StreamInput [110] 1].

Lemma turns_account_witness :
  exists a ts xs', observe_all NewInteractionAnalyzer sample_events = Some (a, ts, xs') /\ length xs' = 4%nat /\
    map tn_Text ts = [[104; 105; 195; 169]; [121]] /\ map tn_ByteCount ts = [11; 1] /\ q_MissingSequences (quality a) = 2 /\
    (forall key, total (map turn_tally (of_key key ts ++ pending_of key a)) = total (map event_tally (events_of key xs'))).
Proof.
  destruct (turns_account sample_events ltac:(vm_compute; reflexivity)) as (a & ts & xs' & E & _ & Hk & _); exists a, ts, xs'.
  assert (option_map (fun r => (length r.2, map tn_Text r.1.2, map tn_ByteCount r.1.2, q_MissingSequences (quality r.1.1)))
            (observe_all NewInteractionAnalyzer sample_events) = Some (4%nat, [[104; 105; 195; 169]; [121]], [11; 1], 2)) as Hc by (vm_compute; reflexivity).
  rewrite E in Hc; cbn [option_map fst snd] in Hc; injection Hc as H1 H2 H3 H4.
  split; [exact E|]; split; [exact H1|]; split; [exact H2|]; split; [exact H3|]; split; [exact H4|exact Hk].
Defined.

(** A text that is not UTF-8 can keep the loop from ending: every chunk is sealed
    before it takes a byte. *)
Lemma continuation_bytes_stick (x : TextEvent) (t : Turn) (c : nat) (al : Z) (fuel : nat) :
  tn_Text t = [] -> append_loop fuel t x (replicate (Datatypes.S MaxTurnTextBytes) 128) c al = None.
Proof.
  revert t; induction fuel as [|fuel IH]; intros t Ht; [reflexivity|]; cbn [append_loop]; rewrite Ht, length_replicate; cbn [length].
  rewrite Nat.sub_0_r, Nat.min_r by lia; set (s := replicate (Datatypes.S MaxTurnTextBytes) 128).
  assert (forall n, (n <= MaxTurnTextBytes)%nat -> cut_back n s = 0%nat) as Hcut.
  { induction n as [|n IHn]; intros Hn; [reflexivity|]; cbn [cut_back].
    assert (s !! Datatypes.S n = Some 128) as -> by (unfold s; apply lookup_replicate_2; lia).
    apply IHn; lia. }
  rewrite Hcut by lia; cbn [Nat.eqb negb andb]; fold s; rewrite IH by reflexivity; reflexivity.
Qed.
