(* ===== verification/Json.v ===== *)
(** * JSON as encoding/json writes it, and base64

    Values with their compact text, as [json.Marshal] gives it: strings escaped with
    the HTML characters, objects in the order of their fields (the builders of maps
    list the keys sorted, as Marshal does).  A [json.RawMessage] that Marshal wrote is
    copied unchanged when it is marshalled again, so it is the value itself.

    base64.StdEncoding, with the decoder that inverts it. *)

From S2P Require Import Prelude GoStd GoText Utf8.

(** ** Values and their text *)

Inductive json := JNum (n : Z) | JBool (b : bool) | JStr (s : text) | JArr (l : list json) | JObj (fields : list (text * json)).

Definition hex4 (r : Z) : text := [92; 117] ++ hex_digits 4 r.

(** One rune of a string; [raw]: its bytes. *)
Definition escape_rune (r : Z) (w : nat) (raw : text) : text :=
  if r <? 128 then
    if (r =? 34) || (r =? 92) then [92; r]
    else if r =? 8 then [92; 98] else if r =? 12 then [92; 102] else if r =? 10 then [92; 110]
    else if r =? 13 then [92; 114] else if r =? 9 then [92; 116]
    else if (r <? 32) || (r =? 60) || (r =? 62) || (r =? 38) then hex4 r
    else raw
  else if is_error (r, w) then hex4 RuneError
  else if (r =? 8232) || (r =? 8233) then hex4 r
  else raw.

Fixpoint escape_fuel (n : nat) (s : text) : text :=
  match n, s with
  | Datatypes.S n, _ :: _ => let '(r, w) := DecodeRune s in escape_rune r w (take w s) ++ escape_fuel n (drop w s)
  | _, _ => []
  end.

Definition quote (s : text) : text := 34 :: escape_fuel (length s) s ++ [34].

Fixpoint commas (l : list text) : text :=
  match l with
  | [] => []
  | [x] => x
  | x :: l => x ++ 44 :: commas l
  end.

Definition number (n : Z) : text := if n <? 0 then 45 :: Itoa (- n) else Itoa n.

Fixpoint print (j : json) : text :=
  match j with
  | JNum n => number n
  | JBool b => chars (if b then "true" else "false")
  | JStr s => quote s
  | JArr l => 91 :: commas (map print l) ++ [93]
  | JObj fields => 123 :: commas (map (fun kv => quote (fst kv) ++ 58 :: print (snd kv)) fields) ++ [125]
  end.

Example print_example :
  print (JObj [(chars "a<", JArr [JNum (-12); JBool true]); (chars "q", JStr [34; 195; 169; 255])])
  = chars "{" ++ [34; 97] ++ chars "\u003c" ++ [34] ++ chars ":[-12,true]," ++ [34; 113; 34; 58; 34; 92; 34; 195; 169] ++ chars "\ufffd" ++ [34; 125].
Proof. vm_compute; reflexivity. Qed.

(** ** Lengths *)

Lemma commas_cons x l : commas (x :: l) = x ++ match l with [] => [] | _ => 44 :: commas l end.
Proof. destruct l; cbn [commas]; [rewrite app_nil_r; reflexivity|reflexivity]. Qed.

Definition text_sizes (l : list text) : nat := list_sum (map length l).

Lemma commas_length l : length (commas l) = (text_sizes l + (length l - 1))%nat.
Proof.
  unfold text_sizes; induction l as [|x l IH]; [reflexivity|]; rewrite commas_cons, length_app; cbn [map list_sum length fold_right].
  destruct l as [|y l]; [cbn; lia|]; cbn [length] in *; rewrite IH; cbn [map list_sum length foldr] in *; lia.
Qed.

(** A string that needs no escapes. *)
Definition plain_char (c : Z) : bool := in_range 32 126 c && negb ((c =? 34) || (c =? 92) || (c =? 60) || (c =? 62) || (c =? 38)).

Lemma plain_escape s n : (length s <= n)%nat -> forallb plain_char s = true -> escape_fuel n s = s.
Proof.
  revert n; induction s as [|c s IH]; intros [|n] Hn Hp; cbn [length] in *; [reflexivity|reflexivity|lia|]; cbn [escape_fuel DecodeRune].
  cbn in Hp; apply andb_prop in Hp as [Hc Hp]; unfold plain_char, in_range in Hc.
  replace (c <? 128) with true by lia; unfold escape_rune; replace (c <? 128) with true by lia.
  repeat match goal with |- context [c =? ?k] => replace (c =? k) with false by lia end; replace (c <? 32) with false by lia.
  cbn [orb take drop app]; rewrite drop_0, IH by (assumption || lia); reflexivity.
Qed.

Lemma plain_quote s : forallb plain_char s = true -> length (quote s) = (length s + 2)%nat.
Proof. intros H; unfold quote; cbn [length]; rewrite plain_escape, length_app by (assumption || lia); cbn; lia. Qed.

(** ** base64 *)

Definition b64_digit (n : Z) : Z :=
  if n <? 26 then 65 + n else if n <? 52 then 71 + n else if n <? 62 then n - 4 else if n =? 62 then 43 else 47.

Fixpoint b64_encode (s : text) : text :=
  match s with
  | [] => []
  | [a] => [b64_digit (a / 4); b64_digit (a mod 4 * 16); 61; 61]
  | [a; b] => [b64_digit (a / 4); b64_digit (a mod 4 * 16 + b / 16); b64_digit (b mod 16 * 4); 61]
  | a :: b :: c :: s =>
      b64_digit (a / 4) :: b64_digit (a mod 4 * 16 + b / 16) :: b64_digit (b mod 16 * 4 + c / 64) :: b64_digit (c mod 64) :: b64_encode s
  end.

Definition b64_value (c : Z) : Z :=
  if in_range 65 90 c then c - 65 else if in_range 97 122 c then c - 71 else if in_range 48 57 c then c + 4 else if c =? 43 then 62 else 63.

Fixpoint b64_decode (s : text) : text :=
  match s with
  | w :: x :: y :: z :: s =>
      let a := b64_value w * 4 + b64_value x / 16 in
      let b := b64_value x mod 16 * 16 + b64_value y / 4 in
      let c := b64_value y mod 4 * 64 + b64_value z in
      if y =? 61 then [a] else if z =? 61 then [a; b] else a :: b :: c :: b64_decode s
  | _ => []
  end.

Lemma b64_digit_ok n : 0 <= n < 64 -> b64_value (b64_digit n) = n /\ plain_char (b64_digit n) = true /\ (b64_digit n =? 61) = false.
Proof.
  intros Hn; assert (forallb (fun k => (b64_value (b64_digit (Z.of_nat k)) =? Z.of_nat k) && plain_char (b64_digit (Z.of_nat k)) && negb (b64_digit (Z.of_nat k) =? 61)) (seq 0 64) = true)
    as Hall by (vm_compute; reflexivity).
  rewrite forallb_forall in Hall; specialize (Hall (Z.to_nat n) ltac:(apply in_seq; lia)); rewrite Z2Nat.id in Hall by lia.
  apply andb_prop in Hall as [Hall H3]; apply andb_prop in Hall as [H1 H2]; apply Z.eqb_eq in H1; apply negb_true_iff in H3; auto.
Qed.

Definition is_bytes (s : text) : bool := forallb (in_range 0 255) s.

(** Induction three bytes at a time. *)
Lemma triples_ind (P : text -> Prop) : P [] -> (forall a, P [a]) -> (forall a b, P [a; b]) -> (forall a b c s, P s -> P (a :: b :: c :: s)) -> forall s, P s.
Proof. intros H0 H1 H2 H3; fix IH 1; intros [|a [|b [|c s]]]; [exact H0|exact (H1 a)|exact (H2 a b)|apply H3, IH]. Qed.

Ltac byte_bounds :=
  repeat match goal with H : is_bytes (_ :: _) = true |- _ => unfold is_bytes in H; cbn [forallb] in H end;
  repeat match goal with H : _ && _ = true |- _ => apply andb_prop in H as [? H] end; unfold in_range in *.

(** Each digit of a group stands for a number below 64. *)
Ltac small := Z.to_euclidean_division_equations; lia.
Ltac b64_digits :=
  repeat match goal with
         | |- context [b64_value (b64_digit ?n)] => rewrite (proj1 (b64_digit_ok n ltac:(small)))
         | |- context [b64_digit ?n =? 61] => rewrite (proj2 (proj2 (b64_digit_ok n ltac:(small))))
         | |- context [plain_char (b64_digit ?n)] => rewrite (proj1 (proj2 (b64_digit_ok n ltac:(small))))
         end.

Lemma b64_roundtrip s : is_bytes s = true -> b64_decode (b64_encode s) = s.
Proof.
  revert s; apply (triples_ind (fun s => is_bytes s = true -> b64_decode (b64_encode s) = s)); [reflexivity|..].
  - intros a Ha; byte_bounds; cbn [b64_encode b64_decode]; change (61 =? 61) with true; b64_digits; f_equal; small.
  - intros a b Ha; byte_bounds; cbn [b64_encode b64_decode]; change (61 =? 61) with true; b64_digits; f_equal; [small|f_equal; small].
  - intros a b c s IH Ha; byte_bounds; cbn [b64_encode b64_decode]; b64_digits; rewrite IH by assumption.
    f_equal; [small|f_equal; [small|f_equal; small]].
Qed.

Lemma b64_plain s : is_bytes s = true -> forallb plain_char (b64_encode s) = true.
Proof.
  revert s; apply (triples_ind (fun s => is_bytes s = true -> forallb plain_char (b64_encode s) = true)); [reflexivity|..].
  - intros a Ha; byte_bounds; cbn [b64_encode forallb]; b64_digits; reflexivity.
  - intros a b Ha; byte_bounds; cbn [b64_encode forallb]; b64_digits; reflexivity.
  - intros a b c s IH Ha; byte_bounds; cbn [b64_encode forallb]; b64_digits; cbn [andb]; auto.
Qed.

Lemma b64_length s : length (b64_encode s) = (4 * ((length s + 2) / 3))%nat.
Proof.
  revert s; apply triples_ind; [reflexivity..|]; intros a b c s IH; cbn [b64_encode length]; rewrite IH.
  replace (Datatypes.S (Datatypes.S (Datatypes.S (length s))) + 2)%nat with ((length s + 2) + 1 * 3)%nat by lia; rewrite Nat.div_add by lia; lia.
Qed.

(** ** Written text is made of bytes *)

Lemma is_bytes_cons c s : is_bytes (c :: s) = in_range 0 255 c && is_bytes s.
Proof. reflexivity. Qed.

#[global] Arguments is_bytes : simpl never.

Lemma is_bytes_app a b : is_bytes (a ++ b) = is_bytes a && is_bytes b.
Proof. apply forallb_app. Qed.

Lemma is_bytes_take n s : is_bytes s = true -> is_bytes (take n s) = true.
Proof. intros H; rewrite <- (take_drop n s), is_bytes_app in H; apply andb_prop in H as [H _]; exact H. Qed.
Lemma is_bytes_drop n s : is_bytes s = true -> is_bytes (drop n s) = true.
Proof. intros H; rewrite <- (take_drop n s), is_bytes_app in H; apply andb_prop in H as [_ H]; exact H. Qed.

(** A value whose strings are made of bytes. *)
Fixpoint byte_strings (j : json) : bool :=
  match j with
  | JNum _ | JBool _ => true
  | JStr s => is_bytes s
  | JArr l => forallb byte_strings l
  | JObj fields => forallb (fun kv => is_bytes (fst kv) && byte_strings (snd kv)) fields
  end.

(** Induction on values. *)
Lemma json_rect' (P : json -> Prop) : (forall n, P (JNum n)) -> (forall b, P (JBool b)) -> (forall s, P (JStr s)) ->
  (forall l, Forall P l -> P (JArr l)) -> (forall fields, Forall (fun kv => P (snd kv)) fields -> P (JObj fields)) -> forall j, P j.
Proof.
  intros Hn Hb Hs Ha Ho; fix IH 1; intros [n|b|s|l|fields]; [apply Hn|apply Hb|apply Hs|apply Ha|apply Ho].
  - induction l as [|j l IHl]; constructor; [apply IH|exact IHl].
  - induction fields as [|[k j] fields IHl]; constructor; [apply IH|exact IHl].
Qed.

Lemma digits_bytes n v acc : is_bytes acc = true -> is_bytes (digits_fuel n v acc) = true.
Proof.
  revert v acc; induction n as [|n IH]; intros v acc Ha; cbn [digits_fuel]; [exact Ha|].
  assert (is_bytes ((48 + v mod 10) :: acc) = true) as Hc.
  { rewrite is_bytes_cons, Ha, andb_true_r; unfold in_range; pose proof (Z.mod_pos_bound v 10); lia. }
  destruct (v <? 10); [exact Hc|apply IH, Hc].
Qed.

Lemma number_bytes n : is_bytes (number n) = true.
Proof. unfold number, Itoa; destruct (n <? 0); [rewrite is_bytes_cons; cbn [in_range andb Z.leb Z.compare]|]; apply (digits_bytes 20 _ []); reflexivity. Qed.

Lemma hex4_bytes r : is_bytes (hex4 r) = true.
Proof.
  unfold hex4; rewrite is_bytes_app; change (is_bytes [92; 117]) with true; cbn [andb].
  assert (forall n x, is_bytes (hex_digits n x) = true) as Hd.
  { induction n as [|n IH]; intros x; [reflexivity|]; cbn [hex_digits]; rewrite is_bytes_cons, IH, andb_true_r.
    set (d := _ mod 16); assert (0 <= d < 16) by (apply Z.mod_pos_bound; lia); unfold hex_digit; destruct (d <? 10) eqn:E; unfold in_range; lia. }
  apply Hd.
Qed.

Lemma escape_bytes n s : is_bytes s = true -> is_bytes (escape_fuel n s) = true.
Proof.
  revert s; induction n as [|n IH]; intros s Hs; [reflexivity|]; destruct s as [|c s]; [reflexivity|]; cbn [escape_fuel].
  destruct (DecodeRune (c :: s)) as [r w]; rewrite is_bytes_app, IH by (apply is_bytes_drop, Hs); rewrite andb_true_r.
  unfold escape_rune; repeat match goal with |- context [if ?b then _ else _] => let E := fresh "E" in destruct b eqn:E end;
    try apply hex4_bytes; try (apply is_bytes_take; exact Hs); try reflexivity.
  rewrite is_bytes_cons; apply orb_true_iff in E0 as [E0|E0]; apply Z.eqb_eq in E0; subst; reflexivity.
Qed.

Lemma quote_bytes s : is_bytes s = true -> is_bytes (quote s) = true.
Proof. intros H; unfold quote; rewrite is_bytes_cons, is_bytes_app, escape_bytes by exact H; reflexivity. Qed.

Lemma commas_bytes l : Forall (fun s => is_bytes s = true) l -> is_bytes (commas l) = true.
Proof.
  induction 1 as [|s l Hs _ IH]; [reflexivity|]; rewrite commas_cons, is_bytes_app, Hs; destruct l; [reflexivity|].
  cbn [andb]; rewrite is_bytes_cons; exact IH.
Qed.

Lemma print_bytes j : byte_strings j = true -> is_bytes (print j) = true.
Proof.
  revert j; apply (json_rect' (fun j => byte_strings j = true -> is_bytes (print j) = true)).
  - intros n _; apply number_bytes.
  - intros [] _; reflexivity.
  - intros s Hs; apply quote_bytes, Hs.
  - intros l Hl Hb; cbn [print]; rewrite is_bytes_cons, is_bytes_app, commas_bytes; [reflexivity|].
    cbn [byte_strings] in Hb; induction Hl as [|j l Hj _ IH]; cbn [map]; [constructor|]; cbn in Hb; apply andb_prop in Hb as [H1 H2]; constructor; auto.
  - intros l Hl Hb; cbn [print]; rewrite is_bytes_cons, is_bytes_app, commas_bytes; [reflexivity|].
    cbn [byte_strings] in Hb; induction Hl as [|[k j] l Hj _ IH]; cbn [map fst snd]; [constructor|]; cbn [forallb fst snd] in Hb.
    apply andb_prop in Hb as [H1 H2]; apply andb_prop in H1 as [Hk Hv]; constructor; [|auto].
    rewrite is_bytes_app, quote_bytes by exact Hk; rewrite is_bytes_cons; cbn [andb]; apply Hj, Hv.
Qed.
