(* ===== verification/Batches.v ===== *)
(** * Request batches: internal/telemetry/http_batches.go and [bridgeEnvelope] of
    http_forwarder.go

    A sealed segment of recorded events becomes one or more requests of bounded size;
    an event too large for a request is cut into fragments.  JSON text is that of
    Json.  Decoding a line, SHA-256 and the formatting of times are parameters. *)

From S2P Require Import Prelude GoStd GoText Utf8 Json.

Local Open Scope string_scope.

Definition bridgeMaxRequestBytes : Z := 1048576.
Definition bridgeMaxEvents : nat := 1000.
Definition bridgeFragmentBytes : nat := Z.to_nat 196608.

#[global] Opaque bridgeMaxEvents bridgeFragmentBytes.

Record SessionContext := MkContext {
  cx_ActorID : text; cx_SourceLabel : text; cx_OS : text; cx_Arch : text; cx_MachineID : text; cx_WorkingDirectoryID : text;
  cx_RepositoryID : text; cx_Branch : text; cx_CommitSHA : text }.

(** A recorded event; [we_Terminal] and [we_Completeness] are passed on as they are. *)
Record WireEvent := MkWireEvent {
  we_SchemaVersion : Z; we_Timestamp : Time; we_ActorID : text; we_SessionID : text; we_ProjectID : text; we_Provider : text;
  we_Direction : text; we_Kind : text; we_Stream : text; we_Sequence : Z; we_Class : text; we_Decision : text; we_Fingerprint : text;
  we_Text : text; we_ByteCount : Z; we_Redactions : Z; we_ContentHash : text; we_OmittedReason : text; we_LatencyMS : Z;
  we_Context : option SessionContext; we_Terminal : option json; we_Completeness : option json }.

(** [decode_line]: [json.Unmarshal] of one line; [sha256]: the digest in hexadecimal;
    [format_time]: RFC 3339 in UTC; [parse_created]: the time at the start of a
    segment identifier, formatted. *)
Class Wire := {
  decode_line : text -> option WireEvent;
  sha256 : text -> text;
  format_time : Time -> text;
  parse_created : text -> option text;
}.

Definition str (s : string) : text := chars s.

(** A field of a map that is set only under a condition. *)
Definition field_if (b : bool) (key : string) (j : json) : list (text * json) := if b then [(str key, j)] else [].
Definition field_text (key : string) (s : text) : list (text * json) := field_if (negb (bool_decide (s = []))) key (JStr s).

Definition epoch : text := str "1970-01-01T00:00:00Z".

Record bridgeWireSegment := MkSegment { ws_CreatedAt : text; ws_Collector : json; ws_Events : list json }.

Record bridgeBatch := MkBatch { bb_ID : text; bb_Body : text }.

Section Batches.
Context `{Wire}.

(** ** bridgeEnvelope *)

Definition context_fields (c : SessionContext) : json :=
  JObj ([(str "arch", JStr (cx_Arch c))] ++ field_text "branch" (cx_Branch c) ++ field_text "commit_sha" (cx_CommitSHA c) ++
        field_text "machine_id" (cx_MachineID c) ++ [(str "os", JStr (cx_OS c))] ++
        field_text "repository_id" (cx_RepositoryID c) ++ field_text "working_directory_id" (cx_WorkingDirectoryID c)).

Definition payload_fields (e : WireEvent) : json :=
  JObj (field_if (0 <? we_ByteCount e)%Z "byte_count" (JNum (we_ByteCount e)) ++
        field_text "class" (we_Class e) ++
        match we_Completeness e with Some j => [(str "completeness", j)] | None => [] end ++
        field_text "content_sha256" (we_ContentHash e) ++
        match we_Context e with Some c => [(str "context", context_fields c)] | None => [] end ++
        field_text "decision" (we_Decision e) ++ field_text "direction" (we_Direction e) ++ field_text "fingerprint" (we_Fingerprint e) ++
        field_if (negb (we_LatencyMS e =? 0)%Z) "latency_ms" (JNum (we_LatencyMS e)) ++
        field_text "omitted_reason" (we_OmittedReason e) ++ field_text "project_id" (we_ProjectID e) ++
        field_if (0 <? we_Redactions e)%Z "redactions" (JNum (we_Redactions e)) ++
        [(str "schema_version", JNum (we_SchemaVersion e)); (str "sequence", JNum (we_Sequence e))] ++
        field_text "stream" (we_Stream e) ++
        match we_Terminal e with Some j => [(str "terminal", j)] | None => [] end ++
        field_text "text" (we_Text e)).

Definition actor_ref (e : WireEvent) : text :=
  if bool_decide (we_ActorID e = []) then match we_Context e with Some c => cx_ActorID c | None => [] end else we_ActorID e.

Definition repository_ref (e : WireEvent) : text := match we_Context e with Some c => cx_RepositoryID c | None => [] end.

(** [n]: the position of the event in the segment, from 1. *)
Definition event_object (id : text) (n : Z) (e : WireEvent) : json :=
  JObj (field_text "actor_ref" (actor_ref e) ++
        [(str "event_id", JStr (app id (45%Z :: Itoa n))); (str "event_type", JStr (we_Kind e)); (str "occurred_at", JStr (format_time (we_Timestamp e)));
         (str "payload", payload_fields e);
         (str "provider", JStr (if bool_decide (we_Provider e = []) then str "unknown" else we_Provider e))] ++
        field_text "repository_ref" (repository_ref e) ++
        [(str "schema_version", JNum (we_SchemaVersion e)); (str "session_id", JStr (we_SessionID e))]).

(** [bytes.Split] at newlines. *)
Fixpoint split_lines (s : text) : list text :=
  match s with
  | [] => [[]]
  | c :: s => if (c =? 10)%Z then [] :: split_lines s
              else match split_lines s with w :: ws => (c :: w) :: ws | [] => [[c]] end
  end.

Fixpoint envelope_events (id : text) (n : Z) (lines : list text) : option (list json) :=
  match lines with
  | [] => Some []
  | line :: lines =>
      match decode_line line with
      | None => None
      | Some e => option_map (cons (event_object id n e)) (envelope_events id (n + 1) lines)
      end
  end.

Definition created_at (id : text) : text :=
  if (26 <=? length id)%nat then match parse_created (take 26 id) with Some t => t | None => epoch end else epoch.

(** The segment inside the envelope, as [bridgeBatches] takes it out again. *)
Definition bridgeEnvelope (id jsonl version : text) : option bridgeWireSegment :=
  option_map (fun events => MkSegment (created_at id) (JObj [(str "name", JStr (str "bridgectl")); (str "version", JStr version)]) events)
    (envelope_events id 1 (split_lines (TrimSpace jsonl))).

(** ** Batches *)

Definition segment_json (s : bridgeWireSegment) : json :=
  JObj [(str "created_at", JStr (ws_CreatedAt s)); (str "collector", ws_Collector s); (str "events", JArr (ws_Events s))].

Definition encodeBridgeBatch (s : bridgeWireSegment) : bridgeBatch :=
  let checksum := sha256 (print (segment_json s)) in
  let id := app (str "batch-") checksum in
  MkBatch id (print (JObj [(str "schema_version", JNum 1); (str "segment", segment_json s);
                           (str "segment_checksum", JStr (app (str "sha256:") checksum)); (str "segment_id", JStr id)])).

Definition put_events (l : list json) (s : bridgeWireSegment) : bridgeWireSegment := MkSegment (ws_CreatedAt s) (ws_Collector s) l.

(** [flush]: [None] when the body exceeds the limit. *)
Definition flush_batch (s : bridgeWireSegment) (cur : list json) : option (list bridgeBatch) :=
  match cur with
  | [] => Some []
  | _ => let b := encodeBridgeBatch (put_events cur s) in
         if (bridgeMaxRequestBytes <? zlen (bb_Body b))%Z then None else Some [b]
  end.

(** The packing loop: [cur] are the events of the batch being filled and [size] its
    length as counted. *)
Fixpoint pack (s : bridgeWireSegment) (overhead : Z) (cur : list json) (size : Z) (events : list json) : option (list bridgeBatch) :=
  match events with
  | [] => flush_batch s cur
  | raw :: events =>
      let len := zlen (print raw) in
      let extra := (len + (if (0 <? length cur)%nat then 1 else 0))%Z in
      if (length cur =? bridgeMaxEvents)%nat || (bridgeMaxRequestBytes <? size + extra)%Z then
        match flush_batch s cur with
        | None => None
        | Some b =>
            let size := match cur with [] => size | _ => overhead end in
            option_map (app b) (pack s overhead [raw] (size + len) events)
        end
      else pack s overhead (app cur [raw]) (size + extra) events
  end.

(** ** Fragments *)

(** A piece of the text, with the place it has. *)
Definition fragment_payload (hash : text) (i count : Z) (data : text) : json :=
  JObj [(str "fragment", JObj [(str "count", JNum count); (str "data", JStr (b64_encode data)); (str "encoding", JStr (str "base64-json"));
                               (str "index", JNum i); (str "sha256", JStr hash)])].

(** The event with its identity, type and payload replaced; these fields are there. *)
Definition fragment_event (fields : list (text * json)) (hash : text) (i count : Z) (data : text) : json :=
  JObj (map (fun kv => (fst kv,
    if bool_decide (fst kv = str "event_id") then JStr (app (str "fragment-") (app hash (45%Z :: Itoa i)))
    else if bool_decide (fst kv = str "event_type") then JStr (str "telemetry_fragment")
    else if bool_decide (fst kv = str "payload") then fragment_payload hash i count data
    else snd kv)) fields).

Definition fragment_count (raw : text) : nat := ((length raw + bridgeFragmentBytes - 1) / bridgeFragmentBytes)%nat.

Definition fragmentBridgeEvent (j : json) : option (list json) :=
  match j with
  | JObj fields =>
      let raw := print j in
      let count := fragment_count raw in
      Some (map (fun i => fragment_event fields (sha256 raw) (Z.of_nat i) (Z.of_nat count)
                            (take bridgeFragmentBytes (drop (i * bridgeFragmentBytes) raw))) (seq 0 count))
  | _ => None
  end.

Fixpoint fragment_all (events : list json) : option (list json) :=
  match events with
  | [] => Some []
  | j :: events =>
      let js := if (zlen (print j) <? bridgeMaxRequestBytes - 4096)%Z then Some [j] else fragmentBridgeEvent j in
      match js, fragment_all events with
      | Some js, Some rest => Some (app js rest)
      | _, _ => None
      end
  end.

Definition bridgeBatches (id jsonl version : text) : option (list bridgeBatch) :=
  match bridgeEnvelope id jsonl version with
  | None => None
  | Some s =>
      match fragment_all (ws_Events s) with
      | None => None
      | Some events =>
          let overhead := zlen (bb_Body (encodeBridgeBatch (put_events [] s))) in
          pack s overhead [] overhead events
      end
  end.
End Batches.

Definition context_bytes (c : SessionContext) : bool :=
  forallb is_bytes [cx_ActorID c; cx_SourceLabel c; cx_OS c; cx_Arch c; cx_MachineID c; cx_WorkingDirectoryID c; cx_RepositoryID c; cx_Branch c; cx_CommitSHA c].

Definition event_bytes (e : WireEvent) : bool :=
  forallb is_bytes [we_ActorID e; we_SessionID e; we_ProjectID e; we_Provider e; we_Direction e; we_Kind e; we_Stream e; we_Class e; we_Decision e;
                    we_Fingerprint e; we_Text e; we_ContentHash e; we_OmittedReason e] &&
  match we_Context e with Some c => context_bytes c | None => true end &&
  match we_Terminal e with Some j => byte_strings j | None => true end &&
  match we_Completeness e with Some j => byte_strings j | None => true end.

(** A digest is 64 hexadecimal digits; formatted times and the strings of an event that
    was decoded are made of bytes, as every Go string is. *)
Class WireLaws `(W : Wire) : Prop := {
  sha256_hex : forall s, length (sha256 s) = 64%nat /\ forallb plain_char (sha256 s) = true;
  time_bytes : forall t, is_bytes (format_time t) = true;
  decoded_bytes : forall line e, decode_line line = Some e -> event_bytes e = true;
}.

(** ** The size of a request *)

Section Laws.
Context `{L : WireLaws}.

Definition sizes (l : list json) : Z := foldr (fun j n => zlen (print j) + n)%Z 0%Z l.

(** What the events add to the request: their texts and the commas between them. *)
Definition added_size (l : list json) : Z := (sizes l + Z.of_nat (length l - 1))%Z.

Lemma sizes_app a b : sizes (app a b) = (sizes a + sizes b)%Z.
Proof. unfold sizes; induction a as [|j a IH]; cbn [app foldr]; [reflexivity|]; rewrite IH; lia. Qed.

Lemma sizes_commas l : zlen (commas (map print l)) = added_size l.
Proof.
  unfold zlen, added_size; rewrite commas_length, length_map; unfold text_sizes.
  rewrite Nat2Z.inj_add; f_equal; unfold sizes; induction l as [|j l IH]; [reflexivity|]; cbn [map list_sum fold_right foldr]; rewrite Nat2Z.inj_add.
  f_equal; exact IH.
Qed.

Lemma zlen_commas2 (x y : text) l : zlen (commas (x :: y :: l)) = (zlen x + 1 + zlen (commas (y :: l)))%Z.
Proof. rewrite commas_cons, zlen_app, zlen_cons; lia. Qed.

Lemma segment_length s l : zlen (print (segment_json (put_events l s))) = (zlen (print (segment_json (put_events [] s))) + added_size l)%Z.
Proof.
  unfold segment_json, put_events; cbn [print map fst snd ws_CreatedAt ws_Collector ws_Events].
  rewrite !zlen_cons, !zlen_app, !zlen_commas2; cbn [commas]; rewrite !zlen_app, !zlen_cons, !zlen_app, sizes_commas; cbn [map commas]; rewrite zlen_nil; lia.
Qed.

Lemma checksum_length (p s : text) : forallb plain_char p = true -> zlen (quote (app p (sha256 s))) = (zlen p + 66)%Z.
Proof.
  intros Hp; destruct (sha256_hex s) as [Hl Hh]; unfold zlen; rewrite plain_quote by (rewrite forallb_app, Hp, Hh; reflexivity); rewrite length_app, Hl; lia.
Qed.

(** The body of a batch is as long as the body without events, their texts and the
    commas. *)
Lemma body_length s l : zlen (bb_Body (encodeBridgeBatch (put_events l s))) = (zlen (bb_Body (encodeBridgeBatch (put_events [] s))) + added_size l)%Z.
Proof.
  unfold encodeBridgeBatch; cbn [bb_Body]; cbn [print map fst snd]; rewrite !zlen_cons, !zlen_app, !zlen_commas2; cbn [commas].
  rewrite !zlen_app, !zlen_cons, segment_length, !checksum_length by reflexivity; lia.
Qed.

(** ** Packing *)

Definition group_ok (s : bridgeWireSegment) (g : list json) : Prop :=
  g <> [] /\ (length g <= bridgeMaxEvents)%nat /\ (zlen (bb_Body (encodeBridgeBatch (put_events g s))) <= bridgeMaxRequestBytes)%Z.

Lemma flush_inv s cur b : flush_batch s cur = Some b -> (length cur <= bridgeMaxEvents)%nat ->
  exists groups, b = map (fun g => encodeBridgeBatch (put_events g s)) groups /\ concat groups = cur /\ Forall (group_ok s) groups.
Proof.
  unfold flush_batch; intros Hf Hl; destruct cur as [|j cur]; [injection Hf as <-; exists []; auto|].
  destruct (bridgeMaxRequestBytes <? _)%Z eqn:E; [discriminate|]; injection Hf as <-; exists [j :: cur]; split_and!; [reflexivity|apply app_nil_r|].
  constructor; [|constructor]; split_and!; [discriminate|exact Hl|apply Z.ltb_ge, E].
Qed.

Lemma pack_inv s overhead events : forall cur size bs, pack s overhead cur size events = Some bs -> (length cur <= bridgeMaxEvents)%nat ->
  exists groups, bs = map (fun g => encodeBridgeBatch (put_events g s)) groups /\ concat groups = app cur events /\ Forall (group_ok s) groups.
Proof.
  assert (1 <= bridgeMaxEvents)%nat as H1 by (rewrite <- Nat.leb_le; vm_compute; reflexivity).
  induction events as [|raw events IH]; intros cur size bs Hp Hl; cbn [pack] in Hp; [rewrite app_nil_r; eapply flush_inv; eassumption|].
  destruct (_ || _) eqn:Ec.
  - destruct (flush_batch s cur) as [b|] eqn:Ef; [|discriminate]; destruct (pack s overhead [raw] _ events) as [bs'|] eqn:Ep; [|discriminate].
    injection Hp as <-; destruct (flush_inv _ _ _ Ef Hl) as (g1 & -> & Hc1 & Ho1); destruct (IH _ _ _ Ep) as (g2 & -> & Hc2 & Ho2); [cbn; lia|].
    exists (app g1 g2); rewrite map_app, concat_app, Hc1, Hc2; split_and!; [reflexivity|reflexivity|apply Forall_app_2; assumption].
  - apply orb_false_elim in Ec as [Ec _]; apply Nat.eqb_neq in Ec.
    destruct (IH _ _ _ Hp) as (g & -> & Hc & Ho); [rewrite length_app; cbn; lia|]; exists g; rewrite Hc, <- app_assoc; auto.
Qed.

Lemma added_size_one j : added_size [j] = zlen (print j).
Proof. unfold added_size; cbn [sizes foldr length Nat.sub]; lia. Qed.
Lemma added_size_nil : added_size [] = 0%Z.
Proof. reflexivity. Qed.

Lemma added_size_snoc l j : added_size (app l [j]) = (added_size l + zlen (print j) + (if (0 <? length l)%nat then 1 else 0))%Z.
Proof.
  unfold added_size; rewrite sizes_app, length_app; cbn [sizes foldr length]; destruct l as [|i l]; cbn [length Nat.ltb Nat.leb]; lia.
Qed.

Lemma pack_total s events : forall cur, let overhead := zlen (bb_Body (encodeBridgeBatch (put_events [] s))) in
  (forall e, e ∈ events -> overhead + zlen (print e) <= bridgeMaxRequestBytes)%Z ->
  (overhead + added_size cur <= bridgeMaxRequestBytes)%Z -> is_Some (pack s overhead cur (overhead + added_size cur) events).
Proof.
  induction events as [|raw events IH]; intros cur overhead He Hc; cbn [pack].
  - unfold flush_batch; destruct cur as [|j cur]; [eauto|]; rewrite body_length, (proj2 (Z.ltb_ge _ _)) by exact Hc; eauto.
  - assert (overhead + zlen (print raw) <= bridgeMaxRequestBytes)%Z as Hraw by (apply He; set_solver).
    assert (forall e, e ∈ events -> overhead + zlen (print e) <= bridgeMaxRequestBytes)%Z as He' by (intros e Hin; apply He; set_solver).
    destruct (_ || _) eqn:Ec.
    + assert (exists b, flush_batch s cur = Some b) as [b ->].
      { unfold flush_batch; destruct cur as [|j cur]; [eauto|]; rewrite body_length, (proj2 (Z.ltb_ge _ _)) by exact Hc; eauto. }
      assert ((match cur with [] => overhead + added_size cur | _ => overhead end + zlen (print raw) = overhead + added_size [raw])%Z) as ->
        by (rewrite added_size_one; destruct cur; [rewrite added_size_nil|]; lia).
      destruct (IH [raw] He') as [bs Hbs]; [rewrite added_size_one; exact Hraw|]; fold overhead in Hbs; rewrite Hbs; cbn; eauto.
    + apply orb_false_elim in Ec as [_ Ec]; apply Z.ltb_ge in Ec.
      replace (overhead + added_size cur + (zlen (print raw) + (if (0 <? length cur)%nat then 1 else 0)))%Z with (overhead + added_size (app cur [raw]))%Z
        by (rewrite added_size_snoc; lia).
      apply IH; [exact He'|]; rewrite added_size_snoc; fold overhead; destruct (0 <? length cur)%nat; lia.
Qed.

(** ** Fragments put together again *)

Definition field (k : string) (j : json) : option json :=
  match j with
  | JObj fields => option_map snd (List.find (fun kv => bool_decide (fst kv = str k)) fields)
  | _ => None
  end.

(** What a reader finds in a fragment: its digest, place, number of places, data. *)
Definition read_fragment (j : json) : option (text * Z * Z * text) :=
  match field "payload" j ≫= field "fragment" with
  | Some f => match field "sha256" f, field "index" f, field "count" f, field "data" f with
              | Some (JStr h), Some (JNum i), Some (JNum n), Some (JStr d) => Some (h, i, n, b64_decode d)
              | _, _, _, _ => None
              end
  | None => None
  end.

(** [fs] is the event itself, or fragments from which it is put together. *)
Definition carries (fs : list json) (j : json) : Prop :=
  fs = [j] \/
  exists pieces, map read_fragment fs = imap (fun i piece => Some (sha256 (print j), Z.of_nat i, Z.of_nat (length pieces), piece)) pieces /\
    concat pieces = print j.

Lemma read_payload_field fields hash i count data : (exists j, field "payload" (JObj fields) = Some j) ->
  field "payload" (fragment_event fields hash i count data) = Some (fragment_payload hash i count data).
Proof.
  intros [j Hj]; unfold field, fragment_event in *; induction fields as [|[k v] fields IH]; [discriminate|]; cbn [map List.find fst snd] in *.
  case_bool_decide as E; [subst; cbn [option_map snd]; rewrite !bool_decide_eq_false_2 by (vm_compute; discriminate); reflexivity|].
  apply IH, Hj.
Qed.

Lemma read_fragment_event fields hash i count data : (exists j, field "payload" (JObj fields) = Some j) -> is_bytes data = true ->
  read_fragment (fragment_event fields hash i count data) = Some (hash, i, count, data).
Proof.
  intros Hp Hb; unfold read_fragment; rewrite read_payload_field by exact Hp; cbn [option_bind mbind].
  set (f := JObj [(str "count", JNum count); (str "data", JStr (b64_encode data)); (str "encoding", JStr (str "base64-json"));
                  (str "index", JNum i); (str "sha256", JStr hash)]).
  assert (field "fragment" (fragment_payload hash i count data) = Some f) as -> by reflexivity.
  assert (field "sha256" f = Some (JStr hash)) as -> by reflexivity; assert (field "index" f = Some (JNum i)) as -> by reflexivity.
  assert (field "count" f = Some (JNum count)) as -> by reflexivity; assert (field "data" f = Some (JStr (b64_encode data))) as -> by reflexivity.
  rewrite b64_roundtrip by exact Hb; reflexivity.
Qed.

Lemma pieces_concat (F : nat) (s : text) n : concat (map (fun i => take F (drop (i * F) s)) (seq 0 n)) = take (n * F) s.
Proof.
  induction n as [|n IH]; [reflexivity|]; rewrite seq_S, map_app, concat_app, IH; cbn [map concat Nat.add]; rewrite app_nil_r.
  replace (Datatypes.S n * F)%nat with (n * F + F)%nat by lia; apply take_take_drop.
Qed.

Lemma imap_seq {A B} (g : nat -> A -> B) (h : nat -> A) n : imap g (map h (seq 0 n)) = map (fun i => g i (h i)) (seq 0 n).
Proof.
  apply list_eq; intros i; rewrite list_lookup_imap; change (map h (seq 0 n)) with (h <$> seq 0 n);
    change (map (fun i => g i (h i)) (seq 0 n)) with ((fun i => g i (h i)) <$> seq 0 n); rewrite !list_lookup_fmap.
  destruct (decide (i < n)%nat) as [Hi|Hi].
  - rewrite lookup_seq_lt by exact Hi; reflexivity.
  - rewrite lookup_ge_None_2 by (rewrite length_seq; lia); reflexivity.
Qed.

Lemma fragment_bytes_pos : (1 <= bridgeFragmentBytes)%nat.
Proof. rewrite <- Nat.leb_le; vm_compute; reflexivity. Qed.

Lemma fragments_carry fields : (exists j, field "payload" (JObj fields) = Some j) -> byte_strings (JObj fields) = true ->
  exists fs, fragmentBridgeEvent (JObj fields) = Some fs /\ carries fs (JObj fields).
Proof.
  intros Hp Hb; eexists; split; [reflexivity|]; right; set (raw := print (JObj fields)); set (n := fragment_count raw).
  assert (is_bytes raw = true) as Hraw by apply print_bytes, Hb.
  set (F := bridgeFragmentBytes); pose proof fragment_bytes_pos as HF; fold F in HF.
  exists (map (fun i => take F (drop (i * F) raw)) (seq 0 n)); split.
  - rewrite imap_seq, length_map, length_seq, map_map; apply map_ext; intros i.
    rewrite read_fragment_event by (assumption || apply is_bytes_take, is_bytes_drop, Hraw); reflexivity.
  - rewrite pieces_concat; apply take_ge; unfold n, fragment_count; fold F.
    pose proof (Nat.div_mod_eq (length raw + F - 1) F); pose proof (Nat.mod_upper_bound (length raw + F - 1) F); nia.
Qed.

Lemma fields_app a b : byte_strings (JObj (app a b)) = byte_strings (JObj a) && byte_strings (JObj b).
Proof. apply forallb_app. Qed.

Lemma field_text_bytes k v : is_bytes v = true -> byte_strings (JObj (field_text k v)) = is_bytes (str k) || bool_decide (v = []).
Proof.
  intros Hv; unfold field_text, field_if; case_bool_decide; cbn [negb]; [rewrite orb_true_r; reflexivity|].
  cbn [byte_strings forallb fst snd]; rewrite Hv, !andb_true_r, orb_false_r; reflexivity.
Qed.

Lemma field_if_bytes b k j : byte_strings j = true -> is_bytes (str k) = true -> byte_strings (JObj (field_if b k j)) = true.
Proof. intros Hj Hk; unfold field_if; destruct b; [|reflexivity]; cbn [byte_strings forallb fst snd]; rewrite Hj, Hk; reflexivity. Qed.

(** One field after the other. *)
Ltac fields_bytes :=
  repeat match goal with
         | |- byte_strings (JObj (app _ _)) = true => rewrite fields_app; apply andb_true_intro; split
         | |- byte_strings (JObj (field_text _ _)) = true => rewrite field_text_bytes; [reflexivity|]
         | |- byte_strings (JObj (field_if _ _ _)) = true => apply field_if_bytes; [|reflexivity]
         end.

Lemma context_object_bytes c : context_bytes c = true -> byte_strings (context_fields c) = true.
Proof.
  intros Hc; unfold context_bytes in Hc; cbn [forallb] in Hc; repeat match goal with H : _ && _ = true |- _ => apply andb_prop in H as [? H] end.
  unfold context_fields; fields_bytes; try assumption; cbn [byte_strings forallb fst snd]; rewrite ?andb_true_r; assumption.
Qed.

Lemma event_object_bytes id n e : is_bytes id = true -> event_bytes e = true -> byte_strings (event_object id n e) = true.
Proof.
  intros Hid He; unfold event_bytes in He; cbn [forallb] in He; repeat match goal with H : _ && _ = true |- _ => apply andb_prop in H as [? H] end.
  assert (byte_strings (payload_fields e) = true) as Hp.
  { unfold payload_fields; fields_bytes; try assumption; try reflexivity.
    - destruct (we_Completeness e); [cbn [byte_strings forallb fst snd]; rewrite andb_true_r; assumption|reflexivity].
    - destruct (we_Context e); [cbn [byte_strings forallb fst snd]; rewrite context_object_bytes by assumption; reflexivity|reflexivity].
    - destruct (we_Terminal e); [cbn [byte_strings forallb fst snd]; rewrite andb_true_r; assumption|reflexivity]. }
  assert (match we_Context e with Some c => is_bytes (cx_ActorID c) && is_bytes (cx_RepositoryID c) | None => true end = true) as Hctx.
  { destruct (we_Context e) as [c|]; [|reflexivity]; unfold context_bytes in *; cbn [forallb] in *.
    repeat match goal with H : _ && _ = true |- _ => apply andb_prop in H as [? H] end; apply andb_true_intro; split; assumption. }
  assert (is_bytes (actor_ref e) = true /\ is_bytes (repository_ref e) = true) as [Ha Hr].
  { unfold actor_ref, repository_ref; destruct (we_Context e) as [c|]; [apply andb_prop in Hctx as [? ?]|]; case_bool_decide; auto. }
  unfold event_object; fields_bytes; try assumption; cbn [byte_strings forallb fst snd]; fold (byte_strings (payload_fields e)).
  - rewrite Hp, is_bytes_app, is_bytes_cons, Hid, time_bytes; unfold Itoa; rewrite digits_bytes by reflexivity.
    assert (is_bytes (if bool_decide (we_Provider e = []) then str "unknown" else we_Provider e) = true) as -> by (case_bool_decide; [reflexivity|assumption]).
    match goal with H : is_bytes (we_Kind e) = true |- _ => rewrite H end; reflexivity.
  - match goal with H : is_bytes (we_SessionID e) = true |- _ => rewrite H end; reflexivity.
Qed.

Lemma event_payload id n e : field "payload" (event_object id n e) = Some (payload_fields e).
Proof. unfold event_object, field_text, field_if; destruct (negb (bool_decide (actor_ref e = []))), (negb (bool_decide (repository_ref e = []))); reflexivity. Qed.

Lemma fragment_all_carries events : Forall (fun j => exists id n e, j = event_object id n e /\ byte_strings j = true) events ->
  exists parts, Forall2 carries parts events /\ fragment_all events = Some (concat parts).
Proof.
  induction 1 as [|j events (id & n & e & -> & Hb) _ (parts & Hc & He)]; [exists []; auto|]; cbn [fragment_all].
  destruct (_ <? _)%Z.
  - exists ([event_object id n e] :: parts); rewrite He; split; [constructor; [left; reflexivity|exact Hc]|reflexivity].
  - destruct (fragments_carry _ (ex_intro _ _ (event_payload id n e)) Hb) as (fs & Hf & Hcar); fold (event_object id n e) in Hf.
    exists (fs :: parts); rewrite He; unfold event_object in Hf |- *; rewrite Hf; split; [constructor; assumption|reflexivity].
Qed.

Lemma envelope_objects id n lines js : is_bytes id = true -> envelope_events id n lines = Some js ->
  Forall (fun j => exists id n e, j = event_object id n e /\ byte_strings j = true) js.
Proof.
  intros Hid; revert n js; induction lines as [|line lines IH]; intros n js; cbn [envelope_events]; [intros [= <-]; constructor|].
  destruct (decode_line line) as [e|] eqn:Ed; [|discriminate]; destruct (envelope_events id (n + 1) lines) as [rest|] eqn:Er; [|discriminate].
  intros [= <-]; constructor; [exists id, n, e; split; [reflexivity|apply event_object_bytes; [exact Hid|eapply decoded_bytes, Ed]]|eapply IH, Er].
Qed.

(** C31. A segment of recorded events is delivered whole.  Every event is carried by the
    requests, in order, as it is or in fragments that a reader puts together to
    exactly its text; a request has at least one and at most a thousand events and
    fits the limit, counted on the text that is sent; and if each piece fits beside
    the fixed part of a request, the segment is accepted for delivery. *)
Theorem batches_complete (id jsonl version : text) (s : bridgeWireSegment)
    (Hid : is_bytes id = true) (Hs : bridgeEnvelope id jsonl version = Some s) :
  exists parts, Forall2 carries parts (ws_Events s) /\
    (forall bs, bridgeBatches id jsonl version = Some bs -> exists groups,
       bs = map (fun g => encodeBridgeBatch (put_events g s)) groups /\ concat groups = concat parts /\ Forall (group_ok s) groups) /\
    ((forall piece, piece ∈ concat parts ->
        zlen (bb_Body (encodeBridgeBatch (put_events [] s))) + zlen (print piece) <= bridgeMaxRequestBytes)%Z ->
     (zlen (bb_Body (encodeBridgeBatch (put_events [] s))) <= bridgeMaxRequestBytes)%Z -> is_Some (bridgeBatches id jsonl version)).
Proof.
  assert (Forall (fun j => exists id n e, j = event_object id n e /\ byte_strings j = true) (ws_Events s)) as Ho.
  { unfold bridgeEnvelope in Hs; destruct (envelope_events id 1 _) as [js|] eqn:E; [|discriminate]; injection Hs as <-; eapply envelope_objects; eassumption. }
  destruct (fragment_all_carries _ Ho) as (parts & Hc & Hf); exists parts; split; [exact Hc|]; unfold bridgeBatches; rewrite Hs, Hf; split.
  - intros bs Hp; destruct (pack_inv _ _ _ _ _ _ Hp) as (groups & -> & Hg & Hok); [cbn; lia|]; exists groups; auto.
  - intros Hfit Hover; pose proof (pack_total s (concat parts) [] Hfit) as Ht; rewrite added_size_nil, Z.add_0_r in Ht; apply Ht, Hover.
Qed.
End Laws.

(** ** A concrete segment *)

(** A toy encoding: a line is the text of an event. *)
#[local] Instance toy_wire : Wire := {|
  decode_line l := match l with
                   | [] => None
                   | _ => Some (MkWireEvent 2 0 [] (str "s1") [] [] (str "agent") (str "provider_output") (str "output") 1 [] [] []
                                  (if is_bytes l then l else []) 5 0 [] [] 0 None None None)
                   end;
  sha256 _ := replicate 64 97%Z;
  format_time _ := epoch;
  parse_created _ := None;
|}.

#[local] Instance toy_wire_laws : WireLaws toy_wire.
Proof.
  split; [intros s; split; reflexivity|reflexivity|].
  intros line e He; cbn in He; destruct line as [|c line]; [discriminate|]; injection He as <-.
  unfold event_bytes; cbn [forallb we_ActorID we_SessionID we_ProjectID we_Provider we_Direction we_Kind we_Stream we_Class we_Decision we_Fingerprint
    we_Text we_ContentHash we_OmittedReason we_Context we_Terminal we_Completeness].
  destruct (is_bytes (c :: line)) eqn:Eb; [rewrite Eb|]; reflexivity.
Qed.

(** Two lines, one of them with characters that are escaped. *)
Definition sample_jsonl : text := app (str "hi") (10%Z :: app (str "a<b") [10%Z]).

Lemma batches_complete_witness :
  exists s bs, bridgeEnvelope (str "seg-1") sample_jsonl (str "dev") = Some s /\ length (ws_Events s) = 2%nat /\
    bridgeBatches (str "seg-1") sample_jsonl (str "dev") = Some bs /\ length bs = 1%nat /\
    exists parts groups, Forall2 carries parts (ws_Events s) /\ concat groups = concat parts /\ Forall (group_ok s) groups.
Proof.
  destruct (bridgeEnvelope (str "seg-1") sample_jsonl (str "dev")) as [s|] eqn:Es; [|vm_compute in Es; discriminate].
  destruct (bridgeBatches (str "seg-1") sample_jsonl (str "dev")) as [bs|] eqn:Eb; [|vm_compute in Eb; discriminate].
  destruct (batches_complete (str "seg-1") sample_jsonl (str "dev") s ltac:(reflexivity) Es) as (parts & Hc & Hb & _).
  destruct (Hb bs Eb) as (groups & _ & Hg & Ho); exists s, bs; split; [reflexivity|].
  assert (option_map (fun s => length (ws_Events s)) (bridgeEnvelope (str "seg-1") sample_jsonl (str "dev")) = Some 2%nat) as H1 by (vm_compute; reflexivity).
  assert (option_map (@length bridgeBatch) (bridgeBatches (str "seg-1") sample_jsonl (str "dev")) = Some 1%nat) as H2 by (vm_compute; reflexivity).
  rewrite Es in H1; rewrite Eb in H2; injection H1 as H1; injection H2 as H2.
  split; [exact H1|]; split; [reflexivity|]; split; [exact H2|exists parts, groups; auto].
Defined.
