(* ===== verification/Forward.v ===== *)
(** * Delivery of telemetry: internal/telemetry/grpc_forwarder.go, grpc.go (the
    collector), local_spool.go, and the sending half of http_forwarder.go

    Sealed segments leave the spool of a daemon: over a stream to a collector, which
    keeps them in a spool of its own, or in requests to an HTTPS collector.  A segment
    is removed only when it was acknowledged.

    The network may lose a message, the answer to it, or deliver it late; files may
    fail; both sides may stop and start again.  The spools are those of Spool, the
    requests those of Batches. *)

From S2P Require Import Prelude Types ByteBuf GoStd Store Spool GoText Utf8 Json Batches.

(** ** The collector (grpc.go) *)

Inductive refusal := InvalidArgument | ResourceExhausted | AlreadyExists | Internal.

(** One turn of [StreamSegments]: the acknowledgement says whether the segment was
    new.  [validate]: [validateJSONL]. *)
Definition StreamSegments (validate : bytes -> bool) (max : Z) (c : SegmentSpool) (id : seg_id) (data : bytes) (w : fs_world)
    : SegmentSpool * (refusal + bool) :=
  if negb (validSegmentID id) then (c, inl InvalidArgument)
  else if max <? zlen data then (c, inl ResourceExhausted)
  else if negb (validate data) then (c, inl InvalidArgument)
  else match Accept c id data w with
       | (c, Stored) => (c, inr true)
       | (c, Duplicate) => (c, inr false)
       | (c, Conflict) => (c, inl AlreadyExists)
       | (c, _) => (c, inl Internal)
       end.

(** ** The forwarder (grpc_forwarder.go) *)

Record Forwarder := MkForwarder { fd_spool : SegmentSpool; fd_stream : bool; fd_closed : bool }.

(** What happens to one segment: the send fails; the message does not reach the
    collector now; or the collector handles it and the answer arrives or not, with
    the file worlds of both sides. *)
Inductive fate := SendFails | NotHandled | Handled (answered : bool) (wc ws : fs_world).

(** The two sides, the messages on their way, and what the current pass has still to
    send. *)
Record link := MkLink { lk_sender : Forwarder; lk_collector : SegmentSpool; lk_inflight : list segment; lk_todo : list seg_id }.

Definition put_spool (s : SegmentSpool) (f : Forwarder) : Forwarder := MkForwarder s (fd_stream f) (fd_closed f).
Definition put_stream (b : bool) (f : Forwarder) : Forwarder := MkForwarder (fd_spool f) b (fd_closed f).

(** A pass that failed: [resetStreamLocked]. *)
Definition resetStream (k : link) : link := MkLink (put_stream false (lk_sender k)) (lk_collector k) (lk_inflight k) [].

Section Forwarding.
Variable validate : bytes -> bool.
Variable max : Z.

(** One turn of the loop of [deliverPending]; whether the pass goes on. *)
Definition deliver_one (k : link) (id : seg_id) (f : fate) : link * bool :=
  let s := fd_spool (lk_sender k) in
  match Read s id with
  | None => (k, false)
  | Some data =>
      match f with
      | SendFails => (k, false)
      | NotHandled => (MkLink (lk_sender k) (lk_collector k) ((id, data) :: lk_inflight k) (lk_todo k), false)
      | Handled answered wc ws =>
          let '(c, r) := StreamSegments validate max (lk_collector k) id data wc in
          match answered, r with
          | true, inr _ =>
              let '(s, ok) := Remove s id ws in (MkLink (put_spool s (lk_sender k)) c (lk_inflight k) (lk_todo k), ok)
          | _, _ => (MkLink (lk_sender k) c (lk_inflight k) (lk_todo k), false)
          end
      end
  end.

(** [deliverPending] up to its loop: list the segments and open the stream.  Between
    two turns of the loop recorders may append. *)
Definition deliver_begin (k : link) (list_ok open_ok : bool) : link * bool :=
  if negb list_ok then (resetStream k, false)
  else match Pending (fd_spool (lk_sender k)) with
       | [] => (k, true)
       | listed =>
           if negb (fd_stream (lk_sender k)) && negb open_ok then (resetStream k, false)
           else (MkLink (put_stream true (lk_sender k)) (lk_collector k) (lk_inflight k) (map fst listed), true)
       end.

Definition deliver_next (k : link) (f : fate) : link * bool :=
  match lk_todo k with
  | [] => (k, true)
  | id :: rest =>
      let '(k, ok) := deliver_one (MkLink (lk_sender k) (lk_collector k) (lk_inflight k) rest) id f in
      (if ok then k else resetStream k, ok)
  end.

(** [deliverPending] with nothing else going on; one fate per segment. *)
Fixpoint deliver_loop (k : link) (fates : list fate) : link * bool :=
  match fates with
  | [] => (k, bool_decide (lk_todo k = []))
  | f :: fates => let '(k, ok) := deliver_next k f in if ok then deliver_loop k fates else (k, false)
  end.

Definition deliverPending (k : link) (list_ok open_ok : bool) (fates : list fate) : link * bool :=
  let '(k, ok) := deliver_begin k list_ok open_ok in if ok then deliver_loop k fates else (k, false).

(** [Record]: refused once the sink was closed. *)
Definition forwarder_Record (f : Forwarder) (data : bytes) (w ws : fs_world) : Forwarder * bool :=
  if fd_closed f then (f, false)
  else let '(s, r) := Append (fd_spool f) data w ws in (put_spool s f, match r with Appended => true | _ => false end).
End Forwarding.

(** [Close] of the forwarder marks it and seals; then it delivers until nothing is
    left, or gives up at the deadline.  [rounds]: one delivery attempt each. *)
Fixpoint close_rounds (validate : bytes -> bool) (max : Z) (k : link) (rounds : list (bool * bool * bool * list fate))
    : link * bool :=
  match rounds with
  | [] => (k, false)
  | (listed_ok, list_ok, open_ok, fates) :: rounds =>
      if negb listed_ok then (k, false)
      else match Pending (fd_spool (lk_sender k)) with
           | [] => (k, true)
           | _ => close_rounds validate max (deliverPending validate max k list_ok open_ok fates).1 rounds
           end
  end.

Definition Close (validate : bytes -> bool) (max : Z) (k : link) (wseal : fs_world)
    (rounds : list (bool * bool * bool * list fate)) : link * bool :=
  let f := lk_sender k in
  let '(s, ok) := sealLocked (fd_spool f) wseal in
  let k := MkLink (MkForwarder s (fd_stream f) true) (lk_collector k) (lk_inflight k) (lk_todo k) in
  let '(k, ok) := if ok then close_rounds validate max k rounds else (k, false) in
  (resetStream k, ok).

(** ** Delays between attempts *)

Definition maxBackoff : Duration := 30 * Second.

(** The delay before the next attempt and the back-off after an attempt, for the HTTP
    forwarder. *)
Definition http_next (flush retry backoff : Duration) (ok : bool) : Duration * Duration :=
  if ok then (flush, retry) else (backoff, Z.min (backoff * 2) maxBackoff).

(** The constructor's defaults. *)
Definition http_intervals (flush retry : Duration) : Duration * Duration :=
  (if flush <=? 0 then 30 * Second else flush, Z.min (if retry <=? 0 then Second else retry) maxBackoff).

Fixpoint http_delays (flush retry backoff : Duration) (results : list bool) : list Duration :=
  match results with
  | [] => []
  | ok :: results => let '(d, backoff) := http_next flush retry backoff ok in d :: http_delays flush retry backoff results
  end.

(** The same for the stream forwarder: the first back-off is capped, the one after a
    success is not. *)
Definition grpc_start (retry : Duration) : Duration := Z.min retry maxBackoff.
Definition grpc_next (flush retry backoff : Duration) (ok : bool) : Duration * Duration :=
  if ok then (flush, retry) else (backoff, Z.min (backoff * 2) maxBackoff).

(** ** The HTTPS collector (http_forwarder.go) *)

Record receipt := MkReceipt { rc_SegmentID : text; rc_Status : text; rc_Storage : text; rc_ObjectKey : text }.

(** The answer to a request: none, one that could not be read, or a status with the
    receipt its body decodes to. *)
Inductive http_answer := NoAnswer | Unreadable | Answer (status : Z) (r : option receipt).

Inductive uploaded := Accepted | RejectedBatch | Undelivered.

Definition uploadBatch (b : bridgeBatch) (a : http_answer) : uploaded :=
  match a with
  | NoAnswer | Unreadable => Undelivered
  | Answer status r =>
      if (status <? 200) || (300 <=? status) then
        if (400 <=? status) && (status <? 500) && negb (status =? 401) && negb (status =? 403) && negb (status =? 408) && negb (status =? 429)
        then RejectedBatch else Undelivered
      else match r with
           | Some r =>
               if bool_decide (rc_SegmentID r = bb_ID b) && (bool_decide (rc_Status r = str "accepted") || bool_decide (rc_Status r = str "already_accepted")) &&
                  bool_decide (rc_Storage r = str "s3") && negb (bool_decide (rc_ObjectKey r = []))
               then Accepted else Undelivered
           | None => Undelivered
           end
  end.

Section Upload.
Context `{Wire}.
Variable version : text.
(** The answer of the collector to the [n]-th request of the pass. *)
Variable answer : nat -> bridgeBatch -> http_answer.

(** The batches of one segment: how many requests were made in all, the batches that
    were accepted, whether all were, and whether the pass goes on. *)
Fixpoint upload_batches (n : nat) (bs : list bridgeBatch) : nat * list bridgeBatch * bool * bool :=
  match bs with
  | [] => (n, [], true, true)
  | b :: bs =>
      match uploadBatch b (answer n b) with
      | Accepted => let '(n, acc, all, go) := upload_batches (Datatypes.S n) bs in (n, b :: acc, all, go)
      | RejectedBatch => let '(n, acc, _, go) := upload_batches (Datatypes.S n) bs in (n, acc, false, go)
      | Undelivered => (Datatypes.S n, [], false, false)
      end
  end.

(** The loop over the segments listed.  [cancelled n]: the context is done after [n]
    requests; [rm]: the file world of a removal. *)
Fixpoint upload_segments (cancelled : nat -> bool) (rm : seg_id -> fs_world) (n : nat) (s : SegmentSpool) (listed : list (seg_id * Z))
    : SegmentSpool * list bridgeBatch * bool :=
  match listed with
  | [] => (s, [], true)
  | (id, _) :: listed =>
      if cancelled n then (s, [], false)
      else
        match Read s id ≫= (fun data => bridgeBatches id (map byte_val data) version) with
        | None => let '(s, acc, ok) := upload_segments cancelled rm n s listed in (s, acc, false)
        | Some bs =>
            let '(n, acc, all, go) := upload_batches n bs in
            if negb go then (s, acc, false)
            else
              let '(s, ok) := if all then Remove s id (rm id) else (s, false) in
              let '(s, acc', ok') := upload_segments cancelled rm n s listed in
              (s, app acc acc', ok && ok')
        end
  end.

(** [upload]: seal, list, deliver. *)
Definition http_upload (cancelled : nat -> bool) (wseal : fs_world) (list_ok : bool) (rm : seg_id -> fs_world) (s : SegmentSpool)
    : SegmentSpool * list bridgeBatch * bool :=
  let '(s, ok) := sealLocked s wseal in
  if negb ok || negb list_ok then (s, [], false) else upload_segments cancelled rm 0 s (Pending s).
End Upload.

(** ** What a spool has held *)










Lemma find_segment_in id l d : find_segment id l = Some d -> (id, d) ∈ l.
Proof.
  unfold find_segment; destruct (List.find _ l) as [[k e]|] eqn:E; [|discriminate]; intros [= <-]; apply List.find_some in E as [Hin Hk].
  cbn in Hk; apply bool_decide_eq_true in Hk; subst k; apply list_elem_of_In, Hin.
Qed.

Lemma Read_in s id d : Read s id = Some d -> (id, d) ∈ sp_segments s.
Proof. unfold Read; destruct (validSegmentID id); [apply find_segment_in|discriminate]. Qed.

Lemma NoDup_fst_inj {A B} (l : list (A * B)) k x y : NoDup (map fst l) -> (k, x) ∈ l -> (k, y) ∈ l -> x = y.
Proof.
  induction l as [|[k' z] l IH]; intros Hn Hx Hy; [apply elem_of_nil in Hx; contradiction|]; cbn in Hn; inversion Hn as [|? ? Hk Hn']; subst.
  assert (forall v, (k', v) ∉ l) as Hno by (intros v Hv; apply Hk, list_elem_of_fmap; exists (k', v); auto).
  apply elem_of_cons in Hx as [Hx|Hx], Hy as [Hy|Hy]; [congruence| | |auto]; [injection Hx as -> ->|injection Hy as -> ->]; exfalso; eapply Hno; eassumption.
Qed.



(** ** Runs of both sides *)


Section Runs.
Variable validate : bytes -> bool.
Variable max : Z.



















End Runs.

(** A segment the collector will not take holds up everything behind it: as long as it
    is the oldest and refused, no pass removes anything. *)
Lemma refused_blocks (validate : bytes -> bool) (max : Z) (k : link) (id : seg_id) (data : bytes) (later : list segment) (fates : list fate) :
  sp_segments (fd_spool (lk_sender k)) = (id, data) :: later ->
  (forall w, exists e, (StreamSegments validate max (lk_collector k) id data w).2 = inl e) ->
  fd_spool (lk_sender (deliverPending validate max k true true fates).1) = fd_spool (lk_sender k).
Proof.
  intros Hs Href; unfold deliverPending, deliver_begin, Pending; rewrite Hs; cbn [negb map fst snd]; rewrite andb_false_r; cbv iota zeta.
  destruct fates as [|f fates]; [reflexivity|]; cbn [deliver_loop]; unfold deliver_next; cbn [lk_todo]; unfold deliver_one; cbn [lk_sender lk_collector put_stream fd_spool].
  assert (forall d, Read (fd_spool (lk_sender k)) id = Some d -> d = data) as Hread.
  { intros d; unfold Read, find_segment; rewrite Hs; cbn [List.find fst]; rewrite bool_decide_eq_true_2 by reflexivity; destruct (validSegmentID id); congruence. }
  destruct (Read (fd_spool (lk_sender k)) id) as [d|]; [|reflexivity]; rewrite (Hread d eq_refl).
  destruct f as [| |answered wc ws]; [reflexivity|reflexivity|]; destruct (Href wc) as [e He].
  destruct (StreamSegments validate max (lk_collector k) id data wc) as [c r]; cbn [snd] in He; subst r; destruct answered; reflexivity.
Qed.

(** After a delivery that worked the first retry waits for the whole retry interval,
    however long. *)
Example grpc_retry_uncapped : (grpc_next Second (3600 * Second) (grpc_start (3600 * Second)) true).2 = 3600 * Second /\ grpc_start (3600 * Second) = 30 * Second.
Proof. split; reflexivity. Qed.

(** ** The HTTPS collector *)

Lemma keys_sorted_NoDup {V} (l : list (key * V)) : keys_sorted l -> NoDup (map fst l).
Proof.
  induction l as [|[k v] l IH]; cbn; [constructor|]; intros [Hk Hs]; constructor; [|apply IH, Hs].
  intros Hin; apply list_elem_of_fmap in Hin as ([k' v'] & -> & Hin); rewrite Forall_forall in Hk; apply list_elem_of_In, Hk in Hin; cbn in Hin.
  rewrite key_lt_irrefl in Hin; discriminate.
Qed.

Lemma keys_NoDup_sublist {A B} (l k : list (A * B)) : sublist l k -> NoDup (map fst k) -> NoDup (map fst l).
Proof. intros Hs Hn; apply (sublist_NoDup _ _ Hn), (fmap_sublist fst), Hs. Qed.

(** A receipt that names the batch. *)
Definition receipted (b : bridgeBatch) (a : http_answer) : Prop :=
  exists status r, a = Answer status (Some r) /\ 200 <= status < 300 /\ rc_SegmentID r = bb_ID b /\ rc_Storage r = str "s3" /\ rc_ObjectKey r <> [].

Lemma uploadBatch_accepted b a : uploadBatch b a = Accepted -> receipted b a.
Proof.
  unfold uploadBatch; destruct a as [| |status r]; try discriminate; destruct (_ || _) eqn:Es; [destruct (_ && _); discriminate|].
  destruct r as [r|]; [|discriminate]; destruct (_ && _) eqn:Er; [|discriminate]; intros _.
  apply andb_prop in Er as [Er Hk]; apply andb_prop in Er as [Er Hs]; apply andb_prop in Er as [Hi _].
  apply bool_decide_eq_true in Hi, Hs; apply negb_true_iff, bool_decide_eq_false in Hk; exists status, r; split_and!; auto; lia.
Qed.

Section UploadProof.
Context `{Wire}.
Variable version : text.
Variable answer : nat -> bridgeBatch -> http_answer.

Definition batches_of (x : segment) : option (list bridgeBatch) := bridgeBatches (fst x) (map byte_val (snd x)) version.

(** Everything of the segment was acknowledged. *)
Definition delivered (acc : list bridgeBatch) (x : segment) : Prop := exists bs, batches_of x = Some bs /\ forall b, b ∈ bs -> b ∈ acc.

Lemma upload_batches_inv bs : forall n n' acc all go, upload_batches answer n bs = (n', acc, all, go) ->
  (forall b, b ∈ acc -> exists m, receipted b (answer m b)) /\ (all = true -> forall b, b ∈ bs -> b ∈ acc) /\
  ((forall m b, uploadBatch b (answer m b) <> Undelivered) -> go = true) /\
  ((forall m b, b ∈ bs -> uploadBatch b (answer m b) = Accepted) -> all = true).
Proof.
  induction bs as [|b bs IH]; intros n n' acc all go; cbn [upload_batches]; [intros [= <- <- <- <-]; split_and!; auto; set_solver|].
  destruct (uploadBatch b (answer n b)) eqn:Eb.
  - destruct (upload_batches answer (Datatypes.S n) bs) as [[[n1 acc1] all1] go1] eqn:E; intros [= <- <- <- <-]; destruct (IH _ _ _ _ _ E) as (H1 & H2 & H3 & H4).
    split_and!; [|intros Ha b' Hb'; apply elem_of_cons in Hb' as [->|Hb']; [|apply elem_of_cons; right]; set_solver|exact H3|].
    + intros b' Hb'; apply elem_of_cons in Hb' as [->|Hb']; [exists n; apply uploadBatch_accepted, Eb|apply H1, Hb'].
    + intros Hall; apply H4; intros m b' Hb'; apply Hall; set_solver.
  - destruct (upload_batches answer (Datatypes.S n) bs) as [[[n1 acc1] all1] go1] eqn:E; intros [= <- <- <- <-]; destruct (IH _ _ _ _ _ E) as (H1 & H2 & H3 & H4).
    split_and!; [exact H1|discriminate|exact H3|]; intros Hall; rewrite Hall in Eb by set_solver; discriminate.
  - intros [= <- <- <- <-]; split_and!; [set_solver|discriminate|intros Hno; specialize (Hno n b); congruence|].
    intros Hall; rewrite Hall in Eb by set_solver; discriminate.
Qed.

Lemma remove_others s id w x : x ∈ sp_segments s -> fst x <> id -> x ∈ sp_segments (Remove s id w).1.
Proof.
  intros Hx Hne; unfold Remove; destruct (negb _); [exact Hx|]; destruct (negb _); [exact Hx|].
  rewrite partition_as_filter; cbn; apply list_elem_of_In, List.filter_In; split; [apply list_elem_of_In, Hx|].
  rewrite bool_decide_eq_false_2 by exact Hne; reflexivity.
Qed.

Lemma remove_sublist s id w : sublist (sp_segments (Remove s id w).1) (sp_segments s).
Proof.
  unfold Remove; destruct (negb _); [reflexivity|]; destruct (negb _); [reflexivity|]; rewrite partition_as_filter; cbn.
  induction (sp_segments s) as [|x l IH]; cbn; [constructor|]; destruct (negb _); constructor; exact IH.
Qed.

(** Segments that left by removal; nothing else changed. *)
Definition only_removed (s s' : SegmentSpool) (gone : list segment) : Prop :=
  sp_removed s' = sp_removed s ++ gone /\ sp_segments s ≡ₚ gone ++ sp_segments s' /\ sp_evicted s' = sp_evicted s /\ sp_active s' = sp_active s.

Lemma only_removed_none s : only_removed s s [].
Proof. unfold only_removed; rewrite app_nil_r; auto. Qed.

Lemma only_removed_trans s1 s2 s3 g1 g2 : only_removed s1 s2 g1 -> only_removed s2 s3 g2 -> only_removed s1 s3 (g1 ++ g2).
Proof. intros (A & B & C & D) (A' & B' & C' & D'); split_and!; [rewrite A', A, app_assoc; reflexivity|rewrite B, B', app_assoc; reflexivity|congruence|congruence]. Qed.

Lemma remove_only s id w : exists gone, only_removed s (Remove s id w).1 gone /\ forall x, x ∈ gone -> fst x = id.
Proof.
  unfold Remove; destruct (negb _); [exists []; split; [apply only_removed_none|set_solver]|]; destruct (negb _); [exists []; split; [apply only_removed_none|set_solver]|].
  destruct (List.partition _ _) as [gone rest] eqn:Ep; exists gone; apply partition_perm in Ep as Hp; rewrite partition_as_filter in Ep; injection Ep as <- _.
  split; [split_and!; auto|]; intros x Hx; apply list_elem_of_In, List.filter_In in Hx as [_ Hx]; apply bool_decide_eq_true in Hx; exact Hx.
Qed.

(** What one pass over the listed segments removes, and what it leaves. *)
Lemma upload_segments_inv cancelled rm listed : forall n s s' acc ok, upload_segments version answer cancelled rm n s listed = (s', acc, ok) ->
  NoDup (map fst (sp_segments s)) ->
  (exists gone, only_removed s s' gone /\ Forall (delivered acc) gone) /\
  (forall b, b ∈ acc -> exists m, receipted b (answer m b)).
Proof.
  assert (forall s acc, exists gone, only_removed s s gone /\ Forall (delivered acc) gone) as Hnone by (intros; exists []; split; [apply only_removed_none|constructor]).
  induction listed as [|[id z] listed IH]; intros n s s' acc ok; cbn [upload_segments]; [intros [= <- <- <-] _; split; auto; set_solver|].
  destruct (cancelled n); [intros [= <- <- <-] _; split; auto; set_solver|].
  destruct (Read s id ≫= _) as [bs|] eqn:Er.
  2:{ destruct (upload_segments version answer cancelled rm n s listed) as [[s1 acc1] ok1] eqn:E; intros [= <- <- <-] Hn; eapply IH; eassumption. }
  destruct (Read s id) as [data|] eqn:Ed; [|discriminate]; cbn [option_bind mbind] in Er; apply Read_in in Ed as Hin.
  destruct (upload_batches answer n bs) as [[[n1 acc1] all] go] eqn:Eu; destruct (upload_batches_inv _ _ _ _ _ _ Eu) as (H1 & H2 & _).
  destruct go; cbn [negb]; [|intros [= <- <- <-] _; split; auto].
  destruct (if all then Remove s id (rm id) else (s, false)) as [s1 ok1] eqn:E1; intros Hres Hn.
  assert ((exists gone, only_removed s s1 gone /\ Forall (delivered acc1) gone) /\ sublist (sp_segments s1) (sp_segments s)) as [(gone & Hg & Hgone) Hsub].
  { destruct all; [|injection E1 as <- _; split; [apply Hnone|reflexivity]].
    destruct (remove_only s id (rm id)) as (gone & Hg & Hgone); pose proof (remove_sublist s id (rm id)) as Hs; rewrite E1 in Hg, Hs; split; [|exact Hs].
    exists gone; split; [exact Hg|]; apply List.Forall_forall; intros [id' d'] Hx; apply list_elem_of_In in Hx; apply Hgone in Hx as Hx2; cbn in Hx2; subst id'.
    exists bs; split; [|intros b Hb; apply H2; auto]; rewrite (NoDup_fst_inj _ id d' data Hn); [exact Er| |exact Hin].
    destruct Hg as (_ & Hp & _); rewrite Hp; apply elem_of_app; left; exact Hx. }
  destruct (upload_segments version answer cancelled rm n1 s1 listed) as [[s2 acc2] ok2] eqn:E; injection Hres as <- <- <-.
  destruct (IH _ _ _ _ _ E) as ((gone2 & Hg2 & Hgone2) & Ha2); [eapply keys_NoDup_sublist; [exact Hsub|exact Hn]|].
  split; [|intros b Hb; apply elem_of_app in Hb as [Hb|Hb]; auto].
  exists (gone ++ gone2); split; [eapply only_removed_trans; eassumption|]; apply Forall_app_2.
  - eapply List.Forall_impl; [|exact Hgone]; intros x (bs' & Hb & Hd); exists bs'; split; [exact Hb|set_solver].
  - eapply List.Forall_impl; [|exact Hgone2]; intros x (bs' & Hb & Hd); exists bs'; split; [exact Hb|set_solver].
Qed.

(** A segment that is refused does not hold up the others. *)
Lemma upload_segments_clears cancelled rm listed : (forall m b, uploadBatch b (answer m b) <> Undelivered) -> (forall m, cancelled m = false) ->
  (forall id, fw_rm (rm id) id = true) -> forall n s s' acc ok x bs, upload_segments version answer cancelled rm n s listed = (s', acc, ok) ->
  NoDup (map fst (sp_segments s)) -> x ∈ sp_segments s -> fst x ∈ map fst listed -> validSegmentID (fst x) = true ->
  batches_of x = Some bs -> (forall m b, b ∈ bs -> uploadBatch b (answer m b) = Accepted) -> x ∉ sp_segments s'.
Proof.
  intros Hup Hgo Hrm; induction listed as [|[id z] listed IH]; intros n s s' acc ok [xid xd] bs; cbn [upload_segments].
  { intros _ _ _ Hin; apply elem_of_nil in Hin; contradiction. }
  rewrite Hgo; intros Hres Hn Hx Hin Hv Hb Htake; cbn [fst] in *.
  assert (Read s xid = Some xd) as Hread.
  { unfold Read; rewrite Hv; destruct (find_segment xid (sp_segments s)) as [d|] eqn:Ef.
    - apply find_segment_in in Ef; f_equal; eapply NoDup_fst_inj; eassumption.
    - apply find_segment_None in Ef; exfalso; apply Ef, list_elem_of_fmap; exists (xid, xd); auto. }
  destruct (decide (id = xid)) as [->|Hne].
  - rewrite Hread in Hres; cbn [option_bind mbind] in Hres; unfold batches_of in Hb; cbn [fst snd] in Hb; rewrite Hb in Hres.
    destruct (upload_batches answer n bs) as [[[n1 acc1] all] go] eqn:Eu; destruct (upload_batches_inv _ _ _ _ _ _ Eu) as (_ & _ & H3 & H4).
    rewrite (H3 Hup), (H4 Htake) in Hres; cbn [negb] in Hres; destruct (Remove s xid (rm xid)) as [s1 ok1] eqn:E1.
    destruct (upload_segments version answer cancelled rm n1 s1 listed) as [[s2 acc2] ok2] eqn:E; injection Hres as <- _ _.
    destruct (upload_segments_inv _ _ _ _ _ _ _ _ E) as ((gone & (_ & Hp & _) & _) & _).
    + eapply keys_NoDup_sublist; [pose proof (remove_sublist s xid (rm xid)) as Hs; rewrite E1 in Hs; exact Hs|exact Hn].
    + intros Hc; assert ((xid, xd) ∈ sp_segments s1) as Hc' by (rewrite Hp; apply elem_of_app; auto); clear Hc; rename Hc' into Hc; unfold Remove in E1; rewrite Hv, Hrm in E1; cbn [negb] in E1; rewrite partition_as_filter in E1; injection E1 as <- _; cbn in Hc.
      apply list_elem_of_In, List.filter_In in Hc as [_ Hc]; rewrite bool_decide_eq_true_2 in Hc by reflexivity; discriminate.
  - assert (xid ∈ map fst listed) as Hin' by (apply elem_of_cons in Hin as [Hq|Hq]; [cbn in Hq; congruence|exact Hq]).
    destruct (Read s id ≫= _) as [bs'|] eqn:Er.
    2:{ destruct (upload_segments version answer cancelled rm n s listed) as [[s1 acc1] ok1] eqn:E; injection Hres as <- _ _; eapply IH; try eassumption. }
    destruct (upload_batches answer n bs') as [[[n1 acc1] all] go] eqn:Eu; destruct (upload_batches_inv _ _ _ _ _ _ Eu) as (_ & _ & H3 & _).
    rewrite (H3 Hup) in Hres; cbn [negb] in Hres; destruct (if all then Remove s id (rm id) else (s, false)) as [s1 ok1] eqn:E1.
    assert ((xid, xd) ∈ sp_segments s1 /\ NoDup (map fst (sp_segments s1))) as [Hx1 Hn1].
    { destruct all; [|injection E1 as <- _; auto]; pose proof (remove_others s id (rm id) (xid, xd) Hx (not_eq_sym Hne)) as Ho; pose proof (remove_sublist s id (rm id)) as Hs; rewrite E1 in Ho, Hs.
      split; [exact Ho|]; eapply keys_NoDup_sublist; [exact Hs|exact Hn]. }
    destruct (upload_segments version answer cancelled rm n1 s1 listed) as [[s2 acc2] ok2] eqn:E; injection Hres as <- _ _; eapply IH; try eassumption.
Qed.
End UploadProof.

Section UploadTheorem.
Context `{Wire}.

(** The back-off of the HTTP forwarder stays within its bounds. *)
Lemma http_delays_bounded flush retry results : forall backoff, 0 < flush -> 0 < retry <= maxBackoff -> 0 < backoff <= maxBackoff ->
  Forall (fun d => d = flush \/ 0 < d <= maxBackoff) (http_delays flush retry backoff results).
Proof.
  induction results as [|ok results IH]; intros backoff Hf Hr Hb; cbn [http_delays]; [constructor|].
  unfold http_next, maxBackoff, Second in *; destruct ok; cbv iota zeta; constructor; auto; apply IH; auto; lia.
Qed.

(** A pass over the HTTPS collector, whatever it answers.  A segment is removed only
    when every request made of it was answered with a receipt that names it and says
    that it is stored; nothing else of the spool changes but what sealing changes.
    And while the collector answers, a request it refuses holds up only its own
    segment: every segment whose requests are accepted leaves in the same pass. *)
Theorem http_pass (version : text) (answer : nat -> bridgeBatch -> http_answer) (cancelled : nat -> bool)
    (wseal : fs_world) (list_ok : bool) (rm : seg_id -> fs_world) (s s' : SegmentSpool) (acc : list bridgeBatch) (ok : bool)
    (Hs : spool_ok s) (Hu : http_upload version answer cancelled wseal list_ok rm s = (s', acc, ok)) :
  let s1 := (sealLocked s wseal).1 in
  (exists gone, only_removed s1 s' gone /\ Forall (delivered version acc) gone) /\
  (forall b, b ∈ acc -> exists m, receipted b (answer m b)) /\
  ((sealLocked s wseal).2 = true -> list_ok = true -> (forall m b, uploadBatch b (answer m b) <> Undelivered) ->
   (forall m, cancelled m = false) -> (forall id, fw_rm (rm id) id = true) ->
   forall x bs, x ∈ sp_segments s1 -> validSegmentID (fst x) = true ->
     batches_of version x = Some bs -> (forall m b, b ∈ bs -> uploadBatch b (answer m b) = Accepted) -> x ∉ sp_segments s').
Proof.
  cbv zeta; unfold http_upload in Hu; destruct (sealLocked s wseal) as [s1 sealed] eqn:E; destruct (seal_ok _ _ _ _ Hs E) as (H1 & _).
  apply so_sorted, keys_sorted_NoDup in H1; cbn [fst snd].
  destruct (negb sealed || negb list_ok) eqn:Eg.
  - injection Hu as <- <- <-; split_and!; [exists []; split; [apply only_removed_none|constructor]|set_solver|intros -> ->; discriminate].
  - destruct (upload_segments_inv _ _ _ _ _ _ _ _ _ _ Hu H1) as (Ha & Hb); split_and!; auto.
    intros _ _ Hup Hgo Hrm x bs Hx Hv Hbs Htake; assert (fst x ∈ map fst (Pending s1)) as Hin.
    { unfold Pending; rewrite map_map; apply list_elem_of_fmap; exists x; auto. }
    eapply upload_segments_clears; eassumption.
Qed.
End UploadTheorem.

(** ** Concrete runs *)



#[local] Instance line_wire : Wire := {|
  decode_line l := Some (MkWireEvent 2 0 [] (str "s1") [] [] (str "agent") (str "provider_output") (str "output") 1 [] [] []
                           (if is_bytes l then l else []) 5 0 [] [] 0 None None None);
  sha256 _ := replicate 64 97%Z;
  format_time _ := epoch;
  parse_created _ := None;
|}.

(** The collector refuses the requests of the segment "1" and takes the others. *)
Definition refuses_first (n : nat) (b : bridgeBatch) : http_answer :=
  if Nat.eqb n 0 then Answer 422 None else Answer 200 (Some (MkReceipt (bb_ID b) (str "accepted") (str "s3") (str "k"))).

Lemma http_pass_witness :
  spool_ok two_segments /\
  match http_upload (str "dev") refuses_first (fun _ => false) (fs_fine []) true (fun _ => fs_fine []) two_segments with
  | (s, acc, ok) => map fst (sp_segments s) = [[49]] /\ map fst (sp_removed s) = [[50]] /\ ok = false /\
      exists gone, only_removed (sealLocked two_segments (fs_fine [])).1 s gone /\ Forall (delivered (str "dev") acc) gone
  end.
Proof.
  assert (spool_ok two_segments) as Hok by (constructor; [cbn; lia|cbn; repeat constructor|vm_compute; discriminate|repeat constructor; vm_compute; discriminate]).
  split; [exact Hok|].
  assert (match http_upload (str "dev") refuses_first (fun _ => false) (fs_fine []) true (fun _ => fs_fine []) two_segments with
          | (s, acc, ok) => map fst (sp_segments s) = [[49]] /\ map fst (sp_removed s) = [[50]] /\ ok = false end) as Hshape by (vm_compute; auto).
  destruct (http_upload (str "dev") refuses_first (fun _ => false) (fs_fine []) true (fun _ => fs_fine []) two_segments) as [[s acc] ok] eqn:E.
  destruct Hshape as (H1 & H2 & H3); split_and!; auto.
  apply (http_pass (str "dev") refuses_first (fun _ => false) (fs_fine []) true (fun _ => fs_fine []) two_segments s acc ok Hok E).
Defined.
