(* ===== verification/Regexp.v ===== *)
(** * Regular expressions: what the code uses of Go's regexp package

    Go matches leftmost-first: the leftmost start, and there the match that a
    backtracking search with the priorities of the expression finds first.  [walk] is
    that search; [matches] says what an expression matches without priorities, and
    [walk_sound] and [walk_complete] relate the two.  Texts are byte lists, read rune by
    rune as Go does (a byte that is not UTF-8 is the replacement rune of width one).

    No expression of the program has a group that matches the empty text under a
    repetition; an iteration that consumes nothing is not tried. *)

From S2P Require Import Prelude GoStd Utf8.

(** ** Expressions *)

(** [Grp]: the first capturing group. *)
Inductive regex :=
| Eps
| Cls (f : Z -> bool)
| WordBoundary
| AtBegin
| AtEnd
| Seq (a b : regex)
| Alt (a b : regex)
| Star (greedy : bool) (a : regex)
| Grp (a : regex).

Definition Lit (s : list Z) : regex := foldr (fun c r => Seq (Cls (Z.eqb c)) r) Eps s.
Definition Opt (a : regex) : regex := Alt a Eps.
Definition Plus (a : regex) : regex := Seq a (Star true a).
Fixpoint Times (n : nat) (a : regex) : regex := match n with O => Eps | Datatypes.S n => Seq a (Times n a) end.
Definition AtLeast (n : nat) (a : regex) : regex := Seq (Times n a) (Star true a).
Fixpoint Alts (a : regex) (l : list regex) : regex := match l with [] => a | b :: l => Alt a (Alts b l) end.
Fixpoint Seqs (l : list regex) : regex := match l with [] => Eps | [a] => a | a :: l => Seq a (Seqs l) end.

(** ** Classes *)

Definition blank_char (c : Z) : bool := (c =? 9) || (c =? 10) || (c =? 12) || (c =? 13) || (c =? 32).
Definition word_char (c : Z) : bool := alnum c || (c =? 95).
Definition one_of (l : list Z) (c : Z) : bool := existsb (Z.eqb c) l.
Definition any_rune (c : Z) : bool := true.

(** Simple folding of the ASCII letters: two letters have a third form, the long s
    and the Kelvin sign. *)
Definition fold_rune (c : Z) : Z :=
  if in_range 65 90 c then c + 32 else if c =? 383 then 115 else if c =? 8490 then 107 else c.

(** A class under [(?i)]; [f] is given for lower-case letters and other runes. *)
Definition nocase (f : Z -> bool) (c : Z) : bool := f (fold_rune c).
Definition LitI (s : list Z) : regex := foldr (fun c r => Seq (Cls (nocase (Z.eqb c))) r) Eps s.

(** ** Positions: the rune before, and the text from there on *)

Record pos := MkPos { before_rune : option Z; rest : list Z }.

#[export] Instance pos_eq_dec : EqDecision pos.
Proof. solve_decision. Defined.

Definition start_of (s : list Z) : pos := MkPos None s.

Definition next_rune (p : pos) : option Z := match rest p with [] => None | s => Some (DecodeRune s).1 end.

Definition advance (p : pos) : option pos :=
  match rest p with
  | [] => None
  | s => Some (MkPos (Some (DecodeRune s).1) (drop (DecodeRune s).2 s))
  end.

Definition read (f : Z -> bool) (p : pos) : option pos :=
  match next_rune p with Some r => if f r then advance p else None | None => None end.

Definition is_word (r : option Z) : bool := match r with Some c => word_char c | None => false end.

Definition at_boundary (p : pos) : bool := xorb (is_word (before_rune p)) (is_word (next_rune p)).

(** [q] is further on than [p]. *)
Definition shorter (q p : pos) : bool := (length (rest q) <? length (rest p))%nat.

(** ** Matching *)

(** The text from the start and from the end of the first group. *)
Abbreviation capture := (option (list Z * list Z)).

Fixpoint walk (r : regex) (p : pos) (c : capture) (k : pos -> capture -> option (pos * capture)) : option (pos * capture) :=
  match r with
  | Eps => k p c
  | Cls f => match read f p with Some q => k q c | None => None end
  | WordBoundary => if at_boundary p then k p c else None
  | AtBegin => match before_rune p with None => k p c | Some _ => None end
  | AtEnd => match rest p with [] => k p c | _ => None end
  | Seq a b => walk a p c (fun q c => walk b q c k)
  | Alt a b => match walk a p c k with Some res => Some res | None => walk b p c k end
  | Star greedy a =>
      (fix loop (n : nat) (p : pos) (c : capture) : option (pos * capture) :=
         match n with
         | O => k p c
         | Datatypes.S n =>
             if greedy then
               match walk a p c (fun q c => if shorter q p then loop n q c else None) with Some res => Some res | None => k p c end
             else
               match k p c with Some res => Some res | None => walk a p c (fun q c => if shorter q p then loop n q c else None) end
         end) (length (rest p)) p c
  | Grp a => walk a p c (fun q _ => k q (Some (rest p, rest q)))
  end.

Definition match_at (r : regex) (p : pos) : option (pos * capture) := walk r p None (fun q c => Some (q, c)).

(** The leftmost match from [p] on: where it starts, where it ends, the group. *)
Fixpoint search_from (n : nat) (r : regex) (p : pos) : option (pos * pos * capture) :=
  match match_at r p with
  | Some (q, c) => Some (p, q, c)
  | None =>
      match n, advance p with
      | Datatypes.S n, Some p => search_from n r p
      | _, _ => None
      end
  end.

Definition search (r : regex) (p : pos) : option (pos * pos * capture) := search_from (length (rest p)) r p.

Definition MatchString (r : regex) (s : list Z) : bool := match search r (start_of s) with Some _ => true | None => false end.

(** [FindAllIndex]: the successive matches; an empty one right after a match is not
    one.  [last]: what was left after the previous match. *)
Fixpoint all_from (n : nat) (r : regex) (last : option nat) (p : pos) : list (pos * pos) :=
  match n, search r p with
  | Datatypes.S n, Some (a, b, _) =>
      if (length (rest b) =? length (rest p))%nat then
        let more := match advance p with Some p' => all_from n r (Some (length (rest b))) p' | None => [] end in
        if bool_decide (last = Some (length (rest a))) then more else (a, b) :: more
      else (a, b) :: all_from n r (Some (length (rest b))) b
  | _, _ => []
  end.

Definition all_matches (r : regex) (s : list Z) : list (pos * pos) := all_from (Datatypes.S (length s)) r None (start_of s).

(** The same as indices. *)
Definition FindAllIndex (r : regex) (s : list Z) : list (nat * nat) :=
  map (fun '(a, b) => (length s - length (rest a), length s - length (rest b))%nat) (all_matches r s).

(** The bytes from where [s] is left to where [t] is. *)
Definition until (s t : list Z) : list Z := take (length s - length t) s.

(** [ReplaceAllString], with the replacement a function of the first group; [last]:
    the text after the previous match. *)
Fixpoint replace_from (n : nat) (r : regex) (repl : list Z -> list Z) (last : list Z) (p : pos) : list Z :=
  match n, search r p with
  | Datatypes.S n, Some (a, b, c) =>
      let new := if (length (rest b) <? length last)%nat || match before_rune a with None => true | _ => false end
                 then repl (match c with Some (x, y) => until x y | None => [] end) else [] in
      until last (rest a) ++ new ++
      (if (length (rest b) =? length (rest p))%nat then
         match advance p with Some p' => replace_from n r repl (rest b) p' | None => rest b end
       else replace_from n r repl (rest b) b)
  | _, _ => last
  end.

Definition ReplaceAllString (r : regex) (repl : list Z -> list Z) (s : list Z) : list Z :=
  replace_from (Datatypes.S (length s)) r repl s (start_of s).

(** ** What an expression matches *)

(** From one position to a later one. *)
Abbreviation onward := (rtc (fun p q => advance p = Some q)).

Inductive matches : regex -> pos -> pos -> Prop :=
| M_Eps p : matches Eps p p
| M_Cls f p q : read f p = Some q -> matches (Cls f) p q
| M_Word p : at_boundary p = true -> matches WordBoundary p p
| M_Begin p : before_rune p = None -> matches AtBegin p p
| M_End p : rest p = [] -> matches AtEnd p p
| M_Seq a b p q u : matches a p q -> matches b q u -> matches (Seq a b) p u
| M_AltL a b p q : matches a p q -> matches (Alt a b) p q
| M_AltR a b p q : matches b p q -> matches (Alt a b) p q
| M_Stop g a p : matches (Star g a) p p
| M_More g a p q u : matches a p q -> matches (Star g a) q u -> matches (Star g a) p u
| M_Grp a p q : matches a p q -> matches (Grp a) p q.

Create HintDb regexp.
#[export] Hint Constructors matches : regexp.

#[local] Opaque DecodeRune.

Lemma advance_shorter p q : advance p = Some q -> (length (rest q) < length (rest p))%nat.
Proof.
  unfold advance; destruct (rest p) as [|c s] eqn:E; [discriminate|]; intros [= <-]; cbn [rest]; rewrite length_drop.
  pose proof (DecodeRune_width (c :: s) ltac:(discriminate)); lia.
Qed.

Lemma advance_suffix p q : advance p = Some q -> exists w, rest p = w ++ rest q.
Proof.
  unfold advance; destruct (rest p) as [|c s] eqn:E; [discriminate|]; intros [= <-]; exists (take (DecodeRune (c :: s)).2 (c :: s)).
  symmetry; apply take_drop.
Qed.

Lemma read_advance f p q : read f p = Some q -> advance p = Some q.
Proof. unfold read; destruct (next_rune p) as [r|]; [|discriminate]; destruct (f r); [auto|discriminate]. Qed.

Lemma onward_length p q : onward p q -> (length (rest q) <= length (rest p))%nat.
Proof. induction 1 as [|p q u H _ IH]; [lia|]; apply advance_shorter in H; lia. Qed.

Lemma onward_suffix p q : onward p q -> exists w, rest p = w ++ rest q.
Proof.
  induction 1 as [p|p q u H _ [w IH]]; [exists []; reflexivity|]; apply advance_suffix in H as [v H]; exists (v ++ w); rewrite H, IH, app_assoc; reflexivity.
Qed.

Lemma onward_same p q : onward p q -> length (rest q) = length (rest p) -> q = p.
Proof. inversion 1 as [|? u ? H1 H2]; subst; [auto|]; apply advance_shorter in H1; apply onward_length in H2; lia. Qed.

Lemma matches_onward r p q : matches r p q -> onward p q.
Proof.
  induction 1; try reflexivity; try assumption; try (etransitivity; eassumption).
  eapply rtc_once, read_advance; eassumption.
Qed.

(** The loop of a repetition. *)
Definition star_loop (greedy : bool) (a : regex) (k : pos -> capture -> option (pos * capture)) :=
  fix loop (n : nat) (p : pos) (c : capture) : option (pos * capture) :=
    match n with
    | O => k p c
    | Datatypes.S n =>
        if greedy then
          match walk a p c (fun q c => if shorter q p then loop n q c else None) with Some res => Some res | None => k p c end
        else
          match k p c with Some res => Some res | None => walk a p c (fun q c => if shorter q p then loop n q c else None) end
    end.

Lemma walk_star g a p c k : walk (Star g a) p c k = star_loop g a k (length (rest p)) p c.
Proof. reflexivity. Qed.

(** What the search finds, the expression matches. *)
Lemma walk_sound r : forall p c k res, walk r p c k = Some res -> exists q c', matches r p q /\ k q c' = Some res.
Proof.
  induction r as [|f| | | |a IHa b IHb|a IHa b IHb|g a IHa|a IHa]; intros p c k res.
  - cbn [walk]; eauto with regexp.
  - cbn [walk]; destruct (read f p) eqn:E; [|discriminate]; eauto with regexp.
  - cbn [walk]; destruct (at_boundary p) eqn:E; [|discriminate]; eauto with regexp.
  - cbn [walk]; destruct (before_rune p) eqn:E; [discriminate|]; eauto with regexp.
  - cbn [walk]; destruct (rest p) eqn:E; [|discriminate]; eauto with regexp.
  - cbn [walk]; intros H; apply IHa in H as (q & c' & H1 & H2); apply IHb in H2 as (u & c2 & H2 & H3); eauto with regexp.
  - cbn [walk]; destruct (walk a p c k) as [res'|] eqn:E; [intros [= ->]; apply IHa in E as (q & c' & H1 & H2)|intros H; apply IHb in H as (q & c' & H1 & H2)]; eauto with regexp.
  - rewrite walk_star; generalize (length (rest p)); intros n; revert p c; induction n as [|n IHn]; intros p c; cbn [star_loop]; [eauto with regexp|].
    assert (forall c, walk a p c (fun q c => if shorter q p then star_loop g a k n q c else None) = Some res ->
      exists u c', matches (Star g a) p u /\ k u c' = Some res) as Hmore.
    { intros c0 H; apply IHa in H as (u & c' & H1 & H2); destruct (shorter u p); [|discriminate]; apply IHn in H2 as (v & c2 & H2 & H3); eauto with regexp. }
    fold (star_loop g a k); destruct g.
    + destruct (walk a p c _) as [res'|] eqn:E; [intros [= ->]; eapply Hmore, E|eauto with regexp].
    + destruct (k p c) as [res'|] eqn:E; [intros [= ->]; eauto with regexp|intros H; eapply Hmore, H].
  - cbn [walk]; intros H; apply IHa in H as (q & c' & H1 & H2); eauto with regexp.
Qed.

(** A repetition need not repeat the empty text. *)
Inductive repeats (a : regex) : nat -> pos -> pos -> Prop :=
| R_Stop n p : repeats a n p p
| R_More n p q u : matches a p q -> shorter q p = true -> repeats a n q u -> repeats a (Datatypes.S n) p u.

Lemma star_repeats g a p q : matches (Star g a) p q -> repeats a (length (rest p)) p q.
Proof.
  intros H; remember (Star g a) as r eqn:Er; assert (forall n, (length (rest p) <= n)%nat -> repeats a n p q) as Hn; [|apply Hn; lia].
  induction H as [ | | | | | | | |g' a' p|g' a' p q u Ha _ Hs IH|]; try discriminate; injection Er as -> ->; intros n Hle; [constructor|].
  apply matches_onward in Ha as Ho; apply onward_length in Ho as Hl; destruct (decide (length (rest q) = length (rest p))) as [E|E].
  - apply onward_same in E; [|exact Ho]; subst q; apply IH; auto.
  - destruct n as [|n]; [lia|]; econstructor; [exact Ha|unfold shorter; apply Nat.ltb_lt; lia|apply IH; [reflexivity|lia]].
Qed.

(** If the expression matches so that what follows succeeds, the search succeeds. *)
Lemma walk_complete r : forall p q, matches r p q -> forall c k, (forall c, k q c <> None) -> walk r p c k <> None.
Proof.
  induction r as [|f| | | |a IHa b IHb|a IHa b IHb|g a IHa|a IHa]; intros p q H c k Hk.
  - inversion H; subst; apply Hk.
  - inversion H as [|? ? ? E| | | | | | | | |]; subst; cbn [walk]; rewrite E; apply Hk.
  - inversion H as [| |? E| | | | | | | |]; subst; cbn [walk]; rewrite E; apply Hk.
  - inversion H as [| | |? E| | | | | | |]; subst; cbn [walk]; rewrite E; apply Hk.
  - inversion H as [| | | |? E| | | | | |]; subst; cbn [walk]; rewrite E; apply Hk.
  - inversion H; subst; cbn [walk]; eapply IHa; [eassumption|]; intros c'; eapply IHb; eassumption.
  - cbn [walk]; inversion H; subst.
    + destruct (walk a p c k) eqn:E; [discriminate|]; exfalso; eapply IHa; eassumption.
    + destruct (walk a p c k) eqn:E; [discriminate|]; eapply IHb; eassumption.
  - rewrite walk_star; apply star_repeats in H; revert H; generalize (length (rest p)); intros n H; revert c.
    induction H as [n p|n p q u Ha Hs Hr IH]; intros c.
    + destruct n; cbn [star_loop]; [apply Hk|]; destruct g; [destruct (walk a p c _); [discriminate|apply Hk]|destruct (k p c) eqn:E; [discriminate|exfalso; eapply Hk, E]].
    + cbn [star_loop]; fold (star_loop g a k).
      assert (walk a p c (fun q c => if shorter q p then star_loop g a k n q c else None) <> None) as Hw
        by (eapply IHa; [exact Ha|]; intros c'; rewrite Hs; apply IH, Hk).
      destruct g; [destruct (walk a p c _); [discriminate|contradiction]|destruct (k p c); [discriminate|exact Hw]].
  - inversion H; subst; cbn [walk]; eapply IHa; [eassumption|]; intros; apply Hk.
Qed.

Lemma match_at_sound r p q c : match_at r p = Some (q, c) -> matches r p q.
Proof. intros H; apply walk_sound in H as (u & c' & H1 & [= -> ->]); exact H1. Qed.

Lemma match_at_complete r p q : matches r p q -> match_at r p <> None.
Proof. intros H; eapply walk_complete; [exact H|discriminate]. Qed.

(** ** Searching *)

Lemma onward_linear p q u : onward p q -> onward p u -> onward q u \/ onward u q.
Proof.
  intros H; revert u; induction H as [p|p q' q H Hr IH]; intros u Hu; [auto|].
  inversion Hu as [|? u' ? Hu1 Hu2]; subst; [right; eapply rtc_l; eassumption|].
  rewrite H in Hu1; injection Hu1 as <-; apply IH, Hu2.
Qed.

Lemma onward_antisym p q : onward p q -> onward q p -> p = q.
Proof. intros H1 H2; symmetry; apply onward_same; [exact H1|]; apply onward_length in H1, H2; lia. Qed.

(** No match starts from [p] up to before [a]. *)
Definition none_before (r : regex) (p a : pos) : Prop := forall q, onward p q -> onward q a -> q <> a -> match_at r q = None.

Lemma search_from_spec n r p : (length (rest p) <= n)%nat ->
  match search_from n r p with
  | Some (a, b, c) => onward p a /\ match_at r a = Some (b, c) /\ none_before r p a
  | None => forall q, onward p q -> match_at r q = None
  end.
Proof.
  revert p; induction n as [|n IH]; intros p Hle; cbn [search_from]; destruct (match_at r p) as [[q c]|] eqn:E.
  1,3: split; [apply rtc_refl|split; [exact E|]]; intros u Hu1 Hu2 Hne; destruct Hne; apply onward_antisym; assumption.
  - intros q Hq; inversion Hq as [|? u ? Hu _]; subst; [exact E|]; apply advance_shorter in Hu; lia.
  - destruct (advance p) as [p'|] eqn:Ea.
    + apply advance_shorter in Ea as Hs; specialize (IH p' ltac:(lia)); destruct (search_from n r p') as [[[a b] c]|].
      * destruct IH as (H1 & H2 & H3); split_and!; [econstructor; eassumption|exact H2|].
        intros q Hq Hqa Hne; inversion Hq as [|? u ? Hu Hu2]; subst; [exact E|]; rewrite Ea in Hu; injection Hu as <-; apply H3; assumption.
      * intros q Hq; inversion Hq as [|? u ? Hu Hu2]; subst; [exact E|]; rewrite Ea in Hu; injection Hu as <-; apply IH; assumption.
    + intros q Hq; inversion Hq as [|? u ? Hu _]; subst; [exact E|congruence].
Qed.

Lemma search_spec r p :
  match search r p with
  | Some (a, b, c) => onward p a /\ match_at r a = Some (b, c) /\ none_before r p a
  | None => forall q, onward p q -> match_at r q = None
  end.
Proof. apply search_from_spec; reflexivity. Qed.

(** Expressions that match no empty text. *)
Fixpoint consumes (r : regex) : bool :=
  match r with
  | Cls _ => true
  | Seq a b => consumes a || consumes b
  | Alt a b => consumes a && consumes b
  | Grp a => consumes a
  | _ => false
  end.

Lemma consumes_shorter r p q : consumes r = true -> matches r p q -> (length (rest q) < length (rest p))%nat.
Proof.
  revert p q; induction r as [|f| | | |a IHa b IHb|a IHa b IHb|g a IHa|a IHa]; intros p q; cbn [consumes]; try discriminate.
  - intros _ H; inversion H; subst; eapply advance_shorter, read_advance; eassumption.
  - intros Hc H; inversion H as [| | | | |? ? ? u ? H1 H2| | | | |]; subst; apply matches_onward in H1 as L1, H2 as L2; apply onward_length in L1, L2.
    apply orb_prop in Hc as [Hc|Hc]; [specialize (IHa _ _ Hc H1)|specialize (IHb _ _ Hc H2)]; lia.
  - intros Hc H; apply andb_prop in Hc as [Ha Hb]; inversion H; subst; eauto.
  - intros Hc H; inversion H; subst; eauto.
Qed.

(** ** All matches and their replacement *)

(** The successive leftmost matches from [p] on. *)
Inductive cut_at (r : regex) : pos -> list (pos * pos * capture) -> Prop :=
| C_Stop p : (forall q, onward p q -> match_at r q = None) -> cut_at r p []
| C_More p a b c l : onward p a -> none_before r p a -> match_at r a = Some (b, c) -> cut_at r b l -> cut_at r p ((a, b, c) :: l).

(** The text with the matches replaced. *)
Fixpoint render (repl : list Z -> list Z) (s : list Z) (l : list (pos * pos * capture)) : list Z :=
  match l with
  | [] => s
  | (a, b, c) :: l => until s (rest a) ++ repl (match c with Some (x, y) => until x y | None => [] end) ++ render repl (rest b) l
  end.

Lemma cuts_from n r repl p last : consumes r = true -> (length (rest p) < n)%nat ->
  exists l, cut_at r p l /\ all_from n r last p = map fst l /\ replace_from n r repl (rest p) p = render repl (rest p) l.
Proof.
  intros Hc; revert p last; induction n as [|n IH]; intros p last Hn; [lia|]; cbn [all_from replace_from].
  pose proof (search_spec r p) as Hs; destruct (search r p) as [[[a b] c]|]; [|exists []; split; [constructor; exact Hs|auto]].
  destruct Hs as (H1 & H2 & H3); pose proof (consumes_shorter _ _ _ Hc (match_at_sound _ _ _ _ H2)) as Hb; apply onward_length in H1 as Ha.
  destruct (IH b (Some (length (rest b))) ltac:(lia)) as (l & L1 & L2 & L3); exists ((a, b, c) :: l).
  rewrite (proj2 (Nat.eqb_neq _ _)) by lia; rewrite (proj2 (Nat.ltb_lt _ _)) by lia; cbn [orb map fst render]; rewrite L2, L3; split; [exact (C_More r p a b c l H1 H3 H2 L1)|auto].
Qed.

Lemma replace_cuts r repl s : consumes r = true ->
  exists l, cut_at r (start_of s) l /\ all_matches r s = map fst l /\ ReplaceAllString r repl s = render repl s l.
Proof. intros Hc; apply (cuts_from (Datatypes.S (length s)) r repl (start_of s) None Hc); cbn; lia. Qed.

(** Wherever the expression matches, the place is within one of the matches found. *)
Lemma cut_covers r p l q : cut_at r p l -> onward p q -> match_at r q <> None ->
  exists a b c, (a, b, c) ∈ l /\ onward a q /\ (q = a \/ length (rest b) < length (rest q))%nat.
Proof.
  intros H; induction H as [p Hn|p a b c l Ho Hb Hm _ IH]; intros Hq Hqm; [rewrite Hn in Hqm by exact Hq; contradiction|].
  assert (onward a b) as Hab by (eapply matches_onward, match_at_sound, Hm).
  assert (onward b q -> exists x y z, (x, y, z) ∈ (a, b, c) :: l /\ onward x q /\ (q = x \/ length (rest y) < length (rest q))%nat) as Hlater.
  { intros Hbq; destruct (IH Hbq Hqm) as (x & y & z & H1 & H2); exists x, y, z; split; [apply elem_of_cons; auto|exact H2]. }
  assert (onward a q -> exists x y z, (x, y, z) ∈ (a, b, c) :: l /\ onward x q /\ (q = x \/ length (rest y) < length (rest q))%nat) as Hfrom.
  { intros Haq; destruct (onward_linear _ _ _ Hab Haq) as [H|H]; [apply Hlater, H|].
    destruct (decide (length (rest b) = length (rest q))) as [E|E]; [apply onward_same in H; [|exact E]; subst b; apply Hlater; reflexivity|].
    exists a, b, c; split; [apply elem_of_cons; auto|]; split; [exact Haq|]; right; apply onward_length in H; lia. }
  destruct (onward_linear _ _ _ Ho Hq) as [H|H]; [apply Hfrom, H|].
  destruct (decide (q = a)) as [->|Hne]; [apply Hfrom; reflexivity|]; rewrite (Hb q Hq H Hne) in Hqm; contradiction.
Qed.

(** The matches lie one after the other in the text. *)
Lemma cut_ordered r p l : cut_at r p l -> Forall (fun m => onward p m.1.1 /\ onward m.1.1 m.1.2) l.
Proof.
  induction 1 as [|p a b c l Ho _ Hm _ IH]; constructor; cbn.
  - split; [exact Ho|eapply matches_onward, match_at_sound, Hm].
  - eapply List.Forall_impl; [|exact IH]; intros m [H1 H2]; split; [|exact H2]; etransitivity; [exact Ho|]; etransitivity; [eapply matches_onward, match_at_sound, Hm|exact H1].
Qed.

(** A text in which nothing matches is left as it is. *)
Lemma replace_nothing r repl s : consumes r = true -> MatchString r s = false -> ReplaceAllString r repl s = s.
Proof.
  intros Hc Hm; destruct (replace_cuts r repl s Hc) as (l & Hl & _ & ->); inversion Hl as [|p a b c l' Ho _ Hat _]; subst; [reflexivity|].
  unfold MatchString in Hm; pose proof (search_spec r (start_of s)) as Hs; destruct (search r (start_of s)) as [[[? ?] ?]|]; [discriminate|]; rewrite (Hs a Ho) in Hat; discriminate.
Qed.
