(* ===== verification/Redact.v ===== *)
(** * Redaction: the expressions and [DefaultRedactor] of internal/telemetry/questions.go,
    the frame boundaries of live.go, and internal/redact/redactor.go

    Texts are byte lists; the expressions are those of the source, written with the
    constructors of Regexp. *)

From S2P Require Import Prelude GoStd Utf8 Regexp.

Definition ascii (s : string) : list Z := chars s.

(** ** The expressions *)

Definition blanks : regex := Star true (Cls blank_char).
Definition dash : Z -> bool := one_of [95; 45].
Definition any : regex := Star false (Cls any_rune).
Definition upper_or_space (c : Z) : bool := in_range 65 90 c || (c =? 32).

Definition ansiRE : regex :=
  Seq (Cls (Z.eqb 27))
    (Alts (Seqs [Cls (Z.eqb 93); Star false (Cls (fun c => negb (c =? 7))); Alts (Lit [27; 92]) [Cls (Z.eqb 7); AtEnd]])
       [Seqs [Cls (one_of [80; 88; 94; 95]); any; Alt (Lit [27; 92]) AtEnd];
        Seqs [Cls (Z.eqb 91); Star true (Cls (in_range 48 63)); Star true (Cls (in_range 32 47)); Cls (in_range 64 126)];
        Cls (in_range 64 95)]).

(** Under [(?i)]. *)
Definition secretKeyPattern : regex :=
  Seq (Star true (Seq (Plus (Cls (nocase (fun c => in_range 97 122 c || in_range 48 57 c)))) (Cls dash)))
    (Alts (Seqs [LitI (ascii "api"); Opt (Cls dash); LitI (ascii "key")])
       [LitI (ascii "token"); LitI (ascii "password");
        Seq (LitI (ascii "secret")) (Opt (Seqs [Cls dash; LitI (ascii "access"); Cls dash; LitI (ascii "key")]));
        LitI (ascii "authorization")]).

Definition assigned : regex :=
  Seqs [WordBoundary; secretKeyPattern; Opt (Cls (Z.eqb 34)); blanks; Cls (one_of [58; 61]); blanks].

Definition quotedSecretRE : regex :=
  Seq (Grp (Seq assigned (Cls (Z.eqb 34))))
    (Star true (Alt (Seq (Cls (Z.eqb 92)) (Cls (fun c => negb (c =? 10)))) (Cls (fun c => negb (one_of [34; 92] c))))).

Definition secretRE : regex :=
  Seq (Grp (Seqs [assigned; Opt (Cls (Z.eqb 34)); Opt (Seq (LitI (ascii "bearer")) (Plus (Cls blank_char)))]))
    (Alt (Seqs [LitI (ascii "[redacted:"); Plus (Cls (nocase (fun c => in_range 97 122 c || (c =? 95)))); Cls (Z.eqb 93)])
         (Plus (Cls (fun c => negb (blank_char c || one_of [34; 44; 125; 93] c))))).

Definition bearerRE : regex :=
  Seqs [WordBoundary; LitI (ascii "bearer"); Plus (Cls blank_char); Plus (Cls (fun c => negb (blank_char c)))].

Definition credentialValueRE : regex :=
  Seqs [WordBoundary;
        Alts (Seq (Lit (ascii "sk-")) (AtLeast 12 (Cls (fun c => alnum c || dash c))))
          [Seq (Lit (ascii "ghp_")) (AtLeast 12 (Cls alnum));
           Seq (Lit (ascii "github_pat_")) (AtLeast 12 (Cls word_char));
           Seq (Lit (ascii "AKIA")) (Times 16 (Cls (fun c => in_range 65 90 c || in_range 48 57 c)));
           Seqs [Lit (ascii "xox"); Cls (one_of (ascii "baprs")); Lit [45]; AtLeast 10 (Cls (fun c => alnum c || (c =? 45)))]];
        WordBoundary].

Definition privateKeyRE : regex :=
  Seqs [Lit (ascii "-----BEGIN "); Star true (Cls upper_or_space); Lit (ascii "PRIVATE KEY-----"); any;
        Lit (ascii "-----END "); Star true (Cls upper_or_space); Lit (ascii "PRIVATE KEY-----")].

(** ** DefaultRedactor *)

Definition const (s : string) (_ : list Z) : list Z := ascii s.
Definition after_group (s : string) (g : list Z) : list Z := g ++ ascii s.

Definition stages : list (regex * (list Z -> list Z)) :=
  [(ansiRE, const ""); (privateKeyRE, const "[REDACTED:PRIVATE_KEY]"); (bearerRE, const "Bearer [REDACTED:TOKEN]");
   (credentialValueRE, const "[REDACTED:TOKEN]"); (quotedSecretRE, after_group "[REDACTED:SECRET]"); (secretRE, after_group "[REDACTED:SECRET]")].

Definition DefaultRedactor (text : list Z) : list Z := fold_left (fun t '(r, repl) => ReplaceAllString r repl t) stages text.

(** ** redactor.go: the patterns of the configuration, applied to log text *)

Definition Redact (patterns : list regex) (text : list Z) : list Z :=
  match text with
  | [] => []
  | _ => fold_left (fun t r => ReplaceAllString r (const "[REDACTED]") t) patterns text
  end.

(** ** Frame boundaries (live.go) *)

Definition frameWordsRE : regex := Plus (Cls (fun c => negb (blank_char c))).
Definition framePendingSecretRE : regex :=
  Seqs [WordBoundary; secretKeyPattern; Opt (Cls (Z.eqb 34)); blanks;
        Opt (Seqs [Cls (one_of [58; 61]); blanks; Opt (Alt (Cls (Z.eqb 34)) (Seq (LitI (ascii "bearer")) blanks))]); AtEnd].
Definition framePrivateStartRE : regex := Seq (Lit (ascii "-----BEGIN ")) (Star true (Cls upper_or_space)).

Definition FindIndex (r : regex) (s : list Z) : option (nat * nat) :=
  match search r (start_of s) with
  | Some (a, b, _) => Some (length s - length (rest a), length s - length (rest b))%nat
  | None => None
  end.

(** The text without escape sequences, each byte with its offset. *)
Fixpoint kept (fuel i : nat) (raw : list Z) (escapes : list (nat * nat)) : list (Z * nat) :=
  match fuel, raw !! i with
  | Datatypes.S fuel, Some c =>
      match escapes with
      | (a, b) :: more => if (i =? a)%nat then kept fuel b raw more else (c, i) :: kept fuel (Datatypes.S i) raw escapes
      | [] => (c, i) :: kept fuel (Datatypes.S i) raw []
      end
  | _, _ => []
  end.

Definition strip (raw : list Z) : list (Z * nat) := kept (length raw) 0 raw (FindAllIndex ansiRE raw).

(** A secret whose value may still come. *)
Definition cut_pending (text : list Z) (cut : nat) : nat :=
  match FindIndex framePendingSecretRE text with
  | Some (p, _) => if (p <? cut)%nat then p else cut
  | None => cut
  end.

(** A private key that is not complete. *)
Definition key_complete (text : list Z) (start : nat) : bool :=
  match FindIndex privateKeyRE (drop start text) with Some (O, _) => true | _ => false end.

Definition cut_keys (text : list Z) (cut : nat) : nat :=
  fold_left (fun cut '(start, _) => if negb (key_complete text start) && (start <? cut)%nat then start else cut)
    (FindAllIndex framePrivateStartRE text) cut.

(** One round of the last loop. *)
Definition credentials : list regex := [privateKeyRE; bearerRE; credentialValueRE; quotedSecretRE; secretRE].

Definition cut_match (cut : nat) (m : nat * nat) : nat := if (m.1 <? cut)%nat && (cut <? m.2)%nat then m.1 else cut.

Definition cut_round (text : list Z) (cut : nat) : nat :=
  fold_left (fun cut r => fold_left cut_match (FindAllIndex r text) cut) credentials cut.

Fixpoint cut_rounds (fuel : nat) (text : list Z) (cut : nat) : nat :=
  match fuel with
  | O => cut
  | Datatypes.S fuel => let cut' := cut_round text cut in if (cut' =? cut)%nat then cut else cut_rounds fuel text cut'
  end.

(** Where the text may be cut; zero when nowhere. *)
Definition frame_cut (text : list Z) : nat :=
  let words := FindAllIndex frameWordsRE text in
  match words !! (length words - 2)%nat with
  | Some (cut, _) =>
      if (length words <? 3)%nat then O
      else let cut := cut_keys text (cut_pending text cut) in cut_rounds (Datatypes.S cut) text cut
  | None => O
  end.

Definition safeFrameBoundary (raw : list Z) : nat :=
  if negb (ValidString raw) then length raw
  else
    let k := strip raw in
    match frame_cut (map fst k) with
    | O => O
    | cut => match k !! cut with Some (_, i) => i | None => O end
    end.


(** ** What redaction does *)

(** One expression: the successive leftmost matches are replaced, nothing else
    changes, and wherever the expression matches, the place is within one of them. *)
Definition replaced (r : regex) (repl : list Z -> list Z) (t t' : list Z) : Prop :=
  exists l, cut_at r (start_of t) l /\ t' = render repl t l /\
    forall q u, onward (start_of t) q -> matches r q u ->
      exists a b c, (a, b, c) ∈ l /\ onward a q /\ (q = a \/ length (rest b) < length (rest q))%nat.

Fixpoint all_replaced (st : list (regex * (list Z -> list Z))) (t t' : list Z) : Prop :=
  match st with
  | [] => t' = t
  | (r, repl) :: st => exists t1, replaced r repl t t1 /\ all_replaced st t1 t'
  end.

Lemma replace_replaced r repl t : consumes r = true -> replaced r repl t (ReplaceAllString r repl t).
Proof.
  intros Hc; destruct (replace_cuts r repl t Hc) as (l & Hl & _ & Hr); exists l; split_and!; auto.
  intros q u Hq Hm; eapply cut_covers; [exact Hl|exact Hq|eapply match_at_complete, Hm].
Qed.

Lemma fold_replaced st t : Forall (fun s => consumes s.1 = true) st ->
  all_replaced st t (fold_left (fun t '(r, repl) => ReplaceAllString r repl t) st t).
Proof.
  intros H; revert t; induction H as [|[r repl] st Hc _ IH]; intros t; cbn [all_replaced fold_left]; [reflexivity|].
  exists (ReplaceAllString r repl t); split; [apply replace_replaced, Hc|apply IH].
Qed.

Lemma fold_untouched st t : Forall (fun s => consumes s.1 = true) st -> Forall (fun s => MatchString s.1 t = false) st ->
  fold_left (fun t '(r, repl) => ReplaceAllString r repl t) st t = t.
Proof.
  intros H; revert t; induction H as [|[r repl] st Hc _ IH]; intros t Hm; cbn [fold_left]; [reflexivity|].
  inversion Hm as [|? ? H1 H2]; subst; rewrite replace_nothing by assumption; apply IH, H2.
Qed.

Lemma stages_consume : Forall (fun s => consumes s.1 = true) stages.
Proof. repeat constructor. Qed.

(** The redactor applies six expressions in turn: escape sequences, private keys,
    bearer tokens, known credential shapes, quoted and plain secrets.  In the text
    each of them sees, every place where it matches, by whatever reading of the
    expression, lies in a part that is replaced, and the rest is kept byte for byte;
    a text in which none of them matches is left alone. *)
Theorem redaction_covers (text : list Z) :
  all_replaced stages text (DefaultRedactor text) /\
  (Forall (fun s => MatchString s.1 text = false) stages -> DefaultRedactor text = text).
Proof. split; [apply fold_replaced, stages_consume|apply fold_untouched, stages_consume]. Qed.

Lemma redaction_covers_witness : DefaultRedactor (ascii "all done") = ascii "all done".
Proof. apply (redaction_covers (ascii "all done")); repeat constructor. Defined.

(** Redaction is not idempotent: an escape character before an escape sequence is left
    over and can begin a new one.  This is what some terminals send for Alt and a
    cursor key, here followed by a letter. *)
Example redacting_again_changes :
  DefaultRedactor [27; 27; 91; 65; 65] = [27; 65] /\ DefaultRedactor [27; 65] = [].
Proof. split; vm_compute; reflexivity. Qed.

(** ** Where a frame is cut *)

Lemma FindAllIndex_bounds r s : consumes r = true -> Forall (fun m => m.1 < m.2 <= length s)%nat (FindAllIndex r s).
Proof.
  intros Hc; destruct (replace_cuts r (fun _ => []) s Hc) as (l & Hl & Ha & _); unfold FindAllIndex; rewrite Ha; clear Ha.
  assert (Forall (fun m => length (rest m.1.2) < length (rest m.1.1) <= length s)%nat l) as H.
  { change s with (rest (start_of s)) at 1; remember (start_of s) as p eqn:Ep; clear Ep.
    induction Hl as [|p a b c l Ho _ Hm _ IH]; constructor.
    - apply match_at_sound, (consumes_shorter _ _ _ Hc) in Hm; apply onward_length in Ho; cbn; lia.
    - eapply List.Forall_impl; [|exact IH]; intros m Hr; apply match_at_sound, (consumes_shorter _ _ _ Hc) in Hm; apply onward_length in Ho; cbn beta in *; lia. }
  clear Hl; induction H as [|[[a b] c] l Hm _ IH]; [constructor|]; cbn [map]; constructor; [cbn in *; lia|exact IH].
Qed.

Lemma kept_offsets fuel : forall i raw esc, Forall (fun m => m.1 < m.2)%nat esc ->
  Forall (fun x => i <= x.2 < length raw)%nat (kept fuel i raw esc) /\
  (forall n x, kept fuel i raw esc !! n = Some x -> (i + n <= x.2)%nat /\
     List.filter (fun y => (y.2 <? x.2)%nat) (kept fuel i raw esc) = take n (kept fuel i raw esc)).
Proof.
  induction fuel as [|fuel IH]; intros i raw esc He; cbn [kept]; [split; [constructor|intros n x Hx; rewrite lookup_nil in Hx; discriminate]|].
  destruct (raw !! i) as [c|] eqn:Ei; [|split; [constructor|intros n x Hx; rewrite lookup_nil in Hx; discriminate]].
  apply lookup_lt_Some in Ei.
  assert (forall es, Forall (fun m => m.1 < m.2)%nat es ->
    Forall (fun x => i <= x.2 < length raw)%nat ((c, i) :: kept fuel (Datatypes.S i) raw es) /\
    (forall n x, ((c, i) :: kept fuel (Datatypes.S i) raw es) !! n = Some x -> (i + n <= x.2)%nat /\
       List.filter (fun y => (y.2 <? x.2)%nat) ((c, i) :: kept fuel (Datatypes.S i) raw es) = take n ((c, i) :: kept fuel (Datatypes.S i) raw es))) as Hkeep.
  { intros es Hes; destruct (IH (Datatypes.S i) raw es Hes) as [H1 H2]; split.
    - constructor; [cbn; lia|eapply List.Forall_impl; [|exact H1]; cbn; lia].
    - intros [|n] x Hx; cbn in Hx.
      + injection Hx as <-; split; [cbn; lia|]; cbn [List.filter take snd]; rewrite Nat.ltb_irrefl.
        clear H2; induction H1 as [|y l Hy _ IHl]; [reflexivity|]; cbn [List.filter]; rewrite (proj2 (Nat.ltb_ge _ _)) by (cbn in Hy; lia); exact IHl.
      + destruct (H2 _ _ Hx) as [H3 H4]; split; [lia|]; cbn [List.filter take snd]; rewrite (proj2 (Nat.ltb_lt _ _)) by lia; rewrite H4; reflexivity. }
  destruct esc as [|[a b] more]; [apply Hkeep; constructor|]; destruct (i =? a)%nat eqn:Ea; [|apply Hkeep, He].
  apply Nat.eqb_eq in Ea; subst a; inversion He as [|? ? Hab He']; subst; clear He; rename He' into He; cbn in Hab; destruct (IH b raw more He) as [H1 H2]; split.
  - eapply List.Forall_impl; [|exact H1]; cbn; lia.
  - intros n x Hx; destruct (H2 n x Hx) as [H3 H4]; split; [lia|exact H4].
Qed.

(** Folding steps that only move left. *)
Lemma fold_left_le {A} (f : nat -> A -> nat) l : (forall c x, f c x <= c)%nat -> forall c, (fold_left f l c <= c)%nat.
Proof. intros Hf; induction l as [|x l IH]; intros c; cbn; [lia|]; specialize (IH (f c x)); specialize (Hf c x); lia. Qed.

Lemma fold_left_fixed {A} (f : nat -> A -> nat) l : (forall c x, f c x <= c)%nat ->
  forall c, fold_left f l c = c -> forall x, x ∈ l -> f c x = c.
Proof.
  intros Hf; induction l as [|y l IH]; intros c Hc x Hx; [apply elem_of_nil in Hx; contradiction|]; cbn in Hc.
  pose proof (fold_left_le f l Hf (f c y)); pose proof (Hf c y); assert (f c y = c) as Hy by lia; rewrite Hy in Hc.
  apply elem_of_cons in Hx as [->|Hx]; [exact Hy|apply IH; assumption].
Qed.

Lemma cut_match_le c m : (cut_match c m <= c)%nat.
Proof. unfold cut_match; destruct (_ && _) eqn:E; [apply andb_prop in E as [E _]; apply Nat.ltb_lt in E|]; lia. Qed.

Lemma cut_round_le text c : (cut_round text c <= c)%nat.
Proof. apply fold_left_le; intros c' r; apply fold_left_le, cut_match_le. Qed.

(** No credential straddles a cut that a round leaves alone. *)
Lemma cut_round_fixed text c : cut_round text c = c ->
  forall r m, r ∈ credentials -> m ∈ FindAllIndex r text -> (m.2 <= c \/ c <= m.1)%nat.
Proof.
  intros Hc r m Hr Hm; unfold cut_round in Hc.
  assert (fold_left cut_match (FindAllIndex r text) c = c) as H1.
  { apply (fold_left_fixed (fun cut r => fold_left cut_match (FindAllIndex r text) cut) credentials); auto; intros c' r'; apply fold_left_le, cut_match_le. }
  apply (fold_left_fixed _ _ cut_match_le) with (x := m) in H1; [|exact Hm]; unfold cut_match in H1.
  destruct (m.1 <? c)%nat eqn:E1; [|apply Nat.ltb_ge in E1; lia]; destruct (c <? m.2)%nat eqn:E2; cbn in H1; [apply Nat.ltb_lt in E1; lia|apply Nat.ltb_ge in E2; lia].
Qed.

Lemma cut_rounds_spec fuel text : forall c, (c < fuel)%nat -> (cut_rounds fuel text c <= c)%nat /\ cut_round text (cut_rounds fuel text c) = cut_rounds fuel text c.
Proof.
  induction fuel as [|fuel IH]; intros c Hc; [lia|]; cbn [cut_rounds]; pose proof (cut_round_le text c); destruct (cut_round text c =? c)%nat eqn:E.
  - apply Nat.eqb_eq in E; auto.
  - apply Nat.eqb_neq in E; destruct (IH (cut_round text c) ltac:(lia)); split; [lia|assumption].
Qed.

Lemma cut_pending_spec text c : (cut_pending text c <= c)%nat /\ forall p e, FindIndex framePendingSecretRE text = Some (p, e) -> (cut_pending text c <= p)%nat.
Proof.
  unfold cut_pending; destruct (FindIndex _ _) as [[p e]|]; [|split; [lia|discriminate]].
  destruct (p <? c)%nat eqn:E; [apply Nat.ltb_lt in E|apply Nat.ltb_ge in E]; split; try lia; intros ? ? [= <- <-]; lia.
Qed.

Lemma cut_keys_spec text c : (cut_keys text c <= c)%nat /\
  forall m, m ∈ FindAllIndex framePrivateStartRE text -> (m.1 < cut_keys text c)%nat -> key_complete text m.1 = true.
Proof.
  unfold cut_keys; set (f := fun cut '(start, _) => _); assert (forall c m, (f c m <= c)%nat) as Hle.
  { intros c' [a b]; unfold f; destruct (key_complete text a); cbn [negb andb]; [lia|]; destruct (a <? c')%nat eqn:E; [apply Nat.ltb_lt in E; lia|lia]. }
  split; [apply fold_left_le, Hle|]; generalize (FindAllIndex framePrivateStartRE text); intros l; revert c; induction l as [|x l IH]; intros c m Hm Hlt; [apply elem_of_nil in Hm; contradiction|].
  cbn [fold_left] in Hlt; apply elem_of_cons in Hm as [->|Hm]; [|eapply IH; eassumption].
  pose proof (fold_left_le f l Hle (f c x)) as Hf; destruct x as [a b]; cbn [fst] in *; destruct (key_complete text a) eqn:Ek; [reflexivity|].
  assert (f c (a, b) <= a)%nat; [|lia]; unfold f; rewrite Ek; cbn [negb andb]; destruct (a <? c)%nat eqn:E; [lia|]; apply Nat.ltb_ge in E; lia.
Qed.

(** A place to cut a text at: the last two words stay behind, no secret that may still
    continue and no unfinished private key lies before it, and no credential lies
    across it. *)
Record safe_cut (text : list Z) (cut : nat) : Prop := {
  sc_words : exists w1 w2, FindAllIndex frameWordsRE text !! (length (FindAllIndex frameWordsRE text) - 2)%nat = Some w1 /\
    FindAllIndex frameWordsRE text !! (length (FindAllIndex frameWordsRE text) - 1)%nat = Some w2 /\ (cut <= w1.1 < length text)%nat;
  sc_pending : forall p e, FindIndex framePendingSecretRE text = Some (p, e) -> (cut <= p)%nat;
  sc_keys : forall m, m ∈ FindAllIndex framePrivateStartRE text -> (m.1 < cut)%nat -> key_complete text m.1 = true;
  sc_whole : forall r m, r ∈ credentials -> m ∈ FindAllIndex r text -> (m.2 <= cut \/ cut <= m.1)%nat;
}.

Lemma frame_cut_safe text : frame_cut text <> O -> safe_cut text (frame_cut text).
Proof.
  unfold frame_cut; destruct (FindAllIndex frameWordsRE text !! _) as [[w e]|] eqn:Ew; [|contradiction]; destruct (length _ <? 3)%nat eqn:E3; [contradiction|].
  apply Nat.ltb_ge in E3; intros _; destruct (cut_pending_spec text w) as [P1 P2]; destruct (cut_keys_spec text (cut_pending text w)) as [K1 K2].
  set (c := cut_keys text (cut_pending text w)) in *; destruct (cut_rounds_spec (Datatypes.S c) text c ltac:(lia)) as [R1 R2]; constructor.
  - destruct (lookup_lt_is_Some_2 (FindAllIndex frameWordsRE text) (length (FindAllIndex frameWordsRE text) - 1) ltac:(lia)) as [w2 Hw2].
    exists (w, e), w2; split_and!; auto; cbn [fst]; [lia|].
    pose proof (FindAllIndex_bounds frameWordsRE text eq_refl) as Hb; rewrite Forall_forall in Hb; apply list_elem_of_lookup_2, list_elem_of_In, Hb in Ew; cbn in Ew; lia.
  - intros p e' Hp; specialize (P2 p e' Hp); lia.
  - intros m Hm Hlt; apply K2; [exact Hm|lia].
  - apply cut_round_fixed, R2.
Qed.

Definition boundary_spec (raw : list Z) (b : nat) : Prop :=
  (ValidString raw = false -> b = length raw) /\
  (ValidString raw = true -> b <> O -> (b < length raw)%nat /\
     exists cut c, safe_cut (map fst (strip raw)) cut /\ strip raw !! cut = Some (c, b) /\
       List.filter (fun x => (x.2 <? b)%nat) (strip raw) = take cut (strip raw)).

Lemma boundary_holds raw : boundary_spec raw (safeFrameBoundary raw).
Proof.
  unfold boundary_spec, safeFrameBoundary; split; intros Hv; rewrite Hv; cbn [negb]; [reflexivity|].
  pose proof (frame_cut_safe (map fst (strip raw))) as Hs; destruct (frame_cut (map fst (strip raw))) as [|n]; [contradiction|].
  destruct (strip raw !! Datatypes.S n) as [[c i]|] eqn:Ek; [|contradiction]; intros _.
  destruct (kept_offsets (length raw) 0 raw (FindAllIndex ansiRE raw)) as [H1 H2].
  { eapply List.Forall_impl; [|exact (FindAllIndex_bounds ansiRE raw eq_refl)]; cbn; lia. }
  destruct (H2 _ _ Ek) as [H3 H4]; cbn [snd] in H3, H4; split.
  - rewrite Forall_forall in H1; apply list_elem_of_lookup_2, list_elem_of_In, H1 in Ek; cbn in Ek; lia.
  - exists (Datatypes.S n), c; split; [apply Hs; discriminate|]; split; [exact Ek|exact H4].
Qed.

Lemma safeFrameBoundary_le raw : (safeFrameBoundary raw <= length raw)%nat.
Proof.
  destruct (boundary_holds raw) as [H1 H2]; destruct (ValidString raw); [|rewrite H1; auto].
  destruct (decide (safeFrameBoundary raw = O)) as [->|H]; [lia|]; destruct (H2 eq_refl H); lia.
Qed.

(** Where a frame of terminal output may end.  The search for the place ends; a frame
    that is not UTF-8 is taken whole; otherwise, if there is a place, it is a proper
    one inside the frame, what lies before it, without escape sequences, is the text
    before a safe cut, and the place itself is not inside an escape sequence. *)
Theorem frame_boundary_safe (raw : list Z) :
  let b := safeFrameBoundary raw in
  (ValidString raw = false -> b = length raw) /\
  (ValidString raw = true -> b <> O -> (b < length raw)%nat /\
     exists cut c, safe_cut (map fst (strip raw)) cut /\ strip raw !! cut = Some (c, b) /\
       List.filter (fun x => (x.2 <? b)%nat) (strip raw) = take cut (strip raw)).
Proof. exact (boundary_holds raw). Qed.

(** The cut is always a place of the text. *)
Lemma frame_cut_in_text raw : frame_cut (map fst (strip raw)) <> O -> is_Some (strip raw !! frame_cut (map fst (strip raw))).
Proof.
  intros H; apply frame_cut_safe in H as [(w1 & w2 & _ & _ & Hw) _ _ _]; apply lookup_lt_is_Some_2; rewrite length_map in Hw; lia.
Qed.

(** A frame with a token whose value may continue: the boundary is before the key. *)
Lemma frame_boundary_safe_witness :
  safeFrameBoundary (ascii "all is well token=abc def") = 12%nat /\ exists cut c, safe_cut (map fst (strip (ascii "all is well token=abc def"))) cut /\
    strip (ascii "all is well token=abc def") !! cut = Some (c, 12%nat).
Proof.
  assert (safeFrameBoundary (ascii "all is well token=abc def") = 12%nat) as E by (vm_compute; reflexivity); split; [exact E|].
  destruct (frame_boundary_safe (ascii "all is well token=abc def")) as [_ H]; rewrite E in H.
  destruct (H ltac:(vm_compute; reflexivity) ltac:(discriminate)) as (_ & cut & c & H1 & H2 & _); exists cut, c; auto.
Defined.
