(* ===== verification/Questions.v ===== *)
(** * Questions and answers: internal/telemetry/questions.go

    The analyzer numbers and records what happens in the sessions: their start and
    end, redacted output and input, questions an agent asks and how a person answered
    them.  Its observers are called one at a time (LiveCollector holds its lock), so
    each is one step; the sink only takes events, and what it answers is ignored.

    SHA-256 and the lower-case form of runes beyond ASCII are parameters. *)

From S2P Require Import Prelude GoStd GoText Store Utf8 Regexp Redact Framing Capture Turns.

Inductive QuestionClass := ClassPermission | ClassConfirmation | ClassChoice | ClassClarification | ClassUnknown.
Inductive Decision := DecisionAccepted | DecisionRejected | DecisionChanged | DecisionUnknown.

#[global] Instance QuestionClass_eq_dec : EqDecision QuestionClass.
Proof. solve_decision. Defined.
#[global] Instance Decision_eq_dec : EqDecision Decision.
Proof. solve_decision. Defined.

Record TerminalSnapshot := MkSnapshot { sn_Version : Z; sn_Cols : Z; sn_Rows : Z; sn_ANSI : list Z; sn_Scrollback : list Z }.

(** An event with the fields that [Event] keeps together in its body. *)
Record Observed := MkObserved {
  ob_event : Event; ob_Terminal : option TerminalSnapshot; ob_Direction : option Direction; ob_Stream : option StreamType;
  ob_Class : option QuestionClass; ob_Decision : option Decision; ob_Fingerprint : list Z; ob_Text : list Z; ob_ByteCount : Z;
  ob_Redactions : Z; ob_ContentHash : list Z; ob_LatencyMS : Z }.

Record Session := MkSession {
  se_Cols : Z; se_Rows : Z; se_SourceID : string; se_SessionID : string; se_ActorID : string; se_ProjectID : string;
  se_Provider : string; se_RepoPath : string }.

Definition sessionKey (s : Session) : sessionIdentity := (se_SourceID s, se_SessionID s).

Record pendingQuestion := MkQuestion { pq_askedAt : Time; pq_class : QuestionClass; pq_fingerprint : list Z }.

Record QuestionStat := MkStat {
  qs_Fingerprint : list Z; qs_Class : QuestionClass; qs_Example : list Z;
  qs_Asked : Z; qs_Accepted : Z; qs_Rejected : Z; qs_Changed : Z; qs_Unknown : Z }.

(** [an_sent]: what was handed to the sink, in order. *)
Record Analyzer := MkAnalyzer {
  an_redact : list Z -> list Z;
  an_questions : gmap sessionIdentity pendingQuestion;
  an_stats : gmap (list Z) QuestionStat;
  an_includeRedactedText : bool;
  an_sequences : gmap sessionIdentity Z;
  an_sent : list Observed;
}.

Definition NewAnalyzer (redactor : option (list Z -> list Z)) (include : bool) : Analyzer :=
  MkAnalyzer (default DefaultRedactor redactor) ∅ ∅ include ∅ [].

Definition put_questions m (a : Analyzer) : Analyzer := MkAnalyzer (an_redact a) m (an_stats a) (an_includeRedactedText a) (an_sequences a) (an_sent a).
Definition put_stats m (a : Analyzer) : Analyzer := MkAnalyzer (an_redact a) (an_questions a) m (an_includeRedactedText a) (an_sequences a) (an_sent a).
Definition put_sequences m (a : Analyzer) : Analyzer := MkAnalyzer (an_redact a) (an_questions a) (an_stats a) (an_includeRedactedText a) m (an_sent a).
Definition send (x : Observed) (a : Analyzer) : Analyzer :=
  MkAnalyzer (an_redact a) (an_questions a) (an_stats a) (an_includeRedactedText a) (an_sequences a) (an_sent a ++ [x]).

(** ** Text *)

(** The runes of a text with their bytes. *)
Fixpoint pieces_fuel (n : nat) (s : list Z) : list (Z * list Z) :=
  match n, s with
  | Datatypes.S n, _ :: _ => let '(r, w) := DecodeRune s in (r, take w s) :: pieces_fuel n (drop w s)
  | _, _ => []
  end.

Definition pieces (s : list Z) : list (Z * list Z) := pieces_fuel (length s) s.

(** What writing the rune gives: a byte that is not UTF-8 becomes the replacement rune. *)
Definition written (p : Z * list Z) : list Z := if (p.1 =? RuneError) && (length p.2 =? 1)%nat then [239; 191; 189] else p.2.

Definition truncate (s : list Z) (max : nat) : list Z :=
  let rs := pieces s in if (length rs <=? max)%nat then s else concat (map written (take max rs)).

(** [strings.Fields]. *)
Definition add_field (p : Z * list Z) (acc : list Z * list (list Z)) : list Z * list (list Z) :=
  let '(cur, done) := acc in
  if IsSpace p.1 then ([], match cur with [] => done | _ => cur :: done end) else (p.2 ++ cur, done).

Definition Fields (s : list Z) : list (list Z) :=
  let '(cur, done) := foldr add_field ([], []) (pieces s) in match cur with [] => done | _ => cur :: done end.

Fixpoint join_space (l : list (list Z)) : list Z :=
  match l with
  | [] => []
  | [w] => w
  | w :: l => w ++ 32 :: join_space l
  end.

Definition normalize (text : list Z) : list Z :=
  let text := ReplaceAllString ansiRE (const "") text in
  let text := map (fun c => if c =? 13 then 10 else c) text in
  TrimSpace (join_space (Fields text)).

(** [strings.Count] of a text that is not empty. *)
Fixpoint count_fuel (n : nat) (p s : list Z) : Z :=
  match n, s with
  | Datatypes.S n, _ :: s' => if has_prefix p s then 1 + count_fuel n p (drop (length p) s) else count_fuel n p s'
  | _, _ => 0
  end.

Definition Count (p s : list Z) : Z := count_fuel (length s) p s.

(** ** Classification *)

Definition word_of (l : list regex) : regex :=
  match l with [] => Eps | a :: l => Seqs [WordBoundary; Alts a l; WordBoundary] end.

Definition permissionRE : regex :=
  word_of [LitI (ascii "permission"); LitI (ascii "allow"); LitI (ascii "approve"); LitI (ascii "run this");
           Seq (Alts (LitI (ascii "do you want me to")) [LitI (ascii "would you like me to"); LitI (ascii "should i"); LitI (ascii "shall i")]) (LitI (ascii " run"));
           LitI (ascii "execute"); Seqs [LitI (ascii "proceed with "); Opt (LitI (ascii "this ")); LitI (ascii "command")]; LitI (ascii "use this tool")].
Definition confirmationRE : regex :=
  word_of (map (fun s => LitI (ascii s)) ["continue"; "proceed"; "are you sure"; "shall i"; "should i"; "would you like me to"; "do you want me to"])%string.
Definition choiceRE : regex := word_of (map (fun s => LitI (ascii s)) ["which"; "choose"; "select"; "option"; "pick one"])%string.
Definition clarificationRE : regex :=
  word_of (map (fun s => LitI (ascii s)) ["clarify"; "what do you mean"; "need more information"; "could you provide"; "please specify"])%string.

Definition whole_line (l : list string) : regex :=
  match map (fun s => LitI (ascii s)) l with
  | [] => Eps
  | a :: l => Seqs [AtBegin; blanks; Alts a l; blanks; Star true (Cls (one_of [13; 10])); AtEnd]
  end.

Definition acceptRE : regex :=
  whole_line ["y"; "yes"; "ok"; "okay"; "sure"; "approve"; "approved"; "allow"; "allowed"; "continue"; "proceed"; "run it"; "go ahead"; "1"]%string.
Definition rejectRE : regex := whole_line ["n"; "no"; "deny"; "denied"; "reject"; "rejected"; "stop"; "cancel"; "2"]%string.

Definition numberRE : regex := Seqs [WordBoundary; Plus (Cls (in_range 48 57)); WordBoundary].
Definition pathRE : regex := Plus (Seq (Cls (Z.eqb 47)) (Plus (Cls (fun c => negb (blank_char c))))).

Definition classifyQuestion (text : list Z) : QuestionClass :=
  if MatchString permissionRE text then ClassPermission
  else if MatchString confirmationRE text then ClassConfirmation
  else if MatchString choiceRE text then ClassChoice
  else if MatchString clarificationRE text then ClassClarification
  else ClassUnknown.

Definition classifyDecision (text : list Z) : Decision :=
  if MatchString acceptRE text then DecisionAccepted
  else if MatchString rejectRE text then DecisionRejected
  else if (2 <? length (Fields text))%nat then DecisionChanged
  else DecisionUnknown.

Definition class_name (c : QuestionClass) : list Z :=
  ascii match c with
        | ClassPermission => "permission" | ClassConfirmation => "confirmation" | ClassChoice => "choice"
        | ClassClarification => "clarification" | ClassUnknown => "unknown" end.

Section Analyzing.
(** The lower-case form of a rune beyond ASCII, in UTF-8; and the digest of a text. *)
Variable lower : Z -> list Z.
Variable sha256 : list Z -> list Z.

Definition ToLower (s : list Z) : list Z :=
  concat (map (fun p => if p.1 <? 128 then [if in_range 65 90 p.1 then p.1 + 32 else p.1]
                        else if (p.1 =? RuneError) && (length p.2 =? 1)%nat then [239; 191; 189] else lower p.1) (pieces s)).

Definition looksLikeQuestion (text : list Z) : bool :=
  let low := ToLower text in
  existsb (Z.eqb 63) text || MatchString permissionRE low || MatchString confirmationRE low || MatchString choiceRE low || MatchString clarificationRE low.

Definition canonicalize (text : list Z) : list Z :=
  let text := ReplaceAllString pathRE (const "<path>") (ReplaceAllString numberRE (const "#") (ToLower text)) in
  truncate (join_space (Fields text)) 512.

(** The digest is given in hexadecimal: two digits for each of eight bytes. *)
Definition fingerprint (provider : string) (class : QuestionClass) (text : list Z) : list Z :=
  take 16 (sha256 (ToLower (chars provider) ++ 0 :: class_name class ++ 0 :: text)).

(** ** The analyzer *)

Definition record (x : Observed) (a : Analyzer) : Analyzer :=
  let e := ob_event x in
  let key := eventKey e in
  let n := u64 (default 0 (an_sequences a !! key) + 1) in
  let e := put_Sequence n (MkEvent 2 (ev_Timestamp e) (ev_SourceID e) (ev_ActorID e) (ev_SessionID e) (ev_ProjectID e) (ev_Provider e)
                             (ev_Kind e) 0 (ev_OmittedReason e) (ev_Body e) (ev_Context e) (ev_Discovery e) (ev_Completeness e)) in
  let a := send (MkObserved e (ob_Terminal x) (ob_Direction x) (ob_Stream x) (ob_Class x) (ob_Decision x) (ob_Fingerprint x) (ob_Text x)
                   (ob_ByteCount x) (ob_Redactions x) (ob_ContentHash x) (ob_LatencyMS x)) a in
  put_sequences (if decide (ev_Kind e = EventSessionEnded) then delete key (an_sequences a) else <[key := n]> (an_sequences a)) a.

(** An event of the session, of the given kind and otherwise empty. *)
Definition plain_event (s : Session) (now : Time) (kind : EventKind) : Event :=
  MkEvent 0 now (se_SourceID s) (se_ActorID s) (se_SessionID s) (se_ProjectID s) (se_Provider s) kind 0 "" [] None None None.

Definition empty_event (e : Event) : Observed := MkObserved e None None None None None [] [] 0 0 [] 0.

Definition ObserveSessionStart (s : Session) (now : Time) (a : Analyzer) : Analyzer :=
  record (empty_event (plain_event s now EventSessionStarted)) (put_sequences (delete (sessionKey s) (an_sequences a)) a).

Definition ObserveSessionContext (s : Session) (context : bytes) (now : Time) (a : Analyzer) : Analyzer :=
  record (empty_event (put_Context (Some context) None (plain_event s now EventSessionContext))) a.

Definition ObserveSessionEnd (s : Session) (now : Time) (a : Analyzer) : Analyzer :=
  record (empty_event (plain_event s now EventSessionEnded)) (put_questions (delete (sessionKey s) (an_questions a)) a).

Definition eventText (a : Analyzer) (redacted : list Z) : list Z := if an_includeRedactedText a then redacted else [].

Definition omitted_event (e : Event) (reason : string) : Event :=
  MkEvent (ev_SchemaVersion e) (ev_Timestamp e) (ev_SourceID e) (ev_ActorID e) (ev_SessionID e) (ev_ProjectID e) (ev_Provider e)
    (ev_Kind e) (ev_Sequence e) reason (ev_Body e) (ev_Context e) (ev_Discovery e) (ev_Completeness e).

Definition ObserveOmittedInteraction (s : Session) (d : Direction) (kind : EventKind) (stream : StreamType) (data : list Z) (reason : string)
    (now : Time) (a : Analyzer) : Analyzer :=
  match data with
  | [] => a
  | _ => record (MkObserved (omitted_event (plain_event s now kind) reason) None (Some d) (Some stream) None None [] [] (zlen data) 0 (sha256 data) 0) a
  end.

Definition analyzer_observeInteraction (s : Session) (d : Direction) (kind : EventKind) (stream : StreamType) (data : list Z)
    (now : Time) (a : Analyzer) : Analyzer :=
  match data with
  | [] => a
  | _ =>
      if negb (ValidString data) then ObserveOmittedInteraction s d kind stream data "invalid_utf8" now a
      else
        let redacted := an_redact a data in
        record (MkObserved (plain_event s now kind) None (Some d) (Some stream) None None [] (eventText a redacted) (zlen data)
                  (Count (ascii "[REDACTED:") redacted) [] 0) a
  end.

Definition ObserveProviderInteraction (s : Session) (stream : StreamType) (data : list Z) (now : Time) (a : Analyzer) : Analyzer :=
  analyzer_observeInteraction s DirectionAgent EventProviderOutput stream data now a.
Definition ObserveUserInteraction (s : Session) (data : list Z) (now : Time) (a : Analyzer) : Analyzer :=
  analyzer_observeInteraction s DirectionHuman EventUserInput StreamInput data now a.

Definition asked (st : QuestionStat) : QuestionStat :=
  MkStat (qs_Fingerprint st) (qs_Class st) (qs_Example st) (qs_Asked st + 1) (qs_Accepted st) (qs_Rejected st) (qs_Changed st) (qs_Unknown st).

Definition ObserveOutput (s : Session) (data : list Z) (now : Time) (a : Analyzer) : Analyzer :=
  let text := normalize data in
  if bool_decide (text = []) || negb (looksLikeQuestion text) then a
  else
    let class := classifyQuestion text in
    let redacted := truncate (an_redact a text) 2048 in
    let fp := fingerprint (se_Provider s) class (canonicalize redacted) in
    let key := sessionKey s in
    if match an_questions a !! key with Some q => bool_decide (pq_fingerprint q = fp) | None => false end then a
    else
      let st := default (MkStat fp class (if an_includeRedactedText a then redacted else []) 0 0 0 0 0) (an_stats a !! fp) in
      let a' := put_stats (<[fp := asked st]> (an_stats a)) (put_questions (<[key := MkQuestion now class fp]> (an_questions a)) a) in
      record (MkObserved (plain_event s now EventQuestion) None (Some DirectionAgent) None (Some class) None fp (eventText a redacted) 0 0 [] 0) a'.

Definition answered (d : Decision) (st : QuestionStat) : QuestionStat :=
  let one d' := if decide (d = d') then 1 else 0 in
  MkStat (qs_Fingerprint st) (qs_Class st) (qs_Example st) (qs_Asked st) (qs_Accepted st + one DecisionAccepted) (qs_Rejected st + one DecisionRejected)
    (qs_Changed st + one DecisionChanged) (qs_Unknown st + one DecisionUnknown).

Definition ObserveInput (s : Session) (data : list Z) (now : Time) (a : Analyzer) : Analyzer :=
  let answer := normalize data in
  let key := sessionKey s in
  match answer, an_questions a !! key with
  | [], _ | _, None => a
  | _, Some q =>
      let d := classifyDecision answer in
      let stats := match an_stats a !! pq_fingerprint q with
                   | Some st => <[pq_fingerprint q := answered d st]> (an_stats a)
                   | None => an_stats a
                   end in
      let a' := put_stats stats (put_questions (delete key (an_questions a)) a) in
      record (MkObserved (plain_event s now EventAnswer) None (Some DirectionHuman) None (Some (pq_class q)) (Some d) (pq_fingerprint q)
                (eventText a (truncate (an_redact a answer) 2048)) 0 0 [] (Z.quot (now - pq_askedAt q) 1000000)) a'
  end.

(** The order of [Feedback]: by how often a question was asked, then by fingerprint. *)
Definition stat_before (x y : QuestionStat) : bool :=
  if qs_Asked x =? qs_Asked y then key_lt (qs_Fingerprint x) (qs_Fingerprint y) else qs_Asked y <? qs_Asked x.

Fixpoint insert_stat (x : QuestionStat) (l : list QuestionStat) : list QuestionStat :=
  match l with
  | [] => [x]
  | y :: l' => if stat_before y x then y :: insert_stat x l' else x :: l
  end.

Definition Feedback (a : Analyzer) : list QuestionStat := foldr insert_stat [] (map snd (map_to_list (an_stats a))).

(** ** What was recorded *)

(** The calls of the collector; [CRecord]: an event it records itself. *)
Inductive call :=
| CStart (s : Session) (now : Time)
| CContext (s : Session) (context : bytes) (now : Time)
| CEnd (s : Session) (now : Time)
| COmitted (s : Session) (d : Direction) (stream : StreamType) (data : list Z) (reason : string) (now : Time)
| CProvider (s : Session) (stream : StreamType) (data : list Z) (now : Time)
| CUser (s : Session) (data : list Z) (now : Time)
| COutput (s : Session) (data : list Z) (now : Time)
| CInput (s : Session) (data : list Z) (now : Time)
| CRecord (x : Observed).

(** [interactionKind]. *)
Definition interactionKind (d : Direction) : EventKind := if decide (d = DirectionAgent) then EventProviderOutput else EventUserInput.

Definition do_call (c : call) (a : Analyzer) : Analyzer :=
  match c with
  | CStart s now => ObserveSessionStart s now a
  | CContext s cx now => ObserveSessionContext s cx now a
  | CEnd s now => ObserveSessionEnd s now a
  | COmitted s d stream data reason now => ObserveOmittedInteraction s d (interactionKind d) stream data reason now a
  | CProvider s stream data now => ObserveProviderInteraction s stream data now a
  | CUser s data now => ObserveUserInteraction s data now a
  | COutput s data now => ObserveOutput s data now a
  | CInput s data now => ObserveInput s data now a
  | CRecord x => record x a
  end.

Definition ob_key (x : Observed) : sessionIdentity := eventKey (ob_event x).
Definition ob_kind (x : Observed) : EventKind := ev_Kind (ob_event x).
Definition ob_seq (x : Observed) : Z := ev_Sequence (ob_event x).
Definition ob_time (x : Observed) : Time := ev_Timestamp (ob_event x).

(** Events the collector records itself: context and output. *)
Definition own_event (c : call) : bool :=
  match c with CRecord x => bool_decide (ob_kind x = EventSessionContext \/ ob_kind x = EventProviderOutput) | _ => true end.

Definition of_session (key : sessionIdentity) (l : list Observed) : list Observed := List.filter (fun x => bool_decide (ob_key x = key)) l.

Definition last_of (l : list Observed) : option Observed := fold_left (fun _ x => Some x) l None.

(** The number an event gets after [prev] in its session. *)
Definition next_number (prev : option Observed) (x : Observed) : Z :=
  match prev with
  | None => 1
  | Some p => if decide (ob_kind p = EventSessionEnded \/ ob_kind x = EventSessionStarted) then 1 else u64 (ob_seq p + 1)
  end.

Fixpoint numbered (prev : option Observed) (l : list Observed) : Prop :=
  match l with
  | [] => True
  | x :: l => ob_seq x = next_number prev x /\ numbered (Some x) l
  end.

(** The question that is open after the events of a session; [None] when an answer does
    not belong to the open question. *)
Definition correlate (st : option (option pendingQuestion)) (x : Observed) : option (option pendingQuestion) :=
  match st with
  | None => None
  | Some q =>
      match ob_kind x with
      | EventQuestion => match ob_Class x with Some c => Some (Some (MkQuestion (ob_time x) c (ob_Fingerprint x))) | None => None end
      | EventAnswer =>
          match q with
          | Some q => if bool_decide (ob_Fingerprint x = pq_fingerprint q /\ ob_Class x = Some (pq_class q) /\ is_Some (ob_Decision x) /\
                                      ob_LatencyMS x = Z.quot (ob_time x - pq_askedAt q) 1000000) then Some None else None
          | None => None
          end
      | EventSessionEnded => Some None
      | _ => Some q
      end
  end.

Definition open_question (l : list Observed) : option (option pendingQuestion) := fold_left correlate l (Some None).

(** How many events are questions, or answers with a decision, of a fingerprint. *)
Definition count_of (P : Observed -> bool) (l : list Observed) : Z := zlen (List.filter P l).
Definition is_question (fp : list Z) (x : Observed) : bool := bool_decide (ob_kind x = EventQuestion /\ ob_Fingerprint x = fp).
Definition is_answer (fp : list Z) (d : Decision) (x : Observed) : bool :=
  bool_decide (ob_kind x = EventAnswer /\ ob_Fingerprint x = fp /\ ob_Decision x = Some d).

Definition tally (fp : list Z) (l : list Observed) : list Z :=
  count_of (is_question fp) l :: map (fun d => count_of (is_answer fp d) l) [DecisionAccepted; DecisionRejected; DecisionChanged; DecisionUnknown].

Definition stat_tally (st : option QuestionStat) : list Z :=
  match st with
  | Some st => [qs_Asked st; qs_Accepted st; qs_Rejected st; qs_Changed st; qs_Unknown st]
  | None => [0; 0; 0; 0; 0]
  end.

(** The text of a question or answer is redacted and bounded, and there is none unless
    it was asked for. *)
Definition text_ok (a : Analyzer) (x : Observed) : Prop :=
  (an_includeRedactedText a = false -> ob_kind x = EventQuestion \/ ob_kind x = EventAnswer -> ob_Text x = []) /\
  (an_includeRedactedText a = true -> ob_kind x = EventQuestion \/ ob_kind x = EventAnswer -> exists t, ob_Text x = truncate (an_redact a (normalize t)) 2048).

Record analyzer_inv (a : Analyzer) : Prop := {
  ai_numbers : forall key, numbered None (of_session key (an_sent a)) /\
    an_sequences a !! key = match last_of (of_session key (an_sent a)) with
                            | Some p => if decide (ob_kind p = EventSessionEnded) then None else Some (ob_seq p)
                            | None => None end;
  ai_open : forall key, open_question (of_session key (an_sent a)) = Some (an_questions a !! key);
  ai_known : forall key q, an_questions a !! key = Some q -> is_Some (an_stats a !! pq_fingerprint q);
  ai_stats : forall fp, stat_tally (an_stats a !! fp) = tally fp (an_sent a);
  ai_text : Forall (text_ok a) (an_sent a);
}.

Lemma last_of_app l x : last_of (l ++ [x]) = Some x.
Proof. unfold last_of; rewrite fold_left_app; reflexivity. Qed.

Lemma numbered_snoc prev l x : numbered prev (l ++ [x]) <-> numbered prev l /\ ob_seq x = next_number (fold_left (fun _ x => Some x) l prev) x.
Proof. revert prev; induction l as [|y l IH]; intros prev; cbn; [tauto|]; rewrite IH; tauto. Qed.

Lemma of_session_app key l x : of_session key (l ++ [x]) = if bool_decide (ob_key x = key) then of_session key l ++ [x] else of_session key l.
Proof. unfold of_session; rewrite List.filter_app; cbn; destruct (bool_decide _); [reflexivity|apply app_nil_r]. Qed.

Lemma tally_app fp l x : tally fp (l ++ [x]) = zip_with Z.add (tally fp l) (tally fp [x]).
Proof. unfold tally, count_of; cbn [map zip_with]; rewrite !List.filter_app, !zlen_app; reflexivity. Qed.

(** The invariant after one more event. *)
Lemma sent_inv a a' x : analyzer_inv a ->
  an_sent a' = an_sent a ++ [x] -> an_redact a' = an_redact a -> an_includeRedactedText a' = an_includeRedactedText a ->
  ob_seq x = next_number (last_of (of_session (ob_key x) (an_sent a))) x ->
  (forall key, an_sequences a' !! key = if decide (key = ob_key x) then (if decide (ob_kind x = EventSessionEnded) then None else Some (ob_seq x)) else an_sequences a !! key) ->
  (forall key, key <> ob_key x -> an_questions a' !! key = an_questions a !! key) ->
  correlate (Some (an_questions a !! ob_key x)) x = Some (an_questions a' !! ob_key x) ->
  (forall key q, an_questions a' !! key = Some q -> is_Some (an_stats a' !! pq_fingerprint q)) ->
  (forall fp, stat_tally (an_stats a' !! fp) = zip_with Z.add (stat_tally (an_stats a !! fp)) (tally fp [x])) ->
  text_ok a x -> analyzer_inv a'.
Proof.
  intros [Hn Ho Hk Hs Ht] Es Er Ei Hseq Hq1 Hq2 Hc Hk' Hs' Hx; constructor.
  - intros key; rewrite Es, of_session_app, Hq1; destruct (Hn key) as [N1 N2]; destruct (decide (key = ob_key x)) as [->|Hne].
    + rewrite bool_decide_eq_true_2 by reflexivity; rewrite last_of_app, numbered_snoc; auto.
    + rewrite bool_decide_eq_false_2 by congruence; auto.
  - intros key; rewrite Es, of_session_app; destruct (decide (key = ob_key x)) as [->|Hne].
    + rewrite bool_decide_eq_true_2 by reflexivity; unfold open_question; rewrite fold_left_app; cbn [fold_left]; fold (open_question (of_session (ob_key x) (an_sent a))).
      rewrite Ho; exact Hc.
    + rewrite bool_decide_eq_false_2 by congruence; rewrite Ho, Hq2 by exact Hne; reflexivity.
  - exact Hk'.
  - intros fp; rewrite Es, tally_app, Hs', Hs; reflexivity.
  - rewrite Es; apply Forall_app_2; [|constructor; [|constructor]]; unfold text_ok in *; rewrite Er, Ei; auto.
Qed.

(** What [record] sends. *)
Definition sent_as (x : Observed) (a : Analyzer) : Observed :=
  let e := ob_event x in
  MkObserved (MkEvent 2 (ev_Timestamp e) (ev_SourceID e) (ev_ActorID e) (ev_SessionID e) (ev_ProjectID e) (ev_Provider e) (ev_Kind e)
                (u64 (default 0 (an_sequences a !! ob_key x) + 1)) (ev_OmittedReason e) (ev_Body e) (ev_Context e) (ev_Discovery e) (ev_Completeness e))
    (ob_Terminal x) (ob_Direction x) (ob_Stream x) (ob_Class x) (ob_Decision x) (ob_Fingerprint x) (ob_Text x) (ob_ByteCount x) (ob_Redactions x)
    (ob_ContentHash x) (ob_LatencyMS x).

Lemma count_one P x : count_of P [x] = if P x then 1 else 0.
Proof. unfold count_of; cbn; destruct (P x); reflexivity. Qed.

Lemma tally_sent_as fp x a : tally fp [sent_as x a] = tally fp [x].
Proof. unfold tally; cbn [map]; rewrite !count_one; reflexivity. Qed.

(** An event that is neither a start nor part of a question, on a state that agrees
    with [a] about numbers. *)
Lemma analyzer_record_inv a b x : analyzer_inv a -> ob_kind x <> EventSessionStarted ->
  an_sent b = an_sent a -> an_redact b = an_redact a -> an_includeRedactedText b = an_includeRedactedText a -> an_sequences b = an_sequences a ->
  (forall key, key <> ob_key x -> an_questions b !! key = an_questions a !! key) ->
  correlate (Some (an_questions a !! ob_key x)) x = Some (an_questions b !! ob_key x) ->
  (forall key q, an_questions b !! key = Some q -> is_Some (an_stats b !! pq_fingerprint q)) ->
  (forall fp, stat_tally (an_stats b !! fp) = zip_with Z.add (stat_tally (an_stats a !! fp)) (tally fp [x])) ->
  text_ok a x -> analyzer_inv (record x b).
Proof.
  intros Ha Hst Es Er Ei Eq Hq Hc Hk Hs Ht; apply (sent_inv a (record x b) (sent_as x a)); try assumption.
  - unfold record, sent_as; cbn; rewrite Es, Eq; reflexivity.
  - cbn; destruct (ai_numbers _ Ha (ob_key x)) as [_ N2]; change (ob_key (sent_as x a)) with (ob_key x); rewrite N2.
    unfold next_number; destruct (last_of _) as [p|]; [|reflexivity]; change (ob_kind (sent_as x a)) with (ob_kind x).
    destruct (decide (ob_kind p = EventSessionEnded)), (decide (ob_kind p = EventSessionEnded \/ ob_kind x = EventSessionStarted)); cbn; try reflexivity; tauto.
  - intros key; change (ob_key (sent_as x a)) with (ob_key x); change (ob_kind (sent_as x a)) with (ob_kind x); unfold record; cbn; rewrite Eq.
    change (eventKey (ob_event x)) with (ob_key x); change (ev_Kind (ob_event x)) with (ob_kind x).
    destruct (decide (ob_kind x = EventSessionEnded)), (decide (key = ob_key x)) as [->|Hne]; rewrite ?lookup_delete_eq, ?lookup_delete_ne, ?lookup_insert_eq, ?lookup_insert_ne by congruence; reflexivity.
  - intros fp; rewrite tally_sent_as; apply Hs.
Qed.

(** Kinds that are not part of a question. *)
Definition aside (x : Observed) : Prop := ob_kind x <> EventQuestion /\ ob_kind x <> EventAnswer.

Lemma aside_tally fp x st : aside x -> zip_with Z.add (stat_tally st) (tally fp [x]) = stat_tally st.
Proof.
  intros [H1 H2]; unfold tally; cbn [map]; rewrite !count_one; unfold is_question, is_answer.
  rewrite !bool_decide_eq_false_2 by tauto; destruct st; cbn; rewrite ?Z.add_0_r; reflexivity.
Qed.

Lemma aside_text a x : aside x -> text_ok a x.
Proof. intros [H1 H2]; split; tauto. Qed.

Lemma aside_inv a x : analyzer_inv a -> aside x -> ob_kind x <> EventSessionStarted -> ob_kind x <> EventSessionEnded -> analyzer_inv (record x a).
Proof.
  intros Ha Hx H3 H4; apply (analyzer_record_inv a a x); auto.
  - destruct Hx as [H1 H2]; unfold correlate; destruct (ob_kind x); try reflexivity; contradiction.
  - apply (ai_known _ Ha).
  - intros fp; rewrite aside_tally by exact Hx; reflexivity.
  - apply aside_text, Hx.
Qed.

Lemma start_inv a s now : analyzer_inv a -> analyzer_inv (ObserveSessionStart s now a).
Proof.
  intros Ha; unfold ObserveSessionStart; set (x := empty_event (plain_event s now EventSessionStarted)); set (b := put_sequences _ a).
  assert (an_sequences b !! ob_key x = None) as Hb by apply lookup_delete_eq.
  assert (aside x) as Hx by (split; discriminate).
  apply (sent_inv a _ (sent_as x b)); auto.
  - change (ob_seq (sent_as x b)) with (u64 (default 0 (an_sequences b !! ob_key x) + 1)); rewrite Hb; unfold next_number; destruct (last_of _) as [p|]; [|reflexivity]; rewrite decide_True by (right; reflexivity); reflexivity.
  - intros key; change (ob_key (sent_as x b)) with (sessionKey s); cbn; destruct (decide (key = sessionKey s)) as [->|Hne].
    + change (eventKey (plain_event s now EventSessionStarted)) with (sessionKey s); rewrite ?decide_False by discriminate; rewrite lookup_insert_eq; reflexivity.
    + change (eventKey (plain_event s now EventSessionStarted)) with (sessionKey s); rewrite ?decide_False by discriminate; rewrite lookup_insert_ne, lookup_delete_ne by congruence; reflexivity.
  - apply (ai_known _ Ha).
  - intros fp; rewrite tally_sent_as, aside_tally by exact Hx; reflexivity.
  - apply aside_text; split; discriminate.
Qed.

Lemma end_inv a s now : analyzer_inv a -> analyzer_inv (ObserveSessionEnd s now a).
Proof.
  intros Ha; unfold ObserveSessionEnd; set (x := empty_event (plain_event s now EventSessionEnded)).
  assert (aside x) as Hx by (split; discriminate); apply (analyzer_record_inv a); auto; try (intros HH; discriminate HH).
  - intros key Hne; cbn; apply lookup_delete_ne; intros Hk; apply Hne; symmetry; exact Hk.
  - cbn; change (ob_key x) with (sessionKey s); rewrite lookup_delete_eq; reflexivity.
  - intros key q Hq; cbn in *; apply lookup_delete_Some in Hq as [_ Hq]; apply (ai_known _ Ha _ _ Hq).
  - intros fp; rewrite aside_tally by exact Hx; reflexivity.
  - apply aside_text, Hx.
Qed.

Lemma output_inv a s data now : analyzer_inv a -> analyzer_inv (ObserveOutput s data now a).
Proof.
  intros Ha; unfold ObserveOutput; set (text := normalize data); destruct (_ || _); [exact Ha|]; set (class := classifyQuestion text).
  set (red := truncate (an_redact a text) 2048); set (fp := fingerprint _ _ _); destruct (match an_questions a !! sessionKey s with Some _ => _ | None => _ end); [exact Ha|].
  set (x := MkObserved (plain_event s now EventQuestion) None _ _ _ _ fp _ 0 0 [] 0); cbv zeta; apply (analyzer_record_inv a); auto; try (intros HH; discriminate HH).
  - intros key Hne; cbn; apply lookup_insert_ne; intros Hk; apply Hne; symmetry; exact Hk.
  - cbn; change (ob_key x) with (sessionKey s); rewrite lookup_insert_eq; reflexivity.
  - intros key q; cbn; destruct (decide (key = sessionKey s)) as [->|Hne].
    + rewrite lookup_insert_eq; intros [= <-]; cbn; rewrite lookup_insert_eq; eauto.
    + rewrite lookup_insert_ne by congruence; intros Hq; apply (ai_known _ Ha) in Hq; destruct (decide (pq_fingerprint q = fp)) as [->|Hf];
        [rewrite lookup_insert_eq; eauto|rewrite lookup_insert_ne by congruence; exact Hq].
  - intros fp'; unfold tally; cbn [map]; rewrite !count_one; unfold is_question, is_answer; cbn [ob_kind ob_event x ev_Kind plain_event ob_Fingerprint ob_Decision an_stats put_stats].
    destruct (decide (fp = fp')) as [<-|Hne].
    + rewrite lookup_insert_eq, bool_decide_eq_true_2, !bool_decide_eq_false_2 by (auto || (intros (? & ?); discriminate)).
      destruct (an_stats a !! fp) as [st|]; cbn; rewrite ?Z.add_0_r; reflexivity.
    + rewrite lookup_insert_ne by exact Hne; rewrite !bool_decide_eq_false_2 by (intros (? & ?); (discriminate || contradiction)); destruct (an_stats a !! fp') as [st|]; cbn; rewrite ?Z.add_0_r; reflexivity.
  - split; cbn; unfold eventText; intros ->; [reflexivity|]; intros _; exists data; reflexivity.
Qed.

Lemma answer_counts fp d d' x : ob_kind x = EventAnswer -> ob_Fingerprint x = fp -> ob_Decision x = Some d -> is_answer fp d' x = bool_decide (d = d').
Proof. intros H1 H2 H3; apply bool_decide_ext; rewrite H1, H2, H3; naive_solver. Qed.

Lemma input_inv a s data now : analyzer_inv a -> analyzer_inv (ObserveInput s data now a).
Proof.
  intros Ha; unfold ObserveInput; destruct (normalize data) as [|c0 rest0] eqn:En; [exact Ha|]; set (answer := c0 :: rest0) in *.
  destruct (an_questions a !! sessionKey s) as [q|] eqn:Eq; [|exact Ha]; set (d := classifyDecision answer).
  destruct (ai_known _ Ha _ _ Eq) as [st Est]; rewrite Est; cbv zeta.
  set (x := MkObserved (plain_event s now EventAnswer) None _ _ _ _ _ _ 0 0 [] _); apply (analyzer_record_inv a); auto; try (intros HH; discriminate HH).
  - intros key Hne; cbn; apply lookup_delete_ne; intros Hk; apply Hne; symmetry; exact Hk.
  - change (ob_key x) with (sessionKey s); rewrite Eq; cbn; rewrite bool_decide_eq_true_2 by eauto; rewrite lookup_delete_eq; reflexivity.
  - intros key q' Hq; cbn in *; apply lookup_delete_Some in Hq as [_ Hq]; apply (ai_known _ Ha) in Hq.
    destruct (decide (pq_fingerprint q' = pq_fingerprint q)) as [->|Hf]; [rewrite lookup_insert_eq; eauto|rewrite lookup_insert_ne by congruence; exact Hq].
  - intros fp'; unfold tally; cbn [map an_stats put_stats]; rewrite !count_one; unfold is_question.
    destruct (decide (pq_fingerprint q = fp')) as [<-|Hne].
    + rewrite lookup_insert_eq, Est, !(answer_counts _ d) by reflexivity; rewrite bool_decide_eq_false_2 by (intros [? _]; discriminate); cbn; rewrite Z.add_0_r; destruct d; reflexivity.
    + rewrite lookup_insert_ne by exact Hne; unfold is_answer; rewrite !bool_decide_eq_false_2 by (intros (? & Hf); (discriminate || (destruct Hf as [Hf _]; contradiction))); destruct (an_stats a !! fp') as [st'|]; cbn; rewrite ?Z.add_0_r; reflexivity.
  - split; cbn; unfold eventText; intros ->; [reflexivity|]; intros _; exists data; rewrite En; reflexivity.
Qed.

Lemma call_inv a c : analyzer_inv a -> own_event c = true -> analyzer_inv (do_call c a).
Proof.
  intros Ha Hc.
  assert (forall s d kind stream data reason now, kind = EventProviderOutput \/ kind = EventUserInput ->
    analyzer_inv (ObserveOmittedInteraction s d kind stream data reason now a)) as Hom.
  { intros s d kind stream data reason now Hk; destruct data; [exact Ha|]; apply aside_inv; [exact Ha|split|..]; cbn; destruct Hk; subst; discriminate. }
  assert (forall s d kind stream data now, kind = EventProviderOutput \/ kind = EventUserInput ->
    analyzer_inv (analyzer_observeInteraction s d kind stream data now a)) as Hint.
  { intros s d kind stream data now Hk; unfold analyzer_observeInteraction; destruct data as [|c0 data]; [exact Ha|]; destruct (negb _); [apply Hom, Hk|].
    apply aside_inv; [exact Ha|split|..]; cbn; destruct Hk; subst; discriminate. }
  destruct c as [s now|s cx now|s now|s d stream data reason now|s stream data now|s data now|s data now|s data now|x]; cbn [do_call].
  - apply start_inv, Ha.
  - apply aside_inv; [exact Ha|split|..]; discriminate.
  - apply end_inv, Ha.
  - apply Hom; unfold interactionKind; destruct (decide _); auto.
  - exact (Hint s DirectionAgent EventProviderOutput stream data now (or_introl eq_refl)).
  - exact (Hint s DirectionHuman EventUserInput StreamInput data now (or_intror eq_refl)).
  - apply output_inv, Ha.
  - apply input_inv, Ha.
  - cbn in Hc; apply bool_decide_eq_true in Hc; apply aside_inv; [exact Ha|split|..]; destruct Hc as [-> | ->]; discriminate.
Qed.

Lemma analyzer_new_inv redactor include : analyzer_inv (NewAnalyzer redactor include).
Proof. constructor; cbn; auto; intros *; rewrite lookup_empty; discriminate. Qed.

Definition run_calls (cs : list call) (a : Analyzer) : Analyzer := fold_left (fun a c => do_call c a) cs a.

(** C28. The analyzer keeps its books.  Whatever it is told to observe, in whatever order:
    the events of a session are numbered from one without a gap, anew after every
    start; every answer belongs to the question that is open in its session, with its
    class and the time since it was asked, and closes it; for every question the
    statistics are exactly the numbers of questions and answers recorded; and the text
    of questions and answers is redacted and bounded, and there is none unless it was
    asked for. *)
Theorem analyzer_books (redactor : option (list Z -> list Z)) (include : bool) (cs : list call) (Hown : forallb own_event cs = true) :
  let a := run_calls cs (NewAnalyzer redactor include) in
  (forall key, numbered None (of_session key (an_sent a)) /\ open_question (of_session key (an_sent a)) = Some (an_questions a !! key)) /\
  (forall fp, stat_tally (an_stats a !! fp) = tally fp (an_sent a)) /\
  Forall (text_ok a) (an_sent a).
Proof.
  assert (forall a, analyzer_inv a -> analyzer_inv (run_calls cs a)) as Hrun.
  { unfold run_calls; induction cs as [|c cs IH]; intros a Ha; [exact Ha|]; cbn in Hown; apply andb_prop in Hown as [Hc Hcs]; apply (IH Hcs), call_inv; assumption. }
  destruct (Hrun _ (analyzer_new_inv redactor include)) as [H1 H2 _ H4 H5]; cbv zeta; split_and!; auto; intros key; split; [apply H1|apply H2].
Qed.
End Analyzing.

(** ** A concrete run *)

Definition demo_session : Session := MkSession 0 0 "m" "s1" "" "p" "claude" "".

(** A question, the same again, an answer, a line that answers nothing, another
    question, the end. *)
Definition demo_calls : list call :=
  [CStart demo_session 1; COutput demo_session (ascii "Shall I run the tests?") 1000000; COutput demo_session (ascii "Shall I  run the tests?") 2000000;
   CInput demo_session (ascii "yes") 5000000; CInput demo_session (ascii "ls") 6000000; COutput demo_session (ascii "Which token=abc") 7000000;
   CInput demo_session (ascii "use the second one") 9000000; CEnd demo_session 10000000].

Lemma analyzer_books_witness :
  let a := run_calls (fun _ => []) (fun t => t) demo_calls (NewAnalyzer None true) in
  map (fun x => (ob_kind x, ob_seq x, ob_Decision x, ob_LatencyMS x)) (an_sent a) =
    [(EventSessionStarted, 1, None, 0); (EventQuestion, 2, None, 0); (EventAnswer, 3, Some DecisionAccepted, 4); (EventQuestion, 4, None, 0);
     (EventAnswer, 5, Some DecisionChanged, 2); (EventSessionEnded, 6, None, 0)] /\
  numbered None (of_session ("m", "s1") (an_sent a)) /\ open_question (of_session ("m", "s1") (an_sent a)) = Some (an_questions a !! ("m", "s1")).
Proof.
  cbv zeta; split; [vm_compute; reflexivity|].
  destruct (analyzer_books (fun _ => []) (fun t => t) None true demo_calls ltac:(reflexivity)) as [H _]; apply (H ("m", "s1")).
Defined.
