(* ===== verification/Scan.v ===== *)
(** * Record boundaries in a growing buffer: internal/telemetry/live.go
    ([interactionBuffer], [nextInteractionBoundary], [frameBoundary],
    [ansiSequenceEndFrom])

    Output arrives in chunks that end anywhere; the buffer remembers how far it was
    scanned, an escape sequence that is still open, and when a frame is worth another
    look.  The scan that resumes there finds what a scan of the whole buffer from its
    first byte finds ([next_eq]), which is why the records of UTF-8 output do not
    depend on how it was chunked (shown in Live for the collector). *)

From S2P Require Import Prelude GoStd Utf8 Framing Redact Capture Turns.

(** ** ansiSequenceEndFrom *)

(** The loop over a control string from index [i] on, [s] the text there. *)
Fixpoint string_scan (osc : bool) (i : nat) (s : list Z) : nat * bool :=
  match s with
  | [] => (i, false)
  | c :: s' =>
      if osc && (c =? BEL) then (Datatypes.S i, true)
      else if c =? ESC then
        match s' with
        | [] => (i, false)
        | d :: _ => if d =? 92 then (i + 2, true)%nat else string_scan osc (Datatypes.S i) s'
        end
      else string_scan osc (Datatypes.S i) s'
  end.

(** The loop over a control sequence. *)
Fixpoint csi_scan (i : nat) (s : list Z) : nat * bool :=
  match s with
  | [] => (i, false)
  | c :: s => if in_range 64 126 c then (Datatypes.S i, true) else csi_scan (Datatypes.S i) s
  end.

Definition ansiSequenceEndFrom (data : list Z) (start scanFrom : nat) : nat * bool :=
  match data !! Datatypes.S start with
  | None => (length data, false)
  | Some introducer =>
      let scanFrom := if (scanFrom <? start + 2)%nat then (start + 2)%nat else scanFrom in
      if string_introducer introducer then string_scan (introducer =? 93) scanFrom (drop scanFrom data)
      else if negb (introducer =? 91) then ((start + 2)%nat, true)
      else csi_scan scanFrom (drop scanFrom data)
  end.

(** ** The buffer *)

(** [ib_escStart]: the start of an open sequence and how far it was scanned. *)
Record interactionBuffer := MkBuffer {
  ib_direction : Direction;
  ib_stream : StreamType;
  ib_data : list Z;
  ib_scanned : nat;
  ib_frameRetryAt : nat;
  ib_esc : option (nat * nat);
  ib_utf8 : utf8State;
}.

Definition fresh_buffer (d : Direction) (stream : StreamType) (data : list Z) (u : utf8State) : interactionBuffer := MkBuffer d stream data 0 0 None u.

Definition put_scan (scanned retry : nat) (esc : option (nat * nat)) (b : interactionBuffer) : interactionBuffer :=
  MkBuffer (ib_direction b) (ib_stream b) (ib_data b) scanned retry esc (ib_utf8 b).

Definition grow (data : list Z) (b : interactionBuffer) : interactionBuffer :=
  MkBuffer (ib_direction b) (ib_stream b) (ib_data b ++ data) (ib_scanned b) (ib_frameRetryAt b) (ib_esc b) (advanceUTF8State (ib_utf8 b) data).

Definition isRecordBoundary (c : Z) : bool := (c =? 10) || (c =? 13).

(** The end of a synchronized update: ESC, then [?2026l]. *)
Definition frame_end : list Z := [27; 91; 63; 50; 48; 50; 54; 108].

Definition draws (b : interactionBuffer) : bool := bool_decide (ib_direction b = DirectionAgent) && bool_decide (ib_stream b = StreamOutput).

(** [frameBoundary]: where to cut, zero for nowhere, and when to try again. *)
Definition frameBoundary (data : list Z) (retry e : nat) : nat * nat :=
  if (e <? retry)%nat then (O, retry)
  else match safeFrameBoundary (take e data) with
       | O => (O, e * 2)%nat
       | n => (n, retry)
       end.

(** After a complete sequence from [s] to [e]. *)
Definition after_sequence (data : list Z) (drawing : bool) (retry s e : nat) : nat * nat :=
  if drawing && bool_decide (slice s e data = frame_end) then frameBoundary data retry e else (O, retry).

(** The loop from index [i]: the boundary (zero for none), and where the scan stands:
    the index, the retry mark and an open sequence. *)
Fixpoint scan_loop (fuel : nat) (data : list Z) (drawing : bool) (retry i : nat) : nat * (nat * nat * option (nat * nat)) :=
  match fuel, data !! i with
  | Datatypes.S fuel, Some c =>
      if c =? ESC then
        match ansiSequenceEndFrom data i (i + 2) with
        | (e, false) => (O, (i, retry, Some (i, e)))
        | (e, true) =>
            match after_sequence data drawing retry i e with
            | (O, retry) => scan_loop fuel data drawing retry e
            | (n, retry) => (n, (e, retry, None))
            end
        end
      else if isRecordBoundary c then (Datatypes.S i, (i, retry, None))
      else scan_loop fuel data drawing retry (Datatypes.S i)
  | _, _ => (O, (i, retry, None))
  end.

(** The scan from where it stands. *)
Definition resume (data : list Z) (drawing : bool) (st : nat * nat * option (nat * nat)) : nat * (nat * nat * option (nat * nat)) :=
  let '(i, retry, esc) := st in
  match esc with
  | Some (s, from) =>
      match ansiSequenceEndFrom data s from with
      | (e, false) => (O, (i, retry, Some (s, e)))
      | (e, true) =>
          match after_sequence data drawing retry s e with
          | (O, retry) => scan_loop (Datatypes.S (length data)) data drawing retry e
          | (n, retry) => (n, (e, retry, None))
          end
      end
  | None => scan_loop (Datatypes.S (length data)) data drawing retry i
  end.

Definition nextInteractionBoundary (b : interactionBuffer) : interactionBuffer * nat :=
  let '(i, retry) := if (length (ib_data b) <? ib_scanned b)%nat then (O, O) else (ib_scanned b, ib_frameRetryAt b) in
  let '(n, (i, retry, esc)) := resume (ib_data b) (draws b) (i, retry, ib_esc b) in
  (put_scan i retry esc b, n).

(** ** Resuming within a sequence *)

Lemma string_scan_bound osc i s e ok : string_scan osc i s = (e, ok) -> (i <= e <= i + length s)%nat /\ (ok = true -> i < e)%nat.
Proof.
  revert i; induction s as [|c s IH]; intros i; cbn [string_scan length]; [intros [= <- <-]; split; [lia|discriminate]|].
  destruct (osc && _); [intros [= <- <-]; lia|]; destruct (c =? ESC).
  - destruct s as [|d s]; [intros [= <- <-]; split; [cbn; lia|discriminate]|]; destruct (d =? 92); [intros [= <- <-]; cbn; lia|].
    intros H; apply IH in H; cbn in *; lia.
  - intros H; apply IH in H; lia.
Qed.

Lemma csi_scan_bound i s e ok : csi_scan i s = (e, ok) -> (i <= e <= i + length s)%nat /\ (ok = true -> i < e)%nat.
Proof.
  revert i; induction s as [|c s IH]; intros i; cbn [csi_scan length]; [intros [= <- <-]; split; [lia|discriminate]|].
  destruct (in_range 64 126 c); [intros [= <- <-]; lia|]; intros H; apply IH in H; lia.
Qed.

Lemma string_scan_app osc i s e t : string_scan osc i s = (e, true) -> string_scan osc i (s ++ t) = (e, true).
Proof.
  revert i; induction s as [|c s IH]; intros i; cbn [string_scan app]; [discriminate|].
  destruct (osc && _); [auto|]; destruct (c =? ESC); [|apply IH]; destruct s as [|d s]; [discriminate|]; cbn [app].
  destruct (d =? 92); [auto|]; apply IH.
Qed.

Lemma csi_scan_app i s e t : csi_scan i s = (e, true) -> csi_scan i (s ++ t) = (e, true).
Proof. revert i; induction s as [|c s IH]; intros i; cbn [csi_scan app]; [discriminate|]; destruct (in_range 64 126 c); [auto|apply IH]. Qed.

Lemma string_scan_resume osc i s e t : string_scan osc i s = (e, false) -> string_scan osc i (s ++ t) = string_scan osc e (drop (e - i) (s ++ t)).
Proof.
  revert i; induction s as [|c s IH]; intros i; cbn [string_scan app]; [intros [= <-]; rewrite Nat.sub_diag; reflexivity|].
  destruct (osc && _) eqn:Eb; [discriminate|]; destruct (c =? ESC) eqn:Ee.
  - destruct s as [|d s]; [intros [= <-]; rewrite Nat.sub_diag; cbn [app drop string_scan]; rewrite Eb, Ee; reflexivity|].
    destruct (d =? 92) eqn:Ed; [discriminate|]; intros H; apply string_scan_bound in H as Hb; cbn [app]; rewrite Ed; change (d :: s ++ t) with ((d :: s) ++ t).
    rewrite (IH _ H); replace (e - i)%nat with (Datatypes.S (e - Datatypes.S i)) by lia; reflexivity.
  - intros H; apply string_scan_bound in H as Hb; rewrite (IH _ H); replace (e - i)%nat with (Datatypes.S (e - Datatypes.S i)) by lia; reflexivity.
Qed.

Lemma csi_scan_resume i s e t : csi_scan i s = (e, false) -> csi_scan i (s ++ t) = csi_scan e (drop (e - i) (s ++ t)).
Proof.
  revert i; induction s as [|c s IH]; intros i; cbn [csi_scan app]; [intros [= <-]; rewrite Nat.sub_diag; reflexivity|].
  destruct (in_range 64 126 c); [discriminate|]; intros H; apply csi_scan_bound in H as Hb; rewrite (IH _ H).
  replace (e - i)%nat with (Datatypes.S (e - Datatypes.S i)) by lia; reflexivity.
Qed.

(** Where a scan of the sequence may take up: not beyond the text. *)
Definition scan_point (data : list Z) (start from : nat) : Prop := (from <= Nat.max (start + 2) (length data))%nat.

Lemma sequence_bound data start from e ok : ansiSequenceEndFrom data start from = (e, ok) -> (start < length data)%nat -> scan_point data start from ->
  scan_point data start e /\ (ok = true -> start + 2 <= e <= length data)%nat.
Proof.
  unfold ansiSequenceEndFrom, scan_point; destruct (data !! Datatypes.S start) as [c|] eqn:Ec; [|intros [= <- <-]; intros; split; [lia|discriminate]].
  apply lookup_lt_Some in Ec; set (f := if (from <? start + 2)%nat then _ else _); intros H Hs Hp.
  assert (start + 2 <= f <= Nat.max (start + 2) (length data))%nat as Hf by (unfold f; destruct (from <? start + 2)%nat eqn:E; [lia|apply Nat.ltb_ge in E; lia]).
  destruct (string_introducer c); [apply string_scan_bound in H; rewrite length_drop in H; destruct ok; split; try discriminate; lia|].
  destruct (negb (c =? 91)); [injection H as <- <-; split; lia|]; apply csi_scan_bound in H; rewrite length_drop in H; destruct ok; split; try discriminate; lia.
Qed.

(** A sequence that is complete stays so. *)
Lemma sequence_app data start from e t : ansiSequenceEndFrom data start from = (e, true) -> (start < length data)%nat -> scan_point data start from ->
  ansiSequenceEndFrom (data ++ t) start from = (e, true).
Proof.
  unfold ansiSequenceEndFrom, scan_point; destruct (data !! Datatypes.S start) as [c|] eqn:Ec; [|discriminate]; rewrite (lookup_app_l_Some _ _ _ _ Ec).
  apply lookup_lt_Some in Ec; set (f := if (from <? start + 2)%nat then _ else _); intros H Hs Hp.
  assert (f <= length data)%nat as Hf by (unfold f; destruct (from <? start + 2)%nat eqn:E; [lia|apply Nat.ltb_ge in E; lia]).
  rewrite drop_app_le by exact Hf; destruct (string_introducer c); [apply string_scan_app, H|]; destruct (negb (c =? 91)); [exact H|apply csi_scan_app, H].
Qed.

(** One that is not is taken up where the scan stopped. *)
Lemma sequence_resume data start from e t : ansiSequenceEndFrom data start from = (e, false) -> (start < length data)%nat -> scan_point data start from ->
  ansiSequenceEndFrom (data ++ t) start from = ansiSequenceEndFrom (data ++ t) start e.
Proof.
  unfold ansiSequenceEndFrom, scan_point; intros H Hs Hp; destruct (data !! Datatypes.S start) as [c|] eqn:Ec.
  - rewrite (lookup_app_l_Some _ _ _ _ Ec) in *; apply lookup_lt_Some in Ec; set (f := if (from <? start + 2)%nat then _ else _) in *.
    assert (start + 2 <= f <= length data)%nat as Hf by (unfold f; destruct (from <? start + 2)%nat eqn:E; [lia|apply Nat.ltb_ge in E; lia]).
    destruct (string_introducer c).
    + apply string_scan_bound in H as Hb; rewrite (proj2 (Nat.ltb_ge _ _)) by lia; rewrite drop_app_le by lia; rewrite (string_scan_resume _ _ _ _ t H).
      f_equal; rewrite <- (drop_app_le data t f) by lia; rewrite drop_drop; f_equal; lia.
    + destruct (negb (c =? 91)); [discriminate|]; apply csi_scan_bound in H as Hb; rewrite (proj2 (Nat.ltb_ge _ _)) by lia; rewrite drop_app_le by lia.
      rewrite (csi_scan_resume _ _ _ t H); f_equal; rewrite <- (drop_app_le data t f) by lia; rewrite drop_drop; f_equal; lia.
  - injection H as <-; apply lookup_ge_None in Ec; assert (length data = Datatypes.S start) as El by lia.
    destruct ((data ++ t) !! Datatypes.S start) as [c|]; [|reflexivity].
    replace (if (from <? start + 2)%nat then (start + 2)%nat else from) with (start + 2)%nat by (destruct (from <? start + 2)%nat eqn:E; [reflexivity|apply Nat.ltb_ge in E; lia]).
    rewrite (proj2 (Nat.ltb_lt (length data) (start + 2))) by lia; reflexivity.
Qed.

(** From its start on, a sequence ends where [ansiSequenceEnd] of framing.go says. *)
Lemma string_scan_end osc i s : match string_end osc s with Some n => string_scan osc i s = (i + n, true)%nat | None => (string_scan osc i s).2 = false end.
Proof.
  revert i; induction s as [|c s IH]; intros i; cbn [string_end string_scan]; [reflexivity|]; destruct (osc && (c =? BEL)); [f_equal; lia|].
  destruct s as [|d s]; [destruct (c =? ESC); reflexivity|]; specialize (IH (Datatypes.S i)); destruct (c =? ESC); cbn [andb].
  - destruct (d =? 92); [reflexivity|]; destruct (string_end osc (d :: s)); [rewrite IH; f_equal; lia|exact IH].
  - destruct (string_end osc (d :: s)); [rewrite IH; f_equal; lia|exact IH].
Qed.

Lemma csi_scan_end i s : match csi_end s with Some n => csi_scan i s = (i + n, true)%nat | None => (csi_scan i s).2 = false end.
Proof.
  revert i; induction s as [|c s IH]; intros i; cbn [csi_end csi_scan]; [reflexivity|]; destruct (in_range 64 126 c); [f_equal; lia|].
  specialize (IH (Datatypes.S i)); destruct (csi_end s); [rewrite IH; f_equal; lia|exact IH].
Qed.

Lemma sequence_end data i : match ansi_len (drop i data) with Some n => ansiSequenceEndFrom data i (i + 2) = (i + n, true)%nat
                            | None => (ansiSequenceEndFrom data i (i + 2)).2 = false end.
Proof.
  unfold ansiSequenceEndFrom; rewrite Nat.ltb_irrefl; destruct (drop i data) as [|e [|c s]] eqn:Ed.
  1,2: rewrite lookup_ge_None_2; [reflexivity|]; apply (f_equal length) in Ed; rewrite length_drop in Ed; cbn in Ed; lia.
  assert (data !! Datatypes.S i = Some c) as -> by (replace (Datatypes.S i) with (i + 1)%nat by lia; rewrite <- lookup_drop, Ed; reflexivity).
  assert (drop (i + 2) data = s) as -> by (rewrite <- drop_drop, Ed; reflexivity); cbn [ansi_len].
  destruct (string_introducer c).
  - pose proof (string_scan_end (c =? 93) (i + 2) s) as H; destruct (string_end (c =? 93) s); [rewrite H; f_equal; lia|exact H].
  - destruct (negb (c =? 91)); [reflexivity|]; pose proof (csi_scan_end (i + 2) s) as H; destruct (csi_end s); [rewrite H; f_equal; lia|exact H].
Qed.

(** ** Resuming the scan *)

Abbreviation stand := (nat * nat * option (nat * nat))%type.

Definition origin : stand := (O, O, None).

(** Where a scan of [data] may stand. *)
Definition stand_ok (data : list Z) (st : stand) : Prop :=
  (st.1.1 <= length data)%nat /\ match st.2 with Some (s, from) => (s < length data)%nat /\ scan_point data s from | None => True end.

Lemma after_sequence_app data t drawing retry s e : (e <= length data)%nat ->
  after_sequence (data ++ t) drawing retry s e = after_sequence data drawing retry s e.
Proof.
  intros He; unfold after_sequence, frameBoundary, slice.
  rewrite (take_app_le data t e) by exact He; destruct (Nat.le_gt_cases s (length data)).
  - rewrite drop_app_le by lia; rewrite take_app_le by (rewrite length_drop; lia); reflexivity.
  - replace (e - s)%nat with O by lia; reflexivity.
Qed.

Lemma after_sequence_bound data drawing retry s e : (e <= length data)%nat -> ((after_sequence data drawing retry s e).1 <= length data)%nat.
Proof.
  intros He; unfold after_sequence, frameBoundary; destruct (_ && _); [|cbn; lia]; destruct (_ <? _)%nat; [cbn; lia|].
  pose proof (safeFrameBoundary_le (take e data)) as H; rewrite length_take in H; destruct (safeFrameBoundary _); cbn in *; lia.
Qed.

Lemma scan_loop_fuel n m data dr retry i : (length data < n + i)%nat -> (length data < m + i)%nat -> scan_loop n data dr retry i = scan_loop m data dr retry i.
Proof.
  revert m retry i; induction n as [|n IH]; intros m retry i Hn Hm.
  - destruct m as [|m]; [reflexivity|]; cbn [scan_loop]; rewrite lookup_ge_None_2 by lia; reflexivity.
  - destruct m as [|m]; [cbn [scan_loop]; rewrite lookup_ge_None_2 by lia; reflexivity|]; cbn [scan_loop].
    destruct (data !! i) as [c|] eqn:Ei; [|reflexivity]; apply lookup_lt_Some in Ei; destruct (c =? ESC).
    + destruct (ansiSequenceEndFrom data i (i + 2)) as [e []] eqn:Ee; [|reflexivity]; apply sequence_bound in Ee as [_ Hb]; [|exact Ei|unfold scan_point; lia].
      destruct (after_sequence data dr retry i e) as [[|k] r]; [apply IH; specialize (Hb eq_refl); lia|reflexivity].
    + destruct (isRecordBoundary c); [reflexivity|apply IH; lia].
Qed.

(** The scan goes on as if the text had been there from the start. *)
Lemma scan_loop_extend n data dr t : forall m retry i k st, scan_loop n data dr retry i = (k, st) -> (i <= length data < n + i)%nat -> (length (data ++ t) < m + i)%nat ->
  (k <= length data)%nat /\
  (k <> O -> (scan_loop m (data ++ t) dr retry i).1 = k) /\
  (k = O -> stand_ok data st /\ scan_loop m (data ++ t) dr retry i = resume (data ++ t) dr st).
Proof.
  induction n as [|n IH]; intros m retry i k st H Hi Hm; [lia|]; cbn [scan_loop] in H; destruct (data !! i) as [c|] eqn:Ei.
  2:{ injection H as <- <-; apply lookup_ge_None in Ei; split; [lia|]; split; [contradiction|]; intros _; split; [split; [cbn; lia|exact I]|].
      unfold resume; apply scan_loop_fuel; rewrite length_app in *; lia. }
  pose proof (lookup_lt_Some _ _ _ Ei) as Hlt; destruct m as [|m]; [rewrite length_app in Hm; lia|]; cbn [scan_loop]; rewrite (lookup_app_l_Some _ _ _ _ Ei); destruct (c =? ESC) eqn:Ec.
  - assert (scan_point data i (i + 2)) as Hp by (unfold scan_point; lia).
    destruct (ansiSequenceEndFrom data i (i + 2)) as [e []] eqn:Ee; apply sequence_bound in Ee as Hb; auto; destruct Hb as [Hb1 Hb2].
    + specialize (Hb2 eq_refl); rewrite (sequence_app _ _ _ _ t Ee Hlt Hp), after_sequence_app by lia.
      pose proof (after_sequence_bound data dr retry i e ltac:(lia)) as Hab; destruct (after_sequence data dr retry i e) as [[|k'] r].
      * apply (IH m) in H; [exact H|lia|lia].
      * injection H as <- <-; cbn in *; split; [lia|]; split; [reflexivity|discriminate].
    + injection H as <- <-; split; [lia|]; split; [contradiction|]; intros _; split; [split; cbn; auto; lia|].
      rewrite (sequence_resume _ _ _ _ t Ee Hlt Hp); unfold resume; destruct (ansiSequenceEndFrom (data ++ t) i e) as [e' []] eqn:Ee'; [|reflexivity].
      apply sequence_bound in Ee' as [_ Hb]; [|rewrite length_app; lia|unfold scan_point in *; rewrite length_app; lia]; specialize (Hb eq_refl).
      destruct (after_sequence (data ++ t) dr retry i e') as [[|k'] r]; [apply scan_loop_fuel; lia|reflexivity].
  - destruct (isRecordBoundary c); [injection H as <- <-; split; [lia|]; split; [reflexivity|discriminate]|]; apply (IH m) in H; [exact H|lia|lia].
Qed.

Lemma resume_extend data dr t st k st' : stand_ok data st -> resume data dr st = (k, st') ->
  (k <= length data)%nat /\
  (k <> O -> (resume (data ++ t) dr st).1 = k) /\
  (k = O -> stand_ok data st' /\ resume (data ++ t) dr st = resume (data ++ t) dr st').
Proof.
  destruct st as [[i retry] [[s from]|]]; intros [Hi Hesc] H; cbn [fst snd] in *; unfold resume in H.
  - destruct Hesc as [Hs Hp]; destruct (ansiSequenceEndFrom data s from) as [e []] eqn:Ee; apply sequence_bound in Ee as Hb; auto; destruct Hb as [Hb1 Hb2].
    + specialize (Hb2 eq_refl); unfold resume at 1 2; rewrite (sequence_app _ _ _ _ t Ee Hs Hp), after_sequence_app by lia.
      pose proof (after_sequence_bound data dr retry s e ltac:(lia)) as Hab; destruct (after_sequence data dr retry s e) as [[|k'] r].
      * apply (scan_loop_extend _ _ _ t (Datatypes.S (length (data ++ t)))) in H; [exact H|lia|lia].
      * injection H as <- <-; cbn in *; split; [lia|]; split; [reflexivity|discriminate].
    + injection H as <- <-; split; [lia|]; split; [contradiction|]; intros _; split; [split; cbn; auto|].
      unfold resume; rewrite (sequence_resume _ _ _ _ t Ee Hs Hp); reflexivity.
  - unfold resume at 1 2; apply (scan_loop_extend _ _ _ t (Datatypes.S (length (data ++ t)))) in H; [exact H|lia|lia].
Qed.

(** ** Buffers *)

Definition stand_of (b : interactionBuffer) : stand := (ib_scanned b, ib_frameRetryAt b, ib_esc b).

(** The scan stands where a scan from the first byte would. *)
Definition buffer_ok (b : interactionBuffer) : Prop :=
  stand_ok (ib_data b) (stand_of b) /\
  forall t, resume (ib_data b ++ t) (draws b) (stand_of b) = resume (ib_data b ++ t) (draws b) origin.

Lemma fresh_ok d stream data u : buffer_ok (fresh_buffer d stream data u).
Proof. split; [split; [cbn; lia|exact I]|reflexivity]. Qed.

Lemma grow_ok b data : buffer_ok b -> buffer_ok (grow data b).
Proof.
  intros [[H1 H2] H3]; split; [split; cbn in *; [rewrite length_app; lia|]|].
  - destruct (ib_esc b) as [[s from]|]; [|exact I]; unfold scan_point in *; rewrite length_app; lia.
  - intros t; cbn [ib_data grow]; rewrite <- app_assoc; apply H3.
Qed.

Lemma next_eq b : buffer_ok b -> nextInteractionBoundary b =
  let '(n, (i, retry, esc)) := resume (ib_data b) (draws b) origin in (put_scan i retry esc b, n).
Proof.
  intros [[H1 _] H]; unfold nextInteractionBoundary; cbn in H1; rewrite (proj2 (Nat.ltb_ge _ _)) by exact H1.
  specialize (H []); rewrite app_nil_r in H; unfold stand_of in H; rewrite H; reflexivity.
Qed.

Lemma next_ok b b' : buffer_ok b -> nextInteractionBoundary b = (b', O) -> buffer_ok b' /\ ib_data b' = ib_data b.
Proof.
  intros Hb; rewrite next_eq by exact Hb; destruct (resume (ib_data b) (draws b) origin) as [n [[i retry] esc]] eqn:Er; intros [= <- ->].
  split; [|reflexivity]; split; cbn; [|intros t]; destruct (resume_extend (ib_data b) (draws b) [] origin _ _ (proj1 (fresh_ok DirectionAgent StreamOutput _ clean)) Er) as (_ & _ & H); [apply H; reflexivity|].
  destruct (resume_extend (ib_data b) (draws b) t origin _ _ (proj1 (fresh_ok DirectionAgent StreamOutput _ clean)) Er) as (_ & _ & H'); symmetry; apply H'; reflexivity.
Qed.

(** ** Records *)

(** The loop of [observeInteraction] over the boundaries: the records, and the buffer
    that is left. *)
Fixpoint drain (fuel : nat) (b : interactionBuffer) : list (list Z) * interactionBuffer :=
  match fuel, nextInteractionBoundary b with
  | Datatypes.S fuel, (_, Datatypes.S n) =>
      let rest := drop (Datatypes.S n) (ib_data b) in
      let '(rs, b') := drain fuel (fresh_buffer (ib_direction b) (ib_stream b) rest (advanceUTF8State clean rest)) in
      (take (Datatypes.S n) (ib_data b) :: rs, b')
  | _, (b', _) => ([], b')
  end.

(** A chunk that is appended. *)
Definition feed (b : interactionBuffer) (chunk : list Z) : list (list Z) * interactionBuffer := drain (length (ib_data b ++ chunk)) (grow chunk b).

(** The test for a chunk that is not UTF-8 after one that is: the buffer is flushed
    before the chunk is appended. *)
Definition resets (b : interactionBuffer) (data : list Z) : bool :=
  negb (bool_decide (ib_data b = [])) && negb (broken (ib_utf8 b)) && bool_decide (tail (ib_utf8 b) = []) && negb (validOrIncompleteUTF8 data).

(** The same by looking at the whole text every time. *)
Fixpoint cut_fuel (fuel : nat) (drawing : bool) (data : list Z) : list (list Z) * list Z :=
  match fuel, (resume data drawing origin).1 with
  | Datatypes.S fuel, Datatypes.S n => let '(rs, r) := cut_fuel fuel drawing (drop (Datatypes.S n) data) in (take (Datatypes.S n) data :: rs, r)
  | _, _ => ([], data)
  end.

Definition cut_records (drawing : bool) (data : list Z) : list (list Z) * list Z := cut_fuel (length data) drawing data.

Lemma origin_ok data : stand_ok data origin.
Proof. split; [cbn; lia|exact I]. Qed.

Lemma boundary_le data dr : ((resume data dr origin).1 <= length data)%nat.
Proof. destruct (resume data dr origin) as [k st] eqn:E; apply (resume_extend _ _ [] _ _ _ (origin_ok data) E). Qed.

Lemma boundary_app data dr t : (resume data dr origin).1 <> O -> (resume (data ++ t) dr origin).1 = (resume data dr origin).1.
Proof. destruct (resume data dr origin) as [k st] eqn:E; cbn; apply (resume_extend _ _ t _ _ _ (origin_ok data) E). Qed.

Lemma cut_fuel_enough n m dr data : (length data <= n)%nat -> (length data <= m)%nat -> cut_fuel n dr data = cut_fuel m dr data.
Proof.
  revert m data; induction n as [|n IH]; intros m data Hn Hm; pose proof (boundary_le data dr) as Hb.
  - destruct data; [|cbn in Hn; lia]; destruct m; cbn [cut_fuel]; destruct (resume [] dr origin).1; cbn in *; try lia; reflexivity.
  - destruct m as [|m]; [destruct data; [|cbn in Hm; lia]; cbn [cut_fuel]; destruct (resume [] dr origin).1; cbn in *; try lia; reflexivity|].
    cbn [cut_fuel]; destruct (resume data dr origin).1 as [|k]; [reflexivity|]; rewrite (IH m) by (rewrite length_drop; lia); reflexivity.
Qed.

Lemma cut_step dr data : cut_records dr data =
  match (resume data dr origin).1 with
  | O => ([], data)
  | n => let '(rs, r) := cut_records dr (drop n data) in (take n data :: rs, r)
  end.
Proof.
  unfold cut_records; pose proof (boundary_le data dr) as Hb; destruct data as [|c data].
  { cbn [length cut_fuel]; destruct (resume [] dr origin).1 as [|k]; [reflexivity|cbn in Hb; lia]. }
  cbn [length cut_fuel]; destruct (resume (c :: data) dr origin).1 as [|k]; [reflexivity|].
  rewrite (cut_fuel_enough (length data) (length (drop (Datatypes.S k) (c :: data)))) by (rewrite length_drop; cbn; lia); reflexivity.
Qed.

Lemma cut_app dr t : forall n data, (length data <= n)%nat ->
  cut_records dr (data ++ t) = let '(rs, r) := cut_records dr data in let '(rs', r') := cut_records dr (r ++ t) in (rs ++ rs', r').
Proof.
  induction n as [|n IH]; intros data Hn; rewrite (cut_step dr data); destruct (resume data dr origin).1 as [|k] eqn:Ek.
  1,3: cbn [app]; destruct (cut_records dr (data ++ t)); reflexivity.
  - pose proof (boundary_le data dr); lia.
  - pose proof (boundary_le data dr) as Hb; rewrite Ek in Hb; rewrite (cut_step dr (data ++ t)), boundary_app by (rewrite Ek; discriminate); rewrite Ek.
    cbv beta iota zeta; rewrite drop_app_le, take_app_le by exact Hb; rewrite (IH (drop (Datatypes.S k) data)) by (rewrite length_drop; lia).
    destruct (cut_records dr (drop (Datatypes.S k) data)) as [rs r]; destruct (cut_records dr (r ++ t)) as [rs' r']; reflexivity.
Qed.

Lemma drain_cut n : forall b, buffer_ok b -> (length (ib_data b) <= n)%nat ->
  (drain n b).1 = (cut_records (draws b) (ib_data b)).1 /\ ib_data (drain n b).2 = (cut_records (draws b) (ib_data b)).2 /\
  buffer_ok (drain n b).2 /\ draws (drain n b).2 = draws b.
Proof.
  induction n as [|n IH]; intros b Hb Hn; rewrite (cut_step (draws b)); cbn [drain]; pose proof (boundary_le (ib_data b) (draws b)) as Hle;
    destruct (nextInteractionBoundary b) as [b' k] eqn:En; pose proof En as En'; rewrite next_eq in En by exact Hb;
    destruct (resume (ib_data b) (draws b) origin) as [m [[i retry] esc]]; injection En as <- <-; cbn [fst] in *; destruct m as [|m].
  1,3: destruct (next_ok _ _ Hb En') as [H1 H2]; cbn [fst snd]; auto.
  - lia.
  - set (rest := drop (Datatypes.S m) (ib_data b)); set (b1 := fresh_buffer _ _ rest _).
    destruct (IH b1 (fresh_ok _ _ _ _)) as (I1 & I2 & I3 & I4); [cbn; unfold rest; rewrite length_drop; lia|].
    change (draws b1) with (draws b) in *; change (ib_data b1) with rest in *; destruct (drain n b1) as [rs b2]; destruct (cut_records (draws b) rest) as [rs' r']; cbn [fst snd] in *.
    split_and!; auto; congruence.
Qed.

Lemma feed_cut b c : buffer_ok b ->
  (feed b c).1 = (cut_records (draws b) (ib_data b ++ c)).1 /\ ib_data (feed b c).2 = (cut_records (draws b) (ib_data b ++ c)).2 /\
  buffer_ok (feed b c).2 /\ draws (feed b c).2 = draws b.
Proof. intros Hb; apply (drain_cut (length (ib_data b ++ c)) (grow c b)); [apply grow_ok, Hb|reflexivity]. Qed.

Lemma drain_same n : forall b, ib_direction (drain n b).2 = ib_direction b /\ ib_stream (drain n b).2 = ib_stream b.
Proof.
  assert (forall b, ib_direction (nextInteractionBoundary b).1 = ib_direction b /\ ib_stream (nextInteractionBoundary b).1 = ib_stream b) as Hnext.
  { intros b; unfold nextInteractionBoundary; destruct (if (length (ib_data b) <? ib_scanned b)%nat then (O, O) else (ib_scanned b, ib_frameRetryAt b)) as [i r]; destruct (resume _ _ _) as [k [[i' r'] e]]; auto. }
  induction n as [|n IH]; intros b; cbn [drain]; specialize (Hnext b); destruct (nextInteractionBoundary b) as [b' [|k]]; cbn [fst snd] in *; auto.
  match goal with |- context [drain n ?x] => specialize (IH x); destruct (drain n x) as [rs b2] end; exact IH.
Qed.

Lemma feed_same b c : ib_direction (feed b c).2 = ib_direction b /\ ib_stream (feed b c).2 = ib_stream b.
Proof. apply (drain_same (length (ib_data b ++ c)) (grow c b)). Qed.

Lemma cut_conserves n : forall dr data, (length data <= n)%nat -> concat (cut_records dr data).1 ++ (cut_records dr data).2 = data.
Proof.
  induction n as [|n IH]; intros dr data Hn; rewrite cut_step; pose proof (boundary_le data dr) as Hb; destruct (resume data dr origin).1 as [|k]; cbv zeta; try reflexivity; [lia|].
  specialize (IH dr (drop (Datatypes.S k) data) ltac:(rewrite length_drop; lia)); destruct (cut_records dr (drop (Datatypes.S k) data)) as [rs r]; cbn [fst snd concat] in *.
  rewrite <- app_assoc, IH; apply take_drop.
Qed.

Lemma cut_again n : forall dr data, (length data <= n)%nat -> cut_records dr (cut_records dr data).2 = ([], (cut_records dr data).2).
Proof.
  induction n as [|n IH]; intros dr data Hn; rewrite (cut_step dr data); pose proof (boundary_le data dr) as Hb; destruct (resume data dr origin).1 as [|k] eqn:Ek; cbv zeta; [| lia| |].
  1,2: cbn [snd]; rewrite cut_step, Ek; reflexivity.
  specialize (IH dr (drop (Datatypes.S k) data) ltac:(rewrite length_drop; lia)); destruct (cut_records dr (drop (Datatypes.S k) data)) as [rs r]; exact IH.
Qed.

(** The buffer knows whether its text is UTF-8. *)
Definition utf8_ok (b : interactionBuffer) : Prop := ib_utf8 b = state_of (ib_data b).

Lemma fresh_utf8 d stream data : utf8_ok (fresh_buffer d stream data (state_of data)).
Proof. reflexivity. Qed.

Lemma drain_utf8 n : forall b, utf8_ok b -> utf8_ok (drain n b).2.
Proof.
  assert (forall b, utf8_ok b -> utf8_ok (nextInteractionBoundary b).1) as Hnext.
  { intros b Hb; unfold nextInteractionBoundary; destruct (if (length (ib_data b) <? ib_scanned b)%nat then (O, O) else (ib_scanned b, ib_frameRetryAt b)) as [i r];
      destruct (resume _ _ _) as [k [[i' r'] e]]; exact Hb. }
  induction n as [|n IH]; intros b Hb; cbn [drain]; specialize (Hnext b Hb); destruct (nextInteractionBoundary b) as [b' [|k]]; cbn [fst snd] in *; auto.
  match goal with |- context [drain n ?x] => specialize (IH x eq_refl); destruct (drain n x) as [rs b2] end; exact IH.
Qed.

Lemma feed_utf8 b c : utf8_ok b -> utf8_ok (feed b c).2.
Proof. intros Hb; apply drain_utf8; unfold utf8_ok in *; cbn [ib_utf8 ib_data grow]; rewrite Hb; apply advance_state. Qed.

(** A chunk that continues UTF-8 flushes nothing. *)
Lemma resets_not b data : utf8_ok b -> broken (state_of (ib_data b ++ data)) = false -> resets b data = false.
Proof.
  unfold utf8_ok, resets; intros -> Hb; destruct (broken (state_of (ib_data b))) eqn:E1; [rewrite andb_false_r; reflexivity|].
  destruct (bool_decide_reflect (tail (state_of (ib_data b)) = [])) as [Ht|]; [|rewrite andb_false_r; reflexivity].
  rewrite state_valid_app in Hb by (apply clean_valid; assumption); rewrite valid_or_incomplete, Hb, andb_false_r; reflexivity.
Qed.

(** Where resuming and flushing make no difference: every record that a scan of the
    whole text cuts, and what is left, is UTF-8, and no part of it that waits for its
    boundary outgrows the buffer. *)
Definition scannable (limit : Z) (dr : bool) (text : list Z) : Prop :=
  Forall (fun r => ValidString r = true) (cut_records dr text).1 /\ validOrIncompleteUTF8 (cut_records dr text).2 = true /\
  forall k, zlen (cut_records dr (take k text)).2 <= limit.

Lemma scannable_next limit dr p c more : scannable limit dr (p ++ c ++ more) ->
  broken (state_of ((cut_records dr p).2 ++ c)) = false /\ zlen (cut_records dr (p ++ c)).2 <= limit.
Proof.
  intros (H1 & H2 & H3); split.
  - rewrite (cut_app dr (c ++ more) _ p (le_n _)) in H1, H2; destruct (cut_records dr p) as [rs r]; pose proof (cut_conserves _ dr (r ++ c ++ more) (le_n _)) as E.
    destruct (cut_records dr (r ++ c ++ more)) as [rs' r']; cbn [fst snd] in *; apply Forall_app in H1 as [_ H1].
    apply (broken_app _ more); rewrite <- app_assoc, <- E, state_valid_app by (apply Valid_concat, H1); rewrite valid_or_incomplete in H2.
    apply negb_true_iff, H2.
  - specialize (H3 (length (p ++ c))); rewrite app_assoc, take_app_length in H3; exact H3.
Qed.

(** What fits the buffer as a whole never outgrows it. *)
Lemma scannable_small limit dr text : zlen text <= limit ->
  forallb ValidString (cut_records dr text).1 = true -> validOrIncompleteUTF8 (cut_records dr text).2 = true -> scannable limit dr text.
Proof.
  intros Hl H1 H2; split_and!; [apply List.Forall_forall; rewrite forallb_forall in H1; exact H1|exact H2|]; intros k.
  pose proof (f_equal zlen (cut_conserves _ dr (take k text) (le_n _))) as E; rewrite zlen_app in E; pose proof (zlen_nonneg (concat (cut_records dr (take k text)).1)).
  pose proof (f_equal zlen (take_drop k text)) as E'; rewrite zlen_app in E'; pose proof (zlen_nonneg (drop k text)); lia.
Qed.
