(* ===== verification/TermCapture.v ===== *)
(** * Terminal transcripts: internal/telemetry/terminal_capture.go

    Output of a full-screen program is drawn on an emulator of its own; what changed on
    the screen becomes the transcript.  Secrets are masked before and after drawing, and
    only layout controls reach the emulator.

    The emulator (charmbracelet/x/vt) and the width of text (charmbracelet/x/ansi) are
    the class [Vt]. *)

From S2P Require Import Prelude GoStd Utf8 Framing Regexp Redact Capture Turns Questions Scan.

Class Vt (T line : Type) := {
  vt_new : Z -> Z -> T;
  vt_width : T -> Z;
  vt_height : T -> Z;
  vt_resize : Z -> Z -> T -> T;
  vt_write : list Z -> T -> T;
  vt_string : T -> list Z;
  vt_render : T -> list Z;
  vt_scrollback : T -> list line;
  vt_clear_scrollback : T -> T;
  vt_push : line -> T -> T;
  vt_star : nat -> nat -> T -> T; (* a star in the cell of a column and a row *)
  line_render : line -> list Z;
  ansi_strip : list Z -> list Z;
  string_width : list Z -> nat;
}.

(** ** Layout controls *)

Definition one_char (s : string) (c : Z) : bool := existsb (Z.eqb c) (ascii s).

Definition layoutControl (s : list Z) : bool :=
  match s with
  | [_; c] => one_char "78DEM" c
  | _ :: 91 :: rest =>
      match reverse rest with
      | [] => false
      | command :: params =>
          let params := reverse params in
          if (command =? 104) || (command =? 108) then
            bool_decide (params ∈ [ascii "?7"; ascii "?47"; ascii "?1047"; ascii "?1049"])
          else one_char "ABCDEFGHJKLMPSTX@`adefrsum" command &&
               forallb (fun c => (c =? 59) || ((command =? 109) && (c =? 58)) || in_range 48 57 c) params
      end
  | _ => false
  end.

Definition printable (r : Z) : bool :=
  ((32 <=? r) && ((r <? 127) || (159 <? r))) || (r =? 13) || (r =? 10) || (r =? 9) || (r =? 8).

(** The loop from index [i]; [None] beside an open sequence ends it. *)
Fixpoint layout_from (fuel : nat) (data : list Z) (i : nat) : list Z :=
  match fuel, data !! i with
  | Datatypes.S fuel, Some c =>
      if c =? ESC then
        match ansiSequenceEndFrom data i (i + 2) with
        | (_, false) => []
        | (e, true) => (if layoutControl (slice i e data) then slice i e data else []) ++ layout_from fuel data e
        end
      else
        let '(r, w) := DecodeRune (drop i data) in
        (if printable r then written (r, take w (drop i data)) else []) ++ layout_from fuel data (i + w)
  | _, _ => []
  end.

Definition terminalLayoutOnly (raw : list Z) : list Z := layout_from (length raw) raw 0.

(** ** Masking *)

(** The text without sequences (and line ends when [joined]), each byte with its
    offset; it ends at an open sequence. *)
Fixpoint plain_from (fuel : nat) (data : list Z) (joined : bool) (i : nat) : list (Z * nat) :=
  match fuel, data !! i with
  | Datatypes.S fuel, Some c =>
      if c =? ESC then
        match ansiSequenceEndFrom data i (i + 2) with
        | (_, false) => []
        | (e, true) => plain_from fuel data joined e
        end
      else if joined && ((c =? 13) || (c =? 10)) then plain_from fuel data joined (Datatypes.S i)
      else (c, i) :: plain_from fuel data joined (Datatypes.S i)
  | _, _ => []
  end.

Definition plain_text (raw : list Z) (joined : bool) : list (Z * nat) := plain_from (length raw) raw joined 0.

Definition part {A} (a b : nat) (l : list A) : list A := take (b - a) (drop a l).

(** The offsets that one view masks, match by match. *)
Definition view_matches (raw : list Z) (joined : bool) : list (list nat) :=
  let k := plain_text raw joined in
  concat (map (fun r => map (fun '(a, b) => map snd (part a b k)) (FindAllIndex r (map fst k))) credentials).

Definition all_matched (raw : list Z) (joinLines : bool) : list (list nat) :=
  view_matches raw false ++ if joinLines then view_matches raw true else [].

Section Masking.
Context `{Vt T line}.

(** The runes from offset [i] on. *)
Fixpoint mask_from (masked : list nat) (i : nat) (ps : list (Z * list Z)) : list Z :=
  match ps with
  | [] => []
  | p :: ps =>
      (if bool_decide (i ∈ masked) && negb ((p.1 =? 13) || (p.1 =? 10) || (p.1 =? 9))
       then replicate (string_width (written p)) 42 else written p) ++ mask_from masked (i + length p.2) ps
  end.

Definition maskTerminalSecrets (raw : list Z) (joinLines : bool) : list Z * Z :=
  let ms := all_matched raw joinLines in
  match ms with
  | [] => (raw, 0)
  | _ => (mask_from (concat ms) 0 (pieces raw), zlen ms)
  end.

(** ** The capture of a session *)

(** [tc_id] tells captures of one session apart; [tc_timer]: the timer runs. *)
Record terminalCapture := MkCapture {
  tc_id : nat;
  tc_screen : T;
  tc_previous : list (list Z);
  tc_styled : list Z;
  tc_snapshot : option TerminalSnapshot;
  tc_pending : option Observed;
  tc_timer : bool;
}.

Definition eraseDisplayRE : regex := Seqs [Lit [27; 91]; Star true (Cls (Z.eqb 48)); Lit [50; 74]].

(** One erase of the screen: the lines scrolled off before stay, the erased ones do not
    join them. *)
Definition write_erase (data : list Z) (start : nat) (m : nat * nat) (t : T) : T :=
  let t := vt_write (part start m.1 data) t in
  let backlog := vt_scrollback t in
  fold_left (fun t l => vt_push l t) backlog (vt_clear_scrollback (vt_write (part m.1 m.2 data) t)).

Fixpoint write_parts (data : list Z) (start : nat) (ms : list (nat * nat)) (t : T) : T :=
  match ms with
  | [] => vt_write (drop start data) t
  | m :: ms => write_parts data m.2 ms (write_erase data start m t)
  end.

Definition writeLayout (data : list Z) (t : T) : T := write_parts data 0 (FindAllIndex eraseDisplayRE data) t.

(** [strings.Split] at line ends, [strings.SplitN] likewise, and [strings.Join]. *)
Fixpoint split_line (s : list Z) : list (list Z) :=
  match s with
  | [] => [[]]
  | c :: s => if c =? 10 then [] :: split_line s
              else match split_line s with w :: ws => (c :: w) :: ws | [] => [[c]] end
  end.

Fixpoint join_line (l : list (list Z)) : list Z :=
  match l with
  | [] => []
  | [w] => w
  | w :: l => w ++ 10 :: join_line l
  end.

Definition split_n (n : nat) (s : list Z) : list (list Z) :=
  let l := split_line s in
  if (length l <=? n)%nat then l else take (n - 1) l ++ [join_line (drop (n - 1) l)].

(** The stars of a masked screen, put into the cells. *)
Definition star_cells (y : nat) (w : list Z) (t : T) : T :=
  (fix go (off : nat) (ps : list (Z * list Z)) (t : T) : T :=
     match ps with
     | [] => t
     | p :: ps => go (off + length p.2)%nat ps (if p.1 =? 42 then vt_star (string_width (take off w)) y t else t)
     end) O (pieces w) t.

Fixpoint star_rows (y : nat) (ls : list (list Z)) (t : T) : T :=
  match ls with
  | [] => t
  | l :: ls => star_rows (Datatypes.S y) ls (star_cells y l t)
  end.

(** The lines that differ from those of the last screen. *)
Fixpoint changed_lines (previous ls : list (list Z)) : list Z :=
  match ls with
  | [] => []
  | l :: ls =>
      (if negb (blank l) && negb (bool_decide (head previous = Some l)) then l ++ [10] else []) ++ changed_lines (List.tl previous) ls
  end.

Definition last_or_empty (l : list (list Z)) : list Z := match reverse l with w :: _ => w | [] => [] end.

(** [renderedOutput] on the capture of the session, created or resized as needed; the
    text and the number of redactions. *)
Definition sized_capture (id : nat) (cols rows : Z) (c : option terminalCapture) : terminalCapture :=
  match c with
  | None => MkCapture id (vt_new cols rows) [] [] None None false
  | Some c =>
      if negb (vt_width (tc_screen c) =? cols) || negb (vt_height (tc_screen c) =? rows)
      then MkCapture (tc_id c) (vt_resize cols rows (tc_screen c)) [] (ascii "<resized>") (tc_snapshot c) (tc_pending c) (tc_timer c)
      else c
  end.

Definition renderedOutput (id : nat) (s : Session) (data : list Z) (c : option terminalCapture) : terminalCapture * list Z * Z :=
  let cols := Z.min (se_Cols s) 500 in
  let rows := Z.min (se_Rows s) 300 in
  let c := sized_capture id cols rows c in
  let '(safe, n1) := maskTerminalSecrets data false in
  let t := writeLayout (terminalLayoutOnly safe) (tc_screen c) in
  let scrolled := vt_scrollback t in
  let '(safePlain, n2) := maskTerminalSecrets (join_line (map (fun l => ansi_strip (line_render l)) scrolled ++ [vt_string t])) true in
  let screen := last_or_empty (split_n (length scrolled + 1) safePlain) in
  let ls := split_line screen in
  let t := if 0 <? n2 then star_rows 0 ls t else t in
  let changed := changed_lines (tc_previous c) ls in
  let '(safeStyled, n3) := maskTerminalSecrets (join_line (map line_render scrolled ++ [vt_render t])) true in
  let split := split_n (length scrolled + 1) safeStyled in
  let scrollback := match scrolled with [] => [] | _ => join_line (take (length scrolled) split) ++ [10] end in
  let styled := last_or_empty split in
  let t := vt_clear_scrollback t in
  let fresh := negb (bool_decide (styled = tc_styled c)) || negb (bool_decide (scrollback = [])) in
  (MkCapture (tc_id c) t ls (if fresh then styled else tc_styled c)
     (if fresh then Some (MkSnapshot 1 cols rows styled scrollback) else None) (tc_pending c) (tc_timer c), changed, n1 + n2 + n3).

(** ** Coalescing *)

Definition maxInteractionBufferSize : Z := 1048576.

Definition put_pending (x : option Observed) (timer : bool) (c : terminalCapture) : terminalCapture :=
  MkCapture (tc_id c) (tc_screen c) (tc_previous c) (tc_styled c) (tc_snapshot c) x timer.

(** [flush]: the event that waits is recorded. *)
Definition capture_flush (c : terminalCapture) (a : Analyzer) : terminalCapture * Analyzer :=
  (put_pending None false c, match tc_pending c with Some x => record x a | None => a end).

Definition with_terminal (x : Observed) (t : option TerminalSnapshot) (text : list Z) (bytes redactions : Z) : Observed :=
  MkObserved (ob_event x) t (ob_Direction x) (ob_Stream x) (ob_Class x) (ob_Decision x) (ob_Fingerprint x) text bytes redactions
    (ob_ContentHash x) (ob_LatencyMS x).

(** An event that is joined to the one that waits. *)
Definition coalesce (p x : Observed) : Observed :=
  let t := match ob_Terminal x, ob_Terminal p with
           | Some n, Some o => Some (MkSnapshot (sn_Version n) (sn_Cols n) (sn_Rows n) (sn_ANSI n) (sn_Scrollback o ++ sn_Scrollback n))
           | Some n, None => Some n
           | None, o => o
           end in
  with_terminal x t (ob_Text p ++ ob_Text x) (ob_ByteCount x + ob_ByteCount p) (ob_Redactions x + ob_Redactions p).

Definition recordTerminal (x : Observed) (c : terminalCapture) (a : Analyzer) : terminalCapture * Analyzer :=
  let x := match tc_pending c with Some p => coalesce p x | None => x end in
  let c := put_pending (Some x) true c in
  if (maxInteractionBufferSize <? zlen (ob_Text x)) ||
     match ob_Terminal x with Some t => maxInteractionBufferSize <? zlen (sn_Scrollback t) | None => false end
  then capture_flush c a else (c, a).
End Masking.

(** ** What reaches the emulator *)

(** The loop on the text that is left. *)
Fixpoint layout_of (fuel : nat) (s : list Z) : list Z :=
  match fuel, s with
  | Datatypes.S fuel, c :: _ =>
      if c =? ESC then
        match ansi_len s with
        | None => []
        | Some n => (if layoutControl (take n s) then take n s else []) ++ layout_of fuel (drop n s)
        end
      else
        let '(r, w) := DecodeRune s in
        (if printable r then written (r, take w s) else []) ++ layout_of fuel (drop w s)
  | _, _ => []
  end.

#[local] Opaque DecodeRune.

Lemma layout_from_of fuel data i : layout_from fuel data i = layout_of fuel (drop i data).
Proof.
  revert i; induction fuel as [|fuel IH]; intros i; cbn [layout_from layout_of]; [reflexivity|].
  destruct (data !! i) as [c|] eqn:Ei.
  - rewrite (drop_S _ _ _ Ei); rewrite <- (drop_S _ _ _ Ei); destruct (c =? ESC).
    + pose proof (sequence_end data i) as H; destruct (ansi_len (drop i data)) as [n|].
      * rewrite H; unfold slice; replace (i + n - i)%nat with n by lia; rewrite IH, drop_drop; reflexivity.
      * destruct (ansiSequenceEndFrom data i (i + 2)) as [e []]; [discriminate|reflexivity].
    + destruct (DecodeRune (drop i data)) as [r w]; rewrite IH, drop_drop; reflexivity.
  - rewrite drop_ge by (apply lookup_ge_None, Ei); reflexivity.
Qed.

Lemma string_end_take osc s n : string_end osc s = Some n -> string_end osc (take n s) = Some n.
Proof.
  revert n; induction s as [|c s IH]; intros n; [discriminate|]; cbn [string_end].
  destruct (osc && (c =? BEL)) eqn:Eb; [intros [= <-]; cbn; rewrite Eb; reflexivity|]; destruct s as [|d s]; [discriminate|].
  destruct ((c =? ESC) && (d =? 92)) eqn:Ee; [intros [= <-]; cbn; rewrite Eb, Ee; reflexivity|].
  destruct (string_end osc (d :: s)) as [k|] eqn:Ek; [|discriminate]; intros [= <-]; specialize (IH k eq_refl); apply string_end_bound in Ek.
  destruct k as [|k]; [lia|]; cbn [take] in *; cbn [string_end]; rewrite Eb, Ee; cbn [string_end] in IH; rewrite IH; reflexivity.
Qed.

Lemma csi_end_take s n : csi_end s = Some n -> csi_end (take n s) = Some n.
Proof.
  revert n; induction s as [|c s IH]; intros n; [discriminate|]; cbn [csi_end]; destruct (in_range 64 126 c) eqn:Ec; [intros [= <-]; cbn; rewrite Ec; reflexivity|].
  destruct (csi_end s) as [k|]; [|discriminate]; intros [= <-]; cbn [take csi_end]; rewrite Ec, (IH k eq_refl); reflexivity.
Qed.

Lemma ansi_len_take s n : ansi_len s = Some n -> ansi_len (take n s) = Some n.
Proof.
  destruct s as [|e [|c s]]; cbn [ansi_len]; try discriminate; destruct (string_introducer c) eqn:Ei.
  - destruct (string_end (c =? 93) s) as [k|] eqn:E; [|discriminate]; intros [= <-]; cbn [take ansi_len Nat.add]; rewrite Ei, (string_end_take _ _ _ E); reflexivity.
  - destruct (negb (c =? 91)) eqn:E9; [intros [= <-]; cbn [take ansi_len]; rewrite Ei, E9; reflexivity|].
    destruct (csi_end s) as [k|] eqn:E; [|discriminate]; intros [= <-]; cbn [take ansi_len Nat.add]; rewrite Ei, E9, (csi_end_take _ _ E); reflexivity.
Qed.

(** What the filter lets through: a complete layout control, or one printable rune. *)
Definition layout_token (p : list Z) : Prop :=
  match p with
  | [] => False
  | c :: _ =>
      if c =? ESC then ansi_len p = Some (length p) /\ layoutControl p = true
      else exists r, printable r = true /\ (forall t, DecodeRune (p ++ t) = (r, length p)) /\ written (r, p) = p
  end.

Lemma decode_replacement t : DecodeRune (239 :: 191 :: 189 :: t) = (65533, 3%nat).
Proof. Transparent DecodeRune. reflexivity. Qed.

#[local] Opaque DecodeRune.

Lemma printable_token s r w c s' : s = c :: s' -> c =? ESC = false -> DecodeRune s = (r, w) -> printable r = true -> layout_token (written (r, take w s)).
Proof.
  intros -> Hc Hd Hp; pose proof (DecodeRune_width (c :: s') ltac:(discriminate)) as Hw; rewrite Hd in Hw; cbn [snd] in Hw; unfold written; cbn [fst snd].
  assert (length (take w (c :: s')) = w) as Hl by (rewrite length_take; lia).
  destruct ((r =? RuneError) && (length (take w (c :: s')) =? 1)%nat) eqn:Ee.
  - cbn; exists 65533; split; [reflexivity|]; split; [apply decode_replacement|reflexivity].
  - destruct w as [|w]; [lia|]; cbn [take layout_token]; rewrite Hc; exists r; split; [exact Hp|].
    change (c :: take w s') with (take (Datatypes.S w) (c :: s')); split.
    + intros t; pose proof (DecodeRune_take (c :: s') t ltac:(discriminate)) as Ht; rewrite Hd in Ht; cbn [snd] in Ht; rewrite Ht, Hl; [reflexivity|].
      unfold is_error; cbn [fst snd]; destruct (r =? RuneError); [|reflexivity]; cbn [andb] in *; apply Nat.eqb_neq in Ee; rewrite bool_decide_eq_false_2; [reflexivity|congruence].
    + unfold written; cbn [fst snd]; rewrite Ee; reflexivity.
Qed.

Lemma layout_tokens fuel s : exists ps, layout_of fuel s = concat ps /\ Forall layout_token ps.
Proof.
  revert s; induction fuel as [|fuel IH]; intros s; cbn [layout_of]; [exists []; auto|]; destruct s as [|c s]; [exists []; auto|]; destruct (c =? ESC) eqn:Ec.
  - destruct (ansi_len (c :: s)) as [n|] eqn:En; [|exists []; auto]; destruct (IH (drop n (c :: s))) as (ps & -> & Hps).
    apply ansi_len_bound in En as Hb; destruct (layoutControl (take n (c :: s))) eqn:El; [|exists ps; auto].
    exists (take n (c :: s) :: ps); split; [reflexivity|]; constructor; [|exact Hps]; apply ansi_len_take in En as Ht.
    destruct n as [|n]; [lia|]; cbn [take layout_token]; rewrite Ec; change (c :: take n s) with (take (Datatypes.S n) (c :: s)); split; [|exact El].
    rewrite Ht, length_take; f_equal; cbn [length] in *; lia.
  - destruct (DecodeRune (c :: s)) as [r w] eqn:Ed; destruct (IH (drop w (c :: s))) as (ps & -> & Hps); destruct (printable r) eqn:Ep; [|exists ps; auto].
    exists (written (r, take w (c :: s)) :: ps); split; [reflexivity|]; constructor; [|exact Hps]; eapply printable_token; eauto.
Qed.

Lemma layout_of_tokens ps : Forall layout_token ps -> forall fuel, (length (concat ps) <= fuel)%nat -> layout_of fuel (concat ps) = concat ps.
Proof.
  induction 1 as [|p ps Hp _ IH]; intros fuel Hf; cbn [concat] in *; [destruct fuel; reflexivity|].
  destruct p as [|c p]; [contradiction|]; rewrite length_app in Hf; cbn [length] in Hf; destruct fuel as [|fuel]; [lia|]; cbn [app layout_of]; cbn [layout_token] in Hp.
  change (c :: p ++ concat ps) with ((c :: p) ++ concat ps); destruct (c =? ESC).
  - destruct Hp as [H1 H2]; rewrite (ansi_len_app _ (concat ps) _ H1), take_app_length, drop_app_length, H2, IH by lia; reflexivity.
  - destruct Hp as (r & H1 & H2 & H3); rewrite H2, H1, take_app_length, drop_app_length, H3, IH by lia; reflexivity.
Qed.

(** Only layout reaches the emulator: what passes the filter is a sequence of printable
    runes, line ends and complete layout controls; in particular no query to the
    device, no operating-system command and no device control string is among the
    sequences a terminal would see in it, and filtering it again changes nothing. *)
Theorem layout_only (raw : list Z) :
  (exists ps, terminalLayoutOnly raw = concat ps /\ Forall layout_token ps) /\
  terminalLayoutOnly (terminalLayoutOnly raw) = terminalLayoutOnly raw.
Proof.
  assert (forall s, terminalLayoutOnly s = layout_of (length s) s) as He by (intros s; apply (layout_from_of (length s) s 0)).
  destruct (layout_tokens (length raw) raw) as (ps & H1 & H2); split; [exists ps; rewrite He; auto|].
  rewrite (He raw), H1, He; apply layout_of_tokens; [exact H2|reflexivity].
Qed.

(** ** What is masked *)

(** The offset [o] is of a byte inside a credential, in one of the views. *)
Definition in_credential (raw : list Z) (joined : bool) (o : nat) : Prop :=
  exists r a b k c, r ∈ credentials /\ (a, b) ∈ FindAllIndex r (map fst (plain_text raw joined)) /\ (a <= k < b)%nat /\
    plain_text raw joined !! k = Some (c, o).

Lemma part_elem {A} (a b : nat) (l : list A) x : x ∈ part a b l <-> exists k, (a <= k < b)%nat /\ l !! k = Some x.
Proof.
  unfold part; rewrite list_elem_of_lookup; split.
  - intros [i Hi]; apply lookup_take_Some in Hi as [Hi Hlt]; rewrite lookup_drop in Hi; exists (a + i)%nat; split; [lia|exact Hi].
  - intros (k & Hk & Hx); exists (k - a)%nat; rewrite lookup_take_lt by lia; rewrite lookup_drop; replace (a + (k - a))%nat with k by lia; exact Hx.
Qed.

Lemma view_exact raw joined o : o ∈ concat (view_matches raw joined) <-> in_credential raw joined o.
Proof.
  unfold view_matches, in_credential; rewrite list_elem_of_In, in_concat; split.
  - intros (l & Hl & Ho); apply in_concat in Hl as (ls & Hls & Hl); apply in_map_iff in Hls as (r & <- & Hr); apply in_map_iff in Hl as ([a b] & <- & Hab).
    apply list_elem_of_In, list_elem_of_fmap in Ho as ([c o'] & -> & Ho); apply part_elem in Ho as (k & Hk & Hx); exists r, a, b, k, c; split_and!; auto; try lia; apply list_elem_of_In; assumption.
  - intros (r & a & b & k & c & Hr & Hab & Hk & Hx); exists (map snd (part a b (plain_text raw joined))); split.
    + apply in_concat; eexists; split; [apply in_map_iff; exists r; split; [reflexivity|apply list_elem_of_In, Hr]|]; apply in_map_iff; exists (a, b); split; [reflexivity|apply list_elem_of_In, Hab].
    + apply list_elem_of_In, list_elem_of_fmap; exists (c, o); split; [reflexivity|]; apply part_elem; exists k; auto.
Qed.

(** The bytes of the plain text are bytes of the source outside its sequences. *)
Lemma plain_from_source fuel data joined : forall i c o, (c, o) ∈ plain_from fuel data joined i -> data !! o = Some c /\ c <> ESC.
Proof.
  induction fuel as [|fuel IH]; intros i c o; cbn [plain_from]; [intros H; apply elem_of_nil in H; contradiction|].
  destruct (data !! i) as [d|] eqn:Ei; [|intros H; apply elem_of_nil in H; contradiction]; destruct (d =? ESC) eqn:Ed.
  - destruct (ansiSequenceEndFrom data i (i + 2)) as [e []]; [apply IH|intros H; apply elem_of_nil in H; contradiction].
  - destruct (joined && _); [apply IH|]; intros H; apply elem_of_cons in H as [[= -> ->]|H]; [split; [exact Ei|intros ->; discriminate]|eapply IH, H].
Qed.

(** Masking.  A text without credentials, in the view as it is and, if asked, in the
    view with line ends removed, is unchanged.  Otherwise exactly the runes that begin
    inside a credential of one of the views are replaced, each by as many stars as it
    is wide (line ends and tabs stay), and every other rune, those of the escape
    sequences among them, is kept. *)
Theorem mask_exact `{Vt T line} (raw : list Z) (joinLines : bool) :
  exists masked, (forall o, o ∈ masked <-> in_credential raw false o \/ (joinLines = true /\ in_credential raw true o)) /\
    (forall o, o ∈ masked -> exists c, raw !! o = Some c /\ c <> ESC) /\
    (masked = [] -> maskTerminalSecrets raw joinLines = (raw, 0)) /\
    (masked <> [] -> (maskTerminalSecrets raw joinLines).1 = mask_from masked 0 (pieces raw) /\ 0 < (maskTerminalSecrets raw joinLines).2).
Proof.
  exists (concat (all_matched raw joinLines)).
  assert (forall o, o ∈ concat (all_matched raw joinLines) <-> in_credential raw false o \/ (joinLines = true /\ in_credential raw true o)) as Hin.
  { intros o; unfold all_matched; rewrite concat_app, elem_of_app, view_exact; destruct joinLines; [rewrite view_exact; tauto|].
    cbn; rewrite elem_of_nil; split; [tauto|]; intros [Ho|[? _]]; [auto|discriminate]. }
  split; [exact Hin|]; split.
  - intros o Ho; apply Hin in Ho; assert (exists j, in_credential raw j o) as (j & r & a & b & k & c & _ & _ & _ & Hk) by (destruct Ho as [Ho|[_ Ho]]; eauto).
    apply list_elem_of_lookup_2, plain_from_source in Hk; exists c; exact Hk.
  - unfold maskTerminalSecrets; assert (Forall (fun m => m <> []) (all_matched raw joinLines)) as Hne.
    { assert (forall j, Forall (fun m : list nat => m <> []) (view_matches raw j)) as Hv.
      { intros j; apply List.Forall_forall; intros m Hm; unfold view_matches in Hm; apply in_concat in Hm as (ls & Hls & Hm); apply in_map_iff in Hls as (r & <- & Hr).
        apply in_map_iff in Hm as ([a b] & <- & Hab).
        assert (consumes r = true) as Hc by (cbn in Hr; repeat (destruct Hr as [<-|Hr]; [reflexivity|]); contradiction).
        pose proof (FindAllIndex_bounds r (map fst (plain_text raw j)) Hc) as Hb; rewrite List.Forall_forall in Hb; apply Hb in Hab; cbn in Hab; rewrite length_map in Hab.
        intros Hnil; apply (f_equal length) in Hnil; unfold part in Hnil; rewrite length_map, length_take, length_drop in Hnil; cbn in Hnil; lia. }
      unfold all_matched; apply Forall_app_2; [apply Hv|destruct joinLines; [apply Hv|constructor]]. }
    destruct (all_matched raw joinLines) as [|m ms]; [split; [reflexivity|contradiction]|]; inversion Hne; subst; split.
    + intros Hnil; cbn in Hnil; apply app_eq_nil in Hnil as [? _]; contradiction.
    + intros _; cbn [fst snd]; split; [reflexivity|]; unfold zlen; cbn [length]; lia.
Qed.

(** ** Nothing is lost by coalescing *)

Section Coalescing.
Context `{Vt T line}.

(** An event to record, or the timer of the capture. *)
Definition capture_step (st : @terminalCapture T * Analyzer) (ev : option Observed) : @terminalCapture T * Analyzer :=
  match ev with
  | Some x => recordTerminal x st.1 st.2
  | None => capture_flush st.1 st.2
  end.

(** What an event carries: text, lines that scrolled off, bytes and redactions. *)
Definition carried (x : Observed) : list Z * list Z * Z * Z :=
  (ob_Text x, match ob_Terminal x with Some t => sn_Scrollback t | None => [] end, ob_ByteCount x, ob_Redactions x).

Definition join_carried (a b : list Z * list Z * Z * Z) : list Z * list Z * Z * Z :=
  let '(t, s, n, r) := a in let '(t', s', n', r') := b in (t ++ t', s ++ s', n + n', r + r').

Definition total_carried (xs : list Observed) : list Z * list Z * Z * Z := foldr (fun x acc => join_carried (carried x) acc) ([], [], 0, 0) xs.

Lemma join_assoc a b c : join_carried (join_carried a b) c = join_carried a (join_carried b c).
Proof. destruct a as [[[t s] n] r], b as [[[t' s'] n'] r'], c as [[[t2 s2] n2] r2]; cbn; rewrite !app_assoc, !Z.add_assoc; reflexivity. Qed.

Lemma join_nothing a : join_carried ([], [], 0, 0) a = a.
Proof. destruct a as [[[t s] n] r]; reflexivity. Qed.

Lemma carried_app xs ys : total_carried (xs ++ ys) = join_carried (total_carried xs) (total_carried ys).
Proof.
  induction xs as [|x xs IH]; cbn [app]; [symmetry; apply join_nothing|].
  change (total_carried (x :: xs ++ ys)) with (join_carried (carried x) (total_carried (xs ++ ys))); rewrite IH, <- join_assoc; reflexivity.
Qed.

Lemma carried_coalesce p x : carried (coalesce p x) = join_carried (carried p) (carried x).
Proof.
  unfold carried, coalesce; cbn; destruct (ob_Terminal x) as [n|], (ob_Terminal p) as [o|]; cbn; rewrite ?app_nil_r, (Z.add_comm (ob_ByteCount x)), (Z.add_comm (ob_Redactions x)); reflexivity.
Qed.

Lemma carried_sent x a : carried (sent_as x a) = carried x.
Proof. reflexivity. Qed.

Definition waiting (c : @terminalCapture T) : list Observed := match tc_pending c with Some x => [x] | None => [] end.

Lemma flush_carries c a : exists new, an_sent (capture_flush c a).2 = an_sent a ++ new /\ total_carried new = total_carried (waiting c) /\
  waiting (capture_flush c a).1 = [] /\ tc_timer (capture_flush c a).1 = false.
Proof.
  unfold capture_flush, waiting; destruct (tc_pending c) as [x|]; cbn [fst snd]; [exists [sent_as x a]|exists []; rewrite app_nil_r]; auto.
Qed.

Lemma step_carries c a ev : exists new, an_sent (capture_step (c, a) ev).2 = an_sent a ++ new /\
  join_carried (total_carried new) (total_carried (waiting (capture_step (c, a) ev).1)) =
  join_carried (total_carried (waiting c)) (total_carried (match ev with Some x => [x] | None => [] end)).
Proof.
  destruct ev as [x|]; cbn [capture_step fst snd].
  - unfold recordTerminal; set (y := match tc_pending c with Some p => coalesce p x | None => x end); set (c1 := put_pending (Some y) true c).
    assert (total_carried [y] = join_carried (total_carried (waiting c)) (total_carried [x])) as Hy.
    { unfold y, waiting; destruct (tc_pending c) as [p|]; [|symmetry; apply join_nothing].
      change (total_carried [coalesce p x]) with (join_carried (carried (coalesce p x)) ([], [], 0, 0)); rewrite carried_coalesce, join_assoc, <- carried_app; reflexivity. }
    destruct (_ || _).
    + destruct (flush_carries c1 a) as (new & H1 & H2 & H3 & _); exists new; split; [exact H1|]; rewrite H2, H3, <- Hy; cbn [waiting c1 put_pending tc_pending].
      rewrite <- carried_app, app_nil_r; reflexivity.
    + exists []; rewrite app_nil_r; split; [reflexivity|]; cbn [fst]; change (waiting c1) with [y]; rewrite Hy; apply join_nothing.
  - destruct (flush_carries c a) as (new & H1 & H2 & H3 & _); exists new; split; [exact H1|]; rewrite H2, H3; reflexivity.
Qed.

(** Redraws are coalesced without loss: whatever is recorded and whenever the timer
    fires, the text, the scrolled lines, the bytes and the redactions of the events
    given to a capture are those of the events recorded, followed by the one that
    waits, in order. *)
Theorem coalescing_conserves (evs : list (option Observed)) (c : @terminalCapture T) (a : Analyzer) (Hc : tc_pending c = None) :
  let st := fold_left capture_step evs (c, a) in
  exists new, an_sent st.2 = an_sent a ++ new /\ total_carried (new ++ waiting st.1) = total_carried (omap id evs).
Proof.
  cbv zeta; assert (forall evs c a, exists new, an_sent (fold_left capture_step evs (c, a)).2 = an_sent a ++ new /\
    total_carried (new ++ waiting (fold_left capture_step evs (c, a)).1) = join_carried (total_carried (waiting c)) (total_carried (omap id evs))) as Hall.
  { clear; induction evs as [|ev evs IH]; intros c a; cbn [fold_left].
    - exists []; rewrite app_nil_r; split; [reflexivity|]; cbn [app fst]; change (omap id (@nil (option Observed))) with (@nil Observed); rewrite <- carried_app, app_nil_r; reflexivity.
    - destruct (step_carries c a ev) as (n1 & S1 & S2); destruct (capture_step (c, a) ev) as [c1 a1]; cbn [fst snd] in *; destruct (IH c1 a1) as (n2 & S3 & S4).
      exists (n1 ++ n2); rewrite S3, S1, app_assoc; split; [reflexivity|]; rewrite <- app_assoc, carried_app, S4, <- join_assoc, S2, join_assoc; f_equal; rewrite <- carried_app; f_equal; destruct ev; reflexivity. }
  destruct (Hall evs c a) as (new & H1 & H2); exists new; split; [exact H1|]; rewrite H2; unfold waiting; rewrite Hc; apply join_nothing.
Qed.
End Coalescing.
