(* ===== verification/Live.v ===== *)
(** * Live capture: internal/telemetry/live.go ([LiveCollector])

    The collector gets the output and input of the sessions in chunks and hands records
    to the analyzer: it keeps an unfinished record per session, cuts it with Scan, draws
    full-screen output with TermCapture, and feeds complete lines to the question
    detector through Framing.  Its lock makes every call one step; the clock is read
    once per call.

    [lc_log] is not part of the code: the records in the order they left the buffers. *)

From S2P Require Import Prelude GoStd Utf8 Framing Regexp Redact Capture Turns Questions Scan TermCapture.

(** A record: session, direction, stream, bytes, and whether its contents are omitted
    because of its size. *)
Record piece := MkPiece { pc_key : sessionIdentity; pc_direction : Direction; pc_stream : StreamType; pc_data : list Z; pc_omitted : bool }.

Section Live.
Context `{Vt T line}.
Variable lower : Z -> list Z.
Variable sha256 : list Z -> list Z.

Record LiveCollector := MkLive {
  lc_analyzer : Analyzer;
  lc_framer : Framer;
  lc_sourceID : string;
  lc_actorID : string;
  lc_pending : gmap sessionIdentity interactionBuffer;
  lc_terminals : gmap sessionIdentity (@terminalCapture T);
  lc_renderTerminal : bool;
  lc_captures : nat;
  lc_log : list piece;
}.

(** [kinds]: the kinds that are recorded, all when empty. *)
Definition NewLiveCollectorWithIdentity (include : bool) (sourceID actorID : string) (kinds : list EventKind) : LiveCollector :=
  let render := match kinds with [] => true | _ => bool_decide (EventProviderOutput ∈ kinds) end in
  MkLive (NewAnalyzer None include) (NewFramer defaultFrameBufferSize) sourceID actorID ∅ ∅ (render && include) 0 [].

Definition put_analyzer (a : Analyzer) (c : LiveCollector) : LiveCollector :=
  MkLive a (lc_framer c) (lc_sourceID c) (lc_actorID c) (lc_pending c) (lc_terminals c) (lc_renderTerminal c) (lc_captures c) (lc_log c).
Definition put_framer (f : Framer) (c : LiveCollector) : LiveCollector :=
  MkLive (lc_analyzer c) f (lc_sourceID c) (lc_actorID c) (lc_pending c) (lc_terminals c) (lc_renderTerminal c) (lc_captures c) (lc_log c).
Definition put_buffers (m : gmap sessionIdentity interactionBuffer) (c : LiveCollector) : LiveCollector :=
  MkLive (lc_analyzer c) (lc_framer c) (lc_sourceID c) (lc_actorID c) m (lc_terminals c) (lc_renderTerminal c) (lc_captures c) (lc_log c).
Definition put_terminals (m : gmap sessionIdentity (@terminalCapture T)) (n : nat) (c : LiveCollector) : LiveCollector :=
  MkLive (lc_analyzer c) (lc_framer c) (lc_sourceID c) (lc_actorID c) (lc_pending c) m (lc_renderTerminal c) n (lc_log c).
Definition log_piece (p : piece) (c : LiveCollector) : LiveCollector :=
  MkLive (lc_analyzer c) (lc_framer c) (lc_sourceID c) (lc_actorID c) (lc_pending c) (lc_terminals c) (lc_renderTerminal c) (lc_captures c) (lc_log c ++ [p]).

Definition on_analyzer (f : Analyzer -> Analyzer) (c : LiveCollector) : LiveCollector := put_analyzer (f (lc_analyzer c)) c.

Definition sourceSession (c : LiveCollector) (s : Session) : Session :=
  MkSession (se_Cols s) (se_Rows s) (if decide (lc_sourceID c = ""%string) then se_SourceID s else lc_sourceID c) (se_SessionID s)
    (if decide (lc_actorID c = ""%string) then se_ActorID s else lc_actorID c) (se_ProjectID s) (se_Provider s) (se_RepoPath s).

Definition frameKey (s : Session) : string := se_SourceID s +:+ String (Ascii.ascii_of_nat 0) (se_SessionID s).

(** Frames for the question detector. *)
Definition observe_frames (s : Session) (frames : list (list Z)) (now : Time) (a : Analyzer) : Analyzer :=
  fold_left (fun a f => ObserveOutput lower sha256 s f now a) frames a.
Definition answer_frames (s : Session) (frames : list (list Z)) (now : Time) (a : Analyzer) : Analyzer :=
  fold_left (fun a f => ObserveInput s f now a) frames a.

Definition output_frames (s : Session) (text : list Z) (now : Time) (c : LiveCollector) : LiveCollector :=
  let '(f, frames) := FeedOutput (lc_framer c) (frameKey s) text in on_analyzer (observe_frames s frames now) (put_framer f c).
Definition input_frames (s : Session) (text : list Z) (now : Time) (c : LiveCollector) : LiveCollector :=
  let '(f, frames) := FeedInput (lc_framer c) (frameKey s) text in on_analyzer (answer_frames s frames now) (put_framer f c).

(** Output that is drawn. *)
Definition emit_drawn (s : Session) (stream : StreamType) (data : list Z) (now : Time) (c : LiveCollector) : LiveCollector :=
  let key := sessionKey s in
  let '(cap, text, redactions) := renderedOutput (lc_captures c) s data (lc_terminals c !! key) in
  let c := put_terminals (<[key := cap]> (lc_terminals c)) (Datatypes.S (lc_captures c)) c in
  if bool_decide (text = []) && bool_decide (tc_snapshot cap = None) then c
  else
    let text := an_redact (lc_analyzer c) text in
    let x := MkObserved (plain_event s now EventProviderOutput) (tc_snapshot cap) (Some DirectionAgent) (Some stream) None None [] text (zlen data) redactions [] 0 in
    let '(cap, a) := recordTerminal x cap (lc_analyzer c) in
    output_frames s text now (put_analyzer a (put_terminals (<[key := cap]> (lc_terminals c)) (lc_captures c) c)).

Definition emitInteraction (s : Session) (d : Direction) (stream : StreamType) (data : list Z) (now : Time) (c : LiveCollector) : LiveCollector :=
  let c := log_piece (MkPiece (sessionKey s) d stream data false) c in
  if decide (d = DirectionAgent) then
    if bool_decide (stream = StreamOutput) && (0 <? se_Cols s) && (0 <? se_Rows s) && ValidString data && lc_renderTerminal c
    then emit_drawn s stream data now c
    else
      let c := on_analyzer (ObserveProviderInteraction sha256 s stream data now) c in
      if bool_decide (stream = StreamOutput) && ValidString data then output_frames s data now c else c
  else
    let c := on_analyzer (ObserveUserInteraction sha256 s data now) c in
    if ValidString data then input_frames s data now c else c.

Definition omit (s : Session) (d : Direction) (stream : StreamType) (data : list Z) (now : Time) (c : LiveCollector) : LiveCollector :=
  on_analyzer (ObserveOmittedInteraction sha256 s d (interactionKind d) stream data "buffer_limit" now) (log_piece (MkPiece (sessionKey s) d stream data true) c).

Definition flushInteraction (s : Session) (b : interactionBuffer) (now : Time) (c : LiveCollector) : LiveCollector :=
  match ib_data b with
  | [] => c
  | data => emitInteraction s (ib_direction b) (ib_stream b) data now c
  end.

Definition emit_record (s : Session) (d : Direction) (stream : StreamType) (now : Time) (c : LiveCollector) (data : list Z) : LiveCollector :=
  if maxInteractionBufferSize <? zlen data then omit s d stream data now c else emitInteraction s d stream data now c.

(** The buffer to append to, after a change of direction or stream. *)
Definition buffer_for (s : Session) (d : Direction) (stream : StreamType) (now : Time) (c : LiveCollector) : LiveCollector * interactionBuffer :=
  match lc_pending c !! sessionKey s with
  | Some b =>
      if bool_decide (ib_direction b = d) && bool_decide (ib_stream b = stream) then (c, b)
      else (flushInteraction s b now c, fresh_buffer d stream [] clean)
  | None => (c, fresh_buffer d stream [] clean)
  end.

Definition observeInteraction (s : Session) (d : Direction) (stream : StreamType) (data : list Z) (now : Time) (c : LiveCollector) : LiveCollector :=
  match data with
  | [] => c
  | _ =>
      let '(c, b) := buffer_for s d stream now c in
      let '(c, b) := if resets b data then (flushInteraction s b now c, fresh_buffer d stream [] clean) else (c, b) in
      let '(records, b) := feed b data in
      let c := fold_left (emit_record s d stream now) records c in
      if maxInteractionBufferSize <? zlen (ib_data b)
      then put_buffers (delete (sessionKey s) (lc_pending c)) (omit s d stream (ib_data b) now c)
      else put_buffers (<[sessionKey s := b]> (lc_pending c)) c
  end.

(** ** The calls *)

(** Closing the drawing of a session records what waits. *)
Definition close_terminal (key : sessionIdentity) (c : LiveCollector) : LiveCollector :=
  match lc_terminals c !! key with
  | Some cap => put_terminals (delete key (lc_terminals c)) (lc_captures c) (on_analyzer (fun a => (capture_flush cap a).2) c)
  | None => c
  end.

Definition SessionStarted (s : Session) (now : Time) (c : LiveCollector) : LiveCollector :=
  let s := sourceSession c s in
  let key := sessionKey s in
  let c := close_terminal key (put_buffers (delete key (lc_pending c)) c) in
  let c := put_framer (Reset (lc_framer c) (frameKey s)) c in
  on_analyzer (fun a => record (empty_event (put_Context None (Some (se_RepoPath s)) (plain_event s now EventSessionContext))) (ObserveSessionStart s now a)) c.

Definition ObserveProviderChunk (s : Session) (stream : StreamType) (data : list Z) (now : Time) (c : LiveCollector) : LiveCollector :=
  observeInteraction (sourceSession c s) DirectionAgent stream data now c.

Definition flush_output_frame (s : Session) (now : Time) (c : LiveCollector) : LiveCollector :=
  let '(f, frame) := FlushOutput (lc_framer c) (frameKey s) in
  let c := put_framer f c in
  match frame with [] => c | _ => on_analyzer (ObserveOutput lower sha256 s frame now) c end.

Definition ObserveInputChunk (s : Session) (data : list Z) (now : Time) (c : LiveCollector) : LiveCollector :=
  let s := sourceSession c s in
  let key := sessionKey s in
  let c := match lc_pending c !! key with
           | Some b => if decide (ib_direction b = DirectionAgent)
                       then let c := flushInteraction s b now c in flush_output_frame s now (put_buffers (delete key (lc_pending c)) c)
                       else c
           | None => c
           end in
  observeInteraction s DirectionHuman StreamInput data now c.

Definition SessionEnded (s : Session) (now : Time) (c : LiveCollector) : LiveCollector :=
  let s := sourceSession c s in
  let key := sessionKey s in
  let c := match lc_pending c !! key with
           | Some b => let c := flushInteraction s b now c in put_buffers (delete key (lc_pending c)) c
           | None => c
           end in
  let c := flush_output_frame s now c in
  let '(f, frame) := FlushInput (lc_framer c) (frameKey s) in
  let c := put_framer f c in
  let c := match frame with [] => c | _ => on_analyzer (ObserveInput s frame now) c end in
  let c := close_terminal key c in
  on_analyzer (ObserveSessionEnd s now) c.

(** The timer of a capture: nothing when another capture took its place. *)
Definition timer_fires (key : sessionIdentity) (id : nat) (c : LiveCollector) : LiveCollector :=
  match lc_terminals c !! key with
  | Some cap =>
      if (tc_id cap =? id)%nat && tc_timer cap
      then let '(cap, a) := capture_flush cap (lc_analyzer c) in put_analyzer a (put_terminals (<[key := cap]> (lc_terminals c)) (lc_captures c) c)
      else c
  | None => c
  end.

Definition live_Close (c : LiveCollector) : LiveCollector := fold_left (fun c key => close_terminal key c) (map fst (map_to_list (lc_terminals c))) c.

Inductive live_event :=
| LStart (s : Session) (now : Time)
| LOutput (s : Session) (stream : StreamType) (data : list Z) (now : Time)
| LInput (s : Session) (data : list Z) (now : Time)
| LEnd (s : Session) (now : Time)
| LTimer (key : sessionIdentity) (id : nat).

Definition live_step (c : LiveCollector) (ev : live_event) : LiveCollector :=
  match ev with
  | LStart s now => SessionStarted s now c
  | LOutput s stream data now => ObserveProviderChunk s stream data now c
  | LInput s data now => ObserveInputChunk s data now c
  | LEnd s now => SessionEnded s now c
  | LTimer key id => timer_fires key id c
  end.

(** ** Every byte leaves in a record *)

Definition tag (d : Direction) (stream : StreamType) (data : list Z) : list (Direction * StreamType * Z) := map (fun b => (d, stream, b)) data.
Definition tag_piece (p : piece) : list (Direction * StreamType * Z) := tag (pc_direction p) (pc_stream p) (pc_data p).
Definition logged (key : sessionIdentity) (l : list piece) : list (Direction * StreamType * Z) :=
  concat (map tag_piece (List.filter (fun p => bool_decide (pc_key p = key)) l)).

(** What is still in the buffer of a session. *)
Definition held_back (c : LiveCollector) (key : sessionIdentity) : list (Direction * StreamType * Z) :=
  match lc_pending c !! key with Some b => tag (ib_direction b) (ib_stream b) (ib_data b) | None => [] end.

(** The bytes of a session that a call hands over, and whether it starts the session. *)
Definition handed (c : LiveCollector) (key : sessionIdentity) (ev : live_event) : list (Direction * StreamType * Z) :=
  match ev with
  | LOutput s stream data _ => if decide (sessionKey (sourceSession c s) = key) then tag DirectionAgent stream data else []
  | LInput s data _ => if decide (sessionKey (sourceSession c s) = key) then tag DirectionHuman StreamInput data else []
  | _ => []
  end.

Definition starts_session (c : LiveCollector) (key : sessionIdentity) (ev : live_event) : bool :=
  match ev with LStart s _ => bool_decide (sessionKey (sourceSession c s) = key) | _ => false end.

Definition piece_ok (p : piece) : Prop := pc_data p <> [] /\ (pc_omitted p = false -> zlen (pc_data p) <= maxInteractionBufferSize).

(** How the analyzer records a record that is not drawn: key, kind, direction, stream,
    size, text, reason and digest. *)
Abbreviation shown := (sessionIdentity * EventKind * option Direction * option StreamType * Z * list Z * string * list Z)%type.

Definition show_event (x : Observed) : shown :=
  (ob_key x, ob_kind x, ob_Direction x, ob_Stream x, ob_ByteCount x, ob_Text x, ev_OmittedReason (ob_event x), ob_ContentHash x).

Definition interactions (a : Analyzer) : list shown :=
  map show_event (List.filter (fun x => bool_decide (ob_kind x = EventProviderOutput \/ ob_kind x = EventUserInput)) (an_sent a)).

Definition show_piece (redact : list Z -> list Z) (include : bool) (p : piece) : shown :=
  let '(kind, d, stream) := if pc_omitted p then (interactionKind (pc_direction p), pc_direction p, pc_stream p)
                            else if decide (pc_direction p = DirectionAgent) then (EventProviderOutput, DirectionAgent, pc_stream p)
                            else (EventUserInput, DirectionHuman, StreamInput) in
  let reason := if pc_omitted p then "buffer_limit"%string else if ValidString (pc_data p) then ""%string else "invalid_utf8"%string in
  (pc_key p, kind, Some d, Some stream, zlen (pc_data p),
   if bool_decide (reason = ""%string) && include then redact (pc_data p) else [], reason,
   if bool_decide (reason = ""%string) then [] else sha256 (pc_data p)).

(** From [c] to [c'] the records [ps] left, and nothing else changed that matters. *)
Record emits (c c' : LiveCollector) (ps : list piece) : Prop := {
  em_log : lc_log c' = lc_log c ++ ps;
  em_pending : lc_pending c' = lc_pending c;
  em_source : lc_sourceID c' = lc_sourceID c;
  em_actor : lc_actorID c' = lc_actorID c;
  em_render : lc_renderTerminal c' = lc_renderTerminal c;
  em_redact : an_redact (lc_analyzer c') = an_redact (lc_analyzer c);
  em_include : an_includeRedactedText (lc_analyzer c') = an_includeRedactedText (lc_analyzer c);
  em_shown : lc_renderTerminal c = false -> lc_terminals c = ∅ -> lc_terminals c' = ∅ /\
    interactions (lc_analyzer c') = interactions (lc_analyzer c) ++ map (show_piece (an_redact (lc_analyzer c)) (an_includeRedactedText (lc_analyzer c))) ps;
}.

Lemma emits_nothing c : emits c c [].
Proof. constructor; auto; [rewrite app_nil_r; auto|]; intros; split; auto; rewrite app_nil_r; reflexivity. Qed.

Lemma emits_trans c1 c2 c3 ps qs : emits c1 c2 ps -> emits c2 c3 qs -> emits c1 c3 (ps ++ qs).
Proof.
  intros [A1 A2 A3 A4 A5 A6 A7 A8] [B1 B2 B3 B4 B5 B6 B7 B8]; constructor; try congruence; [rewrite B1, A1, app_assoc; reflexivity|].
  intros Hr Ht; destruct (A8 Hr Ht) as [T1 I1]; rewrite A5 in B8; destruct (B8 Hr T1) as [T2 I2]; split; [exact T2|]; rewrite I2, I1, A6, A7, map_app, app_assoc; reflexivity.
Qed.

(** Calls of the analyzer that record no output or input. *)
Definition calm (f : Analyzer -> Analyzer) : Prop :=
  forall a, an_redact (f a) = an_redact a /\ an_includeRedactedText (f a) = an_includeRedactedText a /\ interactions (f a) = interactions a.

Lemma calm_emits f c : calm f -> emits c (on_analyzer f c) [].
Proof.
  intros Hf; destruct (Hf (lc_analyzer c)) as (H1 & H2 & H3); constructor; auto; [cbn; rewrite app_nil_r; reflexivity|].
  intros _ Ht; split; [exact Ht|]; cbn; rewrite H3, app_nil_r; reflexivity.
Qed.

Lemma record_interactions x a : interactions (record x a) =
  interactions a ++ if bool_decide (ob_kind x = EventProviderOutput \/ ob_kind x = EventUserInput) then [show_event x] else [].
Proof.
  unfold interactions; change (an_sent (record x a)) with (an_sent a ++ [sent_as x a]); rewrite List.filter_app, map_app; f_equal; cbn.
  change (ob_kind (sent_as x a)) with (ob_kind x); destruct (bool_decide _); reflexivity.
Qed.

Lemma calm_record x : ob_kind x <> EventProviderOutput -> ob_kind x <> EventUserInput -> calm (record x).
Proof. intros H1 H2 a; rewrite record_interactions, bool_decide_eq_false_2 by tauto; rewrite app_nil_r; auto. Qed.

Lemma calm_output s f now : calm (ObserveOutput lower sha256 s f now).
Proof.
  intros a; unfold ObserveOutput; destruct (_ || _); [auto|]; destruct (match _ with Some _ => _ | None => _ end); [auto|]; cbv zeta.
  match goal with |- context [record ?x ?b] => destruct (calm_record x ltac:(discriminate) ltac:(discriminate) b) as (H1 & H2 & H3); rewrite H1, H2, H3 end; auto.
Qed.

Lemma calm_input s f now : calm (ObserveInput s f now).
Proof.
  intros a; unfold ObserveInput; destruct (normalize f); [auto|]; destruct (an_questions a !! sessionKey s); [|auto]; cbv zeta.
  match goal with |- context [record ?x ?b] => destruct (calm_record x ltac:(discriminate) ltac:(discriminate) b) as (H1 & H2 & H3); rewrite H1, H2, H3 end; auto.
Qed.

Lemma calm_fold {A} (f : Analyzer -> A -> Analyzer) l : (forall x, calm (fun a => f a x)) -> calm (fun a => fold_left f l a).
Proof.
  intros Hf; induction l as [|x l IH]; intros a; cbn [fold_left]; [auto|]; destruct (Hf x a) as (H1 & H2 & H3); destruct (IH (f a x)) as (K1 & K2 & K3); split_and!; congruence.
Qed.

Lemma framer_emits f c : emits c (put_framer f c) [].
Proof. constructor; cbn; auto; [rewrite app_nil_r; auto|]; intros _ Ht; split; [exact Ht|rewrite app_nil_r; reflexivity]. Qed.

Lemma frames_emit s text now c : emits c (output_frames s text now c) [] /\ emits c (input_frames s text now c) [].
Proof.
  split; unfold output_frames, input_frames; [destruct (FeedOutput _ _ _) as [f frames]|destruct (FeedInput _ _ _) as [f frames]];
    apply (emits_trans _ (put_framer f c) _ [] [] (framer_emits f c)), calm_emits, calm_fold; intros x; [apply calm_output|apply calm_input].
Qed.

Lemma drawn_emits s stream data now c : lc_renderTerminal c = true -> emits c (emit_drawn s stream data now c) [].
Proof.
  intros Hr; unfold emit_drawn; destruct (renderedOutput _ _ _ _) as [[cap text] red]; set (c1 := put_terminals _ _ c).
  assert (forall m n, emits c (put_terminals m n c) []) as Ht.
  { intros m n; constructor; cbn; auto; [rewrite app_nil_r; auto|congruence]. }
  destruct (_ && _); [apply Ht|]; destruct (recordTerminal _ cap (lc_analyzer c1)) as [cap' a'] eqn:Er; set (c2 := put_analyzer a' _).
  assert (an_redact a' = an_redact (lc_analyzer c) /\ an_includeRedactedText a' = an_includeRedactedText (lc_analyzer c)) as [Ha1 Ha2].
  { unfold recordTerminal, capture_flush in Er; destruct (_ || _) in Er; injection Er as <- <-; auto. }
  apply (emits_trans _ c2 _ [] []); [|apply (frames_emit s _ now c2)]; constructor; cbn; auto; [rewrite app_nil_r; auto|congruence].
Qed.

(** An interaction that is recorded as it is. *)
Lemma observed_emits c p f : lc_renderTerminal c = false \/ lc_renderTerminal c = true ->
  (forall a, an_redact (f a) = an_redact a /\ an_includeRedactedText (f a) = an_includeRedactedText a /\
     interactions (f a) = interactions a ++ [show_piece (an_redact a) (an_includeRedactedText a) p]) ->
  emits c (on_analyzer f (log_piece p c)) [p].
Proof. intros _ Hf; destruct (Hf (lc_analyzer c)) as (H1 & H2 & H3); constructor; cbn; auto. Qed.

Lemma interaction_shown s d kind stream data now a : data <> [] -> kind = EventProviderOutput \/ kind = EventUserInput ->
  let a' := analyzer_observeInteraction sha256 s d kind stream data now a in
  an_redact a' = an_redact a /\ an_includeRedactedText a' = an_includeRedactedText a /\
  interactions a' = interactions a ++
    [(sessionKey s, kind, Some d, Some stream, zlen data, if ValidString data && an_includeRedactedText a then an_redact a data else [],
      if ValidString data then ""%string else "invalid_utf8"%string, if ValidString data then [] else sha256 data)].
Proof.
  intros Hd Hk; cbv zeta; unfold analyzer_observeInteraction; destruct data as [|c0 data]; [contradiction|]; set (dt := c0 :: data).
  destruct (ValidString dt); cbn [negb andb]; [|unfold ObserveOmittedInteraction, dt]; rewrite record_interactions; rewrite bool_decide_eq_true_2 by exact Hk; split_and!; reflexivity.
Qed.

Lemma emit_emits s d stream data now c : data <> [] -> emits c (emitInteraction s d stream data now c) [MkPiece (sessionKey s) d stream data false].
Proof.
  intros Hd; unfold emitInteraction; set (p := MkPiece (sessionKey s) d stream data false); set (c1 := log_piece p c).
  destruct (decide (d = DirectionAgent)) as [->|Hne].
  - destruct (_ && _ && _ && _ && _) eqn:Ed.
    + apply andb_prop in Ed as [_ Hr]; change (lc_renderTerminal c1) with (lc_renderTerminal c) in Hr.
      apply (emits_trans c c1 _ [p] []); [|apply drawn_emits, Hr]; constructor; cbn; auto; congruence.
    + set (f := ObserveProviderInteraction sha256 s stream data now).
      assert (emits c (on_analyzer f c1) [p]) as He.
      { apply observed_emits; [destruct (lc_renderTerminal c); auto|]; intros a; pose proof (interaction_shown s DirectionAgent EventProviderOutput stream data now a Hd (or_introl eq_refl)) as Hs.
        cbv zeta in Hs; unfold show_piece, p; cbn [pc_omitted pc_direction pc_stream pc_data pc_key]; destruct (ValidString data); exact Hs. }
      destruct (bool_decide (stream = StreamOutput) && ValidString data); [|exact He]; apply (emits_trans _ _ _ [p] [] He), frames_emit.
  - set (f := ObserveUserInteraction sha256 s data now).
    assert (emits c (on_analyzer f c1) [p]) as He.
    { apply observed_emits; [destruct (lc_renderTerminal c); auto|]; intros a; pose proof (interaction_shown s DirectionHuman EventUserInput StreamInput data now a Hd (or_intror eq_refl)) as Hs.
      cbv zeta in Hs; unfold show_piece, p; cbn [pc_omitted pc_direction pc_stream pc_data pc_key]; rewrite decide_False by exact Hne; destruct (ValidString data); exact Hs. }
    destruct (ValidString data); [|exact He]; apply (emits_trans _ _ _ [p] [] He), frames_emit.
Qed.

Lemma omit_emits s d stream data now c : data <> [] -> emits c (omit s d stream data now c) [MkPiece (sessionKey s) d stream data true].
Proof.
  intros Hd; apply observed_emits; [destruct (lc_renderTerminal c); auto|]; intros a; destruct data as [|c0 data]; [contradiction|]; unfold ObserveOmittedInteraction; rewrite record_interactions.
  rewrite bool_decide_eq_true_2 by (unfold ob_kind; cbn; unfold interactionKind; destruct (decide _); auto); split_and!; reflexivity.
Qed.

Lemma flush_emits s b now c : emits c (flushInteraction s b now c) (match ib_data b with [] => [] | data => [MkPiece (sessionKey s) (ib_direction b) (ib_stream b) data false] end).
Proof. unfold flushInteraction; destruct (ib_data b) eqn:E; [apply emits_nothing|apply emit_emits; discriminate]. Qed.

Definition record_piece (s : Session) (d : Direction) (stream : StreamType) (data : list Z) : piece :=
  MkPiece (sessionKey s) d stream data (maxInteractionBufferSize <? zlen data).

Lemma records_emit s d stream now rs c : Forall (fun r => r <> []) rs ->
  emits c (fold_left (emit_record s d stream now) rs c) (map (record_piece s d stream) rs).
Proof.
  intros Hr; revert c; induction Hr as [|r rs Hr _ IH]; intros c; cbn [fold_left map]; [apply emits_nothing|].
  apply (emits_trans c (emit_record s d stream now c r) _ [record_piece s d stream r]); [|apply IH]; unfold emit_record, record_piece.
  destruct (maxInteractionBufferSize <? zlen r); [apply omit_emits, Hr|apply emit_emits, Hr].
Qed.

(** The same, when buffers change as well. *)
Definition passes (c c' : LiveCollector) (ps : list piece) : Prop := emits c (put_buffers (lc_pending c) c') ps.

Lemma emits_passes c c' ps : emits c c' ps -> passes c c' ps.
Proof. intros [A1 A2 A3 A4 A5 A6 A7 A8]; constructor; auto. Qed.

Lemma passes_trans c1 c2 c3 ps qs : passes c1 c2 ps -> passes c2 c3 qs -> passes c1 c3 (ps ++ qs).
Proof.
  intros [A1 A2 A3 A4 A5 A6 A7 A8] [B1 B2 B3 B4 B5 B6 B7 B8]; cbn in *; constructor; cbn; try congruence; [rewrite B1, A1, app_assoc; reflexivity|].
  intros Hr Ht; destruct (A8 Hr Ht) as [T1 I1]; rewrite A5 in B8; destruct (B8 Hr T1) as [T2 I2]; split; [exact T2|]; rewrite I2, I1, A6, A7, map_app, app_assoc; reflexivity.
Qed.

Lemma passes_buffers c c' ps m : passes c c' ps -> passes c (put_buffers m c') ps.
Proof. intros Hp; exact Hp. Qed.

Definition live_ok (c : LiveCollector) : Prop :=
  forall key b, lc_pending c !! key = Some b -> buffer_ok b /\ zlen (ib_data b) <= maxInteractionBufferSize.

Lemma cut_nonempty n : forall dr data, (length data <= n)%nat -> Forall (fun r => r <> []) (cut_records dr data).1.
Proof.
  induction n as [|n IH]; intros dr data Hn; rewrite cut_step; pose proof (boundary_le data dr) as Hb; destruct (resume data dr origin).1 as [|k]; cbv zeta; try constructor; [lia|].
  specialize (IH dr (drop (Datatypes.S k) data) ltac:(rewrite length_drop; lia)); destruct (cut_records dr (drop (Datatypes.S k) data)) as [rs r]; constructor; [|exact IH].
  destruct data; [cbn in Hb; lia|discriminate].
Qed.

Lemma tag_app d stream a b : tag d stream (a ++ b) = tag d stream a ++ tag d stream b.
Proof. apply map_app. Qed.

Lemma logged_app key a b : logged key (a ++ b) = logged key a ++ logged key b.
Proof. unfold logged; rewrite List.filter_app, map_app, concat_app; reflexivity. Qed.

#[local] Arguments tag : simpl never.

Lemma logged_cons key p ps : logged key (p :: ps) = (if bool_decide (pc_key p = key) then tag_piece p else []) ++ logged key ps.
Proof. unfold logged; cbn; destruct (bool_decide _); reflexivity. Qed.

Lemma logged_other key ps : Forall (fun p => pc_key p <> key) ps -> logged key ps = [].
Proof. induction 1 as [|p ps Hp _ IH]; [reflexivity|]; rewrite logged_cons, bool_decide_eq_false_2 by exact Hp; exact IH. Qed.

Lemma logged_one s d stream data o : logged (sessionKey s) [MkPiece (sessionKey s) d stream data o] = tag d stream data.
Proof. rewrite logged_cons, bool_decide_eq_true_2 by reflexivity; apply app_nil_r. Qed.

Lemma logged_records s d stream rs : logged (sessionKey s) (map (record_piece s d stream) rs) = tag d stream (concat rs).
Proof.
  induction rs as [|r rs IH]; [reflexivity|]; cbn [map concat]; rewrite logged_cons, bool_decide_eq_true_2, IH, tag_app by reflexivity; reflexivity.
Qed.

Definition flush_pieces (s : Session) (b : interactionBuffer) : list piece :=
  match ib_data b with [] => [] | data => [MkPiece (sessionKey s) (ib_direction b) (ib_stream b) data false] end.

Lemma logged_flush s b : logged (sessionKey s) (flush_pieces s b) = tag (ib_direction b) (ib_stream b) (ib_data b).
Proof. unfold flush_pieces; destruct (ib_data b); [reflexivity|apply logged_one]. Qed.

(** The records of one session that a call lets out, with the bytes it was given. *)
Record moves (s : Session) (given : list (Direction * StreamType * Z)) (c c' : LiveCollector) (ps : list piece) : Prop := {
  mv_passes : passes c c' ps;
  mv_key : Forall (fun p => pc_key p = sessionKey s) ps;
  mv_ok : Forall piece_ok ps;
  mv_bytes : logged (sessionKey s) ps ++ held_back c' (sessionKey s) = held_back c (sessionKey s) ++ given;
  mv_others : forall key, key <> sessionKey s -> lc_pending c' !! key = lc_pending c !! key;
  mv_live : live_ok c';
}.

Lemma moves_trans s g1 g2 c1 c2 c3 ps qs : moves s g1 c1 c2 ps -> moves s g2 c2 c3 qs -> moves s (g1 ++ g2) c1 c3 (ps ++ qs).
Proof.
  intros [A1 A2 A3 A4 A5 A6] [B1 B2 B3 B4 B5 B6]; constructor; [eapply passes_trans; eassumption|apply Forall_app_2; assumption|apply Forall_app_2; assumption| | |exact B6].
  - rewrite logged_app, <- app_assoc, B4, app_assoc, A4, app_assoc; reflexivity.
  - intros key Hk; rewrite B5, A5 by exact Hk; reflexivity.
Qed.

(** The buffer of a session is flushed, if it has one, and forgotten. *)
Lemma flush_moves s b now c : live_ok c -> lc_pending c !! sessionKey s = Some b ->
  moves s [] c (put_buffers (delete (sessionKey s) (lc_pending (flushInteraction s b now c))) (flushInteraction s b now c)) (flush_pieces s b).
Proof.
  intros Hl Hb; pose proof (flush_emits s b now c) as He; fold (flush_pieces s b) in He; destruct (Hl _ _ Hb) as [_ Hsz]; constructor.
  - apply passes_buffers, emits_passes, He.
  - unfold flush_pieces; destruct (ib_data b); repeat constructor.
  - unfold flush_pieces; destruct (ib_data b) eqn:E; repeat constructor; cbn; [discriminate|auto].
  - rewrite logged_flush; unfold held_back at 1; cbn [lc_pending put_buffers]; rewrite lookup_delete_eq, (app_nil_r (tag _ _ _)); unfold held_back; rewrite Hb, app_nil_r; reflexivity.
  - intros key Hk; cbn; rewrite (em_pending _ _ _ He); apply lookup_delete_ne; congruence.
  - intros key b' Hb'; cbn in Hb'; apply lookup_delete_Some in Hb' as [_ Hb']; rewrite (em_pending _ _ _ He) in Hb'; eapply Hl, Hb'.
Qed.

(** Chunks are appended to a buffer that was taken out of the collector. *)
Lemma feed_moves s d stream data now c b : live_ok c -> buffer_ok b -> ib_direction b = d -> ib_stream b = stream -> data <> [] ->
  let '(records, b') := feed b data in
  let c1 := fold_left (emit_record s d stream now) records c in
  let c2 := if maxInteractionBufferSize <? zlen (ib_data b') then put_buffers (delete (sessionKey s) (lc_pending c1)) (omit s d stream (ib_data b') now c1)
            else put_buffers (<[sessionKey s := b']> (lc_pending c1)) c1 in
  exists ps, passes c c2 ps /\ Forall (fun p => pc_key p = sessionKey s) ps /\ Forall piece_ok ps /\
    logged (sessionKey s) ps ++ held_back c2 (sessionKey s) = tag d stream (ib_data b) ++ tag d stream data /\
    (forall key, key <> sessionKey s -> lc_pending c2 !! key = lc_pending c !! key) /\ live_ok c2.
Proof.
  intros Hl Hb Hd Hst Hne; pose proof (feed_cut b data Hb) as (F1 & F2 & F3 & _); destruct (feed_same b data) as [F5 F6]; destruct (feed b data) as [records b']; cbn [fst snd] in *; cbv zeta.
  assert (Forall (fun r => r <> []) records) as Hrs by (rewrite F1; eapply cut_nonempty; reflexivity).
  pose proof (records_emit s d stream now records c Hrs) as He; set (c1 := fold_left _ records c) in *.
  assert (tag d stream (concat records) ++ tag d stream (ib_data b') = tag d stream (ib_data b) ++ tag d stream data) as Hbytes.
  { rewrite <- !tag_app, F1, F2, (cut_conserves _ _ _ (le_n _)); reflexivity. }
  assert (Forall (fun p => pc_key p = sessionKey s) (map (record_piece s d stream) records) /\ Forall piece_ok (map (record_piece s d stream) records)) as [Hk Hok].
  { clear -Hrs; induction Hrs as [|r rs Hr _ [IH1 IH2]]; cbn; split; constructor; auto; split; cbn; [exact Hr|]; intros E; apply Z.ltb_ge in E; exact E. }
  destruct (maxInteractionBufferSize <? zlen (ib_data b')) eqn:Em.
  - assert (ib_data b' <> []) as Hb' by (intros E; rewrite E in Em; discriminate).
    pose proof (omit_emits s d stream (ib_data b') now c1 Hb') as Ho; exists (map (record_piece s d stream) records ++ [MkPiece (sessionKey s) d stream (ib_data b') true]); split_and!.
    + apply passes_buffers; eapply passes_trans; [apply emits_passes, He|apply emits_passes, Ho].
    + apply Forall_app_2; [exact Hk|repeat constructor].
    + apply Forall_app_2; [exact Hok|]; constructor; [split; cbn; [exact Hb'|discriminate]|constructor].
    + unfold held_back; cbn [lc_pending put_buffers]; rewrite lookup_delete_eq, app_nil_r, logged_app, logged_records, logged_one; exact Hbytes.
    + intros key Hkey; cbn; rewrite (em_pending _ _ _ He); apply lookup_delete_ne; congruence.
    + intros key b2 Hb2; cbn in Hb2; apply lookup_delete_Some in Hb2 as [_ Hb2]; rewrite (em_pending _ _ _ He) in Hb2; eapply Hl, Hb2.
  - exists (map (record_piece s d stream) records); apply Z.ltb_ge in Em; split_and!; auto.
    + apply passes_buffers, emits_passes, He.
    + unfold held_back; cbn [lc_pending put_buffers]; rewrite lookup_insert_eq, logged_records, F5, F6, Hd, Hst; exact Hbytes.
    + intros key Hkey; cbn; rewrite (em_pending _ _ _ He); apply lookup_insert_ne; congruence.
    + intros key b2 Hb2; cbn in Hb2; destruct (decide (sessionKey s = key)) as [<-|Hkey]; [rewrite lookup_insert_eq in Hb2; injection Hb2 as <-; auto|].
      rewrite lookup_insert_ne, (em_pending _ _ _ He) in Hb2 by exact Hkey; eapply Hl, Hb2.
Qed.

(** A buffer taken out of the collector, after the records [ps]. *)
Record ready (s : Session) (d : Direction) (stream : StreamType) (c c' : LiveCollector) (b : interactionBuffer) (ps : list piece) : Prop := {
  rd_emits : emits c c' ps;
  rd_key : Forall (fun p => pc_key p = sessionKey s) ps;
  rd_pieces : Forall piece_ok ps;
  rd_buffer : buffer_ok b /\ ib_direction b = d /\ ib_stream b = stream /\ zlen (ib_data b) <= maxInteractionBufferSize;
  rd_bytes : logged (sessionKey s) ps ++ tag d stream (ib_data b) = held_back c (sessionKey s);
}.

Lemma flush_pieces_ok s b : zlen (ib_data b) <= maxInteractionBufferSize ->
  Forall (fun p => pc_key p = sessionKey s) (flush_pieces s b) /\ Forall piece_ok (flush_pieces s b).
Proof. unfold flush_pieces; destruct (ib_data b) eqn:E; split; repeat constructor; cbn; [discriminate|auto]. Qed.

Lemma buffer_ready s d stream now c : live_ok c -> exists ps, ready s d stream c (buffer_for s d stream now c).1 (buffer_for s d stream now c).2 ps.
Proof.
  intros Hl; unfold buffer_for; destruct (lc_pending c !! sessionKey s) as [b|] eqn:Eb.
  - destruct (Hl _ _ Eb) as [Hb Hsz]; destruct (_ && _) eqn:E.
    + apply andb_prop in E as [E1 E2]; apply bool_decide_eq_true in E1, E2; exists []; constructor; auto; [apply emits_nothing|]; unfold held_back; rewrite Eb, E1, E2; reflexivity.
    + exists (flush_pieces s b); destruct (flush_pieces_ok s b Hsz) as [K1 K2]; constructor; auto; [apply (flush_emits s b now c)|split_and!; auto; [apply fresh_ok|vm_compute; discriminate]|].
      rewrite logged_flush; unfold held_back; rewrite Eb; apply app_nil_r.
  - exists []; constructor; auto; [apply emits_nothing|split_and!; auto; [apply fresh_ok|vm_compute; discriminate]|]; unfold held_back; rewrite Eb; reflexivity.
Qed.

Lemma reset_ready s d stream now c c' b ps : ready s d stream c c' b ps ->
  ready s d stream c (flushInteraction s b now c') (fresh_buffer d stream [] clean) (ps ++ flush_pieces s b).
Proof.
  intros [A1 A2 A3 (B1 & B2 & B3 & B4) A5]; destruct (flush_pieces_ok s b B4) as [K1 K2]; constructor.
  - eapply emits_trans; [exact A1|apply flush_emits].
  - apply Forall_app_2; assumption.
  - apply Forall_app_2; assumption.
  - split_and!; auto; [apply fresh_ok|vm_compute; discriminate].
  - rewrite logged_app, logged_flush, B2, B3, app_nil_r; exact A5.
Qed.

Lemma observe_moves s d stream data now c : live_ok c -> exists ps, moves s (tag d stream data) c (observeInteraction s d stream data now c) ps.
Proof.
  intros Hl; unfold observeInteraction; destruct data as [|b0 data]; [exists []; constructor; auto; [apply emits_passes, emits_nothing|symmetry; apply app_nil_r]|].
  set (dt := b0 :: data); destruct (buffer_ready s d stream now c Hl) as [ps0 R0]; destruct (buffer_for s d stream now c) as [c0 bf0]; cbn [fst snd] in R0; cbv zeta.
  match goal with |- context [if ?x then (flushInteraction s bf0 now c0, _) else _] => set (rst := x) end.
  assert (exists ps1, ready s d stream c (if rst then (flushInteraction s bf0 now c0, fresh_buffer d stream [] clean) else (c0, bf0)).1
    (if rst then (flushInteraction s bf0 now c0, fresh_buffer d stream [] clean) else (c0, bf0)).2 ps1) as [ps1 R1].
  { destruct rst; [exists (ps0 ++ flush_pieces s bf0); apply reset_ready, R0|exists ps0; exact R0]. }
  destruct (if rst then (flushInteraction s bf0 now c0, fresh_buffer d stream [] clean) else (c0, bf0)) as [c1 b1]; cbn [fst snd] in R1; destruct R1 as [A1 A2 A3 (B1 & B2 & B3 & B4) A5].
  assert (live_ok c1) as Hl1 by (intros key b; rewrite (em_pending _ _ _ A1); apply Hl).
  pose proof (feed_moves s d stream dt now c1 b1 Hl1 B1 B2 B3 ltac:(discriminate)) as F; destruct (feed b1 dt) as [records b2]; cbv zeta in F; destruct F as (ps2 & F1 & F2 & F3 & F4 & F5 & F6).
  exists (ps1 ++ ps2); constructor; [eapply passes_trans; [apply emits_passes, A1|exact F1]|apply Forall_app_2; assumption|apply Forall_app_2; assumption| | |exact F6].
  - rewrite logged_app, <- app_assoc, F4, app_assoc, A5; reflexivity.
  - intros key Hk; rewrite F5 by exact Hk; rewrite (em_pending _ _ _ A1); reflexivity.
Qed.

(** ** Runs *)

Lemma close_terminal_passes key c : lc_renderTerminal c = true \/ lc_terminals c = ∅ -> passes c (close_terminal key c) [] /\ lc_pending (close_terminal key c) = lc_pending c.
Proof.
  intros Hr; unfold close_terminal; destruct (lc_terminals c !! key) as [cap|] eqn:Ec; [|split; [apply emits_passes, emits_nothing|reflexivity]]; split; [|reflexivity].
  assert (lc_terminals c <> ∅) as Hne by (intros E; rewrite E, lookup_empty in Ec; discriminate).
  constructor; cbn; auto; [rewrite app_nil_r; reflexivity|destruct (tc_pending cap); reflexivity|destruct (tc_pending cap); reflexivity|]; intros ? ?; contradiction.
Qed.

(** Drawings exist only where output is drawn. *)
Definition drawn_ok (c : LiveCollector) : Prop := lc_renderTerminal c = true \/ lc_terminals c = ∅.

Lemma passes_drawn c c' ps : passes c c' ps -> drawn_ok c -> drawn_ok c'.
Proof.
  intros [_ _ _ _ A5 _ _ A8] Hd; cbn in *; unfold drawn_ok in *; destruct (lc_renderTerminal c) eqn:Er; [left; congruence|].
  right; destruct Hd as [?|Hd]; [discriminate|]; apply A8; auto.
Qed.

Lemma flush_frame_emits s now c : emits c (flush_output_frame s now c) [].
Proof.
  unfold flush_output_frame; destruct (FlushOutput _ _) as [f frame]; pose proof (framer_emits f c) as Hf; destruct frame as [|b frame]; [exact Hf|].
  apply (emits_trans _ _ _ [] [] Hf), calm_emits, calm_output.
Qed.

Lemma emits_moves s c c' : live_ok c -> emits c c' [] -> moves s [] c c' [].
Proof.
  intros Hl He; constructor; auto; [apply emits_passes, He| | |].
  - unfold held_back; rewrite (em_pending _ _ _ He), app_nil_r; reflexivity.
  - intros; rewrite (em_pending _ _ _ He); reflexivity.
  - intros key b; rewrite (em_pending _ _ _ He); apply Hl.
Qed.

Lemma input_moves s data now c : live_ok c -> exists ps, moves (sourceSession c s) (tag DirectionHuman StreamInput data) c (ObserveInputChunk s data now c) ps.
Proof.
  intros Hl; unfold ObserveInputChunk; cbv zeta; set (s' := sourceSession c s); set (c1 := match lc_pending c !! sessionKey s' with Some _ => _ | None => c end).
  assert (exists ps, moves s' [] c c1 ps) as [ps M1].
  { unfold c1; destruct (lc_pending c !! sessionKey s') as [b|] eqn:Eb; [|exists []; apply emits_moves, emits_nothing; exact Hl].
    destruct (decide (ib_direction b = DirectionAgent)); [|exists []; apply emits_moves, emits_nothing; exact Hl].
    pose proof (flush_moves s' b now c Hl Eb) as M; exists (flush_pieces s' b ++ []); apply (moves_trans s' [] [] _ _ _ _ _ M), emits_moves, flush_frame_emits; apply M. }
  destruct (observe_moves s' DirectionHuman StreamInput data now c1 (mv_live _ _ _ _ _ M1)) as [qs M2]; exists (ps ++ qs); apply (moves_trans _ [] _ _ _ _ _ _ M1 M2).
Qed.

Lemma ended_moves s now c : live_ok c -> drawn_ok c -> exists ps, moves (sourceSession c s) [] c (SessionEnded s now c) ps /\
  held_back (SessionEnded s now c) (sessionKey (sourceSession c s)) = [].
Proof.
  intros Hl Hd; unfold SessionEnded; cbv zeta; set (s' := sourceSession c s); set (c1 := match lc_pending c !! sessionKey s' with Some _ => _ | None => c end).
  assert (exists ps, moves s' [] c c1 ps /\ lc_pending c1 !! sessionKey s' = None) as (ps & M1 & E1).
  { unfold c1; destruct (lc_pending c !! sessionKey s') as [b|] eqn:Eb; [|exists []; split; [apply emits_moves, emits_nothing; exact Hl|exact Eb]].
    exists (flush_pieces s' b); split; [apply flush_moves; assumption|apply lookup_delete_eq]. }
  pose proof (flush_frame_emits s' now c1) as H2; set (c2 := flush_output_frame s' now c1) in *; destruct (FlushInput (lc_framer c2) (frameKey s')) as [f frame].
  set (c3 := match frame with [] => put_framer f c2 | _ => _ end).
  assert (emits c2 c3 []) as H3.
  { unfold c3; destruct frame as [|b frame]; [apply framer_emits|]; apply (emits_trans _ _ _ [] [] (framer_emits f c2)), calm_emits, calm_input. }
  pose proof (emits_trans _ _ _ _ _ H2 H3) as H23; cbn [app] in H23.
  assert (drawn_ok c3) as Hd3 by (eapply passes_drawn; [eapply passes_trans; [apply (mv_passes _ _ _ _ _ M1)|apply emits_passes, H23]|exact Hd]).
  destruct (close_terminal_passes (sessionKey s') c3 Hd3) as [H4 P4]; set (c4 := close_terminal (sessionKey s') c3) in *.
  assert (emits c3 c4 []) as E4 by (destruct H4; constructor; auto).
  assert (emits c4 (on_analyzer (ObserveSessionEnd s' now) c4) []) as H5.
  { apply calm_emits; intros a; unfold ObserveSessionEnd; match goal with |- context [record ?x ?b] => destruct (calm_record x ltac:(discriminate) ltac:(discriminate) b) as (K1 & K2 & K3); rewrite K1, K2, K3 end; auto. }
  pose proof (emits_trans _ _ _ _ _ H23 (emits_trans _ _ _ _ _ E4 H5)) as Hall; cbn [app] in Hall.
  exists (ps ++ []); split; [apply (moves_trans s' [] [] _ _ _ _ _ M1), emits_moves, Hall; apply M1|]; unfold held_back; rewrite (em_pending _ _ _ Hall), E1; reflexivity.
Qed.

Lemma timer_passes key id c : drawn_ok c -> passes c (timer_fires key id c) [] /\ lc_pending (timer_fires key id c) = lc_pending c.
Proof.
  intros Hd; unfold timer_fires; destruct (lc_terminals c !! key) as [cap|] eqn:Ec; [|split; [apply emits_passes, emits_nothing|reflexivity]].
  destruct (_ && _); [|split; [apply emits_passes, emits_nothing|reflexivity]]; cbn; split; [|reflexivity].
  assert (lc_terminals c <> ∅) as Hne by (intros E; rewrite E, lookup_empty in Ec; discriminate).
  constructor; cbn; auto; [rewrite app_nil_r; reflexivity|destruct (tc_pending cap); reflexivity|destruct (tc_pending cap); reflexivity|]; intros ? ?; contradiction.
Qed.

Lemma started_passes s now c : drawn_ok c -> let key := sessionKey (sourceSession c s) in
  passes c (SessionStarted s now c) [] /\ lc_pending (SessionStarted s now c) = delete key (lc_pending c).
Proof.
  intros Hd; cbv zeta; unfold SessionStarted; cbv zeta; set (s' := sourceSession c s); set (c1 := put_buffers _ c).
  assert (drawn_ok c1) as Hd1 by exact Hd; destruct (close_terminal_passes (sessionKey s') c1 Hd1) as [H2 P2]; set (c2 := close_terminal (sessionKey s') c1) in *.
  match goal with |- passes _ (on_analyzer ?f ?c3) _ /\ _ => set (g := f); set (cc := c3) end.
  assert (emits cc (on_analyzer g cc) []) as H4.
  { apply calm_emits; intros a; unfold g; match goal with |- context [record ?x ?b] => destruct (calm_record x ltac:(discriminate) ltac:(discriminate) b) as (K1 & K2 & K3); rewrite K1, K2, K3 end.
    unfold ObserveSessionStart; match goal with |- context [record ?x ?b] => destruct (calm_record x ltac:(discriminate) ltac:(discriminate) b) as (L1 & L2 & L3); rewrite L1, L2, L3 end; auto. }
  split; [|cbn; rewrite P2; reflexivity].
  assert (passes c c1 []) as H1 by (apply (passes_buffers c c []), emits_passes, emits_nothing).
  pose proof (passes_trans _ _ _ _ _ H1 H2) as H12; pose proof (passes_trans _ _ _ _ _ H12 (emits_passes _ _ _ (framer_emits (Reset (lc_framer c2) (frameKey s')) c2))) as H123.
  exact (passes_trans _ _ _ _ _ H123 (emits_passes _ _ _ H4)).
Qed.

Lemma moves_bytes s g c c' ps key : moves s g c c' ps ->
  logged key ps ++ held_back c' key = held_back c key ++ if decide (sessionKey s = key) then g else [].
Proof.
  intros [_ Hk _ Hb Ho _]; destruct (decide (sessionKey s = key)) as [<-|Hne]; [exact Hb|].
  unfold held_back; rewrite Ho by congruence; rewrite logged_other, app_nil_r; [reflexivity|]; eapply List.Forall_impl; [|exact Hk]; congruence.
Qed.

Lemma step_bytes ev c : live_ok c -> drawn_ok c -> exists ps, passes c (live_step c ev) ps /\ Forall piece_ok ps /\ live_ok (live_step c ev) /\
  forall key, starts_session c key ev = false -> logged key ps ++ held_back (live_step c ev) key = held_back c key ++ handed c key ev.
Proof.
  intros Hl Hd; destruct ev as [s now|s stream data now|s data now|s now|k id]; cbn [live_step].
  - destruct (started_passes s now c Hd) as [H1 H2]; exists []; split_and!; auto.
    + intros key b; rewrite H2; intros Hb; apply lookup_delete_Some in Hb as [_ Hb]; eapply Hl, Hb.
    + intros key Hk; cbn in Hk; apply bool_decide_eq_false in Hk; cbn; unfold held_back; rewrite H2, lookup_delete_ne, app_nil_r by congruence; reflexivity.
  - destruct (observe_moves (sourceSession c s) DirectionAgent stream data now c Hl) as [ps M]; exists ps; split_and!; try apply M; intros key _; apply (moves_bytes _ _ _ _ _ key M).
  - destruct (input_moves s data now c Hl) as [ps M]; exists ps; split_and!; try apply M; intros key _; apply (moves_bytes _ _ _ _ _ key M).
  - destruct (ended_moves s now c Hl Hd) as (ps & M & _); exists ps; split_and!; try apply M; intros key _; rewrite (moves_bytes _ _ _ _ _ key M); destruct (decide _); reflexivity.
  - destruct (timer_passes k id c Hd) as [H1 H2]; exists []; split_and!; auto; [intros key b; rewrite H2; apply Hl|].
    intros key _; unfold held_back; rewrite H2, app_nil_r; reflexivity.
Qed.

Lemma source_same c c' s : lc_sourceID c' = lc_sourceID c -> lc_actorID c' = lc_actorID c -> sourceSession c' s = sourceSession c s.
Proof. intros H1 H2; unfold sourceSession; rewrite H1, H2; reflexivity. Qed.

Definition live_run (evs : list live_event) (c : LiveCollector) : LiveCollector := fold_left live_step evs c.

Lemma run_bytes evs : forall c, live_ok c -> drawn_ok c -> exists ps, passes c (live_run evs c) ps /\ Forall piece_ok ps /\ live_ok (live_run evs c) /\
  forall key, forallb (fun ev => negb (starts_session c key ev)) evs = true ->
    logged key ps ++ held_back (live_run evs c) key = held_back c key ++ concat (map (handed c key) evs).
Proof.
  unfold live_run; induction evs as [|ev evs IH]; intros c Hl Hd; cbn [fold_left].
  - exists []; split_and!; auto; [apply emits_passes, emits_nothing|]; intros key _; cbn; rewrite app_nil_r; reflexivity.
  - destruct (step_bytes ev c Hl Hd) as (ps & S1 & S2 & S3 & S4); destruct (IH _ S3 (passes_drawn _ _ _ S1 Hd)) as (qs & R1 & R2 & R3 & R4).
    exists (ps ++ qs); split_and!; [eapply passes_trans; eassumption|apply Forall_app_2; assumption|exact R3|].
    intros key Hk; cbn in Hk; apply andb_prop in Hk as [Hk1 Hk2]; apply negb_true_iff in Hk1; cbn [map concat]; rewrite logged_app, <- app_assoc.
    assert (forall s, sourceSession (live_step c ev) s = sourceSession c s) as Hsrc by (intros s; apply source_same; apply S1).
    rewrite R4; [rewrite app_assoc, S4 by exact Hk1; rewrite <- app_assoc; do 3 f_equal; apply map_ext; intros x; unfold handed; destruct x; try reflexivity; rewrite Hsrc; reflexivity|].
    rewrite <- Hk2; clear -Hsrc; induction evs as [|x evs IHx]; [reflexivity|]; cbn; rewrite IHx; do 2 f_equal; unfold starts_session; destruct x; try reflexivity; rewrite Hsrc; reflexivity.
Qed.

(** ** Chunks *)

(** The text of a session that waits for its boundary. *)
Definition buffered (c : LiveCollector) (s : Session) : list Z := match lc_pending c !! sessionKey s with Some b => ib_data b | None => [] end.

(** The buffer that a chunk of this direction and stream is appended to. *)
Definition open_buffer (s : Session) (d : Direction) (stream : StreamType) (c : LiveCollector) (b : interactionBuffer) : Prop :=
  (lc_pending c !! sessionKey s = Some b \/ lc_pending c !! sessionKey s = None /\ b = fresh_buffer d stream [] clean) /\
  buffer_ok b /\ utf8_ok b /\ ib_direction b = d /\ ib_stream b = stream.

Lemma open_fresh s d stream c : lc_pending c !! sessionKey s = None -> open_buffer s d stream c (fresh_buffer d stream [] clean).
Proof. intros Hp; split_and!; auto; [apply fresh_ok|reflexivity]. Qed.

Lemma open_buffered s d stream c b : open_buffer s d stream c b -> buffered c s = ib_data b.
Proof. unfold buffered; intros ([->|[-> ->]] & _); reflexivity. Qed.

(** One chunk: the records that leave and what stays buffered. *)
Lemma observe_chunk s d stream data now c b : open_buffer s d stream c b ->
  let c' := observeInteraction s d stream data now c in
  exists new b', lc_log c' = lc_log c ++ new /\ open_buffer s d stream c' b' /\
    concat (map pc_data new) ++ ib_data b' = ib_data b ++ data /\
    (resets b data = false -> cut_records (draws b) (ib_data b) = ([], ib_data b) ->
     zlen (cut_records (draws b) (ib_data b ++ data)).2 <= maxInteractionBufferSize ->
     (map pc_data new, ib_data b') = cut_records (draws b) (ib_data b ++ data)).
Proof.
  intros Ho; cbv zeta; unfold observeInteraction; destruct data as [|b0 data].
  { exists [], b; rewrite !app_nil_r; split_and!; auto; intros _ -> _; reflexivity. }
  set (dt := b0 :: data); assert (buffer_for s d stream now c = (c, b)) as ->.
  { destruct Ho as ([Hp|[Hp ->]] & _ & _ & H3 & H4); unfold buffer_for; rewrite Hp; [|reflexivity]; rewrite !bool_decide_eq_true_2 by assumption; reflexivity. }
  destruct Ho as (_ & Hok & Hu & Hd & Hst).
  assert (exists c1 b1 new1, (if resets b dt then (flushInteraction s b now c, fresh_buffer d stream [] clean) else (c, b)) = (c1, b1) /\
    emits c c1 new1 /\ concat (map pc_data new1) ++ ib_data b1 = ib_data b /\ (resets b dt = false -> new1 = [] /\ b1 = b) /\
    buffer_ok b1 /\ utf8_ok b1 /\ ib_direction b1 = d /\ ib_stream b1 = stream) as (c1 & b1 & new1 & -> & He1 & Hb1 & Hr1 & Hok1 & Hu1 & Hd1 & Hst1).
  { destruct (resets b dt); [|exists c, b, []; split_and!; auto; apply emits_nothing].
    exists (flushInteraction s b now c), (fresh_buffer d stream [] clean), (flush_pieces s b); split_and!; auto; try discriminate; [apply flush_emits| |apply fresh_ok|reflexivity].
    unfold flush_pieces; destruct (ib_data b); [reflexivity|cbn; rewrite !app_nil_r; reflexivity]. }
  destruct (feed_cut b1 dt Hok1) as (F1 & F2 & F3 & _); destruct (feed_same b1 dt) as [F5 F6]; pose proof (feed_utf8 b1 dt Hu1) as F7.
  destruct (feed b1 dt) as [records b2]; cbn [fst snd] in *; cbv zeta.
  assert (Forall (fun r => r <> []) records) as Hrs by (rewrite F1; eapply cut_nonempty; reflexivity).
  pose proof (records_emit s d stream now records c1 Hrs) as He2; set (c2 := fold_left _ records c1) in *.
  pose proof (emits_trans _ _ _ _ _ He1 He2) as He; assert (map pc_data (map (record_piece s d stream) records) = records) as Hm by (rewrite map_map; apply map_id).
  assert (concat records ++ ib_data b2 = ib_data b1 ++ dt) as Hc by (rewrite F1, F2, (cut_conserves _ _ _ (le_n _)); reflexivity).
  destruct (Z.ltb_spec maxInteractionBufferSize (zlen (ib_data b2))) as [L|L].
  - assert (ib_data b2 <> []) as Hne by (intros E; rewrite E in L; discriminate).
    pose proof (emits_trans _ _ _ _ _ He (omit_emits s d stream (ib_data b2) now c2 Hne)) as Ho; eexists _, (fresh_buffer d stream [] clean); split; [apply Ho|].
    split; [apply open_fresh, lookup_delete_eq|]; rewrite !map_app, !concat_app, Hm; cbn [map concat pc_data ib_data fresh_buffer]; rewrite !app_nil_r, <- app_assoc.
    split; [rewrite Hc, app_assoc, Hb1; reflexivity|]; intros Hr _ Hz; destruct (Hr1 Hr) as [_ ->]; rewrite <- F2 in Hz; lia.
  - eexists _, b2; split; [apply He|]; split; [split_and!; auto; try congruence; left; apply lookup_insert_eq|].
    rewrite map_app, concat_app, Hm, <- app_assoc, Hc, app_assoc, Hb1; split; [reflexivity|].
    intros Hr _ _; destruct (Hr1 Hr) as [-> ->]; cbn [map app]; rewrite F1, F2; destruct (cut_records _ _); reflexivity.
Qed.

(** More chunks, after the text [p] left [b] behind. *)
Lemma observe_chunks s d stream dr cs : dr = bool_decide (d = DirectionAgent) && bool_decide (stream = StreamOutput) ->
  forall p c b, open_buffer s d stream c b ->
  let rest := concat (map fst cs) in
  let c' := fold_left (fun c x => observeInteraction s d stream x.1 x.2 c) cs c in
  (scannable maxInteractionBufferSize dr (p ++ rest) -> (cut_records dr p).2 = ib_data b) ->
  exists new, lc_log c' = lc_log c ++ new /\ concat (map pc_data new) ++ buffered c' s = ib_data b ++ rest /\
    (scannable maxInteractionBufferSize dr (p ++ rest) -> (map pc_data new, buffered c' s) = cut_records dr (ib_data b ++ rest)).
Proof.
  intros ->; set (dr := _ && _); induction cs as [|[ch now] cs IH]; intros p c0 b Ho; cbn [fold_left map concat fst snd]; cbv zeta; intros Hp.
  { exists []; rewrite (open_buffered _ _ _ _ _ Ho), !app_nil_r in *; split_and!; auto; intros Hs; rewrite <- Hp by exact Hs.
    cbn [map]; rewrite (cut_again _ _ _ (le_n _)); reflexivity. }
  destruct (observe_chunk s d stream ch now c0 b Ho) as (new1 & b1 & L1 & O1 & C1 & E1); set (c1 := observeInteraction _ _ _ _ _ _) in *.
  assert (draws b = dr) as Hdr by (destruct Ho as (_ & _ & _ & H1 & H2); unfold draws; rewrite H1, H2; reflexivity); rewrite Hdr in E1.
  assert (scannable maxInteractionBufferSize dr (p ++ ch ++ concat (map fst cs)) -> (map pc_data new1, ib_data b1) = cut_records dr (ib_data b ++ ch)) as E2.
  { intros Hs; destruct (scannable_next _ _ _ _ _ Hs) as [S1 S2]; specialize (Hp Hs); rewrite Hp in S1; rewrite (cut_app dr ch _ p (le_n _)) in S2.
    pose proof (cut_again _ dr p (le_n _)) as Ha; rewrite Hp in Ha; destruct (cut_records dr p) as [rs r]; cbn [snd] in Hp; subst r.
    apply E1; [apply resets_not; [apply Ho|exact S1]|exact Ha|]; destruct (cut_records dr (ib_data b ++ ch)); exact S2. }
  destruct (IH (p ++ ch) c1 b1 O1) as (new2 & L2 & C2 & E3).
  { rewrite <- app_assoc; intros Hs; specialize (E2 Hs); specialize (Hp Hs); rewrite (cut_app dr ch _ p (le_n _)); destruct (cut_records dr p) as [rs r].
    cbn [snd] in Hp; subst r; rewrite <- E2; reflexivity. }
  exists (new1 ++ new2); rewrite L2, L1, map_app, concat_app, <- !app_assoc, C2, (app_assoc (concat _)), C1, <- app_assoc; split_and!; auto.
  intros Hs; rewrite <- app_assoc in E3; specialize (E3 Hs); rewrite app_assoc, (cut_app dr _ _ (ib_data b ++ ch) (le_n _)), <- (E2 Hs), <- E3; reflexivity.
Qed.

(** C26. Give the collector the output or input of one session in any chunks,
    starting with nothing buffered for it: the records that leave, put together,
    and the text still buffered are always exactly the bytes given. And when every
    record that a scan of the whole text from its first byte cuts is UTF-8, the
    text left over is UTF-8 or cut within a rune, and at no point more than the
    buffer limit of 1 MiB waits for its boundary, then the records and the
    buffered text are those of that scan, however the text was chunked: although
    the scan resumes in the middle of runes, escape sequences and frames, and the
    buffer may be flushed early. Text that is not UTF-8 is excluded: a malformed
    chunk flushes the valid text before it, so its records do depend on the chunks
    (Live.invalid_chunk_flushes). *)
Theorem records_from_chunks (c : LiveCollector) (s : Session) (d : Direction) (stream : StreamType) (chunks : list (list Z * Time)) :
  lc_pending c !! sessionKey s = None ->
  let drawing := bool_decide (d = DirectionAgent) && bool_decide (stream = StreamOutput) in
  let text := concat (map fst chunks) in
  let c' := fold_left (fun c x => observeInteraction s d stream x.1 x.2 c) chunks c in
  exists new, lc_log c' = lc_log c ++ new /\ concat (map pc_data new) ++ buffered c' s = text /\
    (scannable maxInteractionBufferSize drawing text -> (map pc_data new, buffered c' s) = cut_records drawing text).
Proof.
  intros Hn; cbv zeta; apply (observe_chunks s d stream _ chunks eq_refl [] c _ (open_fresh s d stream c Hn)); intros _.
  set (dr := _ && _); rewrite cut_step; pose proof (boundary_le [] dr); destruct (resume [] dr origin).1; [reflexivity|cbn in *; lia].
Qed.

(** C25. Nothing is lost on the way into the records.  Take any run of the collector and
    then any calls that do not start the session anew: the bytes of its output and
    input, in order and each with its direction and stream, are those of the records
    that left, followed by those still buffered; a record is never empty, and it is
    larger than the limit only where its contents are omitted; once the session ended
    nothing is buffered.  Where output is not drawn, each record is recorded as one
    event with its size, and with its redacted text exactly when text is wanted and it
    is valid and within the limit, otherwise with its digest and the reason. *)
Theorem live_conserves (include : bool) (sourceID actorID : string) (kinds : list EventKind) (before evs : list live_event) (key : sessionIdentity)
    (Hkey : let c := live_run before (NewLiveCollectorWithIdentity include sourceID actorID kinds) in
            forallb (fun ev => negb (starts_session c key ev)) evs = true) :
  let c := live_run before (NewLiveCollectorWithIdentity include sourceID actorID kinds) in
  let c' := live_run evs c in
  exists new, lc_log c' = lc_log c ++ new /\ Forall piece_ok new /\
    logged key new ++ held_back c' key = held_back c key ++ concat (map (handed c key) evs) /\
    (forall s now, sessionKey (sourceSession c' s) = key -> held_back (SessionEnded s now c') key = []) /\
    (lc_renderTerminal c = false -> interactions (lc_analyzer c') = interactions (lc_analyzer c) ++ map (show_piece DefaultRedactor include) new).
Proof.
  cbv zeta in *; set (c0 := NewLiveCollectorWithIdentity include sourceID actorID kinds) in *.
  assert (live_ok c0) as Hl0 by (intros k b Hb; cbn in Hb; rewrite lookup_empty in Hb; discriminate).
  assert (drawn_ok c0) as Hd0 by (right; reflexivity).
  destruct (run_bytes before c0 Hl0 Hd0) as (ps & P1 & _ & P3 & _); pose proof (passes_drawn _ _ _ P1 Hd0) as Hd; set (c := live_run before c0) in *.
  destruct (run_bytes evs c P3 Hd) as (new & N1 & N2 & N3 & N4); exists new; split_and!; auto; [apply N1|..].
  - intros s now <-; destruct (ended_moves s now (live_run evs c) N3 (passes_drawn _ _ _ N1 Hd)) as (qs & _ & He); exact He.
  - intros Hr; destruct Hd as [Hd|Hd]; [congruence|]; destruct (em_shown _ _ _ N1 Hr Hd) as [_ Hs].
    pose proof (em_redact _ _ _ P1) as E1; pose proof (em_include _ _ _ P1) as E2; cbn in E1, E2, Hs; rewrite E1, E2 in Hs; exact Hs.
Qed.
End Live.

(** ** A concrete run *)

#[local] Instance blank_screen : Vt unit unit := {|
  vt_new _ _ := tt; vt_width _ := 0; vt_height _ := 0; vt_resize _ _ _ := tt; vt_write _ _ := tt; vt_string _ := []; vt_render _ := [];
  vt_scrollback _ := []; vt_clear_scrollback _ := tt; vt_push _ _ := tt; vt_star _ _ _ := tt; line_render _ := []; ansi_strip s := s;
  string_width s := length s |}.

(** Output in two chunks with a token split between them, input, and the end. *)
Definition demo_live : list live_event :=
  [LOutput demo_session StreamOutput (ascii "token=ab") 1; LOutput demo_session StreamOutput (ascii "cd" ++ 10 :: ascii "Shall I run it?") 2;
   LInput demo_session (ascii "yes" ++ [13]) 3].

Lemma live_conserves_witness :
  let c := live_run (fun _ => []) (fun t => t) [LStart demo_session 0] (NewLiveCollectorWithIdentity true "m" "" [EventUserInput; EventQuestion]) in
  let c' := live_run (fun _ => []) (fun t => t) demo_live c in
  exists new, lc_log c' = lc_log c ++ new /\ map pc_data new = [ascii "token=abcd" ++ [10]; ascii "Shall I run it?"; ascii "yes" ++ [13]] /\
    logged ("m", "s1") new ++ held_back c' ("m", "s1") = held_back c ("m", "s1") ++ concat (map (handed c ("m", "s1")) demo_live) /\
    interactions (lc_analyzer c') = interactions (lc_analyzer c) ++ map (show_piece (fun t => t) DefaultRedactor true) new /\
    map (fun x => x.1.1.2) (interactions (lc_analyzer c')) = [ascii "token=[REDACTED:SECRET]" ++ [10]; ascii "Shall I run it?"; ascii "yes" ++ [13]].
Proof.
  cbv zeta.
  destruct (live_conserves (fun _ => []) (fun t => t) true "m" "" [EventUserInput; EventQuestion] [LStart demo_session 0] demo_live ("m", "s1") ltac:(vm_compute; reflexivity))
    as (new & H1 & _ & H3 & _ & H5); exists new; split; [exact H1|]; split; [|split; [exact H3|split; [apply H5; vm_compute; reflexivity|vm_compute; reflexivity]]].
  assert (forall l, lc_log (live_run (fun _ => []) (fun t => t) demo_live (live_run (fun _ => []) (fun t => t) [LStart demo_session 0]
    (NewLiveCollectorWithIdentity true "m" "" [EventUserInput; EventQuestion]))) = [] ++ l -> map pc_data l = [ascii "token=abcd" ++ [10]; ascii "Shall I run it?"; ascii "yes" ++ [13]]) as Hl.
  { intros l Hl; cbn [app] in Hl; rewrite <- Hl; vm_compute; reflexivity. }
  apply Hl; exact H1.
Defined.

(** Output whose chunks end within a rune and within an escape sequence. *)
Definition demo_chunks : list (list Z * Time) :=
  [(ascii "na" ++ [195], 1); (175 :: ascii "ve" ++ [27; 93], 2); (ascii "0;t" ++ [10; 7] ++ ascii " text" ++ [10] ++ ascii "mo", 3); (ascii "re", 4)].

Definition demo_collector : @LiveCollector unit := NewLiveCollectorWithIdentity true "m" "" [EventUserInput].

Lemma records_from_chunks_witness :
  let c' := fold_left (fun c x => observeInteraction (fun _ => []) (fun t => t) demo_session DirectionAgent StreamOutput x.1 x.2 c) demo_chunks demo_collector in
  exists new, lc_log c' = new /\ map pc_data new = [ascii "na" ++ [195; 175] ++ ascii "ve" ++ [27; 93] ++ ascii "0;t" ++ [10; 7] ++ ascii " text" ++ [10]] /\
    buffered c' demo_session = ascii "more".
Proof.
  destruct (records_from_chunks (fun _ => []) (fun t => t) demo_collector demo_session DirectionAgent StreamOutput demo_chunks ltac:(reflexivity)) as (new & H1 & _ & H3).
  exists new; split; [exact H1|].
  assert (scannable maxInteractionBufferSize true (concat (map fst demo_chunks))) as Hs by (apply scannable_small; [vm_compute; discriminate|vm_compute; reflexivity|vm_compute; reflexivity]).
  specialize (H3 Hs); split; [refine (eq_trans (f_equal fst H3) _)|refine (eq_trans (f_equal snd H3) _)]; vm_compute; reflexivity.
Defined.

(** A chunk that is not UTF-8 flushes what it would continue: the same bytes in one
    chunk are one record. *)
Lemma invalid_chunk_flushes :
  let feed chunks := map pc_data (lc_log (fold_left (fun c x => observeInteraction (fun _ => []) (fun t => t) demo_session DirectionAgent StreamOutput x 1 c) chunks demo_collector)) in
  feed [ascii "abc"; 255 :: ascii " def" ++ [10]] = [ascii "abc"; 255 :: ascii " def" ++ [10]] /\
  feed [ascii "abc" ++ 255 :: ascii " def" ++ [10]] = [ascii "abc" ++ 255 :: ascii " def" ++ [10]].
Proof. split; vm_compute; reflexivity. Qed.
