(* ===== verification/Collect.v ===== *)
(** * What a collector accepts: the validation of internal/telemetry/grpc.go

    A collector checks every event of a segment before it stores it.  The events the
    analyzer sends are accepted exactly when redacting their text once more leaves it
    as it is, their kind is wanted and the context of a context event is valid
    ([collector_accepts]).

    Reading a line of JSON is a parameter. *)

From S2P Require Import Prelude GoStd GoText Utf8 Regexp Redact Config Framing Capture Turns Json Batches Questions Spool Forward.

Local Open Scope Z_scope.

Definition validEventKind (k : EventKind) : bool := match k with OtherKind _ => false | _ => true end.

Definition valid_id (s : list Z) : bool :=
  match s with
  | [] => false
  | c :: s => alnum c && (length s <=? 127)%nat && forallb (fun c => alnum c || (c =? 46) || (c =? 95) || (c =? 45)) s
  end.

Lemma ValidSourceID_chars s : ValidSourceID s = valid_id (chars s).
Proof. reflexivity. Qed.

(** [hex.DecodeString] works. *)
Definition hex_char (c : Z) : bool := in_range 48 57 c || in_range 97 102 c || in_range 65 70 c.
Definition hex_ok (s : list Z) : bool := Nat.even (length s) && forallb hex_char s.

Definition sha256HexLength : nat := 64.

Definition IsControl (r : Z) : bool := in_range 0 31 r || in_range 127 159 r.

Definition validMetadata (value : list Z) (maxBytes : Z) : bool :=
  (zlen value <=? maxBytes) && ValidString value && forallb (fun p => negb (IsControl p.1)) (runes value).

Definition validOptionalDigest (value : list Z) : bool :=
  match value with [] => true | _ => (length value =? sha256HexLength)%nat && hex_ok value end.

Definition validSessionContext (actorID : list Z) (c : SessionContext) : bool :=
  bool_decide (cx_ActorID c = actorID) && (bool_decide (cx_ActorID c = []) || valid_id (cx_ActorID c)) &&
  (bool_decide (cx_SourceLabel c = []) || valid_id (cx_SourceLabel c)) &&
  validMetadata (cx_OS c) 32 && validMetadata (cx_Arch c) 32 &&
  validOptionalDigest (cx_MachineID c) && validOptionalDigest (cx_WorkingDirectoryID c) && validOptionalDigest (cx_RepositoryID c) &&
  validMetadata (cx_Branch c) 255 &&
  match cx_CommitSHA c with
  | [] => true
  | sha => ((length sha =? 40)%nat || (length sha =? 64)%nat) && hex_ok sha
  end.

Definition validateOmittedContent (x : Observed) : bool :=
  if bool_decide (ev_OmittedReason (ob_event x) = ""%string) then bool_decide (ob_ContentHash x = [])
  else (bool_decide (ev_OmittedReason (ob_event x) = "invalid_utf8"%string) || bool_decide (ev_OmittedReason (ob_event x) = "buffer_limit"%string)) &&
       bool_decide (ob_Text x = []) && (length (ob_ContentHash x) =? sha256HexLength)%nat && hex_ok (ob_ContentHash x).

(** The bookkeeping of a checkpoint; counts are [uint64]. *)
Definition valid_checkpoint (e : Event) (text : list Z) : bool :=
  match ev_Completeness e with
  | None => false
  | Some c =>
      (ev_SchemaVersion e =? 2) && (ev_Sequence e =? 0) && negb (AttemptedEvents c <? QueueDroppedEvents c) &&
      negb (u64 (AttemptedEvents c - QueueDroppedEvents c) <? SinkFailedEvents c) && negb (AttemptedEvents c <? OmittedEvents c) &&
      bool_decide (text = []) &&
      forallb (fun k => validEventKind k && negb (bool_decide (k = EventTelemetryCheckpoint))) (CaptureKinds c)
  end.

(** An event as it was read, with its context. *)
Definition validateCollectorEvent (x : Observed) (cx : option SessionContext) : bool :=
  let e := ob_event x in
  let checkpoint := bool_decide (ev_Kind e = EventTelemetryCheckpoint) in
  ((ev_SchemaVersion e =? 1) || (ev_SchemaVersion e =? 2)) &&
  negb (ev_Timestamp e =? 0) &&
  negb (bool_decide (ev_SessionID e = ""%string)) &&
  negb ((ev_Sequence e =? 0) && negb checkpoint) &&
  negb ((ev_SchemaVersion e =? 2) && bool_decide (ev_SourceID e = ""%string)) &&
  (bool_decide (ev_SourceID e = ""%string) || ValidSourceID (ev_SourceID e)) &&
  (bool_decide (ev_ActorID e = ""%string) || ValidSourceID (ev_ActorID e)) &&
  (bool_decide (ob_Text x = []) || bool_decide (DefaultRedactor (ob_Text x) = ob_Text x)) &&
  negb (negb (bool_decide (ev_Kind e = EventSessionContext)) && bool_decide (is_Some cx)) &&
  negb (negb checkpoint && bool_decide (is_Some (ev_Completeness e))) &&
  match ev_Kind e with
  | EventTelemetryCheckpoint => valid_checkpoint e (ob_Text x)
  | EventSessionContext =>
      (ev_SchemaVersion e =? 2) && match cx with Some c => validSessionContext (chars (ev_ActorID e)) c | None => false end
  | EventProviderOutput =>
      bool_decide (ob_Direction x = Some DirectionAgent) && (1 <=? ob_ByteCount x) &&
      (bool_decide (ob_Stream x = Some StreamOutput) || bool_decide (ob_Stream x = Some StreamThinking)) && validateOmittedContent x
  | EventUserInput =>
      bool_decide (ob_Direction x = Some DirectionHuman) && bool_decide (ob_Stream x = Some StreamInput) && (1 <=? ob_ByteCount x) && validateOmittedContent x
  | _ => true
  end.

(** The checks on one event of a segment; [kinds]: those the collector is set up for, all
    when empty. *)
Definition accepts (kinds : list EventKind) (x : Observed) (cx : option SessionContext) : bool :=
  validEventKind (ob_kind x) && validateCollectorEvent x cx &&
  (bool_decide (ob_kind x = EventTelemetryCheckpoint) || bool_decide (kinds = []) || bool_decide (ob_kind x ∈ kinds)).

Section Segments.
Variable decode : list Z -> option (Observed * option SessionContext).
Variable kinds : list EventKind.

Definition valid_line (line : list Z) : bool :=
  negb (bool_decide (TrimSpace line = [])) &&
  match decode line with
  | None => false
  | Some (x, cx) => accepts kinds x cx
  end.

(** [validateJSONL].  The scanner takes lines up to the size of a segment, which
    [StreamSegments] checked before, so no line is too long for it. *)
Definition validateJSONL (data : list Z) : bool :=
  negb (bool_decide (TrimSpace data = [])) &&
  match reverse data with c :: _ => c =? 10 | [] => false end &&
  forallb valid_line (map drop_cr (scan_lines [] data)) &&
  negb (bool_decide (scan_lines [] data = [])).
End Segments.

(** ** What the analyzer sends is accepted *)

Section Contract.
Variable lower : Z -> list Z.
Variable sha256 : list Z -> list Z.
(** A digest has sixty-four hexadecimal digits. *)
Hypothesis sha256_digest : forall t, length (sha256 t) = 64%nat /\ forallb hex_char (sha256 t) = true.

(** A session as a daemon with an identity reports it, at a real time. *)
Definition good_session (s : Session) (now : Time) : bool :=
  negb (now =? 0) && negb (bool_decide (se_SessionID s = ""%string)) && ValidSourceID (se_SourceID s) &&
  (bool_decide (se_ActorID s = ""%string) || ValidSourceID (se_ActorID s)).

(** The fields of an event that depend on its kind. *)
Definition kind_ok (x : Observed) : bool :=
  match ob_kind x with
  | EventTelemetryCheckpoint | OtherKind _ => false
  | EventProviderOutput =>
      bool_decide (ob_Direction x = Some DirectionAgent) && (1 <=? ob_ByteCount x) &&
      (bool_decide (ob_Stream x = Some StreamOutput) || bool_decide (ob_Stream x = Some StreamThinking)) && validateOmittedContent x
  | EventUserInput =>
      bool_decide (ob_Direction x = Some DirectionHuman) && bool_decide (ob_Stream x = Some StreamInput) && (1 <=? ob_ByteCount x) && validateOmittedContent x
  | _ => true
  end.

(** The fields that come from the session and the clock. *)
Definition event_session (e : Event) : Session := MkSession 0 0 (ev_SourceID e) (ev_SessionID e) (ev_ActorID e) "" "" "".

(** Events that the live collector records by itself: drawn output, which may be joined
    from several records, and the context of a session, which discovery completes. *)
Definition own_event (x : Observed) : bool :=
  good_session (event_session (ob_event x)) (ob_time x) && bool_decide (ev_Completeness (ob_event x) = None) &&
  match ob_kind x with
  | EventProviderOutput =>
      bool_decide (ob_Direction x = Some DirectionAgent) && bool_decide (ob_Stream x = Some StreamOutput) && (1 <=? ob_ByteCount x) &&
      bool_decide (ev_OmittedReason (ob_event x) = ""%string) && bool_decide (ob_ContentHash x = [])
  | EventSessionContext => bool_decide (ob_Text x = [])
  | _ => false
  end.

(** Calls that are about such sessions; output has a stream of its own and the reason
    of an omission is one of the two. *)
Definition good_call (c : call) : bool :=
  match c with
  | CStart s now | CEnd s now | CUser s _ now | COutput s _ now | CInput s _ now | CContext s _ now => good_session s now
  | CProvider s stream _ now => good_session s now && (bool_decide (stream = StreamOutput) || bool_decide (stream = StreamThinking))
  | COmitted s d stream _ reason now =>
      good_session s now && (bool_decide (reason = "invalid_utf8"%string) || bool_decide (reason = "buffer_limit"%string)) &&
      ((bool_decide (d = DirectionAgent) && (bool_decide (stream = StreamOutput) || bool_decide (stream = StreamThinking))) ||
       (bool_decide (d = DirectionHuman) && bool_decide (stream = StreamInput)))
  | CRecord x => own_event x
  end.

(** An event, sent with a context exactly if it is a context event, that only its text
    and its context can make unacceptable. *)
Definition sound_event (x : Observed) : Prop :=
  validEventKind (ob_kind x) = true /\ ob_kind x <> EventTelemetryCheckpoint /\
  forall cx, (is_Some cx <-> ob_kind x = EventSessionContext) ->
    validateCollectorEvent x cx = (bool_decide (ob_Text x = []) || bool_decide (DefaultRedactor (ob_Text x) = ob_Text x)) &&
      match cx with Some c => validSessionContext (chars (ev_ActorID (ob_event x))) c | None => true end.

Lemma sound_of x : ev_SchemaVersion (ob_event x) = 2 -> ob_seq x <> 0 -> ev_Completeness (ob_event x) = None ->
  good_session (event_session (ob_event x)) (ob_time x) = true -> kind_ok x = true -> sound_event x.
Proof.
  intros H1 H2 H3 Hg Hk; unfold good_session, event_session in Hg; cbn [se_SessionID se_SourceID se_ActorID] in Hg.
  apply andb_prop in Hg as [Hg G4]; apply andb_prop in Hg as [Hg G3]; apply andb_prop in Hg as [G1 G2].
  assert (ev_SourceID (ob_event x) <> ""%string) as Hs by (intros E; rewrite E in G3; discriminate).
  split; [unfold kind_ok in Hk; destruct (ob_kind x); auto; discriminate|]; split; [intros E; unfold kind_ok in Hk; rewrite E in Hk; discriminate|]; intros cx Hcx.
  unfold validateCollectorEvent; fold (ob_kind x); change (ev_Timestamp (ob_event x)) with (ob_time x); change (ev_Sequence (ob_event x)) with (ob_seq x).
  rewrite H1, G1, G2, G3, G4, H3, (proj2 (Z.eqb_neq _ _) H2), (bool_decide_eq_false_2 _ Hs); cbn [Z.eqb Pos.eqb orb andb negb].
  rewrite (bool_decide_eq_false_2 (is_Some None)), !andb_false_r by (intros [? ?]; discriminate); cbn [negb andb]; rewrite !andb_true_r.
  assert (negb (bool_decide (ob_kind x = EventSessionContext)) && bool_decide (is_Some cx) = false) as -> by (repeat case_bool_decide; tauto || reflexivity).
  cbn [negb]; rewrite andb_true_r; f_equal; destruct cx as [c|].
  - rewrite (proj1 Hcx) by eauto; reflexivity.
  - unfold kind_ok in Hk; destruct (ob_kind x) eqn:E; try reflexivity; try discriminate; try exact Hk; destruct (proj2 Hcx eq_refl); discriminate.
Qed.

(** What the analyzer has sent, and how far it has counted. *)
Record sent_ok (a : Analyzer) : Prop := {
  so_count : forall key n, an_sequences a !! key = Some n -> 1 <= n <= zlen (an_sent a);
  so_sound : Forall sound_event (an_sent a);
}.

Lemma record_sent_ok a b x : sent_ok a -> an_sent b = an_sent a -> (forall key n, an_sequences b !! key = Some n -> an_sequences a !! key = Some n) ->
  zlen (an_sent a) < two64 - 1 -> ev_Completeness (ob_event x) = None -> good_session (event_session (ob_event x)) (ob_time x) = true -> kind_ok x = true ->
  sent_ok (record x b) /\ zlen (an_sent (record x b)) = zlen (an_sent a) + 1.
Proof.
  intros [Hc Hs] Es Eq Hlt H3 Hg Hk; set (n := default 0 (an_sequences b !! ob_key x)).
  assert (0 <= n <= zlen (an_sent a)) as Hn.
  { unfold n; destruct (an_sequences b !! ob_key x) as [m|] eqn:E; cbn; [apply Eq, Hc in E; lia|pose proof (zlen_nonneg (an_sent a)); lia]. }
  assert (u64 (n + 1) = n + 1) as Hu by (unfold u64; apply Z.mod_small; unfold two64 in *; lia).
  assert (an_sent (record x b) = an_sent a ++ [sent_as x b]) as Esent by (rewrite <- Es; reflexivity).
  assert (zlen (an_sent (record x b)) = zlen (an_sent a) + 1) as Hz by (rewrite Esent, zlen_app; reflexivity).
  split; [|exact Hz]; constructor.
  - rewrite Hz; intros key m; unfold record; cbn [an_sequences put_sequences send]; change (eventKey (ob_event x)) with (ob_key x); fold n; rewrite Hu.
    destruct (decide (ev_Kind _ = EventSessionEnded)).
    + intros Hm; apply lookup_delete_Some in Hm as [_ Hm]; apply Eq, Hc in Hm; lia.
    + destruct (decide (ob_key x = key)) as [->|Hne]; [rewrite lookup_insert_eq; intros [= <-]; lia|rewrite lookup_insert_ne by exact Hne; intros Hm; apply Eq, Hc in Hm; lia].
  - rewrite Esent; apply Forall_app_2; [exact Hs|]; constructor; [|constructor].
    apply sound_of; auto; unfold ob_seq, sent_as; cbn [ob_event ev_Sequence]; fold n; rewrite Hu; lia.
Qed.

Lemma omitted_ok s d kind stream data reason now a : sent_ok a -> zlen (an_sent a) < two64 - 1 -> good_session s now = true ->
  reason = "invalid_utf8"%string \/ reason = "buffer_limit"%string ->
  (kind = EventProviderOutput /\ d = DirectionAgent /\ (stream = StreamOutput \/ stream = StreamThinking)) \/ (kind = EventUserInput /\ d = DirectionHuman /\ stream = StreamInput) ->
  sent_ok (ObserveOmittedInteraction sha256 s d kind stream data reason now a) /\ zlen (an_sent (ObserveOmittedInteraction sha256 s d kind stream data reason now a)) <= zlen (an_sent a) + 1.
Proof.
  intros Ha Hlt Hg Hr Hk; unfold ObserveOmittedInteraction; destruct data as [|c0 data]; [split; [exact Ha|lia]|].
  match goal with |- sent_ok (record ?x a) /\ _ => set (y := x) end; destruct (sha256_digest (c0 :: data)) as [D1 D2].
  assert (validateOmittedContent y = true) as Ho.
  { unfold validateOmittedContent, y; cbn [ob_event omitted_event ev_OmittedReason ob_Text ob_ContentHash]; unfold hex_ok; rewrite D1, D2.
    destruct Hr as [-> | ->]; reflexivity. }
  assert (1 <=? ob_ByteCount y = true) as Hb by (apply Z.leb_le; unfold y, zlen; cbn; lia).
  destruct (record_sent_ok a a y) as [H1 H2]; auto; [|split; [exact H1|lia]].
  unfold kind_ok; rewrite Ho, Hb; destruct Hk as [(-> & -> & Hst)|(-> & -> & ->)]; [|reflexivity]; cbn; destruct Hst as [-> | ->]; reflexivity.
Qed.

Lemma interaction_ok s d kind stream data now a : sent_ok a -> zlen (an_sent a) < two64 - 1 -> good_session s now = true ->
  (kind = EventProviderOutput /\ d = DirectionAgent /\ (stream = StreamOutput \/ stream = StreamThinking)) \/ (kind = EventUserInput /\ d = DirectionHuman /\ stream = StreamInput) ->
  sent_ok (analyzer_observeInteraction sha256 s d kind stream data now a) /\ zlen (an_sent (analyzer_observeInteraction sha256 s d kind stream data now a)) <= zlen (an_sent a) + 1.
Proof.
  intros Ha Hlt Hg Hk; unfold analyzer_observeInteraction; destruct data as [|c0 data]; [split; [exact Ha|lia]|].
  destruct (negb _); [apply omitted_ok; auto|]; cbv zeta; match goal with |- sent_ok (record ?x a) /\ _ => set (y := x) end.
  assert (1 <=? ob_ByteCount y = true) as Hb by (apply Z.leb_le; unfold y, zlen; cbn; lia).
  destruct (record_sent_ok a a y) as [H1 H2]; auto; [|split; [exact H1|lia]].
  unfold kind_ok; rewrite Hb; destruct Hk as [(-> & -> & Hst)|(-> & -> & ->)]; [|reflexivity]; cbn; destruct Hst as [-> | ->]; reflexivity.
Qed.

Lemma call_ok c a : sent_ok a -> zlen (an_sent a) < two64 - 1 -> good_call c = true ->
  sent_ok (do_call lower sha256 c a) /\ zlen (an_sent (do_call lower sha256 c a)) <= zlen (an_sent a) + 1.
Proof.
  intros Ha Hlt Hc.
  assert (forall b x, an_sent b = an_sent a -> (forall key n, an_sequences b !! key = Some n -> an_sequences a !! key = Some n) -> ev_Completeness (ob_event x) = None ->
    good_session (event_session (ob_event x)) (ob_time x) = true -> kind_ok x = true -> sent_ok (record x b) /\ zlen (an_sent (record x b)) <= zlen (an_sent a) + 1) as Hrec.
  { intros b x E1 E2 E3 E4 E5; destruct (record_sent_ok a b x) as [H1 H2]; auto; split; [exact H1|lia]. }
  destruct c as [s now|s cx now|s now|s d stream data reason now|s stream data now|s data now|s data now|s data now|x]; cbn [do_call good_call] in *.
  - apply Hrec; auto; intros key n Hn; cbn in Hn; apply lookup_delete_Some in Hn as [_ Hn]; exact Hn.
  - apply Hrec; auto.
  - apply Hrec; auto.
  - apply andb_prop in Hc as [Hc H3]; apply andb_prop in Hc as [H1 H2]; apply omitted_ok; auto; [apply orb_prop in H2 as [H2|H2]; apply bool_decide_eq_true in H2; auto|].
    apply orb_prop in H3 as [H3|H3]; apply andb_prop in H3 as [H3 H4]; apply bool_decide_eq_true in H3; subst d; [left|right]; split_and!; auto; [|apply bool_decide_eq_true in H4; exact H4].
    apply orb_prop in H4 as [H4|H4]; apply bool_decide_eq_true in H4; auto.
  - apply andb_prop in Hc as [H1 H2]; apply (interaction_ok s DirectionAgent EventProviderOutput); auto; left; split_and!; auto; apply orb_prop in H2 as [H2|H2]; apply bool_decide_eq_true in H2; auto.
  - apply (interaction_ok s DirectionHuman EventUserInput); auto.
  - unfold ObserveOutput; destruct (_ || _); [split; [exact Ha|lia]|]; destruct (match _ with Some _ => _ | None => _ end); [split; [exact Ha|lia]|]; apply Hrec; auto.
  - unfold ObserveInput; destruct (normalize data); [split; [exact Ha|lia]|]; destruct (an_questions a !! sessionKey s); [|split; [exact Ha|lia]]; apply Hrec; auto.
  - unfold own_event in Hc; apply andb_prop in Hc as [Hc Hk]; apply andb_prop in Hc as [Hg Hc]; apply bool_decide_eq_true in Hc; apply Hrec; auto.
    unfold kind_ok; destruct (ob_kind x); try discriminate; [reflexivity|]; repeat (apply andb_prop in Hk as [Hk ?]); bool_to_prop.
    unfold validateOmittedContent; rewrite !bool_decide_eq_true_2 by assumption.
    rewrite (bool_decide_eq_true_2 (ev_OmittedReason (ob_event x) = ""%string)), (bool_decide_eq_true_2 (ob_ContentHash x = [])) by assumption.
    rewrite (proj2 (Z.leb_le _ _)) by assumption; reflexivity.
Qed.

(** C29. Let the analyzer of a daemon with a valid source identity (and actor, if
    any) observe fewer than 2^64-1 calls: starts and ends of sessions, input,
    output in the streams output and thinking, omissions with one of the two
    reasons, questions and answers, events of drawn output, and session contexts,
    none at time zero. Every event it sends meets all that the collector asks of
    an event (known kind, identity, sequence, direction, stream, sizes, digests)
    but three things: the collector accepts it exactly when redacting its text
    again changes nothing, its kind is among those the collector is set up for
    (any, if none are named), and, for a context event, the context that discovery
    put in is valid. That redaction and discovery can miss the first and the third
    is in the findings. Checkpoints of completeness are not part of it. *)
Theorem collector_accepts (redactor : option (list Z -> list Z)) (include : bool) (cs : list call)
    (Hgood : forallb good_call cs = true) (Hmany : zlen cs < two64 - 1) :
  Forall (fun x => forall kinds cx, (is_Some cx <-> ob_kind x = EventSessionContext) ->
      accepts kinds x cx = true <->
        DefaultRedactor (ob_Text x) = ob_Text x /\ (kinds = [] \/ ob_kind x ∈ kinds) /\
        forall c, cx = Some c -> validSessionContext (chars (ev_ActorID (ob_event x))) c = true)
    (an_sent (run_calls lower sha256 cs (NewAnalyzer redactor include))).
Proof.
  assert (forall cs a, forallb good_call cs = true -> sent_ok a -> zlen (an_sent a) + zlen cs < two64 - 1 -> sent_ok (run_calls lower sha256 cs a)) as Hrun.
  { clear -sha256_digest; unfold run_calls; induction cs as [|c cs IH]; intros a Hg Ha Hlt; [exact Ha|]; cbn in Hg; apply andb_prop in Hg as [Hc Hg]; cbn [fold_left].
    rewrite zlen_cons in Hlt; pose proof (zlen_nonneg cs); destruct (call_ok c a Ha) as [H1 H2]; [lia|exact Hc|]; apply IH; auto; lia. }
  destruct (Hrun cs (NewAnalyzer redactor include) Hgood) as [_ Hs]; [constructor; [intros key n; cbn; rewrite lookup_empty; discriminate|apply List.Forall_nil]|change (zlen (an_sent (NewAnalyzer redactor include))) with 0; lia|].
  eapply List.Forall_impl; [|exact Hs]; intros x (K1 & K2 & K3) kinds cx Hcx; unfold accepts; rewrite K1, (K3 cx Hcx), (bool_decide_eq_false_2 _ K2); cbn [orb andb].
  assert (bool_decide (ob_Text x = []) || bool_decide (DefaultRedactor (ob_Text x) = ob_Text x) = bool_decide (DefaultRedactor (ob_Text x) = ob_Text x)) as ->.
  { case_bool_decide as E; [|reflexivity]; rewrite E; symmetry; apply bool_decide_eq_true_2; reflexivity. }
  rewrite !andb_true_iff, orb_true_iff, !bool_decide_eq_true; split; [intros [[? Hv] ?]; split_and!; auto; intros c ->; exact Hv|].
  intros (? & ? & Hv); split_and!; auto; destruct cx; auto.
Qed.
End Contract.

(** ** A concrete run *)

Definition demo_digest (t : list Z) : list Z := replicate 64 48.

Definition demo_context : SessionContext := MkContext [] [] (ascii "linux") (ascii "amd64") [] [] [] (ascii "main") (replicate 40 48).

Definition demo_sent : list Observed :=
  an_sent (run_calls (fun _ => []) demo_digest (demo_calls ++ [CContext demo_session [] 9]) (NewAnalyzer None true)).

Definition context_of (x : Observed) : option SessionContext := if decide (ob_kind x = EventSessionContext) then Some demo_context else None.

Definition demo_kinds : list EventKind := [].

Lemma collector_accepts_witness :
  map (fun x => accepts demo_kinds x (context_of x)) demo_sent = replicate 7 true /\
  Forall (fun x => accepts demo_kinds x (context_of x) = true <->
    DefaultRedactor (ob_Text x) = ob_Text x /\ (demo_kinds = [] \/ ob_kind x ∈ demo_kinds) /\
    forall c, context_of x = Some c -> validSessionContext (chars (ev_ActorID (ob_event x))) c = true) demo_sent.
Proof.
  split; [vm_compute; reflexivity|]; eapply List.Forall_impl;
    [|apply (collector_accepts (fun _ => []) demo_digest); [intros t; split; reflexivity|vm_compute; reflexivity|vm_compute; reflexivity]].
  intros x Hx; apply Hx; unfold context_of; destruct (decide _) as [E|E]; [split; eauto|]; split; [intros [? ?]; discriminate|contradiction].
Defined.

(** Output that redaction does not settle: Alt and a cursor key, echoed before a letter.
    The event is refused, its segment with it, and by [Forward.refused_blocks] all that
    follow. *)
Example echoed_key_is_refused :
  map (fun x => (ob_Text x, validateCollectorEvent x None))
    (an_sent (run_calls (fun _ => []) demo_digest [CProvider demo_session StreamOutput [27; 27; 91; 65; 65; 10] 7] (NewAnalyzer None true))) = [([27; 65; 10], false)].
Proof. vm_compute; reflexivity. Qed.
