(* ===== verification/Latest.v ===== *)
(** * A channel that keeps the latest

    A buffered channel whose producer never blocks: a send that finds the channel full
    discards the oldest entry and tries once more.  The hook receiver (32 places,
    internal/claudehooks/hooks.go) and the Codex relay (64 places,
    internal/codexapp/proxy.go) offer their interactions this way.  The producer runs
    under a mutex of its own while the consumer goes on receiving, so between the three
    selects the consumer may take any number of entries. *)

From S2P Require Import Prelude.

Section latest.
Context {A : Type} (capacity : nat).
Implicit Types (u : list A * list A) (next : A).

(** The consumer receives [n] times (it blocks when the channel is empty); the second
    list is what it has taken. *)
Definition watch (n : nat) (u : list A * list A) : list A * list A := (drop n u.1, u.2 ++ take n u.1).

(** A send or a receive in a select with a default branch. *)
Definition try_send (next : A) (u : list A * list A) : (list A * list A) * bool :=
  if (length u.1 <? capacity)%nat then ((u.1 ++ [next], u.2), true) else (u, false).
Definition try_discard (u : list A * list A) : list A * list A := (drop 1 u.1, u.2).

(** The emission; [n1], [n2]: what the consumer takes between the selects. *)
Definition emit (n1 n2 : nat) (next : A) (u : list A * list A) : list A * list A :=
  match try_send next u with
  | (u, true) => u
  | (u, false) => fst (try_send next (watch n2 (try_discard (watch n1 u))))
  end.

(** What the consumer has and will get, of what was emitted ([out]). *)
Record delivered (taken updates out : list A) : Prop := {
  dl_bounded : (length updates <= capacity)%nat;
  dl_order : taken ++ updates `sublist_of` out;
  dl_latest : list.last (taken ++ updates) = list.last out;
  dl_all : (length out <= capacity)%nat -> taken ++ updates = out }.

Lemma delivered_nil : delivered [] [] [].
Proof. split; cbn; auto; lia. Qed.

Lemma watch_delivered n updates taken out : delivered taken updates out ->
  delivered (watch n (updates, taken)).2 (watch n (updates, taken)).1 out.
Proof.
  intros [H1 H2 H3 H4]; unfold watch; simpl.
  assert (E : (taken ++ take n updates) ++ drop n updates = taken ++ updates) by (rewrite <- app_assoc, take_drop; reflexivity).
  split; rewrite ?E; try assumption; rewrite length_drop; lia.
Qed.

Lemma try_send_room next u : (length u.1 < capacity)%nat -> try_send next u = ((u.1 ++ [next], u.2), true).
Proof. intros H; unfold try_send; rewrite (proj2 (Nat.ltb_lt _ _) H); reflexivity. Qed.

Hypothesis places : (0 < capacity)%nat.

Lemma emit_full n1 n2 next u : length u.1 = capacity ->
  emit n1 n2 next u = (drop n2 (drop 1 (watch n1 u).1) ++ [next], (watch n1 u).2 ++ take n2 (drop 1 (watch n1 u).1)).
Proof.
  intros H; unfold emit, try_send at 1; rewrite H, Nat.ltb_irrefl; rewrite try_send_room; [reflexivity|].
  cbn; rewrite !length_drop; lia.
Qed.

Lemma emit_delivered n1 n2 next updates taken out : delivered taken updates out ->
  delivered (emit n1 n2 next (updates, taken)).2 (emit n1 n2 next (updates, taken)).1 (out ++ [next]).
Proof.
  intros Hd; destruct (Nat.lt_ge_cases (length updates) capacity) as [Hl|Hl].
  - unfold emit; rewrite try_send_room by exact Hl; destruct Hd as [H1 H2 H3 H4]; cbn [fst snd].
    split; rewrite ?app_assoc, ?last_snoc; rewrite ?length_app; simpl; try lia; [apply sublist_app; auto|reflexivity|].
    intros Hn; rewrite H4 by lia; reflexivity.
  - pose proof (dl_bounded _ _ _ Hd) as Hb; rewrite emit_full by (cbn; lia); cbn [fst snd].
    pose proof (watch_delivered n1 _ _ _ Hd) as Hd1; destruct (watch n1 (updates, taken)) as [u1 t1]; cbn [fst snd] in *.
    pose proof (sublist_length _ _ (dl_order _ _ _ Hd)) as Hs; pose proof (dl_bounded _ _ _ Hd1); rewrite length_app in Hs.
    assert (E : (t1 ++ take n2 (drop 1 u1)) ++ drop n2 (drop 1 u1) ++ [next] = (t1 ++ drop 1 u1) ++ [next]).
    { rewrite <- !app_assoc; f_equal; rewrite app_assoc, take_drop; reflexivity. }
    split; rewrite ?E, ?last_snoc; rewrite ?length_app, ?length_drop; simpl; try lia; [|reflexivity].
    apply sublist_app; [|reflexivity]; etrans; [|exact (dl_order _ _ _ Hd1)].
    apply sublist_app; [reflexivity|apply sublist_drop].
Qed.
End latest.
