(* ===== verification/Hooks.v ===== *)
(** * Claude Code's lifecycle hooks: internal/claudehooks/hooks.go

    A short-lived helper ([Report]) strips a hook's input to its metadata and posts it
    to a loopback receiver; the receiver ([hook_request]) checks the request, folds the
    event into the state of the session ([apply]) and offers the interaction it gives
    to a channel of 32 places that the session's watcher empties.

    Go ranges over a map in no fixed order: [apply] takes the order as an argument
    ([iter], a permutation of the map's entries).  The identifiers uuid.NewString gives,
    the HMAC and the outcome of decoding a body are arguments as well.  A handler runs
    under the receiver's mutex while the watcher goes on receiving, so between the
    three selects of the handler the watcher may take any number of updates. *)

From S2P Require Import Prelude Types GoStd GoText Latest.

(** ** Data *)

Record HookEvent := MkHook {
  he_SessionID : string; he_Name : string; he_Tool : string; he_ToolID : string; he_ToolKey : string;
  he_AgentID : string; he_PromptID : string; he_Source : string; he_Notification : string;
  he_ElicitationID : string; he_Server : string }.

Definition hook_capabilities : InteractionCapabilities := MkCaps false false true true false.

Definition PendingKindCommand : string := "command".
Definition PendingKindFileChange : string := "file_change".
Definition PendingKindTool : string := "tool".
Definition PendingKindQuestion : string := "question".
Definition PendingKindOther : string := "other".

Definition pendingKindForTool (tool : string) : string :=
  if str_eqb tool "Bash" then PendingKindCommand
  else if str_eqb tool "Edit" || str_eqb tool "Write" || str_eqb tool "MultiEdit" || str_eqb tool "NotebookEdit" then PendingKindFileChange
  else if str_eqb tool "AskUserQuestion" then PendingKindQuestion
  else if str_eqb tool "" then PendingKindOther
  else PendingKindTool.

Record pending := MkOpen { p_request : PendingRequest; p_agent : string }.

Record hook_state := MkHooks {
  h_session : string; h_prompt : string; h_base : string;
  h_pending : gmap string pending; h_tools : gmap string string }.

Definition new_hook_state : hook_state := MkHooks "" "" "" ∅ ∅.

Definition with_base (b : string) (s : hook_state) : hook_state :=
  MkHooks (h_session s) (h_prompt s) b (h_pending s) (h_tools s).
Definition with_pending (m : gmap string pending) (s : hook_state) : hook_state :=
  MkHooks (h_session s) (h_prompt s) (h_base s) m (h_tools s).
Definition with_tools (m : gmap string string) (s : hook_state) : hook_state :=
  MkHooks (h_session s) (h_prompt s) (h_base s) (h_pending s) m.

(** ** The state machine *)

Definition main_start (e : HookEvent) : bool := str_eqb (he_Name e) "SessionStart" && str_eqb (he_AgentID e) "".

Definition hook_toolKey (e : HookEvent) : string := he_AgentID e +:+ "/" +:+ he_Tool e +:+ "/" +:+ he_ToolKey e.

(** The identity of a tool call: the hook's own, else the one its fingerprint was last
    seen with, else the name of the tool. *)
Definition tool_ident (tools : gmap string string) (e : HookEvent) : string :=
  let id := if str_eqb (he_ToolID e) "" then default "" (tools !! hook_toolKey e) else he_ToolID e in
  if str_eqb id "" then he_Tool e else id.

Definition pending_key (agent id : string) : string := agent +:+ "/tool/" +:+ id.
Definition elicitation_key (e : HookEvent) : string :=
  he_AgentID e +:+ "/elicitation/" +:+ he_Server e +:+ "/" +:+ he_ElicitationID e.

Definition add_pending (fresh agent key typ kind : string) (s : hook_state) : hook_state :=
  match h_pending s !! key with
  | Some old => if str_eqb (pr_Type (p_request old)) typ then s
                else with_pending (<[key := MkOpen (MkPending fresh typ "" kind) agent]> (h_pending s)) s
  | None => with_pending (<[key := MkOpen (MkPending fresh typ "" kind) agent]> (h_pending s)) s
  end.

Definition is_tool_end (name : string) : bool := str_eqb name "PostToolUse" || str_eqb name "PostToolUseFailure".
Definition is_stop (name : string) : bool := str_eqb name "Stop" || str_eqb name "StopFailure" || str_eqb name "SubagentStop".

(** The switch on the event's name; [None]: the early returns that report nothing (the
    state is as it was before the switch). *)
Definition hook_switch (fresh : string) (s : hook_state) (e : HookEvent) : option hook_state :=
  let agent := he_AgentID e in
  let key := pending_key agent (tool_ident (h_tools s) e) in
  let name := he_Name e in
  if str_eqb name "UserPromptSubmit" then
    if negb (str_eqb agent "") then None
    else Some (with_base InteractionWorking (with_tools ∅ (with_pending ∅ s)))
  else if str_eqb name "PreToolUse" then
    let s := with_base InteractionWorking s in
    Some (if str_eqb (he_Tool e) "AskUserQuestion" then add_pending fresh agent key PendingRequestInput PendingKindQuestion s else s)
  else if str_eqb name "PermissionRequest" then
    let typ := if str_eqb (he_Tool e) "AskUserQuestion" then PendingRequestInput else PendingRequestApproval in
    Some (add_pending fresh agent key typ (pendingKindForTool (he_Tool e)) s)
  else if is_tool_end name then
    Some (with_base InteractionWorking (with_tools (delete (hook_toolKey e) (h_tools s)) (with_pending (delete key (h_pending s)) s)))
  else if str_eqb name "Elicitation" then
    Some (add_pending fresh agent (elicitation_key e) PendingRequestInput PendingKindQuestion s)
  else if str_eqb name "ElicitationResult" then
    Some (with_base InteractionWorking (with_pending (delete (elicitation_key e) (h_pending s)) s))
  else if is_stop name then
    let s := with_pending (filter (fun kp => p_agent kp.2 <> agent) (h_pending s)) s in
    Some (if str_eqb agent "" then with_base (if str_eqb name "StopFailure" then InteractionUnknown else InteractionIdle) s else s)
  else if str_eqb name "SessionEnd" then
    if negb (str_eqb agent "") then None
    else Some (with_base InteractionUnknown (with_tools ∅ (with_pending ∅ s)))
  else if str_eqb name "Notification" then
    if negb (str_eqb (he_Notification e) "idle_prompt") || negb (str_eqb agent "") then None
    else Some (with_base InteractionIdle s)
  else None.

(** The guards before the switch: whose session, which prompt, and what is remembered
    of the tool call.  The flag: whether the switch is reached. *)
Definition hook_admit (s : hook_state) (e : HookEvent) : hook_state * bool :=
  let s := if str_eqb (h_session s) "" then MkHooks (he_SessionID e) (h_prompt s) (h_base s) (h_pending s) (h_tools s) else s in
  if negb (str_eqb (h_session s) (he_SessionID e)) then (s, false)
  else
    let s := if str_eqb (he_Name e) "UserPromptSubmit" && str_eqb (he_AgentID e) ""
             then MkHooks (h_session s) (he_PromptID e) (h_base s) (h_pending s) (h_tools s) else s in
    if negb (str_eqb (he_PromptID e) "") && negb (str_eqb (h_prompt s) "") && negb (str_eqb (he_PromptID e) (h_prompt s)) then (s, false)
    else (if str_eqb (he_ToolID e) "" then s else with_tools (<[hook_toolKey e := he_ToolID e]> (h_tools s)) s, true).

Definition apply_state (fresh : string) (s : hook_state) (e : HookEvent) : hook_state * bool :=
  if main_start e then
    (if negb (str_eqb (h_session s) (he_SessionID e)) || negb (str_eqb (he_Source e) "compact")
     then MkHooks (he_SessionID e) "" InteractionIdle ∅ ∅ else s, true)
  else match hook_admit s e with
       | (s, false) => (s, false)
       | (s, true) => match hook_switch fresh s e with Some s' => (s', true) | None => (s, false) end
       end.

(** The loop that chooses the request to report: approvals first, then the least key. *)
Definition is_approval (p : pending) : bool := str_eqb (pr_Type (p_request p)) PendingRequestApproval.

Definition takes_over (chosen : option (string * pending)) (kp : string * pending) : bool :=
  match chosen with
  | None => true
  | Some (selected, q) =>
      (is_approval kp.2 && negb (is_approval q)) ||
      (str_eqb (pr_Type (p_request kp.2)) (pr_Type (p_request q)) && String.ltb kp.1 selected)
  end.

Definition choose (order : list (string * pending)) : option (string * pending) :=
  foldl (fun chosen kp => if takes_over chosen kp then Some kp else chosen) None order.

Definition hook_report (order : list (string * pending)) (base : string) : Interaction :=
  let chosen := option_map (fun kp => p_request kp.2) (choose order) in
  let st := match chosen with
            | None => base
            | Some r => if str_eqb (pr_Type r) PendingRequestApproval then InteractionWaitingForApproval else InteractionWaitingForInput
            end in
  MkInteraction st 0 0 0 chosen (MkEvidence "claude-hooks" hook_capabilities).

Definition iteration := gmap string pending -> list (string * pending).

Definition apply (iter : iteration) (fresh : string) (s : hook_state) (e : HookEvent) : hook_state * option Interaction :=
  match apply_state fresh s e with
  | (s', true) => (s', Some (hook_report (iter (h_pending s')) (h_base s')))
  | (s', false) => (s', None)
  end.

(** ** The receiver *)

Definition updates_capacity : nat := 32.

(** A request: [rq_body] is [None] when the body does not decode within 16 KiB. *)
Record hook_req := MkReq { rq_method : string; rq_path : string; rq_authorization : string; rq_body : option HookEvent }.

Inductive hook_answer := NotFound | Unauthorized | BadRequest | NoContent.

(** The channel with what was taken from it, in order. *)
Record hook_server := MkServer { hs_state : hook_state; hs_updates : list Interaction; hs_taken : list Interaction }.

Definition new_hook_server : hook_server := MkServer new_hook_state [] [].

Definition hook_request (token : string) (iter : iteration) (fresh : string) (n1 n2 : nat) (r : hook_req) (hs : hook_server)
  : hook_server * hook_answer :=
  if negb (str_eqb (rq_method r) "POST") || negb (str_eqb (rq_path r) "/event") then (hs, NotFound)
  else if negb (str_eqb (rq_authorization r) ("Bearer " +:+ token)) then (hs, Unauthorized)
  else match rq_body r with
       | None => (hs, BadRequest)
       | Some e =>
           if str_eqb (he_SessionID e) "" || str_eqb (he_Name e) "" then (hs, BadRequest)
           else match apply iter fresh (hs_state hs) e with
                | (s, Some next) => let u := emit updates_capacity n1 n2 next (hs_updates hs, hs_taken hs) in (MkServer s u.1 u.2, NoContent)
                | (s, None) => (MkServer s (hs_updates hs) (hs_taken hs), NoContent)
                end
       end.

Inductive hook_step :=
| HRequest (iter : iteration) (fresh : string) (n1 n2 : nat) (r : hook_req)
| HWatch (n : nat).

Definition hook_do (token : string) (hs : hook_server) (st : hook_step) : hook_server :=
  match st with
  | HRequest iter fresh n1 n2 r => fst (hook_request token iter fresh n1 n2 r hs)
  | HWatch n => let u := watch n (hs_updates hs, hs_taken hs) in MkServer (hs_state hs) u.1 u.2
  end.

Definition hook_run (token : string) (steps : list hook_step) : hook_server := foldl (hook_do token) new_hook_server steps.

(** ** The helper *)

(** What [url.Parse] finds in the configured address. *)
Record hook_url := MkHookURL { u_scheme : string; u_hostname : string; u_port : string; u_path : string; u_user : bool }.

(** The configuration file: unreadable, not JSON, or an address (with its parse) and a token. *)
Inductive hook_config := NoConfig | BadConfig | ClientConfig (url : option hook_url) (token : string).

(** The hook's input: over 8 MiB or unreadable, not JSON, or an event with its [tool_input]
    (absent, or its value marshalled again with sorted keys). *)
Inductive hook_input := InputTooLong | InputNotJSON | HookInput (e : HookEvent) (tool_input : option string).

Definition loopback_url (u : hook_url) : bool :=
  str_eqb (u_scheme u) "http" && str_eqb (u_hostname u) "127.0.0.1" && negb (str_eqb (u_port u) "") && str_eqb (u_path u) "/event" && negb (u_user u).

Definition set_ToolKey (k : string) (e : HookEvent) : HookEvent :=
  MkHook (he_SessionID e) (he_Name e) (he_Tool e) (he_ToolID e) k (he_AgentID e) (he_PromptID e) (he_Source e) (he_Notification e)
         (he_ElicitationID e) (he_Server e).

Section report.
(** HMAC-SHA256 of a message under a key, in hexadecimal. *)
Context (hmac : string -> string -> string).

(** [Report] up to the request it posts: an error, or the request. *)
Definition report_request (cfg : hook_config) (input : hook_input) : string + hook_req :=
  match cfg with
  | NoConfig => inl "read hook configuration"
  | BadConfig => inl "invalid hook configuration"
  | ClientConfig url token =>
      match url with
      | Some u =>
          if negb (loopback_url u) || str_eqb token "" then inl "hook destination must be an authenticated loopback receiver"
          else match input with
               | InputTooLong => inl "hook input exceeds limit or could not be read"
               | InputNotJSON => inl "invalid hook input"
               | HookInput e tool_input =>
                   let key := match tool_input with Some canonical => hmac token canonical | None => "" end in
                   inr (MkReq "POST" (u_path u) ("Bearer " +:+ token) (Some (set_ToolKey key e)))
               end
      | None => inl "hook destination must be an authenticated loopback receiver"
      end
  end.

(** [Report]; [status]: the answer's status, [None] when the receiver cannot be reached. *)
Definition Report (cfg : hook_config) (input : hook_input) (status : hook_req -> option Z) : option string :=
  match report_request cfg input with
  | inl err => Some err
  | inr r => match status r with
             | None => Some "local session observer unavailable"
             | Some code => if code =? 204 then None else Some "local session observer returned HTTP"
             end
  end.
End report.

Definition answer_status (a : hook_answer) : Z :=
  match a with NotFound => 404 | Unauthorized => 401 | BadRequest => 400 | NoContent => 204 end.

(** ** The choice does not depend on the order of iteration *)

Definition two_types (p : pending) : Prop :=
  pr_Type (p_request p) = PendingRequestApproval \/ pr_Type (p_request p) = PendingRequestInput.

(** What comes before what. *)
Definition precedes (a b : string * pending) : Prop :=
  (is_approval a.2 = true /\ is_approval b.2 = false) \/ (is_approval a.2 = is_approval b.2 /\ key_le a.1 b.1).

Lemma precedes_refl a : precedes a a.
Proof. right; split; [reflexivity|apply key_le_refl]. Qed.

Lemma precedes_trans a b c : precedes a b -> precedes b c -> precedes a c.
Proof.
  intros [[? ?]|[? ?]] [[? ?]|[? ?]]; unfold precedes; try (left; split; congruence).
  right; split; [congruence|eapply key_le_trans; eassumption].
Qed.

Lemma precedes_antisym a b : precedes a b -> precedes b a -> a.1 = b.1.
Proof. intros [[? ?]|[? ?]] [[? ?]|[? ?]]; try congruence. apply key_le_antisym; assumption. Qed.

Lemma same_type p q : two_types p -> two_types q ->
  str_eqb (pr_Type (p_request p)) (pr_Type (p_request q)) = eqb (is_approval p) (is_approval q).
Proof. unfold is_approval; intros [-> | ->] [-> | ->]; reflexivity. Qed.

Lemma takes_over_spec sel kp : two_types sel.2 -> two_types kp.2 ->
  if takes_over (Some sel) kp then precedes kp sel else precedes sel kp.
Proof.
  intros Hs Hk; destruct sel as [k q], kp as [k' p]; unfold takes_over, precedes; simpl in *.
  rewrite same_type by assumption.
  destruct (is_approval p), (is_approval q), (String.ltb k' k) eqn:E; simpl; auto using ltb_le, ltb_not_le.
Qed.

Definition chosen_of (l : list (string * pending)) (r : option (string * pending)) : Prop :=
  match r with None => l = [] | Some kp => kp ∈ l /\ forall kq, kq ∈ l -> precedes kp kq end.

Lemma choose_spec l : Forall (fun kp => two_types kp.2) l -> chosen_of l (choose l).
Proof.
  induction l as [|kp l IH] using rev_ind; [reflexivity|]; rewrite Forall_app, Forall_singleton; intros [Hl Hk].
  specialize (IH Hl); unfold choose in *; rewrite foldl_app; cbn [foldl].
  destruct (foldl _ None l) as [sel|] eqn:E.
  - destruct IH as [Hin Hle]; rewrite list.Forall_forall in Hl; pose proof (takes_over_spec sel kp (Hl _ Hin) Hk) as Ht.
    destruct (takes_over _ kp); (split; [set_solver|]); intros kq [Hq|Hq%list_elem_of_singleton]%elem_of_app; subst;
      eauto using precedes_trans, precedes_refl.
  - cbn in IH; subst l; cbn; split; [set_solver|]; intros kq Hq%list_elem_of_singleton; subst; apply precedes_refl.
Qed.

Lemma chosen_unique l l' r r' : NoDup l.*1 -> l ≡ₚ l' -> chosen_of l r -> chosen_of l' r' -> r = r'.
Proof.
  intros Hnd Hp Hr Hr'; destruct r as [[k p]|], r' as [[k' p']|]; cbn in *; subst.
  - destruct Hr as [Hin Hle], Hr' as [Hin' Hle']; rewrite <- Hp in Hin'.
    assert (k = k') by (apply (precedes_antisym (k, p) (k', p')); [apply Hle; exact Hin'|apply Hle'; rewrite <- Hp; exact Hin]).
    subst k'.
    apply list_elem_of_lookup in Hin as [i Hi], Hin' as [j Hj].
    assert (i = j) by (eapply (NoDup_lookup l.*1); [exact Hnd|rewrite list_lookup_fmap, Hi; reflexivity|rewrite list_lookup_fmap, Hj; reflexivity]).
    congruence.
  - destruct Hr as [Hin _]; rewrite Hp in Hin; set_solver.
  - destruct Hr' as [Hin _]; rewrite <- Hp in Hin; set_solver.
  - reflexivity.
Qed.

(** ** The invariant of the state *)

Definition hook_wf (s : hook_state) : Prop := map_Forall (fun _ p => two_types p) (h_pending s).

Lemma add_wf fresh agent key typ kind s : hook_wf s -> typ = PendingRequestApproval \/ typ = PendingRequestInput ->
  hook_wf (add_pending fresh agent key typ kind s).
Proof.
  unfold add_pending, hook_wf; intros Hs Ht.
  destruct (h_pending s !! key) as [old|]; [destruct (str_eqb _ _); [exact Hs|]|]; apply map_Forall_insert_2; assumption.
Qed.

Lemma filter_wf (P Q : string * pending -> Prop) `{!forall x, Decision (Q x)} (m : gmap string pending) :
  map_Forall (fun k p => P (k, p)) m -> map_Forall (fun k p => P (k, p)) (filter Q m).
Proof. intros Hm k p [Hk _]%map_lookup_filter_Some; exact (Hm k p Hk). Qed.

Ltac hook_cases H :=
  repeat match type of H with
         | context [if ?b then _ else _] => let E := fresh "E" in destruct b eqn:E
         end; simplify_eq.

Lemma switch_wf fresh s e s' : hook_wf s -> hook_switch fresh s e = Some s' -> hook_wf s'.
Proof.
  intros Hs H; unfold hook_switch in H; hook_cases H;
    try (apply add_wf; [exact Hs|repeat case_match; auto]; fail);
    unfold hook_wf; cbn [h_pending with_base with_tools with_pending];
    first [exact Hs | apply map_Forall_empty | apply map_Forall_delete; exact Hs | apply (filter_wf (fun kp => two_types kp.2)); exact Hs].
Qed.

Lemma admit_pending s e : h_pending (fst (hook_admit s e)) = h_pending s /\ h_base (fst (hook_admit s e)) = h_base s.
Proof. unfold hook_admit; repeat case_match; auto. Qed.

Lemma apply_state_wf fresh s e : hook_wf s -> hook_wf (fst (apply_state fresh s e)).
Proof.
  intros Hs; unfold apply_state; destruct (main_start e).
  - simpl; case_match; [apply map_Forall_empty|exact Hs].
  - pose proof (admit_pending s e) as [Ha _]; destruct (hook_admit s e) as [s1 [|]]; cbn [fst] in *.
    + assert (hook_wf s1) by (unfold hook_wf; rewrite Ha; exact Hs).
      destruct (hook_switch fresh s1 e) as [s2|] eqn:E; [eapply switch_wf; eassumption|assumption].
    + unfold hook_wf; simpl; rewrite Ha; exact Hs.
Qed.

(** ** Orders of iteration *)

Definition lawful (iter : iteration) : Prop := forall m, iter m ≡ₚ map_to_list m.

Lemma map_entries_two m : map_Forall (fun _ p => two_types p) m -> Forall (fun kp : string * pending => two_types kp.2) (map_to_list m).
Proof. intros H; apply list.Forall_forall; intros [k p] Hin%elem_of_map_to_list; exact (H k p Hin). Qed.

Lemma choose_map iter m : lawful iter -> map_Forall (fun _ p => two_types p) m -> chosen_of (map_to_list m) (choose (iter m)).
Proof.
  intros Hi Hm; pose proof (choose_spec (iter m)) as Hc.
  rewrite (Hi m) in Hc at 1; specialize (Hc (map_entries_two m Hm)).
  destruct (choose (iter m)) as [kp|]; cbn in *; [setoid_rewrite (Hi m) in Hc; exact Hc|].
  apply Permutation_nil; rewrite <- (Hi m), Hc; reflexivity.
Qed.

Lemma choose_lawful iter m : lawful iter -> map_Forall (fun _ p => two_types p) m -> choose (iter m) = choose (map_to_list m).
Proof.
  intros Hi Hm; eapply (chosen_unique (map_to_list m) (map_to_list m)); [apply NoDup_fst_map_to_list|reflexivity| |].
  - apply choose_map; assumption.
  - apply choose_spec, map_entries_two, Hm.
Qed.

Lemma apply_lawful iter fresh s e : lawful iter -> hook_wf s -> apply iter fresh s e = apply map_to_list fresh s e.
Proof.
  intros Hi Hs; pose proof (apply_state_wf fresh s e Hs) as Hw; unfold apply.
  destruct (apply_state fresh s e) as [s' [|]]; [|reflexivity]; cbn [fst] in Hw.
  unfold hook_report; rewrite (choose_lawful iter); [reflexivity|assumption..].
Qed.

(** ** The receiver against the plain machine *)

(** What a request contributes: the event of an authenticated, well-formed request. *)
Definition accepted (token : string) (st : hook_step) : option (string * HookEvent) :=
  match st with
  | HRequest _ fresh _ _ r =>
      match rq_body r with
      | Some e => if str_eqb (rq_method r) "POST" && str_eqb (rq_path r) "/event" &&
                     str_eqb (rq_authorization r) ("Bearer " +:+ token) &&
                     negb (str_eqb (he_SessionID e) "") && negb (str_eqb (he_Name e) "")
                  then Some (fresh, e) else None
      | None => None
      end
  | HWatch _ => None
  end.

(** The machine alone: no channel, the map in one fixed order. *)
Definition plain_step (so : hook_state * list Interaction) (fe : string * HookEvent) : hook_state * list Interaction :=
  match apply map_to_list fe.1 so.1 fe.2 with
  | (s, Some i) => (s, so.2 ++ [i])
  | (s, None) => (s, so.2)
  end.

Definition plain_run (evs : list (string * HookEvent)) : hook_state * list Interaction := foldl plain_step (new_hook_state, []) evs.

Definition lawful_step (st : hook_step) : Prop := match st with HRequest iter _ _ _ _ => lawful iter | HWatch _ => True end.

Definition receiver_ok (hs : hook_server) (so : hook_state * list Interaction) : Prop :=
  hs_state hs = so.1 /\ hook_wf so.1 /\ delivered updates_capacity (hs_taken hs) (hs_updates hs) so.2.

Lemma apply_wf iter fresh s e : hook_wf s -> hook_wf (fst (apply iter fresh s e)).
Proof. intros Hs; pose proof (apply_state_wf fresh s e Hs); unfold apply; destruct (apply_state fresh s e) as [? [|]]; assumption. Qed.

Lemma receiver_step token st hs so : lawful_step st -> receiver_ok hs so ->
  receiver_ok (hook_do token hs st) (match accepted token st with Some fe => plain_step so fe | None => so end).
Proof.
  intros Hst (Hs & Hw & Hd); destruct st as [iter fresh n1 n2 r|n]; cbn [hook_do accepted];
    [|split; [exact Hs|split; [exact Hw|apply watch_delivered, Hd]]].
  unfold hook_request; destruct (str_eqb (rq_method r) _), (str_eqb (rq_path r) _), (str_eqb (rq_authorization r) _); cbn;
    destruct (rq_body r) as [e|]; cbn; try (split_and!; assumption).
  destruct (str_eqb (he_SessionID e) ""), (str_eqb (he_Name e) ""); cbn; try (split_and!; assumption).
  rewrite (apply_lawful iter) by (rewrite ?Hs; assumption); rewrite Hs.
  pose proof (apply_wf map_to_list fresh so.1 e Hw) as Hw'; unfold plain_step; cbn [fst snd].
  destruct (apply map_to_list fresh so.1 e) as [s' [i|]]; split_and!; cbn [fst snd hs_state hs_taken hs_updates] in *; auto.
  apply emit_delivered, Hd; unfold updates_capacity; lia.
Qed.

(** C33. The receiver refines the plain machine: for any sequence of requests and receives, with
    any order of ranging over the map and any number of receives between the selects of a
    handler, the state is that of the plain machine on the events of the authenticated,
    well-formed requests alone; what the watcher took and finds in the channel is, in order,
    a part of what the machine emitted that ends with the latest; the channel stays within
    its capacity, and nothing is lost while no more was emitted than it holds. *)
Theorem hook_receiver_refines (token : string) (steps : list hook_step) :
  Forall lawful_step steps ->
  let hs := hook_run token steps in
  let '(s, out) := plain_run (omap (accepted token) steps) in
  hs_state hs = s /\ delivered updates_capacity (hs_taken hs) (hs_updates hs) out.
Proof.
  intros Hl; cbn; destruct (plain_run _) as [s out] eqn:E.
  assert (H : receiver_ok (hook_run token steps) (s, out)); [|destruct H as (? & _ & ?); auto].
  revert s out E; induction steps as [|st steps IH] using rev_ind; intros s out E.
  - cbn in E; simplify_eq; split_and!; [reflexivity|apply map_Forall_empty|]; split; cbn; auto; lia.
  - apply Forall_app in Hl as [Hl Hst]; apply Forall_cons_1 in Hst as [Hst _].
    unfold hook_run; rewrite foldl_app; cbn [foldl]; rewrite omap_app in E; unfold plain_run in *; rewrite foldl_app in E.
    destruct (foldl plain_step _ (omap _ steps)) as [s0 out0] eqn:E0.
    replace (s, out) with (match accepted token st with Some fe => plain_step (s0, out0) fe | None => (s0, out0) end)
      by (cbn in E; destruct (accepted token st); exact E).
    apply receiver_step; [exact Hst|apply IH; auto].
Qed.

(** ** What a report says *)

Lemma choice_says m r : map_Forall (fun _ p => two_types p) m -> chosen_of (map_to_list m) r ->
  match r with
  | None => m = ∅
  | Some (k, p) => m !! k = Some p /\ forall k' p', m !! k' = Some p' -> precedes (k, p) (k', p')
  end.
Proof.
  intros Hm; destruct r as [[k p]|]; cbn; [|apply map_to_list_empty_iff].
  intros [Hin Hle]; split; [apply elem_of_map_to_list; exact Hin|]; intros k' p' Hk; apply Hle, elem_of_map_to_list, Hk.
Qed.

Definition open_types (m : gmap string pending) (typ : string) : Prop := exists k p, m !! k = Some p /\ pr_Type (p_request p) = typ.

(** What is reported of a state: the base when nothing is open; otherwise waiting, with the
    least open request of the more urgent type. *)
Record reports (s : hook_state) (i : Interaction) : Prop := {
  rp_nothing : h_pending s = ∅ -> int_State i = h_base s /\ int_Pending i = None;
  rp_approval : open_types (h_pending s) PendingRequestApproval -> int_State i = InteractionWaitingForApproval;
  rp_input : ~ open_types (h_pending s) PendingRequestApproval -> open_types (h_pending s) PendingRequestInput ->
    int_State i = InteractionWaitingForInput;
  rp_request r : int_Pending i = Some r -> exists k p, h_pending s !! k = Some p /\ p_request p = r /\
    forall k' p', h_pending s !! k' = Some p' -> precedes (k, p) (k', p') }.

Lemma report_says iter s : lawful iter -> hook_wf s -> reports s (hook_report (iter (h_pending s)) (h_base s)).
Proof.
  intros Hi Hw; pose proof (choice_says _ _ Hw (choose_map iter _ Hi Hw)) as Hc.
  unfold hook_report; destruct (choose (iter (h_pending s))) as [[k p]|] eqn:E; cbn [option_map snd].
  - destruct Hc as [Hk Hle]; split; cbn.
    + intros He; rewrite He, lookup_empty in Hk; discriminate.
    + intros (k' & p' & Hk' & Ht); destruct (Hle _ _ Hk') as [[Ha _]|[Ha _]]; cbn in Ha; unfold is_approval in Ha.
      * rewrite Ha; reflexivity.
      * rewrite Ht, str_eqb_refl in Ha; rewrite Ha; reflexivity.
    + intros Hno _; destruct (str_eqb _ _) eqn:Es; [|reflexivity]; exfalso; apply Hno.
      exists k, p; split; [exact Hk|apply str_eqb_eq; exact Es].
    + intros r Hr; simplify_eq; eauto.
  - split; cbn; [auto| | |discriminate]; intros; destruct_and?; unfold open_types in *; rewrite Hc in *;
      match goal with H : exists _ _, _ |- _ => destruct H as (? & ? & Hx & _) end; rewrite lookup_empty in Hx; discriminate.
Qed.

(** In every state reached, the report of an event does not depend on the order of ranging
    over the map: it is waiting for approval exactly when an approval is open, else for input
    when a question is, else what the last event said; and the request named is the one of
    the least key among the more urgent. *)
Theorem hook_reports_open (evs : list (string * HookEvent)) (iter : iteration) (fresh : string) (e : HookEvent) :
  lawful iter ->
  let s := (plain_run evs).1 in
  forall s' i, apply iter fresh s e = (s', Some i) -> reports s' i /\ forall iter', lawful iter' -> apply iter' fresh s e = (s', Some i).
Proof.
  intros Hi s s' i Ha.
  assert (Hw : hook_wf s).
  { subst s; unfold plain_run; clear Ha; induction evs as [|[f x] evs IH] using rev_ind; [apply map_Forall_empty|].
    rewrite foldl_app; cbn; unfold plain_step at 1; pose proof (apply_wf map_to_list f _ x IH) as H; cbn [fst snd] in *.
    destruct (apply map_to_list f _ x) as [? [?|]]; exact H. }
  split.
  - pose proof (apply_state_wf fresh s e Hw) as Hw'; unfold apply in Ha.
    destruct (apply_state fresh s e) as [s1 [|]]; simplify_eq; apply report_says; assumption.
  - intros iter' Hi'; rewrite (apply_lawful iter') by assumption; rewrite (apply_lawful iter) in Ha by assumption; exact Ha.
Qed.

(** ** The life of a permission request *)

Abbreviation slash := (Ascii.Ascii true true true true false true false false) (only parsing).

Fixpoint no_slash (s : string) : bool :=
  match s with
  | EmptyString => true
  | String c s => negb (bool_decide (c = slash)) && no_slash s
  end.

Lemma slash_split a : forall a' x x', no_slash a = true -> no_slash a' = true ->
  a +:+ String slash x = a' +:+ String slash x' -> a = a' /\ x = x'.
Proof.
  induction a as [|c a IH]; intros [|c' a'] x x'; cbn; rewrite ?andb_true_iff, ?negb_true_iff, ?bool_decide_eq_false; intros H1 H2 H3;
    [|injection H3 as Hc _; destruct H2 as [H2 _]; congruence|injection H3 as Hc _; destruct H1 as [H1 _]; congruence|].
  - injection H3 as Hx; auto.
  - injection H3 as Hc Hx; destruct H1 as [_ H1], H2 as [_ H2]; destruct (IH a' x x' H1 H2 Hx); subst; auto.
Qed.

Lemma pending_key_inj a i a' i' : no_slash a = true -> no_slash a' = true -> pending_key a i = pending_key a' i' -> a = a' /\ i = i'.
Proof.
  unfold pending_key; intros Ha Ha' H; apply slash_split in H as [-> H]; [|assumption..].
  split; [reflexivity|]; injection H as H; exact H.
Qed.

Lemma elicitation_key_other e a i : no_slash a = true -> no_slash (he_AgentID e) = true -> elicitation_key e <> pending_key a i.
Proof. unfold elicitation_key, pending_key; intros Ha He H; apply slash_split in H as [_ H]; [discriminate|assumption..]. Qed.

(** An event that has nothing to do with the call [id] of [agent], whose fingerprint is
    [tk]: it neither starts a session or a prompt nor ends the session or the agent's
    work, and it is of another call. *)
Definition other_call (agent tk id : string) (e : HookEvent) : bool :=
  negb (main_start e) && negb (str_eqb (he_AgentID e) "" && (str_eqb (he_Name e) "UserPromptSubmit" || str_eqb (he_Name e) "SessionEnd")) &&
  negb (is_stop (he_Name e) && str_eqb (he_AgentID e) agent) && no_slash (he_AgentID e) &&
  negb (str_eqb (hook_toolKey e) tk) && negb (str_eqb (he_ToolID e) id) && negb (str_eqb (he_Tool e) id).

(** The state while the call is known: its fingerprint stands for it and for nothing else. *)
Record knows (tk id session prompt : string) (s : hook_state) : Prop := {
  kn_session : h_session s = session; kn_prompt : h_prompt s = prompt;
  kn_tool : h_tools s !! tk = Some id; kn_only k : h_tools s !! k = Some id -> k = tk }.

Lemma knows_tools tk id session prompt s m : knows tk id session prompt s -> m !! tk = Some id ->
  (forall k, m !! k = Some id -> k = tk) -> knows tk id session prompt (with_tools m s).
Proof. intros [? ? ? ?] H1 H2; split; assumption. Qed.

Lemma knows_pending tk id session prompt s m : knows tk id session prompt s -> knows tk id session prompt (with_pending m s).
Proof. intros [? ? ? ?]; split; assumption. Qed.

Lemma knows_base tk id session prompt s b : knows tk id session prompt s -> knows tk id session prompt (with_base b s).
Proof. intros [? ? ? ?]; split; assumption. Qed.

Lemma knows_add tk id session prompt f a k t kd s : knows tk id session prompt s -> knows tk id session prompt (add_pending f a k t kd s).
Proof. intros H; unfold add_pending; repeat case_match; auto using knows_pending. Qed.

Lemma add_other f a k t kd s k' : k <> k' -> h_pending (add_pending f a k t kd s) !! k' = h_pending s !! k'.
Proof. intros H; unfold add_pending; repeat case_match; cbn; rewrite ?lookup_insert_ne by exact H; reflexivity. Qed.

Lemma knows_delete tk id session prompt s k : knows tk id session prompt s -> k <> tk -> knows tk id session prompt (with_tools (delete k (h_tools s)) s).
Proof.
  intros H Hk; apply knows_tools; [exact H|rewrite lookup_delete_ne by exact Hk; apply H|].
  intros k' [_ Hk']%lookup_delete_Some; exact (kn_only _ _ _ _ _ H k' Hk').
Qed.

Lemma stop_other a k (m : gmap string pending) : (forall p, m !! k = Some p -> p_agent p <> a) ->
  filter (fun kp => p_agent kp.2 <> a) m !! k = m !! k.
Proof.
  intros H; destruct (m !! k) as [p|] eqn:E.
  - apply map_lookup_filter_Some; split; [exact E|exact (H p eq_refl)].
  - apply map_lookup_filter_None; left; exact E.
Qed.

#[local] Hint Resolve knows_pending knows_base knows_add : hooks.

Lemma admit_known tk id session prompt s e : knows tk id session prompt s -> session <> "" -> main_start e = false ->
  str_eqb (he_Name e) "UserPromptSubmit" && str_eqb (he_AgentID e) "" = false ->
  hook_admit s e =
    (if negb (str_eqb session (he_SessionID e)) || (negb (str_eqb (he_PromptID e) "") && negb (str_eqb prompt "") && negb (str_eqb (he_PromptID e) prompt))
     then (s, false)
     else (if str_eqb (he_ToolID e) "" then s else with_tools (<[hook_toolKey e := he_ToolID e]> (h_tools s)) s, true)).
Proof.
  intros [Hs Hp _ _] Hne _ Hu; unfold hook_admit; rewrite Hs, (proj2 (str_eqb_neq session "") Hne), Hs, Hu, Hp.
  destruct (str_eqb session (he_SessionID e)); reflexivity.
Qed.

Lemma other_admit agent tk id session prompt s e : knows tk id session prompt s -> session <> "" -> id <> "" ->
  other_call agent tk id e = true -> knows tk id session prompt (fst (hook_admit s e)) /\
  h_pending (fst (hook_admit s e)) = h_pending s /\ tool_ident (h_tools (fst (hook_admit s e))) e <> id.
Proof.
  intros Hk Hne Hid Ho; unfold other_call in Ho; rewrite !andb_true_iff, !negb_true_iff in Ho.
  destruct Ho as ((((((Hm & Hu) & _) & _) & Htk) & Hti) & Htool); apply str_eqb_neq in Htk, Hti, Htool.
  rewrite (admit_known _ _ _ _ _ _ Hk Hne Hm) by (destruct (str_eqb (he_Name e) "UserPromptSubmit"), (str_eqb (he_AgentID e) ""); done).
  assert (Hold : default "" (h_tools s !! hook_toolKey e) <> id).
  { intros H; destruct (h_tools s !! hook_toolKey e) eqn:E; cbn in H; [subst|congruence]; apply Htk, (kn_only _ _ _ _ _ Hk), E. }
  case_match; cbn [fst]; [|case_match eqn:Et; cbn [fst]]; (split; [|split; [reflexivity|]]); try exact Hk; unfold tool_ident; cbn [with_tools h_tools];
    try (repeat case_match; congruence).
  - apply knows_tools; [exact Hk|rewrite lookup_insert_ne by exact Htk; apply Hk|].
    intros k; rewrite lookup_insert_Some; intros [[_ Hx]|[_ Hx]]; [congruence|apply (kn_only _ _ _ _ _ Hk), Hx].
Qed.

Lemma other_step agent tk id session prompt f s e : knows tk id session prompt s -> session <> "" -> id <> "" -> no_slash agent = true ->
  (forall p, h_pending s !! pending_key agent id = Some p -> p_agent p = agent) -> other_call agent tk id e = true ->
  knows tk id session prompt (fst (apply_state f s e)) /\
  h_pending (fst (apply_state f s e)) !! pending_key agent id = h_pending s !! pending_key agent id.
Proof.
  intros Hk Hne Hid Hns Hag Ho; destruct (other_admit _ _ _ _ _ _ _ Hk Hne Hid Ho) as (Hk1 & Hp1 & Hi1).
  unfold other_call in Ho; rewrite !andb_true_iff, !negb_true_iff in Ho.
  destruct Ho as ((((((Hm & Hu) & Hst) & Hns') & Htk) & Hti) & _); apply str_eqb_neq in Htk, Hti.
  unfold apply_state; rewrite Hm; destruct (hook_admit s e) as [s1 [|]]; cbn [fst] in *; [|rewrite Hp1; auto].
  assert (Hpk : pending_key (he_AgentID e) (tool_ident (h_tools s1) e) <> pending_key agent id).
  { intros H; apply pending_key_inj in H as [_ H]; auto. }
  pose proof (elicitation_key_other e agent id Hns Hns') as Hek; rewrite <- Hp1 in *.
  assert (Hns1 : str_eqb (he_Name e) "UserPromptSubmit" || str_eqb (he_Name e) "SessionEnd" = true -> str_eqb (he_AgentID e) "" = false).
  { intros H; rewrite H, andb_true_r in Hu; exact Hu. }
  assert (Hstop : is_stop (he_Name e) = true -> forall p, h_pending s1 !! pending_key agent id = Some p -> p_agent p <> he_AgentID e).
  { intros H p Hp; rewrite H in Hst; apply str_eqb_neq in Hst; rewrite (Hag p Hp); congruence. }
  clear Hu Hst; unfold hook_switch.
  destruct (str_eqb (he_Name e) "UserPromptSubmit"); [rewrite Hns1 by reflexivity; auto|].
  destruct (str_eqb (he_Name e) "PreToolUse"); [destruct (str_eqb (he_Tool e) _); cbn [fst]; rewrite ?add_other by exact Hpk; auto with hooks|].
  destruct (str_eqb (he_Name e) "PermissionRequest"); [cbn [fst]; rewrite add_other by exact Hpk; auto with hooks|].
  destruct (is_tool_end (he_Name e)).
  { split; [apply knows_base, (knows_delete _ _ _ _ (with_pending _ s1)); auto with hooks|cbn; rewrite lookup_delete_ne by exact Hpk; auto]. }
  destruct (str_eqb (he_Name e) "Elicitation"); [cbn [fst]; rewrite add_other by exact Hek; auto with hooks|].
  destruct (str_eqb (he_Name e) "ElicitationResult"); [cbn; rewrite lookup_delete_ne by exact Hek; auto with hooks|].
  destruct (is_stop (he_Name e)); [destruct (str_eqb (he_AgentID e) ""); cbn; rewrite stop_other by auto; auto with hooks|].
  destruct (str_eqb (he_Name e) "SessionEnd"); [rewrite Hns1 by reflexivity; auto|].
  destruct (str_eqb (he_Name e) "Notification"); [destruct (str_eqb (he_Notification e) _), (str_eqb (he_AgentID e) _)|]; cbn; auto with hooks.
Qed.

Definition hook_states (s : hook_state) (evs : list (string * HookEvent)) : hook_state :=
  foldl (fun s fe => fst (apply_state fe.1 s fe.2)) s evs.

Lemma other_steps agent tk id session prompt evs : forall s, knows tk id session prompt s -> session <> "" -> id <> "" -> no_slash agent = true ->
  (forall p, h_pending s !! pending_key agent id = Some p -> p_agent p = agent) -> Forall (fun fe => other_call agent tk id fe.2 = true) evs ->
  knows tk id session prompt (hook_states s evs) /\ h_pending (hook_states s evs) !! pending_key agent id = h_pending s !! pending_key agent id.
Proof.
  induction evs as [|[f e] evs IH]; intros s Hk Hne Hid Hns Hag Ho; [auto|].
  apply Forall_cons_1 in Ho as [Ho Hos]; cbn [snd] in Ho; destruct (other_step _ _ _ _ _ f _ _ Hk Hne Hid Hns Hag Ho) as [Hk' Hp'].
  cbn [hook_states foldl]; destruct (IH (fst (apply_state f s e)) Hk' Hne Hid Hns) as [H1 H2]; [rewrite Hp'; exact Hag|exact Hos|].
  split; [exact H1|]; unfold hook_states in H2; cbn [fst snd]; rewrite H2; exact Hp'.
Qed.

Lemma states_wf evs : forall s, hook_wf s -> hook_wf (hook_states s evs).
Proof. induction evs as [|fe evs IH]; intros s Hs; [exact Hs|]; cbn; apply IH, apply_state_wf, Hs. Qed.

(** An event of the session [session] under the prompt [prompt], which the guards let pass. *)
Definition in_turn (session prompt : string) (e : HookEvent) : bool :=
  str_eqb (he_SessionID e) session && (str_eqb (he_PromptID e) "" || str_eqb prompt "" || str_eqb (he_PromptID e) prompt).

Lemma in_turn_admits session prompt e : in_turn session prompt e = true ->
  negb (str_eqb session (he_SessionID e)) || (negb (str_eqb (he_PromptID e) "") && negb (str_eqb prompt "") && negb (str_eqb (he_PromptID e) prompt)) = false.
Proof.
  unfold in_turn; intros [H1 H2]%andb_true_iff; apply str_eqb_eq in H1; rewrite H1, str_eqb_refl; cbn.
  destruct (str_eqb (he_PromptID e) ""), (str_eqb prompt ""), (str_eqb (he_PromptID e) prompt); auto.
Qed.

(** The steps of one tool call, seen from a state that knows it or learns it. *)
Lemma pre_step f s e id : he_Name e = "PreToolUse" -> he_Tool e <> "AskUserQuestion" -> he_ToolID e = id -> id <> "" -> h_session s <> "" ->
  (forall k, h_tools s !! k <> Some id) -> in_turn (h_session s) (h_prompt s) e = true ->
  knows (hook_toolKey e) id (h_session s) (h_prompt s) (fst (apply_state f s e)) /\ h_pending (fst (apply_state f s e)) = h_pending s.
Proof.
  intros Hn Ht Hi Hid Hne Hfresh Hin; unfold apply_state, main_start; rewrite Hn; change (str_eqb "PreToolUse" "SessionStart") with false; cbn [andb].
  unfold hook_admit; rewrite (proj2 (str_eqb_neq _ _) Hne), Hn; cbn -[str_eqb].
  apply in_turn_admits, orb_false_iff in Hin as [Hs Hp]; rewrite Hs; change (str_eqb "PreToolUse" "UserPromptSubmit") with false; cbn -[str_eqb].
  rewrite Hp, Hi, (proj2 (str_eqb_neq id "") Hid); unfold hook_switch; rewrite Hn; cbn -[str_eqb].
  change (str_eqb "PreToolUse" "UserPromptSubmit") with false; change (str_eqb "PreToolUse" "PreToolUse") with true; cbn -[str_eqb].
  rewrite (proj2 (str_eqb_neq _ _) Ht); cbn; split; [|reflexivity]; split; cbn; try reflexivity; [apply lookup_insert_eq|].
  intros k; rewrite lookup_insert_Some; intros [[H _]|[_ H]]; [congruence|destruct (Hfresh k H)].
Qed.

Lemma not_main_start e n : he_Name e = n -> str_eqb n "SessionStart" = false -> main_start e = false.
Proof. intros Hn H; unfold main_start; rewrite Hn, H; reflexivity. Qed.

Lemma ask_step f tk id session prompt s e : knows tk id session prompt s -> session <> "" -> id <> "" ->
  he_Name e = "PermissionRequest" -> he_ToolID e = "" -> hook_toolKey e = tk -> he_Tool e <> "AskUserQuestion" -> in_turn session prompt e = true ->
  h_pending s !! pending_key (he_AgentID e) id = None ->
  knows tk id session prompt (fst (apply_state f s e)) /\
  h_pending (fst (apply_state f s e)) !! pending_key (he_AgentID e) id =
    Some (MkOpen (MkPending f PendingRequestApproval "" (pendingKindForTool (he_Tool e))) (he_AgentID e)).
Proof.
  intros Hk Hne Hid Hn Hi Htk Ht Hin Hp; pose proof (not_main_start _ _ Hn eq_refl) as Hm.
  unfold apply_state; rewrite Hm, (admit_known _ _ _ _ _ _ Hk Hne Hm) by (rewrite Hn; reflexivity).
  rewrite in_turn_admits, Hi by exact Hin; change (str_eqb "" "") with true; cbn iota; unfold hook_switch; rewrite Hn.
  change (str_eqb "PermissionRequest" "UserPromptSubmit") with false; change (str_eqb "PermissionRequest" "PreToolUse") with false;
    change (str_eqb "PermissionRequest" "PermissionRequest") with true; cbn iota zeta.
  assert (Hid' : tool_ident (h_tools s) e = id).
  { unfold tool_ident; rewrite Hi, Htk, (kn_tool _ _ _ _ _ Hk); change (str_eqb "" "") with true; cbn; rewrite (proj2 (str_eqb_neq id "") Hid); reflexivity. }
  rewrite Hid', (proj2 (str_eqb_neq _ _) Ht); cbn [fst]; split; [auto with hooks|].
  unfold add_pending; rewrite Hp; cbn; apply lookup_insert_eq.
Qed.

Lemma post_step f tk id session prompt s e : knows tk id session prompt s -> session <> "" -> id <> "" ->
  is_tool_end (he_Name e) = true -> he_ToolID e = id -> in_turn session prompt e = true ->
  h_pending (fst (apply_state f s e)) !! pending_key (he_AgentID e) id = None.
Proof.
  intros Hk Hne Hid Hn Hi Hin; unfold apply_state.
  assert (Hcases : he_Name e = "PostToolUse" \/ he_Name e = "PostToolUseFailure").
  { unfold is_tool_end in Hn; apply orb_true_iff in Hn; rewrite !str_eqb_eq in Hn; exact Hn. }
  assert (Hm : main_start e = false) by (destruct Hcases as [Hc|Hc]; rewrite (not_main_start _ _ Hc eq_refl); reflexivity).
  rewrite Hm, (admit_known _ _ _ _ _ _ Hk Hne Hm) by (destruct Hcases as [-> | ->]; reflexivity).
  rewrite in_turn_admits, Hi by exact Hin; rewrite (proj2 (str_eqb_neq id "") Hid); unfold hook_switch; rewrite Hn.
  assert (Hid' : tool_ident (<[hook_toolKey e:=id]> (h_tools s)) e = id).
  { unfold tool_ident; rewrite Hi, (proj2 (str_eqb_neq id "") Hid), (proj2 (str_eqb_neq id "") Hid); reflexivity. }
  cbn [with_tools h_tools]; rewrite Hid'; destruct Hcases as [-> | ->]; cbn; apply lookup_delete_eq.
Qed.

(** A permission request that carries no identity of its own is matched, by the fingerprint
    of the call's input, to the tool call that was announced before; from then on, through
    any events of other calls, it stays open with one identity and every report says that
    the session waits for approval; the end of that call closes it. *)
Theorem permission_request_lifetime (s : hook_state) (pre ask post : HookEvent) (f0 f1 f2 : string) (mid1 mid2 : list (string * HookEvent)) :
  let id := he_ToolID pre in let agent := he_AgentID pre in let tk := hook_toolKey pre in
  let others := Forall (fun fe : string * HookEvent => other_call agent tk id fe.2 = true) in
  let in_turn := in_turn (h_session s) (h_prompt s) in
  hook_wf s -> h_session s <> "" -> id <> "" -> no_slash agent = true -> he_Tool pre <> "AskUserQuestion" ->
  (forall k, h_tools s !! k <> Some id) -> h_pending s !! pending_key agent id = None ->
  he_Name pre = "PreToolUse" -> he_Name ask = "PermissionRequest" -> is_tool_end (he_Name post) = true ->
  he_AgentID ask = agent -> he_Tool ask = he_Tool pre -> hook_toolKey ask = tk -> he_ToolID ask = "" ->
  he_AgentID post = agent -> he_ToolID post = id ->
  in_turn pre = true -> in_turn ask = true -> in_turn post = true -> others mid1 -> others mid2 ->
  let asked := hook_states s ((f0, pre) :: mid1 ++ [(f1, ask)]) in
  (forall n, let now := hook_states asked (take n mid2) in
     h_pending now !! pending_key agent id = Some (MkOpen (MkPending f1 PendingRequestApproval "" (pendingKindForTool (he_Tool pre))) agent) /\
     forall iter, lawful iter -> int_State (hook_report (iter (h_pending now)) (h_base now)) = InteractionWaitingForApproval) /\
  h_pending (hook_states asked (mid2 ++ [(f2, post)])) !! pending_key agent id = None.
Proof.
  intros id agent tk others turn Hw Hs Hid Hns Ht Hfresh Hnone Hpre Hask Hpost Hag Htool Htk Hnoid Hag' Hid' Htp Hta Hte Ho1 Ho2 asked.
  destruct (pre_step f0 s pre id Hpre Ht eq_refl Hid Hs Hfresh Htp) as [Hk0 Hp0].
  destruct (other_steps agent tk id _ _ mid1 _ Hk0 Hs Hid Hns) as [Hk1 Hp1]; [rewrite Hp0, Hnone; discriminate|exact Ho1|].
  destruct (ask_step f1 tk id _ _ _ ask Hk1 Hs Hid Hask Hnoid Htk) as [Hk2 Hp2]; [congruence|exact Hta|rewrite Hag, Hp1, Hp0; exact Hnone|].
  assert (Ea : asked = fst (apply_state f1 (hook_states (fst (apply_state f0 s pre)) mid1) ask)).
  { subst asked; cbn [hook_states foldl fst snd]; unfold hook_states; rewrite foldl_app; reflexivity. }
  rewrite <- Ea, Hag, Htool in *.
  assert (Hstay : forall evs, Forall (fun fe : string * HookEvent => other_call agent tk id fe.2 = true) evs ->
    knows tk id (h_session s) (h_prompt s) (hook_states asked evs) /\ h_pending (hook_states asked evs) !! pending_key agent id =
      Some (MkOpen (MkPending f1 PendingRequestApproval "" (pendingKindForTool (he_Tool pre))) agent)).
  { intros evs Ho; rewrite <- Hp2; apply (other_steps agent); try assumption; rewrite Hp2; intros p E; simplify_eq; reflexivity. }
  split; [intros n now|].
  - destruct (Hstay (take n mid2)) as [_ Hp]; [apply Forall_take, Ho2|]; split; [exact Hp|]; intros iter Hi.
    apply (rp_approval now); [|eexists _, _; split; [exact Hp|reflexivity]].
    apply report_says; [exact Hi|apply states_wf, states_wf, Hw].
  - destruct (Hstay mid2 Ho2) as [Hk3 _]; unfold hook_states in *; rewrite foldl_app; cbn [foldl fst snd].
    rewrite <- Hag'; apply (post_step f2 tk id _ _ _ post Hk3 Hs Hid Hpost Hid' Hte).
Qed.

(** ** The helper and the receiver *)

Lemma Report_delivers hmac token url e input iter f n1 n2 hs :
  loopback_url url = true -> token <> "" -> he_SessionID e <> "" -> he_Name e <> "" ->
  let key := match input with Some canonical => hmac token canonical | None => "" end in
  Report hmac (ClientConfig (Some url) token) (HookInput e input) (fun r => Some (answer_status (snd (hook_request token iter f n1 n2 r hs)))) = None /\
  forall r, report_request hmac (ClientConfig (Some url) token) (HookInput e input) = inr r ->
    hs_state (fst (hook_request token iter f n1 n2 r hs)) = fst (apply_state f (hs_state hs) (set_ToolKey key e)).
Proof.
  intros Hu Ht Hs Hn key; assert (Hp : u_path url = "/event").
  { unfold loopback_url in Hu; rewrite !andb_true_iff in Hu; apply str_eqb_eq; apply Hu. }
  unfold Report, report_request; rewrite Hu, (proj2 (str_eqb_neq token "") Ht), Hp; cbn [negb orb].
  assert (E : forall r, r = MkReq "POST" "/event" ("Bearer " +:+ token) (Some (set_ToolKey key e)) ->
    answer_status (snd (hook_request token iter f n1 n2 r hs)) = 204 /\
    hs_state (fst (hook_request token iter f n1 n2 r hs)) = fst (apply_state f (hs_state hs) (set_ToolKey key e))).
  { intros r ->; unfold hook_request; cbn [rq_method rq_path rq_authorization rq_body]; rewrite !str_eqb_refl; cbn [negb orb].
    cbn [set_ToolKey he_SessionID he_Name]; rewrite (proj2 (str_eqb_neq _ _) Hs), (proj2 (str_eqb_neq _ _) Hn); cbn [orb].
    unfold apply; destruct (apply_state f (hs_state hs) _) as [s' [|]]; split; reflexivity. }
  fold key; split; [rewrite (proj1 (E _ eq_refl)); reflexivity|]; intros r H; injection H as <-; apply (E _ eq_refl).
Qed.

(** The hooks of one call carry one fingerprint, whatever else their inputs hold. *)
Lemma Report_correlates (hmac : string -> string -> string) token input e e' : he_AgentID e = he_AgentID e' -> he_Tool e = he_Tool e' ->
  hook_toolKey (set_ToolKey (hmac token input) e) = hook_toolKey (set_ToolKey (hmac token input) e').
Proof. unfold hook_toolKey; cbn; congruence. Qed.

(** ** Concrete sessions *)

Definition hook_event (name tool id key : string) : HookEvent := MkHook "s1" name tool id key "" "" "" "" "" "".


Definition hook_post (e : HookEvent) : hook_req := MkReq "POST" "/event" "Bearer t" (Some e).

Definition reversed_order : iteration := fun m => reverse (map_to_list m).

Lemma reversed_lawful : lawful reversed_order.
Proof. intros m; unfold reversed_order; rewrite reverse_Permutation; reflexivity. Qed.

Definition sample_requests : list hook_step :=
  [HRequest reversed_order "u0" 0 0 (hook_post (hook_event "SessionStart" "" "" ""));
   HRequest reversed_order "u1" 0 0 (hook_post (hook_event "PreToolUse" "Bash" "c1" "k1")); HWatch 1;
   HRequest reversed_order "u2" 0 0 (MkReq "POST" "/event" "Bearer x" (Some (hook_event "Stop" "" "" "")));
   HRequest reversed_order "u3" 0 0 (hook_post (hook_event "PermissionRequest" "Bash" "" "k1"))].

Lemma hook_receiver_refines_witness :
  Forall lawful_step sample_requests /\ map int_State (hs_updates (hook_run "t" sample_requests)) = ["working"; "waiting_for_approval"]%string /\
  delivered updates_capacity (hs_taken (hook_run "t" sample_requests)) (hs_updates (hook_run "t" sample_requests)) (plain_run (omap (accepted "t") sample_requests)).2.
Proof.
  assert (H : Forall lawful_step sample_requests) by (repeat constructor; apply reversed_lawful).
  split; [exact H|split; [vm_compute; reflexivity|]].
  pose proof (hook_receiver_refines "t" sample_requests H) as Hr; cbv zeta in Hr.
  destruct (plain_run (omap (accepted "t") sample_requests)) as [s out]; exact (proj2 Hr).
Defined.

Lemma hook_reports_open_witness : exists s' i,
  apply reversed_order "u2" (plain_run [("u1"%string, hook_event "PreToolUse" "AskUserQuestion" "c0" "k0")]).1 (hook_event "PermissionRequest" "Bash" "c1" "k1") = (s', Some i) /\
  int_State i = InteractionWaitingForApproval.
Proof.
  eexists _, _; split; [vm_compute; reflexivity|].
  eapply rp_approval;
    [refine (proj1 (hook_reports_open [("u1"%string, hook_event "PreToolUse" "AskUserQuestion" "c0" "k0")] reversed_order "u2"
                      (hook_event "PermissionRequest" "Bash" "c1" "k1") reversed_lawful _ _ _)); vm_compute; reflexivity|].
  eexists "/tool/c1"%string, _; split; vm_compute; reflexivity.
Defined.

Definition open_session : hook_state := MkHooks "s1" "" InteractionIdle ∅ ∅.

Definition bash_pre : HookEvent := hook_event "PreToolUse" "Bash" "c1" "k1".
Definition bash_ask : HookEvent := hook_event "PermissionRequest" "Bash" "" "k1".
Definition bash_post : HookEvent := hook_event "PostToolUse" "Bash" "c1" "k1".
Definition edit_pre : list (string * HookEvent) := [("u1"%string, hook_event "PreToolUse" "Edit" "c2" "k2")].
Definition edit_post : list (string * HookEvent) := [("u3"%string, hook_event "PostToolUse" "Edit" "c2" "k2")].

Lemma permission_request_lifetime_witness :
  h_pending (hook_states (hook_states open_session (("u0"%string, bash_pre) :: edit_pre ++ [("u2"%string, bash_ask)])) (edit_post ++ [("u4"%string, bash_post)]))
    !! pending_key (he_AgentID bash_pre) (he_ToolID bash_pre) = None.
Proof.
  apply (permission_request_lifetime open_session bash_pre bash_ask bash_post "u0" "u2" "u4" edit_pre edit_post);
    try reflexivity; try discriminate; try (constructor; [vm_compute; reflexivity|constructor]).
Defined.

(** Two calls of one tool with the same input share a fingerprint: the end of the first
    forgets it, the second's request is then filed under the tool's name, and the second
    call's end does not close it. *)
Lemma identical_calls_leave_request :
  let s := hook_states open_session
    [("u0"%string, hook_event "PreToolUse" "Bash" "c1" "k1"); ("u1"%string, hook_event "PreToolUse" "Bash" "c2" "k1");
     ("u2"%string, hook_event "PermissionRequest" "Bash" "" "k1"); ("u3"%string, hook_event "PostToolUse" "Bash" "c1" "k1");
     ("u4"%string, hook_event "PermissionRequest" "Bash" "" "k1"); ("u5"%string, hook_event "PostToolUse" "Bash" "c2" "k1")] in
  int_State (hook_report (map_to_list (h_pending s)) (h_base s)) = InteractionWaitingForApproval /\
  h_pending s = {[ "/tool/Bash"%string := MkOpen (MkPending "u4" PendingRequestApproval "" PendingKindCommand) "" ]}.
Proof. split; vm_compute; reflexivity. Qed.
