(* ===== verification/RepoSetup.v ===== *)
(** * Repository setup: internal/reposetup/setup.go

    Before a session starts, a repository may run its own set-up commands; the
    environment they leave is the session's.  [Prepare] finds the repository's file
    inside the repository, [prepareOnce] runs the commands in a shell and reads the
    environment back from what the shell printed after a marker.

    Concurrent calls for one repository share a run ([flight]).  The file system, YAML
    and the shell are the class [SetupWorld]; Go ranges over the file's map in no fixed
    order, so the map is the list of its entries in the order of one range. *)

From S2P Require Import Prelude Types GoStd GoText Utf8 Registry Supervisor EnrollServer Config Questions.

(** ** The environment: a list of [key=value] texts *)

Definition EQ : Z := 61.

(** [setEnv]: the first entry of the key is replaced, or one is appended. *)
Fixpoint setEnv (env : list (list Z)) (key value : list Z) : list (list Z) :=
  let prefix := key ++ [EQ] in
  match env with
  | [] => [prefix ++ value]
  | existing :: rest => if has_prefix prefix existing then (prefix ++ value) :: rest else existing :: setEnv rest key value
  end.

Definition mergeEnv (base : list (list Z)) (extra : list (list Z * list Z)) : list (list Z) :=
  fold_left (fun out kv => setEnv out kv.1 kv.2) extra base.

Definition key_start (c : Z) : bool := (c =? 95) || in_range 65 90 c || in_range 97 122 c.
Definition key_rest (c : Z) : bool := key_start c || in_range 48 57 c.

(** [validEnvKey], on the runes of the key. *)
Definition validEnvKey (key : list Z) : bool :=
  match runes key with
  | [] => false
  | (r, _) :: rs => key_start r && forallb (fun rw => key_rest rw.1) rs
  end.

(** ** The shell's script and what it prints *)

Definition envMarker : list Z := chars "__BRIDGECTL_ENV__".
Definition marker : list Z := 10 :: envMarker ++ [10].

(** In the script the line end is written with a backslash, for printf. *)
Definition setupScript (lines : list (list Z)) : list Z :=
  chars "set -e" ++ [10] ++ concat (map (fun line => line ++ [10]) lines) ++
  chars "printf '" ++ [92; 110] ++ envMarker ++ [92; 110] ++ chars "'" ++ [10] ++ chars "env -0" ++ [10].

(** [bytes.LastIndex]: the position of the last occurrence. *)
Fixpoint LastIndex (s p : list Z) : option nat :=
  match s with
  | [] => if has_prefix p [] then Some 0%nat else None
  | _ :: s' => match LastIndex s' p with
               | Some i => Some (Datatypes.S i)
               | None => if has_prefix p s then Some 0%nat else None
               end
  end.

Definition captured_entry (part : list Z) : bool := negb (bool_decide (part = [])) && Contains [EQ] part.

Definition parseCapturedEnv (out : list Z) : option (list (list Z)) :=
  match LastIndex out marker with
  | None => None
  | Some idx => Some (List.filter captured_entry (split_byte 0 (drop (idx + length marker) out)))
  end.

(** ** Time limits *)

Definition effectiveTimeout (raw : list Z) (def max : Duration) : string + Duration :=
  match raw with
  | [] => inr def
  | _ => match time_ParseDuration raw with
         | None => inl "timeout"
         | Some d => if d <=? 0 then inl "timeout must be > 0"
                     else if max <? d then inl "timeout exceeds max_timeout" else inr d
         end
  end.

(** ** Where the file is *)

(** [filepath.Rel] for two absolute paths, cleaned: the components common to both
    are dropped; what is left of the base is climbed. *)
Fixpoint rel_parts (base targ : list (list Z)) : list (list Z) :=
  match base, targ with
  | b :: bs, t :: ts => if bool_decide (b = t) then rel_parts bs ts else repeat DOTDOT (length base) ++ targ
  | _, _ => repeat DOTDOT (length base) ++ targ
  end.

Definition path_parts (p : list Z) : list (list Z) :=
  match p with
  | _ :: [] => []
  | _ :: p => split_path p
  | [] => []
  end.

Definition Rel (base targ : list Z) : list Z :=
  match rel_parts (path_parts (Clean base)) (path_parts (Clean targ)) with [] => DOT | ws => join_path ws end.

(** ** The coordinator *)

Record setup_options := MkOptions {
  so_Enabled : bool; so_ConfigPath : list Z; so_DefaultTimeout : Duration; so_MaxTimeout : Duration;
  so_Redact : option (list Z -> list Z); so_BaseEnv : option (list (list Z)) }.

Record fileConfig := MkFile {
  fc_Version : Z; fc_Shell : list Z; fc_Setup : list (list Z); fc_Env : list (list Z * list Z); fc_Timeout : list Z }.

Inductive setup_file := FileUnreadable | FileNotYAML | SetupFile (c : fileConfig).
Inductive stat_answer := Present | Absent | StatFailed.

(** How a run of the shell ends: past its deadline, with an error (and its text), or well;
    with standard output and standard error as they came. *)
Inductive setup_run := TimedOut (out : list Z) | RunFailed (out err : list Z) | RunDone (out : list Z).

Class SetupWorld := {
  Getwd : option (list Z);
  Environ : list (list Z);
  EvalSymlinks : list Z -> option (list Z);
  Stat : list Z -> stat_answer;
  read_file : list Z -> setup_file;
  run_shell : list Z -> list Z -> list Z -> list (list Z) -> Duration -> setup_run;
  upper : Z -> list Z  (* the upper-case form of a rune beyond ASCII *)
}.

Section setup.
Context `{W : SetupWorld}.

(** *** Redacting what a failed run printed *)

Definition ToUpper (s : list Z) : list Z :=
  concat (map (fun p => if p.1 <? 128 then [if in_range 97 122 p.1 then p.1 - 32 else p.1]
                        else if (p.1 =? RuneError) && (length p.2 =? 1)%nat then [239; 191; 189] else upper p.1) (pieces s)).

Definition redacted_value : list Z := 34 :: chars "[REDACTED]" ++ [34].

Definition secret_field (word field : list Z) : bool :=
  match Cut EQ field with Some (key, _) => Contains word (ToUpper key) | None => false end.

Definition redact_field (word field : list Z) : list Z :=
  match Cut EQ field with
  | Some (key, _) => if Contains word (ToUpper key) then key ++ EQ :: redacted_value else field
  | None => field
  end.

Definition redactAssignments (s word : list Z) : list Z :=
  match map (redact_field word) (Fields s) with [] => s | fields => join_space fields end.

Definition secret_words : list (list Z) := [chars "TOKEN"; chars "SECRET"; chars "PASSWORD"; chars "API_KEY"].

Definition defaultRedact (s : list Z) : list Z := fold_left redactAssignments secret_words s.

(** *** Operations *)

Definition NewCoordinator (o : setup_options) : setup_options :=
  MkOptions (so_Enabled o) (match so_ConfigPath o with [] => chars ".bridgectl.yaml" | p => p end)
    (if so_DefaultTimeout o <=? 0 then 2 * Minute else so_DefaultTimeout o)
    (if so_MaxTimeout o <=? 0 then 15 * Minute else so_MaxTimeout o)
    (Some (default defaultRedact (so_Redact o))) (Some (default Environ (so_BaseEnv o))).

Definition resolveConfigPath (repoPath configPath : list Z) : string + (list Z * list Z) :=
  if has_prefix [SEP] configPath then inl "config_path must be relative"
  else match Abs Getwd repoPath with
       | None => inl "resolve repo path"
       | Some repoAbs =>
           let repoReal := default (Clean repoAbs) (EvalSymlinks repoAbs) in
           let candidate := Clean (Join repoReal configPath) in
           let rel := Rel repoReal candidate in
           if bool_decide (rel = DOTDOT) || has_prefix (DOTDOT ++ [SEP]) rel then inl "config path escapes repo root"
           else inr (repoReal, candidate)
       end.

Definition loadConfig (path : list Z) : string + fileConfig :=
  match read_file path with
  | FileUnreadable => inl "read"
  | FileNotYAML => inl "parse"
  | SetupFile c =>
      let shell := match fc_Shell c with [] => chars "bash" | s => s end in
      if negb (fc_Version c =? 1) then inl "version must be 1"
      else if negb (bool_decide (shell = chars "bash") || bool_decide (shell = chars "sh")) then inl "unsupported shell"
      else if existsb (fun line => bool_decide (TrimSpace line = [])) (fc_Setup c) then inl "setup must not be empty"
      else if negb (forallb (fun kv => validEnvKey kv.1) (fc_Env c)) then inl "env key is invalid"
      else inr (MkFile (fc_Version c) shell (fc_Setup c) (fc_Env c) (fc_Timeout c))
  end.

(** [prepareOnce]; a failure carries the text after [repo setup failed]. *)
Definition prepareOnce (o : setup_options) (repoPath configPath : list Z) (baseEnv : list (list Z)) : list Z + list (list Z) :=
  match loadConfig configPath with
  | inl e => inl (chars e)
  | inr cfg =>
      match effectiveTimeout (fc_Timeout cfg) (so_DefaultTimeout o) (so_MaxTimeout o) with
      | inl e => inl (chars e)
      | inr timeout =>
          match run_shell (fc_Shell cfg) (setupScript (fc_Setup cfg)) repoPath (mergeEnv baseEnv (fc_Env cfg)) timeout with
          | TimedOut _ => inl (chars "setup timed out")
          | RunFailed out err =>
              let msg := TrimSpace (default defaultRedact (so_Redact o) out) in
              let msg := match msg with [] => err | m => m end in
              inl (chars "command failed: " ++ err ++ chars "; output: " ++ msg)
          | RunDone out => match parseCapturedEnv out with
                           | None => inl (chars "environment marker missing from setup output")
                           | Some env => inr env
                           end
          end
      end
  end.

(** [Prepare] of a coordinator that is not nil, for a caller that shares no run. *)
Definition setup_base (o : setup_options) (baseEnv : option (list (list Z))) : list (list Z) :=
  match baseEnv with Some env => env | None => default Environ (so_BaseEnv o) end.

(** What happens before a run is shared or started: the answer, or the key of the run. *)
Definition prepare_enter (o : setup_options) (repoPath : list Z) (base : list (list Z))
  : (list Z + list (list Z)) + (list Z * list Z) :=
  if negb (so_Enabled o) then inl (inr base)
  else match resolveConfigPath repoPath (so_ConfigPath o) with
       | inl e => inl (inl (chars e))
       | inr (repo, path) => match Stat path with
                             | Absent => inl (inr base)
                             | StatFailed => inl (inl (chars "stat"))
                             | Present => inr (repo, path)
                             end
       end.

Definition Prepare (o : setup_options) (repoPath : list Z) (baseEnv : option (list (list Z))) : list Z + list (list Z) :=
  let base := setup_base o baseEnv in
  match prepare_enter o repoPath base with
  | inl answer => answer
  | inr (repo, path) => prepareOnce o repo path base
  end.
End setup.

(** ** Paths *)

Lemma path_parts_join ds : Forall component ds -> path_parts (SEP :: join_path ds) = ds.
Proof.
  intros Hd; destruct ds as [|d ds]; [reflexivity|].
  assert (Hne : join_path (d :: ds) <> []).
  { apply Forall_cons_1 in Hd as [(_ & Hn & _) _]; destruct ds; [exact Hn|]; cbn; destruct d; [congruence|discriminate]. }
  unfold path_parts; destruct (join_path (d :: ds)) as [|c l] eqn:E; [congruence|]; rewrite <- E.
  apply split_path_join; [discriminate|eapply List.Forall_impl; [|exact Hd]; intros w [Hw _]; exact Hw].
Qed.

Lemma Clean_join ds : Forall component ds -> Clean (SEP :: join_path ds) = SEP :: join_path ds.
Proof.
  intros Hd; unfold Clean; change (SEP =? SEP) with true; cbn iota; rewrite split_dir by exact Hd.
  rewrite (clean_components ds Hd), app_nil_r, reverse_involutive; reflexivity.
Qed.

(** Either the base's components come first in the target, or the way goes up. *)
Lemma rel_parts_cases base : forall targ,
  (exists ws, targ = base ++ ws /\ rel_parts base targ = ws) \/ exists ws, rel_parts base targ = DOTDOT :: ws.
Proof.
  induction base as [|b bs IH]; intros [|t ts]; cbn; try (left; eexists; split; reflexivity); [right; eexists; reflexivity|].
  case_bool_decide; [subst|right; eexists; reflexivity].
  destruct (IH ts) as [(ws & -> & E)|(ws & E)]; [left; exists ws|right; exists ws]; auto.
Qed.

Lemma climbs ws : bool_decide (join_path (DOTDOT :: ws) = DOTDOT) || has_prefix (DOTDOT ++ [SEP]) (join_path (DOTDOT :: ws)) = true.
Proof. destruct ws as [|w ws]; [reflexivity|]; apply orb_true_iff; right; reflexivity. Qed.

(** [EvalSymlinks] answers an absolute path, cleaned. *)
Definition symlinks_rooted `{SetupWorld} : Prop := forall p q, EvalSymlinks p = Some q -> exists ds, q = SEP :: join_path ds /\ Forall component ds.

Lemma Abs_rooted wd p q : (forall d, wd = Some d -> has_prefix [SEP] d = true) -> Abs wd p = Some q -> exists ds, q = SEP :: join_path ds /\ Forall component ds.
Proof.
  intros Hwd H; assert (K : forall s, has_prefix [SEP] s = true -> exists ds, Clean s = SEP :: join_path ds /\ Forall component ds).
  { intros s Hs; apply has_prefix_spec in Hs as [t ->]; apply Clean_rooted. }
  unfold Abs in H; destruct (decide (has_prefix [SEP] p = true)) as [Hp|Hp].
  - apply has_prefix_spec in Hp as [t ->]; assert (Clean ([SEP] ++ t) = q) as <- by (injection H as <-; reflexivity); apply K; reflexivity.
  - assert (Hq : match wd with None => None | Some wd => Some (Clean (match p with [] => wd | _ => wd ++ SEP :: p end)) end = Some q).
    { destruct p as [|c p]; [exact H|].
      destruct c as [|c|c]; try exact H; repeat (destruct c as [c|c|]; try exact H); destruct Hp; reflexivity. }
    clear H; destruct wd as [d|]; [|discriminate]; specialize (Hwd d eq_refl); injection Hq as <-; apply K.
    destruct d as [|c d]; [discriminate|]; destruct p; exact Hwd.
Qed.

Section laws.
Context `{W : SetupWorld} (Hlinks : symlinks_rooted) (Hwd : forall d, Getwd = Some d -> has_prefix [SEP] d = true).

Lemma resolve_inside repoPath configPath repo path : resolveConfigPath repoPath configPath = inr (repo, path) ->
  exists ds ws, repo = SEP :: join_path ds /\ path = SEP :: join_path (ds ++ ws) /\ Forall component (ds ++ ws).
Proof.
  unfold resolveConfigPath; destruct (has_prefix [SEP] configPath); [discriminate|].
  destruct (Abs Getwd repoPath) as [repoAbs|] eqn:Ea; [|discriminate].
  apply (Abs_rooted _ _ _ Hwd) in Ea as (as_ & -> & Has).
  assert (Hr : exists ds, default (Clean (SEP :: join_path as_)) (EvalSymlinks (SEP :: join_path as_)) = SEP :: join_path ds /\ Forall component ds).
  { destruct (EvalSymlinks _) as [q|] eqn:Eq; cbn [default]; [exact (Hlinks _ _ Eq)|apply Clean_rooted]. }
  destruct Hr as (ds & -> & Hds); cbv zeta.
  assert (Hc : exists ts, Clean (Join (SEP :: join_path ds) configPath) = SEP :: join_path ts /\ Forall component ts).
  { destruct configPath as [|c p]; cbn [Join].
    - destruct (Clean_rooted (join_path ds)) as (ts & -> & Ht); exists ts; split; [apply Clean_join|]; exact Ht.
    - cbn [app]; destruct (Clean_rooted (join_path ds ++ SEP :: c :: p)) as (ts & -> & Ht); exists ts; split; [apply Clean_join|]; exact Ht. }
  destruct Hc as (ts & -> & Hts); unfold Rel; rewrite !Clean_join, !path_parts_join by assumption.
  destruct (rel_parts_cases ds ts) as [(ws & -> & E)|(ws & E)]; rewrite E; [|rewrite climbs; discriminate].
  destruct (_ || _); [discriminate|]; intros H; injection H as <- <-; exists ds, ws; auto.
Qed.
End laws.

(** ** The environment of the shell *)

Definition value_of (key entry : list Z) : option (list Z) :=
  if has_prefix (key ++ [EQ]) entry then Some (drop (length key + 1) entry) else None.

(** The value a process finds: of several entries of one key os/exec keeps the last. *)
Definition env_values (key : list Z) (env : list (list Z)) : list (list Z) := omap (value_of key) env.
Definition env_value (key : list Z) (env : list (list Z)) : option (list Z) := list.last (env_values key env).

Definition unique_keys (env : list (list Z)) : Prop := forall key, EQ ∉ key -> (length (env_values key env) <= 1)%nat.

Lemma eq_prefix k k' v : EQ ∉ k -> EQ ∉ k' -> has_prefix (k' ++ [EQ]) (k ++ EQ :: v) = bool_decide (k = k').
Proof.
  revert k'; induction k as [|c k IH]; intros [|c' k'] Hk Hk'; cbn [app has_prefix].
  - reflexivity.
  - rewrite (proj2 (Z.eqb_neq c' EQ)) by set_solver; rewrite bool_decide_eq_false_2 by discriminate; reflexivity.
  - rewrite (proj2 (Z.eqb_neq EQ c)) by set_solver; rewrite bool_decide_eq_false_2 by discriminate; reflexivity.
  - rewrite IH by set_solver; destruct (Z.eqb_spec c' c) as [->|Hne]; cbn; repeat case_bool_decide; congruence.
Qed.

Lemma value_of_entry k k' v : EQ ∉ k -> EQ ∉ k' -> value_of k' ((k ++ [EQ]) ++ v) = if bool_decide (k = k') then Some v else None.
Proof.
  intros Hk Hk'; unfold value_of; rewrite <- app_assoc; cbn [app]; rewrite eq_prefix by assumption.
  case_bool_decide; [subst|reflexivity]; f_equal.
  replace (k' ++ EQ :: v) with ((k' ++ [EQ]) ++ v) by (rewrite <- app_assoc; reflexivity).
  rewrite <- (Nat.add_0_r (length k' + 1)); rewrite drop_app_add' by (rewrite length_app; reflexivity); reflexivity.
Qed.

Lemma value_of_prefix k k' e : EQ ∉ k -> EQ ∉ k' -> has_prefix (k ++ [EQ]) e = true -> k <> k' -> value_of k' e = None.
Proof.
  intros Hk Hk' H Hne; apply has_prefix_spec in H as [v ->]; rewrite value_of_entry by assumption.
  rewrite bool_decide_eq_false_2 by exact Hne; reflexivity.
Qed.

Lemma env_values_cons k e env :
  env_values k (e :: env) = match value_of k e with Some v => v :: env_values k env | None => env_values k env end.
Proof. reflexivity. Qed.

Lemma setEnv_values env k v k' : EQ ∉ k -> EQ ∉ k' ->
  env_values k' (setEnv env k v) = if bool_decide (k = k') then v :: drop 1 (env_values k env) else env_values k' env.
Proof.
  intros Hk Hk'; induction env as [|e env IH]; cbn [setEnv].
  - rewrite env_values_cons, value_of_entry by assumption; case_bool_decide; reflexivity.
  - assert (Hv : has_prefix (k ++ [EQ]) e = false -> value_of k e = None) by (intros H; unfold value_of; rewrite H; reflexivity).
    destruct (has_prefix (k ++ [EQ]) e) eqn:Ep; rewrite !env_values_cons.
    + rewrite value_of_entry by assumption; case_bool_decide as E.
      * subst k'; unfold value_of; rewrite Ep; reflexivity.
      * rewrite (value_of_prefix k k') by assumption; reflexivity.
    + rewrite IH; case_bool_decide as E; [subst k'; rewrite Hv by reflexivity|]; reflexivity.
Qed.

Lemma setEnv_spec env k v : EQ ∉ k -> unique_keys env -> unique_keys (setEnv env k v) /\
  forall k', EQ ∉ k' -> env_value k' (setEnv env k v) = if bool_decide (k = k') then Some v else env_value k' env.
Proof.
  intros Hk Hu; split; intros k' Hk'; unfold env_value; rewrite setEnv_values by assumption; case_bool_decide; try reflexivity; try exact (Hu k' Hk');
    subst; pose proof (Hu k' Hk') as Hu'; destruct (env_values k' env) as [|? [|? ?]]; cbn in *; try reflexivity; lia.
Qed.

Lemma mergeEnv_spec extra : forall base, Forall (fun kv => EQ ∉ kv.1) extra -> NoDup extra.*1 -> unique_keys base ->
  unique_keys (mergeEnv base extra) /\
  (forall k v, (k, v) ∈ extra -> env_value k (mergeEnv base extra) = Some v) /\
  (forall k, EQ ∉ k -> k ∉ extra.*1 -> env_value k (mergeEnv base extra) = env_value k base).
Proof.
  induction extra as [|[k0 v0] extra IH]; intros base He Hd Hu; [split_and!; [exact Hu|intros ? ? H; inversion H|reflexivity]|].
  apply Forall_cons_1 in He as [H0 He]; cbn [fst] in H0; apply list.NoDup_cons in Hd as [Hn Hd].
  destruct (setEnv_spec base k0 v0 H0 Hu) as [Hu1 Hv1]; destruct (IH (setEnv base k0 v0) He Hd Hu1) as (Hu2 & Hin & Hout).
  split_and!; [exact Hu2| |].
  - intros k v [E|H]%elem_of_cons; [|exact (Hin k v H)]; simplify_eq; cbn [mergeEnv fold_left fst snd] in *.
    etrans; [apply Hout; assumption|]; rewrite Hv1, bool_decide_eq_true_2 by auto; reflexivity.
  - intros k Hk Hnk; cbn in Hnk; etrans; [apply Hout; [exact Hk|set_solver]|].
    rewrite Hv1, bool_decide_eq_false_2 by (auto; set_solver); reflexivity.
Qed.

(** The keys a file may set are ASCII, so no byte of them is an equals sign. *)
Lemma DecodeRune_below s : s <> [] -> (DecodeRune s).1 < 128 -> (DecodeRune s).2 = 1%nat /\ hd 0 s = (DecodeRune s).1.
Proof.
  destruct s as [|c s]; [congruence|]; intros _; unfold DecodeRune, cont, in_range, RuneError.
  repeat first [case_match | progress cbn]; try lia; auto; bool_to_prop; lia.
Qed.

Lemma runes_below s : forallb (fun rw => rw.1 <? 128) (runes s) = true -> s = map fst (runes s).
Proof.
  remember (length s) as n eqn:Hn; revert s Hn; induction n as [n IH] using lt_wf_ind; intros s -> H.
  destruct s as [|c s]; [reflexivity|]; rewrite (runes_step (c :: s)) in * by discriminate; cbn [forallb map] in *.
  apply andb_true_iff in H as [Hr H]; apply Z.ltb_lt in Hr; destruct (DecodeRune_below (c :: s)) as [Hw Hd]; [discriminate|exact Hr|].
  rewrite Hw in *; cbn [hd drop] in *; f_equal; [exact Hd|]; apply (IH (length s)); [cbn; lia|reflexivity|exact H].
Qed.

Lemma validEnvKey_plain key : validEnvKey key = true -> EQ ∉ key.
Proof.
  unfold validEnvKey; destruct (runes key) as [|[r w] rs] eqn:E; [discriminate|]; intros [H1 H2]%andb_true_iff.
  assert (Hall : forallb (fun rw => key_rest rw.1) (runes key) = true).
  { rewrite E; cbn; rewrite H2; unfold key_rest; rewrite H1; reflexivity. }
  assert (Hb : key = map fst (runes key)).
  { apply runes_below, forallb_forall; intros rw Hin; pose proof (proj1 (forallb_forall _ _) Hall rw Hin) as Hk.
    unfold key_rest, key_start, in_range in Hk; apply Z.ltb_lt; bool_to_prop; lia. }
  rewrite Hb; intros Hin; apply list_elem_of_In, in_map_iff in Hin as (rw & Hrw & Hin).
  pose proof (proj1 (forallb_forall _ _) Hall rw Hin) as Hk; cbv beta in Hk; rewrite Hrw in Hk; discriminate Hk.
Qed.

(** ** Reading the environment back *)

Lemma LastIndex_None s p : Contains p s = false -> LastIndex s p = None.
Proof.
  induction s as [|c s IH]; cbn [Contains LastIndex]; [rewrite orb_false_r; intros ->; reflexivity|].
  intros [H1 H2]%orb_false_iff; rewrite (IH H2), H1; reflexivity.
Qed.

Lemma LastIndex_app a c p d : Contains (c :: p) (p ++ d) = false -> LastIndex (a ++ (c :: p) ++ d) (c :: p) = Some (length a).
Proof.
  intros H; induction a as [|x a IH]; cbn [app LastIndex length].
  - rewrite LastIndex_None by exact H; rewrite app_comm_cons, has_prefix_app; reflexivity.
  - cbn [app] in IH; rewrite IH; reflexivity.
Qed.

Lemma Contains_skip c p w t : c ∉ w -> Contains (c :: p) (w ++ t) = Contains (c :: p) t.
Proof.
  induction w as [|x w IH]; intros Hw; [reflexivity|]; cbn [app Contains has_prefix].
  rewrite (proj2 (Z.eqb_neq c x)) by set_solver; apply IH; set_solver.
Qed.

(** What [env -0] prints. *)
Definition env0 (entries : list (list Z)) : list Z := concat (map (fun e => e ++ [0]) entries).

Lemma split_env0 entries : Forall (fun e => 0 ∉ e) entries -> split_byte 0 (env0 entries) = entries ++ [[]].
Proof.
  induction 1 as [|e es He _ IH]; [reflexivity|]; cbn [env0 map concat app]; rewrite <- app_assoc; cbn [app].
  rewrite split_byte_app by exact He; unfold env0 in IH; rewrite IH; reflexivity.
Qed.

Definition env_entry (e : list Z) : Prop := 0 ∉ e /\ exists key value, e = key ++ EQ :: value.

Lemma Contains_app_byte c a b : Contains [c] (a ++ c :: b) = true.
Proof.
  induction a as [|x a IH]; cbn [app Contains has_prefix]; [rewrite Z.eqb_refl; reflexivity|].
  cbn [app Contains] in IH; rewrite IH, orb_true_r; reflexivity.
Qed.

Lemma entry_captured e : env_entry e -> captured_entry e = true.
Proof.
  intros (_ & k & v & ->); unfold captured_entry; rewrite Contains_app_byte, andb_true_r, bool_decide_eq_false_2; [reflexivity|destruct k; discriminate].
Qed.

Lemma captured_all entries : Forall env_entry entries -> List.filter captured_entry (entries ++ [[]]) = entries.
Proof.
  induction 1 as [|e es He _ IH]; [reflexivity|]; cbn [app List.filter]; rewrite (entry_captured _ He), IH; reflexivity.
Qed.

Lemma capture_roundtrip noise entries : Forall env_entry entries -> Contains marker (10 :: env0 entries) = false ->
  parseCapturedEnv (noise ++ marker ++ env0 entries) = Some entries.
Proof.
  intros He Hm; unfold parseCapturedEnv.
  assert (Hi : LastIndex (noise ++ marker ++ env0 entries) marker = Some (length noise)).
  { unfold marker; rewrite app_comm_cons; apply LastIndex_app; rewrite <- app_assoc; cbn [app].
    rewrite Contains_skip; [exact Hm|]; vm_compute; set_solver. }
  rewrite Hi, app_assoc, drop_app_length'; [|rewrite length_app; reflexivity].
  rewrite split_env0, captured_all; [reflexivity|exact He|]; eapply List.Forall_impl; [|exact He]; intros e [H _]; exact H.
Qed.

(** ** Fields and redaction *)

Lemma pieces_fuel_enough n m s : (length s <= n)%nat -> (length s <= m)%nat -> pieces_fuel n s = pieces_fuel m s.
Proof.
  revert m s; induction n as [|n IH]; intros [|m] s Hn Hm; destruct s as [|c s]; try reflexivity; cbn [length] in *; try lia.
  pose proof (DecodeRune_width (c :: s)) as Hw; specialize (Hw ltac:(discriminate)).
  cbn [pieces_fuel]; destruct (DecodeRune (c :: s)) as [r w] eqn:E; cbn [snd] in Hw.
  f_equal; apply IH; rewrite length_drop; cbn [length] in *; lia.
Qed.

Lemma pieces_step s : s <> [] -> pieces s = ((DecodeRune s).1, take (DecodeRune s).2 s) :: pieces (drop (DecodeRune s).2 s).
Proof.
  intros Hs; pose proof (DecodeRune_width s Hs) as Hw; destruct s as [|c s]; [congruence|]; unfold pieces at 1; cbn [length pieces_fuel].
  destruct (DecodeRune (c :: s)) as [r w] eqn:E; cbn [fst snd] in *; f_equal.
  apply pieces_fuel_enough; rewrite length_drop; cbn [length] in *; lia.
Qed.

(** An ASCII byte ends whatever rune stands before it. *)
Lemma DecodeRune_ascii s c t : s <> [] -> 0 <= c < 128 -> DecodeRune (s ++ c :: t) = DecodeRune s.
Proof.
  intros Hs Hc; destruct s as [|c0 s]; [congruence|]; cbn [app].
  assert (Hcont : cont c = false) by (unfold cont, in_range; lia).
  assert (Hlow : forall lo hi, 128 <= lo -> in_range lo hi c = false) by (intros; unfold in_range; lia).
  unfold DecodeRune; destruct (c0 <? 128); [reflexivity|].
  destruct (in_range 194 223 c0); [destruct s; cbn [app]; rewrite ?Hcont; reflexivity|].
  destruct (in_range 224 239 c0).
  { destruct s as [|c1 [|c2 s]]; cbn [app]; rewrite ?Hcont, ?andb_false_r; try reflexivity.
    destruct t; [reflexivity|]; rewrite Hlow by (destruct (c0 =? 224); lia); reflexivity. }
  destruct (in_range 240 244 c0); [|reflexivity].
  destruct s as [|c1 [|c2 [|c3 s]]]; cbn [app]; rewrite ?Hcont, ?andb_false_r; try reflexivity.
  - destruct t as [|t1 [|t2 t]]; try reflexivity; rewrite Hlow by (destruct (c0 =? 240); lia); reflexivity.
  - destruct t as [|t1 t]; [reflexivity|]; rewrite ?andb_false_r, ?andb_false_l; reflexivity.
Qed.

Lemma pieces_ascii s c t : 0 <= c < 128 -> pieces (s ++ c :: t) = pieces s ++ (c, [c]) :: pieces t.
Proof.
  intros Hc; remember (length s) as n eqn:Hn; revert s Hn; induction n as [n IH] using lt_wf_ind; intros s ->.
  destruct s as [|c0 s]; cbn [app].
  - rewrite pieces_step by discriminate; unfold DecodeRune; rewrite (proj2 (Z.ltb_lt c 128)) by lia; reflexivity.
  - pose proof (DecodeRune_width (c0 :: s) ltac:(discriminate)) as Hw.
    rewrite (pieces_step (c0 :: s)), (pieces_step (c0 :: s ++ c :: t)) by discriminate.
    rewrite app_comm_cons, DecodeRune_ascii by (auto; discriminate); rewrite take_app_le, drop_app_le by lia; cbn [app]; f_equal.
    apply (IH (length (drop (DecodeRune (c0 :: s)).2 (c0 :: s)))); [rewrite length_drop; cbn [length] in *; lia|reflexivity].
Qed.

Lemma runes_concat s : concat (map snd (pieces s)) = s.
Proof.
  remember (length s) as n eqn:Hn; revert s Hn; induction n as [n IH] using lt_wf_ind; intros s ->.
  destruct s as [|c s]; [reflexivity|]; pose proof (DecodeRune_width (c :: s) ltac:(discriminate)) as Hw.
  rewrite pieces_step by discriminate; cbn [map concat snd].
  rewrite (IH (length (drop (DecodeRune (c :: s)).2 (c :: s)))); [apply take_drop|rewrite length_drop; cbn [length] in *; lia|reflexivity].
Qed.

Lemma error_rune s : is_error (DecodeRune s) = true -> DecodeRune s = (RuneError, 1%nat).
Proof.
  unfold is_error; destruct (DecodeRune s) as [r w]; cbn [fst snd]; intros [Hr Hw]%andb_true_iff.
  apply Z.eqb_eq in Hr; apply bool_decide_eq_true in Hw; subst; reflexivity.
Qed.

Lemma DecodeRune_within s x y : s <> [] -> drop (DecodeRune s).2 s = x ++ y -> DecodeRune (take (DecodeRune s).2 s ++ x) = DecodeRune s.
Proof.
  intros Hs Hx; destruct (is_error (DecodeRune s)) eqn:E; [|apply DecodeRune_take; assumption].
  pose proof (DecodeRune_width s Hs) as Hw; pose proof (error_rune s E) as Er; set (u := take (DecodeRune s).2 s ++ x).
  assert (Hu : u <> []).
  { subst u; rewrite Er; destruct s; [congruence|]; discriminate. }
  assert (Hsu : s = u ++ y) by (subst u; rewrite <- app_assoc, <- Hx, take_drop; reflexivity).
  destruct (is_error (DecodeRune u)) eqn:Eu; [rewrite Er; apply error_rune, Eu|].
  rewrite Hsu, (DecodeRune_app u y) in E by (apply good_full; assumption); congruence.
Qed.

Lemma pieces_prefix ps : forall s qs, pieces s = ps ++ qs -> pieces (concat (map snd ps)) = ps.
Proof.
  induction ps as [|p ps IH]; intros s qs H; [reflexivity|].
  assert (Hs : s <> []) by (intros ->; discriminate H).
  pose proof (DecodeRune_width s Hs) as Hw; rewrite pieces_step in H by exact Hs; injection H as Hp H; subst p; cbn [map concat snd].
  assert (Hd : drop (DecodeRune s).2 s = concat (map snd ps) ++ concat (map snd qs)).
  { rewrite <- (runes_concat (drop _ s)), H, map_app, concat_app; reflexivity. }
  assert (Hne : take (DecodeRune s).2 s ++ concat (map snd ps) <> []).
  { destruct s; [congruence|]; destruct (DecodeRune (z :: s)).2; [lia|discriminate]. }
  rewrite pieces_step, (DecodeRune_within s _ _ Hs Hd) by exact Hne.
  rewrite take_app_length', drop_app_length' by (rewrite length_take; lia); f_equal; exact (IH _ _ H).
Qed.

(** A field: not empty, and none of its runes is white space. *)
Definition solid (w : list Z) : Prop := w <> [] /\ Forall (fun p => IsSpace p.1 = false) (pieces w).

Lemma run_solid run s qs : pieces s = run ++ qs -> Forall (fun p => IsSpace p.1 = false) run -> concat (map snd run) <> [] ->
  solid (concat (map snd run)).
Proof. intros H Hr Hne; split; [exact Hne|]; rewrite (pieces_prefix _ _ _ H); exact Hr. Qed.

Lemma fold_solid s : let '(cur, done) := foldr add_field ([], []) (pieces s) in
  Forall solid done /\ exists run qs, pieces s = run ++ qs /\ cur = concat (map snd run) /\ Forall (fun p => IsSpace p.1 = false) run.
Proof.
  remember (length s) as n eqn:Hn; revert s Hn; induction n as [n IH] using lt_wf_ind; intros s ->.
  destruct s as [|c s]; [cbn; split; [constructor|exists [], []; auto]|].
  pose proof (DecodeRune_width (c :: s) ltac:(discriminate)) as Hw; rewrite pieces_step by discriminate.
  set (t := drop (DecodeRune (c :: s)).2 (c :: s)); cbn [foldr].
  specialize (IH (length t)); specialize (IH ltac:(subst t; rewrite length_drop; cbn [length] in *; lia) t eq_refl).
  destruct (foldr add_field ([], []) (pieces t)) as [cur done]; destruct IH as (Hd & run & qs & Ht & -> & Hr).
  unfold add_field; cbn [fst]; destruct (IsSpace (DecodeRune (c :: s)).1) eqn:E.
  - split; [|exists []; eexists; auto].
    destruct (concat (map snd run)) as [|x l] eqn:Ec; [exact Hd|]; constructor; [|exact Hd].
    rewrite <- Ec; apply (run_solid run t qs); [exact Ht|exact Hr|rewrite Ec; discriminate].
  - split; [exact Hd|]; eexists (_ :: run), qs; rewrite Ht; split; [reflexivity|split; [reflexivity|constructor; assumption]].
Qed.

Lemma Fields_solid s : Forall solid (Fields s).
Proof.
  pose proof (fold_solid s) as H; unfold Fields; destruct (foldr add_field ([], []) (pieces s)) as [cur done].
  destruct H as (Hd & run & qs & Hs & -> & Hr); destruct (concat (map snd run)) as [|x l] eqn:E; [exact Hd|].
  constructor; [|exact Hd]; rewrite <- E; apply (run_solid run s qs); [exact Hs|exact Hr|rewrite E; discriminate].
Qed.

Lemma foldr_run run cur done : Forall (fun p => IsSpace p.1 = false) run -> foldr add_field (cur, done) run = (concat (map snd run) ++ cur, done).
Proof.
  induction 1 as [|p run Hp _ IH]; [reflexivity|]; cbn [foldr]; rewrite IH; unfold add_field; rewrite Hp; cbn [map concat].
  rewrite app_assoc; reflexivity.
Qed.

Lemma Fields_single w : solid w -> Fields w = [w].
Proof.
  intros [Hne Hw]; unfold Fields; rewrite foldr_run by exact Hw; rewrite app_nil_r, runes_concat; destruct w; [congruence|reflexivity].
Qed.

Lemma Fields_cons w rest : solid w -> Fields (w ++ 32 :: rest) = w :: Fields rest.
Proof.
  intros [Hne Hw]; unfold Fields; rewrite pieces_ascii by lia; rewrite foldr_app; cbn [foldr].
  destruct (foldr add_field ([], []) (pieces rest)) as [cur done]; unfold add_field at 2; cbn [fst]; change (IsSpace 32) with true; cbn iota.
  rewrite foldr_run by exact Hw; rewrite app_nil_r, runes_concat; destruct w; [congruence|reflexivity].
Qed.

Lemma Fields_join ws : Forall solid ws -> Fields (join_space ws) = ws.
Proof.
  induction 1 as [|w ws Hw Hws IH]; [reflexivity|]; destruct ws as [|v ws]; [apply Fields_single, Hw|].
  change (join_space (w :: v :: ws)) with (w ++ 32 :: join_space (v :: ws)); rewrite Fields_cons, IH by exact Hw; reflexivity.
Qed.

Section redaction.
Context `{W : SetupWorld}.

Lemma Cut_spec c s a b : Cut c s = Some (a, b) -> s = a ++ c :: b.
Proof.
  revert a; induction s as [|x s IH]; intros a H; [discriminate|]; cbn in H; destruct (Z.eqb_spec x c) as [->|Hx]; [simplify_eq; reflexivity|].
  destruct (Cut c s) as [[a1 b1]|]; [|discriminate]; cbn in H; simplify_eq; cbn; f_equal; apply IH; reflexivity.
Qed.

Lemma redacted_solid : forall key, Forall (fun p => IsSpace p.1 = false) (pieces key) -> solid (key ++ EQ :: redacted_value).
Proof.
  intros key Hk; split; [destruct key; discriminate|]; rewrite pieces_ascii by (unfold EQ; lia).
  apply Forall_app; split; [exact Hk|]; constructor; [reflexivity|]; vm_compute; repeat constructor.
Qed.

Lemma redact_solid word w : solid w -> solid (redact_field word w).
Proof.
  intros Hw; unfold redact_field; destruct (Cut EQ w) as [[key value]|] eqn:E; [|exact Hw]; destruct (Contains _ _); [|exact Hw].
  apply redacted_solid; destruct Hw as [_ Hw]; rewrite (Cut_spec _ _ _ _ E), pieces_ascii in Hw by (unfold EQ; lia).
  apply Forall_app in Hw as [Hw _]; exact Hw.
Qed.

Lemma redactAssignments_fields s word : Fields (redactAssignments s word) = map (redact_field word) (Fields s).
Proof.
  unfold redactAssignments; destruct (map (redact_field word) (Fields s)) as [|w ws] eqn:E.
  - destruct (Fields s); [reflexivity|discriminate].
  - rewrite <- E; apply Fields_join; clear E.
    pose proof (Fields_solid s) as Hs; induction Hs as [|f fs Hf _ IH]; [constructor|]; constructor; [apply redact_solid, Hf|exact IH].
Qed.
End redaction.

(** ** Calls that share a run *)

(** singleflight.Group: per key the run under way (the base it was given and the path) and
    the callers that wait for it; and what callers were answered. *)
Record flight := MkFlight {
  fl_running : gmap (list Z) (list Z * list (list Z) * list nat);
  fl_answers : list (nat * (list Z + list (list Z))) }.

Inductive flight_step :=
| Enter (caller : nat) (repoPath : list Z) (baseEnv : option (list (list Z)))  (* [Prepare] up to the wait *)
| Land (key : list Z).  (* the run of a key ends: everyone who waits gets its answer *)

Section flights.
Context `{W : SetupWorld}.

Definition flight_do (o : setup_options) (f : flight) (st : flight_step) : flight :=
  match st with
  | Enter caller repoPath baseEnv =>
      let base := setup_base o baseEnv in
      match prepare_enter o repoPath base with
      | inl answer => MkFlight (fl_running f) (fl_answers f ++ [(caller, answer)])
      | inr (repo, path) =>
          match fl_running f !! repo with
          | Some (path', base', waiting) => MkFlight (<[repo := (path', base', waiting ++ [caller])]> (fl_running f)) (fl_answers f)
          | None => MkFlight (<[repo := (path, base, [caller])]> (fl_running f)) (fl_answers f)
          end
      end
  | Land key =>
      match fl_running f !! key with
      | Some (path, base, waiting) =>
          let answer := prepareOnce o key path base in
          MkFlight (delete key (fl_running f)) (fl_answers f ++ map (fun c => (c, answer)) waiting)
      | None => f
      end
  end.

Definition fly (o : setup_options) (steps : list flight_step) : flight := foldl (flight_do o) (MkFlight ∅ []) steps.

(** Who called with what. *)
Definition called (steps : list flight_step) (caller : nat) (repoPath : list Z) (baseEnv : option (list (list Z))) : Prop :=
  Enter caller repoPath baseEnv ∈ steps.

Definition flight_ok (o : setup_options) (baseEnv : option (list (list Z))) (steps : list flight_step) (f : flight) : Prop :=
  (forall c a, (c, a) ∈ fl_answers f -> exists repoPath, called steps c repoPath baseEnv /\ a = Prepare o repoPath baseEnv) /\
  (forall key path base waiting, fl_running f !! key = Some (path, base, waiting) -> base = setup_base o baseEnv /\ waiting <> [] /\
     forall c, c ∈ waiting -> exists repoPath, called steps c repoPath baseEnv /\ prepare_enter o repoPath base = inr (key, path)).

Lemma called_snoc steps st c r b : called steps c r b -> called (steps ++ [st]) c r b.
Proof. unfold called; set_solver. Qed.

Lemma resolve_path_of_repo r r' path path' cfg repo : resolveConfigPath r cfg = inr (repo, path) -> resolveConfigPath r' cfg = inr (repo, path') -> path = path'.
Proof. unfold resolveConfigPath; repeat case_match; intros; simplify_eq; congruence. Qed.

Lemma enter_path_of_repo o r r' base base' repo path path' :
  prepare_enter o r base = inr (repo, path) -> prepare_enter o r' base' = inr (repo, path') -> path = path'.
Proof.
  unfold prepare_enter; destruct (so_Enabled o); cbn [negb]; [|discriminate].
  destruct (resolveConfigPath r (so_ConfigPath o)) as [?|[repo1 path1]] eqn:E1; [discriminate|].
  destruct (resolveConfigPath r' (so_ConfigPath o)) as [?|[repo2 path2]] eqn:E2; [discriminate|].
  destruct (Stat path1), (Stat path2); intros; simplify_eq; eapply resolve_path_of_repo; eassumption.
Qed.
(** Everyone who called has been answered or waits. *)
Definition entered (st : flight_step) : option nat := match st with Enter c _ _ => Some c | Land _ => None end.
Definition waiting_for (m : gmap (list Z) (list Z * list (list Z) * list nat)) : list nat :=
  concat (map (fun kv => kv.2.2) (map_to_list m)).

Lemma waiting_insert m k v : m !! k = None -> waiting_for (<[k := v]> m) ≡ₚ v.2 ++ waiting_for m.
Proof. intros H; unfold waiting_for; rewrite (map_to_list_insert m k v H); reflexivity. Qed.

Lemma waiting_delete m k v : m !! k = Some v -> waiting_for m ≡ₚ v.2 ++ waiting_for (delete k m).
Proof. intros H; unfold waiting_for; rewrite <- (map_to_list_delete m k v H); reflexivity. Qed.

Lemma flight_callers o st f : (fl_answers (flight_do o f st)).*1 ++ waiting_for (fl_running (flight_do o f st)) ≡ₚ
  option_list (entered st) ++ (fl_answers f).*1 ++ waiting_for (fl_running f).
Proof.
  destruct st as [c r b|key]; cbn [flight_do entered option_list].
  - destruct (prepare_enter o r _) as [a|[repo path]]; cbn [fl_answers fl_running].
    + rewrite fmap_app; cbn; solve_Permutation.
    + destruct (fl_running f !! repo) as [[[p b'] ws]|] eqn:E; cbn [fl_answers fl_running].
      * rewrite <- insert_delete_eq, waiting_insert by apply lookup_delete_eq.
        rewrite (waiting_delete (fl_running f) repo _ E); cbn; solve_Permutation.
      * rewrite waiting_insert by exact E; cbn; solve_Permutation.
  - destruct (fl_running f !! key) as [[[p b'] ws]|] eqn:E; cbn [fl_answers fl_running]; [|reflexivity].
    rewrite (waiting_delete (fl_running f) key _ E), fmap_app; cbn.
    replace (fmap fst (map (fun c => (c, prepareOnce o key p b')) ws)) with ws by (clear E; induction ws as [|w ws IH]; [reflexivity|cbn; f_equal; exact IH]).
    solve_Permutation.
Qed.
Lemma flight_step_ok o baseEnv steps st f : (forall c r b, st = Enter c r b -> b = baseEnv) ->
  flight_ok o baseEnv steps f -> flight_ok o baseEnv (steps ++ [st]) (flight_do o f st).
Proof.
  intros Hst [Ha Hr].
  assert (Ha' : forall c a, (c, a) ∈ fl_answers f -> exists repoPath, called (steps ++ [st]) c repoPath baseEnv /\ a = Prepare o repoPath baseEnv).
  { intros c a Hin; destruct (Ha c a Hin) as (r & Hc & Ea); eauto using called_snoc. }
  assert (Hr' : forall key path base waiting, fl_running f !! key = Some (path, base, waiting) -> base = setup_base o baseEnv /\ waiting <> [] /\
    forall c, c ∈ waiting -> exists repoPath, called (steps ++ [st]) c repoPath baseEnv /\ prepare_enter o repoPath base = inr (key, path)).
  { intros key path base ws Hk; destruct (Hr _ _ _ _ Hk) as (Hb & Hn & Hw); split_and!; [exact Hb|exact Hn|]; intros c Hc.
    destruct (Hw c Hc) as (r & Hcl & He); eauto using called_snoc. }
  clear Ha Hr; destruct st as [c r b|key]; cbn [flight_do].
  - rewrite (Hst c r b eq_refl) in *; clear Hst.
    assert (Hc : called (steps ++ [Enter c r baseEnv]) c r baseEnv) by (unfold called; set_solver).
    destruct (prepare_enter o r (setup_base o baseEnv)) as [a|[repo path]] eqn:Ee.
    + split; [|exact Hr']; cbn [fl_answers]; intros c' a' [Hin|Hin%list_elem_of_singleton]%elem_of_app; [exact (Ha' _ _ Hin)|].
      simplify_eq; exists r; split; [exact Hc|]; unfold Prepare; rewrite Ee; reflexivity.
    + destruct (fl_running f !! repo) as [[[path' base'] ws]|] eqn:Er; (split; [exact Ha'|]); cbn [fl_running];
        intros key p bs wt [[<- Hk]|[_ Hk]]%lookup_insert_Some; try exact (Hr' _ _ _ _ Hk); simplify_eq.
      * destruct (Hr' _ _ _ _ Er) as (-> & Hn & Hw); split_and!; [reflexivity|destruct ws; discriminate|]; intros c' [Hin|Hin%list_elem_of_singleton]%elem_of_app; [exact (Hw c' Hin)|subst c'].
        exists r; split; [exact Hc|]; rewrite Ee; do 2 f_equal.
        destruct ws as [|w ws]; [congruence|destruct (Hw w ltac:(set_solver)) as (r' & _ & He'); exact (enter_path_of_repo _ _ _ _ _ _ _ _ Ee He')].
      * split_and!; [reflexivity|discriminate|]; intros c' Hin%list_elem_of_singleton; subst; eauto.
  - destruct (fl_running f !! key) as [[[path base] ws]|] eqn:Er; [|split; assumption]; destruct (Hr' _ _ _ _ Er) as (-> & _ & Hw).
    split; cbn [fl_answers fl_running].
    + intros c a [Hin|Hin]%elem_of_app; [exact (Ha' _ _ Hin)|]; apply list_elem_of_In, in_map_iff in Hin as (c' & Heq & Hin); simplify_eq.
      destruct (Hw c (proj2 (list_elem_of_In _ _) Hin)) as (r & Hc & He); exists r; split; [exact Hc|]; unfold Prepare; rewrite He; reflexivity.
    + intros key' p bs wt [_ Hk]%lookup_delete_Some; exact (Hr' _ _ _ _ Hk).
Qed.
End flights.

(** ** What repository setup promises *)

Section contract.
Context `{W : SetupWorld} (Hlinks : symlinks_rooted) (Hwd : forall d, Getwd = Some d -> has_prefix [SEP] d = true).

(** A decoded file's map has each key once. *)
Definition map_files : Prop := forall p c, read_file p = SetupFile c -> NoDup (fc_Env c).*1.

(** A run of the set-up of a repository: its file lies in it, the shell and the limit are
    admissible, and the shell sees the base environment overlaid with the file's. *)
Record good_run (o : setup_options) (base env : list (list Z)) (ds ws : list (list Z)) (cfg : fileConfig) (t : Duration) (E : list (list Z)) : Prop := {
  gr_file : read_file (SEP :: join_path (ds ++ ws)) = SetupFile cfg;
  gr_inside : Forall component (ds ++ ws);
  gr_time : 0 < t <= so_MaxTimeout o;
  gr_set k v : (k, v) ∈ fc_Env cfg -> env_value k E = Some v;
  gr_kept k : EQ ∉ k -> k ∉ (fc_Env cfg).*1 -> env_value k E = env_value k base;
  gr_ran : exists shell out, (shell = chars "bash" \/ shell = chars "sh") /\
    run_shell shell (setupScript (fc_Setup cfg)) (SEP :: join_path ds) E t = RunDone out /\ parseCapturedEnv out = Some env }.

Lemma timeout_bounds raw def max t : 0 < def <= max -> effectiveTimeout raw def max = inr t -> 0 < t <= max.
Proof.
  unfold effectiveTimeout; intros Hd; destruct raw as [|c raw]; [intros H; simplify_eq; lia|].
  destruct (time_ParseDuration _) as [d|]; [|discriminate].
  destruct (Z.leb_spec d 0); [discriminate|]; destruct (Z.ltb_spec max d); [discriminate|]; intros H1; simplify_eq; lia.
Qed.

Lemma loadConfig_spec path cfg : loadConfig path = inr cfg -> exists c, read_file path = SetupFile c /\
  (fc_Shell cfg = chars "bash" \/ fc_Shell cfg = chars "sh") /\ fc_Setup cfg = fc_Setup c /\ fc_Env cfg = fc_Env c /\
  fc_Timeout cfg = fc_Timeout c /\ Forall (fun kv => EQ ∉ kv.1) (fc_Env c).
Proof.
  unfold loadConfig; destruct (read_file path) as [| |c]; try discriminate; intros H; exists c; split; [reflexivity|].
  set (shell := match fc_Shell c with [] => chars "bash" | s => s end) in H.
  destruct (fc_Version c =? 1); [|discriminate]; cbn [negb] in H.
  destruct (bool_decide (shell = chars "bash") || bool_decide (shell = chars "sh")) eqn:Es; [|discriminate]; cbn [negb] in H.
  destruct (existsb _ (fc_Setup c)); [discriminate|]; destruct (forallb _ (fc_Env c)) eqn:Ek; [|discriminate]; cbn [negb] in H.
  injection H as <-; cbn; apply orb_true_iff in Es; rewrite !bool_decide_eq_true in Es; split_and!; auto.
  apply list.Forall_forall; intros kv Hin; apply validEnvKey_plain.
  exact (proj1 (forallb_forall _ _) Ek kv (proj1 (list_elem_of_In _ _) Hin)).
Qed.

(** A session's environment after repository setup is the one it was given, or the one that
    the repository's commands left: then the file lies inside the repository, the shell is
    bash or sh, the time limit is positive and within the maximum, and the shell saw every
    variable of the file with the file's value and every other one with its own, in whatever
    order Go ranges over the file's map. *)
Theorem setup_contract (o : setup_options) (repoPath : list Z) (base env : list (list Z)) :
  map_files -> 0 < so_DefaultTimeout o <= so_MaxTimeout o -> unique_keys base ->
  Prepare o repoPath (Some base) = inr env ->
  env = base \/ exists ds ws cfg t E, good_run o base env ds ws cfg t E.
Proof.
  intros Hm Ho Hu; unfold Prepare, setup_base, prepare_enter.
  destruct (so_Enabled o); cbn [negb]; [|intros H; simplify_eq; auto].
  destruct (resolveConfigPath repoPath (so_ConfigPath o)) as [e|[repo path]] eqn:Er; [discriminate|].
  destruct (Stat path); try discriminate; [|intros H; simplify_eq; auto]; right.
  destruct (resolve_inside Hlinks Hwd _ _ _ _ Er) as (ds & ws & -> & -> & Hc).
  unfold prepareOnce in H; destruct (loadConfig _) as [e|cfg] eqn:El; [discriminate|].
  destruct (loadConfig_spec _ _ El) as (c & Hf & Hs & Hset & Henv & Ht & Hk).
  destruct (effectiveTimeout _ _ _) as [e|t] eqn:Et; [discriminate|]; apply (timeout_bounds _ _ _ _ Ho) in Et.
  destruct (run_shell _ _ _ _ _) as [out|out err|out] eqn:Erun; try discriminate.
  destruct (parseCapturedEnv out) as [env'|] eqn:Ep; [|discriminate]; simplify_eq.
  destruct (mergeEnv_spec (fc_Env c) base Hk (Hm _ _ Hf) Hu) as (_ & Hin & Hout).
  rewrite Hset, Henv in Erun; exists ds, ws, c, t, (mergeEnv base (fc_Env c)); split; try assumption; eauto 10.
Qed.
End contract.

(** The environment that a set-up leaves is read back exactly as [env -0] printed it,
    whatever was printed before, the marker included, unless a value holds the marker. *)
Theorem captured_environment (noise : list Z) (entries : list (list Z)) :
  Forall env_entry entries -> Contains marker (10 :: env0 entries) = false ->
  parseCapturedEnv (noise ++ marker ++ env0 entries) = Some entries.
Proof. apply capture_roundtrip. Qed.

(** What is left of a field of a failed run's output. *)
Definition hide_field `{SetupWorld} (field : list Z) : list Z :=
  match Cut EQ field with
  | Some (key, _) => if existsb (fun word => Contains word (ToUpper key)) secret_words then key ++ EQ :: redacted_value else field
  | None => field
  end.

Lemma Cut_key_absent c s a b : Cut c s = Some (a, b) -> c ∉ a.
Proof.
  revert a; induction s as [|x s IH]; intros a H; [discriminate|]; cbn in H; destruct (Z.eqb_spec x c) as [->|Hx]; [simplify_eq; set_solver|].
  destruct (Cut c s) as [[a1 b1]|]; [|discriminate]; cbn in H; simplify_eq; specialize (IH a1 eq_refl); set_solver.
Qed.

Lemma redact_pass `{SetupWorld} key value words : EQ ∉ key ->
  fold_left (fun f w => redact_field w f) words (key ++ EQ :: value) =
  if existsb (fun word => Contains word (ToUpper key)) words then key ++ EQ :: redacted_value else key ++ EQ :: value.
Proof.
  intros Hk; revert value; induction words as [|w words IH]; intros value; [reflexivity|]; cbn [fold_left existsb].
  unfold redact_field at 2; rewrite Cut_absent by exact Hk; destruct (Contains w (ToUpper key)); cbn [orb]; rewrite IH; [destruct (existsb _ _)|]; reflexivity.
Qed.

Lemma redact_passes `{SetupWorld} words s : Fields (fold_left redactAssignments words s) = map (fun f => fold_left (fun f w => redact_field w f) words f) (Fields s).
Proof.
  revert s; induction words as [|w words IH]; intros s; cbn [fold_left]; [rewrite map_id; reflexivity|].
  rewrite IH, redactAssignments_fields, map_map; reflexivity.
Qed.

(** In what a failed set-up reports, each white-space separated assignment whose name
    contains TOKEN, SECRET, PASSWORD or API_KEY in any case has lost its value, and every
    other field is as it was. *)
Theorem setup_redaction `{SetupWorld} (out : list Z) : Fields (defaultRedact out) = map hide_field (Fields out).
Proof.
  unfold defaultRedact; rewrite redact_passes; apply map_ext; intros f; unfold hide_field.
  destruct (Cut EQ f) as [[key value]|] eqn:E.
  - rewrite (Cut_spec _ _ _ _ E); apply redact_pass, (Cut_key_absent _ _ _ _ E).
  - assert (Hf : forall words, fold_left (fun f w => redact_field w f) words f = f); [|apply Hf].
    intros words; induction words as [|w words IH]; [reflexivity|]; cbn [fold_left]; unfold redact_field at 2; rewrite E; exact IH.
Qed.

(** Sharing a run of the set-up is invisible: when the callers hand in the same base, each is
    answered what its own call would have answered alone, every caller is answered once or
    waits, and the end of a run answers all that wait for it. *)
Theorem shared_setup_invisible `{SetupWorld} (o : setup_options) (baseEnv : option (list (list Z))) (steps : list flight_step) :
  (forall c r b, Enter c r b ∈ steps -> b = baseEnv) ->
  let f := fly o steps in
  (forall c a, (c, a) ∈ fl_answers f -> exists repoPath, Enter c repoPath baseEnv ∈ steps /\ a = Prepare o repoPath baseEnv) /\
  (fl_answers f).*1 ++ waiting_for (fl_running f) ≡ₚ omap entered steps /\
  forall key p b ws, fl_running f !! key = Some (p, b, ws) -> forall c, c ∈ ws ->
    (c, prepareOnce o key p b) ∈ fl_answers (flight_do o f (Land key)).
Proof.
  intros Hb f.
  assert (Hf : flight_ok o baseEnv steps f /\ (fl_answers f).*1 ++ waiting_for (fl_running f) ≡ₚ omap entered steps).
  { subst f; unfold fly; induction steps as [|st steps IH] using rev_ind.
    - split; [split; [intros ? ? Hin; inversion Hin|intros ? ? ? ? Hk; cbn in Hk; rewrite lookup_empty in Hk; discriminate]|reflexivity].
    - rewrite foldl_app; cbn [foldl]; destruct IH as [IH1 IH2]; [intros c r b Hin; apply (Hb c r b); set_solver|].
      split; [apply flight_step_ok; [intros c r b ->; apply (Hb c r b); set_solver|exact IH1]|].
      rewrite flight_callers, IH2, omap_app; cbn; destruct (entered st); cbn; solve_Permutation. }
  destruct Hf as [[Ha _] Hp]; split_and!; [exact Ha|exact Hp|].
  intros key p b ws Hk c Hc; cbn [flight_do]; rewrite Hk; cbn [fl_answers]; apply elem_of_app; right.
  apply list_elem_of_In, in_map_iff; exists c; split; [reflexivity|apply list_elem_of_In, Hc].
Qed.

(** ** A concrete repository *)

Definition demo_file : fileConfig := MkFile 1 [] [chars "make deps"] [(chars "MODE", chars "ci")] (chars "30s").

#[local] Instance demo_world : SetupWorld := {
  Getwd := Some (chars "/work"); Environ := []; EvalSymlinks _ := None; Stat _ := Present; read_file _ := SetupFile demo_file;
  run_shell _ _ _ env _ := RunDone (chars "building" ++ marker ++ env0 env); upper _ := [] }.

Definition demo_options : setup_options := MkOptions true (chars ".bridgectl.yaml") (2 * Minute) (15 * Minute) None None.
Definition demo_base : list (list Z) := [chars "HOME=/root"; chars "MODE=dev"].

Lemma demo_unique : unique_keys demo_base.
Proof.
  intros key Hk; unfold demo_base; rewrite !env_values_cons.
  assert (H1 : value_of key (chars "HOME=/root") = if bool_decide (chars "HOME" = key) then Some (chars "/root") else None).
  { apply (value_of_entry (chars "HOME") key (chars "/root")); [vm_compute; set_solver|exact Hk]. }
  assert (H2 : value_of key (chars "MODE=dev") = if bool_decide (chars "MODE" = key) then Some (chars "dev") else None).
  { apply (value_of_entry (chars "MODE") key (chars "dev")); [vm_compute; set_solver|exact Hk]. }
  rewrite H1, H2; repeat case_bool_decide; cbn; try lia; subst; discriminate.
Qed.

Lemma setup_contract_witness :
  Prepare demo_options (chars "/work/repo") (Some demo_base) = inr [chars "HOME=/root"; chars "MODE=ci"] /\
  exists ds ws cfg t E, good_run demo_options demo_base [chars "HOME=/root"; chars "MODE=ci"] ds ws cfg t E.
Proof.
  assert (H : Prepare demo_options (chars "/work/repo") (Some demo_base) = inr [chars "HOME=/root"; chars "MODE=ci"]) by (vm_compute; reflexivity).
  split; [exact H|].
  destruct (setup_contract (W := demo_world) ltac:(intros p q Hq; discriminate Hq) ltac:(intros d Hd; injection Hd as <-; reflexivity)
    demo_options (chars "/work/repo") demo_base [chars "HOME=/root"; chars "MODE=ci"]) as [Hb|Hr];
    [intros p c Hc; injection Hc as <-; vm_compute; repeat constructor; set_solver|vm_compute; split; [reflexivity|discriminate]|exact demo_unique|exact H| |exact Hr].
  vm_compute in Hb; discriminate Hb.
Defined.

Lemma captured_environment_witness :
  parseCapturedEnv (chars "building" ++ marker ++ env0 [chars "HOME=/root"; chars "A=1=2"]) = Some [chars "HOME=/root"; chars "A=1=2"].
Proof.
  apply (captured_environment (chars "building") [chars "HOME=/root"; chars "A=1=2"]); [|vm_compute; reflexivity].
  repeat constructor; try (vm_compute; set_solver); [exists (chars "HOME"), (chars "/root")|exists (chars "A"), (chars "1=2")]; reflexivity.
Defined.

Definition demo_flights : list flight_step :=
  [Enter 1 (chars "/work/repo") (Some demo_base); Enter 2 (chars "/work/./repo") (Some demo_base); Land (chars "/work/repo")].

Lemma shared_setup_invisible_witness :
  map fst (fl_answers (fly demo_options demo_flights)) = [1; 2]%nat /\
  forall c a, (c, a) ∈ fl_answers (fly demo_options demo_flights) -> exists repoPath, a = Prepare demo_options repoPath (Some demo_base).
Proof.
  split; [vm_compute; reflexivity|]; intros c a Hin.
  destruct (shared_setup_invisible demo_options (Some demo_base) demo_flights) as [Ha _].
  - intros c' r b Hb; unfold demo_flights in Hb; rewrite !elem_of_cons in Hb.
    destruct Hb as [E|[E|[E|E]]]; [injection E as _ _ ->; reflexivity|injection E as _ _ ->; reflexivity|discriminate E|inversion E].
  - destruct (Ha c a Hin) as (r & _ & Er); exists r; exact Er.
Defined.

(** A value with a space in it is two fields: what follows the space stays. *)
Lemma quoted_secret_leaks : defaultRedact (chars "API_TOKEN='s3 cret' done") = chars "API_TOKEN=" ++ redacted_value ++ chars " cret' done".
Proof. vm_compute; reflexivity. Qed.

(** A variable that holds the marker hides every variable printed before it. *)
Lemma marker_in_value_cuts :
  parseCapturedEnv (marker ++ env0 [chars "PATH=/bin"; chars "X=" ++ marker; chars "Y=1"]) = Some [chars "Y=1"].
Proof. vm_compute; reflexivity. Qed.

(** Callers of one run get the environment of the one that came first. *)
Lemma shared_run_uses_first_environment :
  map snd (fl_answers (fly demo_options [Enter 1 (chars "/work/repo") (Some [chars "USER=a"]); Enter 2 (chars "/work/repo") (Some [chars "USER=b"]); Land (chars "/work/repo")]))
  = [inr [chars "USER=a"; chars "MODE=ci"]; inr [chars "USER=a"; chars "MODE=ci"]].
Proof. vm_compute; reflexivity. Qed.

(** ** The supervisor's use of it *)

(** The runner the server hands to the supervisor: texts as Go strings, and the error with
    the prefix of [ErrSetupFailed]. *)
Definition setup_runner `{SetupWorld} (o : setup_options) (repoPath : string) (env : option (list string)) : option (list string) + string :=
  match Prepare o (chars repoPath) (option_map (map chars) env) with
  | inr out => inl (Some (map GoText.text out))
  | inl msg => inr ("repo setup failed: " +:+ GoText.text msg)
  end.

Lemma trim_own_prefix msg : trimSetupError ("repo setup failed: " +:+ msg) = msg.
Proof. unfold trimSetupError; rewrite prefix_append; apply substring_append. Qed.

(** A set-up that fails stops the start with its own text; one that succeeds sets the
    environment the provider is chosen and started with. *)
Lemma start_after_setup `{SetupWorld} `{E : Screen.Emulator} `{S : Store.SessionStore} (o : setup_options) (s : Supervisor) (cfg : SessionConfig) :
  repoSetup s = Some (setup_runner o) ->
  match Prepare o (chars (cfg_RepoPath cfg)) (option_map (map chars) (cfg_Env cfg)) with
  | inl msg => start_prepare s cfg = Err (Wrapped ErrRepoSetupFailed (GoText.text msg))
  | inr env => forall cfg' p, start_prepare s cfg = Ok (cfg', p) -> cfg_Env cfg' = Some (map GoText.text env)
  end.
Proof.
  intros Hs; unfold start_prepare; rewrite Hs; unfold setup_runner; destruct (Prepare _ _ _) as [msg|env]; [rewrite trim_own_prefix; reflexivity|].
  intros cfg' p; destruct (resolveProvider _ _ _ _); intros Hok; simplify_eq; reflexivity.
Qed.
