(* ===== verification/KeyRegistry.v ===== *)
(** * The key registry service: internal/registry

    Clients upload the public key they sign tokens with, over mutual TLS; a server
    fetches, as a JWKS, the keys of the issuers it allows (handler.go).  The handler
    works against the interface [Store] (store.go); [KeyStore] states what it promises,
    and the store in memory (memory_store.go) and the one in a directory
    (k8s_store.go) are its instances.

    PEM and PKIX are the class [KeyCodec]; the order in which Go ranges over a map, and
    how a write to disk ends, are arguments. *)

From stdpp Require Import sorting.
From S2P Require Import Prelude GoStd GoText Utf8 Json EnrollServer Questions.

(** ** Keys and their encodings *)

Inductive pkix_key := Ed25519 (k : list Z) | OtherKey.

Class KeyCodec := {
  pem_Decode : list Z -> option (list Z * list Z);  (* the first block: its type and its bytes *)
  pem_Encode : list Z -> list Z -> list Z;
  ParsePKIXPublicKey : list Z -> option pkix_key;
  MarshalPKIXPublicKey : list Z -> list Z
}.

Class KeyCodecLaws `{KeyCodec} := {
  pem_roundtrip t b : pem_Decode (pem_Encode t b) = Some (t, b);
  pem_cut t b n t' b' : pem_Decode (take n (pem_Encode t b)) = Some (t', b') -> t' = t /\ b' = b;
  pkix_roundtrip k : ParsePKIXPublicKey (MarshalPKIXPublicKey k) = Some (Ed25519 k)
}.

Definition PUBLIC_KEY : list Z := chars "PUBLIC KEY".

(** [validateEd25519PublicKey] and [parseEd25519PEM]. *)
Definition parseEd25519PEM `{KeyCodec} (data : list Z) : string + list Z :=
  match pem_Decode data with
  | None => inl "no PEM block found"
  | Some (typ, block) =>
      if negb (bool_decide (typ = PUBLIC_KEY)) then inl "unexpected PEM type"
      else match ParsePKIXPublicKey block with
           | None => inl "parse public key"
           | Some OtherKey => inl "key is not Ed25519"
           | Some (Ed25519 k) => inr k
           end
  end.

(** ** The stores *)

(** How a write to disk ends: well; the directory cannot be made; the file cannot be opened;
    or the write stops after some bytes. *)
Inductive put_end := PutDone | NoDirectory | NotOpened | Torn (written : nat).

(** What the handler relies on: [view] is the map from issuers to keys that a store holds. *)
Class KeyStore (S : Type) := {
  PutKey : put_end -> string -> list Z -> S -> S * bool;
  GetKey : string -> S -> string + option (list Z);
  ListKeys : S -> list (string * list Z);
  DeleteKey : string -> S -> S;
  view : S -> string -> option (list Z)
}.

Class KeyStoreLaws (S : Type) `{KeyStore S} := {
  put_view e issuer k s : snd (PutKey e issuer k s) = true -> view (fst (PutKey e issuer k s)) issuer = Some k;
  put_failed e issuer k s k' : snd (PutKey e issuer k s) = false -> view (fst (PutKey e issuer k s)) issuer = Some k' ->
    k' = k \/ view s issuer = Some k';
  put_other e issuer k s i : i <> issuer -> view (fst (PutKey e issuer k s)) i = view s i;
  list_view s i k : (i, k) ∈ ListKeys s <-> view s i = Some k;
  list_once s : NoDup (ListKeys s).*1;
  get_view s i k : GetKey i s = inr (Some k) <-> view s i = Some k;
  delete_view s issuer i : view (DeleteKey issuer s) i = if bool_decide (i = issuer) then None else view s i
}.

(** *** In memory; the order of a range is any *)

Record MemoryStore := MkMemory { mem_keys : gmap string (list Z) }.

Definition mem_PutKey (issuer : string) (k : list Z) (s : MemoryStore) : MemoryStore * bool := (MkMemory (<[issuer := k]> (mem_keys s)), true).
Definition mem_GetKey (issuer : string) (s : MemoryStore) : string + option (list Z) := inr (mem_keys s !! issuer).
Definition mem_ListKeys (order : gmap string (list Z) -> list (string * list Z)) (s : MemoryStore) : list (string * list Z) := order (mem_keys s).
Definition mem_DeleteKey (issuer : string) (s : MemoryStore) : MemoryStore := MkMemory (delete issuer (mem_keys s)).

Section memory.
Context (order : gmap string (list Z) -> list (string * list Z)) (Horder : forall m, order m ≡ₚ map_to_list m).

#[export] Instance memory_store : KeyStore MemoryStore := {
  PutKey _ := mem_PutKey; GetKey := mem_GetKey; ListKeys := mem_ListKeys order; DeleteKey := mem_DeleteKey;
  view s i := mem_keys s !! i }.

#[export] Instance memory_laws : KeyStoreLaws MemoryStore.
Proof using Horder.
  split; cbn [PutKey GetKey ListKeys DeleteKey view memory_store]; unfold mem_PutKey, mem_GetKey, mem_ListKeys, mem_DeleteKey; cbn.
  - intros _ issuer k s _; apply lookup_insert_eq.
  - discriminate.
  - intros _ issuer k s i Hi; apply lookup_insert_ne; congruence.
  - intros s i k; rewrite (Horder (mem_keys s)); apply elem_of_map_to_list.
  - intros s; rewrite (Horder (mem_keys s)); apply NoDup_fst_map_to_list.
  - intros s i k; split; [intros E; injection E as E; exact E|intros ->; reflexivity].
  - intros s issuer i; case_bool_decide; [subst; apply lookup_delete_eq|apply lookup_delete_ne; congruence].
Qed.
End memory.

(** *** In a directory: one directory per issuer, with the key in a file *)

(** An entry of the base directory: a file, or a directory with or without a key file. *)
Inductive dirent := PlainFile | IssuerDir (key_file : option (list Z)).

Record K8sStore := MkK8s { k8s_entries : gmap string dirent }.

Definition SecretPrefix : string := "bridge-client-".

Section k8s.
Context `{KeyCodec}.

Definition k8s_pem (k : list Z) : list Z := pem_Encode PUBLIC_KEY (MarshalPKIXPublicKey k).

Definition k8s_PutKey (e : put_end) (issuer : string) (k : list Z) (s : K8sStore) : K8sStore * bool :=
  let dir := SecretPrefix +:+ issuer in
  match e, k8s_entries s !! dir with
  | NoDirectory, _ | _, Some PlainFile => (s, false)
  | PutDone, _ => (MkK8s (<[dir := IssuerDir (Some (k8s_pem k))]> (k8s_entries s)), true)
  | NotOpened, Some (IssuerDir _) => (s, false)
  | NotOpened, None => (MkK8s (<[dir := IssuerDir None]> (k8s_entries s)), false)
  | Torn n, _ => (MkK8s (<[dir := IssuerDir (Some (take n (k8s_pem k)))]> (k8s_entries s)), false)
  end.

Definition k8s_GetKey (issuer : string) (s : K8sStore) : string + option (list Z) :=
  match k8s_entries s !! (SecretPrefix +:+ issuer) with
  | Some (IssuerDir (Some data)) => match parseEd25519PEM data with inl e => inl e | inr k => inr (Some k) end
  | Some PlainFile => inl "read key file"
  | Some (IssuerDir None) | None => inr None
  end.

(** One entry of the loop of [ListKeys]; what is skipped gives nothing. *)
Definition listed (entry : string * dirent) : option (string * list Z) :=
  match entry.2 with
  | PlainFile => None
  | IssuerDir f =>
      if String.prefix SecretPrefix entry.1 then
        let issuer := String.substring (String.length SecretPrefix) (String.length entry.1 - String.length SecretPrefix) entry.1 in
        match f with
        | None => None
        | Some data => match parseEd25519PEM data with inl _ => None | inr k => Some (issuer, k) end
        end
      else None
  end.

(** [os.ReadDir] sorts by name. *)
Definition by_name (a b : string * dirent) : Prop := String.leb a.1 b.1 = true.
#[local] Instance by_name_dec a b : base.Decision (by_name a b).
Proof. unfold by_name; apply _. Defined.

Definition k8s_ListKeys (s : K8sStore) : list (string * list Z) := omap listed (merge_sort by_name (map_to_list (k8s_entries s))).

Definition k8s_DeleteKey (issuer : string) (s : K8sStore) : K8sStore := MkK8s (delete (SecretPrefix +:+ issuer) (k8s_entries s)).

Definition k8s_view (s : K8sStore) (i : string) : option (list Z) :=
  match k8s_entries s !! (SecretPrefix +:+ i) with
  | Some (IssuerDir (Some data)) => match parseEd25519PEM data with inl _ => None | inr k => Some k end
  | _ => None
  end.

#[export] Instance k8s_store : KeyStore K8sStore := {
  PutKey := k8s_PutKey; GetKey := k8s_GetKey; ListKeys := k8s_ListKeys; DeleteKey := k8s_DeleteKey; view := k8s_view }.

Lemma prefix_split p n : String.prefix p n = true -> n = p +:+ String.substring (String.length p) (String.length n - String.length p) n.
Proof.
  unfold String.app; revert n; induction p as [|c p IH]; intros [|d n] Hp; cbn in *; try discriminate; [reflexivity| |].
  - f_equal; clear Hp; induction n as [|x n IHn]; [reflexivity|]; cbn; f_equal; exact IHn.
  - destruct (Ascii.ascii_dec c d); [|discriminate]; subst; f_equal; exact (IH n Hp).
Qed.

Lemma prefix_inj (i j : string) : SecretPrefix +:+ i = SecretPrefix +:+ j -> i = j.
Proof. intros E; rewrite <- (substring_append SecretPrefix i), E; apply substring_append. Qed.

Lemma listed_view s name d i k : k8s_entries s !! name = Some d -> listed (name, d) = Some (i, k) -> name = SecretPrefix +:+ i /\ k8s_view s i = Some k.
Proof.
  unfold listed; cbn [fst snd]; destruct d as [|f]; [discriminate|]; intros Hn.
  destruct (String.prefix SecretPrefix name) eqn:Ep; [|discriminate]; apply prefix_split in Ep.
  destruct f as [data|]; [|discriminate]; destruct (parseEd25519PEM data) as [|k0] eqn:Ek; [discriminate|]; intros E; injection E as Ei <-.
  assert (En : name = SecretPrefix +:+ i) by (rewrite <- Ei; exact Ep).
  split; [exact En|]; unfold k8s_view; rewrite <- En, Hn, Ek; reflexivity.
Qed.

Lemma view_listed s i k : k8s_view s i = Some k -> exists d, k8s_entries s !! (SecretPrefix +:+ i) = Some d /\ listed (SecretPrefix +:+ i, d) = Some (i, k).
Proof.
  unfold k8s_view; destruct (k8s_entries s !! (SecretPrefix +:+ i)) as [[|[data|]]|]; try discriminate.
  destruct (parseEd25519PEM data) as [|k0] eqn:Ek; [discriminate|]; intros E; simplify_eq; eexists; split; [reflexivity|].
  unfold listed; cbn [fst snd]; rewrite prefix_append, Ek, substring_append; reflexivity.
Qed.

Lemma list_entries s e : e ∈ merge_sort by_name (map_to_list (k8s_entries s)) <-> k8s_entries s !! e.1 = Some e.2.
Proof. rewrite (merge_sort_Permutation by_name); destruct e; apply elem_of_map_to_list. Qed.

Lemma k8s_list_view s i k : (i, k) ∈ k8s_ListKeys s <-> k8s_view s i = Some k.
Proof.
  unfold k8s_ListKeys; rewrite list_elem_of_omap; split.
  - intros ([name d] & Hin%list_entries & Hl); exact (proj2 (listed_view s name d i k Hin Hl)).
  - intros Hv; destruct (view_listed s i k Hv) as (d & Hd & Hl); exists (SecretPrefix +:+ i, d); split; [apply list_entries, Hd|exact Hl].
Qed.

Lemma list_order s : NoDup (omap (fun e => if listed e then Some e.1 else None) (merge_sort by_name (map_to_list (k8s_entries s)))).
Proof.
  assert (Hnd : NoDup (merge_sort by_name (map_to_list (k8s_entries s))).*1).
  { rewrite (merge_sort_Permutation by_name); apply NoDup_fst_map_to_list. }
  induction (merge_sort by_name _) as [|e l IH]; [constructor|]; cbn in *; apply list.NoDup_cons in Hnd as [Hn Hnd].
  destruct (listed e); [constructor; [|apply IH, Hnd]|apply IH, Hnd].
  intros Hin; apply Hn; apply list_elem_of_omap in Hin as (x & Hx & He); destruct (listed x); [|discriminate]; injection He as He.
  rewrite <- He; apply list_elem_of_fmap; eauto.
Qed.

Lemma k8s_list_once s : NoDup (k8s_ListKeys s).*1.
Proof.
  unfold k8s_ListKeys; assert (Hv : forall e, e ∈ merge_sort by_name (map_to_list (k8s_entries s)) -> forall i k, listed e = Some (i, k) -> e.1 = SecretPrefix +:+ i).
  { intros [n d] He%list_entries i k Hl; exact (proj1 (listed_view s n d i k He Hl)). }
  pose proof (list_order s) as Ho; induction (merge_sort by_name _) as [|e l IH]; [constructor|].
  cbn in *; destruct (listed e) as [[i k]|] eqn:El; cbn; [|apply IH; [intros; eapply Hv; [set_solver|eassumption]|exact Ho]].
  apply list.NoDup_cons in Ho as [Hn Ho]; constructor; [|apply IH; [intros; eapply Hv; [set_solver|eassumption]|exact Ho]].
  intros Hin; apply Hn; apply list_elem_of_fmap in Hin as ([i' k'] & -> & Hin); apply list_elem_of_omap in Hin as (x & Hx & Hl).
  apply list_elem_of_omap; exists x; split; [exact Hx|]; rewrite Hl; f_equal.
  rewrite (Hv e (list_elem_of_here _ _) _ _ El), (Hv x (list_elem_of_further _ _ _ Hx) _ _ Hl); reflexivity.
Qed.

Context `{!KeyCodecLaws}.

Lemma parse_pem k : parseEd25519PEM (k8s_pem k) = inr k.
Proof. unfold parseEd25519PEM, k8s_pem; rewrite pem_roundtrip, bool_decide_eq_true_2, pkix_roundtrip by reflexivity; reflexivity. Qed.

Lemma parse_torn k n k' : parseEd25519PEM (take n (k8s_pem k)) = inr k' -> k' = k.
Proof.
  unfold parseEd25519PEM, k8s_pem; destruct (pem_Decode _) as [[t b]|] eqn:E; [|discriminate]; apply pem_cut in E as [-> ->].
  rewrite bool_decide_eq_true_2, pkix_roundtrip by reflexivity; cbn; intros E; injection E as <-; reflexivity.
Qed.

#[export] Instance k8s_laws : KeyStoreLaws K8sStore.
Proof.
  split; cbn [PutKey GetKey ListKeys DeleteKey view k8s_store].
  - intros e issuer k s; unfold k8s_PutKey, k8s_view; destruct e, (k8s_entries s !! (SecretPrefix +:+ issuer)) as [[|f]|]; cbn; try discriminate;
      intros _; rewrite lookup_insert_eq, parse_pem; reflexivity.
  - intros e issuer k s k'; unfold k8s_PutKey, k8s_view; destruct e, (k8s_entries s !! (SecretPrefix +:+ issuer)) as [[|f]|] eqn:E; cbn; try discriminate; rewrite ?E; auto;
      rewrite lookup_insert_eq; [discriminate|..]; destruct (parseEd25519PEM (take _ _)) eqn:Ep; intros _ Hk; simplify_eq; left; eapply parse_torn; eassumption.
  - intros e issuer k s i Hi; unfold k8s_PutKey, k8s_view; destruct e, (k8s_entries s !! (SecretPrefix +:+ issuer)) as [[|f]|]; cbn; try reflexivity;
      rewrite lookup_insert_ne by (intros E; apply prefix_inj in E; congruence); reflexivity.
  - apply k8s_list_view.
  - apply k8s_list_once.
  - intros s i k; unfold k8s_GetKey, k8s_view; repeat case_match; split; intros; simplify_eq; try discriminate; reflexivity.
  - intros s issuer i; unfold k8s_view, k8s_DeleteKey; cbn [k8s_entries]; case_bool_decide as E; [subst; rewrite lookup_delete_eq; reflexivity|].
    rewrite lookup_delete_ne by (intros E'; apply prefix_inj in E'; congruence); reflexivity.
Qed.
End k8s.

(** ** The handler *)

Definition MaxKeyUploadBytes : Z := 4096.

(** [issuerPattern]. *)
Definition issuer_char (c : Z) : bool := alnum c || (c =? 46) || (c =? 95) || (c =? 45).
Definition issuer_ok (issuer : string) : bool := negb (str_eqb issuer "") && forallb issuer_char (chars issuer).

(** [b64url]: base64.RawURLEncoding, the padded encoding with two other digits and no padding. *)
Definition b64url (s : list Z) : list Z :=
  List.filter (fun c => negb (c =? 61)) (map (fun c => if c =? 43 then 45 else if c =? 47 then 95 else c) (b64_encode s)).

Record JWK := MkJWK { Kty : string; Crv : string; X : list Z; Kid : string; Use : string }.

Definition Ed25519ToJWK (pubKey : list Z) (kid : string) : JWK := MkJWK "OKP" "Ed25519" (b64url pubKey) kid "sig".
Definition ClientKeysToJWKS (keys : list (string * list Z)) : list JWK := map (fun ck => Ed25519ToJWK ck.2 ck.1) keys.

Record ServerEntry := MkServerEntry { sve_ID : string; sve_AllowedIssuers : list string }.
Definition BuildServerConfig (servers : list ServerEntry) : gmap string (list string) :=
  fold_left (fun m s => <[sve_ID s := sve_AllowedIssuers s]> m) servers ∅.

(** An upload: the issuer of the path, the common name of the peer's certificate ([None]: no
    certificate), the body ([None]: over the limit or cut off), and how the store's write ends. *)
Record upload := MkUpload { up_issuer : string; up_cn : option string; up_body : option (list Z); up_end : put_end }.

(** Pairs of runes that fold together: two in ASCII that differ in case; the Kelvin sign and
    the long s with their letter; [fold_pair] says it of two beyond ASCII. *)
Definition ascii_lower (c : Z) : Z := if in_range 65 90 c then c + 32 else c.
Definition odd_pair (c r : Z) : bool := ((ascii_lower c =? 107) && (r =? 8490)) || ((ascii_lower c =? 115) && (r =? 383)).

Section handler.
Context (fold_pair : Z -> Z -> bool) (lower : Z -> list Z).
Context `{KeyCodec} {S : Type} `{KeyStore S}.

Definition same_fold (a b : Z) : bool :=
  (a =? b) ||
  (if a <? 128 then if b <? 128 then ascii_lower a =? ascii_lower b else odd_pair a b
   else if b <? 128 then odd_pair b a else fold_pair a b).

Fixpoint fold_all (s t : list Z) : bool :=
  match s, t with
  | [], [] => true
  | a :: s, b :: t => same_fold a b && fold_all s t
  | _, _ => false
  end.

(** [strings.EqualFold]. *)
Definition EqualFold (s t : string) : bool := fold_all (map fst (runes (chars s))) (map fst (runes (chars t))).

Definition verifyCertCN (cn : option string) (expectedIssuer : string) : bool :=
  match cn with None => false | Some cn => EqualFold cn expectedIssuer end.

(** What passes the checks of [UploadKey]: the status of the refusal, or the key to store. *)
Definition upload_key (u : upload) : Z + list Z :=
  if negb (issuer_ok (up_issuer u)) then inl 400
  else if negb (verifyCertCN (up_cn u) (up_issuer u)) then inl 403
  else match up_body u with
       | None => inl 413
       | Some body => if MaxKeyUploadBytes <? zlen body then inl 413
                      else match parseEd25519PEM body with inl _ => inl 400 | inr k => inr k end
       end.

Definition UploadKey (s : S) (u : upload) : S * Z :=
  match upload_key u with
  | inl status => (s, status)
  | inr k => match PutKey (up_end u) (up_issuer u) k s with
             | (s', true) => (s', 201)
             | (s', false) => (s', 500)
             end
  end.

Definition allowed_issuer (allowed : list string) (issuer : string) : bool :=
  existsb (fun iss => bool_decide (ToLower lower (chars iss) = ToLower lower (chars issuer))) allowed.

(** [GetJWKS]; [broken]: the store cannot list its keys. *)
Definition GetJWKS (cfg : gmap string (list string)) (broken : bool) (serverID : string) (s : S) : Z * list JWK :=
  if str_eqb serverID "" then (400, [])
  else match cfg !! serverID with
       | None => (404, [])
       | Some allowed => if broken then (500, [])
                         else (200, ClientKeysToJWKS (List.filter (fun ck => allowed_issuer allowed ck.1) (ListKeys s)))
       end.

(** ** What a server is served *)

Fixpoint uploads (s : S) (us : list upload) : S * list (upload * Z) :=
  match us with
  | [] => (s, [])
  | u :: us => let '(s1, st) := UploadKey s u in let '(s2, log) := uploads s1 us in (s2, (u, st) :: log)
  end.

(** The key of the last upload for an issuer that was answered [201]. *)
Definition latest (log : list (upload * Z)) (issuer : string) : option (list Z) :=
  foldl (fun cur ust => if (ust.2 =? 201) && str_eqb (up_issuer ust.1) issuer
                        then match upload_key ust.1 with inr k => Some k | inl _ => cur end else cur) None log.

Context `{!KeyStoreLaws S}.

Lemma uploads_snoc us : forall s u, uploads s (us ++ [u]) =
  let '(s1, log) := uploads s us in let '(s2, st) := UploadKey s1 u in (s2, log ++ [(u, st)]).
Proof.
  induction us as [|v us IH]; intros s u; cbn [app uploads].
  - destruct (UploadKey s u); reflexivity.
  - destruct (UploadKey s v) as [s1 st]; rewrite IH; destruct (uploads s1 us) as [s2 log]; destruct (UploadKey s2 u); reflexivity.
Qed.

(** What a store holds: only keys that someone entitled to the issuer uploaded; and, when
    no write failed, the latest of them. *)
Definition holds (s : S) (log : list (upload * Z)) : Prop :=
  (forall i k, view s i = Some k -> exists u st, (u, st) ∈ log /\ up_issuer u = i /\ upload_key u = inr k) /\
  (Forall (fun ust => ust.2 <> 500) log -> forall i, view s i = latest log i).

Lemma upload_holds s log u : holds s log -> holds (fst (UploadKey s u)) (log ++ [(u, snd (UploadKey s u))]).
Proof.
  intros [Hs Hl]; unfold UploadKey; destruct (upload_key u) as [status|k] eqn:Eu.
  { cbn [fst snd]; split; [intros i k Hv; destruct (Hs i k Hv) as (u' & st & ? & ? & ?); exists u', st; split_and!; [set_solver|assumption..]|].
    intros Hf i; apply Forall_app in Hf as [Hf _]; unfold latest; rewrite foldl_app; cbn [foldl fst snd]; rewrite Eu.
    destruct (_ && _); exact (Hl Hf i). }
  pose proof (put_view (up_end u) (up_issuer u) k s) as Hp; pose proof (put_failed (up_end u) (up_issuer u) k s) as Hf.
  pose proof (put_other (up_end u) (up_issuer u) k s) as Ho; destruct (PutKey (up_end u) (up_issuer u) k s) as [s' [|]]; cbn [fst snd] in *.
  all: split.
  - intros i k' Hv; destruct (decide (i = up_issuer u)) as [->|Hi].
    + rewrite (Hp eq_refl) in Hv; injection Hv as <-; exists u, 201; split_and!; [set_solver|reflexivity|exact Eu].
    + rewrite (Ho i Hi) in Hv; destruct (Hs i k' Hv) as (u' & st & ? & ? & ?); exists u', st; split_and!; [set_solver|assumption..].
  - intros Hn i; apply Forall_app in Hn as [Hn _]; unfold latest; rewrite foldl_app; cbn [foldl fst snd]; rewrite Z.eqb_refl; cbn [andb].
    destruct (str_eqb (up_issuer u) i) eqn:Ei; [apply str_eqb_eq in Ei; subst i; rewrite Eu; apply (Hp eq_refl)|].
    apply str_eqb_neq in Ei; rewrite Ho by congruence; exact (Hl Hn i).
  - intros i k' Hv; destruct (decide (i = up_issuer u)) as [->|Hi].
    + destruct (Hf k' eq_refl Hv) as [->|Hold]; [exists u, 500; split_and!; [set_solver|reflexivity|exact Eu]|].
      destruct (Hs _ _ Hold) as (u' & st & ? & ? & ?); exists u', st; split_and!; [set_solver|assumption..].
    + rewrite (Ho i Hi) in Hv; destruct (Hs i k' Hv) as (u' & st & ? & ? & ?); exists u', st; split_and!; [set_solver|assumption..].
  - intros Hn; apply Forall_app in Hn as [_ Hn]; apply Forall_cons_1 in Hn as [Hn _]; cbn in Hn; congruence.
Qed.

Lemma uploads_hold us s : (forall i, view s i = None) -> holds (uploads s us).1 (uploads s us).2.
Proof.
  intros He; induction us as [|u us IH] using rev_ind.
  - split; [intros i k Hv; rewrite He in Hv; discriminate|intros _ i; rewrite He; reflexivity].
  - rewrite uploads_snoc; destruct (uploads s us) as [s1 log]; cbn [fst snd] in IH; pose proof (upload_holds s1 log u IH) as Hu.
    destruct (UploadKey s1 u) as [s2 st]; exact Hu.
Qed.
End handler.

Lemma kept_once (p : string * list Z -> bool) (l : list (string * list Z)) : NoDup l.*1 -> NoDup (map fst (List.filter p l)).
Proof.
  induction l as [|x l IH]; intros Hn; [constructor|]; cbn in Hn; apply list.NoDup_cons in Hn as [Hi Hn].
  cbn [List.filter]; destruct (p x); [cbn [map]; constructor; [|exact (IH Hn)]|exact (IH Hn)].
  intros Hx; apply Hi; apply list_elem_of_In, in_map_iff in Hx as (y & E & Hx); apply filter_In in Hx as [Hx _].
  apply list_elem_of_fmap; exists y; split; [symmetry; exact E|apply list_elem_of_In, Hx].
Qed.

(** C34. Against any store that keeps the interface's promise, after any uploads, writes that fail
    or tear included: a server is served at most one key per issuer, each of an issuer that it
    allows and uploaded by a client whose certificate names that issuer; and when no write
    failed, exactly the latest key of every such issuer. *)
Theorem registry_serves (fold_pair : Z -> Z -> bool) (lower : Z -> list Z) `{KeyCodec} {S : Type} `{KeyStoreLaws S}
    (s0 : S) (us : list upload) (cfg : gmap string (list string)) (serverID : string) (allowed : list string) :
  (forall i, view s0 i = None) -> serverID <> "" -> cfg !! serverID = Some allowed ->
  let '(s, log) := uploads fold_pair s0 us in
  exists keys, GetJWKS lower cfg false serverID s = (200, keys) /\ NoDup (map Kid keys) /\
  (forall j, j ∈ keys -> allowed_issuer lower allowed (Kid j) = true /\
     exists u st k cn, (u, st) ∈ log /\ up_issuer u = Kid j /\ up_cn u = Some cn /\ EqualFold fold_pair cn (Kid j) = true /\
       upload_key fold_pair u = inr k /\ j = Ed25519ToJWK k (Kid j)) /\
  (Forall (fun ust => ust.2 <> 500) log -> forall j,
     j ∈ keys <-> allowed_issuer lower allowed (Kid j) = true /\ exists k, latest fold_pair log (Kid j) = Some k /\ j = Ed25519ToJWK k (Kid j)).
Proof.
  intros He Hid Hc; pose proof (uploads_hold fold_pair lower us s0 He) as Hh; destruct (uploads fold_pair s0 us) as [s log]; cbn [fst snd] in Hh.
  destruct Hh as [Hsafe Hlatest]; unfold GetJWKS; rewrite (proj2 (str_eqb_neq serverID "") Hid), Hc; eexists; split; [reflexivity|].
  assert (Hin : forall j, j ∈ ClientKeysToJWKS (List.filter (fun ck => allowed_issuer lower allowed ck.1) (ListKeys s)) <->
    allowed_issuer lower allowed (Kid j) = true /\ exists k, view s (Kid j) = Some k /\ j = Ed25519ToJWK k (Kid j)).
  { intros j; unfold ClientKeysToJWKS; rewrite list_elem_of_In, in_map_iff; split.
    - intros ([i k] & <- & Hf); apply filter_In in Hf as [Hl Ha]; cbn [fst snd Kid Ed25519ToJWK] in *.
      split; [exact Ha|]; exists k; split; [apply list_view, list_elem_of_In, Hl|reflexivity].
    - intros (Ha & k & Hv & Hj); exists (Kid j, k); split; [symmetry; exact Hj|]; apply filter_In; split; [apply list_elem_of_In, list_view, Hv|exact Ha]. }
  split_and!.
  - unfold ClientKeysToJWKS; rewrite map_map; cbn [Kid Ed25519ToJWK].
    apply kept_once, list_once.
  - intros j Hj; apply Hin in Hj as (Ha & k & Hv & Ej); split; [exact Ha|].
    destruct (Hsafe _ _ Hv) as (u & st & Hu & Hi & Hk).
    assert (Hcn : verifyCertCN fold_pair (up_cn u) (up_issuer u) = true).
    { unfold upload_key in Hk; destruct (issuer_ok _); [|discriminate]; destruct (verifyCertCN _ _ _); [reflexivity|discriminate]. }
    unfold verifyCertCN in Hcn; destruct (up_cn u) as [cn|] eqn:Ecn; [|discriminate].
    exists u, st, k, cn; split_and!; try assumption; rewrite <- Hi; exact Hcn.
  - intros Hf j; rewrite Hin; setoid_rewrite (Hlatest Hf); reflexivity.
Qed.

(** ** Concrete stores *)

Definition toy_encode (t b : list Z) : list Z := zlen t :: zlen b :: t ++ b.
Definition toy_decode (data : list Z) : option (list Z * list Z) :=
  match data with
  | lt :: lb :: rest => if (0 <=? lt) && (0 <=? lb) && (zlen rest =? lt + lb) then Some (take (Z.to_nat lt) rest, drop (Z.to_nat lt) rest) else None
  | _ => None
  end.

#[local] Instance toy_codec : KeyCodec := {
  pem_Decode := toy_decode; pem_Encode := toy_encode;
  ParsePKIXPublicKey b := match b with 1 :: k => Some (Ed25519 k) | [] => None | _ => Some OtherKey end;
  MarshalPKIXPublicKey k := 1 :: k }.

Lemma toy_whole t b : toy_decode (toy_encode t b) = Some (t, b).
Proof.
  unfold toy_decode, toy_encode; rewrite (proj2 (Z.leb_le 0 (zlen t)) (zlen_nonneg t)), (proj2 (Z.leb_le 0 (zlen b)) (zlen_nonneg b)).
  rewrite zlen_app, Z.eqb_refl; cbn [andb]; unfold zlen; rewrite Nat2Z.id, take_app_length, drop_app_length; reflexivity.
Qed.

#[local] Instance toy_laws : KeyCodecLaws.
Proof.
  split; cbn [pem_Decode pem_Encode ParsePKIXPublicKey MarshalPKIXPublicKey toy_codec]; [apply toy_whole| |reflexivity].
  intros t b n t' b' Hd; destruct (decide (length (toy_encode t b) <= n)%nat) as [Hn|Hn].
  - rewrite take_ge, toy_whole in Hd by exact Hn; injection Hd as <- <-; auto.
  - exfalso; unfold toy_encode in *; destruct n as [|[|n]]; try discriminate; cbn [take] in Hd; unfold toy_decode in Hd.
    cbn [length] in Hn; unfold zlen in Hd; rewrite length_take in Hd; rewrite length_app in *.
    destruct (Z.eqb_spec (Z.of_nat (n `min` (length t + length b))) (Z.of_nat (length t) + Z.of_nat (length b))); [lia|].
    rewrite andb_false_r in Hd; discriminate.
Qed.

Definition toy_key (n : Z) : list Z := toy_encode PUBLIC_KEY [1; n; n].
Definition toy_uploads : list upload :=
  [MkUpload "alice" (Some "Alice"%string) (Some (toy_key 7)) PutDone; MkUpload "bob" (Some "mallory"%string) (Some (toy_key 8)) PutDone;
   MkUpload "carol" (Some "carol"%string) (Some (toy_key 9)) PutDone; MkUpload "alice" (Some "alice"%string) (Some (toy_key 5)) PutDone].
Definition toy_servers : gmap string (list string) := BuildServerConfig [MkServerEntry "s1" ["ALICE"; "bob"]].
Definition no_folds (_ _ : Z) : bool := false.
Definition no_lower (_ : Z) : list Z := [].

Lemma empty_view i : view (MkK8s ∅) i = None.
Proof. reflexivity. Qed.

Lemma registry_serves_witness : exists keys,
  GetJWKS no_lower toy_servers false "s1" (uploads no_folds (MkK8s ∅) toy_uploads).1 = (200, keys) /\
  keys = [Ed25519ToJWK [5; 5] "alice"] /\ NoDup (map Kid keys).
Proof.
  pose proof (registry_serves (S := K8sStore) (H0 := k8s_store) (H1 := k8s_laws) no_folds no_lower (MkK8s ∅) toy_uploads toy_servers "s1" ["ALICE"; "bob"]%string
                empty_view ltac:(discriminate) ltac:(vm_compute; reflexivity)) as Hs.
  destruct (uploads no_folds (MkK8s ∅) toy_uploads) as [s log] eqn:E; cbn [fst].
  destruct Hs as (keys & Hg & Hn & _); exists keys; split_and!; [exact Hg| |exact Hn].
  assert (Es : s = (uploads no_folds (MkK8s ∅) toy_uploads).1) by (rewrite E; reflexivity).
  rewrite Es in Hg; vm_compute in Hg; injection Hg as <-; vm_compute; reflexivity.
Defined.

#[local] Instance toy_memory : KeyStore MemoryStore := memory_store map_to_list.

(** The store in memory serves the same uploads alike. *)
Lemma stores_agree_on_toy : GetJWKS no_lower toy_servers false "s1" (uploads no_folds (MkMemory ∅) toy_uploads).1 =
  GetJWKS no_lower toy_servers false "s1" (uploads no_folds (MkK8s ∅) toy_uploads).1.
Proof. vm_compute; reflexivity. Qed.

(** The common name's case is ignored and the path's is kept: one client may hold several keys. *)
Lemma case_variants_coexist :
  map Kid (snd (GetJWKS no_lower toy_servers false "s1" (uploads no_folds (MkK8s ∅)
    [MkUpload "alice" (Some "alice"%string) (Some (toy_key 7)) PutDone; MkUpload "Alice" (Some "alice"%string) (Some (toy_key 8)) PutDone]).1)) = ["Alice"; "alice"]%string.
Proof. vm_compute; reflexivity. Qed.

(** The Kelvin sign in a certificate's name stands for the letter k. *)
Lemma kelvin_name_matches : EqualFold no_folds (GoText.text [226; 132; 170; 97; 116; 101]) "kate" = true.
Proof. vm_compute; reflexivity. Qed.
