(* ===== verification/Adapters.v ===== *)
(** * How the agents are launched: internal/provider

    The environment a child process gets, its binary and arguments, when a provider
    counts as healthy, which credentials Claude and Codex run with, and the commands of
    Codex' observer mode (stdio.go, claude.go, claude_auth.go, codex.go,
    codex_app_server.go).

    Files, the search path, decoded JSON and the daemon's own environment are the class
    [AdapterWorld]; the files that launching writes are the state. *)

From S2P Require Import Prelude GoStd GoText EnrollServer Questions Json RepoSetup.

(** ** The environment of a child *)

(** [envValue]: the last entry wins; empty when there is none. *)
Definition envValue (env : list (list Z)) (key : list Z) : list Z := default [] (env_value key env).

Definition entry_key (e : list Z) : option (list Z) := option_map fst (Cut EQ e).

Definition hasEnvKey (env : list (list Z)) (key : list Z) : bool := existsb (fun e => bool_decide (entry_key e = Some key)) env.

Definition blocked_keys : list (list Z) :=
  [chars "AWS_SECRET_ACCESS_KEY"; chars "AWS_SESSION_TOKEN"; chars "SLACK_BOT_TOKEN"; chars "SLACK_SIGNING_SECRET"; chars "DISCORD_TOKEN"; chars "CLAUDECODE"].

Definition is_blocked (e : list Z) : bool :=
  match entry_key e with Some key => bool_decide (key ∈ blocked_keys) | None => false end.

Definition with_default (key : list Z) (entry : list Z) (env : list (list Z)) : list (list Z) :=
  if hasEnvKey env key then env else env ++ [entry].

Definition FilterEnv (env : list (list Z)) : list (list Z) :=
  let filtered := List.filter (fun e => negb (is_blocked e)) env in
  with_default (chars "COLORTERM") (chars "COLORTERM=truecolor") (with_default (chars "TERM") (chars "TERM=xterm-256color") filtered).

(** [setEnvValue]: every entry of the key is replaced, or one is appended. *)
Definition setEnvValue (env : list (list Z)) (key value : list Z) : list (list Z) :=
  let prefix := key ++ [EQ] in
  let replaced := map (fun item => if has_prefix prefix item then prefix ++ value else item) env in
  if existsb (has_prefix prefix) env then replaced else replaced ++ [prefix ++ value].

(** ** The world *)

Inductive read_answer := Missing | Unreadable | Data (d : list Z).

(** The parts of Codex' auth.json and of Claude's credentials that are read. *)
Record codex_auth_json := MkCodexAuth { ca_Mode : list Z; ca_APIKey : list Z; ca_Tokens : option (list Z * list Z) }.
Record claude_creds := MkCreds { cc_nested : option (list Z); cc_AccessToken : list Z }.

Inductive stat_mode := NoStat | Mode (executable : bool).

Class AdapterWorld := {
  working_dir : option (list Z);
  LookPath : list Z -> option (list Z);
  daemon_env : list (list Z);  (* os.Environ *)
  file_mode : list Z -> stat_mode;
  platform : list Z;
  keychain : bool;  (* the login keychain holds a Claude credential *)
  decode_codex : list Z -> option codex_auth_json;
  decode_claude : list Z -> option claude_creds
}.

Section adapters.
Context `{W : AdapterWorld}.

(** ** Binary and arguments *)

Definition absRoot (root : list Z) : option (list Z) := if has_prefix [SEP] root then Some root else Abs working_dir root.

Definition resolveBinaryPath (binary root : list Z) : option (list Z) :=
  if Contains [SEP] binary then
    if has_prefix [SEP] binary then Some binary
    else match root with
         | [] => Abs working_dir binary
         | _ => option_map (fun r => Join r binary) (absRoot root)
         end
  else LookPath binary.

Definition isStandaloneRelativePathArg (arg : list Z) : bool :=
  bool_decide (arg = DOT) || bool_decide (arg = DOTDOT) || has_prefix (DOT ++ [SEP]) arg || has_prefix (DOTDOT ++ [SEP]) arg.

Definition resolve_arg (root arg : list Z) : option (list Z) :=
  if negb (isStandaloneRelativePathArg arg) then Some arg
  else match root with
       | [] => Abs working_dir arg
       | _ => option_map (fun r => Join r arg) (absRoot root)
       end.

Definition resolveCommandArgs (args : list (list Z)) (root : list Z) : option (list (list Z)) := mapM (resolve_arg root) args.

Definition providerUnprotectedModes (id : list Z) : option (list Z * list (list Z)) :=
  if bool_decide (id = chars "codex") then Some (chars "BRIDGE_CODEX_UNPROTECTED", [chars "--dangerously-bypass-approvals-and-sandbox"])
  else if bool_decide (id = chars "claude") then Some (chars "BRIDGE_CLAUDE_UNPROTECTED", [chars "--dangerously-skip-permissions"])
  else if bool_decide (id = chars "opencode") then Some (chars "BRIDGE_OPENCODE_UNPROTECTED", [chars "--auto"])
  else if bool_decide (id = chars "gemini") then Some (chars "BRIDGE_GEMINI_UNPROTECTED", [chars "--yolo"])
  else None.

(** [strconv.ParseBool]. *)
Definition ParseBool (s : list Z) : option bool :=
  if bool_decide (s ∈ map chars ["1"; "t"; "T"; "true"; "TRUE"; "True"]) then Some true
  else if bool_decide (s ∈ map chars ["0"; "f"; "F"; "false"; "FALSE"; "False"]) then Some false
  else None.

(** [parseProviderUnprotectedMode]; [None]: not a boolean. *)
Definition parseProviderUnprotectedMode (id : list Z) (lookup : list Z -> option (list Z)) : option bool :=
  match providerUnprotectedModes id with
  | None => Some false
  | Some (envVar, _) =>
      match lookup envVar with
      | None => Some false
      | Some raw => match TrimSpace raw with [] => Some false | v => ParseBool v end
      end
  end.

Definition validateProviderUnprotectedEnv (id : list Z) (env : list (list Z)) : bool :=
  match parseProviderUnprotectedMode id (fun key => let v := envValue env key in match TrimSpace v with [] => None | _ => Some v end) with
  | Some _ => true
  | None => false
  end.

Definition commandArgsForProvider (id : list Z) (args : list (list Z)) (root : list Z) : option (list (list Z)) :=
  match resolveCommandArgs args root with
  | None => None
  | Some resolved =>
      match providerUnprotectedModes id with
      | None => Some resolved
      | Some (_, extra) => match parseProviderUnprotectedMode id (fun key => env_value key daemon_env) with
                           | None => None
                           | Some false => Some resolved
                           | Some true => Some (resolved ++ extra)
                           end
      end
  end.

(** ** The provider of an interactive program *)

Record StdioConfig := MkStdio {
  sc_ProviderID : list Z; sc_Binary : list Z; sc_DefaultArgs : list (list Z); sc_StartupProbe : list Z; sc_prompt : bool;
  sc_RequiredEnv : list (list Z); sc_ProviderRoot : list Z }.

Definition NewStdioProvider (c : StdioConfig) : StdioConfig :=
  MkStdio (sc_ProviderID c) (sc_Binary c) (sc_DefaultArgs c) (match sc_StartupProbe c with [] => chars "prompt" | p => p end) (sc_prompt c)
    (sc_RequiredEnv c) (sc_ProviderRoot c).

Record command := MkCommand { cmd_Path : list Z; cmd_Args : list (list Z); cmd_Dir : list Z; cmd_Env : list (list Z) }.

(** [BuildCommand]; [options]: the session's options in the order of one range over the map. *)
Definition BuildCommand (c : StdioConfig) (repo : list Z) (options : list (list Z * list Z)) (env : option (list (list Z))) : option command :=
  match resolveBinaryPath (sc_Binary c) (sc_ProviderRoot c) with
  | None => None
  | Some bin =>
      match commandArgsForProvider (sc_ProviderID c) (sc_DefaultArgs c) (sc_ProviderRoot c) with
      | None => None
      | Some args =>
          let extra := map snd (List.filter (fun kv => has_prefix (chars "arg:") kv.1) options) in
          Some (MkCommand bin (bin :: args ++ extra) repo (default (FilterEnv daemon_env) env))
      end
  end.

Definition missing_env (c : StdioConfig) (env : list (list Z)) : bool :=
  existsb (fun name => bool_decide (TrimSpace (envValue env name) = [])) (sc_RequiredEnv c).

(** [HealthWithEnv]; [unavailable]: an error that the start recorded. *)
Definition HealthWithEnv (c : StdioConfig) (unavailable : option string) (env : list (list Z)) : option string :=
  match unavailable with
  | Some e => Some e
  | None =>
      if negb (validateProviderUnprotectedEnv (sc_ProviderID c) env) then Some "must be a boolean"
      else match resolveBinaryPath (sc_Binary c) (sc_ProviderRoot c) with
           | None => Some "binary not found"
           | Some path => match file_mode path with
                          | NoStat => Some "stat"
                          | Mode false => Some "not executable"
                          | Mode true => if missing_env c env then Some "required env var not set" else None
                          end
           end
  end.

(** The probes of [validateStartupWithEnv] read the child's output, chunk by chunk, until the
    prompt shows; [None] is a read that timed out, and the list ends with the probe's time, an error, or a child that does not start. *)
Fixpoint probe_prompt (matches : list Z -> bool) (seen : list Z) (reads : list (option (list Z))) : bool :=
  match reads with
  | [] => false
  | None :: reads => probe_prompt matches seen reads
  | Some [] :: reads => probe_prompt matches seen reads
  | Some data :: reads => let seen := seen ++ data in if matches seen then true else probe_prompt matches seen reads
  end.

Fixpoint probe_output (reads : list (option (list Z))) : bool :=
  match reads with
  | [] => false
  | Some (_ :: _) :: _ => true
  | _ :: reads => probe_output reads
  end.

Definition validateStartupWithEnv (c : StdioConfig) (env : list (list Z)) (matches : list Z -> bool) (reads : list (option (list Z))) : option string :=
  if missing_env c env then Some "requires env var"
  else if negb (sc_prompt c) && bool_decide (sc_StartupProbe c = chars "prompt") then None
  else if bool_decide (sc_StartupProbe c = chars "none") then None
  else if bool_decide (sc_StartupProbe c = chars "output") then if probe_output reads then None else Some "startup probe"
  else if bool_decide (sc_StartupProbe c = chars "prompt") then
    if negb (sc_prompt c) then None else if probe_prompt matches [] reads then None else Some "startup probe"
  else Some "unsupported startup probe".

(** ** Claude's credentials *)

Inductive claudeAuth := AuthToken | AuthEnv | AuthCredentials (path : list Z) | AuthKeychain.

Definition claudeEnvAuthVars : list (list Z) :=
  [chars "ANTHROPIC_API_KEY"; chars "ANTHROPIC_AUTH_TOKEN"; chars "CLAUDE_CODE_USE_BEDROCK"; chars "CLAUDE_CODE_USE_VERTEX"].

(** [claudeUserHome] and [codexUserHome]. *)
Definition user_home (env : list (list Z)) : list Z :=
  match TrimSpace (envValue env (chars "HOME")) with
  | [] => if bool_decide (platform = chars "windows") then TrimSpace (envValue env (chars "USERPROFILE")) else []
  | home => home
  end.

Definition claudeCredentialsValid (data : list Z) : bool :=
  match decode_claude data with
  | None => false
  | Some c => match cc_nested c with
              | Some t => negb (bool_decide (TrimSpace t = [])) || negb (bool_decide (TrimSpace (cc_AccessToken c) = []))
              | None => negb (bool_decide (TrimSpace (cc_AccessToken c) = []))
              end
  end.

Definition resolveClaudeAuth (files : list Z -> read_answer) (env : list (list Z)) : string + claudeAuth :=
  let set_in key := negb (bool_decide (TrimSpace (envValue env key) = [])) in
  let no_file := if bool_decide (platform = chars "darwin") && keychain then inr AuthKeychain else inl "claude requires credentials" in
  if set_in (chars "CLAUDE_CODE_OAUTH_TOKEN") then inr AuthToken
  else if existsb set_in claudeEnvAuthVars then inr AuthEnv
  else match user_home env with
       | [] => no_file
       | home => let credentials := Join (Join home (chars ".claude")) (chars ".credentials.json") in
                 match files credentials with
                 | Unreadable => inl "read claude credentials file"
                 | Missing => if claudeCredentialsValid [] then inr (AuthCredentials credentials) else no_file
                 | Data d => if claudeCredentialsValid d then inr (AuthCredentials credentials) else no_file
                 end
       end.

(** [ClaudeProvider.HealthWithEnv]. *)
Definition claude_HealthWithEnv (c : StdioConfig) (unavailable : option string) (files : list Z -> read_answer) (env : list (list Z)) : option string :=
  match resolveClaudeAuth files env with
  | inl e => Some e
  | inr _ => HealthWithEnv c unavailable env
  end.

(** ** Codex' credentials *)

Inductive auth_kind := Account | API.

Definition nonblank (s : list Z) : bool := negb (bool_decide (TrimSpace s = [])).

Definition codexAuthKind (data : list Z) : option auth_kind :=
  match decode_codex data with
  | None => None
  | Some a =>
      let mode m := bool_decide (ca_Mode a = []) || bool_decide (ca_Mode a = chars m) in
      if mode "chatgpt"%string && match ca_Tokens a with Some (acc, ref) => nonblank acc && nonblank ref | None => false end then Some Account
      else if mode "apikey"%string && nonblank (ca_APIKey a) then Some API
      else None
  end.

Definition auth_file (home : list Z) : list Z := Join home (chars "auth.json").

(** The loop over the candidates: an account file ends it, a file with a key is remembered. *)
Inductive scan_answer := ScanError | FoundAccount (home : list Z) | NoAccount (api : option (list Z)).

Fixpoint scan_candidates (files : list Z -> read_answer) (api : option (list Z)) (candidates : list (list Z)) : scan_answer :=
  match candidates with
  | [] => NoAccount api
  | c :: rest =>
      match files (auth_file c) with
      | Unreadable => ScanError
      | Missing => match codexAuthKind [] with
                   | Some Account => FoundAccount c
                   | Some API => scan_candidates files (Some (default c api)) rest
                   | None => scan_candidates files api rest
                   end
      | Data d => match codexAuthKind d with
                  | Some Account => FoundAccount c
                  | Some API => scan_candidates files (Some (default c api)) rest
                  | None => scan_candidates files api rest
                  end
      end
  end.

Definition codex_candidates (env : list (list Z)) : list Z * list (list Z) :=
  match TrimSpace (envValue env (chars "CODEX_HOME")) with
  | [] => match user_home env with
          | [] => ([], [])
          | u => let home := Join (Join (Join u (chars ".config")) (chars "bridgectl")) (chars "codex-home") in (home, [Join u (chars ".codex"); home])
          end
  | home => (home, [home])
  end.

(** The auth.json written for an API key. *)
Definition key_json (value : list Z) : list Z := print (JObj [(chars "OPENAI_API_KEY", JStr value)]).

(** [resolveCodexAuth]: where the credentials are, and what to write there first. *)
Definition resolveCodexAuth (files : list Z -> read_answer) (env : list (list Z)) : string + (list Z * option (list Z)) :=
  let '(home, candidates) := codex_candidates env in
  if negb (has_prefix [SEP] home) then inl "codex authentication requires an absolute HOME or CODEX_HOME"
  else match scan_candidates files None candidates with
       | ScanError => inl "read codex auth file"
       | FoundAccount c => inr (c, None)
       | NoAccount api =>
           let seed := envValue env (chars "CODEX_AUTH") in
           match codexAuthKind seed with
           | Some _ => inr (home, Some seed)
           | None =>
               match TrimSpace (envValue env (chars "CODEX_API_KEY")), TrimSpace (envValue env (chars "OPENAI_API_KEY")), api with
               | [], [], Some c => inr (c, None)
               | [], [], None => inl "codex requires valid credentials"
               | [], value, _ => inr (home, Some (key_json value))
               | value, _, _ => inr (home, Some (key_json value))
               end
           end
       end.

Definition auth_keys : list (list Z) := [chars "CODEX_AUTH"; chars "CODEX_API_KEY"; chars "OPENAI_API_KEY"].

Definition write_file (path data : list Z) (files : list Z -> read_answer) : list Z -> read_answer :=
  fun p => if bool_decide (p = path) then Data data else files p.

Definition before_eq (e : list Z) : list Z := match Cut EQ e with Some (k, _) => k | None => e end.

(** [applyCodexHomeAuth]; [written]: whether the directory and the file could be made. *)
Definition applyCodexHomeAuth (written : bool) (files : list Z -> read_answer) (env : list (list Z))
  : (list Z -> read_answer) * (string + list (list Z)) :=
  match resolveCodexAuth files env with
  | inl e => (files, inl e)
  | inr (home, seed) =>
      let scrub env := List.filter (fun e => negb (bool_decide (before_eq e ∈ auth_keys))) env in
      let env' := scrub (setEnvValue env (chars "CODEX_HOME") home) in
      match seed with
      | Some (c :: d) => if written then (write_file (auth_file home) (c :: d) files, inr env') else (files, inl "write codex auth file")
      | _ => (files, inr env')
      end
  end.

(** [CodexProvider.BuildCommand] and [HealthWithEnv]. *)
Definition codex_BuildCommand (c : StdioConfig) (repo : list Z) (options : list (list Z * list Z)) (env : option (list (list Z)))
  (written : bool) (files : list Z -> read_answer) : (list Z -> read_answer) * option command :=
  match BuildCommand c repo options env with
  | None => (files, None)
  | Some cmd => match applyCodexHomeAuth written files (cmd_Env cmd) with
                | (files', inr env') => (files', Some (MkCommand (cmd_Path cmd) (cmd_Args cmd) (cmd_Dir cmd) env'))
                | (files', inl _) => (files', None)
                end
  end.

Definition codex_HealthWithEnv (c : StdioConfig) (unavailable : option string) (files : list Z -> read_answer) (env : list (list Z)) : option string :=
  match resolveCodexAuth files env with
  | inl e => Some e
  | inr _ => HealthWithEnv c unavailable env
  end.

(** ** Codex' observer mode *)

Definition codexLauncherPrefix (cmd : command) : nat :=
  let name := trim_suffix (chars ".exe") (Base (cmd_Path cmd)) in
  match cmd_Args cmd with
  | _ :: a :: _ => if (bool_decide (name = chars "node") || bool_decide (name = chars "nodejs")) && negb (has_prefix (chars "-") a) then 2%nat else 1%nat
  | _ => 1%nat
  end.

Definition takes_value (arg : list Z) : bool := bool_decide (arg ∈ map chars ["-c"; "--config"; "--enable"; "--disable"]).
Definition passed_on (arg : list Z) : bool :=
  bool_decide (arg = chars "--strict-config") || has_prefix (chars "--config=") arg || has_prefix (chars "--enable=") arg || has_prefix (chars "--disable=") arg.
Definition is_remote (arg : list Z) : bool := bool_decide (arg = chars "--remote") || has_prefix (chars "--remote=") arg.

(** The user's arguments that the companion gets too. *)
Fixpoint companion_args (args : list (list Z)) : string + list (list Z) :=
  match args with
  | [] => inr []
  | arg :: rest =>
      if bool_decide (arg = chars "--") then inr []
      else if is_remote arg then inl "codex structured reporting owns --remote"
      else if takes_value arg then
        match rest with
        | [] => inl "requires a value"
        | v :: rest => match companion_args rest with inl e => inl e | inr out => inr (arg :: v :: out) end
        end
      else if passed_on arg then match companion_args rest with inl e => inl e | inr out => inr (arg :: out) end
      else companion_args rest
  end.

(** [launchCommands] and the end of [BuildCommand]: the companion's command, and the terminal
    program's with the relay's address before the user's arguments. *)
Definition launchCommands (tui : command) (endpoint : list Z) : string + command :=
  let prefix := codexLauncherPrefix tui in
  match companion_args (drop prefix (cmd_Args tui)) with
  | inl e => inl e
  | inr out => inr (MkCommand (cmd_Path tui)
                      (cmd_Path tui :: take (prefix - 1) (drop 1 (cmd_Args tui)) ++ [chars "app-server"; chars "--listen"; endpoint] ++ out) (cmd_Dir tui) (cmd_Env tui))
  end.

Definition with_remote (tui : command) (proxy : list Z) : command :=
  let prefix := codexLauncherPrefix tui in
  MkCommand (cmd_Path tui) (take prefix (cmd_Args tui) ++ [chars "--remote"; proxy] ++ drop prefix (cmd_Args tui)) (cmd_Dir tui) (cmd_Env tui).
End adapters.

(** ** Environments *)

Lemma env_values_app k a b : env_values k (a ++ b) = env_values k a ++ env_values k b.
Proof. apply omap_app. Qed.

Lemma has_key k e : EQ ∉ k -> (exists v, e = (k ++ [EQ]) ++ v) <-> entry_key e = Some k.
Proof.
  intros Hk; unfold entry_key; split.
  - intros [v ->]; rewrite <- app_assoc; cbn [app]; rewrite Cut_absent by exact Hk; reflexivity.
  - destruct (Cut EQ e) as [[a b]|] eqn:E; [|discriminate]; cbn; intros H; injection H as ->.
    exists b; rewrite <- app_assoc; exact (Cut_spec _ _ _ _ E).
Qed.

Lemma value_of_key k e : EQ ∉ k -> value_of k e <> None <-> entry_key e = Some k.
Proof.
  intros Hk; rewrite <- has_key by exact Hk; unfold value_of; destruct (has_prefix (k ++ [EQ]) e) eqn:E.
  - split; [intros _; apply has_prefix_spec, E|discriminate].
  - split; [congruence|]; intros [v ->]; rewrite has_prefix_app in E; discriminate.
Qed.

(** Dropping entries of other keys leaves a key's values. *)
Lemma env_values_filter k (p : list Z -> bool) env : EQ ∉ k -> (forall e, entry_key e = Some k -> p e = true) ->
  env_values k (List.filter p env) = env_values k env.
Proof.
  intros Hk Hp; induction env as [|e env IH]; [reflexivity|]; cbn [List.filter]; rewrite env_values_cons.
  destruct (p e) eqn:E; [rewrite env_values_cons, IH; reflexivity|].
  destruct (value_of k e) as [v|] eqn:Ev; [|exact IH].
  rewrite Hp in E; [discriminate|]; apply value_of_key; [exact Hk|congruence].
Qed.

Lemma hasEnvKey_value k env : EQ ∉ k -> hasEnvKey env k = true -> env_value k env <> None.
Proof.
  intros Hk H; apply existsb_exists in H as (e & Hin & He); apply bool_decide_eq_true, value_of_key in He; [|exact Hk].
  unfold env_value; intros Hl; apply last_None in Hl.
  assert (Hv : exists v, value_of k e = Some v) by (destruct (value_of k e); [eauto|congruence]); destruct Hv as [v Hv].
  assert (Hx : v ∈ env_values k env) by (apply list_elem_of_omap; exists e; split; [apply list_elem_of_In, Hin|exact Hv]).
  rewrite Hl in Hx; inversion Hx.
Qed.

Lemma value_hasEnvKey k env : EQ ∉ k -> env_value k env <> None -> hasEnvKey env k = true.
Proof.
  intros Hk Hv; unfold env_value in Hv; destruct (env_values k env) as [|v l] eqn:E; [destruct Hv; reflexivity|].
  assert (Hin : v ∈ env_values k env) by (rewrite E; set_solver); apply list_elem_of_omap in Hin as (e & He & Hev).
  apply existsb_exists; exists e; split; [apply list_elem_of_In, He|]; apply bool_decide_eq_true, value_of_key; [exact Hk|congruence].
Qed.

Lemma with_default_spec key dflt env : EQ ∉ key ->
  (forall k, EQ ∉ k -> k <> key -> env_value k (with_default key ((key ++ [EQ]) ++ dflt) env) = env_value k env) /\
  env_value key (with_default key ((key ++ [EQ]) ++ dflt) env) <> None.
Proof.
  intros Hk; unfold with_default; destruct (hasEnvKey env key) eqn:E; [split; [reflexivity|apply hasEnvKey_value; assumption]|].
  split; [intros k Hk' Hne|]; unfold env_value; rewrite env_values_app, env_values_cons, value_of_entry by assumption.
  - rewrite bool_decide_eq_false_2 by congruence; cbn; rewrite app_nil_r; reflexivity.
  - rewrite bool_decide_eq_true_2 by reflexivity; cbn; rewrite last_snoc; discriminate.
Qed.

Definition TERM : list Z := chars "TERM".
Definition COLORTERM : list Z := chars "COLORTERM".

Lemma FilterEnv_values k env : EQ ∉ k -> k ∉ blocked_keys -> k <> TERM -> k <> COLORTERM -> env_value k (FilterEnv env) = env_value k env.
Proof.
  intros Hk Hb Ht Hc; unfold FilterEnv; change (chars "COLORTERM=truecolor") with ((COLORTERM ++ [EQ]) ++ chars "truecolor").
  change (chars "TERM=xterm-256color") with ((TERM ++ [EQ]) ++ chars "xterm-256color").
  rewrite (proj1 (with_default_spec COLORTERM _ _ ltac:(vm_compute; set_solver))), (proj1 (with_default_spec TERM _ _ ltac:(vm_compute; set_solver))) by assumption.
  unfold env_value; rewrite env_values_filter; [reflexivity|exact Hk|]; intros e He; unfold is_blocked; rewrite He; apply negb_true_iff, bool_decide_eq_false_2, Hb.
Qed.

(** The environment a child starts with has no blocked variable, has TERM and COLORTERM, gives
    every other variable its value, and is not changed by filtering again. *)
Theorem child_environment (env : list (list Z)) :
  (forall e, e ∈ FilterEnv env -> is_blocked e = false) /\
  (forall k, EQ ∉ k -> k ∉ blocked_keys -> k <> TERM -> k <> COLORTERM -> env_value k (FilterEnv env) = env_value k env) /\
  env_value TERM (FilterEnv env) <> None /\ env_value COLORTERM (FilterEnv env) <> None /\
  FilterEnv (FilterEnv env) = FilterEnv env.
Proof.
  assert (Hclean : forall e, e ∈ FilterEnv env -> is_blocked e = false).
  { intros e He; unfold FilterEnv, with_default in He.
    assert (Hf : forall x, x ∈ List.filter (fun e => negb (is_blocked e)) env -> is_blocked x = false).
    { intros x Hx; apply list_elem_of_In, filter_In in Hx as [_ Hx]; apply negb_true_iff, Hx. }
    repeat case_match; rewrite ?elem_of_app, ?list_elem_of_singleton in He; destruct_or?; subst; try (apply Hf; assumption); vm_compute; reflexivity. }
  assert (Hterm : env_value TERM (FilterEnv env) <> None).
  { unfold FilterEnv; rewrite (proj1 (with_default_spec COLORTERM (chars "truecolor") _ ltac:(vm_compute; set_solver))) by (vm_compute; (set_solver || discriminate)).
    apply (proj2 (with_default_spec TERM (chars "xterm-256color") _ ltac:(vm_compute; set_solver))). }
  assert (Hcolor : env_value COLORTERM (FilterEnv env) <> None).
  { apply (proj2 (with_default_spec COLORTERM (chars "truecolor") _ ltac:(vm_compute; set_solver))). }
  split_and!; [exact Hclean|intros k; apply FilterEnv_values|exact Hterm|exact Hcolor|].
  set (E := FilterEnv env) in *; unfold FilterEnv at 1.
  assert (Hid : List.filter (fun e => negb (is_blocked e)) E = E).
  { clear Hterm Hcolor; induction E as [|e l IH]; [reflexivity|]; cbn [List.filter]; rewrite (Hclean e) by set_solver; cbn [negb]; f_equal.
    apply IH; intros x Hx; apply Hclean; set_solver. }
  rewrite Hid; unfold with_default; rewrite !(value_hasEnvKey _ E); try reflexivity; try assumption; vm_compute; set_solver.
Qed.

(** ** Codex' child *)

Lemma entry_before k e : entry_key e = Some k -> before_eq e = k.
Proof. unfold entry_key, before_eq; destruct (Cut EQ e) as [[a b]|]; [|discriminate]; cbn; congruence. Qed.

Lemma setEnvValue_value env k v : EQ ∉ k -> env_value k (setEnvValue env k v) = Some v.
Proof.
  intros Hk; unfold setEnvValue, env_value.
  set (f := fun item : list Z => if has_prefix (k ++ [EQ]) item then (k ++ [EQ]) ++ v else item).
  assert (Hf : forall l, exists n, env_values k (map f l) = replicate n v /\ (existsb (has_prefix (k ++ [EQ])) l = true -> n <> 0%nat)).
  { induction l as [|e l (n & Hn & Hz)]; [exists 0%nat; split; [reflexivity|discriminate]|]; cbn [map existsb]; rewrite env_values_cons, Hn.
    unfold f at 1; destruct (has_prefix (k ++ [EQ]) e) eqn:E.
    - rewrite value_of_entry, bool_decide_eq_true_2 by auto; exists (Datatypes.S n); split; [reflexivity|lia].
    - unfold value_of; rewrite E; exists n; split; [reflexivity|exact Hz]. }
  destruct (Hf env) as (n & Hn & Hz); destruct (existsb _ env) eqn:E.
  - rewrite Hn; destruct n as [|n]; [destruct (Hz eq_refl); reflexivity|]; rewrite replicate_S_end, last_snoc; reflexivity.
  - rewrite env_values_app, env_values_cons, value_of_entry, bool_decide_eq_true_2 by auto; cbn; rewrite last_snoc; reflexivity.
Qed.

Lemma setEnvValue_others env k v (p : list Z -> bool) : (forall x, p ((k ++ [EQ]) ++ x) = false) ->
  List.filter p (setEnvValue env k v) = List.filter p env.
Proof.
  intros Hp; unfold setEnvValue.
  assert (Hm : List.filter p (map (fun item => if has_prefix (k ++ [EQ]) item then (k ++ [EQ]) ++ v else item) env) = List.filter p env).
  { induction env as [|e env IH]; [reflexivity|]; cbn [map List.filter]; rewrite IH; destruct (has_prefix (k ++ [EQ]) e) eqn:E; [|reflexivity].
    apply has_prefix_spec in E as [x ->]; rewrite !Hp; reflexivity. }
  destruct (existsb _ env); [exact Hm|]; rewrite List.filter_app, Hm; cbn [List.filter]; rewrite Hp; apply app_nil_r.
Qed.

Lemma filter_coarser {A} (p q : A -> bool) (l : list A) : (forall x, p x = true -> q x = true) -> List.filter p (List.filter q l) = List.filter p l.
Proof.
  intros Hpq; induction l as [|x l IH]; [reflexivity|]; cbn [List.filter]; destruct (q x) eqn:E; cbn [List.filter]; rewrite IH; [reflexivity|].
  destruct (p x) eqn:Ep; [rewrite (Hpq x Ep) in E; discriminate|reflexivity].
Qed.

Definition CODEX_HOME : list Z := chars "CODEX_HOME".

(** What decoding does with an empty input and with a key that was marshalled. *)
Class AdapterLaws `{AdapterWorld} : Prop := {
  decode_nothing : decode_codex [] = None;
  decode_key raw : TrimSpace raw <> [] -> exists v, decode_codex (key_json (TrimSpace raw)) = Some (MkCodexAuth [] v None) /\ TrimSpace v <> []
}.

Section codex.
Context `{W : AdapterWorld} `{AL : !AdapterLaws}.

Lemma nothing_kind : codexAuthKind [] = None.
Proof. unfold codexAuthKind; rewrite decode_nothing; reflexivity. Qed.

Lemma key_kind raw : TrimSpace raw <> [] -> codexAuthKind (key_json (TrimSpace raw)) = Some API.
Proof.
  intros H; destruct (decode_key raw H) as (v & Hd & Hv); unfold codexAuthKind, nonblank; rewrite Hd; cbn.
  rewrite bool_decide_eq_false_2 by exact Hv; reflexivity.
Qed.

(** What the loop over the candidates found is there. *)
Lemma scan_spec files cs : forall api,
  (forall a, api = Some a -> exists d, files (auth_file a) = Data d /\ codexAuthKind d = Some API) ->
  match scan_candidates files api cs with
  | ScanError => True
  | FoundAccount c => exists d, files (auth_file c) = Data d /\ codexAuthKind d = Some Account
  | NoAccount api' => (forall a, api' = Some a -> exists d, files (auth_file a) = Data d /\ codexAuthKind d = Some API) /\
                      forall c d, c ∈ cs -> files (auth_file c) = Data d -> codexAuthKind d <> Some Account
  end.
Proof.
  induction cs as [|c cs IH]; intros api Hapi; cbn [scan_candidates]; [split; [exact Hapi|intros ? ? Hc; inversion Hc]|].
  assert (Hnext : forall api', (forall a, api' = Some a -> exists d, files (auth_file a) = Data d /\ codexAuthKind d = Some API) ->
    (forall d, files (auth_file c) = Data d -> codexAuthKind d <> Some Account) ->
    match scan_candidates files api' cs with
    | ScanError => True
    | FoundAccount c => exists d, files (auth_file c) = Data d /\ codexAuthKind d = Some Account
    | NoAccount api'' => (forall a, api'' = Some a -> exists d, files (auth_file a) = Data d /\ codexAuthKind d = Some API) /\
        forall c' d, c' ∈ c :: cs -> files (auth_file c') = Data d -> codexAuthKind d <> Some Account
    end).
  { intros api' Ha Hc; specialize (IH api' Ha); destruct (scan_candidates files api' cs); try exact IH; destruct IH as [IH1 IH2].
    split; [exact IH1|]; intros c' d' [->|Hin]%elem_of_cons; [apply Hc|apply IH2, Hin]. }
  destruct (files (auth_file c)) as [| |d] eqn:Ef; [rewrite nothing_kind; apply Hnext; [exact Hapi|discriminate]|exact I|].
  destruct (codexAuthKind d) as [[|]|] eqn:Ek; [eauto|apply Hnext..]; try exact Hapi; try (intros d' E; simplify_eq; congruence).
  intros a E; destruct api as [a0|]; cbn in E; simplify_eq; [apply Hapi; reflexivity|eauto].
Qed.

Lemma resolve_spec files env home seed : resolveCodexAuth files env = inr (home, seed) ->
  match seed with
  | None => exists d k, files (auth_file home) = Data d /\ codexAuthKind d = Some k
  | Some s => codexAuthKind s <> None /\ home = (codex_candidates env).1 /\
              forall c d, c ∈ (codex_candidates env).2 -> files (auth_file c) = Data d -> codexAuthKind d <> Some Account
  end.
Proof.
  unfold resolveCodexAuth; destruct (codex_candidates env) as [h cs]; destruct (has_prefix [SEP] h); [|discriminate]; cbn [negb fst snd].
  pose proof (scan_spec files cs None ltac:(discriminate)) as Hs; destruct (scan_candidates files None cs) as [|c|api]; [discriminate| |].
  { intros E; simplify_eq; destruct Hs as (d & Hd & Hk); eauto. }
  destruct Hs as [Hapi Hno]; destruct (codexAuthKind (envValue env (chars "CODEX_AUTH"))) eqn:Ek; [intros E; simplify_eq; split_and!; [congruence|reflexivity|exact Hno]|].
  destruct (TrimSpace (envValue env (chars "CODEX_API_KEY"))) as [|x l] eqn:E1.
  - destruct (TrimSpace (envValue env (chars "OPENAI_API_KEY"))) as [|y m] eqn:E2.
    + destruct api as [a|]; [|discriminate]; intros E; simplify_eq; destruct (Hapi home eq_refl) as (d & Hd & Hk); eauto.
    + intros E; simplify_eq; rewrite <- E2; rewrite key_kind by (rewrite E2; discriminate); split_and!; [discriminate|reflexivity|exact Hno].
  - assert (Hkey : codexAuthKind (key_json (x :: l)) = Some API) by (rewrite <- E1; apply key_kind; rewrite E1; discriminate).
    destruct (TrimSpace (envValue env (chars "OPENAI_API_KEY"))); intros E; simplify_eq; rewrite Hkey; (split_and!; [discriminate|reflexivity|exact Hno]).
Qed.

(** When Codex' credentials were resolved, the child's CODEX_HOME holds a usable auth.json, no
    other credential is in its environment, every other entry is kept in order, and the files
    are untouched whenever one of the places looked at already held an account. *)
Theorem codex_child_auth (written : bool) (files files' : list Z -> read_answer) (env env' : list (list Z)) :
  applyCodexHomeAuth written files env = (files', inr env') ->
  (exists home d k, env_value CODEX_HOME env' = Some home /\ files' (auth_file home) = Data d /\ codexAuthKind d = Some k) /\
  (forall e, e ∈ env' -> before_eq e ∉ auth_keys) /\
  (let untouched e := negb (bool_decide (before_eq e ∈ CODEX_HOME :: auth_keys)) in List.filter untouched env' = List.filter untouched env) /\
  (forall c d, c ∈ (codex_candidates env).2 -> files (auth_file c) = Data d -> codexAuthKind d = Some Account -> files' = files).
Proof.
  intros H; unfold applyCodexHomeAuth in H; destruct (resolveCodexAuth files env) as [e|[home seed]] eqn:Er; [discriminate|].
  apply resolve_spec in Er; set (scrub := List.filter _) in H.
  assert (He : env' = scrub (setEnvValue env CODEX_HOME home)) by (destruct seed as [[|]|]; [|destruct written|]; simplify_eq; reflexivity).
  assert (Hhome : env_value CODEX_HOME env' = Some home).
  { rewrite He; subst scrub; unfold env_value; rewrite env_values_filter; [apply setEnvValue_value; vm_compute; set_solver|vm_compute; set_solver|].
    intros e' Hk; rewrite (entry_before _ _ Hk); vm_compute; reflexivity. }
  assert (Hseed : forall s, seed = Some s -> s <> []).
  { intros s ->; destruct Er as [Hk _]; intros ->; apply Hk, nothing_kind. }
  assert (Hf : match seed with None => files' = files | Some s => files' = write_file (auth_file home) s files end).
  { destruct seed as [[|x l]|]; [destruct (Hseed [] eq_refl); reflexivity|destruct written|]; simplify_eq; reflexivity. }
  split_and!.
  - destruct seed as [s|]; [|destruct Er as (d & k & Hd & Hk); exists home, d, k; rewrite Hf; auto].
    destruct Er as [Hk _]; destruct (codexAuthKind s) as [k|] eqn:Ek; [|congruence]; exists home, s, k; split_and!; [exact Hhome| |exact Ek].
    rewrite Hf; unfold write_file; rewrite bool_decide_eq_true_2 by reflexivity; reflexivity.
  - intros e Hin; rewrite He in Hin; subst scrub; apply list_elem_of_In, filter_In in Hin as [_ Hn]; apply negb_true_iff, bool_decide_eq_false in Hn; exact Hn.
  - cbv zeta; rewrite He; subst scrub; rewrite <- (setEnvValue_others env CODEX_HOME home).
    + apply filter_coarser; intros e Hn; apply negb_true_iff, bool_decide_eq_false in Hn; apply negb_true_iff, bool_decide_eq_false_2; set_solver.
    + intros x; unfold before_eq; rewrite <- app_assoc; cbn [app]; rewrite Cut_absent by (vm_compute; set_solver).
      rewrite bool_decide_eq_true_2 by set_solver; reflexivity.
  - intros c d Hc Hd Hk; destruct seed as [s|]; [|exact Hf]; destruct Er as (_ & _ & Hno); destruct (Hno c d Hc Hd Hk).
Qed.
End codex.

(** ** Codex' observer mode *)

(** The companion gets only configuration arguments of the user's, in their order, in the
    same directory and environment; the terminal program keeps all of them. *)
Lemma companion_args_sublist args : forall out, companion_args args = inr out -> out `sublist_of` args /\
  Forall (fun a => takes_value a = true \/ passed_on a = true \/ exists o, o ∈ args /\ takes_value o = true) out.
Proof.
  induction args as [args IH] using (induction_ltof1 _ (@length (list Z))); unfold ltof in IH; intros out H.
  destruct args as [|arg rest]; cbn [companion_args] in H; [simplify_eq; split; constructor|].
  destruct (bool_decide (arg = chars "--")); [simplify_eq; split; [apply sublist_nil_l|constructor]|].
  destruct (is_remote arg); [discriminate|]; destruct (takes_value arg) eqn:Et.
  - destruct rest as [|v rest]; [discriminate|]; destruct (companion_args rest) as [e|out'] eqn:E; [discriminate|]; simplify_eq.
    destruct (IH rest ltac:(cbn; lia) out' E) as [Hs Hf]; split; [do 2 apply sublist_skip; exact Hs|].
    constructor; [auto|constructor; [right; right; exists arg; split; [set_solver|exact Et]|]].
    eapply List.Forall_impl; [|exact Hf]; intros a [Ha|[Ha|(o & Ho & Hv)]]; [auto|auto|right; right; exists o; split; [set_solver|exact Hv]].
  - assert (Hmono : forall l, Forall (fun a => takes_value a = true \/ passed_on a = true \/ exists o, o ∈ rest /\ takes_value o = true) l ->
      Forall (fun a => takes_value a = true \/ passed_on a = true \/ exists o, o ∈ arg :: rest /\ takes_value o = true) l).
    { intros l Hl; eapply List.Forall_impl; [|exact Hl]; intros a [Ha|[Ha|(o & Ho & Hv)]]; [auto|auto|right; right; exists o; split; [set_solver|exact Hv]]. }
    destruct (passed_on arg) eqn:Ep.
    + destruct (companion_args rest) as [e|out'] eqn:E; [discriminate|]; simplify_eq; destruct (IH rest ltac:(cbn; lia) out' E) as [Hs Hf].
      split; [apply sublist_skip, Hs|constructor; [auto|apply Hmono, Hf]].
    + destruct (IH rest ltac:(cbn; lia) out H) as [Hs Hf]; split; [apply sublist_cons, Hs|apply Hmono, Hf].
Qed.

Lemma launch_spec tui endpoint proxy app : launchCommands tui endpoint = inr app ->
  exists launcher user out, cmd_Args tui = launcher ++ user /\ cmd_Args (with_remote tui proxy) = launcher ++ [chars "--remote"; proxy] ++ user /\
    cmd_Args app = cmd_Path tui :: drop 1 launcher ++ [chars "app-server"; chars "--listen"; endpoint] ++ out /\ out `sublist_of` user /\
    cmd_Env app = cmd_Env tui /\ cmd_Dir app = cmd_Dir tui.
Proof.
  unfold launchCommands; destruct (companion_args _) as [e|out] eqn:E; [discriminate|]; intros H; injection H as <-.
  exists (take (codexLauncherPrefix tui) (cmd_Args tui)), (drop (codexLauncherPrefix tui) (cmd_Args tui)), out.
  split_and!; [symmetry; apply take_drop|reflexivity| |apply (companion_args_sublist _ _ E)|reflexivity|reflexivity].
  cbn [cmd_Args]; do 2 f_equal; destruct (cmd_Args tui) as [|a [|b l]]; unfold codexLauncherPrefix; cbn; try reflexivity; repeat case_match; reflexivity.
Qed.

(** ** Which credentials count *)

(** The flag that turns the agent's own protection off is passed only when the daemon's
    environment asks for it in so many words. *)
Lemma unprotected_only_when_asked `{AdapterWorld} id args root out :
  commandArgsForProvider id args root = Some out ->
  exists resolved, resolveCommandArgs args root = Some resolved /\
  (out = resolved \/ exists var extra raw, providerUnprotectedModes id = Some (var, extra) /\ env_value var daemon_env = Some raw /\
     ParseBool (TrimSpace raw) = Some true /\ out = resolved ++ extra).
Proof.
  unfold commandArgsForProvider, parseProviderUnprotectedMode; destruct (resolveCommandArgs args root) as [r|]; [|discriminate].
  intros Hout; exists r; split; [reflexivity|]; destruct (providerUnprotectedModes id) as [[var extra]|] eqn:Em; [|simplify_eq; auto].
  destruct (env_value var daemon_env) as [raw|] eqn:Ev; [|simplify_eq; auto].
  destruct (TrimSpace raw) as [|c l] eqn:Et; [simplify_eq; auto|]; destruct (ParseBool (c :: l)) as [[|]|] eqn:Ep; simplify_eq; auto.
  right; exists var, extra, raw; rewrite Et; auto.
Qed.

(** A provider reported healthy can be built, unless the daemon's own environment holds a
    value that is not a boolean. *)
Lemma healthy_builds `{AdapterWorld} c env repo options senv : HealthWithEnv c None env = None ->
  resolveCommandArgs (sc_DefaultArgs c) (sc_ProviderRoot c) <> None ->
  parseProviderUnprotectedMode (sc_ProviderID c) (fun key => env_value key daemon_env) <> None ->
  BuildCommand c repo options senv <> None.
Proof.
  unfold HealthWithEnv, BuildCommand, commandArgsForProvider; destruct (validateProviderUnprotectedEnv _ _); [|discriminate]; cbn [negb].
  destruct (resolveBinaryPath _ _) as [path|]; [|discriminate]; intros _ Ha Hm.
  destruct (resolveCommandArgs _ _); [|congruence]; destruct (providerUnprotectedModes _) as [[v x]|]; [|discriminate].
  destruct (parseProviderUnprotectedMode _ _) as [[|]|]; [discriminate|discriminate|congruence].
Qed.

(** ** A concrete host *)

Definition toy_decode_codex (d : list Z) : option codex_auth_json :=
  if bool_decide (d = []) then None
  else if bool_decide (d = chars "account") then Some (MkCodexAuth [] [] (Some (chars "a", chars "r")))
  else Some (MkCodexAuth [] (if bool_decide (TrimSpace d = []) then chars "k" else d) None).

#[local] Instance toy_host : AdapterWorld := {
  working_dir := Some (chars "/srv"); LookPath _ := Some (chars "/usr/bin/codex"); daemon_env := [chars "HOME=/root"; chars "AWS_SESSION_TOKEN=x"];
  file_mode _ := Mode true; platform := chars "linux"; keychain := false; decode_codex := toy_decode_codex; decode_claude _ := None }.

#[local] Instance toy_host_laws : AdapterLaws.
Proof.
  split; [reflexivity|]; intros raw Hr; cbn [decode_codex toy_host]; unfold toy_decode_codex.
  rewrite bool_decide_eq_false_2 by (unfold key_json; cbn; discriminate).
  rewrite bool_decide_eq_false_2 by (unfold key_json; cbn; discriminate).
  eexists; split; [reflexivity|]; case_bool_decide; [vm_compute; discriminate|assumption].
Qed.

Definition toy_files : list Z -> read_answer := fun _ => Missing.
Definition toy_env : list (list Z) := [chars "HOME=/root"; chars "OPENAI_API_KEY=sk"; chars "LANG=C"].

Lemma codex_child_auth_witness :
  exists files' env', applyCodexHomeAuth true toy_files toy_env = (files', inr env') /\
    env' = [chars "HOME=/root"; chars "LANG=C"; chars "CODEX_HOME=/root/.config/bridgectl/codex-home"] /\ forall e, e ∈ env' -> before_eq e ∉ auth_keys.
Proof.
  assert (H : exists f, applyCodexHomeAuth true toy_files toy_env =
    (f, inr [chars "HOME=/root"; chars "LANG=C"; chars "CODEX_HOME=/root/.config/bridgectl/codex-home"])) by (eexists; vm_compute; reflexivity).
  destruct H as [f Hf]; exists f; eexists; split; [exact Hf|split; [reflexivity|]].
  apply (proj1 (proj2 (codex_child_auth true toy_files f toy_env _ Hf))).
Defined.

(** The session's argument options are appended in the order Go ranges over the map. *)
Lemma argument_options_unordered :
  let c := MkStdio (chars "codex") (chars "codex") [] (chars "none") false [] [] in
  let a := (chars "arg:1", chars "--model") in let b := (chars "arg:2", chars "o3") in
  option_map cmd_Args (BuildCommand c (chars "/r") [a; b] None) = Some [chars "/usr/bin/codex"; chars "--model"; chars "o3"] /\
  option_map cmd_Args (BuildCommand c (chars "/r") [b; a] None) = Some [chars "/usr/bin/codex"; chars "o3"; chars "--model"].
Proof. split; vm_compute; reflexivity. Qed.
