(* ===== verification/ClaudeSettings.v ===== *)
(** * Claude's settings and hook observers: internal/provider/claude_hooks.go

    The user's settings given on the command line are merged with the settings that carry
    bridgectl's hooks ([mergeClaudeSettings]), and a provider keeps one hook observer per
    session ([observer_step]).

    Raw JSON values are texts; reading a file and decoding are the class [SettingsWorld].
    A decoded object is the list of its fields in the order of one range over the map. *)

From S2P Require Import Prelude GoStd GoText EnrollServer.

Class SettingsWorld := {
  ReadFile : list Z -> option (list Z);
  decode_object : list Z -> option (list (list Z * list Z));  (* [None]: not an object, or null *)
  decode_hooks : list Z -> option (list (list Z * list (list Z)))
}.

Abbreviation hook_map := (gmap (list Z) (list (list Z))).
Abbreviation setting_map := (gmap (list Z) (list Z)).

Definition HOOKS : list Z := chars "hooks".

Section merging.
Context `{W : SettingsWorld} (repo : list Z).

(** The value of one [--settings]: inline JSON, or a file. *)
Definition settings_data (value : list Z) : option (list Z) :=
  if has_prefix (chars "{") (TrimSpace value) then Some value
  else ReadFile (if has_prefix [SEP] value then value else Join repo value).

Definition add_hooks (hooks : hook_map) (additional : list (list Z * list (list Z))) : hook_map :=
  fold_left (fun h ee => <[ee.1 := ee.2 ++ default [] (h !! ee.1)]> h) additional hooks.

(** One field of the user's object; [None]: hooks that do not decode. *)
Definition add_setting (acc : option (hook_map * setting_map)) (kv : list Z * list Z) : option (hook_map * setting_map) :=
  match acc with
  | None => None
  | Some (hooks, merged) =>
      if bool_decide (kv.1 = HOOKS) then option_map (fun a => (add_hooks hooks a, merged)) (decode_hooks kv.2)
      else Some (hooks, <[kv.1 := kv.2]> merged)
  end.

Definition add_settings (hooks : hook_map) (merged : setting_map) (value : list Z) : string + (hook_map * setting_map) :=
  match settings_data value with
  | None => inl "read Claude settings"
  | Some data => match decode_object data with
                 | None => inl "invalid Claude settings object"
                 | Some user => match fold_left add_setting user (Some (hooks, merged)) with
                                | None => inl "invalid Claude hooks"
                                | Some hm => inr hm
                                end
                 end
  end.

Record merge_result := MkMerge { mr_out : list (list Z); mr_positional : list (list Z); mr_hooks : hook_map; mr_merged : setting_map }.

Definition FLAG : list Z := chars "--settings".

(** The loop over the arguments. *)
Fixpoint merge_args (fuel : nat) (args out : list (list Z)) (hooks : hook_map) (merged : setting_map) : string + merge_result :=
  match fuel, args with
  | O, _ | _, [] => inr (MkMerge out [] hooks merged)
  | Datatypes.S fuel, arg :: rest =>
      if bool_decide (arg = chars "--") then inr (MkMerge out args hooks merged)
      else if bool_decide (arg = FLAG) then
        match rest with
        | [] => inl "claude --settings requires a value"
        | value :: rest => match add_settings hooks merged value with
                           | inl e => inl e
                           | inr (h, m) => merge_args fuel rest out h m
                           end
        end
      else if has_prefix (FLAG ++ [61]) arg then
        match add_settings hooks merged (drop (length FLAG + 1) arg) with
        | inl e => inl e
        | inr (h, m) => merge_args fuel rest out h m
        end
      else merge_args fuel rest (out ++ [arg]) hooks merged
  end.

(** [mergeClaudeSettings]: the arguments, and the settings written to the generated file
    (the hooks under their key); [generated_hooks]: those the file carried. *)
Definition mergeClaudeSettings (args : list (list Z)) (generated : list Z) (generated_hooks : hook_map)
  : string + (list (list Z) * hook_map * setting_map) :=
  match merge_args (length args) args [] generated_hooks ∅ with
  | inl e => inl e
  | inr r => inr (mr_out r ++ [FLAG; generated] ++ mr_positional r, mr_hooks r, mr_merged r)
  end.

(** ** What is kept *)

Definition entries (h : hook_map) (event : list Z) : list (list Z) := default [] (h !! event).

(** The hooks of [h] stand at the end of those of [h'], event by event. *)
Definition extends (h h' : hook_map) : Prop := forall event, entries h event `suffix_of` entries h' event.

#[global] Instance extends_preorder : PreOrder extends.
Proof. split; [intros h event; reflexivity|intros a b c H1 H2 event; etrans; eauto]. Qed.

Lemma add_hooks_extends additional : forall hooks, extends hooks (add_hooks hooks additional).
Proof.
  induction additional as [|[ev es] additional IH]; intros hooks; cbn [add_hooks fold_left]; [reflexivity|].
  etrans; [|apply IH]; intros event; unfold entries; cbn [fst snd]; destruct (decide (event = ev)) as [->|Hne].
  - rewrite lookup_insert_eq; cbn; apply suffix_app_r; reflexivity.
  - rewrite lookup_insert_ne by congruence; reflexivity.
Qed.

Lemma fold_None user : fold_left add_setting user None = None.
Proof. induction user; [reflexivity|assumption]. Qed.

Lemma add_user_extends user : forall hooks merged h m, fold_left add_setting user (Some (hooks, merged)) = Some (h, m) -> extends hooks h /\ (merged !! HOOKS = None -> m !! HOOKS = None).
Proof.
  induction user as [|[k v] user IH]; intros hooks merged h m H; cbn [fold_left] in H; [simplify_eq; split; [reflexivity|auto]|].
  unfold add_setting at 2 in H; cbn [fst snd] in H; case_bool_decide as Ek.
  - destruct (decode_hooks v) as [a|]; cbn [option_map] in H; [|rewrite fold_None in H; discriminate].
    destruct (IH _ _ _ _ H) as [He Hm]; split; [etrans; [apply add_hooks_extends|exact He]|exact Hm].
  - destruct (IH _ _ _ _ H) as [He Hm]; split; [exact He|]; intros Hn; apply Hm; rewrite lookup_insert_ne by congruence; exact Hn.
Qed.

Lemma add_settings_extends hooks merged value h m : add_settings hooks merged value = inr (h, m) -> extends hooks h /\ (merged !! HOOKS = None -> m !! HOOKS = None).
Proof.
  unfold add_settings; destruct (settings_data value) as [data|]; [|discriminate]; destruct (decode_object data) as [user|]; [|discriminate].
  destruct (fold_left add_setting user _) as [hm|] eqn:E; [|discriminate]; intros H; simplify_eq; eapply add_user_extends; exact E.
Qed.

(** The arguments that are neither [--settings] nor its value, up to [--]; and the rest. *)
Fixpoint plain_args (fuel : nat) (args : list (list Z)) : list (list Z) * list (list Z) :=
  match fuel, args with
  | O, _ | _, [] => ([], [])
  | Datatypes.S fuel, arg :: rest =>
      if bool_decide (arg = chars "--") then ([], args)
      else if bool_decide (arg = FLAG) then plain_args fuel (drop 1 rest)
      else if has_prefix (FLAG ++ [61]) arg then plain_args fuel rest
      else let '(out, pos) := plain_args fuel rest in (arg :: out, pos)
  end.

Lemma merge_args_spec fuel : forall args out hooks merged r, merge_args fuel args out hooks merged = inr r ->
  mr_out r = out ++ (plain_args fuel args).1 /\ mr_positional r = (plain_args fuel args).2 /\ extends hooks (mr_hooks r) /\
  (merged !! HOOKS = None -> mr_merged r !! HOOKS = None).
Proof.
  induction fuel as [|fuel IH]; intros [|arg rest] out hooks merged r H; cbn [merge_args plain_args] in *;
    try (simplify_eq; cbn; rewrite app_nil_r; split_and!; [reflexivity|reflexivity|reflexivity|auto]; fail).
  case_bool_decide as Ed; [simplify_eq; cbn; rewrite app_nil_r; split_and!; [reflexivity|reflexivity|reflexivity|auto]|].
  case_bool_decide as Es.
  - destruct rest as [|value rest]; [discriminate|]; destruct (add_settings hooks merged value) as [e|[h m]] eqn:E; [discriminate|].
    apply add_settings_extends in E as [E1 E2]; destruct (IH _ _ _ _ _ H) as (H1 & H2 & H3 & H4); cbn [drop].
    split_and!; [exact H1|exact H2|etrans; eassumption|auto].
  - destruct (has_prefix (FLAG ++ [61]) arg).
    + destruct (add_settings hooks merged _) as [e|[h m]] eqn:E; [discriminate|]; apply add_settings_extends in E as [E1 E2].
      destruct (IH _ _ _ _ _ H) as (H1 & H2 & H3 & H4); split_and!; [exact H1|exact H2|etrans; eassumption|auto].
    + destruct (IH _ _ _ _ _ H) as (H1 & H2 & H3 & H4); destruct (plain_args fuel rest) as [o p]; cbn [fst snd] in *.
      split_and!; [rewrite H1, <- app_assoc; reflexivity|exact H2|exact H3|exact H4].
Qed.

(** Merging settings keeps, for every event, all generated hooks after the user's, sets the
    hooks nowhere else, and keeps the user's arguments in order with one reference to the
    generated file before the positional ones. *)
Theorem settings_merge_keeps_hooks (args args' : list (list Z)) (generated : list Z) (gen hooks : hook_map) (merged : setting_map) :
  mergeClaudeSettings args generated gen = inr (args', hooks, merged) ->
  (forall event, entries gen event `suffix_of` entries hooks event) /\ merged !! HOOKS = None /\
  args' = (plain_args (length args) args).1 ++ [FLAG; generated] ++ (plain_args (length args) args).2.
Proof.
  unfold mergeClaudeSettings; destruct (merge_args _ _ _ _ _) as [e|r] eqn:E; [discriminate|]; intros H; simplify_eq.
  apply merge_args_spec in E as (H1 & H2 & H3 & H4); split_and!; [exact H3|apply H4, lookup_empty|rewrite H1, H2; reflexivity].
Qed.
End merging.

(** ** One observer per session *)

Record observers := MkObservers { ob_sessions : gmap string nat; ob_cancelled : list nat }.

(** [BuildCommand] registers the observer it made, unless the session has one; the end of a
    session's context removes it. *)
Inductive observer_event := Register (session : string) (observer : nat) | Finished (session : string).

Definition observer_step (o : observers) (e : observer_event) : observers :=
  match e with
  | Register s n => match ob_sessions o !! s with
                    | Some _ => MkObservers (ob_sessions o) (n :: ob_cancelled o)
                    | None => MkObservers (<[s := n]> (ob_sessions o)) (ob_cancelled o)
                    end
  | Finished s => MkObservers (delete s (ob_sessions o)) (ob_cancelled o)
  end.

Definition WatchInteraction (o : observers) (session : string) : option nat := ob_sessions o !! session.

(** What a watcher gets is the observer whose command was started, and it stays the same
    until the session's context ends. *)
Lemma observer_kept o s n es : WatchInteraction o s = Some n -> Forall (fun e => e <> Finished s) es ->
  WatchInteraction (foldl observer_step o es) s = Some n.
Proof.
  unfold WatchInteraction; revert o; induction es as [|e es IH]; intros o Ho Hf; [exact Ho|]; apply Forall_cons_1 in Hf as [He Hf]; cbn; apply IH; [|exact Hf].
  destruct e as [s' n'|s']; cbn.
  - destruct (decide (s' = s)) as [->|Hne]; [rewrite Ho; exact Ho|].
    destruct (ob_sessions o !! s'); cbn; [exact Ho|rewrite lookup_insert_ne by exact Hne; exact Ho].
  - rewrite lookup_delete_ne by congruence; exact Ho.
Qed.

(** ** A concrete merge *)

#[local] Instance demo_settings : SettingsWorld := {
  ReadFile p := if bool_decide (p = chars "/r/mine.json") then Some (chars "file") else None;
  decode_object d := if bool_decide (d = chars "file") then Some [(chars "model", chars "opus"); (HOOKS, chars "h")] else None;
  decode_hooks d := Some [(chars "Stop", [chars "notify"])] }.

Definition demo_args : list (list Z) := [chars "claude"; chars "--settings"; chars "mine.json"; chars "-p"; chars "--"; chars "--settings"].
Definition demo_gen : hook_map := {[ chars "Stop" := [chars "bridge"] ]}.

Lemma settings_merge_keeps_hooks_witness : exists args' hooks merged,
  mergeClaudeSettings (chars "/r") demo_args (chars "/tmp/s.json") demo_gen = inr (args', hooks, merged) /\
  entries hooks (chars "Stop") = [chars "notify"; chars "bridge"] /\ merged !! HOOKS = None.
Proof.
  assert (Hm : match mergeClaudeSettings (chars "/r") demo_args (chars "/tmp/s.json") demo_gen with
               | inr (_, h, _) => entries h (chars "Stop") = [chars "notify"; chars "bridge"] | inl _ => False end) by (vm_compute; reflexivity).
  destruct (mergeClaudeSettings (chars "/r") demo_args (chars "/tmp/s.json") demo_gen) as [e|[[args' hooks] merged]] eqn:E; [destruct Hm|].
  exists args', hooks, merged; split; [reflexivity|split; [exact Hm|]].
  apply (proj1 (proj2 (settings_merge_keeps_hooks (chars "/r") demo_args args' (chars "/tmp/s.json") demo_gen hooks merged E))).
Defined.
