(* ===== verification/GoJson.v ===== *)
(** * encoding/json: decoding into structs

    A value is a syntax tree that keeps the text of its literals, arrays and objects, so
    that a [json.RawMessage] is the text of the tree it was given.  [decode_struct] is
    [json.Unmarshal] into a struct: the keys of the object in order, each stored in the
    field whose name it folds to; a null leaves a field as it is; a value of another type
    leaves the field and makes the call return an error, after the rest was decoded (the
    second component is false).  A later occurrence of a key overwrites the earlier one,
    merging nested structs as the decoder does; the elements of an array start from zero
    values.

    Unmarshal checks the whole text first: a text that is not JSON has no tree, and the
    target is left alone. *)

From S2P Require Import Prelude GoStd GoText.

Inductive jvalue :=
| VNull
| VBool (b : bool)
| VNum (raw : string)
| VStr (raw s : string)
| VArr (raw : string) (l : list jvalue)
| VObj (raw : string) (fields : list (string * jvalue)).

Definition raw_text (v : jvalue) : string :=
  match v with
  | VNull => "null"
  | VBool b => if b then "true" else "false"
  | VNum raw | VStr raw _ | VArr raw _ | VObj raw _ => raw
  end.

(** [foldName]: ASCII letters to upper case; of the other runes only the Kelvin sign and
    the long s fold to ASCII. *)
Definition fold_rune (r : Z) : Z :=
  if (97 <=? r) && (r <=? 122) then r - 32 else if r =? 8490 then 75 else if r =? 383 then 83 else r.

Definition fold_name (s : string) : list Z := map (fun rw => fold_rune (fst rw)) (runes (chars s)).

Definition field_is (name key : string) : bool := bool_decide (fold_name name = fold_name key).

(** What decoding a value into a variable leaves there, and whether it was of its type. *)
Definition decoder (T : Type) : Type := jvalue -> T -> T * bool.

Definition decode_string : decoder string := fun v cur =>
  match v with VNull => (cur, true) | VStr _ s => (s, true) | _ => (cur, false) end.

Definition decode_bool : decoder bool := fun v cur =>
  match v with VNull => (cur, true) | VBool b => (b, true) | _ => (cur, false) end.

Definition decode_int : decoder Z := fun v cur =>
  match v with
  | VNull => (cur, true)
  | VNum raw => match Atoi (chars raw) with Some n => (n, true) | None => (cur, false) end
  | _ => (cur, false)
  end.

(** A pointer: nil for null, else allocated and what it points to decoded. *)
Definition decode_ptr {T} (zero : T) (dec : decoder T) : decoder (option T) := fun v cur =>
  match v with
  | VNull => (None, true)
  | _ => let '(t, ok) := dec v (default zero cur) in (Some t, ok)
  end.

(** A [json.RawMessage], kept as its text or as its tree. *)
Definition decode_raw : decoder string := fun v _ => (raw_text v, true).
Definition decode_tree : decoder (option jvalue) := fun v _ => (Some v, true).

(** A slice; [None] is nil. *)
Definition decode_slice {T} (zero : T) (dec : decoder T) : decoder (option (list T)) := fun v cur =>
  match v with
  | VNull => (None, true)
  | VArr _ l => let rs := map (fun x => dec x zero) l in (Some (map fst rs), forallb snd rs)
  | _ => (cur, false)
  end.

Definition decode_list {T} (zero : T) (dec : decoder T) : decoder (list T) := fun v cur =>
  let '(r, ok) := decode_slice zero dec v (Some cur) in (default [] r, ok).

(** A field: its name, and how a value is stored in it. *)
Definition field {T F} (name : string) (get : T -> F) (set : F -> T -> T) (dec : decoder F) : string * decoder T :=
  (name, fun v t => let '(x, ok) := dec v (get t) in (set x t, ok)).

Definition store_field {T} (fields : list (string * decoder T)) (key : string) : decoder T := fun v t =>
  match List.find (fun f => field_is (fst f) key) fields with
  | Some (_, dec) => dec v t
  | None => (t, true)
  end.

Definition decode_struct {T} (fields : list (string * decoder T)) : decoder T := fun v cur =>
  match v with
  | VNull => (cur, true)
  | VObj _ kvs => fold_left (fun '(t, ok) '(k, v) => let '(t', ok') := store_field fields k v t in (t', ok && ok')) kvs (cur, true)
  | _ => (cur, false)
  end.

(** [json.Unmarshal] into a fresh variable: what it leaves there and whether it failed. *)
Definition Unmarshal {T} (dec : decoder T) (zero : T) (v : option jvalue) : T * bool :=
  match v with Some v => dec v zero | None => (zero, false) end.

(** The variable when no error was returned. *)
Definition decoded {T} (dec : decoder T) (zero : T) (v : option jvalue) : option T :=
  let '(t, ok) := Unmarshal dec zero v in if ok then Some t else None.

(** An object built from its fields, for examples; its text plays no part in decoding. *)
Definition obj (fields : list (string * jvalue)) : jvalue := VObj "{}" fields.
Definition str (s : string) : jvalue := VStr (text ([34] ++ chars s ++ [34])) s.
