(* ===== verification/CodexApp.v ===== *)
(** * Codex app-server: what a message says of the session

    internal/codexapp/protocol.go (the wire types), approval.go (which approvals may be
    decided remotely) and client.go (the translation of a thread's status into an
    interaction, and the read-only observer).

    A message is its text with its syntax tree (GoJson); the wire structs are decoded
    from the tree with the fields their tags name.  The hash that names an approval
    ([digest]: hexadecimal SHA-256 of the JSON array of its four strings) is an argument. *)

From S2P Require Import Prelude Types GoStd GoText GoJson Session Supervisor Respond Hooks.

(** ** Wire types (protocol.go, approval.go) *)

Record rpcError := MkRPCError { re_Code : Z; re_Message : string }.

Record envelope := MkEnv {
  e_JSONRPC : string; e_ID : string; e_Method : string;
  e_Params : option jvalue; e_Result : option jvalue; e_Error : option rpcError }.

Definition zero_env : envelope := MkEnv "" "" "" None None None.

Definition rpcError_fields : list (string * decoder rpcError) :=
  [field "code" re_Code (fun x t => MkRPCError x (re_Message t)) decode_int;
   field "message" re_Message (fun x t => MkRPCError (re_Code t) x) decode_string].

Definition envelope_fields : list (string * decoder envelope) :=
  [field "jsonrpc" e_JSONRPC (fun x t => MkEnv x (e_ID t) (e_Method t) (e_Params t) (e_Result t) (e_Error t)) decode_string;
   field "id" e_ID (fun x t => MkEnv (e_JSONRPC t) x (e_Method t) (e_Params t) (e_Result t) (e_Error t)) decode_raw;
   field "method" e_Method (fun x t => MkEnv (e_JSONRPC t) (e_ID t) x (e_Params t) (e_Result t) (e_Error t)) decode_string;
   field "params" e_Params (fun x t => MkEnv (e_JSONRPC t) (e_ID t) (e_Method t) x (e_Result t) (e_Error t)) decode_tree;
   field "result" e_Result (fun x t => MkEnv (e_JSONRPC t) (e_ID t) (e_Method t) (e_Params t) x (e_Error t)) decode_tree;
   field "error" e_Error (fun x t => MkEnv (e_JSONRPC t) (e_ID t) (e_Method t) (e_Params t) (e_Result t) x) (decode_ptr (MkRPCError 0 "") (decode_struct rpcError_fields))].

(** A frame of the websocket: its type, its text and the tree of the text. *)
Record message := MkMessage { m_binary : bool; m_text : string; m_tree : option jvalue }.

Definition read_env (m : message) : envelope * bool := Unmarshal (decode_struct envelope_fields) zero_env (m_tree m).

Definition methodInitialize : string := "initialize".
Definition methodThreadStarted : string := "thread/started".
Definition methodThreadStatusChanged : string := "thread/status/changed".
Definition methodExecCommandApproval : string := "execCommandApproval".
Definition methodApplyPatchApproval : string := "applyPatchApproval".
Definition methodItemCommandExecApproval : string := "item/commandExecution/requestApproval".
Definition methodItemFileChangeApproval : string := "item/fileChange/requestApproval".
Definition methodItemPermissionsApproval : string := "item/permissions/requestApproval".
Definition methodItemToolRequestUserInput : string := "item/tool/requestUserInput".

Record threadStatusPayload := MkStatus { ts_Type : string; ts_ActiveFlags : list string }.
Definition zero_status : threadStatusPayload := MkStatus "" [].

Definition status_fields : list (string * decoder threadStatusPayload) :=
  [field "type" ts_Type (fun x t => MkStatus x (ts_ActiveFlags t)) decode_string;
   field "activeFlags" ts_ActiveFlags (fun x t => MkStatus (ts_Type t) x) (decode_list "" decode_string)].

Definition threadStatusNotLoaded : string := "notLoaded".
Definition threadStatusIdle : string := "idle".
Definition threadStatusSystemError : string := "systemError".
Definition threadStatusActive : string := "active".
Definition activeFlagWaitingOnApproval : string := "waitingOnApproval".
Definition activeFlagWaitingOnUserInput : string := "waitingOnUserInput".

Record threadRef := MkThread { th_Ephemeral : bool; th_ID : string; th_Status : threadStatusPayload }.
Definition zero_thread : threadRef := MkThread false "" zero_status.

Definition thread_fields : list (string * decoder threadRef) :=
  [field "ephemeral" th_Ephemeral (fun x t => MkThread x (th_ID t) (th_Status t)) decode_bool;
   field "id" th_ID (fun x t => MkThread (th_Ephemeral t) x (th_Status t)) decode_string;
   field "status" th_Status (fun x t => MkThread (th_Ephemeral t) (th_ID t) x) (decode_struct status_fields)].

(** [threadStartedParams] has the thread as its only field. *)
Definition threadStartedParams : option jvalue -> option threadRef :=
  decoded (decode_struct [field "thread" (fun t => t) (fun x _ => x) (decode_struct thread_fields)]) zero_thread.

Record threadStatusChangedParams := MkChanged { tc_ThreadID : string; tc_Status : threadStatusPayload }.

Definition read_changed : option jvalue -> option threadStatusChangedParams :=
  decoded (decode_struct
    [field "threadId" tc_ThreadID (fun x t => MkChanged x (tc_Status t)) decode_string;
     field "status" tc_Status (fun x t => MkChanged (tc_ThreadID t) x) (decode_struct status_fields)]) (MkChanged "" zero_status).

Record execCommandApprovalParams := MkExec { ec_CallID : string; ec_Command : list string }.

Definition read_exec : option jvalue -> option execCommandApprovalParams :=
  decoded (decode_struct
    [field "callId" ec_CallID (fun x t => MkExec x (ec_Command t)) decode_string;
     field "command" ec_Command (fun x t => MkExec (ec_CallID t) x) (decode_list "" decode_string)]) (MkExec "" []).

(** [fileChange] has the path as its only field. *)
Record applyPatchApprovalParams := MkPatch { ap_CallID : string; ap_FileChanges : list string }.

Definition read_patch : option jvalue -> option applyPatchApprovalParams :=
  decoded (decode_struct
    [field "callId" ap_CallID (fun x t => MkPatch x (ap_FileChanges t)) decode_string;
     field "fileChanges" ap_FileChanges (fun x t => MkPatch (ap_CallID t) x)
       (decode_list "" (decode_struct [field "path" (fun t => t) (fun x _ => x) decode_string]))]) (MkPatch "" []).

Record toolRequestUserInputQuestion := MkQuestion { tq_ID : string; tq_Text : string; tq_IsSecret : bool }.
Record toolRequestUserInputParams := MkUserInput { ui_ThreadID : string; ui_ItemID : string; ui_Questions : list toolRequestUserInputQuestion }.

Definition question_fields : list (string * decoder toolRequestUserInputQuestion) :=
  [field "id" tq_ID (fun x t => MkQuestion x (tq_Text t) (tq_IsSecret t)) decode_string;
   field "question" tq_Text (fun x t => MkQuestion (tq_ID t) x (tq_IsSecret t)) decode_string;
   field "isSecret" tq_IsSecret (fun x t => MkQuestion (tq_ID t) (tq_Text t) x) decode_bool].

Definition read_input : option jvalue -> option toolRequestUserInputParams :=
  decoded (decode_struct
    [field "threadId" ui_ThreadID (fun x t => MkUserInput x (ui_ItemID t) (ui_Questions t)) decode_string;
     field "itemId" ui_ItemID (fun x t => MkUserInput (ui_ThreadID t) x (ui_Questions t)) decode_string;
     field "questions" ui_Questions (fun x t => MkUserInput (ui_ThreadID t) (ui_ItemID t) x)
       (decode_list (MkQuestion "" "" false) (decode_struct question_fields))]) (MkUserInput "" "" []).

Record commandApprovalParams := MkApproval {
  ca_ThreadID : string; ca_TurnID : string; ca_ItemID : string; ca_Command : string; ca_Cwd : string;
  ca_AvailableDecisions : option (list string); ca_Network : string; ca_Permissions : string }.

Definition approval_fields : list (string * decoder commandApprovalParams) :=
  let upd f x t := f x (ca_ThreadID t) (ca_TurnID t) (ca_ItemID t) (ca_Command t) (ca_Cwd t) (ca_AvailableDecisions t) (ca_Network t) (ca_Permissions t) in
  [field "threadId" ca_ThreadID (upd (fun x _ b c d e f g h => MkApproval x b c d e f g h)) decode_string;
   field "turnId" ca_TurnID (upd (fun x a _ c d e f g h => MkApproval a x c d e f g h)) decode_string;
   field "itemId" ca_ItemID (upd (fun x a b _ d e f g h => MkApproval a b x d e f g h)) decode_string;
   field "command" ca_Command (upd (fun x a b c _ e f g h => MkApproval a b c x e f g h)) decode_string;
   field "cwd" ca_Cwd (upd (fun x a b c d _ f g h => MkApproval a b c d x f g h)) decode_string;
   field "availableDecisions" ca_AvailableDecisions (fun x t => MkApproval (ca_ThreadID t) (ca_TurnID t) (ca_ItemID t) (ca_Command t) (ca_Cwd t) x (ca_Network t) (ca_Permissions t))
     (decode_slice "" decode_raw);
   field "networkApprovalContext" ca_Network (upd (fun x a b c d e f _ h => MkApproval a b c d e f x h)) decode_raw;
   field "additionalPermissions" ca_Permissions (upd (fun x a b c d e f g _ => MkApproval a b c d e f g x)) decode_raw].

Definition read_approval : option jvalue -> option commandApprovalParams :=
  decoded (decode_struct approval_fields) (MkApproval "" "" "" "" "" None "" "").

(** ** Approvals (approval.go) *)

Definition summaryCap : Z := 200.

Definition hasFlag (flags : list string) (want : string) : bool := existsb (fun f => str_eqb f want) flags.

(** [truncate]: cuts at a byte and appends an ellipsis. *)
Definition truncate (s : string) (n : Z) : string :=
  if slen s <=? n then s else String.substring 0 (Z.to_nat n) s +:+ text [226; 128; 166].

Definition approvalSummary (p : commandApprovalParams) : string := "Run once in " +:+ ca_Cwd p +:+ ": " +:+ ca_Command p.

Definition approvalKind (method : string) : string :=
  if str_eqb method methodItemCommandExecApproval then PendingKindCommand
  else if str_eqb method methodItemFileChangeApproval then PendingKindFileChange
  else PendingKindOther.

Definition valid (s : string) : bool := match ValidateResponse s with None => true | Some _ => false end.

Definition unscoped (field : string) : bool := str_eqb field "" || str_eqb field "null".

Definition ACCEPT : string := text ([34] ++ chars "accept" ++ [34]).
Definition CANCEL : string := text ([34] ++ chars "cancel" ++ [34]).

Definition approvalSupported (env : envelope) (p : commandApprovalParams) : bool :=
  if negb (str_eqb (e_Method env) methodItemCommandExecApproval) || str_eqb (e_ID env) "" || str_eqb (ca_ThreadID p) "" ||
     str_eqb (ca_TurnID p) "" || str_eqb (ca_ItemID p) "" || bool_decide (TrimSpace (chars (ca_Cwd p)) = []) || negb (valid (ca_Command p))
  then false
  else
    let summary := approvalSummary p in
    if (summaryCap <? slen summary) || negb (valid summary) then false
    else if negb (forallb unscoped [ca_Network p; ca_Permissions p]) then false
    else match ca_AvailableDecisions p with
         | Some ds => existsb (fun raw => str_eqb raw ACCEPT) ds && existsb (fun raw => str_eqb raw CANCEL) ds
         | None => true
         end.

Section observer.
Context (digest : list string -> string).

Definition approvalPending (env : envelope) (p : commandApprovalParams) : option PendingRequest :=
  if str_eqb (e_ID env) "" || str_eqb (ca_ItemID p) "" || str_eqb (ca_TurnID p) "" then None
  else
    let sum := digest [ca_ThreadID p; ca_TurnID p; ca_ItemID p; e_ID env] in
    let summary := if approvalSupported env p then approvalSummary p else "Approval required in Codex" in
    Some (MkPending ("approval:" +:+ sum) PendingRequestApproval summary (approvalKind (e_Method env))).

Definition pendingFromExecApproval (env : envelope) : option PendingRequest :=
  match read_exec (e_Params env) with
  | Some p => if str_eqb (ec_CallID p) "" then None
              else Some (MkPending (ec_CallID p) PendingRequestApproval
                (match ec_Command p with [] => "Run a command" | c => "Run: " +:+ truncate (String.concat " " c) summaryCap end) PendingKindCommand)
  | None => None
  end.

Definition pendingFromApplyPatch (env : envelope) : option PendingRequest :=
  match read_patch (e_Params env) with
  | Some p => if str_eqb (ap_CallID p) "" then None
              else Some (MkPending (ap_CallID p) PendingRequestApproval
                (match List.filter (fun path => negb (str_eqb path "")) (ap_FileChanges p) with
                 | [] => "Apply a patch" | paths => "Apply changes to: " +:+ truncate (String.concat ", " paths) summaryCap end) PendingKindFileChange)
  | None => None
  end.

Definition pendingFromUserInput (env : envelope) : option PendingRequest :=
  match read_input (e_Params env) with
  | Some p => if str_eqb (ui_ItemID p) "" then None
              else Some (MkPending (ui_ItemID p) PendingRequestInput
                (match ui_Questions p with
                 | q :: _ => if str_eqb (tq_Text q) "" then "Waiting for your answer" else truncate (tq_Text q) summaryCap
                 | [] => "Waiting for your answer" end) PendingKindQuestion)
  | None => None
  end.

(** ** The observer's state (client.go) *)

Record observerState := MkObs { o_threadID : string; o_pending : option PendingRequest; o_status : threadStatusPayload }.
Definition zero_obs : observerState := MkObs "" None zero_status.

Definition set_obs_pending (p : option PendingRequest) (st : observerState) : observerState := MkObs (o_threadID st) p (o_status st).

Definition Capabilities : InteractionCapabilities := MkCaps false false true true true.
Definition evidenceSource : string := "codex-app-server".

Definition status_state (status : threadStatusPayload) : string :=
  if str_eqb (ts_Type status) threadStatusIdle then InteractionIdle
  else if str_eqb (ts_Type status) threadStatusActive then
    if hasFlag (ts_ActiveFlags status) activeFlagWaitingOnApproval then InteractionWaitingForApproval
    else if hasFlag (ts_ActiveFlags status) activeFlagWaitingOnUserInput then InteractionWaitingForInput
    else InteractionWorking
  else InteractionUnknown.

Definition waiting (state : string) : bool := str_eqb state InteractionWaitingForApproval || str_eqb state InteractionWaitingForInput.

(** The branches that set a waiting state attach the pending request, the others clear it. *)
Definition statusToInteraction (now : Time) (st : observerState) (status : threadStatusPayload) : observerState * Interaction :=
  let state := status_state status in
  let pending := if waiting state then o_pending st else None in
  (MkObs (o_threadID st) pending status, MkInteraction state 0 now now pending (MkEvidence evidenceSource Capabilities)).

Definition is_approval_method (m : string) : bool :=
  str_eqb m methodItemCommandExecApproval || str_eqb m methodItemFileChangeApproval || str_eqb m methodItemPermissionsApproval.

Definition handleMessage (now : Time) (st : observerState) (env : envelope) : observerState * option Interaction :=
  let report st status := let '(st', i) := statusToInteraction now st status in (st', Some i) in
  let adopt id := if str_eqb (o_threadID st) "" then MkObs id (o_pending st) (o_status st) else st in
  let m := e_Method env in
  if str_eqb m methodThreadStarted then
    match threadStartedParams (e_Params env) with
    | Some t =>
        if str_eqb (th_ID t) "" then (st, None)
        else let st := adopt (th_ID t) in
             if negb (str_eqb (th_ID t) (o_threadID st)) then (st, None) else report st (th_Status t)
    | None => (st, None)
    end
  else if str_eqb m methodThreadStatusChanged then
    match read_changed (e_Params env) with
    | Some p =>
        let st := adopt (tc_ThreadID p) in
        if negb (str_eqb (tc_ThreadID p) (o_threadID st)) then (st, None) else report st (tc_Status p)
    | None => (st, None)
    end
  else if is_approval_method m then
    match read_approval (e_Params env) with
    | Some p =>
        if negb (str_eqb (ca_ThreadID p) (o_threadID st)) then (st, None)
        else let st := set_obs_pending (approvalPending env p) st in
             if hasFlag (ts_ActiveFlags (o_status st)) activeFlagWaitingOnApproval then report st (o_status st) else (st, None)
    | None => (st, None)
    end
  else if str_eqb m methodExecCommandApproval then (set_obs_pending (pendingFromExecApproval env) st, None)
  else if str_eqb m methodApplyPatchApproval then (set_obs_pending (pendingFromApplyPatch env) st, None)
  else if str_eqb m methodItemToolRequestUserInput then
    match read_input (e_Params env) with
    | Some p =>
        if negb (str_eqb (ui_ThreadID p) (o_threadID st)) then (st, None)
        else let st := set_obs_pending (pendingFromUserInput env) st in
             if hasFlag (ts_ActiveFlags (o_status st)) activeFlagWaitingOnUserInput then report st (o_status st) else (st, None)
    | None => (st, None)
    end
  else (st, None).

(** ** The read-only observer (Watch) *)

(** The loop of [sendInitialize] over the frames that arrive: [None] when the connection
    ends first, else what initialize was answered ([Some msg]: rejected). *)
Fixpoint await_initialize (frames : list message) : option (option string) :=
  match frames with
  | [] => None
  | m :: frames =>
      let '(env, ok) := read_env m in
      if negb ok then await_initialize frames
      else if negb (str_eqb (e_ID env) "") && str_eqb (e_Method env) "" then Some (option_map re_Message (e_Error env))
      else await_initialize frames
  end.

(** One turn of [runObserver]. *)
Definition observe_frame (st : observerState) (tm : Time * message) : observerState * option Interaction :=
  let '(env, ok) := read_env tm.2 in
  if negb ok || str_eqb (e_Method env) "" then (st, None) else handleMessage tm.1 st env.

(** [runObserver]: what it sends, in order (the channel's producer blocks). *)
Fixpoint runObserver (st : observerState) (frames : list (Time * message)) : list Interaction :=
  match frames with
  | [] => []
  | tm :: frames => let '(st', i) := observe_frame st tm in from_option (fun x => [x]) [] i ++ runObserver st' frames
  end.

(** ** One thread *)

(** A message that names another thread. *)
Definition foreign (thread : string) (m : message) : bool :=
  let env := fst (read_env m) in
  let other id := negb (str_eqb id thread) in
  let names {A} (p : option A) (id : A -> string) := match p with Some p => other (id p) | None => false end in
  if str_eqb (e_Method env) methodThreadStarted then names (threadStartedParams (e_Params env)) th_ID
  else if str_eqb (e_Method env) methodThreadStatusChanged then names (read_changed (e_Params env)) tc_ThreadID
  else if is_approval_method (e_Method env) then names (read_approval (e_Params env)) ca_ThreadID
  else if str_eqb (e_Method env) methodItemToolRequestUserInput then names (read_input (e_Params env)) ui_ThreadID
  else false.

Lemma handle_thread now st env : o_threadID st <> "" -> o_threadID (fst (handleMessage now st env)) = o_threadID st.
Proof.
  intros Ht; apply str_eqb_neq in Ht; unfold handleMessage; rewrite Ht; clear Ht.
  repeat (case_match; cbn in *; simplify_eq; try reflexivity); unfold statusToInteraction in *; simplify_eq; reflexivity.
Qed.

Lemma handle_foreign now st m : o_threadID st <> "" -> foreign (o_threadID st) m = true -> handleMessage now st (fst (read_env m)) = (st, None).
Proof.
  intros Ht; apply str_eqb_neq in Ht; unfold handleMessage, foreign; rewrite Ht; clear Ht.
  destruct (str_eqb _ methodThreadStarted).
  { destruct (threadStartedParams _) as [t|]; [|discriminate]; intros ->; destruct (str_eqb (th_ID t) ""); reflexivity. }
  destruct (str_eqb _ methodThreadStatusChanged); [destruct (read_changed _); [intros ->; reflexivity|discriminate]|].
  destruct (is_approval_method _) eqn:Ea; [destruct (read_approval _); [intros ->; reflexivity|discriminate]|].
  destruct (str_eqb _ methodItemToolRequestUserInput) eqn:Ei; [|discriminate].
  apply str_eqb_eq in Ei; rewrite Ei; cbn; destruct (read_input _); [intros ->; reflexivity|discriminate].
Qed.

(** Once the observer has adopted a thread, the messages of other threads leave no trace:
    what it reports is what it reports without them. *)
Theorem observer_one_thread (frames : list (Time * message)) : forall st, o_threadID st <> "" ->
  runObserver st frames = runObserver st (List.filter (fun tm => negb (foreign (o_threadID st) tm.2)) frames).
Proof.
  induction frames as [|[now m] frames IH]; intros st Ht; [reflexivity|]; cbn [runObserver List.filter snd].
  destruct (foreign (o_threadID st) m) eqn:Ef; cbn [negb].
  - rewrite <- IH by exact Ht; unfold observe_frame; cbn [fst snd].
    pose proof (handle_foreign now st m Ht Ef) as Hh; destruct (read_env m) as [env ok]; cbn in Hh; rewrite Hh.
    destruct (_ || _); reflexivity.
  - cbn [runObserver]; assert (Hst : o_threadID (fst (observe_frame st (now, m))) = o_threadID st).
    { unfold observe_frame; cbn; destruct (read_env m) as [env ok]; destruct (_ || _); [reflexivity|apply handle_thread, Ht]. }
    destruct (observe_frame st (now, m)) as [st' i]; cbn in Hst; rewrite (IH st'), Hst by congruence; reflexivity.
Qed.
End observer.
