(* ===== verification/CodexRelay.v ===== *)
(** * The Codex relay: internal/codexapp/proxy.go, activity.go and the response client

    A loopback proxy stands between the real TUI and the Codex app-server.  Each
    connection of the TUI has one connection upstream and two loops: one copies the TUI's
    frames to the server, the other the server's frames to the TUI.  The loops look at
    what passes: the answer to the TUI's own thread/start, resume or fork selects the
    connection as the owner of the session, its pending requests become interactions for
    the supervisor, and [Respond], [Decide] and [Instruct] write to the owner's upstream.

    All of it shares one [ResponseClient] under a mutex.  A step of the model is one
    critical section, one write of a frame, or one call; any interleaving of the steps
    of any number of connections is a list of events.  The log keeps what crossed the
    relay, newest first.  A frame that was read waits in its loop's variable until the
    loop writes it. *)

From S2P Require Import Prelude Types GoStd GoText GoJson Session Supervisor Respond Hooks Latest Activity CodexApp.

Section relay.
Context (digest : list string -> string) `{J : ActivityJSON}.

(** ** The response client *)

(** The request the client may answer: [requestID], [questionID], [approval], [submitted]. *)
Record binding := MkBinding { r_id : string; r_question : string; r_approval : bool; r_submitted : bool }.

(** [cl_results]: per instruction the channel of one place for its result. *)
Record ResponseClient := MkClient {
  cl_last : string; cl_activity : ActivityBuffer; cl_turnID : string; cl_results : gmap string (option (option error));
  cl_conn : option nat; cl_closed : bool; cl_state : observerState; cl_req : binding }.

Definition new_client : ResponseClient := MkClient "" empty_activity "" ∅ None false zero_obs (MkBinding "" "" false false).

Definition set_activity (last : string) (a : ActivityBuffer) (c : ResponseClient) : ResponseClient :=
  MkClient last a (cl_turnID c) (cl_results c) (cl_conn c) (cl_closed c) (cl_state c) (cl_req c).
Definition set_turn (t : string) (c : ResponseClient) : ResponseClient :=
  MkClient (cl_last c) (cl_activity c) t (cl_results c) (cl_conn c) (cl_closed c) (cl_state c) (cl_req c).
Definition set_results (r : gmap string (option (option error))) (c : ResponseClient) : ResponseClient :=
  MkClient (cl_last c) (cl_activity c) (cl_turnID c) r (cl_conn c) (cl_closed c) (cl_state c) (cl_req c).
Definition set_state (st : observerState) (c : ResponseClient) : ResponseClient :=
  MkClient (cl_last c) (cl_activity c) (cl_turnID c) (cl_results c) (cl_conn c) (cl_closed c) st (cl_req c).
Definition set_req (r : binding) (c : ResponseClient) : ResponseClient :=
  MkClient (cl_last c) (cl_activity c) (cl_turnID c) (cl_results c) (cl_conn c) (cl_closed c) (cl_state c) r.

Definition submit (r : binding) : binding := MkBinding (r_id r) (r_question r) (r_approval r) true.

(** What is written as the answer: {"answers":{question:{"answers":[text]}}} or
    {"decision":decision}, under the request's id. *)
Inductive answer := AnswerText (question text : string) | AnswerDecision (decision : string).

Definition pending_is (st : observerState) (pendingID : string) : bool :=
  match o_pending st with Some p => str_eqb (pr_ID p) pendingID | None => false end.

(** [Respond] and [Decide] up to the write: an error, or the request's id with the answer. *)
Definition Respond (c : ResponseClient) (pendingID text : string) : ResponseClient * (error + (string * answer)) :=
  let r := cl_req c in
  if cl_closed c || negb (pending_is (cl_state c) pendingID) || str_eqb (r_question r) "" || str_eqb (r_id r) "" || r_submitted r
  then (c, inl (Sentinel ErrPendingRequestMismatch))
  else (set_req (submit r) c, inr (r_id r, AnswerText (r_question r) text)).

Definition Decide (c : ResponseClient) (pendingID decision : string) : ResponseClient * (error + (string * answer)) :=
  let r := cl_req c in
  if negb (str_eqb decision "accept") && negb (str_eqb decision "cancel") then (c, inl (Sentinel ErrInvalidResponse))
  else if cl_closed c || negb (r_approval r) || negb (pending_is (cl_state c) pendingID) || r_submitted r || str_eqb (r_id r) ""
  then (c, inl (Sentinel ErrPendingRequestMismatch))
  else (set_req (submit r) c, inr (r_id r, AnswerDecision decision)).

(** ** Activity (activity.go) *)

Record activity_params := MkActParams { av_ThreadID : string; av_Turn : string; av_Type : string; av_Status : string; av_ExitCode : option Z }.

Definition item_fields : list (string * decoder activity_params) :=
  [field "type" av_Type (fun x t => MkActParams (av_ThreadID t) (av_Turn t) x (av_Status t) (av_ExitCode t)) decode_string;
   field "status" av_Status (fun x t => MkActParams (av_ThreadID t) (av_Turn t) (av_Type t) x (av_ExitCode t)) decode_string;
   field "exitCode" av_ExitCode (fun x t => MkActParams (av_ThreadID t) (av_Turn t) (av_Type t) (av_Status t) x) (decode_ptr 0 decode_int)].

(** The nested structs are decoded into the fields of the one record. *)
Definition read_activity : option jvalue -> option activity_params :=
  decoded (decode_struct
    [field "threadId" av_ThreadID (fun x t => MkActParams x (av_Turn t) (av_Type t) (av_Status t) (av_ExitCode t)) decode_string;
     field "turn" av_Turn (fun x t => MkActParams (av_ThreadID t) x (av_Type t) (av_Status t) (av_ExitCode t))
       (decode_struct [field "id" (fun t => t) (fun x _ => x) decode_string]);
     field "item" (fun t => t) (fun x _ => x) (decode_struct item_fields)]) (MkActParams "" "" "" "" None).

Definition item_label (type : string) : string :=
  if str_eqb type "agentMessage" then "Assistant message"
  else if str_eqb type "commandExecution" then "Command execution"
  else if str_eqb type "fileChange" then "File change"
  else if str_eqb type "mcpToolCall" || str_eqb type "dynamicToolCall" then "Tool call"
  else if str_eqb type "webSearch" then "Web search"
  else "".

(** The kind and the label of a message, if it is to be recorded. *)
Definition activity_label (method : string) (p : activity_params) : option (string * string) :=
  if str_eqb method "turn/started" then Some ("status", "Agent started work")
  else if str_eqb method "turn/completed" then Some ("status", "Agent finished the turn")
  else if str_eqb method "item/started" || str_eqb method "item/completed" then
    let label := item_label (av_Type p) in
    if str_eqb label "" then None
    else
      let failed := str_eqb (av_Status p) "failed" || match av_ExitCode p with Some code => negb (code =? 0) | None => false end in
      Some (if str_eqb (av_Type p) "agentMessage" then "message" else "tool",
            if str_eqb method "item/started" then label +:+ " started"
            else if failed then label +:+ " completed with an error" else label +:+ " completed")
  else None.

Definition observeActivityLocked (now : Time) (env : envelope) (c : ResponseClient) : ResponseClient :=
  match read_activity (e_Params env) with
  | None => c
  | Some p =>
      if str_eqb (o_threadID (cl_state c)) "" || negb (str_eqb (av_ThreadID p) (o_threadID (cl_state c))) then c
      else
        let c := if str_eqb (e_Method env) "turn/started" then set_turn (av_Turn p) c
                 else if str_eqb (e_Method env) "turn/completed" then set_turn "" c else c in
        match activity_label (e_Method env) p with
        | Some (kind, label) => set_activity (cl_last c) (AppendActivity (cl_activity c) kind label now) c
        | None => c
        end
  end.

Definition bound (c : ResponseClient) : bool :=
  negb (cl_closed c) && bool_decide (is_Some (cl_conn c)) && negb (str_eqb (o_threadID (cl_state c)) "").

Definition Observe (c : ResponseClient) (after events bytes : Z) (now : Time) : ResponseClient * ActivityWindow :=
  let '(b, w) := Window (cl_activity c) after events bytes now in
  (set_activity (cl_last c) b c, MkActivityWindow (aw_Events w) (aw_NextSequence w) (aw_Gap w) (bound c)).

(** ** The server's messages (proxy.go) *)

Definition is_owner_method (m : string) : bool :=
  str_eqb m "thread/start" || str_eqb m "thread/resume" || str_eqb m "thread/fork".

(** A response to an instruction: it is delivered and not forwarded. *)
Definition INSTRUCTION : list Z := 34 :: chars "bridgectl-".
Definition is_instruction_answer (env : envelope) : bool :=
  str_eqb (e_Method env) "" && has_prefix INSTRUCTION (chars (e_ID env)).

Definition deliver (env : envelope) (c : ResponseClient) : ResponseClient :=
  match cl_results c !! e_ID env with
  | Some None => set_results (<[e_ID env := Some (option_map (fun _ => Sentinel ErrPendingRequestMismatch) (e_Error env))]> (cl_results c)) c
  | _ => c
  end.

(** The response to a request that selects the owner; the envelope is rewritten into the
    notification that the thread started. *)
Definition bind_owner (k : nat) (env : envelope) (c : ResponseClient) (reqs : gset string) : ResponseClient * gset string * envelope :=
  if str_eqb (e_Method env) "" && bool_decide (e_ID env ∈ reqs) then
    let reqs := reqs ∖ {[e_ID env]} in
    match threadStartedParams (e_Result env) with
    | Some t =>
        if negb (str_eqb (th_ID t) "") && negb (th_Ephemeral t) then
          let env' := MkEnv (e_JSONRPC env) (e_ID env) methodThreadStarted (e_Result env) (e_Result env) (e_Error env) in
          if negb (bool_decide (cl_conn c = Some k)) || negb (str_eqb (o_threadID (cl_state c)) (th_ID t))
          then (MkClient (cl_last c) (cl_activity c) "" (cl_results c) (Some k) false (MkObs (th_ID t) None zero_status) (MkBinding "" "" false false), reqs, env')
          else (MkClient (cl_last c) (cl_activity c) (cl_turnID c) (cl_results c) (Some k) false (cl_state c) (cl_req c), reqs, env')
        else (c, reqs, env)
    | None => (c, reqs, env)
    end
  else (c, reqs, env).

Definition track_input (env : envelope) (thread : string) (r : binding) : binding :=
  if str_eqb (e_Method env) methodItemToolRequestUserInput then
    match read_input (e_Params env) with
    | Some p =>
        if negb (str_eqb (ui_ThreadID p) thread) then r
        else
          let r := if str_eqb (r_id r) (e_ID env) then r else MkBinding "" "" false false in
          match ui_Questions p with
          | [q] => if negb (str_eqb (tq_ID q) "") && negb (tq_IsSecret q) && negb (str_eqb (e_ID env) "")
                   then MkBinding (e_ID env) (tq_ID q) (r_approval r) (if str_eqb (r_id r) (e_ID env) then r_submitted r else false)
                   else r
          | _ => r
          end
    | None => r
    end
  else r.

Definition track_approval (env : envelope) (thread : string) (r : binding) : binding :=
  if is_approval_method (e_Method env) then
    match read_approval (e_Params env) with
    | Some p => if str_eqb (ca_ThreadID p) thread
                then MkBinding (e_ID env) "" (approvalSupported env p) (if str_eqb (r_id r) (e_ID env) then r_submitted r else false)
                else r
    | None => r
    end
  else r.

Record resolved_params := MkResolved { rs_ThreadID : string; rs_RequestID : string }.
Definition read_resolved : option jvalue -> option resolved_params :=
  decoded (decode_struct
    [field "threadId" rs_ThreadID (fun x t => MkResolved x (rs_RequestID t)) decode_string;
     field "requestId" rs_RequestID (fun x t => MkResolved (rs_ThreadID t) x) decode_raw]) (MkResolved "" "").

Definition track_resolved (env : envelope) (thread : string) (r : binding) : binding :=
  if str_eqb (e_Method env) "serverRequest/resolved" then
    match read_resolved (e_Params env) with
    | Some p => if str_eqb (rs_ThreadID p) thread && str_eqb (rs_RequestID p) (r_id r) then MkBinding "" "" false true else r
    | None => r
    end
  else r.

Definition state_label (state : string) : string :=
  if str_eqb state InteractionWorking then "Working"
  else if str_eqb state InteractionIdle then "Idle"
  else if str_eqb state InteractionWaitingForInput then "Waiting for your answer"
  else if str_eqb state InteractionWaitingForApproval then "Waiting for approval"
  else if str_eqb state InteractionUnknown then "Interaction state unknown"
  else "".

Definition has_pending (i : Interaction) : bool := bool_decide (is_Some (int_Pending i)).

(** The capability flags of an interaction that is emitted. *)
Definition offer (r : binding) (i : Interaction) : Interaction :=
  let caps := ev_Capability (int_Evidence i) in
  let approve := str_eqb (int_State i) InteractionWaitingForApproval && has_pending i && r_approval r && negb (r_submitted r) && negb (str_eqb (r_id r) "") in
  let respond := str_eqb (int_State i) InteractionWaitingForInput && has_pending i && negb (str_eqb (r_question r) "") && negb (str_eqb (r_id r) "") && negb (r_submitted r) in
  MkInteraction (int_State i) (int_Revision i) (int_UpdatedAt i) (int_LastActivityAt i) (int_Pending i)
    (MkEvidence (ev_Source (int_Evidence i))
       (MkCaps respond approve (InteractionStateSupported caps) (ApprovalStateSupported caps) (PendingSummarySupported caps))).

(** A message on the owner's connection: the activity, the state, the request, the report. *)
Definition on_owner (now : Time) (env : envelope) (c : ResponseClient) : ResponseClient * option Interaction :=
  let c := observeActivityLocked now env c in
  let '(st, i) := if str_eqb (o_threadID (cl_state c)) "" then (cl_state c, None) else handleMessage digest now (cl_state c) env in
  let thread := o_threadID st in
  let r := track_resolved env thread (track_approval env thread (track_input env thread (cl_req c))) in
  let c := set_req r (set_state st c) in
  match i with
  | None => (c, None)
  | Some i =>
      let c := if str_eqb (int_State i) (cl_last c) then c
               else set_activity (int_State i) (AppendActivity (cl_activity c) "status" (state_label (int_State i)) now) c in
      (c, Some (offer r i))
  end.

(** The critical section of the upstream loop; the flag: whether the frame is forwarded. *)
Definition on_server (now : Time) (k : nat) (m : message) (c : ResponseClient) (reqs : gset string)
  : ResponseClient * gset string * option Interaction * bool :=
  let '(env, ok) := read_env m in
  if negb ok then (c, reqs, None, true)
  else if is_instruction_answer env then (deliver env c, reqs, None, false)
  else
    let '(c, reqs, env) := bind_owner k env c reqs in
    if negb (bool_decide (cl_conn c = Some k)) then (c, reqs, None, true)
    else let '(c, i) := on_owner now env c in (c, reqs, i, true).

(** ** The TUI's messages *)

Definition note_request (m : message) (reqs : gset string) : gset string :=
  let '(env, ok) := read_env m in
  if ok && negb (str_eqb (e_ID env) "") && is_owner_method (e_Method env) then {[e_ID env]} ∪ reqs else reqs.

(** The variable is used after a decoding error as well. *)
Definition tui_answers (m : message) (id : string) : bool :=
  let env := fst (read_env m) in
  str_eqb (e_Method env) "" && negb (str_eqb (e_ID env) "") && str_eqb (e_ID env) id.

Definition mark_answered (k : nat) (m : message) (c : ResponseClient) : ResponseClient :=
  if bool_decide (cl_conn c = Some k) && tui_answers m (r_id (cl_req c)) then set_req (submit (cl_req c)) c else c.

(** ** Instructions (activity.go) *)

(** The RPC id of an instruction, a JSON string. *)
Definition instruction_id (uuid : string) : string := text (INSTRUCTION ++ chars uuid ++ [34]).

(** The request [Instruct] writes: method, thread, expected turn, text. *)
Record instruction := MkInstruction { in_method : string; in_thread : string; in_turn : option string; in_text : string }.

(** [Instruct] until it unlocks: an error, or the connection to write to and the request. *)
Definition Instruct (c : ResponseClient) (uuid text : string) : ResponseClient * (error + (option nat * instruction)) :=
  match ValidateResponse text with
  | Some e => (c, inl e)
  | None =>
      let st := cl_state c in
      let start := (set_results (<[instruction_id uuid := None]> (cl_results c)) c) in
      if negb (bound c) then (c, inl (Sentinel ErrRemoteResponseUnsupported))
      else if str_eqb (ts_Type (o_status st)) threadStatusActive && bool_decide (ts_ActiveFlags (o_status st) = []) && negb (str_eqb (cl_turnID c) "")
      then (start, inr (cl_conn c, MkInstruction "turn/steer" (o_threadID st) (Some (cl_turnID c)) text))
      else if negb (str_eqb (ts_Type (o_status st)) threadStatusIdle) then (c, inl (Sentinel ErrPendingRequestMismatch))
      else (start, inr (cl_conn c, MkInstruction "turn/start" (o_threadID st) None text))
  end.

(** ** The relay as a system *)

(** A connection: [threadRequests], the frame each loop has read and not yet written, and
    whether the handler runs. *)
Record conn_state := MkConn { cn_requests : gset string; cn_up : option message; cn_down : option message; cn_open : bool }.

(** An instruction under way: where it goes, what is written, whether it was. *)
Record call := MkCall { ca_conn : option nat; ca_request : instruction; ca_written : bool }.

(** What crossed the relay.  [Answered]: an answer of [Respond] or [Decide] handed to a
    connection; [Asked], [Returned]: an instruction written, and the result of the call. *)
Inductive entry :=
| FromTUI (k : nat) (m : message)
| FromServer (k : nat) (m : message)
| ToServer (k : nat) (m : message)
| ToTUI (k : nat) (m : message)
| Answered (k : option nat) (pendingID id : string) (a : answer)
| Asked (k : option nat) (id : string) (i : instruction)
| Returned (id : string) (result : option error).

Definition relay_capacity : nat := 64.

Record relay := MkRelay {
  rl_client : ResponseClient; rl_conns : gmap nat conn_state; rl_calls : gmap string call;
  rl_updates : list Interaction * list Interaction; rl_emitted : list Interaction; rl_log : list entry }.

Definition new_relay : relay := MkRelay new_client ∅ ∅ ([], []) [] [].

Definition set_client (c : ResponseClient) (w : relay) : relay :=
  MkRelay c (rl_conns w) (rl_calls w) (rl_updates w) (rl_emitted w) (rl_log w).
Definition set_conn (k : nat) (cn : conn_state) (w : relay) : relay :=
  MkRelay (rl_client w) (<[k := cn]> (rl_conns w)) (rl_calls w) (rl_updates w) (rl_emitted w) (rl_log w).
Definition set_calls (cs : gmap string call) (w : relay) : relay :=
  MkRelay (rl_client w) (rl_conns w) cs (rl_updates w) (rl_emitted w) (rl_log w).
Definition add_log (e : entry) (w : relay) : relay :=
  MkRelay (rl_client w) (rl_conns w) (rl_calls w) (rl_updates w) (rl_emitted w) (e :: rl_log w).
Definition send_update (n1 n2 : nat) (i : option Interaction) (w : relay) : relay :=
  match i with
  | Some i => MkRelay (rl_client w) (rl_conns w) (rl_calls w) (emit relay_capacity n1 n2 i (rl_updates w)) (rl_emitted w ++ [i]) (rl_log w)
  | None => w
  end.

(** The deferred reset of the handler that ends. *)
Definition lost_interaction : Interaction := MkInteraction InteractionUnknown 0 0 0 None (MkEvidence evidenceSource Capabilities).

Definition on_end (k : nat) (c : ResponseClient) : ResponseClient * option Interaction :=
  if bool_decide (cl_conn c = Some k)
  then (MkClient (cl_last c) (cl_activity c) (cl_turnID c) (cl_results c) None true (set_obs_pending None (cl_state c))
          (MkBinding "" "" false (r_submitted (cl_req c))), Some lost_interaction)
  else (c, None).

(** [Instruct] returns: its deferred function removes the channel. *)
Definition finish (id : string) (r : option error) (w : relay) : relay :=
  add_log (Returned id r) (set_calls (delete id (rl_calls w)) (set_client (set_results (delete id (cl_results (rl_client w))) (rl_client w)) w)).

Inductive event :=
| EAccept (k : nat)
| ETuiRead (k : nat) (m : message)
| ETuiWrite (k : nat)
| EServerRead (k : nat) (now : Time) (n1 n2 : nat) (m : message)
| EServerWrite (k : nat)
| EEnd (k n1 n2 : nat)
| EWatch (n : nat)
| ERespond (pendingID text : string)
| EDecide (pendingID decision : string)
| EObserve (after events bytes : Z) (now : Time)
| EInstruct (uuid text : string)
| EInstructWrite (uuid : string) (failed : option error)
| EInstructResult (uuid : string)
| EInstructCancel (uuid : string) (e : error).

Definition respond_with (pid : string) (f : ResponseClient -> ResponseClient * (error + (string * answer))) (w : relay) : relay :=
  match f (rl_client w) with
  | (c, inl _) => set_client c w
  | (c, inr (id, a)) => add_log (Answered (cl_conn c) pid id a) (set_client c w)
  end.

(** One step.  An event that cannot happen (a frame on a connection there is not, a read
    while the loop still holds a frame, a uuid in use) leaves the relay as it is. *)
Definition relay_do (w : relay) (e : event) : relay :=
  match e with
  | EAccept k => match rl_conns w !! k with None => set_conn k (MkConn ∅ None None true) w | Some _ => w end
  | ETuiRead k m =>
      match rl_conns w !! k with
      | Some (MkConn reqs None down op) =>
          add_log (FromTUI k m) (set_client (mark_answered k m (rl_client w)) (set_conn k (MkConn (note_request m reqs) (Some m) down op) w))
      | _ => w
      end
  | ETuiWrite k =>
      match rl_conns w !! k with
      | Some (MkConn reqs (Some m) down op) => add_log (ToServer k m) (set_conn k (MkConn reqs None down op) w)
      | _ => w
      end
  | EServerRead k now n1 n2 m =>
      match rl_conns w !! k with
      | Some (MkConn reqs up None true) =>
          let '(c, reqs, i, forward) := on_server now k m (rl_client w) reqs in
          add_log (FromServer k m) (send_update n1 n2 i (set_client c (set_conn k (MkConn reqs up (if forward then Some m else None) true) w)))
      | _ => w
      end
  | EServerWrite k =>
      match rl_conns w !! k with
      | Some (MkConn reqs up (Some m) true) => add_log (ToTUI k m) (set_conn k (MkConn reqs up None true) w)
      | _ => w
      end
  | EEnd k n1 n2 =>
      match rl_conns w !! k with
      | Some (MkConn reqs up down true) =>
          let '(c, i) := on_end k (rl_client w) in
          send_update n1 n2 i (set_client c (set_conn k (MkConn reqs up down false) w))
      | _ => w
      end
  | EWatch n => MkRelay (rl_client w) (rl_conns w) (rl_calls w) (watch n (rl_updates w)) (rl_emitted w) (rl_log w)
  | ERespond pid text => respond_with pid (fun c => Respond c pid text) w
  | EDecide pid decision => respond_with pid (fun c => Decide c pid decision) w
  | EObserve after events bytes now => set_client (fst (Observe (rl_client w) after events bytes now)) w
  | EInstruct uuid text =>
      let id := instruction_id uuid in
      if bool_decide (is_Some (rl_calls w !! id)) then w
      else match Instruct (rl_client w) uuid text with
           | (c, inl e) => add_log (Returned id (Some e)) (set_client c w)
           | (c, inr (k, i)) => set_calls (<[id := MkCall k i false]> (rl_calls w)) (set_client c w)
           end
  | EInstructWrite uuid failed =>
      let id := instruction_id uuid in
      match rl_calls w !! id with
      | Some (MkCall k i false) =>
          match failed with
          | None => add_log (Asked k id i) (set_calls (<[id := MkCall k i true]> (rl_calls w)) w)
          | Some e => finish id (Some e) w
          end
      | _ => w
      end
  | EInstructResult uuid =>
      let id := instruction_id uuid in
      match rl_calls w !! id, cl_results (rl_client w) !! id with
      | Some (MkCall _ _ true), Some (Some r) => finish id r w
      | _, _ => w
      end
  | EInstructCancel uuid e =>
      let id := instruction_id uuid in
      match rl_calls w !! id with
      | Some (MkCall _ _ true) => finish id (Some e) w
      | _ => w
      end
  end.

Definition relay_run (evs : list event) : relay := foldl relay_do new_relay evs.
End relay.
