(* ===== verification/RelaySafety.v ===== *)
(** * The Codex relay: who may answer, what is offered, what is forwarded

    The log of a run against the promises of the response client: an answer of [Respond]
    or [Decide] goes to the connection that owns the session, for the request shown, once;
    the capabilities an interaction offers are those [Respond] and [Decide] honour; the
    frames of the TUI and of the server pass unchanged and in order. *)

From S2P Require Import Prelude Types GoStd GoText GoJson Session Supervisor Respond Hooks Latest Activity CodexApp CodexRelay.

Section safety.
Context (digest : list string -> string) `{J : ActivityJSON}.

(** ** What the messages of the log say *)

(** A request of the server to its client. *)
Definition asks (m : message) : option string :=
  let '(env, ok) := read_env m in
  if ok && negb (str_eqb (e_ID env) "") && negb (str_eqb (e_Method env) "") then Some (e_ID env) else None.

Definition legacy (env : envelope) : bool :=
  str_eqb (e_Method env) methodExecCommandApproval || str_eqb (e_Method env) methodApplyPatchApproval.

(** JSON-RPC: the requests the server sends on a connection have distinct ids. *)
Definition asks_on (k : nat) (id : string) (x : entry) : bool :=
  match x with FromServer k' m => (k' =? k)%nat && bool_decide (asks m = Some id) | _ => false end.

Fixpoint distinct_requests (L : list entry) : bool :=
  match L with
  | [] => true
  | FromServer k m :: L => match asks m with Some id => negb (existsb (asks_on k id) L) | None => true end && distinct_requests L
  | _ :: L => distinct_requests L
  end.

(** The server speaks the item protocol: none of the older approval requests. *)
Definition item_protocol (L : list entry) : bool :=
  forallb (fun x => match x with FromServer _ m => negb (legacy (fst (read_env m))) | _ => true end) L.

(** The request by which the TUI starts, resumes or forks a thread, and its response. *)
Definition selects (m : message) (id : string) : Prop :=
  snd (read_env m) = true /\ e_ID (fst (read_env m)) = id /\ is_owner_method (e_Method (fst (read_env m))) = true.
Definition selected_thread (m : message) (id thread : string) : Prop :=
  snd (read_env m) = true /\ e_ID (fst (read_env m)) = id /\ e_Method (fst (read_env m)) = "" /\
  exists t, threadStartedParams (e_Result (fst (read_env m))) = Some t /\ th_ID t = thread /\ th_Ephemeral t = false.

Definition selected (L : list entry) (k : nat) (thread : string) : Prop :=
  thread <> "" /\ exists mid m old m0 id, L = mid ++ FromServer k m :: old /\ selected_thread m id thread /\ FromTUI k m0 ∈ old /\ selects m0 id.

Definition resolves (m : message) (thread id : string) : Prop :=
  snd (read_env m) = true /\ e_Method (fst (read_env m)) = "serverRequest/resolved" /\
  exists p, read_resolved (e_Params (fst (read_env m))) = Some p /\ rs_ThreadID p = thread /\ rs_RequestID p = id.

(** An entry that is no answer to the request and no notice of its resolution. *)
Definition quiet (k : nat) (thread id : string) (x : entry) : Prop :=
  match x with
  | Answered (Some k') _ id' _ => ~ (k' = k /\ id' = id)
  | FromTUI k' m => ~ (k' = k /\ tui_answers m id = true)
  | FromServer k' m => ~ (k' = k /\ resolves m thread id)
  | _ => True
  end.

(** The pending request a message announces for the thread. *)
Definition announces (env : envelope) (thread : string) : option (option PendingRequest) :=
  if is_approval_method (e_Method env) then
    match read_approval (e_Params env) with
    | Some p => if str_eqb (ca_ThreadID p) thread then Some (approvalPending digest env p) else None
    | None => None
    end
  else if str_eqb (e_Method env) methodItemToolRequestUserInput then
    match read_input (e_Params env) with
    | Some p => if str_eqb (ui_ThreadID p) thread then Some (pendingFromUserInput env) else None
    | None => None
    end
  else None.

(** What the binding says of the message it comes from. *)
Definition question_of (env : envelope) (thread q : string) : Prop :=
  e_Method env = methodItemToolRequestUserInput /\
  exists p x, read_input (e_Params env) = Some p /\ ui_ThreadID p = thread /\ ui_Questions p = [x] /\ tq_ID x = q /\ tq_IsSecret x = false.
Definition approval_of (env : envelope) (thread : string) : Prop :=
  exists p, read_approval (e_Params env) = Some p /\ ca_ThreadID p = thread /\ approvalSupported env p = true.

Definition describes (m : message) (thread : string) (pending : option PendingRequest) (r : binding) : Prop :=
  let env := fst (read_env m) in
  (r_question r <> "" -> question_of env thread (r_question r)) /\ (r_approval r = true -> approval_of env thread) /\
  (pending = None \/ announces env thread = Some pending).

Definition tracked (L : list entry) (k : nat) (thread : string) (pending : option PendingRequest) (r : binding) : Prop :=
  exists mid m old, L = mid ++ FromServer k m :: old /\ asks m = Some (r_id r) /\ selected old k thread /\
    describes m thread pending r /\ (r_submitted r = false -> Forall (quiet k thread (r_id r)) mid).

Record client_ok (L : list entry) (c : ResponseClient) : Prop := {
  ok_pending : o_pending (cl_state c) <> None -> cl_conn c <> None;
  ok_owner : forall k, cl_conn c = Some k -> selected L k (o_threadID (cl_state c));
  ok_request : forall k, cl_conn c = Some k -> r_id (cl_req c) <> "" ->
    tracked L k (o_threadID (cl_state c)) (o_pending (cl_state c)) (cl_req c) }.

Lemma distinct_head k m L id m' : distinct_requests (FromServer k m :: L) = true -> asks m = Some id -> FromServer k m' ∈ L -> asks m' <> Some id.
Proof.
  cbn; intros H Ha Hin Ha'; rewrite Ha in H; apply andb_true_iff in H as [H _]; apply negb_true_iff in H.
  apply not_true_iff_false in H; apply H, existsb_exists; exists (FromServer k m'); split; [apply list_elem_of_In, Hin|].
  cbn; rewrite Nat.eqb_refl, bool_decide_eq_true_2 by exact Ha'; reflexivity.
Qed.

Lemma item_head k m L : item_protocol (FromServer k m :: L) = true -> legacy (fst (read_env m)) = false.
Proof. cbn; intros H; apply andb_true_iff in H as [H _]; apply negb_true_iff, H. Qed.

Lemma distinct_suffix l L : distinct_requests (l ++ L) = true -> distinct_requests L = true.
Proof. induction l as [|[] l IH]; cbn; auto; intros H; apply andb_true_iff in H as [_ H]; auto. Qed.

Lemma item_suffix l L : item_protocol (l ++ L) = true -> item_protocol L = true.
Proof. unfold item_protocol; rewrite forallb_app; intros H; apply andb_true_iff in H; apply H. Qed.

(** ** One message of the owner's connection *)

Lemma handle_core now st env : o_threadID st <> "" -> legacy env = false ->
  let st' := fst (handleMessage digest now st env) in
  o_threadID st' = o_threadID st /\
  (o_pending st' = None \/ o_pending st' = default (o_pending st) (announces env (o_threadID st))).
Proof.
  intros Ht Hl; apply orb_false_iff in Hl as [Hl1 Hl2]; apply str_eqb_neq in Ht; unfold handleMessage, announces; rewrite Ht; clear Ht.
  destruct (is_approval_method (e_Method env)) eqn:Ea; [|destruct (str_eqb (e_Method env) methodItemToolRequestUserInput) eqn:Ei].
  - assert (str_eqb (e_Method env) methodThreadStarted = false /\ str_eqb (e_Method env) methodThreadStatusChanged = false) as [-> ->].
    { unfold is_approval_method in Ea; rewrite !orb_true_iff, !str_eqb_eq in Ea; destruct Ea as [[-> | ->]| ->]; split; reflexivity. }
    destruct (read_approval _) as [p|]; cbn; auto; destruct (str_eqb (ca_ThreadID p) _); cbn; auto.
    destruct (hasFlag _ _); cbn; auto; destruct (waiting _); auto.
  - apply str_eqb_eq in Ei; rewrite Ei; cbn.
    destruct (read_input _) as [p|]; cbn; auto; destruct (str_eqb (ui_ThreadID p) _); cbn; auto.
    destruct (hasFlag _ _); cbn; auto; destruct (waiting _); auto.
  - rewrite Hl1, Hl2; destruct (str_eqb _ methodThreadStarted); [|destruct (str_eqb _ methodThreadStatusChanged); [|cbn; auto]].
    + destruct (threadStartedParams _) as [t|]; cbn; auto; destruct (str_eqb (th_ID t) ""); cbn; auto.
      destruct (str_eqb (th_ID t) _); cbn; auto; destruct (waiting _); auto.
    + destruct (read_changed _) as [p|]; cbn; auto; destruct (str_eqb (tc_ThreadID p) _); cbn; auto; destruct (waiting _); auto.
Qed.

Definition track (env : envelope) (thread : string) (r : binding) : binding :=
  track_resolved env thread (track_approval env thread (track_input env thread r)).

Lemma track_new env thread r p : announces env thread = Some p -> (e_ID env = r_id r -> r_id r = "") -> r_id (track env thread r) <> "" ->
  let r' := track env thread r in
  r_id r' = e_ID env /\ (r_question r' <> "" -> question_of env thread (r_question r')) /\ (r_approval r' = true -> approval_of env thread).
Proof.
  unfold announces, track, track_resolved, track_approval, track_input.
  destruct (is_approval_method (e_Method env)) eqn:Ea; [|destruct (str_eqb (e_Method env) methodItemToolRequestUserInput) eqn:Ei; [|discriminate]].
  - assert (str_eqb (e_Method env) methodItemToolRequestUserInput = false /\ str_eqb (e_Method env) "serverRequest/resolved" = false) as [-> ->].
    { unfold is_approval_method in Ea; rewrite !orb_true_iff, !str_eqb_eq in Ea; destruct Ea as [[-> | ->]| ->]; split; reflexivity. }
    destruct (read_approval _) as [a|] eqn:Er; [|discriminate]; destruct (str_eqb (ca_ThreadID a) thread) eqn:Et; [|discriminate].
    intros _ _ Hid; cbn in *; split_and_all; [reflexivity|congruence|].
    intros Hs; exists a; bool_to_prop; auto.
  - pose proof (proj1 (str_eqb_eq _ _) Ei) as Em.
    assert (str_eqb (e_Method env) "serverRequest/resolved" = false) as -> by (rewrite Em; reflexivity).
    destruct (read_input _) as [u|] eqn:Er; [|discriminate]; destruct (str_eqb (ui_ThreadID u) thread) eqn:Et; [|discriminate]; cbn.
    intros _ Hsame; apply str_eqb_eq in Et.
    destruct (str_eqb (r_id r) (e_ID env)) eqn:Es; [apply str_eqb_eq in Es; pose proof (Hsame (eq_sym Es)) as E0; rewrite E0 in Es; rewrite <- !Es, ?E0|];
      destruct (ui_Questions u) as [|q [|]] eqn:Eq; cbn; try congruence.
    + rewrite andb_false_r; cbn; congruence.
    + destruct (str_eqb (tq_ID q) "") eqn:E1, (tq_IsSecret q) eqn:E2, (str_eqb (e_ID env) "") eqn:E3; cbn; try congruence; intros _.
      split_and_all; [reflexivity| |discriminate]; intros _; split; [exact Em|exists u, q; auto].
Qed.

Lemma track_old env thread r : announces env thread = None ->
  track env thread r = r \/ track env thread r = MkBinding "" "" false true.
Proof.
  unfold announces, track, track_resolved, track_approval, track_input.
  destruct (is_approval_method _) eqn:Ea; destruct (str_eqb (e_Method env) methodItemToolRequestUserInput) eqn:Ei;
    try (apply str_eqb_eq in Ei; rewrite Ei in Ea; discriminate); intros H.
  - destruct (read_approval _) as [p|]; [destruct (str_eqb (ca_ThreadID p) _); [discriminate|]|];
      destruct (str_eqb _ "serverRequest/resolved"); auto; destruct (read_resolved _) as [q|]; auto; destruct (_ && _); auto.
  - destruct (read_input _) as [p|]; [destruct (str_eqb (ui_ThreadID p) _); [discriminate|]|]; cbn;
      destruct (str_eqb _ "serverRequest/resolved"); auto; destruct (read_resolved _) as [q|]; auto; destruct (_ && _); auto.
  - destruct (str_eqb _ "serverRequest/resolved"); auto; destruct (read_resolved _) as [q|]; auto; destruct (_ && _); auto.
Qed.

Lemma track_resolves m thread r : resolves m thread (r_id r) -> r_id (track (fst (read_env m)) thread r) = "".
Proof.
  intros (_ & Em & p & Ep & E1 & E2); unfold track, track_resolved, track_approval, track_input; rewrite Em; cbn.
  rewrite Ep, E1, E2, !str_eqb_refl; reflexivity.
Qed.

Lemma activity_core now env c : let c' := observeActivityLocked now env c in
  cl_conn c' = cl_conn c /\ cl_state c' = cl_state c /\ cl_req c' = cl_req c /\ cl_results c' = cl_results c /\ cl_closed c' = cl_closed c.
Proof.
  unfold observeActivityLocked; destruct (read_activity _) as [p|]; cbn; auto.
  destruct (_ || _); cbn; auto; destruct (str_eqb (e_Method env) "turn/started"), (str_eqb (e_Method env) "turn/completed"), (activity_label (e_Method env) p) as [[? ?]|]; cbn; auto.
Qed.

(** What a message on the owner's connection does to the client. *)
Lemma owner_core now env c : o_threadID (cl_state c) <> "" -> legacy env = false ->
  let c' := fst (on_owner digest now env c) in
  let thread := o_threadID (cl_state c) in
  cl_conn c' = cl_conn c /\ cl_closed c' = cl_closed c /\ cl_results c' = cl_results c /\ o_threadID (cl_state c') = thread /\
  (o_pending (cl_state c') = None \/ o_pending (cl_state c') = default (o_pending (cl_state c)) (announces env thread)) /\
  cl_req c' = track env thread (cl_req c).
Proof.
  intros Ht Hl; unfold on_owner; destruct (activity_core now env c) as (E1 & E2 & E3 & E4 & E5); rewrite E2, E3.
  destruct (handle_core now _ _ Ht Hl) as (H1 & H2); apply str_eqb_neq in Ht; rewrite Ht.
  destruct (handleMessage _ _ _ _) as [st i]; cbn [fst snd] in *; rewrite H1; fold (track env (o_threadID (cl_state c)) (cl_req c)).
  destruct i as [i|]; cbn; [destruct (str_eqb (int_State i) _)|]; cbn; split_and_all; auto.
Qed.

(** ** The invariant of the client *)

Lemma selected_cons x L k thread : selected L k thread -> selected (x :: L) k thread.
Proof. intros (Ht & mid & m & old & m0 & id & -> & H); split; [exact Ht|exists (x :: mid), m, old, m0, id; auto]. Qed.

Lemma tracked_cons x L k thread pending pending' r : tracked L k thread pending r ->
  (r_submitted r = false -> quiet k thread (r_id r) x) -> pending' = None \/ pending' = pending -> tracked (x :: L) k thread pending' r.
Proof.
  intros (mid & m & old & -> & Ha & Hs & (Hq & Hp & Hd) & Hf) Hx Hpd; exists (x :: mid), m, old.
  refine (conj eq_refl (conj Ha (conj Hs (conj (conj Hq (conj Hp _)) _)))); [destruct Hpd as [-> | ->]; auto|].
  intros Hr; constructor; auto.
Qed.

(** The client after a step that leaves its owner, thread and request alone. *)
Lemma client_frame x L c c' : client_ok L c -> cl_conn c' = cl_conn c -> o_threadID (cl_state c') = o_threadID (cl_state c) ->
  o_pending (cl_state c') = None \/ o_pending (cl_state c') = o_pending (cl_state c) -> cl_req c' = cl_req c ->
  (forall k, cl_conn c = Some k -> r_submitted (cl_req c) = false -> r_id (cl_req c) <> "" -> quiet k (o_threadID (cl_state c)) (r_id (cl_req c)) x) ->
  client_ok (x :: L) c'.
Proof.
  intros [H1 H2 H3] E1 E2 E3 E4 Hx; split; rewrite ?E1, ?E2, ?E4.
  - destruct E3 as [-> | ->]; [done|exact H1].
  - intros k Hk; apply selected_cons; auto.
  - intros k Hk Hid; eapply tracked_cons; eauto.
Qed.

Lemma client_weaken L c c' : client_ok L c -> cl_conn c' = cl_conn c -> o_threadID (cl_state c') = o_threadID (cl_state c) ->
  o_pending (cl_state c') = None \/ o_pending (cl_state c') = o_pending (cl_state c) -> cl_req c' = cl_req c -> client_ok L c'.
Proof.
  intros [H1 H2 H3] E1 E2 E3 E4; split; rewrite ?E1, ?E2, ?E4; auto.
  - destruct E3 as [-> | ->]; [done|exact H1].
  - intros k Hk Hid; destruct (H3 k Hk Hid) as (mid & m & old & -> & Ha & Hs & (Hq & Hp & Hd) & Hf); exists mid, m, old.
    refine (conj eq_refl (conj Ha (conj Hs (conj (conj Hq (conj Hp _)) Hf)))); destruct E3 as [-> | ->]; auto.
Qed.

Lemma owner_ok now k m env L c : client_ok L c -> cl_conn c = Some k -> snd (read_env m) = true -> env = fst (read_env m) -> legacy env = false ->
  distinct_requests (FromServer k m :: L) = true -> client_ok (FromServer k m :: L) (fst (on_owner digest now env c)).
Proof.
  intros Hok Hk Hr Henv Hl Hd; pose proof (ok_owner _ _ Hok k Hk) as Hs; pose proof (proj1 Hs) as Ht.
  destruct (owner_core now env c Ht Hl) as (E1 & _ & _ & E2 & E3 & E4).
  destruct (announces env (o_threadID (cl_state c))) as [p|] eqn:Ea.
  - split; rewrite ?E1, ?E2, ?E4, Hk; [done|intros ? [= <-]; apply selected_cons, Hs|intros ? [= <-] Hid].
    assert (Hask : e_ID env <> "" -> asks m = Some (e_ID env)).
    { intros Hi; unfold asks; rewrite (surjective_pairing (read_env m)), Hr, <- Henv; apply str_eqb_neq in Hi; rewrite Hi; cbn.
      destruct (str_eqb (e_Method env) "") eqn:Em; [|reflexivity].
      apply str_eqb_eq in Em; unfold announces in Ea; rewrite Em in Ea; discriminate. }
    destruct (track_new env (o_threadID (cl_state c)) (cl_req c) p Ea) as (F1 & F2 & F3); [|exact Hid|].
    { intros Hsame; destruct (decide (r_id (cl_req c) = "")) as [|Hne]; [assumption|exfalso].
      destruct (ok_request _ _ Hok k Hk Hne) as (mid & m' & old & -> & Ha & _).
      apply (distinct_head k m (mid ++ FromServer k m' :: old) (e_ID env) m' Hd); [apply Hask; congruence|set_solver|congruence]. }
    exists [], m, L; rewrite F1 in *.
    refine (conj eq_refl (conj (Hask Hid) (conj Hs (conj _ (fun _ => @Forall_nil_2 _ _))))).
    unfold describes; rewrite <- Henv; split_and_all; auto; destruct E3 as [-> | ->]; auto.
  - destruct (track_old env (o_threadID (cl_state c)) (cl_req c) Ea) as [F|F].
    + apply client_frame with c; auto; [congruence|]; intros k' Hk' _ Hid (-> & Hres); apply Hid.
      rewrite <- F, Henv; apply track_resolves, Hres.
    + split; rewrite ?E1, ?E2, ?E4, ?F, Hk; [done|intros ? [= <-]; apply selected_cons, Hs|cbn; congruence].
Qed.

(** The message that the thread started leaves the request alone. *)
Lemma started_ok now L c k env : client_ok L c -> cl_conn c = Some k -> e_Method env = methodThreadStarted ->
  client_ok L (fst (on_owner digest now env c)).
Proof.
  intros Hok Hk Hm; destruct (owner_core now env c) as (E1 & _ & _ & E2 & E3 & E4);
    [exact (proj1 (ok_owner _ _ Hok k Hk))|unfold legacy; rewrite Hm; reflexivity|].
  apply client_weaken with c; auto.
  - unfold announces in E3; rewrite Hm in E3; exact E3.
  - rewrite E4; unfold track, track_resolved, track_approval, track_input; rewrite Hm; reflexivity.
Qed.

Lemma not_resolves m thread id : e_Method (fst (read_env m)) = "" \/ snd (read_env m) = false -> ~ resolves m thread id.
Proof. intros [E|E] (E1 & E2 & _); congruence. Qed.

(** The requests noted on a connection were read from its TUI. *)
Definition noted (L : list entry) (k : nat) (reqs : gset string) : Prop :=
  forall id, id ∈ reqs -> exists m0, FromTUI k m0 ∈ L /\ selects m0 id.

Lemma noted_cons x L k reqs : noted L k reqs -> noted (x :: L) k reqs.
Proof. intros H id Hid; destruct (H id Hid) as (m0 & ? & ?); exists m0; split; [set_solver|assumption]. Qed.

Lemma noted_sub L k reqs reqs' : noted L k reqs -> reqs' ⊆ reqs -> noted L k reqs'.
Proof. intros H Hsub id Hid; apply H; set_solver. Qed.

Lemma note_ok L k m reqs : noted L k reqs -> noted (FromTUI k m :: L) k (note_request m reqs).
Proof.
  intros H; unfold note_request; destruct (read_env m) as [env ok] eqn:E.
  destruct (ok && _ && _) eqn:Eb; [|apply noted_cons, H].
  apply andb_true_iff in Eb as [Eb Em]; apply andb_true_iff in Eb as [-> _].
  intros id [->%elem_of_singleton|Hid]%elem_of_union; [|exact (noted_cons _ _ _ _ H id Hid)].
  exists m; split; [left|]; unfold selects; rewrite E; auto.
Qed.

(** A response that selects the owner. *)
Lemma bind_ok k m L c reqs : client_ok L c -> noted L k reqs -> snd (read_env m) = true ->
  let '(c', reqs', env') := bind_owner k (fst (read_env m)) c reqs in
  reqs' ⊆ reqs /\ cl_results c' = cl_results c /\
  ((c' = c /\ env' = fst (read_env m)) \/
   (client_ok (FromServer k m :: L) c' /\ cl_conn c' = Some k /\ e_Method env' = methodThreadStarted)).
Proof.
  intros Hok Hn Hr; unfold bind_owner; destruct (str_eqb (e_Method _) "") eqn:Em; cbn; [|auto].
  destruct (bool_decide (e_ID (fst (read_env m)) ∈ reqs)) eqn:Ei; cbn; [|auto].
  apply bool_decide_eq_true in Ei; apply str_eqb_eq in Em.
  destruct (threadStartedParams _) as [t|] eqn:Et; [|split; [set_solver|auto]].
  destruct (str_eqb (th_ID t) "") eqn:E1, (th_Ephemeral t) eqn:E2; cbn; try (split; [set_solver|auto]; fail).
  apply str_eqb_neq in E1.
  assert (Hsel : selected (FromServer k m :: L) k (th_ID t)).
  { destruct (Hn _ Ei) as (m0 & H0 & H1); split; [exact E1|exists [], m, L, m0, (e_ID (fst (read_env m)))].
    refine (conj eq_refl (conj _ (conj H0 H1))); split; [exact Hr|split; [reflexivity|split; [exact Em|exists t; auto]]]. }
  destruct (bool_decide (cl_conn c = Some k)) eqn:Ec, (str_eqb (o_threadID _) (th_ID t)) eqn:Eo; cbn; (split; [set_solver|]);
    (split; [reflexivity|]); right; (split; [|split; reflexivity]);
    try (split; cbn; [done|intros ? [= <-]; exact Hsel|congruence]).
  apply bool_decide_eq_true in Ec.
  apply client_frame with c; auto; intros k' _ _ _ (_ & Hres); revert Hres; apply not_resolves; auto.
Qed.

Lemma deliver_core env c : let c' := deliver env c in cl_conn c' = cl_conn c /\ cl_state c' = cl_state c /\ cl_req c' = cl_req c /\ cl_closed c' = cl_closed c.
Proof. unfold deliver; destruct (cl_results c !! _) as [[?|]|]; auto. Qed.

Lemma server_ok now k m L c reqs : client_ok L c -> noted L k reqs -> legacy (fst (read_env m)) = false ->
  distinct_requests (FromServer k m :: L) = true ->
  let '(c', reqs', _, _) := on_server digest now k m c reqs in
  client_ok (FromServer k m :: L) c' /\ noted (FromServer k m :: L) k reqs'.
Proof.
  intros Hok Hn Hl Hd; unfold on_server; pose proof (bind_ok k m L c reqs Hok Hn) as Hb.
  destruct (read_env m) as [env ok] eqn:Er; cbn [fst snd] in *.
  assert (Hfr : forall c', cl_conn c' = cl_conn c -> cl_state c' = cl_state c -> cl_req c' = cl_req c ->
    (e_Method env = "" \/ ok = false \/ cl_conn c <> Some k) -> client_ok (FromServer k m :: L) c').
  { intros c' E1 E2 E3 Hq; apply client_frame with c; rewrite ?E2; auto; intros k' Hk' _ _ (-> & Hres).
    destruct Hq as [Hq|[Hq|Hq]]; [..|congruence]; revert Hres; apply not_resolves; rewrite Er; auto. }
  destruct ok; cbn; [|split; [apply Hfr; auto|apply noted_cons, Hn]].
  destruct (is_instruction_answer env) eqn:Ei.
  { apply andb_true_iff in Ei as [Ei _]; apply str_eqb_eq in Ei; destruct (deliver_core env c) as (? & ? & ? & ?).
    split; [apply Hfr; auto|apply noted_cons, Hn]. }
  destruct (bind_owner k env c reqs) as [[c1 reqs1] env1]; destruct (Hb eq_refl) as (Hs & _ & Hc).
  assert (Hn' : noted (FromServer k m :: L) k reqs1) by (apply noted_cons, noted_sub with reqs; assumption).
  destruct (bool_decide (cl_conn c1 = Some k)) eqn:Ek; cbn.
  - apply bool_decide_eq_true in Ek; destruct (on_owner digest now env1 c1) as [c2 i] eqn:Eo; split; [|exact Hn'].
    replace c2 with (fst (on_owner digest now env1 c1)) by (rewrite Eo; reflexivity).
    destruct Hc as [[-> ->]|(Hc & _ & Hm)]; [apply owner_ok; rewrite ?Er; auto|apply started_ok with k; auto].
  - apply bool_decide_eq_false in Ek; split; [|exact Hn']; destruct Hc as [[-> _]|(_ & Hc & _)]; [|congruence].
    apply Hfr; auto.
Qed.

(** ** Answers *)

(** What justifies an answer, of the log before it. *)
Definition justified (pre : list entry) (ko : option nat) (pid id : string) (a : answer) : Prop :=
  exists k thread mid m old p, ko = Some k /\ pre = mid ++ FromServer k m :: old /\ asks m = Some id /\ selected old k thread /\
    Forall (quiet k thread id) mid /\ announces (fst (read_env m)) thread = Some (Some p) /\ pr_ID p = pid /\
    match a with
    | AnswerText q _ => question_of (fst (read_env m)) thread q
    | AnswerDecision d => approval_of (fst (read_env m)) thread /\ (d = "accept" \/ d = "cancel")
    end.

Lemma submit_ok x L c : client_ok L c -> client_ok (x :: L) (set_req (submit (cl_req c)) c).
Proof.
  intros [H1 H2 H3]; split; cbn; auto.
  - intros k Hk; apply selected_cons; auto.
  - intros k Hk Hid; destruct (H3 k Hk Hid) as (mid & m & old & -> & Ha & Hs & Hd & _); exists (x :: mid), m, old.
    refine (conj eq_refl (conj Ha (conj Hs (conj Hd _)))); discriminate.
Qed.

Lemma mark_ok k m L c : client_ok L c -> client_ok (FromTUI k m :: L) (mark_answered k m c).
Proof.
  intros H; unfold mark_answered; destruct (_ && _) eqn:E; [apply submit_ok, H|].
  apply client_frame with c; auto; intros k' Hk' _ Hid (-> & Ht).
  rewrite Ht, andb_true_r in E; apply bool_decide_eq_false in E; congruence.
Qed.

(** The request that may be answered, from the guards [Respond] and [Decide] share. *)
Lemma answer_source L c pid : client_ok L c -> pending_is (cl_state c) pid = true -> r_id (cl_req c) <> "" -> r_submitted (cl_req c) = false ->
  exists k mid m old p, cl_conn c = Some k /\ L = mid ++ FromServer k m :: old /\ asks m = Some (r_id (cl_req c)) /\
    selected old k (o_threadID (cl_state c)) /\ Forall (quiet k (o_threadID (cl_state c)) (r_id (cl_req c))) mid /\
    announces (fst (read_env m)) (o_threadID (cl_state c)) = Some (Some p) /\ pr_ID p = pid /\
    describes m (o_threadID (cl_state c)) (Some p) (cl_req c).
Proof.
  intros Hok Hp Hid Hs; unfold pending_is in Hp; destruct (o_pending (cl_state c)) as [p|] eqn:Ep; [|discriminate]; apply str_eqb_eq in Hp.
  destruct (cl_conn c) as [k|] eqn:Ek; [|exfalso; apply (ok_pending _ _ Hok); congruence].
  destruct (ok_request _ _ Hok k Ek Hid) as (mid & m & old & -> & Ha & Hsel & Hd & Hq); rewrite Ep in Hd.
  exists k, mid, m, old, p; pose proof (proj2 (proj2 Hd)) as [Hn|Hn]; [discriminate|].
  split_and_all; auto; exact (proj1 Hd) || exact (proj1 (proj2 Hd)).
Qed.

Lemma respond_ok L c pid text c' id a : client_ok L c -> Respond c pid text = (c', inr (id, a)) ->
  c' = set_req (submit (cl_req c)) c /\ justified L (cl_conn c') pid id a.
Proof.
  intros Hok H; unfold Respond in H; destruct (_ || _) eqn:E; [discriminate|]; injection H as <- <- <-; split; [reflexivity|].
  rewrite !orb_false_iff, negb_false_iff, !str_eqb_neq in E; destruct E as ((((_ & E1) & E2) & E3) & E4).
  destruct (answer_source L c pid Hok E1 E3 E4) as (k & mid & m & old & p & Hk & HL & Ha & Hs & Hq & Hn & Hp & Hd & _).
  exists k, (o_threadID (cl_state c)), mid, m, old, p; split_and_all; auto.
Qed.

Lemma decide_ok L c pid d c' id a : client_ok L c -> Decide c pid d = (c', inr (id, a)) ->
  c' = set_req (submit (cl_req c)) c /\ justified L (cl_conn c') pid id a.
Proof.
  intros Hok H; unfold Decide in H; destruct (negb (str_eqb d "accept") && negb (str_eqb d "cancel")) eqn:Ed; [discriminate|].
  destruct (_ || _) eqn:E; [discriminate|]; injection H as <- <- <-; split; [reflexivity|].
  rewrite !orb_false_iff, !negb_false_iff, !str_eqb_neq in E; destruct E as ((((_ & E1) & E2) & E3) & E4).
  destruct (answer_source L c pid Hok E2 E4 E3) as (k & mid & m & old & p & Hk & HL & Ha & Hs & Hq & Hn & Hp & _ & Hd & _).
  exists k, (o_threadID (cl_state c)), mid, m, old, p; split_and_all; auto.
  apply andb_false_iff in Ed as [Ed|Ed]; apply negb_false_iff, str_eqb_eq in Ed; auto.
Qed.

(** ** The invariant of the relay *)

Record relay_ok (w : relay) : Prop := {
  ro_client : client_ok (rl_log w) (rl_client w);
  ro_noted : forall k cn, rl_conns w !! k = Some cn -> noted (rl_log w) k (cn_requests cn);
  ro_answers : forall post k pid id a pre, rl_log w = post ++ Answered k pid id a :: pre -> justified pre k pid id a }.

Lemma relay_ok_same w w' : relay_ok w -> rl_log w' = rl_log w -> client_ok (rl_log w) (rl_client w') ->
  (forall k cn, rl_conns w' !! k = Some cn -> noted (rl_log w) k (cn_requests cn)) -> relay_ok w'.
Proof. intros [H1 H2 H3] E Hc Hn; split; rewrite ?E; auto. Qed.

Lemma relay_ok_log x w w' : relay_ok w -> rl_log w' = x :: rl_log w -> client_ok (x :: rl_log w) (rl_client w') ->
  (forall k cn, rl_conns w' !! k = Some cn -> noted (x :: rl_log w) k (cn_requests cn)) ->
  (forall k pid id a, x = Answered k pid id a -> justified (rl_log w) k pid id a) -> relay_ok w'.
Proof.
  intros [H1 H2 H3] E Hc Hn Hx; split; rewrite ?E; auto.
  intros [|y post] k pid id a pre; cbn; intros [= -> HL]; [subst; auto|eauto].
Qed.

Lemma noted_insert (m : gmap nat conn_state) x L k cn : (forall k' cn', m !! k' = Some cn' -> noted L k' (cn_requests cn')) ->
  noted (x :: L) k (cn_requests cn) -> forall k' cn', <[k := cn]> m !! k' = Some cn' -> noted (x :: L) k' (cn_requests cn').
Proof.
  intros Hm Hk k' cn' [[<- <-]|[_ H]]%lookup_insert_Some; [exact Hk|apply noted_cons, Hm, H].
Qed.

Lemma noted_insert_same (m : gmap nat conn_state) L k cn : (forall k' cn', m !! k' = Some cn' -> noted L k' (cn_requests cn')) ->
  noted L k (cn_requests cn) -> forall k' cn', <[k := cn]> m !! k' = Some cn' -> noted L k' (cn_requests cn').
Proof. intros Hm Hk k' cn' [[<- <-]|[_ H]]%lookup_insert_Some; [exact Hk|apply Hm, H]. Qed.

(** An entry that matters to no request. *)
Definition silent_entry (x : entry) : Prop := match x with ToServer _ _ | ToTUI _ _ | Asked _ _ _ | Returned _ _ => True | _ => False end.

Lemma silent_step x w w' : relay_ok w -> silent_entry x -> rl_log w' = x :: rl_log w ->
  cl_conn (rl_client w') = cl_conn (rl_client w) -> cl_state (rl_client w') = cl_state (rl_client w) -> cl_req (rl_client w') = cl_req (rl_client w) ->
  (forall k cn, rl_conns w' !! k = Some cn -> noted (x :: rl_log w) k (cn_requests cn)) -> relay_ok w'.
Proof.
  intros Hw Hx E E1 E2 E3 Hn; apply relay_ok_log with x w; auto; [|destruct x; done].
  apply client_frame with (rl_client w); rewrite ?E2; auto; [apply Hw|destruct x; done].
Qed.

Lemma quiet_step w w' : relay_ok w -> rl_log w' = rl_log w ->
  cl_conn (rl_client w') = cl_conn (rl_client w) -> cl_state (rl_client w') = cl_state (rl_client w) -> cl_req (rl_client w') = cl_req (rl_client w) ->
  rl_conns w' = rl_conns w -> relay_ok w'.
Proof.
  intros Hw E E1 E2 E3 E4; apply relay_ok_same with w; auto; [|rewrite E4; apply Hw].
  apply client_weaken with (rl_client w); rewrite ?E2; auto; apply Hw.
Qed.

Lemma finish_ok id r w : relay_ok w -> relay_ok (finish id r w).
Proof. intros Hw; apply silent_step with (Returned id r) w; cbn; auto; intros k cn Hk; apply noted_cons, (ro_noted _ Hw k cn Hk). Qed.

Lemma send_log n1 n2 i w : rl_log (send_update n1 n2 i w) = rl_log w /\ rl_client (send_update n1 n2 i w) = rl_client w /\ rl_conns (send_update n1 n2 i w) = rl_conns w.
Proof. destruct i; auto. Qed.

Lemma end_ok k L c : client_ok L c -> client_ok L (fst (on_end k c)).
Proof.
  intros H; unfold on_end; destruct (bool_decide _) eqn:E; [|exact H]; split; cbn; [done|discriminate|done].
Qed.

Lemma answer_step w pid f : relay_ok w ->
  (forall c e, f (rl_client w) = (c, inl e) -> c = rl_client w) ->
  (forall c id a, f (rl_client w) = (c, inr (id, a)) -> c = set_req (submit (cl_req (rl_client w))) (rl_client w) /\ justified (rl_log w) (cl_conn c) pid id a) ->
  relay_ok (respond_with pid f w).
Proof.
  intros Hw Hl Hr; unfold respond_with; destruct (f (rl_client w)) as [c [e|[id a]]] eqn:E.
  - rewrite (Hl _ _ eq_refl); apply quiet_step with w; auto.
  - destruct (Hr _ _ _ eq_refl) as [-> Hj]; apply relay_ok_log with (Answered (cl_conn (rl_client w)) pid id a) w; auto.
    + apply submit_ok, Hw.
    + intros k cn Hk; apply noted_cons, (ro_noted _ Hw k cn Hk).
    + intros k pid' id' a' [= <- <- <- <-]; exact Hj.
Qed.

Lemma instruct_core c uuid text : let c' := fst (Instruct c uuid text) in cl_conn c' = cl_conn c /\ cl_state c' = cl_state c /\ cl_req c' = cl_req c.
Proof.
  unfold Instruct; destruct (ValidateResponse text); cbn; auto; destruct (bound c); cbn; auto.
  destruct (_ && _ && _); cbn; auto; destruct (str_eqb _ _); cbn; auto.
Qed.

Lemma respond_refused c pid text c' e : Respond c pid text = (c', inl e) -> c' = c.
Proof. unfold Respond; destruct (_ || _); congruence. Qed.

Lemma decide_refused c pid d c' e : Decide c pid d = (c', inl e) -> c' = c.
Proof. unfold Decide; destruct (_ && _); [congruence|]; destruct (_ || _); congruence. Qed.

Lemma relay_step w e : relay_ok w -> distinct_requests (rl_log (relay_do digest w e)) = true -> item_protocol (rl_log (relay_do digest w e)) = true ->
  relay_ok (relay_do digest w e).
Proof.
  intros Hw; destruct e as [k|k m|k|k now n1 n2 m|k|k n1 n2|n|pid text|pid d|after events bytes now|uuid text|uuid failed|uuid|uuid e];
    cbn [relay_do]; try (destruct (rl_conns w !! k) as [[reqs up down op]|] eqn:Ek); try (intros _ _; exact Hw);
    try (pose proof (ro_noted _ Hw k _ Ek) as Hk; cbn in Hk).
  - intros _ _; apply relay_ok_same with w; auto; [apply Hw|]; cbn; apply noted_insert_same; [apply Hw|cbn; intros ? ?; set_solver].
  - destruct up; [auto|]; intros _ _; apply relay_ok_log with (FromTUI k m) w; auto; [apply mark_ok, Hw| |discriminate].
    cbn; apply noted_insert; [apply Hw|apply note_ok, Hk].
  - destruct up as [m|]; [|auto]; intros _ _; apply silent_step with (ToServer k m) w; cbn; auto.
    apply noted_insert; [apply Hw|apply noted_cons, Hk].
  - destruct down, op; auto; destruct (on_server digest now k m (rl_client w) reqs) as [[[c reqs'] i] f] eqn:Es.
    set (w' := set_client c _); destruct (send_log n1 n2 i w') as (E1 & E2 & E3); cbn [rl_log add_log]; rewrite E1; cbn; intros Hd Hi.
    pose proof (server_ok now k m (rl_log w) (rl_client w) reqs (ro_client _ Hw) Hk (item_head k m (rl_log w) Hi) Hd) as H; rewrite Es in H.
    apply relay_ok_log with (FromServer k m) w; cbn; rewrite ?E1, ?E2, ?E3; cbn; auto; [apply H| |discriminate].
    apply noted_insert; [apply Hw|apply H].
  - destruct down as [m|], op; auto; intros _ _; apply silent_step with (ToTUI k m) w; cbn; auto.
    apply noted_insert; [apply Hw|apply noted_cons, Hk].
  - destruct op; auto; pose proof (end_ok k _ _ (ro_client _ Hw)) as He; destruct (on_end k (rl_client w)) as [c i]; intros _ _.
    set (w' := set_client c _); destruct (send_log n1 n2 i w') as (E1 & E2 & E3).
    apply relay_ok_same with w; rewrite ?E1, ?E2, ?E3; auto; cbn; apply noted_insert_same; [apply Hw|exact Hk].
  - intros _ _; apply quiet_step with w; auto.
  - intros _ _; apply answer_step; auto; [intros; eapply respond_refused; eassumption|intros c id a; apply respond_ok, Hw].
  - intros _ _; apply answer_step; auto; [intros; eapply decide_refused; eassumption|intros c id a; apply decide_ok, Hw].
  - intros _ _; unfold Observe; destruct (Window _ _ _ _ _); apply quiet_step with w; auto.
  - destruct (bool_decide _); auto; pose proof (instruct_core (rl_client w) uuid text) as Hi;
      destruct (Instruct (rl_client w) uuid text) as [c [e|[k i]]]; destruct Hi as (? & ? & ?); intros _ _.
    + apply silent_step with (Returned (instruction_id uuid) (Some e)) w; cbn; auto; intros k cn Hk; apply noted_cons, (ro_noted _ Hw k cn Hk).
    + apply quiet_step with w; auto.
  - destruct (rl_calls w !! _) as [[k i [|]]|]; auto; destruct failed as [e|]; intros _ _; [apply finish_ok, Hw|].
    apply silent_step with (Asked k (instruction_id uuid) i) w; cbn; auto; intros k' cn Hk; apply noted_cons, (ro_noted _ Hw k' cn Hk).
  - destruct (rl_calls w !! _) as [[k i [|]]|]; auto; destruct (cl_results _ !! _) as [[r|]|]; auto; intros _ _; apply finish_ok, Hw.
  - destruct (rl_calls w !! _) as [[k i [|]]|]; auto; intros _ _; apply finish_ok, Hw.
Qed.

Lemma log_grows w e : exists l, rl_log (relay_do digest w e) = l ++ rl_log w.
Proof.
  destruct e as [k|k m|k|k now n1 n2 m|k|k n1 n2|n|pid text|pid d|after events bytes now|uuid text|uuid failed|uuid|uuid e]; cbn [relay_do];
    try (destruct (rl_conns w !! k) as [[reqs [up|] [down|] [|]]|]); try (exists []; reflexivity); try (eexists [_]; reflexivity);
    try (destruct (on_server _ _ _ _ _ _) as [[[c r] [i|]] f]); try (destruct (on_end _ _) as [c [i|]]);
    try (unfold respond_with; destruct (Respond _ _ _) as [c [e|[id a]]]); try (unfold respond_with; destruct (Decide _ _ _) as [c [e|[id a]]]);
    try (destruct (bool_decide _)); try (destruct (Instruct _ _ _) as [c [e|[k i]]]);
    try (destruct (rl_calls w !! _) as [[k i [|]]|]); try destruct failed; try (destruct (cl_results _ !! _) as [[r|]|]);
    first [exists []; reflexivity|eexists [_]; reflexivity].
Qed.

Lemma new_relay_ok : relay_ok new_relay.
Proof.
  split; cbn; [split; cbn; congruence|intros k cn H; rewrite lookup_empty in H; discriminate|intros [|] **; discriminate].
Qed.

Lemma run_snoc evs e : relay_run digest (evs ++ [e]) = relay_do digest (relay_run digest evs) e.
Proof. unfold relay_run; rewrite foldl_app; reflexivity. Qed.

Lemma relay_run_ok evs : distinct_requests (rl_log (relay_run digest evs)) = true -> item_protocol (rl_log (relay_run digest evs)) = true ->
  relay_ok (relay_run digest evs).
Proof.
  induction evs as [|e evs IH] using rev_ind; intros Hd Hi; [apply new_relay_ok|]; rewrite run_snoc in *.
  apply relay_step; auto; destruct (log_grows (relay_run digest evs) e) as [l E]; rewrite E in *; apply IH;
    eauto using distinct_suffix, item_suffix.
Qed.

(** C38. For an app server whose requests on a connection have distinct ids and
    are of the item protocol (no execCommandApproval or applyPatchApproval
    requests: with one of those a decision can answer another request, see
    findings), in any interleaving of connections, frames and calls: an answer of
    Respond or Decide is written to the upstream of a connection that had taken
    ownership of the thread before (a successful, non-ephemeral response to the
    TUI's own start, resume or fork); it answers a request that arrived on that
    connection for that thread, whose pending identity is the one the caller
    named, and that is a single question that is not secret or a supported command
    approval; since the request arrived neither the TUI nor an earlier call had
    answered it and the server had not resolved it; and no request is answered
    twice this way. *)
Theorem remote_answers (evs : list event) :
  let L := rl_log (relay_run digest evs) in
  distinct_requests L = true -> item_protocol L = true ->
  forall post k pid id a pre, L = post ++ Answered k pid id a :: pre ->
    justified pre k pid id a /\ (forall pid' a', Answered k pid' id a' ∉ pre).
Proof.
  intros L Hd Hi post k pid id a pre HL; pose proof (ro_answers _ (relay_run_ok evs Hd Hi)) as Hj; fold L in Hj.
  pose proof (Hj _ _ _ _ _ _ HL) as H; split; [exact H|intros pid' a' Hin].
  destruct H as (kk & thread & mid & m & old & p & -> & -> & Ha & _ & Hq & _).
  apply elem_of_app in Hin as [Hin|Hin]; [apply list_elem_of_In in Hin; rewrite Forall_forall in Hq; exact (Hq _ Hin (conj eq_refl eq_refl))|].
  apply elem_of_cons in Hin as [Hin|Hin]; [discriminate|].
  apply list_elem_of_split in Hin as (l1 & l2 & ->).
  destruct (Hj (post ++ Answered (Some kk) pid id a :: mid ++ FromServer kk m :: l1) (Some kk) pid' id a' l2) as (k2 & t2 & mid2 & m2 & old2 & p2 & [= <-] & -> & Ha2 & _).
  { rewrite HL; repeat (rewrite <- ?app_assoc; cbn); reflexivity. }
  rewrite HL, app_comm_cons, app_assoc in Hd; apply distinct_suffix in Hd.
  eapply (distinct_head kk m); [exact Hd|exact Ha| |exact Ha2]; set_solver.
Qed.

(** ** What is forwarded *)

Definition read_tui (k : nat) (x : entry) : option message := match x with FromTUI k' m => if (k' =? k)%nat then Some m else None | _ => None end.
Definition wrote_server (k : nat) (x : entry) : option message := match x with ToServer k' m => if (k' =? k)%nat then Some m else None | _ => None end.
Definition read_server (k : nat) (x : entry) : option message := match x with FromServer k' m => if (k' =? k)%nat then Some m else None | _ => None end.
Definition wrote_tui (k : nat) (x : entry) : option message := match x with ToTUI k' m => if (k' =? k)%nat then Some m else None | _ => None end.

(** The frames of one direction of a connection, oldest first. *)
Definition frames (f : entry -> option message) (L : list entry) : list message := reverse (omap f L).

(** Everything but the responses to the relay's own instructions. *)
Definition for_tui (m : message) : bool := let '(env, ok) := read_env m in negb (ok && is_instruction_answer env).

Definition up_of (w : relay) (k : nat) : list message := match rl_conns w !! k with Some cn => option_list (cn_up cn) | None => [] end.
Definition down_of (w : relay) (k : nat) : list message := match rl_conns w !! k with Some cn => option_list (cn_down cn) | None => [] end.

Definition transparent (w : relay) (k : nat) : Prop :=
  frames (wrote_server k) (rl_log w) ++ up_of w k = frames (read_tui k) (rl_log w) /\
  frames (wrote_tui k) (rl_log w) ++ down_of w k = List.filter for_tui (frames (read_server k) (rl_log w)).

Lemma frames_cons f x L : frames f (x :: L) = frames f L ++ option_list (f x).
Proof. unfold frames; cbn; destruct (f x); cbn; [apply reverse_cons|rewrite app_nil_r; reflexivity]. Qed.

Lemma server_forwards now k m c reqs : snd (on_server digest now k m c reqs) = for_tui m.
Proof.
  unfold on_server, for_tui; destruct (read_env m) as [env ok]; destruct ok; cbn; [|reflexivity].
  destruct (is_instruction_answer env); cbn; [reflexivity|].
  destruct (bind_owner k env c reqs) as [[c1 r1] e1]; destruct (bool_decide _); cbn; [|reflexivity].
  destruct (on_owner digest now e1 c1); reflexivity.
Qed.

Lemma transparent_frame w w' k : transparent w k -> rl_conns w' = rl_conns w ->
  (rl_log w' = rl_log w \/ exists x, rl_log w' = x :: rl_log w /\ read_tui k x = None /\ wrote_server k x = None /\ read_server k x = None /\ wrote_tui k x = None) ->
  transparent w' k.
Proof.
  intros Ht Ec [E|(x & E & E1 & E2 & E3 & E4)]; unfold transparent, up_of, down_of; rewrite Ec, E; [exact Ht|].
  rewrite !frames_cons, E1, E2, E3, E4; cbn; rewrite !app_nil_r; exact Ht.
Qed.

(** A step on one connection: the entry it adds and the connection it leaves. *)
Lemma transparent_conn w w' k cn k' : transparent w k -> rl_conns w' = <[k' := cn]> (rl_conns w) ->
  match rl_log w' with
  | x :: L => L = rl_log w /\
      (k' <> k -> read_tui k x = None /\ wrote_server k x = None /\ read_server k x = None /\ wrote_tui k x = None) /\
      (k' = k -> option_list (wrote_server k x) ++ option_list (cn_up cn) = up_of w k ++ option_list (read_tui k x) /\
                 option_list (wrote_tui k x) ++ option_list (cn_down cn) = down_of w k ++ List.filter for_tui (option_list (read_server k x)))
  | [] => False
  end -> transparent w' k.
Proof.
  intros [H1 H2] Ec; unfold transparent, up_of, down_of; destruct (rl_log w') as [|x L]; [done|]; intros (-> & Hn & Hk).
  rewrite !frames_cons, Ec; destruct (decide (k' = k)) as [->|Hne].
  - destruct (Hk eq_refl) as [K1 K2]; rewrite lookup_insert_eq, List.filter_app, <- H1, <- H2, <- !app_assoc, K1, K2, !app_assoc; auto.
  - destruct (Hn Hne) as (E1 & E2 & E3 & E4); rewrite lookup_insert_ne by exact Hne; rewrite E1, E2, E3, E4; cbn; rewrite !app_nil_r; auto.
Qed.

Lemma transparent_slots w w' k cn k' : transparent w k -> rl_conns w' = <[k' := cn]> (rl_conns w) -> rl_log w' = rl_log w ->
  (k' = k -> option_list (cn_up cn) = up_of w k /\ option_list (cn_down cn) = down_of w k) -> transparent w' k.
Proof.
  intros [H1 H2] Ec El Hk; unfold transparent, up_of, down_of; rewrite Ec, El; destruct (decide (k' = k)) as [->|Hne].
  - destruct (Hk eq_refl) as [K1 K2]; rewrite lookup_insert_eq, K1, K2; auto.
  - rewrite lookup_insert_ne by exact Hne; auto.
Qed.

Ltac other_conn := intros Hne; apply Nat.eqb_neq in Hne; cbn; rewrite ?Hne; auto.
Ltac this_conn Ek := intros ->; unfold up_of, down_of; rewrite Ek; cbn; rewrite ?Nat.eqb_refl; cbn; auto.

Lemma transparent_step w e k : transparent w k -> transparent (relay_do digest w e) k.
Proof.
  intros Ht; destruct e as [k'|k' m|k'|k' now n1 n2 m|k'|k' n1 n2|n|pid text|pid d|after events bytes now|uuid text|uuid failed|uuid|uuid e];
    cbn [relay_do]; try (destruct (rl_conns w !! k') as [[reqs up down op]|] eqn:Ek); try exact Ht.
  - eapply transparent_slots; [exact Ht|reflexivity..|]; this_conn Ek.
  - destruct up; [exact Ht|]; eapply transparent_conn; [exact Ht|reflexivity|]; cbn.
    split; [reflexivity|split; [other_conn|this_conn Ek]]; rewrite app_nil_r; auto.
  - destruct up as [m|]; [|exact Ht]; eapply transparent_conn; [exact Ht|reflexivity|]; cbn.
    split; [reflexivity|split; [other_conn|this_conn Ek]]; rewrite app_nil_r; auto.
  - destruct down, op; try exact Ht; pose proof (server_forwards now k' m (rl_client w) reqs) as Hf.
    destruct (on_server digest now k' m (rl_client w) reqs) as [[[c reqs'] i] f]; cbn in Hf; subst f.
    eapply transparent_conn; [exact Ht|cbn; rewrite (proj2 (proj2 (send_log _ _ _ _))); reflexivity|].
    cbn [rl_log add_log]; rewrite (proj1 (send_log _ _ _ _)).
    split; [reflexivity|split; [other_conn|this_conn Ek]]; rewrite app_nil_r; destruct (for_tui m); auto.
  - destruct down as [m|], op; try exact Ht; eapply transparent_conn; [exact Ht|reflexivity|]; cbn.
    split; [reflexivity|split; [other_conn|this_conn Ek]]; rewrite ?app_nil_r; auto.
  - destruct op; try exact Ht; destruct (on_end k' (rl_client w)) as [c i].
    eapply transparent_slots; [exact Ht|rewrite (proj2 (proj2 (send_log _ _ _ _))); reflexivity|rewrite (proj1 (send_log _ _ _ _)); reflexivity|].
    this_conn Ek.
  - unfold respond_with; destruct (Respond _ _ _) as [c [e|[id a]]]; (apply transparent_frame with w; [exact Ht|reflexivity|cbn; eauto 10]).
  - unfold respond_with; destruct (Decide _ _ _) as [c [e|[id a]]]; (apply transparent_frame with w; [exact Ht|reflexivity|cbn; eauto 10]).
  - destruct (bool_decide _); [exact Ht|]; destruct (Instruct _ _ _) as [c [e|[k'' i]]]; (apply transparent_frame with w; [exact Ht|reflexivity|cbn; eauto 10]).
  - destruct (rl_calls w !! _) as [[k'' i [|]]|]; try exact Ht; destruct failed; (apply transparent_frame with w; [exact Ht|reflexivity|cbn; eauto 10]).
  - destruct (rl_calls w !! _) as [[k'' i [|]]|]; try exact Ht; destruct (cl_results _ !! _) as [[r|]|]; try exact Ht;
      (apply transparent_frame with w; [exact Ht|reflexivity|cbn; eauto 10]).
  - destruct (rl_calls w !! _) as [[k'' i [|]]|]; try exact Ht; (apply transparent_frame with w; [exact Ht|reflexivity|cbn; eauto 10]).
Qed.

(** C39. The relay is transparent: at every point of any run, on every connection, what was
    written to the server (answers and instructions of the bridge apart), followed by the
    frame still held, is what was read from the TUI, frame by frame and in order; what was
    written to the TUI, followed by the frame still held, is what was read from the
    server, less exactly the responses to the bridge's own instructions. *)
Theorem relay_transparent (evs : list event) (k : nat) :
  let w := relay_run digest evs in
  frames (wrote_server k) (rl_log w) ++ up_of w k = frames (read_tui k) (rl_log w) /\
  frames (wrote_tui k) (rl_log w) ++ down_of w k = List.filter for_tui (frames (read_server k) (rl_log w)).
Proof.
  induction evs as [|e evs IH] using rev_ind; [split; reflexivity|]; rewrite run_snoc; apply transparent_step, IH.
Qed.

(** ** What is offered *)

(** A client that has a connection is not closed. *)
Definition live (c : ResponseClient) : Prop := cl_conn c <> None -> cl_closed c = false.

Lemma owner_live now env c : live c -> live (fst (on_owner digest now env c)) /\ cl_conn (fst (on_owner digest now env c)) = cl_conn c.
Proof.
  intros H; unfold on_owner, live; destruct (activity_core now env c) as (E1 & E2 & E3 & E4 & E5).
  destruct (if str_eqb _ "" then _ else _) as [st i]; destruct i as [i|]; cbn; [destruct (str_eqb (int_State i) _)|]; cbn; rewrite E1, E5; auto.
Qed.

Lemma server_live now k m c reqs : live c -> let '(c', _, _, _) := on_server digest now k m c reqs in live c'.
Proof.
  intros H; unfold on_server; destruct (read_env m) as [env [|]]; cbn; [|exact H].
  destruct (is_instruction_answer env).
  { destruct (deliver_core env c) as (E1 & _ & _ & E2); unfold live; rewrite E1, E2; exact H. }
  assert (Hb : live (bind_owner k env c reqs).1.1).
  { unfold bind_owner; destruct (_ && _); [|exact H]; destruct (threadStartedParams _) as [t|]; [|exact H].
    destruct (_ && _); [|exact H]; destruct (_ || _); intros _; reflexivity. }
  destruct (bind_owner k env c reqs) as [[c1 r1] e1]; destruct (bool_decide _); cbn; [|exact Hb].
  destruct (owner_live now e1 c1 Hb) as [H1 _]; destruct (on_owner digest now e1 c1); exact H1.
Qed.

Lemma live_step w e : live (rl_client w) -> live (rl_client (relay_do digest w e)).
Proof.
  intros H; destruct e as [k|k m|k|k now n1 n2 m|k|k n1 n2|n|pid text|pid d|after events bytes now|uuid text|uuid failed|uuid|uuid e];
    cbn [relay_do]; try (destruct (rl_conns w !! k) as [[reqs [up|] [down|] [|]]|] eqn:Ek); try exact H.
  all: try match goal with
    | |- context [mark_answered ?k ?m ?c] => unfold mark_answered; cbn; destruct (bool_decide _ && _); exact H
    | |- context [on_server _ ?now ?k ?m ?c ?reqs] =>
        pose proof (server_live now k m c reqs H) as Hs; destruct (on_server _ _ _ _ _ _) as [[[? ?] [?|]] ?]; exact Hs
    | |- context [on_end ?k ?c] => unfold on_end; destruct (bool_decide (cl_conn c = Some k)); cbn; [intros Hc; destruct (Hc eq_refl)|exact H]
    end.
  - unfold respond_with, Respond; destruct (_ || _); exact H.
  - unfold respond_with, Decide; destruct (_ && _); [exact H|]; destruct (_ || _); exact H.
  - destruct (bool_decide (is_Some _)); [exact H|]; unfold Instruct; destruct (ValidateResponse text); [exact H|]; destruct (bound _); [|exact H]; cbn.
    destruct (_ && _ && _); [exact H|]; destruct (str_eqb _ _); exact H.
  - destruct (rl_calls w !! _) as [[k i [|]]|]; try exact H; destruct failed; exact H.
  - destruct (rl_calls w !! _) as [[k i [|]]|]; try exact H; destruct (cl_results _ !! _) as [[r|]|]; exact H.
  - destruct (rl_calls w !! _) as [[k i [|]]|]; exact H.
Qed.

Lemma run_live evs : live (rl_client (relay_run digest evs)).
Proof. induction evs as [|e evs IH] using rev_ind; [intros ?; reflexivity|]; rewrite run_snoc; apply live_step, IH. Qed.

Lemma report_pending now st env st' i : handleMessage digest now st env = (st', Some i) -> int_Pending i = o_pending st'.
Proof.
  unfold handleMessage; intros H; repeat (case_match; simplify_eq; try discriminate); unfold statusToInteraction in *; simplify_eq; reflexivity.
Qed.

(** An interaction that a server's message gives: its flags are those of the client's
    request, and its pending request is the client's. *)
Lemma server_offers now k m c reqs : live c -> let '(c', _, i, _) := on_server digest now k m c reqs in
  forall x, i = Some x -> cl_closed c' = false /\ int_Pending x = o_pending (cl_state c') /\ exists y, x = offer (cl_req c') y /\ int_State y = int_State x.
Proof.
  intros Hl; pose proof (server_live now k m c reqs Hl) as Hl'; revert Hl'; unfold on_server; destruct (read_env m) as [env [|]]; cbn; [|discriminate].
  destruct (is_instruction_answer env); [discriminate|].
  destruct (bind_owner k env c reqs) as [[c1 r1] e1]; destruct (bool_decide _) eqn:Ek; cbn; [|discriminate]; apply bool_decide_eq_true in Ek.
  unfold on_owner; destruct (activity_core now e1 c1) as (E1 & E2 & E3 & _); rewrite E2; destruct (str_eqb _ ""); [discriminate|].
  destruct (handleMessage digest now (cl_state c1) e1) as [st [i|]] eqn:Eh; [|discriminate]; apply report_pending in Eh.
  intros Hlive x; destruct (str_eqb (int_State i) _); cbn in *; intros [= <-]; (split; [apply Hlive; cbn; congruence|split; [exact Eh|exists i; auto]]).
Qed.

Definition accepts {A} (r : ResponseClient * (error + A)) : bool := match r with (_, inr _) => true | (_, inl _) => false end.

(** The capabilities an interaction offers are the ones the client honours: in any run,
    when a message of the server makes the relay emit an interaction, it offers a
    remote response exactly if the state is waiting for input, a request is pending and
    [Respond] with the identity of that request is accepted; and it offers a structured
    approval exactly if the state is waiting for approval, a request is pending and [Decide]
    with its identity is accepted. *)
Theorem offered_capabilities (evs : list event) (k : nat) (now : Time) (n1 n2 : nat) (m : message) (i : Interaction) (text : string) :
  let w := relay_run digest evs in
  let w' := relay_do digest w (EServerRead k now n1 n2 m) in
  rl_emitted w' = rl_emitted w ++ [i] ->
  (RemoteResponseSupported (ev_Capability (int_Evidence i)) = true <->
   int_State i = InteractionWaitingForInput /\ exists p, int_Pending i = Some p /\ accepts (Respond (rl_client w') (pr_ID p) text) = true) /\
  (StructuredApprovalSupported (ev_Capability (int_Evidence i)) = true <->
   int_State i = InteractionWaitingForApproval /\ exists p, int_Pending i = Some p /\ accepts (Decide (rl_client w') (pr_ID p) "accept") = true).
Proof.
  cbn [relay_do]; intros H; pose proof (run_live evs) as Hl; set (w := relay_run digest evs) in *.
  destruct (rl_conns w !! k) as [[reqs up [down|] [|]]|]; try (apply (f_equal length) in H; rewrite length_app in H; cbn in H; lia).
  pose proof (server_offers now k m (rl_client w) reqs Hl) as Ho; destruct (on_server digest now k m (rl_client w) reqs) as [[[c r] [x|]] f]; cbn in *;
    [apply app_inj_tail in H as [_ ->]|apply (f_equal length) in H; rewrite length_app in H; cbn in H; lia].
  destruct (Ho i eq_refl) as (E1 & E2 & y & -> & Es); cbn in *; unfold Respond, Decide, has_pending, pending_is; rewrite E1, <- E2; clear.
  destruct (int_Pending y) as [p|]; cbn; [rewrite str_eqb_refl|]; cbn.
  - rewrite !andb_true_r; split; (split; [|intros [E (q & [= <-] & Hq)]; rewrite E; cbn; revert Hq]).
    all: rewrite ?andb_true_iff, ?negb_true_iff, ?str_eqb_eq.
    + intros (((? & ?) & ?) & ?); split; [assumption|exists p; split; [reflexivity|]]; rewrite str_eqb_refl; cbn.
      destruct (str_eqb (r_question _) ""), (str_eqb (r_id _) ""), (r_submitted _); cbn; congruence.
    + rewrite str_eqb_refl; destruct (str_eqb (r_question _) ""), (str_eqb (r_id _) ""), (r_submitted _); cbn; try congruence; auto.
    + intros (((? & ?) & ?) & ?); split; [assumption|exists p; split; [reflexivity|]]; rewrite str_eqb_refl; cbn.
      destruct (r_approval _), (str_eqb (r_id _) ""), (r_submitted _); cbn; congruence.
    + rewrite str_eqb_refl; destruct (r_approval _), (str_eqb (r_id _) ""), (r_submitted _); cbn; try congruence; auto.
  - rewrite !andb_false_r; cbn; split; (split; [discriminate|intros (_ & q & [=] & _)]).
Qed.

(** ** What the watcher gets *)

Definition updates_ok (w : relay) : Prop := delivered relay_capacity (rl_updates w).2 (rl_updates w).1 (rl_emitted w).

Lemma send_updates n1 n2 i w : updates_ok w -> updates_ok (send_update n1 n2 i w).
Proof.
  intros H; destruct i as [i|]; [|exact H]; unfold updates_ok in *; cbn; destruct (rl_updates w) as [u t].
  apply emit_delivered; [unfold relay_capacity; lia|exact H].
Qed.

(** The interactions the watcher took and finds in the channel are, in order, a part of those
    emitted that ends with the latest; none is lost while no more than the channel holds
    were emitted. *)
Lemma relay_delivers (evs : list event) :
  let w := relay_run digest evs in delivered relay_capacity (rl_updates w).2 (rl_updates w).1 (rl_emitted w).
Proof.
  induction evs as [|e evs IH] using rev_ind; [apply delivered_nil|]; rewrite run_snoc; set (w := relay_run digest evs) in *.
  cbn in IH; fold (updates_ok w) in IH; fold (updates_ok (relay_do digest w e)).
  destruct e as [k|k m|k|k now n1 n2 m|k|k n1 n2|n|pid text|pid d|after events bytes now|uuid text|uuid failed|uuid|uuid e];
    cbn [relay_do]; try (destruct (rl_conns w !! k) as [[reqs [up|] [down|] [|]]|]); try exact IH.
  all: try (destruct (on_server _ _ _ _ _ _) as [[[c r] i] f]; apply (send_updates n1 n2 i (set_client c _)); exact IH).
  all: try (destruct (on_end _ _) as [c i]; apply send_updates; exact IH).
  - unfold updates_ok in *; cbn; destruct (rl_updates w) as [u t]; apply watch_delivered, IH.
  - unfold respond_with; destruct (Respond _ _ _) as [c [e|[id a]]]; exact IH.
  - unfold respond_with; destruct (Decide _ _ _) as [c [e|[id a]]]; exact IH.
  - destruct (bool_decide (is_Some _)); [exact IH|]; destruct (Instruct _ _ _) as [c [e|[k i]]]; exact IH.
  - destruct (rl_calls w !! _) as [[k i [|]]|]; try exact IH; destruct failed; exact IH.
  - destruct (rl_calls w !! _) as [[k i [|]]|]; try exact IH; destruct (cl_results _ !! _) as [[r|]|]; exact IH.
  - destruct (rl_calls w !! _) as [[k i [|]]|]; exact IH.
Qed.

(** ** What the activity says *)

Definition item_labels : list string := ["Assistant message"; "Command execution"; "File change"; "Tool call"; "Web search"].
Definition activity_labels : list string :=
  ["Agent started work"; "Agent finished the turn"; "Working"; "Idle"; "Waiting for your answer"; "Waiting for approval"; "Interaction state unknown"] ++
  flat_map (fun l => [l +:+ " started"; l +:+ " completed"; l +:+ " completed with an error"]) item_labels.

Definition listed (s : string) : bool := existsb (str_eqb s) activity_labels.
Definition labels_only (b : ActivityBuffer) : Prop := Forall (fun a => listed (act_Summary a) = true) (ab_events b).

Lemma label_listed method p kind label : activity_label method p = Some (kind, label) -> listed label = true.
Proof.
  unfold activity_label, item_label; intros H; repeat (case_match; simplify_eq; try discriminate); reflexivity.
Qed.

Lemma trim_listed b now : labels_only b -> labels_only (trim b now).
Proof.
  unfold labels_only; cbn; intros H; destruct (trim_suffix_of now (ab_events b)) as [d E]; rewrite E in H.
  apply Forall_app in H as [_ H]; exact H.
Qed.

Lemma append_listed b kind label now : labels_only b -> listed label = true -> labels_only (AppendActivity b kind label now).
Proof.
  intros Hb Hl; unfold AppendActivity; destruct (negb _); [exact Hb|]; apply trim_listed; unfold labels_only in *; cbn.
  apply Forall_app; split; [exact Hb|]; repeat constructor; exact Hl.
Qed.

Lemma status_listed status : listed (state_label (status_state status)) = true.
Proof. unfold status_state; repeat (case_match; try reflexivity). Qed.

Lemma handle_state now st env st' i : handleMessage digest now st env = (st', Some i) -> exists status, int_State i = status_state status.
Proof.
  unfold handleMessage; intros H; repeat (case_match; simplify_eq; try discriminate); unfold statusToInteraction in *; simplify_eq; cbn; eauto.
Qed.

Lemma owner_listed now env c : labels_only (cl_activity c) -> labels_only (cl_activity (fst (on_owner digest now env c))).
Proof.
  intros H; unfold on_owner; assert (Ha : labels_only (cl_activity (observeActivityLocked now env c))).
  { unfold observeActivityLocked; destruct (read_activity _) as [p|]; [|exact H]; destruct (_ || _); [exact H|].
    destruct (activity_label (e_Method env) p) as [[kind label]|] eqn:El;
      destruct (str_eqb (e_Method env) "turn/started"), (str_eqb (e_Method env) "turn/completed"); cbn; try exact H;
      apply append_listed; try exact H; eapply label_listed, El. }
  destruct (if str_eqb _ "" then _ else _) as [st [i|]] eqn:E; cbn; [|exact Ha]; destruct (str_eqb (int_State i) _); cbn; [exact Ha|].
  apply append_listed; [exact Ha|]; destruct (str_eqb _ "") in E; [discriminate|]; apply handle_state in E as [s ->]; apply status_listed.
Qed.

Lemma server_listed now k m c reqs : labels_only (cl_activity c) -> let '(c', _, _, _) := on_server digest now k m c reqs in labels_only (cl_activity c').
Proof.
  intros H; unfold on_server; destruct (read_env m) as [env [|]]; cbn; [|exact H].
  destruct (is_instruction_answer env); [unfold deliver; destruct (cl_results c !! _) as [[?|]|]; exact H|].
  assert (Hb : labels_only (cl_activity (bind_owner k env c reqs).1.1)).
  { unfold bind_owner; destruct (_ && _); [|exact H]; destruct (threadStartedParams _) as [t|]; [|exact H].
    destruct (_ && _); [|exact H]; destruct (_ || _); exact H. }
  destruct (bind_owner k env c reqs) as [[c1 r1] e1]; destruct (bool_decide _); cbn; [|exact Hb].
  pose proof (owner_listed now e1 c1 Hb) as H1; destruct (on_owner digest now e1 c1); exact H1.
Qed.

(** Nothing of a conversation reaches the activity: whatever the messages of the server
    and the TUI contain, every summary in the client's activity is one of a fixed list of
    labels. *)
Theorem activity_from_labels (evs : list event) :
  Forall (fun a => listed (act_Summary a) = true) (ab_events (cl_activity (rl_client (relay_run digest evs)))).
Proof.
  induction evs as [|e evs IH] using rev_ind; [constructor|]; rewrite run_snoc; set (w := relay_run digest evs) in *; fold (labels_only (cl_activity (rl_client w))) in IH.
  change (labels_only (cl_activity (rl_client (relay_do digest w e)))).
  destruct e as [k|k m|k|k now n1 n2 m|k|k n1 n2|n|pid text|pid d|after events bytes now|uuid text|uuid failed|uuid|uuid e];
    cbn [relay_do]; try (destruct (rl_conns w !! k) as [[reqs [up|] [down|] [|]]|] eqn:Ek); try exact IH.
  all: try match goal with
    | |- context [mark_answered ?k ?m ?c] => unfold mark_answered; cbn; destruct (bool_decide _ && _); exact IH
    | |- context [on_server _ ?now ?k ?m ?c ?reqs] =>
        pose proof (server_listed now k m c reqs IH) as Hs; destruct (on_server _ _ _ _ _ _) as [[[? ?] [?|]] ?]; exact Hs
    | |- context [on_end ?k ?c] => unfold on_end; destruct (bool_decide (cl_conn c = Some k)); exact IH
    end.
  - unfold respond_with, Respond; destruct (_ || _); exact IH.
  - unfold respond_with, Decide; destruct (_ && _); [exact IH|]; destruct (_ || _); exact IH.
  - unfold Observe, Window; repeat case_match; simplify_eq; cbn; try apply trim_listed; exact IH.
  - destruct (bool_decide (is_Some _)); [exact IH|]; unfold Instruct; destruct (ValidateResponse text); [exact IH|]; destruct (bound _); [|exact IH]; cbn.
    destruct (_ && _ && _); [exact IH|]; destruct (str_eqb _ _); exact IH.
  - destruct (rl_calls w !! _) as [[k i [|]]|]; try exact IH; destruct failed; exact IH.
  - destruct (rl_calls w !! _) as [[k i [|]]|]; try exact IH; destruct (cl_results _ !! _) as [[r|]|]; exact IH.
  - destruct (rl_calls w !! _) as [[k i [|]]|]; exact IH.
Qed.

(** ** Instructions *)

(** The server's response to an instruction, without an error. *)
Definition confirms (m : message) (id : string) : Prop :=
  snd (read_env m) = true /\ e_Method (fst (read_env m)) = "" /\ e_ID (fst (read_env m)) = id /\ e_Error (fst (read_env m)) = None.
Definition confirmed (L : list entry) (id : string) : Prop := exists k m, FromServer k m ∈ L /\ confirms m id.
Definition asked (L : list entry) (id : string) : Prop := exists k i, Asked k id i ∈ L.

Record calls_ok (w : relay) : Prop := {
  co_results : forall id, cl_results (rl_client w) !! id = Some (Some None) -> confirmed (rl_log w) id;
  co_written : forall id k i, rl_calls w !! id = Some (MkCall k i true) -> asked (rl_log w) id;
  co_returned : forall post id pre, rl_log w = post ++ Returned id None :: pre -> asked pre id /\ confirmed pre id }.

Lemma server_results now k m c reqs id : let '(c', _, _, _) := on_server digest now k m c reqs in
  cl_results c' !! id = Some (Some None) -> cl_results c !! id = Some (Some None) \/ confirms m id.
Proof.
  unfold on_server, confirms; destruct (read_env m) as [env [|]]; cbn; [|auto].
  destruct (is_instruction_answer env) eqn:Ei.
  - unfold deliver; destruct (cl_results c !! e_ID env) as [[?|]|] eqn:E; cbn; auto.
    intros [[<- H]|[_ H]]%lookup_insert_Some; [|auto]; destruct (e_Error env); [discriminate|].
    apply andb_true_iff in Ei as [Ei _]; apply str_eqb_eq in Ei; auto.
  - assert (Hb : cl_results (bind_owner k env c reqs).1.1 = cl_results c).
    { unfold bind_owner; destruct (_ && _); [|reflexivity]; destruct (threadStartedParams _) as [t|]; [|reflexivity].
      destruct (_ && _); [|reflexivity]; destruct (_ || _); reflexivity. }
    destruct (bind_owner k env c reqs) as [[c1 r1] e1]; cbn in Hb; destruct (bool_decide _); cbn; [|rewrite Hb; auto].
    unfold on_owner; destruct (activity_core now e1 c1) as (_ & _ & _ & E4 & _).
    destruct (if str_eqb _ "" then _ else _) as [st [i|]]; cbn; [destruct (str_eqb (int_State i) _); cbn|]; rewrite E4, Hb; auto.
Qed.

Lemma calls_same w w' : calls_ok w -> (forall id, cl_results (rl_client w') !! id = Some (Some None) -> cl_results (rl_client w) !! id = Some (Some None)) ->
  (forall id k i, rl_calls w' !! id = Some (MkCall k i true) -> rl_calls w !! id = Some (MkCall k i true)) -> rl_log w' = rl_log w -> calls_ok w'.
Proof. intros [H1 H2 H3] E1 E2 E3; split; rewrite E3; eauto. Qed.

Lemma calls_log x w w' : calls_ok w -> rl_log w' = x :: rl_log w ->
  (forall id, cl_results (rl_client w') !! id = Some (Some None) -> cl_results (rl_client w) !! id = Some (Some None) \/ confirmed (x :: rl_log w) id) ->
  (forall id k i, rl_calls w' !! id = Some (MkCall k i true) -> rl_calls w !! id = Some (MkCall k i true) \/ asked (x :: rl_log w) id) ->
  (forall id, x = Returned id None -> asked (rl_log w) id /\ confirmed (rl_log w) id) -> calls_ok w'.
Proof.
  intros [H1 H2 H3] E Hr Hc Hx; split; rewrite ?E.
  - intros id H; destruct (Hr id H) as [H'|H']; [|exact H']; destruct (H1 id H') as (k & m & ? & ?); exists k, m; split; [set_solver|assumption].
  - intros id k i H; destruct (Hc id k i H) as [H'|H']; [|exact H']; destruct (H2 id k i H') as (k' & i' & ?); exists k', i'; set_solver.
  - intros [|y post] id pre; cbn; intros [= -> HL]; [subst; auto|eauto].
Qed.

Lemma finish_calls id r w : calls_ok w -> (r = None -> asked (rl_log w) id /\ confirmed (rl_log w) id) -> calls_ok (finish id r w).
Proof.
  intros Hw Hr; apply calls_log with (Returned id r) w; cbn; auto.
  - intros id' [_ H]%lookup_delete_Some; auto.
  - intros id' k i [_ H]%lookup_delete_Some; auto.
  - intros id' [= <- ->]; auto.
Qed.

Lemma instruct_results c uuid text id : cl_results (fst (Instruct c uuid text)) !! id = Some (Some None) -> cl_results c !! id = Some (Some None).
Proof.
  unfold Instruct; destruct (ValidateResponse text); cbn; auto; destruct (bound c); cbn; auto.
  destruct (_ && _ && _); cbn; [|destruct (str_eqb _ _); cbn; auto]; intros [[_ ?]|[_ ?]]%lookup_insert_Some; auto; discriminate.
Qed.

Lemma server_calls w k now n1 n2 m reqs cn : calls_ok w ->
  calls_ok (let '(c, reqs, i, forward) := on_server digest now k m (rl_client w) reqs in
            add_log (FromServer k m) (send_update n1 n2 i (set_client c (set_conn k (cn reqs forward) w)))).
Proof.
  intros Hw; pose proof (fun id => server_results now k m (rl_client w) reqs id) as Hs.
  destruct (on_server _ _ _ _ _ _) as [[[c r] [i|]] f];
    (apply calls_log with (FromServer k m) w; cbn; auto; try discriminate; intros id Hi;
     destruct (Hs id Hi) as [|Hc]; [auto|right; exists k, m; split; [left|exact Hc]]).
Qed.

Lemma calls_step w e : calls_ok w -> calls_ok (relay_do digest w e).
Proof.
  intros Hw; destruct e as [k|k m|k|k now n1 n2 m|k|k n1 n2|n|pid text|pid d|after events bytes now|uuid text|uuid failed|uuid|uuid e];
    cbn [relay_do]; try (destruct (rl_conns w !! k) as [[reqs [up|] [down|] [|]]|] eqn:Ek); try exact Hw; try (eapply calls_same; eauto; fail).
  all: try match goal with
    | |- context [mark_answered ?k ?m ?c] =>
        apply calls_log with (FromTUI k m) w; cbn; auto; [unfold mark_answered; destruct (bool_decide _ && _); auto|discriminate]
    | |- calls_ok (add_log (ToServer ?k ?m) _) => apply calls_log with (ToServer k m) w; cbn; auto; discriminate
    | |- calls_ok (add_log (ToTUI ?k ?m) _) => apply calls_log with (ToTUI k m) w; cbn; auto; discriminate
    | |- context [on_server _ _ _ _ _ _] => apply (server_calls w _ _ _ _ _ _ (fun r f => MkConn r _ (if f then Some _ else None) true)), Hw
    | |- context [on_end ?k ?c] => unfold on_end; destruct (bool_decide (cl_conn c = Some k)); eapply calls_same; eauto
    end.
  - unfold respond_with, Respond; destruct (_ || _); [eapply calls_same; eauto|]; eapply calls_log; cbn; eauto; discriminate.
  - unfold respond_with, Decide; destruct (_ && _); [eapply calls_same; eauto|]; destruct (_ || _); [eapply calls_same; eauto|].
    eapply calls_log; cbn; eauto; discriminate.
  - destruct (bool_decide (is_Some _)); [exact Hw|]; pose proof (instruct_results (rl_client w) uuid text) as Hi.
    destruct (Instruct _ _ _) as [c [e|[k i]]]; cbn in Hi; [eapply calls_log; cbn; eauto; discriminate|].
    apply calls_same with w; cbn; auto; intros id k' i' [[_ ?]|[_ ?]]%lookup_insert_Some; [discriminate|assumption].
  - destruct (rl_calls w !! _) as [[k i [|]]|]; try exact Hw; destruct failed; [apply finish_calls; [exact Hw|discriminate]|].
    eapply calls_log; cbn; eauto; [|discriminate]; intros id k' i' [[<- ?]|[_ ?]]%lookup_insert_Some; [right; eexists _, _; left|auto].
  - destruct (rl_calls w !! _) as [[k i [|]]|] eqn:Ec; try exact Hw; destruct (cl_results _ !! _) as [[r|]|] eqn:Er; try exact Hw.
    apply finish_calls; [exact Hw|intros ->; split; [eapply (co_written _ Hw), Ec|apply (co_results _ Hw), Er]].
  - destruct (rl_calls w !! _) as [[k i [|]]|]; try exact Hw; apply finish_calls; [exact Hw|discriminate].
Qed.

(** An instruction is reported as done only when its request was written and the server
    responded to that request without an error. *)
Theorem instruction_confirmed (evs : list event) post id pre :
  rl_log (relay_run digest evs) = post ++ Returned id None :: pre -> asked pre id /\ confirmed pre id.
Proof.
  apply co_returned; induction evs as [|e evs IH] using rev_ind; [|rewrite run_snoc; apply calls_step, IH].
  split; cbn; [intros id' H|intros id' k i H|intros [|] **; discriminate]; rewrite lookup_empty in H; discriminate.
Qed.

(** [Observe] says that instructions are supported exactly if [Instruct] does not refuse them as unsupported. *)
Lemma instruction_supported c uuid text after events bytes now : ValidateResponse text = None ->
  aw_InstructionSupported (snd (Observe c after events bytes now)) = true <->
  snd (Instruct c uuid text) <> inl (Sentinel ErrRemoteResponseUnsupported).
Proof.
  intros Hv; unfold Observe, Instruct; destruct (Window _ _ _ _ _) as [b' w]; rewrite Hv; cbn; destruct (bound c); cbn; [|split; congruence].
  destruct (_ && _ && _); [split; [discriminate|reflexivity]|]; destruct (str_eqb _ _); cbn; split; [discriminate|reflexivity|discriminate|reflexivity].
Qed.
End safety.

(** ** Runs *)

Definition plain_digest : list string -> string := String.concat "/".

Definition frame_of (fields : list (string * jvalue)) : message := MkMessage false "" (Some (obj fields)).

Definition waiting_status (flag : string) : jvalue := obj [("type", str "active"); ("activeFlags", VArr "[]" [str flag])].

Definition tui_start : message := frame_of [("id", VNum "1"); ("method", str "thread/start")].
Definition started_frame (flag : string) : message :=
  frame_of [("id", VNum "1"); ("result", obj [("thread", obj [("id", str "T"); ("status", waiting_status flag)])])].
Definition approval_frame : message :=
  frame_of [("id", VNum "7"); ("method", str methodItemCommandExecApproval);
            ("params", obj [("threadId", str "T"); ("turnId", str "t"); ("itemId", str "i"); ("command", str "make"); ("cwd", str "/w")])].
Definition exec_frame : message :=
  frame_of [("id", VNum "8"); ("method", str methodExecCommandApproval);
            ("params", obj [("callId", str "c"); ("command", VArr "[]" [str "rm"; str "-rf"; str "build"])])].
Definition question_frame (text : string) : message :=
  frame_of [("id", VNum "9"); ("method", str methodItemToolRequestUserInput);
            ("params", obj [("threadId", str "T"); ("itemId", str "q"); ("questions", VArr "[]" [obj [("id", str "one"); ("question", str text)]])])].
Definition status_frame (flag : string) : message :=
  frame_of [("method", str methodThreadStatusChanged); ("params", obj [("threadId", str "T"); ("status", waiting_status flag)])].

Definition opened (flag : string) : list event :=
  [EAccept 0; ETuiRead 0 tui_start; ETuiWrite 0; EServerRead 0 1 0 0 (started_frame flag); EServerWrite 0].
Definition approval_run : list event :=
  opened "waitingOnApproval" ++ [EServerRead 0 2 0 0 approval_frame; EServerWrite 0; EDecide "approval:T/t/i/7" "accept"; EDecide "approval:T/t/i/7" "cancel"].

Lemma remote_answers_witness : exists pre,
  rl_log (@relay_run plain_digest text_size approval_run) = [] ++ Answered (Some 0%nat) "approval:T/t/i/7" "7" (AnswerDecision "accept") :: pre /\
  justified plain_digest pre (Some 0%nat) "approval:T/t/i/7" "7" (AnswerDecision "accept").
Proof.
  exists (tail (rl_log (@relay_run plain_digest text_size approval_run))).
  assert (E : rl_log (@relay_run plain_digest text_size approval_run) =
    [] ++ Answered (Some 0%nat) "approval:T/t/i/7" "7" (AnswerDecision "accept") :: tail (rl_log (@relay_run plain_digest text_size approval_run)))
    by (vm_compute; reflexivity).
  split; [exact E|].
  apply (proj1 (@remote_answers plain_digest text_size approval_run ltac:(vm_compute; reflexivity) ltac:(vm_compute; reflexivity) _ _ _ _ _ _ E)).
Defined.

Definition question_run : list event := opened "waitingOnUserInput".

Lemma offered_capabilities_witness : exists i,
  rl_emitted (@relay_run plain_digest text_size (question_run ++ [EServerRead 0 2 0 0 (question_frame "Deploy?")])) =
    rl_emitted (@relay_run plain_digest text_size question_run) ++ [i] /\
  (RemoteResponseSupported (ev_Capability (int_Evidence i)) = true <->
   int_State i = InteractionWaitingForInput /\ exists p, int_Pending i = Some p /\
     accepts (Respond (rl_client (@relay_do plain_digest text_size (@relay_run plain_digest text_size question_run) (EServerRead 0 2 0 0 (question_frame "Deploy?")))) (pr_ID p) "yes") = true).
Proof.
  exists (MkInteraction InteractionWaitingForInput 0 2 2 (Some (MkPending "q" "input" "Deploy?" "question"))
            (MkEvidence evidenceSource (MkCaps true false true true true))).
  split; [vm_compute; reflexivity|].
  apply (proj1 (@offered_capabilities plain_digest text_size question_run 0 2 0 0 (question_frame "Deploy?") _ "yes" ltac:(vm_compute; reflexivity))).
Defined.

(** An older approval request that arrives while a command approval is outstanding takes over
    the pending request but not the binding: the interaction shows one command and offers
    the decision, and accepting it accepts the other. *)
Definition mixed_run : list event :=
  opened "waitingOnApproval" ++ [EServerRead 0 2 0 0 approval_frame; EServerWrite 0; EServerRead 0 3 0 0 exec_frame; EServerWrite 0;
    EServerRead 0 4 0 0 (status_frame "waitingOnApproval")].

Lemma older_approval_misdirected :
  let w := @relay_run plain_digest text_size mixed_run in
  list.last (rl_emitted w) = Some (MkInteraction InteractionWaitingForApproval 0 4 4 (Some (MkPending "c" "approval" "Run: rm -rf build" "command"))
                                (MkEvidence evidenceSource (MkCaps false true true true true))) /\
  snd (Decide (rl_client w) "c" "accept") = inr ("7", AnswerDecision "accept").
Proof. vm_compute; split; reflexivity. Qed.

(** The summary of a question is cut at a byte, so a valid text can give a summary that is
    not UTF-8 (a protobuf string field does not encode it), and the ellipsis takes it
    over the cap. *)
Definition long_question : string := text (repeat 97 199 ++ [195; 169] ++ chars "?").

Lemma summary_cut_in_rune :
  ValidString (chars long_question) = true /\
  match pendingFromUserInput (fst (read_env (question_frame long_question))) with
  | Some p => ValidString (chars (pr_Summary p)) = false /\ slen (pr_Summary p) = 203
  | None => False
  end.
Proof. vm_compute; auto. Qed.

(** A second answer is refused, and so is one after the TUI answered or the server resolved the request. *)
Example answered_runs :
  let asked := opened "waitingOnApproval" ++ [EServerRead 0 2 0 0 approval_frame; EServerWrite 0] in
  let after evs := accepts (Decide (rl_client (@relay_run plain_digest text_size (asked ++ evs))) "approval:T/t/i/7" "accept") in
  after [] = true /\
  after [EDecide "approval:T/t/i/7" "cancel"] = false /\
  after [ETuiRead 0 (frame_of [("id", VNum "7"); ("result", obj [])])] = false /\
  after [EServerRead 0 3 0 0 (frame_of [("method", str "serverRequest/resolved"); ("params", obj [("threadId", str "T"); ("requestId", VNum "7")])])] = false /\
  after [EEnd 0 0 0] = false /\
  after [EServerRead 0 3 0 0 (frame_of [("method", str "serverRequest/resolved"); ("params", obj [("threadId", str "U"); ("requestId", VNum "7")])])] = true.
Proof. vm_compute; repeat split; reflexivity. Qed.
