(* ===== verification/Disk.v ===== *)
(** * A directory whose operations may fail

    Code that prepares files in several steps is a program of the monad [io] over a map
    from paths to contents.  Every operation consumes one entry of a plan of faults: it
    works, fails without effect, leaves a torn file and fails, or the process ends before
    or in the middle of it.  An error is a value the program may handle; after a crash
    nothing of the program runs, deferred functions included.  A seed supplies fresh keys.

    Reading and looking for a file consume no torn fault (they fail or work). *)

From S2P Require Import Prelude.

Inductive fault := Good | Fails | Torn | Crash | CrashTorn.

Inductive res (A : Type) := Done (a : A) | Failed (why : string) | Crashed.
Arguments Done {A} a.
Arguments Failed {A} why.
Arguments Crashed {A}.

Section disk.
Context {C : Type} (torn : C -> C).

Record disk := MkDisk { d_files : gmap string C; d_faults : list fault; d_seed : Z }.

Definition io (A : Type) : Type := disk -> disk * res A.

Definition set_files (m : gmap string C) (d : disk) : disk := MkDisk m (d_faults d) (d_seed d).

Definition done {A} (a : A) : io A := fun d => (d, Done a).
Definition failed {A} (why : string) : io A := fun d => (d, Failed why).
Definition crash {A} : io A := fun d => (d, Crashed).

Definition and_then {A B} (m : io A) (k : A -> io B) : io B := fun d =>
  match m d with
  | (d, Done a) => k a d
  | (d, Failed why) => (d, Failed why)
  | (d, Crashed) => (d, Crashed)
  end.

(** The error as a value; a crash stays a crash. *)
Definition attempt {A} (m : io A) : io (string + A) := fun d =>
  match m d with
  | (d, Done a) => (d, Done (inr a))
  | (d, Failed why) => (d, Done (inl why))
  | (d, Crashed) => (d, Crashed)
  end.

(** Errors ignored: [_ = f()]. *)
Definition ignore {A} (m : io A) : io unit := and_then (attempt m) (fun _ => done tt).

Definition next_fault (d : disk) : fault * disk :=
  match d_faults d with [] => (Good, d) | f :: fs => (f, MkDisk (d_files d) fs (d_seed d)) end.

(** An operation that changes the files by [good], or by [half] when it is torn. *)
Definition operation {A} (good : gmap string C -> option (gmap string C * A)) (half : gmap string C -> gmap string C) : io A := fun d =>
  let '(f, d) := next_fault d in
  match f with
  | Good => match good (d_files d) with Some (m, a) => (set_files m d, Done a) | None => (d, Failed "no such file") end
  | Fails => (d, Failed "input/output error")
  | Torn => (set_files (half (d_files d)) d, Failed "input/output error")
  | Crash => (d, Crashed)
  | CrashTorn => (set_files (half (d_files d)) d, Crashed)
  end.

Definition read_file (p : string) : io C := operation (fun m => (fun c => (m, c)) <$> m !! p) (fun m => m).
Definition write_file (p : string) (c : C) : io unit := operation (fun m => Some (<[p := c]> m, tt)) (fun m => <[p := torn c]> m).
Definition rename (a b : string) : io unit :=
  operation (fun m => (fun c => (<[b := c]> (delete a m), tt)) <$> m !! a) (fun m => m).
Definition make_dir : io unit := operation (fun m => Some (m, tt)) (fun m => m).

(** [os.Stat]: whether the file is there. *)
Definition exists_file (p : string) : io bool := fun d => (d, Done (bool_decide (is_Some (d_files d !! p)))).

(** [os.RemoveAll] of a directory, errors ignored. *)
Definition remove_all (inside : string -> bool) : io unit := fun d =>
  (set_files (filter (fun kv => inside kv.1 = false) (d_files d)) d, Done tt).

Definition fresh : io Z := fun d => (MkDisk (d_files d) (d_faults d) (d_seed d + 1), Done (d_seed d)).

Definition need {A} (o : option A) (why : string) : io A := match o with Some a => done a | None => failed why end.

(** A deferred function runs after the body unless the process ended. *)
Definition deferred {A} (body : io A) (f : io unit) : io A := fun d =>
  match body d with
  | (d, Crashed) => (d, Crashed)
  | (d, r) => (fst (f d), r)
  end.

(** ** Reasoning *)

(** A file that is there stays there whatever happens, or the operation names it. *)
Lemma rename_cases a b d : exists d' r, attempt (rename a b) d = (d', r) /\
  ((exists c, d_files d !! a = Some c /\ d_files d' = <[b := c]> (delete a (d_files d)) /\ r = Done (inr tt)) \/
   (d_files d' = d_files d /\ ((exists why, r = Done (inl why)) \/ r = Crashed))).
Proof.
  destruct d as [m fs s]; unfold attempt, rename, operation, next_fault; cbn.
  destruct fs as [|[] fs]; cbn; try (destruct (m !! a) as [c|] eqn:E; cbn); eexists _, _; (split; [reflexivity|]); cbn; eauto 10.
Qed.

(** Without faults: what holds of the result and the files, for any supply of keys. *)
Definition wp {A} (m : io A) (post : res A -> gmap string C -> Prop) (files : gmap string C) : Prop :=
  forall s, d_faults (fst (m (MkDisk files [] s))) = [] /\ post (snd (m (MkDisk files [] s))) (d_files (fst (m (MkDisk files [] s)))).

Lemma wp_mono {A} (m : io A) post post' files : wp m post files -> (forall r f, post r f -> post' r f) -> wp m post' files.
Proof. intros H Hi s; destruct (H s) as [? ?]; auto. Qed.

Definition after {A B} (k : A -> io B) (post : res B -> gmap string C -> Prop) (r : res A) (f : gmap string C) : Prop :=
  match r with Done a => wp (k a) post f | Failed why => post (Failed why) f | Crashed => post Crashed f end.

Lemma wp_bind {A B} (m : io A) (k : A -> io B) post files : wp m (after k post) files -> wp (and_then m k) post files.
Proof.
  intros H s; destruct (H s) as [Hf Hp]; unfold and_then; destruct (m (MkDisk files [] s)) as [[f' fs' s'] [a|why|]]; cbn in *; subst; auto.
Qed.

Lemma wp_done {A} (a : A) (post : res A -> gmap string C -> Prop) files : post (Done a) files -> wp (done a) post files.
Proof. intros H s; cbn; auto. Qed.

Lemma wp_failed {A} why (post : res A -> gmap string C -> Prop) files : post (Failed why) files -> wp (failed why) post files.
Proof. intros H s; cbn; auto. Qed.

Lemma wp_crash {A} (post : res A -> gmap string C -> Prop) files : post Crashed files -> wp crash post files.
Proof. intros H s; cbn; auto. Qed.

Lemma wp_attempt {A} (m : io A) post files :
  wp m (fun r f => match r with Done a => post (Done (inr a)) f | Failed why => post (Done (inl why)) f | Crashed => post Crashed f end) files ->
  wp (attempt m) post files.
Proof. intros H s; destruct (H s) as [Hf Hp]; unfold attempt; destruct (m (MkDisk files [] s)) as [d [a|why|]]; auto. Qed.

Lemma wp_ignore {A} (m : io A) post files :
  wp m (fun r f => match r with Crashed => post Crashed f | _ => post (Done tt) f end) files -> wp (ignore m) post files.
Proof.
  intros H; apply wp_bind, wp_attempt; eapply wp_mono; [exact H|]; intros [a|why|] f Hf; cbn; try apply wp_done; exact Hf.
Qed.

Lemma wp_fresh post files : (forall k, post (Done k) files) -> wp fresh post files.
Proof. intros H s; cbn; auto. Qed.

Lemma wp_make_dir post files : post (Done tt) files -> wp make_dir post files.
Proof. intros H s; cbn; auto. Qed.

Lemma wp_read p post files : (forall c, files !! p = Some c -> post (Done c) files) -> (forall why, files !! p = None -> post (Failed why) files) ->
  wp (read_file p) post files.
Proof. intros H1 H2 s; unfold read_file, operation; cbn; destruct (files !! p) eqn:E; cbn; auto. Qed.

Lemma wp_write p c post files : post (Done tt) (<[p := c]> files) -> wp (write_file p c) post files.
Proof. intros H s; cbn; auto. Qed.

Lemma wp_exists p post files : post (Done (bool_decide (is_Some (files !! p)))) files -> wp (exists_file p) post files.
Proof. intros H s; cbn; auto. Qed.

Lemma wp_rename a b post files :
  (forall c, files !! a = Some c -> post (Done tt) (<[b := c]> (delete a files))) -> (forall why, files !! a = None -> post (Failed why) files) ->
  wp (rename a b) post files.
Proof. intros H1 H2 s; unfold rename, operation; cbn; destruct (files !! a) eqn:E; cbn; auto. Qed.

Lemma wp_remove_all inside post files : post (Done tt) (filter (fun kv => inside kv.1 = false) files) -> wp (remove_all inside) post files.
Proof. intros H s; cbn; auto. Qed.

Lemma wp_need {A} (o : option A) why (post : res A -> gmap string C -> Prop) files :
  (forall a, o = Some a -> post (Done a) files) -> (o = None -> post (Failed why) files) -> wp (need o why) post files.
Proof. intros H1 H2; destruct o; [apply wp_done|apply wp_failed]; auto. Qed.

Lemma wp_deferred {A} (m : io A) (g : gmap string C -> gmap string C) (f : io unit) post files :
  (forall d, f d = (set_files (g (d_files d)) d, Done tt)) ->
  wp m (fun r x => match r with Crashed => post Crashed x | _ => post r (g x) end) files -> wp (deferred m f) post files.
Proof.
  intros Hf H s; destruct (H s) as [Hd Hp]; unfold deferred; destruct (m (MkDisk files [] s)) as [d [a|why|]]; cbn in *; rewrite ?Hf; cbn; auto.
Qed.
End disk.

Declare Scope io_scope.
Delimit Scope io_scope with io.
Notation "x <-- m ;; k" := (and_then m (fun x => k)) (at level 100, m at next level, right associativity) : io_scope.
Notation "m ;;; k" := (and_then m (fun _ => k)) (at level 100, right associativity) : io_scope.
