(* ===== verification/Pki.v ===== *)
(** * Certificates of the daemon: internal/localserver/pki.go, stepca_native.go and internal/pki

    [EnsurePKI] keeps the material of the state directory (a local CA, the server's
    certificate and key, the client of the local commands, the trust bundle, the keys for
    tokens) fit for what the daemon is started with: it generates it, asks a Step CA for it,
    reissues the server's certificate when the requested names changed and renews it
    before it expires, and replaces a generation when the Step CA changed.

    A file is a sequence of PEM blocks and other text (Disk: operations that fail, tear or
    end the process); a bundle is put together block by block, so the newlines between
    blocks are not modelled.  A key pair is a number, a certificate records the public key it
    certifies and the key that signed it.  The Step CA's answers, SHA-256 and parsing of IP
    addresses are the class [PKIWorld].  Paths are relative to the certs directory. *)

From stdpp Require Import sorting.
From S2P Require Import Prelude Types GoStd GoText Disk.

(** ** Contents *)

Record cert := MkCert {
  c_CN : string; c_key : Z; c_issuer : Z; c_DNSNames : list string; c_IPAddresses : list string;
  c_NotBefore : Time; c_NotAfter : Time; c_IsCA : bool; c_server : bool }.

Inductive block := BCert (c : cert) | BKey (k : Z) | BPub (k : Z) | BText (s : list Z).

Definition content : Type := list block.

#[export] Instance cert_eq_dec : EqDecision cert.
Proof. solve_decision. Defined.

#[export] Instance block_eq_dec : EqDecision block.
Proof. solve_decision. Defined.

(** What a torn write leaves: something that is no PEM block. *)
Definition torn_content (_ : content) : content := [BText (chars "-----BEGIN")].

Definition pem_blocks (c : content) : list block := List.filter (fun b => match b with BText _ => false | _ => true end) c.
Definition keys_in (c : content) : list Z := omap (fun b => match b with BKey k => Some k | _ => None end) c.
Definition certs_in (c : content) : list cert := omap (fun b => match b with BCert x => Some x | _ => None end) c.

(** The text of a file that holds no PEM. *)
Definition text_in (c : content) : list Z := flat_map (fun b => match b with BText s => s | _ => [] end) c.

(** The URL without the slashes at its end. *)
Definition ca_url (url : string) : string := text (trim_right [47] (chars url)).

(** Visible characters only: no blank, no newline. *)
Definition plain (s : string) : bool := forallb graphic (chars s).

Class PKIWorld := {
  fingerprint : cert -> string;           (* hexadecimal SHA-256 of the DER bytes *)
  raw_fingerprint : content -> string;    (* of the trimmed bytes *)
  parse_ip : string -> option string;     (* net.ParseIP, then String *)
  parse_ip_again : forall s t, parse_ip s = Some t -> parse_ip t = Some t /\ plain t = true /\ t <> "";
  ten_years : Time -> Time;               (* AddDate(10, 0, 0) *)
  hostname : string;
  prompted : option string;               (* the provisioner password typed at the terminal *)
  (** Whether the Step CA has the provisioner and the password opens its key. *)
  ca_provisioner : string -> string -> string -> content -> bool;
  (** What the Step CA answers to a request for a certificate or for its renewal: the leaf
      and, if it sends one, the intermediate. *)
  ca_sign : string -> string -> string -> content -> list string -> Z -> Time -> option (cert * option cert);
  ca_renew : string -> content -> cert -> Time -> option (cert * option cert);
  (** The key a Step CA signs with. *)
  ca_identity : string -> Z;
  fingerprint_plain : forall c, plain (fingerprint c) = true /\ fingerprint c <> "";
  raw_plain : forall c, plain (raw_fingerprint c) = true;
  sign_key : forall url prov pw root sans k now c i, ca_sign url prov pw root sans k now = Some (c, i) -> c_key c = k;
  sign_issuer : forall url prov pw root sans k now c i, ca_sign url prov pw root sans k now = Some (c, i) -> c_issuer c = ca_identity (ca_url url);
  renew_key : forall url root old now c i, ca_renew url root old now = Some (c, i) -> c_key c = c_key old;
  renew_issuer : forall url root old now c i, ca_renew url root old now = Some (c, i) -> c_issuer c = ca_identity (ca_url url);
}.

Record StepCAConfig := MkStepCA { sc_URL : string; sc_RootPath : string; sc_Provisioner : string; sc_PasswordFile : string }.

Definition pkiModeAuto : string := "auto".
Definition pkiModeStepCA : string := "step-ca".
Definition pkiModeTLS : string := "tls".
Definition pkiModeFile : string := ".pki-mode".
Definition pkiSANsFile : string := ".pki-sans".
Definition pkiStepCAURLFile : string := ".pki-step-ca-url".
Definition pkiStepCARootsFile : string := ".pki-step-ca-roots".

(** [LoadPKIMaterial]: the paths. *)
Definition CACertPath : string := "ca.crt".
Definition CAKeyPath : string := "ca.key".
Definition ServerCertPath : string := "server.crt".
Definition ServerKeyPath : string := "server.key".
Definition LocalClientCert : string := "local-client.crt".
Definition LocalClientKey : string := "local-client.key".
Definition CABundlePath : string := "ca-bundle.crt".
Definition JWTSigningKey : string := "jwt-signing.key".
Definition JWTSigningPub : string := "jwt-signing.pub".

Local Open Scope io_scope.

Section pki.
Context `{W : PKIWorld}.

Definition fs_io (A : Type) : Type := io (C := content) A.
Definition read (p : string) : fs_io content := read_file p.
Definition write (p : string) (c : content) : fs_io unit := write_file torn_content p c.

(** ** internal/pki *)

Definition LoadCert (p : string) : fs_io cert :=
  c <-- read p;;
  match pem_blocks c with
  | BCert x :: _ => done x
  | [] => failed "decode cert pem: no block found"
  | _ => failed "parse cert"
  end.

Definition LoadCA (certPath keyPath : string) : fs_io (cert * Z) :=
  x <-- LoadCert certPath;;
  c <-- read keyPath;;
  match pem_blocks c with
  | BKey k :: _ => done (x, k)
  | [] => failed "decode ca key pem: no block found"
  | _ => failed "parse ca key"
  end.

(** [tls.LoadX509KeyPair]: the first certificate, the first key, and that they match. *)
Definition LoadX509KeyPair (certPath keyPath : string) : fs_io cert :=
  c <-- read certPath;;
  k <-- read keyPath;;
  match certs_in c, keys_in k with
  | x :: _, y :: _ => if c_key x =? y then done x else failed "tls: private key does not match public key"
  | _, _ => failed "tls: failed to find any PEM data"
  end.

Definition Day : Z := 24 * 60 * Minute.

(** The times of a certificate are whole seconds. *)
Definition whole (t : Time) : Time := t / Second * Second.

Definition InitCA (name : string) (now : Time) : fs_io unit :=
  k <-- fresh;;
  make_dir;;;
  write CACertPath [BCert (MkCert name k k [] [] (whole now) (whole (ten_years now)) true false)];;;
  write CAKeyPath [BKey k].

(** The names of a request: addresses and DNS names, trimmed, empty ones left out. *)
Definition normalizeSANs (sans : list string) : list string :=
  List.filter (fun s => negb (str_eqb s "")) (map (fun s => text (TrimSpace (chars s))) sans).

Definition want_IPs (sans : list string) : list string := omap parse_ip sans.
Definition want_DNS (sans : list string) : list string := List.filter (fun s => negb (bool_decide (is_Some (parse_ip s)))) sans.

(** [IssueCert] with the paths of its two files.  CreateCertificate refuses a key that is
    not the CA's. *)
Definition IssueCertAt (ca : cert) (caKey : Z) (server : bool) (cn : string) (sans : list string) (certPath keyPath : string) (validity now : Z) : fs_io unit :=
  k <-- fresh;;
  let validity := if validity <=? 0 then 90 * Day else validity in
  let names := normalizeSANs sans in
  if negb (c_key ca =? caKey) then failed "create cert"
  else
    make_dir;;;
    write certPath [BCert (MkCert cn k caKey (want_DNS names) (want_IPs names) (whole now) (whole (now + validity)) false server)];;;
    write keyPath [BKey k].

(** [base] is the directory and the name of the two files without extension. *)
Definition IssueCert (ca : cert) (caKey : Z) (server : bool) (cn : string) (sans : list string) (base : string) (validity now : Z) : fs_io unit :=
  IssueCertAt ca caKey server cn sans (base +:+ ".crt") (base +:+ ".key") validity now.

Definition GenerateJWTKeypair (base : string) : fs_io unit :=
  k <-- fresh;;
  make_dir;;;
  write (base +:+ ".key") [BKey k];;;
  write (base +:+ ".pub") [BPub k].

(** Appending to a file that is created when it is not there. *)
Definition append_file (p : string) (c : content) : fs_io unit :=
  operation (fun m => Some (<[p := default [] (m !! p) ++ c]> m, tt)) (fun m => <[p := default [] (m !! p) ++ torn_content c]> m).

Definition AppendBundle (bundlePath certPath : string) : fs_io unit :=
  append_file bundlePath [];;;
  c <-- read certPath;;
  append_file bundlePath c.

Definition BuildBundle (outPath certPath : string) : fs_io unit :=
  write outPath [];;;
  c <-- read certPath;;
  append_file outPath c.

Definition copyFile (src dst : string) : fs_io unit :=
  c <-- read src;;
  write dst c.

(** ** The Step CA (stepca_native.go) *)

Definition is_acme (stepCA : StepCAConfig) : bool := bool_decide (map (fun c => if in_range 65 90 c then c + 32 else c) (chars (sc_Provisioner stepCA)) = chars "acme").

Definition readProvisionerPassword (file : string) : fs_io string :=
  if str_eqb file "" then need prompted "read password from stdin"
  else c <-- read file;; done (text (trim_right [10; 13] (text_in c))).

(** A request without names indexes an empty slice. *)
Definition requestCertJWK (stepCA : StepCAConfig) (sans : list string) (certPath keyPath : string) (now : Time) : fs_io unit :=
  pw <-- readProvisionerPassword (sc_PasswordFile stepCA);;
  root <-- read (sc_RootPath stepCA);;
  let prov := if is_acme stepCA then "" else sc_Provisioner stepCA in
  need (if ca_provisioner (sc_URL stepCA) prov pw root then Some tt else None) "init JWK provisioner";;;
  match sans with
  | [] => crash
  | _ =>
      k <-- fresh;;
      r <-- need (ca_sign (sc_URL stepCA) prov pw root sans k now) "sign certificate";;
      write certPath (BCert (fst r) :: match snd r with Some i => [BCert i] | None => [] end);;;
      write keyPath [BKey k]
  end.

Definition requestCertACME (stepCA : StepCAConfig) (sans : list string) (certPath keyPath : string) (now : Time) : fs_io unit :=
  root <-- read (sc_RootPath stepCA);;
  k <-- fresh;;
  let prov := if str_eqb (sc_Provisioner stepCA) "" then "acme" else sc_Provisioner stepCA in
  r <-- need (ca_sign (sc_URL stepCA) prov "" root sans k now) "obtain ACME certificate";;
  write certPath (BCert (fst r) :: match snd r with Some i => [BCert i] | None => [] end);;;
  write keyPath [BKey k].

(** The pair presented must match; only the certificate is written. *)
Definition renewCertMTLS (stepCA : StepCAConfig) (certPath keyPath : string) (now : Time) : fs_io unit :=
  old <-- LoadX509KeyPair certPath keyPath;;
  root <-- read (sc_RootPath stepCA);;
  r <-- need (ca_renew (sc_URL stepCA) root old now) "mTLS renew";;
  write certPath (BCert (fst r) :: match snd r with Some i => [BCert i] | None => [] end).

Definition acmeSANs (serverSANs : list string) : list string :=
  match List.filter (fun s => negb (str_eqb s "localhost" || str_eqb s "127.0.0.1")) serverSANs with
  | [] => [if str_eqb hostname "" then "bridge" else hostname]
  | sans => sans
  end.

(** The dispatch on the provisioner that four functions share. *)
Definition request_cert (stepCA : StepCAConfig) (sans : list string) (certPath keyPath : string) (now : Time) : fs_io unit :=
  if is_acme stepCA then requestCertACME stepCA (acmeSANs sans) certPath keyPath now
  else requestCertJWK stepCA sans certPath keyPath now.

(** ** Records of what the material was made for (pki.go) *)

Definition stringSetsEqual (a b : list string) : bool :=
  (length a =? length b)%nat && bool_decide (merge_sort key_le a = merge_sort key_le b).

Fixpoint dedup (seen : list string) (l : list string) : list string :=
  match l with
  | [] => []
  | x :: l => if bool_decide (x ∈ seen) then dedup seen l else x :: dedup (x :: seen) l
  end.

(** A file without certificates is blank, or known by the hash of its bytes. *)
Definition blank_content (c : content) : bool := forallb (fun b => match b with BText s => blank s | _ => false end) c.

Definition certIdentities (pem : content) : list string :=
  match dedup [] (map fingerprint (certs_in pem)) with
  | [] => if blank_content pem then [] else ["raw:" +:+ raw_fingerprint pem]
  | out => out
  end.

Definition subtractIdentities (a b : list string) : list string := List.filter (fun fp => negb (bool_decide (fp ∈ b))) a.

Definition lines_of (s : list Z) : list string :=
  List.filter (fun l => negb (str_eqb l "")) (map (fun l => text (TrimSpace l)) (split_byte 10 s)).

Definition unlines (l : list string) : content := [BText (flat_map (fun s => chars s ++ [10]) l ++ match l with [] => [10] | _ => [] end)].

Definition read_text (p : string) : fs_io (option (list Z)) :=
  r <-- attempt (read p);;
  done (match r with inr c => Some (text_in c) | inl _ => None end).

Definition readStepCARoots : fs_io (option (list string)) :=
  r <-- read_text pkiStepCARootsFile;;
  done (option_map lines_of r).

Definition recordStepCARoots (rootPath : string) : fs_io unit :=
  root <-- read rootPath;;
  write pkiStepCARootsFile (unlines (merge_sort key_le (certIdentities root))).

Definition activeStepCARoots (configured : list string) : fs_io (list string) :=
  r <-- readStepCARoots;;
  match r with
  | Some recorded => done recorded
  | None =>
      bundle <-- read CABundlePath;;
      l <-- attempt (read CACertPath);;
      let localCA := match l with inr c => c | inl _ => [] end in
      done (subtractIdentities (certIdentities bundle) (subtractIdentities (certIdentities localCA) configured))
  end.

(** The recorded URL: [None] when there is no record, an error when it cannot be read. *)
Definition recorded_url : fs_io (option string) :=
  there <-- exists_file pkiStepCAURLFile;;
  if negb there then done None
  else c <-- read pkiStepCAURLFile;; done (Some (text (TrimSpace (text_in c)))).

Definition stepCAChanged (stepCA : StepCAConfig) : fs_io bool :=
  root <-- read (sc_RootPath stepCA);;
  let configured := certIdentities root in
  active <-- activeStepCARoots configured;;
  if negb (stringSetsEqual active configured) then done true
  else
    recorded <-- recorded_url;;
    done (match recorded with Some u => negb (str_eqb u (ca_url (sc_URL stepCA))) | None => false end).

Definition recordStepCAURL (url : string) : fs_io unit := write pkiStepCAURLFile [BText (chars (ca_url url) ++ [10])].

Definition recordStepCAIdentity (stepCA : StepCAConfig) : fs_io unit :=
  recordStepCAURL (sc_URL stepCA);;;
  recordStepCARoots (sc_RootPath stepCA).

Definition readPKIMode : fs_io string :=
  r <-- read_text pkiModeFile;;
  done (match r with Some s => text (TrimSpace s) | None => "" end).

Definition writePKIMode (mode : string) : fs_io unit := write pkiModeFile [BText (chars mode)].

Definition readPKISANs : fs_io (option (list string)) :=
  r <-- read_text pkiSANsFile;;
  done (option_map lines_of r).

Definition writePKISANs (serverSANs : list string) : fs_io unit := write pkiSANsFile (unlines (normalizeSANs serverSANs)).

Definition certSANsMatch (c : cert) (requested : list string) : bool :=
  stringSetsEqual (c_DNSNames c) (want_DNS requested) && stringSetsEqual (c_IPAddresses c) (want_IPs requested).

Definition uses_step_ca (stepCA : option StepCAConfig) : option StepCAConfig :=
  match stepCA with Some s => if str_eqb (sc_URL s) "" then None else Some s | None => None end.

Definition pkiRequestedSANsChanged (serverSANs : list string) (stepCA : option StepCAConfig) : fs_io bool :=
  let requested := normalizeSANs serverSANs in
  r <-- readPKISANs;;
  match r with
  | Some recorded => done (negb (stringSetsEqual recorded requested))
  | None =>
      match uses_step_ca stepCA with
      | Some _ => done false
      | None => c <-- attempt (LoadCert ServerCertPath);;
                done (match c with inr c => negb (certSANsMatch c requested) | inl _ => false end)
      end
  end.

(** ** Renewal *)

Definition renewServerCertAutoGen (serverSANs : list string) (validity now : Z) : fs_io unit :=
  ck <-- LoadCA CACertPath CAKeyPath;;
  IssueCert (fst ck) (snd ck) true "server" serverSANs "server" validity now.

(** A JWK request from a process without a terminal needs the password file. *)
Definition unattended (stepCA : StepCAConfig) (sans : list string) (certPath keyPath : string) (now : Time) : fs_io unit :=
  if negb (is_acme stepCA) && str_eqb (sc_PasswordFile stepCA) ""
  then failed "step_ca.provisioner_password_file is required for non-interactive issuance"
  else request_cert stepCA sans certPath keyPath now.

Definition renewServerCertStepCA (certPath keyPath : string) (serverSANs : list string) (stepCA : StepCAConfig) (now : Time) : fs_io unit :=
  r <-- attempt (renewCertMTLS stepCA certPath keyPath now);;
  match r with
  | inr _ => done tt
  | inl _ => unattended stepCA serverSANs certPath keyPath now
  end.

Definition RenewServerCertMaterial (serverSANs : list string) (stepCA : option StepCAConfig) (validity now : Z) : fs_io unit :=
  match uses_step_ca stepCA with
  | Some s => renewServerCertStepCA ServerCertPath ServerKeyPath serverSANs s now
  | None => renewServerCertAutoGen serverSANs validity now
  end.

Definition reissueServerCertMaterial (serverSANs : list string) (stepCA : option StepCAConfig) (validity now : Z) : fs_io unit :=
  match uses_step_ca stepCA with
  | Some s => unattended s serverSANs ServerCertPath ServerKeyPath now
  | None => renewServerCertAutoGen serverSANs validity now
  end.

(** [time.Time.Sub] saturates. *)
Definition Sub (a b : Time) : Z := Z.max (- 9223372036854775808) (Z.min 9223372036854775807 (a - b)).

(** More than a third of the lifetime is left. *)
Definition still_fresh (c : cert) (now : Time) : bool := Z.quot (Sub (c_NotAfter c) (c_NotBefore c)) 3 <? Sub (c_NotAfter c) now.

Definition ensureServerCertFresh (serverSANs : list string) (stepCA : option StepCAConfig) (validity now : Z) : fs_io unit :=
  r <-- attempt (LoadCert ServerCertPath);;
  match r with
  | inl _ => RenewServerCertMaterial serverSANs stepCA validity now
  | inr c =>
      if Sub (c_NotAfter c) (c_NotBefore c) <=? 0 then RenewServerCertMaterial serverSANs stepCA validity now
      else if still_fresh c now then done tt
      else RenewServerCertMaterial serverSANs stepCA validity now
  end.

(** The periodic check of a running daemon (localserver.go); the outcome is logged. *)
Definition checkAndRenew (serverSANs : list string) (stepCA : option StepCAConfig) (validity now : Z) : fs_io unit :=
  r <-- attempt (LoadCert ServerCertPath);;
  match r with
  | inl _ => done tt
  | inr c => if still_fresh c now then done tt else ignore (RenewServerCertMaterial serverSANs stepCA validity now)
  end.

(** An externally managed certificate (localserver.go): it may live anywhere, and a failed
    renewal is no error while the certificate is valid. *)
Definition ensureExplicitServerCertFresh (certPath keyPath : string) (serverSANs : list string) (stepCA : option StepCAConfig) (now : Time) : fs_io unit :=
  r <-- attempt (LoadCert certPath);;
  match r, uses_step_ca stepCA with
  | inl _, None => failed "read explicit TLS certificate"
  | inl _, Some s => renewServerCertStepCA certPath keyPath serverSANs s now
  | inr c, ca =>
      if still_fresh c now then done tt
      else match ca with
           | None => if Sub (c_NotAfter c) now <=? 0 then failed "explicit TLS certificate expired" else done tt
           | Some s => if Sub (c_NotAfter c) now <=? 0 then renewServerCertStepCA certPath keyPath serverSANs s now
                       else ignore (renewServerCertStepCA certPath keyPath serverSANs s now)
           end
  end.

(** ** Replacing a generation *)

(** [os.MkdirTemp] makes new directories for the two uses; they are these two here, so
    what a process that ended left in older ones is not seen. *)
Definition STAGING : string := ".step-ca-switch/".
Definition BACKUP : string := ".step-ca-backup/".
Definition inside (dir : string) (p : string) : bool := String.prefix dir p.

(** The three files of a generation, by name. *)
Definition generation : list string := [ServerCertPath; ServerKeyPath; CABundlePath].

(** The restore; the flag: whether the backups are kept. *)
Fixpoint rollbackStepCAGeneration (names : list string) (cause : string) : fs_io (bool * string) :=
  match names with
  | [] => done (false, cause)
  | n :: names =>
      r <-- attempt (rename (BACKUP +:+ n) n);;
      match r with
      | inr _ => rollbackStepCAGeneration names cause
      | inl _ => done (true, cause +:+ " (rollback failed)")
      end
  end.

(** The loop of [installStepCAGeneration]: [Some] is the error with the flag. *)
Fixpoint install_each (vacated names : list string) : fs_io (option (bool * string)) :=
  match names with
  | [] => done None
  | n :: names =>
      r <-- attempt (rename n (BACKUP +:+ n));;
      match r with
      | inl _ => e <-- rollbackStepCAGeneration vacated "back up existing Step CA material";; done (Some e)
      | inr _ =>
          let vacated := vacated ++ [n] in
          r <-- attempt (rename (STAGING +:+ n) n);;
          match r with
          | inl _ => e <-- rollbackStepCAGeneration vacated "install new Step CA material";; done (Some e)
          | inr _ => install_each vacated names
          end
      end
  end.

Definition installStepCAGeneration : fs_io unit :=
  make_dir;;;
  e <-- install_each [] generation;;
  match e with
  | None => remove_all (inside BACKUP)
  | Some (true, why) => failed why
  | Some (false, why) => remove_all (inside BACKUP);;; failed why
  end.

Definition switchStepCA (sans : list string) (stepCA : StepCAConfig) (now : Time) : fs_io unit :=
  make_dir;;;
  deferred
    (copyFile (sc_RootPath stepCA) (STAGING +:+ CABundlePath);;;
     AppendBundle (STAGING +:+ CABundlePath) CACertPath;;;
     request_cert stepCA sans (STAGING +:+ ServerCertPath) (STAGING +:+ ServerKeyPath) now;;;
     installStepCAGeneration;;;
     recordStepCAIdentity stepCA)
    (remove_all (inside STAGING)).

(** ** Start *)

Definition ensurePKIAutoGen (serverSANs : list string) (validity now : Z) : fs_io unit :=
  InitCA "bridgectl" now;;;
  ca <-- LoadCA CACertPath CAKeyPath;;
  IssueCert (fst ca) (snd ca) true "server" serverSANs "server" validity now;;;
  IssueCert (fst ca) (snd ca) false "local-client" [] "local-client" 0 now;;;
  BuildBundle CABundlePath CACertPath;;;
  GenerateJWTKeypair "jwt-signing";;;
  ignore (writePKIMode pkiModeAuto);;;
  ignore (writePKISANs serverSANs).

Definition ensurePKIStepCA (serverSANs : list string) (stepCA : StepCAConfig) (now : Time) : fs_io unit :=
  if str_eqb (sc_RootPath stepCA) "" then failed "step-ca-root is required when --step-ca-url is set"
  else
    copyFile (sc_RootPath stepCA) CABundlePath;;;
    request_cert stepCA serverSANs ServerCertPath ServerKeyPath now;;;
    InitCA "bridgectl-local" now;;;
    ca <-- LoadCA CACertPath CAKeyPath;;
    IssueCert (fst ca) (snd ca) false "local-client" [] "local-client" 0 now;;;
    AppendBundle CABundlePath CACertPath;;;
    GenerateJWTKeypair "jwt-signing";;;
    ignore (writePKIMode pkiModeStepCA);;;
    ignore (writePKISANs serverSANs);;;
    recordStepCAIdentity stepCA.

Fixpoint filesExist (paths : list string) : fs_io bool :=
  match paths with
  | [] => done true
  | p :: paths => if str_eqb p "" then done false else e <-- exists_file p;; if e then filesExist paths else done false
  end.

(** The material is complete and was made in the requested mode. *)
Definition reusable (mode : string) : fs_io bool :=
  e <-- filesExist [CABundlePath; ServerCertPath; ServerKeyPath];;
  if negb e then done false else m <-- readPKIMode;; done (str_eqb m mode).

(** The branch for material that is kept; [stepCA] is the Step CA in use. *)
Definition reuse_pki (serverSANs : list string) (stepCA : option StepCAConfig) (validity now : Z) : fs_io unit :=
  changed <-- match uses_step_ca stepCA with Some s => stepCAChanged s | None => done false end;;
  match changed, uses_step_ca stepCA with
  | true, Some s => switchStepCA serverSANs s now;;; ignore (writePKISANs serverSANs)
  | _, _ =>
      match uses_step_ca stepCA with Some s => recordStepCAIdentity s | None => done tt end;;;
      moved <-- pkiRequestedSANsChanged serverSANs stepCA;;
      (if moved : bool then reissueServerCertMaterial serverSANs stepCA validity now else ensureServerCertFresh serverSANs stepCA validity now);;;
      ignore (writePKISANs serverSANs)
  end.

Definition EnsurePKI (serverSANs : list string) (stepCA : option StepCAConfig) (validity now : Z) : fs_io unit :=
  keep <-- reusable (match uses_step_ca stepCA with Some _ => pkiModeStepCA | None => pkiModeAuto end);;
  if keep : bool then reuse_pki serverSANs stepCA validity now
  else
    make_dir;;;
    match uses_step_ca stepCA with
    | Some s => ensurePKIStepCA serverSANs s now
    | None => ensurePKIAutoGen serverSANs validity now
    end.

(** The blocks of the local CA are there already. *)
Fixpoint has_blocks (needle hay : content) : bool :=
  match hay with
  | [] => bool_decide (needle = [])
  | _ :: hay' => bool_decide (needle `prefix_of` hay) || has_blocks needle hay'
  end.

Definition writeLocalManagementBundle (externalCABundle : string) : fs_io unit :=
  bundle <-- read externalCABundle;;
  localCA <-- read CACertPath;;
  write CABundlePath (if has_blocks localCA bundle then bundle else bundle ++ localCA).

Definition EnsureLocalManagementPKI (externalCABundle : string) (now : Time) : fs_io unit :=
  make_dir;;;
  e <-- filesExist [CACertPath; CAKeyPath; LocalClientCert; LocalClientKey];;
  (if e : bool then done tt
   else InitCA "bridgectl-local" now;;;
        ca <-- LoadCA CACertPath CAKeyPath;;
        IssueCert (fst ca) (snd ca) false "local-client" [] "local-client" 0 now);;;
  e <-- filesExist [JWTSigningKey; JWTSigningPub];;
  (if e : bool then done tt else GenerateJWTKeypair "jwt-signing");;;
  writeLocalManagementBundle externalCABundle;;;
  ignore (writePKIMode pkiModeTLS).

(** ** Clients *)

(** [safeNameRe]. *)
Definition name_char (c : Z) : bool := in_range 48 57 c || in_range 65 90 c || in_range 97 122 c.
Definition safeName (s : string) : bool :=
  match chars s with
  | [] => false
  | c :: s => name_char c && forallb (fun c => name_char c || (c =? 46) || (c =? 95) || (c =? 45)) s
  end.

Definition client_file (name file : string) : string := "clients/" +:+ name +:+ "/" +:+ file.
Definition client_pub (name : string) : string := "jwt-clients/" +:+ name +:+ ".pub".

Definition register_client (name : string) : fs_io unit :=
  GenerateJWTKeypair (client_file name "jwt-signing");;;
  make_dir;;;
  pub <-- read (client_file name "jwt-signing.pub");;
  write (client_pub name) pub.

Definition IssueClientCert (name : string) (now : Time) : fs_io unit :=
  if negb (safeName name) then failed "invalid client name"
  else
    ca <-- LoadCA CACertPath CAKeyPath;;
    IssueCert (fst ca) (snd ca) false name [] (client_file name name) 0 now;;;
    register_client name.

(** The archive for a client: the names with the contents. *)
Definition BundleClientCreds (name : string) : fs_io (list (string * content)) :=
  let files := [(CABundlePath, "ca-bundle.crt"); (client_file name (name +:+ ".crt"), name +:+ ".crt");
                (client_file name (name +:+ ".key"), name +:+ ".key"); (client_file name "jwt-signing.key", "jwt-signing.key")] in
  e <-- filesExist (map fst files);;
  if negb e then failed "missing credential file"
  else
    (fix add fs := match fs with
                   | [] => done []
                   | (p, n) :: fs => c <-- read p;; rest <-- add fs;; done ((n, c) :: rest)
                   end) files.
End pki.
