(* ===== verification/PkiSafety.v ===== *)
(** * Certificates: replacing a generation

    Replacing a generation of certificate, key and bundle is all or nothing as far as errors
    go, and loses nothing in a crash. *)

From stdpp Require Import sorting.
From S2P Require Import Prelude Types GoStd GoText Disk Pki.

Local Open Scope io_scope.

Section install.
Context (old new : string -> content).

Definition bak (n : string) : string := BACKUP +:+ n.
Definition stg (n : string) : string := STAGING +:+ n.

(** The live names, their backups and their staged versions are different paths. *)
Definition apart (ns : list string) : Prop := forall n m, n ∈ ns -> m ∈ ns -> bak n <> m /\ stg n <> m /\ bak n <> stg m.

Lemma bak_inj n m : bak n = bak m -> n = m.
Proof. apply (inj (String.append BACKUP)). Qed.

Definition kept (ns : list string) (f : gmap string content) : Prop := forall n, n ∈ ns -> f !! n = Some (old n) \/ f !! bak n = Some (old n).

Lemma rollback_spec vac cause : NoDup vac -> apart vac -> forall d, (forall n, n ∈ vac -> d_files d !! bak n = Some (old n)) ->
  let '(d', r) := rollbackStepCAGeneration vac cause d in
  kept vac (d_files d') /\ (forall p, p ∉ vac -> p ∉ map bak vac -> d_files d' !! p = d_files d !! p) /\
  (forall flag why, r = Done (flag, why) -> flag = false -> forall n, n ∈ vac -> d_files d' !! n = Some (old n)) /\
  (forall why, r <> Failed why).
Proof.
  induction vac as [|n vac IH]; intros Hnd Ha d Hb; [cbn; split_and!; try done; intros ? ?; set_solver|].
  apply list.NoDup_cons in Hnd as [Hn Hnd]; cbn [rollbackStepCAGeneration]; unfold and_then; fold (bak n).
  assert (Ha' : apart vac) by (intros a b ? ?; apply Ha; set_solver).
  destruct (rename_cases (bak n) n d) as (d1 & r & -> & [(c & Hc & Hf & ->)|(Hf & [[why ->]| ->])]).
  - rewrite Hb in Hc by set_solver; injection Hc as <-.
    assert (Hb1 : forall m, m ∈ vac -> d_files d1 !! bak m = Some (old m)).
    { intros m Hm; rewrite Hf, lookup_insert_ne by (intros E; symmetry in E; revert E; apply Ha; set_solver).
      rewrite lookup_delete_ne; [apply Hb; set_solver|intros E; apply bak_inj in E; set_solver]. }
    specialize (IH Hnd Ha' d1 Hb1); destruct (rollbackStepCAGeneration vac cause d1) as [d' r]; destruct IH as (H1 & H2 & H3 & H4).
    assert (Hnn : d_files d' !! n = Some (old n)).
    { rewrite H2, Hf; [apply lookup_insert_eq|exact Hn|]. intros (m & E & Hm)%list_elem_of_fmap; symmetry in E; revert E; apply Ha; set_solver. }
    split_and!; auto.
    + intros m [->|Hm]%elem_of_cons; auto.
    + intros p Hp Hp'; rewrite H2, Hf by set_solver; rewrite lookup_insert_ne by set_solver; apply lookup_delete_ne; set_solver.
    + intros flag why Hr Hfl m [->|Hm]%elem_of_cons; [exact Hnn|eapply H3; eauto].
  - split_and!; try discriminate; intros; rewrite Hf; auto; [right; apply Hb; assumption|congruence].
  - split_and!; try discriminate; intros; rewrite Hf; auto; right; apply Hb; assumption.
Qed.

Record installing (vac ns : list string) (f : gmap string content) : Prop := {
  in_new : forall n, n ∈ vac -> f !! n = Some (new n);
  in_backup : forall n, n ∈ vac -> f !! bak n = Some (old n);
  in_live : forall n, n ∈ ns -> f !! n = Some (old n);
  in_staged : forall n, n ∈ ns -> f !! stg n = Some (new n) }.

(** What an install makes of the files [f], for the files [all] of a generation. *)
Record outcome (all : list string) (f f' : gmap string content) (r : res (option (bool * string))) : Prop := {
  oc_kept : kept all f';
  oc_new : r = Done None -> forall n, n ∈ all -> f' !! n = Some (new n);
  oc_old : forall why, r = Done (Some (false, why)) -> forall n, n ∈ all -> f' !! n = Some (old n);
  oc_error : forall why, r <> Failed why;
  oc_other : forall p, p ∉ all -> p ∉ map bak all -> p ∉ map stg all -> f' !! p = f !! p }.

Lemma crashed_outcome all f f' : kept all f' -> (forall p, p ∉ all -> p ∉ map bak all -> f' !! p = f !! p) -> outcome all f f' Crashed.
Proof. intros; split; try discriminate; auto. Qed.

(** A step failed with the files [vac] moved away and [rest] still in place. *)
Lemma unwind vac rest cause f d : NoDup (vac ++ rest) -> apart (vac ++ rest) -> (forall n, n ∈ vac -> d_files d !! bak n = Some (old n)) ->
  (forall n, n ∈ rest -> d_files d !! n = Some (old n)) -> (forall p, p ∉ vac ++ rest -> p ∉ map bak (vac ++ rest) -> d_files d !! p = f !! p) ->
  let '(d', r) := and_then (rollbackStepCAGeneration vac cause) (fun e => done (Some e)) d in outcome (vac ++ rest) f (d_files d') r.
Proof using Type.
  intros Hnd Ha Hb Hl Hp; apply list.NoDup_app in Hnd as (Hnd & Hd & _); unfold and_then.
  assert (Hav : apart vac) by (intros a b ? ?; apply Ha; set_solver).
  pose proof (rollback_spec vac cause Hnd Hav d Hb) as H.
  destruct (rollbackStepCAGeneration vac cause d) as [d2 [[flag w]|w|]]; destruct H as (H1 & H2 & H3 & H4); [|destruct (H4 w eq_refl)|].
  all: assert (Hl2 : forall m, m ∈ rest -> d_files d2 !! m = Some (old m))
    by (intros m Hm; rewrite H2; [auto|intros Hv; exact (Hd m Hv Hm)|];
        intros (m' & E & Hm')%list_elem_of_fmap; symmetry in E; revert E; apply Ha; set_solver).
  all: assert (Hk : kept (vac ++ rest) (d_files d2)) by (intros m [Hm|Hm]%elem_of_app; auto).
  all: assert (Ho : forall p, p ∉ vac ++ rest -> p ∉ map bak (vac ++ rest) -> d_files d2 !! p = f !! p)
    by (intros p P1 P2; rewrite H2, Hp; rewrite ?map_app in *; set_solver).
  - split; try discriminate; auto; intros w' [= -> <-] m [Hm|Hm]%elem_of_app; [eapply H3; eauto|auto].
  - apply crashed_outcome; assumption.
Qed.

(** One file moved aside: what is where. *)
Lemma moved_aside vac n ns d d1 : NoDup (vac ++ n :: ns) -> apart (vac ++ n :: ns) -> installing vac (n :: ns) (d_files d) ->
  d_files d1 = <[bak n := old n]> (delete n (d_files d)) ->
  (forall m, m ∈ vac ++ [n] -> d_files d1 !! bak m = Some (old m)) /\ (forall p, p <> n -> p <> bak n -> d_files d1 !! p = d_files d !! p) /\
  (forall m, m ∈ ns -> d_files d1 !! m = Some (old m)).
Proof using Type.
  intros Hnd Ha [I1 I2 I3 I4] Hf.
  assert (Hn : n ∉ vac /\ n ∉ ns) by (apply list.NoDup_app in Hnd as (? & Hd & ?%list.NoDup_cons); set_solver).
  assert (Hother : forall p, p <> n -> p <> bak n -> d_files d1 !! p = d_files d !! p) by (intros p P1 P2; rewrite Hf, lookup_insert_ne, lookup_delete_ne; auto).
  split; [|split; [exact Hother|]].
  - intros m [Hm|Hm]%elem_of_app; [|apply list_elem_of_singleton in Hm as ->; rewrite Hf; apply lookup_insert_eq].
    rewrite Hother; [auto|apply Ha; set_solver|intros E; apply bak_inj in E; set_solver].
  - intros m Hm; rewrite Hother; [apply I3; set_solver|set_solver|intros E; symmetry in E; revert E; apply Ha; set_solver].
Qed.

(** One file installed: the next round. *)
Lemma installed_next vac n ns d d1 d2 : NoDup (vac ++ n :: ns) -> apart (vac ++ n :: ns) -> installing vac (n :: ns) (d_files d) ->
  d_files d1 = <[bak n := old n]> (delete n (d_files d)) -> d_files d2 = <[n := new n]> (delete (stg n) (d_files d1)) ->
  installing (vac ++ [n]) ns (d_files d2).
Proof using Type.
  intros Hnd Ha I Hf Hf2; destruct (moved_aside vac n ns d d1 Hnd Ha I Hf) as (Hvac & Hother & Hns); destruct I as [I1 I2 I3 I4].
  assert (Hn : n ∉ vac /\ n ∉ ns) by (apply list.NoDup_app in Hnd as (? & Hd & ?%list.NoDup_cons); set_solver).
  assert (H2 : forall p, p <> n -> p <> stg n -> d_files d2 !! p = d_files d1 !! p) by (intros; rewrite Hf2, lookup_insert_ne, lookup_delete_ne; auto).
  assert (Hs : forall m, m ∈ vac ++ n :: ns -> m <> bak n /\ m <> stg n /\ bak m <> n /\ stg m <> n /\ bak m <> stg n /\ stg m <> bak n).
  { intros m Hm; assert (Hnn : n ∈ vac ++ n :: ns) by set_solver; destruct (Ha n m Hnn Hm) as (? & ? & ?), (Ha m n Hm Hnn) as (? & ? & ?); repeat split; congruence. }
  split.
  - intros m [Hm|Hm]%elem_of_app; [|apply list_elem_of_singleton in Hm as ->; rewrite Hf2; apply lookup_insert_eq].
    destruct (Hs m) as (? & ? & ? & ? & ? & ?); [set_solver|]; assert (m <> n) by (intros ->; tauto); rewrite H2, Hother; auto.
  - intros m Hm; destruct (Hs m) as (? & ? & ? & ? & ? & ?); [set_solver|]; rewrite H2; auto.
  - intros m Hm; destruct (Hs m) as (? & ? & ? & ? & ? & ?); [set_solver|]; assert (m <> n) by (intros ->; tauto); rewrite H2; auto.
  - intros m Hm; destruct (Hs m) as (? & ? & ? & ? & ? & ?); [set_solver|]; assert (m <> n) by (intros ->; tauto).
    assert (stg m <> stg n) by (intros X; apply (inj (String.append STAGING)) in X; auto); rewrite H2, Hother; auto; apply I4; set_solver.
Qed.

Lemma install_each_spec ns : forall vac d, NoDup (vac ++ ns) -> apart (vac ++ ns) -> installing vac ns (d_files d) ->
  let '(d', r) := install_each vac ns d in outcome (vac ++ ns) (d_files d) (d_files d') r.
Proof.
  induction ns as [|n ns IH]; intros vac d Hnd Ha I.
  { destruct I as [I1 I2 I3 I4]; rewrite app_nil_r in *; cbn; split; try done; intros ? ?; auto. }
  assert (E : vac ++ n :: ns = (vac ++ [n]) ++ ns) by (rewrite <- app_assoc; reflexivity).
  pose proof I as [I1 I2 I3 I4]; cbn [install_each]; unfold and_then at 1; fold (bak n) (stg n).
  destruct (rename_cases n (bak n) d) as (d1 & r & -> & [(c & Hc & Hf & ->)|(Hf & [[why ->]| ->])]).
  2:{ apply unwind; auto; rewrite Hf; auto. }
  2:{ apply crashed_outcome; rewrite Hf; auto; intros m [Hm|Hm]%elem_of_app; auto. }
  rewrite I3 in Hc by set_solver; injection Hc as <-.
  destruct (moved_aside vac n ns d d1 Hnd Ha I Hf) as (Hvac & Hother & Hns).
  assert (Hp : forall p, p ∉ vac ++ n :: ns -> p ∉ map bak (vac ++ n :: ns) -> d_files d1 !! p = d_files d !! p)
    by (intros p P1 P2; apply Hother; rewrite ?map_app in *; set_solver).
  unfold and_then at 1; destruct (rename_cases (stg n) n d1) as (d2 & r & -> & [(c & Hc & Hf2 & ->)|(Hf2 & [[why ->]| ->])]).
  - assert (Hnin : n ∈ vac ++ n :: ns) by set_solver; destruct (Ha n n Hnin Hnin) as (N1 & N2 & N3).
    rewrite Hother in Hc by congruence; rewrite I4 in Hc by set_solver; injection Hc as <-.
    pose proof (installed_next vac n ns d d1 d2 Hnd Ha I Hf Hf2) as I'; rewrite E in *.
    specialize (IH (vac ++ [n]) d2 Hnd Ha I'); destruct (install_each (vac ++ [n]) ns d2) as [d' r]; destruct IH as [K1 K2 K3 K4 K5].
    split; auto; intros p P1 P2 P3; rewrite K5, Hf2, lookup_insert_ne, lookup_delete_ne by (auto; rewrite ?map_app in *; set_solver); auto.
  - rewrite E in *; apply unwind; auto; rewrite Hf2; auto.
  - rewrite E in *; apply crashed_outcome; rewrite Hf2; auto; intros m [Hm|Hm]%elem_of_app; auto.
Qed.

Lemma rollback_reported vac cause : forall d d' w, rollbackStepCAGeneration vac cause d = (d', Done (true, w)) -> w = cause +:+ " (rollback failed)".
Proof.
  induction vac as [|n vac IH]; intros d d' w; cbn [rollbackStepCAGeneration]; [discriminate|]; unfold and_then.
  destruct (attempt (rename _ n) d) as [d1 [[e|u]|e|]]; try discriminate; [intros [= _ <-]; reflexivity|apply IH].
Qed.

Lemma install_reported ns : forall vac d d' w, install_each vac ns d = (d', Done (Some (true, w))) -> exists cause, w = cause +:+ " (rollback failed)".
Proof.
  induction ns as [|n ns IH]; intros vac d d' w; cbn [install_each]; [discriminate|]; unfold and_then.
  destruct (attempt (rename n _) d) as [d1 [[e|u]|e|]]; try discriminate.
  - destruct (rollbackStepCAGeneration vac _ d1) as [d2 [[f x]|x|]] eqn:E; try discriminate; intros [= _ -> ->].
    eexists; eapply rollback_reported, E.
  - destruct (attempt (rename _ n) d1) as [d2 [[e|v]|e|]]; try discriminate; [|apply IH].
    destruct (rollbackStepCAGeneration (vac ++ [n]) _ d2) as [d3 [[f x]|x|]] eqn:E; try discriminate; intros [= _ -> ->].
    eexists; eapply rollback_reported, E.
Qed.

Lemma filter_outside (f : gmap string content) (dir : string -> bool) p : dir p = false -> filter (fun kv => dir kv.1 = false) f !! p = f !! p.
Proof.
  intros H; destruct (f !! p) as [c|] eqn:E; [apply map_lookup_filter_Some; auto|apply map_lookup_filter_None; auto].
Qed.

Lemma generation_apart : NoDup generation /\ apart generation /\ forall n, n ∈ generation -> inside BACKUP n = false /\ inside STAGING n = false.
Proof using.
  clear old new.
  assert (E : forall n, n ∈ generation -> n = ServerCertPath \/ n = ServerKeyPath \/ n = CABundlePath).
  { intros n; unfold generation; rewrite !elem_of_cons, elem_of_nil; tauto. }
  split; [|split].
  - apply (bool_decide_unpack _); vm_compute; exact I.
  - intros n m [->|[->| ->]]%E [->|[->| ->]]%E; repeat split; discriminate.
  - intros n [->|[->| ->]]%E; split; reflexivity.
Qed.

(** C36. Replacing a generation: with any of its operations failing, or the process ending at any of
    them, every one of the previous certificate, key and bundle is still on disk, at its
    place or in the backup, unless the call succeeds; when it succeeds all three are the
    staged ones; when it fails all three are the previous ones at their places, or the
    error says that the rollback failed.  No other file changes. *)
Theorem install_all_or_nothing (d : disk) :
  (forall n, n ∈ generation -> d_files d !! n = Some (old n) /\ d_files d !! (STAGING +:+ n) = Some (new n)) ->
  let '(d', r) := installStepCAGeneration d in
  match r with
  | Done _ => forall n, n ∈ generation -> d_files d' !! n = Some (new n)
  | Failed why => (forall n, n ∈ generation -> d_files d' !! n = Some (old n)) \/
                  (exists cause, why = cause +:+ " (rollback failed)") /\
                  (forall n, n ∈ generation -> d_files d' !! n = Some (old n) \/ d_files d' !! (BACKUP +:+ n) = Some (old n))
  | Crashed => forall n, n ∈ generation -> d_files d' !! n = Some (old n) \/ d_files d' !! (BACKUP +:+ n) = Some (old n)
  end /\
  (forall p, p ∉ generation -> inside BACKUP p = false -> inside STAGING p = false -> d_files d' !! p = d_files d !! p).
Proof.
  intros H; destruct generation_apart as (Hnd & Ha & Hin); unfold installStepCAGeneration, and_then.
  assert (Hd : exists d1 r, make_dir d = (d1, r) /\ d_files d1 = d_files d /\ (r = Done tt \/ (exists why, r = Failed why) \/ r = Crashed)).
  { destruct d as [f [|[] fs] s]; cbn; eexists _, _; split; eauto; split; eauto. }
  destruct Hd as (d1 & r & -> & Hf & Hr); destruct Hr as [->|[[why ->]| ->]].
  2:{ split; [left; intros n Hn; rewrite Hf; exact (proj1 (H n Hn))|intros; rewrite Hf; reflexivity]. }
  2:{ split; [intros n Hn; left; rewrite Hf; exact (proj1 (H n Hn))|intros; rewrite Hf; reflexivity]. }
  assert (I : installing [] generation (d_files d1)) by
    (rewrite Hf; split; [intros ? ?%elem_of_nil; done..|intros n Hn; exact (proj1 (H n Hn))|intros n Hn; exact (proj2 (H n Hn))]).
  pose proof (install_each_spec generation [] d1 Hnd Ha I) as Hs.
  assert (Hout : forall p dir, inside dir p = false -> p ∉ map (String.append dir) generation).
  { intros p dir Hp (n & -> & _)%list_elem_of_fmap; unfold inside in Hp; rewrite prefix_append in Hp; discriminate. }
  destruct (install_each [] generation d1) as [d2 [[[flag why]|]|why|]] eqn:Ei; destruct Hs as [K1 K2 K3 K4 K5]; cbn [app] in *.
  - destruct flag; cbn.
    + split; [right; split; [eapply install_reported, Ei|exact K1]|intros p P1 P2 P3; rewrite K5, Hf; auto; apply Hout; assumption].
    + split; [left; intros n Hn|intros p P1 P2 P3]; rewrite filter_outside; auto; [eauto|apply Hin, Hn|rewrite K5, Hf; auto; apply Hout; assumption].
  - cbn; split; [intros n Hn|intros p P1 P2 P3]; rewrite filter_outside; auto; [apply Hin, Hn|rewrite K5, Hf; auto; apply Hout; assumption].
  - destruct (K4 why eq_refl).
  - split; [exact K1|intros p P1 P2 P3; rewrite K5, Hf; auto; apply Hout; assumption].
Qed.
End install.

(** It can hold: the move of the second file fails, and so does putting the first one back. *)
Lemma install_all_or_nothing_witness :
  let old n := [BText (chars n)] in
  let new n := [BText (chars (n +:+ "'"))] in
  let f : gmap string content := list_to_map (map (fun n => (n, old n)) generation ++ map (fun n => (STAGING +:+ n, new n)) generation) in
  let d := MkDisk f [Good; Good; Good; Fails; Fails] 0 in
  snd (installStepCAGeneration d) = Failed "back up existing Step CA material (rollback failed)" /\
  forall n, n ∈ generation -> d_files (fst (installStepCAGeneration d)) !! n = Some (old n) \/ d_files (fst (installStepCAGeneration d)) !! (BACKUP +:+ n) = Some (old n).
Proof.
  intros old new f d.
  assert (H : forall n, n ∈ generation -> f !! n = Some (old n) /\ f !! (STAGING +:+ n) = Some (new n)).
  { intros n Hn; unfold generation in Hn; rewrite !elem_of_cons, elem_of_nil in Hn; destruct Hn as [->|[->|[->|[]]]]; vm_compute; auto. }
  pose proof (install_all_or_nothing old new d H) as H2.
  assert (E : snd (installStepCAGeneration d) = Failed "back up existing Step CA material (rollback failed)") by (vm_compute; reflexivity).
  split; [exact E|]; destruct (installStepCAGeneration d) as [a r]; cbn in E |- *; subst r; cbn in H2.
  intros n Hn; destruct H2 as [[H2|[_ H2]] _]; auto.
Defined.
