(* ===== verification/PkiStart.v ===== *)
(** * Certificates: one start (EnsurePKI)

    What the files of the certs directory say, the invariant [sound] between starts and the
    promise [ready] of a start: without faults of the disk, from sound files [EnsurePKI]
    leaves sound files, and when it succeeds they are ready; with a local CA it always
    succeeds. *)

From stdpp Require Import sorting.
From S2P Require Import Prelude Types GoStd GoText Disk Pki PkiSafety.

Local Open Scope io_scope.

Section files_say.
Context `{W : PKIWorld}.
Notation files := (gmap string content).

(** ** What the files say *)

Definition cert_at (f : files) (p : string) : option cert :=
  match f !! p with Some c => match pem_blocks c with BCert x :: _ => Some x | _ => None end | None => None end.
Definition key_at (f : files) (p : string) : option Z :=
  match f !! p with Some c => match pem_blocks c with BKey k :: _ => Some k | _ => None end | None => None end.

Definition mode_of (f : files) : string := match f !! pkiModeFile with Some c => text (TrimSpace (text_in c)) | None => "" end.
Definition sans_of (f : files) : option (list string) := option_map (fun c => lines_of (text_in c)) (f !! pkiSANsFile).
Definition url_of (f : files) : option string := option_map (fun c => text (TrimSpace (text_in c))) (f !! pkiStepCAURLFile).
Definition roots_of (f : files) : option (list string) := option_map (fun c => lines_of (text_in c)) (f !! pkiStepCARootsFile).

Lemma cert_at_eq f p c l : cert_at (<[p := BCert c :: l]> f) p = Some c.
Proof. unfold cert_at; rewrite lookup_insert_eq; reflexivity. Qed.

Lemma key_at_eq f p k : key_at (<[p := [BKey k]]> f) p = Some k.
Proof. unfold key_at; rewrite lookup_insert_eq; reflexivity. Qed.

(** A matching pair, the local CA and its client. *)
Definition pair_ok (f : files) (leaf : cert) : Prop := cert_at f ServerCertPath = Some leaf /\ key_at f ServerKeyPath = Some (c_key leaf).
Definition ca_ok (f : files) (ca : cert) : Prop := cert_at f CACertPath = Some ca /\ key_at f CAKeyPath = Some (c_key ca).

(** ** Steps *)

Lemma LoadCert_wp p post f : (forall c, cert_at f p = Some c -> post (Done c) f) -> (forall w, cert_at f p = None -> post (Failed w) f) -> wp (LoadCert p) post f.
Proof.
  unfold cert_at; intros H1 H2; apply wp_bind, wp_read; [|intros w E; cbn; apply H2; rewrite E; reflexivity].
  intros c E; cbn; rewrite E in *; destruct (pem_blocks c) as [|[] l]; try apply wp_failed; try apply wp_done; auto.
Qed.

Lemma LoadCA_wp cp kp post f : (forall c k, cert_at f cp = Some c -> key_at f kp = Some k -> post (Done (c, k)) f) ->
  (forall w, cert_at f cp = None \/ key_at f kp = None -> post (Failed w) f) -> wp (LoadCA cp kp) post f.
Proof.
  unfold key_at; intros H1 H2; apply wp_bind, LoadCert_wp; cbn [after]; [|auto]; intros c Ec; apply wp_bind, wp_read; cbn [after].
  - intros x E; rewrite E in *; destruct (pem_blocks x) as [|[] l]; try apply wp_failed; try apply wp_done; auto.
  - intros w E; apply H2; rewrite E; auto.
Qed.

(** A certificate that the Step CA issued at a time. *)
Definition obtained (s : StepCAConfig) (leaf : cert) (now : Time) : Prop :=
  (exists prov pw root sans k i, ca_sign (sc_URL s) prov pw root sans k now = Some (leaf, i)) \/
  (exists root old i, ca_renew (sc_URL s) root old now = Some (leaf, i)).

Lemma obtained_issuer s leaf now : obtained s leaf now -> c_issuer leaf = ca_identity (ca_url (sc_URL s)).
Proof. intros [(? & ? & ? & ? & ? & ? & H)|(? & ? & ? & H)]; [eapply sign_issuer|eapply renew_issuer]; exact H. Qed.

(** What a request leaves at the two paths, if it succeeds. *)
Definition requested (s : StepCAConfig) (cp kp : string) (now : Time) (f : files) (r : res unit) (f' : files) : Prop :=
  match r with
  | Done _ => exists leaf l, f' = <[kp := [BKey (c_key leaf)]]> (<[cp := BCert leaf :: l]> f) /\ obtained s leaf now
  | _ => f' = f
  end.

Lemma acme_wp s sans cp kp now f : wp (requestCertACME s sans cp kp now) (requested s cp kp now f) f.
Proof.
  apply wp_bind, wp_read; [intros root _|intros; reflexivity]; apply wp_bind, wp_fresh; intros k.
  apply wp_bind, wp_need; [intros [leaf i] E|intros _; reflexivity]; apply wp_bind, wp_write, wp_write; cbn.
  exists leaf, (match i with Some x => [BCert x] | None => [] end); rewrite (sign_key _ _ _ _ _ _ _ _ _ E).
  split; [destruct i; reflexivity|left; eauto 10].
Qed.

Lemma password_wp file post f : (forall pw, post (Done pw) f) -> (forall w, post (Failed w) f) -> wp (readProvisionerPassword file) post f.
Proof.
  intros H1 H2; unfold readProvisionerPassword; destruct (str_eqb _ ""); [apply wp_need; auto|].
  apply wp_bind, wp_read; cbn; intros; [apply wp_done|]; auto.
Qed.

Lemma jwk_wp s sans cp kp now f : wp (requestCertJWK s sans cp kp now) (requested s cp kp now f) f.
Proof.
  apply wp_bind, password_wp; [intros pw|reflexivity]; apply wp_bind, wp_read; [intros root _|intros; reflexivity]; cbn [after].
  apply wp_bind, wp_need; [intros [] _|intros _; reflexivity]; cbn [after].
  destruct sans as [|san sans]; [apply wp_crash; reflexivity|]; apply wp_bind, wp_fresh; intros k.
  apply wp_bind, wp_need; [intros [leaf i] E|intros _; reflexivity]; apply wp_bind, wp_write, wp_write; cbn.
  exists leaf, (match i with Some x => [BCert x] | None => [] end); rewrite (sign_key _ _ _ _ _ _ _ _ _ E).
  split; [destruct i; reflexivity|left; eauto 10].
Qed.

Lemma request_wp s sans cp kp now f : wp (request_cert s sans cp kp now) (requested s cp kp now f) f.
Proof. unfold request_cert; destruct (is_acme s); [apply acme_wp|apply jwk_wp]. Qed.

Lemma pair_wp cp kp post f : (forall c x k y, f !! cp = Some c -> f !! kp = Some k -> head (certs_in c) = Some x -> head (keys_in k) = Some y -> c_key x = y -> post (Done x) f) ->
  (forall w, post (Failed w) f) -> wp (LoadX509KeyPair cp kp) post f.
Proof.
  intros H1 H2; apply wp_bind, wp_read; [intros c Ec|intros w _; apply H2]; cbn [after]; apply wp_bind, wp_read; [intros k Ek|intros w _; apply H2]; cbn [after].
  destruct (certs_in c) as [|x cs] eqn:E1; [apply wp_failed, H2|]; destruct (keys_in k) as [|y ks] eqn:E2; [apply wp_failed, H2|].
  destruct (Z.eqb_spec (c_key x) y) as [Hk|]; [|apply wp_failed, H2]; apply wp_done; eapply (H1 c x k y); auto; [rewrite E1|rewrite E2]; reflexivity.
Qed.

(** The first certificate and the first key of files that begin with them. *)
Lemma cert_at_first f p c x : f !! p = Some c -> cert_at f p = Some x -> head (certs_in c) = Some x.
Proof.
  unfold cert_at; intros ->; induction c as [|b c IH]; cbn; [discriminate|]; destruct b; cbn; intros H; [congruence|discriminate..|auto].
Qed.

Lemma key_at_first f p c k : f !! p = Some c -> key_at f p = Some k -> head (keys_in c) = Some k.
Proof.
  unfold key_at; intros ->; induction c as [|b c IH]; cbn; [discriminate|]; destruct b; cbn; intros H; [discriminate|congruence|discriminate|auto].
Qed.

(** The renewal writes the certificate only, and it certifies the same key. *)
Lemma renew_mtls_wp s cp kp now f old : cert_at f cp = Some old -> key_at f kp = Some (c_key old) -> wp (renewCertMTLS s cp kp now) (fun r f' =>
  match r with
  | Done _ => exists leaf l, c_key leaf = c_key old /\ f' = <[cp := BCert leaf :: l]> f /\ obtained s leaf now
  | _ => f' = f
  end) f.
Proof.
  intros E1 E2; apply wp_bind, pair_wp; [intros c x k y Hc Hk Hx Hy Exy|intros; reflexivity]; cbn [after].
  rewrite (cert_at_first _ _ _ _ Hc E1) in Hx; injection Hx as <-.
  apply wp_bind, wp_read; [intros root _|intros; reflexivity].
  apply wp_bind, wp_need; [intros [leaf i] E|intros _; reflexivity]; apply wp_write; cbn.
  exists leaf, (match i with Some x => [BCert x] | None => [] end); split_and!; auto; [eapply renew_key, E|right; eauto].
Qed.

Definition lifetime (validity : Z) : Z := if validity <=? 0 then 90 * Day else validity.
Definition issued_cert (cn : string) (k issuer : Z) (sans : list string) (validity now : Z) (server : bool) : cert :=
  MkCert cn k issuer (want_DNS (normalizeSANs sans)) (want_IPs (normalizeSANs sans)) (whole now) (whole (now + lifetime validity)) false server.

(** The default lifetime, or one of more than two seconds. *)
Definition lasting (v : Z) : Prop := v <= 0 \/ 2 * Second < v < 9223372036854775808.

Lemma IssueCertAt_wp ca k server cn sans cp kp validity now post f :
  (forall k', c_key ca = k -> post (Done tt) (<[kp := [BKey k']]> (<[cp := [BCert (issued_cert cn k' k sans validity now server)]]> f))) ->
  (forall w, c_key ca <> k -> post (Failed w) f) -> wp (IssueCertAt ca k server cn sans cp kp validity now) post f.
Proof.
  intros H1 H2; apply wp_bind, wp_fresh; intros k'; cbn [after].
  destruct (Z.eqb_spec (c_key ca) k) as [E|E]; cbn [negb]; [|apply wp_failed; auto].
  apply wp_bind, wp_make_dir; cbn [after]; apply wp_bind, wp_write; cbn [after]; apply wp_write; auto.
Qed.

Lemma IssueCert_wp ca k server cn sans base validity now post f :
  (forall k', c_key ca = k -> post (Done tt) (<[base +:+ ".key" := [BKey k']]> (<[base +:+ ".crt" := [BCert (issued_cert cn k' k sans validity now server)]]> f))) ->
  (forall w, c_key ca <> k -> post (Failed w) f) -> wp (IssueCert ca k server cn sans base validity now) post f.
Proof. apply IssueCertAt_wp. Qed.

(** ** Read back *)

Lemma trim_plain s : plain s = true -> text (TrimSpace (chars s)) = s.
Proof. intros H; rewrite TrimSpace_graphic by exact H; apply text_chars. Qed.

Lemma plain_no_newline s : plain s = true -> 10 ∉ chars s.
Proof. unfold plain; rewrite forallb_forall; intros H Hin; apply list_elem_of_In, H in Hin; discriminate. Qed.

Lemma normalize_plain sans : forallb plain sans = true -> normalizeSANs sans = List.filter (fun s => negb (str_eqb s "")) sans.
Proof.
  unfold normalizeSANs; induction sans as [|s sans IH]; cbn; [reflexivity|]; intros H; apply andb_true_iff in H as [H1 H2].
  rewrite trim_plain by exact H1; rewrite IH by exact H2; reflexivity.
Qed.

Lemma lines_unlines l : forallb plain l = true -> forallb (fun s => negb (str_eqb s "")) l = true -> lines_of (text_in (unlines l)) = l.
Proof.
  unfold lines_of, unlines, text_in; cbn [flat_map]; rewrite app_nil_r; intros H1 H2.
  assert (E : forall l, forallb plain l = true -> forallb (fun s => negb (str_eqb s "")) l = true ->
    List.filter (fun l => negb (str_eqb l "")) (map (fun l => text (TrimSpace l)) (split_byte 10 (flat_map (fun s => chars s ++ [10]) l))) = l).
  { clear; induction l as [|s l IH]; [reflexivity|]; cbn [forallb flat_map]; intros H1 H2; apply andb_true_iff in H1 as [H1 H1'], H2 as [H2 H2'].
    rewrite <- app_assoc; cbn [app]; rewrite split_byte_app by (apply plain_no_newline, H1); cbn [map List.filter].
    rewrite trim_plain, H2, IH by assumption; reflexivity. }
  destruct l as [|s l]; [reflexivity|]; rewrite app_nil_r; apply E; assumption.
Qed.

Lemma sets_equal a b : stringSetsEqual a b = true <-> a ≡ₚ b.
Proof.
  unfold stringSetsEqual; split; intros H.
  - apply andb_true_iff in H as [_ H]; apply bool_decide_eq_true in H.
    rewrite <- (merge_sort_Permutation key_le a), <- (merge_sort_Permutation key_le b), H; reflexivity.
  - rewrite (Permutation_length H), Nat.eqb_refl; cbn; apply bool_decide_eq_true.
    assert (Transitive key_le) by (intros x y z; apply key_le_trans).
    assert (AntiSymm (=) key_le) by (intros x y; apply key_le_antisym).
    assert (Total key_le) by (intros x y; apply key_le_total).
    apply (Sorted_unique key_le); [apply (Sorted_merge_sort key_le)..|].
    rewrite !(merge_sort_Permutation key_le); exact H.
Qed.

Lemma sets_refl a : stringSetsEqual a a = true.
Proof. apply sets_equal; reflexivity. Qed.

(** ** The invariant *)

(** The files that the invariant speaks of. *)
Definition protected : list string :=
  [ServerCertPath; ServerKeyPath; CACertPath; CAKeyPath; LocalClientCert; LocalClientKey; pkiModeFile; pkiSANsFile; pkiStepCAURLFile; pkiStepCARootsFile].

Definition agree (f f' : files) : Prop := forall p, p ∈ protected -> f' !! p = f !! p.

Definition sound_auto (f : files) : Prop :=
  exists leaf ca names, pair_ok f leaf /\ ca_ok f ca /\ c_issuer leaf = c_key ca /\ sans_of f = Some names /\ certSANsMatch leaf names = true.
Definition sound_step (f : files) : Prop :=
  exists leaf u, pair_ok f leaf /\ url_of f = Some u /\ c_issuer leaf = ca_identity u /\ is_Some (roots_of f).

Record sound (f : files) : Prop := {
  so_auto : mode_of f = pkiModeAuto -> sound_auto f;
  so_step : mode_of f = pkiModeStepCA -> sound_step f;
  so_local : mode_of f = pkiModeAuto \/ mode_of f = pkiModeStepCA ->
    is_Some (f !! CACertPath) /\ is_Some (f !! CAKeyPath) /\ is_Some (f !! LocalClientCert) /\ is_Some (f !! LocalClientKey) }.

Lemma sound_agree f f' : agree f f' -> sound f -> sound f'.
Proof.
  intros Ha [H1 H2 H3].
  assert (E : forall p, bool_decide (p ∈ protected) = true -> f' !! p = f !! p) by (intros p Hp; apply Ha, (bool_decide_eq_true_1 _ Hp)).
  assert (Em : mode_of f' = mode_of f) by (unfold mode_of; rewrite E by reflexivity; reflexivity).
  split; rewrite Em; unfold sound_auto, sound_step, pair_ok, ca_ok, cert_at, key_at, sans_of, url_of, roots_of in *;
    rewrite !E by reflexivity; assumption.
Qed.

Lemma agree_refl f : agree f f.
Proof. intros ? ?; reflexivity. Qed.

Lemma agree_trans f g h : agree f g -> agree g h -> agree f h.
Proof. intros H1 H2 p Hp; rewrite H2, H1; auto. Qed.

Lemma agree_insert f g p c : agree f g -> bool_decide (p ∈ protected) = false -> agree f (<[p := c]> g).
Proof.
  intros H Hp q Hq; rewrite lookup_insert_ne; [apply H, Hq|intros ->; apply bool_decide_eq_false in Hp; auto].
Qed.

(** What a start that succeeds leaves. *)
Definition ready (sans : list string) (stepCA : option StepCAConfig) (now : Time) (f : files) : Prop :=
  exists leaf, cert_at f ServerCertPath = Some leaf /\ key_at f ServerKeyPath = Some (c_key leaf) /\ sans_of f = Some (normalizeSANs sans) /\
  match uses_step_ca stepCA with
  | None => mode_of f = pkiModeAuto /\ still_fresh leaf now = true /\ certSANsMatch leaf (normalizeSANs sans) = true /\
            exists ca, cert_at f CACertPath = Some ca /\ key_at f CAKeyPath = Some (c_key ca) /\ c_issuer leaf = c_key ca
  | Some s => mode_of f = pkiModeStepCA /\ c_issuer leaf = ca_identity (ca_url (sc_URL s)) /\ (still_fresh leaf now = true \/ obtained s leaf now) /\
              url_of f = Some (ca_url (sc_URL s)) /\
              exists root names, f !! sc_RootPath s = Some root /\ roots_of f = Some names /\ names ≡ₚ certIdentities root
  end.

(** A file outside the certs directory. *)
Definition external (p : string) : bool := String.prefix "/" p.

(** What the records can carry: visible characters. *)
Definition plain_start (sans : list string) (stepCA : option StepCAConfig) (validity : Z) : Prop :=
  forallb plain sans = true /\ lasting validity /\
  match stepCA with Some s => plain (ca_url (sc_URL s)) = true /\ external (sc_RootPath s) = true | None => True end.

Lemma wp_append p c post f : post (Done tt) (<[p := default [] (f !! p) ++ c]> f) -> wp (append_file p c) post f.
Proof. intros H s; cbn; auto. Qed.

Lemma normalize_lines sans : forallb plain sans = true -> lines_of (text_in (unlines (normalizeSANs sans))) = normalizeSANs sans.
Proof.
  intros H; rewrite normalize_plain by exact H; apply lines_unlines; apply forallb_forall; intros s [Hs Hn]%filter_In; [|exact Hn].
  rewrite forallb_forall in H; auto.
Qed.

Lemma sans_written sans f : forallb plain sans = true -> sans_of (<[pkiSANsFile := unlines (normalizeSANs sans)]> f) = Some (normalizeSANs sans).
Proof. intros H; unfold sans_of; rewrite lookup_insert_eq; cbn [option_map]; rewrite normalize_lines by exact H; reflexivity. Qed.

Lemma issued_match cn k i sans v now srv : certSANsMatch (issued_cert cn k i sans v now srv) (normalizeSANs sans) = true.
Proof. unfold certSANsMatch; cbn; rewrite !sets_refl; reflexivity. Qed.

Lemma issued_fresh cn k i sans v now srv : lasting v -> still_fresh (issued_cert cn k i sans v now srv) now = true.
Proof.
  unfold lasting, still_fresh, issued_cert, lifetime, Sub, whole, Day, Minute, Second; cbn [c_NotAfter c_NotBefore]; intros Hv; apply Z.ltb_lt.
  set (l := if v <=? 0 then _ else v); assert (Hl : 2000000000 < l < 9223372036854775808) by (subst l; destruct (v <=? 0) eqn:E; lia).
  pose proof (Z.div_mod now 1000000000 ltac:(lia)); pose proof (Z.mod_pos_bound now 1000000000 ltac:(lia)).
  pose proof (Z.div_mod (now + l) 1000000000 ltac:(lia)); pose proof (Z.mod_pos_bound (now + l) 1000000000 ltac:(lia)).
  Z.to_euclidean_division_equations; lia.
Qed.

End files_say.

(** Reads a record back from a file system with insertions. *)
Ltac look := unfold pair_ok, ca_ok, cert_at, key_at, mode_of, sans_of, url_of, roots_of;
  repeat first [rewrite lookup_insert_eq|rewrite lookup_insert_ne by discriminate].

Section start.
Context `{W : PKIWorld}.
Notation files := (gmap string content).

(** The material of a mode, from what is in the files. *)
Lemma auto_ready sans stepCA v now f k kc ca : uses_step_ca stepCA = None -> lasting v ->
  cert_at f ServerCertPath = Some (issued_cert "server" k kc sans v now true) -> key_at f ServerKeyPath = Some k ->
  cert_at f CACertPath = Some ca -> key_at f CAKeyPath = Some kc -> c_key ca = kc ->
  mode_of f = pkiModeAuto -> sans_of f = Some (normalizeSANs sans) -> ready sans stepCA now f.
Proof.
  intros Hu Hv H1 H2 H3 H4 <- H5 H6; eexists; split; [exact H1|]; rewrite Hu.
  split; [exact H2|split; [exact H6|split; [exact H5|split; [apply issued_fresh, Hv|split; [apply issued_match|eauto]]]]].
Qed.

Lemma ready_auto_sound sans stepCA now f : uses_step_ca stepCA = None -> ready sans stepCA now f ->
  is_Some (f !! LocalClientCert) -> is_Some (f !! LocalClientKey) -> sound f.
Proof.
  intros Hu (leaf & H1 & H2 & H3 & H4) L1 L2; rewrite Hu in H4; destruct H4 as (Hm & _ & Hs & ca & C1 & C2 & Hi).
  split; rewrite Hm; [|discriminate|].
  - intros _; exists leaf, ca, (normalizeSANs sans); unfold pair_ok, ca_ok; auto.
  - intros _; unfold cert_at, key_at in C1, C2; destruct (f !! CACertPath), (f !! CAKeyPath); try discriminate; eauto.
Qed.

Lemma ready_step_sound sans stepCA s now f : uses_step_ca stepCA = Some s -> ready sans stepCA now f ->
  is_Some (f !! CACertPath) -> is_Some (f !! CAKeyPath) -> is_Some (f !! LocalClientCert) -> is_Some (f !! LocalClientKey) -> sound f.
Proof.
  intros Hu (leaf & H1 & H2 & H3 & H4) L1 L2 L3 L4; rewrite Hu in H4; destruct H4 as (Hm & Hi & _ & Hurl & root & names & _ & Hr & _).
  split; rewrite Hm; [discriminate| |auto].
  intros _; exists leaf, (ca_url (sc_URL s)); unfold pair_ok; split_and!; auto; rewrite Hr; eauto.
Qed.

(** What a start promises: if it succeeds; that it succeeds. *)
Definition started (sans : list string) (stepCA : option StepCAConfig) (now : Time) (r : res unit) (f : files) : Prop :=
  sound f /\ (r = Done tt -> ready sans stepCA now f).
Definition completed (sans : list string) (stepCA : option StepCAConfig) (now : Time) (r : res unit) (f : files) : Prop :=
  r = Done tt /\ sound f /\ ready sans stepCA now f.

Lemma autogen_wp sans stepCA v now f : uses_step_ca stepCA = None -> forallb plain sans = true -> lasting v ->
  wp (ensurePKIAutoGen sans v now) (completed sans stepCA now) f.
Proof.
  intros Hu Hs Hv; unfold ensurePKIAutoGen, InitCA.
  apply wp_bind, wp_bind, wp_fresh; intros kc; apply wp_bind, wp_make_dir, wp_bind, wp_write, wp_write; cbn [after].
  apply wp_bind, LoadCA_wp; [|look; intros w [H|H]; discriminate].
  look; cbn [pem_blocks List.filter]; intros ca k [= <-] [= <-]; cbn [after fst snd].
  apply wp_bind, IssueCert_wp; [intros ks _|cbn; congruence]; cbn [after].
  apply wp_bind, IssueCert_wp; [intros kl _|cbn; congruence]; cbn [after].
  apply wp_bind, wp_bind, wp_write, wp_bind, wp_read; [intros x _|look; discriminate]; cbn [after]; apply wp_append; cbn [after].
  apply wp_bind, wp_bind, wp_fresh; intros kj; apply wp_bind, wp_make_dir, wp_bind, wp_write, wp_write; cbn [after].
  apply wp_bind, wp_ignore, wp_write; cbn [after]; apply wp_ignore, wp_write.
  set (f' := <[pkiSANsFile := _]> _); split; [reflexivity|].
  assert (Hr : ready sans stepCA now f').
  { eapply (auto_ready sans stepCA v now f' ks kc); subst f'; try (apply sans_written, Hs); try (look; reflexivity); auto. }
  split; [|exact Hr]; eapply ready_auto_sound; [exact Hu|exact Hr|..]; subst f'; look; eauto.
Qed.

(** ** The Step CA's records *)

Lemma ext_insert (f : files) p q c : external p = true -> external q = false -> <[q := c]> f !! p = f !! p.
Proof. intros Hp Hq; apply lookup_insert_ne; intros ->; congruence. Qed.

Lemma dedup_sub seen l x : x ∈ dedup seen l -> x ∈ l.
Proof. revert seen; induction l as [|y l IH]; intros seen; cbn; [auto|]; destruct (bool_decide _); rewrite ?elem_of_cons; intuition eauto. Qed.

Lemma ids_plain root x : x ∈ certIdentities root -> plain x = true /\ x <> "".
Proof.
  unfold certIdentities; destruct (dedup [] _) as [|y l] eqn:E.
  - destruct (blank_content root); [intros H; apply elem_of_nil in H; done|]; intros H; apply list_elem_of_singleton in H as ->; split; [|discriminate].
    pose proof (raw_plain root) as Hr; unfold plain in *; rewrite (chars_app "raw:" (raw_fingerprint root)), forallb_app, Hr; reflexivity.
  - intros H; rewrite <- E in H; apply dedup_sub, list_elem_of_fmap in H as (c & -> & _); apply fingerprint_plain.
Qed.

Lemma ids_lines root : let l := merge_sort key_le (certIdentities root) in lines_of (text_in (unlines l)) = l.
Proof.
  intros l; assert (Hl : forall x, x ∈ l -> plain x = true /\ x <> "").
  { intros x Hx; apply (ids_plain root); unfold l in Hx; rewrite (merge_sort_Permutation key_le) in Hx; exact Hx. }
  apply lines_unlines; apply forallb_forall; intros x Hx; apply list_elem_of_In, Hl in Hx as [H1 H2]; [exact H1|].
  apply str_eqb_neq in H2; rewrite H2; reflexivity.
Qed.

Definition url_line (s : StepCAConfig) : content := [BText (chars (ca_url (sc_URL s)) ++ [10])].
Definition root_lines (root : content) : content := unlines (merge_sort key_le (certIdentities root)).

Lemma url_read s : plain (ca_url (sc_URL s)) = true -> text (TrimSpace (text_in (url_line s))) = ca_url (sc_URL s).
Proof. intros H; unfold url_line, text_in; cbn [flat_map]; rewrite app_nil_r, TrimSpace_line by exact H; apply text_chars. Qed.

Lemma record_wp s post f : external (sc_RootPath s) = true ->
  (forall root, f !! sc_RootPath s = Some root -> post (Done tt) (<[pkiStepCARootsFile := root_lines root]> (<[pkiStepCAURLFile := url_line s]> f))) ->
  (forall w, f !! sc_RootPath s = None -> post (Failed w) (<[pkiStepCAURLFile := url_line s]> f)) -> wp (recordStepCAIdentity s) post f.
Proof.
  intros Hx H1 H2; unfold recordStepCAIdentity; apply wp_bind, wp_write; cbn [after]; apply wp_bind, wp_read; rewrite ext_insert by (auto; reflexivity); cbn [after].
  - intros root E; apply wp_write; exact (H1 root E).
  - auto.
Qed.

Lemma step_ready sans stepCA s now f leaf root : uses_step_ca stepCA = Some s -> plain (ca_url (sc_URL s)) = true ->
  cert_at f ServerCertPath = Some leaf -> key_at f ServerKeyPath = Some (c_key leaf) -> mode_of f = pkiModeStepCA ->
  sans_of f = Some (normalizeSANs sans) -> c_issuer leaf = ca_identity (ca_url (sc_URL s)) -> still_fresh leaf now = true \/ obtained s leaf now ->
  f !! pkiStepCAURLFile = Some (url_line s) -> f !! pkiStepCARootsFile = Some (root_lines root) -> f !! sc_RootPath s = Some root ->
  ready sans stepCA now f.
Proof.
  intros Hu Hp H1 H2 H3 H4 H5 H6 H7 H8 H9; exists leaf; rewrite Hu; split_and!; auto.
  - unfold url_of; rewrite H7; cbn [option_map]; rewrite url_read by exact Hp; reflexivity.
  - exists root, (merge_sort key_le (certIdentities root)); split_and!; auto; [|apply merge_sort_Permutation].
    unfold roots_of; rewrite H8; cbn [option_map]; unfold root_lines; rewrite ids_lines; reflexivity.
Qed.

Lemma stepgen_wp sans stepCA s now f : uses_step_ca stepCA = Some s -> forallb plain sans = true -> plain (ca_url (sc_URL s)) = true ->
  external (sc_RootPath s) = true -> sound f ->
  wp (ensurePKIStepCA sans s now) (fun r f' => sound f' /\ (r = Done tt -> ready sans stepCA now f')) f.
Proof.
  intros Hu Hs Hp Hx Hf; unfold ensurePKIStepCA; destruct (str_eqb _ ""); [apply wp_failed; split; [exact Hf|discriminate]|].
  apply wp_bind, wp_bind, wp_read; [intros root Eroot|intros w _; split; [exact Hf|discriminate]]; cbn [after]; apply wp_write; cbn [after].
  set (f1 := <[CABundlePath := root]> f); assert (Hf1 : sound f1) by (eapply sound_agree, Hf; apply agree_insert; [apply agree_refl|reflexivity]).
  apply wp_bind; eapply wp_mono; [apply request_wp|]; intros [u|w|] f2; cbn [requested after];
    [|intros ->; split; [exact Hf1|discriminate]..]; intros (leaf & l & -> & Ho); subst f1.
  unfold InitCA; apply wp_bind, wp_bind, wp_fresh; intros kc; apply wp_bind, wp_make_dir, wp_bind, wp_write, wp_write; cbn [after].
  apply wp_bind, LoadCA_wp; [|look; intros w [H|H]; discriminate].
  look; cbn [pem_blocks List.filter]; intros ca k [= <-] [= <-]; cbn [after fst snd].
  apply wp_bind, IssueCert_wp; [intros kl _|cbn; congruence]; cbn [after].
  apply wp_bind, wp_bind, wp_append, wp_bind, wp_read; [intros x _|look; discriminate]; cbn [after]; apply wp_append; cbn [after].
  apply wp_bind, wp_bind, wp_fresh; intros kj; apply wp_bind, wp_make_dir, wp_bind, wp_write, wp_write; cbn [after].
  apply wp_bind, wp_ignore, wp_write; cbn [after]; apply wp_bind, wp_ignore, wp_write; cbn [after].
  apply record_wp; [exact Hx| |].
  - intros root' Er; set (f' := <[pkiStepCARootsFile := _]> _).
    assert (root' = root) as -> by (rewrite !ext_insert in Er by (auto; reflexivity); congruence).
    assert (Hr : ready sans stepCA now f').
    { eapply (step_ready sans stepCA s now f' leaf root); subst f'; auto; try (look; reflexivity).
      - look; cbn [option_map]; rewrite normalize_lines by exact Hs; reflexivity.
      - eapply obtained_issuer, Ho.
      - rewrite !ext_insert by (auto; reflexivity); exact Eroot. }
    split; [|auto]; eapply ready_step_sound; [exact Hu|exact Hr|..]; subst f'; look; eauto.
  - intros w Er; rewrite !ext_insert in Er by (auto; reflexivity); congruence.
Qed.
(** ** Kept material *)

Lemma matches_perm leaf a b : a ≡ₚ b -> certSANsMatch leaf a = true -> certSANsMatch leaf b = true.
Proof.
  intros H; unfold certSANsMatch; rewrite !andb_true_iff, !sets_equal; unfold want_DNS, want_IPs; intros [H1 H2]; split.
  - rewrite H1; clear -H; induction H; cbn; repeat case_match; auto; try (econstructor; eauto); etransitivity; eauto.
  - rewrite H2; apply omap_Permutation, H.
Qed.

Lemma read_text_wp p post f : post (Done (option_map text_in (f !! p))) f -> wp (read_text p) post f.
Proof. intros H; apply wp_bind, wp_attempt, wp_read; [intros c E|intros w E]; cbn; apply wp_done; rewrite E in H; exact H. Qed.

Lemma names_wp post f : post (Done (sans_of f)) f -> wp readPKISANs post f.
Proof. intros H; apply wp_bind, read_text_wp; cbn; apply wp_done; unfold sans_of in H; destruct (f !! pkiSANsFile); exact H. Qed.

Lemma roots_wp post f : post (Done (roots_of f)) f -> wp readStepCARoots post f.
Proof. intros H; apply wp_bind, read_text_wp; cbn; apply wp_done; unfold roots_of in H; destruct (f !! pkiStepCARootsFile); exact H. Qed.

Lemma mode_wp post f : post (Done (mode_of f)) f -> wp readPKIMode post f.
Proof. intros H; apply wp_bind, read_text_wp; cbn; apply wp_done; unfold mode_of in H; destruct (f !! pkiModeFile); exact H. Qed.

(** The names that were asked for last are known: the certificate itself is not looked at. *)
Lemma moved_wp sans stepCA names post f : sans_of f = Some names -> post (Done (negb (stringSetsEqual names (normalizeSANs sans)))) f ->
  wp (pkiRequestedSANsChanged sans stepCA) post f.
Proof. intros E H; apply wp_bind, names_wp; cbn; rewrite E; apply wp_done, H. Qed.

Definition locals (f : files) : Prop := is_Some (f !! CACertPath) /\ is_Some (f !! CAKeyPath) /\ is_Some (f !! LocalClientCert) /\ is_Some (f !! LocalClientKey).

(** A new certificate from the local CA, and the names recorded. *)
Lemma reissue_auto sans stepCA v now f : uses_step_ca stepCA = None -> forallb plain sans = true -> lasting v ->
  mode_of f = pkiModeAuto -> sound f ->
  wp (renewServerCertAutoGen sans v now) (fun r f1 => wp (ignore (writePKISANs sans)) (completed sans stepCA now) f1 /\ r = Done tt) f.
Proof.
  intros Hu Hs Hv Hm Hf; destruct (so_auto f Hf Hm) as (leaf & ca & names & _ & [C1 C2] & _); destruct (so_local f Hf (or_introl Hm)) as (_ & _ & L1 & L2).
  apply wp_bind, LoadCA_wp; [|intros w [H|H]; congruence]; intros ca' k E1 E2; cbn [after fst snd].
  rewrite C1 in E1; injection E1 as <-; rewrite C2 in E2; injection E2 as <-.
  apply IssueCert_wp; [intros ks _|congruence]; split; [|reflexivity]; apply wp_ignore, wp_write; set (f' := <[pkiSANsFile := _]> _).
  assert (Hr : ready sans stepCA now f').
  { eapply (auto_ready sans stepCA v now f' ks (c_key ca) ca); subst f'; try (apply sans_written, Hs); auto.
    all: revert Hm C1 C2; look; auto. }
  split; [reflexivity|split; [|exact Hr]]; eapply ready_auto_sound; [exact Hu|exact Hr|..]; subst f'; look; assumption.
Qed.

Lemma reuse_auto sans stepCA v now f : uses_step_ca stepCA = None -> forallb plain sans = true -> lasting v ->
  mode_of f = pkiModeAuto -> sound f -> wp (reuse_pki sans stepCA v now) (completed sans stepCA now) f.
Proof.
  intros Hu Hs Hv Hm Hf; destruct (so_auto f Hf Hm) as (leaf & ca & names & [P1 P2] & [C1 C2] & Hi & En & Hn).
  unfold reuse_pki; rewrite Hu; apply wp_bind, wp_done; cbn [after]; apply wp_bind, wp_done; cbn [after].
  apply wp_bind; eapply moved_wp; [exact En|]; cbn [after]; apply wp_bind.
  assert (Hnew : wp (renewServerCertAutoGen sans v now) (after (fun _ => ignore (writePKISANs sans)) (completed sans stepCA now)) f).
  { eapply wp_mono; [apply (reissue_auto sans stepCA v now f Hu Hs Hv Hm Hf)|]; intros r f1 [H ->]; exact H. }
  destruct (stringSetsEqual names (normalizeSANs sans)) eqn:Es; cbn [negb]; [|unfold reissueServerCertMaterial; rewrite Hu; exact Hnew].
  unfold ensureServerCertFresh, RenewServerCertMaterial; rewrite Hu.
  apply wp_bind, wp_attempt, LoadCert_wp; [intros c Ec|intros w Ec; congruence]; cbn [after].
  rewrite P1 in Ec; injection Ec as <-; destruct (_ <=? 0); [exact Hnew|]; destruct (still_fresh leaf now) eqn:Ef; [|exact Hnew].
  apply wp_done; cbn [after]; apply wp_ignore, wp_write; set (f' := <[pkiSANsFile := _]> _).
  assert (Hr : ready sans stepCA now f').
  { exists leaf; rewrite Hu; subst f'; rewrite sans_written by exact Hs; revert P1 P2 C1 C2 Hm; look; intros P1 P2 C1 C2 Hm.
    split_and!; auto; [|eauto]; eapply matches_perm; [apply sets_equal, Es|exact Hn]. }
  split; [reflexivity|split; [|exact Hr]]; destruct (so_local f Hf (or_introl Hm)) as (_ & _ & L1 & L2).
  eapply ready_auto_sound; [exact Hu|exact Hr|..]; subst f'; look; assumption.
Qed.

(** ** A Step CA that did not change *)

Lemma changed_wp s u post f : external (sc_RootPath s) = true -> url_of f = Some u -> is_Some (roots_of f) ->
  (forall root b, f !! sc_RootPath s = Some root -> (b = false -> u = ca_url (sc_URL s)) -> post (Done b) f) ->
  (forall w, post (Failed w) f) -> wp (stepCAChanged s) post f.
Proof.
  intros Hx Eu [names Er] H1 H2; apply wp_bind, wp_read; [intros root Ec|intros w _; apply H2]; cbn [after].
  apply wp_bind, wp_bind, roots_wp; rewrite Er; cbn [after]; apply wp_done; cbn [after].
  destruct (stringSetsEqual _ _); cbn [negb]; [|apply wp_done; eapply H1; [exact Ec|discriminate]].
  apply wp_bind, wp_bind, wp_exists; unfold url_of in Eu; destruct (f !! pkiStepCAURLFile) as [c|] eqn:E; [|discriminate].
  injection Eu as <-; cbn [after]; change (bool_decide (is_Some (Some c))) with true; cbn [negb].
  apply wp_bind, wp_read; rewrite E; [intros ? [= <-]|discriminate]; cbn [after]; apply wp_done; cbn [after]; apply wp_done.
  eapply H1; [exact Ec|]; intros Hb; apply negb_false_iff, str_eqb_eq in Hb; exact Hb.
Qed.

(** The server's pair is replaced by one that the Step CA issued, or nothing changes. *)
Definition replaced (s : StepCAConfig) (now : Time) (f : files) (r : res unit) (f' : files) : Prop :=
  match r with
  | Done _ => exists leaf, cert_at f' ServerCertPath = Some leaf /\ key_at f' ServerKeyPath = Some (c_key leaf) /\ obtained s leaf now /\
                forall p, p <> ServerCertPath -> p <> ServerKeyPath -> f' !! p = f !! p
  | _ => f' = f
  end.

Lemma unattended_wp s sans now f : wp (unattended s sans ServerCertPath ServerKeyPath now) (replaced s now f) f.
Proof.
  unfold unattended; destruct (_ && _); [apply wp_failed; reflexivity|]; eapply wp_mono; [apply request_wp|].
  intros [u|w|] f1; cbn; auto; intros (leaf & l & -> & Ho); exists leaf; split_and!; auto; [look; reflexivity..|].
  intros p P1 P2; rewrite !lookup_insert_ne; auto.
Qed.

Lemma renew_step_wp s sans now f old : pair_ok f old -> wp (renewServerCertStepCA ServerCertPath ServerKeyPath sans s now) (replaced s now f) f.
Proof.
  intros [E1 E2]; apply wp_bind, wp_attempt; eapply wp_mono; [apply (renew_mtls_wp _ _ _ _ _ old E1 E2)|]; intros [u|w|] f1; cbn [after].
  - intros (leaf & l & Ek & -> & Ho); apply wp_done; exists leaf; revert E2; look; rewrite Ek; intros E2; split_and!; auto.
    intros p P1 P2; rewrite lookup_insert_ne; auto.
  - intros ->; apply unattended_wp.
  - auto.
Qed.

(** Everything but the pair and the names is on disk. *)
Record step_base (s : StepCAConfig) (root : content) (f : files) : Prop := {
  sb_locals : locals f;
  sb_mode : mode_of f = pkiModeStepCA;
  sb_url : f !! pkiStepCAURLFile = Some (url_line s);
  sb_roots : f !! pkiStepCARootsFile = Some (root_lines root);
  sb_root : f !! sc_RootPath s = Some root }.

Lemma base_same s root f f' : external (sc_RootPath s) = true -> step_base s root f ->
  (forall p, p <> ServerCertPath -> p <> ServerKeyPath -> f' !! p = f !! p) -> step_base s root f'.
Proof.
  intros Hx [B1 B2 B3 B4 B5] H.
  assert (E : forall p, bool_decide (p = ServerCertPath \/ p = ServerKeyPath) = false -> f' !! p = f !! p)
    by (intros p E; apply bool_decide_eq_false in E; apply H; tauto).
  split; unfold locals, mode_of; rewrite ?(E pkiModeFile), ?(E CACertPath), ?(E CAKeyPath),
      ?(E LocalClientCert), ?(E LocalClientKey), ?(E pkiStepCAURLFile), ?(E pkiStepCARootsFile) by reflexivity; auto.
  rewrite H; [exact B5|intros X; rewrite X in Hx; discriminate..].
Qed.

(** Installing without a fault: the staged files take their places. *)
Lemma install_wp post f : (forall n, n ∈ generation -> is_Some (f !! n) /\ is_Some (f !! (STAGING +:+ n))) ->
  (forall f', (forall n, n ∈ generation -> f' !! n = f !! (STAGING +:+ n)) ->
     (forall p, p ∉ generation -> inside BACKUP p = false -> inside STAGING p = false -> f' !! p = f !! p) -> post (Done tt) f') ->
  wp installStepCAGeneration post f.
Proof.
  intros H Hpost.
  assert (G : forall n, bool_decide (n ∈ generation) = true -> is_Some (f !! n) /\ is_Some (f !! (STAGING +:+ n))) by (intros n E; apply H, (bool_decide_eq_true_1 _ E)).
  destruct (G ServerCertPath eq_refl) as [[c Hc] [c' Hc']], (G ServerKeyPath eq_refl) as [[k Hk] [k' Hk']], (G CABundlePath eq_refl) as [[b Hb] [b' Hb']].
  apply wp_bind, wp_make_dir; cbn [after]; apply wp_bind; unfold generation; cbn [install_each].
  repeat first [apply wp_bind, wp_attempt, wp_rename; repeat first [rewrite lookup_insert_eq|rewrite lookup_insert_ne by discriminate|rewrite lookup_delete_ne by discriminate];
    [intros ? Hx; cbn [after]; first [rewrite Hc in Hx|rewrite Hc' in Hx|rewrite Hk in Hx|rewrite Hk' in Hx|rewrite Hb in Hx|rewrite Hb' in Hx]; injection Hx as <-|intros; congruence]].
  apply wp_done; cbn [after]; apply wp_remove_all, Hpost.
  - intros n Hn; assert (n = ServerCertPath \/ n = ServerKeyPath \/ n = CABundlePath) as Hn' by (revert Hn; unfold generation; rewrite !elem_of_cons, elem_of_nil; tauto).
    destruct Hn' as [->|[->| ->]]; rewrite filter_outside by reflexivity;
      repeat first [rewrite lookup_insert_eq|rewrite lookup_insert_ne by discriminate|rewrite lookup_delete_ne by discriminate]; congruence.
  - intros p P1 P2 P3; rewrite filter_outside by exact P2; unfold generation in P1; rewrite !elem_of_cons, elem_of_nil in P1.
    repeat rewrite ?lookup_insert_ne, ?lookup_delete_ne; auto; try (intros <-; discriminate); intros <-; tauto.
Qed.

(** Only the staging directory differs; it is gone at the end. *)
Definition staged_only (f g : files) : Prop := forall p, inside STAGING p = false -> g !! p = f !! p.

Lemma staged_insert f g p c : staged_only f g -> staged_only f (<[STAGING +:+ p := c]> g).
Proof.
  intros H q Hq; rewrite lookup_insert_ne; [apply H, Hq|intros <-; unfold inside in Hq; rewrite prefix_append in Hq; discriminate].
Qed.

Lemma staged_agree f g : staged_only f g -> agree f g.
Proof.
  intros H p Hp; apply H; assert (E : forallb (fun p => negb (inside STAGING p)) protected = true) by reflexivity.
  rewrite forallb_forall in E; apply negb_true_iff, E, list_elem_of_In, Hp.
Qed.

Lemma staged_removed f g : staged_only f g -> staged_only f (filter (fun kv => inside STAGING kv.1 = false) g).
Proof. intros H p Hp; rewrite filter_outside by exact Hp; auto. Qed.

Lemma external_outside p : external p = true -> inside STAGING p = false /\ inside BACKUP p = false /\ p ∉ generation.
Proof.
  intros H; assert (p ∉ generation).
  { unfold generation; rewrite !elem_of_cons, elem_of_nil; intros [->|[->|[->|[]]]]; discriminate. }
  destruct p as [|b p]; [discriminate|]; destruct b as [[] [] [] [] [] [] [] []]; try discriminate; auto.
Qed.

Section step.
Context (sans : list string) (stepCA : option StepCAConfig) (s : StepCAConfig) (v now : Z).
Context (Hu : uses_step_ca stepCA = Some s) (Hs : forallb plain sans = true) (Hp : plain (ca_url (sc_URL s)) = true) (Hx : external (sc_RootPath s) = true).

Lemma base_sound root f leaf : step_base s root f -> pair_ok f leaf -> c_issuer leaf = ca_identity (ca_url (sc_URL s)) -> sound f.
Proof using Hp.
  intros [B1 B2 B3 B4 B5] P Hi; split; rewrite B2; [discriminate| |auto]; intros _; exists leaf, (ca_url (sc_URL s)).
  unfold url_of, roots_of; rewrite B3, B4; cbn [option_map]; rewrite url_read by exact Hp; eauto.
Qed.

(** The pair makes the start complete. *)
Lemma step_finish root f leaf : step_base s root f -> pair_ok f leaf -> c_issuer leaf = ca_identity (ca_url (sc_URL s)) ->
  still_fresh leaf now = true \/ obtained s leaf now -> wp (ignore (writePKISANs sans)) (started sans stepCA now) f.
Proof using Hu Hs Hp Hx.
  intros [(L1 & L2 & L3 & L4) Hm E1 E2 E3] [P1 P2] Hi Ho; apply wp_ignore, wp_write; set (f' := <[pkiSANsFile := _]> f).
  assert (Hr : ready sans stepCA now f').
  { eapply (step_ready sans stepCA s now f' leaf root); subst f'; auto; try (apply sans_written, Hs).
    all: revert P1 P2 Hm E1 E2; look; auto.
    intros; rewrite ext_insert by (auto; reflexivity); exact E3. }
  split; [|auto]; eapply ready_step_sound; [exact Hu|exact Hr|..]; subst f'; look; assumption.
Qed.

Lemma step_replaced root f leaf m : step_base s root f -> pair_ok f leaf -> c_issuer leaf = ca_identity (ca_url (sc_URL s)) -> wp m (replaced s now f) f ->
  wp m (after (fun _ => ignore (writePKISANs sans)) (started sans stepCA now)) f.
Proof using Hu Hs Hp Hx.
  intros B P Hi Hw; eapply wp_mono; [exact Hw|]; intros [x|w|] f3; cbn [after replaced];
    [|intros ->; split; [eapply base_sound; eassumption|discriminate]..].
  intros (leaf' & N1 & N2 & Ho & Hsame); eapply step_finish; [eapply base_same; eassumption|split; eassumption|eapply obtained_issuer, Ho|auto].
Qed.

Lemma moved_step post f : (forall b, post (Done b) f) -> wp (pkiRequestedSANsChanged sans stepCA) post f.
Proof using Hu.
  intros H; apply wp_bind, names_wp; cbn [after]; destruct (sans_of f); [apply wp_done, H|rewrite Hu; apply wp_done, H].
Qed.

Lemma unchanged_step f : mode_of f = pkiModeStepCA -> sound f -> url_of f = Some (ca_url (sc_URL s)) -> is_Some (f !! sc_RootPath s) ->
  wp (recordStepCAIdentity s;;; moved <-- pkiRequestedSANsChanged sans stepCA;;
      (if moved : bool then reissueServerCertMaterial sans stepCA v now else ensureServerCertFresh sans stepCA v now);;; ignore (writePKISANs sans))
    (started sans stepCA now) f.
Proof using Hu Hs Hp Hx.
  intros Hm Hf Eu [root0 Er0]; destruct (so_step f Hf Hm) as (leaf & u & [P1 P2] & Eu' & Hi & Hro); rewrite Eu in Eu'; injection Eu' as <-.
  pose proof (so_local f Hf (or_intror Hm)) as Hl; apply wp_bind, record_wp; [exact Hx| |intros; congruence].
  intros root Er; cbn [after]; set (f2 := <[pkiStepCARootsFile := _]> _).
  assert (P : pair_ok f2 leaf) by (subst f2; revert P1 P2; look; auto).
  assert (B : step_base s root f2).
  { subst f2; revert Hm Hl; split; unfold locals; look; auto; rewrite !ext_insert by (auto; reflexivity); exact Er. }
  clearbody f2; apply wp_bind, moved_step; intros b; cbn [after]; apply wp_bind.
  pose proof (step_replaced root f2 leaf _ B P Hi (unattended_wp s sans now f2)) as H1.
  pose proof (step_replaced root f2 leaf _ B P Hi (renew_step_wp s sans now f2 leaf P)) as H2.
  unfold reissueServerCertMaterial, ensureServerCertFresh, RenewServerCertMaterial; rewrite Hu; destruct b; [exact H1|].
  apply wp_bind, wp_attempt, LoadCert_wp; [intros c Ec|intros w Ec; exact H2]; cbn [after].
  rewrite (proj1 P) in Ec; injection Ec as <-; destruct (_ <=? 0); [exact H2|]; destruct (still_fresh leaf now) eqn:Ef; [|exact H2].
  apply wp_done; cbn [after]; eapply step_finish; eauto.
Qed.
(** The new generation is in place: recording it completes the switch. *)
Lemma switched f leaf root : locals f -> mode_of f = pkiModeStepCA -> f !! sc_RootPath s = Some root -> pair_ok f leaf -> obtained s leaf now ->
  wp (recordStepCAIdentity s) (fun r g => match r with
    | Crashed => started sans stepCA now Crashed g
    | _ => after (fun _ => ignore (writePKISANs sans)) (started sans stepCA now) r (filter (fun kv => inside STAGING kv.1 = false) g)
    end) f.
Proof using Hu Hs Hp Hx.
  intros Hl Hm Er P Ho; apply record_wp; [exact Hx| |intros; congruence].
  intros root' Er'; rewrite Er in Er'; injection Er' as <-; cbn [after]; set (f' := filter _ _).
  assert (E : forall p, inside STAGING p = false -> p <> pkiStepCAURLFile -> p <> pkiStepCARootsFile -> f' !! p = f !! p).
  { intros p H1 H2 H3; subst f'; rewrite filter_outside by exact H1; rewrite !lookup_insert_ne; auto. }
  apply (step_finish root f' leaf); [| |eapply obtained_issuer, Ho|auto].
  - split; unfold locals, mode_of; rewrite ?E by first [reflexivity|discriminate]; auto.
    1,2: subst f'; rewrite filter_outside by reflexivity; look; reflexivity.
    rewrite E; [exact Er|apply external_outside, Hx|intros X; rewrite X in Hx; discriminate..].
  - unfold pair_ok, cert_at, key_at; rewrite !E by first [reflexivity|discriminate]; exact P.
Qed.

Lemma switch_step f : mode_of f = pkiModeStepCA -> sound f -> is_Some (f !! CABundlePath) ->
  wp (switchStepCA sans s now;;; ignore (writePKISANs sans)) (started sans stepCA now) f.
Proof using Hu Hs Hp Hx.
  intros Hm Hf Hb; destruct (so_step f Hf Hm) as (leaf0 & u & [P1 P2] & _ & _ & Hro).
  pose proof (so_local f Hf (or_intror Hm)) as Hl; destruct Hl as ([ca Eca] & L2 & L3 & L4).
  assert (Hkeep : forall g r, staged_only f g -> r <> Done tt -> started sans stepCA now r g).
  { intros g r Hg Hr; split; [eapply sound_agree; [apply staged_agree, Hg|exact Hf]|intros; congruence]. }
  apply wp_bind, wp_bind, wp_make_dir; cbn [after].
  eapply (wp_deferred _ (fun x => filter (fun kv => inside STAGING kv.1 = false) x)); [reflexivity|].
  apply wp_bind, wp_bind, wp_read; [intros root Er|intros w _; apply Hkeep; [apply staged_removed; intros ? _; reflexivity|discriminate]]; cbn [after]; apply wp_write; cbn [after].
  apply wp_bind, wp_bind, wp_append; cbn [after]; apply wp_bind, wp_read; look; [|intros w E; congruence]; intros ca' _; cbn [after]; apply wp_append; cbn [after].
  apply wp_bind; eapply wp_mono; [apply request_wp|]; set (f1 := <[_ := _]> _).
  assert (A1 : staged_only f f1) by (subst f1; repeat apply staged_insert; intros ? _; reflexivity).
  assert (B1 : is_Some (f1 !! (STAGING +:+ CABundlePath))) by (subst f1; look; eauto); clearbody f1.
  intros [x|w|] f2; cbn [requested after]; [|intros ->; apply Hkeep; [apply staged_removed, A1|discriminate]|intros ->; apply Hkeep; [exact A1|discriminate]].
  intros (leaf & l & E2 & Ho).
  assert (A2 : staged_only f f2) by (rewrite E2; repeat apply staged_insert; exact A1).
  destruct (external_outside _ Hx) as (X1 & X2 & X3); apply wp_bind, install_wp.
  - intros n Hn; rewrite A2 by exact (proj2 (proj2 (proj2 generation_apart) n Hn)).
    assert (n = ServerCertPath \/ n = ServerKeyPath \/ n = CABundlePath) as Hn' by (revert Hn; unfold generation; rewrite !elem_of_cons, elem_of_nil; tauto).
    rewrite E2; unfold cert_at, key_at in P1, P2; destruct Hn' as [->|[->| ->]]; look; split; auto; [destruct (f !! ServerCertPath)|destruct (f !! ServerKeyPath)]; eauto; discriminate.
  - intros f3 I1 I2; cbn [after].
    assert (I : forall p, bool_decide (p ∉ generation) && negb (inside BACKUP p) && negb (inside STAGING p) = true -> f3 !! p = f !! p).
    { intros p [[Q1%bool_decide_eq_true Q2%negb_true_iff]%andb_true_iff Q3%negb_true_iff]%andb_true_iff; rewrite I2, A2; auto. }
    apply (switched f3 leaf root); auto.
    + unfold locals; rewrite !I by reflexivity; rewrite Eca; eauto.
    + unfold mode_of; rewrite I by reflexivity; exact Hm.
    + rewrite I2, A2; auto.
    + unfold pair_ok, cert_at, key_at; rewrite !I1 by (apply (bool_decide_unpack _); exact Logic.I); rewrite E2; look; auto.
Qed.

Lemma reuse_step f : mode_of f = pkiModeStepCA -> sound f -> is_Some (f !! CABundlePath) -> wp (reuse_pki sans stepCA v now) (started sans stepCA now) f.
Proof using Hu Hs Hp Hx.
  intros Hm Hf Hb; destruct (so_step f Hf Hm) as (leaf & u & P & Eu & Hi & Hro); unfold reuse_pki; rewrite Hu.
  apply wp_bind, (changed_wp s u); [exact Hx|exact Eu|exact Hro| |intros w; split; [exact Hf|discriminate]].
  intros root b Er Hb'; cbn [after]; destruct b; [apply switch_step; auto|].
  apply unchanged_step; [exact Hm|exact Hf|rewrite Eu, Hb'; auto|rewrite Er; eauto].
Qed.
End step.

(** ** Every start *)

Lemma exist_wp paths post f : "" ∉ paths -> (forall b, (b = true <-> Forall (fun p => is_Some (f !! p)) paths) -> post (Done b) f) -> wp (filesExist paths) post f.
Proof.
  revert post; induction paths as [|p paths IH]; intros post Hne H; cbn [filesExist]; [apply wp_done, H; split; auto|].
  apply not_elem_of_cons in Hne as [Hp Hne]; destruct (str_eqb p "") eqn:E; [apply str_eqb_eq in E; congruence|]; apply wp_bind, wp_exists; cbn [after].
  case_bool_decide as Ep; [apply IH; [exact Hne|]; intros b Hb; apply H; rewrite Hb, Forall_cons_iff; tauto|].
  apply wp_done, H; rewrite Forall_cons_iff; split; [discriminate|tauto].
Qed.

Lemma reusable_wp mode post f : (forall b, (b = true -> mode_of f = mode /\ is_Some (f !! CABundlePath)) -> post (Done b) f) -> wp (reusable mode) post f.
Proof.
  intros H; apply wp_bind, exist_wp; [apply (bool_decide_unpack _); exact I|]; intros b Hb; cbn [after]; destruct b; cbn [negb]; [|apply wp_done, H; discriminate].
  apply wp_bind, mode_wp; cbn [after]; apply wp_done, H; intros E; apply str_eqb_eq in E; split; [exact E|].
  exact (Forall_inv (proj1 Hb eq_refl)).
Qed.

Lemma start_wp sans stepCA v now f : plain_start sans stepCA v -> sound f -> wp (EnsurePKI sans stepCA v now) (fun r f' => started sans stepCA now r f' /\ (uses_step_ca stepCA = None -> r = Done tt)) f.
Proof.
  intros (Hs & Hv & Hc) Hf; destruct (uses_step_ca stepCA) as [s|] eqn:Hu.
  - eapply (wp_mono _ (started sans stepCA now)); [|intros r f' H; split; [exact H|discriminate]]; apply wp_bind; rewrite Hu; apply reusable_wp; intros b Hb.
    assert (Hc' : plain (ca_url (sc_URL s)) = true /\ external (sc_RootPath s) = true).
    { destruct stepCA as [s'|]; [|discriminate]; unfold uses_step_ca in Hu; destruct (str_eqb _ _); [discriminate|]; injection Hu as <-; exact Hc. }
    cbn [after]; destruct Hc' as [Hp Hx], b; [destruct (Hb eq_refl); eapply reuse_step; eauto|].
    apply wp_bind, wp_make_dir; cbn [after]; apply stepgen_wp; auto.
  - eapply (wp_mono _ (completed sans stepCA now)); [|intros r f' (-> & H1 & H2); split; [split|]; auto].
    apply wp_bind; rewrite Hu; apply reusable_wp; intros b Hb; cbn [after]; destruct b; [apply reuse_auto; auto; apply Hb; reflexivity|].
    apply wp_bind, wp_make_dir; cbn [after]; apply (autogen_wp sans stepCA); auto.
Qed.
End start.
