(* ===== verification/PkiHistory.v ===== *)
(** * Certificates: histories of the certs directory

    Starts in any mode, the periodic renewal of the daemon that runs, client certificates,
    starts with external certificates and edits of the files outside, in any order, with a
    Step CA that may refuse at any time: a start that succeeds is ready (PkiStart).  The
    disk of a history has no faults; runs with faults are at the end of the file, and
    PkiSafety has the replacement of a generation under faults. *)

From S2P Require Import Prelude Types GoStd GoText Disk Pki PkiSafety PkiStart.

Local Open Scope io_scope.

Section history.
Context `{W : PKIWorld}.
Notation files := (gmap string content).

Record args := MkArgs { a_sans : list string; a_stepCA : option StepCAConfig; a_validity : Z }.

Inductive event :=
| Start (a : args) (now : Time)
| StartTLS (bundle : string) (now : Time)
| Check (now : Time)
| Client (name : string) (now : Time)
| Edit (path : string) (c : option content).

(** The files, the next key, and what the daemon that runs was started with. *)
Record world := MkWorld { w_files : files; w_seed : Z; w_running : option args }.

(** No operation of a history fails or is cut short. *)
Definition disk_of (w : world) : disk := MkDisk (w_files w) [] (w_seed w).

Definition with_disk (running : option args) (d : disk (C := content)) : world := MkWorld (d_files d) (d_seed d) running.

Definition happens (w : world) (e : event) : world :=
  match e with
  | Start a now =>
      let '(d, r) := EnsurePKI (a_sans a) (a_stepCA a) (a_validity a) now (disk_of w) in
      with_disk (match r with Done _ => Some a | _ => None end) d
  | StartTLS bundle now => with_disk None (fst (EnsureLocalManagementPKI bundle now (disk_of w)))
  | Check now =>
      match w_running w with
      | Some a => with_disk (Some a) (fst (checkAndRenew (a_sans a) (a_stepCA a) (a_validity a) now (disk_of w)))
      | None => w
      end
  | Client name now => with_disk (w_running w) (fst (IssueClientCert name now (disk_of w)))
  | Edit path c => MkWorld (match c with Some c => <[path := c]> (w_files w) | None => delete path (w_files w) end) (w_seed w) (w_running w)
  end.

Definition plain_args (a : args) : Prop := plain_start (a_sans a) (a_stepCA a) (a_validity a).

Definition plain_event (e : event) : Prop :=
  match e with Start a _ => plain_args a | Edit path _ => external path = true | _ => True end.

(** What the running daemon was started with is what the files are for. *)
Definition serves (a : args) (f : files) : Prop :=
  plain_args a /\
  match uses_step_ca (a_stepCA a) with
  | None => mode_of f = pkiModeAuto /\ sans_of f = Some (normalizeSANs (a_sans a))
  | Some s => mode_of f = pkiModeStepCA /\ url_of f = Some (ca_url (sc_URL s))
  end.

Definition good (w : world) : Prop := sound (w_files w) /\ forall a, w_running w = Some a -> serves a (w_files w).

Lemma ready_serves a now f : plain_args a -> ready (a_sans a) (a_stepCA a) now f -> serves a f.
Proof.
  intros Hp (leaf & _ & _ & Hs & H); split; [exact Hp|]; destruct (uses_step_ca _); destruct H as (Hm & H); [|auto].
  destruct H as (_ & _ & Hu & _); auto.
Qed.

Lemma serves_agree a f f' : agree f f' -> serves a f -> serves a f'.
Proof.
  intros Ha [Hp H]; split; [exact Hp|].
  assert (E : forall p, bool_decide (p ∈ protected) = true -> f' !! p = f !! p) by (intros p Hq; apply Ha, (bool_decide_eq_true_1 _ Hq)).
  unfold mode_of, sans_of, url_of in *; rewrite !E by reflexivity; exact H.
Qed.

Lemma agree_good w f seed : agree (w_files w) f -> good w -> good (MkWorld f seed (w_running w)).
Proof. intros Ha [H1 H2]; split; cbn; [eapply sound_agree; eauto|intros a E; eapply serves_agree; eauto]. Qed.

(** ** Client certificates and edits *)

Lemma clients_free x : bool_decide ("clients/" +:+ x ∈ protected) = false /\ bool_decide ("jwt-clients/" +:+ x ∈ protected) = false.
Proof. split; apply bool_decide_eq_false; unfold protected; rewrite !elem_of_cons, elem_of_nil; intros H; repeat destruct H as [H|H]; try discriminate; exact H. Qed.

Lemma client_wp name now f : wp (IssueClientCert name now) (fun _ f' => agree f f') f.
Proof.
  unfold IssueClientCert; destruct (negb _); [apply wp_failed, agree_refl|].
  apply wp_bind, LoadCA_wp; [intros ca k _ _|intros; apply agree_refl]; cbn [after].
  apply wp_bind, IssueCert_wp; [intros kc _|intros; apply agree_refl]; cbn [after]; unfold register_client, GenerateJWTKeypair, client_file, client_pub.
  apply wp_bind, wp_bind, wp_fresh; intros kj; apply wp_bind, wp_make_dir, wp_bind, wp_write, wp_write; cbn [after].
  apply wp_bind, wp_make_dir, wp_bind, wp_read; [intros pub _|intros w _]; cbn [after]; try apply wp_write.
  all: repeat (apply agree_insert; [|apply clients_free]); apply agree_refl.
Qed.

Lemma edit_agree f p c : external p = true -> agree f (match c with Some c => <[p := c]> f | None => delete p f end).
Proof.
  intros H q Hq; assert (p <> q).
  { intros ->; revert H; unfold protected in Hq; rewrite !elem_of_cons, elem_of_nil in Hq; repeat destruct Hq as [->|Hq]; try discriminate; destruct Hq. }
  destruct c; [apply lookup_insert_ne|apply lookup_delete_ne]; assumption.
Qed.

(** ** A start with external certificates *)

Lemma other_mode f : mode_of f <> pkiModeAuto -> mode_of f <> pkiModeStepCA -> sound f.
Proof. intros H1 H2; split; try congruence; intros [H|H]; congruence. Qed.

Lemma bundle_wp ext f : sound f -> wp (writeLocalManagementBundle ext;;; ignore (writePKIMode pkiModeTLS)) (fun _ f' => sound f') f.
Proof.
  intros Hf; apply wp_bind, wp_bind, wp_read; [intros b _|auto]; cbn [after]; apply wp_bind, wp_read; [intros ca _|auto]; cbn [after]; apply wp_write; cbn [after].
  apply wp_ignore, wp_write, other_mode; unfold mode_of; rewrite lookup_insert_eq; discriminate.
Qed.

Lemma tls_wp ext now f : sound f -> wp (EnsureLocalManagementPKI ext now) (fun _ f' => sound f') f.
Proof.
  intros Hf; unfold EnsureLocalManagementPKI.
  assert (Hrest : forall f', sound f' -> wp (e <-- filesExist [JWTSigningKey; JWTSigningPub];;
    (if e : bool then done tt else GenerateJWTKeypair "jwt-signing");;; writeLocalManagementBundle ext;;; ignore (writePKIMode pkiModeTLS)) (fun _ f'' => sound f'') f').
  { intros f' Hf'; apply wp_bind, exist_wp; [apply (bool_decide_unpack _); exact I|]; intros [] _; cbn [after]; apply wp_bind.
    - apply wp_done; cbn [after]; apply bundle_wp; auto.
    - apply wp_bind, wp_fresh; intros k; apply wp_bind, wp_make_dir, wp_bind, wp_write, wp_write; cbn [after]; apply bundle_wp; auto.
      eapply sound_agree, Hf'; repeat (apply agree_insert; [|reflexivity]); apply agree_refl. }
  apply wp_bind, wp_make_dir; cbn [after]; apply wp_bind, exist_wp; [apply (bool_decide_unpack _); exact I|].
  intros b Hb; cbn [after]; destruct b; [apply wp_bind, wp_done; cbn [after]; apply Hrest, Hf|].
  assert (Hm : ~ (mode_of f = pkiModeAuto \/ mode_of f = pkiModeStepCA)).
  { intros Hm; enough (false = true) by discriminate; apply Hb; destruct (so_local f Hf Hm) as (? & ? & ? & ?); repeat constructor; assumption. }
  unfold InitCA; apply wp_bind, wp_bind, wp_bind, wp_fresh; intros kc; apply wp_bind, wp_make_dir, wp_bind, wp_write, wp_write; cbn [after].
  apply wp_bind, LoadCA_wp; [|look; intros w [H|H]; discriminate].
  look; cbn [pem_blocks List.filter]; intros ca k [= <-] [= <-]; cbn [after fst snd].
  apply IssueCert_wp; [intros kl _|cbn; congruence]; cbn [after]; apply Hrest, other_mode; revert Hm; look; tauto.
Qed.

(** ** The periodic check *)

Lemma check_wp a now f : sound f -> serves a f -> wp (checkAndRenew (a_sans a) (a_stepCA a) (a_validity a) now) (fun _ f' => sound f' /\ serves a f') f.
Proof.
  intros Hf Hsv; destruct Hsv as [(Hs & Hv & Hc) Hm] eqn:E; clear E.
  apply wp_bind, wp_attempt, LoadCert_wp; [intros c Ec|intros w _]; cbn [after]; [|apply wp_done; auto].
  destruct (still_fresh c now); [apply wp_done; auto|]; apply wp_ignore; unfold RenewServerCertMaterial.
  destruct (uses_step_ca (a_stepCA a)) as [s|] eqn:Hu.
  - destruct Hm as [Hm Eu]; destruct (so_step f Hf Hm) as (leaf & u & P & Eu' & Hi & Hro); pose proof (so_local f Hf (or_intror Hm)) as Hl.
    eapply wp_mono; [apply (renew_step_wp _ _ _ _ leaf P)|]; intros [x|w|] f'; cbn [replaced]; [|intros ->; auto..]; intros (leaf' & N1 & N2 & Ho & Hsame).
    assert (E : forall p, bool_decide (p = ServerCertPath \/ p = ServerKeyPath) = false -> f' !! p = f !! p)
      by (intros p E; apply bool_decide_eq_false in E; apply Hsame; tauto).
    assert (Em : mode_of f' = pkiModeStepCA) by (unfold mode_of in *; rewrite E by reflexivity; exact Hm).
    assert (Eu2 : url_of f' = Some (ca_url (sc_URL s))) by (unfold url_of in *; rewrite E by reflexivity; exact Eu).
    split; [|split; [repeat split; assumption|rewrite Hu; auto]].
    split; rewrite Em; [discriminate| |].
    + intros _; exists leaf', (ca_url (sc_URL s)); split_and!; auto; [split; assumption|eapply obtained_issuer, Ho|].
      unfold roots_of in *; rewrite E by reflexivity; exact Hro.
    + rewrite !E by reflexivity; auto.
  - destruct Hm as [Hm En]; destruct (so_auto f Hf Hm) as (leaf & ca & names & P & [C1 C2] & _); destruct (so_local f Hf (or_introl Hm)) as (_ & _ & L1 & L2).
    apply wp_bind, LoadCA_wp; [|intros w [H|H]; congruence]; intros ca' k E1 E2; cbn [after fst snd].
    rewrite C1 in E1; injection E1 as <-; rewrite C2 in E2; injection E2 as <-.
    apply IssueCert_wp; [intros ks _|congruence]; set (f' := <[_ := _]> _).
    assert (R : ready (a_sans a) (a_stepCA a) now f').
    { eapply (auto_ready _ _ (a_validity a) now f' ks (c_key ca) ca); subst f'; auto; try (look; reflexivity); revert C1 C2 Hm En; look; auto. }
    split; [|eapply ready_serves, R; repeat split; assumption].
    eapply ready_auto_sound; [exact Hu|exact R|..]; subst f'; look; assumption.
Qed.

(** ** Histories *)

Lemma wp_result {A} (m : fs_io A) post w : wp m post (w_files w) -> post (snd (m (disk_of w))) (d_files (fst (m (disk_of w)))).
Proof. intros H; apply (H (w_seed w)). Qed.

Lemma happens_good w e : plain_event e -> good w -> good (happens w e).
Proof.
  intros He [Hf Hr]; destruct e as [a now|ext now|now|name now|p c]; cbn [happens].
  - pose proof (wp_result _ _ w (start_wp _ _ _ now _ He Hf)) as [[H1 H2] _].
    destruct (EnsurePKI _ _ _ _ (disk_of w)) as [d [[]|why|]]; cbn in *; (split; [exact H1|]); cbn; try discriminate.
    intros a' [= <-]; eapply ready_serves, H2; auto.
  - split; cbn; [exact (wp_result _ _ w (tls_wp ext now _ Hf))|discriminate].
  - destruct (w_running w) as [a|] eqn:E; [|split; [exact Hf|congruence]].
    pose proof (wp_result _ _ w (check_wp a now _ Hf (Hr a eq_refl))) as [H1 H2].
    split; cbn; [exact H1|intros a' [= <-]; exact H2].
  - apply (agree_good w); [exact (wp_result _ _ w (client_wp name now _))|split; assumption].
  - apply (agree_good w); [apply edit_agree, He|split; assumption].
Qed.

Definition empty_world : world := MkWorld ∅ 0 None.
Definition history (es : list event) : world := foldl happens empty_world es.

Lemma history_good es : Forall plain_event es -> good (history es).
Proof.
  assert (E : forall w, good w -> Forall plain_event es -> good (foldl happens w es)).
  { induction es as [|e es IH]; intros w Hw H; [exact Hw|]; apply Forall_cons_iff in H as [H1 H2]; apply IH; [apply happens_good; assumption|exact H2]. }
  apply E; split; [|discriminate]; apply other_mode; discriminate.
Qed.
End history.

(** C35. On a disk on which no file operation fails and no process ends in the
    middle (a renewal cut short between certificate and key is in the findings),
    with names of visible characters, a validity that is unset or more than two
    seconds, and the root file of a Step CA outside the certs directory: after any
    history of starts with a local CA or with Step CAs (the same, with other
    roots, or at another URL), of starts with external certificates, of renewals
    by the running daemon, of client certificates and of changes to files outside
    the certs directory, with requests that the Step CA may refuse, a start that
    succeeds has a server key that matches its certificate and has recorded the
    requested names; the certificate is fresh, for these names and signed by the
    local CA on disk, or fresh or just obtained and signed by the configured Step
    CA, whose URL and roots are recorded. With a local CA the start succeeds. *)
Theorem start_after_history `{W : PKIWorld} (es : list event) (a : args) (now : Time) :
  Forall plain_event es -> plain_args a ->
  let '(d, r) := EnsurePKI (a_sans a) (a_stepCA a) (a_validity a) now (disk_of (history es)) in
  (r = Done tt -> ready (a_sans a) (a_stepCA a) now (d_files d)) /\ (uses_step_ca (a_stepCA a) = None -> r = Done tt).
Proof.
  intros He Ha; destruct (history_good es He) as [Hf _].
  pose proof (wp_result _ _ (history es) (start_wp _ _ _ now _ Ha Hf)) as [[_ H1] H2].
  destruct (EnsurePKI _ _ _ _ _) as [d r]; auto.
Qed.

(** ** A concrete Step CA *)

Definition toy_leaf (url : string) (k : Z) (sans : list string) (now : Time) : cert :=
  MkCert "bridge" k (1000 + Z.of_nat (String.length (ca_url url))) sans [] now (now + 30 * Day) false true.

#[local] Obligation Tactic := intros; cbn in *; repeat case_match; simplify_eq;
  repeat match goal with H : str_eqb _ _ = true |- _ => apply str_eqb_eq in H; subst end; split_and?; (reflexivity || discriminate).

#[local] Program Instance toy : PKIWorld := {|
  fingerprint c := if c_key c =? 501 then "5a" else "77";
  raw_fingerprint _ := "00";
  parse_ip s := if str_eqb s "127.0.0.1" then Some s else None;
  ten_years t := t + 3652 * Day;
  hostname := "host";
  prompted := None;
  ca_provisioner _ _ pw _ := str_eqb pw "secret";
  ca_sign url _ pw _ sans k now := if str_eqb pw "secret" then Some (toy_leaf url k sans now, None) else None;
  ca_renew url _ old now := Some (toy_leaf url (c_key old) (c_DNSNames old) now, None);
  ca_identity u := 1000 + Z.of_nat (String.length u)
|}.

Definition toy_ca (url : string) : option StepCAConfig := Some (MkStepCA url "/etc/root.crt" "admin" "/etc/password").
Definition toy_root (k : Z) : content := [BCert (MkCert "root" k k [] [] 0 (3652 * Day) true false)].

(** Local certificates, a client, a renewal, then a Step CA, its roots replaced. *)
Definition toy_history : list event :=
  [Start (MkArgs ["localhost"] None 0) 0; Client "alice" Minute; Check (80 * Day);
   Edit "/etc/root.crt" (Some (toy_root 501)); Edit "/etc/password" (Some [BText (chars "secret")]);
   Start (MkArgs ["localhost"] (toy_ca "https://one/") 0) (81 * Day); Check (105 * Day);
   Edit "/etc/root.crt" (Some (toy_root 502))].

Definition toy_start : args := MkArgs ["localhost"; "bridge.example"] (toy_ca "https://two") 0.

(** It can hold: the hypotheses on the history above, and the start succeeds. *)
Lemma start_after_history_witness :
  Forall plain_event toy_history /\ plain_args toy_start /\
  snd (EnsurePKI (a_sans toy_start) (a_stepCA toy_start) 0 (106 * Day) (disk_of (history toy_history))) = Done tt /\
  ready (a_sans toy_start) (a_stepCA toy_start) (106 * Day) (d_files (fst (EnsurePKI (a_sans toy_start) (a_stepCA toy_start) 0 (106 * Day) (disk_of (history toy_history))))).
Proof.
  assert (H1 : Forall plain_event toy_history) by (repeat constructor; unfold lasting; cbn; lia).
  assert (H2 : plain_args toy_start) by (repeat constructor; unfold lasting; cbn; lia).
  assert (H3 : snd (EnsurePKI (a_sans toy_start) (a_stepCA toy_start) 0 (106 * Day) (disk_of (history toy_history))) = Done tt) by (vm_compute; reflexivity).
  split; [exact H1|split; [exact H2|split; [exact H3|]]].
  pose proof (start_after_history toy_history toy_start (106 * Day) H1 H2) as H.
  change (a_validity toy_start) with 0 in H; destruct (EnsurePKI _ _ 0 _ _) as [d r]; apply H; exact H3.
Defined.

(** ** Where faults matter *)

Definition auto_args : args := MkArgs ["localhost"] None 0.
Definition started_once : disk := fst (EnsurePKI ["localhost"] None 0 0 (MkDisk ∅ [] 0)).
Definition faulty (plan : list fault) (d : disk (C := content)) : disk := MkDisk (d_files d) plan (d_seed d).

(** A renewal writes the certificate and then the key in place.  When the process ends between
    the two, the next start takes the new certificate for fresh and succeeds with a key that
    does not match it. *)
Lemma renewal_interrupted :
  let d := fst (EnsurePKI ["localhost"] None 0 (80 * Day) (faulty [Good; Good; Good; Good; Good; Good; Good; Crash] started_once)) in
  let '(d', r) := EnsurePKI ["localhost"] None 0 (81 * Day) (faulty [] d) in
  r = Done tt /\ match cert_at (d_files d') ServerCertPath, key_at (d_files d') ServerKeyPath with Some c, Some k => c_key c <> k | _, _ => False end.
Proof. vm_compute; split; [reflexivity|discriminate]. Qed.

(** A change to a Step CA that refuses has already replaced the trust bundle by the Step CA's
    root: the next start with the local CA succeeds, and its own CA is not in its bundle. *)
Lemma refused_switch_drops_ca :
  let w := history [Start auto_args 0; Edit "/etc/root.crt" (Some (toy_root 501)); Edit "/etc/password" (Some [BText (chars "wrong")]);
                    Start (MkArgs ["localhost"] (toy_ca "https://one/") 0) Minute] in
  let '(d, r) := EnsurePKI ["localhost"] None 0 (2 * Minute) (disk_of w) in
  r = Done tt /\ match cert_at (d_files d) CACertPath, d_files d !! CABundlePath with Some ca, Some b => ca ∉ certs_in b | _, _ => False end.
Proof. vm_compute; split; [reflexivity|]; intros H; inversion H as [|? ? ? H']; subst; inversion H'. Qed.

(** A request without names from a Step CA ends the process. *)
Lemma no_names_panics :
  let w := history [Edit "/etc/root.crt" (Some (toy_root 501)); Edit "/etc/password" (Some [BText (chars "secret")])] in
  snd (EnsurePKI [] (toy_ca "https://one/") 0 0 (disk_of w)) = Crashed.
Proof. vm_compute; reflexivity. Qed.
