(* ===== verification/CertProvider.v ===== *)
(** * Certificate providers: internal/certprovider and localserver/certprovider_bridge.go

    The interface [CertificateProvider] and its three implementations (files that an external
    party manages, a local CA, a Step CA), chosen by the security section of the
    configuration (Config).  Files and certificates are those of Pki; the empty directory
    name stands for the certs directory.  Modes of key files are an argument.

    [keeps] is what an implementation promises on a disk without faults; what a caller gets is proved from it, and
    each implementation keeps it. *)

From S2P Require Import Prelude Types GoStd GoText EnrollServer Config Disk Pki PkiStart PkiHistory RepoSetup.

Local Open Scope io_scope.

Record EnrollmentRequest := MkRequest {
  rq_CommonName : string; rq_SANs : list string; rq_Token : string; rq_Validity : Duration; rq_Role : string; rq_OutDir : string }.

Record Identity := MkIdentity {
  id_CertPath : string; id_KeyPath : string; id_CACertPath : string; id_Provider : string; id_CommonName : string;
  id_NotBefore : Time; id_NotAfter : Time; id_Renewable : bool }.

Definition RoleServer : string := "server".
Definition RoleClient : string := "client".

Definition NeedsRenewal (id : Identity) (now : Time) : bool :=
  Sub (id_NotAfter id) now <? Z.quot (Sub (id_NotAfter id) (id_NotBefore id)) 3.

(** The interface.  [Renew] updates the identity it is given when it succeeds. *)
Record CertificateProvider := MkProvider {
  p_Enroll : EnrollmentRequest -> Time -> fs_io Identity;
  p_Renew : Identity -> Time -> fs_io Identity;
  p_Roots : fs_io (list cert) }.

(** ** Paths *)

Definition join (dir name : string) : string := text (Join (chars dir) (chars name)).

(** [filepath.Dir]. *)
Fixpoint upto_last_sep (s : list Z) : option (list Z) :=
  match s with
  | [] => None
  | c :: s => match upto_last_sep s with Some d => Some (c :: d) | None => if c =? SEP then Some [c] else None end
  end.
Definition Dir (p : string) : string := text (match upto_last_sep (chars p) with Some d => Clean d | None => DOT end).

Definition dashes (s : string) : string := text (map (fun c => if c =? 32 then 45 else c) (chars s)).

(** An absolute directory other than the root, and files in it. *)
Definition is_dir (d : string) : Prop := exists ds, ds <> [] /\ Forall component ds /\ chars d = SEP :: join_path ds.
Definition inside_dir (d n : string) : string := d +:+ "/" +:+ n.

Lemma join_path_snoc ds w : ds <> [] -> join_path (ds ++ [w]) = join_path ds ++ SEP :: w.
Proof.
  induction ds as [|d ds IH]; [congruence|]; intros _; destruct ds as [|d' ds]; [reflexivity|].
  change (d ++ SEP :: join_path ((d' :: ds) ++ [w]) = (d ++ SEP :: join_path (d' :: ds)) ++ SEP :: w).
  rewrite IH by discriminate; rewrite <- app_assoc; reflexivity.
Qed.

Lemma ext_component n e : component (chars n) -> sep_free (chars e) -> (2 < length (chars e))%nat -> component (chars (n +:+ e)).
Proof.
  intros (H1 & H2 & _) He Hl; rewrite chars_app; split_and!; [intros [H|H]%elem_of_app; [apply H1, H|apply He, H]|..];
    intros E; apply (f_equal length) in E; rewrite length_app in E; cbn in E; lia.
Qed.

Lemma join_abs d n : is_dir d -> component (chars n) -> join d n = inside_dir d n.
Proof.
  intros (ds & Hne & Hd & E) Hn; unfold join, Join, inside_dir.
  destruct (chars n) as [|c l] eqn:En; [destruct Hn as (_ & Hn & _); congruence|]; rewrite E, <- En; rewrite <- En in Hn.
  assert (Ej : (SEP :: join_path ds) ++ SEP :: chars n = SEP :: join_path (ds ++ [chars n])) by (rewrite join_path_snoc by exact Hne; reflexivity).
  rewrite Ej, Clean_join by (apply Forall_app; auto); rewrite <- Ej, <- E.
  rewrite <- (text_chars (d +:+ "/" +:+ n)), !chars_app; reflexivity.
Qed.

Lemma split_path_slash s : split_path (s ++ [SEP]) = split_path s ++ [[]].
Proof.
  induction s as [|c s IH]; [reflexivity|]; cbn [app split_path]; rewrite IH; destruct (split_path s) as [|w ws] eqn:E; cbn [app]; [|destruct (c =? SEP); reflexivity].
  destruct s as [|d s]; [discriminate|]; cbn in E; destruct (split_path s); [discriminate|]; destruct (d =? SEP); discriminate.
Qed.

Lemma upto_last a n : sep_free n -> upto_last_sep (a ++ SEP :: n) = Some (a ++ [SEP]).
Proof.
  intros Hn; assert (E : upto_last_sep n = None).
  { induction n as [|c n IH]; [reflexivity|]; cbn [upto_last_sep]; apply not_elem_of_cons in Hn as [Hc Hn]; rewrite (IH Hn).
    destruct (Z.eqb_spec c SEP); congruence. }
  induction a as [|c a IH]; cbn [app upto_last_sep]; [rewrite E; reflexivity|rewrite IH; reflexivity].
Qed.

Lemma Dir_abs d n : is_dir d -> component (chars n) -> Dir (inside_dir d n) = d.
Proof.
  intros (ds & Hne & Hd & E) (Hn & _); unfold Dir, inside_dir; rewrite !chars_app; change (chars "/") with [SEP]; cbn [app].
  rewrite upto_last, E by exact Hn; rewrite <- (text_chars d), E; f_equal; cbn [app].
  pose proof (Clean_join ds Hd) as HC; unfold Clean in HC |- *; change (SEP =? SEP) with true in *; cbn iota in *.
  rewrite app_comm_cons, split_path_slash, fold_left_app; exact HC.
Qed.

Section providers.
Context `{W : PKIWorld}.

(** ** Files *)

Definition loadFirstCert (path : string) : fs_io cert :=
  c <-- read path;;
  match pem_blocks c with
  | BCert x :: _ => done x
  | [] => failed "no PEM block found"
  | _ => failed "parse certificate"
  end.

Definition loadCertBundle (path : string) : fs_io (list cert) :=
  c <-- read path;;
  match certs_in c with
  | [] => failed "no certificates found"
  | certs => done certs
  end.

Record FilesystemConfig := MkFilesystem { fc_CACertPath : string; fc_CertPath : string; fc_KeyPath : string }.

Definition checkKeyPermissions (mode : Z) : fs_io unit :=
  if negb (Z.land mode 63 =? 0) then failed "overly permissive mode" else done tt.

Definition valid_at (c : cert) (now : Time) : bool := (c_NotBefore c <=? now) && (now <=? c_NotAfter c).

(** [x509.Certificate.Verify] with roots and no intermediates. *)
Definition Verify (c : cert) (roots : list cert) (now : Time) : bool :=
  valid_at c now &&
  (existsb (fun ca => bool_decide (ca = c)) roots || existsb (fun ca => (c_key ca =? c_issuer c) && c_IsCA ca && valid_at ca now) roots).

Definition validateFilesystemMaterial (mode : string -> Z) (cfg : FilesystemConfig) (now : Time) : fs_io unit :=
  caCerts <-- loadCertBundle (fc_CACertPath cfg);;
  LoadX509KeyPair (fc_CertPath cfg) (fc_KeyPath cfg);;;
  c <-- loadFirstCert (fc_CertPath cfg);;
  if negb (Verify c caCerts now) then failed "certificate does not chain to ca bundle"
  else checkKeyPermissions (mode (fc_KeyPath cfg)).

Definition fs_Enroll (cfg : FilesystemConfig) (_ : EnrollmentRequest) (_ : Time) : fs_io Identity :=
  c <-- loadFirstCert (fc_CertPath cfg);;
  done (MkIdentity (fc_CertPath cfg) (fc_KeyPath cfg) (fc_CACertPath cfg) "filesystem" (c_CN c) (c_NotBefore c) (c_NotAfter c) false).

Definition ErrRenewalNotSupported : string := "certificate renewal not supported by this provider".

Definition FilesystemProvider (cfg : FilesystemConfig) : CertificateProvider :=
  MkProvider (fs_Enroll cfg) (fun _ _ => failed ErrRenewalNotSupported) (loadCertBundle (fc_CACertPath cfg)).

Definition NewFilesystemProvider (mode : string -> Z) (cfg : FilesystemConfig) (now : Time) : fs_io CertificateProvider :=
  if str_eqb (fc_CACertPath cfg) "" then failed "filesystem provider: ca cert path is required"
  else if str_eqb (fc_CertPath cfg) "" then failed "filesystem provider: certificate path is required"
  else if str_eqb (fc_KeyPath cfg) "" then failed "filesystem provider: private key path is required"
  else validateFilesystemMaterial mode cfg now;;; done (FilesystemProvider cfg).

(** ** A local CA *)

Definition ensureCA (caName : string) (now : Time) : fs_io (cert * Z) :=
  r <-- attempt (LoadCA CACertPath CAKeyPath);;
  match r with
  | inr x => done x
  | inl _ => InitCA caName now;;; LoadCA CACertPath CAKeyPath
  end.

Definition auto_Enroll (caName : string) (req : EnrollmentRequest) (now : Time) : fs_io Identity :=
  ca <-- ensureCA caName now;;
  let certPath := join (rq_OutDir req) (dashes (rq_CommonName req) +:+ ".crt") in
  let keyPath := join (rq_OutDir req) (dashes (rq_CommonName req) +:+ ".key") in
  IssueCertAt (fst ca) (snd ca) (str_eqb (rq_Role req) RoleServer) (rq_CommonName req) (rq_SANs req) certPath keyPath (rq_Validity req) now;;;
  c <-- LoadCert certPath;;
  done (MkIdentity certPath keyPath CACertPath "auto" (c_CN c) (c_NotBefore c) (c_NotAfter c) true).

Definition with_cert (id : Identity) (certPath keyPath : string) (c : cert) : Identity :=
  MkIdentity certPath keyPath (id_CACertPath id) (id_Provider id) (id_CommonName id) (c_NotBefore c) (c_NotAfter c) (id_Renewable id).

Definition auto_Renew (caName : string) (id : Identity) (now : Time) : fs_io Identity :=
  ca <-- ensureCA caName now;;
  existing <-- LoadCert (id_CertPath id);;
  let certPath := join (Dir (id_CertPath id)) (dashes (c_CN existing) +:+ ".crt") in
  let keyPath := join (Dir (id_CertPath id)) (dashes (c_CN existing) +:+ ".key") in
  IssueCertAt (fst ca) (snd ca) (c_server existing) (c_CN existing) (c_DNSNames existing ++ c_IPAddresses existing) certPath keyPath
    (Sub (c_NotAfter existing) (c_NotBefore existing)) now;;;
  renewed <-- LoadCert certPath;;
  done (with_cert id certPath keyPath renewed).

Definition AutoProvider (caName : string) : CertificateProvider := MkProvider (auto_Enroll caName) (auto_Renew caName) (loadCertBundle CACertPath).

Definition NewAutoProvider (certsDir caName : string) : fs_io CertificateProvider :=
  if str_eqb certsDir "" then failed "auto provider: certs directory is required"
  else done (AutoProvider (if str_eqb caName "" then "bridgectl-auto-ca" else caName)).

(** ** A Step CA *)

Definition request_fun : Type := StepCAConfig -> list string -> string -> string -> Time -> fs_io unit.
Definition renew_fun : Type := StepCAConfig -> string -> string -> Time -> fs_io unit.

Record StepCAProvider := MkStepCAProvider {
  sp_cfg : StepCAConfig; sp_RequestJWK : option request_fun; sp_RequestACME : option request_fun; sp_RenewMTLS : option renew_fun }.

Definition stepca_request (p : StepCAProvider) (sans : list string) (certPath keyPath : string) (now : Time) (password : bool) : fs_io unit :=
  if is_acme (sp_cfg p)
  then request <-- need (sp_RequestACME p) "ACME request function not configured";; request (sp_cfg p) sans certPath keyPath now
  else request <-- need (sp_RequestJWK p) "JWK request function not configured";;
       if password && str_eqb (sc_PasswordFile (sp_cfg p)) "" then failed "provisioner_password_file required for non-interactive JWK renewal"
       else request (sp_cfg p) sans certPath keyPath now.

Definition stepca_Enroll (p : StepCAProvider) (req : EnrollmentRequest) (now : Time) : fs_io Identity :=
  let sans := match rq_SANs req with [] => if str_eqb (rq_CommonName req) "" then [] else [rq_CommonName req] | l => l end in
  if str_eqb (rq_OutDir req) "" then failed "stepca enroll: OutDir is required"
  else
    let cn := if str_eqb (rq_CommonName req) "" then match sans with s :: _ => s | [] => "" end else rq_CommonName req in
    let baseName := text (Base (chars (dashes cn))) in
    let certPath := join (rq_OutDir req) (baseName +:+ ".crt") in
    let keyPath := join (rq_OutDir req) (baseName +:+ ".key") in
    stepca_request p sans certPath keyPath now false;;;
    c <-- loadFirstCert certPath;;
    done (MkIdentity certPath keyPath (sc_RootPath (sp_cfg p)) "stepca" (c_CN c) (c_NotBefore c) (c_NotAfter c) true).

Definition updateIdentityFromCert (id : Identity) : fs_io Identity :=
  c <-- loadFirstCert (id_CertPath id);;
  done (with_cert id (id_CertPath id) (id_KeyPath id) c).

Definition extractSANs (certPath : string) : fs_io (list string) :=
  r <-- attempt (loadFirstCert certPath);;
  done (match r with inr c => c_DNSNames c ++ c_IPAddresses c | inl _ => [] end).

Definition stepca_Renew (p : StepCAProvider) (id : Identity) (now : Time) : fs_io Identity :=
  r <-- match sp_RenewMTLS p with
        | Some renew => attempt (renew (sp_cfg p) (id_CertPath id) (id_KeyPath id) now)
        | None => done (inl "")
        end;;
  match r with
  | inr _ => updateIdentityFromCert id
  | inl _ =>
      sans <-- extractSANs (id_CertPath id);;
      stepca_request p sans (id_CertPath id) (id_KeyPath id) now true;;;
      updateIdentityFromCert id
  end.

Definition provider_of (p : StepCAProvider) : CertificateProvider := MkProvider (stepca_Enroll p) (stepca_Renew p) (loadCertBundle (sc_RootPath (sp_cfg p))).

Definition NewStepCAProvider (cfg : StepCAConfig) : fs_io StepCAProvider :=
  if str_eqb (sc_URL cfg) "" then failed "stepca provider: URL is required"
  else if str_eqb (sc_RootPath cfg) "" then failed "stepca provider: root certificate path is required"
  else done (MkStepCAProvider cfg None None None).

(** ** Construction *)

Record ProviderConfig := MkProviderConfig { pc_Filesystem : option FilesystemConfig; pc_AutoCertsDir : string; pc_AutoCAName : string; pc_StepCA : option StepCAConfig }.

Definition New (mode : string -> Z) (name : string) (cfg : ProviderConfig) (now : Time) : fs_io CertificateProvider :=
  if str_eqb name "filesystem" then c <-- need (pc_Filesystem cfg) "filesystem provider config is required";; NewFilesystemProvider mode c now
  else if str_eqb name "auto" then NewAutoProvider (pc_AutoCertsDir cfg) (pc_AutoCAName cfg)
  else if str_eqb name "stepca" then c <-- need (pc_StepCA cfg) "stepca provider config is required";; p <-- NewStepCAProvider c;; done (provider_of p)
  else failed "unknown certificate provider".

Definition firstNonEmpty (values : list string) : string := default "" (head (List.filter (fun v => negb (str_eqb v "")) values)).

Definition step_config (sc : StepCACertProviderConfig) : StepCAConfig := MkStepCA (sp_URL sc) (sp_Root sc) (sp_Provisioner sc) (sp_ProvisionerPasswordFile sc).

Definition CertProviderFromConfig (mode : string -> Z) (secCfg : SecurityConfig) (certsDir : string) (now : Time) : fs_io CertificateProvider :=
  let crt := sec_Certificates secCfg in
  let providerName := if str_eqb (crt_Provider crt) "" then "auto" else crt_Provider crt in
  if str_eqb providerName "auto" then NewAutoProvider certsDir "bridgectl-ca"
  else if str_eqb providerName "filesystem" then
    let fs := crt_Filesystem crt in
    NewFilesystemProvider mode (MkFilesystem (fs_CA fs) (firstNonEmpty [fs_Certificate fs; fs_ServerCert fs]) (firstNonEmpty [fs_PrivateKey fs; fs_ServerKey fs])) now
  else if str_eqb providerName "stepca" then
    p <-- NewStepCAProvider (step_config (crt_StepCA crt));;
    done (provider_of (MkStepCAProvider (sp_cfg p) (Some requestCertJWK) (Some requestCertACME) (Some renewCertMTLS)))
  else New mode providerName (MkProviderConfig None "" "" None) now.

Definition StepCAConfigFromProvider (secCfg : SecurityConfig) : option StepCAConfig :=
  let crt := sec_Certificates secCfg in
  if negb (str_eqb (crt_Provider crt) "stepca") then None
  else if str_eqb (sp_URL (crt_StepCA crt)) "" then None
  else Some (step_config (crt_StepCA crt)).

(** ** What a provider promises *)

Notation files := (gmap string content).

(** A certificate and a key that match, as [tls.LoadX509KeyPair] reads the two files. *)
Definition pair_at (f : files) (certPath keyPath : string) (c : cert) : Prop :=
  exists x y, f !! certPath = Some x /\ f !! keyPath = Some y /\ head (certs_in x) = Some c /\ head (keys_in y) = Some (c_key c).

(** The pair on disk matches, and the identity says how long it is valid. *)
Definition holds (id : Identity) (f : files) : Prop :=
  exists c, pair_at f (id_CertPath id) (id_KeyPath id) c /\ id_NotBefore id = c_NotBefore c /\ id_NotAfter id = c_NotAfter c.

(** A request into an absolute directory, with a name that is a file name. *)
Definition request_ok (req : EnrollmentRequest) : Prop :=
  is_dir (rq_OutDir req) /\ component (chars (dashes (rq_CommonName req))) /\ rq_CommonName req <> "" /\
  forallb plain (rq_SANs req) = true /\ (Second | rq_Validity req) /\ rq_Validity req < 9223372036854775808.

(** [ready]: what enrolling needs of the files; [kept]: what holds of an identity in between. *)
Class keeps (p : CertificateProvider) (ready : files -> Prop) (kept : EnrollmentRequest -> Identity -> files -> Prop) : Prop := {
  kept_holds : forall req id f, kept req id f -> holds id f;
  enrolls : forall req now f, request_ok req -> ready f -> wp (p_Enroll p req now) (fun r f' => forall id, r = Done id -> kept req id f') f;
  renews : forall req id now f, request_ok req -> kept req id f -> wp (p_Renew p id now) (fun r f' =>
    match r with
    | Done id' => kept req id' f' /\ id_CertPath id' = id_CertPath id /\ id_KeyPath id' = id_KeyPath id
    | _ => kept req id f'
    end) f }.

(** A caller: it enrolls and renews at the given times, keeping what it has when that fails. *)
Fixpoint renew_all (p : CertificateProvider) (id : Identity) (times : list Time) : fs_io Identity :=
  match times with
  | [] => done id
  | t :: times =>
      r <-- attempt (p_Renew p id t);;
      renew_all p (match r with inr id' => id' | inl _ => id end) times
  end.

Lemma renew_all_wp p ready kept {K : keeps p ready kept} req times : request_ok req -> forall id f, kept req id f ->
  wp (renew_all p id times) (fun r f' => forall id', r = Done id' -> kept req id' f' /\ id_CertPath id' = id_CertPath id /\ id_KeyPath id' = id_KeyPath id) f.
Proof.
  intros Hreq; induction times as [|t times IH]; intros id f H; cbn [renew_all]; [apply wp_done; intros id' [= <-]; auto|].
  apply wp_bind, wp_attempt; eapply wp_mono; [apply (renews (keeps := K) req id t f Hreq H)|]; intros [id1|w|] f1; cbn [after]; [|intros K1; apply (IH id f1 K1)|discriminate].
  intros (K1 & E1 & E2); eapply wp_mono; [apply (IH id1 f1 K1)|]; intros r f2 Hr id' E; destruct (Hr id' E) as (? & ? & ?); split_and!; auto; congruence.
Qed.

(** ** Files of an external party *)

Lemma first_wp p post f : (forall c, cert_at f p = Some c -> post (Done c) f) -> (forall w, post (Failed w) f) -> wp (loadFirstCert p) post f.
Proof.
  unfold cert_at; intros H1 H2; apply wp_bind, wp_read; [|intros w _; apply H2].
  intros c E; cbn [after]; rewrite E in *; destruct (pem_blocks c) as [|[] l]; try (apply wp_failed, H2); apply wp_done; auto.
Qed.

Definition fs_ready (cfg : FilesystemConfig) (f : files) : Prop := exists c, pair_at f (fc_CertPath cfg) (fc_KeyPath cfg) c.
Definition fs_kept (_ : EnrollmentRequest) (id : Identity) (f : files) : Prop := holds id f.

#[export] Instance filesystem_keeps cfg : keeps (FilesystemProvider cfg) (fs_ready cfg) fs_kept.
Proof.
  split; [auto| |].
  - intros req now f _ (c & x & y & Hx & Hy & Hc & Hk); apply wp_bind, first_wp; [intros c' Ec|discriminate]; cbn [after]; apply wp_done; intros id [= <-].
    assert (c' = c) as -> by (apply (cert_at_first _ _ _ _ Hx) in Ec; congruence).
    exists c; cbn; split; [exists x, y|]; auto.
  - intros req id now f _ H; apply wp_failed; exact H.
Qed.

Lemma validated mode cfg now f : wp (validateFilesystemMaterial mode cfg now) (fun r f' => f' = f /\ (r = Done tt -> fs_ready cfg f)) f.
Proof.
  apply wp_bind, wp_bind, wp_read; [intros b _|split; [reflexivity|discriminate]]; cbn [after].
  destruct (certs_in b) as [|c0 cs]; [apply wp_failed; split; [reflexivity|discriminate]|]; apply wp_done; cbn [after].
  apply wp_bind, pair_wp; [intros c x k y Hc Hk Hx Hy E|split; [reflexivity|discriminate]]; cbn [after].
  assert (R : fs_ready cfg f) by (exists x, c, k; rewrite E; auto).
  apply wp_bind, first_wp; [intros c' _|split; [reflexivity|discriminate]]; cbn [after]; destruct (negb _); [apply wp_failed; split; [reflexivity|discriminate]|].
  unfold checkKeyPermissions; destruct (negb _); [apply wp_failed|apply wp_done]; auto.
Qed.

(** ** The local CA *)

Lemma ensureCA_wp name now post f :
  (forall ca k f', (forall p, p <> CACertPath -> p <> CAKeyPath -> f' !! p = f !! p) -> post (Done (ca, k)) f') -> wp (ensureCA name now) post f.
Proof.
  intros H; apply wp_bind, wp_attempt, LoadCA_wp; cbn [after]; [intros; apply wp_done, H; auto|intros w _].
  unfold InitCA; apply wp_bind, wp_bind, wp_fresh; intros kc; apply wp_bind, wp_make_dir, wp_bind, wp_write, wp_write; cbn [after].
  apply LoadCA_wp; [intros ca k _ _; apply H; intros p P1 P2; rewrite !lookup_insert_ne; auto|].
  look; intros w' [E|E]; discriminate.
Qed.

Definition certPath_of (req : EnrollmentRequest) : string := inside_dir (rq_OutDir req) (dashes (rq_CommonName req) +:+ ".crt").
Definition keyPath_of (req : EnrollmentRequest) : string := inside_dir (rq_OutDir req) (dashes (rq_CommonName req) +:+ ".key").

(** A certificate for what was requested. *)
Definition as_requested (req : EnrollmentRequest) (c : cert) : Prop :=
  c_CN c = rq_CommonName req /\ c_server c = str_eqb (rq_Role req) RoleServer /\
  c_DNSNames c = want_DNS (normalizeSANs (rq_SANs req)) /\ c_IPAddresses c = want_IPs (normalizeSANs (rq_SANs req)) /\
  c_NotAfter c - c_NotBefore c = lifetime (rq_Validity req).

Definition auto_kept (req : EnrollmentRequest) (id : Identity) (f : files) : Prop :=
  exists c, as_requested req c /\ id_CertPath id = certPath_of req /\ id_KeyPath id = keyPath_of req /\
    cert_at f (id_CertPath id) = Some c /\ key_at f (id_KeyPath id) = Some (c_key c) /\ id_NotBefore id = c_NotBefore c /\ id_NotAfter id = c_NotAfter c.

Lemma pair_holds f cp kp c : cert_at f cp = Some c -> key_at f kp = Some (c_key c) -> pair_at f cp kp c.
Proof.
  intros H1 H2; destruct (f !! cp) as [x|] eqn:E1; [|unfold cert_at in H1; rewrite E1 in H1; discriminate].
  destruct (f !! kp) as [y|] eqn:E2; [|unfold key_at in H2; rewrite E2 in H2; discriminate].
  exists x, y; split_and!; auto; [eapply cert_at_first; eassumption|eapply key_at_first; eassumption].
Qed.

Lemma ext_crt n : component (chars n) -> component (chars (n +:+ ".crt")).
Proof. intros H; apply ext_component; [exact H|apply (bool_decide_unpack _); exact I|cbn; lia]. Qed.

Lemma ext_key n : component (chars n) -> component (chars (n +:+ ".key")).
Proof. intros H; apply ext_component; [exact H|apply (bool_decide_unpack _); exact I|cbn; lia]. Qed.

Lemma dir_not_ca d n : is_dir d -> inside_dir d n <> CACertPath /\ inside_dir d n <> CAKeyPath.
Proof.
  intros (ds & _ & _ & E); destruct d as [|a d]; [discriminate|].
  assert (Ha : byte_val (Ascii.byte_of_ascii a) = SEP) by (cbv [chars bytes_of_string] in E; cbn in E; injection E as E _; exact E).
  split; intros H; injection H as -> _; discriminate.
Qed.

Lemma crt_not_key d n : inside_dir d (n +:+ ".crt") <> inside_dir d (n +:+ ".key").
Proof.
  unfold inside_dir; intros H; apply (inj (String.append d)), (inj (String.append "/")), (inj (String.append n)) in H; discriminate.
Qed.

(** ** Names and lifetime survive a renewal *)

Lemma names_again sans : forallb plain sans = true ->
  let names := normalizeSANs sans in
  let again := normalizeSANs (want_DNS names ++ want_IPs names) in
  want_DNS again = want_DNS names /\ want_IPs again = want_IPs names.
Proof.
  intros H names again.
  assert (Hn : Forall (fun s => plain s = true /\ s <> "") names).
  { unfold names; rewrite normalize_plain by exact H; apply List.Forall_forall; intros s [Hs Hne]%filter_In; rewrite forallb_forall in H.
    split; [auto|apply str_eqb_neq, negb_true_iff, Hne]. }
  clearbody names; assert (HD : Forall (fun s => (plain s = true /\ s <> "") /\ parse_ip s = None) (want_DNS names)).
  { apply List.Forall_forall; intros s [Hs Hp]%filter_In; rewrite List.Forall_forall in Hn; split; [auto|].
    apply negb_true_iff, bool_decide_eq_false in Hp; destruct (parse_ip s); [exfalso; eauto|reflexivity]. }
  assert (HI : Forall (fun s => (plain s = true /\ s <> "") /\ parse_ip s = Some s) (want_IPs names)).
  { apply list.Forall_forall; intros t (s & _ & Hs)%list_elem_of_omap; destruct (parse_ip_again s t Hs) as (? & ? & ?); auto. }
  assert (E : again = want_DNS names ++ want_IPs names).
  { assert (Ha : Forall (fun s => plain s = true /\ s <> "") (want_DNS names ++ want_IPs names)) by (apply Forall_app; split; eapply List.Forall_impl; eauto; intros ? [? _]; assumption).
    unfold again; rewrite normalize_plain by (apply forallb_forall; intros s Hs; rewrite List.Forall_forall in Ha; apply Ha, Hs).
    clear -Ha; induction Ha as [|s l [_ Hs] _ IH]; [reflexivity|]; cbn; rewrite (proj2 (str_eqb_neq s "") Hs); cbn; f_equal; exact IH. }
  rewrite E; unfold want_DNS at 1, want_IPs at 2; rewrite List.filter_app, omap_app; generalize dependent (want_DNS names); generalize dependent (want_IPs names).
  clear; intros I HI D _ HD _; split.
  - replace (List.filter _ I) with (@nil string); [rewrite app_nil_r|]; [induction HD as [|s l [_ Hs] _ IH]|induction HI as [|s l [_ Hs] _ IH]]; cbn; rewrite ?Hs; cbn; auto; f_equal; auto.
  - replace (omap parse_ip D) with (@nil string); cbn; [induction HI as [|s l [_ Hs] _ IH]|induction HD as [|s l [_ Hs] _ IH]]; cbn; rewrite ?Hs; cbn; auto; f_equal; auto.
Qed.

Lemma whole_shift now l : (Second | l) -> whole (now + l) - whole now = l.
Proof. intros [q ->]; unfold whole; rewrite Z.div_add by discriminate; lia. Qed.

Lemma lifetime_whole v : (Second | v) -> v < 9223372036854775808 -> (Second | lifetime v) /\ 0 < lifetime v < 9223372036854775808.
Proof.
  intros Hd Hv; unfold lifetime; destruct (Z.leb_spec v 0); [|auto]; split; [exists (90 * 86400); reflexivity|unfold Day, Minute; lia].
Qed.

Lemma issued_as_requested req k i now : request_ok req ->
  as_requested req (issued_cert (rq_CommonName req) k i (rq_SANs req) (rq_Validity req) now (str_eqb (rq_Role req) RoleServer)).
Proof.
  intros (_ & _ & _ & _ & Hd & Hv); split_and!; try reflexivity; cbn; apply whole_shift, lifetime_whole; assumption.
Qed.

Lemma renewed_as_requested req c k i now : request_ok req -> as_requested req c ->
  as_requested req (issued_cert (c_CN c) k i (c_DNSNames c ++ c_IPAddresses c) (Sub (c_NotAfter c) (c_NotBefore c)) now (c_server c)).
Proof.
  intros (_ & _ & _ & Hp & Hd & Hv) (E1 & E2 & E3 & E4 & E5); destruct (names_again _ Hp) as [N1 N2]; destruct (lifetime_whole _ Hd Hv) as [L1 L2].
  split_and!; cbn; rewrite ?E3, ?E4; auto.
  assert (Es : Sub (c_NotAfter c) (c_NotBefore c) = lifetime (rq_Validity req)) by (unfold Sub; rewrite E5; lia).
  rewrite Es; assert (El : lifetime (lifetime (rq_Validity req)) = lifetime (rq_Validity req)).
  { unfold lifetime at 1; destruct (Z.leb_spec (lifetime (rq_Validity req)) 0); [lia|reflexivity]. }
  rewrite El; apply whole_shift, L1.
Qed.

(** A new pair at the place of the request. *)
Lemma issued_kept req ca k server cn sans validity now post f (mk : cert -> Identity) : 
  (forall k' , as_requested req (issued_cert cn k' k sans validity now server)) ->
  (forall c, id_CertPath (mk c) = certPath_of req /\ id_KeyPath (mk c) = keyPath_of req /\ id_NotBefore (mk c) = c_NotBefore c /\ id_NotAfter (mk c) = c_NotAfter c) ->
  (forall c f', auto_kept req (mk c) f' -> post (Done (mk c)) f') -> (forall w, post (Failed w) f) ->
  wp (IssueCertAt ca k server cn sans (certPath_of req) (keyPath_of req) validity now;;; c <-- LoadCert (certPath_of req);; done (mk c)) post f.
Proof.
  intros Hreq Hmk H1 H2; pose proof (crt_not_key (rq_OutDir req) (dashes (rq_CommonName req))) as Hne; fold (certPath_of req) (keyPath_of req) in Hne.
  apply wp_bind, IssueCertAt_wp; [intros k' _|intros w _; apply H2]; cbn [after]; set (f' := <[_ := [BKey _]]> _).
  assert (Ec : cert_at f' (certPath_of req) = Some (issued_cert cn k' k sans validity now server))
    by (unfold cert_at, f'; rewrite lookup_insert_ne, lookup_insert_eq by auto; reflexivity).
  apply wp_bind, LoadCert_wp; [intros c Ec'|congruence]; cbn [after]; rewrite Ec in Ec'; injection Ec' as <-; apply wp_done, H1.
  destruct (Hmk (issued_cert cn k' k sans validity now server)) as (E1 & E2 & E3 & E4).
  exists (issued_cert cn k' k sans validity now server); rewrite E1, E2; split_and!; auto; unfold f'; apply key_at_eq.
Qed.

Lemma request_paths req : request_ok req -> join (rq_OutDir req) (dashes (rq_CommonName req) +:+ ".crt") = certPath_of req /\
  join (rq_OutDir req) (dashes (rq_CommonName req) +:+ ".key") = keyPath_of req /\ Dir (certPath_of req) = rq_OutDir req.
Proof. intros (Hd & Hn & _); split_and!; [apply join_abs|apply join_abs|apply Dir_abs]; auto using ext_crt, ext_key. Qed.

#[export] Instance auto_keeps caName : keeps (AutoProvider caName) (fun _ => True) auto_kept.
Proof.
  split.
  - intros req id f (c & _ & _ & _ & H1 & H2 & H3 & H4); exists c; auto using pair_holds.
  - intros req now f Hreq _; destruct (request_paths req Hreq) as (P1 & P2 & _); apply wp_bind, ensureCA_wp; intros ca k f1 _; cbn [after fst snd].
    rewrite P1, P2; apply (issued_kept _ _ _ _ _ _ _ _ _ _ (fun c => MkIdentity _ _ _ _ (c_CN c) (c_NotBefore c) (c_NotAfter c) _)); auto; [|intros c f' H id [= <-]; exact H|discriminate].
    intros k'; apply issued_as_requested, Hreq.
  - intros req id now f Hreq (c & Hc & E1 & E2 & H1 & H2 & H3 & H4); destruct (request_paths req Hreq) as (P1 & P2 & P3); pose proof Hreq as (Hd & _).
    destruct (dir_not_ca (rq_OutDir req) (dashes (rq_CommonName req) +:+ ".crt") Hd) as [N1 N2], (dir_not_ca (rq_OutDir req) (dashes (rq_CommonName req) +:+ ".key") Hd) as [N3 N4].
    apply wp_bind, ensureCA_wp; intros ca k f1 Hsame; cbn [after fst snd].
    assert (K1 : cert_at f1 (id_CertPath id) = Some c) by (unfold cert_at in *; rewrite Hsame by (rewrite E1; assumption); exact H1).
    assert (K2 : key_at f1 (id_KeyPath id) = Some (c_key c)) by (unfold key_at in *; rewrite Hsame by (rewrite E2; assumption); exact H2).
    assert (K : auto_kept req id f1) by (exists c; auto 10).
    apply wp_bind, LoadCert_wp; [intros c' Ec|intros w _; exact K]; cbn [after]; rewrite K1 in Ec; injection Ec as <-.
    pose proof Hc as (Ecn & _); rewrite E1, P3; replace (dashes (c_CN c)) with (dashes (rq_CommonName req)) by (rewrite Ecn; reflexivity); rewrite P1, P2.
    apply (issued_kept _ _ _ _ _ _ _ _ _ _ (with_cert id _ _)); auto; intros k'; apply renewed_as_requested; assumption.
Qed.

(** ** The Step CA *)

Definition step_kept (_ : EnrollmentRequest) (id : Identity) (f : files) : Prop :=
  exists c, id_CertPath id <> id_KeyPath id /\ cert_at f (id_CertPath id) = Some c /\ key_at f (id_KeyPath id) = Some (c_key c) /\
            id_NotBefore id = c_NotBefore c /\ id_NotAfter id = c_NotAfter c.

(** The provider that the configuration makes. *)
Definition wired (cfg : StepCAConfig) : StepCAProvider := MkStepCAProvider cfg (Some requestCertJWK) (Some requestCertACME) (Some renewCertMTLS).

Lemma wired_request cfg sans cp kp now password f : cp <> kp -> wp (stepca_request (wired cfg) sans cp kp now password) (fun r f' =>
  match r with Done _ => exists c, cert_at f' cp = Some c /\ key_at f' kp = Some (c_key c) | _ => f' = f end) f.
Proof.
  intros Hne; eapply wp_mono with (post := requested cfg cp kp now f).
  - unfold stepca_request; cbn [wired sp_cfg sp_RequestJWK sp_RequestACME]; destruct (is_acme cfg); apply wp_bind, wp_done; cbn [after]; [apply acme_wp|].
    destruct (_ && _); [apply wp_failed; reflexivity|apply jwk_wp].
  - intros [u|w|] f'; cbn [requested]; auto; intros (leaf & l & -> & _); exists leaf.
    unfold cert_at, key_at; rewrite lookup_insert_eq, lookup_insert_ne, lookup_insert_eq by auto; auto.
Qed.

Lemma update_wp req id c f : cert_at f (id_CertPath id) = Some c -> key_at f (id_KeyPath id) = Some (c_key c) -> id_CertPath id <> id_KeyPath id ->
  wp (updateIdentityFromCert id) (fun r f' => match r with
    | Done id' => step_kept req id' f' /\ id_CertPath id' = id_CertPath id /\ id_KeyPath id' = id_KeyPath id
    | _ => step_kept req id f' end) f.
Proof.
  intros H1 H2 H3; apply wp_bind; unfold loadFirstCert, cert_at in *; apply wp_bind, wp_read; [intros x E|intros w E; rewrite E in H1; discriminate]; cbn [after].
  rewrite E in H1; destruct (pem_blocks x) as [|[] l] eqn:Ep; try discriminate; injection H1 as ->; apply wp_done; cbn [after]; apply wp_done.
  split; [|auto]; exists c; cbn; unfold cert_at; rewrite E, Ep; auto.
Qed.

#[export] Instance stepca_keeps cfg : keeps (provider_of (wired cfg)) (fun _ => True) step_kept.
Proof.
  split.
  - intros req id f (c & _ & H1 & H2 & H3 & H4); exists c; auto using pair_holds.
  - intros req now f (Hd & Hn & Hc & _) _; cbn [provider_of p_Enroll]; unfold stepca_Enroll.
    destruct (str_eqb (rq_OutDir req) ""); [apply wp_failed; discriminate|].
    rewrite (proj2 (str_eqb_neq (rq_CommonName req) "") Hc), Base_free, text_chars, !join_abs by (auto using ext_crt, ext_key; apply Hn).
    pose proof (crt_not_key (rq_OutDir req) (dashes (rq_CommonName req))) as Hne.
    apply wp_bind; eapply wp_mono; [apply wired_request, Hne|]; intros [u|w|] f1; cbn [after]; try discriminate; intros (c & H1 & H2).
    apply wp_bind, first_wp; [intros c' Ec|discriminate]; cbn [after]; rewrite H1 in Ec; injection Ec as <-; apply wp_done; intros id [= <-].
    exists c; auto 10.
  - intros req id now f _ (c & Hne & H1 & H2 & H3 & H4); assert (K : step_kept req id f) by (exists c; auto 10).
    cbn [provider_of p_Renew]; unfold stepca_Renew; cbn [wired sp_RenewMTLS sp_cfg]; apply wp_bind, wp_attempt.
    eapply wp_mono; [apply (renew_mtls_wp _ _ _ _ _ c H1 H2)|]; intros [u|w|] f1; cbn [after]; [|intros ->|intros ->; exact K].
    + intros (leaf & l & Ek & -> & _); apply (update_wp req id leaf); [apply cert_at_eq| |exact Hne].
      unfold key_at in *; rewrite lookup_insert_ne by exact Hne; rewrite Ek; exact H2.
    + apply wp_bind; unfold extractSANs; apply wp_bind, wp_attempt, first_wp; [intros c' _|intros w']; cbn [after]; apply wp_done; cbn [after];
        apply wp_bind; (eapply wp_mono; [apply wired_request, Hne|]); intros [u|w''|] f2; cbn [after]; try (intros ->; exact K);
        intros (c2 & E1 & E2); apply (update_wp req id c2); assumption.
Qed.

(** ** The provider of a configuration *)

(** What a caller gets: [Q] stands for what else the provider is known to keep. *)
Definition identity_kept (req : EnrollmentRequest) (Q : Prop) (r : res (Identity * Identity)) (f : files) : Prop :=
  forall first last, r = Done (first, last) ->
    holds last f /\ id_CertPath last = id_CertPath first /\ id_KeyPath last = id_KeyPath first /\
    (Q -> exists c, cert_at f (certPath_of req) = Some c /\ as_requested req c).

Lemma use_provider p ready kept {K : keeps p ready kept} (Q : Prop) req t times f : request_ok req -> ready f ->
  (forall id f', kept req id f' -> Q -> exists c, cert_at f' (certPath_of req) = Some c /\ as_requested req c) ->
  wp (first <-- p_Enroll p req t;; last <-- renew_all p first times;; done (first, last)) (identity_kept req Q) f.
Proof.
  intros Hreq Hr HQ; apply wp_bind; eapply wp_mono; [apply (enrolls (keeps := K) req t f Hreq Hr)|]; intros [id|w|] f1 H; cbn [after]; try discriminate.
  apply wp_bind; eapply wp_mono; [apply (renew_all_wp p ready kept req times Hreq id f1 (H id eq_refl))|]; intros [id2|w|] f2 H2; cbn [after]; try discriminate.
  apply wp_done; intros a b [= <- <-]; destruct (H2 id2 eq_refl) as (K2 & E1 & E2); split_and!; eauto using kept_holds.
Qed.

Lemma new_fs_wp mode cfg now post f : (fs_ready cfg f -> post (Done (FilesystemProvider cfg)) f) -> (forall w, post (Failed w) f) -> post Crashed f ->
  wp (NewFilesystemProvider mode cfg now) post f.
Proof.
  intros H1 H2 H3; unfold NewFilesystemProvider; destruct (str_eqb (fc_CACertPath cfg) ""); [apply wp_failed, H2|].
  destruct (str_eqb (fc_CertPath cfg) ""); [apply wp_failed, H2|]; destruct (str_eqb (fc_KeyPath cfg) ""); [apply wp_failed, H2|].
  apply wp_bind; eapply wp_mono; [apply validated|]; intros [[]|w|] f1 [-> Hr]; cbn [after]; auto; apply wp_done; auto.
Qed.

Lemma new_step_wp cfg post f : post (Done (MkStepCAProvider cfg None None None)) f -> (forall w, post (Failed w) f) -> wp (NewStepCAProvider cfg) post f.
Proof.
  intros H1 H2; unfold NewStepCAProvider; destruct (str_eqb (sc_URL cfg) ""); [apply wp_failed, H2|].
  destruct (str_eqb (sc_RootPath cfg) ""); [apply wp_failed, H2|apply wp_done, H1].
Qed.

Definition local_ca (sec : SecurityConfig) : Prop := crt_Provider (sec_Certificates sec) = "auto" \/ crt_Provider (sec_Certificates sec) = "".

(** C37. On a disk on which no file operation fails (a renewal whose write of the
    key fails leaves a pair that does not match, see findings), whatever
    certificate provider the security section of the configuration names: a caller
    that enrolls, into an absolute directory, under a non-empty name that is a
    file name, with names of visible characters and a lifetime of whole seconds,
    and then renews at any times, keeping what it has when the provider refuses,
    holds an identity whose certificate and key on disk match, with the validity
    that the identity says, at the paths of the enrollment; and a certificate of
    the local CA keeps its name, role, requested names and lifetime. *)
Theorem provider_identity mode sec certsDir req t0 t1 times f : request_ok req ->
  wp (p <-- CertProviderFromConfig mode sec certsDir t0;;
      first <-- p_Enroll p req t1;;
      last <-- renew_all p first times;;
      done (first, last))
    (fun r f' => forall first last, r = Done (first, last) ->
       holds last f' /\ id_CertPath last = id_CertPath first /\ id_KeyPath last = id_KeyPath first /\
       (local_ca sec -> exists c, cert_at f' (certPath_of req) = Some c /\ as_requested req c)) f.
Proof.
  intros Hreq; apply wp_bind; unfold CertProviderFromConfig; set (name := if str_eqb _ "" then "auto" else _).
  assert (En : local_ca sec -> name = "auto") by (subst name; intros [->| ->]; reflexivity).
  destruct (str_eqb name "auto") eqn:Ea.
  { unfold NewAutoProvider; destruct (str_eqb certsDir ""); [apply wp_failed; discriminate|]; apply wp_done; cbn [after].
    apply (use_provider _ _ _ (K := auto_keeps _)); [exact Hreq|exact I|]; intros id f' (c & Hc & E1 & _ & H1 & _) _; exists c; rewrite <- E1; auto. }
  assert (Hno : ~ local_ca sec) by (intros H; rewrite (En H) in Ea; discriminate).
  destruct (str_eqb name "filesystem") eqn:Ef; [|destruct (str_eqb name "stepca") eqn:Es].
  - apply new_fs_wp; cbn [after]; try discriminate; intros Hr; apply (use_provider _ _ _ (K := filesystem_keeps _)); auto; tauto.
  - apply wp_bind, new_step_wp; cbn [after]; try discriminate; apply wp_done; cbn [after sp_cfg].
    apply (use_provider _ _ _ (K := stepca_keeps _)); auto; tauto.
  - unfold New; rewrite Ef, Ea, Es; apply wp_failed; discriminate.
Qed.
End providers.

(** ** Concrete runs *)

Definition toy_security (provider : string) : SecurityConfig :=
  MkSecurity "mtls" (MkCertificates provider (MkFilesystemCert "" "" "" "" "") (MkStepCACert "https://one" "/etc/root.crt" "admin" "/etc/password")) "jwt".
Definition toy_request (cn dir : string) : EnrollmentRequest := MkRequest cn ["bridge.example"; "127.0.0.1"] "" (30 * Day) RoleServer dir.
Definition toy_run (provider : string) (times : list Time) : fs_io (Identity * Identity) :=
  p <-- CertProviderFromConfig (W := toy) (fun _ => 384) (toy_security provider) "/state/certs" 0;;
  first <-- p_Enroll p (toy_request "my bridge" "/state/ids") 0;;
  last <-- renew_all p first times;;
  done (first, last).

(** It can hold: the local CA, renewed twice. *)
Lemma provider_identity_witness :
  request_ok (toy_request "my bridge" "/state/ids") /\
  exists first last, snd (toy_run "auto" [20 * Day; 40 * Day] (MkDisk ∅ [] 0)) = Done (first, last) /\ id_NotBefore last = 40 * Day /\
    holds last (d_files (fst (toy_run "auto" [20 * Day; 40 * Day] (MkDisk ∅ [] 0)))).
Proof.
  assert (Hreq : request_ok (toy_request "my bridge" "/state/ids")).
  { split_and!; [exists [chars "state"; chars "ids"]; split_and!| | | | |]; try discriminate; try reflexivity.
    - repeat constructor; try discriminate; apply (bool_decide_unpack _); exact I.
    - repeat constructor; try discriminate; apply (bool_decide_unpack _); exact I.
    - exists (30 * 86400); reflexivity. }
  split; [exact Hreq|].
  pose proof (provider_identity (W := toy) (fun _ => 384) (toy_security "auto") "/state/certs" (toy_request "my bridge" "/state/ids") 0 0 [20 * Day; 40 * Day] ∅ Hreq 0) as [_ H].
  fold (toy_run "auto" [20 * Day; 40 * Day]) in H; destruct (snd (toy_run "auto" [20 * Day; 40 * Day] (MkDisk ∅ [] 0))) as [[first last]|why|] eqn:E; [|vm_compute in E; discriminate..].
  exists first, last; split; [reflexivity|]; split; [vm_compute in E; injection E as _ <-; reflexivity|]; apply (H first last eq_refl).
Defined.

(** The local CA does not look at the name it is asked for: a certificate for the name ca, into the
    directory of the provider, replaces the CA by it. *)
Lemma enrolled_name_replaces_ca :
  let d := fst (auto_Enroll (W := toy) "bridgectl-ca" (toy_request "ca" "") 0 (MkDisk ∅ [] 0)) in
  match cert_at (d_files d) CACertPath with Some c => c_IsCA c = false | None => False end.
Proof. vm_compute; reflexivity. Qed.

(** A renewal whose write of the key fails has already replaced the certificate: the
    caller keeps an identity whose pair does not match. *)
Lemma renewal_without_key :
  let '(d, r) := auto_Enroll (W := toy) "bridgectl-ca" (toy_request "my bridge" "/state/ids") 0 (MkDisk ∅ [] 0) in
  match r with
  | Done id =>
      let '(d', r') := auto_Renew (W := toy) "bridgectl-ca" id (20 * Day) (MkDisk (d_files d) [Good; Good; Good; Good; Good; Fails] (d_seed d)) in
      (exists why, r' = Failed why) /\
      match cert_at (d_files d') (id_CertPath id), key_at (d_files d') (id_KeyPath id) with Some c, Some k => c_key c <> k | _, _ => False end
  | _ => False
  end.
Proof. vm_compute; split; [eexists; reflexivity|discriminate]. Qed.
