(* ===== verification/OpenCode.v ===== *)
(** * The OpenCode server provider: internal/provider/opencode_server.go

    A session of this provider is a server process on a port of its own: the ports, the
    metadata of sessions, the command of the process, the calls to the server, and the
    stream of its events.  Whether a port can be listened on, the port the system picks
    and the answers of the server are arguments; binary, arguments and environment are those
    of Adapters. *)

From S2P Require Import Prelude GoStd GoText EnrollServer Config Json RepoSetup Adapters.

Record OpenCodeServerConfig := MkOpenCode {
  oc_ProviderID : list Z; oc_Binary : list Z; oc_DefaultArgs : list (list Z); oc_StartupTimeout : Duration; oc_StopGrace : Duration;
  oc_RequiredEnv : list (list Z); oc_Hostname : list Z; oc_PortRangeStart : Z; oc_PortRangeEnd : Z; oc_ProviderRoot : list Z }.

Record openCodeSessionMeta := MkMeta { mt_Port : Z; mt_BaseURL : list Z }.

Record OpenCodeServerProvider := MkOpenCodeProvider {
  op_cfg : OpenCodeServerConfig; op_unavailable : option string; op_sessions : gmap string openCodeSessionMeta }.

Definition NewOpenCodeServerProvider (c : OpenCodeServerConfig) : OpenCodeServerProvider :=
  MkOpenCodeProvider
    (MkOpenCode (oc_ProviderID c) (oc_Binary c) (oc_DefaultArgs c)
       (if oc_StartupTimeout c <=? 0 then 30 * Second else oc_StartupTimeout c) (if oc_StopGrace c <=? 0 then 10 * Second else oc_StopGrace c)
       (oc_RequiredEnv c) (match oc_Hostname c with [] => chars "127.0.0.1" | h => h end)
       (if oc_PortRangeStart c <=? 0 then 4100 else oc_PortRangeStart c) (if oc_PortRangeEnd c <=? 0 then 4200 else oc_PortRangeEnd c) (oc_ProviderRoot c))
    None ∅.

Definition SetUnavailable (err : option string) (p : OpenCodeServerProvider) : OpenCodeServerProvider :=
  MkOpenCodeProvider (op_cfg p) err (op_sessions p).

(** ** Ports *)

Definition used_ports (p : OpenCodeServerProvider) : list Z := map (fun kv => mt_Port kv.2) (map_to_list (op_sessions p)).

(** The loop over the range; [listens]: whether the port could be listened on. *)
Fixpoint try_ports (used : list Z) (listens : Z -> bool) (port : Z) (n : nat) : option Z :=
  match n with
  | O => None
  | S n => if bool_decide (port ∈ used) then try_ports used listens (port + 1) n
           else if listens port then Some port
           else try_ports used listens (port + 1) n
  end.

(** [system]: the port the system picks, if it has one. *)
Definition allocatePort (p : OpenCodeServerProvider) (listens : Z -> bool) (system : option Z) : option Z :=
  let c := op_cfg p in
  match try_ports (used_ports p) listens (oc_PortRangeStart c) (Z.to_nat (oc_PortRangeEnd c - oc_PortRangeStart c)) with
  | Some port => Some port
  | None => system
  end.

Definition baseURL (c : OpenCodeServerConfig) (port : Z) : list Z := chars "http://" ++ JoinHostPort (oc_Hostname c) (Itoa port).

Definition record_session (sessionID : string) (port : Z) (p : OpenCodeServerProvider) : OpenCodeServerProvider :=
  MkOpenCodeProvider (op_cfg p) (op_unavailable p) (<[sessionID := MkMeta port (baseURL (op_cfg p) port)]> (op_sessions p)).

Definition CleanupSession (sessionID : string) (p : OpenCodeServerProvider) : OpenCodeServerProvider :=
  MkOpenCodeProvider (op_cfg p) (op_unavailable p) (delete sessionID (op_sessions p)).

Section opencode.
Context `{W : AdapterWorld}.

(** ** The command of a session *)

(** The first part of [BuildCommand]: everything but recording the session. *)
Definition serve_command (p : OpenCodeServerProvider) (repo : list Z) (options : list (list Z * list Z)) (env : option (list (list Z)))
    (listens : Z -> bool) (system : option Z) : string + (Z * command) :=
  let c := op_cfg p in
  match resolveBinaryPath (oc_Binary c) (oc_ProviderRoot c) with
  | None => inl "resolve binary"
  | Some bin =>
      match allocatePort p listens system with
      | None => inl "allocate port"
      | Some port =>
          match resolveCommandArgs (oc_DefaultArgs c) (oc_ProviderRoot c) with
          | None => inl "resolve args"
          | Some args =>
              let extra := map snd (List.filter (fun kv => has_prefix (chars "arg:") kv.1) options) in
              let args := args ++ [chars "serve"; chars "--hostname"; oc_Hostname c; chars "--port"; Itoa port] ++ extra in
              inr (port, MkCommand bin (bin :: args) repo (default (FilterEnv daemon_env) env))
          end
      end
  end.

Definition opencode_BuildCommand (sessionID : string) (p : OpenCodeServerProvider) (repo : list Z) (options : list (list Z * list Z))
    (env : option (list (list Z))) (listens : Z -> bool) (system : option Z) : OpenCodeServerProvider * (string + command) :=
  match serve_command p repo options env listens system with
  | inl e => (p, inl e)
  | inr (port, cmd) => (record_session sessionID port p, inr cmd)
  end.

Definition opencode_ValidateStartup (p : OpenCodeServerProvider) : option string :=
  if existsb (fun name => bool_decide (TrimSpace (envValue daemon_env name) = [])) (oc_RequiredEnv (op_cfg p)) then Some "requires env var" else None.

Definition opencode_HealthWithEnv (p : OpenCodeServerProvider) (env : list (list Z)) : option string :=
  let c := op_cfg p in
  HealthWithEnv (MkStdio (oc_ProviderID c) (oc_Binary c) (oc_DefaultArgs c) [] false (oc_RequiredEnv c) (oc_ProviderRoot c)) (op_unavailable p) env.
End opencode.

(** ** Calls to the server *)

Definition SessionBaseURL (p : OpenCodeServerProvider) (sessionID : string) : option (list Z) := mt_BaseURL <$> op_sessions p !! sessionID.

(** [WaitForHealth]: the answers to its polls, [None] for one that failed; the list ends when the
    context does. *)
Fixpoint healthy (answers : list (option Z)) : bool :=
  match answers with
  | [] => false
  | Some 200 :: _ => true
  | _ :: answers => healthy answers
  end.

Definition WaitForHealth (p : OpenCodeServerProvider) (sessionID : string) (answers : list (option Z)) : option string :=
  match SessionBaseURL p sessionID with
  | None => Some "no session metadata"
  | Some _ => if healthy answers then None else Some "health check timed out"
  end.

Record http_post := MkPost { po_URL : list Z; po_Body : list Z }.

(** A POST and what its answer means; [status]: [None] when there is no answer. *)
Definition posted (status : option Z) : option string :=
  match status with
  | None => Some "send"
  | Some s => if 400 <=? s then Some "failed with status" else None
  end.

Definition prompt_body (prompt : list Z) : list Z := print (JObj [(chars "content", JStr prompt)]).

Definition SendPrompt (p : OpenCodeServerProvider) (sessionID : string) (prompt : list Z) (status : option Z) : option http_post * option string :=
  match SessionBaseURL p sessionID with
  | None => (None, Some "no session metadata")
  | Some url => (Some (MkPost (url ++ chars "/session/prompt") (prompt_body prompt)), posted status)
  end.

Definition AbortTurn (p : OpenCodeServerProvider) (sessionID : string) (status : option Z) : option http_post * option string :=
  match SessionBaseURL p sessionID with
  | None => (None, Some "no session metadata")
  | Some url => (Some (MkPost (url ++ chars "/session/abort") []), posted status)
  end.

(** ** Events *)

Record SSEEvent := MkSSE { ev_Event : list Z; ev_Data : list Z; ev_ID : list Z }.
Definition no_event : SSEEvent := MkSSE [] [] [].

Definition sseMaxTokenSize : nat := Z.to_nat (1024 * 1024).

(** The lines the scanner returns: it stops at one that does not fit its buffer. *)
Fixpoint fitting (max : nat) (lines : list (list Z)) : list (list Z) :=
  match lines with
  | [] => []
  | l :: lines => if (length l <? max)%nat then drop_cr l :: fitting max lines else []
  end.

Definition sse_line (event : SSEEvent) (line : list Z) : SSEEvent * list SSEEvent :=
  if has_prefix (chars "event:") line then (MkSSE (TrimSpace (TrimPrefix (chars "event:") line)) (ev_Data event) (ev_ID event), [])
  else if has_prefix (chars "data:") line then (MkSSE (ev_Event event) (TrimSpace (TrimPrefix (chars "data:") line)) (ev_ID event), [])
  else if has_prefix (chars "id:") line then (MkSSE (ev_Event event) (ev_Data event) (TrimSpace (TrimPrefix (chars "id:") line)), [])
  else match line with
       | [] => (no_event, if bool_decide (ev_Event event = []) && bool_decide (ev_Data event = []) then [] else [event])
       | _ => (event, [])
       end.

Fixpoint sse_lines (event : SSEEvent) (lines : list (list Z)) : list SSEEvent :=
  match lines with
  | [] => []
  | l :: lines => let '(event, out) := sse_line event l in out ++ sse_lines event lines
  end.

(** [parseSSEStream] on all that the stream carries; the context may end it after any line. *)
Definition parseSSEStream (max : nat) (stream : list Z) : list SSEEvent := sse_lines no_event (fitting max (scan_lines [] stream)).

Definition OpenCodeServerCapabilities : list string := ["message_input"; "structured_events"].

(** ** Ports are apart *)

Lemma try_ports_Some used listens n : forall port q, try_ports used listens port n = Some q ->
  port <= q < port + Z.of_nat n /\ q ∉ used /\ listens q = true /\ forall r, port <= r < q -> r ∈ used \/ listens r = false.
Proof.
  induction n as [|n IH]; intros port q; cbn [try_ports]; [discriminate|].
  case_bool_decide as Hu; [|destruct (listens port) eqn:El].
  - intros (H1 & H2 & H3 & H4)%IH; split_and!; auto; try lia; intros r Hr; destruct (decide (r = port)) as [->|]; [auto|apply H4; lia].
  - intros [= <-]; split_and!; auto; lia.
  - intros (H1 & H2 & H3 & H4)%IH; split_and!; auto; try lia; intros r Hr; destruct (decide (r = port)) as [->|]; [auto|apply H4; lia].
Qed.

Lemma used_spec p q : q ∈ used_ports p <-> exists sid m, op_sessions p !! sid = Some m /\ mt_Port m = q.
Proof.
  unfold used_ports; rewrite list_elem_of_fmap; split.
  - intros ([sid m] & -> & H%elem_of_map_to_list); eauto.
  - intros (sid & m & H & <-); exists (sid, m); split; [reflexivity|apply elem_of_map_to_list, H].
Qed.

Lemma allocate_unused p listens system q : allocatePort p listens system = Some q -> (forall x, system = Some x -> x ∉ used_ports p) -> q ∉ used_ports p.
Proof. unfold allocatePort; destruct (try_ports _ _ _ _) eqn:E; [intros [= <-] _; apply try_ports_Some in E; tauto|auto]. Qed.

(** What happens to the provider, one build at a time. *)
Inductive opencode_op :=
| Build (sessionID : string) (repo : list Z) (options : list (list Z * list Z)) (env : option (list (list Z))) (listens : Z -> bool) (system : option Z)
| Cleanup (sessionID : string)
| Unavailable (err : option string).

Section runs.
Context `{W : AdapterWorld}.

Definition opencode_step (p : OpenCodeServerProvider) (o : opencode_op) : OpenCodeServerProvider :=
  match o with
  | Build sid repo options env listens system => fst (opencode_BuildCommand sid p repo options env listens system)
  | Cleanup sid => CleanupSession sid p
  | Unavailable err => SetUnavailable err p
  end.

(** The system never picks a port that a tracked session was given. *)
Fixpoint system_apart (p : OpenCodeServerProvider) (os : list opencode_op) : Prop :=
  match os with
  | [] => True
  | o :: os => match o with Build _ _ _ _ _ (Some x) => x ∉ used_ports p | _ => True end /\ system_apart (opencode_step p o) os
  end.

Record apart (p : OpenCodeServerProvider) : Prop := {
  ap_ports : forall a b m n, op_sessions p !! a = Some m -> op_sessions p !! b = Some n -> mt_Port m = mt_Port n -> a = b;
  ap_urls : forall a m, op_sessions p !! a = Some m -> mt_BaseURL m = baseURL (op_cfg p) (mt_Port m) }.

Lemma step_apart p o : match o with Build _ _ _ _ _ (Some x) => x ∉ used_ports p | _ => True end -> apart p -> apart (opencode_step p o).
Proof.
  intros Ho [H1 H2]; destruct o as [sid repo options env listens system|sid|err]; cbn [opencode_step]; [| |split; assumption].
  2:{ split; cbn [CleanupSession op_sessions op_cfg]; [intros a b m n; rewrite !lookup_delete_Some; intros [_ Ha] [_ Hb]; exact (H1 a b m n Ha Hb)|intros a m; rewrite lookup_delete_Some; intros [_ Ha]; exact (H2 a m Ha)]. }
  unfold opencode_BuildCommand; destruct (serve_command _ _ _ _ _ _) as [e|[port cmd]] eqn:E; [split; assumption|].
  assert (Hp : port ∉ used_ports p).
  { unfold serve_command in E; destruct (resolveBinaryPath _ _); [|discriminate]; destruct (allocatePort _ _ _) as [q|] eqn:Ea; [|discriminate].
    destruct (resolveCommandArgs _ _); [|discriminate]; injection E as <- _; eapply allocate_unused; [exact Ea|]; intros x ->; exact Ho. }
  rewrite used_spec in Hp; split; cbn [fst record_session op_sessions op_cfg].
  - intros a b m n; rewrite !lookup_insert_Some; intros [[<- <-]|[Ha Hm]] [[<- <-]|[Hb Hn]]; cbn [mt_Port]; intros Eq; [reflexivity| | |exact (H1 a b m n Hm Hn Eq)].
    + destruct Hp; exists b, n; auto.
    + destruct Hp; exists a, m; auto.
  - intros a m; rewrite lookup_insert_Some; intros [[_ <-]|[_ Hm]]; [reflexivity|exact (H2 a m Hm)].
Qed.

(** One build at a time, and a system that picks no port of a tracked session: the ports of
    tracked sessions are different, and the URL of each is that of its port. *)
Theorem sessions_apart c os : system_apart (NewOpenCodeServerProvider c) os -> apart (foldl opencode_step (NewOpenCodeServerProvider c) os).
Proof.
  assert (H0 : apart (NewOpenCodeServerProvider c)) by (split; cbn; intros *; rewrite lookup_empty; discriminate).
  revert H0; generalize (NewOpenCodeServerProvider c); induction os as [|o os IH]; intros p Hp; [auto|]; intros [H1 H2]; cbn; apply IH; [apply step_apart|]; assumption.
Qed.
End runs.

(** ** Events round-trip *)

Definition print_event (e : SSEEvent) : list Z :=
  chars "event:" ++ ev_Event e ++ [10] ++ chars "data:" ++ ev_Data e ++ [10] ++ chars "id:" ++ ev_ID e ++ [10; 10].

(** A value that one line can carry. *)
Record one_line (max : nat) (x : list Z) : Prop := {
  ol_trim : TrimSpace x = x; ol_newline : 10 ∉ x; ol_cr : forall y, x <> y ++ [13]; ol_fits : (length x + 6 < max)%nat }.

Definition sendable (max : nat) (e : SSEEvent) : Prop :=
  one_line max (ev_Event e) /\ one_line max (ev_Data e) /\ one_line max (ev_ID e) /\ (ev_Event e <> [] \/ ev_Data e <> []).

Lemma scan_line w t : forall cur, 10 ∉ w -> scan_lines cur (w ++ 10 :: t) = (reverse cur ++ w) :: scan_lines [] t.
Proof.
  induction w as [|c w IH]; intros cur Hw; cbn [app]; [rewrite app_nil_r; reflexivity|]; apply not_elem_of_cons in Hw as [Hc Hw].
  assert (E : scan_lines cur (c :: w ++ 10 :: t) = scan_lines (c :: cur) (w ++ 10 :: t)) by (cbn [scan_lines]; repeat (case_match; try congruence)).
  rewrite E, IH by exact Hw; rewrite reverse_cons, <- app_assoc; reflexivity.
Qed.

Lemma drop_cr_id l : (forall y, l <> y ++ [13]) -> drop_cr l = l.
Proof.
  intros H; unfold drop_cr, trim_suffix; destruct (has_prefix _ _) eqn:E; [|reflexivity]; exfalso.
  change (reverse [13]) with [13] in E; destruct (reverse l) as [|c r] eqn:Er; [discriminate|]; cbn [has_prefix] in E; rewrite andb_true_r in E.
  apply Z.eqb_eq in E; subst c; apply (H (reverse r)); rewrite <- (reverse_involutive l), Er, reverse_cons; reflexivity.
Qed.

Lemma field_line max (p : string) x : (forall y, chars p <> y ++ [13]) -> chars p <> [] -> (length (chars p) <= 6)%nat -> one_line max x ->
  forall lines, fitting max ((chars p ++ x) :: lines) = (chars p ++ x) :: fitting max lines.
Proof.
  intros Hp Hne Hl [H1 H2 H3 H4] lines; cbn [fitting].
  replace (length (chars p ++ x) <? max)%nat with true by (symmetry; apply Nat.ltb_lt; rewrite length_app; lia).
  rewrite drop_cr_id; [reflexivity|]; intros y E; destruct x as [|c x _] using rev_ind; [rewrite app_nil_r in E; exact (Hp y E)|].
  rewrite app_assoc in E; apply app_inj_tail in E as [_ ->]; exact (H3 x eq_refl).
Qed.

Lemma prefix_field p x : has_prefix p (p ++ x) = true /\ TrimPrefix p (p ++ x) = x.
Proof.
  assert (H : has_prefix p (p ++ x) = true) by (induction p as [|c p IH]; [reflexivity|]; cbn; rewrite Z.eqb_refl; exact IH).
  split; [exact H|]; unfold TrimPrefix; rewrite H, drop_app_length; reflexivity.
Qed.

Lemma sse_event_line e x : TrimSpace x = x -> sse_line e (chars "event:" ++ x) = (MkSSE x (ev_Data e) (ev_ID e), []).
Proof. intros H; unfold sse_line; rewrite (proj1 (prefix_field (chars "event:") x)), (proj2 (prefix_field (chars "event:") x)), H; reflexivity. Qed.

Lemma sse_data_line e x : TrimSpace x = x -> sse_line e (chars "data:" ++ x) = (MkSSE (ev_Event e) x (ev_ID e), []).
Proof.
  intros H; unfold sse_line; change (has_prefix (chars "event:") (chars "data:" ++ x)) with false; cbv iota.
  rewrite (proj1 (prefix_field (chars "data:") x)), (proj2 (prefix_field (chars "data:") x)), H; reflexivity.
Qed.

Lemma sse_id_line e x : TrimSpace x = x -> sse_line e (chars "id:" ++ x) = (MkSSE (ev_Event e) (ev_Data e) x, []).
Proof.
  intros H; unfold sse_line; change (has_prefix (chars "event:") (chars "id:" ++ x)) with false; change (has_prefix (chars "data:") (chars "id:" ++ x)) with false; cbv iota.
  rewrite (proj1 (prefix_field (chars "id:") x)), (proj2 (prefix_field (chars "id:") x)), H; reflexivity.
Qed.

(** Events of one line each are read as they were written, whatever their number. *)
Theorem sse_roundtrip max es : Forall (sendable max) es -> parseSSEStream max (flat_map print_event es) = es.
Proof.
  unfold parseSSEStream; induction es as [|e es IH]; intros H; [reflexivity|]; apply Forall_cons_iff in H as [(H1 & H2 & H3 & H4) H].
  assert (Hno : forall (p : string) x, 10 ∉ chars p -> 10 ∉ x -> 10 ∉ chars p ++ x) by (intros p x ? ? [?|?]%elem_of_app; auto).
  assert (N : forall p : string, bool_decide (10 ∉ chars p) = true -> 10 ∉ chars p) by (intros p Hp; apply (bool_decide_eq_true_1 _ Hp)).
  assert (C : forall (p : string) y, bool_decide (head (reverse (chars p)) = Some 13) = false -> chars p <> y ++ [13]).
  { intros p y Hp E; apply bool_decide_eq_false in Hp; apply Hp; rewrite E, reverse_app; reflexivity. }
  pose proof (ol_newline _ _ H1); pose proof (ol_newline _ _ H2); pose proof (ol_newline _ _ H3).
  cbn [flat_map]; unfold print_event at 1; rewrite <- !app_assoc; cbn [app].
  assert (E : forall (p : string) x t, 10 ∉ chars p -> 10 ∉ x -> scan_lines [] (chars p ++ x ++ 10 :: t) = (chars p ++ x) :: scan_lines [] t)
    by (intros p x t Hp Hx; rewrite app_assoc, scan_line by auto; reflexivity).
  rewrite !E by (try assumption; apply N; reflexivity); change (scan_lines [] (10 :: ?t)) with ([] :: scan_lines [] t).
  rewrite !field_line by (try assumption; try (intros y; apply C; reflexivity); try discriminate; cbn; lia).
  cbn [fitting length]; replace (0 <? max)%nat with true by (symmetry; apply Nat.ltb_lt; pose proof (ol_fits _ _ H1); lia).
  cbn [sse_lines]; rewrite sse_event_line by apply H1; rewrite sse_data_line by apply H2; rewrite sse_id_line by apply H3; cbn [app sse_lines].
  change (drop_cr []) with (@nil Z); cbn [sse_line has_prefix chars bytes_of_string]; cbn [ev_Event ev_Data ev_ID].
  destruct e as [a b c]; cbn in H4 |- *; rewrite IH by exact H.
  destruct (bool_decide (a = [])) eqn:Ea, (bool_decide (b = [])) eqn:Eb; try reflexivity.
  apply bool_decide_eq_true in Ea, Eb; destruct H4; congruence.
Qed.

(** ** Concrete runs *)

Definition toy_config : OpenCodeServerConfig := MkOpenCode (chars "opencode") (chars "/bin/opencode") [] 0 0 [] [] 4100 4102 [].
#[local] Instance toy_adapters : AdapterWorld := {|
  working_dir := None; LookPath _ := None; daemon_env := []; file_mode _ := NoStat; platform := chars "linux"; keychain := false;
  decode_codex _ := None; decode_claude _ := None |}.

(** The port is chosen before the session is recorded: of two sessions that are built at the same time
    both get the first free port. *)
Lemma concurrent_builds_collide :
  let p := NewOpenCodeServerProvider toy_config in
  let build := serve_command p [] [] None (fun _ => true) None in
  match build, build with
  | inr (a, _), inr (b, _) => ~ apart (record_session "two" b (record_session "one" a p))
  | _, _ => False
  end.
Proof.
  vm_compute; intros [H _]; specialize (H "one" "two" (MkMeta 4100 (baseURL (op_cfg (NewOpenCodeServerProvider toy_config)) 4100)) (MkMeta 4100 (baseURL (op_cfg (NewOpenCodeServerProvider toy_config)) 4100)) eq_refl eq_refl eq_refl); discriminate.
Qed.

(** Nothing outside the tests calls CleanupSession: the ports of the range are given out once, and
    when they are used up a build fails although every port is free, unless the system picks one. *)
Lemma ports_run_out :
  let build sid p := fst (opencode_BuildCommand sid p [] [] None (fun _ => true) None) in
  let p := build "two" (build "one" (NewOpenCodeServerProvider toy_config)) in
  serve_command p [] [] None (fun _ => true) None = inl "allocate port".
Proof. vm_compute; reflexivity. Qed.

(** An event whose data has several lines is read as its last line. *)
Lemma data_lines_lost :
  parseSSEStream sseMaxTokenSize (chars "data: one" ++ [10] ++ chars "data: two" ++ [10; 10]) = [MkSSE [] (chars "two") []].
Proof. vm_compute; reflexivity. Qed.

(** A stream that stops in the middle of an event, and one with a comment. *)
Example sse_example :
  parseSSEStream sseMaxTokenSize (chars ": hello" ++ [10] ++ chars "event: message" ++ [13; 10] ++ chars "data: {}" ++ [10; 10] ++ chars "data: rest") =
  [MkSSE (chars "message") (chars "{}") []].
Proof. vm_compute; reflexivity. Qed.
