(* ===== verification/Reloader.v ===== *)
(** * TLS material of a running daemon: internal/auth/mtls.go

    Listeners take their certificate from a [CertReloader], which looks at the
    modification time of the certificate file in every handshake and reads the pair again
    when it changed; the files are those that Pki writes.  A file is a content with its
    modification time. *)

From S2P Require Import Prelude Types Disk Pki.

Record stamped := MkStamped { sf_content : content; sf_mtime : Time }.

Notation tree := (gmap string stamped).

(** [tls.LoadX509KeyPair] (Pki) on files at rest. *)
Definition load_pair (t : tree) (certPath keyPath : string) : option cert :=
  match t !! certPath, t !! keyPath with
  | Some x, Some y =>
      match certs_in (sf_content x), keys_in (sf_content y) with
      | c :: _, k :: _ => if c_key c =? k then Some c else None
      | _, _ => None
      end
  | _, _ => None
  end.

Definition ModTime (t : tree) (p : string) : option Time := sf_mtime <$> t !! p.

Record CertReloader := MkReloader { cr_certPath : string; cr_keyPath : string; cr_cert : cert; cr_modTime : option Time }.

Definition reload (t : tree) (r : CertReloader) : option CertReloader :=
  c ← load_pair t (cr_certPath r) (cr_keyPath r);
  Some (MkReloader (cr_certPath r) (cr_keyPath r) c (ModTime t (cr_certPath r))).

Definition NewCertReloader (t : tree) (certPath keyPath : string) : option CertReloader :=
  c ← load_pair t certPath keyPath;
  Some (MkReloader certPath keyPath c (ModTime t certPath)).

(** A failed reload keeps what is cached. *)
Definition maybeReload (t : tree) (r : CertReloader) : CertReloader :=
  match ModTime t (cr_certPath r) with
  | None => r
  | Some m => if bool_decide (cr_modTime r = Some m) then r else default r (reload t r)
  end.

Definition GetCertificate (t : tree) (r : CertReloader) : CertReloader * cert :=
  let r := maybeReload t r in (r, cr_cert r).

Definition Reload (t : tree) (r : CertReloader) : CertReloader * bool :=
  match reload t r with Some r => (r, true) | None => (r, false) end.

(** ** Configurations *)

Record TLSConfig := MkTLS { tc_CABundlePath : string; tc_CertPath : string; tc_KeyPath : string; tc_ServerName : string }.

Inductive client_auth := NoClientCert | RequireAndVerifyClientCert.

Record tls_config := MkTLSConfig {
  tls_MinVersion13 : bool; tls_reloader : option CertReloader; tls_Certificates : list cert; tls_ClientAuth : client_auth;
  tls_ClientCAs : list cert; tls_RootCAs : list cert; tls_ServerName : string }.

Definition loadCAPool (t : tree) (path : string) : string + list cert :=
  match t !! path with
  | None => inl "read ca bundle"
  | Some x => match certs_in (sf_content x) with [] => inl "no valid certs in ca bundle" | cs => inr cs end
  end.

Definition server_config (auth : client_auth) (t : tree) (cfg : TLSConfig) : string + tls_config :=
  match loadCAPool t (tc_CABundlePath cfg) with
  | inl e => inl e
  | inr pool => match NewCertReloader t (tc_CertPath cfg) (tc_KeyPath cfg) with
                | None => inl "init cert reloader"
                | Some r => inr (MkTLSConfig true (Some r) [] auth pool [] "")
                end
  end.

Definition ServerTLSConfig : tree -> TLSConfig -> string + tls_config := server_config RequireAndVerifyClientCert.
Definition ServerTLSOnlyConfig : tree -> TLSConfig -> string + tls_config := server_config NoClientCert.

Definition ClientTLSOnlyConfig (t : tree) (cfg : TLSConfig) : string + tls_config :=
  match loadCAPool t (tc_CABundlePath cfg) with
  | inl e => inl e
  | inr pool => inr (MkTLSConfig true None [] NoClientCert [] pool (tc_ServerName cfg))
  end.

Definition ClientTLSConfig (t : tree) (cfg : TLSConfig) : string + tls_config :=
  match loadCAPool t (tc_CABundlePath cfg) with
  | inl e => inl e
  | inr pool => match load_pair t (tc_CertPath cfg) (tc_KeyPath cfg) with
                | None => inl "load client keypair"
                | Some c => inr (MkTLSConfig true None [c] NoClientCert [] pool (tc_ServerName cfg))
                end
  end.

(** ** Handshakes and writes *)

Inductive tls_event :=
| Put (path : string) (x : stamped)
| Gone (path : string)
| Handshake
| Force.

Definition file_event (t : tree) (e : tls_event) : tree :=
  match e with Put p x => <[p := x]> t | Gone p => delete p t | _ => t end.

(** The code: files, reloader and the certificates that handshakes got. *)
Record tls_run := MkRun { tr_files : tree; tr_reloader : CertReloader; tr_served : list cert }.

Definition tls_step (s : tls_run) (e : tls_event) : tls_run :=
  match e with
  | Handshake => let '(r, c) := GetCertificate (tr_files s) (tr_reloader s) in MkRun (tr_files s) r (tr_served s ++ [c])
  | Force => MkRun (tr_files s) (fst (Reload (tr_files s) (tr_reloader s))) (tr_served s)
  | _ => MkRun (file_event (tr_files s) e) (tr_reloader s) (tr_served s)
  end.

(** What it should do: the pair on disk if there is one, or the one before. *)
Record tls_spec := MkSpec { ts_files : tree; ts_current : cert; ts_served : list cert }.

Definition spec_step (cp kp : string) (s : tls_spec) (e : tls_event) : tls_spec :=
  let latest := default (ts_current s) (load_pair (ts_files s) cp kp) in
  match e with
  | Handshake => MkSpec (ts_files s) latest (ts_served s ++ [latest])
  | Force => MkSpec (ts_files s) latest (ts_served s)
  | _ => MkSpec (file_event (ts_files s) e) (ts_current s) (ts_served s)
  end.

(** Every write of the certificate file has a modification time of its own. *)
Fixpoint own_stamps (cp : string) (seen : list Time) (es : list tls_event) : Prop :=
  match es with
  | [] => True
  | Put p x :: es => if bool_decide (p = cp) then sf_mtime x ∉ seen /\ own_stamps cp (sf_mtime x :: seen) es else own_stamps cp seen es
  | _ :: es => own_stamps cp seen es
  end.

Record follows (cp kp : string) (seen : list Time) (s : tls_run) (q : tls_spec) : Prop := {
  fo_files : ts_files q = tr_files s;
  fo_served : ts_served q = tr_served s;
  fo_current : ts_current q = cr_cert (tr_reloader s);
  fo_paths : cr_certPath (tr_reloader s) = cp /\ cr_keyPath (tr_reloader s) = kp;
  fo_seen : forall x, tr_files s !! cp = Some x -> sf_mtime x ∈ seen;
  fo_mod : forall m, cr_modTime (tr_reloader s) = Some m -> m ∈ seen;
  fo_cached : forall x, tr_files s !! cp = Some x -> cr_modTime (tr_reloader s) = Some (sf_mtime x) -> head (certs_in (sf_content x)) = Some (cr_cert (tr_reloader s)) }.

Lemma load_pair_head t cp kp c : load_pair t cp kp = Some c -> exists x, t !! cp = Some x /\ head (certs_in (sf_content x)) = Some c.
Proof.
  unfold load_pair; intros H; repeat case_match; simplify_eq; eexists; split; [reflexivity|]; rewrite H2; reflexivity.
Qed.

Lemma reload_pair cp kp t r : cr_certPath r = cp -> cr_keyPath r = kp ->
  match load_pair t cp kp with
  | Some c => exists x, t !! cp = Some x /\ reload t r = Some (MkReloader cp kp c (Some (sf_mtime x))) /\ head (certs_in (sf_content x)) = Some c
  | None => reload t r = None
  end.
Proof.
  intros <- <-; unfold reload, ModTime; destruct (load_pair _ _ _) as [c|] eqn:E; [|reflexivity].
  destruct (load_pair_head _ _ _ _ E) as (x & Hx & Hc); exists x; rewrite Hx; auto.
Qed.

Lemma maybe_reload_served t r : (forall x, t !! cr_certPath r = Some x -> cr_modTime r = Some (sf_mtime x) -> head (certs_in (sf_content x)) = Some (cr_cert r)) ->
  cr_cert (maybeReload t r) = default (cr_cert r) (load_pair t (cr_certPath r) (cr_keyPath r)).
Proof.
  intros H; pose proof (reload_pair _ _ t r eq_refl eq_refl) as Hr; unfold maybeReload, ModTime.
  destruct (load_pair t (cr_certPath r) (cr_keyPath r)) as [c|] eqn:E.
  - destruct Hr as (x & Hx & Hr & Hc); rewrite Hx; cbn; case_bool_decide as Hm; [specialize (H x Hx Hm); congruence|rewrite Hr; reflexivity].
  - destruct (t !! cr_certPath r) as [x|]; cbn; [|reflexivity]; case_bool_decide; [reflexivity|rewrite Hr; reflexivity].
Qed.

(** A reloader after a reload, forced or not: its paths, and what its time says. *)
Definition consistent (cp kp : string) (seen : list Time) (t : tree) (r : CertReloader) : Prop :=
  (cr_certPath r = cp /\ cr_keyPath r = kp) /\ (forall m, cr_modTime r = Some m -> m ∈ seen) /\
  (forall x, t !! cp = Some x -> cr_modTime r = Some (sf_mtime x) -> head (certs_in (sf_content x)) = Some (cr_cert r)).

Lemma reload_consistent cp kp seen t r : (forall x, t !! cp = Some x -> sf_mtime x ∈ seen) -> consistent cp kp seen t r ->
  consistent cp kp seen t (default r (reload t r)) /\ cr_cert (default r (reload t r)) = default (cr_cert r) (load_pair t cp kp).
Proof.
  intros Hs ((P1 & P2) & Hm & Hc); pose proof (reload_pair cp kp t r P1 P2) as Hr; destruct (load_pair t cp kp) as [c|].
  - destruct Hr as (x & Hx & -> & Hh); cbn; split; [|reflexivity]; split_and!; auto; cbn; [intros m [= <-]; eauto|].
    intros y Hy _; rewrite Hx in Hy; injection Hy as <-; exact Hh.
  - rewrite Hr; cbn; split; [split_and!|]; auto.
Qed.

Lemma maybe_consistent cp kp seen t r : (forall x, t !! cp = Some x -> sf_mtime x ∈ seen) -> consistent cp kp seen t r -> consistent cp kp seen t (maybeReload t r).
Proof.
  intros Hs H; unfold maybeReload; destruct (ModTime _ _); [|exact H]; case_bool_decide; [exact H|apply reload_consistent; assumption].
Qed.

Ltac look_at := cbn [tls_step spec_step file_event tr_files tr_reloader tr_served ts_files ts_current ts_served].

Lemma tls_follows cp kp seen e es s q : own_stamps cp seen (e :: es) -> follows cp kp seen s q ->
  exists seen', own_stamps cp seen' es /\ follows cp kp seen' (tls_step s e) (spec_step cp kp q e).
Proof.
  intros Ho [F1 F2 F3 F4 F5 F6 F7]; assert (C : consistent cp kp seen (tr_files s) (tr_reloader s)) by (split_and!; tauto || assumption).
  destruct e as [p x|p| |]; cbn [own_stamps] in Ho.
  - case_bool_decide as Hp.
    + subst p; destruct Ho as [Hx Ho]; exists (sf_mtime x :: seen); split; [exact Ho|]; split; look_at; auto; [rewrite F1; reflexivity|..].
      * intros y; rewrite lookup_insert_eq; intros [= <-]; apply elem_of_cons; auto.
      * intros m Hm; apply elem_of_cons; eauto.
      * intros y; rewrite lookup_insert_eq; intros [= <-] Hm; destruct Hx; eauto.
    + exists seen; split; [exact Ho|]; split; look_at; auto; [rewrite F1; reflexivity|..]; intros y; rewrite lookup_insert_ne by exact Hp; eauto.
  - exists seen; split; [exact Ho|]; split; look_at; auto; [rewrite F1; reflexivity|..]; intros y Hy; apply lookup_delete_Some in Hy as [_ Hy]; eauto.
  - exists seen; split; [exact Ho|]; destruct F4 as [P1 P2]; pose proof (maybe_reload_served (tr_files s) (tr_reloader s)) as Hm; rewrite P1, P2 in Hm; specialize (Hm F7).
    destruct (maybe_consistent cp kp seen _ _ F5 C) as (Q1 & Q2 & Q3); split; look_at; unfold GetCertificate; look_at; [exact F1| | |exact Q1|exact F5|exact Q2|exact Q3];
      rewrite Hm, F1, F3, ?F2; reflexivity.
  - exists seen; split; [exact Ho|]; destruct (reload_consistent cp kp seen _ _ F5 C) as ((Q1 & Q2 & Q3) & Hc); unfold tls_step, Reload.
    destruct (reload (tr_files s) (tr_reloader s)) as [r|]; cbn [default] in *; (split; look_at; cbn [fst]; [exact F1|exact F2| |exact Q1|exact F5|exact Q2|exact Q3]); rewrite F1, F3; symmetry; exact Hc.
Qed.

(** Handshakes get the certificate on disk: whatever is written and removed between them, each
    handshake is given the certificate of the pair that is on disk then, or, while the two
    files do not match or cannot be read, the one before. *)
Theorem handshakes_get_latest t cp kp r es : NewCertReloader t cp kp = Some r ->
  own_stamps cp (match ModTime t cp with Some m => [m] | None => [] end) es ->
  tr_served (foldl tls_step (MkRun t r []) es) = ts_served (foldl (spec_step cp kp) (MkSpec t (cr_cert r) []) es).
Proof.
  intros Hr Ho.
  assert (H0 : follows cp kp (match ModTime t cp with Some m => [m] | None => [] end) (MkRun t r []) (MkSpec t (cr_cert r) [])).
  { unfold NewCertReloader in Hr; destruct (load_pair t cp kp) as [c|] eqn:E; [|discriminate]; injection Hr as <-.
    destruct (load_pair_head _ _ _ _ E) as (x & Hx & Hc); unfold ModTime; rewrite Hx; cbn; split; cbn; auto; rewrite ?Hx; cbn.
    - intros y [= <-]; apply elem_of_cons; auto.
    - intros m [= <-]; apply elem_of_cons; auto.
    - intros y [= <-] _; exact Hc. }
  revert Ho H0; generalize (match ModTime t cp with Some m => [m] | None => [] end), (MkRun t r []), (MkSpec t (cr_cert r) []).
  induction es as [|e es IH]; intros seen s q Ho H; [symmetry; apply H|]; cbn [foldl].
  destruct (tls_follows _ _ _ _ _ _ _ Ho H) as (seen' & Ho' & H'); exact (IH _ _ _ Ho' H').
Qed.

(** ** A race *)

(** A reload reads the two files and then looks at the time of the certificate. *)
Definition reload_in_two (before between : tree) (r : CertReloader) : CertReloader :=
  match load_pair before (cr_certPath r) (cr_keyPath r) with
  | None => r
  | Some c => MkReloader (cr_certPath r) (cr_keyPath r) c (ModTime between (cr_certPath r))
  end.

(** A renewal between the two: the old certificate is cached with the time of the new one, and no
    handshake looks at the files again until they change once more. *)
Lemma renewal_missed :
  let old := MkCert "server" 1 9 [] [] 0 10 false true in
  let new := MkCert "server" 2 9 [] [] 5 15 false true in
  let files c k m : tree := {["server.crt" := MkStamped [BCert c] m; "server.key" := MkStamped [BKey k] m]} in
  let r := reload_in_two (files old 1 1) (files new 2 2) (MkReloader "server.crt" "server.key" old None) in
  load_pair (files new 2 2) "server.crt" "server.key" = Some new /\ GetCertificate (files new 2 2) r = (r, old).
Proof. vm_compute; split; reflexivity. Qed.
