(* ===== verification/GitContext.v ===== *)
(** * What a session is called in telemetry: internal/telemetry/context.go

    The key of a machine, created once however many daemons start at the same time, and the
    context of a session: keyed digests of its directory and repository, its branch and
    commit.  Reading and looking for files, [url.Parse] and HMAC-SHA256 are the class
    [GitWorld]; the record is that of Batches, which sends it, and Collect says what the
    collector accepts. *)

From S2P Require Import Prelude GoStd GoText EnrollServer Config Batches Questions KeyRegistry Collect CertProvider RepoSetup.

Definition identityKeyBytes : nat := 32.

(** ** The key *)

(** What is at the path of the key. *)
Inductive key_file := NoKey | KeyBytes (k : list Z) | NotRegular.

(** [readIdentityKey]; [secured]: whether the mode could be set. *)
Inductive key_answer := KeyIs (k : list Z) | KeyMissing | KeyError.

Definition readIdentityKey (f : key_file) (secured : bool) : key_answer :=
  match f with
  | NoKey => KeyMissing
  | NotRegular => KeyError
  | KeyBytes k => if negb (length k =? identityKeyBytes)%nat then KeyError else if secured then KeyIs k else KeyError
  end.

(** Where a process is in [LoadOrCreateIdentityKey]. *)
Inductive key_phase :=
| Reading                      (* before the first read *)
| Making                       (* there was no key *)
| Linking (k : list Z)         (* a key of its own is in a temporary file *)
| Again                        (* the name was taken *)
| Syncing (k : list Z)         (* its key has the name *)
| Loaded (k : list Z)
| Ended.                       (* an error, or the process ended *)

(** One step; [ok]: whether the operation works; [random]: the key that is generated. *)
Definition key_step (f : key_file) (ph : key_phase) (ok : bool) (random : list Z) : key_file * key_phase :=
  match ph with
  | Reading => match readIdentityKey f ok with
               | KeyIs k => (f, Loaded k)
               | KeyMissing => (f, Making)
               | KeyError => (f, Ended)
               end
  | Making => (f, if ok then Linking random else Ended)
  | Linking k => match f with
                 | NoKey => if ok then (KeyBytes k, Syncing k) else (f, Ended)
                 | _ => (f, Again)
                 end
  | Again => (f, match readIdentityKey f ok with KeyIs k => Loaded k | _ => Ended end)
  | Syncing k => (f, if ok then Loaded k else Ended)
  | Loaded k => (f, Loaded k)
  | Ended => (f, Ended)
  end.

(** Any number of processes; a process may end at any time. *)
Inductive key_event := Runs (i : nat) (ok : bool) (random : list Z) | Dies (i : nat).

Record key_world := MkKeys { kw_file : key_file; kw_phases : list key_phase }.

Definition key_happens (w : key_world) (e : key_event) : key_world :=
  match e with
  | Runs i ok random =>
      match kw_phases w !! i with
      | Some ph => let '(f, ph) := key_step (kw_file w) ph ok random in MkKeys f (<[i := ph]> (kw_phases w))
      | None => w
      end
  | Dies i => MkKeys (kw_file w) (<[i := Ended]> (kw_phases w))
  end.

(** ** The context *)

Class GitWorld := {
  gw_wd : option (list Z);
  gw_stat : list Z -> option bool;      (* os.Stat: whether it is a directory *)
  gw_read : list Z -> option (list Z);
  gw_url : list Z -> option (list Z * list Z * list Z);  (* url.Parse: scheme, host name, escaped path *)
  gw_hmac : list Z -> list Z -> list Z; (* in hexadecimal *)
  gw_fold : Z -> Z -> bool;             (* folding beyond ASCII *)
  gw_lower : Z -> list Z;
  gw_os : list Z;
  gw_arch : list Z;
}.

Section context.
Context `{W : GitWorld}.

Definition keyedID (key value : list Z) : list Z := gw_hmac key value.

Definition DirL (p : list Z) : list Z := match upto_last_sep p with Some d => Clean d | None => DOT end.

Definition IsAbs (p : list Z) : bool := has_prefix [SEP] p.

Definition GIT : list Z := chars ".git".
Definition GITDIR : list Z := chars "gitdir:".

(** What is at one directory on the way up. *)
Definition git_here (current : list Z) : option (list Z) :=
  let candidate := Join current GIT in
  match gw_stat candidate with
  | None => None
  | Some true => Some candidate
  | Some false =>
      match gw_read candidate with
      | None => None
      | Some data =>
          let line := TrimSpace data in
          if has_prefix GITDIR line then
            let gitDir := TrimSpace (TrimPrefix GITDIR line) in
            Some (Clean (if IsAbs gitDir then gitDir else Join current gitDir))
          else None
      end
  end.

(** The loop; [None]: more directories than [fuel]. *)
Fixpoint find_git (fuel : nat) (current : list Z) : option (option (list Z * list Z)) :=
  match fuel with
  | O => None
  | S fuel =>
      match git_here current with
      | Some gitDir => Some (Some (current, gitDir))
      | None => let parent := DirL current in if bool_decide (parent = current) then Some None else find_git fuel parent
      end
  end.

Definition findGitDirectory (start : list Z) : option (list Z * list Z) := default None (find_git (S (length start)) start).

Definition bad_in_path (c : Z) : bool := (c =? 13) || (c =? 10) || (c =? 0).

Definition gitCommonDirectory (gitDir : list Z) : list Z :=
  match gw_read (Join gitDir (chars "commondir")) with
  | None => gitDir
  | Some data =>
      match TrimSpace data with
      | [] => gitDir
      | commonDir =>
          if existsb bad_in_path commonDir then gitDir
          else let commonDir := Clean (if IsAbs commonDir then commonDir else Join gitDir commonDir) in
               match gw_stat commonDir with Some true => commonDir | _ => gitDir end
      end
  end.

Definition fold_equal (a b : list Z) : bool := EqualFold gw_fold (text a) (text b).

(** The header of the section of the remote origin; 34 is the quote. *)
Definition ORIGIN : list Z := chars "[remote " ++ [34] ++ chars "origin" ++ [34] ++ chars "]".

(** The lines of a git configuration; a line that does not fit the scanner ends them. *)
Fixpoint origin_url (inOrigin : bool) (lines : list (list Z)) : list Z :=
  match lines with
  | [] => []
  | raw :: lines =>
      if negb (zlen raw <? MaxScanTokenSize) then []
      else
        let line := TrimSpace (drop_cr raw) in
        if has_prefix [91] line then origin_url (fold_equal line ORIGIN) lines
        else match (if inOrigin then Cut EQ line else None) with
             | Some (key, value) => if fold_equal (TrimSpace key) (chars "url") then TrimSpace value else origin_url inOrigin lines
             | None => origin_url inOrigin lines
             end
  end.

Definition readOriginRemote (path : list Z) : list Z :=
  match gw_read (Clean path) with None => [] | Some data => origin_url false (scan_lines [] data) end.

Definition repo_path (p : list Z) : list Z := trim_suffix GIT (trim_suffix [SEP] p).

Definition canonicalRemote (remote : list Z) : list Z :=
  match TrimSpace remote with
  | [] => []
  | remote =>
      match gw_url remote with
      | Some ((_ :: _) as scheme, (_ :: _) as host, path) => ToLower gw_lower scheme ++ chars "://" ++ ToLower gw_lower host ++ repo_path path
      | _ =>
          match Cut 58 remote with
          | Some ((_ :: _) as before, path) =>
              if Contains [SEP] before then []
              else let host := match CutLast 64 before with Some (_, host) => host | None => before end in
                   chars "ssh://" ++ ToLower gw_lower host ++ [SEP] ++ repo_path path
          | _ => []
          end
      end
  end.

Definition readGitHead (gitDir commonDir : list Z) : list Z * list Z :=
  match gw_read (Join gitDir (chars "HEAD")) with
  | None => ([], [])
  | Some data =>
      let head := TrimSpace data in
      if negb (has_prefix (chars "ref:") head) then ([], head)
      else
        let ref := TrimSpace (TrimPrefix (chars "ref:") head) in
        let commit := match gw_read (Join gitDir ref) with
                      | Some c => c
                      | None => if bool_decide (commonDir = gitDir) then [] else default [] (gw_read (Join commonDir ref))
                      end in
        (TrimPrefix (chars "refs/heads/") ref, TrimSpace commit)
  end.

Definition DiscoverSessionContext (repoPath actorID sourceLabel key : list Z) : SessionContext :=
  let base machine wd repo branch commit := MkContext actorID sourceLabel gw_os gw_arch machine wd repo branch commit in
  if negb (length key =? identityKeyBytes)%nat then base [] [] [] [] []
  else
    let machine := keyedID key (chars "machine") in
    match repoPath with
    | [] => base machine [] [] [] []
    | _ =>
        match Abs gw_wd repoPath with
        | None => base machine [] [] [] []
        | Some absPath =>
            let absPath := Clean absPath in
            let wd := keyedID key absPath in
            match findGitDirectory absPath with
            | None | Some (_, []) => base machine wd [] [] []
            | Some (repoRoot, gitDir) =>
                let commonDir := gitCommonDirectory gitDir in
                let canonical := canonicalRemote (readOriginRemote (Join commonDir (chars "config"))) in
                let root := if bool_decide (commonDir = gitDir) then repoRoot
                            else if bool_decide (Base commonDir = GIT) then DirL commonDir else commonDir in
                let repo := keyedID key (match canonical with [] => root | _ => canonical end) in
                let '(branch, commit) := readGitHead gitDir commonDir in
                base machine wd repo branch commit
            end
        end
    end.
End context.

(** ** One key *)

Definition good_key (k : list Z) : Prop := length k = identityKeyBytes.

Definition phase_ok (f : key_file) (ph : key_phase) : Prop :=
  match ph with
  | Linking k => good_key k
  | Syncing k | Loaded k => f = KeyBytes k /\ good_key k
  | _ => True
  end.

Definition event_ok (e : key_event) : Prop := match e with Runs _ _ random => good_key random | Dies _ => True end.

(** A step never changes a file that is there. *)
Lemma key_step_ok f ph ok random : good_key random -> phase_ok f ph ->
  let '(f', ph') := key_step f ph ok random in phase_ok f' ph' /\ (f <> NoKey -> f' = f).
Proof.
  intros Hr Hp; destruct ph as [| |k| |k|k|]; cbn in *; auto.
  - destruct f as [|k|]; cbn; auto; destruct (Nat.eqb_spec (length k) identityKeyBytes); cbn; auto; destruct ok; cbn; auto.
  - destruct ok; cbn; auto.
  - destruct f; cbn; auto; destruct ok; cbn; auto; split; [auto|congruence].
  - destruct f as [|k|]; cbn; auto; destruct (Nat.eqb_spec (length k) identityKeyBytes); cbn; auto; destruct ok; cbn; auto.
  - destruct ok; cbn; auto.
Qed.

Lemma phase_ok_mono f f' ph : (f <> NoKey -> f' = f) -> phase_ok f ph -> phase_ok f' ph.
Proof. intros H; destruct ph; cbn; auto; intros [-> Hk]; (split; [apply H; discriminate|exact Hk]). Qed.

Lemma key_happens_ok w e : event_ok e -> Forall (phase_ok (kw_file w)) (kw_phases w) ->
  Forall (phase_ok (kw_file (key_happens w e))) (kw_phases (key_happens w e)) /\ (kw_file w <> NoKey -> kw_file (key_happens w e) = kw_file w).
Proof.
  intros He Hw; destruct e as [i ok random|i]; cbn.
  - destruct (kw_phases w !! i) as [ph|] eqn:E; [|auto].
    pose proof (key_step_ok (kw_file w) ph ok random He (Forall_lookup_1 _ _ _ _ Hw E)) as H.
    destruct (key_step _ _ _ _) as [f' ph']; destruct H as [H1 H2]; cbn; split; [|exact H2].
    apply Forall_insert; [|exact H1]; eapply Forall_impl; [|exact Hw]; intros x; apply phase_ok_mono, H2.
  - split; [apply Forall_insert; [exact Hw|exact I]|auto].
Qed.

(** However many daemons start at the same time, with operations that fail and processes
    that end at any point: all that get a key get the same one, of the right size, and it is the
    one on disk. *)
Theorem keys_converge f n es : Forall event_ok es ->
  let w := foldl key_happens (MkKeys f (replicate n Reading)) es in
  (forall i j a b, kw_phases w !! i = Some (Loaded a) -> kw_phases w !! j = Some (Loaded b) -> a = b /\ good_key a) /\
  (forall i a, kw_phases w !! i = Some (Loaded a) -> kw_file w = KeyBytes a) /\
  (f <> NoKey -> kw_file w = f).
Proof.
  intros He; assert (H0 : Forall (phase_ok f) (replicate n Reading)) by (apply Forall_replicate; exact Logic.I).
  assert (G : forall w, Forall (phase_ok (kw_file w)) (kw_phases w) -> Forall event_ok es ->
    Forall (phase_ok (kw_file (foldl key_happens w es))) (kw_phases (foldl key_happens w es)) /\ (kw_file w <> NoKey -> kw_file (foldl key_happens w es) = kw_file w)).
  { clear; induction es as [|e es IH]; intros w Hw He; [auto|]; apply Forall_cons_iff in He as [He1 He2]; cbn [foldl].
    destruct (key_happens_ok w e He1 Hw) as [H1 H2]; destruct (IH _ H1 He2) as [H3 H4]; split; [exact H3|].
    intros Hn; rewrite H4 by (rewrite H2; exact Hn); auto. }
  destruct (G (MkKeys f (replicate n Reading)) H0 He) as [H1 H2]; cbn zeta; set (w := foldl _ _ _) in *.
  assert (L : forall i a, kw_phases w !! i = Some (Loaded a) -> kw_file w = KeyBytes a /\ good_key a) by (intros i a Hi; exact (Forall_lookup_1 _ _ _ _ H1 Hi)).
  split_and!; [|intros i a Hi; apply (L i a Hi)|exact H2].
  intros i j a b Ha Hb; destruct (L i a Ha) as [E1 G1], (L j b Hb) as [E2 _]; split; [congruence|exact G1].
Qed.

(** ** The way up ends *)

Lemma DirL_up ds w : Forall component ds -> component w -> DirL (SEP :: join_path (ds ++ [w])) = SEP :: join_path ds.
Proof.
  intros Hd (Hw & _); unfold DirL; destruct ds as [|d ds].
  - cbn [app join_path]; pose proof (upto_last [] w Hw) as E; cbn [app] in E; rewrite E; reflexivity.
  - rewrite join_path_snoc by discriminate; rewrite app_comm_cons, upto_last by exact Hw.
    pose proof (Clean_join (d :: ds) Hd) as HC; unfold Clean in HC |- *; cbn [app]; change (SEP =? SEP) with true in *; cbn iota in *.
    rewrite app_comm_cons, split_path_slash, fold_left_app; exact HC.
Qed.

Theorem git_search_ends `{W : GitWorld} ds fuel : Forall component ds -> (length ds < fuel)%nat -> is_Some (find_git fuel (SEP :: join_path ds)).
Proof.
  revert fuel; induction ds as [|w ds IH] using rev_ind; intros [|fuel] Hd Hf; cbn in Hf; try lia; cbn [find_git]; destruct (git_here _); eauto.
  apply Forall_app in Hd as [Hd Hw]; apply Forall_cons_iff in Hw as [Hw _]; rewrite DirL_up by assumption; case_bool_decide; [eauto|].
  apply IH; [exact Hd|]; rewrite length_app in Hf; cbn in Hf; lia.
Qed.

(** ** What the collector accepts *)

(** Digests are 64 hexadecimal digits. *)
Definition digests `{GitWorld} : Prop := forall key v, length (gw_hmac key v) = sha256HexLength /\ hex_ok (gw_hmac key v) = true.

Definition commit_ok (sha : list Z) : bool :=
  match sha with [] => true | _ => ((length sha =? 40)%nat || (length sha =? 64)%nat) && hex_ok sha end.

(** HEAD and the branch it names are as git writes them. *)
Definition head_ok `{GitWorld} : Prop := forall gitDir commonDir,
  validMetadata (fst (readGitHead gitDir commonDir)) 255 = true /\ commit_ok (snd (readGitHead gitDir commonDir)) = true.

Lemma digest_accepted `{GitWorld} key v : digests -> validOptionalDigest (keyedID key v) = true.
Proof.
  intros H0; destruct (H0 key v) as [H1 H2]; unfold validOptionalDigest, keyedID; destruct (gw_hmac key v); [reflexivity|].
  rewrite H2, andb_true_r; apply Nat.eqb_eq, H1.
Qed.

(** A context that was discovered is accepted by the collector, wherever the session runs: in no
    repository, in a work tree, with or without a remote. *)
Theorem discovered_context_accepted `{W : GitWorld} repoPath actorID sourceLabel key : digests -> head_ok ->
  (actorID = [] \/ valid_id actorID = true) -> (sourceLabel = [] \/ valid_id sourceLabel = true) ->
  validMetadata gw_os 32 = true -> validMetadata gw_arch 32 = true ->
  validSessionContext actorID (DiscoverSessionContext repoPath actorID sourceLabel key) = true.
Proof.
  intros Hd Hh Ha Hl Ho Hr.
  assert (G : forall m w r b c, validOptionalDigest m = true -> validOptionalDigest w = true -> validOptionalDigest r = true -> validMetadata b 255 = true -> commit_ok c = true ->
    validSessionContext actorID (MkContext actorID sourceLabel gw_os gw_arch m w r b c) = true).
  { intros m w r b c H1 H2 H3 H4 H5; unfold validSessionContext; cbn [cx_ActorID cx_SourceLabel cx_OS cx_Arch cx_MachineID cx_WorkingDirectoryID cx_RepositoryID cx_Branch cx_CommitSHA].
    rewrite H1, H2, H3, H4, Ho, Hr, bool_decide_eq_true_2 by reflexivity; cbn [andb].
    assert (E : forall x, x = [] \/ valid_id x = true -> bool_decide (x = []) || valid_id x = true) by (intros x [->| ->]; [reflexivity|apply orb_true_r]).
    rewrite (E _ Ha), (E _ Hl); cbn [andb]; destruct c; exact H5. }
  assert (Hk : forall v, validOptionalDigest (keyedID key v) = true) by (intros v; apply digest_accepted, Hd).
  assert (E0 : validMetadata [] 255 = true) by reflexivity.
  unfold DiscoverSessionContext; destruct (negb _); [auto|]; destruct repoPath as [|c p]; [auto|]; destruct (Abs gw_wd (c :: p)) as [a|]; [|auto].
  destruct (findGitDirectory (Clean a)) as [[root gitDir]|]; [|auto]; destruct gitDir as [|g gs]; [auto|].
  pose proof (Hh (g :: gs) (gitCommonDirectory (g :: gs))) as [H1 H2]; destruct (readGitHead _ _) as [b sha]; auto.
Qed.

(** A branch that is a symbolic reference (git symbolic-ref) has the name of another one in
    its file: it is taken for the commit, and the collector refuses the context and with it the
    segment. *)
Definition symbolic_branch : GitWorld := {|
  gw_wd := None;
  gw_stat p := if bool_decide (p = chars "/w/.git") then Some true else None;
  gw_read p := if bool_decide (p = chars "/w/.git/HEAD") then Some (chars "ref: refs/heads/main" ++ [10])
               else if bool_decide (p = chars "/w/.git/refs/heads/main") then Some (chars "ref: refs/heads/trunk" ++ [10]) else None;
  gw_url _ := None; gw_hmac _ _ := repeat 48 64; gw_fold _ _ := false; gw_lower _ := []; gw_os := chars "linux"; gw_arch := chars "amd64" |}.

Lemma symbolic_branch_refused :
  let c := DiscoverSessionContext (W := symbolic_branch) (chars "/w/src") (chars "actor") [] (repeat 7 32) in
  cx_Branch c = chars "main" /\ cx_CommitSHA c = chars "ref: refs/heads/trunk" /\ validSessionContext (chars "actor") c = false.
Proof. vm_compute; auto. Qed.

(** The two spellings of a remote over ssh have one canonical form, without the user. *)
Example remote_forms :
  let W := {| gw_wd := None; gw_stat _ := None; gw_read _ := None;
              gw_url r := if bool_decide (r = chars "ssh://git@GitHub.com/a/b.git") then Some (chars "ssh", chars "GitHub.com", chars "/a/b.git") else None;
              gw_hmac _ v := v; gw_fold _ _ := false; gw_lower _ := []; gw_os := []; gw_arch := [] |} in
  canonicalRemote (W := W) (chars "ssh://git@GitHub.com/a/b.git") = chars "ssh://github.com/a/b" /\
  canonicalRemote (W := W) (chars "git@github.com:a/b.git") = chars "ssh://github.com/a/b".
Proof. vm_compute; auto. Qed.
